(* ===== verification/_CoqProject ===== *)
-Q . S2P
Prelude.v
Sha256.v
Digest.v
Library.v
Probe.v
Contract.v
Journal.v
Directory.v
JournalFile.v
DriverStores.v
Interfaces.v
Memory.v
Lifecycle.v
Plan.v
Policy.v
Enforcement.v
EnforcementRun.v
StateFile.v
Posture.v
Gate.v
Findings.v
Sanitize.v
Trust.v
NanoLang.v
Events.v
EventStore.v
NanoEval.v
Retention.v
EventIngest.v
EventQueue.v
AgentLoop.v
AuditStore.v
AuditService.v
EnrollmentStore.v
Enrollment.v
ActionStore.v
ActionDecisions.v
ActionServer.v
ActionLifecycle.v
PostureReports.v
DirectoryFacts.v
ContractFacts.v
ProbeFacts.v
ContractSpec.v
JournalFacts.v
JournalFileFacts.v
JournalSpec.v
DriverStoreFacts.v
MemoryFacts.v
MemorySpec.v
LifecycleFacts.v
LifecycleSpec.v
Runs.v
PolicyFacts.v
EnforcementFacts.v
ReplayFacts.v
StateFileFacts.v
GateFacts.v
NanoFacts.v
NanoEvalFacts.v
SanitizeFacts.v
TrustFacts.v
EventFacts.v
EventStoreFacts.v
RetentionFacts.v
EventIngestFacts.v
EventQueueFacts.v
DeliveryFacts.v
EventRuns.v
AuditChainFacts.v
AuditFacts.v
AuditSpec.v
AuditRuns.v
EnrollmentFacts.v
EnrollmentSpec.v
EnrollmentRuns.v
ActionStoreFacts.v
ReportFacts.v
ActionSpec.v
ActionRuns.v
