(* ===== verification/Prelude.v ===== *)
(** * AntiFlock: a verification library of the agent and Core

    AntiFlock's agents protect hosts for a Core that operators trust. An agent
    changes its host only through a driver and as part of a signed plan, and
    sends what it observes as signed events; Core stores the events, keeps a
    signed audit log, admits nodes, judges the posture of each and decides
    which protected actions an application may execute. This library models
    these parts of the Go program under [src/], each definition named after
    the declaration it translates, and proves what makes them correct.

    ** The parts, and how they interact

    Agent:
    - agent/driver (Contract, Probe, Digest, Journal, JournalFile, DriverStores,
      Lifecycle, Interfaces, Memory): the values that cross the
      host-mutation boundary and their digests, the crash-safe journal with
      its in-process and its durable form, the replay boundary, the receipts,
      the state machine that ties them together, and the reference driver;
    - core/policy and agent/enforcement (Plan, Policy, Enforcement,
      EnforcementRun, StateFile): a profile compiles to a signed plan; the
      enforcer validates it, reserves it in a plan state (in process or in a
      file), runs its checks and operations and undoes what it began;
    - agent/runtime (EventQueue, AgentLoop): the durable queue of events and
      the loop that signs, submits and acknowledges them.

    Core:
    - internal/model and core/events (Events, EventStore, EventIngest): envelopes, their validation and signatures, the event log
      with its sequences and cursors, and the append with its subscribers;
    - core/audit (AuditStore, AuditService): the signed chain of entries, the
      anchor file beside the database, recovery, and the common form of an
      audited mutation, which the parts below go through;
    - core/enrollment and core/identity (EnrollmentStore, Enrollment): tokens,
      requests, decisions, nodes and their certificates;
    - core/posture and core/actions (Posture, Gate): the posture engine and
      the action gate of the library;
    - core/findings (Findings): findings from the reasons of snapshots;
    - core/retention (Retention): the deletion of old events in batches, each
      with a receipt in a chain of tombstones;
    - core/server, the action gate (ActionStore, ActionDecisions,
      ActionServer, ActionLifecycle, PostureReports): evaluation of protected
      actions, one-time authorization, the audit of their execution, the list
      of actions, and posture reports, over the audit service, the event log,
      the posture engine and the findings;
    - core/nano (NanoLang, NanoEval): the strategy language, its compiler and
      evaluator, proposals, and the runner with its cursor stores, in process
      and over Core's database.

    For both: internal/trust (Sanitize, Trust), the rendering, classification
    and wrapping of text from outside, replay detection, and bounded JSON.

    Shared: Prelude (errors, results, byte strings, times, the effect monad,
    the weakest-precondition rules, automation), Sha256 (the class [Hasher]
    with SHA-256 and with the cheap [foldHasher], which the runs evaluate),
    Library (base 64, the civil calendar of [AddDate], tables as lists of
    rows), Directory (a directory with system calls that fail and power that
    is lost).

    ** The theorems

    Files ending in Facts, Spec or Runs hold proofs; Runs evaluates concrete
    histories and has the witnesses.
    - ContractFacts, ContractSpec, ProbeFacts: which values are accepted,
      exactly, and what each digest commits to;
    - JournalFacts, JournalSpec, DirectoryFacts, JournalFileFacts: a journal
      write refines the automaton of one entry; reachable journals load; a
      write of the file is atomic and durable under every failure;
    - DriverStoreFacts: at most one grant per plan for ever; an
      append-only log without duplicates;
    - MemoryFacts, MemorySpec: the effect of apply, rollback and recovery of
      the reference driver; a crash is undone;
    - LifecycleFacts, LifecycleSpec, Runs: the invariant of the lifecycle, the
      gate before the host, recovery, for every driver and store that obeys
      the laws of Interfaces. The in-process ones discharge them
      ([MemoryJournal_laws], [MemoryReservation_laws], [Memory_laws]), and so
      does the durable journal ([FileJournal_laws]), whose write may land and
      still fail: the invariant and the gate allow for it. Theorems that hold
      only when a failed write leaves nothing behind ask for [journal_atomic],
      which is a law of the in-process journal;
    - PolicyFacts, EnforcementFacts, ReplayFacts, StateFileFacts: compiled plans are accepted; an apply is all or undone;
      a plan is executed at most once over the file;
    - GateFacts: the posture engine and the gate of the library, branch by
      branch, what a permission rests on, and the evidence it claims;
    - NanoFacts, NanoEvalFacts: the compiler accepts exactly the grammar; the
      evaluator emits exactly what is due; runs that interleave at their calls
      of a shared cursor store never fire twice in an interval. A run is
      [RunFinding] itself over a store that answers from a script, so that it
      can be stopped at each call; the laws of the store ([CursorLaws]) are
      proved of both stores;
    - EventFacts, EventStoreFacts, EventIngestFacts, EventQueueFacts,
      DeliveryFacts, EventRuns: envelopes round trip and are authentic, the
      log is contiguous, sequences are never reused, and no event is lost
      between the queue and Core; events of a new boot id, numbered on from the
      old one, are never stored;
    - AuditChainFacts, AuditFacts, AuditSpec, AuditRuns: a log whose first
      start succeeded, on a file system where syncing a new file makes its
      name durable, recovers from every state it can reach, is append-only and
      tamper-evident, and any change committed with an entry is committed with
      it or not at all;
    - EnrollmentFacts, EnrollmentSpec, EnrollmentRuns: every
      call refines the admission protocol, every node was admitted by an
      operator, decisions are final, retries answer the same, and an issued
      certificate is one that ingestion accepts;
    - ActionStoreFacts, ReportFacts, ActionSpec,
      ActionRuns: every call of the action gate refines one audited change;
      an action is executed at most once and on authority; what is allowed
      rests on a fresh protected posture; a protected posture rests on bound
      evidence; findings follow the snapshots;
    - SanitizeFacts, TrustFacts: a rendering is safe, bounded and settled; the
      scan misses nothing; JSON is accepted exactly when complete and within
      its limits, over a tokenizer that may stop anywhere; what
      counts as a replay; an envelope keeps what it was wrapped with;
    - RetentionFacts: what a pass deletes, exactly; no event
      disappears without a receipt; the head of the chain commits to what was
      deleted.

    ** How the code is modelled

    A method is a function [M S A] from a tick and a state to a result and a
    state: a method that fails keeps the mutations it made. Ticks count the
    observations of the environment (a clock, a context, a system call, a
    statement of the database), and clocks, contexts and failures are
    functions of ticks, so that a theorem that quantifies over them covers
    every schedule of deadlines, cancellations and failures. [wp m Q s] says
    that [m], run from [s] at any tick, ends as [Q] says; the methods are
    total functions, so [wp] includes termination. Operations are taken one
    after another, as the mutexes and SQLite's single writer take them (the
    two statements of a swap of the nano cursor, which are not in one
    transaction, included: the second, which decides, inserts only where
    there is no row);
    between two of them a step relation lets any other operation, a restart
    or a power loss happen ([gateStep], [enrollStep], [auditStep],
    [queue_step]), and the invariants are proved along every such life.

    A transaction is [dbTransaction]: its body may fail at every statement, and
    the tables are then as before. The rows of a table are a list or a
    [gmap]; unique constraints and indexes fail the statements that meet
    them. A file is its bytes in the cache and on the disk; what a power loss
    may leave of it is a relation ([afterPowerLoss], [mayLeave]).

    Fuel: [blocks] of Sha256.v has the length of the message, more than its
    blocks; [TrimSpace] the length of the string; the tokenizer the length of
    the source and the parser the number of tokens (NanoFacts proves both
    enough); [drain] the number of queued events (DeliveryFacts proves it
    enough); the pages of the audit verification the number of entries plus
    one; the loops over a text of Sanitize.v its length (SanitizeFacts proves
    it enough). Every other loop is structural, except the wait for a file lock, whose length
    is part of the environment ([contention]).

    Go maps are [gmap]s, and theorems that concern their iteration order say
    so. Machine integers are [Z], wrapped where the code can wrap them; an
    instant is a number of nanoseconds since the Unix epoch. An error is the
    sentinel or the text it is made of.

    Parameters, each a class or an argument, with the documented behaviour it
    is used for as laws, and an instance or a concrete function in a Runs
    file: the hash ([Hasher]); Ed25519 ([Ed25519]); HMAC-SHA512 ([Hmac512]);
    encoding/json, protobuf and the texts of times ([JournalCodec],
    [StateCodec], [EventCodec], [QueueCodec], [AuditCodec], [EnrollCodec],
    [ActionCodec], [ActionText], [ObservationCodec],
    [RetentionCodec]); the table of printable runes ([UnicodeTables]); the
    tokenizer of encoding/json; the parsers and the
    builder of x509; strings.ToLower, ToUpper and EqualFold; the text of a
    float and the JSON text of the nano IR; reflection over payload messages;
    the HTTP transport between agent and Core.

    ** What is not modelled

    The Windows and unsupported-platform variants (system calls only); the
    conformance suite and the simulator (test harnesses); the nftables
    adapter, capability discovery and the collectors (they read the host);
    plan files, key files and the creation of a deployment's identity (files
    and generated keys, read once); configuration parsing; the HTTP handlers,
    views, streams, the long poll [wait] and the token authenticator of the
    server; opening and migrating the database; the storage of nano programs;
    the goroutine of the retention scheduler; scrambler, footprint and
    integrations; clients and adapters of
    other services. The legacy [EnrollNode] path of the storage is modelled
    but is not a step of a deployment's life: only tests call it. Nil
    receivers are not modelled. *)

From stdpp Require Import base gmap strings list sorting.
From Stdlib Require Import ZArith Lia.

Open Scope Z_scope.

(** ** Errors and results

    Go's [error] values: the code only ever distinguishes them with
    [errors.Is] against a sentinel, so an error is the sentinel it wraps.
    [errors.New] creates a sentinel from its text, and the texts of the
    sentinels are pairwise distinct. *)

Inductive error : Type :=
| errorsNew (text : string).

#[export] Instance error_eq_dec : EqDecision error.
Proof. solve_decision. Defined.

(** [context.Canceled] and [context.DeadlineExceeded]. *)
Definition Canceled : error := errorsNew "context canceled".
Definition DeadlineExceeded : error := errorsNew "context deadline exceeded".

Inductive result (A : Type) : Type :=
| Ok (a : A)
| Err (e : error).
Arguments Ok {A} a.
Arguments Err {A} e.

Definition rbind {A B : Type} (r : result A) (k : A -> result B) : result B :=
  match r with Ok a => k a | Err e => Err e end.

Definition is_ok {A : Type} (r : result A) : bool :=
  match r with Ok _ => true | Err _ => false end.

Declare Scope go_scope.
Delimit Scope go_scope with go.
Open Scope go_scope.

Notation "'do' x <- c ; k" := (rbind c (fun x => k))
  (at level 10, x binder, c at level 100, k at level 200) : go_scope.
Notation "'ensure' c ; k" := (rbind c (fun _ => k))
  (at level 10, c at level 100, k at level 200) : go_scope.
(** [if cond { return err }]. *)
Notation "'reject' b 'with' e ; k" := (if b then Err e else k)
  (at level 10, b at level 100, e at level 100, k at level 200) : go_scope.

(** A loop whose body may return an error: the first error wins. *)
Fixpoint each {A : Type} (f : A -> result unit) (l : list A) : result unit :=
  match l with
  | [] => Ok tt
  | x :: r => rbind (f x) (fun _ => each f r)
  end.

Lemma rbind_Ok {A B} (r : result A) (k : A -> result B) b :
  rbind r k = Ok b <-> exists a, r = Ok a /\ k a = Ok b.
Proof. destruct r; simpl; naive_solver. Qed.

Lemma rbind_Err {A B} (r : result A) (k : A -> result B) e :
  rbind r k = Err e <-> r = Err e \/ exists a, r = Ok a /\ k a = Err e.
Proof. destruct r; simpl; naive_solver. Qed.

Lemma each_Ok {A} (f : A -> result unit) l :
  each f l = Ok tt <-> Forall (fun x => f x = Ok tt) l.
Proof.
  induction l as [|x r IH]; simpl; [done|].
  rewrite Forall_cons, <- IH. destruct (f x) as [[]|]; simpl; naive_solver.
Qed.

Lemma each_Err {A} (f : A -> result unit) l e :
  each f l = Err e -> exists x, x ∈ l /\ f x = Err e.
Proof.
  induction l as [|x r IH]; simpl; [done|]. intros [Hx|(_ & _ & Hr)]%rbind_Err.
  - exists x. split; [apply list_elem_of_here|done].
  - destruct (IH Hr) as (y & Hy & ?). exists y. split; [by apply list_elem_of_further|done].
Qed.

Lemma is_ok_unit (r : result unit) : is_ok r = true <-> r = Ok tt.
Proof. destruct r as [[]|]; simpl; naive_solver. Qed.

(** Guards and sequences of guards. *)

Lemma reject_Ok {A} (b : bool) e (k : result A) a :
  (if b then Err e else k) = Ok a <-> b = false /\ k = Ok a.
Proof. destruct b; naive_solver. Qed.

(** Take a successful validation apart. *)
Ltac validated H :=
  repeat match type of H with
  | (if _ then Err _ else _) = Ok _ =>
      let Hb := fresh "Hv" in apply reject_Ok in H as [Hb H]
  | rbind _ _ = Ok _ =>
      let a := fresh "a" in let Hb := fresh "Hv" in
      apply rbind_Ok in H as (a & Hb & H); match type of a with unit => destruct a | _ => idtac end
  end.

Lemma orb_false b c : b || c = false <-> b = false /\ c = false.
Proof. destruct b, c; naive_solver. Qed.

(** [x != nil]. *)
Definition isSome {A : Type} (o : option A) : bool := match o with Some _ => true | None => false end.

Lemma isSome_exists {A} (o : option A) : isSome o = true -> exists x, o = Some x.
Proof. destruct o; [eauto|done]. Qed.

Lemma isSome_if (b : bool) {A} (x : A) : isSome (if b then Some x else None) = b.
Proof. by destruct b. Qed.

(** ** Lists *)

Lemma cons_inj {A} (a b : A) l k : a :: l = b :: k -> a = b /\ l = k.
Proof. intros E. by injection E. Qed.

(** A key that is unique in a list identifies its element. *)
Lemma NoDup_fmap_inj {A B} (f : A -> B) (l : list A) x y :
  NoDup (f <$> l) -> x ∈ l -> y ∈ l -> f x = f y -> x = y.
Proof.
  intros Hnd [i Hi]%list_elem_of_lookup [j Hj]%list_elem_of_lookup Hf.
  assert (i = j) as ->; [|congruence].
  eapply NoDup_lookup; [exact Hnd|..]; rewrite list_lookup_fmap, ?Hi, ?Hj; simpl; [done|by rewrite Hf].
Qed.

(** Sorting by a total order forgets the order of its input. *)
Lemma merge_sort_ext {A} (R : relation A) `{forall x y, Decision (R x y)} `{!Total R} `{!Transitive R} `{!AntiSymm (=) R} (l k : list A) :
  l ≡ₚ k -> merge_sort R l = merge_sort R k.
Proof.
  intros Hp. apply (StronglySorted_unique R); [apply StronglySorted_merge_sort; apply _..|].
  by rewrite !merge_sort_Permutation.
Qed.

(** ** Strings as Go byte strings *)

Definition byte_of (c : Ascii.ascii) : Z := Z.of_N (Ascii.N_of_ascii c).

Fixpoint bytes_of (s : string) : list Z :=
  match s with
  | EmptyString => []
  | String c r => byte_of c :: bytes_of r
  end.

(** [len] of a string and of a slice. *)
Definition slen (s : string) : Z := Z.of_nat (String.length s).
Definition len {A : Type} (l : list A) : Z := Z.of_nat (length l).

Fixpoint all_chars (p : Z -> bool) (s : string) : bool :=
  match s with
  | EmptyString => true
  | String c r => p (byte_of c) && all_chars p r
  end.

(** [strings.ContainsAny]. *)
Definition containsAny (s : string) (chars : list Z) : bool :=
  negb (all_chars (fun b => negb (existsb (Z.eqb b) chars)) s).

(** [strings.HasPrefix]. *)
Definition hasPrefix (s prefix : string) : bool := String.prefix prefix s.

(** [strings.TrimPrefix] of a string that has the prefix. *)
Fixpoint trimPrefix (s prefix : string) : string :=
  match prefix, s with
  | EmptyString, _ => s
  | String p ps, String c cs => if bool_decide (p = c) then trimPrefix cs ps else s
  | _, EmptyString => s
  end.

Lemma hasPrefix_app p s : hasPrefix (p +:+ s) p = true.
Proof. induction p as [|c p IH]; [by destruct s|]. simpl. by destruct (Ascii.ascii_dec c c). Qed.

Lemma trimPrefix_app p s : trimPrefix (p +:+ s) p = s.
Proof. induction p as [|c p IH]; [by destruct s|]. simpl. by rewrite bool_decide_eq_true_2. Qed.

Lemma trimPrefix_split p : forall s, hasPrefix s p = true -> s = p +:+ trimPrefix s p.
Proof.
  induction p as [|c p IH]; intros s Hs; [by destruct s|]. destruct s as [|x s]; [done|]. unfold hasPrefix in *. simpl in Hs.
  destruct (Ascii.ascii_dec c x) as [->|]; [|done]. cbn [trimPrefix]. rewrite bool_decide_eq_true_2 by done.
  change (String x s = String x (p +:+ trimPrefix s p)). f_equal. by apply IH.
Qed.

Definition eqs (a b : string) : bool := bool_decide (a = b).

Lemma eqs_true a b : eqs a b = true <-> a = b.
Proof. unfold eqs. by rewrite bool_decide_eq_true. Qed.

Lemma eqs_false a b : eqs a b = false <-> a <> b.
Proof. apply bool_decide_eq_false. Qed.

Lemma eqs_refl a : eqs a a = true.
Proof. by apply eqs_true. Qed.

Lemma byte_of_range c : 0 <= byte_of c < 256.
Proof.
  unfold byte_of. pose proof (Ascii.N_ascii_bounded c). lia.
Qed.

Lemma byte_of_inj c d : byte_of c = byte_of d -> c = d.
Proof.
  unfold byte_of. intros H%N2Z.inj.
  by rewrite <- (Ascii.ascii_N_embedding c), <- (Ascii.ascii_N_embedding d), H.
Qed.

Lemma bytes_of_inj s t : bytes_of s = bytes_of t -> s = t.
Proof.
  revert t; induction s as [|c s IH]; intros [|d t] H; simpl in *; try done.
  injection H as Hc Ht. apply byte_of_inj in Hc. by rewrite Hc, (IH t Ht).
Qed.

Lemma map_bytes_of_inj l k : map bytes_of l = map bytes_of k -> l = k.
Proof.
  revert k; induction l as [|s l IH]; intros [|t k] E; simpl in *; try done.
  injection E as Es Ek. by rewrite (bytes_of_inj s t Es), (IH k Ek).
Qed.

Lemma bytes_of_length s : length (bytes_of s) = String.length s.
Proof. induction s; simpl; congruence. Qed.

Lemma bytes_of_app a b : bytes_of (a +:+ b) = bytes_of a ++ bytes_of b.
Proof. induction a as [|c a IH]; simpl; [done|by rewrite IH]. Qed.

Lemma bytes_of_range s : Forall (fun b => 0 <= b < 256) (bytes_of s).
Proof. induction s; simpl; constructor; auto using byte_of_range. Qed.

Lemma all_chars_forall p s :
  all_chars p s = true <-> Forall (fun b => p b = true) (bytes_of s).
Proof.
  induction s as [|c s IH]; simpl; [done|].
  by rewrite Forall_cons, andb_true_iff, IH.
Qed.

Lemma containsAny_false s chars :
  containsAny s chars = false <-> Forall (fun b => b ∉ chars) (bytes_of s).
Proof.
  unfold containsAny. rewrite negb_false_iff, all_chars_forall.
  apply Forall_iff. intros b. rewrite negb_true_iff, <- not_true_iff_false, existsb_exists.
  split.
  - intros Hn Hb. apply Hn. exists b. rewrite <- list_elem_of_In, Z.eqb_refl. done.
  - intros Hn (c & Hc%list_elem_of_In & ->%Z.eqb_eq). done.
Qed.

Lemma slen_nonempty s : eqs s EmptyString = false <-> s <> EmptyString.
Proof. rewrite <- not_true_iff_false, eqs_true. done. Qed.

(** ** Time

    [time.Time] as nanoseconds since the Unix epoch; Go's zero time is
    January 1, year 1, 00:00:00 UTC. [UTC()] does not change the instant. *)

Abbreviation time := Z (only parsing).
Definition zeroTime : time := - 62135596800 * 1000000000.
Definition IsZero (t : time) : bool := t =? zeroTime.
Definition Unix (t : time) : Z := t / 1000000000.
Definition Nanosecond (t : time) : Z := t mod 1000000000.

(** [time.Duration] in nanoseconds. *)
Definition Second : Z := 1000000000.
Definition Minute : Z := 60 * Second.
Definition Hour : Z := 60 * Minute.

(** [t.Sub(u)] saturates at the ends of [time.Duration]. *)
Definition Sub (t u : time) : Z := Z.max (- 2 ^ 63) (Z.min (2 ^ 63 - 1) (t - u)).

Lemma time_split t : t = Unix t * 1000000000 + Nanosecond t.
Proof. unfold Unix, Nanosecond. rewrite (Z.div_mod t 1000000000) at 1; lia. Qed.

(** ** Effects

    A component's methods are state-passing functions over its state [S],
    threaded with a tick: a counter that advances at every observation of the
    environment (reading a clock, asking a context whether it is done). A
    clock is the function from ticks to the instant it shows, a context the
    function from ticks to what [ctx.Err()] returns, so that a theorem about
    every clock and every context covers every schedule of cancellations and
    deadlines. A method returns its result beside the state it leaves behind,
    because a Go method that fails keeps the mutations it made. *)

Definition M (S A : Type) : Type := nat * S -> result A * (nat * S).

Definition clockT : Type := nat -> time.
Definition ctxT : Type := nat -> option error.

(** [context.Background()] and [context.WithoutCancel]. *)
Definition Background : ctxT := fun _ => None.

Section Monad.
Context {S : Type}.

Definition retM {A : Type} (a : A) : M S A := fun st => (Ok a, st).
Definition failM {A : Type} (e : error) : M S A := fun st => (Err e, st).
Definition bindM {A B : Type} (m : M S A) (k : A -> M S B) : M S B := fun st =>
  match m st with
  | (Ok a, st') => k a st'
  | (Err e, st') => (Err e, st')
  end.
Definition liftR {A : Type} (r : result A) : M S A := fun st => (r, st).
Definition getS : M S S := fun st => (Ok (snd st), st).
Definition modS (f : S -> S) : M S unit := fun st => (Ok tt, (fst st, f (snd st))).
(** Run a method and look at its error instead of propagating it. *)
Definition attempt {A : Type} (m : M S A) : M S (result A) := fun st =>
  match m st with (r, st') => (Ok r, st') end.
(** [if err != nil { h; return err }]. *)
Definition onErr {A : Type} (h : S -> S) (m : M S A) : M S A := fun st =>
  match m st with
  | (Ok a, st') => (Ok a, st')
  | (Err e, (n, s)) => (Err e, (n, h s))
  end.
(** Reading a clock, and [ctx.Err()]. *)
Definition now (clock : clockT) : M S time := fun st =>
  (Ok (clock (fst st)), (Datatypes.S (fst st), snd st)).
Definition ctxErr (ctx : ctxT) : M S unit := fun st =>
  (match ctx (fst st) with Some e => Err e | None => Ok tt end,
   (Datatypes.S (fst st), snd st)).
(** [context.WithTimeout] against the machine's monotonic clock [wall]. *)
Definition withTimeout (wall : clockT) (ctx : ctxT) (timeout : Z) : M S ctxT := fun st =>
  (Ok (fun k => match ctx k with
                | Some e => Some e
                | None => if wall (fst st) + timeout <=? wall k
                          then Some DeadlineExceeded else None
                end), (Datatypes.S (fst st), snd st)).
(** A loop with a body that may fail and mutate. *)
Fixpoint eachM {A B : Type} (f : A -> M S B) (l : list A) : M S (list B) :=
  match l with
  | [] => retM []
  | x :: r => bindM (f x) (fun y => bindM (eachM f r) (fun ys => retM (y :: ys)))
  end.
End Monad.

(** Run a method of a component held inside a larger state. *)
Definition zoom {W S A : Type} (get : W -> S) (set : S -> W -> W) (m : M S A) : M W A :=
  fun st => match m (fst st, get (snd st)) with
            | (r, (n, s)) => (r, (n, set s (snd st)))
            end.

Notation "'let!' x := m 'in' k" := (bindM m (fun x => k))
  (at level 10, x binder, m at level 100, k at level 200) : go_scope.
Notation "'run!' m 'in' k" := (bindM m (fun _ => k))
  (at level 10, m at level 100, k at level 200) : go_scope.

(** ** Weakest preconditions

    [wp m Q s]: whatever the tick, running [m] from [s] ends in a result and
    a state that satisfy [Q]. *)

Definition wp {S A : Type} (m : M S A) (Q : result A -> S -> Prop) (s : S) : Prop :=
  forall n, match m (n, s) with (r, (_, s')) => Q r s' end.

(** How a bound method continues after [m]. *)
Definition thenQ {S A B : Type} (k : A -> M S B) (Q : result B -> S -> Prop)
    : result A -> S -> Prop :=
  fun r s => match r with Ok a => wp (k a) Q s | Err e => Q (Err e) s end.

Lemma wp_run {S A} (m : M S A) Q s n r n' s' :
  wp m Q s -> m (n, s) = (r, (n', s')) -> Q r s'.
Proof. intros H E. specialize (H n). by rewrite E in H. Qed.

Lemma wp_mono {S A} (m : M S A) (Q Q' : result A -> S -> Prop) s :
  wp m Q s -> (forall r s', Q r s' -> Q' r s') -> wp m Q' s.
Proof. intros H HQ n. specialize (H n). destruct (m (n, s)) as [r [n' s']]. auto. Qed.

Lemma wp_any {S A} (m : M S A) s : wp m (fun _ _ => True) s.
Proof. intros n. by destruct (m (n, s)) as [r [n' s']]. Qed.

Lemma wp_ret {S A} (a : A) Q (s : S) : Q (Ok a) s -> wp (retM a) Q s.
Proof. by intros H n. Qed.

Lemma wp_fail {S A} e (Q : result A -> S -> Prop) s : Q (Err e) s -> wp (failM e) Q s.
Proof. by intros H n. Qed.

Lemma wp_lift {S A} (r : result A) Q (s : S) : Q r s -> wp (liftR r) Q s.
Proof. by intros H n. Qed.

Lemma wp_get {S} Q (s : S) : Q (Ok s) s -> wp getS Q s.
Proof. by intros H n. Qed.

Lemma wp_mod {S} f Q (s : S) : Q (Ok tt) (f s) -> wp (modS f) Q s.
Proof. by intros H n. Qed.

Lemma wp_bind {S A B} (m : M S A) (k : A -> M S B) Q s :
  wp m (thenQ k Q) s -> wp (bindM m k) Q s.
Proof.
  intros H n. specialize (H n). unfold bindM.
  destruct (m (n, s)) as [[a|e] [n' s']]; [apply H|exact H].
Qed.

Lemma wp_attempt {S A} (m : M S A) Q s :
  wp m (fun r s' => Q (Ok r) s') s -> wp (attempt m) Q s.
Proof. intros H n. specialize (H n). unfold attempt. by destruct (m (n, s)) as [r [n' s']]. Qed.

Lemma wp_onErr {S A} h (m : M S A) Q s :
  wp m (fun r s' => match r with Ok a => Q (Ok a) s' | Err e => Q (Err e) (h s') end) s ->
  wp (onErr h m) Q s.
Proof.
  intros H n. specialize (H n). unfold onErr. by destruct (m (n, s)) as [[a|e] [n' s']].
Qed.

Lemma wp_now {S} clock Q (s : S) : (forall n, Q (Ok (clock n)) s) -> wp (now clock) Q s.
Proof. intros H n. apply H. Qed.

Lemma wp_ctxErr {S} ctx Q (s : S) :
  Q (Ok tt) s -> (forall e, Q (Err e) s) -> wp (ctxErr ctx) Q s.
Proof. intros H1 H2 n. unfold ctxErr; simpl. by destruct (ctx n). Qed.

Lemma wp_withTimeout {S} wall ctx d Q (s : S) :
  (forall c, Q (Ok c) s) -> wp (withTimeout wall ctx d) Q s.
Proof. intros H n. apply H. Qed.

Lemma wp_zoom {W S A} (get : W -> S) set (m : M S A) Q w :
  wp m (fun r s' => Q r (set s' w)) (get w) -> wp (zoom get set m) Q w.
Proof. intros H n. specialize (H n). unfold zoom; simpl. by destruct (m (n, get w)) as [r [n' s']]. Qed.

Lemma wp_eachM {S A B} (f : A -> M S B) (Inv : list A -> S -> Prop) (E : error -> S -> Prop) l s :
  Inv l s ->
  (forall x r s', Inv (x :: r) s' ->
     wp (f x) (fun res s'' => match res with Ok _ => Inv r s'' | Err e => E e s'' end) s') ->
  wp (eachM f l) (fun res s' => match res with
      | Ok ys => Inv [] s' /\ length ys = length l | Err e => E e s' end) s.
Proof.
  intros H0 Hf. revert s H0. induction l as [|x r IH]; intros s H0; simpl.
  { by apply wp_ret. }
  apply wp_bind. eapply wp_mono; [by apply Hf|]. intros [y|e] s' H; simpl; [|done].
  apply wp_bind. eapply wp_mono; [by apply IH|]. intros [ys|e] s'' H'; simpl; [|done].
  apply wp_ret. simpl. naive_solver.
Qed.

(** One step of the symbolic execution of a method: the tactic consumes the
    outermost combinator of the method under [wp]. *)
Ltac wp_step :=
  match goal with
  | |- wp (bindM _ _) _ _ => apply wp_bind
  | |- wp (retM _) _ _ => apply wp_ret
  | |- wp (failM _) _ _ => apply wp_fail
  | |- wp (liftR _) _ _ => apply wp_lift
  | |- wp getS _ _ => apply wp_get
  | |- wp (modS _) _ _ => apply wp_mod
  | |- wp (attempt _) _ _ => apply wp_attempt
  | |- wp (onErr _ _) _ _ => apply wp_onErr
  | |- wp (now _) _ _ => apply wp_now; intros ?
  | |- wp (ctxErr _) _ _ => apply wp_ctxErr; [|intros ?]
  | |- wp (withTimeout _ _ _) _ _ => apply wp_withTimeout; intros ?
  | |- wp (zoom _ _ _) _ _ => apply wp_zoom
  | |- thenQ _ _ (Ok _) _ => red
  | |- thenQ _ _ (Err _) _ => red
  end; cbv beta.
