(* ===== verification/Sha256.v ===== *)
(** * SHA-256

    [crypto/sha256] of the Go standard library, which every digest of the
    driver package is computed with. The class [Hasher] is what the rest of
    the development relies on: a function from byte strings to 32 bytes. Its
    instance [sha256] is the algorithm of FIPS 180-4, executable, so that the
    digests pinned by the repository's tests can be recomputed. *)

From S2P Require Import Prelude.
From stdpp Require Import base list.
From Stdlib Require Import ZArith Lia.

Open Scope Z_scope.

Definition is_byte (b : Z) : Prop := 0 <= b < 256.

(** The interface: [sha256.Sum256] and [sha256.New] with [Sum]. *)
Class Hasher : Type := {
  sum256 : list Z -> list Z;
  sum256_length : forall m, length (sum256 m) = 32%nat;
  sum256_bytes : forall m, Forall is_byte (sum256 m);
}.

(** ** The algorithm *)

Definition word_mask : Z := 0xffffffff.
Definition add32 (a b : Z) : Z := Z.land (a + b) word_mask.
Definition rotr (n x : Z) : Z :=
  Z.lor (Z.shiftr x n) (Z.land (Z.shiftl x (32 - n)) word_mask).

(** The constants of the standard, computed as it defines them: the first 32
    bits of the fractional parts of the cube roots of the first 64 primes, and
    of the square roots of the first eight. *)

Definition divides (d n : nat) : bool := Nat.eqb (Nat.modulo n d) 0.
Definition is_prime (n : nat) : bool := negb (existsb (fun d => divides d n) (seq 2 (n - 2))).
Definition primes : list Z := map Z.of_nat (List.filter is_prime (seq 2 310)).

(** The integer cube root of [x] by its binary digits, [bits] of them. *)
Fixpoint cube_root (bits : nat) (x acc : Z) : Z :=
  match bits with
  | O => acc
  | S k =>
      let next := acc + 2 ^ Z.of_nat k in
      cube_root k x (if next * next * next <=? x then next else acc)
  end.

Definition K256 : list Z :=
  Eval vm_compute in map (fun p => Z.land (cube_root 40 (p * 2 ^ 96) 0) word_mask) primes.

Definition H256 : list Z :=
  Eval vm_compute in map (fun p => Z.land (Z.sqrt (p * 2 ^ 64)) word_mask) (firstn 8 primes).

Definition bsig0 (x : Z) : Z := Z.lxor (Z.lxor (rotr 2 x) (rotr 13 x)) (rotr 22 x).
Definition bsig1 (x : Z) : Z := Z.lxor (Z.lxor (rotr 6 x) (rotr 11 x)) (rotr 25 x).
Definition ssig0 (x : Z) : Z := Z.lxor (Z.lxor (rotr 7 x) (rotr 18 x)) (Z.shiftr x 3).
Definition ssig1 (x : Z) : Z := Z.lxor (Z.lxor (rotr 17 x) (rotr 19 x)) (Z.shiftr x 10).
Definition ch (x y z : Z) : Z :=
  Z.lxor (Z.land x y) (Z.land (Z.lxor x word_mask) z).
Definition maj (x y z : Z) : Z :=
  Z.lxor (Z.lxor (Z.land x y) (Z.land x z)) (Z.land y z).

Definition word_of (a b c d : Z) : Z :=
  Z.lor (Z.lor (Z.shiftl a 24) (Z.shiftl b 16)) (Z.lor (Z.shiftl c 8) d).

Fixpoint words_of (bs : list Z) : list Z :=
  match bs with
  | a :: b :: c :: d :: r => word_of a b c d :: words_of r
  | _ => []
  end.

(** The message schedule, newest word first. *)
Definition sched_step (w : list Z) : list Z :=
  add32 (add32 (ssig1 (nth 1 w 0)) (nth 6 w 0))
        (add32 (ssig0 (nth 14 w 0)) (nth 15 w 0)) :: w.

Definition schedule (block : list Z) : list Z :=
  rev (Nat.iter 48 sched_step (rev (words_of block))).

Definition round (st : list Z) (kw : Z * Z) : list Z :=
  match st with
  | [a; b; c; d; e; f; g; h] =>
      let t1 := add32 (add32 h (bsig1 e)) (add32 (ch e f g) (add32 (fst kw) (snd kw))) in
      let t2 := add32 (bsig0 a) (maj a b c) in
      [add32 t1 t2; a; b; c; add32 d t1; e; f; g]
  | _ => st
  end.

Definition compress (st : list Z) (block : list Z) : list Z :=
  map (fun p => add32 (fst p) (snd p))
      (combine st (fold_left round (combine K256 (schedule block)) st)).

(** Big-endian encoding on [n] bytes. *)
Fixpoint be_bytes (n : nat) (x : Z) : list Z :=
  match n with
  | O => []
  | S k => be_bytes k (x / 256) ++ [x mod 256]
  end.

Definition sha_pad (m : list Z) : list Z :=
  m ++ 0x80 :: repeat 0 (Z.to_nat ((55 - len m) mod 64)) ++ be_bytes 8 (8 * len m).

Fixpoint blocks (fuel : nat) (st : list Z) (m : list Z) : list Z :=
  match fuel with
  | O => st
  | S k => match m with
           | [] => st
           | _ => blocks k (compress st (firstn 64 m)) (skipn 64 m)
           end
  end.

(** The fuel is the length of the padded message: every block takes 64 bytes. *)
Definition sha256_words (m : list Z) : list Z :=
  blocks (length (sha_pad m)) H256 (sha_pad m).

Definition sha256_sum (m : list Z) : list Z :=
  flat_map (be_bytes 4) (sha256_words m).

(** ** The class law *)

Lemma be_bytes_length n x : length (be_bytes n x) = n.
Proof. revert x; induction n as [|k IH]; intros x; simpl; [done|]. rewrite length_app, IH. simpl. lia. Qed.

Lemma be_bytes_range n x : Forall is_byte (be_bytes n x).
Proof.
  revert x; induction n as [|k IH]; intros x; simpl; [done|].
  apply Forall_app; split; [done|]. constructor; [|done].
  unfold is_byte. pose proof (Z.mod_pos_bound x 256). lia.
Qed.

Lemma be_bytes_inj n x y :
  0 <= x < 256 ^ Z.of_nat n -> 0 <= y < 256 ^ Z.of_nat n ->
  be_bytes n x = be_bytes n y -> x = y.
Proof.
  revert x y; induction n as [|k IH]; intros x y Hx Hy H; simpl in *; [lia|].
  rewrite Nat2Z.inj_succ, Z.pow_succ_r in Hx, Hy by lia.
  apply app_inj_2 in H as [Hq Hr]; [|done].
  injection Hr as Hr. apply IH in Hq.
  - rewrite (Z.div_mod x 256), (Z.div_mod y 256) by lia. lia.
  - split; [apply Z.div_pos; lia|]. apply Z.div_lt_upper_bound; lia.
  - split; [apply Z.div_pos; lia|]. apply Z.div_lt_upper_bound; lia.
Qed.

Lemma round_length st kw : length st = 8%nat -> length (round st kw) = 8%nat.
Proof. intros H. do 9 (destruct st as [|? st]; try done). Qed.

Lemma rounds_length kws st : length st = 8%nat -> length (fold_left round kws st) = 8%nat.
Proof. revert st; induction kws as [|kw r IH]; intros st H; simpl; auto using round_length. Qed.

Lemma compress_length st b : length st = 8%nat -> length (compress st b) = 8%nat.
Proof.
  intros H. unfold compress. rewrite length_map, length_combine, rounds_length, H by done. done.
Qed.

Lemma blocks_length fuel st m : length st = 8%nat -> length (blocks fuel st m) = 8%nat.
Proof.
  revert st m; induction fuel as [|k IH]; intros st m H; simpl; [done|].
  destruct m; auto using compress_length.
Qed.

Lemma sha256_sum_length m : length (sha256_sum m) = 32%nat.
Proof.
  unfold sha256_sum, sha256_words.
  assert (length (blocks (length (sha_pad m)) H256 (sha_pad m)) = 8%nat) as H
    by (by apply blocks_length).
  destruct (blocks _ _ _) as [|? w]; [done|].
  do 8 (destruct w as [|? w]; try done).
Qed.

Lemma sha256_sum_bytes m : Forall is_byte (sha256_sum m).
Proof.
  unfold sha256_sum. induction (sha256_words m) as [|w r IH]; [done|].
  apply Forall_app; split; [apply be_bytes_range|exact IH].
Qed.

Definition sha256 : Hasher := {|
  sum256 := sha256_sum;
  sum256_length := sha256_sum_length;
  sum256_bytes := sha256_sum_bytes;
|}.

#[global] Arguments be_bytes : simpl never.

(** A second instance, for runs of the development: any function to 32 bytes
    will do there, and this one takes a few steps for each byte. *)
Definition fold_sum (m : list Z) : list Z :=
  let word := be_bytes 8 (fold_left (fun acc b => Z.land (Z.shiftl acc 5 + acc + b + 1) (2 ^ 60 - 1)) m 5381) in
  word ++ word ++ word ++ word.

Definition foldHasher : Hasher.
Proof.
  refine {| sum256 := fold_sum |}.
  - intros m. unfold fold_sum. by rewrite !length_app, !be_bytes_length.
  - intros m. unfold fold_sum. rewrite !Forall_app. split_and!; apply be_bytes_range.
Defined.
