(* ===== verification/Digest.v ===== *)
(** * The digest layout of the driver package

    [digestWriter] of agent/driver/contract.go: every digest of the package is
    the hex form of the SHA-256 of a sequence of chunks, each preceded by its
    length on four big-endian bytes. A writer is modelled by the chunks it
    has been given; [dw_preimage] is what it has written to the hash. The
    theorems of this file say that the layout is uniquely decodable, so that
    two equal digests come from equal chunks unless SHA-256 itself collides. *)

From S2P Require Import Prelude Sha256.
From stdpp Require Import base list strings.
From Stdlib Require Import ZArith Lia.

Open Scope Z_scope.

(** ** [encoding/hex] *)

Definition hex_digit (d : Z) : Ascii.ascii :=
  Ascii.ascii_of_N (Z.to_N (if d <? 10 then 48 + d else 87 + d)).

Fixpoint hexEncode (bs : list Z) : string :=
  match bs with
  | [] => EmptyString
  | b :: r => String (hex_digit (b / 16)) (String (hex_digit (b mod 16)) (hexEncode r))
  end.

(** The characters [hex.DecodeString] accepts. *)
Definition hex_char (b : Z) : bool :=
  ((48 <=? b) && (b <=? 57)) || ((97 <=? b) && (b <=? 102)) || ((65 <=? b) && (b <=? 70)).

Definition sha256_Size : Z := 32.

(** [hex.DecodeString] fails on a bad character and on an odd length; the
    length test comes first. *)
Definition validDigest (value : string) : bool :=
  if negb (slen value =? sha256_Size * 2) then false
  else all_chars hex_char value.

(** ** The writer *)

Definition digestWriter : Type := list (list Z).

Definition dw_bytes (value : list Z) (w : digestWriter) : digestWriter := w ++ [value].
Definition dw_str (value : string) (w : digestWriter) : digestWriter :=
  dw_bytes (bytes_of value) w.
Definition dw_uint (value : Z) (w : digestWriter) : digestWriter :=
  dw_bytes (be_bytes 8 value) w.
Definition dw_strs (values : list string) (w : digestWriter) : digestWriter :=
  fold_left (fun w value => dw_str value w) values (dw_uint (len values) w).
Definition dw_time (value : time) (w : digestWriter) : digestWriter :=
  dw_uint (Nanosecond value) (dw_uint (Unix value) w).
Definition newDigest (domain : string) : digestWriter := dw_str domain [].

(** The bytes one chunk adds to the hash: the length is truncated to 32 bits. *)
Definition chunk (value : list Z) : list Z := be_bytes 4 (len value) ++ value.
Definition dw_preimage (w : digestWriter) : list Z := concat (map chunk w).

Definition dw_hex {H : Hasher} (w : digestWriter) : string :=
  hexEncode (sum256 (dw_preimage w)).

(** Two different inputs with the same SHA-256. *)
Definition collision {H : Hasher} (x y : list Z) : Prop := x <> y /\ sum256 x = sum256 y.

(** A chunk whose length fits the four-byte prefix. *)
Definition chunk_ok (value : list Z) : Prop := len value < 2 ^ 32.

(** ** The layout is uniquely decodable *)

Lemma chunk_inj a b r s :
  chunk_ok a -> chunk_ok b -> chunk a ++ r = chunk b ++ s -> a = b /\ r = s.
Proof.
  unfold chunk, chunk_ok, len. intros Ha Hb H. rewrite <- !app_assoc in H.
  apply app_inj_1 in H as [Hl Hr]; [|by rewrite !be_bytes_length].
  apply be_bytes_inj in Hl; [|lia..].
  apply app_inj_1 in Hr; [|lia]. done.
Qed.

Lemma dw_preimage_inj v w :
  Forall chunk_ok v -> Forall chunk_ok w -> dw_preimage v = dw_preimage w -> v = w.
Proof.
  unfold dw_preimage. intros Hv. revert w.
  induction Hv as [|a v Ha Hv IH]; intros [|b w] Hw H; simpl in *; try done.
  - apply Forall_cons in Hw as [Hb Hw].
    apply chunk_inj in H as [-> H]; [|done..]. f_equal. auto.
Qed.

(** ** Hex *)

Lemma byte_of_hex_digit d : 0 <= d < 16 ->
  byte_of (hex_digit d) = if d <? 10 then 48 + d else 87 + d.
Proof.
  intros H. unfold byte_of, hex_digit. rewrite Ascii.N_ascii_embedding.
  - destruct (d <? 10) eqn:E; lia.
  - destruct (d <? 10) eqn:E; lia.
Qed.

Lemma hex_digit_inj d e : 0 <= d < 16 -> 0 <= e < 16 -> hex_digit d = hex_digit e -> d = e.
Proof.
  intros Hd He H. apply (f_equal byte_of) in H.
  rewrite !byte_of_hex_digit in H by done.
  destruct (d <? 10) eqn:E1, (e <? 10) eqn:E2; lia.
Qed.

Lemma hex_digit_char d : 0 <= d < 16 -> hex_char (byte_of (hex_digit d)) = true.
Proof.
  intros Hd. rewrite byte_of_hex_digit by done. unfold hex_char.
  destruct (d <? 10) eqn:E; lia.
Qed.

Lemma byte_nibbles b : is_byte b -> 0 <= b / 16 < 16 /\ 0 <= b mod 16 < 16.
Proof.
  unfold is_byte. intros Hb. pose proof (Z.mod_pos_bound b 16).
  split; [|lia]. split; [apply Z.div_pos; lia|apply Z.div_lt_upper_bound; lia].
Qed.

Lemma hexEncode_inj u v :
  Forall is_byte u -> Forall is_byte v -> hexEncode u = hexEncode v -> u = v.
Proof.
  intros Hu. revert v. induction Hu as [|a u Ha Hu IH]; intros [|b v] Hv H; simpl in *; try done.
  apply Forall_cons in Hv as [Hb Hv].
  apply byte_nibbles in Ha as [Ha1 Ha2]. apply byte_nibbles in Hb as [Hb1 Hb2].
  injection H as H1 H2 H3.
  apply hex_digit_inj in H1; [|done..]. apply hex_digit_inj in H2; [|done..].
  rewrite (IH v Hv H3). f_equal.
  rewrite (Z.div_mod a 16), (Z.div_mod b 16); lia.
Qed.

Lemma hexEncode_length bs : String.length (hexEncode bs) = (2 * length bs)%nat.
Proof. induction bs as [|b r IH]; simpl; [done|]. rewrite IH. lia. Qed.

Lemma hexEncode_chars bs : Forall is_byte bs -> all_chars hex_char (hexEncode bs) = true.
Proof.
  induction 1 as [|b r Hb Hr IH]; simpl; [done|].
  apply byte_nibbles in Hb as [H1 H2]. by rewrite !hex_digit_char, IH.
Qed.

Section Binding.
Context {H : Hasher}.

Lemma dw_hex_valid w : validDigest (dw_hex w) = true.
Proof.
  unfold validDigest, dw_hex, slen.
  rewrite hexEncode_length, sum256_length. simpl.
  apply hexEncode_chars, sum256_bytes.
Qed.

(** Equal digests come from equal chunks, or exhibit a collision of the hash. *)
Lemma dw_hex_binding v w :
  Forall chunk_ok v -> Forall chunk_ok w -> dw_hex v = dw_hex w ->
  v = w \/ collision (dw_preimage v) (dw_preimage w).
Proof.
  intros Hv Hw E. apply hexEncode_inj in E; [|apply sum256_bytes..].
  destruct (decide (dw_preimage v = dw_preimage w)) as [Hp|Hp].
  - left. by apply dw_preimage_inj.
  - right. done.
Qed.
End Binding.

(** ** Chunks of the writer's operations *)

Definition u64 (x : Z) : Prop := 0 <= x < 2 ^ 64.

Lemma be_bytes8_inj x y : u64 x -> u64 y -> be_bytes 8 x = be_bytes 8 y -> x = y.
Proof. unfold u64. intros Hx Hy. by apply be_bytes_inj. Qed.

(** Go converts a signed [int64] to [uint64] before hashing it; the conversion
    loses nothing. *)
Definition i64 (x : Z) : Prop := - 2 ^ 63 <= x < 2 ^ 63.

Lemma be_bytes_mod n x y :
  be_bytes n x = be_bytes n y -> x mod 256 ^ Z.of_nat n = y mod 256 ^ Z.of_nat n.
Proof.
  revert x y. induction n as [|k IH]; intros x y Heq.
  { by rewrite !Z.mod_1_r. }
  change (be_bytes (S k) x) with (be_bytes k (x / 256) ++ [x mod 256]) in Heq.
  change (be_bytes (S k) y) with (be_bytes k (y / 256) ++ [y mod 256]) in Heq.
  apply app_inj_2 in Heq as [Hq Hr]; [|done]. injection Hr as Hr. apply IH in Hq.
  rewrite Nat2Z.inj_succ, Z.pow_succ_r by lia.
  rewrite !Z.rem_mul_r by lia. by rewrite Hr, Hq.
Qed.

Lemma be_bytes8_signed_inj x y : i64 x -> i64 y -> be_bytes 8 x = be_bytes 8 y -> x = y.
Proof.
  unfold i64. intros Hx Hy Hb%be_bytes_mod. change (256 ^ Z.of_nat 8) with (2 ^ 64) in Hb.
  pose proof (Z.div_mod x (2 ^ 64)) as Dx. pose proof (Z.div_mod y (2 ^ 64)) as Dy.
  pose proof (Z.mod_pos_bound x (2 ^ 64)). pose proof (Z.mod_pos_bound y (2 ^ 64)). lia.
Qed.

Lemma chunk_ok_str s : slen s < 2 ^ 32 -> chunk_ok (bytes_of s).
Proof. unfold chunk_ok, len, slen. by rewrite bytes_of_length. Qed.

Lemma chunk_ok_uint x : chunk_ok (be_bytes 8 x).
Proof. unfold chunk_ok, len. by rewrite be_bytes_length. Qed.

Lemma dw_strs_eq values w :
  dw_strs values w = w ++ be_bytes 8 (len values) :: map bytes_of values.
Proof.
  unfold dw_strs, dw_uint, dw_bytes.
  assert (forall vs acc, fold_left (fun w value => dw_str value w) vs acc = acc ++ map bytes_of vs) as ->.
  { induction vs as [|v vs IH]; intros acc; simpl; [by rewrite app_nil_r|].
    rewrite IH. unfold dw_str, dw_bytes. by rewrite <- app_assoc. }
  by rewrite <- app_assoc.
Qed.

Create HintDb antiflock.
#[export] Hint Resolve chunk_ok_uint dw_hex_valid eqs_refl : antiflock.
