(* ===== verification/Library.v ===== *)
(** * The generic library

    What the components share beyond Prelude.v: base 64 without padding, the
    civil calendar of package time, and tables as lists of rows. *)

From S2P Require Import Prelude Sha256.
From stdpp Require Import base list strings sets.
From Stdlib Require Import ZArith Lia.

Open Scope Z_scope.

(** * Base 64 without padding

    [base64.RawURLEncoding] and [base64.RawStdEncoding] of Go: six bits per
    character, three bytes in four characters, a short last group. The two
    encodings differ in two characters of their alphabet. *)

(** The six-bit values of the characters of an encoding. *)
Fixpoint base64_values (bs : list Z) : list Z :=
  match bs with
  | a :: b :: c :: rest => a / 4 :: a mod 4 * 16 + b / 16 :: b mod 16 * 4 + c / 64 :: c mod 64 :: base64_values rest
  | [a; b] => [a / 4; a mod 4 * 16 + b / 16; b mod 16 * 4]
  | [a] => [a / 4; a mod 4 * 16]
  | [] => []
  end.

(** The bytes of groups of four values; the bits left over in a short last
    group are not checked. *)
Fixpoint base64_groups (vs : list Z) : option (list Z) :=
  match vs with
  | v0 :: v1 :: v2 :: v3 :: rest =>
      decoded ← base64_groups rest;
      Some (v0 * 4 + v1 / 16 :: v1 mod 16 * 16 + v2 / 4 :: v2 mod 4 * 64 + v3 :: decoded)
  | [v0; v1; v2] => Some [v0 * 4 + v1 / 16; v1 mod 16 * 16 + v2 / 4]
  | [v0; v1] => Some [v0 * 4 + v1 / 16]
  | [_] => None
  | [] => Some []
  end.

(** An alphabet is given by its last two characters. *)
Definition base64_char (c62 c63 v : Z) : Ascii.ascii :=
  Ascii.ascii_of_N (Z.to_N (if v <? 26 then 65 + v else if v <? 52 then 97 + (v - 26) else if v <? 62 then 48 + (v - 52)
                            else if v =? 62 then c62 else c63)).

Definition base64_value (c62 c63 b : Z) : option Z :=
  if (65 <=? b) && (b <=? 90) then Some (b - 65)
  else if (97 <=? b) && (b <=? 122) then Some (b - 97 + 26)
  else if (48 <=? b) && (b <=? 57) then Some (b - 48 + 52)
  else if b =? c62 then Some 62 else if b =? c63 then Some 63 else None.

Definition base64_encode (c62 c63 : Z) (bs : list Z) : string :=
  foldr (fun v s => String (base64_char c62 c63 v) s) EmptyString (base64_values bs).

(** [DecodeString] skips carriage returns and newlines. *)
Definition base64_decode (c62 c63 : Z) (s : string) : option (list Z) :=
  vs ← mapM (base64_value c62 c63) (List.filter (fun b => negb ((b =? 13) || (b =? 10))) (bytes_of s));
  base64_groups vs.

Definition base64std : list Z -> string := base64_encode 43 47.
Definition base64std_decode : string -> option (list Z) := base64_decode 43 47.
Definition base64url : list Z -> string := base64_encode 45 95.
Definition base64url_decode : string -> option (list Z) := base64_decode 45 95.

(** ** Facts *)

Ltac bytes_arith := unfold is_byte in *; Z.to_euclidean_division_equations; lia.

(** Induction by groups of three bytes. *)
Lemma triple_ind (P : list Z -> Prop) : P [] -> (forall a, P [a]) -> (forall a b, P [a; b]) ->
  (forall a b c l, P l -> P (a :: b :: c :: l)) -> forall l, P l.
Proof.
  intros H0 H1 H2 H3. assert (forall n l, (length l <= n)%nat -> P l) as Hall; [|intros l; by apply (Hall (length l))].
  induction n as [|n IH]; intros [|a [|b [|c l]]] Hl; simpl in Hl; try done; try lia. apply H3, IH. lia.
Qed.

Lemma base64_values_range bs : Forall is_byte bs -> Forall (fun v => 0 <= v < 64) (base64_values bs).
Proof.
  induction bs as [|a|a b|a b c l IH] using triple_ind; intros Hb; cbn [base64_values];
    repeat match goal with Hf : Forall _ (_ :: _) |- _ => inversion_clear Hf end;
    repeat (apply Forall_cons; split; [bytes_arith|]); auto.
Qed.

Lemma base64_groups_values bs : Forall is_byte bs -> base64_groups (base64_values bs) = Some bs.
Proof.
  induction bs as [|a|a b|a b c l IH] using triple_ind; intros Hb; cbn [base64_values base64_groups];
    repeat match goal with Hf : Forall _ (_ :: _) |- _ => inversion_clear Hf end; [done| | |rewrite IH by done; simpl];
    repeat f_equal; bytes_arith.
Qed.

Section Alphabet.
(** A value is read back from its character, which is printable. *)
Context (c62 c63 : Z).
Hypothesis alphabet : Forall (fun v => base64_value c62 c63 (byte_of (base64_char c62 c63 v)) = Some v /\
  43 <= byte_of (base64_char c62 c63 v) < 128) (seqZ 0 64).

Lemma base64_char_value v : 0 <= v < 64 ->
  base64_value c62 c63 (byte_of (base64_char c62 c63 v)) = Some v /\ 43 <= byte_of (base64_char c62 c63 v) < 128.
Proof. intros Hv. rewrite Forall_forall in alphabet. apply alphabet, elem_of_seqZ. lia. Qed.

Lemma base64_bytes bs : bytes_of (base64_encode c62 c63 bs) = map (fun v => byte_of (base64_char c62 c63 v)) (base64_values bs).
Proof. unfold base64_encode. induction (base64_values bs) as [|v vs IH]; simpl; [done|by rewrite IH]. Qed.

Lemma base64_decode_encode bs : Forall is_byte bs -> base64_decode c62 c63 (base64_encode c62 c63 bs) = Some bs.
Proof.
  intros Hb. unfold base64_decode. rewrite base64_bytes. pose proof (base64_values_range bs Hb) as Hr.
  replace (List.filter _ _) with (map (fun v => byte_of (base64_char c62 c63 v)) (base64_values bs)).
  2: { induction Hr as [|v vs Hv Hr IH]; [done|]. simpl. destruct (base64_char_value v Hv) as [_ Hlt]. rewrite <- IH.
       replace (_ =? 13) with false by lia. by replace (_ =? 10) with false by lia. }
  replace (mapM (base64_value c62 c63) _) with (Some (base64_values bs)); [simpl; by apply base64_groups_values|]. symmetry.
  induction Hr as [|v vs Hv Hr IH]; [done|]. simpl. destruct (base64_char_value v Hv) as [-> _]. simpl. by rewrite IH.
Qed.

Lemma base64_printable bs : Forall is_byte bs -> Forall (fun b => 43 <= b < 128) (bytes_of (base64_encode c62 c63 bs)).
Proof.
  intros Hb. rewrite base64_bytes. pose proof (base64_values_range bs Hb) as Hr. clear Hb.
  induction Hr as [|v vs Hv Hr IH]; simpl; constructor; [|done]. by destruct (base64_char_value v Hv).
Qed.

End Alphabet.

Ltac alphabet_holds :=
  repeat (apply Forall_cons; split; [split; [vm_compute; reflexivity|vm_compute; split; congruence]|]); by apply Forall_nil.

Lemma base64_roundtrip bs : Forall is_byte bs -> base64std_decode (base64std bs) = Some bs.
Proof. apply base64_decode_encode. alphabet_holds. Qed.

Lemma base64_ascii bs : Forall is_byte bs -> Forall (fun b => b < 128) (bytes_of (base64std bs)).
Proof. intros Hb. eapply Forall_impl; [apply base64_printable; [alphabet_holds|done]|]. simpl. lia. Qed.

Lemma base64url_roundtrip bs : Forall is_byte bs -> base64url_decode (base64url bs) = Some bs.
Proof. apply base64_decode_encode. alphabet_holds. Qed.

Lemma base64url_printable bs : Forall is_byte bs -> Forall (fun b => 43 <= b < 128) (bytes_of (base64url bs)).
Proof. apply base64_printable. alphabet_holds. Qed.

Lemma base64url_ascii bs : Forall is_byte bs -> Forall (fun b => b < 128) (bytes_of (base64url bs)).
Proof. intros Hb. eapply Forall_impl; [by apply base64url_printable|]. simpl. lia. Qed.

Lemma base64url_inj l k : Forall is_byte l -> Forall is_byte k -> base64url l = base64url k -> l = k.
Proof. intros Hl Hk Heq. apply (f_equal base64url_decode) in Heq. rewrite !base64url_roundtrip in Heq by done. by injection Heq. Qed.

(** * The proleptic Gregorian calendar of package time

    [time.Time.AddDate] for years: a day is counted from 1970-01-01, the
    calendar repeats every 400 years, and a year is counted from the first of
    March, so that the leap day is its last. *)

Definition daysPerEra : Z := 146097.

(** The day of a year that starts in March, of a month and a day. *)
Definition marchDay (month day : Z) : Z := (153 * ((month + 9) mod 12) + 2) / 5 + day - 1.

(** [time.Date] at midnight, in days. *)
Definition daysFromCivil (year month day : Z) : Z :=
  let y := if month <=? 2 then year - 1 else year in
  let yoe := y mod 400 in
  (y / 400) * daysPerEra + (yoe * 365 + yoe / 4 - yoe / 100 + marchDay month day) - 719468.

(** The year of an era that starts in March, of a day of the era. *)
Definition yearOfEra (doe : Z) : Z :=
  let century := doe / 36524 - doe / 36524 / 4 in
  let d := doe - 36524 * century in
  let cycle := d / 1461 in
  let d := d - 1461 * cycle in
  let year := d / 365 - d / 365 / 4 in
  100 * century + 4 * cycle + year.

Definition civilFromDays (days : Z) : Z * Z * Z :=
  let z := days + 719468 in
  let doe := z mod daysPerEra in
  let yoe := yearOfEra doe in
  let doy := doe - (365 * yoe + yoe / 4 - yoe / 100) in
  let mp := (5 * doy + 2) / 153 in
  let month := if mp <? 10 then mp + 3 else mp - 9 in
  ((z / daysPerEra) * 400 + yoe + (if month <=? 2 then 1 else 0), month, doy - (153 * mp + 2) / 5 + 1).

Definition dayLength : Z := 24 * Hour.

(** [t.AddDate(years, 0, 0)]: a leap day becomes the first of March. *)
Definition addYears (years : Z) (t : time) : time :=
  let '(year, month, day) := civilFromDays (t / dayLength) in
  daysFromCivil (year + years) month day * dayLength + t mod dayLength.

(** ** Lemmas *)

(** The year an era's day is in, and the day of that year. *)
Lemma eraDay doe : 0 <= doe < daysPerEra ->
  let yoe := yearOfEra doe in
  let doy := doe - (365 * yoe + yoe / 4 - yoe / 100) in
  0 <= yoe < 400 /\ 0 <= doy <= 365 /\ 0 <= (5 * doy + 2) / 153 <= 11.
Proof.
  unfold daysPerEra. intros Hd. cbv zeta. unfold yearOfEra.
  set (c := doe / 36524 - doe / 36524 / 4). assert (0 <= c <= 3 /\ 0 <= doe - 36524 * c <= 36524) as [Hc Hr1].
  { subst c. Z.to_euclidean_division_equations. lia. }
  clearbody c. set (r1 := doe - 36524 * c) in *. set (q := r1 / 1461). assert (0 <= q <= 24 /\ 0 <= r1 - 1461 * q <= 1460) as [Hq Hr2].
  { subst q. Z.to_euclidean_division_equations. lia. }
  clearbody q. set (r2 := r1 - 1461 * q) in *. set (y := r2 / 365 - r2 / 365 / 4). assert (0 <= y <= 3 /\ 0 <= r2 - 365 * y <= 365) as [Hy Hdoy].
  { subst y. Z.to_euclidean_division_equations. lia. }
  clearbody y. set (yoe := 100 * c + 4 * q + y). assert (yoe / 4 = 25 * c + q /\ yoe / 100 = c) as [-> ->].
  { subst yoe. split; symmetry; [apply (Z.div_unique _ _ _ y); lia|apply (Z.div_unique _ _ _ (4 * q + y)); lia]. }
  replace (doe - (365 * yoe + (25 * c + q) - c)) with (r2 - 365 * y) by (subst r2 r1 yoe; lia).
  split_and!; [subst yoe; lia..| |]; Z.to_euclidean_division_equations; lia.
Qed.

Lemma civil_roundtrip days : let '(year, month, day) := civilFromDays days in daysFromCivil year month day = days.
Proof.
  unfold civilFromDays, daysFromCivil. set (z := days + 719468). set (doe := z mod daysPerEra).
  assert (0 <= doe < daysPerEra) as Hdoe by (apply Z.mod_pos_bound; unfold daysPerEra; lia).
  pose proof (eraDay doe Hdoe) as Hera. cbv zeta in Hera. set (yoe := yearOfEra doe) in *.
  set (doy := doe - (365 * yoe + yoe / 4 - yoe / 100)) in *. set (mp := (5 * doy + 2) / 153) in *.
  destruct Hera as (Hy & Hdoy & Hmp). set (month := if mp <? 10 then mp + 3 else mp - 9).
  assert ((month + 9) mod 12 = mp) as Hm.
  { unfold month. destruct (Z.ltb_spec mp 10).
    - replace (mp + 3 + 9) with (mp + 1 * 12) by lia. rewrite Z.mod_add by lia. apply Z.mod_small. lia.
    - replace (mp - 9 + 9) with mp by lia. apply Z.mod_small. lia. }
  set (era := z / daysPerEra). replace (if month <=? 2 then era * 400 + yoe + (if month <=? 2 then 1 else 0) - 1 else era * 400 + yoe + (if month <=? 2 then 1 else 0))
    with (yoe + era * 400) by (destruct (month <=? 2); lia).
  rewrite Z.mod_add, Z.div_add, (Z.mod_small yoe 400), (Z.div_small yoe 400) by lia. unfold marchDay. rewrite Hm.
  assert (z = daysPerEra * era + doe) as Hz by (apply Z.div_mod; unfold daysPerEra; lia). unfold z in Hz. unfold doy. lia.
Qed.

(** The next year starts 365 or 366 days later. *)
Lemma daysFromCivil_next year month day : 365 <= daysFromCivil (year + 1) month day - daysFromCivil year month day <= 366.
Proof.
  assert (forall y, 365 <= ((y + 1) / 400 * daysPerEra + ((y + 1) mod 400 * 365 + (y + 1) mod 400 / 4 - (y + 1) mod 400 / 100))
    - (y / 400 * daysPerEra + (y mod 400 * 365 + y mod 400 / 4 - y mod 400 / 100)) <= 366) as Hstep.
  { intros y. pose proof (Z.div_mod y 400). pose proof (Z.mod_pos_bound y 400). remember (y mod 400) as r eqn:Er. remember (y / 400) as q eqn:Eq. clear Er Eq.
    destruct (Z.eq_dec r 399) as [Hr|Hr].
    - replace (y + 1) with (0 + (q + 1) * 400) by lia. rewrite Z.mod_add, Z.div_add by lia. rewrite Hr. unfold daysPerEra.
      change (0 mod 400) with 0. change (0 / 400) with 0. change (0 / 4) with 0. change (0 / 100) with 0. change (399 / 4) with 99. change (399 / 100) with 3. lia.
    - replace (y + 1) with (r + 1 + q * 400) by lia. rewrite Z.mod_add, Z.div_add, (Z.mod_small (r + 1)), (Z.div_small (r + 1)) by lia.
      pose proof (Z.div_mod r 4). pose proof (Z.div_mod (r + 1) 4). pose proof (Z.mod_pos_bound r 4). pose proof (Z.mod_pos_bound (r + 1) 4).
      pose proof (Z.div_mod r 100). pose proof (Z.div_mod (r + 1) 100). pose proof (Z.mod_pos_bound r 100). pose proof (Z.mod_pos_bound (r + 1) 100).
      lia. }
  unfold daysFromCivil. destruct (month <=? 2).
  - specialize (Hstep (year - 1)). replace (year + 1 - 1) with (year - 1 + 1) by lia. lia.
  - specialize (Hstep year). lia.
Qed.

Lemma addYear_range t : 365 * dayLength <= addYears 1 t - t <= 366 * dayLength.
Proof.
  unfold addYears. pose proof (civil_roundtrip (t / dayLength)) as Hr. destruct (civilFromDays (t / dayLength)) as [[year month] day].
  pose proof (daysFromCivil_next year month day) as Hn. assert (dayLength > 0) by (vm_compute; reflexivity).
  pose proof (Z.div_mod t dayLength). nia.
Qed.

(** * Tables as lists of rows

    The rows of a table in the order of insertion; an update where a predicate
    holds, the number of rows it changes, and the lemmas on rows and on the
    columns that are unique which the storage components share. *)

(** [UPDATE ... WHERE], and the rows it changes. *)
Definition updateWhere {A : Type} (p : A -> bool) (f : A -> A) (rows : list A) : list A :=
  map (fun r => if p r then f r else r) rows.
Definition rowsWhere {A : Type} (p : A -> bool) (rows : list A) : Z := len (List.filter p rows).

(** ** Rows *)

Lemma find_elem {A} (p : A -> bool) l x : List.find p l = Some x -> x ∈ l /\ p x = true.
Proof. intros Hf. apply List.find_some in Hf as [Hin Hp]. by rewrite list_elem_of_In. Qed.

Lemma findKey {A B} (p : A -> bool) (key : A -> B) l x : (forall a b, p a = true -> p b = true -> key a = key b) ->
  NoDup (key <$> l) -> x ∈ l -> p x = true -> List.find p l = Some x.
Proof.
  intros Hp. induction l as [|y l IH]; intros Hnd Hin Hx; [by apply elem_of_nil in Hin|]. simpl.
  apply NoDup_cons in Hnd as [Hy Hnd]. apply elem_of_cons in Hin as [->|Hin]; [by rewrite Hx|].
  destruct (p y) eqn:Hpy; [|by apply IH]. exfalso. apply Hy. rewrite (Hp _ _ Hpy Hx). by apply list_elem_of_fmap_2.
Qed.

Lemma existsb_none {A} (p : A -> bool) l : existsb p l = false -> forall x, x ∈ l -> p x = false.
Proof.
  intros He x Hx. destruct (p x) eqn:Hp; [|done]. exfalso. apply not_true_iff_false in He. apply He, existsb_exists.
  exists x. by rewrite <- list_elem_of_In.
Qed.

Lemma updateWhere_elem {A} (p : A -> bool) f l y : y ∈ updateWhere p f l <-> exists x, x ∈ l /\ y = (if p x then f x else x).
Proof. unfold updateWhere. rewrite list_elem_of_fmap. naive_solver. Qed.

Lemma updateWhere_key {A B} (p : A -> bool) f (key : A -> B) l : (forall x, key (f x) = key x) -> key <$> updateWhere p f l = key <$> l.
Proof. intros Hf. unfold updateWhere. induction l as [|x l IH]; [done|]. csimpl. f_equal; [|done]. by destruct (p x). Qed.

Lemma find_updateWhere {A} (p q : A -> bool) f l : (forall x, p (f x) = p x) ->
  List.find p (updateWhere q f l) = (fun x => if q x then f x else x) <$> List.find p l.
Proof.
  intros Hf. unfold updateWhere. induction l as [|x l IH]; [done|]. simpl. destruct (q x) eqn:Hq; rewrite ?Hf; destruct (p x); try done; simpl; by rewrite Hq.
Qed.

Lemma find_last {A} (p : A -> bool) l x : p x = true -> (forall y, y ∈ l -> p y = false) -> List.find p (l ++ [x]) = Some x.
Proof.
  intros Hx. induction l as [|y l IH]; intros Hl; simpl; [by rewrite Hx|]. rewrite (Hl y) by set_solver. apply IH. set_solver.
Qed.

Lemma nodup_snoc {A} (l : list A) x : NoDup l -> x ∉ l -> NoDup (l ++ [x]).
Proof. intros Hl Hx. apply NoDup_app. split_and!; [done| |apply NoDup_singleton]. set_solver. Qed.

Lemma nodup_fresh {A B} (key : A -> B) l x : NoDup (key <$> l) -> (forall y, y ∈ l -> key y <> key x) -> NoDup (key <$> (l ++ [x])).
Proof.
  intros Hl Hx. rewrite fmap_app. apply nodup_snoc; [done|]. rewrite list_elem_of_fmap. intros (y & Hk & Hy). by eapply Hx.
Qed.

(** Two rows with the same key are one. *)
Lemma nodup_key {A B} (key : A -> B) l x y : NoDup (key <$> l) -> x ∈ l -> y ∈ l -> key x = key y -> x = y.
Proof.
  induction l as [|z l IH]; intros Hnd Hx Hy Hk; [by apply elem_of_nil in Hx|]. apply NoDup_cons in Hnd as [Hz Hnd].
  assert (forall u, u ∈ l -> key u = key z -> False) as Hno. { intros u Hu Heq. apply Hz. rewrite <- Heq. by apply list_elem_of_fmap_2. }
  apply elem_of_cons in Hx as [->|Hx]; apply elem_of_cons in Hy as [->|Hy]; [done|exfalso; by eapply Hno|exfalso; by eapply Hno|by apply IH].
Qed.

(** Rows that only change where [p] holds. *)
Lemma update_rows {A} (P : A -> A -> Prop) (p : A -> bool) f l : (forall x, p x = true -> P x (f x)) -> (forall x, p x = false -> P x x) ->
  forall x, x ∈ l -> exists y, y ∈ updateWhere p f l /\ P x y.
Proof.
  intros H1 H2 x Hx. exists (if p x then f x else x). split; [|by destruct (p x) eqn:Hp; auto]. apply updateWhere_elem. by exists x.
Qed.
