(* ===== verification/Probe.v ===== *)
(** * Capability probes (agent/driver/probe.go)

    The string rules every driver value is held to, [ProbeResult] with its
    invariants ([Validate]), its expiry and its order-insensitive digest. *)

From S2P Require Import Prelude Sha256 Digest.
From stdpp Require Import base gmap list strings sorting.
From Stdlib Require Import ZArith Lia.

Open Scope Z_scope.

(** ** Bounds *)

Definition ProbeSchemaVersion : Z := 1.
Definition MaxProbeKeyLength : Z := 128.
Definition MaxProbeIdentifierLength : Z := 128.
Definition MaxProbeReasonCodes : Z := 32.
Definition MaxProbeConstraints : Z := 32.
Definition MaxProbeConstraintLength : Z := 256.
Definition MaxProbeValidity : Z := 24 * Hour.

Definition ErrProbeInvalid : error := errorsNew "driver probe result is invalid".

(** ** String rules

    The Go loops range over runes. A byte of 0x80 or more decodes to a rune
    above [unicode.MaxASCII] (or to U+FFFD), so ranging over runes and ranging
    over bytes reject the same strings; below 0x80, [unicode.IsPrint] holds
    exactly from 0x20 to 0x7e. *)

Definition printable_byte (b : Z) : bool := (0x20 <=? b) && (b <=? 0x7e).
Definition printableASCII (value : string) : bool := all_chars printable_byte value.

Definition space : Z := 32.
Definition tab : Z := 9.

Definition validIdentifier (value : string) : bool :=
  if eqs value EmptyString || (MaxProbeIdentifierLength <? slen value)
     || negb (printableASCII value)
  then false
  else negb (containsAny value [space; tab]).

Definition reason_byte (b : Z) : bool :=
  ((65 <=? b) && (b <=? 90)) || ((48 <=? b) && (b <=? 57)) || (b =? 45).

Definition validReasonCode (value : string) : bool :=
  if negb (hasPrefix value "AF-") || (MaxProbeIdentifierLength <? slen value)
  then false
  else all_chars reason_byte value.

Definition key_byte (b : Z) : bool :=
  ((97 <=? b) && (b <=? 122)) || ((48 <=? b) && (b <=? 57))
  || (b =? 46) || (b =? 95) || (b =? 45).

(** [strings.Contains(value, "..")] and [strings.HasSuffix(value, ".")]. *)
Fixpoint containsDotDot (value : string) : bool :=
  match value with
  | EmptyString => false
  | String c r => hasPrefix value ".." || containsDotDot r
  end.

Fixpoint hasSuffixDot (value : string) : bool :=
  match value with
  | EmptyString => false
  | String c EmptyString => byte_of c =? 46
  | String _ r => hasSuffixDot r
  end.

Definition validKey (value : string) : bool :=
  if eqs value EmptyString || (MaxProbeKeyLength <? slen value)
     || hasPrefix value "." || hasSuffixDot value || containsDotDot value
  then false
  else all_chars key_byte value.

(** ** Health and the generated enumerations *)

Inductive HealthStatus : Type :=
| HealthUnknown | HealthHealthy | HealthDegraded | HealthUnavailable.

#[export] Instance HealthStatus_eq_dec : EqDecision HealthStatus.
Proof. solve_decision. Defined.

Definition HealthStatus_num (status : HealthStatus) : Z :=
  match status with
  | HealthUnknown => 0 | HealthHealthy => 1 | HealthDegraded => 2 | HealthUnavailable => 3
  end.

Definition HealthStatus_String (status : HealthStatus) : string :=
  match status with
  | HealthHealthy => "HEALTHY" | HealthDegraded => "DEGRADED" | HealthUnavailable => "UNAVAILABLE"
  | HealthUnknown => "UNKNOWN"
  end.

(** Reason codes shared by every driver. *)
Definition ReasonProbeOK : string := "AF-PROBE-OK".
Definition ReasonProbeTimeout : string := "AF-PROBE-TIMEOUT".
Definition ReasonProbeNotImplemented : string := "AF-PROBE-NOT-IMPLEMENTED".
Definition ReasonProbeBinaryMissing : string := "AF-PROBE-BINARY-MISSING".
Definition ReasonProbeBinaryUntrusted : string := "AF-PROBE-BINARY-UNTRUSTED".
Definition ReasonProbePrivilegeMissing : string := "AF-PROBE-PRIVILEGE-MISSING".
Definition ReasonProbePlatform : string := "AF-PROBE-PLATFORM-UNSUPPORTED".
Definition ReasonProbeJournalMissing : string := "AF-PROBE-JOURNAL-MISSING".
Definition ReasonProbeJournalCorrupt : string := "AF-PROBE-JOURNAL-CORRUPT".
Definition ReasonProbeRecoveryMissing : string := "AF-PROBE-RECOVERY-PATH-MISSING".
Definition ReasonProbeConflict : string := "AF-PROBE-HOST-CONFLICT".
Definition ReasonProbeExpired : string := "AF-PROBE-EXPIRED".
Definition ReasonProbeInvalid : string := "AF-PROBE-INVALID".
Definition probe_reasons : list string :=
  [ReasonProbeOK; ReasonProbeTimeout; ReasonProbeNotImplemented; ReasonProbeBinaryMissing;
   ReasonProbeBinaryUntrusted; ReasonProbePrivilegeMissing; ReasonProbePlatform; ReasonProbeJournalMissing;
   ReasonProbeJournalCorrupt; ReasonProbeRecoveryMissing; ReasonProbeConflict; ReasonProbeExpired;
   ReasonProbeInvalid].

(** A value is known when the generated [_name] map has an entry for it. *)
Definition CapabilityDomain_known (d : Z) : bool := (0 <=? d) && (d <=? 11).
Definition CapabilityOperation_known (o : Z) : bool := (0 <=? o) && (o <=? 4).
Definition CapabilitySupportLevel_known (l : Z) : bool := (0 <=? l) && (l <=? 4).

(** ** Probe results *)

Record ProbeResult : Type := mkProbeResult {
  Probe_SchemaVersion : Z;
  Probe_Key : string;
  Probe_Domain : Z;
  Probe_Operations : list Z;
  Probe_SupportLevel : Z;
  Probe_DriverName : string;
  Probe_DriverVersion : string;
  Probe_Health : HealthStatus;
  Probe_RecoveryReady : bool;
  Probe_ReasonCodes : list string;
  Probe_Constraints : list string;
  Probe_ProbedAt : time;
  Probe_ExpiresAt : time;
}.

(** The loop over the operations: known, specified, and never seen before. *)
Fixpoint probe_operations (seen : gset Z) (operations : list Z) : result unit :=
  match operations with
  | [] => Ok tt
  | operation :: rest =>
      reject (operation =? 0) || negb (CapabilityOperation_known operation) with ErrProbeInvalid;
      reject bool_decide (operation ∈ seen) with ErrProbeInvalid;
      probe_operations ({[ operation ]} ∪ seen) rest
  end.

Definition ProbeResult_Validate (r : ProbeResult) : result unit :=
  reject negb (Probe_SchemaVersion r =? ProbeSchemaVersion) with ErrProbeInvalid;
  reject negb (validKey (Probe_Key r)) with ErrProbeInvalid;
  reject (Probe_Domain r =? 0) || negb (CapabilityDomain_known (Probe_Domain r)) with ErrProbeInvalid;
  reject len (Probe_Operations r) =? 0 with ErrProbeInvalid;
  ensure probe_operations ∅ (Probe_Operations r);
  reject (Probe_SupportLevel r =? 0) || negb (CapabilitySupportLevel_known (Probe_SupportLevel r)) with ErrProbeInvalid;
  reject negb (validIdentifier (Probe_DriverName r)) || negb (validIdentifier (Probe_DriverVersion r)) with ErrProbeInvalid;
  reject Probe_RecoveryReady r && (bool_decide (Probe_Health r = HealthUnavailable) || bool_decide (Probe_Health r = HealthUnknown)) with ErrProbeInvalid;
  reject (len (Probe_ReasonCodes r) =? 0) || (MaxProbeReasonCodes <? len (Probe_ReasonCodes r)) with ErrProbeInvalid;
  ensure each (fun code => reject negb (validReasonCode code) with ErrProbeInvalid; Ok tt) (Probe_ReasonCodes r);
  reject MaxProbeConstraints <? len (Probe_Constraints r) with ErrProbeInvalid;
  ensure each (fun c => reject eqs c EmptyString || (MaxProbeConstraintLength <? slen c) || negb (printableASCII c) with ErrProbeInvalid; Ok tt) (Probe_Constraints r);
  reject IsZero (Probe_ProbedAt r) || IsZero (Probe_ExpiresAt r) with ErrProbeInvalid;
  reject negb (Probe_ProbedAt r <? Probe_ExpiresAt r) with ErrProbeInvalid;
  reject MaxProbeValidity <? Probe_ExpiresAt r - Probe_ProbedAt r with ErrProbeInvalid;
  Ok tt.

Definition ProbeResult_Expired (r : ProbeResult) (instant : time) : bool :=
  negb (instant <? Probe_ExpiresAt r).

(** [slices.Sort] on strings and on integers. *)
Definition sort_strings (l : list string) : list string := merge_sort String.le l.
Definition sort_ints (l : list Z) : list Z := merge_sort Z.le l.

Section Probe.
Context {H : Hasher}.

Definition ProbeResult_writer (r : ProbeResult) : digestWriter :=
  let w := newDigest "AntiFlock-DriverProbe-v1" in
  let w := dw_uint (Probe_SchemaVersion r) w in
  let w := dw_str (Probe_Key r) w in
  let w := dw_uint (Probe_Domain r) w in
  let operations := sort_ints (Probe_Operations r) in
  let w := fold_left (fun w operation => dw_uint operation w) operations (dw_uint (len operations) w) in
  let w := dw_uint (Probe_SupportLevel r) w in
  let w := dw_str (Probe_DriverName r) w in
  let w := dw_str (Probe_DriverVersion r) w in
  let w := dw_uint (HealthStatus_num (Probe_Health r)) w in
  let w := dw_uint (if Probe_RecoveryReady r then 1 else 0) w in
  let w := dw_strs (sort_strings (Probe_ReasonCodes r)) w in
  let w := dw_strs (sort_strings (Probe_Constraints r)) w in
  let w := dw_time (Probe_ProbedAt r) w in
  dw_time (Probe_ExpiresAt r) w.

Definition ProbeResult_Digest (r : ProbeResult) : result string :=
  ensure ProbeResult_Validate r;
  Ok (dw_hex (ProbeResult_writer r)).
End Probe.
