(* ===== verification/Contract.v ===== *)
(** * The driver contract (agent/driver/contract.go)

    The value types that cross the host-mutation boundary, with the
    [Validate] method of each and the digests they are identified by. The
    package's own enumerations are inductive types, so that the tests of a
    [Validate] method for a value beyond the last constant have no
    counterpart; the enumerations generated from the protocol buffers are
    integers, because an unknown value can arrive in a message. *)

From S2P Require Import Prelude Sha256 Digest Probe.
From stdpp Require Import base list strings sorting.
From Stdlib Require Import ZArith Lia.

Open Scope Z_scope.

(** ** Bounds and sentinels *)

Definition ContractVersion : Z := 1.
Definition MaxIdentifierLength : Z := 128.
Definition MaxTargetLength : Z := 256.
Definition MaxSnapshotEntries : Z := 4096.
Definition MaxSnapshotValueLength : Z := 1024.
Definition MaxDiffLines : Z := 4096.
Definition MaxDiffLineLength : Z := 512.
Definition MaxReasonCodes : Z := 32.
Definition MaxRecoveryPaths : Z := 64.
Definition MaxSafeMessageLength : Z := 512.
Definition MaxOperationTimeout : Z := 2 * Minute.
Definition MaxCommandArguments : Z := 64.
Definition MaxCommandInputBytes : Z := 64 * 1024.

Definition ErrInvalidRequest : error := errorsNew "driver request is invalid".
Definition ErrUnsafeTarget : error := errorsNew "driver target is unsafe".
Definition ErrTargetMismatch : error :=
  errorsNew "driver apply target does not match the bound target".
Definition ErrReservationInvalid : error := errorsNew "driver reservation is invalid".
Definition ErrUnknownOwnership : error := errorsNew "driver ownership token is unknown".
Definition ErrHostDrift : error := errorsNew "host state drifted since capture".
Definition ErrCrashInjected : error := errorsNew "driver crash injected".
Definition ErrNotImplemented : error := errorsNew "driver operation is not implemented".
Definition ErrRecoveryPending : error := errorsNew "lifecycle recovery is pending".

Definition ReasonApplied : string := "AF-DRIVER-APPLIED".
Definition ReasonVerified : string := "AF-DRIVER-VERIFIED".
Definition ReasonVerifyMismatch : string := "AF-DRIVER-VERIFY-MISMATCH".
Definition ReasonRolledBack : string := "AF-DRIVER-ROLLED-BACK".
Definition ReasonAlreadyRolled : string := "AF-DRIVER-ALREADY-ROLLED-BACK".
Definition ReasonRecovered : string := "AF-DRIVER-RECOVERED".
Definition ReasonRecoveryClean : string := "AF-DRIVER-RECOVERY-CLEAN".
Definition ReasonSimulationOK : string := "AF-DRIVER-SIMULATION-OK".
Definition ReasonSimulationNoop : string := "AF-DRIVER-SIMULATION-NOOP".
Definition ReasonSimulationReject : string := "AF-DRIVER-SIMULATION-REJECTED".
Definition ReasonCheckPassed : string := "AF-DRIVER-CHECK-PASSED".
Definition ReasonCheckFailed : string := "AF-DRIVER-CHECK-FAILED".
Definition ReasonCheckUnsupported : string := "AF-DRIVER-CHECK-UNSUPPORTED".
Definition ReasonTargetUnsafe : string := "AF-DRIVER-TARGET-UNSAFE".
Definition ReasonRecoveryPending : string := "AF-DRIVER-RECOVERY-PENDING".
Definition ReasonRecoveryCommit : string := "AF-DRIVER-RECOVERY-COMMITTED".
Definition ReasonRecoveryRollback : string := "AF-DRIVER-RECOVERY-ROLLED-BACK".
Definition ReasonRecoveryAborted : string := "AF-DRIVER-RECOVERY-ABORTED".

Definition contract_reasons : list string :=
  [ReasonApplied; ReasonVerified; ReasonVerifyMismatch; ReasonRolledBack; ReasonAlreadyRolled; ReasonRecovered;
   ReasonRecoveryClean; ReasonSimulationOK; ReasonSimulationNoop; ReasonSimulationReject; ReasonCheckPassed;
   ReasonCheckFailed; ReasonCheckUnsupported; ReasonTargetUnsafe; ReasonRecoveryPending; ReasonRecoveryCommit;
   ReasonRecoveryRollback; ReasonRecoveryAborted].

(** ** Plan operations (generated from api/proto)

    The fields of [PlanOperation] and [PlanCheck] the driver package reads.
    [Parameters] is a [google.protobuf.Struct]. *)

Inductive pbValue : Type :=
| NullValue
| NumberValue (bits : Z)
| StringValue (s : string)
| BoolValue (b : bool)
| StructValue (fields : list (string * pbValue))
| ListValue (values : list pbValue).

Definition pbStruct : Type := list (string * pbValue).

(** The generated map [PlanOperationType_name]; a missing key reads as the
    empty string. *)
Definition PlanOperationType_name (t : Z) : string :=
  match t with
  | 0 => "PLAN_OPERATION_TYPE_UNSPECIFIED"
  | 1 => "PLAN_OPERATION_TYPE_FIREWALL"
  | 2 => "PLAN_OPERATION_TYPE_ROUTE"
  | 3 => "PLAN_OPERATION_TYPE_DNS"
  | 4 => "PLAN_OPERATION_TYPE_MESH"
  | 5 => "PLAN_OPERATION_TYPE_SERVICE"
  | 6 => "PLAN_OPERATION_TYPE_EXCEPTION"
  | 7 => "PLAN_OPERATION_TYPE_SCRAMBLER_TRANSITION"
  | 8 => "PLAN_OPERATION_TYPE_RECOVERY"
  | _ => EmptyString
  end.

(** The generated map [CheckOutcome_name] has the keys 0 to 5. *)
Definition CheckOutcome_known (o : Z) : bool := (0 <=? o) && (o <=? 5).
Definition CheckOutcomePassed : Z := 2.
Definition CheckOutcomeFailed : Z := 3.
Definition CheckOutcomeUnknown : Z := 4.

Record PlanOperation : Type := mkPlanOperation {
  Operation_Id : string;
  Operation_Type : Z;
  Operation_Target : string;
  Operation_Parameters : option pbStruct;
}.

Record PlanCheck : Type := mkPlanCheck {
  Check_Id : string;
  Check_CheckType : string;
}.

(** The generated getters on a possibly nil message. *)
Definition GetTarget (operation : option PlanOperation) : string :=
  match operation with Some o => Operation_Target o | None => EmptyString end.
Definition GetId (operation : option PlanOperation) : string :=
  match operation with Some o => Operation_Id o | None => EmptyString end.
Definition GetType (operation : option PlanOperation) : Z :=
  match operation with Some o => Operation_Type o | None => 0 end.

(** [t == UNSPECIFIED || PlanOperationType_name[t] == ""]. *)
Definition badOperationType (t : Z) : bool :=
  (t =? 0) || eqs (PlanOperationType_name t) EmptyString.

(** ** Targets *)

(** Whitespace and the shell metacharacters of [ValidateTarget]:
    space, tab, semicolon, bar, ampersand, dollar, backquote, angle brackets,
    parentheses, braces, square brackets, star, question mark, exclamation
    mark, tilde, both quotes, backslash and hash. *)
Definition shellMetacharacters : list Z :=
  [32; 9; 59; 124; 38; 36; 96; 60; 62; 40; 41; 123; 125; 91; 93; 42; 63; 33; 126;
   39; 34; 92; 35].

Definition ValidateTarget (target : string) : result unit :=
  reject eqs target EmptyString || (MaxTargetLength <? slen target) with ErrUnsafeTarget;
  reject negb (printableASCII target) with ErrUnsafeTarget;
  reject containsAny target shellMetacharacters with ErrUnsafeTarget;
  Ok tt.

Definition validateReasonCodes (codes : list string) : result unit :=
  reject (len codes =? 0) || (MaxReasonCodes <? len codes) with ErrInvalidRequest;
  each (fun code => reject negb (validReasonCode code) with ErrInvalidRequest; Ok tt) codes.

(** ** Scopes and snapshots *)

Record Scope : Type := mkScope {
  Scope_OperationType : Z;
  Scope_Targets : list string;
}.

Definition Scope_Validate (scope : Scope) : result unit :=
  reject badOperationType (Scope_OperationType scope) with ErrInvalidRequest;
  reject MaxSnapshotEntries <? len (Scope_Targets scope) with ErrInvalidRequest;
  each ValidateTarget (Scope_Targets scope).

Record SnapshotEntry : Type := mkEntry { Entry_Key : string; Entry_Value : string }.

#[export] Instance SnapshotEntry_eq_dec : EqDecision SnapshotEntry.
Proof. solve_decision. Defined.

Record Snapshot : Type := mkSnapshot {
  Snapshot_SchemaVersion : Z;
  Snapshot_DriverName : string;
  Snapshot_Scope : Scope;
  Snapshot_Entries : list SnapshotEntry;
  Snapshot_CapturedAt : time;
}.

(** The loop over the entries; [previous] is the key of the entry before. *)
Fixpoint snapshot_entries (previous : option string) (entries : list SnapshotEntry) : result unit :=
  match entries with
  | [] => Ok tt
  | entry :: rest =>
      ensure ValidateTarget (Entry_Key entry);
      reject (MaxSnapshotValueLength <? slen (Entry_Value entry)) || negb (printableASCII (Entry_Value entry)) with ErrInvalidRequest;
      reject match previous with Some k => String.leb (Entry_Key entry) k | None => false end with ErrInvalidRequest;
      snapshot_entries (Some (Entry_Key entry)) rest
  end.

Definition Snapshot_Validate (snapshot : Snapshot) : result unit :=
  reject negb (Snapshot_SchemaVersion snapshot =? ContractVersion) with ErrInvalidRequest;
  reject negb (validIdentifier (Snapshot_DriverName snapshot)) with ErrInvalidRequest;
  ensure Scope_Validate (Snapshot_Scope snapshot);
  reject MaxSnapshotEntries <? len (Snapshot_Entries snapshot) with ErrInvalidRequest;
  ensure snapshot_entries None (Snapshot_Entries snapshot);
  reject IsZero (Snapshot_CapturedAt snapshot) with ErrInvalidRequest;
  Ok tt.

(** ** Diffs and simulations *)

Record Diff : Type := mkDiff {
  Diff_BeforeDigest : string;
  Diff_AfterDigest : string;
  Diff_Lines : list string;
}.

Definition Diff_Validate (diff : Diff) : result unit :=
  reject negb (validDigest (Diff_BeforeDigest diff)) || negb (validDigest (Diff_AfterDigest diff)) with ErrInvalidRequest;
  reject MaxDiffLines <? len (Diff_Lines diff) with ErrInvalidRequest;
  each (fun line => reject eqs line EmptyString || (MaxDiffLineLength <? slen line) || negb (printableASCII line) with ErrInvalidRequest; Ok tt) (Diff_Lines diff).

Record SimulationResult : Type := mkSimulation {
  Simulation_OperationID : string;
  Simulation_Target : string;
  Simulation_SnapshotDigest : string;
  Simulation_Diff : Diff;
  Simulation_WouldSucceed : bool;
  Simulation_ReasonCodes : list string;
}.

Definition SimulationResult_Validate (r : SimulationResult) : result unit :=
  reject negb (validIdentifier (Simulation_OperationID r)) with ErrInvalidRequest;
  ensure ValidateTarget (Simulation_Target r);
  reject negb (validDigest (Simulation_SnapshotDigest r)) || negb (eqs (Simulation_SnapshotDigest r) (Diff_BeforeDigest (Simulation_Diff r))) with ErrInvalidRequest;
  ensure Diff_Validate (Simulation_Diff r);
  validateReasonCodes (Simulation_ReasonCodes r).

(** The evidence references of an observation are carried, never read. *)
Record CheckObservation : Type := mkCheckObservation {
  Observation_Outcome : Z;
  Observation_ReasonCode : string;
  Observation_SafeMessage : string;
}.

Definition CheckObservation_Validate (o : CheckObservation) : result unit :=
  reject (Observation_Outcome o =? 0) || negb (CheckOutcome_known (Observation_Outcome o)) with ErrInvalidRequest;
  reject negb (validReasonCode (Observation_ReasonCode o)) with ErrInvalidRequest;
  reject (MaxSafeMessageLength <? slen (Observation_SafeMessage o)) || negb (printableASCII (Observation_SafeMessage o)) with ErrInvalidRequest;
  Ok tt.

(** ** Reservation keys and tokens *)

Record ReservationKey : Type := mkKey {
  Key_PlanID : string;
  Key_PolicyRevision : Z;
  Key_PlanRevision : Z;
  Key_Nonce : string;
  Key_Fingerprint : string;
}.

#[export] Instance ReservationKey_eq_dec : EqDecision ReservationKey.
Proof. solve_decision. Defined.

(** [ReservationKey{}]. *)
Definition zeroKey : ReservationKey := mkKey EmptyString 0 0 EmptyString EmptyString.

Definition ReservationKey_Validate (key : ReservationKey) : result unit :=
  reject negb (validIdentifier (Key_PlanID key)) with ErrReservationInvalid;
  reject (Key_PolicyRevision key =? 0) || (Key_PlanRevision key =? 0) with ErrReservationInvalid;
  reject negb (validIdentifier (Key_Nonce key)) || negb (validIdentifier (Key_Fingerprint key)) || (256 <? slen (Key_Fingerprint key)) with ErrReservationInvalid;
  Ok tt.

Record ReservationToken : Type := mkToken {
  Token_Key : ReservationKey;
  Token_Token : string;
  Token_IssuedAt : time;
}.

(** [ReservationToken{}]. *)
Definition zeroToken : ReservationToken := mkToken zeroKey EmptyString zeroTime.

(** ** Digests *)

Section Digests.
Context {H : Hasher}.

Definition Snapshot_writer (snapshot : Snapshot) : digestWriter :=
  let w := newDigest "AntiFlock-DriverSnapshot-v1" in
  let w := dw_uint (Snapshot_SchemaVersion snapshot) w in
  let w := dw_str (Snapshot_DriverName snapshot) w in
  let w := dw_uint (Scope_OperationType (Snapshot_Scope snapshot)) w in
  let w := dw_strs (sort_strings (Scope_Targets (Snapshot_Scope snapshot))) w in
  let w := dw_uint (len (Snapshot_Entries snapshot)) w in
  fold_left (fun w entry => dw_str (Entry_Value entry) (dw_str (Entry_Key entry) w))
            (Snapshot_Entries snapshot) w.

Definition Snapshot_Digest (snapshot : Snapshot) : result string :=
  ensure Snapshot_Validate snapshot;
  Ok (dw_hex (Snapshot_writer snapshot)).

Definition ReservationKey_writer (key : ReservationKey) : digestWriter :=
  let w := newDigest "AntiFlock-DriverReservation-v1" in
  let w := dw_str (Key_PlanID key) w in
  let w := dw_uint (Key_PolicyRevision key) w in
  let w := dw_uint (Key_PlanRevision key) w in
  let w := dw_str (Key_Nonce key) w in
  dw_str (Key_Fingerprint key) w.

Definition ReservationKey_Digest (key : ReservationKey) : result string :=
  ensure ReservationKey_Validate key;
  Ok (dw_hex (ReservationKey_writer key)).

Definition ReservationToken_Validate (token : ReservationToken) : result unit :=
  do digest <- ReservationKey_Digest (Token_Key token);
  reject negb (eqs (Token_Token token) digest) with ErrReservationInvalid;
  reject IsZero (Token_IssuedAt token) with ErrReservationInvalid;
  Ok tt.

Definition OwnershipToken_writer (planID : string) (planRevision : Z)
    (operationID target reservationToken : string) : digestWriter :=
  let w := newDigest "AntiFlock-DriverOwnership-v1" in
  let w := dw_str planID w in
  let w := dw_uint planRevision w in
  let w := dw_str operationID w in
  let w := dw_str target w in
  dw_str reservationToken w.

Definition OwnershipTokenFor (planID : string) (planRevision : Z)
    (operationID target reservationToken : string) : string :=
  dw_hex (OwnershipToken_writer planID planRevision operationID target reservationToken).
End Digests.

(** ** Apply *)

Record ApplyRequest : Type := mkApplyRequest {
  Apply_PlanID : string;
  Apply_PlanRevision : Z;
  Apply_OperationID : string;
  Apply_Target : string;
  Apply_Operation : option PlanOperation;
  Apply_Reservation : ReservationToken;
  Apply_Timeout : Z;
}.

Definition ApplyRequest_Validate {H : Hasher} (request : ApplyRequest) : result unit :=
  reject negb (validIdentifier (Apply_PlanID request)) || (Apply_PlanRevision request =? 0) || negb (validIdentifier (Apply_OperationID request)) with ErrInvalidRequest;
  ensure ValidateTarget (Apply_Target request);
  reject match Apply_Operation request with None => true | Some _ => false end with ErrInvalidRequest;
  reject negb (eqs (GetId (Apply_Operation request)) (Apply_OperationID request)) with ErrInvalidRequest;
  reject negb (eqs (GetTarget (Apply_Operation request)) (Apply_Target request)) with ErrTargetMismatch;
  reject badOperationType (GetType (Apply_Operation request)) with ErrInvalidRequest;
  ensure ReservationToken_Validate (Apply_Reservation request);
  reject negb (eqs (Key_PlanID (Token_Key (Apply_Reservation request))) (Apply_PlanID request)) || negb (Key_PlanRevision (Token_Key (Apply_Reservation request)) =? Apply_PlanRevision request) with ErrReservationInvalid;
  reject (Apply_Timeout request <=? 0) || (MaxOperationTimeout <? Apply_Timeout request) with ErrInvalidRequest;
  Ok tt.

Record ApplyReceipt : Type := mkApplyReceipt {
  AReceipt_PlanID : string;
  AReceipt_PlanRevision : Z;
  AReceipt_OperationID : string;
  AReceipt_Target : string;
  AReceipt_OwnershipToken : string;
  AReceipt_BeforeDigest : string;
  AReceipt_AppliedDigest : string;
  AReceipt_ReasonCode : string;
  AReceipt_StartedAt : time;
  AReceipt_CompletedAt : time;
}.

(** [ApplyReceipt{}]. *)
Definition zeroApplyReceipt : ApplyReceipt :=
  mkApplyReceipt EmptyString 0 EmptyString EmptyString EmptyString EmptyString EmptyString
    EmptyString zeroTime zeroTime.

Definition ApplyReceipt_Validate (r : ApplyReceipt) : result unit :=
  reject negb (validIdentifier (AReceipt_PlanID r)) || (AReceipt_PlanRevision r =? 0) || negb (validIdentifier (AReceipt_OperationID r)) with ErrInvalidRequest;
  ensure ValidateTarget (AReceipt_Target r);
  reject negb (validIdentifier (AReceipt_OwnershipToken r)) with ErrInvalidRequest;
  reject negb (validDigest (AReceipt_BeforeDigest r)) || negb (validDigest (AReceipt_AppliedDigest r)) with ErrInvalidRequest;
  reject negb (validReasonCode (AReceipt_ReasonCode r)) with ErrInvalidRequest;
  reject IsZero (AReceipt_StartedAt r) || (AReceipt_CompletedAt r <? AReceipt_StartedAt r) with ErrInvalidRequest;
  Ok tt.

(** ** Verification *)

Record VerificationResult : Type := mkVerification {
  Verification_OwnershipToken : string;
  Verification_ExpectedDigest : string;
  Verification_ObservedDigest : string;
  Verification_Verified : bool;
  Verification_ReasonCodes : list string;
  Verification_At : time;
}.

(** [VerificationResult{}]. *)
Definition zeroVerification : VerificationResult :=
  mkVerification EmptyString EmptyString EmptyString false [] zeroTime.

Definition VerificationResult_Validate (r : VerificationResult) : result unit :=
  reject negb (validIdentifier (Verification_OwnershipToken r)) with ErrInvalidRequest;
  reject negb (validDigest (Verification_ExpectedDigest r)) || negb (validDigest (Verification_ObservedDigest r)) with ErrInvalidRequest;
  reject Verification_Verified r && negb (eqs (Verification_ExpectedDigest r) (Verification_ObservedDigest r)) with ErrInvalidRequest;
  reject IsZero (Verification_At r) with ErrInvalidRequest;
  validateReasonCodes (Verification_ReasonCodes r).

(** ** Rollback *)

Record RollbackRequest : Type := mkRollbackRequest {
  Rollback_PlanID : string;
  Rollback_PlanRevision : Z;
  Rollback_OperationID : string;
  Rollback_OwnershipToken : string;
  Rollback_Timeout : Z;
}.

Definition RollbackRequest_Validate (r : RollbackRequest) : result unit :=
  reject negb (validIdentifier (Rollback_PlanID r)) || (Rollback_PlanRevision r =? 0) || negb (validIdentifier (Rollback_OperationID r)) with ErrInvalidRequest;
  reject negb (validIdentifier (Rollback_OwnershipToken r)) with ErrInvalidRequest;
  reject (Rollback_Timeout r <=? 0) || (MaxOperationTimeout <? Rollback_Timeout r) with ErrInvalidRequest;
  Ok tt.

Record RollbackReceipt : Type := mkRollbackReceipt {
  RReceipt_PlanID : string;
  RReceipt_PlanRevision : Z;
  RReceipt_OperationID : string;
  RReceipt_OwnershipToken : string;
  RReceipt_RestoredDigest : string;
  RReceipt_AlreadyRolledBack : bool;
  RReceipt_ReasonCode : string;
  RReceipt_At : time;
}.

(** [RollbackReceipt{}]. *)
Definition zeroRollbackReceipt : RollbackReceipt :=
  mkRollbackReceipt EmptyString 0 EmptyString EmptyString EmptyString false EmptyString zeroTime.

Definition RollbackReceipt_Validate (r : RollbackReceipt) : result unit :=
  reject negb (validIdentifier (RReceipt_PlanID r)) || (RReceipt_PlanRevision r =? 0) || negb (validIdentifier (RReceipt_OperationID r)) with ErrInvalidRequest;
  reject negb (validIdentifier (RReceipt_OwnershipToken r)) || negb (validDigest (RReceipt_RestoredDigest r)) || negb (validReasonCode (RReceipt_ReasonCode r)) with ErrInvalidRequest;
  reject IsZero (RReceipt_At r) with ErrInvalidRequest;
  Ok tt.

(** ** Health, recovery paths, privilege boundaries and command plans *)

Record HealthReport : Type := mkHealthReport {
  Health_Status : HealthStatus;
  Health_ReasonCodes : list string;
  Health_At : time;
}.

Definition HealthReport_Validate (r : HealthReport) : result unit :=
  reject IsZero (Health_At r) with ErrInvalidRequest;
  validateReasonCodes (Health_ReasonCodes r).

Inductive RecoveryPathKind : Type :=
| RecoveryPathUnknown | RecoveryPathNetwork | RecoveryPathLocalConsole.

#[export] Instance RecoveryPathKind_eq_dec : EqDecision RecoveryPathKind.
Proof. solve_decision. Defined.

Definition RecoveryPathKind_String (kind : RecoveryPathKind) : string :=
  match kind with
  | RecoveryPathNetwork => "NETWORK" | RecoveryPathLocalConsole => "LOCAL_CONSOLE"
  | RecoveryPathUnknown => "UNKNOWN"
  end.

Record RecoveryPath : Type := mkRecoveryPath {
  Path_Kind : RecoveryPathKind;
  Path_Address : string;
  Path_Description : string;
}.

Definition RecoveryPath_Validate (p : RecoveryPath) : result unit :=
  reject bool_decide (Path_Kind p = RecoveryPathUnknown) with ErrInvalidRequest;
  ensure ValidateTarget (Path_Address p);
  reject (MaxSafeMessageLength <? slen (Path_Description p)) || negb (printableASCII (Path_Description p)) with ErrInvalidRequest;
  Ok tt.

Record PrivilegeBoundary : Type := mkBoundary {
  Boundary_Binary : string;
  Boundary_ArgumentPattern : list string;
  Boundary_Privilege : string;
  Boundary_ShellFree : bool;
  Boundary_Description : string;
}.

Definition PrivilegeBoundary_Validate (b : PrivilegeBoundary) : result unit :=
  reject negb (validIdentifier (Boundary_Binary b)) || (MaxTargetLength <? slen (Boundary_Binary b)) with ErrInvalidRequest;
  reject MaxCommandArguments <? len (Boundary_ArgumentPattern b) with ErrInvalidRequest;
  ensure each (fun a => reject eqs a EmptyString || (MaxTargetLength <? slen a) || negb (printableASCII a) with ErrInvalidRequest; Ok tt) (Boundary_ArgumentPattern b);
  reject negb (validIdentifier (Boundary_Privilege b)) with ErrInvalidRequest;
  reject negb (Boundary_ShellFree b) with ErrInvalidRequest;
  reject (MaxSafeMessageLength <? slen (Boundary_Description b)) || negb (printableASCII (Boundary_Description b)) with ErrInvalidRequest;
  Ok tt.

Record CommandPlan : Type := mkCommandPlan {
  Command_Executable : string;
  Command_Arguments : list string;
  Command_Input : string;
}.

(** A byte of the command's input: newline, tab, or printable ASCII. *)
Definition input_byte (b : Z) : bool :=
  (b =? 10) || (b =? 9) || negb ((0x7e <? b) || (b <? 0x20)).

Definition CommandPlan_Validate (p : CommandPlan) : result unit :=
  reject negb (validIdentifier (Command_Executable p)) || (MaxTargetLength <? slen (Command_Executable p)) with ErrInvalidRequest;
  reject MaxCommandArguments <? len (Command_Arguments p) with ErrInvalidRequest;
  ensure each ValidateTarget (Command_Arguments p);
  reject MaxCommandInputBytes <? slen (Command_Input p) with ErrInvalidRequest;
  reject negb (all_chars input_byte (Command_Input p)) with ErrInvalidRequest;
  Ok tt.
