(* ===== verification/Journal.v ===== *)
(** * The crash-safe journal (agent/driver/journal.go)

    [journalState] is the storage-independent discipline: an append-only list
    of records, at most one open entry per identity, steps that only advance,
    compaction of finished entries. [MemoryJournal] is the in-process
    implementation of the [Journal] interface. *)

From S2P Require Import Prelude Sha256 Digest Probe Contract.
From stdpp Require Import base gmap list strings sorting.
From Stdlib Require Import ZArith Lia.

Open Scope Z_scope.

(** ** Steps, kinds and records *)

Inductive Step : Type :=
| StepNone | StepCapture | StepSimulate | StepApprove | StepReserve | StepApply
| StepVerify | StepRecord | StepCommit | StepRollback.

#[export] Instance Step_eq_dec : EqDecision Step.
Proof. solve_decision. Defined.

(** The numeric value of the constant: the order of execution. *)
Definition Step_num (step : Step) : Z :=
  match step with
  | StepNone => 0 | StepCapture => 1 | StepSimulate => 2 | StepApprove => 3
  | StepReserve => 4 | StepApply => 5 | StepVerify => 6 | StepRecord => 7
  | StepCommit => 8 | StepRollback => 9
  end.

Definition Step_String (step : Step) : string :=
  match step with
  | StepCapture => "CAPTURE" | StepSimulate => "SIMULATE" | StepApprove => "APPROVE"
  | StepReserve => "RESERVE" | StepApply => "APPLY" | StepVerify => "VERIFY"
  | StepRecord => "RECORD" | StepCommit => "COMMIT" | StepRollback => "ROLLBACK"
  | StepNone => "NONE"
  end.

Definition Step_Valid (step : Step) : bool :=
  (Step_num StepCapture <=? Step_num step) && (Step_num step <=? Step_num StepRollback).

Definition Step_Terminal (step : Step) : bool :=
  bool_decide (step = StepCommit) || bool_decide (step = StepRollback).

Inductive JournalKind : Type :=
| JournalKindUnknown | JournalKindBegin | JournalKindAdvance | JournalKindFinish.

#[export] Instance JournalKind_eq_dec : EqDecision JournalKind.
Proof. solve_decision. Defined.

Definition JournalKind_String (kind : JournalKind) : string :=
  match kind with
  | JournalKindBegin => "BEGIN" | JournalKindAdvance => "ADVANCE"
  | JournalKindFinish => "FINISH" | JournalKindUnknown => "UNKNOWN"
  end.

Record JournalRecord : Type := mkRecord {
  Record_SchemaVersion : Z;
  Record_Kind : JournalKind;
  Record_PlanID : string;
  Record_PlanRevision : Z;
  Record_OperationID : string;
  Record_Step : Step;
  Record_OwnershipToken : string;
  Record_Digest : string;
  Record_Target : string;
  Record_Reservation : ReservationKey;
  Record_At : time;
}.

#[export] Instance JournalRecord_eq_dec : EqDecision JournalRecord.
Proof. solve_decision. Defined.

(** [record.Kind = kind] on a copy. *)
Definition setKind (kind : JournalKind) (r : JournalRecord) : JournalRecord :=
  mkRecord (Record_SchemaVersion r) kind (Record_PlanID r) (Record_PlanRevision r)
    (Record_OperationID r) (Record_Step r) (Record_OwnershipToken r) (Record_Digest r)
    (Record_Target r) (Record_Reservation r) (Record_At r).

Definition JournalRecord_Validate (r : JournalRecord) : result unit :=
  reject negb (Record_SchemaVersion r =? ContractVersion) with ErrInvalidRequest;
  reject bool_decide (Record_Kind r = JournalKindUnknown) with ErrInvalidRequest;
  reject negb (validIdentifier (Record_PlanID r)) || (Record_PlanRevision r =? 0) || negb (validIdentifier (Record_OperationID r)) with ErrInvalidRequest;
  reject negb (Step_Valid (Record_Step r)) with ErrInvalidRequest;
  reject bool_decide (Record_Kind r = JournalKindFinish) && negb (Step_Terminal (Record_Step r)) with ErrInvalidRequest;
  reject negb (bool_decide (Record_Kind r = JournalKindFinish)) && Step_Terminal (Record_Step r) with ErrInvalidRequest;
  reject negb (eqs (Record_OwnershipToken r) EmptyString) && negb (validIdentifier (Record_OwnershipToken r)) with ErrInvalidRequest;
  reject negb (eqs (Record_Digest r) EmptyString) && negb (validDigest (Record_Digest r)) with ErrInvalidRequest;
  ensure (if negb (eqs (Record_Target r) EmptyString) then ValidateTarget (Record_Target r) else Ok tt);
  ensure (if bool_decide (Record_Reservation r <> zeroKey) then ReservationKey_Validate (Record_Reservation r) else Ok tt);
  reject IsZero (Record_At r) with ErrInvalidRequest;
  Ok tt.

Record JournalIdentity : Type := mkIdentity {
  Identity_PlanID : string;
  Identity_PlanRevision : Z;
  Identity_OperationID : string;
}.

#[export] Instance JournalIdentity_eq_dec : EqDecision JournalIdentity.
Proof. solve_decision. Defined.

#[export] Instance JournalIdentity_countable : Countable JournalIdentity.
Proof.
  refine (inj_countable'
    (fun i => (Identity_PlanID i, Identity_PlanRevision i, Identity_OperationID i))
    (fun p => mkIdentity p.1.1 p.1.2 p.2) _).
  by intros [].
Defined.

Definition Identity (r : JournalRecord) : JournalIdentity :=
  mkIdentity (Record_PlanID r) (Record_PlanRevision r) (Record_OperationID r).

(** ** Sentinels and bounds *)

Definition ErrJournalCorrupt : error := errorsNew "driver journal is corrupt".
Definition ErrJournalActive : error := errorsNew "driver journal entry is already open".
Definition ErrJournalInactive : error := errorsNew "driver journal entry is not open".
Definition ErrJournalOrder : error := errorsNew "driver journal step must advance".
Definition ErrJournalFull : error := errorsNew "driver journal is full".

Definition MaxJournalRecords : Z := 4096.
Definition JournalCompactionThreshold : Z := 1024.

(** ** The discipline *)

Abbreviation journalState := (list JournalRecord) (only parsing).
Abbreviation openMap := (gmap JournalIdentity JournalRecord) (only parsing).

(** One turn of the loop of [open]. *)
Definition open_step (m : openMap) (r : JournalRecord) : openMap :=
  match Record_Kind r with
  | JournalKindBegin | JournalKindAdvance => <[ Identity r := r ]> m
  | JournalKindFinish => delete (Identity r) m
  | JournalKindUnknown => m
  end.

Definition open (records : journalState) : openMap := fold_left open_step records ∅.

(** What [check] and [append] ask of a record given the open entries; [check]
    reports every refusal as a corrupt journal. *)
Definition admissible (m : openMap) (r : JournalRecord) : result unit :=
  let current := m !! Identity r in
  match Record_Kind r with
  | JournalKindBegin =>
      match current with Some _ => Err ErrJournalActive | None => Ok tt end
  | JournalKindAdvance =>
      match current with
      | None => Err ErrJournalInactive
      | Some c => if Step_num (Record_Step r) <=? Step_num (Record_Step c)
                  then Err ErrJournalOrder else Ok tt
      end
  | JournalKindFinish =>
      match current with None => Err ErrJournalInactive | Some _ => Ok tt end
  | JournalKindUnknown => Ok tt
  end.

Fixpoint check_records (m : openMap) (records : journalState) : result unit :=
  match records with
  | [] => Ok tt
  | r :: rest =>
      reject negb (is_ok (JournalRecord_Validate r)) with ErrJournalCorrupt;
      reject negb (is_ok (admissible m r)) with ErrJournalCorrupt;
      check_records (open_step m r) rest
  end.

Definition check (records : journalState) : result unit :=
  reject MaxJournalRecords <? len records with ErrJournalCorrupt;
  check_records ∅ records.

(** [counts]: the number of records of each identity. *)
Definition counts (records : journalState) : gmap JournalIdentity Z :=
  fold_left (fun m r => <[ Identity r := default 0 (m !! Identity r) + 1 ]> m) records ∅.

(** The loop that chooses the finished identities to drop, oldest first,
    until half the threshold would remain. *)
Fixpoint choose_dropped (opened : openMap) (cs : gmap JournalIdentity Z) (remaining : Z)
    (dropped : gset JournalIdentity) (records : journalState) : gset JournalIdentity :=
  match records with
  | [] => dropped
  | r :: rest =>
      if remaining <=? JournalCompactionThreshold / 2 then dropped
      else if bool_decide (is_Some (opened !! Identity r)) then
        choose_dropped opened cs remaining dropped rest
      else if bool_decide (Identity r ∈ dropped) then
        choose_dropped opened cs remaining dropped rest
      else
        choose_dropped opened cs (remaining - default 0 (cs !! Identity r))
          ({[ Identity r ]} ∪ dropped) rest
  end.

Definition compact (records : journalState) : journalState :=
  if len records <=? JournalCompactionThreshold then records
  else
    let dropped := choose_dropped (open records) (counts records) (len records) ∅ records in
    if bool_decide (dropped = ∅) then records
    else filter (fun r => Identity r ∉ dropped) records.

Definition append (records : journalState) (r : JournalRecord) : result journalState :=
  ensure JournalRecord_Validate r;
  reject MaxJournalRecords <=? len records with ErrJournalFull;
  ensure admissible (open records) r;
  let records := records ++ [r] in
  Ok (if bool_decide (Record_Kind r = JournalKindFinish) then compact records else records).

(** [compareStrings], and the comparison function of [inFlight]. *)
Definition compareStrings (a b : string) : Z :=
  if String.ltb a b then -1 else if String.ltb b a then 1 else 0.

Definition compareRecords (a b : JournalRecord) : Z :=
  if negb (eqs (Record_PlanID a) (Record_PlanID b))
  then compareStrings (Record_PlanID a) (Record_PlanID b)
  else if negb (Record_PlanRevision a =? Record_PlanRevision b)
  then (if Record_PlanRevision a <? Record_PlanRevision b then -1 else 1)
  else compareStrings (Record_OperationID a) (Record_OperationID b).

Definition record_le (a b : JournalRecord) : Prop := compareRecords a b <= 0.

#[export] Instance record_le_dec a b : Decision (record_le a b).
Proof. unfold record_le. apply _. Defined.

(** [slices.SortFunc]. *)
Definition sort_records (l : list JournalRecord) : list JournalRecord := merge_sort record_le l.

Definition inFlight (records : journalState) : list JournalRecord :=
  sort_records (snd <$> map_to_list (open records)).

(** ** The in-process journal *)

Record MemoryJournal : Type := mkMemoryJournal {
  MJ_state : journalState;
  MJ_corrupt : bool;
}.

Definition NewMemoryJournal : MemoryJournal := mkMemoryJournal [] false.
Definition MemoryJournal_Corrupt (j : MemoryJournal) : MemoryJournal :=
  mkMemoryJournal (MJ_state j) true.

Definition MemoryJournal_write (ctx : ctxT) (r : JournalRecord) : M MemoryJournal unit :=
  run! ctxErr ctx in
  let! j := getS in
  if MJ_corrupt j then failM ErrJournalCorrupt else
  let! records := liftR (append (MJ_state j) r) in
  modS (fun j => mkMemoryJournal records (MJ_corrupt j)).

Definition MemoryJournal_Begin (ctx : ctxT) (r : JournalRecord) : M MemoryJournal unit :=
  MemoryJournal_write ctx (setKind JournalKindBegin r).
Definition MemoryJournal_Advance (ctx : ctxT) (r : JournalRecord) : M MemoryJournal unit :=
  MemoryJournal_write ctx (setKind JournalKindAdvance r).
Definition MemoryJournal_Finish (ctx : ctxT) (r : JournalRecord) : M MemoryJournal unit :=
  MemoryJournal_write ctx (setKind JournalKindFinish r).

Definition MemoryJournal_InFlight (ctx : ctxT) : M MemoryJournal (list JournalRecord) :=
  run! ctxErr ctx in
  let! j := getS in
  if MJ_corrupt j then failM ErrJournalCorrupt else
  retM (inFlight (MJ_state j)).

Definition MemoryJournal_Records (ctx : ctxT) : M MemoryJournal (list JournalRecord) :=
  run! ctxErr ctx in
  let! j := getS in
  if MJ_corrupt j then failM ErrJournalCorrupt else
  retM (MJ_state j).
