(* ===== verification/Directory.v ===== *)
(** * A private directory with one durable file

    The durable journal and the durable plan state each keep one file in a
    directory of their own, behind a lock file, and replace it by a rename.
    The directory is explicit state; every system call may fail ([sysFails],
    indexed by ticks), and beside what the running system sees under the
    file's name the state keeps what the disk holds, so that a power loss at
    any system call is a value: the images recorded in [dir_images]. *)

From S2P Require Import Prelude.
From stdpp Require Import base gmap list strings.
From Stdlib Require Import ZArith Lia.

Open Scope Z_scope.

(** ** The directory *)

Inductive fileKind : Type := Regular | Symlink | Special.
#[export] Instance fileKind_eq_dec : EqDecision fileKind.
Proof. solve_decision. Defined.

(** A file: [node_synced] when its content has reached the disk. *)
Record node : Type := mkNode {
  node_kind : fileKind;
  node_mode : Z;
  node_content : list Z;
  node_synced : bool;
}.

Inductive directoryKind : Type := Absent | Directory | DirectoryLink | NotDirectory.
#[export] Instance directoryKind_eq_dec : EqDecision directoryKind.
Proof. solve_decision. Defined.

Record directory : Type := mkDirectory {
  dir_kind : directoryKind;
  dir_linked : bool;            (** some component of the path is a symlink *)
  dir_mode : Z;
  dir_journal : option node;    (** what the file's name is bound to *)
  dir_durable : option node;    (** what the disk has it bound to *)
  dir_stage : option node;      (** the temporary file of this process *)
  dir_lock : option node;
  dir_held : bool;              (** this process holds the lock *)
  dir_images : list (option node);
}.

Definition set_entry_kind (k : directoryKind) (mode : Z) (d : directory) : directory :=
  mkDirectory k (dir_linked d) mode (dir_journal d) (dir_durable d) (dir_stage d) (dir_lock d) (dir_held d) (dir_images d).
Definition set_stage (s : option node) (d : directory) : directory :=
  mkDirectory (dir_kind d) (dir_linked d) (dir_mode d) (dir_journal d) (dir_durable d) s (dir_lock d) (dir_held d) (dir_images d).
Definition set_lock (k : option node) (d : directory) : directory :=
  mkDirectory (dir_kind d) (dir_linked d) (dir_mode d) (dir_journal d) (dir_durable d) (dir_stage d) k (dir_held d) (dir_images d).
Definition set_held (b : bool) (d : directory) : directory :=
  mkDirectory (dir_kind d) (dir_linked d) (dir_mode d) (dir_journal d) (dir_durable d) (dir_stage d) (dir_lock d) b (dir_images d).
(** [rename] over the file's name, and [fsync] of the directory. *)
Definition install (d : directory) : directory :=
  mkDirectory (dir_kind d) (dir_linked d) (dir_mode d) (dir_stage d) (dir_durable d) None (dir_lock d) (dir_held d) (dir_images d).
Definition syncDirectory (d : directory) : directory :=
  mkDirectory (dir_kind d) (dir_linked d) (dir_mode d) (dir_journal d) (dir_journal d) (dir_stage d) (dir_lock d) (dir_held d) (dir_images d).
(** What a power loss at this point may leave under the file's name. *)
Definition observe (d : directory) : directory :=
  mkDirectory (dir_kind d) (dir_linked d) (dir_mode d) (dir_journal d) (dir_durable d) (dir_stage d) (dir_lock d) (dir_held d)
    (dir_durable d :: dir_journal d :: dir_images d).

Definition chmod (mode : Z) (f : node) : node := mkNode (node_kind f) mode (node_content f) (node_synced f).
Definition written (content : list Z) (f : node) : node := mkNode (node_kind f) (node_mode f) content false.
Definition synced (f : node) : node := mkNode (node_kind f) (node_mode f) (node_content f) true.

(** A file whose content had not reached the disk comes back empty. *)
Definition afterPowerLoss (f : node) : node :=
  if node_synced f then f else mkNode (node_kind f) (node_mode f) [] true.

Definition perm_0600 : Z := 384.
Definition perm_0700 : Z := 448.

(** A second [Decode] reports [io.EOF] when only white space is left. *)
Definition onlySpace (rest : list Z) : bool :=
  forallb (fun b => (b =? 0x20) || (b =? 0x09) || (b =? 0x0a) || (b =? 0x0d)) rest.

(** [defer h]: the clean-up runs however the method ends. *)
Definition deferM {S A : Type} (h : S -> S) (m : M S A) : M S A := fun st =>
  match m st with (r, (n, s)) => (r, (n, h s)) end.

(** The errors of a store's save, one per system call. *)
Record stageErrors : Type := mkStageErrors {
  stage_create : error;
  stage_restrict : error;
  stage_write : error;
  stage_sync : error;
  stage_close : error;
  stage_install : error;
  stage_openDirectory : error;
  stage_syncDirectory : error;
}.

Section Directory.
(** Which system calls fail, and, per attempt to lock, how often another
    process answers that it would block and whether the call then succeeds. *)
Context (sysFails : nat -> bool) (contention : nat -> nat * bool).

Abbreviation MD := (M directory).

Definition syscall (e : error) (f : directory -> directory) : MD unit := fun st =>
  if sysFails (fst st) then (Err e, (S (fst st), snd st))
  else (Ok tt, (S (fst st), observe (f (snd st)))).

(** Open without following a final symlink, and refuse anything but a private
    regular file. [Special] stands for files whose opening does not block. *)
Definition openFileNoFollow (missing unopened unsafe : error) : MD (list Z) := fun st =>
  let d := snd st in
  (if sysFails (fst st) then Err unopened else
   match dir_journal d with
   | None => Err missing
   | Some f =>
       match node_kind f with
       | Symlink => Err unopened
       | _ => if negb (bool_decide (node_kind f = Regular)) || negb (node_mode f =? perm_0600)
              then Err unsafe else Ok (node_content f)
       end
   end, (S (fst st), d)).

Definition fsyncDirectory (E : stageErrors) : MD unit :=
  let! d := getS in
  if negb (bool_decide (dir_kind d = Directory)) then failM (stage_openDirectory E) else
  run! syscall (stage_openDirectory E) id in
  syscall (stage_syncDirectory E) syncDirectory.

(** Stage the content in a temporary file, rename it over the name, and sync
    the directory; the temporary file is removed however this ends. *)
Definition installContent (E : stageErrors) (content : list Z) : MD unit :=
  run! syscall (stage_create E) (set_stage (Some (mkNode Regular perm_0600 [] false))) in
  deferM (set_stage None) (
    run! syscall (stage_restrict E) (fun d => set_stage (chmod perm_0600 <$> dir_stage d) d) in
    run! syscall (stage_write E) (fun d => set_stage (written content <$> dir_stage d) d) in
    run! syscall (stage_sync E) (fun d => set_stage (synced <$> dir_stage d) d) in
    run! syscall (stage_close E) id in
    run! syscall (stage_install E) install in
    fsyncDirectory E).

(** *** The lock *)

Definition openLockFile (unopened unsafe : error) : MD unit :=
  let! d := getS in
  match dir_lock d with
  | Some f =>
      if bool_decide (node_kind f = Symlink) then failM unopened else
      run! syscall unopened id in
      if negb (bool_decide (node_kind f = Regular)) then failM unsafe else
      syscall unsafe (set_lock (Some (chmod perm_0600 f)))
  | None =>
      run! syscall unopened (set_lock (Some (mkNode Regular perm_0600 [] false))) in
      syscall unsafe id
  end.

(** The loop of a lock: [blocked] attempts are answered that they would
    block, each followed by a wait that ends with the ticker or the context. *)
Fixpoint lockAttempts (refused : error) (ctx : ctxT) (blocked : nat) (acquired : bool) : MD unit :=
  match blocked with
  | O => if acquired then modS (set_held true) else failM refused
  | S k => run! ctxErr ctx in lockAttempts refused ctx k acquired
  end.

Definition attempts : MD (nat * bool) := fun st => (Ok (contention (fst st)), (S (fst st), snd st)).

Definition acquireLock (refused : error) (ctx : ctxT) : MD unit :=
  let! c := attempts in
  lockAttempts refused ctx (fst c) (snd c).

(** Closing the lock; its error is dropped by the deferring callers. *)
Definition unlock : directory -> directory := set_held false.

End Directory.
