(* ===== verification/JournalFile.v ===== *)
(** * The durable journal (agent/driver/journal_file.go, journal_open_unix.go)

    [FileJournal] keeps the discipline of Journal.v in one file of a private
    directory, the explicit state of Directory.v.

    [encoding/json] and the RFC 3339 text of [time.Time] are parameters, with
    their documented round trips as laws ([JournalCodec]). *)

From S2P Require Import Prelude Directory Sha256 Digest Probe Contract Journal.
From stdpp Require Import base gmap list strings.
From Stdlib Require Import ZArith Lia.

Open Scope Z_scope.

(** ** The persisted form *)

Definition fileJournalSchema : string := "antiflock.driver-journal/v2".
Definition maximumJournalBytes : Z := Z.shiftl 8 20.

Record persistedReservationKey : Type := mkPersistedKey {
  PKey_PlanID : string;
  PKey_PolicyRevision : Z;
  PKey_PlanRevision : Z;
  PKey_Nonce : string;
  PKey_Fingerprint : string;
}.

Record persistedJournalRecord : Type := mkPersistedRecord {
  PRecord_SchemaVersion : Z;
  PRecord_Kind : string;
  PRecord_PlanID : string;
  PRecord_PlanRevision : Z;
  PRecord_OperationID : string;
  PRecord_Step : string;
  PRecord_OwnershipToken : string;
  PRecord_Digest : string;
  PRecord_Target : string;
  PRecord_Reservation : option persistedReservationKey;
  PRecord_At : string;
}.

Record persistedJournal : Type := mkPersistedJournal {
  Persisted_SchemaVersion : string;
  Persisted_Records : list persistedJournalRecord;
}.

(** ** The codec

    What [json.Marshal] writes for a [persistedJournal], and what one
    [Decode] of a decoder that disallows unknown fields reads: the value and
    the input left. The laws are the documented behaviour on ASCII strings
    and numbers of the fields' widths, and on the instants whose year has
    four digits. *)

Definition ascii (s : string) : Prop := Forall (fun b => b < 128) (bytes_of s).
Definition u32 (x : Z) : Prop := 0 <= x < 2 ^ 32.

Definition plainKey (k : persistedReservationKey) : Prop :=
  ascii (PKey_PlanID k) /\ u64 (PKey_PolicyRevision k) /\ u64 (PKey_PlanRevision k) /\
  ascii (PKey_Nonce k) /\ ascii (PKey_Fingerprint k).

Definition plainRecord (r : persistedJournalRecord) : Prop :=
  u32 (PRecord_SchemaVersion r) /\ u64 (PRecord_PlanRevision r) /\
  Forall ascii [PRecord_Kind r; PRecord_PlanID r; PRecord_OperationID r; PRecord_Step r;
    PRecord_OwnershipToken r; PRecord_Digest r; PRecord_Target r; PRecord_At r] /\
  (forall k, PRecord_Reservation r = Some k -> plainKey k).

(** Instants of the years 0 to 9999, in UTC. *)
Definition fourDigitYear (t : time) : Prop :=
  - 62167219200 * Second <= t < 253402300800 * Second.

Class JournalCodec : Type := {
  jsonMarshal : persistedJournal -> list Z;
  jsonDecode : list Z -> option (persistedJournal * list Z);
  formatRFC3339Nano : time -> string;
  parseRFC3339Nano : string -> option time;
  json_roundtrip : forall p, ascii (Persisted_SchemaVersion p) -> Forall plainRecord (Persisted_Records p) ->
    jsonMarshal p <> [] /\ jsonDecode (jsonMarshal p) = Some (p, []);
  rfc3339_roundtrip : forall t, fourDigitYear t ->
    ascii (formatRFC3339Nano t) /\ parseRFC3339Nano (formatRFC3339Nano t) = Some t;
}.

(** ** Names *)

Definition journalKindByName (name : string) : option JournalKind :=
  find (fun kind => eqs (JournalKind_String kind) name)
    [JournalKindBegin; JournalKindAdvance; JournalKindFinish].

Definition stepByName (name : string) : option Step :=
  find (fun step => eqs (Step_String step) name)
    [StepCapture; StepSimulate; StepApprove; StepReserve; StepApply;
     StepVerify; StepRecord; StepCommit; StepRollback].

(** ** Errors *)

Definition ErrNotExist : error := errorsNew "file does not exist".
Definition ErrDirectoryRequired : error := errorsNew "journal directory is required".
Definition ErrResolve : error := errorsNew "resolve journal directory".
Definition ErrCreateDirectory : error := errorsNew "create journal directory".
Definition ErrTraverse : error := errorsNew "journal directory must not traverse symlinks".
Definition ErrPathNotPrivate : error := errorsNew "journal path is not a private directory".
Definition ErrRestrictDirectory : error := errorsNew "restrict journal directory".
Definition ErrNotPrivateDirectory : error := errorsNew "journal directory is not a private directory".
Definition ErrDirectoryMode : error := errorsNew "journal directory is not private".
Definition ErrOpenLock : error := errorsNew "open journal lock".
Definition ErrLockNotPrivate : error := errorsNew "journal lock is not a private regular file".
Definition ErrAcquireLock : error := errorsNew "acquire journal lock".
Definition ErrOpenNoFollow : error := errorsNew "open journal without following links".
Definition ErrFileNotPrivate : error := errorsNew "journal is not a private regular file".
Definition ErrEncode : error := errorsNew "encode journal".
Definition ErrCreateStage : error := errorsNew "create journal stage".
Definition ErrRestrictStage : error := errorsNew "restrict journal stage".
Definition ErrWriteStage : error := errorsNew "write journal stage".
Definition ErrSyncStage : error := errorsNew "sync journal stage".
Definition ErrCloseStage : error := errorsNew "close journal stage".
Definition ErrInstall : error := errorsNew "install journal".
Definition ErrOpenDirectory : error := errorsNew "open journal directory".
Definition ErrSyncDirectory : error := errorsNew "sync journal directory".
Definition ErrRecordKind : error := errorsNew "journal record kind is unknown".
Definition ErrRecordStep : error := errorsNew "journal record step is unknown".
Definition ErrRecordAt : error := errorsNew "journal record at is not RFC 3339".

Section FileJournal.
Context {JC : JournalCodec}.
(** Which system calls fail, and, per attempt to lock, how often another
    process answers that it would block and whether the call then succeeds. *)
Context (sysFails : nat -> bool) (contention : nat -> nat * bool).

Abbreviation MD := (M directory).

(** *** Records *)

Definition encodeReservationKey (key : ReservationKey) : option persistedReservationKey :=
  if bool_decide (key = zeroKey) then None
  else Some (mkPersistedKey (Key_PlanID key) (Key_PolicyRevision key) (Key_PlanRevision key)
               (Key_Nonce key) (Key_Fingerprint key)).

Definition encodeJournalRecord (r : JournalRecord) : persistedJournalRecord :=
  mkPersistedRecord (Record_SchemaVersion r) (JournalKind_String (Record_Kind r))
    (Record_PlanID r) (Record_PlanRevision r) (Record_OperationID r) (Step_String (Record_Step r))
    (Record_OwnershipToken r) (Record_Digest r) (Record_Target r)
    (encodeReservationKey (Record_Reservation r)) (formatRFC3339Nano (Record_At r)).

Definition decodeReservationKey (k : option persistedReservationKey) : ReservationKey :=
  match k with
  | None => zeroKey
  | Some k => mkKey (PKey_PlanID k) (PKey_PolicyRevision k) (PKey_PlanRevision k) (PKey_Nonce k) (PKey_Fingerprint k)
  end.

Definition persistedJournalRecord_decode (e : persistedJournalRecord) : result JournalRecord :=
  match journalKindByName (PRecord_Kind e) with
  | None => Err ErrRecordKind
  | Some kind =>
  match stepByName (PRecord_Step e) with
  | None => Err ErrRecordStep
  | Some step =>
  match parseRFC3339Nano (PRecord_At e) with
  | None => Err ErrRecordAt
  | Some at_ =>
      let record := mkRecord (PRecord_SchemaVersion e) kind (PRecord_PlanID e) (PRecord_PlanRevision e)
        (PRecord_OperationID e) step (PRecord_OwnershipToken e) (PRecord_Digest e) (PRecord_Target e)
        (decodeReservationKey (PRecord_Reservation e)) at_ in
      ensure JournalRecord_Validate record;
      Ok record
  end end end.

Fixpoint decodeRecords (l : list persistedJournalRecord) : result (list JournalRecord) :=
  match l with
  | [] => Ok []
  | e :: rest =>
      match persistedJournalRecord_decode e with
      | Err _ => Err ErrJournalCorrupt
      | Ok r => do rs <- decodeRecords rest; Ok (r :: rs)
      end
  end.

(** *** Load and save *)

(** The content of a private regular file. *)
Definition openJournalFileNoFollow : MD (list Z) :=
  openFileNoFollow sysFails ErrNotExist ErrOpenNoFollow ErrFileNotPrivate.

(** From the bytes read to the checked records. *)
Definition decodeJournal (content : list Z) : result (list JournalRecord) :=
  reject (len content =? 0) || (maximumJournalBytes <? len content) with ErrJournalCorrupt;
  match jsonDecode content with
  | None => Err ErrJournalCorrupt
  | Some (persisted, rest) =>
      reject negb (onlySpace rest) with ErrJournalCorrupt;
      reject negb (eqs (Persisted_SchemaVersion persisted) fileJournalSchema) with ErrJournalCorrupt;
      do records <- decodeRecords (Persisted_Records persisted);
      ensure check records;
      Ok records
  end.

Definition load : MD (list JournalRecord) :=
  let! opened := attempt openJournalFileNoFollow in
  match opened with
  | Err e => if bool_decide (e = ErrNotExist) then retM [] else failM ErrJournalCorrupt
  | Ok content =>
      run! syscall sysFails ErrJournalCorrupt id in
      liftR (decodeJournal (take (Z.to_nat (maximumJournalBytes + 1)) content))
  end.

Definition journalErrors : stageErrors :=
  mkStageErrors ErrCreateStage ErrRestrictStage ErrWriteStage ErrSyncStage ErrCloseStage ErrInstall ErrOpenDirectory ErrSyncDirectory.

Definition save (state : list JournalRecord) : MD unit :=
  let persisted := mkPersistedJournal fileJournalSchema (encodeJournalRecord <$> state) in
  let content := jsonMarshal persisted in
  if (len content =? 0) || (maximumJournalBytes <? len content) then failM ErrEncode else
  installContent sysFails journalErrors content.

(** *** The lock *)

Definition checkPrivateDirectory : MD unit :=
  run! syscall sysFails ErrNotPrivateDirectory id in
  let! d := getS in
  if negb (bool_decide (dir_kind d = Directory)) then failM ErrNotPrivateDirectory else
  if negb (dir_mode d =? perm_0700) then failM ErrDirectoryMode else
  retM tt.

Definition openJournalLockFile : MD unit := openLockFile sysFails ErrOpenLock ErrLockNotPrivate.

Definition lock (ctx : ctxT) : MD unit :=
  run! checkPrivateDirectory in
  run! openJournalLockFile in
  acquireLock contention ErrAcquireLock ctx.

(** *** The Journal interface *)

Definition FileJournal_write (ctx : ctxT) (r : JournalRecord) : MD unit :=
  run! ctxErr ctx in
  run! lock ctx in
  deferM unlock (
    let! state := load in
    let! state := liftR (append state r) in
    save state).

Definition FileJournal_Begin (ctx : ctxT) (r : JournalRecord) : MD unit :=
  FileJournal_write ctx (setKind JournalKindBegin r).
Definition FileJournal_Advance (ctx : ctxT) (r : JournalRecord) : MD unit :=
  FileJournal_write ctx (setKind JournalKindAdvance r).
Definition FileJournal_Finish (ctx : ctxT) (r : JournalRecord) : MD unit :=
  FileJournal_write ctx (setKind JournalKindFinish r).

Definition FileJournal_read (ctx : ctxT) : MD (list JournalRecord) :=
  run! ctxErr ctx in
  run! lock ctx in
  deferM unlock load.

Definition FileJournal_InFlight (ctx : ctxT) : MD (list JournalRecord) :=
  let! state := FileJournal_read ctx in
  retM (inFlight state).

Definition FileJournal_Records (ctx : ctxT) : MD (list JournalRecord) := FileJournal_read ctx.

(** [NewFileJournal] on a path that is [blank] or not: the directory is
    created when absent and restricted, never reached through a symlink. *)
Definition NewFileJournal (blank : bool) : MD unit :=
  if blank then failM ErrDirectoryRequired else
  run! syscall sysFails ErrResolve id in
  let! d := getS in
  if bool_decide (dir_kind d = NotDirectory) then failM ErrCreateDirectory else
  run! syscall sysFails ErrCreateDirectory (fun d =>
    if bool_decide (dir_kind d = Absent) then set_entry_kind Directory perm_0700 d else d) in
  run! syscall sysFails ErrTraverse id in
  let! d := getS in
  if dir_linked d || bool_decide (dir_kind d = DirectoryLink) then failM ErrTraverse else
  run! syscall sysFails ErrPathNotPrivate id in
  if negb (bool_decide (dir_kind d = Directory)) then failM ErrPathNotPrivate else
  syscall sysFails ErrRestrictDirectory (fun d => set_entry_kind (dir_kind d) perm_0700 d).

End FileJournal.
