(* ===== verification/DriverStores.v ===== *)
(** * The stores of agent/driver

    The replay boundary (reservation.go) and the receipts (receipt.go). *)

From S2P Require Import Prelude Sha256 Digest Probe Contract Journal.
From stdpp Require Import base gmap list strings.
From Stdlib Require Import ZArith Lia.

Open Scope Z_scope.

(** * The replay boundary (agent/driver/reservation.go)

    [MemoryReservationStore]: two monotonic revision floors and, per plan id,
    at most one reservation that is remembered forever. *)

Definition MaxReservationResultBytes : Z := 512 * 1024.

Definition ErrAlreadyReserved : error := errorsNew "plan is already reserved".
Definition ErrStaleRevision : error := errorsNew "plan revision is stale".
Definition ErrReservationNotTerminal : error :=
  errorsNew "reservation can only be released by a terminal step".
Definition ErrReservationUnknown : error := errorsNew "reservation is unknown".
Definition ErrReservationConflict : error :=
  errorsNew "reservation was already released with a different result".
Definition ErrZeroClock : error := errorsNew "reservation clock returned a zero time".

Record Reservation : Type := mkReservation {
  Reservation_Token : ReservationToken;
  Reservation_Replayed : bool;
  Reservation_Terminal : Step;
  Reservation_Result : list Z;
}.

Record RevisionFloor : Type := mkFloor {
  Floor_PolicyRevision : Z;
  Floor_PlanRevision : Z;
}.

Record reservationRecord : Type := mkReservationRecord {
  rr_token : ReservationToken;
  rr_released : bool;
  rr_terminal : Step;
  rr_result : list Z;
}.

Record MemoryReservationStore : Type := mkStore {
  RS_floor : RevisionFloor;
  RS_records : gmap string reservationRecord;
}.

Definition NewMemoryReservationStore (lastPolicyRevision lastPlanRevision : Z) : MemoryReservationStore :=
  mkStore (mkFloor lastPolicyRevision lastPlanRevision) ∅.

Section Store.
Context {H : Hasher}.
(** The store's clock, a field fixed at construction. *)
Context (clock : clockT).

Definition MemoryReservationStore_Reserve (ctx : ctxT) (key : ReservationKey) : M MemoryReservationStore Reservation :=
  run! ctxErr ctx in
  let! digest := liftR (ReservationKey_Digest key) in
  let! store := getS in
  match RS_records store !! Key_PlanID key with
  | Some existing =>
      if negb (bool_decide (Token_Key (rr_token existing) = key)) then failM ErrAlreadyReserved
      else if negb (rr_released existing) then failM ErrAlreadyReserved
      else retM (mkReservation (rr_token existing) true (rr_terminal existing) (rr_result existing))
  | None =>
      if (Key_PolicyRevision key <? Floor_PolicyRevision (RS_floor store))
         || (Key_PlanRevision key <=? Floor_PlanRevision (RS_floor store))
      then failM ErrStaleRevision
      else
        let! issuedAt := now clock in
        let token := mkToken key digest issuedAt in
        if IsZero (Token_IssuedAt token) then failM ErrZeroClock
        else
          run! modS (fun s => mkStore (mkFloor (Key_PolicyRevision key) (Key_PlanRevision key))
                 (<[ Key_PlanID key := mkReservationRecord token false StepNone [] ]> (RS_records s))) in
          retM (mkReservation token false StepNone [])
  end.

Definition MemoryReservationStore_Release (ctx : ctxT) (token : ReservationToken) (terminal : Step) (result : list Z) : M MemoryReservationStore unit :=
  run! ctxErr ctx in
  run! liftR (ReservationToken_Validate token) in
  if negb (Step_Terminal terminal) then failM ErrReservationNotTerminal
  else if MaxReservationResultBytes <? len result then failM ErrInvalidRequest
  else
    let! store := getS in
    match RS_records store !! Key_PlanID (Token_Key token) with
    | None => failM ErrReservationUnknown
    | Some record =>
        if negb (eqs (Token_Token (rr_token record)) (Token_Token token)) then failM ErrReservationUnknown
        else if rr_released record then
          if bool_decide (rr_terminal record = terminal) && bool_decide (rr_result record = result)
          then retM tt else failM ErrReservationConflict
        else
          modS (fun s => mkStore (RS_floor s)
            (<[ Key_PlanID (Token_Key token) :=
                 mkReservationRecord (rr_token record) true terminal result ]> (RS_records s)))
    end.

Definition MemoryReservationStore_Floor (ctx : ctxT) : M MemoryReservationStore RevisionFloor :=
  run! ctxErr ctx in
  let! store := getS in
  retM (RS_floor store).
End Store.

(** * Receipts (agent/driver/receipt.go)

    The signable record of one driver action, its content digest, and the
    append-only [MemoryReceiptStore]. *)

Inductive ReceiptKind : Type :=
| ReceiptKindUnknown | ReceiptKindApply | ReceiptKindVerify | ReceiptKindRollback
| ReceiptKindRecover | ReceiptKindCommit.

#[export] Instance ReceiptKind_eq_dec : EqDecision ReceiptKind.
Proof. solve_decision. Defined.

Definition ReceiptKind_num (kind : ReceiptKind) : Z :=
  match kind with
  | ReceiptKindUnknown => 0 | ReceiptKindApply => 1 | ReceiptKindVerify => 2
  | ReceiptKindRollback => 3 | ReceiptKindRecover => 4 | ReceiptKindCommit => 5
  end.

Definition ReceiptKind_String (kind : ReceiptKind) : string :=
  match kind with
  | ReceiptKindApply => "APPLY" | ReceiptKindVerify => "VERIFY" | ReceiptKindRollback => "ROLLBACK"
  | ReceiptKindRecover => "RECOVER" | ReceiptKindCommit => "COMMIT" | ReceiptKindUnknown => "UNKNOWN"
  end.

Record Receipt : Type := mkReceipt {
  Receipt_SchemaVersion : Z;
  Receipt_Kind : ReceiptKind;
  Receipt_PlanID : string;
  Receipt_PlanRevision : Z;
  Receipt_OperationID : string;
  Receipt_Target : string;
  Receipt_OwnershipToken : string;
  Receipt_Digest : string;
  Receipt_ReasonCode : string;
  Receipt_At : time;
}.

Definition Receipt_Validate (r : Receipt) : result unit :=
  reject negb (Receipt_SchemaVersion r =? ContractVersion) with ErrInvalidRequest;
  reject bool_decide (Receipt_Kind r = ReceiptKindUnknown) with ErrInvalidRequest;
  reject negb (validIdentifier (Receipt_PlanID r)) || (Receipt_PlanRevision r =? 0) || negb (validIdentifier (Receipt_OperationID r)) with ErrInvalidRequest;
  ensure (if negb (eqs (Receipt_Target r) EmptyString) then ValidateTarget (Receipt_Target r) else Ok tt);
  reject negb (validIdentifier (Receipt_OwnershipToken r)) with ErrInvalidRequest;
  reject negb (validDigest (Receipt_Digest r)) with ErrInvalidRequest;
  reject negb (validReasonCode (Receipt_ReasonCode r)) with ErrInvalidRequest;
  reject IsZero (Receipt_At r) with ErrInvalidRequest;
  Ok tt.

(** [ApplyReceipt.Receipt] and [RollbackReceipt.Receipt] of contract.go. *)
Definition ApplyReceipt_Receipt (r : ApplyReceipt) : Receipt :=
  mkReceipt ContractVersion ReceiptKindApply (AReceipt_PlanID r) (AReceipt_PlanRevision r)
    (AReceipt_OperationID r) (AReceipt_Target r) (AReceipt_OwnershipToken r)
    (AReceipt_AppliedDigest r) (AReceipt_ReasonCode r) (AReceipt_CompletedAt r).

Definition RollbackReceipt_Receipt (r : RollbackReceipt) : Receipt :=
  mkReceipt ContractVersion ReceiptKindRollback (RReceipt_PlanID r) (RReceipt_PlanRevision r)
    (RReceipt_OperationID r) EmptyString (RReceipt_OwnershipToken r)
    (RReceipt_RestoredDigest r) (RReceipt_ReasonCode r) (RReceipt_At r).

Definition ErrReceiptDuplicate : error := errorsNew "driver receipt already recorded".

Record MemoryReceiptStore : Type := mkReceiptStore {
  RC_receipts : list Receipt;
  RC_digests : gset string;
}.

Definition NewMemoryReceiptStore : MemoryReceiptStore := mkReceiptStore [] ∅.

Section Receipts.
Context {H : Hasher}.

Definition Receipt_writer (r : Receipt) : digestWriter :=
  let w := newDigest "AntiFlock-DriverReceipt-v1" in
  let w := dw_uint (Receipt_SchemaVersion r) w in
  let w := dw_uint (ReceiptKind_num (Receipt_Kind r)) w in
  let w := dw_str (Receipt_PlanID r) w in
  let w := dw_uint (Receipt_PlanRevision r) w in
  let w := dw_str (Receipt_OperationID r) w in
  let w := dw_str (Receipt_Target r) w in
  let w := dw_str (Receipt_OwnershipToken r) w in
  let w := dw_str (Receipt_Digest r) w in
  let w := dw_str (Receipt_ReasonCode r) w in
  dw_time (Receipt_At r) w.

Definition ContentDigest (r : Receipt) : result string :=
  ensure Receipt_Validate r;
  Ok (dw_hex (Receipt_writer r)).

Definition MemoryReceiptStore_Append (ctx : ctxT) (receipt : Receipt) : M MemoryReceiptStore unit :=
  run! ctxErr ctx in
  let! digest := liftR (ContentDigest receipt) in
  let! store := getS in
  if bool_decide (digest ∈ RC_digests store) then failM ErrReceiptDuplicate
  else modS (fun s => mkReceiptStore (RC_receipts s ++ [receipt]) ({[ digest ]} ∪ RC_digests s)).

Definition MemoryReceiptStore_List (ctx : ctxT) (planID : string) : M MemoryReceiptStore (list Receipt) :=
  run! ctxErr ctx in
  if negb (validIdentifier planID) then failM ErrInvalidRequest
  else
    let! store := getS in
    retM (filter (fun r => Receipt_PlanID r = planID) (RC_receipts store)).
End Receipts.
