(* ===== verification/Interfaces.v ===== *)
(** * The interfaces between the components (agent/driver/contract.go,
    journal.go, reservation.go, receipt.go)

    Each Go interface is a class of operations over the state of an
    implementation. What an interface promises to its clients is a second
    class of laws, proved of the in-process implementations in JournalFacts.v,
    DriverStoreFacts.v and MemorySpec.v and of the durable journal in Runs.v,
    and assumed by the theorems about the lifecycle, which ask nothing of the
    receipt store. *)

From S2P Require Import Prelude Sha256 Digest Probe Contract Journal DriverStores.
From stdpp Require Import base gmap list strings.
From Stdlib Require Import ZArith Lia.

Open Scope Z_scope.

(** ** Recovery reports *)

Record RecoveredOperation : Type := mkRecovered {
  Recovered_PlanID : string;
  Recovered_PlanRevision : Z;
  Recovered_OperationID : string;
  Recovered_OwnershipToken : string;
  Recovered_Step : Step;
  Recovered_Reverted : bool;
  Recovered_Finished : bool;
}.

Record RecoveryReport : Type := mkRecoveryReport {
  Recovery_Operations : list RecoveredOperation;
  Recovery_ReasonCodes : list string;
  Recovery_At : time;
}.

Definition RecoveryReport_Validate (r : RecoveryReport) : result unit :=
  reject IsZero (Recovery_At r) with ErrInvalidRequest;
  ensure each (fun o =>
    reject negb (validIdentifier (Recovered_PlanID o)) || (Recovered_PlanRevision o =? 0) || negb (validIdentifier (Recovered_OperationID o)) || negb (validIdentifier (Recovered_OwnershipToken o)) with ErrInvalidRequest;
    reject negb (Step_Valid (Recovered_Step o)) with ErrInvalidRequest;
    Ok tt) (Recovery_Operations r);
  validateReasonCodes (Recovery_ReasonCodes r).

(** ** Operations *)

Class JournalOps (J : Type) : Type := {
  Journal_Begin : ctxT -> JournalRecord -> M J unit;
  Journal_Advance : ctxT -> JournalRecord -> M J unit;
  Journal_Finish : ctxT -> JournalRecord -> M J unit;
  Journal_InFlight : ctxT -> M J (list JournalRecord);
  Journal_Records : ctxT -> M J (list JournalRecord);
}.

Class ReservationOps (R : Type) : Type := {
  Store_Reserve : ctxT -> ReservationKey -> M R Reservation;
  Store_Release : ctxT -> ReservationToken -> Step -> list Z -> M R unit;
  Store_Floor : ctxT -> M R RevisionFloor;
}.

Class ReceiptOps (C : Type) : Type := {
  Receipts_Append : ctxT -> Receipt -> M C unit;
  Receipts_List : ctxT -> string -> M C (list Receipt);
}.

Class DriverOps (D : Type) : Type := {
  Driver_Name : D -> string;
  Driver_Version : D -> string;
  Driver_PrivilegeBoundary : D -> PrivilegeBoundary;
  Driver_Probe : ctxT -> M D (list ProbeResult);
  Driver_Capture : ctxT -> Scope -> M D Snapshot;
  Driver_Simulate : ctxT -> Snapshot -> option PlanOperation -> M D SimulationResult;
  Driver_Check : ctxT -> option PlanCheck -> M D CheckObservation;
  Driver_Apply : ctxT -> ApplyRequest -> M D ApplyReceipt;
  Driver_Verify : ctxT -> ApplyReceipt -> M D VerificationResult;
  Driver_Rollback : ctxT -> RollbackRequest -> M D RollbackReceipt;
  Driver_Recover : ctxT -> M D RecoveryReport;
  Driver_Health : ctxT -> M D HealthReport;
  Driver_RecoveryPaths : ctxT -> M D (list RecoveryPath);
  Driver_CommandPlan : ctxT -> option PlanOperation -> M D CommandPlan;
}.

(** ** Laws *)

(** A journal holds a record sequence of the discipline. A write that returns
    has appended its record; a write that fails has left the sequence alone
    or, when the failure came after the record was installed, appended it. *)
Definition journal_write_law {J : Type} (view : J -> list JournalRecord)
    (kind : JournalKind) (write : ctxT -> JournalRecord -> M J unit) : Prop :=
  forall ctx r j,
    wp (write ctx r) (fun res j' =>
      match res with
      | Ok _ => append (view j) (setKind kind r) = Ok (view j')
      | Err _ => view j' = view j \/ append (view j) (setKind kind r) = Ok (view j')
      end) j.

Class JournalLaws (J : Type) {O : JournalOps J} : Type := {
  journal_view : J -> list JournalRecord;
  journal_begin : journal_write_law journal_view JournalKindBegin Journal_Begin;
  journal_advance : journal_write_law journal_view JournalKindAdvance Journal_Advance;
  journal_finish : journal_write_law journal_view JournalKindFinish Journal_Finish;
  journal_inFlight : forall ctx j, wp (Journal_InFlight ctx) (fun res j' =>
    journal_view j' = journal_view j /\
    forall l, res = Ok l -> l = inFlight (journal_view j)) j;
  journal_records : forall ctx j, wp (Journal_Records ctx) (fun res j' =>
    journal_view j' = journal_view j /\
    forall l, res = Ok l -> l = journal_view j) j;
}.

(** A journal whose failed writes leave nothing behind. [MemoryJournal] is one
    (MemorySpec.v); [FileJournal] is not, since its directory [fsync] may fail
    after the rename. Not a law of the interface. *)
Definition journal_atomic (J : Type) {O : JournalOps J} {L : JournalLaws J} : Prop :=
  forall kind ctx r j,
    wp (match kind with
        | JournalKindBegin => Journal_Begin ctx r
        | JournalKindAdvance => Journal_Advance ctx r
        | _ => Journal_Finish ctx r end)
      (fun res j' => forall e, res = Err e -> journal_view j' = journal_view j) j.

(** A store answers a reservation with a token derived from the very key, and
    a fresh one only for a plan id it has never granted. *)
Class ReservationLaws (R : Type) {H : Hasher} {O : ReservationOps R} : Type := {
  store_granted : R -> string -> Prop;
  store_reserve : forall ctx key s, wp (Store_Reserve ctx key) (fun res s' =>
    (forall p, store_granted s p -> store_granted s' p) /\
    match res with
    | Ok reservation =>
        Token_Key (Reservation_Token reservation) = key /\
        ReservationKey_Validate key = Ok tt /\
        (Reservation_Replayed reservation = false ->
           ReservationToken_Validate (Reservation_Token reservation) = Ok tt /\
           ~ store_granted s (Key_PlanID key) /\ store_granted s' (Key_PlanID key))
    | Err _ => True
    end) s;
  store_release : forall ctx token terminal result s,
    wp (Store_Release ctx token terminal result) (fun _ s' =>
      forall p, store_granted s p <-> store_granted s' p) s;
}.

(** The host a driver guards, and the operations that may change it. *)
Class DriverLaws (D : Type) {H : Hasher} {O : DriverOps D} : Type := {
  host : Type;
  driver_host : D -> host;
  driver_capture_readonly : forall ctx scope d,
    wp (Driver_Capture ctx scope) (fun _ d' => driver_host d' = driver_host d) d;
  driver_simulate_readonly : forall ctx snapshot operation d,
    wp (Driver_Simulate ctx snapshot operation) (fun _ d' => driver_host d' = driver_host d) d;
  driver_verify_readonly : forall ctx receipt d,
    wp (Driver_Verify ctx receipt) (fun _ d' => driver_host d' = driver_host d) d;
  driver_health_readonly : forall ctx d,
    wp (Driver_Health ctx) (fun _ d' => driver_host d' = driver_host d) d;
  (** The request is validated before any boundary is crossed. *)
  driver_apply_validates : forall ctx request d,
    wp (Driver_Apply ctx request) (fun _ d' =>
      ApplyRequest_Validate request <> Ok tt -> driver_host d' = driver_host d) d;
}.

(** ** The in-process implementations *)

#[export] Instance MemoryJournal_ops : JournalOps MemoryJournal := {|
  Journal_Begin := MemoryJournal_Begin;
  Journal_Advance := MemoryJournal_Advance;
  Journal_Finish := MemoryJournal_Finish;
  Journal_InFlight := MemoryJournal_InFlight;
  Journal_Records := MemoryJournal_Records;
|}.

Definition MemoryReservation_ops {H : Hasher} (clock : clockT) : ReservationOps MemoryReservationStore := {|
  Store_Reserve := MemoryReservationStore_Reserve clock;
  Store_Release := MemoryReservationStore_Release;
  Store_Floor := MemoryReservationStore_Floor;
|}.

#[export] Instance MemoryReceipt_ops {H : Hasher} : ReceiptOps MemoryReceiptStore := {|
  Receipts_Append := MemoryReceiptStore_Append;
  Receipts_List := MemoryReceiptStore_List;
|}.
