(* ===== verification/Memory.v ===== *)
(** * The reference driver (agent/driver/memory/driver.go)

    A complete driver over a fake host: a map of rules keyed by operation type
    and target. The [Backing] is the durable state (host, ownership records,
    rolled-back tokens, the driver's own journal); the crash hook is process
    state and is lost on [Reopen]. *)

From S2P Require Import Prelude Sha256 Digest Probe Contract Journal DriverStores Interfaces.
From stdpp Require Import base gmap list strings sorting.
From Stdlib Require Import ZArith Lia.

Open Scope Z_scope.

Definition MemoryReasonRecoveryPending : string := "AF-DRIVER-MEMORY-RECOVERY-PENDING".
Definition ReasonTypeMismatch : string := "AF-DRIVER-MEMORY-TYPE-MISMATCH".

Definition DefaultName : string := "memory".
Definition DefaultVersion : string := "1.0.0".
Definition executableName : string := "antiflock-memory-driver".
Definition probeKey : string := "memory.reference.enforce".
Definition probeValidity : Z := 10 * Minute.
Definition maxHostRules : Z := MaxSnapshotEntries.
Definition maxSavedRecords : Z := MaxJournalRecords.

Record ruleKey : Type := mkRuleKey { Rule_Type : Z; Rule_Target : string }.

#[export] Instance ruleKey_eq_dec : EqDecision ruleKey.
Proof. solve_decision. Defined.

#[export] Instance ruleKey_countable : Countable ruleKey.
Proof.
  refine (inj_countable' (fun k => (Rule_Type k, Rule_Target k)) (fun p => mkRuleKey p.1 p.2) _).
  by intros [].
Defined.

Record savedState : Type := mkSaved {
  Saved_key : ruleKey;
  Saved_previous : string;
  Saved_existed : bool;
}.

Record Backing (J : Type) : Type := mkBacking {
  B_journal : J;
  B_rules : gmap ruleKey string;
  B_saved : gmap string savedState;
  B_rolled : gmap string ruleKey;
}.
Arguments mkBacking {J}.
Arguments B_journal {J}.
Arguments B_rules {J}.
Arguments B_saved {J}.
Arguments B_rolled {J}.

(** [NewBacking]; a nil journal is not a value of [J]. *)
Definition NewBacking {J : Type} (journal : J) : Backing J := mkBacking journal ∅ ∅ ∅.

(** [Rules]: the rules under the string form of their keys. *)
Definition Backing_Rules {J : Type} (backing : Backing J) : gmap string string :=
  list_to_map ((fun p => (PlanOperationType_name (Rule_Type p.1) +:+ "/" +:+ Rule_Target p.1, p.2))
                 <$> map_to_list (B_rules backing)).

Record MemoryDriver (J : Type) : Type := mkMemoryDriver {
  MD_backing : Backing J;
  MD_name : string;
  MD_version : string;
  MD_recoveryPaths : list RecoveryPath;
  MD_crash : bool;
}.
Arguments mkMemoryDriver {J}.
Arguments MD_backing {J}.
Arguments MD_name {J}.
Arguments MD_version {J}.
Arguments MD_recoveryPaths {J}.
Arguments MD_crash {J}.

(** ** Updates of the state *)

Definition setBacking {J : Type} (b : Backing J) (d : MemoryDriver J) : MemoryDriver J :=
  mkMemoryDriver b (MD_name d) (MD_version d) (MD_recoveryPaths d) (MD_crash d).
Definition setJournal {J : Type} (j : J) (d : MemoryDriver J) : MemoryDriver J :=
  let b := MD_backing d in setBacking (mkBacking j (B_rules b) (B_saved b) (B_rolled b)) d.
Definition setRules {J : Type} (rules : gmap ruleKey string) (d : MemoryDriver J) : MemoryDriver J :=
  let b := MD_backing d in setBacking (mkBacking (B_journal b) rules (B_saved b) (B_rolled b)) d.
Definition setSaved {J : Type} (saved : gmap string savedState) (d : MemoryDriver J) : MemoryDriver J :=
  let b := MD_backing d in setBacking (mkBacking (B_journal b) (B_rules b) saved (B_rolled b)) d.
Definition setCrash {J : Type} (crash : bool) (d : MemoryDriver J) : MemoryDriver J :=
  mkMemoryDriver (MD_backing d) (MD_name d) (MD_version d) (MD_recoveryPaths d) crash.
Definition getJournal {J : Type} (d : MemoryDriver J) : J := B_journal (MD_backing d).
Definition getRules {J : Type} (d : MemoryDriver J) : gmap ruleKey string := B_rules (MD_backing d).
Definition getSaved {J : Type} (d : MemoryDriver J) : gmap string savedState := B_saved (MD_backing d).
Definition getRolled {J : Type} (d : MemoryDriver J) : gmap string ruleKey := B_rolled (MD_backing d).

(** ** Construction *)

Definition Memory_PrivilegeBoundary {J : Type} (d : MemoryDriver J) : PrivilegeBoundary :=
  mkBoundary executableName ["apply"%string; "<operation-type>"%string; "<target>"%string] "none" true
    "in-process reference driver; no binary is executed and no host state is touched".

(** [New]: a nil list of recovery paths gets the default console path. *)
Definition Memory_New {J : Type} (backing : Backing J) (name version : string)
    (recoveryPaths : option (list RecoveryPath)) : result (MemoryDriver J) :=
  let name := if eqs name EmptyString then DefaultName else name in
  let version := if eqs version EmptyString then DefaultVersion else version in
  let paths := match recoveryPaths with
               | Some paths => paths
               | None => [mkRecoveryPath RecoveryPathLocalConsole "memory://console"
                            "in-process console; never affected by any plan"]
               end in
  reject MaxRecoveryPaths <? len paths with ErrInvalidRequest;
  ensure each RecoveryPath_Validate paths;
  let instance := mkMemoryDriver backing name version paths false in
  ensure PrivilegeBoundary_Validate (Memory_PrivilegeBoundary instance);
  Ok instance.

(** [Reopen]: a fresh instance over the same backing; the configuration it is
    built from is the one [New] completed. *)
Definition Memory_Reopen {J : Type} (d : MemoryDriver J) : result (MemoryDriver J) :=
  Memory_New (MD_backing d) (MD_name d) (MD_version d) (Some (MD_recoveryPaths d)).

Definition Memory_InjectCrash {J : Type} (d : MemoryDriver J) : MemoryDriver J := setCrash true d.

(** ** Reading the fake host *)

Definition entry_le (a b : SnapshotEntry) : Prop := String.le (Entry_Key a) (Entry_Key b).

#[export] Instance entry_le_dec a b : Decision (entry_le a b).
Proof. unfold entry_le. apply _. Defined.

(** [sort.Slice] by key. *)
Definition sort_entries (l : list SnapshotEntry) : list SnapshotEntry := merge_sort entry_le l.

(** The filter of the loop of [capture]. *)
Definition in_scope (scope : Scope) (p : ruleKey * string) : bool :=
  if negb (Rule_Type p.1 =? Scope_OperationType scope) then false
  else match Scope_Targets scope with
       | [] => true
       | wanted => bool_decide (Rule_Target p.1 ∈ wanted)
       end.

Definition capture (rules : gmap ruleKey string) (scope : Scope) : list SnapshotEntry :=
  sort_entries ((fun p => mkEntry (Rule_Target p.1) p.2)
                  <$> List.filter (in_scope scope) (map_to_list rules)).

(** ** Rendering an operation *)

Definition lower_char (c : Ascii.ascii) : Ascii.ascii :=
  let b := byte_of c in
  if (65 <=? b) && (b <=? 90) then Ascii.ascii_of_N (Z.to_N (b + 32)) else c.
Fixpoint toLower (s : string) : string :=
  match s with EmptyString => EmptyString | String c r => String (lower_char c) (toLower r) end.

Definition operationTypeName (t : Z) : string :=
  let name := PlanOperationType_name t in
  toLower (if hasPrefix name "PLAN_OPERATION_TYPE_" then trimPrefix name "PLAN_OPERATION_TYPE_" else name).

(** [strings.TrimSpace(s) == ""]: every rune is Unicode white space, written
    out on the UTF-8 bytes. *)
Fixpoint blank (bs : list Z) : bool :=
  match bs with
  | [] => true
  | a :: r =>
      if ((9 <=? a) && (a <=? 13)) || (a =? 32) then blank r
      else match r with
      | b :: r2 =>
          if (a =? 0xc2) && ((b =? 0x85) || (b =? 0xa0)) then blank r2
          else match r2 with
          | c :: r3 =>
              if ((a =? 0xe1) && (b =? 0x9a) && (c =? 0x80))
                 || ((a =? 0xe2) && (b =? 0x80) && (((0x80 <=? c) && (c <=? 0x8a)) || (c =? 0xa8) || (c =? 0xa9) || (c =? 0xaf)))
                 || ((a =? 0xe2) && (b =? 0x81) && (c =? 0x9f))
                 || ((a =? 0xe3) && (b =? 0x80) && (c =? 0x80))
              then blank r3 else false
          | [] => false
          end
      | [] => false
      end
  end.

Definition validOperation (operation : option PlanOperation) : result unit :=
  match operation with
  | None => Err ErrInvalidRequest
  | Some o =>
      reject badOperationType (Operation_Type o) with ErrInvalidRequest;
      reject blank (bytes_of (Operation_Id o)) || (MaxIdentifierLength <? slen (Operation_Id o)) with ErrInvalidRequest;
      ValidateTarget (Operation_Target o)
  end.

(** [slices.IndexFunc] over the keys, with the value found there. *)
Definition find_entry (target : string) (entries : list SnapshotEntry) : option SnapshotEntry :=
  List.find (fun entry => eqs (Entry_Key entry) target) entries.

(** [after.Entries[index].Value = value] at the first entry of that key. *)
Fixpoint set_entry (target value : string) (entries : list SnapshotEntry) : list SnapshotEntry :=
  match entries with
  | [] => []
  | entry :: rest =>
      if eqs (Entry_Key entry) target then mkEntry (Entry_Key entry) value :: rest
      else entry :: set_entry target value rest
  end.

Definition withEntries (entries : list SnapshotEntry) (s : Snapshot) : Snapshot :=
  mkSnapshot (Snapshot_SchemaVersion s) (Snapshot_DriverName s) (Snapshot_Scope s) entries
    (Snapshot_CapturedAt s).

Section Driver.
Context {H : Hasher}.
(** [proto.MarshalOptions{Deterministic: true}.Marshal] on a [Struct]. *)
Context (protoMarshal : option pbStruct -> option (list Z)).
(** The driver's clock and the machine's monotonic clock. *)
Context (clock wall : clockT).
Context {J : Type} {JO : JournalOps J}.

Abbreviation D := (MemoryDriver J).

Definition render (operation : option PlanOperation) : result string :=
  match protoMarshal (match operation with Some o => Operation_Parameters o | None => None end) with
  | None => Err ErrInvalidRequest
  | Some parameters =>
      Ok (operationTypeName (GetType operation) +:+ ":" +:+ hexEncode (take 8 (sum256 parameters)))
  end.

(** [inFlight]: every failure to read the journal is a corrupt journal. *)
Definition Memory_inFlight (ctx : ctxT) : M D (list JournalRecord) :=
  let! r := attempt (zoom getJournal setJournal (Journal_InFlight ctx)) in
  match r with
  | Ok records => retM records
  | Err _ => failM ErrJournalCorrupt
  end.

Definition Memory_Health (ctx : ctxT) : M D HealthReport :=
  run! ctxErr ctx in
  let! at_ := now clock in
  let! r := attempt (Memory_inFlight ctx) in
  match r with
  | Err _ => retM (mkHealthReport HealthUnavailable [ReasonProbeJournalCorrupt] at_)
  | Ok (_ :: _) => retM (mkHealthReport HealthDegraded [MemoryReasonRecoveryPending] at_)
  | Ok [] => retM (mkHealthReport HealthHealthy [ReasonProbeOK] at_)
  end.

Definition Memory_RecoveryPaths (ctx : ctxT) : M D (list RecoveryPath) :=
  run! ctxErr ctx in
  let! d := getS in
  retM (MD_recoveryPaths d).

Definition Memory_Probe (ctx : ctxT) : M D (list ProbeResult) :=
  let! health := Memory_Health ctx in
  let! paths := Memory_RecoveryPaths ctx in
  let! instant := now clock in
  let! d := getS in
  let result := mkProbeResult ProbeSchemaVersion probeKey 6 [1; 2; 3; 4] 4 (MD_name d) (MD_version d)
    (Health_Status health)
    (bool_decide (Health_Status health = HealthHealthy) && (0 <? len paths))
    (Health_ReasonCodes health) ["simulation-only"%string; "no-host-mutation"%string]
    instant (instant + probeValidity) in
  run! liftR (ProbeResult_Validate result) in
  retM [result].

Definition Memory_Capture (ctx : ctxT) (scope : Scope) : M D Snapshot :=
  run! ctxErr ctx in
  run! liftR (Scope_Validate scope) in
  let! d := getS in
  let! instant := now clock in
  let snapshot := mkSnapshot ContractVersion (MD_name d) scope (capture (getRules d) scope) instant in
  run! liftR (Snapshot_Validate snapshot) in
  retM snapshot.

(** The change [Simulate] predicts on the entries, with the diff lines. *)
Definition simulate_entries (target value : string) (entries : list SnapshotEntry)
    : list SnapshotEntry * list string :=
  match find_entry target entries with
  | None => (sort_entries (entries ++ [mkEntry target value]),
             ["+ " +:+ target +:+ " = " +:+ value])
  | Some entry =>
      if eqs (Entry_Value entry) value
      then (entries, ["= " +:+ target +:+ " unchanged"])
      else (set_entry target value entries,
            ["~ " +:+ target +:+ ": " +:+ Entry_Value entry +:+ " -> " +:+ value])
  end.

(** [Simulate] past [ctx.Err()]: a pure function of snapshot and operation. *)
Definition simulate (snapshot : Snapshot) (operation : option PlanOperation) : result SimulationResult :=
  ensure validOperation operation;
  do before <- Snapshot_Digest snapshot;
  if negb (GetType operation =? Scope_OperationType (Snapshot_Scope snapshot)) then
    Ok (mkSimulation (GetId operation) (GetTarget operation) before
          (mkDiff before before ["! operation type does not match the captured scope"%string])
          false [ReasonSimulationReject; ReasonTypeMismatch])
  else
    do value <- render operation;
    let predicted := simulate_entries (GetTarget operation) value (Snapshot_Entries snapshot) in
    do afterDigest <- Snapshot_Digest (withEntries (fst predicted) snapshot);
    let result := mkSimulation (GetId operation) (GetTarget operation) before
      (mkDiff before afterDigest (snd predicted)) true
      (if eqs afterDigest before then [ReasonSimulationNoop] else [ReasonSimulationOK]) in
    ensure SimulationResult_Validate result;
    Ok result.

Definition Memory_Simulate (ctx : ctxT) (snapshot : Snapshot) (operation : option PlanOperation) : M D SimulationResult :=
  run! ctxErr ctx in
  liftR (simulate snapshot operation).

Definition Memory_Check (ctx : ctxT) (planCheck : option PlanCheck) : M D CheckObservation :=
  run! ctxErr ctx in
  match planCheck with
  | None => failM ErrInvalidRequest
  | Some c =>
      if blank (bytes_of (Check_Id c)) then failM ErrInvalidRequest
      else if negb (eqs (Check_CheckType c) "state.capture") then
        retM (mkCheckObservation CheckOutcomeUnknown ReasonCheckUnsupported
                "The memory driver does not implement this check type.")
      else
        let! r := attempt (Memory_inFlight ctx) in
        match r with
        | Err _ => retM (mkCheckObservation CheckOutcomeFailed ReasonProbeJournalCorrupt
                           "The driver journal is unreadable; state capture is refused.")
        | Ok _ => retM (mkCheckObservation CheckOutcomePassed ReasonCheckPassed
                          "Host state capture is available.")
        end
  end.

Definition Memory_CommandPlan (ctx : ctxT) (operation : option PlanOperation) : M D CommandPlan :=
  run! ctxErr ctx in
  run! liftR (validOperation operation) in
  let plan := mkCommandPlan executableName
    ["apply"%string; operationTypeName (GetType operation); GetTarget operation] EmptyString in
  run! liftR (CommandPlan_Validate plan) in
  retM plan.

(** ** Apply *)

(** A snapshot of one target taken under the lock. *)
Definition targetSnapshot (d : D) (key : ruleKey) (instant : time) : Snapshot :=
  let scope := mkScope (Rule_Type key) [Rule_Target key] in
  mkSnapshot ContractVersion (MD_name d) scope (capture (getRules d) scope) instant.

Definition applyRecord (request : ApplyRequest) (step : Step) (token digest : string) (instant : time) : JournalRecord :=
  mkRecord ContractVersion JournalKindUnknown (Apply_PlanID request) (Apply_PlanRevision request)
    (Apply_OperationID request) step token digest EmptyString zeroKey instant.

(** After the mutation: read the host back, close the journal entry, answer. *)
Definition Memory_finishApply (ctx : ctxT) (request : ApplyRequest) (key : ruleKey)
    (token before : string) (startedAt : time) : M D ApplyReceipt :=
  let! d := getS in
  let! instant := now clock in
  let! appliedDigest := liftR (Snapshot_Digest (targetSnapshot d key instant)) in
  let! completedAt := now clock in
  run! zoom getJournal setJournal
         (Journal_Finish ctx (applyRecord request StepCommit token appliedDigest completedAt)) in
  let receipt := mkApplyReceipt (Apply_PlanID request) (Apply_PlanRevision request)
    (Apply_OperationID request) (Apply_Target request) token before appliedDigest ReasonApplied
    startedAt completedAt in
  run! liftR (ApplyReceipt_Validate receipt) in
  retM receipt.

(** The mutation itself, once the journal holds the open entry. *)
Definition Memory_mutate (ctx : ctxT) (request : ApplyRequest) (key : ruleKey)
    (token before : string) (startedAt : time) : M D ApplyReceipt :=
  let! alive := attempt (ctxErr ctx) in
  match alive with
  | Err e =>
      run! modS (fun d => setSaved (delete token (getSaved d)) d) in
      run! attempt (zoom getJournal setJournal
             (Journal_Finish Background (applyRecord request StepRollback token before startedAt))) in
      failM e
  | Ok _ =>
      let value := match render (Apply_Operation request) with Ok v => v | Err _ => EmptyString end in
      run! modS (fun d => setRules (<[ key := value ]> (getRules d)) d) in
      let! d := getS in
      if MD_crash d then
        run! modS (setCrash false) in failM ErrCrashInjected
      else Memory_finishApply ctx request key token before startedAt
  end.

Definition Memory_Apply (ctx : ctxT) (request : ApplyRequest) : M D ApplyReceipt :=
  run! liftR (ApplyRequest_Validate request) in
  run! ctxErr ctx in
  let! ctx := withTimeout wall ctx (Apply_Timeout request) in
  run! Memory_inFlight ctx in
  let key := mkRuleKey (GetType (Apply_Operation request)) (Apply_Target request) in
  let! startedAt := now clock in
  let! d := getS in
  let! simulation := Memory_Simulate ctx (targetSnapshot d key startedAt) (Apply_Operation request) in
  if negb (Simulation_WouldSucceed simulation) then failM ErrInvalidRequest
  else if (maxHostRules <=? Z.of_nat (size (getRules d)))
          || (maxSavedRecords <=? Z.of_nat (size (getSaved d))) then failM ErrInvalidRequest
  else
    let token := OwnershipTokenFor (Apply_PlanID request) (Apply_PlanRevision request)
      (Apply_OperationID request) (Apply_Target request) (Token_Token (Apply_Reservation request)) in
    let saved := match getRules d !! key with
                 | Some previous => mkSaved key previous true
                 | None => mkSaved key EmptyString false
                 end in
    run! modS (fun d => setSaved (<[ token := saved ]> (getSaved d)) d) in
    let before := Simulation_SnapshotDigest simulation in
    run! onErr (fun d => setSaved (delete token (getSaved d)) d)
           (zoom getJournal setJournal
              (Journal_Begin ctx (applyRecord request StepApply token before startedAt))) in
    Memory_mutate ctx request key token before startedAt.

(** ** Verify *)

Definition ownedKey (d : D) (token : string) : option ruleKey :=
  match getSaved d !! token with
  | Some saved => Some (Saved_key saved)
  | None => getRolled d !! token
  end.

Definition Memory_Verify (ctx : ctxT) (receipt : ApplyReceipt) : M D VerificationResult :=
  run! liftR (ApplyReceipt_Validate receipt) in
  run! ctxErr ctx in
  let! d := getS in
  match ownedKey d (AReceipt_OwnershipToken receipt) with
  | None => failM ErrUnknownOwnership
  | Some key =>
      let! instant := now clock in
      let! digest := liftR (Snapshot_Digest (targetSnapshot d key instant)) in
      let verified := eqs digest (AReceipt_AppliedDigest receipt) in
      retM (mkVerification (AReceipt_OwnershipToken receipt) (AReceipt_AppliedDigest receipt) digest
              verified (if verified then [ReasonVerified] else [ReasonVerifyMismatch]) instant)
  end.

(** ** Rollback and recovery *)

(** [restore]: revert the rule of the ownership record, if there is one. *)
Definition restore (token : string) (d : D) : option (ruleKey * D) :=
  match getSaved d !! token with
  | None => None
  | Some saved =>
      let rules := if Saved_existed saved
                   then <[ Saved_key saved := Saved_previous saved ]> (getRules d)
                   else delete (Saved_key saved) (getRules d) in
      Some (Saved_key saved,
            setBacking (mkBacking (getJournal d) rules (delete token (getSaved d))
                          (<[ token := Saved_key saved ]> (getRolled d))) d)
  end.

Definition rollbackRecord (planID : string) (revision : Z) (operationID token : string) (instant : time) : JournalRecord :=
  mkRecord ContractVersion JournalKindUnknown planID revision operationID StepRollback token
    EmptyString EmptyString zeroKey instant.

Definition closeOpenEntry (ctx : ctxT) (planID : string) (revision : Z) (operationID token : string) (instant : time) : M D unit :=
  let! records := Memory_inFlight ctx in
  match List.find (fun r => bool_decide (Identity r = mkIdentity planID revision operationID)) records with
  | Some _ => zoom getJournal setJournal
                (Journal_Finish ctx (rollbackRecord planID revision operationID token instant))
  | None => retM tt
  end.

(** The tail of [Rollback]: digest the restored target and answer. *)
Definition Memory_rollbackReceipt (request : RollbackRequest) (key : ruleKey) (already : bool)
    (reason : string) (instant : time) : M D RollbackReceipt :=
  let! d := getS in
  let! digest := liftR (Snapshot_Digest (targetSnapshot d key instant)) in
  let receipt := mkRollbackReceipt (Rollback_PlanID request) (Rollback_PlanRevision request)
    (Rollback_OperationID request) (Rollback_OwnershipToken request) digest already reason instant in
  run! liftR (RollbackReceipt_Validate receipt) in
  retM receipt.

Definition Memory_Rollback (ctx : ctxT) (request : RollbackRequest) : M D RollbackReceipt :=
  run! liftR (RollbackRequest_Validate request) in
  run! ctxErr ctx in
  run! Memory_inFlight ctx in
  let! instant := now clock in
  let! d := getS in
  match getRolled d !! Rollback_OwnershipToken request with
  | Some key => Memory_rollbackReceipt request key true ReasonAlreadyRolled instant
  | None =>
      match restore (Rollback_OwnershipToken request) d with
      | None => failM ErrUnknownOwnership
      | Some (key, d') =>
          run! modS (fun _ => d') in
          run! closeOpenEntry ctx (Rollback_PlanID request) (Rollback_PlanRevision request)
                 (Rollback_OperationID request) (Rollback_OwnershipToken request) instant in
          Memory_rollbackReceipt request key false ReasonRolledBack instant
      end
  end.

(** One turn of the loop of [Recover]. *)
Definition Memory_recoverRecord (ctx : ctxT) (instant : time) (record : JournalRecord) : M D RecoveredOperation :=
  let! d := getS in
  let restored := if eqs (Record_OwnershipToken record) EmptyString then None
                  else restore (Record_OwnershipToken record) d in
  run! modS (fun d => match restored with Some (_, d') => d' | None => d end) in
  run! zoom getJournal setJournal (Journal_Finish ctx
         (rollbackRecord (Record_PlanID record) (Record_PlanRevision record)
            (Record_OperationID record) (Record_OwnershipToken record) instant)) in
  retM (mkRecovered (Record_PlanID record) (Record_PlanRevision record) (Record_OperationID record)
          (if eqs (Record_OwnershipToken record) EmptyString then "none"%string else Record_OwnershipToken record)
          (Record_Step record) (match restored with Some _ => true | None => false end) true).

Definition Memory_Recover (ctx : ctxT) : M D RecoveryReport :=
  run! ctxErr ctx in
  let! records := Memory_inFlight ctx in
  let! instant := now clock in
  let! operations := eachM (Memory_recoverRecord ctx instant) records in
  let report := mkRecoveryReport operations
    (if len operations =? 0 then [ReasonRecoveryClean] else [ReasonRecovered]) instant in
  run! liftR (RecoveryReport_Validate report) in
  retM report.
End Driver.

(** The reference driver implements the interface. *)
Definition Memory_ops {H : Hasher} (protoMarshal : option pbStruct -> option (list Z))
    (clock wall : clockT) {J : Type} {JO : JournalOps J} : DriverOps (MemoryDriver J) := {|
  Driver_Name := MD_name;
  Driver_Version := MD_version;
  Driver_PrivilegeBoundary := Memory_PrivilegeBoundary;
  Driver_Probe := Memory_Probe clock;
  Driver_Capture := Memory_Capture clock;
  Driver_Simulate := Memory_Simulate protoMarshal;
  Driver_Check := Memory_Check;
  Driver_Apply := Memory_Apply protoMarshal clock wall;
  Driver_Verify := Memory_Verify clock;
  Driver_Rollback := Memory_Rollback clock;
  Driver_Recover := Memory_Recover clock;
  Driver_Health := Memory_Health clock;
  Driver_RecoveryPaths := Memory_RecoveryPaths;
  Driver_CommandPlan := Memory_CommandPlan;
|}.
