(* ===== verification/Lifecycle.v ===== *)
(** * The lifecycle (agent/driver/lifecycle.go)

    The state machine capture -> simulate -> approve -> reserve -> apply ->
    verify -> record -> commit | rollback for one plan operation at a time,
    over any driver, journal, reservation store and receipt store; and the
    recovery that finishes or reverts what a crashed process left open. *)

From S2P Require Import Prelude Sha256 Digest Probe Contract Journal DriverStores Interfaces.
From stdpp Require Import base gmap list strings sorting.
From Stdlib Require Import ZArith Lia.

Open Scope Z_scope.

(** ** Sentinels, timeouts, approvals *)

Definition ErrLifecycleOrder : error := errorsNew "driver lifecycle step is out of order".
Definition ErrPlanActive : error := errorsNew "another plan is active in this lifecycle".
Definition ErrNoActivePlan : error := errorsNew "no plan is active in this lifecycle".
Definition ErrApprovalMismatch : error := errorsNew "approval does not bind to the active plan".
Definition ErrSimulationRejected : error :=
  errorsNew "simulation predicted the operation would fail".
Definition ErrVerificationFailed : error := errorsNew "post-apply verification failed".
Definition ErrDriverIdentity : error :=
  errorsNew "lifecycle driver name and version must be bounded identifiers".

Definition MaxStepTimeout : Z := 2 * Minute.

Record StepTimeouts : Type := mkTimeouts {
  Timeout_Capture : Z;
  Timeout_Simulate : Z;
  Timeout_Reserve : Z;
  Timeout_Apply : Z;
  Timeout_Verify : Z;
  Timeout_Record : Z;
  Timeout_Rollback : Z;
}.

#[export] Instance StepTimeouts_eq_dec : EqDecision StepTimeouts.
Proof. solve_decision. Defined.

Definition DefaultStepTimeouts : StepTimeouts :=
  mkTimeouts (10 * Second) (5 * Second) (5 * Second) (30 * Second) (10 * Second) (5 * Second)
    (30 * Second).

(** The range over a map visits the seven values in some order; every failure
    is the same sentinel. *)
Definition StepTimeouts_Validate (t : StepTimeouts) : result unit :=
  each (fun value => reject (value <=? 0) || (MaxStepTimeout <? value) with ErrInvalidRequest; Ok tt)
    [Timeout_Capture t; Timeout_Simulate t; Timeout_Reserve t; Timeout_Apply t; Timeout_Verify t;
     Timeout_Record t; Timeout_Rollback t].

Record Approval : Type := mkApproval {
  Approval_PlanID : string;
  Approval_PlanRevision : Z;
  Approval_OperationID : string;
  Approval_Target : string;
  Approval_ApproverKind : string;
  Approval_Digest : string;
}.

(** [Approval{}]. *)
Definition zeroApproval : Approval :=
  mkApproval EmptyString 0 EmptyString EmptyString EmptyString EmptyString.

Section Approvals.
Context {H : Hasher}.

Definition Approval_writer (planID : string) (planRevision : Z)
    (operationID target approverKind : string) : digestWriter :=
  let w := newDigest "AntiFlock-DriverApproval-v1" in
  let w := dw_str planID w in
  let w := dw_uint planRevision w in
  let w := dw_str operationID w in
  let w := dw_str target w in
  dw_str approverKind w.

Definition ApprovalDigest (planID : string) (planRevision : Z)
    (operationID target approverKind : string) : result string :=
  reject negb (validIdentifier planID) || (planRevision =? 0) || negb (validIdentifier operationID) || negb (validIdentifier approverKind) with ErrInvalidRequest;
  ensure ValidateTarget target;
  Ok (dw_hex (Approval_writer planID planRevision operationID target approverKind)).

Definition Approval_Validate (a : Approval) : result unit :=
  do digest <- ApprovalDigest (Approval_PlanID a) (Approval_PlanRevision a) (Approval_OperationID a)
                 (Approval_Target a) (Approval_ApproverKind a);
  reject negb (eqs (Approval_Digest a) digest) with ErrApprovalMismatch;
  Ok tt.
End Approvals.

(** ** States *)

Inductive LifecycleState : Type :=
| StateIdle | StateBegun | StateCaptured | StateSimulated | StateApproved | StateReserved
| StateApplied | StateVerified | StateRecorded | StateCommitted | StateRolledBack | StateFailed.

#[export] Instance LifecycleState_eq_dec : EqDecision LifecycleState.
Proof. solve_decision. Defined.

Definition LifecycleState_String (state : LifecycleState) : string :=
  match state with
  | StateIdle => "IDLE" | StateBegun => "BEGUN" | StateCaptured => "CAPTURED" | StateSimulated => "SIMULATED"
  | StateApproved => "APPROVED" | StateReserved => "RESERVED" | StateApplied => "APPLIED"
  | StateVerified => "VERIFIED" | StateRecorded => "RECORDED" | StateCommitted => "COMMITTED"
  | StateRolledBack => "ROLLED_BACK" | StateFailed => "FAILED"
  end.

Definition LifecycleState_Terminal (state : LifecycleState) : bool :=
  bool_decide (state = StateIdle) || bool_decide (state = StateCommitted)
  || bool_decide (state = StateRolledBack).

Record PlanRef : Type := mkRef {
  Ref_PlanID : string;
  Ref_PlanRevision : Z;
  Ref_OperationID : string;
}.

Definition PlanRef_Validate (ref : PlanRef) : result unit :=
  reject negb (validIdentifier (Ref_PlanID ref)) || (Ref_PlanRevision ref =? 0) || negb (validIdentifier (Ref_OperationID ref)) with ErrInvalidRequest;
  Ok tt.

Record lifecycleRun : Type := mkRun {
  run_ref : PlanRef;
  run_scope : Scope;
  run_snapshot : Snapshot;
  run_digest : string;
  run_simulation : SimulationResult;
  run_operation : option PlanOperation;
  run_approval : Approval;
  run_reservation : ReservationToken;
  run_reserved : bool;
  run_receipt : ApplyReceipt;
  run_applied : bool;
  run_verification : VerificationResult;
}.

(** [&lifecycleRun{ref: ref}]. *)
Definition newRun (ref : PlanRef) : lifecycleRun :=
  mkRun ref (mkScope 0 []) (mkSnapshot 0 EmptyString (mkScope 0 []) [] zeroTime) EmptyString
    (mkSimulation EmptyString EmptyString EmptyString (mkDiff EmptyString EmptyString []) false [])
    None zeroApproval zeroToken false zeroApplyReceipt false zeroVerification.

Definition run_with_capture (scope : Scope) (snapshot : Snapshot) (digest : string) (r : lifecycleRun) : lifecycleRun :=
  mkRun (run_ref r) scope snapshot digest (run_simulation r) (run_operation r) (run_approval r)
    (run_reservation r) (run_reserved r) (run_receipt r) (run_applied r) (run_verification r).
Definition run_with_simulation (simulation : SimulationResult) (operation : option PlanOperation) (r : lifecycleRun) : lifecycleRun :=
  mkRun (run_ref r) (run_scope r) (run_snapshot r) (run_digest r) simulation operation (run_approval r)
    (run_reservation r) (run_reserved r) (run_receipt r) (run_applied r) (run_verification r).
Definition run_with_approval (approval : Approval) (r : lifecycleRun) : lifecycleRun :=
  mkRun (run_ref r) (run_scope r) (run_snapshot r) (run_digest r) (run_simulation r) (run_operation r)
    approval (run_reservation r) (run_reserved r) (run_receipt r) (run_applied r) (run_verification r).
Definition run_with_reservation (token : ReservationToken) (r : lifecycleRun) : lifecycleRun :=
  mkRun (run_ref r) (run_scope r) (run_snapshot r) (run_digest r) (run_simulation r) (run_operation r)
    (run_approval r) token true (run_receipt r) (run_applied r) (run_verification r).
Definition run_with_receipt (receipt : ApplyReceipt) (r : lifecycleRun) : lifecycleRun :=
  mkRun (run_ref r) (run_scope r) (run_snapshot r) (run_digest r) (run_simulation r) (run_operation r)
    (run_approval r) (run_reservation r) (run_reserved r) receipt true (run_verification r).
Definition run_with_verification (verification : VerificationResult) (r : lifecycleRun) : lifecycleRun :=
  mkRun (run_ref r) (run_scope r) (run_snapshot r) (run_digest r) (run_simulation r) (run_operation r)
    (run_approval r) (run_reservation r) (run_reserved r) (run_receipt r) (run_applied r) verification.

(** The receipts of a run. *)
Definition verifyReceipt (run : lifecycleRun) (v : VerificationResult) : Receipt :=
  mkReceipt ContractVersion ReceiptKindVerify (Ref_PlanID (run_ref run)) (Ref_PlanRevision (run_ref run))
    (Ref_OperationID (run_ref run)) (AReceipt_Target (run_receipt run))
    (AReceipt_OwnershipToken (run_receipt run)) (Verification_ObservedDigest v) ReasonVerified
    (Verification_At v).

Definition commitReceipt (run : lifecycleRun) (reason : string) (instant : time) : Receipt :=
  mkReceipt ContractVersion ReceiptKindCommit (Ref_PlanID (run_ref run)) (Ref_PlanRevision (run_ref run))
    (Ref_OperationID (run_ref run)) (AReceipt_Target (run_receipt run))
    (AReceipt_OwnershipToken (run_receipt run)) (AReceipt_AppliedDigest (run_receipt run)) reason instant.

Definition withReason (reason : string) (r : Receipt) : Receipt :=
  mkReceipt (Receipt_SchemaVersion r) (Receipt_Kind r) (Receipt_PlanID r) (Receipt_PlanRevision r)
    (Receipt_OperationID r) (Receipt_Target r) (Receipt_OwnershipToken r) (Receipt_Digest r) reason
    (Receipt_At r).

(** [lifecycle.record], given the instant the clock shows. *)
Definition record (run : lifecycleRun) (kind : JournalKind) (step : Step) (ownership digest : string) (instant : time) : JournalRecord :=
  mkRecord ContractVersion kind (Ref_PlanID (run_ref run)) (Ref_PlanRevision (run_ref run))
    (Ref_OperationID (run_ref run)) step ownership digest
    (match run_operation run with Some o => Operation_Target o | None => EmptyString end)
    (if run_reserved run then Token_Key (run_reservation run) else zeroKey) instant.

(** ** The machine *)

Record Lifecycle (D J R C : Type) : Type := mkLifecycle {
  L_driver : D;
  L_journal : J;
  L_reservations : R;
  L_receipts : C;
  L_state : LifecycleState;
  L_run : option lifecycleRun;
}.
Arguments mkLifecycle {D J R C}.
Arguments L_driver {D J R C}.
Arguments L_journal {D J R C}.
Arguments L_reservations {D J R C}.
Arguments L_receipts {D J R C}.
Arguments L_state {D J R C}.
Arguments L_run {D J R C}.

Section Machine.
Context {H : Hasher}.
Context {D J R C : Type}.
Context {DO : DriverOps D} {JO : JournalOps J} {RO : ReservationOps R} {CO : ReceiptOps C}.
(** The lifecycle's clock, the machine's monotonic clock, the timeouts. *)
Context (clock wall : clockT) (timeouts : StepTimeouts).

Abbreviation L := (Lifecycle D J R C).

Definition set_driver (d : D) (l : L) : L :=
  mkLifecycle d (L_journal l) (L_reservations l) (L_receipts l) (L_state l) (L_run l).
Definition set_journal (j : J) (l : L) : L :=
  mkLifecycle (L_driver l) j (L_reservations l) (L_receipts l) (L_state l) (L_run l).
Definition set_reservations (r : R) (l : L) : L :=
  mkLifecycle (L_driver l) (L_journal l) r (L_receipts l) (L_state l) (L_run l).
Definition set_receipts (c : C) (l : L) : L :=
  mkLifecycle (L_driver l) (L_journal l) (L_reservations l) c (L_state l) (L_run l).
Definition set_state (s : LifecycleState) (l : L) : L :=
  mkLifecycle (L_driver l) (L_journal l) (L_reservations l) (L_receipts l) s (L_run l).
Definition set_run (r : lifecycleRun) (l : L) : L :=
  mkLifecycle (L_driver l) (L_journal l) (L_reservations l) (L_receipts l) (L_state l) (Some r).

(** Calls across the interfaces. *)
Definition onDriver {A : Type} (m : M D A) : M L A := zoom L_driver set_driver m.
Definition onJournal {A : Type} (m : M J A) : M L A := zoom L_journal set_journal m.
Definition onReservations {A : Type} (m : M R A) : M L A := zoom L_reservations set_reservations m.
Definition onReceipts {A : Type} (m : M C A) : M L A := zoom L_receipts set_receipts m.

(** [lifecycle.state = StateFailed; return err]. *)
Definition orFail {A : Type} (m : M L A) : M L A := onErr (set_state StateFailed) m.
Definition failed {A : Type} (e : error) : M L A := orFail (failM e).

Definition bounded (ctx : ctxT) (timeout : Z) : M L ctxT := withTimeout wall ctx timeout.

(** [NewLifecycle]. *)
Definition NewLifecycle (d : D) (j : J) (r : R) (c : C) : result (StepTimeouts * L) :=
  let timeouts := if bool_decide (timeouts = mkTimeouts 0 0 0 0 0 0 0) then DefaultStepTimeouts else timeouts in
  ensure StepTimeouts_Validate timeouts;
  reject negb (validIdentifier (Driver_Name d)) || negb (validIdentifier (Driver_Version d)) with ErrDriverIdentity;
  ensure PrivilegeBoundary_Validate (Driver_PrivilegeBoundary d);
  Ok (timeouts, mkLifecycle d j r c StateIdle None).

(** [require]: the active run, when the state is the expected one. *)
Definition require (expected : LifecycleState) : M L lifecycleRun :=
  let! l := getS in
  match L_run l with
  | None => failM ErrNoActivePlan
  | Some run => if bool_decide (L_state l = expected) then retM run else failM ErrLifecycleOrder
  end.

Definition advance (ctx : ctxT) (run : lifecycleRun) (step : Step) (ownership digest : string) : M L unit :=
  let! instant := now clock in
  onJournal (Journal_Advance ctx (record run JournalKindAdvance step ownership digest instant)).

(** A run is active from [Begin] to a terminal state. *)
Definition active (l : L) : bool :=
  match L_run l with None => false | Some _ => negb (LifecycleState_Terminal (L_state l)) end.

Definition Begin (ctx : ctxT) (ref : PlanRef) : M L unit :=
  run! liftR (PlanRef_Validate ref) in
  let! l := getS in
  if active l then failM ErrPlanActive else
  let! ctx := bounded ctx (Timeout_Record timeouts) in
  let! pending := onJournal (Journal_InFlight ctx) in
  if 0 <? len pending then failM ErrRecoveryPending else
  let run := newRun ref in
  let! instant := now clock in
  run! onJournal (Journal_Begin ctx (record run JournalKindBegin StepCapture EmptyString EmptyString instant)) in
  run! modS (set_run run) in
  modS (set_state StateBegun).

Definition Capture (ctx : ctxT) (scope : Scope) : M L Snapshot :=
  let! run := require StateBegun in
  run! liftR (Scope_Validate scope) in
  let! ctx := bounded ctx (Timeout_Capture timeouts) in
  let! snapshot := orFail (onDriver (Driver_Capture ctx scope)) in
  let! digest := orFail (liftR (Snapshot_Digest snapshot)) in
  run! modS (set_run (run_with_capture scope snapshot digest run)) in
  run! modS (set_state StateCaptured) in
  retM snapshot.

(** The result of [Simulate] may come back beside an error; it carries no
    state, so the error alone is returned. *)
Definition Simulate (ctx : ctxT) (operation : option PlanOperation) : M L SimulationResult :=
  let! run := require StateCaptured in
  match operation with
  | None => failM ErrInvalidRequest
  | Some o =>
      if negb (eqs (Operation_Id o) (Ref_OperationID (run_ref run))) then failM ErrInvalidRequest
      else
        run! liftR (ValidateTarget (Operation_Target o)) in
        let! ctx := bounded ctx (Timeout_Simulate timeouts) in
        let! result := orFail (onDriver (Driver_Simulate ctx (run_snapshot run) operation)) in
        run! orFail (liftR (SimulationResult_Validate result)) in
        if negb (eqs (Simulation_SnapshotDigest result) (run_digest run))
           || negb (eqs (Simulation_Target result) (Operation_Target o))
           || negb (eqs (Simulation_OperationID result) (Operation_Id o))
        then failed ErrInvalidRequest
        else
          let run := run_with_simulation result operation run in
          run! modS (set_run run) in
          if negb (Simulation_WouldSucceed result) then failed ErrSimulationRejected
          else
            run! orFail (advance ctx run StepSimulate EmptyString (Diff_AfterDigest (Simulation_Diff result))) in
            run! modS (set_state StateSimulated) in
            retM result
  end.

Definition Approve (ctx : ctxT) (approval : Approval) : M L unit :=
  let! run := require StateSimulated in
  run! liftR (Approval_Validate approval) in
  if negb (eqs (Approval_PlanID approval) (Ref_PlanID (run_ref run)))
     || negb (Approval_PlanRevision approval =? Ref_PlanRevision (run_ref run))
     || negb (eqs (Approval_OperationID approval) (Ref_OperationID (run_ref run)))
     || negb (eqs (Approval_Target approval) (GetTarget (run_operation run)))
  then failM ErrApprovalMismatch
  else
    let! ctx := bounded ctx (Timeout_Record timeouts) in
    run! advance ctx run StepApprove EmptyString (Approval_Digest approval) in
    run! modS (set_run (run_with_approval approval run)) in
    modS (set_state StateApproved).

Definition Reserve (ctx : ctxT) (key : ReservationKey) : M L ReservationToken :=
  let! run := require StateApproved in
  run! liftR (ReservationKey_Validate key) in
  if negb (eqs (Key_PlanID key) (Ref_PlanID (run_ref run)))
     || negb (Key_PlanRevision key =? Ref_PlanRevision (run_ref run))
  then failM ErrReservationInvalid
  else
    let! ctx := bounded ctx (Timeout_Reserve timeouts) in
    let! reservation := orFail (onReservations (Store_Reserve ctx key)) in
    if Reservation_Replayed reservation then failed ErrAlreadyReserved
    else
      let run := run_with_reservation (Reservation_Token reservation) run in
      run! modS (set_run run) in
      run! orFail (advance ctx run StepReserve EmptyString (Token_Token (Reservation_Token reservation))) in
      run! modS (set_state StateReserved) in
      retM (Reservation_Token reservation).

(** The request [Apply] crosses the driver boundary with. *)
Definition applyRequest (run : lifecycleRun) : ApplyRequest :=
  mkApplyRequest (Ref_PlanID (run_ref run)) (Ref_PlanRevision (run_ref run))
    (Ref_OperationID (run_ref run)) (Approval_Target (run_approval run)) (run_operation run)
    (run_reservation run) (Timeout_Apply timeouts).

(** The ownership token the receipt must carry. *)
Definition expectedToken (run : lifecycleRun) : string :=
  OwnershipTokenFor (Ref_PlanID (run_ref run)) (Ref_PlanRevision (run_ref run))
    (Ref_OperationID (run_ref run)) (Approval_Target (run_approval run))
    (Token_Token (run_reservation run)).

Definition receiptBound (run : lifecycleRun) (receipt : ApplyReceipt) : bool :=
  eqs (AReceipt_PlanID receipt) (Ref_PlanID (run_ref run))
  && (AReceipt_PlanRevision receipt =? Ref_PlanRevision (run_ref run))
  && eqs (AReceipt_OperationID receipt) (Ref_OperationID (run_ref run))
  && eqs (AReceipt_Target receipt) (Approval_Target (run_approval run))
  && eqs (AReceipt_OwnershipToken receipt) (expectedToken run).

Definition Apply (ctx : ctxT) : M L ApplyReceipt :=
  let! run := require StateReserved in
  let! ctx := bounded ctx (Timeout_Apply timeouts) in
  let! current := orFail (onDriver (Driver_Capture ctx (run_scope run))) in
  let! currentDigest := orFail (liftR (Snapshot_Digest current)) in
  if negb (eqs currentDigest (run_digest run)) then failed ErrHostDrift
  else
    run! orFail (advance ctx run StepApply EmptyString (run_digest run)) in
    let! receipt := orFail (onDriver (Driver_Apply ctx (applyRequest run))) in
    run! orFail (liftR (ApplyReceipt_Validate receipt)) in
    if negb (receiptBound run receipt) then failed ErrInvalidRequest
    else
      let run := run_with_receipt receipt run in
      run! modS (set_run run) in
      run! orFail (advance ctx run StepVerify (AReceipt_OwnershipToken receipt) (AReceipt_AppliedDigest receipt)) in
      run! modS (set_state StateApplied) in
      retM receipt.

Definition Verify (ctx : ctxT) : M L VerificationResult :=
  let! run := require StateApplied in
  let! ctx := bounded ctx (Timeout_Verify timeouts) in
  let! result := orFail (onDriver (Driver_Verify ctx (run_receipt run))) in
  run! orFail (liftR (VerificationResult_Validate result)) in
  run! modS (set_run (run_with_verification result run)) in
  if negb (Verification_Verified result)
     || negb (eqs (Verification_ExpectedDigest result) (AReceipt_AppliedDigest (run_receipt run)))
  then failed ErrVerificationFailed
  else
    run! modS (set_state StateVerified) in
    retM result.

Definition appendReceipt (ctx : ctxT) (receipt : Receipt) : M L unit :=
  let! r := attempt (onReceipts (Receipts_Append ctx receipt)) in
  match r with
  | Ok _ => retM tt
  | Err e => if bool_decide (e = ErrReceiptDuplicate) then retM tt else failM e
  end.

Definition LRecord (ctx : ctxT) : M L unit :=
  let! run := require StateVerified in
  let! ctx := bounded ctx (Timeout_Record timeouts) in
  run! orFail (advance ctx run StepRecord (AReceipt_OwnershipToken (run_receipt run)) (AReceipt_AppliedDigest (run_receipt run))) in
  run! orFail (eachM (appendReceipt ctx)
         [ApplyReceipt_Receipt (run_receipt run); verifyReceipt run (run_verification run)]) in
  modS (set_state StateRecorded).

Definition finish (ctx : ctxT) (run : lifecycleRun) (step : Step) (ownership digest : string) : M L unit :=
  let! instant := now clock in
  onJournal (Journal_Finish ctx (record run JournalKindFinish step ownership digest instant)).

Definition commit (ctx : ctxT) (run : lifecycleRun) (reason : string) : M L unit :=
  let! instant := now clock in
  let receipt := commitReceipt run reason instant in
  let! digest := liftR (ContentDigest receipt) in
  run! appendReceipt ctx receipt in
  run! onReservations (Store_Release ctx (run_reservation run) StepCommit (bytes_of digest)) in
  finish ctx run StepCommit (AReceipt_OwnershipToken (run_receipt run)) (AReceipt_AppliedDigest (run_receipt run)).

Definition Commit (ctx : ctxT) : M L unit :=
  let! run := require StateRecorded in
  let! ctx := bounded ctx (Timeout_Record timeouts) in
  run! orFail (commit ctx run ReasonApplied) in
  modS (set_state StateCommitted).

(** The driver part of [rollback]: the receipt and the result to release the
    reservation with. An ownership token the driver does not know leaves the
    zero receipt and no result. *)
Definition revert (ctx : ctxT) (run : lifecycleRun) (reason : string) : M L (RollbackReceipt * list Z) :=
  if negb (run_applied run) then retM (zeroRollbackReceipt, []) else
  let! r := attempt (onDriver (Driver_Rollback ctx
    (mkRollbackRequest (Ref_PlanID (run_ref run)) (Ref_PlanRevision (run_ref run))
       (Ref_OperationID (run_ref run)) (AReceipt_OwnershipToken (run_receipt run)) (Timeout_Rollback timeouts)))) in
  match r with
  | Err e => if bool_decide (e = ErrUnknownOwnership) then retM (zeroRollbackReceipt, []) else failM e
  | Ok receipt =>
      run! liftR (RollbackReceipt_Validate receipt) in
      let rec := withReason reason (RollbackReceipt_Receipt receipt) in
      let! digest := liftR (ContentDigest rec) in
      run! appendReceipt ctx rec in
      retM (receipt, bytes_of digest)
  end.

Definition rollback (ctx : ctxT) (run : lifecycleRun) (reason : string) : M L RollbackReceipt :=
  let! reverted := revert ctx run reason in
  run! (if run_reserved run
        then onReservations (Store_Release ctx (run_reservation run) StepRollback (snd reverted))
        else retM tt) in
  run! finish ctx run StepRollback (AReceipt_OwnershipToken (run_receipt run)) (RReceipt_RestoredDigest (fst reverted)) in
  retM (fst reverted).

Definition Rollback (ctx : ctxT) : M L RollbackReceipt :=
  let! l := getS in
  match L_run l with
  | None => failM ErrNoActivePlan
  | Some run =>
      if LifecycleState_Terminal (L_state l) then failM ErrLifecycleOrder
      else
        let! ctx := bounded ctx (Timeout_Rollback timeouts) in
        let! receipt := orFail (rollback ctx run ReasonRolledBack) in
        run! modS (set_state StateRolledBack) in
        retM receipt
  end.

Definition Health (ctx : ctxT) : M L HealthReport :=
  run! ctxErr ctx in
  let! r := attempt (onJournal (Journal_InFlight ctx)) in
  let! instant := now clock in
  match r with
  | Err _ => retM (mkHealthReport HealthUnavailable [ReasonProbeJournalCorrupt] instant)
  | Ok (_ :: _) => retM (mkHealthReport HealthDegraded [ReasonRecoveryPending] instant)
  | Ok [] => onDriver (Driver_Health ctx)
  end.

(** ** Recovery *)

(** The digests the journal holds for an apply that may have happened: what
    the host must show, and what it showed before. *)
Definition recoveredDigests (entry : JournalRecord) (records : list JournalRecord) : string * string :=
  fold_left (fun acc r =>
    if negb (bool_decide (Identity r = Identity entry)) then acc
    else
      let expected := if bool_decide (Record_Step entry = StepApply) && bool_decide (Record_Step r = StepSimulate)
                      then Record_Digest r else fst acc in
      let before := if negb (bool_decide (Record_Step entry = StepApply)) && bool_decide (Record_Step r = StepApply)
                    then Record_Digest r else snd acc in
      (expected, before)) records (Record_Digest entry, Record_Digest entry).

(** The run [recoverEntry] rebuilds from the entry alone. *)
Definition recoveredRun (entry : JournalRecord) : result lifecycleRun :=
  let run := newRun (mkRef (Record_PlanID entry) (Record_PlanRevision entry) (Record_OperationID entry)) in
  do run <- (if bool_decide (Record_Reservation entry <> zeroKey)
             then do digest <- ReservationKey_Digest (Record_Reservation entry);
                  Ok (run_with_reservation (mkToken (Record_Reservation entry) digest (Record_At entry)) run)
             else Ok run);
  Ok (if eqs (Record_Target entry) EmptyString then run
      else run_with_simulation (run_simulation run)
             (Some (mkPlanOperation (Record_OperationID entry) 0 (Record_Target entry) None)) run).

Definition recoveredReceipt (entry : JournalRecord) (records : list JournalRecord) (token : string) : ApplyReceipt :=
  let digests := recoveredDigests entry records in
  mkApplyReceipt (Record_PlanID entry) (Record_PlanRevision entry) (Record_OperationID entry)
    (Record_Target entry) token (snd digests) (fst digests) ReasonApplied (Record_At entry) (Record_At entry).

(** Does the host show the digest the journal expects? An ownership token the
    driver does not know counts as no. *)
Definition recoverVerify (ctx : ctxT) (receipt : ApplyReceipt) : M L (option VerificationResult) :=
  if negb (is_ok (ApplyReceipt_Validate receipt)) then retM None else
  let! r := attempt (onDriver (Driver_Verify ctx receipt)) in
  match r with
  | Ok v =>
      if is_ok (VerificationResult_Validate v) && Verification_Verified v
         && eqs (Verification_ExpectedDigest v) (AReceipt_AppliedDigest receipt)
      then retM (Some v) else retM None
  | Err e => if bool_decide (e = ErrUnknownOwnership) then retM None else failM e
  end.

Definition recoverApplied (ctx : ctxT) (entry : JournalRecord) (records : list JournalRecord) (run : lifecycleRun) : M L (RecoveredOperation * string) :=
  let token := OwnershipTokenFor (Record_PlanID entry) (Record_PlanRevision entry)
    (Record_OperationID entry) (Record_Target entry) (Token_Token (run_reservation run)) in
  let receipt := recoveredReceipt entry records token in
  let run := run_with_receipt receipt run in
  let operation reverted := mkRecovered (Record_PlanID entry) (Record_PlanRevision entry)
    (Record_OperationID entry) token (Record_Step entry) reverted true in
  let! verified := recoverVerify ctx receipt in
  match verified with
  | Some v =>
      let run := run_with_verification v run in
      run! eachM (appendReceipt ctx) [ApplyReceipt_Receipt (run_receipt run); verifyReceipt run v] in
      run! commit ctx run ReasonRecoveryCommit in
      retM (operation false, ReasonRecoveryCommit)
  | None =>
      let! receipt := rollback ctx run ReasonRecoveryRollback in
      retM (operation (eqs (RReceipt_ReasonCode receipt) ReasonRolledBack || RReceipt_AlreadyRolledBack receipt),
            ReasonRecoveryRollback)
  end.

Definition recoverEntry (ctx : ctxT) (records : list JournalRecord) (entry : JournalRecord) : M L (RecoveredOperation * string) :=
  let! run := liftR (recoveredRun entry) in
  match Record_Step entry with
  | StepCapture | StepSimulate | StepApprove | StepReserve =>
      run! rollback ctx run ReasonRecoveryRollback in
      retM (mkRecovered (Record_PlanID entry) (Record_PlanRevision entry) (Record_OperationID entry)
              "none" (Record_Step entry) false true, ReasonRecoveryAborted)
  | _ =>
      if negb (run_reserved run) || eqs (Record_Target entry) EmptyString then failM ErrJournalCorrupt
      else recoverApplied ctx entry records run
  end.

Definition Recover (ctx : ctxT) : M L RecoveryReport :=
  let! l := getS in
  if active l then failM ErrPlanActive else
  let! ctx := bounded ctx (Timeout_Rollback timeouts) in
  let! instant := now clock in
  let! pending := onJournal (Journal_InFlight ctx) in
  if len pending =? 0 then retM (mkRecoveryReport [] [ReasonRecoveryClean] instant)
  else
    let! records := onJournal (Journal_Records ctx) in
    run! onDriver (Driver_Recover ctx) in
    let! outcomes := eachM (recoverEntry ctx records) pending in
    let report := mkRecoveryReport (fst <$> outcomes)
      (sort_strings (elements (list_to_set (snd <$> outcomes) : gset string))) instant in
    run! liftR (RecoveryReport_Validate report) in
    retM report.
End Machine.
