(* ===== verification/Plan.v ===== *)
(** * Plans (the messages of api/proto/antiflock/v1/plan.proto and what the
    policy compiler and the enforcer share)

    The generated messages are records with the fields the code reads;
    repeated messages are lists of possibly nil pointers; enumerations are
    integers, because an unknown value can arrive in a message. Wire fields
    the schema does not know, at any depth, are one flag of the message.
    [crypto/ed25519] is the class [Ed25519], the deterministic protobuf
    encoding a parameter of the code that signs. *)

From S2P Require Import Prelude Sha256 Digest Contract.
From stdpp Require Import base gmap list strings.
From Stdlib Require Import ZArith Lia.

Open Scope Z_scope.

(** ** Well-known types *)

Record Timestamp : Type := mkTimestamp { Timestamp_Seconds : Z; Timestamp_Nanos : Z }.

(** [timestamppb.New], [CheckValid] and [AsTime]. *)
Definition Timestamp_New (t : time) : Timestamp := mkTimestamp (Unix t) (Nanosecond t).
Definition Timestamp_CheckValid (t : Timestamp) : bool :=
  (-62135596800 <=? Timestamp_Seconds t) && (Timestamp_Seconds t <=? 253402300799)
  && (0 <=? Timestamp_Nanos t) && (Timestamp_Nanos t <? Second).
Definition AsTime (t : Timestamp) : time := Timestamp_Seconds t * Second + Timestamp_Nanos t.

(** A timestamp that is present and valid. *)
Definition goodTimestamp (t : option Timestamp) : bool :=
  match t with Some t => Timestamp_CheckValid t | None => false end.

Record Duration : Type := mkDuration { Duration_Seconds : Z; Duration_Nanos : Z }.

Definition Duration_New (d : Z) : Duration := mkDuration (Z.quot d Second) (Z.rem d Second).
Definition Duration_CheckValid (d : Duration) : bool :=
  (-315576000000 <=? Duration_Seconds d) && (Duration_Seconds d <=? 315576000000)
  && (- Second <? Duration_Nanos d) && (Duration_Nanos d <? Second)
  && negb ((0 <? Duration_Seconds d) && (Duration_Nanos d <? 0))
  && negb ((Duration_Seconds d <? 0) && (0 <? Duration_Nanos d)).
(** [AsDuration] saturates at the ends of [time.Duration]. *)
Definition AsDuration (d : Duration) : Z :=
  Z.max (- 2 ^ 63) (Z.min (2 ^ 63 - 1) (Duration_Seconds d * Second + Duration_Nanos d)).

(** ** Strings *)

(** [utf8.ValidString]. *)
Definition cont (b : Z) : bool := (0x80 <=? b) && (b <=? 0xbf).
Fixpoint validUTF8 (bs : list Z) : bool :=
  match bs with
  | [] => true
  | a :: r =>
      if a <? 0x80 then validUTF8 r
      else match r with
      | b :: r2 =>
          if (0xc2 <=? a) && (a <=? 0xdf) then cont b && validUTF8 r2
          else match r2 with
          | c :: r3 =>
              if (0xe0 <=? a) && (a <=? 0xef)
              then (if a =? 0xe0 then (0xa0 <=? b) && (b <=? 0xbf)
                    else if a =? 0xed then (0x80 <=? b) && (b <=? 0x9f) else cont b)
                   && cont c && validUTF8 r3
              else match r3 with
              | d :: r4 =>
                  (0xf0 <=? a) && (a <=? 0xf4)
                  && (if a =? 0xf0 then (0x90 <=? b) && (b <=? 0xbf)
                      else if a =? 0xf4 then (0x80 <=? b) && (b <=? 0x8f) else cont b)
                  && cont c && cont d && validUTF8 r4
              | [] => false
              end
          | [] => false
          end
      | [] => false
      end
  end.

(** The UTF-8 bytes of the runes [unicode.IsSpace] holds of. *)
Definition spaces : list (list Z) :=
  [[0x09]; [0x0a]; [0x0b]; [0x0c]; [0x0d]; [0x20]; [0xc2; 0x85]; [0xc2; 0xa0]; [0xe1; 0x9a; 0x80];
   [0xe2; 0x80; 0x80]; [0xe2; 0x80; 0x81]; [0xe2; 0x80; 0x82]; [0xe2; 0x80; 0x83]; [0xe2; 0x80; 0x84];
   [0xe2; 0x80; 0x85]; [0xe2; 0x80; 0x86]; [0xe2; 0x80; 0x87]; [0xe2; 0x80; 0x88]; [0xe2; 0x80; 0x89];
   [0xe2; 0x80; 0x8a]; [0xe2; 0x80; 0xa8]; [0xe2; 0x80; 0xa9]; [0xe2; 0x80; 0xaf]; [0xe2; 0x81; 0x9f];
   [0xe3; 0x80; 0x80]].

Fixpoint trimLeft (fuel : nat) (bs : list Z) : list Z :=
  match fuel with
  | O => bs
  | S k =>
      match List.find (fun w => bool_decide (take (length w) bs = w)) spaces with
      | Some w => trimLeft k (drop (length w) bs)
      | None => bs
      end
  end.

(** A rune never starts with a continuation byte, so a suffix that is the
    text of a rune is the last rune. *)
Fixpoint trimRight (fuel : nat) (bs : list Z) : list Z :=
  match fuel with
  | O => bs
  | S k =>
      match List.find (fun w => bool_decide (length w <= length bs)%nat
                                && bool_decide (drop (length bs - length w) bs = w)) spaces with
      | Some w => trimRight k (take (length bs - length w) bs)
      | None => bs
      end
  end.

Definition string_of_bytes (bs : list Z) : string :=
  foldr (fun b s => String (Ascii.ascii_of_N (Z.to_N b)) s) EmptyString bs.

(** [strings.TrimSpace]; every turn removes a byte, so the length is fuel
    enough. *)
Definition TrimSpace (s : string) : string :=
  let n := String.length s in string_of_bytes (trimRight n (trimLeft n (bytes_of s))).

(** [strings.TrimSpace(s) == s]. *)
Definition trimmed (s : string) : bool := eqs (TrimSpace s) s.

(** [strings.ContainsAny(s, "\r\n\x00")]. *)
Definition hasControl (s : string) : bool := containsAny s [0x0d; 0x0a; 0x00].

(** ** Numbers *)

(** [float32] by its bits: sign, eight bits of exponent, 23 of fraction. The
    finite numbers between zero and one are the bits up to those of 1.0, and
    minus zero. *)
Definition float32_nan (bits : Z) : bool :=
  (Z.land (Z.shiftr bits 23) 0xff =? 0xff) && negb (Z.land bits 0x7fffff =? 0).
Definition float32_inf (bits : Z) : bool :=
  (Z.land (Z.shiftr bits 23) 0xff =? 0xff) && (Z.land bits 0x7fffff =? 0).
Definition float32_negative (bits : Z) : bool := Z.testbit bits 31 && negb (Z.land bits 0x7fffffff =? 0).
Definition float32_above_one (bits : Z) : bool := negb (Z.testbit bits 31) && (0x3f800000 <? bits).
(** [a < b] on [float32]: the magnitudes in order, the sign first. *)
Definition float32_key (bits : Z) : Z :=
  let magnitude := Z.land bits 0x7fffffff in if Z.testbit bits 31 then - magnitude else magnitude.
Definition float32_lt (a b : Z) : bool :=
  negb (float32_nan a) && negb (float32_nan b) && (float32_key a <? float32_key b).
Definition float32_one : Z := 0x3f800000.
Definition float32_zero : Z := 0.

(** ** Messages *)

Record IntegrityDigest : Type := mkIntegrity { Integrity_Algorithm : string; Integrity_Digest : list Z }.

Record Signature : Type := mkSignature {
  Signature_KeyId : string;
  Signature_Algorithm : Z;
  Signature_Value : list Z;
  Signature_SignedAt : option Timestamp;
  Signature_Encoding : Z;
  Signature_SignedContentDigest : option IntegrityDigest;
  Signature_Domain : string;
}.

Record CapabilityRequirement : Type := mkRequirement {
  Requirement_Key : string;
  Requirement_RequiredOperations : list Z;
  Requirement_MinimumSupportLevel : Z;
}.

Record Capability : Type := mkCapability {
  Capability_Key : string;
  Capability_Operations : list Z;
  Capability_SupportLevel : Z;
}.

Record CapabilityManifest : Type := mkManifest {
  Manifest_NodeId : string;
  Manifest_Capabilities : list (option Capability);
  Manifest_Unknown : bool;      (** unknown wire fields, at any depth *)
}.

Abbreviation paramMap := (gmap string pbValue) (only parsing).

Record PCheck : Type := mkPCheck {
  PCheck_Id : string;
  PCheck_Phase : Z;
  PCheck_CheckType : string;
  PCheck_Description : string;
  PCheck_Parameters : option paramMap;
  PCheck_Required : bool;
  PCheck_Timeout : option Duration;
  PCheck_RequiredCapabilities : list (option CapabilityRequirement);
}.

Record POperation : Type := mkPOperation {
  POperation_Id : string;
  POperation_Type : Z;
  POperation_Target : string;
  POperation_Description : string;
  POperation_Parameters : option paramMap;
  POperation_Timeout : option Duration;
  POperation_RequiredCapabilities : list (option CapabilityRequirement);
}.

Record Plan : Type := mkPlan {
  Plan_Id : string;
  Plan_DeploymentId : string;
  Plan_NodeId : string;
  Plan_PolicyId : string;
  Plan_PolicyRevision : Z;
  Plan_Revision : Z;
  Plan_Nonce : list Z;
  Plan_CreatedAt : option Timestamp;
  Plan_ExpiresAt : option Timestamp;
  Plan_Status : Z;
  Plan_Preconditions : list (option PCheck);
  Plan_Actions : list (option POperation);
  Plan_Verifications : list (option PCheck);
  Plan_Rollback : list (option POperation);
  Plan_RecoveryAllowlist : list string;
  Plan_Signature : option Signature;
  Plan_HumanReadableDryRun : string;
  Plan_Sensitivity : Z;
  Plan_Unknown : bool;          (** unknown wire fields, at any depth *)
}.

(** Enumeration constants. *)
Definition PlanStatusSigned : Z := 2.
Definition PlanStatusDelivered : Z := 3.
Definition PlanStatusCommitted : Z := 7.
Definition PlanStatusFailed : Z := 8.
Definition PlanStatusRolledBack : Z := 10.
Definition PlanStatusRejected : Z := 12.
Definition OperationFirewall : Z := 1.
Definition OperationRoute : Z := 2.
Definition OperationDns : Z := 3.
Definition OperationMesh : Z := 4.
Definition PhasePrecondition : Z := 1.
Definition PhaseVerification : Z := 2.
Definition CheckOutcomeUnspecified : Z := 0.
Definition CheckOutcomeSkipped : Z := 5.
Definition CapabilityEnforce : Z := 2.
Definition CapabilityVerify : Z := 3.
Definition CapabilityRollback : Z := 4.
Definition SupportUnsupported : Z := 1.
Definition SupportPartial : Z := 2.
Definition SupportFull : Z := 3.
Definition SupportExperimental : Z := 4.
Definition SensitivityOperatorPrivate : Z := 3.
Definition ClassDetected : Z := 1.
Definition ClassVerified : Z := 2.
Definition ClassUnknown : Z := 6.
Definition AlgorithmEd25519 : Z := 1.
Definition EncodingProtobufDeterministic : Z := 1.

(** ** [RejectUnknownFields] (internal/model/event_validation.go)

    Refuses unknown wire fields and, in every field of an enumeration type,
    numbers the schema does not define. *)

Definition enumKnown (last v : Z) : bool := (0 <=? v) && (v <=? last).

Definition requirementKnown (r : option CapabilityRequirement) : bool :=
  match r with
  | None => true
  | Some r => forallb (enumKnown 4) (Requirement_RequiredOperations r) && enumKnown 4 (Requirement_MinimumSupportLevel r)
  end.

Definition checkKnown (c : option PCheck) : bool :=
  match c with
  | None => true
  | Some c => enumKnown 3 (PCheck_Phase c) && forallb requirementKnown (PCheck_RequiredCapabilities c)
  end.

Definition operationKnown (o : option POperation) : bool :=
  match o with
  | None => true
  | Some o => enumKnown 8 (POperation_Type o) && forallb requirementKnown (POperation_RequiredCapabilities o)
  end.

Definition signatureKnown (s : option Signature) : bool :=
  match s with
  | None => true
  | Some s => enumKnown 2 (Signature_Algorithm s) && enumKnown 1 (Signature_Encoding s)
  end.

Definition planKnown (p : Plan) : bool :=
  negb (Plan_Unknown p) && enumKnown 12 (Plan_Status p) && enumKnown 5 (Plan_Sensitivity p)
  && forallb checkKnown (Plan_Preconditions p) && forallb operationKnown (Plan_Actions p)
  && forallb checkKnown (Plan_Verifications p) && forallb operationKnown (Plan_Rollback p)
  && signatureKnown (Plan_Signature p).

Definition manifestKnown (m : CapabilityManifest) : bool :=
  negb (Manifest_Unknown m)
  && forallb (fun c => match c with
       | None => true
       | Some c => forallb (enumKnown 4) (Capability_Operations c) && enumKnown 4 (Capability_SupportLevel c)
       end) (Manifest_Capabilities m).

(** ** Signatures *)

(** [crypto/ed25519]: a private key is 64 bytes, its seed and its public key. *)
Class Ed25519 : Type := {
  ed_sign : list Z -> list Z -> list Z;
  ed_verify : list Z -> list Z -> list Z -> bool;
  ed_key : list Z -> Prop;      (** a key made by [GenerateKey] or [NewKeyFromSeed] *)
  ed_key_length : forall key, ed_key key -> length key = 64%nat;
  ed_verify_sign : forall key message, ed_key key ->
    ed_verify (drop 32 key) message (ed_sign key message) = true;
}.

Definition PublicKeySize : Z := 32.
Definition PrivateKeySize : Z := 64.
(** [key.Seed()] and [key.Public()]. *)
Definition Seed (key : list Z) : list Z := take 32 key.
Definition Public (key : list Z) : list Z := drop 32 key.

Definition signaturePrefix : string := "AntiFlock-Signature-v1".
Definition ErrSignatureProfile : error := errorsNew "unsupported plan signature profile".

(** The bytes a signature is over, for the signatures of one domain. *)
Definition signatureInput (domain : string) (s : Signature) : result (list Z) :=
  match Signature_SignedAt s, Signature_SignedContentDigest s with
  | Some signedAt, Some digest =>
      reject negb (Signature_Algorithm s =? AlgorithmEd25519)
             || negb (Signature_Encoding s =? EncodingProtobufDeterministic)
             || negb (eqs (Signature_Domain s) domain) || negb (Timestamp_CheckValid signedAt)
             || negb (eqs (Integrity_Algorithm digest) "sha256") || negb (len (Integrity_Digest digest) =? sha256_Size)
        with ErrSignatureProfile;
      Ok (dw_preimage [bytes_of signaturePrefix; bytes_of (Signature_Domain s); be_bytes 4 (Signature_Algorithm s);
            bytes_of "sha256"; Integrity_Digest digest; be_bytes 8 (Unix (AsTime signedAt)); be_bytes 4 (Nanosecond (AsTime signedAt))])
  | _, _ => Err ErrSignatureProfile
  end.

(** A signature of this development's keys over a content digest. *)
Definition newSignature {E : Ed25519} (domain keyID : string) (key digest : list Z) (signedAt : time) : result Signature :=
  let unsigned := mkSignature keyID AlgorithmEd25519 [] (Some (Timestamp_New signedAt))
    EncodingProtobufDeterministic (Some (mkIntegrity "sha256" digest)) domain in
  do input <- signatureInput domain unsigned;
  Ok (mkSignature keyID AlgorithmEd25519 (ed_sign key input) (Some (Timestamp_New signedAt))
        EncodingProtobufDeterministic (Some (mkIntegrity "sha256" digest)) domain).
