(* ===== verification/Policy.v ===== *)
(** * The policy compiler (core/policy/compiler.go)

    [Validate] lists what is wrong with a protection profile; [Compile] turns
    a profile without violations into a signed plan for one node. [proto.Size]
    and the deterministic [proto.Marshal] of a message, and [strings.ToLower]
    on text that is not ASCII, are parameters. *)

From S2P Require Import Prelude Sha256 Digest Probe Contract Plan.
From stdpp Require Import base gmap list strings sorting pretty.
From Stdlib Require Import ZArith Lia.

Open Scope Z_scope.

(** ** The profile *)

Record ResourceMetadata : Type := mkMetadata { Metadata_Id : string; Metadata_Revision : Z }.
Record MeshPolicy : Type := mkMesh { Mesh_Required : bool; Mesh_Provider : string }.
Record EgressPolicy : Type := mkEgress {
  Egress_Mode : Z;
  Egress_FailMode : Z;
  Egress_AllowedExitNodeIds : list string;
  Egress_AllowedDestinations : list string;
  Egress_RecoveryDestinations : list string;
}.
Record DnsPolicy : Type := mkDns {
  Dns_Mode : Z;
  Dns_AllowedResolvers : list string;
  Dns_RequirePathVerification : bool;
}.
Record NetworkPolicy : Type := mkNetwork {
  Network_RequireMeshOnUntrusted : bool;
  Network_UntrustedNetworkBypass : Z;
  Network_BlockOpenWifiWithoutMesh : bool;
}.
Record TelemetryPolicy : Type := mkTelemetry {
  Telemetry_PayloadCapture : bool;
  Telemetry_RetentionDays : Z;
}.
Record ActionPolicy : Type := mkAction {
  Action_DataClasses : list string;
  Action_ApplicationIds : list string;
  Action_RequireProtectedState : bool;
  Action_BypassMode : Z;
}.

Record ProtectionProfile : Type := mkProfile {
  Profile_Metadata : option ResourceMetadata;
  Profile_ApiVersion : string;
  Profile_Mode : Z;
  Profile_Mesh : option MeshPolicy;
  Profile_Egress : option EgressPolicy;
  Profile_Dns : option DnsPolicy;
  Profile_Networks : option NetworkPolicy;
  Profile_Actions : list (option ActionPolicy);
  Profile_Telemetry : option TelemetryPolicy;
  Profile_ScramblerEnabled : bool;   (** [Scrambler != nil && Scrambler.Enabled] *)
  Profile_Unknown : bool;            (** unknown wire fields, at any depth *)
}.

Definition ModeGuard : Z := 3.
Definition FailModeClosed : Z := 1.
Definition EgressModeMesh : Z := 2.
Definition EgressModeTrustedExit : Z := 3.
Definition DnsModeProtected : Z := 2.

(** [RejectUnknownFields] of a profile. *)
Definition profileKnown (p : ProtectionProfile) : bool :=
  negb (Profile_Unknown p) && enumKnown 4 (Profile_Mode p)
  && match Profile_Egress p with Some e => enumKnown 4 (Egress_Mode e) && enumKnown 3 (Egress_FailMode e) | None => true end
  && match Profile_Dns p with Some d => enumKnown 3 (Dns_Mode d) | None => true end
  && match Profile_Networks p with Some n => enumKnown 3 (Network_UntrustedNetworkBypass n) | None => true end
  && forallb (fun a => match a with Some a => enumKnown 3 (Action_BypassMode a) | None => true end) (Profile_Actions p).

(** ** Violations *)

Record PolicyViolation : Type := mkViolation {
  Violation_ReasonCode : string;
  Violation_Field : string;
  Violation_SafeMessage : string;
}.

(** The order [Validate] sorts by. *)
Definition violation_leb (a b : PolicyViolation) : bool :=
  if eqs (Violation_Field a) (Violation_Field b)
  then String.leb (Violation_ReasonCode a) (Violation_ReasonCode b)
  else String.ltb (Violation_Field a) (Violation_Field b).

Definition violation_le (a b : PolicyViolation) : Prop := violation_leb a b = true.
#[export] Instance violation_le_dec a b : Decision (violation_le a b).
Proof. unfold violation_le. apply _. Defined.

Definition violate (b : bool) (code field message : string) : list PolicyViolation :=
  if b then [mkViolation code field message] else [].

(** The loop of [validUniqueValues] over the values not yet seen. *)
Fixpoint uniqueValues (maximumLength : Z) (seen : gset string) (values : list string) : bool :=
  match values with
  | [] => true
  | v :: rest =>
      if eqs v EmptyString || (maximumLength <? slen v) || negb (trimmed v) then false
      else if bool_decide (v ∈ seen) then false
      else uniqueValues maximumLength ({[ v ]} ∪ seen) rest
  end.

Definition validUniqueValues (values : list string) (minimum maximum maximumLength : Z) : bool :=
  if (len values <? minimum) || (maximum <? len values) then false
  else uniqueValues maximumLength ∅ values.

Definition policyAPIVersion : string := "antiflock.policy/v1".
Definition planDomain : string := "antiflock.plan.v1".
Definition meshProviders : list string := ["auto"; "tailscale"; "headscale"; "wireguard"].

Section Compiler.
Context {H : Hasher} {E : Ed25519}.
Context (ToLower : string -> string).
Context (sizeProfile : ProtectionProfile -> Z) (marshalPlan : Plan -> option (list Z)).

Definition NormalizeDestination (value : string) : string := ToLower (TrimSpace value).

(** ** Validation *)

Definition meshViolations (p : ProtectionProfile) : list PolicyViolation :=
  match Profile_Mesh p with
  | Some m =>
      if negb (Mesh_Required m)
      then violate true "AF-POLICY-MESH" "mesh.required" "The private mesh must be required."
      else violate (negb (bool_decide (NormalizeDestination (Mesh_Provider m) ∈ meshProviders)))
             "AF-POLICY-MESH-PROVIDER" "mesh.provider" "A supported private-mesh provider is required."
  | None => violate true "AF-POLICY-MESH" "mesh.required" "The private mesh must be required."
  end.

Definition egressViolations (p : ProtectionProfile) : list PolicyViolation :=
  match Profile_Egress p with
  | Some e =>
      if negb (Egress_FailMode e =? FailModeClosed)
      then violate true "AF-POLICY-FAIL-CLOSED" "egress.failMode" "Protected egress must fail closed."
      else
        violate (negb (Egress_Mode e =? EgressModeMesh) && negb (Egress_Mode e =? EgressModeTrustedExit))
          "AF-POLICY-EGRESS" "egress.mode" "Protected egress must use the mesh or an approved exit."
        ++ violate ((Egress_Mode e =? EgressModeTrustedExit) && negb (validUniqueValues (Egress_AllowedExitNodeIds e) 1 32 128))
          "AF-POLICY-EXITS" "egress.allowedExitNodeIds" "Trusted-exit mode requires a bounded, unique approved-exit list."
        ++ (if (len (Egress_RecoveryDestinations e) =? 0) || (32 <? len (Egress_RecoveryDestinations e))
            then violate true "AF-POLICY-RECOVERY" "egress.recoveryDestinations" "A bounded recovery allowlist is required."
            else violate (negb (validUniqueValues (Egress_RecoveryDestinations e) 1 32 512))
              "AF-POLICY-RECOVERY-VALUES" "egress.recoveryDestinations" "Recovery destinations must be non-empty, unique, and bounded.")
  | None => violate true "AF-POLICY-FAIL-CLOSED" "egress.failMode" "Protected egress must fail closed."
  end.

Definition dnsViolations (p : ProtectionProfile) : list PolicyViolation :=
  match Profile_Dns p with
  | Some d =>
      if negb (Dns_Mode d =? DnsModeProtected) || negb (Dns_RequirePathVerification d)
      then violate true "AF-POLICY-DNS" "dns" "DNS must use and verify the protected path."
      else violate (negb (validUniqueValues (Dns_AllowedResolvers d) 1 16 512))
             "AF-POLICY-DNS-RESOLVERS" "dns.allowedResolvers" "Protected DNS requires a bounded, unique approved-resolver list."
  | None => violate true "AF-POLICY-DNS" "dns" "DNS must use and verify the protected path."
  end.

Definition badAction (a : option ActionPolicy) : bool :=
  match a with
  | None => true
  | Some a => negb (Action_RequireProtectedState a) || negb (validUniqueValues (Action_ApplicationIds a) 1 32 128)
              || negb (validUniqueValues (Action_DataClasses a) 1 32 128)
  end.

Fixpoint actionViolations (index : N) (actions : list (option ActionPolicy)) : list PolicyViolation :=
  match actions with
  | [] => []
  | a :: rest =>
      violate (badAction a) "AF-POLICY-ACTION-SCOPE" ("actions[" +:+ pretty index +:+ "]")
        "Each action policy needs applications, data classes, and protected-state enforcement."
      ++ actionViolations (index + 1) rest
  end.

Definition Policy_Validate (profile : option ProtectionProfile) : list PolicyViolation :=
  match profile with
  | None => violate true "AF-POLICY-REQUIRED" "profile" "A protection profile is required."
  | Some p =>
      if (256 * 1024 <? sizeProfile p) || negb (profileKnown p)
      then violate true "AF-POLICY-WIRE-INVALID" "profile" "The profile contains unsupported or oversized wire data."
      else merge_sort violation_le (
        violate match Profile_Metadata p with Some m => eqs (Metadata_Id m) EmptyString || (Metadata_Revision m =? 0) | None => true end
          "AF-POLICY-METADATA" "metadata" "Policy id and positive revision are required."
        ++ violate (negb (eqs (Profile_ApiVersion p) policyAPIVersion)) "AF-POLICY-VERSION" "apiVersion" "The policy API version is unsupported."
        ++ violate (negb (Profile_Mode p =? ModeGuard)) "AF-POLICY-MODE" "mode" "The first release requires Guard mode."
        ++ meshViolations p ++ egressViolations p ++ dnsViolations p
        ++ violate match Profile_Networks p with
               | Some n => negb (Network_RequireMeshOnUntrusted n) || negb (Network_BlockOpenWifiWithoutMesh n)
               | None => true end
          "AF-POLICY-UNTRUSTED" "networks" "Untrusted networks must require the mesh and block open Wi-Fi without it."
        ++ violate match Profile_Telemetry p with
               | Some t => Telemetry_PayloadCapture t || (Telemetry_RetentionDays t =? 0) || (30 <? Telemetry_RetentionDays t)
               | None => true end
          "AF-POLICY-TELEMETRY" "telemetry" "Telemetry must disable payload capture and retain metadata for 1 to 30 days."
        ++ violate (Profile_ScramblerEnabled p) "AF-POLICY-SCRAMBLER-DEFERRED" "scrambler.enabled" "Scrambler execution is not enabled in the locked release."
        ++ violate (len (Profile_Actions p) =? 0) "AF-POLICY-ACTIONS" "actions" "At least one protected action policy is required."
        ++ actionViolations 0 (Profile_Actions p))
  end.

(** ** Building blocks of a plan *)

Definition requirement (key : string) (operations : list Z) : CapabilityRequirement :=
  mkRequirement key operations SupportFull.

(** [supports]: the first fully supported capability of that key decides. *)
Fixpoint supports_in (capabilities : list (option Capability)) (r : CapabilityRequirement) : bool :=
  match capabilities with
  | [] => false
  | Some c :: rest =>
      if negb (eqs (Capability_Key c) (Requirement_Key r)) || negb (Capability_SupportLevel c =? SupportFull)
      then supports_in rest r
      else forallb (fun o => bool_decide (o ∈ Capability_Operations c)) (Requirement_RequiredOperations r)
  | None :: rest => supports_in rest r
  end.
Definition supports (manifest : CapabilityManifest) (r : CapabilityRequirement) : bool :=
  supports_in (Manifest_Capabilities manifest) r.

(** [structpb.NewStruct] fails on text that is not UTF-8, and the callers then
    carry a nil struct. *)
Definition stringListValue (values : list string) : pbValue := ListValue (StringValue <$> values).

Definition utf8Value (v : pbValue) : bool :=
  match v with
  | StringValue s => validUTF8 (bytes_of s)
  | ListValue l => forallb (fun v => match v with StringValue s => validUTF8 (bytes_of s) | _ => true end) l
  | _ => true
  end.

Definition NewStruct (fields : list (string * pbValue)) : option paramMap :=
  if forallb (fun f => utf8Value (snd f)) fields then Some (list_to_map fields) else None.

Definition policyOperation (id : string) (kind : Z) (target description : string) (r : CapabilityRequirement)
    (values : list (string * pbValue)) : POperation :=
  mkPOperation id kind target description
    (NewStruct (values ++ [("simulation", BoolValue false); ("failMode", StringValue "CLOSED")]))
    (Some (Duration_New (15 * Second))) [Some r].

Definition policyCheck (id : string) (phase : Z) (kind description : string) (required : bool)
    (requirements : list CapabilityRequirement) : PCheck :=
  mkPCheck id phase kind description (NewStruct [("source", StringValue "endpoint")]) required
    (Some (Duration_New (10 * Second))) (Some <$> requirements).

Definition firewallRequirement := requirement "firewall.egress.enforce" [CapabilityEnforce; CapabilityRollback].
Definition meshRequirement := requirement "mesh.path.enforce" [CapabilityEnforce; CapabilityVerify].
Definition routeRequirement := requirement "network.route.enforce" [CapabilityEnforce; CapabilityVerify; CapabilityRollback].
Definition dnsRequirement := requirement "dns.protected.enforce" [CapabilityEnforce; CapabilityVerify; CapabilityRollback].
Definition planRequirements : list CapabilityRequirement :=
  [firewallRequirement; meshRequirement; routeRequirement; dnsRequirement].

(** ** Identity *)

(** [hmac.New(sha256.New, key)] over a message: blocks of 64 bytes. *)
Definition hmac256 (key message : list Z) : list Z :=
  let key := if 64 <? len key then sum256 key else key in
  let block := key ++ repeat 0 (64 - length key) in
  sum256 (map (Z.lxor 0x5c) block ++ sum256 (map (Z.lxor 0x36) block ++ message)).

(** ["<label>\x00%s\x00%s\x00%d\x00%d"]. *)
Definition identityText (label policyID nodeID : string) (policyRevision planRevision : Z) : list Z :=
  bytes_of label ++ [0] ++ bytes_of policyID ++ [0] ++ bytes_of nodeID ++ [0]
  ++ bytes_of (pretty (Z.to_N policyRevision)) ++ [0] ++ bytes_of (pretty (Z.to_N planRevision)).

Definition deriveNonce (key : list Z) (policyID nodeID : string) (policyRevision planRevision : Z) : list Z :=
  hmac256 key (identityText "AntiFlock-Plan-Nonce-v1" policyID nodeID policyRevision planRevision).

Definition deterministicPlanID (policyID nodeID : string) (policyRevision planRevision : Z) : string :=
  "plan_" +:+ hexEncode (take 16 (sum256 (identityText "AntiFlock-Plan-ID-v1" policyID nodeID policyRevision planRevision))).

(** ** Signing *)

Definition ErrEncodePlan : error := errorsNew "encode signable plan".

(** The plan a signature is over: without signature and status. *)
Definition signableView (p : Plan) : Plan :=
  mkPlan (Plan_Id p) (Plan_DeploymentId p) (Plan_NodeId p) (Plan_PolicyId p) (Plan_PolicyRevision p) (Plan_Revision p)
    (Plan_Nonce p) (Plan_CreatedAt p) (Plan_ExpiresAt p) 0 (Plan_Preconditions p) (Plan_Actions p) (Plan_Verifications p)
    (Plan_Rollback p) (Plan_RecoveryAllowlist p) None (Plan_HumanReadableDryRun p) (Plan_Sensitivity p) (Plan_Unknown p).

Definition withSignature (s : Signature) (p : Plan) : Plan :=
  mkPlan (Plan_Id p) (Plan_DeploymentId p) (Plan_NodeId p) (Plan_PolicyId p) (Plan_PolicyRevision p) (Plan_Revision p)
    (Plan_Nonce p) (Plan_CreatedAt p) (Plan_ExpiresAt p) (Plan_Status p) (Plan_Preconditions p) (Plan_Actions p)
    (Plan_Verifications p) (Plan_Rollback p) (Plan_RecoveryAllowlist p) (Some s) (Plan_HumanReadableDryRun p)
    (Plan_Sensitivity p) (Plan_Unknown p).

Definition signPlan (p : Plan) (keyID : string) (key : list Z) (signedAt : time) : result Plan :=
  match marshalPlan (signableView p) with
  | None => Err ErrEncodePlan
  | Some encoded =>
      do signature <- newSignature planDomain keyID key (sum256 encoded) signedAt;
      Ok (withSignature signature p)
  end.

Definition ErrPlanKey : error := errorsNew "plan and Ed25519 verification key are required".
Definition ErrPlanTime : error := errorsNew "plan is expired or has invalid timestamps".
Definition ErrPlanDigest : error := errorsNew "plan signed-content digest mismatch".
Definition ErrPlanSignature : error := errorsNew "plan signature verification failed".

Definition VerifyPlan (p : Plan) (publicKey : list Z) (now : time) : result unit :=
  match Plan_Signature p with
  | None => Err ErrPlanKey
  | Some signature =>
      reject negb (len publicKey =? PublicKeySize) with ErrPlanKey;
      match Plan_ExpiresAt p, Plan_CreatedAt p with
      | Some expiresAt, Some createdAt =>
          reject negb (Timestamp_CheckValid expiresAt) || negb (now <? AsTime expiresAt)
                 || negb (Timestamp_CheckValid createdAt) || (now + 5 * Minute <? AsTime createdAt) with ErrPlanTime;
          match marshalPlan (signableView p) with
          | None => Err ErrEncodePlan
          | Some encoded =>
              let digest := match Signature_SignedContentDigest signature with Some d => Integrity_Digest d | None => [] end in
              reject negb (bool_decide (sum256 encoded = digest)) with ErrPlanDigest;
              match signatureInput planDomain signature with
              | Err _ => Err ErrPlanSignature
              | Ok input => if ed_verify publicKey input (Signature_Value signature) then Ok tt else Err ErrPlanSignature
              end
          end
      | _, _ => Err ErrPlanTime
      end
  end.

(** ** Compilation *)

Record Compiler : Type := mkCompiler {
  Compiler_deploymentID : string;
  Compiler_keyID : string;
  Compiler_key : list Z;
}.

Definition ErrCompiler : error := errorsNew "policy compiler requires deployment, key id, and Ed25519 signing key".
Definition ErrCompile : error := errorsNew "compiler, node, revision, and node-bound capabilities are required".

Definition NewCompiler (deploymentID keyID : string) (key : list Z) : result Compiler :=
  reject eqs deploymentID EmptyString || eqs keyID EmptyString || negb (len key =? PrivateKeySize) with ErrCompiler;
  Ok (mkCompiler deploymentID keyID key).

Definition missingCapabilityViolations (manifest : CapabilityManifest) : list PolicyViolation :=
  flat_map (fun r => violate (negb (supports manifest r)) "AF-CAPABILITY-MISSING" ("capabilities." +:+ Requirement_Key r)
                       "The target node cannot safely enforce and roll back this plan.") planRequirements.

Definition compilePlan (c : Compiler) (id nodeID : string) (policyRevision planRevision : Z)
    (mesh : MeshPolicy) (egress : EgressPolicy) (dns : DnsPolicy) (now : time) : Plan :=
  mkPlan (deterministicPlanID id nodeID policyRevision planRevision)
    (Compiler_deploymentID c) nodeID id policyRevision planRevision
    (deriveNonce (Seed (Compiler_key c)) id nodeID policyRevision planRevision)
    (Some (Timestamp_New now)) (Some (Timestamp_New (now + 5 * Minute))) PlanStatusSigned
    [Some (policyCheck "preflight-current-state" PhasePrecondition "state.capture" "Capture rollback state before mutation." true planRequirements)]
    [Some (policyOperation "guard-egress" OperationFirewall "protected-egress" "Hold protected egress before changing the route." firewallRequirement
             [("allowedDestinations", stringListValue (Egress_AllowedDestinations egress));
              ("recoveryDestinations", stringListValue (Egress_RecoveryDestinations egress))]);
     Some (policyOperation "connect-mesh" OperationMesh (NormalizeDestination (Mesh_Provider mesh)) "Connect the approved private mesh." meshRequirement []);
     Some (policyOperation "set-route" OperationRoute "approved-egress" "Select an approved protected route." routeRequirement
             [("allowedExitNodeIds", stringListValue (Egress_AllowedExitNodeIds egress))]);
     Some (policyOperation "set-dns" OperationDns "protected-dns" "Use DNS through the protected path." dnsRequirement
             [("allowedResolvers", stringListValue (Dns_AllowedResolvers dns))])]
    [Some (policyCheck "verify-mesh" PhaseVerification "mesh.connected" "Verify mesh connectivity." true [meshRequirement]);
     Some (policyCheck "verify-route" PhaseVerification "route.egress" "Verify the approved exit from the endpoint." true [routeRequirement]);
     Some (policyCheck "verify-dns" PhaseVerification "dns.path" "Verify DNS uses the protected path." true [dnsRequirement])]
    [Some (policyOperation "rollback-dns" OperationDns "captured:dns" "Restore captured DNS state." dnsRequirement []);
     Some (policyOperation "rollback-route" OperationRoute "captured:route" "Restore captured route state." routeRequirement []);
     Some (policyOperation "rollback-firewall" OperationFirewall "captured:firewall" "Restore captured firewall state." firewallRequirement [])]
    (Egress_RecoveryDestinations egress) None
    "Hold protected egress; connect the private mesh; select and verify the approved exit; verify protected DNS; roll back captured state on any failure."
    SensitivityOperatorPrivate false.

(** [Compile]: a plan, or the violations that stand in its way, or an error.
    The instant is the compiler's clock. *)
Definition Compile (c : Compiler) (profile : option ProtectionProfile) (nodeID : string) (planRevision : Z)
    (capabilities : option CapabilityManifest) (now : time) : result (Plan + list PolicyViolation) :=
  let violations := Policy_Validate profile in
  if negb (len violations =? 0) then Ok (inr violations) else
  match capabilities with
  | None => Err ErrCompile
  | Some manifest =>
      reject eqs nodeID EmptyString || (planRevision =? 0) || negb (eqs (Manifest_NodeId manifest) nodeID) with ErrCompile;
      let missing := missingCapabilityViolations manifest in
      if negb (len missing =? 0) then Ok (inr missing) else
      match profile with
      | Some p =>
          match Profile_Metadata p, Profile_Mesh p, Profile_Egress p, Profile_Dns p with
          | Some m, Some mesh, Some egress, Some dns =>
              do plan <- signPlan (compilePlan c (Metadata_Id m) nodeID (Metadata_Revision m) planRevision mesh egress dns now)
                           (Compiler_keyID c) (Compiler_key c) now;
              Ok (inl plan)
          | _, _, _, _ => Err ErrCompile
          end
      | None => Err ErrCompile
      end
  end.

End Compiler.
