(* ===== verification/Enforcement.v ===== *)
(** * The enforcer: validation (agent/enforcement/enforcer.go, validation.go)

    The endpoint side of a signed plan: what [validatePlan] accepts, the
    signature of an execution result, and [VerifyPlan], the inspection of a
    plan that never crosses the mutation boundary. The transaction itself is
    in EnforcementRun.v. *)

From S2P Require Import Prelude Sha256 Digest Probe Contract Plan Policy.
From stdpp Require Import base gmap list strings.
From Stdlib Require Import ZArith Lia.

Open Scope Z_scope.

Definition maximumPlanBytes : Z := 512 * 1024.
Definition maximumPlanItems : Z := 64.
Definition maximumStepTimeout : Z := 2 * Minute.
Definition resultSignatureDomain : string := "antiflock.plan-result.v1".
Definition defaultMaxEvidenceAge : Z := 2 * Minute.

(** ** Identifiers *)

Definition token_byte (b : Z) : bool :=
  ((97 <=? b) && (b <=? 122)) || ((65 <=? b) && (b <=? 90)) || ((48 <=? b) && (b <=? 57))
  || (b =? 46) || (b =? 95) || (b =? 58) || (b =? 45).

Definition safePlanToken (value : string) : bool :=
  if eqs value EmptyString || (128 <? slen value) then false else all_chars token_byte value.

(** ** The enforcer *)

Record Enforcer : Type := mkEnforcer {
  Enforcer_deploymentID : string;
  Enforcer_nodeID : string;
  Enforcer_planKeyID : string;
  Enforcer_planPublicKey : list Z;
  Enforcer_nodeKeyID : string;
  Enforcer_nodePrivateKey : list Z;
  Enforcer_capabilities : CapabilityManifest;
  Enforcer_maximumEvidenceAge : Z;
  Enforcer_rollbackTimeout : Z;
}.

Definition ErrEnforcerIdentity : error := errorsNew "enforcer deployment, node, and policy signing key id are required".
Definition ErrEnforcerKeys : error := errorsNew "enforcer plan and node keys must be Ed25519".
Definition ErrEnforcerNodeKey : error := errorsNew "enforcer node signing key id must match the node id".
Definition ErrEnforcerCapabilities : error := errorsNew "enforcer requires node-bound capabilities and a driver".
Definition ErrManifest : error := errorsNew "capability manifest".
Definition ErrEvidenceAge : error := errorsNew "maximum evidence age must be between one second and 30 minutes".
Definition ErrRollbackTimeout : error := errorsNew "rollback timeout must be between one second and five minutes".

(** [New]; a driver, a store and a clock are always given here. *)
Definition Enforcer_New (deploymentID nodeID planKeyID : string) (planPublicKey : list Z) (nodeKeyID : string)
    (nodePrivateKey : list Z) (capabilities : option CapabilityManifest) (maximumEvidenceAge rollbackTimeout : Z) : result Enforcer :=
  reject eqs (TrimSpace deploymentID) EmptyString || eqs (TrimSpace nodeID) EmptyString || eqs (TrimSpace planKeyID) EmptyString with ErrEnforcerIdentity;
  reject negb (len planPublicKey =? PublicKeySize) || negb (len nodePrivateKey =? PrivateKeySize) with ErrEnforcerKeys;
  let nodeKeyID := if eqs nodeKeyID EmptyString then nodeID else nodeKeyID in
  reject negb (eqs nodeKeyID nodeID) with ErrEnforcerNodeKey;
  match capabilities with
  | None => Err ErrEnforcerCapabilities
  | Some manifest =>
      reject negb (eqs (Manifest_NodeId manifest) nodeID) with ErrEnforcerCapabilities;
      reject negb (manifestKnown manifest) with ErrManifest;
      let maximumEvidenceAge := if maximumEvidenceAge =? 0 then defaultMaxEvidenceAge else maximumEvidenceAge in
      reject (maximumEvidenceAge <? Second) || (30 * Minute <? maximumEvidenceAge) with ErrEvidenceAge;
      let rollbackTimeout := if rollbackTimeout =? 0 then Minute else rollbackTimeout in
      reject (rollbackTimeout <? Second) || (5 * Minute <? rollbackTimeout) with ErrRollbackTimeout;
      Ok (mkEnforcer deploymentID nodeID planKeyID planPublicKey nodeKeyID nodePrivateKey manifest
            maximumEvidenceAge rollbackTimeout)
  end.

(** ** Capabilities *)

Definition supportSatisfies (actual minimum : Z) : bool :=
  if minimum =? SupportUnsupported then negb (actual =? 0)
  else if minimum =? SupportPartial then (actual =? SupportPartial) || (actual =? SupportFull)
  else if minimum =? SupportFull then actual =? SupportFull
  else if minimum =? SupportExperimental then actual =? SupportExperimental
  else false.

Definition validCapabilityRequirements (requirements : list (option CapabilityRequirement)) : bool :=
  negb (len requirements =? 0)
  && forallb (fun r => match r with
       | None => false
       | Some r => safePlanToken (Requirement_Key r) && negb (len (Requirement_RequiredOperations r) =? 0)
                   && negb (Requirement_MinimumSupportLevel r =? 0)
       end) requirements.

(** Does one declared capability meet a requirement? *)
Definition capabilityMeets (r : CapabilityRequirement) (c : option Capability) : bool :=
  match c with
  | None => false
  | Some c =>
      eqs (Capability_Key c) (Requirement_Key r)
      && supportSatisfies (Capability_SupportLevel c) (Requirement_MinimumSupportLevel r)
      && forallb (fun o => negb (o =? 0) && bool_decide (o ∈ Capability_Operations c)) (Requirement_RequiredOperations r)
  end.

Definition supportsAll (manifest : CapabilityManifest) (requirements : list (option CapabilityRequirement)) : bool :=
  validCapabilityRequirements requirements
  && forallb (fun r => match r with
       | None => false
       | Some r => existsb (capabilityMeets r) (Manifest_Capabilities manifest)
       end) requirements.

(** ** The layout of a plan *)

Record capabilityContract : Type := mkContract { Contract_key : string; Contract_operations : list Z }.

(** The operations of a requirement: each of the contract's, none twice. *)
Fixpoint contractOperations (allowed : list Z) (seen : list Z) (operations : list Z) : bool :=
  match operations with
  | [] => true
  | o :: rest =>
      if bool_decide (o ∈ seen) || negb (bool_decide (o ∈ allowed)) then false
      else contractOperations allowed (o :: seen) rest
  end.

Definition matchesContract (r : option CapabilityRequirement) (c : capabilityContract) : bool :=
  match r with
  | None => false
  | Some r =>
      eqs (Requirement_Key r) (Contract_key c) && (Requirement_MinimumSupportLevel r =? SupportFull)
      && (len (Requirement_RequiredOperations r) =? len (Contract_operations c))
      && contractOperations (Contract_operations c) [] (Requirement_RequiredOperations r)
  end.

Definition matchesCapabilityContracts (actual : list (option CapabilityRequirement)) (expected : list capabilityContract) : bool :=
  (len actual =? len expected) && forallb (fun p => matchesContract (fst p) (snd p)) (combine actual expected).

Definition firewallContract := mkContract "firewall.egress.enforce" [CapabilityEnforce; CapabilityRollback].
Definition meshContract := mkContract "mesh.path.enforce" [CapabilityEnforce; CapabilityVerify].
Definition routeContract := mkContract "network.route.enforce" [CapabilityEnforce; CapabilityVerify; CapabilityRollback].
Definition dnsContract := mkContract "dns.protected.enforce" [CapabilityEnforce; CapabilityVerify; CapabilityRollback].

Definition matchesCheck (id kind : string) (contracts : list capabilityContract) (c : option PCheck) : bool :=
  match c with
  | None => false
  | Some c => eqs (PCheck_Id c) id && eqs (PCheck_CheckType c) kind && PCheck_Required c
              && matchesCapabilityContracts (PCheck_RequiredCapabilities c) contracts
  end.

(** An empty [target] stands for any. *)
Definition matchesOperation (id : string) (kind : Z) (target : string) (contract : capabilityContract) (o : option POperation) : bool :=
  match o with
  | None => false
  | Some o => eqs (POperation_Id o) id && (POperation_Type o =? kind)
              && (eqs target EmptyString || eqs (POperation_Target o) target)
              && matchesCapabilityContracts (POperation_RequiredCapabilities o) [contract]
  end.

Definition validPlanLayout (p : Plan) : bool :=
  match Plan_Preconditions p, Plan_Actions p, Plan_Verifications p, Plan_Rollback p with
  | [preflight], [guard; connect; route; dns], [meshCheck; routeCheck; dnsCheck], [undoDns; undoRoute; undoFirewall] =>
      matchesCheck "preflight-current-state" "state.capture" [firewallContract; meshContract; routeContract; dnsContract] preflight
      && matchesCheck "verify-mesh" "mesh.connected" [meshContract] meshCheck
      && matchesCheck "verify-route" "route.egress" [routeContract] routeCheck
      && matchesCheck "verify-dns" "dns.path" [dnsContract] dnsCheck
      && matchesOperation "guard-egress" OperationFirewall "protected-egress" firewallContract guard
      && matchesOperation "connect-mesh" OperationMesh EmptyString meshContract connect
      && matchesOperation "set-route" OperationRoute "approved-egress" routeContract route
      && matchesOperation "set-dns" OperationDns "protected-dns" dnsContract dns
      && matchesOperation "rollback-dns" OperationDns "captured:dns" dnsContract undoDns
      && matchesOperation "rollback-route" OperationRoute "captured:route" routeContract undoRoute
      && matchesOperation "rollback-firewall" OperationFirewall "captured:firewall" firewallContract undoFirewall
  | _, _, _, _ => false
  end.

(** ** Parameters *)

Definition exactFields (parameters : option paramMap) (names : list string) : bool :=
  match parameters with
  | None => false
  | Some m => (Z.of_nat (size m) =? len names) && forallb (fun name => bool_decide (is_Some (m !! name))) names
  end.

Definition field (parameters : option paramMap) (name : string) : option pbValue :=
  match parameters with Some m => m !! name | None => None end.

Definition boolField (parameters : option paramMap) (name : string) : option bool :=
  match field parameters name with Some (BoolValue b) => Some b | _ => None end.

Definition stringField (parameters : option paramMap) (name : string) : option string :=
  match field parameters name with Some (StringValue s) => Some s | _ => None end.

Fixpoint stringItems (maximumLength : Z) (seen : gset string) (values : list pbValue) : option (list string) :=
  match values with
  | [] => Some []
  | StringValue text :: rest =>
      if eqs text EmptyString || (maximumLength <? slen text) || negb (trimmed text) || hasControl text then None
      else if bool_decide (text ∈ seen) then None
      else match stringItems maximumLength ({[ text ]} ∪ seen) rest with
           | Some items => Some (text :: items)
           | None => None
           end
  | _ :: _ => None
  end.

Definition stringListField (parameters : option paramMap) (name : string) (minimum maximum maximumLength : Z) : option (list string) :=
  match field parameters name with
  | Some (ListValue values) =>
      if (len values <? minimum) || (maximum <? len values) then None
      else stringItems maximumLength ∅ values
  | _ => None
  end.

Definition validCheckParameters (c : PCheck) : bool :=
  exactFields (PCheck_Parameters c) ["source"]
  && bool_decide (stringField (PCheck_Parameters c) "source" = Some "endpoint")
  && (if PCheck_Phase c =? PhasePrecondition then eqs (PCheck_CheckType c) "state.capture"
      else if PCheck_Phase c =? PhaseVerification
      then eqs (PCheck_CheckType c) "mesh.connected" || eqs (PCheck_CheckType c) "route.egress" || eqs (PCheck_CheckType c) "dns.path"
      else false).

Definition validOperationParameters (o : POperation) (rollback : bool) (recoveryAllowlist : list string) : bool :=
  let parameters := POperation_Parameters o in
  if negb (bool_decide (boolField parameters "simulation" = Some false))
     || negb (bool_decide (stringField parameters "failMode" = Some "CLOSED"))
  then false
  else if rollback then exactFields parameters ["simulation"; "failMode"]
  else if POperation_Type o =? OperationFirewall then
    eqs (POperation_Target o) "protected-egress"
    && exactFields parameters ["simulation"; "failMode"; "allowedDestinations"; "recoveryDestinations"]
    && isSome (stringListField parameters "allowedDestinations" 0 32 512)
    && bool_decide (stringListField parameters "recoveryDestinations" 1 32 512 = Some recoveryAllowlist)
  else if POperation_Type o =? OperationMesh then
    bool_decide (POperation_Target o ∈ meshProviders) && exactFields parameters ["simulation"; "failMode"]
  else if POperation_Type o =? OperationRoute then
    eqs (POperation_Target o) "approved-egress"
    && exactFields parameters ["simulation"; "failMode"; "allowedExitNodeIds"]
    && isSome (stringListField parameters "allowedExitNodeIds" 1 32 128)
  else if POperation_Type o =? OperationDns then
    eqs (POperation_Target o) "protected-dns"
    && exactFields parameters ["simulation"; "failMode"; "allowedResolvers"]
    && isSome (stringListField parameters "allowedResolvers" 1 16 512)
  else false.

Definition validTimeout (value : option Duration) : bool :=
  match value with
  | None => false
  | Some d => Duration_CheckValid d && (0 <? AsDuration d) && (AsDuration d <=? maximumStepTimeout)
  end.

(** ** Validation of a plan *)

(** [reject(reason)]: the refusal carries its reason code. *)
Definition refusal (reasonCode : string) : error := errorsNew reasonCode.

Definition timesValid (p : Plan) (now : time) : bool :=
  match Plan_CreatedAt p, Plan_ExpiresAt p with
  | Some createdAt, Some expiresAt =>
      Timestamp_CheckValid createdAt && Timestamp_CheckValid expiresAt
      && negb (now <? AsTime createdAt) && (now <? AsTime expiresAt) && (AsTime createdAt <? AsTime expiresAt)
  | _, _ => false
  end.

Definition signerValid (e : Enforcer) (p : Plan) (now : time) : bool :=
  match Plan_Signature p, Plan_CreatedAt p, Plan_ExpiresAt p with
  | Some s, Some createdAt, Some expiresAt =>
      eqs (Signature_KeyId s) (Enforcer_planKeyID e)
      && match Signature_SignedAt s with
         | None => false
         | Some signedAt =>
             Timestamp_CheckValid signedAt
             && negb (AsTime signedAt <? AsTime createdAt - 5 * Minute)
             && negb (now + 5 * Minute <? AsTime signedAt)
             && (AsTime signedAt <? AsTime expiresAt)
         end
  | _, _, _ => false
  end.

Definition recoveryDestination (d : string) : bool :=
  negb (eqs d EmptyString || (512 <? slen d) || negb (trimmed d) || hasControl d).

Definition structureValid (p : Plan) : bool :=
  negb ((Plan_Sensitivity p =? 0)
    || eqs (Plan_HumanReadableDryRun p) EmptyString || (4096 <? slen (Plan_HumanReadableDryRun p)) || negb (trimmed (Plan_HumanReadableDryRun p))
    || (len (Plan_Preconditions p) =? 0) || (len (Plan_Actions p) =? 0) || (len (Plan_Verifications p) =? 0) || (len (Plan_Rollback p) =? 0)
    || (maximumPlanItems <? len (Plan_Preconditions p)) || (maximumPlanItems <? len (Plan_Actions p))
    || (maximumPlanItems <? len (Plan_Verifications p)) || (maximumPlanItems <? len (Plan_Rollback p))).

Section Enforcer.
Context {H : Hasher} {E : Ed25519}.
Context (sizePlan : Plan -> Z) (marshalPlan : Plan -> option (list Z)).

Section Loops.
Context (e : Enforcer) (requireCapabilities : bool).

(** The loops over the checks of one phase and over the operations of one
    set; they share the identifiers already taken. *)
Fixpoint validChecks (phase : Z) (ids : gset string) (checks : list (option PCheck)) : result (gset string) :=
  match checks with
  | [] => Ok ids
  | None :: _ => Err (refusal "AF-PLAN-CHECK-INVALID")
  | Some c :: rest =>
      reject eqs (PCheck_Id c) EmptyString || negb (PCheck_Phase c =? phase) || eqs (PCheck_CheckType c) EmptyString
             || negb (isSome (PCheck_Parameters c)) || negb (validTimeout (PCheck_Timeout c)) with refusal "AF-PLAN-CHECK-INVALID";
      reject negb (validCapabilityRequirements (PCheck_RequiredCapabilities c)) with refusal "AF-PLAN-CAPABILITY-INVALID";
      reject negb (validCheckParameters c) with refusal "AF-PLAN-CHECK-PARAMETERS-INVALID";
      reject bool_decide (PCheck_Id c ∈ ids) with refusal "AF-PLAN-DUPLICATE-ID";
      reject requireCapabilities && negb (supportsAll (Enforcer_capabilities e) (PCheck_RequiredCapabilities c)) with refusal "AF-PLAN-CAPABILITY-UNSUPPORTED";
      validChecks phase ({[ PCheck_Id c ]} ∪ ids) rest
  end.

Fixpoint validOperations (rollback : bool) (recoveryAllowlist : list string) (ids : gset string)
    (operations : list (option POperation)) : result (gset string) :=
  match operations with
  | [] => Ok ids
  | None :: _ => Err (refusal "AF-PLAN-OPERATION-INVALID")
  | Some o :: rest =>
      reject eqs (POperation_Id o) EmptyString || (POperation_Type o =? 0) || eqs (POperation_Target o) EmptyString
             || negb (isSome (POperation_Parameters o)) || negb (validTimeout (POperation_Timeout o)) with refusal "AF-PLAN-OPERATION-INVALID";
      reject negb (validCapabilityRequirements (POperation_RequiredCapabilities o)) with refusal "AF-PLAN-CAPABILITY-INVALID";
      reject bool_decide (POperation_Id o ∈ ids) with refusal "AF-PLAN-DUPLICATE-ID";
      reject negb (validOperationParameters o rollback recoveryAllowlist) with refusal "AF-PLAN-OPERATION-PARAMETERS-INVALID";
      reject requireCapabilities && negb (supportsAll (Enforcer_capabilities e) (POperation_RequiredCapabilities o)) with refusal "AF-PLAN-CAPABILITY-UNSUPPORTED";
      validOperations rollback recoveryAllowlist ({[ POperation_Id o ]} ∪ ids) rest
  end.
End Loops.

Definition validatePlanMode (e : Enforcer) (p : Plan) (now : time) (requireCapabilities : bool) : result unit :=
  reject (maximumPlanBytes <? sizePlan p) || negb (planKnown p) with refusal "AF-PLAN-WIRE-INVALID";
  reject negb (eqs (Plan_DeploymentId p) (Enforcer_deploymentID e)) || negb (eqs (Plan_NodeId p) (Enforcer_nodeID e)) with refusal "AF-PLAN-TARGET-MISMATCH";
  reject negb (safePlanToken (Plan_Id p)) || negb (safePlanToken (Plan_PolicyId p)) || (Plan_PolicyRevision p =? 0) || (Plan_Revision p =? 0)
         || negb (len (Plan_Nonce p) =? sha256_Size) with refusal "AF-PLAN-IDENTITY-INVALID";
  reject negb (Plan_Status p =? PlanStatusSigned) && negb (Plan_Status p =? PlanStatusDelivered) with refusal "AF-PLAN-STATUS-INVALID";
  reject negb (timesValid p now) with refusal "AF-PLAN-TIME-INVALID";
  reject negb (signerValid e p now) with refusal "AF-PLAN-SIGNER-INVALID";
  reject negb (is_ok (VerifyPlan marshalPlan p (Enforcer_planPublicKey e) now)) with refusal "AF-PLAN-SIGNATURE-INVALID";
  reject (len (Plan_RecoveryAllowlist p) =? 0) || (32 <? len (Plan_RecoveryAllowlist p)) with refusal "AF-PLAN-RECOVERY-INVALID";
  reject negb (forallb recoveryDestination (Plan_RecoveryAllowlist p)) with refusal "AF-PLAN-RECOVERY-INVALID";
  reject negb (structureValid p) with refusal "AF-PLAN-STRUCTURE-INVALID";
  reject negb (validPlanLayout p) with refusal "AF-PLAN-LAYOUT-UNSUPPORTED";
  do ids <- validChecks e requireCapabilities PhasePrecondition ∅ (Plan_Preconditions p);
  do ids <- validChecks e requireCapabilities PhaseVerification ids (Plan_Verifications p);
  do ids <- validOperations e requireCapabilities false (Plan_RecoveryAllowlist p) ids (Plan_Actions p);
  ensure validOperations e requireCapabilities true (Plan_RecoveryAllowlist p) ids (Plan_Rollback p);
  Ok tt.

Definition validatePlan (e : Enforcer) (p : Plan) (now : time) : result unit := validatePlanMode e p now true.

(** ** Inspection without mutation (validation.go) *)

Record PlanVerification : Type := mkPlanVerification {
  PV_PlanID : string;
  PV_NodeID : string;
  PV_DeploymentID : string;
  PV_Valid : bool;
  PV_CapabilityCompatible : bool;
  PV_Executable : bool;
  PV_ReasonCode : string;
  PV_MissingCapabilities : list string;
  PV_HumanReadableDryRun : string;
}.

Definition ErrVerificationIds : error := errorsNew "plan verification requires deployment, node, and policy signing key ids".
Definition ErrVerificationKey : error := errorsNew "plan verification requires an Ed25519 policy public key".
Definition ErrVerificationManifest : error := errorsNew "plan verification requires a node-bound capability manifest".
Definition ErrManifestUnknown : error := errorsNew "capability manifest contains unknown fields".
Definition ErrPlanRequired : error := errorsNew "plan is required".

Definition missingKey (manifest : CapabilityManifest) (r : option CapabilityRequirement) : list string :=
  match r with
  | None => ["invalid-capability-requirement"]
  | Some q => if supportsAll manifest [r] then []
              else [if eqs (Requirement_Key q) EmptyString then "invalid-capability-requirement" else Requirement_Key q]
  end.

Definition missingCapabilities (manifest : CapabilityManifest) (p : Plan) : list string :=
  let checks := flat_map (fun c => match c with Some c => PCheck_RequiredCapabilities c | None => [] end)
                  (Plan_Preconditions p ++ Plan_Verifications p) in
  let operations := flat_map (fun o => match o with Some o => POperation_RequiredCapabilities o | None => [] end)
                  (Plan_Actions p ++ Plan_Rollback p) in
  sort_strings (elements (list_to_set (flat_map (missingKey manifest) (checks ++ operations)) : gset string)).

(** The reason code of a refusal. *)
Definition reasonCode (e : error) : string := match e with errorsNew text => text end.

Definition VerifyPlanInspection (deploymentID nodeID planKeyID : string) (planPublicKey : list Z)
    (capabilities : option CapabilityManifest) (input : option Plan) (now : time) : result PlanVerification :=
  reject negb (safePlanToken deploymentID) || negb (safePlanToken nodeID) || negb (safePlanToken planKeyID) with ErrVerificationIds;
  reject negb (len planPublicKey =? PublicKeySize) with ErrVerificationKey;
  match capabilities with
  | None => Err ErrVerificationManifest
  | Some manifest =>
      reject negb (eqs (Manifest_NodeId manifest) nodeID) with ErrVerificationManifest;
      reject negb (manifestKnown manifest) with ErrManifestUnknown;
      match input with
      | None => Err ErrPlanRequired
      | Some p =>
          let verifier := mkEnforcer deploymentID nodeID planKeyID planPublicKey EmptyString [] manifest 0 0 in
          match validatePlanMode verifier p now false with
          | Err reason => Ok (mkPlanVerification (Plan_Id p) nodeID deploymentID false false false (reasonCode reason) [] EmptyString)
          | Ok _ =>
              let missing := missingCapabilities manifest p in
              let compatible := len missing =? 0 in
              Ok (mkPlanVerification (Plan_Id p) nodeID deploymentID true compatible false
                    (if compatible then "AF-PLAN-VERIFIED-EXECUTION-DISABLED" else "AF-PLAN-CAPABILITY-UNSUPPORTED")
                    missing (Plan_HumanReadableDryRun p))
          end
      end
  end.
End Enforcer.
