(* ===== verification/EnforcementRun.v ===== *)
(** * The enforcer: the transaction (agent/enforcement/enforcer.go)

    [Apply] executes one validated plan against a [Driver]: reserve, check,
    act, verify, and roll back on the first failure, with a signed terminal
    result that the state store keeps. The driver and the store are behind
    classes; a driver call may return, fail or panic. *)

From S2P Require Import Prelude Sha256 Digest Contract Plan Policy Enforcement.
From stdpp Require Import base gmap list strings.
From Stdlib Require Import ZArith Lia.

Open Scope Z_scope.

(** ** Evidence and observations *)

Record EvidenceReference : Type := mkEvidence {
  Evidence_Id : string;
  Evidence_Role : Z;
  Evidence_Classification : Z;
  Evidence_SourceType : Z;
  Evidence_SourceName : string;
  Evidence_Summary : string;
  Evidence_ObservedAt : option Timestamp;
  Evidence_LastVerifiedAt : option Timestamp;
  Evidence_ExpiresAt : option Timestamp;
  Evidence_Confidence : Z;            (** the bits of the [float32] *)
  Evidence_Sensitivity : Z;
  Evidence_LocationPrecision : Z;
  Evidence_Integrity : option IntegrityDigest;
  Evidence_Unknown : bool;            (** unknown wire fields, at any depth *)
}.

#[export] Instance Timestamp_eq_dec : EqDecision Timestamp.
Proof. solve_decision. Defined.
#[export] Instance IntegrityDigest_eq_dec : EqDecision IntegrityDigest.
Proof. solve_decision. Defined.
#[export] Instance EvidenceReference_eq_dec : EqDecision EvidenceReference.
Proof. solve_decision. Defined.
#[export] Instance Signature_eq_dec : EqDecision Signature.
Proof. solve_decision. Defined.

Definition RoleSupporting : Z := 1.
Definition SourceLocalSensor : Z := 1.
Definition SourceAuthorizedGateway : Z := 2.
Definition SourceProviderAPI : Z := 3.
Definition SourceDeterministicRule : Z := 8.

(** [RejectUnknownFields] of a piece of evidence. *)
Definition evidenceKnown (e : EvidenceReference) : bool :=
  negb (Evidence_Unknown e) && enumKnown 3 (Evidence_Role e) && enumKnown 6 (Evidence_Classification e)
  && enumKnown 9 (Evidence_SourceType e) && enumKnown 5 (Evidence_Sensitivity e)
  && enumKnown 6 (Evidence_LocationPrecision e).

Record PlanCheckObservation : Type := mkPlanCheckObservation {
  PCO_Outcome : Z;
  PCO_ReasonCode : string;
  PCO_SafeMessage : string;
  PCO_Evidence : list (option EvidenceReference);
}.

Record OperationObservation : Type := mkOperationObservation {
  OO_Succeeded : bool;
  OO_ReasonCode : string;
  OO_SafeMessage : string;
}.

(** ** Results *)

Record CheckResult : Type := mkCheckResult {
  CR_CheckId : string;
  CR_Outcome : Z;
  CR_ReasonCode : string;
  CR_SafeMessage : string;
  CR_CheckedAt : Timestamp;
  CR_Evidence : list EvidenceReference;
}.

Record OperationResult : Type := mkOperationResult {
  OR_OperationId : string;
  OR_Succeeded : bool;
  OR_ReasonCode : string;
  OR_SafeMessage : string;
  OR_StartedAt : Timestamp;
  OR_CompletedAt : Timestamp;
}.

Record PlanExecutionResult : Type := mkResult {
  Result_PlanId : string;
  Result_NodeId : string;
  Result_PlanRevision : Z;
  Result_Status : Z;
  Result_PreconditionResults : list CheckResult;
  Result_OperationResults : list OperationResult;
  Result_VerificationResults : list CheckResult;
  Result_RollbackResults : list OperationResult;
  Result_CompletedAt : option Timestamp;
  Result_ReasonCode : string;
  Result_NodeSignature : option Signature;
  Result_Unknown : bool;              (** unknown wire fields, at any depth *)
}.

#[export] Instance CheckResult_eq_dec : EqDecision CheckResult.
Proof. solve_decision. Defined.
#[export] Instance OperationResult_eq_dec : EqDecision OperationResult.
Proof. solve_decision. Defined.
#[export] Instance PlanExecutionResult_eq_dec : EqDecision PlanExecutionResult.
Proof. solve_decision. Defined.

(** [RejectUnknownFields] of a result. *)
Definition resultKnown (r : PlanExecutionResult) : bool :=
  negb (Result_Unknown r) && enumKnown 12 (Result_Status r)
  && forallb (fun c => enumKnown 5 (CR_Outcome c) && forallb evidenceKnown (CR_Evidence c))
       (Result_PreconditionResults r ++ Result_VerificationResults r)
  && signatureKnown (Result_NodeSignature r).

(** ** Interfaces *)

Inductive called (A : Type) : Type :=
| Returned (a : A)
| Panicked.
Arguments Returned {A} a.
Arguments Panicked {A}.

Class PlanDriver (D : Type) : Type := {
  PD_Check : ctxT -> PCheck -> M D (called PlanCheckObservation);
  PD_Apply : ctxT -> POperation -> M D (called OperationObservation);
  PD_Rollback : ctxT -> POperation -> M D (called OperationObservation);
}.

Record PlanReservation : Type := mkPlanReservation {
  PR_PlanID : string;
  PR_Fingerprint : string;
  PR_PolicyRevision : Z;
  PR_PlanRevision : Z;
}.

#[export] Instance PlanReservation_eq_dec : EqDecision PlanReservation.
Proof. solve_decision. Defined.

Class StateStore (S : Type) : Type := {
  State_Reserve : ctxT -> PlanReservation -> M S (option PlanExecutionResult);
  State_Complete : ctxT -> PlanExecutionResult -> M S unit;
}.

Definition ErrPlanReplay : error := errorsNew "plan replay or revision conflict".
Definition ErrPlanInProgress : error := errorsNew "plan execution is already in progress".
Definition ErrPlanRejected : error := errorsNew "plan was rejected".

(** *** The in-process store *)

Record memoryRecord : Type := mkMemoryRecord {
  MR_reservation : PlanReservation;
  MR_result : option PlanExecutionResult;
}.

Record MemoryStateStore : Type := mkStateStore {
  MS_lastPolicyRevision : Z;
  MS_lastPlanRevision : Z;
  MS_records : gmap string memoryRecord;
}.

Definition NewMemoryStateStore (lastPolicyRevision lastPlanRevision : Z) : MemoryStateStore :=
  mkStateStore lastPolicyRevision lastPlanRevision ∅.

Definition MemoryStateStore_Reserve (ctx : ctxT) (r : PlanReservation) : M MemoryStateStore (option PlanExecutionResult) :=
  run! ctxErr ctx in
  let! store := getS in
  match MS_records store !! PR_PlanID r with
  | Some existing =>
      if negb (bool_decide (MR_reservation existing = r)) then failM ErrPlanReplay
      else match MR_result existing with
           | None => failM ErrPlanInProgress
           | Some result => retM (Some result)
           end
  | None =>
      if eqs (PR_PlanID r) EmptyString || eqs (PR_Fingerprint r) EmptyString || (PR_PolicyRevision r =? 0) || (PR_PlanRevision r =? 0)
         || (PR_PolicyRevision r <? MS_lastPolicyRevision store) || (PR_PlanRevision r <=? MS_lastPlanRevision store)
      then failM ErrPlanReplay
      else
        run! modS (fun s => mkStateStore (PR_PolicyRevision r) (PR_PlanRevision r)
                              (<[ PR_PlanID r := mkMemoryRecord r None ]> (MS_records s))) in
        retM None
  end.

Definition ErrTerminalResult : error := errorsNew "terminal plan result is required".
Definition ErrNoReservation : error := errorsNew "plan result has no matching reservation".

Definition MemoryStateStore_Complete (ctx : ctxT) (result : PlanExecutionResult) : M MemoryStateStore unit :=
  if eqs (Result_PlanId result) EmptyString then failM ErrTerminalResult else
  run! ctxErr ctx in
  let! store := getS in
  match MS_records store !! Result_PlanId result with
  | None => failM ErrNoReservation
  | Some record =>
      if negb (PR_PlanRevision (MR_reservation record) =? Result_PlanRevision result) then failM ErrNoReservation
      else match MR_result record with
           | Some previous => if bool_decide (previous = result) then retM tt else failM ErrPlanReplay
           | None =>
               modS (fun s => mkStateStore (MS_lastPolicyRevision s) (MS_lastPlanRevision s)
                                (<[ Result_PlanId result := mkMemoryRecord (MR_reservation record) (Some result) ]> (MS_records s)))
           end
  end.

Definition MemoryStateStore_Revisions (s : MemoryStateStore) : Z * Z := (MS_lastPolicyRevision s, MS_lastPlanRevision s).

#[export] Instance MemoryStateStore_ops : StateStore MemoryStateStore := {|
  State_Reserve := MemoryStateStore_Reserve;
  State_Complete := MemoryStateStore_Complete;
|}.

(** ** Sanitising *)

Definition safeReason (value fallback : string) : string :=
  if eqs value EmptyString || (128 <? slen value) || negb (trimmed value) || negb (hasPrefix value "AF-") || hasControl value
  then fallback else value.

Definition safeMessage (value fallback : string) : string :=
  if eqs value EmptyString || (512 <? slen value) || negb (trimmed value) || hasControl value then fallback else value.

Definition defaultCheckReason (outcome : Z) : string :=
  if outcome =? CheckOutcomePassed then "AF-CHECK-PASSED"
  else if outcome =? CheckOutcomeFailed then "AF-CHECK-FAILED"
  else if outcome =? CheckOutcomeSkipped then "AF-CHECK-SKIPPED"
  else "AF-CHECK-UNKNOWN".

Definition defaultCheckMessage (outcome : Z) : string :=
  if outcome =? CheckOutcomePassed then "The endpoint check passed with current supporting evidence."
  else "The endpoint check did not establish the required state.".

Definition planFingerprint (p : Plan) : string :=
  match Plan_Signature p with
  | Some s => match Signature_SignedContentDigest s with Some d => hexEncode (Integrity_Digest d) | None => EmptyString end
  | None => EmptyString
  end.

Definition timeoutOf (d : option Duration) : Z := match d with Some d => AsDuration d | None => 0 end.

(** ** Evidence *)

Section Transaction.
Context {H : Hasher} {E : Ed25519}.
Context (sizePlan : Plan -> Z) (marshalPlan : Plan -> option (list Z)).
Context (sizeEvidence : EvidenceReference -> Z) (marshalResult : PlanExecutionResult -> option (list Z)).

Definition validEvidence (evidence : option EvidenceReference) (now : time) : bool :=
  match evidence with
  | None => false
  | Some e =>
      match Evidence_ObservedAt e with
      | None => false
      | Some observedAt =>
          negb ((64 * 1024 <? sizeEvidence e) || negb (evidenceKnown e) || eqs (Evidence_Id e) EmptyString
            || (Evidence_Role e =? 0) || (Evidence_Classification e =? 0) || (Evidence_SourceType e =? 0)
            || eqs (Evidence_SourceName e) EmptyString || eqs (Evidence_Summary e) EmptyString
            || negb (Timestamp_CheckValid observedAt) || (Evidence_Sensitivity e =? 0)
            || float32_nan (Evidence_Confidence e) || float32_inf (Evidence_Confidence e)
            || float32_negative (Evidence_Confidence e) || float32_above_one (Evidence_Confidence e))
          && match Evidence_Integrity e with
             | Some i => eqs (Integrity_Algorithm i) "sha256" && (len (Integrity_Digest i) =? sha256_Size)
             | None => true
             end
          && match Evidence_ExpiresAt e with
             | Some expiresAt => Timestamp_CheckValid expiresAt && (now <? AsTime expiresAt)
             | None => true
             end
          && (if Evidence_Classification e =? ClassVerified then
                match Evidence_LastVerifiedAt e with
                | None => false
                | Some verifiedAt =>
                    Timestamp_CheckValid verifiedAt && negb (now + 5 * Minute <? AsTime verifiedAt)
                    && negb (AsTime verifiedAt <? AsTime observedAt) && isSome (Evidence_Integrity e)
                end
              else true)
      end
  end.

(** One piece of evidence that supports a pass now. *)
Definition currentSupport (maximumAge : Z) (now : time) (e : EvidenceReference) : bool :=
  (Evidence_Role e =? RoleSupporting)
  && ((Evidence_Classification e =? ClassDetected) || (Evidence_Classification e =? ClassVerified))
  && match Evidence_ObservedAt e with
     | None => false
     | Some observedAt =>
         let age := Sub now (AsTime observedAt) in
         negb ((age <? - (5 * Minute)) || (maximumAge <? age))
     end
  && ((Evidence_SourceType e =? SourceLocalSensor) || (Evidence_SourceType e =? SourceAuthorizedGateway)
      || (Evidence_SourceType e =? SourceProviderAPI) || (Evidence_SourceType e =? SourceDeterministicRule)).

Definition hasCurrentSupportingEvidence (enforcer : Enforcer) (evidence : list EvidenceReference) (now : time) : bool :=
  existsb (currentSupport (Enforcer_maximumEvidenceAge enforcer) now) evidence.

(** ** Signed results *)

Definition ErrResultIdentity : error := errorsNew "complete plan result identity and timestamp are required".
Definition ErrResultKey : error := errorsNew "plan result signing requires an Ed25519 node key".
Definition ErrResultEncode : error := errorsNew "encode signable plan result".
Definition ErrResultVerifyKey : error := errorsNew "plan result and node Ed25519 key are required".
Definition ErrResultUnknown : error := errorsNew "plan result contains unknown fields".
Definition ErrResultDigest : error := errorsNew "plan result signed-content digest mismatch".
Definition ErrResultSignature : error := errorsNew "plan result signature verification failed".

Definition resultSignatureInput (s : Signature) : result (list Z) := signatureInput resultSignatureDomain s.

Definition withNodeSignature (s : option Signature) (r : PlanExecutionResult) : PlanExecutionResult :=
  mkResult (Result_PlanId r) (Result_NodeId r) (Result_PlanRevision r) (Result_Status r) (Result_PreconditionResults r)
    (Result_OperationResults r) (Result_VerificationResults r) (Result_RollbackResults r) (Result_CompletedAt r)
    (Result_ReasonCode r) s (Result_Unknown r).

Definition SignExecutionResult (r : PlanExecutionResult) (keyID : string) (privateKey : list Z) (signedAt : time) : result PlanExecutionResult :=
  reject eqs (Result_PlanId r) EmptyString || eqs (Result_NodeId r) EmptyString || (Result_PlanRevision r =? 0)
         || negb (goodTimestamp (Result_CompletedAt r)) with ErrResultIdentity;
  reject eqs keyID EmptyString || negb (len privateKey =? PrivateKeySize) || IsZero signedAt with ErrResultKey;
  match marshalResult (withNodeSignature None r) with
  | None => Err ErrResultEncode
  | Some encoded =>
      do signature <- newSignature resultSignatureDomain keyID privateKey (sum256 encoded) signedAt;
      Ok (withNodeSignature (Some signature) r)
  end.

Definition VerifyExecutionResult (r : PlanExecutionResult) (publicKey : list Z) : result unit :=
  match Result_NodeSignature r with
  | None => Err ErrResultVerifyKey
  | Some signature =>
      reject negb (len publicKey =? PublicKeySize) || negb (eqs (Signature_KeyId signature) (Result_NodeId r)) with ErrResultVerifyKey;
      reject negb (resultKnown r) with ErrResultUnknown;
      match marshalResult (withNodeSignature None r) with
      | None => Err ErrResultEncode
      | Some encoded =>
          match Signature_SignedContentDigest signature with
          | None => Err ErrResultDigest
          | Some digest =>
              reject negb (bool_decide (sum256 encoded = Integrity_Digest digest)) with ErrResultDigest;
              match resultSignatureInput signature with
              | Err _ => Err ErrResultSignature
              | Ok input => if ed_verify publicKey input (Signature_Value signature) then Ok tt else Err ErrResultSignature
              end
          end
      end
  end.

(** ** The transaction *)

Context {D S : Type} {PD : PlanDriver D} {SS : StateStore S}.
Context (clock wall : clockT) (enforcer : Enforcer).

Record EState : Type := mkEState { ES_driver : D; ES_store : S }.

Definition set_plan_driver (d : D) (st : EState) : EState := mkEState d (ES_store st).
Definition set_plan_store (s : S) (st : EState) : EState := mkEState (ES_driver st) s.
Definition onPlanDriver {A : Type} (m : M D A) : M EState A := zoom ES_driver set_plan_driver m.
Definition onStore {A : Type} (m : M S A) : M EState A := zoom ES_store set_plan_store m.

Definition ErrCheckPanicked : error := errorsNew "driver check panicked".
Definition ErrOperationPanicked : error := errorsNew "driver operation panicked".

(** [defer recover()]: a panic becomes an error. *)
Definition recovering {A : Type} (e : error) (m : M D (called A)) : M D A :=
  let! c := m in
  match c with Returned a => retM a | Panicked => failM e end.

Definition safelyCheck (ctx : ctxT) (c : PCheck) : M D PlanCheckObservation :=
  recovering ErrCheckPanicked (PD_Check ctx c).

Definition safelyOperate (ctx : ctxT) (o : POperation) (rollback : bool) : M D OperationObservation :=
  recovering ErrOperationPanicked (if rollback then PD_Rollback ctx o else PD_Apply ctx o).

(** A driver call and then [ctx.Err()]. *)
Definition observed {A : Type} (ctx : ctxT) (m : M D A) : M EState (result A) :=
  attempt (let! a := onPlanDriver m in run! ctxErr ctx in retM a).

(** The result of a check whose observation came back. *)
Definition checkResult (c : PCheck) (observation : PlanCheckObservation) (checkedAt : time) : CheckResult :=
  let stamp := Timestamp_New checkedAt in
  if negb (forallb (fun e => validEvidence e checkedAt) (PCO_Evidence observation)) then
    mkCheckResult (PCheck_Id c) CheckOutcomeUnknown "AF-CHECK-EVIDENCE-INVALID"
      "The endpoint check returned invalid evidence." stamp []
  else
    let evidence := omap id (PCO_Evidence observation) in
    let outcome := PCO_Outcome observation in
    if (outcome =? CheckOutcomeUnspecified)
       || ((outcome =? CheckOutcomePassed) && negb (hasCurrentSupportingEvidence enforcer evidence checkedAt)) then
      mkCheckResult (PCheck_Id c) CheckOutcomeUnknown "AF-CHECK-EVIDENCE-MISSING"
        "The endpoint check did not provide current supporting evidence." stamp evidence
    else if PCheck_Required c && (outcome =? CheckOutcomeSkipped) then
      mkCheckResult (PCheck_Id c) CheckOutcomeUnknown "AF-CHECK-REQUIRED-SKIPPED"
        "A required endpoint check was skipped." stamp evidence
    else
      mkCheckResult (PCheck_Id c) outcome
        (safeReason (PCO_ReasonCode observation) (defaultCheckReason outcome))
        (safeMessage (PCO_SafeMessage observation) (defaultCheckMessage outcome)) stamp evidence.

Definition runCheck (parent : ctxT) (c : PCheck) : M EState CheckResult :=
  let! ctx := withTimeout wall parent (timeoutOf (PCheck_Timeout c)) in
  let! observation := observed ctx (safelyCheck ctx c) in
  let! checkedAt := now clock in
  retM (match observation with
        | Err _ => mkCheckResult (PCheck_Id c) CheckOutcomeUnknown "AF-CHECK-UNAVAILABLE"
                     "The endpoint check could not produce a trustworthy result." (Timestamp_New checkedAt) []
        | Ok observation => checkResult c observation checkedAt
        end).

Definition operationResult (o : POperation) (observation : result OperationObservation) (startedAt completedAt : time) : OperationResult :=
  match observation with
  | Err _ => mkOperationResult (POperation_Id o) false "AF-OPERATION-FAILED"
               "The endpoint operation did not complete successfully." (Timestamp_New startedAt) (Timestamp_New completedAt)
  | Ok x =>
      mkOperationResult (POperation_Id o) (OO_Succeeded x)
        (safeReason (OO_ReasonCode x) (if OO_Succeeded x then "AF-OPERATION-SUCCEEDED" else "AF-OPERATION-FAILED"))
        (safeMessage (OO_SafeMessage x) (if OO_Succeeded x then "The endpoint operation completed."
                                         else "The endpoint operation did not complete successfully."))
        (Timestamp_New startedAt) (Timestamp_New completedAt)
  end.

Definition runOperation (parent : ctxT) (o : POperation) (rollback : bool) : M EState OperationResult :=
  let! startedAt := now clock in
  let! ctx := withTimeout wall parent (timeoutOf (POperation_Timeout o)) in
  let! observation := observed ctx (safelyOperate ctx o rollback) in
  let! completedAt := now clock in
  retM (operationResult o observation startedAt completedAt).

(** What [Apply] and its helpers answer: a result, an error, or both. *)
Definition answer : Type := option PlanExecutionResult * option error.

Definition withStatus (status : Z) (reason : string) (completedAt : time) (r : PlanExecutionResult) : PlanExecutionResult :=
  mkResult (Result_PlanId r) (Result_NodeId r) (Result_PlanRevision r) status (Result_PreconditionResults r)
    (Result_OperationResults r) (Result_VerificationResults r) (Result_RollbackResults r) (Some (Timestamp_New completedAt))
    reason (Result_NodeSignature r) (Result_Unknown r).

Definition Enforcer_finish (r : PlanExecutionResult) (status : Z) (reason : string) (completedAt : time) : result PlanExecutionResult :=
  SignExecutionResult (withStatus status reason completedAt r) (Enforcer_nodeKeyID enforcer) (Enforcer_nodePrivateKey enforcer) completedAt.

Definition Enforcer_complete (r : PlanExecutionResult) (status : Z) (reason : string) : M EState answer :=
  let! instant := now clock in
  match Enforcer_finish r status reason instant with
  | Err e => retM (None, Some e)
  | Ok terminal =>
      let! ctx := withTimeout wall Background (Enforcer_rollbackTimeout enforcer) in
      let! persisted := attempt (onStore (State_Complete ctx terminal)) in
      retM (Some terminal, match persisted with Ok _ => None | Err e => Some e end)
  end.

Definition addPreconditions (l : list CheckResult) (r : PlanExecutionResult) : PlanExecutionResult :=
  mkResult (Result_PlanId r) (Result_NodeId r) (Result_PlanRevision r) (Result_Status r) (Result_PreconditionResults r ++ l)
    (Result_OperationResults r) (Result_VerificationResults r) (Result_RollbackResults r) (Result_CompletedAt r)
    (Result_ReasonCode r) (Result_NodeSignature r) (Result_Unknown r).
Definition addOperations (l : list OperationResult) (r : PlanExecutionResult) : PlanExecutionResult :=
  mkResult (Result_PlanId r) (Result_NodeId r) (Result_PlanRevision r) (Result_Status r) (Result_PreconditionResults r)
    (Result_OperationResults r ++ l) (Result_VerificationResults r) (Result_RollbackResults r) (Result_CompletedAt r)
    (Result_ReasonCode r) (Result_NodeSignature r) (Result_Unknown r).
Definition addVerifications (l : list CheckResult) (r : PlanExecutionResult) : PlanExecutionResult :=
  mkResult (Result_PlanId r) (Result_NodeId r) (Result_PlanRevision r) (Result_Status r) (Result_PreconditionResults r)
    (Result_OperationResults r) (Result_VerificationResults r ++ l) (Result_RollbackResults r) (Result_CompletedAt r)
    (Result_ReasonCode r) (Result_NodeSignature r) (Result_Unknown r).
Definition addRollbacks (l : list OperationResult) (r : PlanExecutionResult) : PlanExecutionResult :=
  mkResult (Result_PlanId r) (Result_NodeId r) (Result_PlanRevision r) (Result_Status r) (Result_PreconditionResults r)
    (Result_OperationResults r) (Result_VerificationResults r) (Result_RollbackResults r ++ l) (Result_CompletedAt r)
    (Result_ReasonCode r) (Result_NodeSignature r) (Result_Unknown r).

(** The rollback runs on a context of its own, so that the cancellation that
    may have caused it does not stop it; it tries every operation. *)
Definition Enforcer_rollback (p : Plan) (r : PlanExecutionResult) (originalReason : string) : M EState answer :=
  let! ctx := withTimeout wall Background (Enforcer_rollbackTimeout enforcer) in
  let! undone := eachM (fun o => runOperation ctx o true) (omap id (Plan_Rollback p)) in
  let r := addRollbacks undone r in
  if forallb OR_Succeeded undone
  then Enforcer_complete r PlanStatusRolledBack originalReason
  else Enforcer_complete r PlanStatusFailed "AF-PLAN-ROLLBACK-INCOMPLETE".

(** A phase of checks: the results so far, and whether every required check
    passed; the loop ends at the first that did not. *)
Fixpoint runChecks (ctx : ctxT) (checks : list PCheck) : M EState (list CheckResult * bool) :=
  match checks with
  | [] => retM ([], true)
  | c :: rest =>
      let! r := runCheck ctx c in
      if PCheck_Required c && negb (CR_Outcome r =? CheckOutcomePassed) then retM ([r], false)
      else
        let! more := runChecks ctx rest in
        retM (r :: fst more, snd more)
  end.

Fixpoint runActions (ctx : ctxT) (operations : list POperation) : M EState (list OperationResult * bool) :=
  match operations with
  | [] => retM ([], true)
  | o :: rest =>
      let! r := runOperation ctx o false in
      if negb (OR_Succeeded r) then retM ([r], false)
      else
        let! more := runActions ctx rest in
        retM (r :: fst more, snd more)
  end.

(** The part of [Apply] after a fresh reservation. A nil element was refused
    by the validation. *)
Definition execute (ctx : ctxT) (p : Plan) (r : PlanExecutionResult) : M EState answer :=
  let! pre := runChecks ctx (omap id (Plan_Preconditions p)) in
  let r := addPreconditions (fst pre) r in
  if negb (snd pre) then Enforcer_complete r PlanStatusRejected "AF-PLAN-PRECONDITION-FAILED" else
  let! acted := runActions ctx (omap id (Plan_Actions p)) in
  let r := addOperations (fst acted) r in
  if negb (snd acted) then Enforcer_rollback p r "AF-PLAN-ACTION-FAILED" else
  let! verified := runChecks ctx (omap id (Plan_Verifications p)) in
  let r := addVerifications (fst verified) r in
  if negb (snd verified) then Enforcer_rollback p r "AF-PLAN-VERIFICATION-FAILED" else
  Enforcer_complete r PlanStatusCommitted "AF-PLAN-COMMITTED".

Definition ErrPersistedResult : error := errorsNew "persisted plan result failed signature or reservation validation".

(** A refusal before anything ran: a signed REJECTED result with an error. *)
Definition rejected (r : PlanExecutionResult) (reason : string) (instant : time) : answer :=
  match Enforcer_finish r PlanStatusRejected reason instant with
  | Err e => (None, Some e)
  | Ok terminal => (Some terminal, Some ErrPlanRejected)
  end.

Definition reservationOf (p : Plan) : PlanReservation :=
  mkPlanReservation (Plan_Id p) (planFingerprint p) (Plan_PolicyRevision p) (Plan_Revision p).

Definition Enforcer_Apply (ctx : ctxT) (input : option Plan) : M EState answer :=
  match input with
  | None => retM (None, Some ErrPlanRequired)
  | Some p =>
      let! instant := now clock in
      let r := mkResult (Plan_Id p) (Enforcer_nodeID enforcer) (Plan_Revision p) 0 [] [] [] [] None EmptyString None false in
      match validatePlan sizePlan marshalPlan enforcer p instant with
      | Err reason => retM (rejected r (reasonCode reason) instant)
      | Ok _ =>
          let! reserved := attempt (onStore (State_Reserve ctx (reservationOf p))) in
          match reserved with
          | Err e =>
              let reason := if bool_decide (e = ErrPlanReplay) then "AF-PLAN-REPLAY"
                            else if bool_decide (e = ErrPlanInProgress) then "AF-PLAN-IN-PROGRESS"
                            else "AF-PLAN-STATE-UNAVAILABLE" in
              retM (rejected r reason instant)
          | Ok (Some existing) =>
              if negb (eqs (Result_PlanId existing) (Plan_Id p)) || negb (Result_PlanRevision existing =? Plan_Revision p)
                 || negb (eqs (Result_NodeId existing) (Enforcer_nodeID enforcer))
                 || negb (is_ok (VerifyExecutionResult existing (Public (Enforcer_nodePrivateKey enforcer))))
              then retM (None, Some ErrPersistedResult)
              else retM (Some existing, None)
          | Ok None => execute ctx p r
          end
      end
  end.

End Transaction.
