(* ===== verification/StateFile.v ===== *)
(** * The durable plan state (agent/enforcement/file_state_linux.go)

    [FileStateStore] is the replay boundary of the enforcer that survives a
    restart: reservations, revisions and terminal results in one file of a
    private directory (Directory.v), read and written under a lock.

    [encoding/json] and the protobuf encoding of a result are parameters, with
    their documented round trips as laws ([StateCodec]). *)

From S2P Require Import Prelude Directory Sha256 Digest Contract JournalFile Plan Policy Enforcement EnforcementRun.
From stdpp Require Import base gmap list strings.
From Stdlib Require Import ZArith Lia.

Open Scope Z_scope.

(** ** The persisted form *)

Definition fileStateSchema : string := "antiflock.plan-state/v1".
Definition maximumFileStateBytes : Z := Z.shiftl 8 20.

Record persistedFileRecord : Type := mkFileRecord {
  FR_Reservation : PlanReservation;
  FR_Result : list Z;
}.

(** [None] is Go's nil map. *)
Record persistedFileState : Type := mkFileState {
  FS_SchemaVersion : string;
  FS_LastPolicyRevision : Z;
  FS_LastPlanRevision : Z;
  FS_Records : option (gmap string persistedFileRecord);
}.

Definition fileRecords (s : persistedFileState) : gmap string persistedFileRecord := default ∅ (FS_Records s).

(** ** The codec

    The laws hold for ASCII strings, unsigned 64-bit numbers and byte slices:
    what [json.Marshal] writes is not empty, decodes to the same value with
    nothing left, and is at least as long as each slice it carries in base 64;
    a marshalled protobuf message unmarshals to itself, and is not empty when
    one of its fields is set. *)

Definition plainReservation (r : PlanReservation) : Prop :=
  ascii (PR_PlanID r) /\ ascii (PR_Fingerprint r) /\ u64 (PR_PolicyRevision r) /\ u64 (PR_PlanRevision r).

Definition plainState (s : persistedFileState) : Prop :=
  ascii (FS_SchemaVersion s) /\ u64 (FS_LastPolicyRevision s) /\ u64 (FS_LastPlanRevision s) /\ isSome (FS_Records s) = true /\
  map_Forall (fun id rec => ascii id /\ plainReservation (FR_Reservation rec) /\ Forall is_byte (FR_Result rec)) (fileRecords s).

Class StateCodec : Type := {
  stateMarshal : persistedFileState -> list Z;
  stateDecode : list Z -> option (persistedFileState * list Z);
  resultMarshal : PlanExecutionResult -> option (list Z);
  resultUnmarshal : list Z -> option PlanExecutionResult;
  state_roundtrip : forall s, plainState s -> stateMarshal s <> [] /\ stateDecode (stateMarshal s) = Some (s, []);
  state_carries : forall s id rec, fileRecords s !! id = Some rec -> len (FR_Result rec) <= len (stateMarshal s);
  result_roundtrip : forall r b, resultMarshal r = Some b -> Forall is_byte b /\ resultUnmarshal b = Some r;
  result_nonempty : forall r b, resultMarshal r = Some b -> Result_PlanId r <> EmptyString -> b <> [];
}.

(** ** Errors *)

Definition ErrStateDirectoryRequired : error := errorsNew "plan state directory is required".
Definition ErrStateResolve : error := errorsNew "resolve plan state directory".
Definition ErrStateCreateDirectory : error := errorsNew "create plan state directory".
Definition ErrStateTraverse : error := errorsNew "plan state directory must not traverse symlinks".
Definition ErrStatePathNotPrivate : error := errorsNew "plan state path is not a private directory".
Definition ErrStateRestrict : error := errorsNew "restrict plan state directory".
Definition ErrReservationShape : error := errorsNew "plan reservation is invalid".
Definition ErrPersistedInvalid : error := errorsNew "persisted plan result is invalid".
Definition ErrTerminalUnknown : error := errorsNew "terminal plan result contains unknown fields".
Definition ErrEncodeTerminal : error := errorsNew "encode terminal plan result".
Definition ErrOpenStateDirectory : error := errorsNew "open plan state directory".
Definition ErrStateDirectoryMode : error := errorsNew "plan state directory is not private".
Definition ErrOpenStateLock : error := errorsNew "open plan state lock".
Definition ErrStateLockNotPrivate : error := errorsNew "plan state lock is not a private regular file".
Definition ErrAcquireStateLock : error := errorsNew "acquire plan state lock".
Definition ErrNoEntry : error := errorsNew "no such file or directory".
Definition ErrOpenState : error := errorsNew "open plan state".
Definition ErrStateNotPrivate : error := errorsNew "plan state is not a private regular file".
Definition ErrReadState : error := errorsNew "read plan state".
Definition ErrDecodeState : error := errorsNew "decode plan state".
Definition ErrStateTrailing : error := errorsNew "plan state contains trailing data".
Definition ErrStateSchema : error := errorsNew "plan state schema is invalid".
Definition ErrStateRecord : error := errorsNew "plan state record is invalid".
Definition ErrStateMismatch : error := errorsNew "persisted plan result does not match its reservation".
Definition ErrStateInvalid : error := errorsNew "plan state is invalid".
Definition ErrEncodeState : error := errorsNew "encode plan state".
Definition ErrStateCreateStage : error := errorsNew "create plan state stage".
Definition ErrStateRestrictStage : error := errorsNew "restrict plan state stage".
Definition ErrStateWriteStage : error := errorsNew "write plan state stage".
Definition ErrStateSyncStage : error := errorsNew "sync plan state stage".
Definition ErrStateCloseStage : error := errorsNew "close plan state stage".
Definition ErrStateInstall : error := errorsNew "install plan state".
Definition ErrStateSyncDirectory : error := errorsNew "sync plan state directory".

Section FileStateStore.
Context {SC : StateCodec}.
Context (sysFails : nat -> bool) (contention : nat -> nat * bool).

Abbreviation MD := (M directory).

(** ** Load and save *)

Definition validateReservation (r : PlanReservation) : result unit :=
  reject eqs (PR_PlanID r) EmptyString || (128 <? slen (PR_PlanID r)) || negb (trimmed (PR_PlanID r))
         || eqs (PR_Fingerprint r) EmptyString || (256 <? slen (PR_Fingerprint r)) || negb (trimmed (PR_Fingerprint r))
         || (PR_PolicyRevision r =? 0) || (PR_PlanRevision r =? 0) with ErrReservationShape;
  Ok tt.

Definition checkFileRecord (entry : string * persistedFileRecord) : result unit :=
  let '(id, rec) := entry in
  reject negb (eqs id (PR_PlanID (FR_Reservation rec))) || negb (is_ok (validateReservation (FR_Reservation rec)))
         || (maximumFileStateBytes <? len (FR_Result rec)) with ErrStateRecord;
  if len (FR_Result rec) =? 0 then Ok tt else
  match resultUnmarshal (FR_Result rec) with
  | None => Err ErrStateMismatch
  | Some r => reject negb (resultKnown r) || negb (eqs (Result_PlanId r) (PR_PlanID (FR_Reservation rec)))
                     || negb (Result_PlanRevision r =? PR_PlanRevision (FR_Reservation rec)) with ErrStateMismatch;
              Ok tt
  end.

(** From the bytes read to the checked state. Which of two bad records is
    reported depends on Go's map order; no caller tells the errors apart. *)
Definition decodeState (content : list Z) : result persistedFileState :=
  reject (len content =? 0) || (maximumFileStateBytes <? len content) with ErrReadState;
  match stateDecode content with
  | None => Err ErrDecodeState
  | Some (state, rest) =>
      reject negb (onlySpace rest) with ErrStateTrailing;
      reject negb (eqs (FS_SchemaVersion state) fileStateSchema) || negb (isSome (FS_Records state)) with ErrStateSchema;
      ensure each checkFileRecord (map_to_list (fileRecords state));
      Ok state
  end.

Definition emptyState : persistedFileState := mkFileState fileStateSchema 0 0 (Some ∅).

Definition state_load : MD persistedFileState :=
  let! opened := attempt (openFileNoFollow sysFails ErrNoEntry ErrOpenState ErrStateNotPrivate) in
  match opened with
  | Err e => if bool_decide (e = ErrNoEntry) then retM emptyState else failM e
  | Ok content =>
      run! syscall sysFails ErrReadState id in
      liftR (decodeState (take (Z.to_nat (maximumFileStateBytes + 1)) content))
  end.

Definition stateErrors : stageErrors :=
  mkStageErrors ErrStateCreateStage ErrStateRestrictStage ErrStateWriteStage ErrStateSyncStage ErrStateCloseStage
    ErrStateInstall ErrOpenStateDirectory ErrStateSyncDirectory.

Definition state_save (state : persistedFileState) : MD unit :=
  if negb (eqs (FS_SchemaVersion state) fileStateSchema) || negb (isSome (FS_Records state)) then failM ErrStateInvalid else
  let content := stateMarshal state in
  if (len content =? 0) || (maximumFileStateBytes <? len content) then failM ErrEncodeState else
  installContent sysFails stateErrors content.

Definition state_lock (ctx : ctxT) : MD unit :=
  run! ctxErr ctx in
  let! d := getS in
  if negb (bool_decide (dir_kind d = Directory)) then failM ErrOpenStateDirectory else
  run! syscall sysFails ErrOpenStateDirectory id in
  run! syscall sysFails ErrStateDirectoryMode id in
  if negb (dir_mode d =? perm_0700) then failM ErrStateDirectoryMode else
  run! openLockFile sysFails ErrOpenStateLock ErrStateLockNotPrivate in
  acquireLock contention ErrAcquireStateLock ctx.

(** ** The StateStore interface *)

Definition putRecord (state : persistedFileState) (policy plan : Z) (id : string) (rec : persistedFileRecord) : persistedFileState :=
  mkFileState (FS_SchemaVersion state) policy plan (Some (<[ id := rec ]> (fileRecords state))).

Definition FileStateStore_Reserve (ctx : ctxT) (r : PlanReservation) : MD (option PlanExecutionResult) :=
  if negb (is_ok (validateReservation r)) then failM ErrPlanReplay else
  run! state_lock ctx in
  deferM unlock (
    let! state := state_load in
    match fileRecords state !! PR_PlanID r with
    | Some existing =>
        if negb (bool_decide (FR_Reservation existing = r)) then failM ErrPlanReplay
        else if len (FR_Result existing) =? 0 then failM ErrPlanInProgress
        else match resultUnmarshal (FR_Result existing) with
             | None => failM ErrPersistedInvalid
             | Some result => if resultKnown result then retM (Some result) else failM ErrPersistedInvalid
             end
    | None =>
        if (PR_PolicyRevision r <? FS_LastPolicyRevision state) || (PR_PlanRevision r <=? FS_LastPlanRevision state)
        then failM ErrPlanReplay
        else
          run! state_save (putRecord state (PR_PolicyRevision r) (PR_PlanRevision r) (PR_PlanID r) (mkFileRecord r [])) in
          retM None
    end).

Definition FileStateStore_Complete (ctx : ctxT) (result : PlanExecutionResult) : MD unit :=
  if eqs (Result_PlanId result) EmptyString || (Result_PlanRevision result =? 0) then failM ErrTerminalResult else
  run! ctxErr ctx in
  if negb (resultKnown result) then failM ErrTerminalUnknown else
  match resultMarshal result with
  | None => failM ErrEncodeTerminal
  | Some canonical =>
      run! state_lock ctx in
      deferM unlock (
        let! state := state_load in
        match fileRecords state !! Result_PlanId result with
        | None => failM ErrNoReservation
        | Some record =>
            if negb (PR_PlanRevision (FR_Reservation record) =? Result_PlanRevision result) then failM ErrNoReservation
            else if negb (len (FR_Result record) =? 0) then
              if bool_decide (FR_Result record = canonical) then retM tt else failM ErrPlanReplay
            else
              state_save (putRecord state (FS_LastPolicyRevision state) (FS_LastPlanRevision state) (Result_PlanId result)
                (mkFileRecord (FR_Reservation record) canonical))
        end)
  end.

Definition FileStateStore_Revisions (ctx : ctxT) : MD (Z * Z) :=
  run! state_lock ctx in
  deferM unlock (
    let! state := state_load in
    retM (FS_LastPolicyRevision state, FS_LastPlanRevision state)).

#[export] Instance FileStateStore_ops : StateStore directory := {|
  State_Reserve := FileStateStore_Reserve;
  State_Complete := FileStateStore_Complete;
|}.

(** [NewFileStateStore] on a path that is [blank] or not: the directory is
    created when absent and restricted, never reached through a symlink. *)
Definition NewFileStateStore (blank : bool) : MD unit :=
  if blank then failM ErrStateDirectoryRequired else
  run! syscall sysFails ErrStateResolve id in
  let! d := getS in
  if bool_decide (dir_kind d = NotDirectory) then failM ErrStateCreateDirectory else
  run! syscall sysFails ErrStateCreateDirectory (fun d =>
    if bool_decide (dir_kind d = Absent) then set_entry_kind Directory perm_0700 d else d) in
  run! syscall sysFails ErrStateTraverse id in
  let! d := getS in
  if dir_linked d || bool_decide (dir_kind d = DirectoryLink) then failM ErrStateTraverse else
  run! syscall sysFails ErrStatePathNotPrivate id in
  if negb (bool_decide (dir_kind d = Directory)) then failM ErrStatePathNotPrivate else
  syscall sysFails ErrStateRestrict (fun d => set_entry_kind (dir_kind d) perm_0700 d).

End FileStateStore.
