(* ===== verification/Posture.v ===== *)
(** * The posture engine (core/posture/engine.go)

    From the facts a node reported to a protection snapshot: one state, the
    reasons for it, a confidence and an instant until which it holds. The text
    of a time ([time.RFC3339Nano]) is a parameter. *)

From S2P Require Import Prelude Sha256 Digest Plan.
From stdpp Require Import base list strings sorting pretty.
From Stdlib Require Import ZArith Lia.

Open Scope Z_scope.

(** ** Messages *)

Definition StateProtected : Z := 1.
Definition StateExposed : Z := 4.
Definition StateUnknown : Z := 5.
Definition EnforcementAllowing : Z := 4.
Definition EnforcementHolding : Z := 5.

Record EvidenceClaim : Type := mkClaim {
  Claim_Id : string;
  Claim_ReasonCode : string;
  Claim_Statement : string;
  Claim_Classification : Z;
  Claim_Confidence : Z;
  Claim_Explanation : string;
  Claim_RecommendedResponse : string;
}.

Record PostureReason : Type := mkReason {
  Reason_RuleId : string;
  Reason_ReasonCode : string;
  Reason_ContributedState : Z;
  Reason_CurrentFact : string;
  Reason_ExpectedFact : string;
  Reason_Claim : option EvidenceClaim;
}.

Record ProtectionSnapshot : Type := mkProtection {
  Protection_Id : string;
  Protection_DeploymentId : string;
  Protection_NodeId : string;
  Protection_PolicyId : string;
  Protection_PolicyRevision : Z;
  Protection_State : Z;
  Protection_EnforcementState : Z;
  Protection_EvaluatedAt : option Timestamp;
  Protection_ValidUntil : option Timestamp;
  Protection_Reasons : list (option PostureReason);
  Protection_Confidence : Z;
  Protection_RecommendedResponse : string;
  Protection_EvidenceProvenance : Z;
}.

(** ** Input *)

Record Fact : Type := mkFact {
  Fact_Known : bool;
  Fact_Value : bool;
  Fact_Classification : Z;
  Fact_Confidence : Z;              (** the bits of the [float32] *)
  Fact_ObservedAt : time;
  Fact_Explanation : string;
}.

Record PostureInput : Type := mkInput {
  Input_DeploymentID : string;
  Input_NodeID : string;
  Input_PolicyID : string;
  Input_PolicyRevision : Z;
  Input_EvaluatedAt : time;
  Input_TelemetryAt : time;
  Input_NetworkTrust : string;
  Input_RequireMeshOnUntrusted : bool;
  Input_MeshConnected : Fact;
  Input_ApprovedExitActive : Fact;
  Input_DNSProtected : Fact;
  Input_RouteProtected : Fact;
}.

Definition ReasonTelemetryUnavailable : string := "AF-TELEMETRY-UNAVAILABLE".
Definition ReasonTelemetryStale : string := "AF-TELEMETRY-STALE".
Definition ReasonMeshDisconnected : string := "AF-MESH-DISCONNECTED".
Definition ReasonExitUnverified : string := "AF-EGRESS-EXIT-UNVERIFIED".
Definition ReasonDNSUnprotected : string := "AF-DNS-UNPROTECTED".
Definition ReasonRouteUnprotected : string := "AF-ROUTE-UNPROTECTED".
Definition ReasonNetworkTrustUnknown : string := "AF-NETWORK-TRUST-UNKNOWN".
Definition ReasonProtected : string := "AF-PROTECTION-VERIFIED".

Definition ErrPostureFreshness : error := errorsNew "posture telemetry freshness must be between zero and 30 minutes".
Definition ErrPostureIdentity : error := errorsNew "posture deployment, node, policy, and revision are required".
Definition ErrPostureTime : error := errorsNew "posture evaluation time is required".
Definition ErrPostureFact : error := errorsNew "posture fact".

(** [New]: an engine is its freshness window. *)
Definition NewPosture (staleAfter : Z) : result Z :=
  reject (staleAfter <=? 0) || (30 * Minute <? staleAfter) with ErrPostureFreshness;
  Ok staleAfter.

Definition enforcementFor (state : Z) : Z :=
  if state =? StateProtected then EnforcementAllowing else EnforcementHolding.

Definition recommendation (state : Z) : string :=
  if state =? StateProtected then "Continue monitoring the verified path."
  else "Hold protected egress until the required path controls are restored and verified.".

Definition reason (code : string) (state : Z) (current expected : string) (class confidence : Z) : PostureReason :=
  mkReason "antiflock.guard.v1" code state current expected
    (Some (mkClaim ("claim_" +:+ code) code current class confidence current (recommendation state))).

Definition minConfidence (left right : Z) : Z := if float32_lt right left then right else left.

Definition validFact (fact : Fact) (now : time) (staleAfter : Z) : bool :=
  negb ((Fact_Classification fact =? 0) || float32_nan (Fact_Confidence fact) || float32_inf (Fact_Confidence fact)
        || float32_negative (Fact_Confidence fact) || float32_above_one (Fact_Confidence fact) || IsZero (Fact_ObservedAt fact))
  && (let age := Sub now (Fact_ObservedAt fact) in (- (5 * Minute) <=? age) && (age <=? staleAfter)).

(** ** The evaluation *)

(** A control the policy may require. *)
Record postureCheck : Type := mkPostureCheck {
  Check_required : bool;
  Check_fact : Fact;
  Check_code : string;
  Check_current : string;
  Check_expected : string;
}.

Definition postureChecks (input : PostureInput) : list postureCheck :=
  let untrusted := eqs (Input_NetworkTrust input) "UNTRUSTED" in
  [ mkPostureCheck (untrusted && Input_RequireMeshOnUntrusted input) (Input_MeshConnected input) ReasonMeshDisconnected
      "The approved private mesh is not connected." "The approved private mesh must be connected on an untrusted network.";
    mkPostureCheck untrusted (Input_ApprovedExitActive input) ReasonExitUnverified
      "The approved exit path is not active and verified." "Traffic must use an approved verified exit on an untrusted network.";
    mkPostureCheck untrusted (Input_DNSProtected input) ReasonDNSUnprotected
      "DNS protection is not active and verified." "DNS must use the protected path on an untrusted network.";
    mkPostureCheck untrusted (Input_RouteProtected input) ReasonRouteUnprotected
      "The protected route is not active and verified." "The protected route must be active on an untrusted network." ].

(** What the evaluation carries from guard to guard. *)
Record assessment : Type := mkAssessment {
  A_state : Z;
  A_reasons : list PostureReason;
  A_confidence : Z;
  A_requiredFacts : Z;
  A_allVerified : bool;
}.

Definition worsen (state : Z) : Z := if state =? StateProtected then StateUnknown else state.

Definition assessTelemetry (staleAfter : Z) (input : PostureInput) (a : assessment) : assessment :=
  if IsZero (Input_TelemetryAt input) then
    mkAssessment StateUnknown
      (A_reasons a ++ [reason ReasonTelemetryUnavailable StateUnknown "No current endpoint telemetry is available."
                         "Fresh signed endpoint telemetry is required." ClassUnknown float32_zero])
      (A_confidence a) (A_requiredFacts a) (A_allVerified a)
  else
    let age := Sub (Input_EvaluatedAt input) (Input_TelemetryAt input) in
    if (age <? - (5 * Minute)) || (staleAfter <? age) then
      mkAssessment StateUnknown
        (A_reasons a ++ [reason ReasonTelemetryStale StateUnknown "The latest endpoint telemetry is outside the freshness window."
                           "Fresh signed endpoint telemetry is required." ClassDetected float32_one])
        (A_confidence a) (A_requiredFacts a) (A_allVerified a)
    else a.

Definition assessTrust (input : PostureInput) (a : assessment) : assessment :=
  if negb (eqs (Input_NetworkTrust input) "TRUSTED") && negb (eqs (Input_NetworkTrust input) "UNTRUSTED") then
    mkAssessment (worsen (A_state a))
      (A_reasons a ++ [reason ReasonNetworkTrustUnknown StateUnknown "The current network trust classification is unknown."
                         "The network must be classified before protection can be verified." ClassUnknown float32_zero])
      float32_zero (A_requiredFacts a) (A_allVerified a)
  else a.

Definition assessCheck (staleAfter : Z) (now : time) (a : assessment) (c : postureCheck) : result assessment :=
  if negb (Check_required c) then Ok a else
  let fact := Check_fact c in
  if negb (Fact_Known fact) then
    Ok (mkAssessment (worsen (A_state a))
          (A_reasons a ++ [reason (Check_code c) StateUnknown "The control state is unknown." (Check_expected c) ClassUnknown float32_zero])
          float32_zero (A_requiredFacts a + 1) (A_allVerified a))
  else
    reject negb (validFact fact now staleAfter) with ErrPostureFact;
    let verified := A_allVerified a && (Fact_Classification fact =? ClassVerified) in
    let confidence := minConfidence (A_confidence a) (Fact_Confidence fact) in
    if negb (Fact_Value fact) then
      Ok (mkAssessment StateExposed
            (A_reasons a ++ [reason (Check_code c) StateExposed (Check_current c) (Check_expected c) (Fact_Classification fact) (Fact_Confidence fact)])
            confidence (A_requiredFacts a + 1) verified)
    else Ok (mkAssessment (A_state a) (A_reasons a) confidence (A_requiredFacts a + 1) verified).

Fixpoint assessChecks (staleAfter : Z) (now : time) (a : assessment) (checks : list postureCheck) : result assessment :=
  match checks with
  | [] => Ok a
  | c :: rest => do a <- assessCheck staleAfter now a c; assessChecks staleAfter now a rest
  end.

Definition assessProtected (a : assessment) : assessment :=
  if A_state a =? StateProtected then
    let class := if (0 <? A_requiredFacts a) && A_allVerified a then ClassVerified else ClassDetected in
    mkAssessment (A_state a)
      (A_reasons a ++ [reason ReasonProtected StateProtected "Mesh, approved exit, DNS, and route checks meet the active policy."
                         "All required path controls must remain verified." class (A_confidence a)])
      (A_confidence a) (A_requiredFacts a) (A_allVerified a)
  else a.

(** [sort.Slice] by reason code; the codes of one evaluation are distinct. *)
Definition reason_le (r s : PostureReason) : Prop := String.le (Reason_ReasonCode r) (Reason_ReasonCode s).
#[export] Instance reason_le_dec r s : Decision (reason_le r s).
Proof. unfold reason_le. apply _. Defined.
Definition sortReasons (l : list PostureReason) : list PostureReason := merge_sort reason_le l.

Section Posture.
Context {H : Hasher} (RFC3339Nano : time -> string).

Definition snapshotID (input : PostureInput) (state : Z) (reasons : list PostureReason) : string :=
  "posture_" +:+ hexEncode (take 16 (sum256 (
    bytes_of (Input_DeploymentID input) ++ [0] ++ bytes_of (Input_NodeID input) ++ [0] ++ bytes_of (Input_PolicyID input) ++ [0]
    ++ bytes_of (pretty (Z.to_N (Input_PolicyRevision input))) ++ [0] ++ bytes_of (pretty (Z.to_N state)) ++ [0]
    ++ bytes_of (RFC3339Nano (Input_EvaluatedAt input))
    ++ flat_map (fun r => 0 :: bytes_of (Reason_ReasonCode r)) reasons))).

Definition Posture_Evaluate (staleAfter : Z) (input : PostureInput) : result ProtectionSnapshot :=
  reject eqs (Input_DeploymentID input) EmptyString || eqs (Input_NodeID input) EmptyString || eqs (Input_PolicyID input) EmptyString
         || (Input_PolicyRevision input =? 0) with ErrPostureIdentity;
  reject IsZero (Input_EvaluatedAt input) with ErrPostureTime;
  let a := mkAssessment StateProtected [] float32_one 0 true in
  let a := assessTelemetry staleAfter input a in
  let a := assessTrust input a in
  do a <- assessChecks staleAfter (Input_EvaluatedAt input) a (postureChecks input);
  let a := assessProtected a in
  let reasons := sortReasons (A_reasons a) in
  Ok (mkProtection (snapshotID input (A_state a) reasons) (Input_DeploymentID input) (Input_NodeID input) (Input_PolicyID input)
        (Input_PolicyRevision input) (A_state a) (enforcementFor (A_state a)) (Some (Timestamp_New (Input_EvaluatedAt input)))
        (Some (Timestamp_New (Input_EvaluatedAt input + staleAfter))) (Some <$> reasons) (A_confidence a) (recommendation (A_state a)) 0).
End Posture.
