(* ===== verification/Gate.v ===== *)
(** * The action gate (core/actions/gate.go)

    A protected action is allowed while its node is protected, held while it
    is not, blocked outside policy, and, where the policy permits, authorized
    once on a decision that was held. Decisions are bound to the request and
    the snapshot with a keyed hash.

    [encoding/json], the text of a time and the protobuf encoding of a snapshot
    are parameters. *)

From S2P Require Import Prelude Sha256 Digest Library Probe Plan Policy Posture.
From stdpp Require Import base list strings sorting pretty.
From Stdlib Require Import ZArith Lia.

Open Scope Z_scope.

(** ** Messages *)

Definition DecisionAllow : Z := 1.
Definition DecisionHold : Z := 2.
Definition DecisionBlock : Z := 3.
Definition DecisionRequireConsent : Z := 4.
Definition DecisionAllowOnce : Z := 5.
Definition StatusHeld : Z := 2.
Definition StatusAllowed : Z := 3.
Definition StatusBlocked : Z := 4.
Definition StatusBypassed : Z := 5.
Definition ProvenanceLive : Z := 1.
Definition ProvenanceSimulation : Z := 2.

Record SecureActionRequest : Type := mkActionRequest {
  Action_Id : string;
  Action_ApplicationId : string;
  Action_NodeId : string;
  Action_ActionType : string;
  Action_Destinations : list string;
  Action_DataClass : string;
  Action_Sensitivity : Z;
  Action_Deadline : option Timestamp;
  Action_OperationId : string;
}.

Record SecureActionDecision : Type := mkDecision {
  Decision_ActionId : string;
  Decision_Decision : Z;
  Decision_Status : Z;
  Decision_Protection : option ProtectionSnapshot;
  Decision_ReasonCodes : list string;
  Decision_Authorization : string;
  Decision_ExpiresAt : option Timestamp;
  Decision_UserMessage : string;
  Decision_RecommendedResponse : string;
  Decision_RequestBinding : string;
}.

(** [String] of the two enumerations; a number outside them prints itself. *)
Definition sensitivityName (v : Z) : string :=
  if v =? 0 then "SENSITIVITY_UNSPECIFIED" else if v =? 1 then "SENSITIVITY_PUBLIC" else if v =? 2 then "SENSITIVITY_INTERNAL"
  else if v =? 3 then "SENSITIVITY_OPERATOR_PRIVATE" else if v =? 4 then "SENSITIVITY_RESTRICTED"
  else if v =? 5 then "SENSITIVITY_SECRET" else pretty v.

Definition decisionName (v : Z) : string :=
  if v =? 0 then "SECURE_ACTION_DECISION_TYPE_UNSPECIFIED" else if v =? DecisionAllow then "SECURE_ACTION_DECISION_TYPE_ALLOW"
  else if v =? DecisionHold then "SECURE_ACTION_DECISION_TYPE_HOLD" else if v =? DecisionBlock then "SECURE_ACTION_DECISION_TYPE_BLOCK"
  else if v =? DecisionRequireConsent then "SECURE_ACTION_DECISION_TYPE_REQUIRE_CONSENT"
  else if v =? DecisionAllowOnce then "SECURE_ACTION_DECISION_TYPE_ALLOW_ONCE" else pretty v.

(** ** The policy and the gate *)

Record ActionGatePolicy : Type := mkGatePolicy {
  GP_NodeIDs : list string;
  GP_ApplicationIDs : list string;
  GP_ActionTypes : list string;
  GP_DataClasses : list string;
  GP_Sensitivities : list string;
  GP_AllowedDestinations : list string;
  GP_AllowOneTimeBypass : bool;
  GP_OneTimeBypassTTL : Z;
}.

Record Gate : Type := mkGate { Gate_policy : ActionGatePolicy; Gate_key : list Z }.

Definition ErrGateKey : error := errorsNew "action authorization key must contain at least 32 bytes".
Definition ErrGateTTL : error := errorsNew "one-time bypass TTL must be positive and no more than 15 minutes".
Definition ErrGateDimension : error := errorsNew "every protected action policy dimension must be explicit".
Definition ErrGateSnapshotRequired : error := errorsNew "action request and protection snapshot are required".
Definition ErrGateSnapshot : error := errorsNew "protection snapshot is not valid for the action node".
Definition ErrGateDeadline : error := errorsNew "action deadline is invalid".
Definition ErrGatePrior : error := errorsNew "action request and prior decision are required".
Definition ErrGateConsent : error := errorsNew "an enabled policy and explicit operator consent are required".
Definition ErrGateIneligible : error := errorsNew "prior action decision is not eligible for one-time consent".
Definition ErrGatePriorExpiry : error := errorsNew "prior action decision expiry is invalid".
Definition ErrGateBinding : error := errorsNew "prior action decision does not match the complete action request".
Definition ErrGateScope : error := errorsNew "one-time action scope is outside policy".
Definition ErrGateDestinations : error := errorsNew "authorized destinations do not exactly match the action scope".
Definition ErrGateExpiry : error := errorsNew "one-time authorization expiry is outside policy".
Definition ErrGateExpired : error := errorsNew "the action deadline has expired".
Definition ErrGateExceeds : error := errorsNew "one-time authorization expiry exceeds the action deadline".
Definition ErrActionFields : error := errorsNew "action request contains empty or unspecified required fields".
Definition ErrActionDestination : error := errorsNew "action request contains an empty destination".

Definition NewGate (policy : ActionGatePolicy) (authorizationKey : list Z) : result Gate :=
  reject len authorizationKey <? 32 with ErrGateKey;
  reject (GP_OneTimeBypassTTL policy <=? 0) || (15 * Minute <? GP_OneTimeBypassTTL policy) with ErrGateTTL;
  reject existsb (fun values => len values =? 0)
           [GP_NodeIDs policy; GP_ApplicationIDs policy; GP_ActionTypes policy; GP_DataClasses policy; GP_Sensitivities policy;
            GP_AllowedDestinations policy] with ErrGateDimension;
  Ok (mkGate policy authorizationKey).

Definition contains (values : list string) (wanted : string) : bool := existsb (eqs wanted) values.

Definition policyMatches (values : list string) (wanted : string) : bool := contains values "*" || contains values wanted.

Definition validSensitivity (v : Z) : bool := (1 <=? v) && (v <=? 5).

Definition validExecutionProvenance (v : Z) : bool := (v =? ProvenanceLive) || (v =? ProvenanceSimulation).

Definition validateActionRequest (q : SecureActionRequest) : result unit :=
  reject eqs (Action_Id q) EmptyString || eqs (Action_OperationId q) EmptyString || eqs (Action_ApplicationId q) EmptyString
         || eqs (Action_NodeId q) EmptyString || eqs (Action_ActionType q) EmptyString || eqs (Action_DataClass q) EmptyString
         || (len (Action_Destinations q) =? 0) || negb (validSensitivity (Action_Sensitivity q)) with ErrActionFields;
  reject existsb (fun d => eqs d EmptyString) (Action_Destinations q) with ErrActionDestination;
  reject match Action_Deadline q with Some t => negb (Timestamp_CheckValid t) | None => false end with ErrGateDeadline;
  Ok tt.

(** The five scalar dimensions of the policy. *)
Definition dimensionsMatch (gate : Gate) (q : SecureActionRequest) : bool :=
  let p := Gate_policy gate in
  policyMatches (GP_NodeIDs p) (Action_NodeId q) && policyMatches (GP_ApplicationIDs p) (Action_ApplicationId q)
  && policyMatches (GP_ActionTypes p) (Action_ActionType q) && policyMatches (GP_DataClasses p) (Action_DataClass q)
  && policyMatches (GP_Sensitivities p) (sensitivityName (Action_Sensitivity q)).

Definition destinationsMatch (gate : Gate) (q : SecureActionRequest) : bool :=
  forallb (policyMatches (GP_AllowedDestinations (Gate_policy gate))) (Action_Destinations q).

Definition requestWithinPolicy (gate : Gate) (q : SecureActionRequest) : bool :=
  dimensionsMatch gate q && destinationsMatch gate q && (0 <? len (Action_Destinations q)).

Definition sameStrings (left right : list string) : bool :=
  (len left =? len right) && bool_decide (sort_strings left = sort_strings right).

Definition reasonCodes (s : ProtectionSnapshot) : list string :=
  sort_strings (flat_map (fun r => match r with
                                   | Some r => if eqs (Reason_ReasonCode r) EmptyString then [] else [Reason_ReasonCode r]
                                   | None => []
                                   end) (Protection_Reasons s)).

(** ** Bindings *)

(** The fields of a decision's binding and of a grant, in the order of the
    structures that are marshalled. *)
Record bindingFields : Type := mkBinding {
  Binding_ActionID : string;
  Binding_ApplicationID : string;
  Binding_NodeID : string;
  Binding_OperationID : string;
  Binding_ActionType : string;
  Binding_DataClass : string;
  Binding_Sensitivity : string;
  Binding_Destinations : list string;
  Binding_Deadline : string;
  Binding_Decision : string;
  Binding_DecisionExpiry : string;
  Binding_Snapshot : string;
}.

Record grantFields : Type := mkGrant {
  Grant_ActionID : string;
  Grant_ApplicationID : string;
  Grant_NodeID : string;
  Grant_OperationID : string;
  Grant_ActionType : string;
  Grant_DataClass : string;
  Grant_Sensitivity : string;
  Grant_Destinations : list string;
  Grant_ExpiresAt : string;
  Grant_Uses : Z;
}.

Definition utf8 (s : string) : Prop := validUTF8 (bytes_of s) = true.

Definition utf8Binding (b : bindingFields) : Prop :=
  Forall utf8 ([Binding_ActionID b; Binding_ApplicationID b; Binding_NodeID b; Binding_OperationID b; Binding_ActionType b;
    Binding_DataClass b; Binding_Sensitivity b; Binding_Deadline b; Binding_Decision b; Binding_DecisionExpiry b; Binding_Snapshot b]
    ++ Binding_Destinations b).

(** What the gate relies on: [json.Marshal] of a structure of strings that are
    valid UTF-8 determines them, and the text of a time is ASCII and, for the
    instants a timestamp carries, determines it. *)
Class ActionText : Type := {
  RFC3339Nano : time -> string;
  bindingJSON : bindingFields -> list Z;
  grantJSON : grantFields -> list Z;
  snapshotMarshal : ProtectionSnapshot -> option (list Z);
  RFC3339Nano_inj : forall t u, zeroTime <= t < 253402300800 * Second -> zeroTime <= u < 253402300800 * Second ->
    RFC3339Nano t = RFC3339Nano u -> t = u;
  RFC3339Nano_text : forall t, RFC3339Nano t <> EmptyString /\ utf8 (RFC3339Nano t);
  bindingJSON_inj : forall a b, utf8Binding a -> utf8Binding b -> bindingJSON a = bindingJSON b -> a = b;
}.

Section Gate.
Context {H : Hasher} {T : ActionText}.

Definition timeString (value : time) : string := if IsZero value then EmptyString else RFC3339Nano value.

Definition timestampString (value : option Timestamp) : string :=
  match value with
  | Some t => if Timestamp_CheckValid t then RFC3339Nano (AsTime t) else EmptyString
  | None => EmptyString
  end.

Definition canonicalProto (s : ProtectionSnapshot) : string :=
  match snapshotMarshal s with Some encoded => base64url encoded | None => EmptyString end.

Definition bindingOf (q : SecureActionRequest) (s : ProtectionSnapshot) (kind : Z) (expiresAt : time) : bindingFields :=
  mkBinding (Action_Id q) (Action_ApplicationId q) (Action_NodeId q) (Action_OperationId q) (Action_ActionType q) (Action_DataClass q)
    (sensitivityName (Action_Sensitivity q)) (sort_strings (Action_Destinations q)) (timestampString (Action_Deadline q))
    (decisionName kind) (timeString expiresAt) (canonicalProto s).

Definition decisionBinding (gate : Gate) (q : SecureActionRequest) (s : ProtectionSnapshot) (kind : Z) (expiresAt : time) : string :=
  base64url (hmac256 (Gate_key gate) (bytes_of "AntiFlock-Secure-Action-Request-v1" ++ [0] ++ bindingJSON (bindingOf q s kind expiresAt))).

Definition grantOf (q : SecureActionRequest) (expiresAt : time) : grantFields :=
  mkGrant (Action_Id q) (Action_ApplicationId q) (Action_NodeId q) (Action_OperationId q) (Action_ActionType q) (Action_DataClass q)
    (sensitivityName (Action_Sensitivity q)) (sort_strings (Action_Destinations q)) (RFC3339Nano expiresAt) 1.

Definition authorization (gate : Gate) (q : SecureActionRequest) (expiresAt : time) : string :=
  let payload := grantJSON (grantOf q expiresAt) in
  "af_grant_v1." +:+ base64url payload +:+ "." +:+ base64url (hmac256 (Gate_key gate) payload).

(** ** Decisions *)

(** The map from decisions to statuses, read as Go reads a missing key. *)
Definition statusOf (kind : Z) : Z :=
  if kind =? DecisionAllow then StatusAllowed else if kind =? DecisionHold then StatusHeld
  else if kind =? DecisionBlock then StatusBlocked else if kind =? DecisionRequireConsent then StatusHeld
  else if kind =? DecisionAllowOnce then StatusBypassed else 0.

Definition decision (gate : Gate) (q : SecureActionRequest) (s : ProtectionSnapshot) (kind : Z) (reasons : list string) (expiresAt : time)
    : SecureActionDecision :=
  let told := negb (kind =? DecisionAllow) in
  mkDecision (Action_Id q) kind (statusOf kind) (Some s) reasons EmptyString
    (if IsZero expiresAt then None else Some (Timestamp_New expiresAt))
    (if told then "Protection is not currently verified for this action." else EmptyString)
    (if told then "Restore and verify the protected path, or use an explicitly scoped one-time authorization if policy permits." else EmptyString)
    (decisionBinding gate q s kind expiresAt).

(** [AsTime] of a missing timestamp is the Unix epoch. *)
Definition deadlineOf (q : SecureActionRequest) : time := match Action_Deadline q with Some t => AsTime t | None => 0 end.

Definition Gate_Evaluate (gate : Gate) (request : option SecureActionRequest) (snapshot : option ProtectionSnapshot) (now : time)
    : result SecureActionDecision :=
  match request, snapshot with
  | Some q, Some s =>
      ensure validateActionRequest q;
      reject negb (eqs (Action_NodeId q) (Protection_NodeId s)) || (Protection_PolicyRevision s =? 0)
             || negb (goodTimestamp (Protection_EvaluatedAt s)) || negb (goodTimestamp (Protection_ValidUntil s)) with ErrGateSnapshot;
      if negb (dimensionsMatch gate q) then Ok (decision gate q s DecisionBlock ["AF-ACTION-OUTSIDE-POLICY"] zeroTime) else
      if negb (destinationsMatch gate q) then Ok (decision gate q s DecisionBlock ["AF-DESTINATION-OUTSIDE-POLICY"] zeroTime) else
      let deadline := match Action_Deadline q with Some t => AsTime t | None => now + 30 * Second end in
      if negb (now <? deadline) then Ok (decision gate q s DecisionBlock ["AF-ACTION-DEADLINE-EXPIRED"] zeroTime) else
      if (Protection_State s =? StateProtected)
         && match Protection_ValidUntil s with Some u => now <? AsTime u | None => false end
         && validExecutionProvenance (Protection_EvidenceProvenance s)
      then Ok (decision gate q s DecisionAllow (reasonCodes s) zeroTime)
      else
        let expiresAt := if now + 2 * Minute <? deadline then now + 2 * Minute else deadline in
        let reasons := reasonCodes s in
        Ok (decision gate q s DecisionHold (if len reasons =? 0 then ["AF-PROTECTION-NOT-VERIFIED"] else reasons) expiresAt)
  | _, _ => Err ErrGateSnapshotRequired
  end.

(** ** One-time authorization *)

Definition eligible (kind : Z) : bool := (kind =? DecisionHold) || (kind =? DecisionBlock) || (kind =? DecisionRequireConsent).

Definition withAuthorization (a : string) (d : SecureActionDecision) : SecureActionDecision :=
  mkDecision (Decision_ActionId d) (Decision_Decision d) (Decision_Status d) (Decision_Protection d) (Decision_ReasonCodes d) a
    (Decision_ExpiresAt d) (Decision_UserMessage d) (Decision_RecommendedResponse d) (Decision_RequestBinding d).

Definition AuthorizeOnce (gate : Gate) (request : option SecureActionRequest) (prior : option SecureActionDecision)
    (authorizedDestinations : list string) (expiresAt now : time) (explicitConsent : bool) : result SecureActionDecision :=
  match request, prior with
  | Some q, Some d =>
      match Decision_Protection d with
      | None => Err ErrGatePrior
      | Some s =>
          ensure validateActionRequest q;
          reject negb (GP_AllowOneTimeBypass (Gate_policy gate)) || negb explicitConsent with ErrGateConsent;
          reject negb (eqs (Decision_ActionId d) (Action_Id q)) || negb (eligible (Decision_Decision d)) with ErrGateIneligible;
          reject match Decision_ExpiresAt d with Some t => negb (Timestamp_CheckValid t) | None => false end with ErrGatePriorExpiry;
          let priorExpiry := match Decision_ExpiresAt d with Some t => AsTime t | None => zeroTime end in
          reject eqs (Decision_RequestBinding d) EmptyString
                 || negb (eqs (Decision_RequestBinding d) (decisionBinding gate q s (Decision_Decision d) priorExpiry)) with ErrGateBinding;
          reject negb (requestWithinPolicy gate q) with ErrGateScope;
          reject negb (sameStrings (Action_Destinations q) authorizedDestinations) with ErrGateDestinations;
          reject negb (now <? expiresAt) || (now + GP_OneTimeBypassTTL (Gate_policy gate) <? expiresAt) with ErrGateExpiry;
          reject negb (now <? deadlineOf q) with ErrGateExpired;
          reject deadlineOf q <? expiresAt with ErrGateExceeds;
          Ok (withAuthorization (authorization gate q expiresAt)
                (decision gate q s DecisionAllowOnce ["AF-USER-AUTHORIZED-ONCE"] expiresAt))
      end
  | _, _ => Err ErrGatePrior
  end.
End Gate.
