(* ===== verification/Findings.v ===== *)
(** * Findings (core/findings/service.go)

    The findings of a deployment, opened, refreshed and resolved from the
    reasons of protection snapshots. The service keeps a map under a lock; an
    operation is a function on it. The clones of protobuf messages are the
    messages themselves, values being immutable here. *)

From S2P Require Import Prelude Probe Plan Posture.
From stdpp Require Import base gmap list strings sorting.
From Stdlib Require Import ZArith Lia.

Open Scope Z_scope.

Definition FindingOpen : Z := 1.
Definition FindingResolved : Z := 3.
Definition FindingUnspecified : Z := 0.
Definition SeverityMedium : Z := 3.
Definition SeverityHigh : Z := 4.

(** ** Messages *)

Record Finding : Type := mkFinding {
  Finding_Id : string;              (** [Metadata] *)
  Finding_Revision : Z;
  Finding_CreatedAt : Timestamp;
  Finding_UpdatedAt : Timestamp;
  Finding_DeploymentId : string;
  Finding_NodeId : string;
  Finding_PolicyId : string;
  Finding_RuleId : string;
  Finding_ReasonCode : string;
  Finding_Severity : Z;
  Finding_Status : Z;
  Finding_Title : string;
  Finding_Condition : string;
  Finding_Consequence : string;
  Finding_CurrentFact : string;
  Finding_ExpectedFact : string;
  Finding_Claim : EvidenceClaim;
  Finding_FirstSeenAt : Timestamp;
  Finding_LastSeenAt : Timestamp;
  Finding_ResolvedAt : option Timestamp;
  Finding_ResolutionReasonCode : string;
}.

Record FindingTransition : Type := mkTransition {
  Transition_FindingId : string;
  Transition_FromStatus : Z;
  Transition_ToStatus : Z;
  Transition_ReasonCode : string;
  Transition_OccurredAt : Timestamp;
}.

Record FindingService : Type := mkFindings {
  Findings_deploymentID : string;
  Findings_byID : gmap string Finding;
}.

Definition ErrFindingDeployment : error := errorsNew "finding deployment id is required".
Definition ErrFindingSnapshot : error := errorsNew "valid deployment-bound posture snapshot is required".

Definition NewFindings (deploymentID : string) : result FindingService :=
  reject eqs (TrimSpace deploymentID) EmptyString with ErrFindingDeployment;
  Ok (mkFindings deploymentID ∅).

(** ** Helpers *)

Definition findingID (nodeID policyID ruleID reasonCode : string) : string :=
  "finding:" +:+ nodeID +:+ ":" +:+ policyID +:+ ":" +:+ ruleID +:+ ":" +:+ reasonCode.

Definition transition (id : string) (from to : Z) (reason : string) (at_ : time) : FindingTransition :=
  mkTransition id from to reason (Timestamp_New at_).

Definition findingSeverity (state : Z) : Z := if state =? StateExposed then SeverityHigh else SeverityMedium.

Definition findingTitle (reasonCode : string) : string :=
  if eqs reasonCode ReasonMeshDisconnected then "Private mesh disconnected"
  else if eqs reasonCode ReasonExitUnverified then "Approved exit is not verified"
  else if eqs reasonCode ReasonDNSUnprotected then "Protected DNS is unavailable"
  else if eqs reasonCode ReasonRouteUnprotected then "Protected route is unavailable"
  else "Protection policy condition detected".

Definition nextRevision (revision : Z) : Z := (revision + 1) mod 2 ^ 64.

Definition openedFinding (deploymentID : string) (s : ProtectionSnapshot) (r : PostureReason) (claim : EvidenceClaim) (now : time) : Finding :=
  let at_ := Timestamp_New now in
  mkFinding (findingID (Protection_NodeId s) (Protection_PolicyId s) (Reason_RuleId r) (Reason_ReasonCode r)) 1 at_ at_ deploymentID
    (Protection_NodeId s) (Protection_PolicyId s) (Reason_RuleId r) (Reason_ReasonCode r) (findingSeverity (Reason_ContributedState r))
    FindingOpen (findingTitle (Reason_ReasonCode r)) (Reason_CurrentFact r) "Protected traffic may not use the policy-approved path."
    (Reason_CurrentFact r) (Reason_ExpectedFact r) claim at_ at_ None EmptyString.

Definition refreshedFinding (f : Finding) (r : PostureReason) (claim : EvidenceClaim) (now : time) : Finding :=
  let at_ := Timestamp_New now in
  mkFinding (Finding_Id f) (nextRevision (Finding_Revision f)) (Finding_CreatedAt f) at_ (Finding_DeploymentId f) (Finding_NodeId f)
    (Finding_PolicyId f) (Finding_RuleId f) (Finding_ReasonCode f) (findingSeverity (Reason_ContributedState r)) FindingOpen
    (Finding_Title f) (Finding_Condition f) (Finding_Consequence f) (Reason_CurrentFact r) (Reason_ExpectedFact r) claim
    (Finding_FirstSeenAt f) at_ None EmptyString.

Definition ControlRestored : string := "AF-CONTROL-RESTORED".

Definition resolvedFinding (f : Finding) (now : time) : Finding :=
  let at_ := Timestamp_New now in
  mkFinding (Finding_Id f) (nextRevision (Finding_Revision f)) (Finding_CreatedAt f) at_ (Finding_DeploymentId f) (Finding_NodeId f)
    (Finding_PolicyId f) (Finding_RuleId f) (Finding_ReasonCode f) (Finding_Severity f) FindingResolved
    (Finding_Title f) (Finding_Condition f) (Finding_Consequence f) (Finding_CurrentFact f) (Finding_ExpectedFact f) (Finding_Claim f)
    (Finding_FirstSeenAt f) at_ (Some at_) ControlRestored.

(** ** Snapshots *)

(** A reason that opens or refreshes a finding, with its claim. *)
Definition openingReason (o : option PostureReason) : option (PostureReason * EvidenceClaim) :=
  r ← o;
  claim ← Reason_Claim r;
  if eqs (Reason_ReasonCode r) EmptyString || (Reason_ContributedState r =? StateProtected) then None else Some (r, claim).

Record findingPass : Type := mkPass {
  Pass_byID : gmap string Finding;
  Pass_active : gset string;
  Pass_transitions : list FindingTransition;
}.

Definition applyReason (deploymentID : string) (s : ProtectionSnapshot) (now : time) (p : findingPass) (o : option PostureReason) : findingPass :=
  match openingReason o with
  | None => p
  | Some (r, claim) =>
      let id := findingID (Protection_NodeId s) (Protection_PolicyId s) (Reason_RuleId r) (Reason_ReasonCode r) in
      let active := {[ id ]} ∪ Pass_active p in
      match Pass_byID p !! id with
      | None =>
          mkPass (<[id := openedFinding deploymentID s r claim now]> (Pass_byID p)) active
            (Pass_transitions p ++ [transition id FindingUnspecified FindingOpen (Reason_ReasonCode r) now])
      | Some existing =>
          mkPass (<[id := refreshedFinding existing r claim now]> (Pass_byID p)) active
            (Pass_transitions p ++ (if Finding_Status existing =? FindingOpen then [] else [transition id (Finding_Status existing) FindingOpen (Reason_ReasonCode r) now]))
      end
  end.

(** A finding of the snapshot's node and policy that no reason keeps. *)
Definition stale (s : ProtectionSnapshot) (active : gset string) (id : string) (f : Finding) : bool :=
  eqs (Finding_NodeId f) (Protection_NodeId s) && eqs (Finding_PolicyId f) (Protection_PolicyId s)
  && negb (Finding_Status f =? FindingResolved) && negb (bool_decide (id ∈ active)).

Definition resolveStale (s : ProtectionSnapshot) (now : time) (p : findingPass) : findingPass :=
  mkPass (map_imap (fun id f => Some (if stale s (Pass_active p) id f then resolvedFinding f now else f)) (Pass_byID p)) (Pass_active p)
    (Pass_transitions p ++ flat_map (fun '(id, f) => if stale s (Pass_active p) id f
                                       then [transition id (Finding_Status f) FindingResolved ControlRestored now] else [])
                             (map_to_list (Pass_byID p))).

(** [sort.Slice] by finding id. *)
Definition transition_le (a b : FindingTransition) : Prop := String.le (Transition_FindingId a) (Transition_FindingId b).
#[export] Instance transition_le_dec a b : Decision (transition_le a b).
Proof. unfold transition_le. apply _. Defined.
Definition finding_id_le (a b : Finding) : Prop := String.le (Finding_Id a) (Finding_Id b).
#[export] Instance finding_id_le_dec a b : Decision (finding_id_le a b).
Proof. unfold finding_id_le. apply _. Defined.

Definition ApplySnapshot (service : FindingService) (snapshot : option ProtectionSnapshot) : result (FindingService * list FindingTransition) :=
  match snapshot with
  | None => Err ErrFindingSnapshot
  | Some s =>
      match Protection_EvaluatedAt s with
      | None => Err ErrFindingSnapshot
      | Some evaluatedAt =>
          reject negb (eqs (Protection_DeploymentId s) (Findings_deploymentID service)) || eqs (Protection_NodeId s) EmptyString
                 || eqs (Protection_PolicyId s) EmptyString || negb (Timestamp_CheckValid evaluatedAt) with ErrFindingSnapshot;
          let now := AsTime evaluatedAt in
          let p := fold_left (applyReason (Findings_deploymentID service) s now) (Protection_Reasons s) (mkPass (Findings_byID service) ∅ []) in
          let p := resolveStale s now p in
          Ok (mkFindings (Findings_deploymentID service) (Pass_byID p), merge_sort transition_le (Pass_transitions p))
      end
  end.

Definition ListFindings (service : FindingService) (nodeID : string) (statuses : list Z) : list Finding :=
  merge_sort finding_id_le (List.filter (fun f =>
      (eqs nodeID EmptyString || eqs (Finding_NodeId f) nodeID)
      && ((len statuses =? 0) || existsb (fun status => Finding_Status f =? status) statuses))
    (map snd (map_to_list (Findings_byID service)))).
