(* ===== verification/Sanitize.v ===== *)
(** * Sanitizing untrusted text (internal/trust/sanitize.go, instruction.go)

    Rendering of arbitrary bytes for terminals and JSON, the classification of
    what is hostile in them, safe labels, and the advisory detector of text
    shaped like an instruction; and, first, what the package uses of Go's
    packages on text: decoding and encoding of runes, the small Unicode
    tables, and the printed forms of numbers. The table of the printable runes
    and the lower case of a rune are the class [UnicodeTables].

    Strings are lists of bytes; where the code walks a string with an index,
    the model walks the rest of the string from that index. *)

From S2P Require Import Prelude Plan.
From stdpp Require Import base gmap list strings sorting.
From Stdlib Require Import ZArith Lia.

Open Scope Z_scope.

(** ** Runes *)

Definition RuneError : Z := 0xfffd.

Definition inRange (low high x : Z) : bool := (low <=? x) && (x <=? high).
Definition trail (b : Z) : bool := inRange 0x80 0xbf b.

(** The six bits of a continuation byte. *)
Definition low6 (b : Z) : Z := b mod 64.

(** [utf8.DecodeRuneInString]: the first rune and how many bytes it takes;
    an invalid encoding is [RuneError] of one byte. *)
Definition decodeRune (s : list Z) : Z * Z :=
  match s with
  | [] => (RuneError, 0)
  | a :: r =>
      if a <? 0x80 then (a, 1) else
      match r with
      | b :: r2 =>
          if inRange 0xc2 0xdf a then
            (if trail b then ((a - 0xc0) * 64 + low6 b, 2) else (RuneError, 1))
          else match r2 with
          | c :: r3 =>
              if inRange 0xe0 0xef a then
                (if (if a =? 0xe0 then inRange 0xa0 0xbf b else if a =? 0xed then inRange 0x80 0x9f b else trail b) && trail c
                 then ((a - 0xe0) * 4096 + low6 b * 64 + low6 c, 3) else (RuneError, 1))
              else match r3 with
              | d :: _ =>
                  if inRange 0xf0 0xf4 a
                     && (if a =? 0xf0 then inRange 0x90 0xbf b else if a =? 0xf4 then inRange 0x80 0x8f b else trail b)
                     && trail c && trail d
                  then ((a - 0xf0) * 262144 + low6 b * 4096 + low6 c * 64 + low6 d, 4) else (RuneError, 1)
              | [] => (RuneError, 1)
              end
          | [] => (RuneError, 1)
          end
      | [] => (RuneError, 1)
      end
  end.

(** [utf8.AppendRune], what [WriteRune] writes: surrogates and numbers that
    are no runes are written as [RuneError]. *)
Definition encodeRune (r : Z) : list Z :=
  if inRange 0 0x7f r then [r]
  else if inRange 0x80 0x7ff r then [0xc0 + r / 64; 0x80 + low6 r]
  else if (r <? 0) || (0x10ffff <? r) || inRange 0xd800 0xdfff r then [0xef; 0xbf; 0xbd]
  else if r <=? 0xffff then [0xe0 + r / 4096; 0x80 + low6 (r / 64); 0x80 + low6 r]
  else [0xf0 + r / 262144; 0x80 + low6 (r / 4096); 0x80 + low6 (r / 64); 0x80 + low6 r].

(** [for _, r := range s]: the runes of a string, an invalid byte as
    [RuneError]. Each takes at least one byte. *)
Fixpoint runesIn (fuel : nat) (s : list Z) : list Z :=
  match fuel, s with
  | S fuel, _ :: _ => let '(r, size) := decodeRune s in r :: runesIn fuel (drop (Z.to_nat size) s)
  | _, _ => []
  end.
Definition runes (s : list Z) : list Z := runesIn (length s) s.

(** ** Tables *)

Definition inRanges (table : list (Z * Z)) (r : Z) : bool := existsb (fun '(low, high) => inRange low high r) table.

(** [unicode.Cf], the format characters. *)
Definition formatRunes : list (Z * Z) :=
  [(0xad, 0xad); (0x600, 0x605); (0x61c, 0x61c); (0x6dd, 0x6dd); (0x70f, 0x70f); (0x890, 0x891); (0x8e2, 0x8e2); (0x180e, 0x180e);
   (0x200b, 0x200f); (0x202a, 0x202e); (0x2060, 0x2064); (0x2066, 0x206f); (0xfeff, 0xfeff); (0xfff9, 0xfffb); (0x110bd, 0x110bd);
   (0x110cd, 0x110cd); (0x13430, 0x1343f); (0x1bca0, 0x1bca3); (0x1d173, 0x1d17a); (0xe0001, 0xe0001); (0xe0020, 0xe007f)].
Definition unicodeCf (r : Z) : bool := inRanges formatRunes r.

(** [unicode.Cc], the controls. *)
Definition unicodeCc (r : Z) : bool := inRange 0 0x1f r || inRange 0x7f 0x9f r.

(** [unicode.Zs], the spaces. *)
Definition spaceRunes : list (Z * Z) :=
  [(0x20, 0x20); (0xa0, 0xa0); (0x1680, 0x1680); (0x2000, 0x200a); (0x202f, 0x202f); (0x205f, 0x205f); (0x3000, 0x3000)].
Definition unicodeZs (r : Z) : bool := inRanges spaceRunes r.

(** [unicode.IsSpace]. *)
Definition unicodeIsSpace (r : Z) : bool := inRange 0x09 0x0d r || (r =? 0x85) || unicodeZs r || (r =? 0x2028) || (r =? 0x2029).

(** [unicode.IsPrint] of a rune that is not ASCII, and [unicode.ToLower] of
    one: the tables of the Unicode version Go was built with. The ellipsis is
    punctuation in every version. *)
Class UnicodeTables : Type := {
  unicodePrint : Z -> bool;
  unicodeLower : Z -> Z;
  unicode_ellipsis : unicodePrint 0x2026 = true;
}.

Section Tables.
Context {U : UnicodeTables}.

Definition unicodeIsPrint (r : Z) : bool := if r <? 0x80 then inRange 0x20 0x7e r else unicodePrint r.
Definition unicodeToLower (r : Z) : Z := if r <? 0x80 then (if inRange 65 90 r then r + 32 else r) else unicodeLower r.
End Tables.

(** ** Numbers *)

Definition hexDigit (d : Z) : Z := if d <? 10 then 48 + d else 87 + d.

(** [%0wx] of a number that has at most [w] digits. *)
Fixpoint hexPadded (w : nat) (v : Z) : list Z :=
  match w with
  | O => []
  | S w => hexPadded w (v / 16) ++ [hexDigit (v mod 16)]
  end.

(** [strconv.Itoa] of a number that is not negative and fits 64 bits. *)
Fixpoint decimalDigits (fuel : nat) (v : Z) : list Z :=
  match fuel with
  | O => []
  | S fuel => (if v <? 10 then [] else decimalDigits fuel (v / 10)) ++ [48 + v mod 10]
  end.
Definition Itoa (v : Z) : list Z := decimalDigits 20 v.

(** ** Lemmas *)

Lemma inRange_true low high x : inRange low high x = true <-> low <= x <= high.
Proof. unfold inRange. rewrite andb_true_iff, !Z.leb_le. done. Qed.

Lemma inRange_false low high x : inRange low high x = false <-> x < low \/ high < x.
Proof. unfold inRange. rewrite andb_false_iff, !Z.leb_gt. done. Qed.

Lemma decodeRune_size s : s <> [] -> 1 <= snd (decodeRune s) <= len s.
Proof.
  intros Hs. destruct s as [|a [|b [|c [|d r]]]]; [done|..]; unfold len; cbn [decodeRune];
    repeat case_match; cbn [snd fst length]; lia.
Qed.

(** What is decoded does not depend on what follows. *)
Lemma decodeRune_app s t r size : decodeRune s = (r, size) -> (r <> RuneError \/ 1 < size) -> 1 <= size -> decodeRune (s ++ t) = (r, size).
Proof.
  intros Hd He Hs. destruct s as [|a [|b [|c [|d s]]]]; cbn [decodeRune app] in *; repeat case_match; simplify_eq; try done; try lia;
    destruct t; cbn [decodeRune app] in *; repeat case_match; simplify_eq; try done; naive_solver lia.
Qed.

(** ** Taint (internal/trust/envelope.go) *)

Abbreviation Taint := Z (only parsing).
Definition TaintUntrusted : Taint := 1.
Definition TaintContainsControlChars : Taint := 2.
Definition TaintContainsBidi : Taint := 4.
Definition TaintContainsInstructionLike : Taint := 8.
Definition TaintOversized : Taint := 16.
Definition TaintTruncated : Taint := 32.
Definition TaintDuplicateFields : Taint := 64.
Definition TaintStale : Taint := 128.
Definition TaintReplayed : Taint := 256.
Definition TaintSignedButUnauthorized : Taint := 512.

(** ** Policies *)

Definition RenderEscape : Z := 0.
Definition RenderStrip : Z := 1.

Definition DefaultMaxBytes : Z := 4096.
Definition MinMaxBytes : Z := 64.
Definition markerReserve : Z := 48.
Definition maxSequenceBytes : Z := 1024.

Record RenderPolicy : Type := mkPolicy { RP_Mode : Z; RP_ASCIIOnly : bool; RP_MaxBytes : Z }.

Definition DefaultPolicy : RenderPolicy := mkPolicy RenderEscape false DefaultMaxBytes.
Definition ASCIIPolicy : RenderPolicy := mkPolicy RenderEscape true DefaultMaxBytes.

Definition ErrInvalidPolicy : error := errorsNew "trust: invalid render policy".

(** The loops of this file have the length of their string as fuel. *)
Definition ErrRenderFuel : error := errorsNew "out of fuel".

Definition FindingNUL : string := "NUL".
Definition FindingC0 : string := "C0".
Definition FindingCR : string := "CR".
Definition FindingDEL : string := "DEL".
Definition FindingESC : string := "ESC".
Definition FindingCSI : string := "CSI".
Definition FindingOSC : string := "OSC".
Definition FindingDCS : string := "DCS".
Definition FindingSOS : string := "SOS".
Definition FindingPM : string := "PM".
Definition FindingAPC : string := "APC".
Definition FindingC1 : string := "C1".
Definition FindingBidi : string := "BIDI".
Definition FindingFormat : string := "FORMAT".
Definition FindingSeparator : string := "SEPARATOR".
Definition FindingInvalidUTF8 : string := "INVALID_UTF8".

(** [Finding] of this package: a kind and how often it was seen. *)
Record ShapeCount : Type := mkShape { Shape_Kind : string; Shape_Count : Z }.

Record Rendered : Type := mkRendered {
  Rendered_Text : list Z;
  Rendered_Taints : Taint;
  Rendered_Findings : list ShapeCount;
  Rendered_InputBytes : Z;
  Rendered_DroppedBytes : Z;
}.

Definition HasFinding (r : Rendered) (kind : string) : bool := existsb (fun f => eqs (Shape_Kind f) kind) (Rendered_Findings r).
Definition FindingKinds (r : Rendered) : list string := map Shape_Kind (Rendered_Findings r).

(** ** Escapes *)

(** [\xNN], [\uNNNN] and [\UNNNNNNNN]. *)
Definition escapeByte (b : Z) : list Z := 92 :: 120 :: hexPadded 2 b.
Definition escapeRune (r : Z) : list Z :=
  if r <? 0x100 then 92 :: 120 :: hexPadded 2 r
  else if r <? 0x10000 then 92 :: 117 :: hexPadded 4 r
  else 92 :: 85 :: hexPadded 8 r.

Fixpoint escapeRunes (fuel : nat) (sequence : list Z) : list Z :=
  match fuel, sequence with
  | S fuel, b :: _ =>
      let '(r, size) := decodeRune sequence in
      (if (r =? RuneError) && (size =? 1) then escapeByte b else if inRange 0x20 0x7e r then [r] else escapeRune r)
      ++ escapeRunes fuel (drop (Z.to_nat size) sequence)
  | _, _ => []
  end.
Definition escapeSequence (sequence : list Z) : list Z := escapeRunes (length sequence) sequence.

(** ** Terminal sequences *)

(** How many bytes at the start of a string satisfy a test. *)
Fixpoint spanOf (p : Z -> bool) (s : list Z) : Z :=
  match s with
  | b :: r => if p b then 1 + spanOf p r else 0
  | [] => 0
  end.

(** A final byte, if the string begins with one. *)
Definition finalOf (p : Z -> bool) (s : list Z) : Z := match s with b :: _ => if p b then 1 else 0 | [] => 0 end.

Definition startsWith (b : Z) (s : list Z) : bool := match s with c :: _ => c =? b | [] => false end.

(** The body of a sequence up to its terminator, or up to the bound. *)
Fixpoint terminated (bound : nat) (body : list Z) : Z :=
  match bound, body with
  | S bound, b :: r =>
      if b =? 0x07 then 1
      else if (b =? 0x1b) && startsWith 92 r then 2
      else if (b =? 0xc2) && startsWith 0x9c r then 2
      else 1 + terminated bound r
  | _, _ => 0
  end.

Definition dropZ (n : Z) (s : list Z) : list Z := drop (Z.to_nat n) s.

(** The length of the sequence at the start of a string whose body begins
    after [introducer] bytes. *)
Definition scanSequenceBody (raw : list Z) (introducer : Z) (kind : string) : Z :=
  let body := dropZ introducer raw in
  if eqs kind FindingCSI then
    let parameters := spanOf (inRange 0x30 0x3f) body in
    let intermediates := spanOf (inRange 0x20 0x2f) (dropZ parameters body) in
    introducer + parameters + intermediates + finalOf (inRange 0x40 0x7e) (dropZ (parameters + intermediates) body)
  else introducer + terminated (Z.to_nat maxSequenceBytes) body.

(** The sequence that starts with ESC at the start of a string. *)
Definition scanEscape (raw : list Z) : Z * string :=
  match raw with
  | _ :: next :: r =>
      if next =? 91 then (scanSequenceBody raw 2 FindingCSI, FindingCSI)
      else if next =? 93 then (scanSequenceBody raw 2 FindingOSC, FindingOSC)
      else if next =? 80 then (scanSequenceBody raw 2 FindingDCS, FindingDCS)
      else if next =? 88 then (scanSequenceBody raw 2 FindingSOS, FindingSOS)
      else if next =? 94 then (scanSequenceBody raw 2 FindingPM, FindingPM)
      else if next =? 95 then (scanSequenceBody raw 2 FindingAPC, FindingAPC)
      else if inRange 0x20 0x2f next then
        let intermediates := spanOf (inRange 0x20 0x2f) r in
        (2 + intermediates + finalOf (inRange 0x30 0x7e) (dropZ intermediates r), FindingESC)
      else if inRange 0x30 0x7e next then (2, FindingESC)
      else (1, FindingESC)
  | _ => (1, FindingESC)
  end.

Definition c1Introducer (r : Z) : option string :=
  if r =? 0x9b then Some FindingCSI
  else if r =? 0x9d then Some FindingOSC
  else if r =? 0x90 then Some FindingDCS
  else if r =? 0x98 then Some FindingSOS
  else if r =? 0x9e then Some FindingPM
  else if r =? 0x9f then Some FindingAPC
  else None.

Definition isBidiControl (r : Z) : bool :=
  inRange 0x202a 0x202e r || inRange 0x2066 0x2069 r || ((r =? 0x200e) || (r =? 0x200f) || (r =? 0x061c)).

Section Sanitize.
Context {U : UnicodeTables}.

(** ** Classification *)

(** How a string that is not empty begins: the piece in escape mode, the
    number of bytes it takes, and the kind of finding, empty for none. *)
Definition classify (raw : list Z) (asciiOnly : bool) : list Z * Z * string :=
  let '(r, size) := decodeRune raw in
  if (r =? RuneError) && (size =? 1) then (escapeByte (hd 0 raw), 1, FindingInvalidUTF8)
  else if r =? 10 then ([10], 1, EmptyString)
  else if r =? 13 then
    (if startsWith 10 (dropZ 1 raw) then ([10], 2, EmptyString) else (escapeRune r, 1, FindingCR))
  else if r =? 0 then (escapeRune r, 1, FindingNUL)
  else if r =? 0x1b then
    (let '(length, kind) := scanEscape raw in (escapeSequence (take (Z.to_nat length) raw), length, kind))
  else if r <? 0x20 then (escapeRune r, 1, FindingC0)
  else if r =? 0x7f then (escapeRune r, 1, FindingDEL)
  else if inRange 0x80 0x9f r then
    match c1Introducer r with
    | Some kind => let length := scanSequenceBody raw size kind in (escapeSequence (take (Z.to_nat length) raw), length, kind)
    | None => (escapeRune r, size, FindingC1)
    end
  else if isBidiControl r then (escapeRune r, size, FindingBidi)
  else if (r =? 0x2028) || (r =? 0x2029) then (escapeRune r, size, FindingSeparator)
  else if unicodeCf r then (escapeRune r, size, FindingFormat)
  else if asciiOnly && (0x80 <=? r) then (escapeRune r, size, EmptyString)
  else if (0x80 <=? r) && negb (unicodeIsPrint r) && negb (unicodeZs r) then (escapeRune r, size, EmptyString)
  else (take (Z.to_nat size) raw, size, EmptyString).

(** The taint of a kind. *)
Definition kindTaint (kind : string) : Taint := if eqs kind FindingBidi then TaintContainsBidi else TaintContainsControlChars.

Definition truncationMarker (dropped : Z) (asciiOnly : bool) : list Z :=
  (if asciiOnly then escapeRune 0x2026 else [0xe2; 0x80; 0xa6]) ++ bytes_of "[truncated " ++ Itoa dropped ++ bytes_of " bytes]".

(** ** Rendering *)

(** The variables of the loop of [Render]. *)
Record renderState : Type := mkRender {
  R_index : Z;
  R_out : list Z;
  R_counts : gmap string Z;
  R_taint : Taint;
  R_appending : bool;
  R_cutOut : Z;
  R_cutIn : Z;
}.

Definition renderStart : renderState := mkRender 0 [] ∅ 0 true (-1) (-1).

(** A turn of the loop on what [classify] answered. *)
Definition renderTurn (strip : bool) (limit budget : Z) (found : list Z * Z * string) (s : renderState) : renderState :=
  let '(piece, size, kind) := found in
  let hostile := negb (eqs kind EmptyString) in
  let counts := if hostile then <[kind := default 0 (R_counts s !! kind) + 1]> (R_counts s) else R_counts s in
  let taint := if hostile then Z.lor (R_taint s) (kindTaint kind) else R_taint s in
  let piece := if hostile && strip then [] else piece in
  let size' := len (R_out s) + len piece in
  let cuts := if R_appending s && (R_cutOut s <? 0) && (budget <? size') then (len (R_out s), R_index s) else (R_cutOut s, R_cutIn s) in
  let appending := R_appending s && (size' <=? limit) in
  mkRender (R_index s + size) (if appending then R_out s ++ piece else R_out s) counts taint appending (fst cuts) (snd cuts).

Fixpoint renderLoop (fuel : nat) (asciiOnly strip : bool) (limit budget : Z) (raw : list Z) (s : renderState) : result renderState :=
  match raw with
  | [] => Ok s
  | _ :: _ =>
      match fuel with
      | O => Err ErrRenderFuel
      | S fuel =>
          let found := classify raw asciiOnly in
          renderLoop fuel asciiOnly strip limit budget (dropZ (snd (fst found)) raw) (renderTurn strip limit budget found s)
      end
  end.

Definition shape_le (a b : ShapeCount) : Prop := String.le (Shape_Kind a) (Shape_Kind b).
#[export] Instance shape_le_dec a b : Decision (shape_le a b).
Proof. unfold shape_le. apply _. Defined.

Definition renderLimit (policy : RenderPolicy) : Z :=
  let limit := if RP_MaxBytes policy =? 0 then DefaultMaxBytes else RP_MaxBytes policy in
  if limit <? MinMaxBytes then MinMaxBytes else limit.

(** What follows the loop. *)
Definition renderResult (raw : list Z) (asciiOnly : bool) (limit : Z) (s : renderState) : Rendered :=
  let cuts := if R_cutOut s <? 0 then (0, 0) else (R_cutOut s, R_cutIn s) in
  let dropped := len raw - snd cuts in
  let taints := if limit <? len raw then Z.lor (R_taint s) TaintOversized else R_taint s in
  let findings := merge_sort shape_le (map (fun '(kind, count) => mkShape kind count) (map_to_list (R_counts s))) in
  if R_appending s then mkRendered (R_out s) taints findings (len raw) 0
  else mkRendered (take (Z.to_nat (fst cuts)) (R_out s) ++ truncationMarker dropped asciiOnly) (Z.lor taints TaintTruncated) findings (len raw) dropped.

Definition Render (raw : list Z) (policy : RenderPolicy) : result Rendered :=
  reject negb (RP_Mode policy =? RenderEscape) && negb (RP_Mode policy =? RenderStrip) with ErrInvalidPolicy;
  let limit := renderLimit policy in
  do s <- renderLoop (length raw) (RP_ASCIIOnly policy) (RP_Mode policy =? RenderStrip) limit (limit - markerReserve) raw renderStart;
  Ok (renderResult raw (RP_ASCIIOnly policy) limit s).

(** ** Instruction-like text (internal/trust/instruction.go) *)

Definition instructionPhrases : list string :=
  ["ignore previous"; "ignore all previous"; "ignore the above"; "disregard previous"; "disregard the above"; "you are now"; "act as";
   "pretend you are"; "new instructions"; "system prompt"; "system:"; "assistant:"; "user:"; "developer:"; "run the following";
   "execute the following"; "do not tell"; "rm -rf"; "nft "; "iptables "; "curl "; "wget "; "<|im_start|>"; "<|im_end|>"; "[inst]";
   "### instruction"; "### system"; "```"]%string.

Definition wordPhrases : list string :=
  ["execute"; "approve"; "approved"; "grant"; "sudo"; "override"; "bypass"; "authorize"; "authorise"]%string.

(** A rune of the text under the switch: dropped, a space, or written. *)
Definition ignoredRune (r : Z) : bool := unicodeCf r || (unicodeCc r && negb (unicodeIsSpace r)).

Fixpoint normaliseRunes (rs : list Z) (out : list Z) (space : bool) : list Z :=
  match rs with
  | [] => out
  | r :: rest =>
      if ignoredRune r then normaliseRunes rest out space
      else if unicodeIsSpace r then normaliseRunes rest out true
      else normaliseRunes rest ((if space && (0 <? len out) then out ++ [32] else out) ++ encodeRune (unicodeToLower r)) false
  end.
Definition normaliseForMatch (text : list Z) : list Z := normaliseRunes (runes text) [] false.

(** [strings.HasPrefix] and [strings.Contains]. *)
Fixpoint prefixOf (word s : list Z) : bool :=
  match word, s with
  | [], _ => true
  | w :: word, b :: s => (w =? b) && prefixOf word s
  | _ :: _, [] => false
  end.
Fixpoint containsBytes (s word : list Z) : bool :=
  prefixOf word s || match s with [] => false | _ :: r => containsBytes r word end.

Definition isWordRune (r : Z) : bool := inRange 97 122 r || inRange 48 57 r || (r =? 95) || (0x80 <=? r).

(** The loop over the occurrences of a word: one counts when no letter of a
    word is on either side. [before] is the byte before the string. *)
Fixpoint wordFrom (before : option Z) (s word : list Z) : bool :=
  (prefixOf word s
   && match before with None => true | Some b => negb (isWordRune b) end
   && match drop (length word) s with [] => true | b :: _ => negb (isWordRune b) end)
  || match s with [] => false | b :: r => wordFrom (Some b) r word end.
Definition containsWord (haystack word : list Z) : bool := wordFrom None haystack word.

Definition sortedStrings (l : list string) : list string := merge_sort String.le l.

(** [strings.TrimSpace] of a phrase, whose only spaces are at its end. *)
Definition LooksInstructionLike (text : list Z) : bool * list string :=
  let normalised := normaliseForMatch text in
  if len normalised =? 0 then (false, []) else
  let found := remove_dups
    (map (fun phrase => TrimSpace phrase) (List.filter (fun phrase => containsBytes normalised (bytes_of phrase)) instructionPhrases)
     ++ List.filter (fun word => containsWord normalised (bytes_of word)) wordPhrases) in
  if len found =? 0 then (false, []) else (true, sortedStrings found).

(** ** Scan *)

Fixpoint scanLoop (fuel : nat) (raw : list Z) (taint : Taint) : result Taint :=
  match raw with
  | [] => Ok taint
  | _ :: _ =>
      match fuel with
      | O => Err ErrRenderFuel
      | S fuel =>
          let '(_, size, kind) := classify raw false in
          scanLoop fuel (dropZ size raw) (if eqs kind EmptyString then taint else Z.lor taint (kindTaint kind))
      end
  end.

Definition Scan (raw : list Z) : result Taint :=
  do taint <- scanLoop (length raw) raw 0;
  Ok (if fst (LooksInstructionLike raw) then Z.lor taint TaintContainsInstructionLike else taint).

(** ** Labels *)

Definition DefaultLabelMax : Z := 128.

Definition isLabelRune (r : Z) : bool :=
  inRange 97 122 r || inRange 65 90 r || inRange 48 57 r || (r =? 46) || (r =? 95) || (r =? 58) || (r =? 45).

Fixpoint labelRunes (rs : list Z) (maximum : Z) (out : list Z) : list Z :=
  match rs with
  | [] => out
  | r :: rest => if maximum <=? len out then out else labelRunes rest maximum (out ++ [if isLabelRune r then r else 95])
  end.

Definition SafeLabel (value : list Z) (maximum : Z) : list Z :=
  let maximum := if maximum <=? 0 then DefaultLabelMax else maximum in
  let out := labelRunes (runes value) maximum [] in
  if len out =? 0 then [95] else out.

Definition IsSafeLabel (value : list Z) : bool :=
  if (len value =? 0) || (DefaultLabelMax <? len value) then false else forallb isLabelRune (runes value).

(** ** Quoting *)

(** A rune as [strconv.QuoteToASCII] writes it inRange the quotes. *)
Definition quoteRune (r : Z) : list Z :=
  if (r =? 34) || (r =? 92) then [92; r]
  else if inRange 0x20 0x7e r then [r]
  else if r =? 7 then [92; 97] else if r =? 8 then [92; 98] else if r =? 12 then [92; 102] else if r =? 10 then [92; 110]
  else if r =? 13 then [92; 114] else if r =? 9 then [92; 116] else if r =? 11 then [92; 118]
  else if (r <? 0x20) || (r =? 0x7f) then 92 :: 120 :: hexPadded 2 r
  else if r <? 0x10000 then 92 :: 117 :: hexPadded 4 r
  else 92 :: 85 :: hexPadded 8 r.

Fixpoint quoteLoop (fuel : nat) (s : list Z) : list Z :=
  match fuel, s with
  | S fuel, b :: _ =>
      let '(r, size) := decodeRune s in
      (if (r =? RuneError) && (size =? 1) then 92 :: 120 :: hexPadded 2 b else quoteRune r) ++ quoteLoop fuel (drop (Z.to_nat size) s)
  | _, _ => []
  end.
Definition QuoteForTerminal (value : list Z) : list Z := quoteLoop (length value) value.

End Sanitize.
