(* ===== verification/Trust.v ===== *)
(** * Trust envelopes (internal/trust: envelope.go, replay.go, nesting.go)

    Every string from outside is carried with what is known about it: where
    it came from, what authenticates it, how a claim in it is known, and the
    taint bits of Sanitize.v. Beside the envelopes, the set of digests that
    were seen, and the walk over the tokens of a JSON text that bounds it
    before anything decodes it. The tokenizer of encoding/json is a parameter:
    the tokens it gives and whether it ends at the end of the text. *)

From S2P Require Import Prelude Sha256 Digest Plan Sanitize.
From stdpp Require Import base gmap list strings sorting.
From Stdlib Require Import ZArith Lia.

Open Scope Z_scope.

(** ** Names *)

Definition originNames : list string :=
  ["UNKNOWN"; "PLAN"; "DRY_RUN"; "CAPABILITY_METADATA"; "NODE_LABEL"; "PROVIDER"; "GIT_METADATA"; "TOOL_OUTPUT"; "MODEL_OUTPUT";
   "IMPORTED_FINDING"; "WITNESS_RESPONSE"; "LOG"; "OPERATOR_INPUT"]%string.
Definition authenticityNames : list string := ["UNAUTHENTICATED"; "SIGNATURE_VALID"; "SIGNATURE_INVALID"; "LOCALLY_OBSERVED"]%string.
Definition evidenceClassNames : list string :=
  ["EVIDENCE_CLASS_UNSPECIFIED"; "EVIDENCE_CLASS_DETECTED"; "EVIDENCE_CLASS_VERIFIED"; "EVIDENCE_CLASS_REPORTED"; "EVIDENCE_CLASS_INFERRED";
   "EVIDENCE_CLASS_SUSPECTED"; "EVIDENCE_CLASS_UNKNOWN"]%string.

(** [names[v]] when [v] is an index, else the first name. *)
Definition nameAt (names : list string) (v : Z) : string :=
  if (0 <=? v) && (v <? len names) then nth (Z.to_nat v) names EmptyString else hd EmptyString names.

(** The loop over the names: the index of the first that is the one. *)
Fixpoint indexOf (names : list string) (name : string) (from : Z) : option Z :=
  match names with
  | [] => None
  | candidate :: rest => if eqs candidate name then Some from else indexOf rest name (from + 1)
  end.
Definition parseName (names : list string) (name : string) : Z * bool :=
  match indexOf names name 0 with Some v => (v, true) | None => (0, false) end.

Definition Origin_String (o : Z) : string := nameAt originNames o.
Definition ParseOrigin (name : string) : Z * bool := parseName originNames name.
Definition Authenticity_String (a : Z) : string := nameAt authenticityNames a.
Definition ParseAuthenticity (name : string) : Z * bool := parseName authenticityNames name.
Definition EvidenceClass_String (e : Z) : string := nameAt evidenceClassNames e.
Definition ParseEvidenceClass (name : string) : Z * bool := parseName evidenceClassNames name.

(** [ControlClass] has one value. *)
Definition ControlClass : Type := unit.
Definition DataOnly : ControlClass := tt.
Definition ControlClass_String (c : ControlClass) : string := "DATA_ONLY".
Definition GrantsCapability (c : ControlClass) : bool := false.

(** ** Taint sets *)

Definition taintNames : list (Z * string) :=
  [(TaintUntrusted, "UNTRUSTED"); (TaintContainsControlChars, "CONTAINS_CONTROL_CHARS"); (TaintContainsBidi, "CONTAINS_BIDI");
   (TaintContainsInstructionLike, "CONTAINS_INSTRUCTION_LIKE"); (TaintOversized, "OVERSIZED"); (TaintTruncated, "TRUNCATED");
   (TaintDuplicateFields, "DUPLICATE_FIELDS"); (TaintStale, "STALE"); (TaintReplayed, "REPLAYED");
   (TaintSignedButUnauthorized, "SIGNED_BUT_UNAUTHORIZED")]%string.

Definition Taint_Has (t mask : Z) : bool := Z.land t mask =? mask.
Definition Taint_With (t mask : Z) : Z := Z.lor t mask.
Definition Taint_Names (t : Z) : list string := map snd (List.filter (fun '(bit, _) => negb (Z.land t bit =? 0)) taintNames).

Fixpoint joinNames (separator : string) (l : list string) : string :=
  match l with
  | [] => EmptyString
  | [x] => x
  | x :: rest => x +:+ separator +:+ joinNames separator rest
  end.
Definition Taint_String (t : Z) : string := if len (Taint_Names t) =? 0 then "NONE" else joinNames "|" (Taint_Names t).
Definition SortedTaintNames (t : Z) : list string := sortedStrings (Taint_Names t).

Definition ParseTaint (name : string) : option Z := fst <$> List.find (fun '(_, n) => eqs n name) taintNames.

Definition ErrUnknownTaint : error := errorsNew "trust: unknown taint %q".

Fixpoint parseTaintsFrom (set : Z) (names : list string) : result Z :=
  match names with
  | [] => Ok set
  | name :: rest => match ParseTaint name with Some bit => parseTaintsFrom (Z.lor set bit) rest | None => Err ErrUnknownTaint end
  end.
Definition ParseTaints (names : list string) : result Z := parseTaintsFrom 0 names.

(** ** Envelopes *)

Record Payload : Type := mkPayload { Payload_raw : list Z; Payload_Rendered : Rendered }.
Definition RawLen (p : Payload) : Z := len (Payload_raw p).
Definition Payload_String (p : Payload) : list Z := Rendered_Text (Payload_Rendered p).

Record Envelope : Type := mkEnvelope {
  Env_Origin : Z;
  Env_Authenticity : Z;
  Env_EvidenceClass : Z;
  Env_ControlClass : ControlClass;
  Env_Taint : Z;
  Env_Digest : string;
  Env_SchemaVersion : Z;
  Env_ParserVersion : Z;
  Env_Payload : Payload;
}.

Record WrapOptions : Type := mkWrapOptions {
  Wrap_Policy : option RenderPolicy;
  Wrap_EvidenceClass : Z;
  Wrap_SchemaVersion : Z;
  Wrap_ParserVersion : Z;
  Wrap_ExtraTaint : Z;
  Wrap_SkipInstructionScan : bool;
}.

Record EnvelopeSummary : Type := mkSummary {
  Summary_Origin : string;
  Summary_Authenticity : string;
  Summary_EvidenceClass : string;
  Summary_ControlClass : string;
  Summary_Taint : list string;
  Summary_Digest : string;
  Summary_SchemaVersion : Z;
  Summary_ParserVersion : Z;
  Summary_RawBytes : Z;
  Summary_Text : list Z;
}.

Section Envelopes.
Context {H : Hasher} {U : UnicodeTables}.

(** The zero [Rendered], what an ignored error would leave. *)
Definition zeroRendered : Rendered := mkRendered [] 0 [] 0 0.

Definition Wrap (origin authenticity : Z) (raw : list Z) (opts : WrapOptions) : Envelope :=
  let policy := default DefaultPolicy (Wrap_Policy opts) in
  let rendered :=
    match Render raw policy with
    | Ok r => r
    | Err _ => match Render raw DefaultPolicy with Ok r => r | Err _ => zeroRendered end
    end in
  let taint := Z.lor (Z.lor TaintUntrusted (Rendered_Taints rendered)) (Wrap_ExtraTaint opts) in
  let taint := if negb (Wrap_SkipInstructionScan opts) && fst (LooksInstructionLike raw) then Z.lor taint TaintContainsInstructionLike else taint in
  mkEnvelope origin authenticity (Wrap_EvidenceClass opts) DataOnly taint ("sha256:" +:+ hexEncode (sum256 raw)) (Wrap_SchemaVersion opts)
    (Wrap_ParserVersion opts) (mkPayload raw rendered).

Definition Env_Text (e : Envelope) : list Z := Rendered_Text (Payload_Rendered (Env_Payload e)).

Definition WithAuthenticity (authenticity : Z) (e : Envelope) : Envelope :=
  mkEnvelope (Env_Origin e) authenticity (Env_EvidenceClass e) (Env_ControlClass e) (Env_Taint e) (Env_Digest e) (Env_SchemaVersion e)
    (Env_ParserVersion e) (Env_Payload e).
Definition WithTaint (mask : Z) (e : Envelope) : Envelope :=
  mkEnvelope (Env_Origin e) (Env_Authenticity e) (Env_EvidenceClass e) (Env_ControlClass e) (Z.lor (Env_Taint e) mask) (Env_Digest e)
    (Env_SchemaVersion e) (Env_ParserVersion e) (Env_Payload e).
Definition WithEvidenceClass (class : Z) (e : Envelope) : Envelope :=
  mkEnvelope (Env_Origin e) (Env_Authenticity e) class (Env_ControlClass e) (Env_Taint e) (Env_Digest e) (Env_SchemaVersion e)
    (Env_ParserVersion e) (Env_Payload e).

Definition Env_Summary (e : Envelope) : EnvelopeSummary :=
  mkSummary (Origin_String (Env_Origin e)) (Authenticity_String (Env_Authenticity e)) (EvidenceClass_String (Env_EvidenceClass e))
    (ControlClass_String (Env_ControlClass e)) (Taint_Names (Env_Taint e)) (Env_Digest e) (Env_SchemaVersion e) (Env_ParserVersion e)
    (RawLen (Env_Payload e)) (Env_Text e).

(** The line for logs. *)
Definition Env_String (e : Envelope) : list Z :=
  bytes_of (Origin_String (Env_Origin e)) ++ bytes_of "/" ++ bytes_of (Authenticity_String (Env_Authenticity e)) ++ bytes_of "/"
  ++ bytes_of (ControlClass_String (Env_ControlClass e)) ++ bytes_of " taint=" ++ bytes_of (Taint_String (Env_Taint e))
  ++ bytes_of " digest=" ++ bytes_of (Env_Digest e) ++ bytes_of " text=" ++ QuoteForTerminal (Env_Text e).

End Envelopes.

(** ** Replay (internal/trust/replay.go) *)

(** The list from the most to the least recently observed digest, and the
    keys of the index into it. *)
Record SeenSet : Type := mkSeen { Seen_capacity : Z; Seen_order : list string; Seen_index : gset string }.

Definition DefaultSeenCapacity : Z := 4096.
Definition NewSeenSet (capacity : Z) : SeenSet := mkSeen (if capacity <=? 0 then DefaultSeenCapacity else capacity) [] ∅.

(** The loop that removes the oldest while there are too many; at most one
    turn per element. *)
Fixpoint evict (fuel : nat) (s : SeenSet) : SeenSet :=
  match fuel with
  | O => s
  | S fuel =>
      if Seen_capacity s <? len (Seen_order s) then
        match last (Seen_order s) with
        | Some oldest => evict fuel (mkSeen (Seen_capacity s) (removelast (Seen_order s)) (Seen_index s ∖ {[oldest]}))
        | None => s
        end
      else s
  end.

Definition Observe (digest : string) (s : SeenSet) : bool * SeenSet :=
  if bool_decide (digest ∈ Seen_index s)
  then (true, mkSeen (Seen_capacity s) (digest :: List.filter (fun d => negb (eqs d digest)) (Seen_order s)) (Seen_index s))
  else
    let s := mkSeen (Seen_capacity s) (digest :: Seen_order s) ({[digest]} ∪ Seen_index s) in
    (false, evict (length (Seen_order s)) s).

Definition Seen_Contains (digest : string) (s : SeenSet) : bool := bool_decide (digest ∈ Seen_index s).
Definition Seen_Len (s : SeenSet) : Z := len (Seen_order s).

Record Freshness : Type := mkFreshness { Fresh_MaxAge : Z; Fresh_Skew : Z }.
Definition DefaultFreshness : Freshness := mkFreshness 0 Minute.

(** [seen] may be nil. *)
Definition Freshness_Check (f : Freshness) (digest : string) (issuedAt expiresAt now : time) (seen : option SeenSet) : Z * option SeenSet :=
  let stale :=
    if IsZero issuedAt then true
    else if now + Fresh_Skew f <? issuedAt then true
    else (0 <? Fresh_MaxAge f) && (Fresh_MaxAge f <? Sub now issuedAt) in
  let expired := negb (IsZero expiresAt) && (expiresAt <? now - Fresh_Skew f) in
  let taint := if stale || expired then TaintStale else 0 in
  match seen with
  | None => (taint, None)
  | Some s => let '(replayed, s') := Observe digest s in ((if replayed then Z.lor taint TaintReplayed else taint), Some s')
  end.
Definition CheckReceipt (digest : string) (issuedAt expiresAt now : time) (seen : option SeenSet) : Z * option SeenSet :=
  Freshness_Check DefaultFreshness digest issuedAt expiresAt now seen.

(** ** Bounded JSON (internal/trust/nesting.go) *)

Record JSONLimits : Type := mkLimits { MaxBytes : Z; MaxDepth : Z; MaxTokens : Z; MaxStringBytes : Z; MaxNumberBytes : Z }.

Definition DefaultMaxJSONBytes : Z := 4194304.
Definition DefaultMaxDepth : Z := 32.
Definition DefaultMaxTokens : Z := 100000.
Definition DefaultMaxStringBytes : Z := 65536.
Definition DefaultMaxNumberBytes : Z := 64.
Definition DefaultJSONLimits : JSONLimits := mkLimits DefaultMaxJSONBytes DefaultMaxDepth DefaultMaxTokens DefaultMaxStringBytes DefaultMaxNumberBytes.

Definition orDefault (v d : Z) : Z := if v <=? 0 then d else v.
Definition withDefaults (l : JSONLimits) : JSONLimits :=
  mkLimits (orDefault (MaxBytes l) DefaultMaxJSONBytes) (orDefault (MaxDepth l) DefaultMaxDepth) (orDefault (MaxTokens l) DefaultMaxTokens)
    (orDefault (MaxStringBytes l) DefaultMaxStringBytes) (orDefault (MaxNumberBytes l) DefaultMaxNumberBytes).

Definition ErrJSONOversized : error := errorsNew "trust: json exceeds byte limit".
Definition ErrJSONDepth : error := errorsNew "trust: json nesting exceeds depth limit".
Definition ErrJSONTokens : error := errorsNew "trust: json exceeds token limit".
Definition ErrJSONStringLength : error := errorsNew "trust: json string exceeds length limit".
Definition ErrJSONNumberLength : error := errorsNew "trust: json number exceeds length limit".
Definition ErrJSONDuplicateKey : error := errorsNew "trust: json object repeats a key".
Definition ErrJSONTrailing : error := errorsNew "trust: json has trailing content".
Definition ErrJSONMalformed : error := errorsNew "trust: json is malformed".
Definition ErrJSONEmpty : error := errorsNew "trust: json is empty".

(** [json.Token]: a delimiter that opens or closes an object or an array, a
    string, a number, or a literal. *)
Inductive jsonToken : Type :=
| DelimOpen (object : bool)
| DelimClose (object : bool)
| TokenString (value : list Z)
| TokenNumber (value : list Z)
| TokenLiteral.

Record jsonFrame : Type := mkFrame { Frame_object : bool; Frame_expectKey : bool; Frame_keys : gset (list Z) }.

(** A typed error with the depth it was met at. *)
Record JSONError : Type := mkJSONError { JSON_Err : error; JSON_Depth : Z }.

Section JSON.
Context {U : UnicodeTables}.
Context (tokenize : list Z -> list jsonToken * bool).

Definition scanned (value : list Z) : Z := match Scan value with Ok t => t | Err _ => 0 end.

(** [expectKey] of the innermost object changes after each of its tokens and
    after each value that closes in it. *)
Definition toggled (stack : list jsonFrame) : list jsonFrame :=
  match stack with
  | f :: r => if Frame_object f then mkFrame true (negb (Frame_expectKey f)) (Frame_keys f) :: r else stack
  | [] => []
  end.

(** The loop over the tokens; [ends] says that the tokenizer ends at the end
    of the text and not in an error. *)
Fixpoint walkJSON (limits : JSONLimits) (ends : bool) (tokens : list jsonToken) (stack : list jsonFrame) (count : Z) (taint : Z) : Z * option JSONError :=
  let fail taint e := (taint, Some (mkJSONError e (len stack))) in
  match tokens with
  | [] => if ends then fail taint (if count =? 0 then ErrJSONEmpty else ErrJSONMalformed) else fail taint ErrJSONMalformed
  | token :: rest =>
      let count := count + 1 in
      let next stack taint :=
        match toggled stack with
        | [] => match rest with [] => if ends then (taint, None) else (taint, Some (mkJSONError ErrJSONTrailing 0)) | _ => (taint, Some (mkJSONError ErrJSONTrailing 0)) end
        | f :: r => walkJSON limits ends rest (f :: r) count taint
        end in
      if MaxTokens limits <? count then fail (Z.lor taint TaintOversized) ErrJSONTokens else
      match token with
      | DelimOpen object =>
          if MaxDepth limits <? len stack + 1 then fail (Z.lor taint TaintOversized) ErrJSONDepth
          else walkJSON limits ends rest (mkFrame object object ∅ :: stack) count taint
      | DelimClose _ => next (tail stack) taint
      | TokenString value =>
          if MaxStringBytes limits <? len value then fail (Z.lor taint TaintOversized) ErrJSONStringLength else
          let taint := Z.lor taint (scanned value) in
          match stack with
          | f :: r =>
              if Frame_object f && Frame_expectKey f then
                (if bool_decide (value ∈ Frame_keys f) then fail (Z.lor taint TaintDuplicateFields) ErrJSONDuplicateKey
                 else next (mkFrame (Frame_object f) (Frame_expectKey f) ({[value]} ∪ Frame_keys f) :: r) taint)
              else next stack taint
          | [] => next stack taint
          end
      | TokenNumber value =>
          if MaxNumberBytes limits <? len value then fail (Z.lor taint TaintOversized) ErrJSONNumberLength else next stack taint
      | TokenLiteral => next stack taint
      end
  end.

(** [len(bytes.TrimSpace(raw)) == 0]. *)
Definition blankJSON (raw : list Z) : bool := forallb unicodeIsSpace (runes raw).

Definition BoundedJSON (raw : list Z) (limits : JSONLimits) : Z * option JSONError :=
  let limits := withDefaults limits in
  if MaxBytes limits <? len raw then (TaintOversized, Some (mkJSONError ErrJSONOversized 0))
  else if blankJSON raw then (0, Some (mkJSONError ErrJSONEmpty 0))
  else walkJSON limits (snd (tokenize raw)) (fst (tokenize raw)) [] 0 0.

End JSON.
