(* ===== verification/NanoLang.v ===== *)
(** * The Nano language (core/nano/nano.go)

    Watchdog programs: the tokenizer, the recursive-descent parser, the
    admission profile and the canonical form a program is identified by. The
    JSON encoder of the canonical form is a parameter of its digest. *)

From S2P Require Import Prelude Sha256 Digest Plan.
From stdpp Require Import base list strings pretty.
From Stdlib Require Import ZArith Lia SpecFloat.

Open Scope Z_scope.

(** ** Limits and errors *)

Definition IRVersion : string := "0.1.0".

Definition ErrLimitExceeded : error := errorsNew "nano resource limit exceeded".
Definition ErrAdmissionDenied : error := errorsNew "nano program is outside the AntiFlock intent profile".
Definition ErrInvalidFrame : error := errorsNew "nano evaluation frame is invalid".
Definition ErrInstructionLimit : error := errorsNew "nano instruction budget exhausted".
Definition ErrNanoLimits : error := errorsNew "every Nano resource limit must be positive".
Definition ErrNanoName : error := errorsNew "nano program name is required".
Definition ErrNanoEmpty : error := errorsNew "nano strategy requires at least one IR node".

(** [SyntaxError]: its text. The quoted byte of an unexpected character is
    left out of the message. *)
Definition syntax (message : string) (line column : Z) : error :=
  errorsNew (message +:+ " at line " +:+ pretty line +:+ ", column " +:+ pretty column).

Record Limits : Type := mkLimits {
  MaxSourceBytes : Z;
  MaxTokens : Z;
  MaxAgents : Z;
  MaxConditions : Z;
  MaxIntents : Z;
  MaxSignals : Z;
  MaxTimestamps : Z;
  MaxInstructions : Z;
  MaxOutputs : Z;
}.

Definition DefaultLimits : Limits := mkLimits (Z.shiftl 64 10) 4096 16 64 16 128 1024 8192 128.

Definition Limits_validate (limits : Limits) : result unit :=
  reject existsb (fun value => value <? 1)
           [MaxSourceBytes limits; MaxTokens limits; MaxAgents limits; MaxConditions limits; MaxIntents limits; MaxSignals limits;
            MaxTimestamps limits; MaxInstructions limits; MaxOutputs limits] with ErrNanoLimits;
  Ok tt.

(** ** Numbers

    [float64] is IEEE binary64. [strconv.ParseFloat] of decimal digits with an
    optional fraction rounds the decimal to the nearest float, ties to even;
    out of range it is an error. *)

Abbreviation float64 := spec_float (only parsing).

Definition float64_finite (v : float64) : bool :=
  match v with S754_nan | S754_infinity _ => false | _ => true end.

(** [m / d] rounded. *)
Definition roundRatio (m d : positive) : float64 :=
  let '(q, e, l) := SFdiv_core_binary 53 1024 (Zpos m) 0 (Zpos d) 0 in
  binary_round_aux 53 1024 false q e l.

Definition digit (b : Z) : bool := (48 <=? b) && (b <=? 57).

(** Horner's rule on decimal digits. *)
Definition decimal (bs : list Z) : Z := foldl (fun acc b => acc * 10 + (b - 48)) 0 bs.

(** The longest prefix whose bytes satisfy [p], and the rest. *)
Fixpoint span (p : Z -> bool) (bs : list Z) : list Z * list Z :=
  match bs with
  | b :: r => if p b then let '(taken, rest) := span p r in (b :: taken, rest) else ([], bs)
  | [] => ([], [])
  end.

Definition ParseFloat (s : string) : option float64 :=
  let '(whole, rest) := span digit (bytes_of s) in
  let fraction := drop 1 rest in
  let v := match decimal (whole ++ fraction), 10 ^ len fraction with
           | Zpos m, Zpos d => roundRatio m d
           | _, _ => S754_zero false
           end in
  if float64_finite v then Some v else None.

(** ** Programs *)

Record Schedule : Type := mkSchedule { Schedule_Interval : string; Schedule_Seconds : Z }.

Record Condition : Type := mkCondition {
  Condition_Signal : string;
  Condition_Operator : string;
  Condition_Value : float64;
}.

Record Intent : Type := mkIntent {
  Intent_Action : string;
  Intent_Asset : string;
  Intent_Confidence : option float64;
}.

Record Program : Type := mkProgram {
  Program_Name : string;
  Program_Schedule : option Schedule;
  Program_Conditions : list Condition;
  Program_Intents : list Intent;
  Program_Agents : list string;
}.

Definition AdmitWatchdog (program : Program) : result unit :=
  each (fun intent =>
    reject negb (eqs (Intent_Action intent) "EXECUTE") && negb (eqs (Intent_Action intent) "OBSERVE") with ErrAdmissionDenied;
    reject negb (eqs (Intent_Asset intent) EmptyString) || isSome (Intent_Confidence intent) with ErrAdmissionDenied;
    Ok tt) (Program_Intents program).

(** ** The tokenizer *)

Inductive kind : Type := LBRACE | RBRACE | LPAREN | RPAREN | COMMA | OP | IDENT | INT | FLOAT | INTERVAL | EOF.
#[export] Instance kind_eq_dec : EqDecision kind.
Proof. solve_decision. Defined.

Record token : Type := mkToken {
  Token_kind : kind;
  Token_value : string;
  Token_line : Z;
  Token_column : Z;
}.

Definition identifierStart (b : Z) : bool := ((97 <=? b) && (b <=? 122)) || ((65 <=? b) && (b <=? 90)) || (b =? 95).
Definition identifierPart (b : Z) : bool := identifierStart b || digit b.

(** The kinds of the five punctuation bytes. *)
Definition punctuation (b : Z) : option kind :=
  if b =? 123 then Some LBRACE else if b =? 125 then Some RBRACE else if b =? 40 then Some LPAREN
  else if b =? 41 then Some RPAREN else if b =? 44 then Some COMMA else None.

(** One turn of the loop: white space or a comment was skipped, a token was
    read, or the source is refused. *)
Inductive lexed : Type :=
| Skipped (rest : list Z) (line column : Z)
| Lexed (t : token) (rest : list Z) (column : Z)
| Refused (e : error).

(** After the digits of a number: an interval when identifier bytes follow. *)
Definition lexNumber (k : kind) (text rest : list Z) (line column : Z) : lexed :=
  let '(suffix, after) := span identifierPart rest in
  match suffix with
  | [] => Lexed (mkToken k (string_of_bytes text) line column) rest (column + len text)
  | _ =>
      let value := text ++ suffix in
      let unit := List.last value 0 in
      if negb (bool_decide (k = INT)) || (len value <? 2) || negb (existsb (Z.eqb unit) [115; 109; 104; 100])
         || negb (forallb digit (removelast value))
      then Refused (syntax "malformed interval" line column)
      else Lexed (mkToken INTERVAL (string_of_bytes value) line column) after (column + len value)
  end.

Definition lexOne (b : Z) (bs : list Z) (line column : Z) : lexed :=
  if b =? 10 then Skipped bs (line + 1) 1
  else if (b =? 32) || (b =? 9) || (b =? 13) then Skipped bs line (column + 1)
  else if (b =? 47) && bool_decide (head bs = Some 47) then
    let '(comment, rest) := span (fun c => negb (c =? 10)) (b :: bs) in Skipped rest line (column + len comment)
  else match punctuation b with
  | Some k => Lexed (mkToken k (string_of_bytes [b]) line column) bs (column + 1)
  | None =>
    if (b =? 60) || (b =? 62) then
      if bool_decide (head bs = Some 61) then Lexed (mkToken OP (string_of_bytes [b; 61]) line column) (drop 1 bs) (column + 2)
      else Lexed (mkToken OP (string_of_bytes [b]) line column) bs (column + 1)
    else if (b =? 61) || (b =? 33) then
      if bool_decide (head bs = Some 61) then Lexed (mkToken OP (string_of_bytes [b; 61]) line column) (drop 1 bs) (column + 2)
      else Refused (syntax "unknown comparison operator" line column)
    else if identifierStart b then
      let '(name, rest) := span identifierPart (b :: bs) in
      Lexed (mkToken IDENT (string_of_bytes name) line column) rest (column + len name)
    else if digit b then
      let '(whole, rest) := span digit (b :: bs) in
      if bool_decide (head rest = Some 46) then
        let '(fraction, after) := span digit (drop 1 rest) in
        match fraction with
        | [] => Refused (syntax "digits are required after a decimal point" line column)
        | _ => lexNumber FLOAT (whole ++ 46 :: fraction) after line column
        end
      else lexNumber INT whole rest line column
    else Refused (syntax "unexpected character" line column)
  end.

Definition ErrFuel : error := errorsNew "out of fuel".

(** The loop of [tokenize]; [budget] is how many more tokens may be added.
    Every turn consumes a byte. *)
Fixpoint scan (fuel : nat) (budget : Z) (bs : list Z) (line column : Z) : result (list token) :=
  match bs with
  | [] => Ok [mkToken EOF EmptyString line column]
  | b :: r =>
      match fuel with
      | O => Err ErrFuel
      | S fuel =>
          match lexOne b r line column with
          | Skipped rest line column => scan fuel budget rest line column
          | Refused e => Err e
          | Lexed t rest column =>
              reject budget <? 1 with ErrLimitExceeded;
              do ts <- scan fuel (budget - 1) rest line column; Ok (t :: ts)
          end
      end
  end.

Definition tokenize (source : string) (maximum : Z) : result (list token) :=
  let bs := bytes_of source in scan (length bs) maximum bs 1 1.

(** ** The parser

    The state is the tokens from the index on. The last is EOF, which [take]
    never passes, so the state is never empty. *)

Definition parser (A : Type) : Type := list token -> result (A * list token).

Definition current (ts : list token) : token := match ts with t :: _ => t | [] => mkToken EOF EmptyString 0 0 end.
Definition takeToken (ts : list token) : list token :=
  if bool_decide (Token_kind (current ts) = EOF) then ts else drop 1 ts.

Definition syntaxAt {A : Type} (message : string) (t : token) : result A := Err (syntax message (Token_line t) (Token_column t)).

Definition expect (k : kind) (description : string) : parser token := fun ts =>
  let value := current ts in
  if negb (bool_decide (Token_kind value = k)) then syntaxAt ("expected " +:+ description) value
  else Ok (value, takeToken ts).

Definition keyword (value : string) (ts : list token) : bool :=
  bool_decide (Token_kind (current ts) = IDENT) && eqs (Token_value (current ts)) value.

Definition expectKeyword (value : string) : parser unit := fun ts =>
  if negb (keyword value ts) then syntaxAt ("expected keyword " +:+ value) (current ts) else Ok (tt, takeToken ts).

Definition number (description : string) : parser float64 := fun ts =>
  let value := current ts in
  if negb (bool_decide (Token_kind value = INT)) && negb (bool_decide (Token_kind value = FLOAT))
  then syntaxAt ("expected numeric " +:+ description) value
  else match ParseFloat (Token_value value) with
       | Some parsed => Ok (parsed, takeToken ts)
       | None => syntaxAt ("invalid numeric " +:+ description) value
       end.

Definition MaxInt64 : Z := 2 ^ 63 - 1.

Definition multiplier (b : Z) : option Z :=
  if b =? 115 then Some 1 else if b =? 109 then Some 60 else if b =? 104 then Some 3600 else if b =? 100 then Some 86400 else None.

Definition ErrInterval : error := errorsNew "invalid interval".
Definition ErrIntervalPositive : error := errorsNew "interval must be positive".

(** [strconv.ParseInt] of the text before the unit: digits only, within
    64 bits. *)
Definition intervalSeconds (value : string) : result Z :=
  let bs := bytes_of value in
  reject len bs <? 2 with ErrInterval;
  let text := removelast bs in
  let amount := decimal text in
  reject negb (forallb digit text) || (MaxInt64 <? amount) || (amount <=? 0) with ErrIntervalPositive;
  match multiplier (List.last bs 0) with
  | Some m => reject MaxInt64 / m <? amount with ErrInterval; Ok (amount * m)
  | None => Err ErrInterval
  end.

Definition parseCondition : parser Condition := fun ts =>
  do '(signal, ts) <- expect IDENT "signal name" ts;
  do '(_, ts) <- (if bool_decide (Token_kind (current ts) = LPAREN)
                  then do '(_, ts) <- expect INT "integer signal argument" (takeToken ts); expect RPAREN ")" ts
                  else Ok (current ts, ts));
  do '(operator, ts) <- expect OP "comparison operator" ts;
  do '(value, ts) <- number "condition value" ts;
  Ok (mkCondition (Token_value signal) (Token_value operator) value, ts).

Definition canonicalAction (name : string) : option string :=
  if eqs name "buy" then Some "BUY" else if eqs name "sell" then Some "SELL" else if eqs name "execute" then Some "EXECUTE"
  else if eqs name "pause" then Some "PAUSE" else if eqs name "observe" then Some "OBSERVE" else None.

Definition trades (action : string) : bool := eqs action "BUY" || eqs action "SELL".

Definition float64_one : float64 := roundRatio 1 1.

(** [value < 0 || value > 1]. *)
Definition outsideUnit (value : float64) : bool := SFltb value (S754_zero false) || SFltb float64_one value.

Definition parseConfidence (action : token) : parser (option float64) := fun ts =>
  if bool_decide (Token_kind (current ts) = COMMA) then
    do '(value, ts) <- number "confidence" (takeToken ts);
    if outsideUnit value then syntaxAt "confidence must be within [0, 1]" action else Ok (Some value, ts)
  else Ok (None, ts).

Definition parseIntent : parser Intent := fun ts =>
  let action := current ts in
  let ts := takeToken ts in
  match canonicalAction (Token_value action) with
  | None => syntaxAt "unknown action" action
  | Some canonical =>
      do '(_, ts) <- expect LPAREN "(" ts;
      do '(intent, ts) <-
        (if trades canonical then
           do '(asset, ts) <- expect IDENT "asset name" ts;
           do '(confidence, ts) <- parseConfidence action ts;
           Ok (mkIntent canonical (Token_value asset) confidence, ts)
         else Ok (mkIntent canonical EmptyString None, ts));
      do '(_, ts) <- expect RPAREN ")" ts;
      Ok (intent, ts)
  end.

(** The loops of a rule, given what was parsed before; every turn takes a
    token, so the number of tokens, and one for the turn that fails, is fuel
    enough. *)
Fixpoint parseConditions (fuel : nat) (limits : Limits) (parsed : list Condition) : parser (list Condition) := fun ts =>
  match fuel with
  | O => Err ErrFuel
  | S fuel =>
      do '(condition, ts) <- parseCondition ts;
      let parsed := parsed ++ [condition] in
      reject MaxConditions limits <? len parsed with ErrLimitExceeded;
      if keyword "and" ts then parseConditions fuel limits parsed (takeToken ts) else Ok (parsed, ts)
  end.

Fixpoint parseIntents (fuel : nat) (limits : Limits) (parsed : list Intent) : parser (list Intent) := fun ts =>
  if bool_decide (Token_kind (current ts) = IDENT) then
    match fuel with
    | O => Err ErrFuel
    | S fuel =>
        do '(intent, ts) <- parseIntent ts;
        let parsed := parsed ++ [intent] in
        reject MaxIntents limits <? len parsed with ErrLimitExceeded;
        parseIntents fuel limits parsed ts
    end
  else Ok (parsed, ts).

Definition parseRule (limits : Limits) : parser (list Condition * list Intent) := fun ts =>
  let ts := takeToken ts in
  do '(conditions, ts) <- parseConditions (S (length ts)) limits [] ts;
  do '(_, ts) <- expect LBRACE "rule opening brace" ts;
  if negb (bool_decide (Token_kind (current ts) = IDENT)) then syntaxAt "rule requires at least one action" (current ts) else
  do '(intents, ts) <- parseIntents (length ts) limits [] ts;
  do '(_, ts) <- expect RBRACE "rule closing brace" ts;
  Ok ((conditions, intents), ts).

(** What a schedule sets of the program. *)
Definition withSchedule (program : Program) (schedule : Schedule) (rule : list Condition * list Intent) : Program :=
  mkProgram (Program_Name program) (Some schedule) (fst rule) (snd rule) (Program_Agents program).

Definition withAgent (program : Program) (agent : string) : Program :=
  mkProgram (Program_Name program) (Program_Schedule program) (Program_Conditions program) (Program_Intents program)
    (Program_Agents program ++ [agent]).

Definition parseSchedule (limits : Limits) (program : Program) : parser Program := fun ts =>
  do '(interval, ts) <- expect INTERVAL "schedule interval" (takeToken ts);
  match intervalSeconds (Token_value interval) with
  | Err (errorsNew message) => syntaxAt message interval
  | Ok seconds =>
      do '(_, ts) <- expect LBRACE "{" ts;
      do '(rule, ts) <- (if keyword "if" ts then parseRule limits ts else Ok (([], []), ts));
      if keyword "if" ts then syntaxAt "at most one rule is allowed" (current ts) else
      do '(_, ts) <- expect RBRACE "schedule closing brace" ts;
      Ok (withSchedule program (mkSchedule (Token_value interval) seconds) rule, ts)
  end.

(** The loop over the items of a strategy. *)
Fixpoint parseItems (fuel : nat) (limits : Limits) (program : Program) : parser Program := fun ts =>
  if bool_decide (Token_kind (current ts) = RBRACE) then Ok (program, ts) else
  if bool_decide (Token_kind (current ts) = EOF) then syntaxAt "unterminated strategy block" (current ts) else
  match fuel with
  | O => Err ErrFuel
  | S fuel =>
      if keyword "agent" ts then
        do '(agent, ts) <- expect IDENT "agent name" (takeToken ts);
        let program := withAgent program (Token_value agent) in
        reject MaxAgents limits <? len (Program_Agents program) with ErrLimitExceeded;
        parseItems fuel limits program ts
      else if keyword "every" ts then
        if isSome (Program_Schedule program) then syntaxAt "at most one schedule is allowed" (current ts) else
        do '(program, ts) <- parseSchedule limits program ts;
        parseItems fuel limits program ts
      else syntaxAt "expected every or agent" (current ts)
  end.

Definition parseProgram (limits : Limits) (ts : list token) : result Program :=
  do '(_, ts) <- expectKeyword "strategy" ts;
  do '(name, ts) <- expect IDENT "strategy name" ts;
  do '(_, ts) <- expect LBRACE "{" ts;
  do '(program, ts) <- parseItems (length ts) limits (mkProgram (Token_value name) None [] [] []) ts;
  let ts := takeToken ts in
  if negb (bool_decide (Token_kind (current ts) = EOF)) then syntaxAt "unexpected input after strategy" (current ts) else
  Ok program.

Definition NanoCompile (source : string) (limits : Limits) : result Program :=
  ensure Limits_validate limits;
  reject (slen source =? 0) || (MaxSourceBytes limits <? slen source) || negb (validUTF8 (bytes_of source)) with ErrLimitExceeded;
  do tokens <- tokenize source (MaxTokens limits);
  do program <- parseProgram limits tokens;
  reject negb (isSome (Program_Schedule program)) && (len (Program_Agents program) =? 0) with ErrNanoEmpty;
  Ok program.

(** ** The canonical form *)

Record irNode : Type := mkIRNode {
  Node_Type : string;
  Node_Interval : string;
  Node_Signal : string;
  Node_Operator : string;
  Node_Value : option float64;
  Node_Action : string;
  Node_Asset : string;
  Node_Confidence : option float64;
  Node_Name : string;
}.

Record canonicalIR : Type := mkIR {
  IR_Type : string;
  IR_Version : string;
  IR_Name : string;
  IR_Effects : list string;
  IR_Nodes : list irNode;
}.

Definition scheduleNode (s : Schedule) : irNode :=
  mkIRNode "Schedule" (Schedule_Interval s) EmptyString EmptyString None EmptyString EmptyString None EmptyString.
Definition conditionNode (c : Condition) : irNode :=
  mkIRNode "Condition" EmptyString (Condition_Signal c) (Condition_Operator c) (Some (Condition_Value c)) EmptyString EmptyString None EmptyString.
Definition intentNode (i : Intent) : irNode :=
  mkIRNode "Intent" EmptyString EmptyString EmptyString None (Intent_Action i) (Intent_Asset i) (Intent_Confidence i) EmptyString.
Definition agentNode (name : string) : irNode :=
  mkIRNode "Agent" EmptyString EmptyString EmptyString None EmptyString EmptyString None name.

Definition irOf (program : Program) : canonicalIR :=
  mkIR "Strategy" IRVersion (Program_Name program) ["intent.emit"; "log.append"]
    ((match Program_Schedule program with Some s => [scheduleNode s] | None => [] end)
     ++ (conditionNode <$> Program_Conditions program) ++ (intentNode <$> Program_Intents program) ++ (agentNode <$> Program_Agents program)).

Section Canonical.
Context {H : Hasher} (irJSON : canonicalIR -> option (list Z)).

Definition ErrEncodeIR : error := errorsNew "encode Nano program".

Definition CanonicalJSON (program : Program) : result (list Z) :=
  reject eqs (TrimSpace (Program_Name program)) EmptyString with ErrNanoName;
  match irJSON (irOf program) with Some canonical => Ok canonical | None => Err ErrEncodeIR end.

Definition Program_Digest (program : Program) : result string :=
  do canonical <- CanonicalJSON program;
  Ok ("sha256:" +:+ hexEncode (sum256 canonical)).
End Canonical.
