(* ===== verification/Events.v ===== *)
(** * Event envelopes (internal/model)

    [EventEnvelope] of model.go with its validation, the evidence rule of
    event_validation.go, and the two directions of event_proto.go between the
    model and the antiflock.v1 wire message. The fields of the two records are
    those of the source; enumerations are strings in the model and integers
    on the wire, related by the generated tables written out below; a
    [float32] is its bits; unknown wire fields, at any depth, are one flag of
    the message.

    The protobuf reflection that checks a payload, and [proto.Size], are
    parameters. *)

From S2P Require Import Prelude Sha256 Digest Contract Plan.
From stdpp Require Import base gmap list strings pretty.
From Stdlib Require Import ZArith Lia.

Open Scope Z_scope.

(** ** The model *)

Record EventEvidence : Type := mkEventEvidence {
  EE_ID : string;
  EE_Role : string;
  EE_Classification : string;
  EE_SourceType : string;
  EE_Source : string;
  EE_SourceURI : string;
  EE_ObservedAt : time;
  EE_ReceivedAt : option time;
  EE_LastVerifiedAt : option time;
  EE_ExpiresAt : option time;
  EE_Confidence : Z;
  EE_Sensitivity : string;
  EE_LocationPrecision : string;
  EE_Explanation : string;
  EE_Integrity : IntegrityDigest;
  EE_SourceLicense : string;
  EE_Attributes : gmap string string;
}.

Record EventSignature : Type := mkEventSignature {
  ES_KeyID : string;
  ES_Algorithm : string;
  ES_Value : list Z;
  ES_SignedAt : time;
  ES_Encoding : string;
  ES_SignedContentDigest : IntegrityDigest;
  ES_Domain : string;
}.

Record EventEnvelope : Type := mkEvent {
  Event_ID : string;
  Event_SchemaVersion : string;
  Event_DeploymentID : string;
  Event_NodeID : string;
  Event_Kind : string;
  Event_ObservedAt : time;
  Event_ReceivedAt : time;
  Event_Sequence : Z;
  Event_BootID : string;
  Event_Classification : string;
  Event_Confidence : Z;
  Event_Sensitivity : string;
  Event_PayloadTypeURL : string;
  Event_Payload : list Z;
  Event_Evidence : list EventEvidence;
  Event_CorrelationID : string;
  Event_CausationID : string;
  Event_PayloadDigest : IntegrityDigest;
  Event_SourceSignature : EventSignature;
  Event_IngestOrdinal : Z;
}.

Definition noDigest : IntegrityDigest := mkIntegrity EmptyString [].
Definition noSignature : EventSignature := mkEventSignature EmptyString EmptyString [] zeroTime EmptyString noDigest EmptyString.

Definition setReceivedAt (t : time) (e : EventEnvelope) : EventEnvelope :=
  mkEvent (Event_ID e) (Event_SchemaVersion e) (Event_DeploymentID e) (Event_NodeID e) (Event_Kind e) (Event_ObservedAt e) t
    (Event_Sequence e) (Event_BootID e) (Event_Classification e) (Event_Confidence e) (Event_Sensitivity e) (Event_PayloadTypeURL e)
    (Event_Payload e) (Event_Evidence e) (Event_CorrelationID e) (Event_CausationID e) (Event_PayloadDigest e) (Event_SourceSignature e)
    (Event_IngestOrdinal e).
Definition setIngestOrdinal (n : Z) (e : EventEnvelope) : EventEnvelope :=
  mkEvent (Event_ID e) (Event_SchemaVersion e) (Event_DeploymentID e) (Event_NodeID e) (Event_Kind e) (Event_ObservedAt e) (Event_ReceivedAt e)
    (Event_Sequence e) (Event_BootID e) (Event_Classification e) (Event_Confidence e) (Event_Sensitivity e) (Event_PayloadTypeURL e)
    (Event_Payload e) (Event_Evidence e) (Event_CorrelationID e) (Event_CausationID e) (Event_PayloadDigest e) (Event_SourceSignature e) n.
Definition setPayloadDigest (d : IntegrityDigest) (e : EventEnvelope) : EventEnvelope :=
  mkEvent (Event_ID e) (Event_SchemaVersion e) (Event_DeploymentID e) (Event_NodeID e) (Event_Kind e) (Event_ObservedAt e) (Event_ReceivedAt e)
    (Event_Sequence e) (Event_BootID e) (Event_Classification e) (Event_Confidence e) (Event_Sensitivity e) (Event_PayloadTypeURL e)
    (Event_Payload e) (Event_Evidence e) (Event_CorrelationID e) (Event_CausationID e) d (Event_SourceSignature e) (Event_IngestOrdinal e).
Definition setSourceSignature (s : EventSignature) (e : EventEnvelope) : EventEnvelope :=
  mkEvent (Event_ID e) (Event_SchemaVersion e) (Event_DeploymentID e) (Event_NodeID e) (Event_Kind e) (Event_ObservedAt e) (Event_ReceivedAt e)
    (Event_Sequence e) (Event_BootID e) (Event_Classification e) (Event_Confidence e) (Event_Sensitivity e) (Event_PayloadTypeURL e)
    (Event_Payload e) (Event_Evidence e) (Event_CorrelationID e) (Event_CausationID e) (Event_PayloadDigest e) s (Event_IngestOrdinal e).

(** ** Small checks *)

(** [slices.Contains]. *)
Definition containsValue (values : list string) (v : string) : bool := existsb (eqs v) values.

Definition evidenceClasses : list string := ["DETECTED"; "VERIFIED"; "REPORTED"; "INFERRED"; "SUSPECTED"; "UNKNOWN"]%string.
Definition sensitivities : list string := ["PUBLIC"; "INTERNAL"; "OPERATOR_PRIVATE"; "RESTRICTED"; "SECRET"]%string.
Definition EvidenceClass_Valid (c : string) : bool := containsValue evidenceClasses c.
Definition Sensitivity_Valid (s : string) : bool := containsValue sensitivities s.
Definition EvidenceVerified : string := "VERIFIED".

Definition boundedString (value : string) (maximum : Z) : bool :=
  negb (eqs value EmptyString) && (slen value <=? maximum) && trimmed value.
Definition optionalBoundedString (value : string) (maximum : Z) : bool := eqs value EmptyString || boundedString value maximum.
Definition validLocationPrecision (value : string) : bool :=
  containsValue [EmptyString; "WITHHELD"; "REGION"; "CITY"; "NEIGHBORHOOD"; "BLOCK"; "EXACT"]%string value.
Definition validEvidenceRole (value : string) : bool := containsValue ["SUPPORTING"; "CONTRADICTING"; "CONTEXT"]%string value.
Definition validEvidenceSource (value : string) : bool :=
  containsValue ["LOCAL_SENSOR"; "AUTHORIZED_GATEWAY"; "PROVIDER_API"; "PUBLIC_RECORD"; "PUBLIC_DATASET"; "COMMUNITY_REPORT";
            "TRUSTED_REVIEWER"; "DETERMINISTIC_RULE"; "OPERATOR_DECLARATION"]%string value.

(** A lookup in a map literal: the zero value when absent. *)
Fixpoint lookupName (table : list (string * Z)) (name : string) : Z :=
  match table with
  | [] => 0
  | (n, v) :: rest => if eqs n name then v else lookupName rest name
  end.

Definition sensitivityRank (value : string) : Z :=
  lookupName [("PUBLIC", 1); ("INTERNAL", 2); ("OPERATOR_PRIVATE", 3); ("RESTRICTED", 4); ("SECRET", 5)]%string value.

(** [strings.Contains(s, ".")]. *)
Definition containsDot (s : string) : bool := containsAny s [46].

(** NaN, infinite, below zero or above one. *)
Definition badConfidence (c : Z) : bool := float32_nan c || float32_inf c || float32_negative c || float32_above_one c.

Definition validProtoTime (t : time) : bool := Timestamp_CheckValid (Timestamp_New t).

(** ** Errors *)

Definition ErrEventID : error := errorsNew "event id is required".
Definition ErrEventSchema : error := errorsNew "event schema version must be antiflock.event/v1".
Definition ErrEventDeployment : error := errorsNew "event deployment id is required".
Definition ErrEventNode : error := errorsNew "event node id is required".
Definition ErrEventKind : error := errorsNew "event kind must be a namespaced value".
Definition ErrEventObserved : error := errorsNew "event observed time is required".
Definition ErrProtoTime : error := errorsNew "%s: %w".
Definition ErrEventRange : error := errorsNew "event observed time is outside the durable cursor range".
Definition ErrEventSequence : error := errorsNew "event sequence must be positive".
Definition ErrEventSequenceRange : error := errorsNew "event sequence exceeds durable storage range".
Definition ErrEventBoot : error := errorsNew "event boot id is required".
Definition ErrEventClassification : error := errorsNew "invalid evidence classification %q".
Definition ErrEventConfidence : error := errorsNew "event confidence must be between 0 and 1".
Definition ErrEventSensitivity : error := errorsNew "invalid event sensitivity %q".
Definition ErrEventTypeURL : error := errorsNew "event payload type URL is required".
Definition ErrEventCorrelation : error := errorsNew "event correlation and causation ids must be canonical and at most 128 bytes".
Definition ErrEventDigestShape : error := errorsNew "event payload digest must be SHA-256".
Definition ErrEventDigest : error := errorsNew "event payload digest does not match the payload".
Definition ErrEvidenceCount : error := errorsNew "event evidence exceeds 64 references".
Definition ErrEvidenceIdentity : error := errorsNew "evidence %d requires an id, role, and source type".
Definition ErrEvidenceClass : error := errorsNew "evidence %d has invalid classification %q".
Definition ErrEvidenceConfidence : error := errorsNew "evidence %d confidence must be between 0 and 1".
Definition ErrEvidenceSource : error := errorsNew "evidence %d requires source and explanation".
Definition ErrEvidenceURI : error := errorsNew "evidence %d has an invalid source URI or license".
Definition ErrEvidenceLocation : error := errorsNew "evidence %d has invalid location precision %q".
Definition ErrEvidenceIntegrity : error := errorsNew "evidence %d integrity must be SHA-256".
Definition ErrEvidenceSensitivity : error := errorsNew "evidence %d sensitivity exceeds its event envelope".
Definition ErrEvidenceExpiry : error := errorsNew "evidence %d expiry must follow observation".
Definition ErrEvidencePredates : error := errorsNew "evidence %d verification predates observation".
Definition ErrEvidenceAttributes : error := errorsNew "evidence %d has too many attributes".
Definition ErrEvidenceAttribute : error := errorsNew "evidence %d has an oversized attribute".
Definition ErrPayloadRequired : error := errorsNew "event protobuf payload is required".
Definition ErrPayloadSize : error := errorsNew "event payload exceeds %d bytes".
Definition ErrPayloadURL : error := errorsNew "event payload type URL must use type.googleapis.com".
Definition ErrPayloadType : error := errorsNew "event kind %q requires payload type %q".
Definition ErrVerifiedEvidence : error := errorsNew "VERIFIED events require fresh supporting VERIFIED evidence with verification time and integrity".
Definition ErrSignatureKeyID : error := errorsNew "key id is required".
Definition ErrSignatureAlgorithm : error := errorsNew "algorithm must be ED25519".
Definition ErrSignatureLength : error := errorsNew "Ed25519 signature must be 64 bytes".
Definition ErrSignatureTime : error := errorsNew "signed time is required".
Definition ErrSignatureEncoding : error := errorsNew "encoding must be PROTOBUF_DETERMINISTIC_V1".
Definition ErrSignatureDomain : error := errorsNew "domain must be antiflock.event.v1".
Definition ErrSignatureContent : error := errorsNew "signed content digest must be SHA-256".

(** ** Payload contracts *)

Definition MaximumEventWireBytes : Z := 1024 * 1024.
Definition MaximumPayloadBytes : Z := 256 * 1024.
Definition typePrefix : string := "type.googleapis.com/".

(** [payloadContracts]: the message a registered kind carries. *)
Definition payloadContracts : list (string * string) :=
  [("node.enrolled", "antiflock.v1.Node"); ("node.suspended", "antiflock.v1.Node"); ("node.revoked", "antiflock.v1.Node");
   ("node.heartbeat", "antiflock.v1.NodeHeartbeat"); ("node.capabilities_changed", "antiflock.v1.CapabilityManifest");
   ("network.interface_changed", "antiflock.v1.NetworkInterfaceObservation"); ("network.gateway_changed", "antiflock.v1.GatewayObservation");
   ("network.wifi_changed", "antiflock.v1.WifiObservation"); ("network.route_changed", "antiflock.v1.RouteObservation");
   ("network.dns_changed", "antiflock.v1.DnsObservation"); ("flow.started", "antiflock.v1.FlowObservation");
   ("flow.updated", "antiflock.v1.FlowObservation"); ("flow.ended", "antiflock.v1.FlowObservation");
   ("service.listening", "antiflock.v1.ListeningServiceObservation"); ("mesh.peer_changed", "antiflock.v1.MeshPeerObservation");
   ("mesh.path_changed", "antiflock.v1.MeshPathObservation"); ("mesh.exit_changed", "antiflock.v1.MeshPathObservation");
   ("mesh.connection_lost", "antiflock.v1.MeshPathObservation"); ("posture.changed", "antiflock.v1.ProtectionSnapshot");
   ("policy.compiled", "antiflock.v1.Plan"); ("policy.applied", "antiflock.v1.PlanExecutionResult");
   ("policy.failed", "antiflock.v1.PlanExecutionResult"); ("policy.rolled_back", "antiflock.v1.PlanExecutionResult");
   ("finding.opened", "antiflock.v1.Finding"); ("finding.updated", "antiflock.v1.Finding"); ("finding.resolved", "antiflock.v1.Finding");
   ("action.held", "antiflock.v1.SecureActionDecision"); ("action.allowed", "antiflock.v1.SecureActionDecision");
   ("action.blocked", "antiflock.v1.SecureActionDecision"); ("action.bypassed", "antiflock.v1.SecureActionDecision");
   ("field.report_imported", "antiflock.v1.FieldReport"); ("field.report_submitted", "antiflock.v1.FieldReport");
   ("field.report_verified", "antiflock.v1.FieldReport"); ("field.report_expired", "antiflock.v1.FieldReport");
   ("field.report_disputed", "antiflock.v1.FieldReport"); ("field.report_removed", "antiflock.v1.FieldReport");
   ("scrambler.state_proposed", "antiflock.v1.ScramblerTransition"); ("scrambler.state_applied", "antiflock.v1.ScramblerTransition");
   ("scrambler.state_failed", "antiflock.v1.ScramblerTransition"); ("scrambler.state_rolled_back", "antiflock.v1.ScramblerTransition")]%string.

Definition contractOf (kind : string) : option string :=
  snd <$> List.find (fun entry => eqs (fst entry) kind) payloadContracts.

Section Events.
Context {H : Hasher}.
(** What the reflection over a payload of a registered message answers (it
    decodes, has no unknown fields, is canonical, and no sensitivity inside
    it exceeds the envelope's), and whether other bytes are fields. *)
Context (checkMessage : string -> list Z -> string -> result unit) (validateOpaqueProtobuf : list Z -> result unit).

Definition validateEventPayload (kind typeURL : string) (value : list Z) (envelopeSensitivity : string) : result unit :=
  reject len value =? 0 with ErrPayloadRequired;
  reject MaximumPayloadBytes <? len value with ErrPayloadSize;
  reject negb (hasPrefix typeURL typePrefix) with ErrPayloadURL;
  match contractOf kind with
  | None => validateOpaqueProtobuf value
  | Some message =>
      reject negb (eqs typeURL (typePrefix +:+ message)) with ErrPayloadType;
      checkMessage message value envelopeSensitivity
  end.

(** ** Validation *)

Definition sha256Digest (d : IntegrityDigest) : bool :=
  eqs (Integrity_Algorithm d) "sha256" && (len (Integrity_Digest d) =? sha256_Size).

(** The three optional times of the map; which of two bad ones is reported
    depends on Go's map order, and no caller tells them apart. *)
Definition validEvidence_times (e : EventEvidence) : bool :=
  forallb (fun o => match o with Some t => validProtoTime t | None => true end) [EE_ReceivedAt e; EE_LastVerifiedAt e; EE_ExpiresAt e].

Definition validateEvidence (sensitivity : string) (e : EventEvidence) : result unit :=
  reject negb (boundedString (EE_ID e) 128) || negb (validEvidenceRole (EE_Role e)) || negb (validEvidenceSource (EE_SourceType e)) with ErrEvidenceIdentity;
  reject negb (EvidenceClass_Valid (EE_Classification e)) with ErrEvidenceClass;
  reject badConfidence (EE_Confidence e) with ErrEvidenceConfidence;
  reject negb (boundedString (EE_Source e) 256) || negb (boundedString (EE_Explanation e) 2048) || IsZero (EE_ObservedAt e) with ErrEvidenceSource;
  reject negb (optionalBoundedString (EE_SourceURI e) 2048) || negb (optionalBoundedString (EE_SourceLicense e) 256) with ErrEvidenceURI;
  reject negb (validLocationPrecision (EE_LocationPrecision e)) with ErrEvidenceLocation;
  reject negb (validProtoTime (EE_ObservedAt e)) with ErrProtoTime;
  reject negb (validEvidence_times e) with ErrProtoTime;
  reject (negb (eqs (Integrity_Algorithm (EE_Integrity e)) EmptyString) || negb (len (Integrity_Digest (EE_Integrity e)) =? 0))
         && negb (sha256Digest (EE_Integrity e)) with ErrEvidenceIntegrity;
  reject negb (Sensitivity_Valid (EE_Sensitivity e)) || (sensitivityRank sensitivity <? sensitivityRank (EE_Sensitivity e)) with ErrEvidenceSensitivity;
  reject match EE_ExpiresAt e with Some t => negb (EE_ObservedAt e <? t) | None => false end with ErrEvidenceExpiry;
  reject match EE_LastVerifiedAt e with Some t => t <? EE_ObservedAt e | None => false end with ErrEvidencePredates;
  reject 32 <? Z.of_nat (size (EE_Attributes e)) with ErrEvidenceAttributes;
  reject negb (forallb (fun '(key, value) => boundedString key 128 && boundedString value 1024) (map_to_list (EE_Attributes e))) with ErrEvidenceAttribute;
  Ok tt.

Definition ValidateSourceContent (e : EventEnvelope) : result unit :=
  reject negb (boundedString (Event_ID e) 128) with ErrEventID;
  reject negb (eqs (Event_SchemaVersion e) "antiflock.event/v1") with ErrEventSchema;
  reject negb (boundedString (Event_DeploymentID e) 128) with ErrEventDeployment;
  reject negb (boundedString (Event_NodeID e) 128) with ErrEventNode;
  reject negb (boundedString (Event_Kind e) 128) || negb (containsDot (Event_Kind e)) with ErrEventKind;
  reject IsZero (Event_ObservedAt e) with ErrEventObserved;
  reject negb (validProtoTime (Event_ObservedAt e)) with ErrProtoTime;
  reject (Event_ObservedAt e <? - 2 ^ 63) || (2 ^ 63 - 1 <? Event_ObservedAt e) with ErrEventRange;
  reject Event_Sequence e =? 0 with ErrEventSequence;
  reject 2 ^ 63 - 1 <? Event_Sequence e with ErrEventSequenceRange;
  reject negb (boundedString (Event_BootID e) 128) with ErrEventBoot;
  reject negb (EvidenceClass_Valid (Event_Classification e)) with ErrEventClassification;
  reject badConfidence (Event_Confidence e) with ErrEventConfidence;
  reject negb (Sensitivity_Valid (Event_Sensitivity e)) with ErrEventSensitivity;
  reject negb (boundedString (Event_PayloadTypeURL e) 256) with ErrEventTypeURL;
  reject negb (optionalBoundedString (Event_CorrelationID e) 128) || negb (optionalBoundedString (Event_CausationID e) 128) with ErrEventCorrelation;
  ensure validateEventPayload (Event_Kind e) (Event_PayloadTypeURL e) (Event_Payload e) (Event_Sensitivity e);
  reject negb (sha256Digest (Event_PayloadDigest e)) with ErrEventDigestShape;
  reject negb (bool_decide (sum256 (Event_Payload e) = Integrity_Digest (Event_PayloadDigest e))) with ErrEventDigest;
  reject 64 <? len (Event_Evidence e) with ErrEvidenceCount;
  each (validateEvidence (Event_Sensitivity e)) (Event_Evidence e).

Definition EventSignature_Validate (s : EventSignature) : result unit :=
  reject eqs (TrimSpace (ES_KeyID s)) EmptyString with ErrSignatureKeyID;
  reject negb (eqs (ES_Algorithm s) "ED25519") with ErrSignatureAlgorithm;
  reject negb (len (ES_Value s) =? 64) with ErrSignatureLength;
  reject IsZero (ES_SignedAt s) with ErrSignatureTime;
  reject negb (eqs (ES_Encoding s) "PROTOBUF_DETERMINISTIC_V1") with ErrSignatureEncoding;
  reject negb (eqs (ES_Domain s) "antiflock.event.v1") with ErrSignatureDomain;
  reject negb (sha256Digest (ES_SignedContentDigest s)) with ErrSignatureContent;
  Ok tt.

Definition EventEnvelope_Validate (e : EventEnvelope) : result unit :=
  ensure ValidateSourceContent e;
  EventSignature_Validate (Event_SourceSignature e).

(** The body of the loop of [ValidateEvidenceAt]: this reference settles it. *)
Definition freshSupport (now : time) (e : EventEvidence) : bool :=
  eqs (EE_Role e) "SUPPORTING" && eqs (EE_Classification e) EvidenceVerified
  && match EE_LastVerifiedAt e with
     | None => false
     | Some verified =>
         negb ((now + 5 * Minute <? verified) || match EE_ExpiresAt e with Some expires => negb (now <? expires) | None => false end)
         && sha256Digest (EE_Integrity e)
     end.

Definition ValidateEvidenceAt (e : EventEnvelope) (now : time) : result unit :=
  if negb (eqs (Event_Classification e) EvidenceVerified) then Ok tt else
  if existsb (freshSupport now) (Event_Evidence e) then Ok tt else Err ErrVerifiedEvidence.

End Events.

(** ** The wire message *)

Record wireEvidence : Type := mkWireEvidence {
  WE_Id : string;
  WE_Role : Z;
  WE_Classification : Z;
  WE_SourceType : Z;
  WE_SourceName : string;
  WE_SourceUri : string;
  WE_ObservedAt : option Timestamp;
  WE_ReceivedAt : option Timestamp;
  WE_LastVerifiedAt : option Timestamp;
  WE_ExpiresAt : option Timestamp;
  WE_Confidence : Z;
  WE_Sensitivity : Z;
  WE_LocationPrecision : Z;
  WE_Summary : string;
  WE_Integrity : option IntegrityDigest;
  WE_SourceLicense : string;
  WE_Attributes : gmap string string;
}.

(** [anypb.Any]. *)
Record wireAny : Type := mkAny { Any_TypeUrl : string; Any_Value : list Z }.

Record wireEvent : Type := mkWire {
  Wire_Id : string;
  Wire_SchemaVersion : string;
  Wire_DeploymentId : string;
  Wire_NodeId : string;
  Wire_Kind : string;
  Wire_ObservedAt : option Timestamp;
  Wire_ReceivedAt : option Timestamp;
  Wire_Sequence : Z;
  Wire_BootId : string;
  Wire_Classification : Z;
  Wire_Confidence : Z;
  Wire_Sensitivity : Z;
  Wire_Payload : option wireAny;
  Wire_Evidence : list (option wireEvidence);
  Wire_CorrelationId : string;
  Wire_CausationId : string;
  Wire_PayloadDigest : option IntegrityDigest;
  Wire_SourceSignature : option Signature;
  Wire_Unknown : bool;          (** unknown wire fields, at any depth *)
}.

(** [wire.ReceivedAt = nil] and [wire.SourceSignature = nil]. *)
Definition clearReceived (w : wireEvent) : wireEvent :=
  mkWire (Wire_Id w) (Wire_SchemaVersion w) (Wire_DeploymentId w) (Wire_NodeId w) (Wire_Kind w) (Wire_ObservedAt w) None
    (Wire_Sequence w) (Wire_BootId w) (Wire_Classification w) (Wire_Confidence w) (Wire_Sensitivity w) (Wire_Payload w) (Wire_Evidence w)
    (Wire_CorrelationId w) (Wire_CausationId w) (Wire_PayloadDigest w) (Wire_SourceSignature w) (Wire_Unknown w).
Definition clearSignature (w : wireEvent) : wireEvent :=
  mkWire (Wire_Id w) (Wire_SchemaVersion w) (Wire_DeploymentId w) (Wire_NodeId w) (Wire_Kind w) (Wire_ObservedAt w) (Wire_ReceivedAt w)
    (Wire_Sequence w) (Wire_BootId w) (Wire_Classification w) (Wire_Confidence w) (Wire_Sensitivity w) (Wire_Payload w) (Wire_Evidence w)
    (Wire_CorrelationId w) (Wire_CausationId w) (Wire_PayloadDigest w) None (Wire_Unknown w).

(** The generated tables, with the prefix of their names cut off. *)
Definition EvidenceClass_names : list (string * Z) :=
  [("UNSPECIFIED", 0); ("DETECTED", 1); ("VERIFIED", 2); ("REPORTED", 3); ("INFERRED", 4); ("SUSPECTED", 5); ("UNKNOWN", 6)]%string.
Definition Sensitivity_names : list (string * Z) :=
  [("UNSPECIFIED", 0); ("PUBLIC", 1); ("INTERNAL", 2); ("OPERATOR_PRIVATE", 3); ("RESTRICTED", 4); ("SECRET", 5)]%string.
Definition EvidenceRole_names : list (string * Z) := [("UNSPECIFIED", 0); ("SUPPORTING", 1); ("CONTRADICTING", 2); ("CONTEXT", 3)]%string.
Definition EvidenceSourceType_names : list (string * Z) :=
  [("UNSPECIFIED", 0); ("LOCAL_SENSOR", 1); ("AUTHORIZED_GATEWAY", 2); ("PROVIDER_API", 3); ("PUBLIC_RECORD", 4); ("PUBLIC_DATASET", 5);
   ("COMMUNITY_REPORT", 6); ("TRUSTED_REVIEWER", 7); ("DETERMINISTIC_RULE", 8); ("OPERATOR_DECLARATION", 9)]%string.
Definition LocationPrecision_names : list (string * Z) :=
  [("UNSPECIFIED", 0); ("WITHHELD", 1); ("REGION", 2); ("CITY", 3); ("NEIGHBORHOOD", 4); ("BLOCK", 5); ("EXACT", 6)]%string.
Definition SignatureAlgorithm_names : list (string * Z) := [("UNSPECIFIED", 0); ("ED25519", 1); ("ECDSA_P256_SHA256", 2)]%string.
Definition SignatureEncoding_names : list (string * Z) := [("UNSPECIFIED", 0); ("PROTOBUF_DETERMINISTIC_V1", 1)]%string.

(** [trimEnum] of [String()] of an enumeration: an unknown number prints as
    its digits. *)
Definition trimEnum (table : list (string * Z)) (v : Z) : string :=
  match List.find (fun entry => snd entry =? v) table with
  | Some (name, _) => name
  | None => pretty v
  end.
Definition enumListed (table : list (string * Z)) (v : Z) : bool := existsb (fun entry => snd entry =? v) table.

Definition locationPrecisionFromProto (v : Z) : string := if v =? 0 then EmptyString else trimEnum LocationPrecision_names v.

Definition ErrTimeRequired : error := errorsNew "%s is required".
Definition ErrEvidenceReference : error := errorsNew "evidence reference is required".
Definition ErrEventProto : error := errorsNew "event protobuf is required".
Definition ErrEnvelopeSize : error := errorsNew "event envelope exceeds %d bytes".
Definition ErrUnknownFields : error := errorsNew "protobuf message contains unknown fields".
Definition ErrEventPayload : error := errorsNew "event payload is required".

Definition requiredTimestamp (t : time) : result (option Timestamp) :=
  reject IsZero t with ErrTimeRequired;
  reject negb (Timestamp_CheckValid (Timestamp_New t)) with ErrProtoTime;
  Ok (Some (Timestamp_New t)).

Definition optionalTimestamp (t : option time) : result (option Timestamp) :=
  match t with
  | None => Ok None
  | Some t => if IsZero t then Ok None else requiredTimestamp t
  end.

Definition timestampToTime (t : option Timestamp) (required : bool) : result time :=
  match t with
  | None => if required then Err ErrTimeRequired else Ok zeroTime
  | Some t => reject negb (Timestamp_CheckValid t) with ErrProtoTime; Ok (AsTime t)
  end.

Definition timestampToPointer (t : option Timestamp) : result (option time) :=
  do converted <- timestampToTime t false;
  Ok (if IsZero converted then None else Some converted).

Definition digestToProto (d : IntegrityDigest) : option IntegrityDigest :=
  if eqs (Integrity_Algorithm d) EmptyString && (len (Integrity_Digest d) =? 0) then None else Some d.
Definition digestFromProto (d : option IntegrityDigest) : IntegrityDigest := default noDigest d.

Definition evidenceToProto (e : EventEvidence) : result wireEvidence :=
  do observedAt <- requiredTimestamp (EE_ObservedAt e);
  do receivedAt <- optionalTimestamp (EE_ReceivedAt e);
  do lastVerifiedAt <- optionalTimestamp (EE_LastVerifiedAt e);
  do expiresAt <- optionalTimestamp (EE_ExpiresAt e);
  Ok (mkWireEvidence (EE_ID e) (lookupName EvidenceRole_names (EE_Role e)) (lookupName EvidenceClass_names (EE_Classification e))
        (lookupName EvidenceSourceType_names (EE_SourceType e)) (EE_Source e) (EE_SourceURI e) observedAt receivedAt lastVerifiedAt expiresAt
        (EE_Confidence e) (lookupName Sensitivity_names (EE_Sensitivity e)) (lookupName LocationPrecision_names (EE_LocationPrecision e))
        (EE_Explanation e) (digestToProto (EE_Integrity e)) (EE_SourceLicense e) (EE_Attributes e)).

Definition evidenceFromProto (o : option wireEvidence) : result EventEvidence :=
  match o with
  | None => Err ErrEvidenceReference
  | Some w =>
      do observedAt <- timestampToTime (WE_ObservedAt w) true;
      do receivedAt <- timestampToPointer (WE_ReceivedAt w);
      do lastVerifiedAt <- timestampToPointer (WE_LastVerifiedAt w);
      do expiresAt <- timestampToPointer (WE_ExpiresAt w);
      Ok (mkEventEvidence (WE_Id w) (trimEnum EvidenceRole_names (WE_Role w)) (trimEnum EvidenceClass_names (WE_Classification w))
            (trimEnum EvidenceSourceType_names (WE_SourceType w)) (WE_SourceName w) (WE_SourceUri w) observedAt receivedAt lastVerifiedAt expiresAt
            (WE_Confidence w) (trimEnum Sensitivity_names (WE_Sensitivity w)) (locationPrecisionFromProto (WE_LocationPrecision w))
            (WE_Summary w) (digestFromProto (WE_Integrity w)) (WE_SourceLicense w) (WE_Attributes w))
  end.

Definition signatureToProto (s : EventSignature) : result Signature :=
  do signedAt <- requiredTimestamp (ES_SignedAt s);
  Ok (mkSignature (ES_KeyID s) (lookupName SignatureAlgorithm_names (ES_Algorithm s)) (ES_Value s) signedAt
        (lookupName SignatureEncoding_names (ES_Encoding s)) (digestToProto (ES_SignedContentDigest s)) (ES_Domain s)).

Definition signatureFromProto (s : Signature) : result EventSignature :=
  do signedAt <- timestampToTime (Signature_SignedAt s) true;
  Ok (mkEventSignature (Signature_KeyId s) (trimEnum SignatureAlgorithm_names (Signature_Algorithm s)) (Signature_Value s) signedAt
        (trimEnum SignatureEncoding_names (Signature_Encoding s)) (digestFromProto (Signature_SignedContentDigest s)) (Signature_Domain s)).

(** A loop that converts each element, the first error wins. *)
Fixpoint mapR {A B : Type} (f : A -> result B) (l : list A) : result (list B) :=
  match l with
  | [] => Ok []
  | x :: rest => do y <- f x; do ys <- mapR f rest; Ok (y :: ys)
  end.

Definition EventToProto (e : EventEnvelope) : result wireEvent :=
  do observedAt <- requiredTimestamp (Event_ObservedAt e);
  do receivedAt <- (if IsZero (Event_ReceivedAt e) then Ok None else requiredTimestamp (Event_ReceivedAt e));
  do evidence <- mapR evidenceToProto (Event_Evidence e);
  do signature <- (if negb (eqs (ES_KeyID (Event_SourceSignature e)) EmptyString) || (0 <? len (ES_Value (Event_SourceSignature e)))
                   then do s <- signatureToProto (Event_SourceSignature e); Ok (Some s) else Ok None);
  Ok (mkWire (Event_ID e) (Event_SchemaVersion e) (Event_DeploymentID e) (Event_NodeID e) (Event_Kind e) observedAt receivedAt
        (Event_Sequence e) (Event_BootID e) (lookupName EvidenceClass_names (Event_Classification e)) (Event_Confidence e)
        (lookupName Sensitivity_names (Event_Sensitivity e)) (Some (mkAny (Event_PayloadTypeURL e) (Event_Payload e))) (Some <$> evidence)
        (Event_CorrelationID e) (Event_CausationID e) (digestToProto (Event_PayloadDigest e)) signature false).

(** [RejectUnknownFields] of a wire event: the enumerations it carries. *)
Definition wireKnown (w : wireEvent) : bool :=
  negb (Wire_Unknown w) && enumListed EvidenceClass_names (Wire_Classification w) && enumListed Sensitivity_names (Wire_Sensitivity w)
  && forallb (fun o => match o with
       | None => true
       | Some v => enumListed EvidenceRole_names (WE_Role v) && enumListed EvidenceClass_names (WE_Classification v)
                   && enumListed EvidenceSourceType_names (WE_SourceType v) && enumListed Sensitivity_names (WE_Sensitivity v)
                   && enumListed LocationPrecision_names (WE_LocationPrecision v)
       end) (Wire_Evidence w)
  && match Wire_SourceSignature w with
     | None => true
     | Some s => enumListed SignatureAlgorithm_names (Signature_Algorithm s) && enumListed SignatureEncoding_names (Signature_Encoding s)
     end.

Section Wire.
Context (wireSize : wireEvent -> Z).

Definition EventFromProto (o : option wireEvent) : result EventEnvelope :=
  match o with
  | None => Err ErrEventProto
  | Some w =>
      reject MaximumEventWireBytes <? wireSize w with ErrEnvelopeSize;
      reject negb (wireKnown w) with ErrUnknownFields;
      do observedAt <- timestampToTime (Wire_ObservedAt w) true;
      do receivedAt <- timestampToTime (Wire_ReceivedAt w) false;
      match Wire_Payload w with
      | None => Err ErrEventPayload
      | Some payload =>
          do evidence <- mapR evidenceFromProto (Wire_Evidence w);
          do signature <- match Wire_SourceSignature w with None => Ok noSignature | Some s => signatureFromProto s end;
          Ok (mkEvent (Wire_Id w) (Wire_SchemaVersion w) (Wire_DeploymentId w) (Wire_NodeId w) (Wire_Kind w) observedAt receivedAt
                (Wire_Sequence w) (Wire_BootId w) (trimEnum EvidenceClass_names (Wire_Classification w)) (Wire_Confidence w)
                (trimEnum Sensitivity_names (Wire_Sensitivity w)) (Any_TypeUrl payload) (Any_Value payload) evidence
                (Wire_CorrelationId w) (Wire_CausationId w) (digestFromProto (Wire_PayloadDigest w)) signature 0)
      end
  end.
End Wire.

(** * Event signatures (core/events/signing.go)

    A source signs the digest of its envelope without the receipt time and
    the signature; Core recomputes it. [proto.Marshal] with [Deterministic]
    and [proto.Unmarshal] of an envelope are the class [EventCodec], with the
    round trip as its law. *)

Definition signatureProtocol : string := "AntiFlock-Signature-v1".
Definition eventDomain : string := "antiflock.event.v1".

(** A message the encoding keeps apart from every other: a repeated field
    holds no nil pointer, and no wire field is unknown. *)
Definition plainWire (w : wireEvent) : bool := forallb isSome (Wire_Evidence w) && negb (Wire_Unknown w).

Class EventCodec : Type := {
  eventMarshal : wireEvent -> option (list Z);
  eventUnmarshal : list Z -> option wireEvent;
  event_codec : forall w b, plainWire w = true -> eventMarshal w = Some b -> eventUnmarshal b = Some w;
  event_codec_bytes : forall w b, eventMarshal w = Some b -> Forall is_byte b;
}.

Definition ErrSigningKey : error := errorsNew "event signing key must be Ed25519".
Definition ErrSigningKeyID : error := errorsNew "event signing key id is required".
Definition ErrSigningTime : error := errorsNew "event signed time is required".
Definition ErrEnrolledKey : error := errorsNew "enrolled event key is not Ed25519".
Definition ErrSignatureNode : error := errorsNew "event signature key id does not match node id".
Definition ErrContentDigest : error := errorsNew "event signed-content digest mismatch".
Definition ErrSourceSignature : error := errorsNew "event source signature verification failed".
Definition ErrEncodeSignable : error := errorsNew "deterministically encode signable event: %w".
Definition ErrEventSignatureProfile : error := errorsNew "unsupported event signature profile".
Definition ErrEventSignatureDigest : error := errorsNew "unsupported event signature digest".
Definition ErrEventSignatureTime : error := errorsNew "event signature time is required".
Definition ErrSignedUnknown : error := errorsNew "signed event contains unknown protobuf fields".

Section Signing.
Context {H : Hasher} {E : Ed25519} {EC : EventCodec}.
Context (checkMessage : string -> list Z -> string -> result unit) (validateOpaqueProtobuf : list Z -> result unit).

Abbreviation Validate := (EventEnvelope_Validate checkMessage validateOpaqueProtobuf).

Definition rejectUnknown (w : wireEvent) : result unit := reject Wire_Unknown w with ErrSignedUnknown; Ok tt.

Definition marshalWire (failed : error) (w : wireEvent) : result (list Z) :=
  match eventMarshal w with Some encoded => Ok encoded | None => Err failed end.

Definition signingDigest (e : EventEnvelope) : result (list Z) :=
  do wire <- EventToProto e;
  let wire := clearSignature (clearReceived wire) in
  ensure rejectUnknown wire;
  do encoded <- marshalWire ErrEncodeSignable wire;
  Ok (sum256 encoded).

Definition CanonicalSourceEnvelope (e : EventEnvelope) : result (list Z) :=
  do wire <- EventToProto e;
  let wire := clearReceived wire in
  ensure rejectUnknown wire;
  marshalWire ErrEncodeSignable wire.

Definition eventSignatureInput (s : EventSignature) : result (list Z) :=
  reject negb (eqs (ES_Algorithm s) "ED25519") || negb (eqs (ES_Encoding s) "PROTOBUF_DETERMINISTIC_V1")
         || negb (eqs (ES_Domain s) eventDomain) with ErrEventSignatureProfile;
  reject negb (sha256Digest (ES_SignedContentDigest s)) with ErrEventSignatureDigest;
  reject IsZero (ES_SignedAt s) with ErrEventSignatureTime;
  Ok (dw_preimage [bytes_of signatureProtocol; bytes_of (ES_Domain s); be_bytes 4 1;
        bytes_of (Integrity_Algorithm (ES_SignedContentDigest s)); Integrity_Digest (ES_SignedContentDigest s);
        be_bytes 8 (Unix (ES_SignedAt s)); be_bytes 4 (Nanosecond (ES_SignedAt s))]).

Definition signed (s : EventSignature) (value : list Z) : EventSignature :=
  mkEventSignature (ES_KeyID s) (ES_Algorithm s) value (ES_SignedAt s) (ES_Encoding s) (ES_SignedContentDigest s) (ES_Domain s).

(** The source fills the envelope in place; what a failure leaves there is
    dropped by every caller. *)
Definition SignAt (e : EventEnvelope) (keyID : string) (privateKey : list Z) (signedAt : time) : result EventEnvelope :=
  reject negb (len privateKey =? PrivateKeySize) with ErrSigningKey;
  reject eqs keyID EmptyString with ErrSigningKeyID;
  reject IsZero signedAt with ErrSigningTime;
  let e := setPayloadDigest (mkIntegrity "sha256" (sum256 (Event_Payload e))) e in
  ensure ValidateSourceContent checkMessage validateOpaqueProtobuf e;
  do digest <- signingDigest e;
  let signature := mkEventSignature keyID "ED25519" [] signedAt "PROTOBUF_DETERMINISTIC_V1" (mkIntegrity "sha256" digest) eventDomain in
  do signedBytes <- eventSignatureInput signature;
  let e := setSourceSignature (signed signature (ed_sign privateKey signedBytes)) e in
  ensure Validate e;
  Ok e.

Definition VerifySource (e : EventEnvelope) (publicKey : list Z) : result unit :=
  reject negb (len publicKey =? PublicKeySize) with ErrEnrolledKey;
  ensure Validate e;
  reject negb (eqs (ES_KeyID (Event_SourceSignature e)) (Event_NodeID e)) with ErrSignatureNode;
  do digest <- signingDigest e;
  reject negb (bool_decide (digest = Integrity_Digest (ES_SignedContentDigest (Event_SourceSignature e)))) with ErrContentDigest;
  do signedBytes <- eventSignatureInput (Event_SourceSignature e);
  reject negb (ed_verify publicKey signedBytes (ES_Value (Event_SourceSignature e))) with ErrSourceSignature;
  Ok tt.

End Signing.
