(* ===== verification/EventStore.v ===== *)
(** * The event log of Core (core/storage/events.go, core/events/store.go)

    The tables of the database that events touch are explicit state; every
    SQL statement may fail ([sqlFails], indexed by ticks, which also covers
    the end of a context), and a transaction that does not commit leaves the
    tables as they were. The columns that hold the text of a time hold the
    time itself. [crypto/x509] is a parsed certificate and a predicate.

    [Store] adds the checks of an envelope against its node and the live
    subscriptions, which are channels with a bounded buffer. *)

From S2P Require Import Prelude Sha256 Digest Contract Plan Events.
From stdpp Require Import base gmap list strings pretty.
From Stdlib Require Import ZArith Lia.

Open Scope Z_scope.

(** ** The tables *)

(** A row of [events], by the columns the code reads back. *)
Record eventRow : Type := mkRow {
  Row_ingest_ordinal : Z;
  Row_id : string;
  Row_node_id : string;
  Row_boot_id : string;
  Row_sequence : Z;
  Row_received_at : Z;
  Row_classification : string;
  Row_sensitivity : string;
  Row_envelope_proto : list Z;
}.

Record NodeEventState : Type := mkNodeState {
  NS_CurrentBootID : string;
  NS_HighestContiguousSequence : Z;
  NS_LastEventID : string;
  NS_UpdatedAt : time;
}.

Record eventBoot : Type := mkBoot { Boot_highest : Z; Boot_started_at : time; Boot_updated_at : time }.

(** A row of [nodes]; a column with the JSON of a list holds the list. *)
Record Node : Type := mkEnrolled {
  Node_ID : string;
  Node_DisplayName : string;
  Node_NodeType : string;
  Node_Platform : string;
  Node_PlatformVersion : string;
  Node_Status : string;
  Node_Tags : list string;
  Node_Capabilities : string;
  Node_CapabilitiesVerification : string;
  Node_PublicKey : list Z;
  Node_CertificatePEM : string;
  Node_EnrolledAt : time;
  Node_LastSeenAt : option time;
  Node_RevokedAt : option time;
  Node_LastPolicyRevision : Z;
}.

Record ProjectionCursor : Type := mkProjection {
  PC_LastIngestOrdinal : Z;
  PC_LastReceivedAt : time;
  PC_LastEventID : string;
  PC_UpdatedAt : time;
}.

(** [db_ordinal] is what AUTOINCREMENT last handed out. *)
Record DB : Type := mkDB {
  db_events : list eventRow;
  db_ordinal : Z;
  db_state : gmap string NodeEventState;
  db_boots : gmap (string * string) eventBoot;
  db_nodes : gmap string Node;
  db_cursors : gmap string ProjectionCursor;
}.

Definition setEvents (rows : list eventRow) (ordinal : Z) (d : DB) : DB :=
  mkDB rows ordinal (db_state d) (db_boots d) (db_nodes d) (db_cursors d).
Definition setState (node : string) (s : NodeEventState) (d : DB) : DB :=
  mkDB (db_events d) (db_ordinal d) (<[ node := s ]> (db_state d)) (db_boots d) (db_nodes d) (db_cursors d).
Definition setBoot (node boot : string) (b : eventBoot) (d : DB) : DB :=
  mkDB (db_events d) (db_ordinal d) (db_state d) (<[ (node, boot) := b ]> (db_boots d)) (db_nodes d) (db_cursors d).
Definition setNode (id : string) (n : Node) (d : DB) : DB :=
  mkDB (db_events d) (db_ordinal d) (db_state d) (db_boots d) (<[ id := n ]> (db_nodes d)) (db_cursors d).
Definition setCursor (projection : string) (c : ProjectionCursor) (d : DB) : DB :=
  mkDB (db_events d) (db_ordinal d) (db_state d) (db_boots d) (db_nodes d) (<[ projection := c ]> (db_cursors d)).

Definition rowById (id : string) (d : DB) : option eventRow := List.find (fun r => eqs (Row_id r) id) (db_events d).

(** ** Errors *)

Definition ErrEventSequenceConflict : error := errorsNew "event sequence conflicts with a different stored event".
Definition ErrEventSequenceGap : error := errorsNew "event sequence is not contiguous".
Definition ErrEventBootRegression : error := errorsNew "event boot id was already closed".
Definition ErrEventNotFound : error := errorsNew "event not found".
Definition ErrReceivedRequired : error := errorsNew "event received time is required for durable ingestion".
Definition ErrBeginAppend : error := errorsNew "begin event append: %w".
Definition ErrInspectEvent : error := errorsNew "inspect event id: %w".
Definition ErrAppendEvent : error := errorsNew "append event: %w".
Definition ErrCommitAppend : error := errorsNew "commit event append: %w".
Definition ErrReadLastSeen : error := errorsNew "read node last-seen time: %w".
Definition ErrAdvanceLastSeen : error := errorsNew "advance node last-seen time: %w".
Definition ErrReadNodeState : error := errorsNew "read node event state: %w".
Definition ErrInitState : error := errorsNew "initialize node event state: %w".
Definition ErrRecordBoot : error := errorsNew "record node event boot: %w".
Definition ErrInspectBoot : error := errorsNew "inspect node boot history: %w".
Definition ErrRecordNewBoot : error := errorsNew "record new node boot: %w".
Definition ErrAdvanceState : error := errorsNew "advance node event state: %w".
Definition ErrAdvanceBoot : error := errorsNew "advance node boot sequence: %w".
Definition ErrGetEvent : error := errorsNew "get event: %w".
Definition ErrListEvents : error := errorsNew "list events: %w".
Definition ErrEncodeEvent : error := errorsNew "encode event protobuf: %w".
Definition ErrEncodeSource : error := errorsNew "encode source event protobuf: %w".
Definition ErrDecodeEvent : error := errorsNew "decode event protobuf: %w".
Definition ErrStoredUnknown : error := errorsNew "stored event contains unknown protobuf fields".
Definition ErrReadCursor : error := errorsNew "read projection cursor: %w".
Definition ErrCursorRequired : error := errorsNew "projection, last event id, and update time are required".
Definition ErrBeginCursor : error := errorsNew "begin projection cursor update: %w".
Definition ErrResolveCursor : error := errorsNew "resolve projection event cursor: %w".
Definition ErrCursorOrdinal : error := errorsNew "projection cursor ordinal does not match its event".
Definition ErrCursorTime : error := errorsNew "projection cursor time does not match its event".
Definition ErrReadExisting : error := errorsNew "read existing projection cursor: %w".
Definition ErrCursorBackward : error := errorsNew "projection cursor cannot move backward".
Definition ErrCursorReplace : error := errorsNew "projection cursor cannot replace an event at the same ordinal".
Definition ErrCursorUpdate : error := errorsNew "projection cursor update time cannot move backward".
Definition ErrWriteCursor : error := errorsNew "write projection cursor: %w".
Definition ErrCommitCursor : error := errorsNew "commit projection cursor: %w".

Definition sortableTime (t : time) : Z := if IsZero t then - 2 ^ 63 else t.
Definition parseSortableTime (v : Z) : time := v.

Section Storage.
Context {H : Hasher} {E : Ed25519} {EC : EventCodec}.
Context (checkMessage : string -> list Z -> string -> result unit) (validateOpaqueProtobuf : list Z -> result unit).
Context (wireSize : wireEvent -> Z) (sqlFails : nat -> bool).

Abbreviation Validate := (EventEnvelope_Validate checkMessage validateOpaqueProtobuf).
Abbreviation MDB := (M DB).

Definition statement {T : Type} (e : error) (f : T -> T) : M T unit := fun st =>
  if sqlFails (fst st) then (Err e, (S (fst st), snd st)) else (Ok tt, (S (fst st), f (snd st))).

(** [BeginTx], the body, [Commit] when the body asks for it, and the deferred
    [Rollback]. *)
Definition dbTransaction {T A : Type} (begin commit : error) (m : M T (A * bool)) : M T A := fun st =>
  if sqlFails (fst st) then (Err begin, (S (fst st), snd st)) else
  match m (S (fst st), snd st) with
  | (Err e, (n, _)) => (Err e, (n, snd st))
  | (Ok (a, false), (n, _)) => (Ok a, (n, snd st))
  | (Ok (a, true), (n, d)) => if sqlFails n then (Err commit, (S n, snd st)) else (Ok a, (S n, d))
  end.

(** ** Encoding *)

Definition marshalEvent (e : EventEnvelope) : result (list Z) :=
  do wire <- EventToProto e;
  marshalWire ErrEncodeEvent wire.

Definition marshalSourceEvent (e : EventEnvelope) : result (list Z) :=
  do wire <- EventToProto e;
  marshalWire ErrEncodeSource (clearReceived wire).

Definition unmarshalEvent (encoded : list Z) : result EventEnvelope :=
  match eventUnmarshal encoded with
  | None => Err ErrDecodeEvent
  | Some wire =>
      reject Wire_Unknown wire with ErrStoredUnknown;
      do e <- EventFromProto wireSize (Some wire);
      ensure Validate e;
      Ok e
  end.

(** ** The contiguous sequence *)

Definition advanceEventSequence (e : EventEnvelope) : MDB unit :=
  let node := Event_NodeID e in
  let boot := Event_BootID e in
  run! statement ErrReadNodeState id in
  let! d := getS in
  match db_state d !! node with
  | None =>
      if negb (Event_Sequence e =? 1) then failM ErrEventSequenceGap else
      run! statement ErrInitState (setState node (mkNodeState boot (Event_Sequence e) (Event_ID e) (Event_ReceivedAt e))) in
      if isSome (db_boots d !! (node, boot)) then failM ErrRecordBoot else
      statement ErrRecordBoot (setBoot node boot (mkBoot (Event_Sequence e) (Event_ObservedAt e) (Event_ReceivedAt e)))
  | Some state =>
      let highest := NS_HighestContiguousSequence state in
      run! (if negb (eqs (NS_CurrentBootID state) boot) then
              run! statement ErrInspectBoot id in
              if isSome (db_boots d !! (node, boot)) then failM ErrEventBootRegression else
              if negb (Event_Sequence e =? 1) then failM ErrEventSequenceGap else
              statement ErrRecordNewBoot (setBoot node boot (mkBoot (Event_Sequence e) (Event_ObservedAt e) (Event_ReceivedAt e)))
            else if negb (Event_Sequence e =? highest + 1) then
              if Event_Sequence e <=? highest then failM ErrEventSequenceConflict else failM ErrEventSequenceGap
            else retM tt) in
      run! statement ErrAdvanceState (setState node (mkNodeState boot (Event_Sequence e) (Event_ID e) (Event_ReceivedAt e))) in
      statement ErrAdvanceBoot (fun d =>
        match db_boots d !! (node, boot) with
        | Some b => setBoot node boot (mkBoot (Event_Sequence e) (Boot_started_at b) (Event_ReceivedAt e)) d
        | None => d
        end)
  end.

Definition seen (n : Node) (t : time) : Node :=
  mkEnrolled (Node_ID n) (Node_DisplayName n) (Node_NodeType n) (Node_Platform n) (Node_PlatformVersion n) (Node_Status n) (Node_Tags n) (Node_Capabilities n)
    (Node_CapabilitiesVerification n) (Node_PublicKey n) (Node_CertificatePEM n) (Node_EnrolledAt n) (Some t) (Node_RevokedAt n) (Node_LastPolicyRevision n).

Definition advanceNodeLastSeen (nodeID : string) (receivedAt : time) : MDB unit :=
  run! statement ErrReadLastSeen id in
  let! d := getS in
  match db_nodes d !! nodeID with
  | None => retM tt
  | Some node =>
      if match Node_LastSeenAt node with Some previous => negb (previous <? receivedAt) | None => false end then retM tt else
      statement ErrAdvanceLastSeen (setNode nodeID (seen node receivedAt))
  end.

Definition rowOf (ordinal : Z) (e : EventEnvelope) (encoded : list Z) : eventRow :=
  mkRow ordinal (Event_ID e) (Event_NodeID e) (Event_BootID e) (Event_Sequence e) (sortableTime (Event_ReceivedAt e))
    (Event_Classification e) (Event_Sensitivity e) encoded.

(** The unique constraints of the table. *)
Definition insertEvent (e : EventEnvelope) (encoded : list Z) : MDB unit :=
  let! d := getS in
  if existsb (fun r => eqs (Row_id r) (Event_ID e)
       || (eqs (Row_node_id r) (Event_NodeID e) && eqs (Row_boot_id r) (Event_BootID e) && (Row_sequence r =? Event_Sequence e))) (db_events d)
  then failM ErrAppendEvent else
  statement ErrAppendEvent (fun d =>
    setEvents (db_events d ++ [rowOf (db_ordinal d + 1) e encoded]) (db_ordinal d + 1) d).

Definition AppendEvent (e : EventEnvelope) : MDB bool :=
  run! liftR (Validate e) in
  if IsZero (Event_ReceivedAt e) then failM ErrReceivedRequired else
  run! liftR (ValidateEvidenceAt e (Event_ReceivedAt e)) in
  let! encoded := liftR (marshalEvent e) in
  if MaximumEventWireBytes <? len encoded then failM ErrEnvelopeSize else
  dbTransaction ErrBeginAppend ErrCommitAppend (
    run! statement ErrInspectEvent id in
    let! d := getS in
    match rowById (Event_ID e) d with
    | Some row =>
        let! existing := liftR (unmarshalEvent (Row_envelope_proto row)) in
        let! incomingSource := liftR (marshalSourceEvent e) in
        let! existingSource := liftR (marshalSourceEvent existing) in
        if bool_decide (incomingSource = existingSource) then retM (false, false) else failM ErrEventSequenceConflict
    | None =>
        run! advanceEventSequence e in
        run! insertEvent e encoded in
        run! advanceNodeLastSeen (Event_NodeID e) (Event_ReceivedAt e) in
        retM (true, true)
    end).

(** ** Reading *)

Definition rowEvent (row : eventRow) : result EventEnvelope :=
  do e <- unmarshalEvent (Row_envelope_proto row);
  Ok (setIngestOrdinal (Row_ingest_ordinal row) e).

Definition GetEvent (eventID : string) : MDB EventEnvelope :=
  run! statement ErrGetEvent id in
  let! d := getS in
  match rowById eventID d with
  | None => failM ErrEventNotFound
  | Some row => liftR (rowEvent row)
  end.

(** The rows are in the order of their ordinals. *)
Definition ListEventsFromOrdinal (afterOrdinal limit : Z) : MDB (list EventEnvelope) :=
  let limit := if (limit <=? 0) || (1000 <? limit) then 200 else limit in
  run! statement ErrListEvents id in
  let! d := getS in
  liftR (mapR rowEvent (take (Z.to_nat limit) (List.filter (fun r => afterOrdinal <? Row_ingest_ordinal r) (db_events d)))).

Definition GetNodeEventState (nodeID : string) : MDB NodeEventState :=
  run! statement ErrReadNodeState id in
  let! d := getS in
  retM (default (mkNodeState EmptyString 0 EmptyString zeroTime) (db_state d !! nodeID)).

(** ** Projection cursors *)

Definition GetProjectionCursor (projection : string) : MDB ProjectionCursor :=
  run! statement ErrReadCursor id in
  let! d := getS in
  retM (default (mkProjection 0 zeroTime EmptyString zeroTime) (db_cursors d !! projection)).

Definition SetProjectionCursor (projection : string) (c : ProjectionCursor) : MDB unit :=
  if eqs projection EmptyString || eqs (PC_LastEventID c) EmptyString || IsZero (PC_UpdatedAt c) then failM ErrCursorRequired else
  dbTransaction ErrBeginCursor ErrCommitCursor (
    run! statement ErrResolveCursor id in
    let! d := getS in
    match rowById (PC_LastEventID c) d with
    | None => failM ErrResolveCursor
    | Some row =>
        if negb (PC_LastIngestOrdinal c =? 0) && negb (PC_LastIngestOrdinal c =? Row_ingest_ordinal row) then failM ErrCursorOrdinal else
        if negb (IsZero (PC_LastReceivedAt c)) && negb (sortableTime (PC_LastReceivedAt c) =? Row_received_at row) then failM ErrCursorTime else
        let c := mkProjection (Row_ingest_ordinal row) (parseSortableTime (Row_received_at row)) (PC_LastEventID c) (PC_UpdatedAt c) in
        run! statement ErrReadExisting id in
        let! _ := match db_cursors d !! projection with
          | None => retM tt
          | Some p =>
              if PC_LastIngestOrdinal c <? PC_LastIngestOrdinal p then failM ErrCursorBackward else
              if (PC_LastIngestOrdinal p =? PC_LastIngestOrdinal c) && negb (eqs (PC_LastEventID p) (PC_LastEventID c)) then failM ErrCursorReplace else
              if PC_UpdatedAt c <? PC_UpdatedAt p then failM ErrCursorUpdate else retM tt
          end in
        run! statement ErrWriteCursor (setCursor projection c) in
        retM (tt, true)
    end).

End Storage.
