(* ===== verification/NanoEval.v ===== *)
(** * The Nano evaluator and watchdog runner (core/nano)

    [Evaluate] of nano.go over a frame of signals and a schedule cursor, the
    frame of a finding, the proposals of proposal.go, the runner and the
    in-process cursor store of runner.go, and the cursor store over Core's
    database (storage.go, with core/storage/nano_cursors.go).

    [strconv.FormatFloat], [strings.ToUpper] and the text of a time are
    parameters. *)

From S2P Require Import Prelude Sha256 Digest Plan Events EventStore NanoLang.
From stdpp Require Import base gmap list strings pretty sorting.
From Stdlib Require Import ZArith Lia SpecFloat.

Open Scope Z_scope.

(** ** Frames and results *)

Record Frame : Type := mkFrame {
  Frame_Timestamps : list Z;
  Frame_Signals : gmap string (list float64);
}.

Record Cursor : Type := mkCursor { Cursor_Initialized : bool; Cursor_NextDueUnix : Z }.
#[export] Instance Cursor_eq_dec : EqDecision Cursor.
Proof. solve_decision. Defined.

Record EmittedIntent : Type := mkEmitted { Emitted_Action : string; Emitted_Timestamp : Z }.
Record TraceEntry : Type := mkTrace { Trace_Event : string; Trace_Timestamp : Z; Trace_Detail : string }.
Record EvaluationResult : Type := mkEvaluation {
  Eval_Intents : list EmittedIntent;
  Eval_Trace : list TraceEntry;
  Eval_Instructions : Z;
}.

Definition compare (observed : float64) (operator : string) (expected : float64) : bool :=
  if eqs operator "<" then SFltb observed expected
  else if eqs operator "<=" then SFleb observed expected
  else if eqs operator ">" then SFltb expected observed
  else if eqs operator ">=" then SFleb expected observed
  else if eqs operator "==" then SFeqb observed expected
  else if eqs operator "!=" then negb (SFeqb observed expected)
  else false.

(** ** The evaluation *)

Section Evaluate.
Context (FormatFloat : float64 -> string).

(** An index the runtime would refuse; the checks of the frame exclude it. *)
Definition ErrIndex : error := errorsNew "index out of range".

Definition formatBool (b : bool) : string := if b then "true" else "false".

Definition conditionTrace (c : Condition) (timestamp : Z) (observed : float64) (passed : bool) : TraceEntry :=
  mkTrace "condition.evaluated" timestamp
    (Condition_Signal c +:+ " " +:+ Condition_Operator c +:+ " " +:+ FormatFloat (Condition_Value c)
     +:+ " observed=" +:+ FormatFloat observed +:+ " -> " +:+ formatBool passed).

(** The conditions at one tick: whether all passed, and the result with their
    instructions and trace. *)
Fixpoint evalConditions (limits : Limits) (frame : Frame) (index : nat) (timestamp : Z) (conditions : list Condition)
    (r : EvaluationResult) : result (bool * EvaluationResult) :=
  match conditions with
  | [] => Ok (true, r)
  | c :: rest =>
      let instructions := Eval_Instructions r + 1 in
      reject MaxInstructions limits <? instructions with ErrInstructionLimit;
      match Frame_Signals frame !! Condition_Signal c with
      | None => Err ErrInvalidFrame
      | Some series =>
          match series !! index with
          | None => Err ErrIndex
          | Some observed =>
              let passed := compare observed (Condition_Operator c) (Condition_Value c) in
              let r := mkEvaluation (Eval_Intents r) (Eval_Trace r ++ [conditionTrace c timestamp observed passed]) instructions in
              if passed then evalConditions limits frame index timestamp rest r else Ok (false, r)
          end
      end
  end.

Fixpoint emitIntents (limits : Limits) (timestamp : Z) (intents : list Intent) (r : EvaluationResult) : result EvaluationResult :=
  match intents with
  | [] => Ok r
  | i :: rest =>
      let instructions := Eval_Instructions r + 1 in
      reject (MaxInstructions limits <? instructions) || (MaxOutputs limits <=? len (Eval_Intents r)) with ErrInstructionLimit;
      emitIntents limits timestamp rest
        (mkEvaluation (Eval_Intents r ++ [mkEmitted (Intent_Action i) timestamp])
           (Eval_Trace r ++ [mkTrace "intent.emitted" timestamp (Intent_Action i)]) instructions)
  end.

(** The loop over the timestamps from [index] on. *)
Fixpoint evalTicks (limits : Limits) (program : Program) (frame : Frame) (step : Z) (index : nat) (timestamps : list Z)
    (next : Cursor) (r : EvaluationResult) : result (EvaluationResult * Cursor) :=
  match timestamps with
  | [] => Ok (r, next)
  | timestamp :: rest =>
      if Cursor_Initialized next && (timestamp <? Cursor_NextDueUnix next)
      then evalTicks limits program frame step (S index) rest next r
      else
        reject MaxInt64 - step <? timestamp with ErrInvalidFrame;
        let next := mkCursor true (timestamp + step) in
        do '(passed, r) <- evalConditions limits frame index timestamp (Program_Conditions program) r;
        if (0 <? len (Program_Conditions program)) && passed then
          do r <- emitIntents limits timestamp (Program_Intents program) r;
          evalTicks limits program frame step (S index) rest next r
        else evalTicks limits program frame step (S index) rest next r
  end.

Fixpoint nondecreasing (l : list Z) : bool :=
  match l with
  | a :: ((b :: _) as r) => negb (b <? a) && nondecreasing r
  | _ => true
  end.

Definition validFrame (limits : Limits) (frame : Frame) : bool :=
  negb (len (Frame_Timestamps frame) =? 0) && (len (Frame_Timestamps frame) <=? MaxTimestamps limits)
  && (Z.of_nat (size (Frame_Signals frame)) <=? MaxSignals limits)
  && nondecreasing (Frame_Timestamps frame)
  && forallb (fun '(name, values) =>
       negb (eqs (TrimSpace name) EmptyString) && (len values =? len (Frame_Timestamps frame)) && forallb float64_finite values)
       (map_to_list (Frame_Signals frame)).

Definition intervalOf (program : Program) : Z := match Program_Schedule program with Some s => Schedule_Seconds s | None => 1 end.

(** With an error the caller is handed its own cursor back. *)
Definition Evaluate (program : Program) (frame : Frame) (cursor : Cursor) (limits : Limits) : result (EvaluationResult * Cursor) :=
  ensure Limits_validate limits;
  ensure AdmitWatchdog program;
  reject negb (validFrame limits frame) with ErrInvalidFrame;
  evalTicks limits program frame (intervalOf program) 0 (Frame_Timestamps frame) cursor
    (mkEvaluation [] [mkTrace "strategy.loaded" (hd 0 (Frame_Timestamps frame)) (Program_Name program)] 0).
End Evaluate.

(** ** Frames of findings *)

Record FindingContext : Type := mkFinding {
  Finding_FindingID : string;
  Finding_NodeID : string;
  Finding_ReasonCode : string;
  Finding_Confidence : float64;
  Finding_ObservedUnix : Z;
}.

Definition upperOrDigit (b : Z) : bool := ((65 <=? b) && (b <=? 90)) || digit b.

(** The loop of [normalizeReason] over the bytes of the upper-cased text: runs
    of other runes become one underscore, except at the start. *)
Fixpoint normalizeBytes (bs : list Z) (empty lastUnderscore : bool) : list Z :=
  match bs with
  | [] => []
  | b :: r =>
      if upperOrDigit b then b :: normalizeBytes r false false
      else if negb lastUnderscore && negb empty then 95 :: normalizeBytes r empty true
      else normalizeBytes r empty lastUnderscore
  end.

(** [strings.Trim(s, "_")]. *)
Fixpoint dropUnderscores (bs : list Z) : list Z :=
  match bs with b :: r => if b =? 95 then dropUnderscores r else bs | [] => [] end.
Definition trimUnderscores (bs : list Z) : list Z := rev (dropUnderscores (rev (dropUnderscores bs))).

(** A value of a digest, after its length in decimal and a zero byte. *)
Definition counted (value : string) : list Z := bytes_of (pretty (slen value)) ++ 0 :: bytes_of value.

Section Finding.
Context {H : Hasher} (FormatFloat : float64 -> string) (ToUpper : string -> string).

Definition normalizeReason (reason : string) : string :=
  string_of_bytes (trimUnderscores (normalizeBytes (bytes_of (ToUpper reason)) true false)).

Definition findingValues (f : FindingContext) : list string :=
  ["AntiFlock-Nano-Finding-v1"; Finding_FindingID f; Finding_NodeID f; Finding_ReasonCode f; FormatFloat (Finding_Confidence f);
   pretty (Finding_ObservedUnix f)].

Definition FrameForFinding (f : FindingContext) : result (Frame * string) :=
  reject eqs (Finding_FindingID f) EmptyString || eqs (Finding_NodeID f) EmptyString || eqs (Finding_ReasonCode f) EmptyString
         || outsideUnit (Finding_Confidence f) || negb (float64_finite (Finding_Confidence f)) with ErrInvalidFrame;
  let signal := "REASON_" +:+ normalizeReason (Finding_ReasonCode f) in
  reject eqs signal "REASON_" with ErrInvalidFrame;
  Ok (mkFrame [Finding_ObservedUnix f] (<[ signal := [float64_one] ]> {[ "CONFIDENCE" := [Finding_Confidence f] ]}),
      "sha256:" +:+ hexEncode (sum256 (flat_map counted (findingValues f)))).
End Finding.

(** ** Proposals (proposal.go) *)

Record proposalBinding : Type := mkProposalBinding {
  PB_ActionType : string;
  PB_Destination : string;
  PB_DataClass : string;
}.

Definition admittedBindings (id : string) : option proposalBinding :=
  if eqs id "scrambler-simulation-v1" then Some (mkProposalBinding "scrambler.simulate" "local://scrambler/simulation" "network-control")
  else if eqs id "fixture-shodan-query-v1"
  then Some (mkProposalBinding "watchdog.public_surface.query" "provider://fixture-shodan" "owned-public-surface")
  else if eqs id "fixture-broker-query-v1"
  then Some (mkProposalBinding "watchdog.public_surface.query" "provider://fixture-broker-registry" "owned-public-surface")
  else if eqs id "fixture-paste-query-v1"
  then Some (mkProposalBinding "watchdog.public_surface.query" "provider://fixture-paste-reference" "owned-public-surface")
  else if eqs id "countermeasure-plan-v1"
  then Some (mkProposalBinding "watchdog.countermeasure.plan" "local://countermeasure/plan" "owned-public-surface")
  else None.

Record SecureActionProposal : Type := mkProposal {
  Proposal_ID : string;
  Proposal_ApplicationID : string;
  Proposal_NodeID : string;
  Proposal_ActionType : string;
  Proposal_Destinations : list string;
  Proposal_DataClass : string;
  Proposal_Sensitivity : string;
  Proposal_Deadline : string;
  Proposal_OperationID : string;
  Proposal_BindingID : string;
  Proposal_ProgramDigest : string;
  Proposal_InputDigest : string;
}.

Definition hexByte (b : Z) : bool := digit b || ((97 <=? b) && (b <=? 102)) || ((65 <=? b) && (b <=? 70)).

Definition digestString (value : string) : bool :=
  (slen value =? 71) && hasPrefix value "sha256:" && forallb hexByte (drop 7 (bytes_of value)).

Definition opaqueByte (b : Z) : bool :=
  ((97 <=? b) && (b <=? 122)) || ((65 <=? b) && (b <=? 90)) || digit b || (b =? 46) || (b =? 95) || (b =? 45).

Definition opaque (value : string) : bool :=
  negb (eqs value EmptyString) && (slen value <=? 128) && trimmed value && all_chars opaqueByte value.

Definition ErrProposalDeadline : error := errorsNew "nano proposal deadline must be RFC3339".

Section Proposals.
Context {H : Hasher} (RFC3339Nano : time -> string) (parseTime : string -> option time).

Definition BindingDigest (id : string) : result string :=
  match admittedBindings id with
  | None => Err ErrAdmissionDenied
  | Some b =>
      Ok ("sha256:" +:+ hexEncode (sum256 (bytes_of id ++ 0 :: bytes_of "antiflock-nano" ++ 0 :: bytes_of (PB_ActionType b) ++ 0
        :: bytes_of (PB_Destination b) ++ 0 :: bytes_of (PB_DataClass b) ++ 0 :: bytes_of "SENSITIVITY_OPERATOR_PRIVATE" ++ 0
        :: bytes_of "1")))
  end.

Definition proposalSuffix (programDigest inputDigest id : string) (timestamp index : Z) : string :=
  hexEncode (take 16 (sum256 (bytes_of "AntiFlock-Nano-Proposal-v1" ++ 0 :: bytes_of programDigest ++ 0 :: bytes_of inputDigest ++ 0
    :: bytes_of id ++ 0 :: bytes_of (pretty timestamp) ++ 0 :: bytes_of (pretty index)))).

Definition proposalOf (b : proposalBinding) (id programDigest inputDigest nodeID : string) (deadline : time) (timestamp index : Z)
    : SecureActionProposal :=
  let suffix := proposalSuffix programDigest inputDigest id timestamp index in
  mkProposal ("nano-action-" +:+ suffix) "antiflock-nano" nodeID (PB_ActionType b) [PB_Destination b] (PB_DataClass b)
    "SENSITIVITY_OPERATOR_PRIVATE" (RFC3339Nano deadline) ("nano-operation-" +:+ suffix) id programDigest inputDigest.

(** The loop over the intents from [index] on. *)
Fixpoint buildProposals (b : proposalBinding) (id programDigest inputDigest nodeID : string) (deadline : time) (index : Z)
    (intents : list EmittedIntent) : result (list SecureActionProposal) :=
  match intents with
  | [] => Ok []
  | i :: rest =>
      if eqs (Emitted_Action i) "OBSERVE" then buildProposals b id programDigest inputDigest nodeID deadline (index + 1) rest else
      reject negb (eqs (Emitted_Action i) "EXECUTE") || negb (Emitted_Timestamp i * Second <? deadline) with ErrAdmissionDenied;
      do more <- buildProposals b id programDigest inputDigest nodeID deadline (index + 1) rest;
      Ok (proposalOf b id programDigest inputDigest nodeID deadline (Emitted_Timestamp i) index :: more)
  end.

Definition BuildProposals (r : EvaluationResult) (id programDigest inputDigest nodeID deadline : string)
    : result (list SecureActionProposal) :=
  match admittedBindings id with
  | None => Err ErrAdmissionDenied
  | Some b =>
      reject negb (digestString programDigest) || negb (digestString inputDigest) || negb (opaque nodeID) with ErrAdmissionDenied;
      match parseTime deadline with
      | None => Err ErrProposalDeadline
      | Some at_ => buildProposals b id programDigest inputDigest nodeID at_ 0 (Eval_Intents r)
      end
  end.
End Proposals.

(** ** The runner (runner.go) *)

Class CursorStore (S : Type) : Type := {
  Store_Load : ctxT -> string -> string -> M S Cursor;
  Store_CompareAndSwap : ctxT -> string -> string -> Cursor -> Cursor -> M S bool;
}.

Record Runner : Type := mkRunner {
  Runner_program : Program;
  Runner_programDigest : string;
  Runner_bindingID : string;
  Runner_nodeID : string;
  Runner_proposalTTL : Z;
}.

Record RunResult : Type := mkRunResult {
  Run_ProgramDigest : string;
  Run_InputDigest : string;
  Run_Evaluation : EvaluationResult;
  Run_Proposals : list SecureActionProposal;
}.

Definition ErrRunnerConfig : error := errorsNew "watchdog runner requires durable cursor storage and a canonical node id".
Definition ErrRunnerTTL : error := errorsNew "watchdog proposal TTL must be between one nanosecond and 15 minutes".
Definition ErrRunnerNode : error := errorsNew "watchdog finding node does not match runner node".
Definition ErrFindingOld : error := errorsNew "watchdog finding is too old to produce a proposal".
Definition ErrCursorChanged : error := errorsNew "watchdog schedule cursor changed concurrently; retry finding".

Section Runner.
Context {H : Hasher} (irJSON : canonicalIR -> option (list Z)).
Context (FormatFloat : float64 -> string) (ToUpper : string -> string).
Context (RFC3339Nano : time -> string) (parseTime : string -> option time).

Definition NewRunner (program : Program) (bindingID nodeID : string) (proposalTTL : Z) : result Runner :=
  reject negb (opaque nodeID) with ErrRunnerConfig;
  reject (proposalTTL <=? 0) || (15 * Minute <? proposalTTL) with ErrRunnerTTL;
  ensure AdmitWatchdog program;
  ensure BindingDigest bindingID;
  do digest <- Program_Digest irJSON program;
  Ok (mkRunner program digest bindingID nodeID proposalTTL).

Context {S : Type} {CS : CursorStore S} (clock : clockT) (runner : Runner).

(** The deadline of what a finding gives rise to. *)
Definition findingDeadline (f : FindingContext) : time := Finding_ObservedUnix f * Second + Runner_proposalTTL runner.

(** What happens between reading the cursor and replacing it: the clock is
    read only when there is something to propose. *)
Definition evaluateFinding (f : FindingContext) (frame : Frame) (inputDigest : string) (cursor : Cursor)
    : M S (EvaluationResult * Cursor * list SecureActionProposal) :=
  let! evaluated := liftR (Evaluate FormatFloat (Runner_program runner) frame cursor DefaultLimits) in
  let '(evaluation, next) := evaluated in
  let deadline := findingDeadline f in
  run! (if len (Eval_Intents evaluation) =? 0 then retM tt
        else let! t := now clock in if t <? deadline then retM tt else failM ErrFindingOld) in
  let! proposals := liftR (BuildProposals RFC3339Nano parseTime evaluation (Runner_bindingID runner) (Runner_programDigest runner)
                             inputDigest (Runner_nodeID runner) (RFC3339Nano deadline)) in
  retM (evaluation, next, proposals).

Definition RunFinding (ctx : ctxT) (f : FindingContext) : M S RunResult :=
  run! ctxErr ctx in
  if negb (eqs (Finding_NodeID f) (Runner_nodeID runner)) then failM ErrRunnerNode else
  let! framed := liftR (FrameForFinding FormatFloat ToUpper f) in
  let '(frame, inputDigest) := framed in
  let! cursor := Store_Load ctx (Runner_programDigest runner) (Runner_nodeID runner) in
  let! evaluated := evaluateFinding f frame inputDigest cursor in
  let '(evaluation, next, proposals) := evaluated in
  let! advanced := Store_CompareAndSwap ctx (Runner_programDigest runner) (Runner_nodeID runner) cursor next in
  if negb advanced then failM ErrCursorChanged
  else retM (mkRunResult (Runner_programDigest runner) inputDigest evaluation proposals).

(** *** A pass over the open findings (registry.go) *)

Definition maximumCoreFindingBatch : Z := 128.
Definition ErrTooManyFindings : error := errorsNew "too many open findings for one watchdog pass".

Record OpenFindingRunResult : Type := mkOpenRun {
  Open_NodeID : string;
  Open_EvaluatedCount : Z;
  Open_SkippedStale : Z;
  Open_Results : list (string * RunResult);
}.

(** The order of [sort.Slice]; findings have distinct ids. *)
Definition finding_le (a b : FindingContext) : Prop :=
  Finding_ObservedUnix a < Finding_ObservedUnix b \/
  (Finding_ObservedUnix a = Finding_ObservedUnix b /\ String.le (Finding_FindingID a) (Finding_FindingID b)).
#[export] Instance finding_le_dec a b : Decision (finding_le a b).
Proof. unfold finding_le. apply _. Defined.

Definition staleFinding (t : time) (f : FindingContext) : bool :=
  (Finding_ObservedUnix f <=? 0) || negb (t <? findingDeadline f).

(** From the findings of the node, in order, to those worth a run. *)
Fixpoint readyFindings (t : time) (fs : list FindingContext) : result (Z * list FindingContext) :=
  match fs with
  | [] => Ok (0, [])
  | f :: rest =>
      if staleFinding t f then do '(skipped, ready) <- readyFindings t rest; Ok (skipped + 1, ready) else
      ensure FrameForFinding FormatFloat ToUpper f;
      do '(skipped, ready) <- readyFindings t rest; Ok (skipped, f :: ready)
  end.

Definition RunOpenFindings (ctx : ctxT) (findings : list FindingContext) : M S OpenFindingRunResult :=
  let candidates := merge_sort finding_le (List.filter (fun f => eqs (Finding_NodeID f) (Runner_nodeID runner)) findings) in
  if maximumCoreFindingBatch <? len candidates then failM ErrTooManyFindings else
  let! t := now clock in
  let! split := liftR (readyFindings t candidates) in
  let '(skipped, ready) := split in
  let! results := eachM (fun f => let! r := RunFinding ctx f in retM (Finding_FindingID f, r)) ready in
  retM (mkOpenRun (Runner_nodeID runner) (len results) skipped results).
End Runner.

(** *** The in-process cursor store *)

Record MemoryCursorStore : Type := mkMemoryCursors { Cursors : gmap string Cursor }.

Definition NewMemoryCursorStore : MemoryCursorStore := mkMemoryCursors ∅.

Definition zeroCursor : Cursor := mkCursor false 0.

Definition cursorKey (programDigest nodeID : string) : string := programDigest +:+ String (Ascii.ascii_of_N 0) nodeID.

Definition cursorAt (s : MemoryCursorStore) (programDigest nodeID : string) : Cursor :=
  default zeroCursor (Cursors s !! cursorKey programDigest nodeID).

Definition MemoryCursorStore_Load (ctx : ctxT) (programDigest nodeID : string) : M MemoryCursorStore Cursor :=
  run! ctxErr ctx in
  let! s := getS in retM (cursorAt s programDigest nodeID).

Definition MemoryCursorStore_CompareAndSwap (ctx : ctxT) (programDigest nodeID : string) (previous next : Cursor)
    : M MemoryCursorStore bool :=
  run! ctxErr ctx in
  let! s := getS in
  if negb (bool_decide (cursorAt s programDigest nodeID = previous)) then retM false else
  run! modS (fun s => mkMemoryCursors (<[ cursorKey programDigest nodeID := next ]> (Cursors s))) in
  retM true.

#[export] Instance MemoryCursorStore_ops : CursorStore MemoryCursorStore := {|
  Store_Load := MemoryCursorStore_Load;
  Store_CompareAndSwap := MemoryCursorStore_CompareAndSwap;
|}.

(** *** The cursor store of Core's database (storage.go, nano_cursors.go)

    A row of [nano_runner_cursors]; the column of the update time holds the
    time itself. Every statement, and every reading of the number of rows it
    changed, may fail ([sqlFails], which also covers the end of a context and
    a node that is not in the database). *)

Record NanoCursorRow : Type := mkCursorRow {
  NCR_initialized : Z;
  NCR_next_due_unix : Z;
  NCR_updated_at : time;
}.

Record NanoCursors : Type := mkNanoCursors { nano_runner_cursors : gmap (string * string) NanoCursorRow }.

Definition ErrCursorIdentity : error := errorsNew "nano cursor identity is invalid".
Definition ErrReadNanoCursor : error := errorsNew "read nano cursor: %w".
Definition ErrCursorState : error := errorsNew "nano cursor state is invalid".
Definition ErrSaveNanoCursor : error := errorsNew "save nano cursor: %w".
Definition ErrCompareCursor : error := errorsNew "compare nano cursor: %w".
Definition ErrInspectCompare : error := errorsNew "inspect nano cursor compare: %w".
Definition ErrCreateCursor : error := errorsNew "create nano cursor: %w".
Definition ErrInspectCreate : error := errorsNew "inspect nano cursor creation: %w".

Definition boundedNanoCursorID (value : string) (maximum : Z) : bool :=
  negb (eqs value EmptyString) && (slen value <=? maximum) && trimmed value && negb (hasControl value).

Section Storage.
Context (clock : clockT) (sqlFails : nat -> bool).

Definition LoadNanoCursor (programDigest nodeID : string) : M NanoCursors Cursor :=
  if negb (boundedNanoCursorID programDigest 128) || negb (boundedNanoCursorID nodeID 128) then failM ErrCursorIdentity else
  run! statement sqlFails ErrReadNanoCursor id in
  let! s := getS in
  match nano_runner_cursors s !! (programDigest, nodeID) with
  | None => retM (mkCursor false 0)
  | Some row =>
      if negb (NCR_initialized row =? 0) && negb (NCR_initialized row =? 1) then failM ErrCursorState
      else retM (mkCursor (NCR_initialized row =? 1) (NCR_next_due_unix row))
  end.

Definition writeCursor (programDigest nodeID : string) (row : NanoCursorRow) (s : NanoCursors) : NanoCursors :=
  mkNanoCursors (<[ (programDigest, nodeID) := row ]> (nano_runner_cursors s)).

Definition cursorRow (record : Cursor) (t : time) : NanoCursorRow :=
  mkCursorRow (if Cursor_Initialized record then 1 else 0) (Cursor_NextDueUnix record) t.

Definition SaveNanoCursor (programDigest nodeID : string) (record : Cursor) (t : time) : M NanoCursors unit :=
  if negb (boundedNanoCursorID programDigest 128) || negb (boundedNanoCursorID nodeID 128) || IsZero t then failM ErrCursorState else
  statement sqlFails ErrSaveNanoCursor (writeCursor programDigest nodeID (cursorRow record t)).

(** The WHERE of the UPDATE, and of the INSERT that does nothing on conflict. *)
Definition cursorMatches (programDigest nodeID : string) (previous : Cursor) (s : NanoCursors) : bool :=
  match nano_runner_cursors s !! (programDigest, nodeID) with
  | Some row => (NCR_initialized row =? if Cursor_Initialized previous then 1 else 0) && (NCR_next_due_unix row =? Cursor_NextDueUnix previous)
  | None => false
  end.
Definition cursorAbsent (programDigest nodeID : string) (s : NanoCursors) : bool :=
  bool_decide (nano_runner_cursors s !! (programDigest, nodeID) = None).

Definition CompareAndSwapNanoCursor (programDigest nodeID : string) (previous next : Cursor) (t : time) : M NanoCursors bool :=
  if negb (boundedNanoCursorID programDigest 128) || negb (boundedNanoCursorID nodeID 128) || IsZero t then failM ErrCursorState else
  let written := writeCursor programDigest nodeID (cursorRow next t) in
  let! s := getS in
  let matches := cursorMatches programDigest nodeID previous s in
  run! statement sqlFails ErrCompareCursor (fun s => if matches then written s else s) in
  run! statement sqlFails ErrInspectCompare id in
  if matches then retM true else
  if Cursor_Initialized previous || negb (Cursor_NextDueUnix previous =? 0) then retM false else
  let! s := getS in
  let absent := cursorAbsent programDigest nodeID s in
  run! statement sqlFails ErrCreateCursor (fun s => if absent then written s else s) in
  run! statement sqlFails ErrInspectCreate id in
  retM absent.

Definition StorageCursorStore_Load (ctx : ctxT) (programDigest nodeID : string) : M NanoCursors Cursor :=
  LoadNanoCursor programDigest nodeID.

Definition StorageCursorStore_CompareAndSwap (ctx : ctxT) (programDigest nodeID : string) (previous next : Cursor) : M NanoCursors bool :=
  let! t := now clock in CompareAndSwapNanoCursor programDigest nodeID previous next t.

Definition StorageCursorStore_ops : CursorStore NanoCursors := {|
  Store_Load := StorageCursorStore_Load;
  Store_CompareAndSwap := StorageCursorStore_CompareAndSwap;
|}.
End Storage.
