(* ===== verification/Retention.v ===== *)
(** * Retention (core/storage/retention.go, core/retention/service.go)

    Events are deleted in bounded batches once they are old enough and every
    required projection is past them. Each batch leaves a tombstone, a row of
    a chain of hashes, in the transaction that deletes it. The tables are
    those of EventStore.v with the tombstones and the row of their state.

    The JSON of a policy and the text of a time are the class
    [RetentionCodec]; the columns of a tombstone that hold the text of a time
    hold the text here, which is what is hashed. *)

From S2P Require Import Prelude Sha256 Digest Plan JournalFile Events EventStore.
From stdpp Require Import base gmap list strings sorting.
From Stdlib Require Import ZArith Lia.

Open Scope Z_scope.

(** ** Data *)

Record RetentionResult : Type := mkRetention {
  Retention_Deleted : Z;
  Retention_SafeThroughOrdinal : Z;
  Retention_SafeThroughAt : time;
  Retention_SafeThroughID : string;
  Retention_TombstoneHash : string;
}.

Record EventRetentionCutoffs : Type := mkCutoffs {
  Cutoffs_DefaultBefore : time;
  Cutoffs_ByClassification : gmap string time;
  Cutoffs_BySensitivity : gmap string time;
}.

Record retentionRuleRecord : Type := mkRuleRecord { RuleRecord_Value : string; RuleRecord_Before : string }.

Record retentionPolicyRecord : Type := mkPolicyRecord {
  PolicyRecord_DefaultBefore : string;
  PolicyRecord_ByClassification : list retentionRuleRecord;
  PolicyRecord_BySensitivity : list retentionRuleRecord;
}.

Definition policyRecordTexts (p : retentionPolicyRecord) : list string :=
  PolicyRecord_DefaultBefore p
  :: flat_map (fun r => [RuleRecord_Value r; RuleRecord_Before r]) (PolicyRecord_ByClassification p ++ PolicyRecord_BySensitivity p).

Record retentionCandidate : Type := mkCandidate {
  Candidate_ordinal : Z;
  Candidate_id : string;
  Candidate_wire : list Z;
}.

(** A row of [event_retention_tombstones]. *)
Record tombstone : Type := mkTombstone {
  Tomb_id : Z;
  Tomb_first : Z;
  Tomb_last : Z;
  Tomb_count : Z;
  Tomb_batch_hash : string;
  Tomb_policy_json : string;
  Tomb_cutoff_at : string;
  Tomb_pruned_at : string;
  Tomb_previous_hash : string;
  Tomb_hash : string;
}.

(** The tables: the tombstones in the order of their ids, what AUTOINCREMENT
    last handed out, the row of [event_retention_state], and the event log. *)
Record retentionDB : Type := mkRetentionDB {
  rt_tombstones : list tombstone;
  rt_ordinal : Z;
  rt_count : Z;
  rt_head : string;
  rt_core : DB;
}.

Definition setLog (c : DB) (d : retentionDB) : retentionDB := mkRetentionDB (rt_tombstones d) (rt_ordinal d) (rt_count d) (rt_head d) c.
Definition addTombstone (t : Z -> tombstone) (d : retentionDB) : retentionDB :=
  mkRetentionDB (rt_tombstones d ++ [t (rt_ordinal d + 1)]) (rt_ordinal d + 1) (rt_count d) (rt_head d) (rt_core d).
Definition setRetentionState (count : Z) (head : string) (d : retentionDB) : retentionDB :=
  mkRetentionDB (rt_tombstones d) (rt_ordinal d) count head (rt_core d).

(** The rows of an event log without those of some ordinals. *)
Definition withoutOrdinals (ordinals : list Z) (d : DB) : DB :=
  setEvents (List.filter (fun r => negb (bool_decide (Row_ingest_ordinal r ∈ ordinals))) (db_events d)) (db_ordinal d) d.

(** [json.Marshal] of structures of strings does not fail and gives them back
    when they are valid UTF-8; an instant of a four-digit year has a text,
    which is UTF-8, that is parsed back. *)
Class RetentionCodec : Type := {
  retentionTime : time -> string;
  parseRetentionTime : string -> option time;
  policyRecordMarshal : retentionPolicyRecord -> string;
  policyRecordUnmarshal : string -> option retentionPolicyRecord;
  retention_time_utf8 : forall t, validUTF8 (bytes_of (retentionTime t)) = true;
  retention_time_parsed : forall t, fourDigitYear t -> parseRetentionTime (retentionTime t) = Some t;
  policy_record_roundtrip : forall p, Forall (fun s => validUTF8 (bytes_of s) = true) (policyRecordTexts p) -> policyRecordUnmarshal (policyRecordMarshal p) = Some p;
}.

(** ** Errors *)

Definition ErrRetentionProjectionNotReady : error := errorsNew "required projection has not durably processed events".
Definition ErrRetentionIntegrity : error := errorsNew "event retention tombstone chain failed verification".
Definition ErrRetentionCutoff : error := errorsNew "retention cutoff is required".
Definition ErrRetentionClass : error := errorsNew "invalid retention evidence classification %q".
Definition ErrRetentionClassCutoff : error := errorsNew "retention classification cutoff %q cannot extend the default".
Definition ErrRetentionSensitivity : error := errorsNew "invalid retention sensitivity %q".
Definition ErrRetentionSensitivityCutoff : error := errorsNew "retention sensitivity cutoff %q cannot extend the default".
Definition ErrPruneProjections : error := errorsNew "at least one required projection is required for safe pruning".
Definition ErrProjectionName : error := errorsNew "required projection names cannot be empty".
Definition ErrProjectionTwice : error := errorsNew "required projection %q is duplicated".
Definition ErrBeginRetention : error := errorsNew "begin event retention: %w".
Definition ErrCommitEmptyRetention : error := errorsNew "commit empty event retention: %w".
Definition ErrReadRetentionState : error := errorsNew "read event retention state: %w".
Definition ErrRecordTombstone : error := errorsNew "record event retention tombstone: %w".
Definition ErrAdvanceRetention : error := errorsNew "advance event retention state: %w".
Definition ErrRetentionConcurrent : error := errorsNew "event retention state changed concurrently".
Definition ErrPruneEvents : error := errorsNew "prune retained events: %w".
Definition ErrPruneCount : error := errorsNew "retention deletion count %d does not match tombstone count %d".
Definition ErrCommitRetention : error := errorsNew "commit event retention: %w".
Definition ErrTruncateWAL : error := errorsNew "events were pruned but the SQLite WAL could not be truncated: %w".
Definition ErrReadRetentionProjection : error := errorsNew "read retention projection %s: %w".
Definition ErrSelectRetained : error := errorsNew "select retained events: %w".
Definition ErrBeginTombstones : error := errorsNew "begin event retention verification: %w".
Definition ErrCommitTombstones : error := errorsNew "commit event retention verification: %w".

(** ** The policy of a pass *)

(** The loop over the overrides of one kind; a map has them in any order. *)
Fixpoint cutoffRules (valid : string -> bool) (invalid extends : error) (default : time) (rules : list (string * time)) : result unit :=
  match rules with
  | [] => Ok tt
  | (value, before) :: rest =>
      reject negb (valid value) with invalid;
      reject IsZero before || (before <? default) with extends;
      cutoffRules valid invalid extends default rest
  end.

Definition rule_le (a b : retentionRuleRecord) : Prop := String.le (RuleRecord_Value a) (RuleRecord_Value b).
#[export] Instance rule_le_dec a b : Decision (rule_le a b).
Proof. unfold rule_le. apply _. Defined.

(** ** Hashes *)

(** [writeRetentionUint64] and [writeRetentionField]: what they add. *)
Definition retentionUint64 (value : Z) : list Z := be_bytes 8 value.
Definition retentionField (value : list Z) : list Z := be_bytes 8 (len value) ++ value.
Definition retentionText (value : string) : list Z := retentionField (bytes_of value).

(** [validSHA256Hex]: it decodes, to 32 bytes. *)
Definition validSHA256Hex (value : string) : bool := validDigest value.

(** ** Candidates *)

(** The [WHERE] clause of the select: past the default cutoff, or past one
    for the class or the sensitivity of the event. *)
Definition pastRule (rules : gmap string time) (value : string) (receivedAt : Z) : bool :=
  match rules !! value with Some before => receivedAt <? sortableTime before | None => false end.
Definition expiredRow (cutoffs : EventRetentionCutoffs) (r : eventRow) : bool :=
  (Row_received_at r <? sortableTime (Cutoffs_DefaultBefore cutoffs))
  || pastRule (Cutoffs_ByClassification cutoffs) (Row_classification r) (Row_received_at r)
  || pastRule (Cutoffs_BySensitivity cutoffs) (Row_sensitivity r) (Row_received_at r).

Definition candidateOf (r : eventRow) : retentionCandidate := mkCandidate (Row_ingest_ordinal r) (Row_id r) (Row_envelope_proto r).

(** The rows are in the order of their ordinals. *)
Definition retentionCandidates (cutoffs : EventRetentionCutoffs) (safeOrdinal batchSize : Z) (d : DB) : list retentionCandidate :=
  candidateOf <$> take (Z.to_nat batchSize)
    (List.filter (fun r => expiredRow cutoffs r && (Row_ingest_ordinal r <=? safeOrdinal)) (db_events d)).

Section Retention.
Context {H : Hasher} {RC : RetentionCodec}.
Context (sqlFails : nat -> bool).

Abbreviation MRet := (M retentionDB).
Abbreviation sql := (statement sqlFails).

Definition ruleRecords (rules : gmap string time) : list retentionRuleRecord :=
  merge_sort rule_le (map (fun '(value, before) => mkRuleRecord value (retentionTime before)) (map_to_list rules)).

Definition policyRecordOf (cutoffs : EventRetentionCutoffs) : retentionPolicyRecord :=
  mkPolicyRecord (retentionTime (Cutoffs_DefaultBefore cutoffs)) (ruleRecords (Cutoffs_ByClassification cutoffs))
    (ruleRecords (Cutoffs_BySensitivity cutoffs)).

Definition canonicalRetentionPolicy (cutoffs : EventRetentionCutoffs) : result string :=
  reject IsZero (Cutoffs_DefaultBefore cutoffs) with ErrRetentionCutoff;
  ensure cutoffRules EvidenceClass_Valid ErrRetentionClass ErrRetentionClassCutoff (Cutoffs_DefaultBefore cutoffs)
    (map_to_list (Cutoffs_ByClassification cutoffs));
  ensure cutoffRules Sensitivity_Valid ErrRetentionSensitivity ErrRetentionSensitivityCutoff (Cutoffs_DefaultBefore cutoffs)
    (map_to_list (Cutoffs_BySensitivity cutoffs));
  Ok (policyRecordMarshal (policyRecordOf cutoffs)).

Definition candidateBytes (c : retentionCandidate) : list Z :=
  retentionUint64 (Candidate_ordinal c) ++ retentionText (Candidate_id c) ++ retentionField (sum256 (Candidate_wire c)).
Definition batchBytes (candidates : list retentionCandidate) : list Z :=
  retentionText "AntiFlock-Event-Retention-Batch-v1" ++ concat (map candidateBytes candidates).
Definition retentionBatchHash (candidates : list retentionCandidate) : string := hexEncode (sum256 (batchBytes candidates)).

Definition tombstoneBytes (previousHash : string) (first last count : Z) (batchHash policyJSON cutoffAt prunedAt : string) : list Z :=
  retentionText "AntiFlock-Event-Retention-Tombstone-v1" ++ retentionText previousHash ++ retentionUint64 first ++ retentionUint64 last
  ++ retentionUint64 count ++ retentionText batchHash ++ retentionText policyJSON ++ retentionText cutoffAt ++ retentionText prunedAt.
Definition retentionTombstoneHash (previousHash : string) (first last count : Z) (batchHash policyJSON cutoffAt prunedAt : string) : string :=
  hexEncode (sum256 (tombstoneBytes previousHash first last count batchHash policyJSON cutoffAt prunedAt)).

(** ** Verification *)

(** One row of the loop: after it, its id and its hash are the previous ones. *)
Definition verifyTombstone (previousID : Z) (previousHash : string) (t : tombstone) : result unit :=
  reject (Tomb_id t <=? previousID) || (Tomb_first t =? 0) || (Tomb_last t <? Tomb_first t) || (Tomb_count t =? 0)
         || ((Tomb_last t - Tomb_first t + 1) mod 2 ^ 64 <? Tomb_count t) with ErrRetentionIntegrity;
  reject negb (validSHA256Hex (Tomb_batch_hash t)) || negb (validSHA256Hex (Tomb_hash t))
         || (negb (eqs (Tomb_previous_hash t) EmptyString) && negb (validSHA256Hex (Tomb_previous_hash t))) with ErrRetentionIntegrity;
  reject negb (eqs (Tomb_previous_hash t) previousHash) with ErrRetentionIntegrity;
  match policyRecordUnmarshal (Tomb_policy_json t) with
  | None => Err ErrRetentionIntegrity
  | Some policy =>
      reject negb (eqs (policyRecordMarshal policy) (Tomb_policy_json t)) with ErrRetentionIntegrity;
      reject negb (isSome (parseRetentionTime (Tomb_cutoff_at t))) || negb (isSome (parseRetentionTime (Tomb_pruned_at t))) with ErrRetentionIntegrity;
      reject negb (eqs (retentionTombstoneHash (Tomb_previous_hash t) (Tomb_first t) (Tomb_last t) (Tomb_count t) (Tomb_batch_hash t)
                          (Tomb_policy_json t) (Tomb_cutoff_at t) (Tomb_pruned_at t)) (Tomb_hash t)) with ErrRetentionIntegrity;
      Ok tt
  end.

Fixpoint verifyChain (previousID : Z) (previousHash : string) (rows : list tombstone) : result string :=
  match rows with
  | [] => Ok previousHash
  | t :: rest =>
      ensure verifyTombstone previousID previousHash t;
      verifyChain (Tomb_id t) (Tomb_hash t) rest
  end.

Definition verifyRetentionTombstonesTx : MRet unit :=
  run! sql ErrRetentionIntegrity id in
  run! sql ErrRetentionIntegrity id in
  let! d := getS in
  let! head := liftR (verifyChain 0 EmptyString (rt_tombstones d)) in
  if negb (len (rt_tombstones d) =? rt_count d) || negb (eqs head (rt_head d)) then failM ErrRetentionIntegrity else retM tt.

Definition VerifyEventRetentionTombstones : MRet unit :=
  dbTransaction sqlFails ErrBeginTombstones ErrCommitTombstones (run! verifyRetentionTombstonesTx in retM (tt, true)).

(** ** Pruning *)

Record safeCursor : Type := mkSafe { Safe_ordinal : Z; Safe_at : time; Safe_id : string }.

(** The least of the cursors of the required projections. *)
Fixpoint retentionSafeCursor (safe : safeCursor) (required : list string) : MRet safeCursor :=
  match required with
  | [] => retM safe
  | projection :: rest =>
      run! sql ErrReadRetentionProjection id in
      let! d := getS in
      match db_cursors (rt_core d) !! projection with
      | None => failM ErrRetentionProjectionNotReady
      | Some c =>
          if (PC_LastIngestOrdinal c =? 0) || (sortableTime (PC_LastReceivedAt c) =? sortableTime zeroTime) || eqs (PC_LastEventID c) EmptyString
          then failM ErrRetentionProjectionNotReady else
          retentionSafeCursor
            (if (Safe_ordinal safe =? 0) || (PC_LastIngestOrdinal c <? Safe_ordinal safe)
             then mkSafe (PC_LastIngestOrdinal c) (PC_LastReceivedAt c) (PC_LastEventID c) else safe) rest
      end
  end.

Definition selectRetentionCandidates (cutoffs : EventRetentionCutoffs) (safeOrdinal batchSize : Z) : MRet (list retentionCandidate) :=
  run! sql ErrSelectRetained id in
  let! d := getS in
  retM (retentionCandidates cutoffs safeOrdinal batchSize (rt_core d)).

(** The unique constraints of the table. *)
Definition tombstoneTaken (t : tombstone) (d : retentionDB) : bool :=
  existsb (fun u => eqs (Tomb_hash u) (Tomb_hash t) || ((Tomb_first u =? Tomb_first t) && (Tomb_last u =? Tomb_last t))) (rt_tombstones d).

(** The tombstone of a batch, but for its id. *)
Definition tombstoneFor (candidates : list retentionCandidate) (policyJSON : string) (cutoff prunedAt : time) (previousHash : string) (id : Z) : tombstone :=
  let first := default 0 (Candidate_ordinal <$> head candidates) in
  let last := default 0 (Candidate_ordinal <$> last candidates) in
  let batchHash := retentionBatchHash candidates in
  mkTombstone id first last (len candidates) batchHash policyJSON (retentionTime cutoff) (retentionTime prunedAt) previousHash
    (retentionTombstoneHash previousHash first last (len candidates) batchHash policyJSON (retentionTime cutoff) (retentionTime prunedAt)).

Definition insertTombstone (t : Z -> tombstone) : MRet unit :=
  let! d := getS in
  if tombstoneTaken (t (rt_ordinal d + 1)) d then failM ErrRecordTombstone else
  sql ErrRecordTombstone (addTombstone t).

Definition advanceRetentionState (previousCount : Z) (previousHash head : string) : MRet unit :=
  let! d := getS in
  let matches := (rt_count d =? previousCount) && eqs (rt_head d) previousHash in
  run! sql ErrAdvanceRetention (fun d => if matches then setRetentionState (previousCount + 1) head d else d) in
  run! sql ErrRetentionConcurrent id in
  if negb matches then failM ErrRetentionConcurrent else retM tt.

Definition deleteEvents (ordinals : list Z) : MRet unit :=
  let! d := getS in
  let deleted := len (List.filter (fun r => bool_decide (Row_ingest_ordinal r ∈ ordinals)) (db_events (rt_core d))) in
  run! sql ErrPruneEvents (fun d => setLog (withoutOrdinals ordinals (rt_core d)) d) in
  run! sql ErrPruneCount id in
  if negb (deleted =? len ordinals) then failM ErrPruneCount else retM tt.

(** The names of the projections a pass waits for. *)
Fixpoint validateProjections (seen names : list string) : result unit :=
  match names with
  | [] => Ok tt
  | name :: rest =>
      reject eqs (TrimSpace name) EmptyString with ErrProjectionName;
      reject containsValue seen name with ErrProjectionTwice;
      validateProjections (name :: seen) rest
  end.

(** [BeginTx], the body, a [Commit] with the error of its answer, and the
    deferred [Rollback]. *)
Definition retentionTransaction {A : Type} (begin : error) (commit : A -> error) (m : MRet A) : MRet A := fun st =>
  if sqlFails (fst st) then (Err begin, (S (fst st), snd st)) else
  match m (S (fst st), snd st) with
  | (Err e, (n, _)) => (Err e, (n, snd st))
  | (Ok a, (n, d)) => if sqlFails n then (Err (commit a), (S n, snd st)) else (Ok a, (S n, d))
  end.

Definition pruneBody (wall : clockT) (cutoffs : EventRetentionCutoffs) (policyJSON : string) (required : list string) (batchSize : Z) : MRet RetentionResult :=
  run! verifyRetentionTombstonesTx in
  let! safe := retentionSafeCursor (mkSafe 0 zeroTime EmptyString) required in
  let! candidates := selectRetentionCandidates cutoffs (Safe_ordinal safe) batchSize in
  if len candidates =? 0 then retM (mkRetention 0 (Safe_ordinal safe) (Safe_at safe) (Safe_id safe) EmptyString) else
  run! sql ErrReadRetentionState id in
  let! d := getS in
  let previousCount := rt_count d in
  let previousHash := rt_head d in
  let! prunedAt := now wall in
  let t := tombstoneFor candidates policyJSON (Cutoffs_DefaultBefore cutoffs) prunedAt previousHash in
  run! insertTombstone t in
  run! advanceRetentionState previousCount previousHash (Tomb_hash (t 0)) in
  run! deleteEvents (Candidate_ordinal <$> candidates) in
  retM (mkRetention (len candidates) (Safe_ordinal safe) (Safe_at safe) (Safe_id safe) (Tomb_hash (t 0))).

(** The answer is a result and, when only the log of the database could not be
    truncated after the commit, an error beside it. *)
Definition PruneEventsWithCutoffs (wall : clockT) (cutoffs : EventRetentionCutoffs) (required : list string) (batchSize : Z)
    : MRet (RetentionResult * option error) :=
  let! policyJSON := liftR (canonicalRetentionPolicy cutoffs) in
  if len required =? 0 then failM ErrPruneProjections else
  run! liftR (validateProjections [] required) in
  let batchSize := if (batchSize <=? 0) || (10000 <? batchSize) then 500 else batchSize in
  let! outcome := retentionTransaction ErrBeginRetention
    (fun outcome => if Retention_Deleted outcome =? 0 then ErrCommitEmptyRetention else ErrCommitRetention)
    (pruneBody wall cutoffs policyJSON required batchSize) in
  if Retention_Deleted outcome =? 0 then retM (outcome, None) else
  let! truncated := attempt (sql ErrTruncateWAL id) in
  retM (outcome, match truncated with Ok _ => None | Err e => Some e end).

Definition PruneEvents (wall : clockT) (cutoff : time) (required : list string) (batchSize : Z) : MRet (RetentionResult * option error) :=
  PruneEventsWithCutoffs wall (mkCutoffs cutoff ∅ ∅) required batchSize.

(** ** The service (core/retention/service.go) *)

Record RetentionPolicy : Type := mkRetentionPolicy {
  RPolicy_Default : Z;
  RPolicy_ByClassification : gmap string Z;
  RPolicy_BySensitivity : gmap string Z;
}.

Record RetentionService : Type := mkRetentionService {
  RService_policy : RetentionPolicy;
  RService_requiredProjections : list string;
  RService_batchSize : Z;
}.

Definition ErrRetentionDefault : error := errorsNew "default event retention must be positive".
Definition ErrRetentionClassLong : error := errorsNew "retention for evidence classification %q must be positive and no longer than the default".
Definition ErrRetentionSensitivityLong : error := errorsNew "retention for sensitivity %q must be positive and no longer than the default".
Definition ErrServiceProjections : error := errorsNew "required projections are required".

Fixpoint retentionRules (valid : string -> bool) (invalid long : error) (default : Z) (rules : list (string * Z)) : result unit :=
  match rules with
  | [] => Ok tt
  | (value, duration) :: rest =>
      reject negb (valid value) with invalid;
      reject (duration <=? 0) || (default <? duration) with long;
      retentionRules valid invalid long default rest
  end.

Definition validatePolicy (p : RetentionPolicy) : result unit :=
  reject RPolicy_Default p <=? 0 with ErrRetentionDefault;
  ensure retentionRules EvidenceClass_Valid ErrRetentionClass ErrRetentionClassLong (RPolicy_Default p) (map_to_list (RPolicy_ByClassification p));
  retentionRules Sensitivity_Valid ErrRetentionSensitivity ErrRetentionSensitivityLong (RPolicy_Default p) (map_to_list (RPolicy_BySensitivity p)).

Definition NewWithPolicy (p : RetentionPolicy) (requiredProjections : list string) : result RetentionService :=
  ensure validatePolicy p;
  reject len requiredProjections =? 0 with ErrServiceProjections;
  ensure validateProjections [] requiredProjections;
  Ok (mkRetentionService p requiredProjections 500).

Definition NewRetention (eventRetention : Z) (requiredProjections : list string) : result RetentionService :=
  NewWithPolicy (mkRetentionPolicy eventRetention ∅ ∅) requiredProjections.

(** The cutoffs of a pass at an instant. *)
Definition cutoffsAt (p : RetentionPolicy) (now : time) : EventRetentionCutoffs :=
  mkCutoffs (now - RPolicy_Default p) ((fun duration => now - duration) <$> RPolicy_ByClassification p)
    ((fun duration => now - duration) <$> RPolicy_BySensitivity p).

Definition RetentionService_RunOnce (wall clock : clockT) (service : RetentionService) : MRet (RetentionResult * option error) :=
  let! t := now clock in
  PruneEventsWithCutoffs wall (cutoffsAt (RService_policy service) t) (RService_requiredProjections service) (RService_batchSize service).

End Retention.
