(* ===== verification/EventIngest.v ===== *)
(** * Ingesting events (core/events/store.go, core/server/events.go)

    [Store.Append] checks an envelope against the enrolled node, the
    deployment authority and the clock before it is appended, moves the API
    cursor and publishes to the live subscriptions. [handleEventBatch] is
    what Core answers to a batch of an agent, after the HTTP body was
    decoded.

    A certificate is what [x509.ParseCertificate] gives of it; PEM decoding,
    the chain check, [strings.EqualFold], [strings.ToLower] and the JSON
    form of a capability manifest are parameters. *)

From S2P Require Import Prelude Sha256 Digest Contract Plan Events EventStore.
From stdpp Require Import base gmap list strings pretty.
From Stdlib Require Import ZArith Lia.

Open Scope Z_scope.

Record Certificate : Type := mkCertificate {
  Cert_NotBefore : time;
  Cert_NotAfter : time;
  Cert_PublicKey : option (list Z);      (** when it is an Ed25519 key *)
  Cert_CommonName : string;
  Cert_Organization : list string;
  Cert_ClientAuth : bool;                (** ExtKeyUsageClientAuth *)
}.

(** A Go channel: its buffer, what waits in it, what was taken out, and
    whether it is closed. *)
Record channel : Type := mkChannel {
  Ch_capacity : nat;
  Ch_queue : list EventEnvelope;
  Ch_received : list EventEnvelope;
  Ch_closed : bool;
}.

Record Store : Type := mkStore {
  St_database : DB;
  St_nextSubscriber : nat;
  St_channels : gmap nat channel;
  St_subscribers : gset nat;
}.

Definition withDatabase (d : DB) (s : Store) : Store := mkStore d (St_nextSubscriber s) (St_channels s) (St_subscribers s).

Definition APIProjection : string := "event-api".
Definition NodeActive : string := "ACTIVE".

Definition ErrOtherDeployment : error := errorsNew "event deployment does not match this Core".
Definition ErrNodeNotFound : error := errorsNew "node not found".
Definition ErrGetNode : error := errorsNew "scan node: %w".
Definition ErrNodeInactive : error := errorsNew "event node is not active: %s".
Definition ErrReadBack : error := errorsNew "read back committed event: %w".
Definition ErrAdvanceCursor : error := errorsNew "advance event API projection cursor: %w".
Definition ErrAuthorityWindow : error := errorsNew "deployment authority is outside its validity window".
Definition ErrNodeCertificate : error := errorsNew "enrolled node certificate is invalid".
Definition ErrCertificateKey : error := errorsNew "enrolled node certificate does not match the event verification key".
Definition ErrCertificateSubject : error := errorsNew "enrolled node certificate subject is outside this deployment".
Definition ErrCertificateUsage : error := errorsNew "enrolled node certificate is not valid for client authentication".
Definition ErrCertificateIssuer : error := errorsNew "enrolled node certificate is not signed by this deployment authority".
Definition ErrSignedOutside : error := errorsNew "event was signed outside the node credential validity window".
Definition ErrClockSkew : error := errorsNew "event timestamp exceeds the allowed clock skew".
Definition ErrSignatureUnbound : error := errorsNew "event signature time is not bound to its observation time".

Section Ingest.
Context {H : Hasher} {E : Ed25519} {EC : EventCodec}.
Context (checkMessage : string -> list Z -> string -> result unit) (validateOpaqueProtobuf : list Z -> result unit).
Context (wireSize : wireEvent -> Z) (sqlFails : nat -> bool).
Context (parseCertificate : string -> option Certificate) (checkSignatureFrom : string -> Certificate -> bool).
Context (clock : clockT) (deploymentID : string) (caCertificate : Certificate).

Abbreviation Validate := (EventEnvelope_Validate checkMessage validateOpaqueProtobuf).
Abbreviation database := (zoom St_database withDatabase).

Definition GetNode (nodeID : string) : M DB Node :=
  run! statement sqlFails ErrGetNode id in
  let! d := getS in
  match db_nodes d !! nodeID with
  | None => failM ErrNodeNotFound
  | Some node => retM node
  end.

Definition validateCredential (e : EventEnvelope) (node : Node) (now : time) : result unit :=
  reject (now <? Cert_NotBefore caCertificate) || negb (now <? Cert_NotAfter caCertificate) with ErrAuthorityWindow;
  match parseCertificate (Node_CertificatePEM node) with
  | None => Err ErrNodeCertificate
  | Some certificate =>
      reject negb (bool_decide (Cert_PublicKey certificate = Some (Node_PublicKey node))) with ErrCertificateKey;
      reject negb (eqs (Cert_CommonName certificate) (Node_ID node)) || negb (containsValue (Cert_Organization certificate) deploymentID)
        with ErrCertificateSubject;
      reject negb (Cert_ClientAuth certificate) with ErrCertificateUsage;
      reject negb (checkSignatureFrom (Node_CertificatePEM node) caCertificate) with ErrCertificateIssuer;
      let signedAt := ES_SignedAt (Event_SourceSignature e) in
      reject (signedAt <? Cert_NotBefore certificate) || (Cert_NotAfter certificate <? signedAt) with ErrSignedOutside;
      reject (now + 5 * Minute <? signedAt) || (now + 5 * Minute <? Event_ObservedAt e) with ErrClockSkew;
      reject (Sub signedAt (Event_ObservedAt e) <? - (5 * Minute)) || (5 * Minute <? Sub signedAt (Event_ObservedAt e)) with ErrSignatureUnbound;
      Ok tt
  end.

Definition advanceAPICursor (e : EventEnvelope) (now : time) : M DB unit :=
  let! current := GetProjectionCursor sqlFails APIProjection in
  if Event_IngestOrdinal e <=? PC_LastIngestOrdinal current then retM tt else
  let updatedAt := if now <? PC_UpdatedAt current then PC_UpdatedAt current else now in
  let! set := attempt (SetProjectionCursor sqlFails APIProjection
    (mkProjection (Event_IngestOrdinal e) (Event_ReceivedAt e) (Event_ID e) updatedAt)) in
  match set with
  | Ok _ => retM tt
  | Err _ =>
      let! latest := attempt (GetProjectionCursor sqlFails APIProjection) in
      match latest with
      | Ok latest => if Event_IngestOrdinal e <=? PC_LastIngestOrdinal latest then retM tt else failM ErrAdvanceCursor
      | Err _ => failM ErrAdvanceCursor
      end
  end.

(** ** Subscriptions *)

(** One turn of the loop of [publish]: send, or evict and close. *)
Definition offer (e : EventEnvelope) (id : nat) (s : Store) : Store :=
  match St_channels s !! id with
  | None => s
  | Some ch =>
      if bool_decide (length (Ch_queue ch) < Ch_capacity ch)%nat
      then mkStore (St_database s) (St_nextSubscriber s)
             (<[ id := mkChannel (Ch_capacity ch) (Ch_queue ch ++ [e]) (Ch_received ch) (Ch_closed ch) ]> (St_channels s)) (St_subscribers s)
      else mkStore (St_database s) (St_nextSubscriber s)
             (<[ id := mkChannel (Ch_capacity ch) (Ch_queue ch) (Ch_received ch) true ]> (St_channels s)) (St_subscribers s ∖ {[ id ]})
  end.

Definition publish (e : EventEnvelope) (s : Store) : Store := foldr (offer e) s (elements (St_subscribers s)).

Definition Subscribe (buffer : Z) (s : Store) : nat * Store :=
  let buffer := if buffer <? 1 then 32 else buffer in
  let id := St_nextSubscriber s in
  (id, mkStore (St_database s) (S id) (<[ id := mkChannel (Z.to_nat buffer) [] [] false ]> (St_channels s)) ({[ id ]} ∪ St_subscribers s)).

(** The function [Subscribe] returns; it runs once. *)
Definition unsubscribe (id : nat) (s : Store) : Store :=
  if bool_decide (id ∈ St_subscribers s) then
    mkStore (St_database s) (St_nextSubscriber s)
      (alter (fun ch => mkChannel (Ch_capacity ch) (Ch_queue ch) (Ch_received ch) true) id (St_channels s)) (St_subscribers s ∖ {[ id ]})
  else s.

(** The subscriber takes the next event out of its channel. *)
Definition receive (id : nat) (s : Store) : Store :=
  match St_channels s !! id with
  | Some (mkChannel capacity (e :: queue) received closed) =>
      mkStore (St_database s) (St_nextSubscriber s) (<[ id := mkChannel capacity queue (received ++ [e]) closed ]> (St_channels s)) (St_subscribers s)
  | _ => s
  end.

(** ** Appending *)

Definition Store_Append (e : EventEnvelope) : M Store bool :=
  let! now := now clock in
  run! liftR (Validate e) in
  let! wire := liftR (EventToProto e) in
  if MaximumEventWireBytes <? wireSize wire then failM ErrEnvelopeSize else
  if negb (eqs (Event_DeploymentID e) deploymentID) then failM ErrOtherDeployment else
  let! node := database (GetNode (Event_NodeID e)) in
  if negb (eqs (Node_Status node) NodeActive) then failM ErrNodeInactive else
  run! liftR (validateCredential e node now) in
  run! liftR (VerifySource checkMessage validateOpaqueProtobuf e (Node_PublicKey node)) in
  run! liftR (ValidateEvidenceAt e now) in
  let! existing := attempt (database (GetEvent checkMessage validateOpaqueProtobuf wireSize sqlFails (Event_ID e))) in
  let! receivedAt := match existing with
    | Ok stored => retM (Event_ReceivedAt stored)
    | Err er => if bool_decide (er = ErrEventNotFound) then retM now else failM er
    end in
  let e := setReceivedAt receivedAt e in
  run! liftR (Validate e) in
  let! inserted := database (AppendEvent checkMessage validateOpaqueProtobuf wireSize sqlFails e) in
  let! stored := attempt (database (GetEvent checkMessage validateOpaqueProtobuf wireSize sqlFails (Event_ID e))) in
  match stored with
  | Err _ => failM ErrReadBack
  | Ok stored =>
      run! database (advanceAPICursor stored now) in
      run! (if inserted then modS (publish stored) else retM tt) in
      retM inserted
  end.

(** ** The batch handler *)

Definition provenanceUnknown : string := "UNKNOWN".
Definition provenanceLive : string := "LIVE".
Definition provenanceSimulation : string := "SIMULATION".

(** A capability of a manifest: its implementation and its constraints. *)
Context (equalFold : string -> string -> bool) (toLower : string -> string).
Context (parseManifest : string -> option (list (option (string * list string)))).

(** The loop over the capabilities of a manifest; nil entries are skipped. *)
Definition capabilityProvenance (capabilities : list (option (string * list string))) : string :=
  if existsb (fun o => match o with
       | None => false
       | Some (implementation, constraints) =>
           equalFold implementation "antiflock-sim"
           || existsb (fun c => equalFold c "simulation-only" || equalFold c "no-host-mutation") constraints
       end) capabilities
  then provenanceSimulation else provenanceLive.

Definition nodeEvidenceProvenance (node : Node) : string :=
  if equalFold (Node_PlatformVersion node) "simulation" then provenanceSimulation else
  if slen (Node_Capabilities node) =? 0 then provenanceUnknown else
  match parseManifest (Node_Capabilities node) with
  | None => provenanceUnknown
  | Some capabilities => capabilityProvenance capabilities
  end.

Definition enrollmentEvidenceProvenance (platformVersion : string) (manifest : option (list (option (string * list string)))) : string :=
  if equalFold platformVersion "simulation" then provenanceSimulation else
  match manifest with
  | None => provenanceUnknown
  | Some capabilities => capabilityProvenance capabilities
  end.

Definition mergeEvidenceProvenance (left right : string) : string :=
  if eqs left provenanceSimulation || eqs right provenanceSimulation then provenanceSimulation
  else if eqs left provenanceUnknown || eqs right provenanceUnknown then provenanceUnknown
  else provenanceLive.

Fixpoint evidenceProvenance (evidence : list EventEvidence) : string :=
  match evidence with
  | [] => provenanceLive
  | e :: rest =>
      let after :=
        if hasPrefix (toLower (default EmptyString (EE_Attributes e !! "methodId"))) "antiflock.simulation."
        then provenanceSimulation else evidenceProvenance rest in
      match EE_Attributes e !! "simulation" with
      | Some value =>
          if equalFold value "true" then provenanceSimulation
          else if negb (equalFold value "false") then provenanceUnknown
          else after
      | None => after
      end
  end.

Definition eventEvidenceProvenance (e : EventEnvelope) (node : Node) : string :=
  let nodeProvenance := nodeEvidenceProvenance node in
  if negb (eqs nodeProvenance provenanceLive) then nodeProvenance else evidenceProvenance (Event_Evidence e).

Record EventBatch : Type := mkBatch {
  Batch_BatchId : string;
  Batch_NodeId : string;
  Batch_Events : list (option wireEvent);
}.

Record EventBatchAck : Type := mkAck {
  Ack_BatchId : string;
  Ack_HighestContiguousSequence : Z;
  Ack_Rejected : list (string * string);   (** event id and reason code *)
}.

(** An answer of the handler: the HTTP status, and the acknowledgement of a 200. *)
Inductive batchResponse : Type :=
| Refused (status : Z) (code : string)
| Acknowledged (ack : EventBatchAck).

Definition maximumBatchEvents : Z := 256.

Definition batchBounded (value : string) (maximum : Z) : bool := boundedString value maximum.

(** The reason code of an append that failed. *)
Definition rejectionReason (er : error) : string :=
  if bool_decide (er = ErrEventSequenceConflict) then "EVENT_SEQUENCE_CONFLICT"
  else if bool_decide (er = ErrEventSequenceGap) then "EVENT_SEQUENCE_GAP"
  else if bool_decide (er = ErrEventBootRegression) then "EVENT_BOOT_REGRESSION"
  else "EVENT_REJECTED".

Context (simulation : bool).

(** One turn of the loop over the events: the boot id of the batch so far,
    and the rejection, if any. *)
Definition ingestOne (node : Node) (nodeID bootID : string) (o : option wireEvent) : M Store (string * option (string * string)) :=
  match o with
  | None => retM (bootID, Some (EmptyString, "EVENT_ENVELOPE_INVALID"))
  | Some wire =>
      let refuse (boot reason : string) := retM (boot, Some (Wire_Id wire, reason)) in
      if negb (eqs (Wire_NodeId wire) nodeID) || (Z.shiftl 1 20 <? wireSize wire) then refuse bootID "EVENT_ENVELOPE_INVALID" else
      let boot := if eqs bootID EmptyString then Wire_BootId wire else bootID in
      if negb (eqs bootID EmptyString) && negb (eqs (Wire_BootId wire) bootID) then refuse bootID "EVENT_BOOT_MISMATCH" else
      match EventFromProto wireSize (Some wire) with
      | Err _ => refuse boot "EVENT_SCHEMA_INVALID"
      | Ok e =>
          let provenance := eventEvidenceProvenance e node in
          if eqs (nodeEvidenceProvenance node) provenanceUnknown || eqs provenance provenanceUnknown
          then refuse boot "EVIDENCE_PROVENANCE_UNKNOWN"
          else if negb simulation && eqs provenance provenanceSimulation then refuse boot "SIMULATION_PROVENANCE_DISABLED"
          else
            let! appended := attempt (Store_Append e) in
            match appended with
            | Ok _ => retM (boot, None)
            | Err er => refuse boot (rejectionReason er)
            end
      end
  end.

Fixpoint ingestAll (node : Node) (nodeID bootID : string) (events : list (option wireEvent)) (rejected : list (string * string))
    : M Store (string * list (string * string)) :=
  match events with
  | [] => retM (bootID, rejected)
  | o :: rest =>
      let! '(boot, refused) := ingestOne node nodeID bootID o in
      ingestAll node nodeID boot rest (match refused with Some r => rejected ++ [r] | None => rejected end)
  end.

(** [handleEventBatch] on a decoded batch of the caller whose credential is
    that of [callerNode]. *)
Definition handleEventBatch (callerNode : string) (batch : option EventBatch) : M Store batchResponse :=
  match batch with
  | None => retM (Refused 400 "INVALID_EVENT_BATCH")
  | Some b =>
      if negb (batchBounded (Batch_BatchId b) 128) || negb (batchBounded (Batch_NodeId b) 128) || (len (Batch_Events b) =? 0)
         || (maximumBatchEvents <? len (Batch_Events b))
      then retM (Refused 400 "INVALID_EVENT_BATCH") else
      if eqs callerNode EmptyString || negb (eqs callerNode (Batch_NodeId b)) then retM (Refused 403 "NODE_SCOPE_MISMATCH") else
      let! node := attempt (database (GetNode (Batch_NodeId b))) in
      match node with
      | Err _ => retM (Refused 403 "FORBIDDEN")
      | Ok node =>
          let! '(bootID, rejected) := ingestAll node (Batch_NodeId b) EmptyString (Batch_Events b) [] in
          let! state := attempt (database (GetNodeEventState sqlFails (Batch_NodeId b))) in
          match state with
          | Err _ => retM (Refused 500 "INTERNAL")
          | Ok state =>
              let highest := if eqs (NS_CurrentBootID state) bootID then NS_HighestContiguousSequence state else 0 in
              retM (Acknowledged (mkAck (Batch_BatchId b) highest rejected))
          end
      end
  end.

End Ingest.
