(* ===== verification/EventQueue.v ===== *)
(** * The durable event queue of the agent (agent/runtime/queue.go)

    [Queue] is a write-ahead queue in one file of a private directory
    (Directory.v), replaced by a rename; the process that holds the lock has
    the state in memory. A failed save leaves the memory as the code leaves
    it: [NextSequence] keeps the number it took, [EnqueueBatch] and
    [Acknowledge] restore the events unless the file was already installed.

    [encoding/json] is the class [QueueCodec]; the protobuf encoding of an
    envelope is [EventCodec]. *)

From S2P Require Import Prelude Directory Sha256 Digest Library Contract JournalFile Plan Events.
From stdpp Require Import base gmap list strings sorting.
From Stdlib Require Import ZArith Lia.

Open Scope Z_scope.

Definition queueSchema : string := "antiflock.agent-queue/v1".
Definition maximumQueueEvents : Z := 10000.
Definition maximumQueueBytes : Z := Z.shiftl 32 20.

(** ** The state *)

Record queuedEvent : Type := mkQueued { Queued_Priority : Z; Queued_Wire : string }.

Record QueueEntry : Type := mkEntry { Entry_Event : option wireEvent; Entry_Priority : Z }.

Record queueState : Type := mkQueueState {
  QS_SchemaVersion : string;
  QS_NodeID : string;
  QS_LastSequence : Z;
  QS_Events : list queuedEvent;
}.

Record QueueStatus : Type := mkQueueStatus {
  Status_SchemaVersion : string;
  Status_NodeID : string;
  Status_LastSequence : Z;
  Status_RetainedEvents : Z;
  Status_MaximumEvents : Z;
}.

(** The queue of the running process, with the directory it writes. *)
Record Queue : Type := mkQueue {
  Queue_nodeID : string;
  Queue_state : queueState;
  Queue_directory : directory;
}.

Definition setQueueState (s : queueState) (q : Queue) : Queue := mkQueue (Queue_nodeID q) s (Queue_directory q).
Definition setQueueDirectory (d : directory) (q : Queue) : Queue := mkQueue (Queue_nodeID q) (Queue_state q) d.
Definition withEvents (events : list queuedEvent) (s : queueState) : queueState :=
  mkQueueState (QS_SchemaVersion s) (QS_NodeID s) (QS_LastSequence s) events.
Definition withSequence (n : Z) (s : queueState) : queueState :=
  mkQueueState (QS_SchemaVersion s) (QS_NodeID s) n (QS_Events s).

(** [Decode] fills the struct it is given: a field absent from the text keeps
    its value. The law holds for ASCII strings and unsigned 64-bit numbers. *)
Definition plainQueue (s : queueState) : Prop :=
  ascii (QS_SchemaVersion s) /\ ascii (QS_NodeID s) /\ u64 (QS_LastSequence s) /\
  Forall (fun q => 0 <= Queued_Priority q < 256 /\ ascii (Queued_Wire q)) (QS_Events s).

Class QueueCodec : Type := {
  queueMarshal : queueState -> list Z;
  queueDecode : queueState -> list Z -> option (queueState * list Z);
  queue_roundtrip : forall s0 s, plainQueue s -> queueDecode s0 (queueMarshal s) = Some (s, []);
}.

(** ** Errors *)

Definition ErrQueueRequired : error := errorsNew "agent queue directory and node id are required".
Definition ErrQueueCreateDirectory : error := errorsNew "create agent queue directory".
Definition ErrQueueResolve : error := errorsNew "resolve agent queue directory".
Definition ErrQueueTraverse : error := errorsNew "agent queue directory must not traverse symlinks".
Definition ErrQueueProtect : error := errorsNew "protect agent queue directory".
Definition ErrQueuePrivate : error := errorsNew "agent queue directory is not private and real".
Definition ErrSequenceExhausted : error := errorsNew "agent event sequence exhausted".
Definition ErrQueueEvents : error := errorsNew "queue requires signed events".
Definition ErrQueueNodeScoped : error := errorsNew "queue requires signed node-scoped events".
Definition ErrEncodeQueued : error := errorsNew "encode queued event".
Definition ErrQueueFull : error := errorsNew "agent queue is full; telemetry is retained and collection must pause".
Definition ErrBatchSize : error := errorsNew "batch size must be between one and 256".
Definition ErrQueuedEncoding : error := errorsNew "queued event encoding is invalid".
Definition ErrQueuedInvalid : error := errorsNew "queued event is invalid".
Definition ErrAckEvents : error := errorsNew "queue acknowledgement requires events".
Definition ErrAckInvalid : error := errorsNew "queue acknowledgement contains an invalid event".
Definition ErrAckMismatch : error := errorsNew "acknowledgement did not match queued events".
Definition ErrQueueFile : error := errorsNew "agent queue file is not a bounded private regular file".
Definition ErrReadQueue : error := errorsNew "read agent queue".
Definition ErrDecodeQueue : error := errorsNew "decode agent queue".
Definition ErrQueueTrailing : error := errorsNew "agent queue contains trailing data".
Definition ErrQueueSchema : error := errorsNew "agent queue schema is invalid".
Definition ErrEncodeQueue : error := errorsNew "encode bounded agent queue".
Definition ErrStageQueue : error := errorsNew "stage agent queue".
Definition ErrProtectStage : error := errorsNew "protect staged agent queue".
Definition ErrWriteQueueStage : error := errorsNew "write staged agent queue".
Definition ErrSyncQueueStage : error := errorsNew "sync staged agent queue".
Definition ErrCloseQueueStage : error := errorsNew "close staged agent queue".
Definition ErrInstallQueue : error := errorsNew "install agent queue: %w".
Definition ErrOpenQueueDirectory : error := errorsNew "open agent queue directory for sync".
Definition ErrSyncQueueDirectory : error := errorsNew "sync agent queue directory".
Definition ErrQueueActiveHere : error := errorsNew "agent queue is already active in this process".
Definition ErrQueueActive : error := errorsNew "agent queue is already active in another process".
Definition ErrQueueLockFile : error := errorsNew "agent queue lock file is not a private regular file".
Definition ErrInspectQueueLock : error := errorsNew "inspect agent queue lock file".
Definition ErrOpenQueueLock : error := errorsNew "open agent queue lock file".
Definition ErrProtectQueueLock : error := errorsNew "protect agent queue lock file".
Definition ErrReleaseQueueLock : error := errorsNew "release agent queue writer lock".

Section Queue.
Context {EC : EventCodec} {QC : QueueCodec}.
Context (sysFails : nat -> bool) (contention : nat -> nat * bool).

Abbreviation MD := (M directory).
Abbreviation MQ := (M Queue).
Abbreviation onDirectory := (zoom Queue_directory setQueueDirectory).

(** ** Load and save *)

Definition decodeQueue (nodeID : string) (initial : queueState) (content : list Z) : result queueState :=
  match queueDecode initial content with
  | None => Err ErrDecodeQueue
  | Some (state, rest) =>
      reject negb (onlySpace rest) with ErrQueueTrailing;
      reject negb (eqs (QS_SchemaVersion state) queueSchema) || negb (eqs (QS_NodeID state) nodeID)
             || (maximumQueueEvents <? len (QS_Events state)) with ErrQueueSchema;
      Ok state
  end.

Definition emptyQueue (nodeID : string) : queueState := mkQueueState queueSchema nodeID 0 [].

Definition queue_load (nodeID : string) : MD queueState := fun st =>
  let d := snd st in
  let initial := emptyQueue nodeID in
  if sysFails (fst st) then (Err ErrQueueFile, (S (fst st), d)) else
  match dir_journal d with
  | None => (Ok initial, (S (fst st), d))
  | Some f =>
      (if negb (bool_decide (node_kind f = Regular)) || negb (node_mode f =? perm_0600) || (maximumQueueBytes <? len (node_content f))
       then failM ErrQueueFile
       else run! syscall sysFails ErrReadQueue id in
            liftR (decodeQueue nodeID initial (node_content f))) (S (fst st), d)
  end.

Definition syncQueueDirectory : MD unit :=
  let! d := getS in
  if negb (bool_decide (dir_kind d = Directory)) then failM ErrOpenQueueDirectory else
  run! syscall sysFails ErrOpenQueueDirectory id in
  syscall sysFails ErrSyncQueueDirectory syncDirectory.

(** Whether the replacement was installed, and how the save ended. *)
Definition queue_save (state : queueState) : MD (bool * result unit) :=
  let content := queueMarshal state in
  if maximumQueueBytes <? len content then retM (false, Err ErrEncodeQueue) else
  let! staged := attempt (syscall sysFails ErrStageQueue (set_stage (Some (mkNode Regular perm_0600 [] false)))) in
  match staged with
  | Err e => retM (false, Err e)
  | Ok _ =>
      deferM (set_stage None) (
        let! installed := attempt (
          run! syscall sysFails ErrProtectStage (fun d => set_stage (chmod perm_0600 <$> dir_stage d) d) in
          run! syscall sysFails ErrWriteQueueStage (fun d => set_stage (written content <$> dir_stage d) d) in
          run! syscall sysFails ErrSyncQueueStage (fun d => set_stage (synced <$> dir_stage d) d) in
          run! syscall sysFails ErrCloseQueueStage id in
          syscall sysFails ErrInstallQueue install) in
        match installed with
        | Err e => retM (false, Err e)
        | Ok _ =>
            let! durable := attempt syncQueueDirectory in
            retM (true, durable)
        end)
  end.

(** ** The lock *)

Definition acquireQueueLock : MD unit :=
  let! d := getS in
  if dir_held d then failM ErrQueueActiveHere else
  run! syscall sysFails ErrInspectQueueLock id in
  if match dir_lock d with
     | Some f => negb (bool_decide (node_kind f = Regular)) || negb (node_mode f =? perm_0600)
     | None => false
     end then failM ErrQueueLockFile else
  run! syscall sysFails ErrOpenQueueLock (fun d =>
    set_lock (Some (match dir_lock d with Some f => f | None => mkNode Regular perm_0600 [] false end)) d) in
  run! syscall sysFails ErrProtectQueueLock (fun d => set_lock (chmod perm_0600 <$> dir_lock d) d) in
  let! c := attempts contention in
  if bool_decide (fst c = 0%nat) && snd c then modS (set_held true) else failM ErrQueueActive.

(** [Close]: the lease is given up whatever the unlock answers. *)
Definition queueLock_Close : MD unit :=
  let! d := getS in
  if negb (dir_held d) then retM tt else
  let! released := attempt (syscall sysFails ErrReleaseQueueLock id) in
  run! modS unlock in
  liftR released.

Definition OpenQueue (blank : bool) (nodeID : string) : MD queueState :=
  if blank || eqs (TrimSpace nodeID) EmptyString then failM ErrQueueRequired else
  let! d := getS in
  if bool_decide (dir_kind d = NotDirectory) then failM ErrQueueCreateDirectory else
  run! syscall sysFails ErrQueueCreateDirectory (fun d =>
    if bool_decide (dir_kind d = Absent) then set_entry_kind Directory perm_0700 d else d) in
  run! syscall sysFails ErrQueueResolve id in
  run! syscall sysFails ErrQueueTraverse id in
  let! d := getS in
  if dir_linked d || bool_decide (dir_kind d = DirectoryLink) then failM ErrQueueTraverse else
  run! syscall sysFails ErrQueueProtect (fun d => set_entry_kind (dir_kind d) perm_0700 d) in
  run! acquireQueueLock in
  let! loaded := attempt (queue_load nodeID) in
  match loaded with
  | Ok state => retM state
  | Err e => run! attempt queueLock_Close in failM e
  end.

Definition InspectQueue (blank : bool) (nodeID : string) : MD QueueStatus :=
  if blank || eqs (TrimSpace nodeID) EmptyString then failM ErrQueueRequired else
  run! syscall sysFails ErrQueueResolve id in
  run! syscall sysFails ErrQueueTraverse id in
  let! d := getS in
  if dir_linked d || bool_decide (dir_kind d = DirectoryLink) || bool_decide (dir_kind d = Absent) then failM ErrQueueTraverse else
  run! syscall sysFails ErrQueuePrivate id in
  if negb (bool_decide (dir_kind d = Directory)) || negb (dir_mode d =? perm_0700) then failM ErrQueuePrivate else
  let! state := queue_load nodeID in
  retM (mkQueueStatus (QS_SchemaVersion state) (QS_NodeID state) (QS_LastSequence state) (len (QS_Events state)) maximumQueueEvents).

(** ** Operations *)

Definition saveQueue : MQ (bool * result unit) :=
  let! q := getS in
  onDirectory (queue_save (Queue_state q)).

Definition NextSequence (ctx : ctxT) : MQ Z :=
  run! ctxErr ctx in
  let! q := getS in
  if QS_LastSequence (Queue_state q) =? 2 ^ 64 - 1 then failM ErrSequenceExhausted else
  let next := QS_LastSequence (Queue_state q) + 1 in
  run! modS (fun q => setQueueState (withSequence next (Queue_state q)) q) in
  let! '(_, saved) := saveQueue in
  match saved with
  | Err e => failM e
  | Ok _ => retM next
  end.

Definition encodeEntry (nodeID : string) (entry : QueueEntry) : result queuedEvent :=
  match Entry_Event entry with
  | None => Err ErrQueueNodeScoped
  | Some event =>
      reject eqs (Wire_Id event) EmptyString || (Wire_Sequence event =? 0) || negb (eqs (Wire_NodeId event) nodeID) with ErrQueueNodeScoped;
      do wire <- marshalWire ErrEncodeQueued event;
      Ok (mkQueued (Entry_Priority entry) (base64std wire))
  end.

(** Replace the events and save; the old ones come back when a failed save
    installed nothing. *)
Definition replaceEvents (original events : list queuedEvent) : MQ unit :=
  run! modS (fun q => setQueueState (withEvents events (Queue_state q)) q) in
  let! '(installed, saved) := saveQueue in
  match saved with
  | Ok _ => retM tt
  | Err e =>
      run! (if negb installed then modS (fun q => setQueueState (withEvents original (Queue_state q)) q) else retM tt) in
      failM e
  end.

Definition EnqueueBatch (ctx : ctxT) (entries : list QueueEntry) : MQ unit :=
  if len entries =? 0 then failM ErrQueueEvents else
  run! ctxErr ctx in
  let! q := getS in
  let! encoded := liftR (mapR (encodeEntry (Queue_nodeID q)) entries) in
  let original := QS_Events (Queue_state q) in
  if maximumQueueEvents - len original <? len entries then failM ErrQueueFull else
  replaceEvents original (original ++ encoded).

Definition Enqueue (ctx : ctxT) (event : option wireEvent) (priority : Z) : MQ unit := EnqueueBatch ctx [mkEntry event priority].

(** One stored event, as [Batch] accepts it. *)
Definition decodeStored (stored : queuedEvent) : result wireEvent :=
  match base64std_decode (Queued_Wire stored) with
  | None => Err ErrQueuedEncoding
  | Some wire => match eventUnmarshal wire with Some event => Ok event | None => Err ErrQueuedInvalid end
  end.

Definition batchEvent (nodeID : string) (stored : queuedEvent) : result wireEvent :=
  do event <- decodeStored stored;
  reject eqs (Wire_Id event) EmptyString || (Wire_Sequence event =? 0) || negb (eqs (Wire_NodeId event) nodeID)
         || eqs (Wire_BootId event) EmptyString with ErrQueuedInvalid;
  Ok event.

(** The loop of [Batch]: events of the boot of the first one, up to the
    maximum. *)
Fixpoint collectBatch (nodeID : string) (maximum : nat) (bootID : string) (values : list wireEvent) (stored : list queuedEvent)
    : result (list wireEvent) :=
  match stored with
  | [] => Ok values
  | s :: rest =>
      if bool_decide (length values = maximum) then Ok values else
      do event <- batchEvent nodeID s;
      let boot := if eqs bootID EmptyString then Wire_BootId event else bootID in
      if negb (eqs (Wire_BootId event) boot) then collectBatch nodeID maximum boot values rest
      else collectBatch nodeID maximum boot (values ++ [event]) rest
  end.

(** [sort.Slice] by sequence. It is not stable; a node never gives one
    sequence to two events, and then the order is unique. *)
Definition sequence_le (a b : wireEvent) : Prop := Wire_Sequence a <= Wire_Sequence b.
#[export] Instance sequence_le_dec a b : Decision (sequence_le a b).
Proof. unfold sequence_le. apply _. Defined.

Definition Batch (ctx : ctxT) (maximum : Z) : MQ (list wireEvent) :=
  if (maximum <? 1) || (256 <? maximum) then failM ErrBatchSize else
  run! ctxErr ctx in
  let! q := getS in
  let! values := liftR (collectBatch (Queue_nodeID q) (Z.to_nat maximum) EmptyString [] (QS_Events (Queue_state q))) in
  retM (merge_sort sequence_le values).

(** The loop of [Acknowledge]: what is not among the sent ids is kept. *)
Fixpoint keepUnsent (ids : list string) (stored : list queuedEvent) : result (list queuedEvent) :=
  match stored with
  | [] => Ok []
  | s :: rest =>
      do event <- decodeStored s;
      do kept <- keepUnsent ids rest;
      Ok (if containsValue ids (Wire_Id event) then kept else s :: kept)
  end.

Definition ackID (event : option wireEvent) : result string :=
  match event with
  | None => Err ErrAckInvalid
  | Some event => reject eqs (Wire_Id event) EmptyString with ErrAckInvalid; Ok (Wire_Id event)
  end.

Definition Acknowledge (ctx : ctxT) (events : list (option wireEvent)) : MQ unit :=
  if len events =? 0 then failM ErrAckEvents else
  run! ctxErr ctx in
  let! ids := liftR (mapR ackID events) in
  let! q := getS in
  let original := QS_Events (Queue_state q) in
  let! kept := liftR (keepUnsent ids original) in
  if len kept =? len original then failM ErrAckMismatch else
  replaceEvents original kept.

Definition Queue_Close : MQ unit := onDirectory queueLock_Close.

End Queue.
