(* ===== verification/AgentLoop.v ===== *)
(** * The collection loop of the agent (agent/runtime/loop.go and what it
    calls: the telemetry builder of agent/collectors/collectors.go, the file
    signer of agent/runtime/signer.go and agent/ingest/client.go)

    One pass of the loop takes the observations of a collection, builds and
    signs an event for each, enqueues them together, and drains the queue:
    batch, submit, acknowledge, until it is empty. The transport to Core is
    the class [Transport]; what the collector observed, the JSON form of an
    envelope and the protobuf encoding of a payload are parameters. *)

From S2P Require Import Prelude Directory Sha256 Digest Contract Plan Events EventStore EventIngest EventQueue.
From stdpp Require Import base gmap list strings pretty.
From Stdlib Require Import ZArith Lia.

Open Scope Z_scope.

(** ** The telemetry builder *)

(** [Obs_Payload] is the full name of the message and its deterministic
    encoding; [None] is a nil message. *)
Record Observation : Type := mkObservation {
  Obs_Kind : string;
  Obs_ObservedAt : time;
  Obs_Classification : string;
  Obs_Confidence : Z;
  Obs_Sensitivity : string;
  Obs_Payload : option (string * option (list Z));
  Obs_Evidence : list EventEvidence;
}.

Record TelemetryBuilder : Type := mkBuilder {
  Builder_deploymentID : string;
  Builder_nodeID : string;
  Builder_bootID : string;
}.

Definition QueuePriorityObservation : Z := 1.
Definition QueuePrioritySecurityState : Z := 2.

Definition priorityForKind (kind : string) : Z :=
  if existsb (hasPrefix kind) ["policy."; "posture."; "finding."; "action."; "scrambler."]%string
     || containsValue ["node.enrolled"; "node.suspended"; "node.revoked"]%string kind
  then QueuePrioritySecurityState else QueuePriorityObservation.

Definition ErrBuilderRequires : error := errorsNew "telemetry builder requires deployment, node, boot, sequence, and signer".
Definition ErrObservation : error := errorsNew "observation metadata is incomplete or invalid".
Definition ErrObservationPayload : error := errorsNew "encode observation payload: %w".
Definition ErrSequenceZero : error := errorsNew "sequence source returned zero".
Definition ErrImmutableContent : error := errorsNew "encode immutable event content".
Definition ErrSignerChanged : error := errorsNew "event signer changed immutable source content".
Definition ErrSignerKey : error := errorsNew "event signer used a key outside the node identity".
Definition ErrLoopRequires : error := errorsNew "agent loop requires deployment, node, boot, collector, queue, signer, and submitter".
Definition ErrLoopInterval : error := errorsNew "agent collection interval must be between one second and 24 hours".
Definition ErrBatchInput : error := errorsNew "agent event batch requires bounded batch and node ids and between one and 256 events".
Definition ErrBatchScope : error := errorsNew "agent event batch contains an invalid scoped event".
Definition ErrBatchBoot : error := errorsNew "agent event batch must contain one boot id".
Definition ErrRejectedHTTP : error := errorsNew "agent event batch rejected by Core with HTTP %d".
Definition ErrDecodeAck : error := errorsNew "decode Core event batch acknowledgement".
Definition ErrNotAccepted : error := errorsNew "complete agent event batch was not durably accepted by Core".
Definition ErrDrainFuel : error := errorsNew "out of fuel".

Definition NewTelemetryBuilder (deploymentID nodeID bootID : string) : result TelemetryBuilder :=
  reject eqs (TrimSpace deploymentID) EmptyString || eqs (TrimSpace nodeID) EmptyString || eqs (TrimSpace bootID) EmptyString with ErrBuilderRequires;
  Ok (mkBuilder deploymentID nodeID bootID).

(** [Submitter]: a post of a batch answers an HTTP status and, when the body
    decodes, the acknowledgement in it. *)
Class Transport (N : Type) : Type := Post : EventBatch -> M N (Z * option EventBatchAck).

Section Loop.
Context {H : Hasher} {E : Ed25519} {EC : EventCodec} {QC : QueueCodec}.
Context (checkMessage : string -> list Z -> string -> result unit) (validateOpaqueProtobuf : list Z -> result unit).
Context (sysFails : nat -> bool) (contention : nat -> nat * bool).
Context (clock : clockT) (eventJSON : EventEnvelope -> option (list Z)).
(** [EventSigner.Sign] at a tick. *)
Context (signer : nat -> EventEnvelope -> result EventEnvelope).

Abbreviation Validate := (EventEnvelope_Validate checkMessage validateOpaqueProtobuf).

(** [fileSigner.Sign]. *)
Definition fileSigner_Sign (nodeID : string) (privateKey : list Z) (tick : nat) (e : EventEnvelope) : result EventEnvelope :=
  SignAt checkMessage validateOpaqueProtobuf e nodeID privateKey (clock tick).

Definition immutableEventDigest (e : EventEnvelope) : result (list Z) :=
  match eventJSON (setSourceSignature noSignature (setPayloadDigest noDigest e)) with
  | None => Err ErrImmutableContent
  | Some encoded => Ok (sum256 encoded)
  end.

Definition eventID (e : EventEnvelope) : string :=
  let preimage := bytes_of "AntiFlock-Event-ID-v1" ++ [0] ++ bytes_of (Event_DeploymentID e) ++ [0] ++ bytes_of (Event_NodeID e) ++ [0]
    ++ bytes_of (Event_BootID e) ++ [0] ++ bytes_of (pretty (Event_Sequence e)) ++ [0] ++ bytes_of (Event_Kind e) ++ [0] ++ Event_Payload e in
  "event_" +:+ hexEncode (take 16 (sum256 preimage)).

Definition setEventID (id : string) (e : EventEnvelope) : EventEnvelope :=
  mkEvent id (Event_SchemaVersion e) (Event_DeploymentID e) (Event_NodeID e) (Event_Kind e) (Event_ObservedAt e) (Event_ReceivedAt e)
    (Event_Sequence e) (Event_BootID e) (Event_Classification e) (Event_Confidence e) (Event_Sensitivity e) (Event_PayloadTypeURL e)
    (Event_Payload e) (Event_Evidence e) (Event_CorrelationID e) (Event_CausationID e) (Event_PayloadDigest e) (Event_SourceSignature e)
    (Event_IngestOrdinal e).

Definition unsignedEvent (b : TelemetryBuilder) (o : Observation) (sequence : Z) (name : string) (payload : list Z) : EventEnvelope :=
  let e := mkEvent EmptyString "antiflock.event/v1" (Builder_deploymentID b) (Builder_nodeID b) (Obs_Kind o) (Obs_ObservedAt o) zeroTime
    sequence (Builder_bootID b) (Obs_Classification o) (Obs_Confidence o) (Obs_Sensitivity o) (typePrefix +:+ name) payload (Obs_Evidence o)
    EmptyString EmptyString noDigest noSignature 0 in
  setEventID (eventID e) e.

(** What [Build] does once it has a sequence. *)
Definition finishEvent {S : Type} (b : TelemetryBuilder) (e : EventEnvelope) : M S wireEvent :=
  let! t := now clock in
  run! liftR (ValidateEvidenceAt e t) in
  let! immutable := liftR (immutableEventDigest e) in
  let! e := (fun st => (signer (fst st) e, (Datatypes.S (fst st), snd st))) in
  let! signedImmutable := liftR (immutableEventDigest e) in
  if negb (bool_decide (immutable = signedImmutable)) then failM ErrSignerChanged else
  if negb (eqs (ES_KeyID (Event_SourceSignature e)) (Builder_nodeID b)) then failM ErrSignerKey else
  let! t := now clock in
  run! liftR (ValidateEvidenceAt e t) in
  run! liftR (Validate e) in
  liftR (EventToProto e).

Definition Build (b : TelemetryBuilder) (ctx : ctxT) (o : Observation) : M Queue (wireEvent * Z) :=
  run! ctxErr ctx in
  match Obs_Payload o with
  | None => failM ErrObservation
  | Some (name, encoded) =>
      if negb (EvidenceClass_Valid (Obs_Classification o)) || negb (Sensitivity_Valid (Obs_Sensitivity o)) || IsZero (Obs_ObservedAt o)
         || badConfidence (Obs_Confidence o) then failM ErrObservation else
      match encoded with
      | None => failM ErrObservationPayload
      | Some payload =>
          let! sequence := NextSequence sysFails ctx in
          if sequence =? 0 then failM ErrSequenceZero else
          let! wire := finishEvent b (unsignedEvent b o sequence name payload) in
          retM (wire, priorityForKind (Obs_Kind o))
      end
  end.

Definition BuildAndEnqueue (b : TelemetryBuilder) (ctx : ctxT) (o : Observation) : M Queue wireEvent :=
  let! '(wire, priority) := Build b ctx o in
  run! Enqueue sysFails ctx (Some wire) priority in
  retM wire.

(** ** The submission *)

Fixpoint oneBoot (nodeID bootID : string) (events : list (option wireEvent)) : result unit :=
  match events with
  | [] => Ok tt
  | None :: _ => Err ErrBatchScope
  | Some w :: rest =>
      reject negb (eqs (Wire_NodeId w) nodeID) || eqs (Wire_Id w) EmptyString with ErrBatchScope;
      if eqs bootID EmptyString then oneBoot nodeID (Wire_BootId w) rest
      else reject negb (eqs (Wire_BootId w) bootID) with ErrBatchBoot; oneBoot nodeID bootID rest
  end.

Definition validInput (b : EventBatch) : result unit :=
  reject negb (batchBounded (Batch_BatchId b) 128) || negb (batchBounded (Batch_NodeId b) 128) || (len (Batch_Events b) =? 0)
         || (maximumBatchEvents <? len (Batch_Events b)) with ErrBatchInput;
  oneBoot (Batch_NodeId b) EmptyString (Batch_Events b).

Context {N : Type} {T : Transport N}.

Definition Submit (ctx : ctxT) (b : EventBatch) : M N EventBatchAck :=
  run! ctxErr ctx in
  run! liftR (validInput b) in
  let! '(status, body) := Post b in
  if negb (status =? 200) then failM ErrRejectedHTTP else
  match body with
  | None => failM ErrDecodeAck
  | Some ack =>
      if negb (eqs (Ack_BatchId ack) (Batch_BatchId b)) || negb (len (Ack_Rejected ack) =? 0) then failM ErrNotAccepted else
      retM ack
  end.

(** ** The loop *)

Record agent : Type := mkAgent { Agent_queue : Queue; Agent_network : N }.
Definition setAgentQueue (q : Queue) (a : agent) : agent := mkAgent q (Agent_network a).
Definition setAgentNetwork (n : N) (a : agent) : agent := mkAgent (Agent_queue a) n.
Abbreviation onQueue := (zoom Agent_queue setAgentQueue).
Abbreviation onNetwork := (zoom Agent_network setAgentNetwork).

Definition batchName (nodeID bootID : string) (first last : Z) : string :=
  "batch-" +:+ nodeID +:+ "-" +:+ bootID +:+ "-" +:+ pretty first +:+ "-" +:+ pretty last.

(** One turn of the loop of [drain]; false when the queue was empty. *)
Definition drainTurn (b : TelemetryBuilder) (ctx : ctxT) : M agent bool :=
  let! events := onQueue (Batch ctx 256) in
  match events with
  | [] => retM false
  | first :: _ =>
      let final := List.last events first in
      let name := batchName (Builder_nodeID b) (Builder_bootID b) (Wire_Sequence first) (Wire_Sequence final) in
      run! onNetwork (Submit ctx (mkBatch name (Builder_nodeID b) (Some <$> events))) in
      run! onQueue (Acknowledge sysFails ctx (Some <$> events)) in
      retM true
  end.

(** [drain]: every turn that comes back has removed an event. *)
Fixpoint drain (fuel : nat) (b : TelemetryBuilder) (ctx : ctxT) : M agent unit :=
  let! more := drainTurn b ctx in
  if more then match fuel with O => failM ErrDrainFuel | S fuel => drain fuel b ctx end else retM tt.

Fixpoint buildAll (b : TelemetryBuilder) (ctx : ctxT) (observations : list Observation) : M Queue (list QueueEntry) :=
  match observations with
  | [] => retM []
  | o :: rest =>
      let! '(event, priority) := Build b ctx o in
      let! entries := buildAll b ctx rest in
      retM (mkEntry (Some event) priority :: entries)
  end.

(** [collect]: what the collector answers at a tick. *)
Definition RunOnce (collect : nat -> result (list Observation)) (b : TelemetryBuilder) (ctx : ctxT) : M agent unit :=
  let! observations := (fun st => (collect (fst st), (S (fst st), snd st))) in
  let! entries := onQueue (buildAll b ctx observations) in
  run! (if negb (len entries =? 0) then onQueue (EnqueueBatch sysFails ctx entries) else retM tt) in
  let! a := getS in
  drain (length (QS_Events (Queue_state (Agent_queue a)))) b ctx.

(** [NewLoop]: the interval in nanoseconds. *)
Definition NewLoop (deploymentID nodeID bootID : string) (interval : Z) : result (TelemetryBuilder * Z) :=
  reject eqs (TrimSpace deploymentID) EmptyString || eqs (TrimSpace nodeID) EmptyString || eqs (TrimSpace bootID) EmptyString with ErrLoopRequires;
  let interval := if interval =? 0 then 30 * Second else interval in
  reject (interval <? Second) || (24 * Hour <? interval) with ErrLoopInterval;
  do builder <- NewTelemetryBuilder deploymentID nodeID bootID;
  Ok (builder, interval).

End Loop.
