(* ===== verification/AuditStore.v ===== *)
(** * The audit tables of Core (core/storage/audit.go, audited_mutations.go)

    [audit_entries] and [audit_state] beside the other tables of the
    database, whose type [D] is a parameter here: an audited mutation changes
    them and appends the entry in one transaction. Statements may fail
    ([sqlFails], indexed by ticks), and a transaction that does not commit
    leaves all tables as they were. A table with an INTEGER PRIMARY KEY is the
    list of its rows in the order of the key, and a column that holds the text
    of a time holds the time itself. *)

From S2P Require Import Prelude Sha256 Digest Contract Plan Events EventStore.
From stdpp Require Import base gmap list strings.
From Stdlib Require Import ZArith Lia.

Open Scope Z_scope.

(** ** Data *)

(** [model.AuditEntry]; [json.RawMessage] is its text. *)
Record AuditEntry : Type := mkAuditEntry {
  Audit_Sequence : Z;
  Audit_ID : string;
  Audit_KeyID : string;
  Audit_OccurredAt : time;
  Audit_ActorType : string;
  Audit_ActorID : string;
  Audit_Action : string;
  Audit_ResourceType : string;
  Audit_ResourceID : string;
  Audit_Outcome : string;
  Audit_Details : string;
  Audit_PreviousHash : string;
  Audit_EntryHash : string;
  Audit_Signature : string;
}.

Definition setAuditSequence (sequence : Z) (e : AuditEntry) : AuditEntry :=
  mkAuditEntry sequence (Audit_ID e) (Audit_KeyID e) (Audit_OccurredAt e) (Audit_ActorType e) (Audit_ActorID e) (Audit_Action e)
    (Audit_ResourceType e) (Audit_ResourceID e) (Audit_Outcome e) (Audit_Details e) (Audit_PreviousHash e) (Audit_EntryHash e) (Audit_Signature e).
Definition setAuditDetails (details : string) (e : AuditEntry) : AuditEntry :=
  mkAuditEntry (Audit_Sequence e) (Audit_ID e) (Audit_KeyID e) (Audit_OccurredAt e) (Audit_ActorType e) (Audit_ActorID e) (Audit_Action e)
    (Audit_ResourceType e) (Audit_ResourceID e) (Audit_Outcome e) details (Audit_PreviousHash e) (Audit_EntryHash e) (Audit_Signature e).
Definition setAuditSeal (hash signature : string) (e : AuditEntry) : AuditEntry :=
  mkAuditEntry (Audit_Sequence e) (Audit_ID e) (Audit_KeyID e) (Audit_OccurredAt e) (Audit_ActorType e) (Audit_ActorID e) (Audit_Action e)
    (Audit_ResourceType e) (Audit_ResourceID e) (Audit_Outcome e) (Audit_Details e) (Audit_PreviousHash e) hash signature.

Record AuditHead : Type := mkHead { Head_Count : Z; Head_Sequence : Z; Head_Hash : string }.
#[export] Instance AuditHead_eq_dec : EqDecision AuditHead.
Proof. solve_decision. Defined.

(** [aud_ordinal] is what AUTOINCREMENT last handed out; [aud_state] is the
    row of [audit_state] with the id 1. *)
Record auditTables : Type := mkAuditTables {
  aud_entries : list AuditEntry;
  aud_ordinal : Z;
  aud_state : option AuditHead;
}.

(** The rows the migration starts with. *)
Definition noAudit : auditTables := mkAuditTables [] 0 (Some (mkHead 0 0 EmptyString)).

(** The database: the tables of the domain and those of the audit log. *)
Record coreTables (D : Type) : Type := mkCore { core_domain : D; core_audit : auditTables }.
Arguments mkCore {D}.
Arguments core_domain {D}.
Arguments core_audit {D}.

Definition setDomain {D : Type} (d : D) (t : coreTables D) : coreTables D := mkCore d (core_audit t).
Definition setAudit {D : Type} (a : auditTables) (t : coreTables D) : coreTables D := mkCore (core_domain t) a.

(** ** Errors *)

Definition ErrAuditHeadConflict : error := errorsNew "audit head changed concurrently".
Definition ErrAuditedMutationRequired : error := errorsNew "a storage-issued audited mutation is required".
Definition ErrReadAuditState : error := errorsNew "read atomic audit state: %w".
Definition ErrAuditDiverges : error := errorsNew "audit state diverges from entries".
Definition ErrBeginAuditInsert : error := errorsNew "begin audit insert: %w".
Definition ErrCommitAuditInsert : error := errorsNew "commit audit insert: %w".
Definition ErrAuditKeyIDRequired : error := errorsNew "audit entry key id is required".
Definition ErrInsertAuditEntry : error := errorsNew "insert audit entry: %w".
Definition ErrReadAuditSequence : error := errorsNew "read audit sequence: %w".
Definition ErrAuditSequencePositive : error := errorsNew "audit sequence must be positive".
Definition ErrAdvanceAuditState : error := errorsNew "advance audit state: %w".
Definition ErrReadAuditUpdate : error := errorsNew "read audit state update count: %w".
Definition ErrListAuditEntries : error := errorsNew "list audit entries: %w".

(** ** Operations *)

(** What the rows say: their number, the greatest key and the last hash. *)
Definition headOf (entries : list AuditEntry) : AuditHead :=
  match last entries with
  | None => mkHead 0 0 EmptyString
  | Some e => mkHead (len entries) (Audit_Sequence e) (Audit_EntryHash e)
  end.

(** The new row, with its key. *)
Definition auditRow (sequence : Z) (entry : AuditEntry) : AuditEntry :=
  setAuditSequence sequence (if eqs (Audit_Details entry) EmptyString then setAuditDetails "{}" entry else entry).

Definition insertAuditRow (entry : AuditEntry) (a : auditTables) : auditTables :=
  mkAuditTables (aud_entries a ++ [auditRow (aud_ordinal a + 1) entry]) (aud_ordinal a + 1) (aud_state a).

(** [UPDATE audit_state ... WHERE id = 1 AND head_hash = ?], and how many
    rows it changes. *)
Definition advancedState (sequence : Z) (hash previous : string) (s : option AuditHead) : option AuditHead :=
  match s with
  | Some h => if eqs (Head_Hash h) previous then Some (mkHead (Head_Count h + 1) sequence hash) else Some h
  | None => None
  end.
Definition advancedRows (previous : string) (s : option AuditHead) : Z :=
  match s with Some h => if eqs (Head_Hash h) previous then 1 else 0 | None => 0 end.
Definition advanceAuditState (sequence : Z) (hash previous : string) (a : auditTables) : auditTables :=
  mkAuditTables (aud_entries a) (aud_ordinal a) (advancedState sequence hash previous (aud_state a)).

Section AuditStore.
Context {D : Type} (sqlFails : nat -> bool).

Abbreviation MC := (M (coreTables D)).
Abbreviation onAudit := (fun f => (fun t : coreTables D => setAudit (f (core_audit t)) t)).

Definition GetAuditHead : MC AuditHead :=
  run! statement sqlFails ErrReadAuditState id in
  let! t := getS in
  match aud_state (core_audit t) with
  | None => failM ErrReadAuditState
  | Some head => if bool_decide (headOf (aud_entries (core_audit t)) = head) then retM head else failM ErrAuditDiverges
  end.

Definition LastAuditHash : MC string :=
  let! head := GetAuditHead in
  retM (Head_Hash head).

(** The unique constraints on the id and on the hash, and the end of the
    keys, fail the insert. *)
Definition insertAuditEntry (entry : AuditEntry) : MC unit :=
  if eqs (Audit_KeyID entry) EmptyString then failM ErrAuditKeyIDRequired else
  let! t := getS in
  let sequence := aud_ordinal (core_audit t) + 1 in
  if existsb (fun r => eqs (Audit_ID r) (Audit_ID entry) || eqs (Audit_EntryHash r) (Audit_EntryHash entry)) (aud_entries (core_audit t))
     || (2 ^ 63 - 1 <? sequence)
  then failM ErrInsertAuditEntry else
  run! statement sqlFails ErrInsertAuditEntry (onAudit (insertAuditRow entry)) in
  run! statement sqlFails ErrReadAuditSequence id in
  if sequence <=? 0 then failM ErrAuditSequencePositive else
  let updated := advancedRows (Audit_PreviousHash entry) (aud_state (core_audit t)) in
  run! statement sqlFails ErrAdvanceAuditState (onAudit (advanceAuditState sequence (Audit_EntryHash entry) (Audit_PreviousHash entry))) in
  run! statement sqlFails ErrReadAuditUpdate id in
  if negb (updated =? 1) then failM ErrAuditHeadConflict else retM tt.

Definition InsertAuditEntry (entry : AuditEntry) : MC unit :=
  dbTransaction sqlFails ErrBeginAuditInsert ErrCommitAuditInsert (
    run! insertAuditEntry entry in
    retM (tt, true)).

Definition ListAuditEntriesAfter (afterSequence limit : Z) : MC (list AuditEntry) :=
  let limit := if (limit <=? 0) || (5000 <? limit) then 500 else limit in
  run! statement sqlFails ErrListAuditEntries id in
  let! t := getS in
  retM (take (Z.to_nat limit) (List.filter (fun r => afterSequence <? Audit_Sequence r) (aud_entries (core_audit t)))).

Definition ListAuditEntries (limit : Z) : MC (list AuditEntry) := ListAuditEntriesAfter 0 limit.

(** ** Audited mutations

    A capability is the function it was issued with; [nil] is [None]. *)

Definition AuditedMutation : Type := AuditEntry -> MC unit.

Definition CommitAuditedMutation (mutation : option AuditedMutation) (entry : AuditEntry) : MC unit :=
  match mutation with
  | None => failM ErrAuditedMutationRequired
  | Some commitWithAudit => commitWithAudit entry
  end.

Definition AuditEntryMutation : AuditedMutation := InsertAuditEntry.

(** The common form of the mutations of a domain: its transition, then the
    entry, then the commit. *)
Definition withAudit (begin commit : error) (transition : M D unit) : AuditedMutation := fun entry =>
  dbTransaction sqlFails begin commit (
    run! zoom core_domain setDomain transition in
    run! insertAuditEntry entry in
    retM (tt, true)).

End AuditStore.
