(* ===== verification/AuditService.v ===== *)
(** * The audit service of Core (core/audit/service.go, lock_unix.go)

    A hash chain of signed entries in the database, and beside it a journal
    of signed anchors in a file of its own: the genesis and then one line per
    entry, written after the entry has committed.

    The world of the service is the database (AuditStore.v), the journal file
    and its lock file. The file has a content, which the running system sees,
    and a durable part, which a power loss leaves; [None] is a name the
    directory does not have. A call of the operating system may fail
    ([sysFails]), a failed write may have written a part ([torn]); all are
    indexed by ticks. A process that dies before a call leaves the same world
    as a call that fails and everything after it, so the states a crash can
    leave are the final states of the methods under all schedules of
    failures, followed by a power loss ([mayLeave]).

    [encoding/json] and the text of a time are the class [AuditCodec];
    [id.New] draws from [newID]; the clocks are functions of ticks. *)

From S2P Require Import Prelude Directory Sha256 Digest Library Contract JournalFile Plan Events EventStore EventQueue Gate AuditStore.
From stdpp Require Import base gmap list strings.
From Stdlib Require Import ZArith Lia.

Open Scope Z_scope.

Definition auditVerificationPageSize : Z := 100.
Definition anchorVersion : string := "antiflock.audit-anchor/v1".
Definition anchorLockTimeout : Z := 45 * Second.

(** ** Data *)

Record AppendRequest (Details : Type) : Type := mkAppend {
  Append_ActorType : string;
  Append_ActorID : string;
  Append_Action : string;
  Append_ResourceType : string;
  Append_ResourceID : string;
  Append_Outcome : string;
  Append_Details : Details;
}.
Arguments mkAppend {Details}.
Arguments Append_ActorType {Details}.
Arguments Append_ActorID {Details}.
Arguments Append_Action {Details}.
Arguments Append_ResourceType {Details}.
Arguments Append_ResourceID {Details}.
Arguments Append_Outcome {Details}.
Arguments Append_Details {Details}.

Record anchor : Type := mkAnchor {
  Anchor_Version : string;
  Anchor_KeyID : string;
  Anchor_Count : Z;
  Anchor_Sequence : Z;
  Anchor_HeadHash : string;
  Anchor_UpdatedAt : time;
  Anchor_Signature : string;
}.

Definition setAnchorSignature (signature : string) (a : anchor) : anchor :=
  mkAnchor (Anchor_Version a) (Anchor_KeyID a) (Anchor_Count a) (Anchor_Sequence a) (Anchor_HeadHash a) (Anchor_UpdatedAt a) signature.

(** The structures that are hashed. *)
Record anchorPayload : Type := mkAnchorPayload {
  APayload_Version : string;
  APayload_KeyID : string;
  APayload_Count : Z;
  APayload_Sequence : Z;
  APayload_HeadHash : string;
  APayload_UpdatedAt : string;
}.

Record entryPayload : Type := mkEntryPayload {
  EPayload_ID : string;
  EPayload_KeyID : string;
  EPayload_OccurredAt : string;
  EPayload_ActorType : string;
  EPayload_ActorID : string;
  EPayload_Action : string;
  EPayload_ResourceType : string;
  EPayload_ResourceID : string;
  EPayload_Outcome : string;
  EPayload_Details : string;
  EPayload_PreviousHash : string;
}.

Definition payloadStrings (p : entryPayload) : list string :=
  [EPayload_ID p; EPayload_KeyID p; EPayload_OccurredAt p; EPayload_ActorType p; EPayload_ActorID p; EPayload_Action p;
   EPayload_ResourceType p; EPayload_ResourceID p; EPayload_Outcome p; EPayload_PreviousHash p].

(** What [json.Unmarshal] gives back: the strings are ASCII, the numbers
    unsigned and the year has four digits. *)
Definition plainAnchor (a : anchor) : Prop :=
  Forall ascii [Anchor_Version a; Anchor_KeyID a; Anchor_HeadHash a; Anchor_Signature a] /\
  u64 (Anchor_Count a) /\ u64 (Anchor_Sequence a) /\ fourDigitYear (Anchor_UpdatedAt a).

(** [json.Marshal] keeps strings of valid UTF-8 apart; it compacts the raw
    message and fails when that is not JSON. *)
Class AuditCodec : Type := {
  auditTime : time -> string;
  entryJSON : entryPayload -> option (list Z);
  anchorPayloadJSON : anchorPayload -> list Z;
  anchorMarshal : anchor -> option (list Z);
  anchorUnmarshal : list Z -> option anchor;
  compactJSON : string -> option string;
  auditTime_inj : forall t u, fourDigitYear t -> fourDigitYear u -> auditTime t = auditTime u -> t = u;
  auditTime_ascii : forall t, ascii (auditTime t);
  entryJSON_total : forall p, isSome (entryJSON p) = isSome (compactJSON (EPayload_Details p));
  entryJSON_inj : forall p q b, entryJSON p = Some b -> entryJSON q = Some b ->
    compactJSON (EPayload_Details p) = compactJSON (EPayload_Details q) /\
    Forall2 (fun s t => utf8 s -> utf8 t -> s = t) (payloadStrings p) (payloadStrings q);
  anchor_roundtrip : forall a, plainAnchor a -> exists b,
    anchorMarshal a = Some b /\ b <> [] /\ (10 ∉ b) /\ anchorUnmarshal b = Some a;
}.

(** [MarshalPKIXPublicKey] of an Ed25519 key: a fixed prefix and the key. *)
Definition marshalPKIX (publicKey : list Z) : list Z :=
  [0x30; 0x2a; 0x30; 0x05; 0x06; 0x03; 0x2b; 0x65; 0x70; 0x03; 0x21; 0x00] ++ publicKey.

(** ** The world *)

Record anchorFile : Type := mkAnchorFile {
  file_content : option (list Z);
  file_durable : option (list Z);
  file_mode : Z;
}.

Record auditWorld (D : Type) : Type := mkWorld {
  aw_tables : coreTables D;
  aw_file : anchorFile;
  aw_lock : option Z;       (** the mode of the lock file *)
  aw_held : bool;
}.
Arguments mkWorld {D}.
Arguments aw_tables {D}.
Arguments aw_file {D}.
Arguments aw_lock {D}.
Arguments aw_held {D}.

Definition setTables {D} (t : coreTables D) (w : auditWorld D) : auditWorld D := mkWorld t (aw_file w) (aw_lock w) (aw_held w).
Definition setFile {D} (f : anchorFile) (w : auditWorld D) : auditWorld D := mkWorld (aw_tables w) f (aw_lock w) (aw_held w).
Definition setLock {D} (l : option Z) (w : auditWorld D) : auditWorld D := mkWorld (aw_tables w) (aw_file w) l (aw_held w).
Definition setAnchorHeld {D} (b : bool) (w : auditWorld D) : auditWorld D := mkWorld (aw_tables w) (aw_file w) (aw_lock w) b.

Definition onFile {D} (f : anchorFile -> anchorFile) (w : auditWorld D) : auditWorld D := setFile (f (aw_file w)) w.

(** [O_CREATE], [chmod], [write] with [O_APPEND], [ftruncate] and [fsync].
    Whether the [fsync] of a file also writes its directory entry depends on
    the file system ([fsyncLinks]); an entry that was written stays. *)
Definition createFile (f : anchorFile) : anchorFile :=
  match file_content f with
  | None => mkAnchorFile (Some []) (file_durable f) perm_0600
  | Some _ => f
  end.
Definition chmodFile (f : anchorFile) : anchorFile := mkAnchorFile (file_content f) (file_durable f) perm_0600.
Definition appendFile (bytes : list Z) (f : anchorFile) : anchorFile :=
  mkAnchorFile (Some (default [] (file_content f) ++ bytes)) (file_durable f) (file_mode f).
Definition truncateFile (size : nat) (f : anchorFile) : anchorFile :=
  mkAnchorFile (take size <$> file_content f) (file_durable f) (file_mode f).
Definition syncFile (fsyncLinks : bool) (f : anchorFile) : anchorFile :=
  mkAnchorFile (file_content f) (if fsyncLinks || isSome (file_durable f) then file_content f else None) (file_mode f).

(** What a power loss may leave: what is common to the content and the
    durable part, followed by more of one of them. A name the disk does not
    have yet may be there or not. *)
Definition mayLeave (f : anchorFile) (image : option (list Z)) : Prop :=
  match file_durable f, file_content f with
  | Some d, Some c => exists p, image = Some p /\ (p `prefix_of` c \/ p `prefix_of` d) /\
      forall q, q `prefix_of` c -> q `prefix_of` d -> q `prefix_of` p
  | None, Some c => image = None \/ exists p, image = Some p /\ p `prefix_of` c
  | d, None => image = d
  end.

(** ** The service *)

Record Service : Type := mkService {
  Service_privateKey : list Z;
  Service_publicKey : list Z;
  Service_keyID : string;
  Service_keyring : gmap string (list Z);
}.

(** ** Errors *)

Definition ErrAuditDatabase : error := errorsNew "audit database is required".
Definition ErrAuditPrivateKey : error := errorsNew "audit private key must be Ed25519".
Definition ErrAuditAnchorPath : error := errorsNew "audit anchor path is required".
Definition ErrHistoricalKey : error := errorsNew "historical audit public key must be Ed25519".
Definition ErrNoTrustedAnchor : error := errorsNew "audit entries exist without a trusted external anchor".
Definition ErrInspectAnchor : error := errorsNew "inspect audit anchor: %w".
Definition ErrAuditMutation : error := errorsNew "audit mutation is required".
Definition ErrAuditField : error := errorsNew "audit %s is required and must be canonical".
Definition ErrAnchorBehind : error := errorsNew "audit anchor does not match database head; verification and recovery are required".
Definition ErrEncodeDetails : error := errorsNew "encode audit details: %w".
Definition ErrDetailsSize : error := errorsNew "audit details exceed 64 KiB".
Definition ErrHeadUnread : error := errorsNew "domain mutation committed but audit head could not be read: %w".
Definition ErrHeadUnexpected : error := errorsNew "domain mutation committed but audit head advanced unexpectedly".
Definition ErrAnchorUpdate : error := errorsNew "domain mutation committed but external audit anchor update failed: %w".
Definition ErrAuditMonotonic : error := errorsNew "audit sequence is not monotonic at %d".
Definition ErrAuditChainBreak : error := errorsNew "audit chain break at sequence %d".
Definition ErrAuditUnknownKey : error := errorsNew "audit entry %d uses unknown signing key %q".
Definition ErrAuditHashMismatch : error := errorsNew "audit hash mismatch at sequence %d".
Definition ErrAuditSignatureMismatch : error := errorsNew "audit signature mismatch at sequence %d".
Definition ErrAuditStateMismatch : error := errorsNew "audit state does not match verified chain".
Definition ErrAuditTruncation : error := errorsNew "audit truncation or anchor divergence detected".
Definition ErrAuditLockDirectory : error := errorsNew "create audit lock directory: %w".
Definition ErrOpenAnchorLock : error := errorsNew "open cross-process audit anchor lock: %w".
Definition ErrProtectAnchorLock : error := errorsNew "protect cross-process audit anchor lock: %w".
Definition ErrAcquireAnchorLock : error := errorsNew "acquire cross-process audit anchor lock: %w".
Definition ErrAnchorLockTimeout : error := errorsNew "timed out waiting for the cross-process audit anchor lock".
Definition ErrReadAnchor : error := errorsNew "read audit anchor: %w".
Definition ErrAnchorEmpty : error := errorsNew "audit anchor journal is empty".
Definition ErrAnchorIncomplete : error := errorsNew "audit anchor journal has no complete record".
Definition ErrOpenTornAnchor : error := errorsNew "open torn audit anchor for repair: %w".
Definition ErrTruncateAnchor : error := errorsNew "truncate torn audit anchor tail: %w".
Definition ErrSyncRepaired : error := errorsNew "sync repaired audit anchor: %w".
Definition ErrCloseRepaired : error := errorsNew "close repaired audit anchor: %w".
Definition ErrDecodeAnchor : error := errorsNew "decode audit anchor journal line %d: %w".
Definition ErrAnchorGenesis : error := errorsNew "audit anchor journal is missing its genesis record".
Definition ErrAnchorMonotonic : error := errorsNew "audit anchor journal is not monotonic at line %d".
Definition ErrEncodeAnchor : error := errorsNew "encode audit anchor: %w".
Definition ErrAnchorDirectory : error := errorsNew "create audit anchor directory: %w".
Definition ErrOpenAnchor : error := errorsNew "open audit anchor journal: %w".
Definition ErrProtectAnchor : error := errorsNew "protect audit anchor: %w".
Definition ErrWriteAnchor : error := errorsNew "write audit anchor: %w".
Definition ErrSyncAnchor : error := errorsNew "sync audit anchor: %w".
Definition ErrCloseAnchor : error := errorsNew "close audit anchor: %w".
Definition ErrAnchorVersion : error := errorsNew "unsupported audit anchor version %q".
Definition ErrAnchorUnknownKey : error := errorsNew "unknown audit anchor signing key %q".
Definition ErrAnchorSignatureEncoding : error := errorsNew "audit anchor signature encoding is invalid".
Definition ErrAnchorSignature : error := errorsNew "audit anchor signature verification failed".
Definition ErrEncodeAuditHash : error := errorsNew "encode audit hash payload: %w".
(** The fuel of the loop over the pages ran out; it never does. *)
Definition ErrVerifyFuel : error := errorsNew "out of fuel".

Definition SignatureSize : Z := 64.

(** ** Bytes of the journal *)

Definition newline : Z := 10.

(** [bytes.LastIndexByte]; [None] is -1. *)
Fixpoint lastIndexByte (b : Z) (bs : list Z) : option nat :=
  match bs with
  | [] => None
  | x :: r => match lastIndexByte b r with
              | Some i => Some (S i)
              | None => if x =? b then Some 0%nat else None
              end
  end.

(** [bytes.Split] at one byte. *)
Fixpoint splitByte (b : Z) (bs : list Z) : list (list Z) :=
  match bs with
  | [] => [[]]
  | x :: r =>
      if x =? b then [] :: splitByte b r
      else match splitByte b r with
           | l :: ls => (x :: l) :: ls
           | [] => [[x]]
           end
  end.

(** [bytes.TrimSuffix] with one byte. *)
Definition trimSuffixByte (b : Z) (bs : list Z) : list Z :=
  if bool_decide (last bs = Some b) then take (length bs - 1) bs else bs.

Definition validAuditIdentifier (value : string) (maximum : Z) : bool :=
  if eqs value EmptyString || (maximum <? slen value) || negb (validUTF8 (bytes_of value)) || negb (trimmed value) then false
  else all_chars (fun character => negb ((character <? 0x20) || (character =? 0x7f))) value.

Definition anchorMatchesHead (value : anchor) (head : AuditHead) : bool :=
  (Anchor_Count value =? Head_Count head) && (Anchor_Sequence value =? Head_Sequence head) && eqs (Anchor_HeadHash value) (Head_Hash head).

(** What [verifyLocked] carries along the chain. *)
Record chainState : Type := mkChain {
  Chain_previous : string;
  Chain_afterSequence : Z;
  Chain_count : Z;
  Chain_recoveryAnchors : list AuditHead;
  Chain_prefixMatched : bool;
}.

Section Audit.
Context {H : Hasher} {E : Ed25519} {AC : AuditCodec}.

Definition auditKeyID (publicKey : list Z) : string := "audit:" +:+ hexEncode (sum256 (marshalPKIX publicKey)).

Definition anchorDigest (value : anchor) : list Z :=
  sum256 (anchorPayloadJSON (mkAnchorPayload (Anchor_Version value) (Anchor_KeyID value) (Anchor_Count value) (Anchor_Sequence value)
    (Anchor_HeadHash value) (auditTime (Anchor_UpdatedAt value)))).

Definition payloadOf (e : AuditEntry) : entryPayload :=
  mkEntryPayload (Audit_ID e) (Audit_KeyID e) (auditTime (Audit_OccurredAt e)) (Audit_ActorType e) (Audit_ActorID e) (Audit_Action e)
    (Audit_ResourceType e) (Audit_ResourceID e) (Audit_Outcome e) (Audit_Details e) (Audit_PreviousHash e).

Definition hashEntry (e : AuditEntry) : result (list Z) :=
  match entryJSON (payloadOf e) with
  | None => Err ErrEncodeAuditHash
  | Some encoded => Ok (sum256 encoded)
  end.

Definition verifyAnchor (service : Service) (value : anchor) : result unit :=
  reject negb (eqs (Anchor_Version value) anchorVersion) with ErrAnchorVersion;
  match Service_keyring service !! Anchor_KeyID value with
  | None => Err ErrAnchorUnknownKey
  | Some verificationKey =>
      match base64url_decode (Anchor_Signature value) with
      | None => Err ErrAnchorSignatureEncoding
      | Some signature =>
          reject negb (len signature =? SignatureSize) with ErrAnchorSignatureEncoding;
          reject negb (ed_verify verificationKey (anchorDigest value) signature) with ErrAnchorSignature;
          Ok tt
      end
  end.

(** One line after the anchor before it; the first has none. *)
Definition loadLine (service : Service) (current : option anchor) (lineBytes : list Z) : result anchor :=
  match anchorUnmarshal lineBytes with
  | None => Err ErrDecodeAnchor
  | Some value =>
      ensure verifyAnchor service value;
      match current with
      | None =>
          reject negb (Anchor_Count value =? 0) || negb (Anchor_Sequence value =? 0) || negb (eqs (Anchor_HeadHash value) EmptyString)
            with ErrAnchorGenesis;
          Ok value
      | Some current =>
          reject negb (Anchor_Count value =? Anchor_Count current + 1) || (Anchor_Sequence value <=? Anchor_Sequence current)
                 || eqs (Anchor_HeadHash value) EmptyString with ErrAnchorMonotonic;
          Ok value
      end
  end.

Fixpoint loadLines (service : Service) (current : option anchor) (lines : list (list Z)) : result (option anchor) :=
  match lines with
  | [] => Ok current
  | l :: rest => do value <- loadLine service current l; loadLines service (Some value) rest
  end.

(** One entry of the chain. *)
Definition verifyEntry (service : Service) (trusted : anchor) (st : chainState) (entry : AuditEntry) : result chainState :=
  reject Audit_Sequence entry <=? Chain_afterSequence st with ErrAuditMonotonic;
  reject negb (eqs (Audit_PreviousHash entry) (Chain_previous st)) with ErrAuditChainBreak;
  match Service_keyring service !! Audit_KeyID entry with
  | None => Err ErrAuditUnknownKey
  | Some verificationKey =>
      do digest <- hashEntry entry;
      reject negb (eqs (hexEncode digest) (Audit_EntryHash entry)) with ErrAuditHashMismatch;
      reject negb match base64url_decode (Audit_Signature entry) with
                  | Some signature => ed_verify verificationKey digest signature
                  | None => false
                  end with ErrAuditSignatureMismatch;
      let count := Chain_count st + 1 in
      Ok (mkChain (Audit_EntryHash entry) (Audit_Sequence entry) count
            (if Anchor_Count trusted <? count
             then Chain_recoveryAnchors st ++ [mkHead count (Audit_Sequence entry) (Audit_EntryHash entry)]
             else Chain_recoveryAnchors st)
            (if count =? Anchor_Count trusted
             then (Audit_Sequence entry =? Anchor_Sequence trusted) && eqs (Audit_EntryHash entry) (Anchor_HeadHash trusted)
             else Chain_prefixMatched st))
  end.

Fixpoint verifyEntries (service : Service) (trusted : anchor) (st : chainState) (entries : list AuditEntry) : result chainState :=
  match entries with
  | [] => Ok st
  | e :: rest => do st <- verifyEntry service trusted st e; verifyEntries service trusted st rest
  end.

Definition startChain (trusted : anchor) : chainState :=
  mkChain EmptyString 0 0 []
    ((Anchor_Count trusted =? 0) && (Anchor_Sequence trusted =? 0) && eqs (Anchor_HeadHash trusted) EmptyString).

(** ** With the environment *)

Context {D : Type}.
Context (sqlFails sysFails : nat -> bool) (torn : nat -> nat) (contention : nat -> nat * bool) (fsyncLinks : bool).
Context (wall clock : clockT) (newID : nat -> string).

Abbreviation MA := (M (auditWorld D)).
Abbreviation onTables := (zoom aw_tables setTables).

Definition osCall (e : error) (f : auditWorld D -> auditWorld D) : MA unit := fun st =>
  if sysFails (fst st) then (Err e, (S (fst st), snd st)) else (Ok tt, (S (fst st), f (snd st))).

(** A write that fails may have written some of the bytes, never all. *)
Definition osWrite (e : error) (bytes : list Z) : MA unit := fun st =>
  if sysFails (fst st)
  then (Err e, (S (fst st), onFile (appendFile (take (Nat.min (torn (fst st)) (length bytes - 1)) bytes)) (snd st)))
  else (Ok tt, (S (fst st), onFile (appendFile bytes) (snd st))).

(** [id.New(prefix)]. *)
Definition drawID (prefix : string) : MA string := fun st =>
  (Ok (prefix +:+ "_" +:+ newID (fst st)), (S (fst st), snd st)).

(** *** The lock *)

Fixpoint anchorLockAttempts (ctx : ctxT) (deadline : time) (blocked : nat) (acquired : bool) : MA unit :=
  match blocked with
  | O => if acquired then modS (setAnchorHeld true) else failM ErrAcquireAnchorLock
  | S k =>
      let! t := now wall in
      if deadline <? t then failM ErrAnchorLockTimeout else
      run! ctxErr ctx in
      anchorLockAttempts ctx deadline k acquired
  end.

Definition anchorContention : MA (nat * bool) := fun st => (Ok (contention (fst st)), (S (fst st), snd st)).

Definition acquireAnchorLock (ctx : ctxT) : MA unit :=
  run! osCall ErrAuditLockDirectory id in
  run! osCall ErrOpenAnchorLock (fun w => setLock (Some (default perm_0600 (aw_lock w))) w) in
  run! osCall ErrProtectAnchorLock (setLock (Some perm_0600)) in
  let! start := now wall in
  let! c := anchorContention in
  anchorLockAttempts ctx (start + anchorLockTimeout) (fst c) (snd c).

(** The body under the lock, with the deferred release. *)
Definition underAnchorLock {A : Type} (ctx : ctxT) (m : MA A) : MA A :=
  run! acquireAnchorLock ctx in
  deferM (setAnchorHeld false) m.

(** *** The journal file *)

(** Cut the torn tail off. *)
Definition repairAnchor (content : list Z) : MA (list Z) :=
  if bool_decide (last content = Some newline) then retM content else
  match lastIndexByte newline content with
  | None => failM ErrAnchorIncomplete
  | Some lastComplete =>
      run! osCall ErrOpenTornAnchor id in
      run! osCall ErrTruncateAnchor (onFile (truncateFile (lastComplete + 1))) in
      run! osCall ErrSyncRepaired (onFile (syncFile fsyncLinks)) in
      run! osCall ErrCloseRepaired id in
      retM (take (lastComplete + 1) content)
  end.

Definition noAnchor : anchor := mkAnchor EmptyString EmptyString 0 0 EmptyString zeroTime EmptyString.

Definition loadAnchor (service : Service) : MA anchor :=
  run! osCall ErrReadAnchor id in
  let! w := getS in
  match file_content (aw_file w) with
  | None => failM ErrReadAnchor
  | Some content =>
      if len content =? 0 then failM ErrAnchorEmpty else
      let! content := repairAnchor content in
      let! current := liftR (loadLines service None (splitByte newline (trimSuffixByte newline content))) in
      retM (default noAnchor current)
  end.

Definition writeAnchor (service : Service) (count sequence : Z) (headHash : string) : MA unit :=
  let! updatedAt := now clock in
  let value := mkAnchor anchorVersion (Service_keyID service) count sequence headHash updatedAt EmptyString in
  let value := setAnchorSignature (base64url (ed_sign (Service_privateKey service) (anchorDigest value))) value in
  match anchorMarshal value with
  | None => failM ErrEncodeAnchor
  | Some content =>
      run! osCall ErrAnchorDirectory id in
      run! osCall ErrOpenAnchor (onFile createFile) in
      run! osCall ErrProtectAnchor (onFile chmodFile) in
      run! osWrite ErrWriteAnchor (content ++ [newline]) in
      run! osCall ErrSyncAnchor (onFile (syncFile fsyncLinks)) in
      osCall ErrCloseAnchor id
  end.

(** *** Verification *)

(** The loop over the pages of the table. *)
Fixpoint verifyPages (fuel : nat) (service : Service) (trusted : anchor) (st : chainState) : MA chainState :=
  match fuel with
  | O => failM ErrVerifyFuel
  | S k =>
      let! entries := onTables (ListAuditEntriesAfter sqlFails (Chain_afterSequence st) auditVerificationPageSize) in
      if len entries =? 0 then retM st else
      let! st := liftR (verifyEntries service trusted st entries) in
      verifyPages k service trusted st
  end.

(** The anchors the journal lacks, in order. *)
Fixpoint replayAnchors (service : Service) (recovered : list AuditHead) : MA unit :=
  match recovered with
  | [] => retM tt
  | h :: rest =>
      run! writeAnchor service (Head_Count h) (Head_Sequence h) (Head_Hash h) in
      replayAnchors service rest
  end.

Definition verifyLocked (service : Service) : MA unit :=
  let! trusted := loadAnchor service in
  let! w := getS in
  let! chain := verifyPages (S (length (aud_entries (core_audit (aw_tables w))))) service trusted (startChain trusted) in
  let actual := mkHead (Chain_count chain) (Chain_afterSequence chain) (Chain_previous chain) in
  let! state := onTables (GetAuditHead sqlFails) in
  if negb (bool_decide (state = actual)) then failM ErrAuditStateMismatch else
  if anchorMatchesHead trusted actual then retM tt else
  if (Anchor_Count trusted <? Chain_count chain) && Chain_prefixMatched chain
  then replayAnchors service (Chain_recoveryAnchors chain)
  else failM ErrAuditTruncation.

Definition Service_Verify (service : Service) (ctx : ctxT) : MA unit := underAnchorLock ctx (verifyLocked service).

(** *** Start *)

Definition initializeLocked (service : Service) : MA unit :=
  run! osCall ErrInspectAnchor id in
  let! w := getS in
  match file_content (aw_file w) with
  | None =>
      let! head := onTables (GetAuditHead sqlFails) in
      if negb (Head_Count head =? 0) then failM ErrNoTrustedAnchor else
      writeAnchor service 0 0 EmptyString
  | Some _ => verifyLocked service
  end.

Definition initialize (service : Service) (ctx : ctxT) : MA unit := underAnchorLock ctx (initializeLocked service).

Fixpoint addHistorical (keyring : gmap string (list Z)) (historical : list (list Z)) : result (gmap string (list Z)) :=
  match historical with
  | [] => Ok keyring
  | publicKey :: rest =>
      reject negb (len publicKey =? PublicKeySize) with ErrHistoricalKey;
      addHistorical (<[ auditKeyID publicKey := publicKey ]> keyring) rest
  end.

Definition newService (privateKey : list Z) (historical : list (list Z)) : result Service :=
  let publicKey := Public privateKey in
  let keyID := auditKeyID publicKey in
  do keyring <- addHistorical {[ keyID := publicKey ]} historical;
  Ok (mkService privateKey publicKey keyID keyring).

Definition NewWithKeyring (noDatabase : bool) (privateKey : list Z) (historical : list (list Z)) (anchorPath : string) : MA Service :=
  if noDatabase then failM ErrAuditDatabase else
  if negb (len privateKey =? PrivateKeySize) then failM ErrAuditPrivateKey else
  if eqs anchorPath EmptyString then failM ErrAuditAnchorPath else
  let! service := liftR (newService privateKey historical) in
  run! initialize service Background in
  retM service.

Definition New (noDatabase : bool) (privateKey : list Z) (anchorPath : string) : MA Service :=
  NewWithKeyring noDatabase privateKey [] anchorPath.

(** *** Append *)

Context {Details : Type} (marshalDetails : Details -> option string).

Definition draftEntry (service : Service) (id : string) (at_ : time) (q : AppendRequest Details) (details previous : string) : AuditEntry :=
  mkAuditEntry 0 id (Service_keyID service) at_ (Append_ActorType q) (Append_ActorID q) (Append_Action q) (Append_ResourceType q)
    (Append_ResourceID q) (Append_Outcome q) details previous EmptyString EmptyString.

Definition sealEntry (service : Service) (entry : AuditEntry) : result AuditEntry :=
  do digest <- hashEntry entry;
  Ok (setAuditSeal (hexEncode digest) (base64url (ed_sign (Service_privateKey service) digest)) entry).

Definition requestFields (q : AppendRequest Details) : list string :=
  [Append_ActorType q; Append_ActorID q; Append_Action q; Append_ResourceType q; Append_ResourceID q; Append_Outcome q].

(** The entry a caller gets beside an error is dropped. *)
Definition appendLocked (service : Service) (q : AppendRequest Details) (mutation : option (AuditedMutation (D := D))) : MA AuditEntry :=
  if negb (isSome mutation) then failM ErrAuditMutation else
  if negb (forallb (fun value => validAuditIdentifier value 256) (requestFields q)) then failM ErrAuditField else
  let! currentAnchor := loadAnchor service in
  let! head := onTables (GetAuditHead sqlFails) in
  if negb (anchorMatchesHead currentAnchor head) then failM ErrAnchorBehind else
  match marshalDetails (Append_Details q) with
  | None => failM ErrEncodeDetails
  | Some details =>
      if 64 * 1024 <? slen details then failM ErrDetailsSize else
      let! id := drawID "audit" in
      let! occurredAt := now clock in
      let! entry := liftR (sealEntry service (draftEntry service id occurredAt q details (Anchor_HeadHash currentAnchor))) in
      run! onTables (CommitAuditedMutation mutation entry) in
      let! newHead := attempt (onTables (GetAuditHead sqlFails)) in
      match newHead with
      | Err _ => failM ErrHeadUnread
      | Ok newHead =>
          if negb (Head_Count newHead =? Head_Count head + 1) || (Head_Sequence newHead <=? Head_Sequence head)
             || negb (eqs (Head_Hash newHead) (Audit_EntryHash entry)) then failM ErrHeadUnexpected else
          let entry := setAuditSequence (Head_Sequence newHead) entry in
          let! anchored := attempt (writeAnchor service (Head_Count newHead) (Head_Sequence newHead) (Head_Hash newHead)) in
          match anchored with
          | Err _ => failM ErrAnchorUpdate
          | Ok _ => retM entry
          end
      end
  end.

Definition AppendWithMutation (service : Service) (ctx : ctxT) (q : AppendRequest Details) (mutation : option (AuditedMutation (D := D))) : MA AuditEntry :=
  underAnchorLock ctx (appendLocked service q mutation).

Definition Append (service : Service) (ctx : ctxT) (q : AppendRequest Details) : MA AuditEntry :=
  AppendWithMutation service ctx q (Some (AuditEntryMutation sqlFails)).

End Audit.
