(* ===== verification/EnrollmentStore.v ===== *)
(** * The tables of enrollment (core/storage/nodes.go, enrollment_requests.go)

    [enrollment_tokens], [enrollment_requests] and [node_identity_registry]
    beside the tables of the event log, which hold [nodes]. The rows of a
    table are a list in the order of insertion, and every unique constraint,
    check and foreign key of the migrations that a statement can meet fails
    it. The columns of a decision are NULL until [decided_at] is set and those
    of a consumption until [consumed_at] is; a column with the JSON of a list
    holds the list, and one with the text of a time the time.

    A transition of these tables is a function in [M enrollDB]; its audited
    form is [withAudit] of it (AuditStore.v). *)

From S2P Require Import Prelude Library Sha256 Digest Contract Plan Events EventStore EventIngest AuditStore.
From stdpp Require Import base gmap list strings sorting.
From Stdlib Require Import ZArith Lia.

Open Scope Z_scope.

(** ** Data *)

Record EnrollmentTokenRecord : Type := mkTokenRecord {
  Token_ID : string;
  Token_Hash : list Z;
  Token_ScopeJSON : string;
  Token_CreatedByPrincipalID : string;
  Token_OperationID : string;
  Token_CreatedAt : time;
  Token_ExpiresAt : time;
  Token_ConsumedAt : option time;
  Token_ConsumedByNodeID : string;
  Token_ConsumedRequestID : string;
  Token_ConsumedRequestDigest : list Z;
}.

Record EnrollmentRequestRecord : Type := mkRequestRecord {
  Req_ID : string;
  Req_TokenID : string;
  Req_RequestID : string;
  Req_RequestDigest : list Z;
  Req_Status : string;
  Req_ProposedNodeID : string;
  Req_DisplayName : string;
  Req_NodeType : string;
  Req_Platform : string;
  Req_PlatformVersion : string;
  Req_PublicKey : list Z;
  Req_CapabilitiesJSON : string;
  Req_AllowedTags : list string;
  Req_RequestedAt : time;
  Req_ExpiresAt : time;
  Req_DecisionReasonCode : string;
  Req_DecisionOperationID : string;
  Req_DecidedByPrincipalID : string;
  Req_DecidedAt : option time;
  Req_ApprovedTags : list string;
  Req_NodeID : string;
}.

(** A row of [node_identity_registry]. *)
Record identityRow : Type := mkIdentity {
  Identity_node_id : string;
  Identity_first_enrollment_id : string;
  Identity_claimed_at : time;
}.

Record enrollDB : Type := mkEnrollDB {
  en_tokens : list EnrollmentTokenRecord;
  en_requests : list EnrollmentRequestRecord;
  en_registry : list identityRow;
  en_core : DB;
}.

Definition setTokens (rows : list EnrollmentTokenRecord) (d : enrollDB) : enrollDB :=
  mkEnrollDB rows (en_requests d) (en_registry d) (en_core d).
Definition setRequests (rows : list EnrollmentRequestRecord) (d : enrollDB) : enrollDB :=
  mkEnrollDB (en_tokens d) rows (en_registry d) (en_core d).
Definition setRegistry (rows : list identityRow) (d : enrollDB) : enrollDB :=
  mkEnrollDB (en_tokens d) (en_requests d) rows (en_core d).
Definition setCore (c : DB) (d : enrollDB) : enrollDB :=
  mkEnrollDB (en_tokens d) (en_requests d) (en_registry d) c.

Definition nodesOf (d : enrollDB) : gmap string Node := db_nodes (en_core d).

(** ** Constants *)

Definition NodeSuspended : string := "SUSPENDED".
Definition NodeRevoked : string := "REVOKED".
Definition statusPending : string := "PENDING".
Definition statusApproved : string := "APPROVED".
Definition statusDenied : string := "DENIED".
Definition statusExpired : string := "EXPIRED".

(** The CHECK constraints of [nodes]. *)
Definition nodeStatuses : list string := [NodeActive; NodeSuspended; NodeRevoked].
Definition nodeVerifications : list string := ["CLAIMED"; "VERIFIED"]%string.

(** ** Errors *)

Definition ErrEnrollmentTokenInvalid : error := errorsNew "enrollment token is invalid".
Definition ErrEnrollmentTokenExpired : error := errorsNew "enrollment token has expired".
Definition ErrEnrollmentTokenUsed : error := errorsNew "enrollment token has already been used".
Definition ErrNodeRevoked : error := errorsNew "revoked node must be re-enrolled with new credentials".
Definition ErrOperationConflict : error := errorsNew "operation id has already been used".
Definition ErrEnrollmentRequestNotFound : error := errorsNew "enrollment request not found".
Definition ErrEnrollmentRequestDecided : error := errorsNew "enrollment request has already been decided".
Definition ErrEnrollmentRequestExpired : error := errorsNew "enrollment request has expired".
Definition ErrCredentialReused : error := errorsNew "node credential has already been admitted or proposed".
Definition ErrNodeIdentityUsed : error := errorsNew "node identity has already been admitted or proposed".
Definition ErrBeginToken : error := errorsNew "begin enrollment token creation: %w".
Definition ErrCommitToken : error := errorsNew "commit enrollment token creation: %w".
Definition ErrInspectToken : error := errorsNew "inspect enrollment token operation: %w".
Definition ErrCreateToken : error := errorsNew "create enrollment token: %w".
Definition ErrReadTokenOperation : error := errorsNew "read enrollment token operation: %w".
Definition ErrReadToken : error := errorsNew "read enrollment token: %w".
Definition ErrBeginEnrollment : error := errorsNew "begin enrollment: %w".
Definition ErrCommitEnrollment : error := errorsNew "commit enrollment: %w".
Definition ErrInsertNode : error := errorsNew "insert enrolled node: %w".
Definition ErrConsumeToken : error := errorsNew "consume enrollment token: %w".
Definition ErrListNodes : error := errorsNew "list nodes: %w".
Definition ErrBeginStatus : error := errorsNew "begin node status update: %w".
Definition ErrReadStatus : error := errorsNew "read current node status: %w".
Definition ErrSetStatus : error := errorsNew "set node status: %w".
Definition ErrStatusCount : error := errorsNew "read node update count: %w".
Definition ErrCommitStatus : error := errorsNew "commit node status update: %w".
Definition ErrBeginMetadata : error := errorsNew "begin node metadata update: %w".
Definition ErrReadMetadata : error := errorsNew "read node for metadata update: %w".
Definition ErrUpdateMetadata : error := errorsNew "update node metadata: %w".
Definition ErrCommitMetadata : error := errorsNew "commit node metadata update: %w".
Definition ErrBeginSubmission : error := errorsNew "begin enrollment request submission: %w".
Definition ErrReadSubmission : error := errorsNew "read enrollment token for submission: %w".
Definition ErrCredentialHistory : error := errorsNew "check credential history: %w".
Definition ErrInsertRequest : error := errorsNew "insert enrollment request: %w".
Definition ErrReserveToken : error := errorsNew "reserve enrollment token: %w".
Definition ErrCommitSubmission : error := errorsNew "commit enrollment request submission: %w".
Definition ErrScanRequest : error := errorsNew "scan enrollment request: %w".
Definition ErrBeginApproval : error := errorsNew "begin enrollment approval: %w".
Definition ErrReadApproval : error := errorsNew "read enrollment request for approval: %w".
Definition ErrExpireRequest : error := errorsNew "expire enrollment request: %w".
Definition ErrIdentityOwner : error := errorsNew "read enrolled node identity owner: %w".
Definition ErrApproveRequest : error := errorsNew "approve enrollment request: %w".
Definition ErrCommitApproval : error := errorsNew "commit enrollment approval: %w".
Definition ErrClaimIdentity : error := errorsNew "claim node identity: %w".
Definition ErrClaimResult : error := errorsNew "read node identity claim result: %w".
Definition ErrBeginDenial : error := errorsNew "begin enrollment denial: %w".
Definition ErrDenyRequest : error := errorsNew "deny enrollment request: %w".
Definition ErrCommitDenial : error := errorsNew "commit enrollment denial: %w".

(** ** Rows *)

Definition tokenByHash (hash : list Z) (d : enrollDB) : option EnrollmentTokenRecord :=
  List.find (fun t => bool_decide (Token_Hash t = hash)) (en_tokens d).
Definition tokenByOperation (operationID : string) (d : enrollDB) : option EnrollmentTokenRecord :=
  List.find (fun t => eqs (Token_OperationID t) operationID) (en_tokens d).
Definition requestByID (id : string) (d : enrollDB) : option EnrollmentRequestRecord :=
  List.find (fun r => eqs (Req_ID r) id) (en_requests d).
Definition requestByToken (tokenID : string) (d : enrollDB) : option EnrollmentRequestRecord :=
  List.find (fun r => eqs (Req_TokenID r) tokenID) (en_requests d).
Definition identityOf (nodeID : string) (d : enrollDB) : option identityRow :=
  List.find (fun r => eqs (Identity_node_id r) nodeID) (en_registry d).

(** The columns [INSERT INTO enrollment_tokens] names. *)
Definition issuedToken (t : EnrollmentTokenRecord) : EnrollmentTokenRecord :=
  mkTokenRecord (Token_ID t) (Token_Hash t) (Token_ScopeJSON t) (Token_CreatedByPrincipalID t) (Token_OperationID t)
    (Token_CreatedAt t) (Token_ExpiresAt t) None EmptyString EmptyString [].

Definition consumedToken (now : time) (nodeID requestID : string) (digest : list Z) (t : EnrollmentTokenRecord) : EnrollmentTokenRecord :=
  mkTokenRecord (Token_ID t) (Token_Hash t) (Token_ScopeJSON t) (Token_CreatedByPrincipalID t) (Token_OperationID t)
    (Token_CreatedAt t) (Token_ExpiresAt t) (Some now) nodeID requestID digest.

(** The columns [INSERT INTO enrollment_requests] names. *)
Definition submittedRequest (tokenID : string) (expiry : time) (r : EnrollmentRequestRecord) : EnrollmentRequestRecord :=
  mkRequestRecord (Req_ID r) tokenID (Req_RequestID r) (Req_RequestDigest r) statusPending (Req_ProposedNodeID r) (Req_DisplayName r)
    (Req_NodeType r) (Req_Platform r) (Req_PlatformVersion r) (Req_PublicKey r) (Req_CapabilitiesJSON r) (Req_AllowedTags r)
    (Req_RequestedAt r) expiry EmptyString EmptyString EmptyString None [] EmptyString.

Definition setRequestStatus (status : string) (r : EnrollmentRequestRecord) : EnrollmentRequestRecord :=
  mkRequestRecord (Req_ID r) (Req_TokenID r) (Req_RequestID r) (Req_RequestDigest r) status (Req_ProposedNodeID r) (Req_DisplayName r)
    (Req_NodeType r) (Req_Platform r) (Req_PlatformVersion r) (Req_PublicKey r) (Req_CapabilitiesJSON r) (Req_AllowedTags r)
    (Req_RequestedAt r) (Req_ExpiresAt r) (Req_DecisionReasonCode r) (Req_DecisionOperationID r) (Req_DecidedByPrincipalID r)
    (Req_DecidedAt r) (Req_ApprovedTags r) (Req_NodeID r).

Definition decidedRequest (status reasonCode operationID actorID : string) (now : time) (tags : list string) (nodeID : string)
    (r : EnrollmentRequestRecord) : EnrollmentRequestRecord :=
  mkRequestRecord (Req_ID r) (Req_TokenID r) (Req_RequestID r) (Req_RequestDigest r) status (Req_ProposedNodeID r) (Req_DisplayName r)
    (Req_NodeType r) (Req_Platform r) (Req_PlatformVersion r) (Req_PublicKey r) (Req_CapabilitiesJSON r) (Req_AllowedTags r)
    (Req_RequestedAt r) (Req_ExpiresAt r) reasonCode operationID actorID (Some now) tags nodeID.

Definition pendingRow (id : string) (r : EnrollmentRequestRecord) : bool := eqs (Req_ID r) id && eqs (Req_Status r) statusPending.
Definition openToken (hash : list Z) (t : EnrollmentTokenRecord) : bool :=
  bool_decide (Token_Hash t = hash) && negb (isSome (Token_ConsumedAt t)).

(** [UNIQUE] on [decision_operation_id]: another decided row has it. *)
Definition operationTaken (id operationID : string) (d : enrollDB) : bool :=
  existsb (fun r => negb (eqs (Req_ID r) id) && isSome (Req_DecidedAt r) && eqs (Req_DecisionOperationID r) operationID) (en_requests d).

(** The columns [INSERT INTO nodes] names. *)
Definition admittedNode (n : Node) : Node :=
  mkEnrolled (Node_ID n) (Node_DisplayName n) (Node_NodeType n) (Node_Platform n) (Node_PlatformVersion n) (Node_Status n) (Node_Tags n)
    (if eqs (Node_Capabilities n) EmptyString then "{}" else Node_Capabilities n)
    (Node_CapabilitiesVerification n) (Node_PublicKey n) (Node_CertificatePEM n) (Node_EnrolledAt n) None None (Node_LastPolicyRevision n).

Definition withNodeStatus (status : string) (revoked : option time) (n : Node) : Node :=
  mkEnrolled (Node_ID n) (Node_DisplayName n) (Node_NodeType n) (Node_Platform n) (Node_PlatformVersion n) status (Node_Tags n) (Node_Capabilities n)
    (Node_CapabilitiesVerification n) (Node_PublicKey n) (Node_CertificatePEM n) (Node_EnrolledAt n) (Node_LastSeenAt n) revoked (Node_LastPolicyRevision n).

Definition withMetadata (name : string) (tags : list string) (n : Node) : Node :=
  mkEnrolled (Node_ID n) name (Node_NodeType n) (Node_Platform n) (Node_PlatformVersion n) (Node_Status n) tags (Node_Capabilities n)
    (Node_CapabilitiesVerification n) (Node_PublicKey n) (Node_CertificatePEM n) (Node_EnrolledAt n) (Node_LastSeenAt n) (Node_RevokedAt n) (Node_LastPolicyRevision n).

Definition keyAdmitted (key : list Z) (d : enrollDB) : bool :=
  existsb (fun p => bool_decide (Node_PublicKey (snd p) = key)) (map_to_list (nodesOf d)).

(** [ORDER BY name, id]. *)
Definition nodeOrder (a b : Node) : Prop :=
  if eqs (Node_DisplayName a) (Node_DisplayName b) then String.leb (Node_ID a) (Node_ID b) = true
  else String.leb (Node_DisplayName a) (Node_DisplayName b) = true.
#[export] Instance nodeOrder_dec : RelDecision nodeOrder.
Proof. intros a b. unfold nodeOrder. destruct (eqs _ _); apply _. Defined.

(** The bytes differ in some place. *)
Fixpoint byteDifference (left right : list Z) : Z :=
  match left, right with
  | a :: l, b :: r => Z.lor (Z.lxor a b) (byteDifference l r)
  | _, _ => 0
  end.
Definition constantBytesEqual (left right : list Z) : bool :=
  if negb (len left =? len right) then false else byteDifference left right =? 0.

Section EnrollmentStore.
Context (sqlFails : nat -> bool).

Abbreviation ME := (M enrollDB).
Abbreviation sql := (statement sqlFails).

(** ** Tokens *)

Definition createEnrollmentToken (token : EnrollmentTokenRecord) : ME unit :=
  run! sql ErrInspectToken id in
  let! d := getS in
  if isSome (tokenByOperation (Token_OperationID token) d) then failM ErrOperationConflict else
  if existsb (fun t => eqs (Token_ID t) (Token_ID token) || bool_decide (Token_Hash t = Token_Hash token)
                       || eqs (Token_OperationID t) (Token_OperationID token)) (en_tokens d) then failM ErrCreateToken else
  sql ErrCreateToken (fun d => setTokens (en_tokens d ++ [issuedToken token]) d).

Definition CreateEnrollmentTokenWithAudit (token : EnrollmentTokenRecord) : AuditedMutation (D := enrollDB) :=
  withAudit sqlFails ErrBeginToken ErrCommitToken (createEnrollmentToken token).

Definition GetEnrollmentTokenByOperation (operationID : string) : ME EnrollmentTokenRecord :=
  run! sql ErrReadTokenOperation id in
  let! d := getS in
  match tokenByOperation operationID d with
  | None => failM ErrEnrollmentTokenInvalid
  | Some record => retM record
  end.

Definition GetEnrollmentToken (hash : list Z) (now : time) : ME EnrollmentTokenRecord :=
  run! sql ErrReadToken id in
  let! d := getS in
  match tokenByHash hash d with
  | None => failM ErrEnrollmentTokenInvalid
  | Some record =>
      if isSome (Token_ConsumedAt record) then retM record else
      if negb (now <? Token_ExpiresAt record) then failM ErrEnrollmentTokenExpired else
      retM record
  end.

(** [UPDATE enrollment_tokens SET consumed_at ...] and its count. *)
Definition consumeToken (failed : error) (hash : list Z) (now : time) (nodeID requestID : string) (digest : list Z) : ME unit :=
  let! d := getS in
  let count := rowsWhere (openToken hash) (en_tokens d) in
  run! sql failed (fun d => setTokens (updateWhere (openToken hash) (consumedToken now nodeID requestID digest) (en_tokens d)) d) in
  run! sql ErrEnrollmentTokenUsed id in
  if negb (count =? 1) then failM ErrEnrollmentTokenUsed else retM tt.

(** ** Identities and nodes *)

(** [INSERT OR IGNORE]: a row that breaks a unique constraint is not
    inserted. *)
Definition claimNodeIdentity (nodeID enrollmentID : string) (now : time) : ME unit :=
  let! d := getS in
  let taken := existsb (fun r => eqs (Identity_node_id r) nodeID || eqs (Identity_first_enrollment_id r) enrollmentID) (en_registry d) in
  run! sql ErrClaimIdentity (fun d => if taken then d else setRegistry (en_registry d ++ [mkIdentity nodeID enrollmentID now]) d) in
  run! sql ErrClaimResult id in
  if taken then failM ErrNodeIdentityUsed else retM tt.

Definition insertNode (node : Node) : ME unit :=
  let! d := getS in
  if isSome (nodesOf d !! Node_ID node) || keyAdmitted (Node_PublicKey node) d || negb (containsValue nodeStatuses (Node_Status node))
     || negb (containsValue nodeVerifications (Node_CapabilitiesVerification node)) then failM ErrInsertNode else
  sql ErrInsertNode (fun d => setCore (setNode (Node_ID node) (admittedNode node) (en_core d)) d).

(** The body of [enrollNodeRequest] before the entry. *)
Definition enrollNodeBody (hash : list Z) (now : time) (requestID : string) (digest : list Z) (node : Node) : ME unit :=
  run! sql ErrReadToken id in
  let! d := getS in
  match tokenByHash hash d with
  | None => failM ErrEnrollmentTokenInvalid
  | Some token =>
      if isSome (Token_ConsumedAt token) then failM ErrEnrollmentTokenUsed else
      if negb (now <? Token_ExpiresAt token) then failM ErrEnrollmentTokenExpired else
      run! claimNodeIdentity (Node_ID node) ("legacy:" +:+ Node_ID node) now in
      run! insertNode node in
      consumeToken ErrConsumeToken hash now (Node_ID node) requestID digest
  end.

(** The transaction of a transition with an entry that may be absent. *)
Definition maybeAudited (begin commit : error) (transition : ME unit) (entry : option AuditEntry) : M (coreTables enrollDB) unit :=
  dbTransaction sqlFails begin commit (
    run! zoom core_domain setDomain transition in
    run! match entry with Some entry => insertAuditEntry sqlFails entry | None => retM tt end in
    retM (tt, true)).

Definition enrollNodeRequest (hash : list Z) (now : time) (requestID : string) (digest : list Z) (node : Node) (entry : option AuditEntry) :
    M (coreTables enrollDB) unit :=
  maybeAudited ErrBeginEnrollment ErrCommitEnrollment (enrollNodeBody hash now requestID digest node) entry.

Definition EnrollNode (hash : list Z) (now : time) (node : Node) : M (coreTables enrollDB) unit := enrollNodeRequest hash now EmptyString [] node None.
Definition EnrollNodeWithAudit (hash : list Z) (now : time) (node : Node) (entry : AuditEntry) : M (coreTables enrollDB) unit :=
  enrollNodeRequest hash now EmptyString [] node (Some entry).
Definition EnrollNodeRequestWithAudit (hash : list Z) (now : time) (requestID : string) (digest : list Z) (node : Node) (entry : AuditEntry) :
    M (coreTables enrollDB) unit := enrollNodeRequest hash now requestID digest node (Some entry).

Definition ResolveEnrollmentReplay (hash : list Z) (requestID : string) (digest : list Z) : ME Node :=
  let! record := GetEnrollmentToken hash zeroTime in
  if negb (isSome (Token_ConsumedAt record)) || eqs (Token_ConsumedByNodeID record) EmptyString then failM ErrEnrollmentTokenInvalid else
  if negb (eqs (Token_ConsumedRequestID record) requestID) || negb (bool_decide (Token_ConsumedRequestDigest record = digest))
  then failM ErrEnrollmentTokenUsed else
  zoom en_core setCore (GetNode sqlFails (Token_ConsumedByNodeID record)).

Definition ListNodes : ME (list Node) :=
  run! sql ErrListNodes id in
  let! d := getS in
  retM (merge_sort nodeOrder (map snd (map_to_list (nodesOf d)))).

Definition nodeStatusBody (id_ status : string) (now : time) : ME unit :=
  run! sql ErrReadStatus id in
  let! d := getS in
  match nodesOf d !! id_ with
  | None => failM ErrNodeNotFound
  | Some node =>
      if eqs (Node_Status node) NodeRevoked && negb (eqs status NodeRevoked) then failM ErrNodeRevoked else
      let revoked := if eqs status NodeRevoked then Some now else None in
      if negb (containsValue nodeStatuses status) then failM ErrSetStatus else
      run! sql ErrSetStatus (fun d => setCore (setNode id_ (withNodeStatus status revoked node) (en_core d)) d) in
      sql ErrStatusCount id
  end.

Definition setNodeStatus (id_ status : string) (now : time) (entry : option AuditEntry) : M (coreTables enrollDB) unit :=
  maybeAudited ErrBeginStatus ErrCommitStatus (nodeStatusBody id_ status now) entry.
Definition SetNodeStatus (id_ status : string) (now : time) : M (coreTables enrollDB) unit := setNodeStatus id_ status now None.
Definition SetNodeStatusWithAudit (id_ status : string) (now : time) : AuditedMutation (D := enrollDB) :=
  fun entry => setNodeStatus id_ status now (Some entry).

Definition nodeMetadataBody (id_ name : string) (tags : list string) : ME unit :=
  run! sql ErrReadMetadata id in
  let! d := getS in
  match nodesOf d !! id_ with
  | None => failM ErrNodeNotFound
  | Some node => sql ErrUpdateMetadata (fun d => setCore (setNode id_ (withMetadata name tags node) (en_core d)) d)
  end.

Definition UpdateNodeMetadataWithAudit (id_ name : string) (tags : list string) : AuditedMutation (D := enrollDB) :=
  withAudit sqlFails ErrBeginMetadata ErrCommitMetadata (nodeMetadataBody id_ name tags).

(** ** Requests *)

(** [INSERT INTO enrollment_requests], with its unique constraints. *)
Definition insertRequest (r : EnrollmentRequestRecord) : ME unit :=
  let! d := getS in
  if existsb (fun x => eqs (Req_ID x) (Req_ID r) || eqs (Req_TokenID x) (Req_TokenID r) || eqs (Req_ProposedNodeID x) (Req_ProposedNodeID r)
                       || bool_decide (Req_PublicKey x = Req_PublicKey r)) (en_requests d) then failM ErrInsertRequest else
  sql ErrInsertRequest (fun d => setRequests (en_requests d ++ [r]) d).

Definition submitBody (hash : list Z) (now : time) (record : EnrollmentRequestRecord) : ME unit :=
  run! sql ErrReadSubmission id in
  let! d := getS in
  match tokenByHash hash d with
  | None => failM ErrEnrollmentTokenInvalid
  | Some token =>
      if isSome (Token_ConsumedAt token) then failM ErrEnrollmentTokenUsed else
      if negb (now <? Token_ExpiresAt token) then failM ErrEnrollmentTokenExpired else
      run! sql ErrCredentialHistory id in
      if keyAdmitted (Req_PublicKey record) d || existsb (fun r => bool_decide (Req_PublicKey r = Req_PublicKey record)) (en_requests d)
      then failM ErrCredentialReused else
      run! claimNodeIdentity (Req_ProposedNodeID record) (Req_ID record) now in
      run! insertRequest (submittedRequest (Token_ID token) (Token_ExpiresAt token) record) in
      consumeToken ErrReserveToken hash now (Req_ProposedNodeID record) (Req_RequestID record) (Req_RequestDigest record)
  end.

Definition SubmitEnrollmentRequestWithAudit (hash : list Z) (now : time) (record : EnrollmentRequestRecord) : AuditedMutation (D := enrollDB) :=
  withAudit sqlFails ErrBeginSubmission ErrCommitSubmission (submitBody hash now record).

Definition scanEnrollmentRequest (row : option EnrollmentRequestRecord) : ME EnrollmentRequestRecord :=
  match row with
  | None => failM ErrEnrollmentRequestNotFound
  | Some record => retM record
  end.

Definition GetEnrollmentRequest (id_ : string) : ME EnrollmentRequestRecord :=
  run! sql ErrScanRequest id in
  let! d := getS in
  scanEnrollmentRequest (requestByID id_ d).

Definition GetEnrollmentRequestByToken (tokenID : string) : ME EnrollmentRequestRecord :=
  run! sql ErrScanRequest id in
  let! d := getS in
  scanEnrollmentRequest (requestByToken tokenID d).

Definition ResolveEnrollmentRequestReplay (hash : list Z) (requestID : string) (digest : list Z) : ME EnrollmentRequestRecord :=
  let! record := GetEnrollmentToken hash zeroTime in
  if negb (isSome (Token_ConsumedAt record)) || negb (eqs (Token_ConsumedRequestID record) requestID)
     || negb (constantBytesEqual (Token_ConsumedRequestDigest record) digest) then failM ErrEnrollmentTokenUsed else
  GetEnrollmentRequestByToken (Token_ID record).

Definition approveBody (enrollmentID actorID operationID reasonCode : string) (tags : list string) (now : time) (node : Node) : ME unit :=
  run! sql ErrReadApproval id in
  let! d := getS in
  match requestByID enrollmentID d with
  | None => failM ErrEnrollmentRequestNotFound
  | Some r =>
      if negb (eqs (Req_Status r) statusPending) then failM ErrEnrollmentRequestDecided else
      if negb (now <? Req_ExpiresAt r) then
        run! sql ErrExpireRequest (fun d => setRequests (updateWhere (pendingRow enrollmentID) (setRequestStatus statusExpired) (en_requests d)) d) in
        failM ErrEnrollmentRequestExpired
      else
      run! sql ErrIdentityOwner id in
      match identityOf (Node_ID node) d with
      | None => failM ErrNodeIdentityUsed
      | Some owner =>
          if negb (eqs (Identity_first_enrollment_id owner) enrollmentID) then failM ErrNodeIdentityUsed else
          run! insertNode node in
          if operationTaken enrollmentID operationID d
             || existsb (fun x => negb (eqs (Req_ID x) enrollmentID) && eqs (Req_Status x) statusApproved && eqs (Req_NodeID x) (Node_ID node)) (en_requests d)
          then failM ErrApproveRequest else
          sql ErrApproveRequest (fun d =>
            setRequests (updateWhere (pendingRow enrollmentID)
              (decidedRequest statusApproved reasonCode operationID actorID now tags (Node_ID node)) (en_requests d)) d)
      end
  end.

Definition ApproveEnrollmentRequestWithAudit (enrollmentID actorID operationID reasonCode : string) (tags : list string) (now : time) (node : Node) :
    AuditedMutation (D := enrollDB) :=
  withAudit sqlFails ErrBeginApproval ErrCommitApproval (approveBody enrollmentID actorID operationID reasonCode tags now node).

Definition denyBody (enrollmentID actorID operationID reasonCode : string) (now : time) : ME unit :=
  let! d := getS in
  let count := rowsWhere (pendingRow enrollmentID) (en_requests d) in
  if (0 <? count) && operationTaken enrollmentID operationID d then failM ErrDenyRequest else
  run! sql ErrDenyRequest (fun d =>
    setRequests (updateWhere (pendingRow enrollmentID)
      (fun r => decidedRequest statusDenied reasonCode operationID actorID now (Req_ApprovedTags r) (Req_NodeID r) r) (en_requests d)) d) in
  let! counted := attempt (sql ErrDenyRequest id) in
  if negb (is_ok counted) || negb (count =? 1) then
    let! read := attempt (sql ErrDenyRequest id) in
    if is_ok read && negb (isSome (requestByID enrollmentID d)) then failM ErrEnrollmentRequestNotFound else failM ErrEnrollmentRequestDecided
  else retM tt.

Definition DenyEnrollmentRequestWithAudit (enrollmentID actorID operationID reasonCode : string) (now : time) : AuditedMutation (D := enrollDB) :=
  withAudit sqlFails ErrBeginDenial ErrCommitDenial (denyBody enrollmentID actorID operationID reasonCode now).

End EnrollmentStore.
