(* ===== verification/Enrollment.v ===== *)
(** * The enrollment service of Core (core/enrollment/service.go, core/identity/identity.go)

    An operator issues a token of one use with a scope, a node submits a
    request under it with a proof that it holds its key, and an operator
    approves the request, which admits the node with a certificate, or denies
    it. Every change goes through the audit service, so the world of these
    operations is that of AuditService.v with the tables of EnrollmentStore.v.

    [encoding/json], [protojson] and the deterministic wire encoding are the
    class [EnrollCodec] and [marshalDetails]; [crypto/x509] is
    [createCertificate] and [parseCSR]; HMAC-SHA-512 is [Hmac512]. *)

From S2P Require Import Prelude Library Directory Sha256 Digest Contract JournalFile Plan Events EventStore EventIngest EventQueue Gate AuditStore AuditService EnrollmentStore.
From stdpp Require Import base gmap list strings.
From Stdlib Require Import ZArith Lia.

Open Scope Z_scope.

Definition enrollmentTokenPrefix : string := "af_enroll_v1.".
Definition enrollmentTokenDomain : string := "AntiFlock-Enrollment-Token-v1".
Definition enrollmentProofDomain : string := "AntiFlock-Enrollment-PoP-v1".
Definition maximumEnrollmentWire : Z := 256 * 1024.
Definition maximumTokenTTL : Z := 15 * Minute.

(** ** Messages *)

Definition NodeType_names : list (string * Z) :=
  [("NODE_TYPE_UNSPECIFIED", 0); ("NODE_TYPE_DESKTOP", 1); ("NODE_TYPE_LAPTOP", 2); ("NODE_TYPE_PHONE", 3); ("NODE_TYPE_TABLET", 4);
   ("NODE_TYPE_SERVER", 5); ("NODE_TYPE_GATEWAY", 6); ("NODE_TYPE_ROUTER", 7); ("NODE_TYPE_AGENT", 8)]%string.
Definition EnrollmentStatus_names : list (string * Z) :=
  [("ENROLLMENT_STATUS_UNSPECIFIED", 0); ("ENROLLMENT_STATUS_PENDING", 1); ("ENROLLMENT_STATUS_APPROVED", 2); ("ENROLLMENT_STATUS_DENIED", 3);
   ("ENROLLMENT_STATUS_EXPIRED", 4); ("ENROLLMENT_STATUS_CONSUMED", 5)]%string.
Definition NODE_TYPE_UNSPECIFIED : Z := 0.
Definition NODE_TYPE_AGENT : Z := 8.

(** [NodeType.String()] of a listed value, and [EnrollmentStatus_value[...]]. *)
Definition enumName (table : list (string * Z)) (v : Z) : option string := fst <$> List.find (fun entry => snd entry =? v) table.
Definition enumValue (table : list (string * Z)) (name : string) : option Z := snd <$> List.find (fun entry => eqs (fst entry) name) table.

Record CapabilityClaim : Type := mkClaim {
  Claim_Key : string;
  Claim_Domain : Z;
  Claim_Operations : list Z;
  Claim_SupportLevel : Z;
  Claim_Implementation : string;
  Claim_ImplementationVersion : string;
  Claim_Constraints : list string;
  Claim_ObservedAt : option Timestamp;
}.

Record ClaimManifest : Type := mkClaims {
  Claims_NodeId : string;
  Claims_Revision : Z;
  Claims_IssuedAt : option Timestamp;
  Claims_ExpiresAt : option Timestamp;
  Claims_Capabilities : list (option CapabilityClaim);
  Claims_Signature : option Signature;
  Claims_Unknown : bool;        (** unknown fields of the manifest itself *)
}.

Record EnrollNodeRequest : Type := mkEnrollRequest {
  Enroll_TokenValue : string;
  Enroll_RequestId : string;
  Enroll_DisplayName : string;
  Enroll_NodeType : Z;
  Enroll_Platform : string;
  Enroll_PlatformVersion : string;
  Enroll_KeyAlgorithm : string;
  Enroll_PublicKey : list Z;
  Enroll_ProofOfPossession : list Z;
  Enroll_CSR : list Z;
  Enroll_Capabilities : option ClaimManifest;
  Enroll_RequestedNodeId : string;
  Enroll_Unknown : bool;        (** unknown fields anywhere else in the message *)
}.

Definition withoutProof (q : EnrollNodeRequest) : EnrollNodeRequest :=
  mkEnrollRequest (Enroll_TokenValue q) (Enroll_RequestId q) (Enroll_DisplayName q) (Enroll_NodeType q) (Enroll_Platform q) (Enroll_PlatformVersion q)
    (Enroll_KeyAlgorithm q) (Enroll_PublicKey q) [] (Enroll_CSR q) (Enroll_Capabilities q) (Enroll_RequestedNodeId q) (Enroll_Unknown q).

Record EnrollmentTokenDescriptor : Type := mkDescriptor {
  Descriptor_Id : string;
  Descriptor_CreatedAt : option Timestamp;
  Descriptor_ExpiresAt : option Timestamp;
  Descriptor_CreatedByPrincipalId : string;
  Descriptor_AllowedNodeType : Z;
  Descriptor_AllowedTags : list string;
  Descriptor_Status : Z;
}.

Record EnrollmentRequest : Type := mkEnrollment {
  Enrollment_Id : string;
  Enrollment_TokenId : string;
  Enrollment_Status : Z;
  Enrollment_ProposedNodeId : string;
  Enrollment_DisplayName : string;
  Enrollment_NodeType : Z;
  Enrollment_PublicKey : list Z;
  Enrollment_Capabilities : ClaimManifest;
  Enrollment_RequestedAt : Timestamp;
  Enrollment_ExpiresAt : Timestamp;
  Enrollment_DecisionReasonCode : string;
}.

Record ApproveEnrollmentRequest : Type := mkApproval {
  Approval_EnrollmentId : string;
  Approval_OperationId : string;
  Approval_ReasonCode : string;
  Approval_ApprovedTags : list string;
}.

Record DenyEnrollmentRequest : Type := mkDenial {
  Denial_EnrollmentId : string;
  Denial_OperationId : string;
  Denial_ReasonCode : string;
}.

Record TokenScope : Type := mkScope { Scope_AllowedNodeType : Z; Scope_ApprovedTags : list string }.

Record EnrollmentToken : Type := mkEnrollmentToken {
  EToken_ID : string;
  EToken_TokenValue : string;
  EToken_Scope : TokenScope;
  EToken_ExpiresAt : time;
}.

(** The values of the maps the audit entries carry. *)
Inductive auditDetail : Type :=
| DetailText (s : string)
| DetailTime (t : time)
| DetailTexts (l : list string).
Abbreviation auditDetails := (list (string * auditDetail)) (only parsing).

(** A parsed certificate request. *)
Record certificateRequest : Type := mkCSR {
  CSR_SignatureOK : bool;                (** [CheckSignature] *)
  CSR_PublicKey : option (list Z);       (** when it is an Ed25519 key *)
  CSR_Names : nat;                       (** DNS names, addresses, URIs and e-mail addresses *)
  CSR_Extensions : nat;
}.

Record certificateTemplate : Type := mkTemplate {
  Template_SerialNumber : Z;
  Template_CommonName : string;
  Template_Organization : list string;
  Template_NotBefore : time;
  Template_NotAfter : time;
}.

Class EnrollCodec : Type := {
  descriptorMarshal : EnrollmentTokenDescriptor -> option string;
  descriptorUnmarshal : string -> option EnrollmentTokenDescriptor;
  claimsMarshal : ClaimManifest -> option string;
  claimsUnmarshal : string -> option ClaimManifest;
  requestMarshal : EnrollNodeRequest -> option (list Z);
  requestSize : EnrollNodeRequest -> Z;
}.

Class Hmac512 : Type := {
  hmac512 : list Z -> list Z -> list Z;
  hmac512_length : forall key message, length (hmac512 key message) = 64%nat;
  hmac512_bytes : forall key message, Forall is_byte (hmac512 key message);
}.

(** ** The authority and the service *)

Record Authority : Type := mkAuthority {
  Authority_DeploymentID : string;
  Authority_OperatorID : string;
  Authority_CACert : Certificate;
  Authority_caKey : list Z;
  Authority_auditKey : list Z;
}.

(** [EService_storage]: the service, its database and its audit service are
    not nil. *)
Record EnrollmentService : Type := mkEnrollmentService {
  EService_storage : bool;
  EService_authority : option Authority;
  EService_audit : Service;
  EService_tokenTTL : Z;
}.

(** ** Errors *)

Definition ErrEnrollmentDependencies : error := errorsNew "enrollment service dependencies are required".
Definition ErrTokenTTL : error := errorsNew "enrollment token TTL must be positive and no more than 15 minutes".
Definition ErrEnrollmentActor : error := errorsNew "enrollment actor and operation id are required".
Definition ErrEncodeScope : error := errorsNew "encode enrollment token scope: %w".
Definition ErrDecodeOperation : error := errorsNew "decode enrollment token operation: %w".
Definition ErrDecodeScope : error := errorsNew "decode enrollment token scope: %w".
Definition ErrNodeTypeScope : error := errorsNew "node type %q is outside enrollment token scope".
Definition ErrProofOfPossession : error := errorsNew "enrollment proof of possession is invalid".
Definition ErrEncodeClaims : error := errorsNew "encode capability claims: %w".
Definition ErrApprovalFields : error := errorsNew "approval requires bounded actor, enrollment, operation, and reason identifiers".
Definition ErrApprovalTags : error := errorsNew "approval exceeds 32 tags".
Definition ErrApprovedTag : error := errorsNew "approved tags must be bounded canonical values".
Definition ErrApprovedScope : error := errorsNew "approved tag %q is outside token scope".
Definition ErrApprovedDuplicate : error := errorsNew "approved tag %q is duplicated".
Definition ErrDenialFields : error := errorsNew "denial requires bounded actor, enrollment, operation, and reason identifiers".
Definition ErrDecodeClaims : error := errorsNew "decode enrollment capabilities: %w".
Definition ErrUnknownStatus : error := errorsNew "unknown enrollment status %q".
Definition ErrUnknownNodeType : error := errorsNew "unknown enrollment node type %q".
Definition ErrNodeStatus : error := errorsNew "invalid node status".
Definition ErrStatusOperation : error := errorsNew "node status operation and reason identifiers must be provided together".
Definition ErrMetadataFields : error := errorsNew "actor id, node id, and node name are required bounded values".
Definition ErrMetadataOperation : error := errorsNew "node metadata operation id is invalid".
Definition ErrScopeNodeType : error := errorsNew "enrollment scope requires an allowed node type".
Definition ErrScopeTags : error := errorsNew "enrollment scope exceeds 32 approved tags".
Definition ErrScopeTag : error := errorsNew "approved enrollment tags must be bounded non-whitespace values".
Definition ErrScopeTagBytes : error := errorsNew "approved enrollment tags exceed 2048 bytes".
Definition ErrScopeDuplicate : error := errorsNew "approved enrollment tag %q is duplicated".
Definition ErrEnrollmentRequired : error := errorsNew "enrollment request is required".
Definition ErrEncodeProof : error := errorsNew "encode enrollment proof transcript: %w".
Definition ErrProofUnknown : error := errorsNew "enrollment proof transcript contains unknown protobuf fields".
Definition ErrEnrollmentSize : error := errorsNew "enrollment request exceeds the size limit".
Definition ErrEnrollmentUnknown : error := errorsNew "enrollment request: %w".
Definition ErrEnrollmentNames : error := errorsNew "request id and display name are required bounded UTF-8 values".
Definition ErrNodeTypeRequired : error := errorsNew "node type is required".
Definition ErrPlatformNames : error := errorsNew "platform and platform version are required bounded UTF-8 values".
Definition ErrPlatform : error := errorsNew "unsupported node platform %q".
Definition ErrKeyAlgorithm : error := errorsNew "key_algorithm must be exact lowercase ed25519".
Definition ErrKeySizes : error := errorsNew "enrollment requires a 32-byte Ed25519 public key and 64-byte proof".
Definition ErrClaimsRequired : error := errorsNew "capability manifest is required".
Definition ErrNodeIDUnavailable : error := errorsNew "requested_node_id is not an available canonical node identity".
Definition ErrNodeIDAlphabet : error := errorsNew "requested_node_id must use lowercase ASCII letters, digits, underscores, or hyphens and begin with a letter".
Definition ErrNodeIDDelimiter : error := errorsNew "requested_node_id must not end with a delimiter".
Definition ErrNodeIDReserved : error := errorsNew "requested_node_id is reserved".
Definition ErrClaimsUnknown : error := errorsNew "capability manifest contains unknown protobuf fields".
Definition ErrClaimsSigned : error := errorsNew "initial enrollment capabilities must have empty node_id and signature and are recorded as CLAIMED".
Definition ErrClaimsEmpty : error := errorsNew "capability manifest requires a positive revision and at least one capability".
Definition ErrClaimsIssued : error := errorsNew "capability issued_at is invalid or exceeds allowed clock skew".
Definition ErrClaimsExpires : error := errorsNew "capability expires_at must be after issuance and current time".
Definition ErrClaimEntry : error := errorsNew "capability entries require a namespaced key, domain, operation, and support level".
Definition ErrClaimDuplicate : error := errorsNew "capability key %q is duplicated".
Definition ErrClaimOperation : error := errorsNew "capability %q contains an unspecified operation".
Definition ErrClaimObserved : error := errorsNew "capability %q observed_at is invalid".
Definition ErrCSR : error := errorsNew "certificate signing request is invalid".
Definition ErrCSRKey : error := errorsNew "certificate signing request key does not match public_key".
Definition ErrCSRNames : error := errorsNew "caller-controlled CSR names and extensions are not accepted".
Definition ErrTokenPrefix : error := errorsNew "enrollment token has an invalid version prefix".
Definition ErrTokenEncoding : error := errorsNew "enrollment token must contain canonical unpadded base64url for 64 bytes".
Definition ErrDerivation : error := errorsNew "enrollment token derivation requires an authority, actor, and operation".
Definition ErrNodeKey : error := errorsNew "node public key must be Ed25519".
Definition ErrCAWindow : error := errorsNew "deployment CA is outside its validity window".
Definition ErrSerial : error := errorsNew "generate certificate serial: %w".
Definition ErrCAValidity : error := errorsNew "deployment CA has insufficient remaining validity".
Definition ErrIssueCertificate : error := errorsNew "issue node certificate: %w".

(** ** Texts and times *)

Definition validBoundedText (value : string) (maximum : Z) : bool :=
  if eqs value EmptyString || (maximum <? slen value) || negb (validUTF8 (bytes_of value)) then false else
  if negb (all_chars (fun character => negb ((character <? 0x20) || (character =? 0x7f))) value) then false else
  trimmed value.

Definition protoTime (value : option Timestamp) : option time :=
  match value with
  | None => None
  | Some t => if Timestamp_CheckValid t then Some (AsTime t) else None
  end.

(** [binary.BigEndian.PutUint32]. *)
Definition be32 (x : Z) : list Z :=
  let x := x mod 2 ^ 32 in
  [x / 2 ^ 24; x / 2 ^ 16 mod 256; x / 2 ^ 8 mod 256; x mod 256].

Definition appendLengthPrefixed (destination value : list Z) : list Z := destination ++ be32 (len value) ++ value.

(** ** Scopes *)

(** The loop over the tags, with the tags before and their bytes. *)
Fixpoint validateTags (seen : list string) (totalBytes : Z) (tags : list string) : result unit :=
  match tags with
  | [] => Ok tt
  | tag :: rest =>
      reject negb (validBoundedText tag 64) || containsAny tag [32; 9; 13; 10] with ErrScopeTag;
      let totalBytes := totalBytes + slen tag in
      reject 2048 <? totalBytes with ErrScopeTagBytes;
      reject containsValue seen tag with ErrScopeDuplicate;
      validateTags (tag :: seen) totalBytes rest
  end.

Definition knownNodeType (v : Z) : bool := isSome (enumName NodeType_names v) && negb (v =? NODE_TYPE_UNSPECIFIED).

Definition TokenScope_Validate (scope : TokenScope) : result unit :=
  reject negb (knownNodeType (Scope_AllowedNodeType scope)) with ErrScopeNodeType;
  reject 32 <? len (Scope_ApprovedTags scope) with ErrScopeTags;
  validateTags [] 0 (Scope_ApprovedTags scope).

(** The loop of [Approve] over the tags. *)
Fixpoint approvedTags (allowed seen tags : list string) : result unit :=
  match tags with
  | [] => Ok tt
  | tag :: rest =>
      reject negb (validBoundedText tag 64) with ErrApprovedTag;
      reject negb (containsValue allowed tag) with ErrApprovedScope;
      reject containsValue seen tag with ErrApprovedDuplicate;
      approvedTags allowed (tag :: seen) rest
  end.

(** ** Requests *)

(** One byte of a requested identity: its place, and whether the byte before
    is a delimiter. *)
Definition nodeIDDelimiter (c : Z) : bool := (c =? 95) || (c =? 45).
Definition nodeIDByte (first previousDelimiter : bool) (c : Z) : bool :=
  ((97 <=? c) && (c <=? 122)) || (negb first && (48 <=? c) && (c <=? 57)) || (negb first && nodeIDDelimiter c && negb previousDelimiter).

Fixpoint nodeIDBytes (first previousDelimiter : bool) (bs : list Z) : result bool :=
  match bs with
  | [] => Ok previousDelimiter
  | c :: rest =>
      reject negb (nodeIDByte first previousDelimiter c) with ErrNodeIDAlphabet;
      nodeIDBytes false (nodeIDDelimiter c) rest
  end.

Definition reservedNodeIDs : list string :=
  ["all"; "core"; "local"; "operator"; "system"; "unknown"; "unavailable";
   "node_all"; "node_core"; "node_local"; "node_operator"; "node_system"; "node_unknown"; "node_unavailable"]%string.

Definition validateRequestedNodeID (nodeID deploymentID operatorID : string) : result unit :=
  if eqs nodeID EmptyString then Ok tt else
  reject (slen nodeID <? 8) || (128 <? slen nodeID) || eqs nodeID deploymentID || eqs nodeID operatorID with ErrNodeIDUnavailable;
  do previousDelimiter <- nodeIDBytes true false (bytes_of nodeID);
  reject previousDelimiter with ErrNodeIDDelimiter;
  reject containsValue reservedNodeIDs nodeID with ErrNodeIDReserved;
  Ok tt.

Definition CAPABILITY_UNSPECIFIED : Z := 0.
Definition domains : list Z := [0; 1; 2; 3; 4; 5; 6; 7; 8; 9; 10; 11].
Definition operations : list Z := [0; 1; 2; 3; 4].
Definition supportLevels : list Z := [0; 1; 2; 3; 4].
Definition listed (values : list Z) (v : Z) : bool := existsb (Z.eqb v) values.

(** [model.RejectUnknownFields]: unknown fields, and the enumerations. *)
Definition claimKnown (o : option CapabilityClaim) : bool :=
  match o with
  | None => true
  | Some c => listed domains (Claim_Domain c) && forallb (listed operations) (Claim_Operations c) && listed supportLevels (Claim_SupportLevel c)
  end.
Definition claimsKnown (m : ClaimManifest) : bool :=
  negb (Claims_Unknown m) && forallb claimKnown (Claims_Capabilities m)
  && match Claims_Signature m with
     | None => true
     | Some s => enumListed SignatureAlgorithm_names (Signature_Algorithm s) && enumListed SignatureEncoding_names (Signature_Encoding s)
     end.
Definition requestKnown (q : EnrollNodeRequest) : bool :=
  negb (Enroll_Unknown q) && enumListed NodeType_names (Enroll_NodeType q)
  && match Enroll_Capabilities q with Some m => claimsKnown m | None => true end.

Fixpoint validateClaims (now : time) (seen : list string) (claims : list (option CapabilityClaim)) : result unit :=
  match claims with
  | [] => Ok tt
  | None :: _ => Err ErrClaimEntry
  | Some c :: rest =>
      reject negb (validBoundedText (Claim_Key c) 128) || negb (containsDot (Claim_Key c)) || (Claim_Domain c =? CAPABILITY_UNSPECIFIED)
             || (Claim_SupportLevel c =? CAPABILITY_UNSPECIFIED) || (len (Claim_Operations c) =? 0) with ErrClaimEntry;
      reject containsValue seen (Claim_Key c) with ErrClaimDuplicate;
      reject existsb (Z.eqb CAPABILITY_UNSPECIFIED) (Claim_Operations c) with ErrClaimOperation;
      reject match Claim_ObservedAt c with
             | None => false
             | Some t => match protoTime (Some t) with Some observedAt => now + 5 * Minute <? observedAt | None => true end
             end with ErrClaimObserved;
      validateClaims now (Claim_Key c :: seen) rest
  end.

Definition validateCapabilities (manifest : option ClaimManifest) (now : time) : result unit :=
  match manifest with
  | None => Err ErrClaimsRequired
  | Some m =>
      reject Claims_Unknown m with ErrClaimsUnknown;
      reject negb (eqs (Claims_NodeId m) EmptyString) || isSome (Claims_Signature m) with ErrClaimsSigned;
      reject (Claims_Revision m =? 0) || (len (Claims_Capabilities m) =? 0) with ErrClaimsEmpty;
      match protoTime (Claims_IssuedAt m) with
      | None => Err ErrClaimsIssued
      | Some issuedAt =>
          reject now + 5 * Minute <? issuedAt with ErrClaimsIssued;
          match protoTime (Claims_ExpiresAt m) with
          | None => Err ErrClaimsExpires
          | Some expiresAt =>
              reject negb (now <? expiresAt) || negb (issuedAt <? expiresAt) with ErrClaimsExpires;
              validateClaims now [] (Claims_Capabilities m)
          end
      end
  end.

Definition parseToken (value : string) : result (list Z) :=
  reject negb (hasPrefix value enrollmentTokenPrefix) with ErrTokenPrefix;
  let encoded := trimPrefix value enrollmentTokenPrefix in
  match base64url_decode encoded with
  | None => Err ErrTokenEncoding
  | Some raw =>
      reject negb (len raw =? 64) || negb (eqs (base64url raw) encoded) with ErrTokenEncoding;
      Ok raw
  end.

Definition platforms : list string := ["linux"; "android"; "windows"; "darwin"; "ios"; "router"]%string.

Section Enrollment.
Context {H : Hasher} {E : Ed25519} {AC : AuditCodec} {EnC : EnrollCodec} {HM : Hmac512}.
Context (parseCSR : list Z -> option certificateRequest).
Context (createCertificate : certificateTemplate -> Certificate -> list Z -> list Z -> option string).

Definition tokenDigest (raw : list Z) : list Z := sum256 (bytes_of enrollmentTokenDomain ++ [0] ++ raw).

Definition ProofMessage (request : option EnrollNodeRequest) : result (list Z) :=
  match request with
  | None => Err ErrEnrollmentRequired
  | Some q =>
      let clone := withoutProof q in
      reject Enroll_Unknown clone || match Enroll_Capabilities clone with Some m => Claims_Unknown m | None => false end with ErrProofUnknown;
      match requestMarshal clone with
      | None => Err ErrEncodeProof
      | Some encoded => Ok (sum256 (appendLengthPrefixed (appendLengthPrefixed [] (bytes_of enrollmentProofDomain)) encoded))
      end
  end.

Definition validateRequest (request : option EnrollNodeRequest) (now : time) : result EnrollNodeRequest :=
  match request with
  | None => Err ErrEnrollmentRequired
  | Some q =>
      reject maximumEnrollmentWire <? requestSize q with ErrEnrollmentSize;
      reject negb (requestKnown q) with ErrEnrollmentUnknown;
      do _ <- parseToken (Enroll_TokenValue q);
      reject negb (validBoundedText (Enroll_RequestId q) 128) || negb (validBoundedText (Enroll_DisplayName q) 128) with ErrEnrollmentNames;
      reject negb (knownNodeType (Enroll_NodeType q)) with ErrNodeTypeRequired;
      reject negb (validBoundedText (Enroll_Platform q) 32) || negb (validBoundedText (Enroll_PlatformVersion q) 128) with ErrPlatformNames;
      reject negb (containsValue platforms (Enroll_Platform q)) with ErrPlatform;
      reject negb (eqs (Enroll_KeyAlgorithm q) "ed25519") with ErrKeyAlgorithm;
      reject negb (len (Enroll_PublicKey q) =? PublicKeySize) || negb (len (Enroll_ProofOfPossession q) =? SignatureSize) with ErrKeySizes;
      ensure validateCapabilities (Enroll_Capabilities q) now;
      Ok q
  end.

Definition validateCSR (q : EnrollNodeRequest) : result unit :=
  if len (Enroll_CSR q) =? 0 then Ok tt else
  match parseCSR (Enroll_CSR q) with
  | None => Err ErrCSR
  | Some csr =>
      reject negb (CSR_SignatureOK csr) with ErrCSR;
      reject negb (bool_decide (CSR_PublicKey csr = Some (Enroll_PublicKey q))) with ErrCSRKey;
      reject negb ((CSR_Names csr =? 0)%nat && (CSR_Extensions csr =? 0)%nat) with ErrCSRNames;
      Ok tt
  end.

Definition enrollmentRequestToProto (record : EnrollmentRequestRecord) : result EnrollmentRequest :=
  match claimsUnmarshal (Req_CapabilitiesJSON record) with
  | None => Err ErrDecodeClaims
  | Some capabilities =>
      match enumValue EnrollmentStatus_names ("ENROLLMENT_STATUS_" +:+ Req_Status record) with
      | None => Err ErrUnknownStatus
      | Some status =>
          match enumValue NodeType_names (Req_NodeType record) with
          | None => Err ErrUnknownNodeType
          | Some nodeType =>
              Ok (mkEnrollment (Req_ID record) (Req_TokenID record) status (Req_ProposedNodeID record) (Req_DisplayName record) nodeType
                    (Req_PublicKey record) capabilities (Timestamp_New (Req_RequestedAt record)) (Timestamp_New (Req_ExpiresAt record))
                    (Req_DecisionReasonCode record))
          end
      end
  end.

(** ** The authority *)

Definition DeriveEnrollmentToken (authority : Authority) (actorID operationID : string) : result (list Z) :=
  reject negb (len (Authority_auditKey authority) =? PrivateKeySize) || eqs actorID EmptyString || eqs operationID EmptyString with ErrDerivation;
  Ok (hmac512 (Seed (Authority_auditKey authority))
        (appendLengthPrefixed (appendLengthPrefixed (bytes_of "AntiFlock-Enrollment-Derivation-v1") (bytes_of actorID)) (bytes_of operationID))).

(** [randomSerial] may fail. *)
Definition IssueNodeCertificate (serial : option Z) (authority : Authority) (nodeID : string) (publicKey : list Z) (now : time) : result string :=
  let ca := Authority_CACert authority in
  reject negb (len publicKey =? PublicKeySize) with ErrNodeKey;
  reject (now <? Cert_NotBefore ca) || negb (now <? Cert_NotAfter ca) with ErrCAWindow;
  match serial with
  | None => Err ErrSerial
  | Some serial =>
      let notBefore := now - 5 * Minute in
      let notBefore := if notBefore <? Cert_NotBefore ca then Cert_NotBefore ca else notBefore in
      let notAfter := addYears 1 now in
      let notAfter := if Cert_NotAfter ca <? notAfter then Cert_NotAfter ca else notAfter in
      reject negb (notBefore <? notAfter) with ErrCAValidity;
      match createCertificate (mkTemplate serial nodeID [Authority_DeploymentID authority] notBefore notAfter) ca publicKey (Authority_caKey authority) with
      | None => Err ErrIssueCertificate
      | Some pem => Ok pem
      end
  end.

Definition resolveTokenOperation (record : EnrollmentTokenRecord) (actorID : string) (scope : TokenScope) (tokenValue : string) (digest : list Z) :
    result EnrollmentToken :=
  match descriptorUnmarshal (Token_ScopeJSON record) with
  | None => Err ErrDecodeOperation
  | Some descriptor =>
      reject negb (eqs (Token_CreatedByPrincipalID record) actorID) || negb (Descriptor_AllowedNodeType descriptor =? Scope_AllowedNodeType scope)
             || negb (bool_decide (Descriptor_AllowedTags descriptor = Scope_ApprovedTags scope))
             || negb (bool_decide (Token_Hash record = digest)) with ErrOperationConflict;
      Ok (mkEnrollmentToken (Token_ID record) tokenValue scope (Token_ExpiresAt record))
  end.

(** ** The operations *)

Context (sqlFails sysFails : nat -> bool) (torn : nat -> nat) (contention : nat -> nat * bool) (fsyncLinks : bool).
Context (wall auditClock clock : clockT) (newID : nat -> string) (serials : nat -> option Z).
Context (marshalDetails : auditDetails -> option string).

Abbreviation MW := (M (auditWorld enrollDB)).
Abbreviation database := (fun m => zoom aw_tables setTables (zoom core_domain setDomain m)).
Abbreviation append service ctx q mutation :=
  (AppendWithMutation sqlFails sysFails torn contention fsyncLinks wall auditClock newID marshalDetails (EService_audit service) ctx q (Some mutation)).
Abbreviation nodeTypeString v := (default EmptyString (enumName NodeType_names v)).

(** The random serial a tick draws. *)
Definition randomSerial : MW (option Z) := fun st => (Ok (serials (fst st)), (S (fst st), snd st)).

(** What follows an operation id that is taken. *)
Definition sameTokenOperation (actorID operationID : string) (scope : TokenScope) (tokenValue : string) (digest : list Z) : MW EnrollmentToken :=
  let! existing := database (GetEnrollmentTokenByOperation sqlFails operationID) in
  liftR (resolveTokenOperation existing actorID scope tokenValue digest).

Definition CreateScopedToken (service : EnrollmentService) (ctx : ctxT) (actorID operationID : string) (scope : TokenScope) : MW EnrollmentToken :=
  match EService_authority service with
  | None => failM ErrEnrollmentDependencies
  | Some authority =>
      if negb (EService_storage service) then failM ErrEnrollmentDependencies else
      if (EService_tokenTTL service <=? 0) || (maximumTokenTTL <? EService_tokenTTL service) then failM ErrTokenTTL else
      if eqs (TrimSpace actorID) EmptyString || eqs (TrimSpace operationID) EmptyString then failM ErrEnrollmentActor else
      run! liftR (TokenScope_Validate scope) in
      let! rawToken := liftR (DeriveEnrollmentToken authority actorID operationID) in
      let tokenValue := enrollmentTokenPrefix +:+ base64url rawToken in
      let digest := tokenDigest rawToken in
      let! lookup := attempt (database (GetEnrollmentTokenByOperation sqlFails operationID)) in
      match lookup with
      | Ok existing => liftR (resolveTokenOperation existing actorID scope tokenValue digest)
      | Err lookupErr =>
          if negb (bool_decide (lookupErr = ErrEnrollmentTokenInvalid)) then failM lookupErr else
          let! t := now clock in
          let! tokenID := drawID newID "enroll" in
          let token := mkEnrollmentToken tokenID tokenValue scope (t + EService_tokenTTL service) in
          match descriptorMarshal (mkDescriptor tokenID (Some (Timestamp_New t)) (Some (Timestamp_New (EToken_ExpiresAt token))) actorID
                  (Scope_AllowedNodeType scope) (Scope_ApprovedTags scope) 1) with
          | None => failM ErrEncodeScope
          | Some scopeJSON =>
              let record := mkTokenRecord tokenID digest scopeJSON actorID operationID t (EToken_ExpiresAt token) None EmptyString EmptyString [] in
              let! appended := attempt (append service ctx
                (mkAppend "operator" actorID "enrollment.token_created" "enrollment_token" tokenID "success"
                  [("expiresAt", DetailTime (EToken_ExpiresAt token)); ("allowedNodeType", DetailText (nodeTypeString (Scope_AllowedNodeType scope)));
                   ("approvedTags", DetailTexts (Scope_ApprovedTags scope)); ("operationId", DetailText operationID)])
                (CreateEnrollmentTokenWithAudit sqlFails record)) in
              match appended with
              | Ok _ => retM token
              | Err err =>
                  if bool_decide (err = ErrOperationConflict)
                  then sameTokenOperation actorID operationID scope tokenValue digest
                  else failM err
              end
          end
      end
  end.

Definition CreateToken (service : EnrollmentService) (ctx : ctxT) (actorID : string) : MW EnrollmentToken :=
  let! operationID := drawID newID "operation" in
  CreateScopedToken service ctx actorID operationID (mkScope NODE_TYPE_AGENT []).

Definition replayRequest (hash : list Z) (requestID : string) (digest : list Z) : MW EnrollmentRequest :=
  let! replay := database (ResolveEnrollmentRequestReplay sqlFails hash requestID digest) in
  liftR (enrollmentRequestToProto replay).

Definition Enroll (service : EnrollmentService) (ctx : ctxT) (request : option EnrollNodeRequest) : MW EnrollmentRequest :=
  match EService_authority service with
  | None => failM ErrEnrollmentDependencies
  | Some authority =>
      if negb (EService_storage service) then failM ErrEnrollmentDependencies else
      let! t := now clock in
      let! q := liftR (validateRequest request t) in
      let! rawToken := liftR (parseToken (Enroll_TokenValue q)) in
      let tokenHash := tokenDigest rawToken in
      let! record := database (GetEnrollmentToken sqlFails tokenHash t) in
      match descriptorUnmarshal (Token_ScopeJSON record) with
      | None => failM ErrDecodeScope
      | Some descriptor =>
          if negb (Descriptor_AllowedNodeType descriptor =? Enroll_NodeType q) then failM ErrNodeTypeScope else
          run! liftR (validateRequestedNodeID (Enroll_RequestedNodeId q) (Authority_DeploymentID authority) (Authority_OperatorID authority)) in
          let! proofMessage := liftR (ProofMessage (Some q)) in
          if negb (ed_verify (Enroll_PublicKey q) proofMessage (Enroll_ProofOfPossession q)) then failM ErrProofOfPossession else
          if isSome (Token_ConsumedAt record) then replayRequest tokenHash (Enroll_RequestId q) proofMessage else
          run! liftR (validateCSR q) in
          run! liftR (validateCapabilities (Enroll_Capabilities q) t) in
          match (m ← Enroll_Capabilities q; claimsMarshal m) with
          | None => failM ErrEncodeClaims
          | Some capabilities =>
              let! proposedNodeID := (if eqs (Enroll_RequestedNodeId q) EmptyString then drawID newID "node" else retM (Enroll_RequestedNodeId q)) in
              let! enrollmentID := drawID newID "enrollment_request" in
              let nodeType := nodeTypeString (Enroll_NodeType q) in
              let enrollmentRecord := mkRequestRecord enrollmentID (Token_ID record) (Enroll_RequestId q) proofMessage statusPending proposedNodeID
                (Enroll_DisplayName q) nodeType (Enroll_Platform q) (Enroll_PlatformVersion q) (Enroll_PublicKey q) capabilities
                (Descriptor_AllowedTags descriptor) t (Token_ExpiresAt record) EmptyString EmptyString EmptyString None [] EmptyString in
              let! appended := attempt (append service ctx
                (mkAppend "node" proposedNodeID "enrollment.requested" "enrollment_request" enrollmentID "pending_operator_approval"
                  [("requestId", DetailText (Enroll_RequestId q)); ("name", DetailText (Enroll_DisplayName q)); ("nodeType", DetailText nodeType);
                   ("platform", DetailText (Enroll_Platform q)); ("proposedNodeId", DetailText proposedNodeID);
                   ("requestedNodeId", DetailText (Enroll_RequestedNodeId q)); ("capabilitiesVerification", DetailText "CLAIMED")])
                (SubmitEnrollmentRequestWithAudit sqlFails tokenHash t enrollmentRecord)) in
              match appended with
              | Ok _ => liftR (enrollmentRequestToProto enrollmentRecord)
              | Err err =>
                  if bool_decide (err = ErrEnrollmentTokenUsed) then replayRequest tokenHash (Enroll_RequestId q) proofMessage else failM err
              end
          end
      end
  end.

Definition approvedNode (record : EnrollmentRequestRecord) (tags : list string) (certificate : string) (now : time) : Node :=
  mkEnrolled (Req_ProposedNodeID record) (Req_DisplayName record) (Req_NodeType record) (Req_Platform record) (Req_PlatformVersion record)
    NodeActive tags (Req_CapabilitiesJSON record) "CLAIMED" (Req_PublicKey record) certificate now None None 0.

Definition Service_Approve (service : EnrollmentService) (ctx : ctxT) (actorID : string) (request : option ApproveEnrollmentRequest) : MW Node :=
  match EService_authority service, request with
  | None, _ => failM ErrEnrollmentDependencies
  | Some authority, o =>
      if negb (EService_storage service) then failM ErrEnrollmentDependencies else
      match o with
      | None => failM ErrApprovalFields
      | Some q =>
          if negb (validBoundedText actorID 128) || negb (validBoundedText (Approval_EnrollmentId q) 128)
             || negb (validBoundedText (Approval_OperationId q) 128) || negb (validBoundedText (Approval_ReasonCode q) 128) then failM ErrApprovalFields else
          if 32 <? len (Approval_ApprovedTags q) then failM ErrApprovalTags else
          let! record := database (GetEnrollmentRequest sqlFails (Approval_EnrollmentId q)) in
          if eqs (Req_Status record) statusApproved && eqs (Req_DecisionOperationID record) (Approval_OperationId q) && negb (eqs (Req_NodeID record) EmptyString) then
            if negb (eqs (Req_DecidedByPrincipalID record) actorID) || negb (eqs (Req_DecisionReasonCode record) (Approval_ReasonCode q))
               || negb (bool_decide (Req_ApprovedTags record = Approval_ApprovedTags q)) then failM ErrOperationConflict else
            database (zoom en_core setCore (GetNode sqlFails (Req_NodeID record)))
          else
          if negb (eqs (Req_Status record) statusPending) then failM ErrEnrollmentRequestDecided else
          let! t := now clock in
          if negb (t <? Req_ExpiresAt record) then failM ErrEnrollmentRequestExpired else
          run! liftR (approvedTags (Req_AllowedTags record) [] (Approval_ApprovedTags q)) in
          let! t := now clock in
          let! serial := randomSerial in
          let! certificate := liftR (IssueNodeCertificate serial authority (Req_ProposedNodeID record) (Req_PublicKey record) t) in
          let node := approvedNode record (Approval_ApprovedTags q) certificate t in
          run! append service ctx
            (mkAppend "operator" actorID "node.enrolled" "node" (Node_ID node) "success"
              [("enrollmentId", DetailText (Req_ID record)); ("nodeId", DetailText (Node_ID node)); ("operationId", DetailText (Approval_OperationId q));
               ("reasonCode", DetailText (Approval_ReasonCode q)); ("approvedTags", DetailTexts (Approval_ApprovedTags q))])
            (ApproveEnrollmentRequestWithAudit sqlFails (Req_ID record) actorID (Approval_OperationId q) (Approval_ReasonCode q)
               (Approval_ApprovedTags q) t node) in
          retM node
      end
  end.

Definition Deny (service : EnrollmentService) (ctx : ctxT) (actorID : string) (request : option DenyEnrollmentRequest) : MW EnrollmentRequest :=
  if negb (EService_storage service) then failM ErrEnrollmentDependencies else
  match request with
  | None => failM ErrDenialFields
  | Some q =>
      if negb (validBoundedText actorID 128) || negb (validBoundedText (Denial_EnrollmentId q) 128)
         || negb (validBoundedText (Denial_OperationId q) 128) || negb (validBoundedText (Denial_ReasonCode q) 128) then failM ErrDenialFields else
      let! record := database (GetEnrollmentRequest sqlFails (Denial_EnrollmentId q)) in
      if eqs (Req_Status record) statusDenied && eqs (Req_DecisionOperationID record) (Denial_OperationId q) then
        if negb (eqs (Req_DecidedByPrincipalID record) actorID) || negb (eqs (Req_DecisionReasonCode record) (Denial_ReasonCode q))
        then failM ErrOperationConflict else liftR (enrollmentRequestToProto record)
      else
      if negb (eqs (Req_Status record) statusPending) then failM ErrEnrollmentRequestDecided else
      let! t := now clock in
      run! append service ctx
        (mkAppend "operator" actorID "enrollment.denied" "enrollment_request" (Req_ID record) "denied"
          [("operationId", DetailText (Denial_OperationId q)); ("reasonCode", DetailText (Denial_ReasonCode q))])
        (DenyEnrollmentRequestWithAudit sqlFails (Req_ID record) actorID (Denial_OperationId q) (Denial_ReasonCode q) t) in
      liftR (enrollmentRequestToProto (decidedRequest statusDenied (Denial_ReasonCode q) (Denial_OperationId q) actorID t [] EmptyString record))
  end.

Definition SetStatusWithReason (service : EnrollmentService) (ctx : ctxT) (actorID nodeID status operationID reasonCode : string) : MW unit :=
  if negb (validBoundedText actorID 128) || negb (validBoundedText nodeID 128) || negb (containsValue nodeStatuses status) then failM ErrNodeStatus else
  if xorb (eqs operationID EmptyString) (eqs reasonCode EmptyString)
     || (negb (eqs operationID EmptyString) && (negb (validBoundedText operationID 128) || negb (validBoundedText reasonCode 128)))
  then failM ErrStatusOperation else
  let! t := now clock in
  run! append service ctx
    (mkAppend "operator" actorID "node.status_changed" "node" nodeID "success"
      [("status", DetailText status); ("operationId", DetailText operationID); ("reasonCode", DetailText reasonCode)])
    (SetNodeStatusWithAudit sqlFails nodeID status t) in
  retM tt.

Definition SetStatus (service : EnrollmentService) (ctx : ctxT) (actorID nodeID status : string) : MW unit :=
  SetStatusWithReason service ctx actorID nodeID status EmptyString EmptyString.

Definition UpdateMetadataWithOperation (service : EnrollmentService) (ctx : ctxT) (actorID nodeID name : string) (tags : list string) (operationID : string) : MW unit :=
  if negb (validBoundedText actorID 128) || negb (validBoundedText nodeID 128) || negb (validBoundedText name 128) then failM ErrMetadataFields else
  if negb (eqs operationID EmptyString) && negb (validBoundedText operationID 128) then failM ErrMetadataOperation else
  run! liftR (TokenScope_Validate (mkScope NODE_TYPE_AGENT tags)) in
  run! append service ctx
    (mkAppend "operator" actorID "node.metadata_updated" "node" nodeID "success"
      [("name", DetailText name); ("tags", DetailTexts tags); ("operationId", DetailText operationID)])
    (UpdateNodeMetadataWithAudit sqlFails nodeID name tags) in
  retM tt.

Definition UpdateMetadata (service : EnrollmentService) (ctx : ctxT) (actorID nodeID name : string) (tags : list string) : MW unit :=
  UpdateMetadataWithOperation service ctx actorID nodeID name tags EmptyString.

End Enrollment.
