(* ===== verification/ActionStore.v ===== *)
(** * The tables of secure actions (core/storage/secure_actions.go)

    [secure_actions] and [secure_action_audit_events] beside the tables of the
    event log, which hold [nodes]. As in EnrollmentStore.v the rows of a table
    are a list in the order of insertion, the unique constraints and indexes
    of the migrations fail the statements that meet them, and a column with
    the text of a time holds the time.

    The audited transitions are [withAudit] of a function in [M actionDB]. *)

From S2P Require Import Prelude Library Sha256 Digest Plan Events EventStore EventIngest AuditStore.
From stdpp Require Import base gmap list strings sorting.
From Stdlib Require Import ZArith Lia.

Open Scope Z_scope.

(** ** Data *)

Record SecureActionRecord : Type := mkActionRecord {
  SA_ID : string;
  SA_RequestID : string;
  SA_ApplicationID : string;
  SA_OperationID : string;
  SA_Decision : string;
  SA_RequestJSON : string;
  SA_DecisionJSON : string;
  SA_CreatedAt : time;
  SA_UpdatedAt : time;
  SA_ReleasedAt : option time;
  SA_BypassExpiresAt : option time;
}.

(** A row of [secure_action_audit_events]. *)
Record actionEvent : Type := mkActionEvent {
  AEvent_event_id : string;
  AEvent_action_id : string;
  AEvent_lifecycle : string;
  AEvent_occurred_at : time;
  AEvent_request_digest : list Z;
}.

Record SecureActionAuditEventRecord : Type := mkActionAudit {
  ActionAudit_ActionID : string;
  ActionAudit_RequestDigest : list Z;
}.

Record SecureActionExecutionState : Type := mkExecution {
  Execution_Started : bool;
  Execution_Terminal : string;
}.

Record actionDB : Type := mkActionDB {
  ac_actions : list SecureActionRecord;
  ac_events : list actionEvent;
  ac_core : DB;
}.

Definition setActions (rows : list SecureActionRecord) (d : actionDB) : actionDB := mkActionDB rows (ac_events d) (ac_core d).
Definition setActionEvents (rows : list actionEvent) (d : actionDB) : actionDB := mkActionDB (ac_actions d) rows (ac_core d).
Definition setActionCore (c : DB) (d : actionDB) : actionDB := mkActionDB (ac_actions d) (ac_events d) c.

#[export] Instance SecureActionRecord_eq_dec : EqDecision SecureActionRecord.
Proof. solve_decision. Defined.

(** ** Constants *)

Definition executionStarted : string := "SDK_ACTION_EXECUTION_STARTED".
Definition executionSucceeded : string := "SDK_ACTION_EXECUTION_SUCCEEDED".
Definition executionFailed : string := "SDK_ACTION_EXECUTION_FAILED".
Definition decisionALLOW : string := "ALLOW".
Definition decisionALLOW_ONCE : string := "ALLOW_ONCE".

Definition executionTerminal (lifecycle : string) : bool := eqs lifecycle executionSucceeded || eqs lifecycle executionFailed.
Definition executionLifecycle (lifecycle : string) : bool := eqs lifecycle executionStarted || executionTerminal lifecycle.

(** ** Errors *)

Definition ErrSecureActionNotFound : error := errorsNew "secure action not found".
Definition ErrSecureActionConflict : error := errorsNew "secure action id was reused with different input".
Definition ErrSecureActionAuditConflict : error := errorsNew "secure action audit event id was reused with different input".
Definition ErrOneTimeGrantConsumed : error := errorsNew "one-time authorization was already consumed or expired".
Definition ErrInvalidActionLifecycle : error := errorsNew "secure action lifecycle transition is invalid".
Definition ErrScanAction : error := errorsNew "scan secure action: %w".
Definition ErrListActions : error := errorsNew "list secure actions: %w".
Definition ErrCountActions : error := errorsNew "count secure actions: %w".
Definition ErrBeginAction : error := errorsNew "begin secure action creation: %w".
Definition ErrCreateAction : error := errorsNew "create secure action: %w".
Definition ErrCommitAction : error := errorsNew "commit secure action creation: %w".
Definition ErrBeginActionUpdate : error := errorsNew "begin secure action update: %w".
Definition ErrUpdateAction : error := errorsNew "update secure action: %w".
Definition ErrActionUpdateCount : error := errorsNew "read secure action update count: %w".
Definition ErrCommitActionUpdate : error := errorsNew "commit secure action update: %w".
Definition ErrReadExecution : error := errorsNew "read secure action execution state: %w".
Definition ErrReadActionEvent : error := errorsNew "read secure action audit event: %w".
Definition ErrActionDigest : error := errorsNew "secure action audit request digest must be SHA-256".
Definition ErrBeginLifecycle : error := errorsNew "begin secure action lifecycle: %w".
Definition ErrReadLifecycle : error := errorsNew "read secure action lifecycle state: %w".
Definition ErrReadHistory : error := errorsNew "read secure action execution history: %w".
Definition ErrRecordEvent : error := errorsNew "record secure action audit event: %w".
Definition ErrInspectActionEvent : error := errorsNew "inspect secure action audit insertion: %w".
Definition ErrConsumeGrant : error := errorsNew "consume one-time authorization: %w".
Definition ErrCommitLifecycle : error := errorsNew "commit secure action lifecycle: %w".

(** ** Rows *)

Definition actionByID (id : string) (d : actionDB) : option SecureActionRecord :=
  List.find (fun r => eqs (SA_ID r) id) (ac_actions d).
Definition actionByRequest (requestID : string) (d : actionDB) : option SecureActionRecord :=
  List.find (fun r => eqs (SA_RequestID r) requestID) (ac_actions d).
Definition actionByOperation (operationID : string) (d : actionDB) : option SecureActionRecord :=
  List.find (fun r => eqs (SA_OperationID r) operationID) (ac_actions d).
Definition actionEventByID (eventID : string) (d : actionDB) : option actionEvent :=
  List.find (fun e => eqs (AEvent_event_id e) eventID) (ac_events d).

Definition eventOf (actionID lifecycle : string) (e : actionEvent) : bool :=
  eqs (AEvent_action_id e) actionID && eqs (AEvent_lifecycle e) lifecycle.
Definition startedEvent (actionID : string) (e : actionEvent) : bool := eventOf actionID executionStarted e.
Definition terminalEvent (actionID : string) (e : actionEvent) : bool :=
  eqs (AEvent_action_id e) actionID && executionTerminal (AEvent_lifecycle e).
Definition startedIn (actionID : string) (d : actionDB) : bool := existsb (startedEvent actionID) (ac_events d).

Definition RequestMatches (record : SecureActionRecord) (canonical : string) : bool := eqs (SA_RequestJSON record) canonical.

(** [ORDER BY updated_at DESC, id ASC], on the text of the times. *)
Definition actionOrder (formatTime : time -> string) (a b : SecureActionRecord) : Prop :=
  if eqs (formatTime (SA_UpdatedAt a)) (formatTime (SA_UpdatedAt b)) then String.leb (SA_ID a) (SA_ID b) = true
  else String.leb (formatTime (SA_UpdatedAt b)) (formatTime (SA_UpdatedAt a)) = true.
#[export] Instance actionOrder_dec formatTime : RelDecision (actionOrder formatTime).
Proof. intros a b. unfold actionOrder. destruct (eqs _ _); apply _. Defined.

(** The columns that [CompareAndSwap] compares, and those it sets. *)
Definition sameVersion (expected r : SecureActionRecord) : bool :=
  eqs (SA_ID r) (SA_ID expected) && eqs (SA_Decision r) (SA_Decision expected) && eqs (SA_DecisionJSON r) (SA_DecisionJSON expected)
  && (SA_UpdatedAt r =? SA_UpdatedAt expected) && bool_decide (SA_ReleasedAt r = SA_ReleasedAt expected)
  && bool_decide (SA_BypassExpiresAt r = SA_BypassExpiresAt expected).
Definition swappable (expected : SecureActionRecord) (d : actionDB) (r : SecureActionRecord) : bool :=
  sameVersion expected r && eqs (SA_RequestJSON r) (SA_RequestJSON expected) && negb (startedIn (SA_ID expected) d).
Definition swappedAction (next r : SecureActionRecord) : SecureActionRecord :=
  mkActionRecord (SA_ID r) (SA_RequestID r) (SA_ApplicationID r) (SA_OperationID r) (SA_Decision next) (SA_RequestJSON r) (SA_DecisionJSON next)
    (SA_CreatedAt r) (SA_UpdatedAt next) (SA_ReleasedAt next) (SA_BypassExpiresAt next).

Definition releasableAction (id : string) (r : SecureActionRecord) : bool := eqs (SA_ID r) id && negb (isSome (SA_ReleasedAt r)).
Definition releasedAction (now : time) (r : SecureActionRecord) : SecureActionRecord :=
  mkActionRecord (SA_ID r) (SA_RequestID r) (SA_ApplicationID r) (SA_OperationID r) (SA_Decision r) (SA_RequestJSON r) (SA_DecisionJSON r)
    (SA_CreatedAt r) now (Some now) (SA_BypassExpiresAt r).

(** What the history of an action says: starts, ends, and the time of the
    last start that was read. *)
Definition executionHistory (actionID : string) (d : actionDB) : Z * Z * time :=
  let starts := List.filter (startedEvent actionID) (ac_events d) in
  (len starts, len (List.filter (terminalEvent actionID) (ac_events d)),
   match last starts with Some e => AEvent_occurred_at e | None => zeroTime end).

(** The unique constraints of [secure_action_audit_events]: the key, one start
    and one end for each action. *)
Definition eventTaken (e : actionEvent) (d : actionDB) : bool :=
  isSome (actionEventByID (AEvent_event_id e) d)
  || (eqs (AEvent_lifecycle e) executionStarted && startedIn (AEvent_action_id e) d)
  || (executionTerminal (AEvent_lifecycle e) && existsb (terminalEvent (AEvent_action_id e)) (ac_events d)).

(** The rows that the inserting query selects. *)
Definition nodeIsActive (nodeID : string) (d : actionDB) : bool :=
  match db_nodes (ac_core d) !! nodeID with Some node => eqs (Node_Status node) NodeActive | None => false end.
Definition selectedActions (expected : SecureActionRecord) (nodeID lifecycle : string) (d : actionDB) : list SecureActionRecord :=
  if eqs lifecycle executionStarted && negb (nodeIsActive nodeID d) then [] else List.filter (sameVersion expected) (ac_actions d).

Section ActionStore.
Context (sqlFails : nat -> bool).

Abbreviation MAct := (M actionDB).
Abbreviation sql := (statement sqlFails).

(** ** Reading *)

Definition readAction (find : actionDB -> option SecureActionRecord) : MAct SecureActionRecord :=
  run! sql ErrScanAction id in
  let! d := getS in
  match find d with
  | None => failM ErrSecureActionNotFound
  | Some record => retM record
  end.
Definition GetSecureAction (id_ : string) : MAct SecureActionRecord := readAction (actionByID id_).
Definition GetSecureActionByRequestID (requestID : string) : MAct SecureActionRecord := readAction (actionByRequest requestID).
Definition GetSecureActionByOperationID (operationID : string) : MAct SecureActionRecord := readAction (actionByOperation operationID).

Definition ListSecureActions (formatTime : time -> string) (decision : string) (limit : Z) : MAct (list SecureActionRecord) :=
  let limit := if (limit <=? 0) || (200 <? limit) then 100 else limit in
  run! sql ErrListActions id in
  let! d := getS in
  let rows := List.filter (fun r => eqs decision EmptyString || eqs (SA_Decision r) decision) (ac_actions d) in
  retM (take (Z.to_nat limit) (merge_sort (actionOrder formatTime) rows)).

Definition CountSecureActionsByDecision (decision : string) : MAct Z :=
  run! sql ErrCountActions id in
  let! d := getS in
  retM (rowsWhere (fun r => eqs (SA_Decision r) decision) (ac_actions d)).

(** The index on ends allows one for each action, so the order of the rows
    does not matter. *)
Definition GetSecureActionExecutionState (actionID : string) : MAct SecureActionExecutionState :=
  run! sql ErrReadExecution id in
  let! d := getS in
  retM (mkExecution (startedIn actionID d)
    match last (List.filter (terminalEvent actionID) (ac_events d)) with Some e => AEvent_lifecycle e | None => EmptyString end).

Definition GetSecureActionAuditEvent (eventID : string) : MAct SecureActionAuditEventRecord :=
  run! sql ErrReadActionEvent id in
  let! d := getS in
  match actionEventByID eventID d with
  | None => failM ErrSecureActionNotFound
  | Some e => retM (mkActionAudit (AEvent_action_id e) (AEvent_request_digest e))
  end.

(** ** Changes *)

Definition createActionBody (record : SecureActionRecord) : MAct unit :=
  let! d := getS in
  if existsb (fun r => eqs (SA_ID r) (SA_ID record) || eqs (SA_RequestID r) (SA_RequestID record) || eqs (SA_OperationID r) (SA_OperationID record))
       (ac_actions d) then failM ErrCreateAction else
  sql ErrCreateAction (fun d => setActions (ac_actions d ++ [record]) d).

Definition CreateSecureActionWithAudit (record : SecureActionRecord) : AuditedMutation (D := actionDB) :=
  withAudit sqlFails ErrBeginAction ErrCommitAction (createActionBody record).

Definition swapActionBody (expected next : SecureActionRecord) : MAct unit :=
  let! d := getS in
  let count := rowsWhere (swappable expected d) (ac_actions d) in
  run! sql ErrUpdateAction (fun d => setActions (updateWhere (swappable expected d) (swappedAction next) (ac_actions d)) d) in
  run! sql ErrActionUpdateCount id in
  if negb (count =? 1) then failM ErrSecureActionConflict else retM tt.

Definition CompareAndSwapSecureActionWithAudit (expected next : SecureActionRecord) : AuditedMutation (D := actionDB) := fun entry =>
  if negb (eqs (SA_ID expected) (SA_ID next)) || negb (RequestMatches expected (SA_RequestJSON next)) then failM ErrSecureActionConflict else
  withAudit sqlFails ErrBeginActionUpdate ErrCommitActionUpdate (swapActionBody expected next) entry.

(** The use of the decision at the start of an execution: a one-time grant is
    consumed. *)
Definition consumeGrant (record : SecureActionRecord) (now : time) : MAct unit :=
  if eqs (SA_Decision record) decisionALLOW then retM tt else
  if eqs (SA_Decision record) decisionALLOW_ONCE then
    match SA_ReleasedAt record, SA_BypassExpiresAt record with
    | None, Some expiry =>
        if negb (now <? expiry) then failM ErrOneTimeGrantConsumed else
        let! d := getS in
        let count := rowsWhere (releasableAction (SA_ID record)) (ac_actions d) in
        run! sql ErrConsumeGrant (fun d => setActions (updateWhere (releasableAction (SA_ID record)) (releasedAction now) (ac_actions d)) d) in
        run! sql ErrOneTimeGrantConsumed id in
        if negb (count =? 1) then failM ErrOneTimeGrantConsumed else retM tt
    | _, _ => failM ErrOneTimeGrantConsumed
    end
  else failM ErrOneTimeGrantConsumed.

(** The executions of an action, in the order the code asks for them. *)
Definition checkHistory (record : SecureActionRecord) (lifecycle : string) (occurredAt : time) : MAct unit :=
  if negb (executionLifecycle lifecycle) then retM tt else
  if negb (eqs (SA_Decision record) decisionALLOW) && negb (eqs (SA_Decision record) decisionALLOW_ONCE) then failM ErrInvalidActionLifecycle else
  run! sql ErrReadHistory id in
  let! d := getS in
  let '(starts, terminals, startedAt) := executionHistory (SA_ID record) d in
  if eqs lifecycle executionStarted then
    if negb (starts =? 0) || negb (terminals =? 0) then failM ErrInvalidActionLifecycle else retM tt
  else
    if negb (starts =? 1) || negb (terminals =? 0) || (occurredAt <? startedAt) then failM ErrInvalidActionLifecycle else retM tt.

Definition insertActionEvent (e : actionEvent) (expected : SecureActionRecord) (nodeID : string) : MAct unit :=
  let! d := getS in
  let selected := selectedActions expected nodeID (AEvent_lifecycle e) d in
  if negb (len selected =? 0) && eventTaken e d then failM ErrInvalidActionLifecycle else
  run! sql ErrRecordEvent (fun d => if len selected =? 0 then d else setActionEvents (ac_events d ++ [e]) d) in
  run! sql ErrInspectActionEvent id in
  if negb (len selected =? 1) then failM ErrSecureActionConflict else retM tt.

Definition lifecycleBody (e : actionEvent) (expected : SecureActionRecord) (nodeID : string) (now : time) : MAct unit :=
  run! sql ErrReadLifecycle id in
  let! d := getS in
  match actionByID (SA_ID expected) d with
  | None => failM ErrSecureActionNotFound
  | Some record =>
      run! checkHistory record (AEvent_lifecycle e) (AEvent_occurred_at e) in
      run! insertActionEvent e expected nodeID in
      if eqs (AEvent_lifecycle e) executionStarted then consumeGrant record now else retM tt
  end.

Definition AppendSecureActionLifecycleWithAudit (eventID : string) (expected : SecureActionRecord) (nodeID lifecycle : string)
    (requestDigest : list Z) (occurredAt now : time) : AuditedMutation (D := actionDB) := fun entry =>
  if negb (len requestDigest =? sha256_Size) then failM ErrActionDigest else
  if eqs (SA_ID expected) EmptyString || eqs nodeID EmptyString then failM ErrSecureActionConflict else
  withAudit sqlFails ErrBeginLifecycle ErrCommitLifecycle
    (lifecycleBody (mkActionEvent eventID (SA_ID expected) lifecycle occurredAt requestDigest) expected nodeID now) entry.

End ActionStore.

(** No actions yet, and an empty event log. *)
Definition noActions (c : DB) : actionDB := mkActionDB [] [] c.
