(* ===== verification/ActionDecisions.v ===== *)
(** * Decisions of the action gate of Core (core/server/actions.go, types.go)

    What Core says of a protected action from its request, the posture of its
    node and the policy: the messages, the policy that applies, the decision,
    the grant of a one-time authorization and what is read back from the
    database. The state of the gate and its operations are in ActionServer.v.

    [encoding/json] and the text of a time are the class [ActionCodec]. *)

From S2P Require Import Prelude Sha256 Digest Library Probe Contract Plan Policy Posture JournalFile Events EventIngest Gate ActionStore.
From stdpp Require Import base gmap list strings sorting.
From Stdlib Require Import ZArith Lia.

Open Scope Z_scope.

(** ** Messages (types.go) *)

Record secureActionRequest : Type := mkSecureAction {
  SReq_ID : string;
  SReq_ApplicationID : string;
  SReq_NodeID : string;
  SReq_ActionType : string;
  SReq_Destinations : list string;
  SReq_DataClass : string;
  SReq_Sensitivity : string;
  SReq_Deadline : string;
  SReq_OperationID : string;
}.

Definition withDeadline (deadline : string) (q : secureActionRequest) : secureActionRequest :=
  mkSecureAction (SReq_ID q) (SReq_ApplicationID q) (SReq_NodeID q) (SReq_ActionType q) (SReq_Destinations q) (SReq_DataClass q)
    (SReq_Sensitivity q) deadline (SReq_OperationID q).

Record authorizeRequest : Type := mkAuthorize {
  Authorize_ActionID : string;
  Authorize_OperationID : string;
  Authorize_AuthorizedDestinations : list string;
  Authorize_ExpiresAt : string;
  Authorize_ConsentReasonCode : string;
}.

Record auditEventRequest : Type := mkAuditEvent {
  AReq_EventID : string;
  AReq_Lifecycle : string;
  AReq_OccurredAt : string;
  AReq_ActionID : string;
  AReq_RequestID : string;
  AReq_Decision : string;
  AReq_TraceID : string;
  AReq_PolicyRevision : Z;
  AReq_ReasonCodes : list string;
  AReq_Details : list (string * pbValue);
}.

Record protectionView : Type := mkPView {
  PView_State : string;
  PView_ObservedAt : string;
  PView_ValidUntil : string;
  PView_NetworkTrust : string;
  PView_MeshConnected : option bool;
  PView_ApprovedExitActive : option bool;
  PView_DNSProtected : option bool;
  PView_RouteProtected : option bool;
  PView_ReasonCodes : list string;
  PView_PolicyRevision : Z;
  PView_NodeID : string;
  PView_EvidenceClass : string;
  PView_EvidenceProvenance : string;
  PView_Confidence : Z;             (** the bits of the [float32] *)
}.

Record auditMetadata : Type := mkAuditMetadata {
  Meta_TraceID : string;
  Meta_DecisionID : string;
  Meta_PolicyRevision : Z;
  Meta_EvaluatedAt : string;
  Meta_AgentID : string;
  Meta_EvidenceClass : string;
}.

Record authorizationScope : Type := mkAuthScope {
  AScope_ID : string;
  AScope_ApplicationID : string;
  AScope_NodeID : string;
  AScope_OperationID : string;
  AScope_ActionType : string;
  AScope_DataClass : string;
  AScope_Sensitivity : string;
  AScope_Destinations : list string;
}.

Record holdView : Type := mkHold { Hold_ReleaseWhen : string; Hold_ExpiresAt : string }.
Record consentView : Type := mkConsent { Consent_Prompt : string; Consent_ExpiresAt : string; Consent_Scope : authorizationScope }.

Record authorizationView : Type := mkAuthorization {
  Auth_GrantID : string;
  Auth_Token : string;
  Auth_Scope : authorizationScope;
  Auth_IssuedAt : string;
  Auth_ExpiresAt : string;
  Auth_RemainingUses : Z;
}.

Record decisionView : Type := mkDecisionView {
  DView_Decision : string;
  DView_ActionID : string;
  DView_Protection : protectionView;
  DView_ReasonCodes : list string;
  DView_ExpiresAt : string;
  DView_UserMessage : string;
  DView_Authorization : option authorizationView;
  DView_Hold : option holdView;
  DView_Consent : option consentView;
  DView_Audit : auditMetadata;
}.

Record postureReport : Type := mkReport {
  Report_NodeID : string;
  Report_State : string;
  Report_ObservedAt : string;
  Report_ValidUntil : string;
  Report_NetworkTrust : string;
  Report_MeshConnected : option bool;
  Report_ApprovedExitActive : option bool;
  Report_DNSProtected : option bool;
  Report_RouteProtected : option bool;
  Report_ReasonCodes : list string;
  Report_PolicyRevision : Z;
  Report_VerificationEventIDs : list string;
  Report_EvidenceClass : string;
  Report_EvidenceProvenance : string;
  Report_Confidence : Z;
}.

Definition postureReport_view (r : postureReport) : protectionView :=
  mkPView (Report_State r) (Report_ObservedAt r) (Report_ValidUntil r) (Report_NetworkTrust r) (Report_MeshConnected r)
    (Report_ApprovedExitActive r) (Report_DNSProtected r) (Report_RouteProtected r) (Report_ReasonCodes r) (Report_PolicyRevision r)
    (Report_NodeID r) (Report_EvidenceClass r) (Report_EvidenceProvenance r) (Report_Confidence r).

(** The policy of a protected action, and the protection section of the
    configuration (core/config/config.go). *)
Record ProtectedActionPolicyConfig : Type := mkActionPolicy {
  APolicy_NodeIDs : list string;
  APolicy_ApplicationIDs : list string;
  APolicy_ActionTypes : list string;
  APolicy_DataClasses : list string;
  APolicy_Sensitivities : list string;
  APolicy_AllowedDestinations : list string;
  APolicy_ConsentRequired : bool;
}.

Record ProtectionConfig : Type := mkProtectionConfig {
  PConfig_TelemetryStaleAfter : Z;
  PConfig_RequireMeshOnUntrusted : bool;
  PConfig_AllowOneTimeBypass : bool;
  PConfig_OneTimeBypassTTL : Z;
  PConfig_ProtectedActions : list ProtectedActionPolicyConfig;
}.

(** The caller (auth.go). *)
Record principal : Type := mkPrincipal {
  Principal_ID : string;
  Principal_Scopes : list string;
  Principal_NodeID : string;
  Principal_ApplicationID : string;
  Principal_ExpiresAt : time;
  Principal_RequireMTLS : bool;
}.

Definition hasScope (value : principal) (scope : string) : bool := containsValue (Principal_Scopes value) scope.

Definition allowsAction (value : principal) (q : secureActionRequest) : bool :=
  (eqs (Principal_ApplicationID value) EmptyString || eqs (Principal_ApplicationID value) (SReq_ApplicationID q))
  && (eqs (Principal_NodeID value) EmptyString || eqs (Principal_NodeID value) (SReq_NodeID q)).

(** ** Encoding *)

(** The members of a grant's payload. *)
Record grantPayload : Type := mkGrantPayload {
  Payload_ActionID : string;
  Payload_ApplicationID : string;
  Payload_NodeID : string;
  Payload_OperationID : string;
  Payload_ActionType : string;
  Payload_DataClass : string;
  Payload_Sensitivity : string;
  Payload_Destinations : list string;
  Payload_ExpiresAt : string;
  Payload_Uses : Z;
}.

Definition payloadTexts (p : grantPayload) : list string :=
  [Payload_ActionID p; Payload_ApplicationID p; Payload_NodeID p; Payload_OperationID p; Payload_ActionType p; Payload_DataClass p;
   Payload_Sensitivity p; Payload_ExpiresAt p] ++ Payload_Destinations p.

Definition requestTexts (q : secureActionRequest) : list string :=
  [SReq_ID q; SReq_ApplicationID q; SReq_NodeID q; SReq_ActionType q; SReq_DataClass q; SReq_Sensitivity q; SReq_Deadline q; SReq_OperationID q]
  ++ SReq_Destinations q.

(** [json.Marshal] of a structure of strings gives it back when they are valid
    UTF-8 (of a decision only its word is used), the payload of a grant determines its members then, and an instant
    of a four-digit year has a text that is parsed back. A report is marshalled
    without the three members that are tagged with a dash. *)
Class ActionCodec : Type := {
  formatNano : time -> string;
  parseNano : string -> option time;
  actionMarshal : secureActionRequest -> option string;
  actionUnmarshal : string -> option secureActionRequest;
  decisionMarshal : decisionView -> option string;
  decisionUnmarshal : string -> option decisionView;
  auditEventMarshal : auditEventRequest -> option (list Z);
  payloadMarshal : grantPayload -> list Z;
  reportMarshal : postureReport -> option (list Z);
  parse_format : forall t, fourDigitYear t -> parseNano (formatNano t) = Some t;
  action_roundtrip : forall q s, Forall utf8 (requestTexts q) -> actionMarshal q = Some s -> actionUnmarshal s = Some q;
  decision_word : forall v s v', utf8 (DView_Decision v) -> decisionMarshal v = Some s -> decisionUnmarshal s = Some v' -> DView_Decision v' = DView_Decision v;
  payload_inj : forall p q, Forall utf8 (payloadTexts p) -> Forall utf8 (payloadTexts q) -> payloadMarshal p = payloadMarshal q -> p = q;
}.

(** ** Errors *)

Definition ErrActionIdentifiers : error := errorsNew "secure action identifiers and type fields are required".
Definition ErrActionDestinationCount : error := errorsNew "secure action requires between one and 32 destinations".
Definition ErrActionDestinationText : error := errorsNew "secure action destination is invalid".
Definition ErrActionDestinationUnique : error := errorsNew "secure action destinations must be unique".
Definition ErrActionSensitivity : error := errorsNew "secure action sensitivity is invalid".
Definition ErrActionDeadlineRequired : error := errorsNew "secure action deadline is required".
Definition ErrActionDeadlineText : error := errorsNew "secure action deadline must be RFC3339".
Definition ErrActionDeadlineFar : error := errorsNew "secure action deadline exceeds 24 hours".
Definition ErrStoredDecision : error := errorsNew "stored secure action decision is invalid".
Definition ErrStoredExpiry : error := errorsNew "stored authorization expiry is invalid".
Definition ErrStoredIssue : error := errorsNew "stored authorization issue time is invalid".

(** ** The request *)

Definition actionBounded (value : string) (maximum : Z) : bool := boundedString value maximum.

Definition actionSensitivities : list string :=
  ["SENSITIVITY_PUBLIC"; "SENSITIVITY_INTERNAL"; "SENSITIVITY_OPERATOR_PRIVATE"; "SENSITIVITY_RESTRICTED"]%string.

Fixpoint validateDestinations (seen destinations : list string) : result unit :=
  match destinations with
  | [] => Ok tt
  | destination :: rest =>
      reject negb (actionBounded destination 512) with ErrActionDestinationText;
      reject containsValue seen destination with ErrActionDestinationUnique;
      validateDestinations (destination :: seen) rest
  end.

Definition validReasonByte (first : bool) (b : Z) : bool :=
  ((0x41 <=? b) && (b <=? 0x5a)) || ((0x30 <=? b) && (b <=? 0x39))
  || (negb first && ((b =? 0x5f) || (b =? 0x2d) || (b =? 0x2e))).

(** The loop over the runes: a rune of two or more bytes has no allowed byte. *)
Definition actionReasonCode (value : string) : bool :=
  actionBounded value 128
  && match bytes_of value with
     | [] => true
     | b :: rest => validReasonByte true b && forallb (validReasonByte false) rest
     end.

(** ** The policy *)

Definition policyValueMatches (values : list string) (wanted : string) : bool :=
  existsb (fun value => eqs value "*" || eqs value wanted) values.

Definition policyCovers (p : ProtectedActionPolicyConfig) (q : secureActionRequest) : bool :=
  policyValueMatches (APolicy_NodeIDs p) (SReq_NodeID q) && policyValueMatches (APolicy_ApplicationIDs p) (SReq_ApplicationID q)
  && policyValueMatches (APolicy_ActionTypes p) (SReq_ActionType q) && policyValueMatches (APolicy_DataClasses p) (SReq_DataClass q)
  && policyValueMatches (APolicy_Sensitivities p) (SReq_Sensitivity q).

Definition DestinationOutsidePolicy : string := "AF-DESTINATION-OUTSIDE-POLICY".
Definition ActionOutsidePolicy : string := "AF-ACTION-OUTSIDE-POLICY".
Definition DeadlineExpired : string := "AF-ACTION-DEADLINE-EXPIRED".
Definition GrantConsumed : string := "AF-ONE-TIME-GRANT-CONSUMED".
Definition NodeNotActive : string := "AF-NODE-NOT-ACTIVE".

(** The loop over the policies: the first that covers the request and all its
    destinations, or the denial. *)
Fixpoint actionPolicyLoop (policies : list ProtectedActionPolicyConfig) (destinationDenied : bool) (q : secureActionRequest)
    : ProtectedActionPolicyConfig + string :=
  match policies with
  | [] => inr (if destinationDenied then DestinationOutsidePolicy else ActionOutsidePolicy)
  | p :: rest =>
      if negb (policyCovers p q) then actionPolicyLoop rest destinationDenied q else
      if forallb (policyValueMatches (APolicy_AllowedDestinations p)) (SReq_Destinations q) then inl p
      else actionPolicyLoop rest true q
  end.

Definition actionPolicy (protection : ProtectionConfig) (q : secureActionRequest) : ProtectedActionPolicyConfig + string :=
  actionPolicyLoop (PConfig_ProtectedActions protection) false q.

Definition actionPolicyDenial (protection : ProtectionConfig) (q : secureActionRequest) : string :=
  match actionPolicy protection q with inl _ => EmptyString | inr denial => denial end.

(** ** Decisions *)

Definition decisionHOLD : string := "HOLD".
Definition decisionBLOCK : string := "BLOCK".
Definition decisionREQUIRE_CONSENT : string := "REQUIRE_CONSENT".

Definition oneTimeEligible (decision : decisionView) : bool :=
  containsValue [decisionHOLD; decisionREQUIRE_CONSENT; decisionBLOCK] (DView_Decision decision)
  && forallb (fun code => negb (containsValue (DView_ReasonCodes decision) code))
       [ActionOutsidePolicy; DestinationOutsidePolicy; DeadlineExpired; GrantConsumed; NodeNotActive].

Definition decisionEquivalent (left right : decisionView) : bool :=
  let l := DView_Protection left in let r := DView_Protection right in
  eqs (DView_Decision left) (DView_Decision right) && eqs (PView_State l) (PView_State r) && eqs (PView_ObservedAt l) (PView_ObservedAt r)
  && eqs (PView_ValidUntil l) (PView_ValidUntil r) && (PView_PolicyRevision l =? PView_PolicyRevision r)
  && eqs (PView_EvidenceProvenance l) (PView_EvidenceProvenance r) && sameStrings (DView_ReasonCodes left) (DView_ReasonCodes right).

Definition evidenceClassFor (posture : protectionView) : string :=
  if eqs (PView_EvidenceClass posture) EmptyString then "UNKNOWN" else PView_EvidenceClass posture.

Definition scopeOf (q : secureActionRequest) : authorizationScope :=
  mkAuthScope (SReq_ID q) (SReq_ApplicationID q) (SReq_NodeID q) (SReq_OperationID q) (SReq_ActionType q) (SReq_DataClass q)
    (SReq_Sensitivity q) (SReq_Destinations q).

Section Decisions.
Context {H : Hasher} {JC : ActionCodec}.

Definition unknownPosture (nodeID : string) (now : time) (reason : string) : protectionView :=
  mkPView "UNKNOWN" (formatNano now) (formatNano now) "UNKNOWN" None None None None [reason] 0 nodeID "UNKNOWN" provenanceUnknown 0.

Definition decisionBase (q : secureActionRequest) (posture : protectionView) (decision : string) (reasons : list string) (now : time) : decisionView :=
  mkDecisionView decision (SReq_ID q) posture reasons EmptyString EmptyString None None None
    (mkAuditMetadata (SReq_OperationID q) (SReq_OperationID q +:+ ":" +:+ decision +:+ ":" +:+ SReq_ID q)
       (PView_PolicyRevision posture) (formatNano now) (SReq_NodeID q) (evidenceClassFor posture)).

Definition withExpiry (expiresAt : string) (hold : option holdView) (consent : option consentView) (d : decisionView) : decisionView :=
  mkDecisionView (DView_Decision d) (DView_ActionID d) (DView_Protection d) (DView_ReasonCodes d) expiresAt (DView_UserMessage d)
    (DView_Authorization d) hold consent (DView_Audit d).

(** The earlier of the deadline and two minutes from now. *)
Definition boundedExpiry (deadline now : time) : time := if now + 2 * Minute <? deadline then now + 2 * Minute else deadline.

Definition actionGate_decide (protection : ProtectionConfig) (q : secureActionRequest) (posture : protectionView) (deadline now : time) : decisionView :=
  match actionPolicy protection q with
  | inr denial => decisionBase q posture decisionBLOCK [denial] now
  | inl policy =>
      if negb (now <? deadline) then decisionBase q posture decisionBLOCK [DeadlineExpired] now else
      if eqs (PView_State posture) "PROTECTED" then
        if APolicy_ConsentRequired policy then
          let expiresAt := formatNano (boundedExpiry deadline now) in
          withExpiry expiresAt None (Some (mkConsent "Authorize this exact action scope once?" expiresAt (scopeOf q)))
            (decisionBase q posture decisionREQUIRE_CONSENT ["AF-EXPLICIT-CONSENT-REQUIRED"%string] now)
        else decisionBase q posture decisionALLOW (PView_ReasonCodes posture) now
      else
        let expiresAt := formatNano (boundedExpiry deadline now) in
        withExpiry expiresAt (Some (mkHold "PROTECTION_RESTORED" expiresAt)) None
          (decisionBase q posture decisionHOLD (PView_ReasonCodes posture) now)
  end.

Definition decideForNode (protection : ProtectionConfig) (q : secureActionRequest) (posture : protectionView) (nodeActive : bool) (deadline now : time)
    : decisionView :=
  if negb nodeActive then decisionBase q posture decisionBLOCK [NodeNotActive] now else actionGate_decide protection q posture deadline now.

(** [validateAction], at an instant of the clock. *)
Definition validateAction (q : secureActionRequest) (now : time) : result time :=
  reject negb (actionBounded (SReq_ID q) 128) || negb (actionBounded (SReq_ApplicationID q) 128) || negb (actionBounded (SReq_NodeID q) 128)
         || negb (actionBounded (SReq_ActionType q) 128) || negb (actionBounded (SReq_DataClass q) 128)
         || negb (actionBounded (SReq_OperationID q) 128) with ErrActionIdentifiers;
  reject (len (SReq_Destinations q) =? 0) || (32 <? len (SReq_Destinations q)) with ErrActionDestinationCount;
  ensure validateDestinations [] (SReq_Destinations q);
  reject negb (containsValue actionSensitivities (SReq_Sensitivity q)) with ErrActionSensitivity;
  reject eqs (SReq_Deadline q) EmptyString with ErrActionDeadlineRequired;
  match parseNano (SReq_Deadline q) with
  | None => Err ErrActionDeadlineText
  | Some deadline =>
      reject now + 24 * Hour <? deadline with ErrActionDeadlineFar;
      Ok deadline
  end.

(** ** Grants *)

Definition grantPayloadOf (q : secureActionRequest) (expiresAt : time) : grantPayload :=
  mkGrantPayload (SReq_ID q) (SReq_ApplicationID q) (SReq_NodeID q) (SReq_OperationID q) (SReq_ActionType q) (SReq_DataClass q)
    (SReq_Sensitivity q) (sort_strings (SReq_Destinations q)) (formatNano expiresAt) 1.

Definition makeAuthorization (key : list Z) (q : secureActionRequest) (expiresAt issuedAt : time) : authorizationView :=
  let payload := payloadMarshal (grantPayloadOf q expiresAt) in
  mkAuthorization (SReq_ID q +:+ ":" +:+ SReq_OperationID q)
    ("af_grant_v1." +:+ base64url payload +:+ "." +:+ base64url (hmac256 key payload)) (scopeOf q) (formatNano issuedAt) (formatNano expiresAt) 1.

Definition withAuthorizationView (a : option authorizationView) (d : decisionView) : decisionView :=
  mkDecisionView (DView_Decision d) (DView_ActionID d) (DView_Protection d) (DView_ReasonCodes d) (DView_ExpiresAt d) (DView_UserMessage d)
    a (DView_Hold d) (DView_Consent d) (DView_Audit d).

(** The grant without its token, as it is stored. *)
Definition withoutToken (a : authorizationView) : authorizationView :=
  mkAuthorization (Auth_GrantID a) EmptyString (Auth_Scope a) (Auth_IssuedAt a) (Auth_ExpiresAt a) (Auth_RemainingUses a).

Definition decodeStoredDecision (record : SecureActionRecord) (q : secureActionRequest) (key : list Z) : result decisionView :=
  match decisionUnmarshal (SA_DecisionJSON record) with
  | None => Err ErrStoredDecision
  | Some decision =>
      if eqs (DView_Decision decision) decisionALLOW_ONCE
         && match DView_Authorization decision with None => true | Some a => eqs (Auth_Token a) EmptyString end
      then
        match parseNano (DView_ExpiresAt decision) with
        | None => Err ErrStoredExpiry
        | Some expiresAt =>
            match parseNano (Meta_EvaluatedAt (DView_Audit decision)) with
            | None => Err ErrStoredIssue
            | Some issuedAt => Ok (withAuthorizationView (Some (makeAuthorization key q expiresAt issuedAt)) decision)
            end
        end
      else Ok decision
  end.

(** ** The posture a report stands for *)

Definition postureView (staleAfter : Z) (postures : gmap string postureReport) (nodeID : string) (now : time) : protectionView :=
  match postures !! nodeID with
  | None => unknownPosture nodeID now "AF-POSTURE-UNAVAILABLE"
  | Some report =>
      match parseNano (Report_ValidUntil report), parseNano (Report_ObservedAt report) with
      | Some validUntil, Some observedAt =>
          if negb (now <? validUntil) || (staleAfter <? Sub now observedAt) then unknownPosture nodeID now "AF-TELEMETRY-STALE"
          else postureReport_view report
      | _, _ => unknownPosture nodeID now "AF-TELEMETRY-STALE"
      end
  end.

End Decisions.
