(* ===== verification/ActionServer.v ===== *)
(** * The action gate of Core (core/server/actions.go)

    The operations that evaluate a protected action, authorize it once and
    record its execution, over the audit service and the tables of
    ActionStore.v. The gate keeps the last posture report of each node in
    memory under a lock; an operation here is one run of the handler, with the
    failures of the database and of the system as in AuditService.v.

    An operation answers an HTTP status with a value or an error. [wait] and
    the handlers that decode a request and encode the answer are not here. *)

From S2P Require Import Prelude Library Directory Sha256 Digest Probe Contract Plan Policy Posture JournalFile Events EventStore EventIngest Gate Findings AuditStore AuditService ActionStore ActionDecisions.
From stdpp Require Import base gmap list strings sorting.
From Stdlib Require Import ZArith Lia.

Open Scope Z_scope.

(** ** State *)

Record actionGate : Type := mkActionGate {
  AGate_deploymentID : string;
  AGate_protection : ProtectionConfig;
  AGate_postureEngine : Z;          (** its freshness window *)
  AGate_authorizationKey : list Z;
  AGate_simulation : bool;
}.

Definition ErrGateDependencies : error := errorsNew "action gate database, audit, posture, findings, and deployment id are required".
Definition ErrAuthorizationKey : error := errorsNew "one-time authorization key must contain at least 32 bytes".

Definition newActionGate (deploymentID : string) (protection : ProtectionConfig) (authorizationKey : list Z) (postureEngine : Z) (simulation : bool)
    : result actionGate :=
  reject eqs deploymentID EmptyString with ErrGateDependencies;
  reject len authorizationKey <? 32 with ErrAuthorizationKey;
  Ok (mkActionGate deploymentID protection postureEngine authorizationKey simulation).

(** The world of the gate: the database and the audit log, the reports it
    holds, the findings, and how often [updated] was closed. *)
Record gateWorld : Type := mkGateWorld {
  gw_audit : auditWorld actionDB;
  gw_postures : gmap string postureReport;
  gw_findings : FindingService;
  gw_updated : nat;
}.

Definition setGateAudit (a : auditWorld actionDB) (w : gateWorld) : gateWorld := mkGateWorld a (gw_postures w) (gw_findings w) (gw_updated w).
Definition setPostures (p : gmap string postureReport) (w : gateWorld) : gateWorld := mkGateWorld (gw_audit w) p (gw_findings w) (S (gw_updated w)).
Definition setFindings (f : FindingService) (w : gateWorld) : gateWorld := mkGateWorld (gw_audit w) (gw_postures w) f (gw_updated w).

(** ** Answers *)

Record reply (A : Type) : Type := mkReply { reply_status : Z; reply_value : result A }.
Arguments mkReply {A}.
Arguments reply_status {A}.
Arguments reply_value {A}.

Definition StatusOK : Z := 200.
Definition StatusCreated : Z := 201.
Definition StatusNoContent : Z := 204.
Definition StatusBadRequest : Z := 400.
Definition StatusForbidden : Z := 403.
Definition StatusNotFound : Z := 404.
Definition StatusConflict : Z := 409.
Definition StatusInternalServerError : Z := 500.

Definition ErrActionScope : error := errorsNew "credential scope does not match the secure action".
Definition ErrActionEncode : error := errorsNew "json: unsupported value".
Definition ErrAuthorizeIDs : error := errorsNew "action and operation ids are required and must match the route".
Definition ErrAuthorizeConsent : error := errorsNew "explicit user consent is required".
Definition ErrAuthorizeExpiry : error := errorsNew "authorization expiry must be an RFC3339 timestamp".
Definition ErrAuthorizeWindow : error := errorsNew "authorization expiry exceeds the one-time bypass window".
Definition ErrAuthorizeDisabled : error := errorsNew "one-time bypass is disabled by policy".
Definition ErrStoredRequest : error := errorsNew "stored secure action request is invalid".
Definition ErrStoredDeadline : error := errorsNew "stored secure action deadline is invalid".
Definition ErrAuthorizeDeadline : error := errorsNew "authorization expiry exceeds the secure action deadline".
Definition ErrAuthorizeNode : error := errorsNew "one-time authorization is unavailable while the action node is not active".
Definition ErrAuthorizeScope : error := errorsNew "authorization scope does not match the held action".
Definition ErrAuthorizeRetry : error := errorsNew "authorization retry changed the expiry".
Definition ErrAuthorizeDecision : error := errorsNew "the action is not eligible for a one-time authorization".
Definition ErrAuthorizePolicy : error := errorsNew "one-time authorization cannot expand the active protected action policy".
Definition ErrAuthorizeEligible : error := errorsNew "the committed decision is not eligible for a one-time authorization".
Definition ErrLifecycleEvent : error := errorsNew "action audit event is invalid".
Definition ErrLifecycleTime : error := errorsNew "action audit occurrence time must be RFC3339 and within the allowed clock skew".
Definition ErrLifecycleLimits : error := errorsNew "action audit event exceeds metadata limits".
Definition ErrLifecycleReason : error := errorsNew "action audit reason code is invalid".
Definition ErrLifecycleReasons : error := errorsNew "action audit reason codes must be unique".
Definition ErrLifecycleMetadata : error := errorsNew "action audit metadata is invalid or too large".
Definition ErrLifecycleReplay : error := errorsNew "execution-start audit was already accepted; a replay cannot authorize callback execution".
Definition ErrLifecycleNode : error := errorsNew "secure action node is not active".
Definition ErrLifecycleDecision : error := errorsNew "action audit event does not match the committed action decision".
Definition ErrLifecycleRevision : error := errorsNew "action audit policy revision does not match the committed decision".
Definition ErrLifecycleDeadline : error := errorsNew "secure action deadline expired before execution start".
Definition ErrLifecycleStale : error := errorsNew "secure action decision is no longer fresh; re-evaluation is required".

Definition validActionAuditLifecycles : list string :=
  ["SDK_DECISION_RECEIVED"; "SDK_HOLD_WAIT_STARTED"; "SDK_PROTECTION_RESTORED"; "SDK_CONSENT_DECLINED"; "SDK_ACTION_EXECUTION_STARTED";
   "SDK_ACTION_EXECUTION_SUCCEEDED"; "SDK_ACTION_EXECUTION_FAILED"]%string.
Definition validActionAuditDecisions : list string := ["ALLOW"; "HOLD"; "BLOCK"; "REQUIRE_CONSENT"; "ALLOW_ONCE"]%string.

(** The details of an audit entry. *)
Inductive actionDetail : Type :=
| ActionText_ (s : string)
| ActionTexts (l : list string)
| ActionNumber (n : Z)
| ActionMetadata (m : list (string * pbValue)).

(** What a call's context carries of the caller. *)
Definition principalFromContext (value : option principal) : principal :=
  match value with
  | Some p => if eqs (Principal_ID p) EmptyString
              then mkPrincipal "unknown-principal" (Principal_Scopes p) (Principal_NodeID p) (Principal_ApplicationID p) (Principal_ExpiresAt p) (Principal_RequireMTLS p)
              else p
  | None => mkPrincipal "unknown-principal" [] EmptyString EmptyString zeroTime false
  end.

Section ActionServer.
Context {H : Hasher} {E : Ed25519} {AC : AuditCodec} {JC : ActionCodec}.
Context (sqlFails sysFails : nat -> bool) (torn : nat -> nat) (contention : nat -> nat * bool) (fsyncLinks : bool).
Context (wall auditClock clock : clockT) (newID : nat -> string) (toLower : string -> string).
Context (marshalDetails : list (string * actionDetail) -> option string).
Context (gate : actionGate) (service : Service).

Abbreviation MG := (M gateWorld).
Abbreviation database := (fun m => zoom gw_audit setGateAudit (zoom aw_tables setTables (zoom core_domain setDomain m))).
Abbreviation append ctx q mutation := (zoom gw_audit setGateAudit
  (AppendWithMutation sqlFails sysFails torn contention fsyncLinks wall auditClock newID marshalDetails service ctx q (Some mutation))).

Definition respond {A : Type} (status : Z) (a : A) : MG (reply A) := retM (mkReply status (Ok a)).
Definition refuse {A : Type} (status : Z) (e : error) : MG (reply A) := retM (mkReply status (Err e)).

Abbreviation protection := (AGate_protection gate).
Abbreviation staleAfter := (PConfig_TelemetryStaleAfter protection).

(** [gate.posture], and with the status of the node. *)
Definition gate_posture (nodeID : string) (t : time) : MG protectionView :=
  let! w := getS in
  retM (postureView staleAfter (gw_postures w) nodeID t).

Definition actionPosture (nodeID : string) (t : time) : MG (protectionView * bool) :=
  let! node := database (zoom ac_core setActionCore (GetNode sqlFails nodeID)) in
  if negb (eqs (Node_Status node) NodeActive) then retM (unknownPosture nodeID t NodeNotActive, false) else
  let! posture := gate_posture nodeID t in
  retM (posture, true).

(** ** Evaluation *)

(** The record after a decision that differs from the stored one. *)
Definition redecidedAction (existing : SecureActionRecord) (fresh : decisionView) (encoded : string) (t : time) : SecureActionRecord :=
  mkActionRecord (SA_ID existing) (SA_RequestID existing) (SA_ApplicationID existing) (SA_OperationID existing) (DView_Decision fresh)
    (SA_RequestJSON existing) encoded (SA_CreatedAt existing) t
    (if eqs (DView_Decision fresh) decisionALLOW then Some t else None) None.

(** The operation is on record: its decision again, or a fresh one. *)
Definition reevaluate (ctx : ctxT) (actor : principal) (request : secureActionRequest) (canonical : string) (deadline : time)
    (posture : protectionView) (nodeActive : bool) (existing : SecureActionRecord) (t : time) : MG (reply decisionView) :=
  if negb (RequestMatches existing canonical) then refuse StatusConflict ErrSecureActionConflict else
  if eqs (SA_Decision existing) decisionALLOW_ONCE && isSome (SA_ReleasedAt existing) then refuse StatusConflict ErrOneTimeGrantConsumed else
  match decodeStoredDecision existing request (AGate_authorizationKey gate) with
  | Err e => refuse StatusInternalServerError e
  | Ok decision =>
      let grantExpired := match SA_BypassExpiresAt existing with Some expiry => negb (t <? expiry) | None => true end in
      if eqs (DView_Decision decision) decisionALLOW_ONCE && nodeActive && (t <? deadline) && negb grantExpired then respond StatusOK decision else
      let fresh := decideForNode protection request posture nodeActive deadline t in
      if decisionEquivalent decision fresh then
        respond StatusOK (if eqs (DView_Decision fresh) decisionALLOW then fresh else decision)
      else
        match decisionMarshal fresh with
        | None => refuse StatusInternalServerError ErrActionEncode
        | Some encoded =>
            let action := if eqs (DView_Decision decision) decisionHOLD && eqs (DView_Decision fresh) decisionALLOW
                          then "secure_action.release" else "secure_action.reevaluate" in
            let! updated := attempt (append ctx
              (mkAppend "PRINCIPAL" (Principal_ID actor) action "secure_action" (SReq_ID request) (DView_Decision fresh)
                [("operationId", ActionText_ (SReq_OperationID request)); ("policyRevision", ActionNumber (PView_PolicyRevision (DView_Protection fresh)));
                 ("priorDecision", ActionText_ (DView_Decision decision))])
              (CompareAndSwapSecureActionWithAudit sqlFails existing (redecidedAction existing fresh encoded t))) in
            match updated with
            | Ok _ => respond StatusOK fresh
            | Err e => if bool_decide (e = ErrSecureActionConflict) then refuse StatusConflict e else refuse StatusInternalServerError e
            end
        end
  end.

Definition decidedAction (request : secureActionRequest) (canonical : string) (decision : decisionView) (decisionJSON : string) (t : time) : SecureActionRecord :=
  mkActionRecord (SReq_ID request) (SReq_ID request) (SReq_ApplicationID request) (SReq_OperationID request) (DView_Decision decision)
    canonical decisionJSON t t None None.

(** The first decision of an operation. *)
Definition firstDecision (ctx : ctxT) (actor : principal) (request : secureActionRequest) (canonical : string) (deadline : time)
    (posture : protectionView) (nodeActive : bool) (t : time) : MG (reply decisionView) :=
  let decision := decideForNode protection request posture nodeActive deadline t in
  match decisionMarshal decision with
  | None => refuse StatusInternalServerError ErrActionEncode
  | Some decisionJSON =>
      let! created := attempt (append ctx
        (mkAppend "PRINCIPAL" (Principal_ID actor) "secure_action.evaluate" "secure_action" (SReq_ID request) (DView_Decision decision)
          [("operationId", ActionText_ (SReq_OperationID request)); ("reasonCodes", ActionTexts (DView_ReasonCodes decision))])
        (CreateSecureActionWithAudit sqlFails (decidedAction request canonical decision decisionJSON t))) in
      match created with
      | Ok _ => respond StatusCreated decision
      | Err e =>
          let! replayed := attempt (database (GetSecureActionByOperationID sqlFails (SReq_OperationID request))) in
          match replayed with
          | Ok record =>
              if RequestMatches record canonical
              then retM (mkReply StatusOK (decodeStoredDecision record request (AGate_authorizationKey gate)))
              else refuse StatusInternalServerError e
          | Err _ => refuse StatusInternalServerError e
          end
      end
  end.

Definition actionGate_evaluate (ctx : ctxT) (caller : option principal) (request : secureActionRequest) : MG (reply decisionView) :=
  let actor := principalFromContext caller in
  if negb (allowsAction actor request) then refuse StatusForbidden ErrActionScope else
  let! checked := now clock in
  match validateAction request checked with
  | Err e => refuse StatusBadRequest e
  | Ok deadline =>
      let request := withDeadline (formatNano deadline) request in
      match actionMarshal request with
      | None => refuse StatusInternalServerError ErrActionEncode
      | Some canonical =>
          let! t := now clock in
          let! read := attempt (actionPosture (SReq_NodeID request) t) in
          match read with
          | Err e => refuse StatusNotFound e
          | Ok (posture, nodeActive) =>
              let! found := attempt (database (GetSecureActionByOperationID sqlFails (SReq_OperationID request))) in
              match found with
              | Ok existing => reevaluate ctx actor request canonical deadline posture nodeActive existing t
              | Err e =>
                  if negb (bool_decide (e = ErrSecureActionNotFound)) then refuse StatusInternalServerError e
                  else firstDecision ctx actor request canonical deadline posture nodeActive t
              end
          end
      end
  end.

(** ** Authorization *)

Definition authorizedAction (record : SecureActionRecord) (decision : decisionView) (decisionJSON : string) (expiresAt t : time) : SecureActionRecord :=
  mkActionRecord (SA_ID record) (SA_RequestID record) (SA_ApplicationID record) (SA_OperationID record) (DView_Decision decision)
    (SA_RequestJSON record) decisionJSON (SA_CreatedAt record) t (SA_ReleasedAt record) (Some expiresAt).

(** The grant of a decision that may be authorized. *)
Definition grantOnce (ctx : ctxT) (actor : principal) (request : authorizeRequest) (record : SecureActionRecord) (original : secureActionRequest)
    (posture : protectionView) (expiresAt t : time) : MG (reply decisionView) :=
  let key := AGate_authorizationKey gate in
  let granted := withExpiry (formatNano expiresAt) None None (decisionBase original posture decisionALLOW_ONCE ["USER_AUTHORIZED_ONCE"%string] t) in
  let authorization := makeAuthorization key original expiresAt t in
  let decision := withAuthorizationView (Some authorization) granted in
  match decisionMarshal (withAuthorizationView (Some (withoutToken authorization)) granted) with
  | None => refuse StatusInternalServerError ErrActionEncode
  | Some decisionJSON =>
      let! updated := attempt (append ctx
        (mkAppend "PRINCIPAL" (Principal_ID actor) "secure_action.authorize_once" "secure_action" (Authorize_ActionID request) decisionALLOW_ONCE
          [("operationId", ActionText_ (Authorize_OperationID request)); ("expiresAt", ActionText_ (DView_ExpiresAt decision))])
        (CompareAndSwapSecureActionWithAudit sqlFails record (authorizedAction record decision decisionJSON expiresAt t))) in
      match updated with
      | Ok _ => respond StatusOK decision
      | Err e =>
          if bool_decide (e = ErrSecureActionConflict) then
            let! current := attempt (database (GetSecureAction sqlFails (Authorize_ActionID request))) in
            match current with
            | Ok current =>
                if eqs (SA_Decision current) decisionALLOW_ONCE && negb (isSome (SA_ReleasedAt current))
                   && bool_decide (SA_BypassExpiresAt current = Some expiresAt)
                then retM (mkReply StatusOK (decodeStoredDecision current original key))
                else refuse StatusConflict e
            | Err _ => refuse StatusConflict e
            end
          else refuse StatusInternalServerError e
      end
  end.

(** The decision on record: a grant again, or one that may be authorized. *)
Definition authorizeStored (ctx : ctxT) (actor : principal) (request : authorizeRequest) (record : SecureActionRecord) (original : secureActionRequest)
    (posture : protectionView) (expiresAt t : time) : MG (reply decisionView) :=
  if eqs (SA_Decision record) decisionALLOW_ONCE then
    if isSome (SA_ReleasedAt record) then refuse StatusConflict ErrOneTimeGrantConsumed else
    match decodeStoredDecision record original (AGate_authorizationKey gate) with
    | Err e => refuse StatusInternalServerError e
    | Ok decision =>
        if negb (eqs (DView_ExpiresAt decision) (formatNano expiresAt)) then refuse StatusConflict ErrAuthorizeRetry else
        respond StatusOK decision
    end
  else
  if negb (eqs (SA_Decision record) decisionHOLD) && negb (eqs (SA_Decision record) decisionREQUIRE_CONSENT) && negb (eqs (SA_Decision record) decisionBLOCK)
  then refuse StatusConflict ErrAuthorizeDecision else
  if negb (eqs (actionPolicyDenial protection original) EmptyString) then refuse StatusForbidden ErrAuthorizePolicy else
  match decisionUnmarshal (SA_DecisionJSON record) with
  | None => refuse StatusInternalServerError ErrStoredDecision
  | Some prior =>
      if negb (oneTimeEligible prior) then refuse StatusForbidden ErrAuthorizeEligible else
      grantOnce ctx actor request record original posture expiresAt t
  end.

Definition actionGate_authorize (ctx : ctxT) (caller : option principal) (actionID : string) (request : authorizeRequest) : MG (reply decisionView) :=
  let actor := principalFromContext caller in
  if negb (eqs (Authorize_ActionID request) actionID) || negb (actionBounded actionID 128) || negb (actionBounded (Authorize_OperationID request) 128)
  then refuse StatusBadRequest ErrAuthorizeIDs else
  if negb (eqs (Authorize_ConsentReasonCode request) "USER_EXPLICIT") then refuse StatusBadRequest ErrAuthorizeConsent else
  match parseNano (Authorize_ExpiresAt request) with
  | None => refuse StatusBadRequest ErrAuthorizeExpiry
  | Some expiresAt =>
      let! t := now clock in
      if negb (t <? expiresAt) || (t + PConfig_OneTimeBypassTTL protection <? expiresAt) then refuse StatusBadRequest ErrAuthorizeWindow else
      if negb (PConfig_AllowOneTimeBypass protection) then refuse StatusForbidden ErrAuthorizeDisabled else
      let! found := attempt (database (GetSecureAction sqlFails actionID)) in
      match found with
      | Err e => refuse (if bool_decide (e = ErrSecureActionNotFound) then StatusNotFound else StatusInternalServerError) e
      | Ok record =>
          match actionUnmarshal (SA_RequestJSON record) with
          | None => refuse StatusInternalServerError ErrStoredRequest
          | Some original =>
              match parseNano (SReq_Deadline original) with
              | None => refuse StatusInternalServerError ErrStoredDeadline
              | Some actionDeadline =>
                  if actionDeadline <? expiresAt then refuse StatusBadRequest ErrAuthorizeDeadline else
                  if negb (allowsAction actor original) then refuse StatusForbidden ErrActionScope else
                  let! read := attempt (actionPosture (SReq_NodeID original) t) in
                  match read with
                  | Err e => refuse StatusNotFound e
                  | Ok (posture, nodeActive) =>
                      if negb nodeActive then refuse StatusConflict ErrAuthorizeNode else
                      if negb (eqs (SReq_OperationID original) (Authorize_OperationID request))
                         || negb (sameStrings (SReq_Destinations original) (Authorize_AuthorizedDestinations request))
                      then refuse StatusConflict ErrAuthorizeScope else
                      authorizeStored ctx actor request record original posture expiresAt t
                  end
              end
          end
      end
  end.

End ActionServer.
