(* ===== verification/ActionLifecycle.v ===== *)
(** * The execution of a protected action (core/server/actions.go)

    [appendLifecycleAudit], which records what the node reports of an action
    and accepts the start of its execution at most once; the list of actions
    as an operator sees it; and the posture of a node that was revoked. *)

From S2P Require Import Prelude Library Directory Sha256 Digest Probe Contract Plan Policy Posture JournalFile Events EventStore EventIngest Gate Findings AuditStore AuditService ActionStore ActionDecisions ActionServer.
From stdpp Require Import base gmap list strings sorting.
From Stdlib Require Import ZArith Lia.

Open Scope Z_scope.

(** The event with its reason codes sorted and its time in one form. *)
Definition canonicalEvent (occurredAt : string) (q : auditEventRequest) : auditEventRequest :=
  mkAuditEvent (AReq_EventID q) (AReq_Lifecycle q) occurredAt (AReq_ActionID q) (AReq_RequestID q) (AReq_Decision q) (AReq_TraceID q)
    (AReq_PolicyRevision q) (sort_strings (AReq_ReasonCodes q)) (AReq_Details q).

Fixpoint validateLifecycleReasons (seen codes : list string) : result unit :=
  match codes with
  | [] => Ok tt
  | code :: rest =>
      reject negb (actionReasonCode code) with ErrLifecycleReason;
      reject containsValue seen code with ErrLifecycleReasons;
      validateLifecycleReasons (code :: seen) rest
  end.

Record secureActionScopeView : Type := mkScopeView {
  VScope_ActionType : string;
  VScope_Destinations : list string;
  VScope_DataClass : string;
  VScope_Sensitivity : string;
  VScope_Deadline : string;
}.

(** An action as it is listed. *)
Record oneTimeAuthorizationOptions : Type := mkOneTime {
  OneTime_Enabled : bool;
  OneTime_MaximumExpiresAt : string;
  OneTime_ConsentReasonCode : string;
}.

Record secureActionListItem : Type := mkListItem {
  Item_ActionID : string;
  Item_OperationID : string;
  Item_ApplicationID : string;
  Item_NodeID : string;
  Item_Decision : string;
  Item_ReasonCodes : list string;
  Item_Scope : secureActionScopeView;
  Item_Protection : protectionView;
  Item_ExpiresAt : string;
  Item_CreatedAt : string;
  Item_UpdatedAt : string;
  Item_OneTimeAuthorization : option oneTimeAuthorizationOptions;
}.

Section ActionLifecycle.
Context {H : Hasher} {E : Ed25519} {AC : AuditCodec} {JC : ActionCodec}.
Context (sqlFails sysFails : nat -> bool) (torn : nat -> nat) (contention : nat -> nat * bool) (fsyncLinks : bool).
Context (wall auditClock clock : clockT) (newID : nat -> string) (toLower : string -> string).
Context (marshalDetails : list (string * actionDetail) -> option string).
Context (gate : actionGate) (service : Service).

Abbreviation MG := (M gateWorld).
Abbreviation database := (fun m => zoom gw_audit setGateAudit (zoom aw_tables setTables (zoom core_domain setDomain m))).
Abbreviation append ctx q mutation := (zoom gw_audit setGateAudit
  (AppendWithMutation sqlFails sysFails torn contention fsyncLinks wall auditClock newID marshalDetails service ctx q (Some mutation))).
Abbreviation protection := (AGate_protection gate).
Abbreviation staleAfter := (PConfig_TelemetryStaleAfter protection).
Abbreviation posture_of := (actionPosture sqlFails gate).

(** ** Checks before the database *)

Definition validLifecycleEvent (actionID : string) (q : auditEventRequest) : bool :=
  eqs (AReq_ActionID q) actionID && actionBounded (AReq_EventID q) 128 && actionBounded (AReq_RequestID q) 128
  && actionBounded (AReq_TraceID q) 128 && containsValue validActionAuditLifecycles (AReq_Lifecycle q)
  && containsValue validActionAuditDecisions (AReq_Decision q).

(** What a valid event is: its time, its canonical form and the digest of
    that. *)
Definition checkLifecycleEvent (actionID : string) (q : auditEventRequest) (t : time) : result (time * auditEventRequest * list Z) :=
  match parseNano (AReq_OccurredAt q) with
  | None => Err ErrLifecycleTime
  | Some occurredAt =>
      reject t + 5 * Minute <? occurredAt with ErrLifecycleTime;
      reject (len (AReq_ReasonCodes q) =? 0) || (32 <? len (AReq_ReasonCodes q)) || (32 <? len (AReq_Details q)) with ErrLifecycleLimits;
      ensure validateLifecycleReasons [] (AReq_ReasonCodes q);
      let q := canonicalEvent (formatNano occurredAt) q in
      match auditEventMarshal q with
      | None => Err ErrLifecycleMetadata
      | Some canonical =>
          reject Z.shiftl 32 10 <? len canonical with ErrLifecycleMetadata;
          Ok (occurredAt, q, sum256 canonical)
      end
  end.

(** ** The operation *)

(** The answer for an event id that is on record. *)
Definition replayedEvent (actionID lifecycle : string) (digest : list Z) (existing : SecureActionAuditEventRecord) : MG (reply unit) :=
  if negb (eqs (ActionAudit_ActionID existing) actionID) || negb (bool_decide (ActionAudit_RequestDigest existing = digest))
  then refuse StatusConflict ErrSecureActionAuditConflict else
  if eqs lifecycle executionStarted then refuse StatusConflict ErrLifecycleReplay else respond StatusNoContent tt.

(** A start is refused past the deadline, and when the decision it rests on
    would not be made again now. *)
Definition startRefusal (q : auditEventRequest) (record : SecureActionRecord) (original : secureActionRequest) (posture : protectionView) (t : time)
    : option (Z * error) :=
  match parseNano (SReq_Deadline original) with
  | None => Some (StatusInternalServerError, ErrStoredDeadline)
  | Some deadline =>
      if negb (t <? deadline) then Some (StatusConflict, ErrLifecycleDeadline) else
      if eqs (SA_Decision record) decisionALLOW then
        let fresh := actionGate_decide protection original posture deadline t in
        if negb (eqs (DView_Decision fresh) decisionALLOW) || negb (Meta_PolicyRevision (DView_Audit fresh) =? AReq_PolicyRevision q)
        then Some (StatusConflict, ErrLifecycleStale) else None
      else None
  end.

Definition recordLifecycle (ctx : ctxT) (actor : principal) (actionID : string) (q : auditEventRequest) (occurredAt : time) (digest : list Z)
    (record : SecureActionRecord) (original : secureActionRequest) (t : time) : MG (reply unit) :=
  let! appended := attempt (append ctx
    (mkAppend "APPLICATION" (Principal_ID actor) ("secure_action." +:+ toLower (AReq_Lifecycle q)) "secure_action" actionID (AReq_Decision q)
      [("eventId", ActionText_ (AReq_EventID q)); ("requestId", ActionText_ (AReq_RequestID q)); ("traceId", ActionText_ (AReq_TraceID q));
       ("policyRevision", ActionNumber (AReq_PolicyRevision q)); ("reasonCodes", ActionTexts (AReq_ReasonCodes q));
       ("metadata", ActionMetadata (AReq_Details q))])
    (AppendSecureActionLifecycleWithAudit sqlFails (AReq_EventID q) record (SReq_NodeID original) (AReq_Lifecycle q) digest occurredAt t)) in
  match appended with
  | Ok _ => respond StatusNoContent tt
  | Err e =>
      let! replayed := attempt (database (GetSecureActionAuditEvent sqlFails (AReq_EventID q))) in
      match replayed with
      | Ok existing => replayedEvent actionID (AReq_Lifecycle q) digest existing
      | Err _ =>
          if bool_decide (e = ErrOneTimeGrantConsumed) || bool_decide (e = ErrInvalidActionLifecycle) || bool_decide (e = ErrSecureActionConflict)
          then refuse StatusConflict e else refuse StatusInternalServerError e
      end
  end.

(** The event is new: what it says is compared with the decision. *)
Definition newLifecycleEvent (ctx : ctxT) (actor : principal) (actionID : string) (q : auditEventRequest) (occurredAt : time) (digest : list Z)
    (record : SecureActionRecord) (original : secureActionRequest) (t : time) : MG (reply unit) :=
  let start := eqs (AReq_Lifecycle q) executionStarted in
  let! read := (if start then attempt (let! '(_, nodeActive) := posture_of (SReq_NodeID original) t in retM nodeActive) else retM (Ok true)) in
  match read with
  | Err e => refuse StatusNotFound e
  | Ok nodeActive =>
      if negb nodeActive then refuse StatusConflict ErrLifecycleNode else
      if negb (eqs (AReq_RequestID q) (SA_RequestID record)) || negb (eqs (AReq_TraceID q) (SA_OperationID record))
         || negb (eqs (AReq_Decision q) (SA_Decision record)) || (occurredAt <? SA_CreatedAt record - 5 * Minute)
      then refuse StatusConflict ErrLifecycleDecision else
      match decisionUnmarshal (SA_DecisionJSON record) with
      | None => refuse StatusInternalServerError ErrStoredDecision
      | Some committed =>
          if negb (AReq_PolicyRevision q =? Meta_PolicyRevision (DView_Audit committed)) then refuse StatusConflict ErrLifecycleRevision else
          let! posture := gate_posture gate (SReq_NodeID original) t in
          match (if start then startRefusal q record original posture t else None) with
          | Some (status, e) => refuse status e
          | None => recordLifecycle ctx actor actionID q occurredAt digest record original t
          end
      end
  end.

Definition appendLifecycleAudit (ctx : ctxT) (caller : option principal) (actionID : string) (request : auditEventRequest) : MG (reply unit) :=
  let actor := principalFromContext caller in
  if negb (validLifecycleEvent actionID request) then refuse StatusBadRequest ErrLifecycleEvent else
  let! t := now clock in
  match checkLifecycleEvent actionID request t with
  | Err e => refuse StatusBadRequest e
  | Ok (occurredAt, q, digest) =>
      let! found := attempt (database (GetSecureAction sqlFails actionID)) in
      match found with
      | Err e => refuse (if bool_decide (e = ErrSecureActionNotFound) then StatusNotFound else StatusInternalServerError) e
      | Ok record =>
          match actionUnmarshal (SA_RequestJSON record) with
          | None => refuse StatusInternalServerError ErrStoredRequest
          | Some original =>
              if negb (allowsAction actor original) then refuse StatusForbidden ErrActionScope else
              let! lookup := attempt (database (GetSecureActionAuditEvent sqlFails (AReq_EventID q))) in
              match lookup with
              | Ok existing => replayedEvent actionID (AReq_Lifecycle q) digest existing
              | Err e =>
                  if negb (bool_decide (e = ErrSecureActionNotFound)) then refuse StatusInternalServerError e
                  else newLifecycleEvent ctx actor actionID q occurredAt digest record original t
              end
          end
      end
  end.

(** ** Nodes and lists *)

(** The node is not active any more: its posture is unknown. *)
Definition invalidateNode (nodeID : string) (t : time) : MG unit :=
  modS (fun w => setPostures (<[nodeID := mkReport nodeID "UNKNOWN" (formatNano t) EmptyString EmptyString None None None None
    [NodeNotActive] 0 [] "UNKNOWN" provenanceUnknown float32_one]> (gw_postures w)) w).

Definition allPostures (t : time) : MG (list protectionView) :=
  let! w := getS in
  retM (map (fun nodeID => postureView staleAfter (gw_postures w) nodeID t) (sort_strings (map fst (map_to_list (gw_postures w))))).

(** The decision of an action as it would be now. *)
Definition effectiveDecision (record : SecureActionRecord) (request : secureActionRequest) (committed : decisionView) (started : bool)
    (posture current : protectionView) (nodeActive : bool) (deadline t : time) : decisionView :=
  if eqs (SA_Decision record) decisionALLOW_ONCE && isSome (SA_ReleasedAt record) then decisionBase request posture decisionBLOCK [GrantConsumed] t else
  if started then committed else
  if eqs (SA_Decision record) decisionALLOW then decideForNode protection request posture nodeActive deadline t else
  if eqs (SA_Decision record) decisionALLOW_ONCE then
    if negb nodeActive then decisionBase request posture decisionBLOCK [NodeNotActive] t else
    if match SA_BypassExpiresAt record with Some expiry => negb (t <? expiry) | None => true end || negb (t <? deadline)
    then actionGate_decide protection request current deadline t else committed
  else committed.

Definition listItem (record : SecureActionRecord) (request : secureActionRequest) (committed effective : decisionView) (deadline t : time) : secureActionListItem :=
  let expiresAt := if eqs (DView_ExpiresAt effective) EmptyString && eqs (DView_Decision effective) decisionALLOW
                   then PView_ValidUntil (DView_Protection effective) else DView_ExpiresAt effective in
  let maximum := let m := t + PConfig_OneTimeBypassTTL protection in if deadline <? m then deadline else m in
  mkListItem (SA_ID record) (SA_OperationID record) (SA_ApplicationID record) (SReq_NodeID request) (DView_Decision effective)
    (DView_ReasonCodes effective)
    (mkScopeView (SReq_ActionType request) (SReq_Destinations request) (SReq_DataClass request) (SReq_Sensitivity request) (SReq_Deadline request))
    (DView_Protection effective) expiresAt (formatNano (SA_CreatedAt record)) (formatNano (SA_UpdatedAt record))
    (if PConfig_AllowOneTimeBypass protection && oneTimeEligible committed && oneTimeEligible effective
     then Some (mkOneTime (t <? maximum) (formatNano maximum) "USER_EXPLICIT") else None).

(** One turn of the loop: the item, if the filter keeps it. *)
Definition listTurn (decision : string) (t : time) (record : SecureActionRecord) : MG (option secureActionListItem) :=
  match actionUnmarshal (SA_RequestJSON record) with
  | None => failM ErrStoredRequest
  | Some request =>
      match decisionUnmarshal (SA_DecisionJSON record) with
      | None => failM ErrStoredDecision
      | Some committed =>
          let! execution := database (GetSecureActionExecutionState sqlFails (SA_ID record)) in
          let! '(posture, nodeActive) := posture_of (SReq_NodeID request) t in
          match parseNano (SReq_Deadline request) with
          | None => failM ErrStoredDeadline
          | Some deadline =>
              let! current := gate_posture gate (SReq_NodeID request) t in
              let effective := effectiveDecision record request committed (Execution_Started execution) posture current nodeActive deadline t in
              if negb (eqs decision EmptyString) && negb (eqs (DView_Decision effective) decision) then retM None
              else retM (Some (listItem record request committed effective deadline t))
          end
      end
  end.

(** [limit] items at most; a limit of zero or less does not stop the loop. *)
Fixpoint listLoop (decision : string) (limit : Z) (t : time) (found : list secureActionListItem) (records : list SecureActionRecord)
    : MG (list secureActionListItem) :=
  match records with
  | [] => retM found
  | record :: rest =>
      let! item := listTurn decision t record in
      match item with
      | None => listLoop decision limit t found rest
      | Some item =>
          let found := found ++ [item] in
          if len found =? limit then retM found else listLoop decision limit t found rest
      end
  end.

Definition actionGate_list (decision : string) (limit : Z) : MG (list secureActionListItem) :=
  let! records := database (ListSecureActions sqlFails formatNano EmptyString 200) in
  let! t := now clock in
  listLoop decision limit t [] records.

End ActionLifecycle.
