(* ===== verification/PostureReports.v ===== *)
(** * Posture reports (core/server/actions.go)

    A node reports its posture; a report of PROTECTED must name four stored
    events that show a healthy mesh path, a DNS path, a policy default route
    and an external flow bound to one interface and one path. What the posture
    engine derives of the report is audited, projected to findings and held
    as the posture of the node.

    The decoding of the four kinds of observation is the class
    [ObservationCodec]; a record of them has the fields that are read. *)

From S2P Require Import Prelude Library Directory Sha256 Digest Probe Contract Plan Policy Posture JournalFile Events EventStore EventIngest Gate Findings AuditStore AuditService ActionStore ActionDecisions ActionServer.
From stdpp Require Import base gmap list strings sorting.
From Stdlib Require Import ZArith Lia.

Open Scope Z_scope.

Record MeshPathObservation : Type := mkMeshPath {
  Mesh_PathId : string;
  Mesh_Provider : string;
  Mesh_SourceNodeId : string;
  Mesh_DestinationNodeId : string;
  Mesh_ExitNodeId : string;
  Mesh_ApprovedExitActive : bool;
  Mesh_TunnelHealthy : bool;
}.

Record DnsObservation : Type := mkDns {
  Dns_ResolverAddresses : list string;
  Dns_Source : string;
  Dns_PathVerified : bool;
  Dns_EgressInterfaceId : string;
  Dns_MeshPathId : string;
}.

Record RouteObservation : Type := mkRoute {
  Route_Destination : string;
  Route_InterfaceId : string;
  Route_DefaultRoute : bool;
  Route_PolicyRoute : bool;
}.

Record FlowObservation : Type := mkFlow {
  Flow_Remote : option (string * string);   (** address and hostname *)
  Flow_Direction : Z;
  Flow_EgressInterfaceId : string;
  Flow_MeshPathId : string;
}.

Class ObservationCodec : Type := {
  meshUnmarshal : list Z -> option MeshPathObservation;
  dnsUnmarshal : list Z -> option DnsObservation;
  routeUnmarshal : list Z -> option RouteObservation;
  flowUnmarshal : list Z -> option FlowObservation;
}.

Definition FlowOutbound : Z := 2.

(** ** Errors *)

Definition ErrReportIdentity : error := errorsNew "posture report contains an invalid node, state, or network trust".
Definition ErrReportObserved : error := errorsNew "posture observedAt is invalid".
Definition ErrReportFreshness : error := errorsNew "posture telemetry freshness policy is invalid".
Definition ErrReportUntil : error := errorsNew "posture validUntil is invalid".
Definition ErrReportControls : error := errorsNew "protected posture requires verified mesh, exit, and DNS controls".
Definition ErrReportRoute : error := errorsNew "protected posture requires a verified protected route".
Definition ErrReportRevision : error := errorsNew "posture policy revision is required".
Definition ErrReportReasons : error := errorsNew "posture report has too many reason codes".
Definition ErrReportEvents : error := errorsNew "posture report has too many verification events".
Definition ErrReportNode : error := errorsNew "posture node is not durably enrolled".
Definition ErrReportInactive : error := errorsNew "posture node is not active".
Definition ErrReportProvenance : error := errorsNew "posture evidence provenance could not be established".
Definition ErrReportSimulation : error := errorsNew "simulation posture is disabled for this Core".
Definition ErrReportInconsistent : error := errorsNew "posture state is inconsistent with the reported control facts".
Definition ErrReportRaced : error := errorsNew "posture node status changed while the report was being evaluated".
Definition ErrReportRegresses : error := errorsNew "posture report regresses the current snapshot".
Definition ErrReportConflicts : error := errorsNew "posture report conflicts with the current snapshot at the same revision and observation time".
Definition ErrProofCount : error := errorsNew "protected posture requires distinct durable mesh, DNS, route, and external egress verification events".
Definition ErrProofNode : error := errorsNew "protected posture node is not durably enrolled".
Definition ErrProofProvenance : error := errorsNew "protected posture evidence provenance is not permitted".
Definition ErrProofID : error := errorsNew "posture verification event id is invalid".
Definition ErrProofUnique : error := errorsNew "posture verification event ids must be unique".
Definition ErrProofMissing : error := errorsNew "posture verification event is not durably available".
Definition ErrProofStale : error := errorsNew "posture verification event is stale, unverified, or belongs to another node".
Definition ErrProofEvidence : error := errorsNew "posture verification event no longer has fresh verified evidence".
Definition ErrProofEventProvenance : error := errorsNew "posture verification event provenance is not permitted".
Definition ErrProofMeshTwice : error := errorsNew "protected posture contains duplicate mesh verification evidence".
Definition ErrProofMesh : error := errorsNew "mesh posture verification event does not establish a healthy approved exit for this node".
Definition ErrProofDnsTwice : error := errorsNew "protected posture contains duplicate DNS verification evidence".
Definition ErrProofDns : error := errorsNew "DNS posture verification event does not establish a verified path".
Definition ErrProofRouteTwice : error := errorsNew "protected posture contains duplicate route verification evidence".
Definition ErrProofRoute : error := errorsNew "route posture verification event does not establish a protected policy default route".
Definition ErrProofEgressTwice : error := errorsNew "protected posture contains duplicate external egress verification evidence".
Definition ErrProofEgress : error := errorsNew "external egress verification event does not establish an outbound protected path".
Definition ErrProofKind : error := errorsNew "posture verification event kind is not an enforcement input".
Definition ErrProofUnbound : error := errorsNew "protected posture requires bound mesh, DNS, policy-route, and external-egress evidence".
Definition ErrProofExpired : error := errorsNew "posture verification evidence has expired".

(** ** The evidence of a protected posture *)

(** What the loop over the events carries: the result and the ids to bind. *)
Record protectedEvidence : Type := mkProtectedEvidence {
  Proof_validUntil : time;
  Proof_provenance : string;
  Proof_mesh : option string;                  (** the path, when shown *)
  Proof_dns : option (string * string);        (** interface and path *)
  Proof_route : option string;                 (** interface *)
  Proof_egress : option (string * string);     (** interface and path *)
}.

Definition setMeshProof (path : string) (p : protectedEvidence) : protectedEvidence :=
  mkProtectedEvidence (Proof_validUntil p) (Proof_provenance p) (Some path) (Proof_dns p) (Proof_route p) (Proof_egress p).
Definition setDnsProof (interface path : string) (p : protectedEvidence) : protectedEvidence :=
  mkProtectedEvidence (Proof_validUntil p) (Proof_provenance p) (Proof_mesh p) (Some (interface, path)) (Proof_route p) (Proof_egress p).
Definition setRouteProof (interface : string) (p : protectedEvidence) : protectedEvidence :=
  mkProtectedEvidence (Proof_validUntil p) (Proof_provenance p) (Proof_mesh p) (Proof_dns p) (Some interface) (Proof_egress p).
Definition setEgressProof (interface path : string) (p : protectedEvidence) : protectedEvidence :=
  mkProtectedEvidence (Proof_validUntil p) (Proof_provenance p) (Proof_mesh p) (Proof_dns p) (Proof_route p) (Some (interface, path)).

Section Observations.
Context {OC : ObservationCodec}.

Definition nonempty (s : string) : bool := negb (eqs s EmptyString).

Definition meshShows (nodeID : string) (o : MeshPathObservation) : bool :=
  Mesh_TunnelHealthy o && Mesh_ApprovedExitActive o && eqs (Mesh_SourceNodeId o) nodeID && nonempty (Mesh_PathId o)
  && nonempty (Mesh_Provider o) && nonempty (Mesh_DestinationNodeId o) && nonempty (Mesh_ExitNodeId o).
Definition dnsShows (o : DnsObservation) : bool :=
  Dns_PathVerified o && negb (len (Dns_ResolverAddresses o) =? 0) && nonempty (Dns_Source o) && nonempty (Dns_EgressInterfaceId o)
  && nonempty (Dns_MeshPathId o).
Definition routeShows (o : RouteObservation) : bool :=
  Route_DefaultRoute o && Route_PolicyRoute o && nonempty (Route_InterfaceId o)
  && (eqs (Route_Destination o) "0.0.0.0/0" || eqs (Route_Destination o) "::/0").
Definition flowShows (o : FlowObservation) : bool :=
  (Flow_Direction o =? FlowOutbound) && nonempty (Flow_EgressInterfaceId o) && nonempty (Flow_MeshPathId o)
  && match Flow_Remote o with Some (address, hostname) => nonempty address || nonempty hostname | None => false end.

Definition meshKinds : list string := ["mesh.path_changed"; "mesh.exit_changed"]%string.
Definition flowKinds : list string := ["flow.started"; "flow.updated"; "flow.ended"]%string.

(** The switch over the kind of an event. *)
Definition proveEvent (nodeID kind : string) (payload : list Z) (p : protectedEvidence) : result protectedEvidence :=
  if containsValue meshKinds kind then
    reject isSome (Proof_mesh p) with ErrProofMeshTwice;
    match meshUnmarshal payload with
    | Some o => if meshShows nodeID o then Ok (setMeshProof (Mesh_PathId o) p) else Err ErrProofMesh
    | None => Err ErrProofMesh
    end
  else if eqs kind "network.dns_changed" then
    reject isSome (Proof_dns p) with ErrProofDnsTwice;
    match dnsUnmarshal payload with
    | Some o => if dnsShows o then Ok (setDnsProof (Dns_EgressInterfaceId o) (Dns_MeshPathId o) p) else Err ErrProofDns
    | None => Err ErrProofDns
    end
  else if eqs kind "network.route_changed" then
    reject isSome (Proof_route p) with ErrProofRouteTwice;
    match routeUnmarshal payload with
    | Some o => if routeShows o then Ok (setRouteProof (Route_InterfaceId o) p) else Err ErrProofRoute
    | None => Err ErrProofRoute
    end
  else if containsValue flowKinds kind then
    reject isSome (Proof_egress p) with ErrProofEgressTwice;
    match flowUnmarshal payload with
    | Some o => if flowShows o then Ok (setEgressProof (Flow_EgressInterfaceId o) (Flow_MeshPathId o) p) else Err ErrProofEgress
    | None => Err ErrProofEgress
    end
  else Err ErrProofKind.

(** The four are shown and bound to one interface and one path. *)
Definition proofBound (p : protectedEvidence) : bool :=
  match Proof_mesh p, Proof_dns p, Proof_route p, Proof_egress p with
  | Some mesh, Some (dnsInterface, dnsPath), Some route, Some (flowInterface, flowPath) =>
      eqs flowInterface route && eqs flowPath mesh && eqs dnsInterface route && eqs dnsPath mesh
  | _, _, _, _ => false
  end.

End Observations.

(** The times at which the evidence of an event ends. *)
Definition earlier (a b : time) : time := if a <? b then a else b.
Definition evidenceUntil (staleAfter : Z) (e : EventEnvelope) (validUntil : time) : time :=
  fold_left (fun u ev => match EE_ExpiresAt ev with Some t => earlier t u | None => u end) (Event_Evidence e)
    (earlier (Event_ObservedAt e + staleAfter) validUntil).

(** The names of [ProtectionState] without their prefix. *)
Definition protectionStateName (state : Z) : string :=
  if state =? 0 then "UNSPECIFIED" else if state =? StateProtected then "PROTECTED" else if state =? 2 then "DEGRADED"
  else if state =? 3 then "SUSPICIOUS" else if state =? StateExposed then "EXPOSED" else if state =? StateUnknown then "UNKNOWN" else "UNAVAILABLE".

Definition postureStates : list string := ["PROTECTED"; "DEGRADED"; "SUSPICIOUS"; "EXPOSED"; "UNKNOWN"; "UNAVAILABLE"]%string.
Definition networkTrusts : list string := ["TRUSTED"; "UNTRUSTED"; "UNKNOWN"]%string.

Definition isTrue (b : option bool) : bool := match b with Some true => true | _ => false end.

(** [==] on [float32]. *)
Definition float32_eq (a b : Z) : bool := negb (float32_nan a) && negb (float32_nan b) && (float32_key a =? float32_key b).

Section PostureReports.
Context {H : Hasher} {E : Ed25519} {EC : EventCodec} {AC : AuditCodec} {JC : ActionCodec} {OC : ObservationCodec}.
Context (checkMessage : string -> list Z -> string -> result unit) (validateOpaqueProtobuf : list Z -> result unit) (wireSize : wireEvent -> Z).
Context (equalFold : string -> string -> bool) (toLower : string -> string) (parseManifest : string -> option (list (option (string * list string)))).
Context (sqlFails sysFails : nat -> bool) (torn : nat -> nat) (contention : nat -> nat * bool) (fsyncLinks : bool).
Context (wall auditClock clock : clockT) (newID : nat -> string).
Context (marshalDetails : list (string * actionDetail) -> option string).
Context (gate : actionGate) (service : Service).

Abbreviation MG := (M gateWorld).
Abbreviation coreDB := (fun m => zoom gw_audit setGateAudit (zoom aw_tables setTables (zoom core_domain setDomain (zoom ac_core setActionCore m)))).
Abbreviation protection := (AGate_protection gate).
Abbreviation staleAfter := (PConfig_TelemetryStaleAfter protection).

Definition mustParsePostureTime (value : string) : time := default zeroTime (parseNano value).

Definition validatePostureReport (report : postureReport) (t : time) : result unit :=
  reject negb (actionBounded (Report_NodeID report) 128) || negb (containsValue postureStates (Report_State report))
         || negb (containsValue networkTrusts (Report_NetworkTrust report)) with ErrReportIdentity;
  match parseNano (Report_ObservedAt report) with
  | None => Err ErrReportObserved
  | Some observedAt =>
      reject t + 5 * Minute <? observedAt with ErrReportObserved;
      reject staleAfter <=? 0 with ErrReportFreshness;
      match parseNano (Report_ValidUntil report) with
      | None => Err ErrReportUntil
      | Some validUntil =>
          reject negb (observedAt <? validUntil) || (observedAt + staleAfter <? validUntil) with ErrReportUntil;
          let protected := eqs (Report_State report) "PROTECTED" in
          reject protected && negb (isTrue (Report_MeshConnected report) && isTrue (Report_ApprovedExitActive report) && isTrue (Report_DNSProtected report))
            with ErrReportControls;
          reject protected && negb (isTrue (Report_RouteProtected report)) with ErrReportRoute;
          reject Report_PolicyRevision report =? 0 with ErrReportRevision;
          reject 32 <? len (Report_ReasonCodes report) with ErrReportReasons;
          reject 8 <? len (Report_VerificationEventIDs report) with ErrReportEvents;
          Ok tt
      end
  end.

Definition postureFact (value : option bool) (class : Z) (observedAt : string) : Fact :=
  match value with
  | None => mkFact false false 0 float32_zero zeroTime EmptyString
  | Some v => mkFact true v class float32_one (mustParsePostureTime observedAt) EmptyString
  end.

(** One event of the loop. *)
Definition proofTurn (report : postureReport) (node : Node) (t : time) (seen : list string) (eventID : string) (p : protectedEvidence) : MG protectedEvidence :=
  if negb (actionBounded eventID 128) then failM ErrProofID else
  if containsValue seen eventID then failM ErrProofUnique else
  let! read := attempt (coreDB (GetEvent checkMessage validateOpaqueProtobuf wireSize sqlFails eventID)) in
  match read with
  | Err _ => failM ErrProofMissing
  | Ok e =>
      if negb (eqs (Event_DeploymentID e) (AGate_deploymentID gate)) || negb (eqs (Event_NodeID e) (Report_NodeID report))
         || negb (eqs (Event_Classification e) EvidenceVerified) || (staleAfter <? Sub t (Event_ObservedAt e))
         || (t + 5 * Minute <? Event_ObservedAt e) || (mustParsePostureTime (Report_ObservedAt report) <? Event_ObservedAt e)
      then failM ErrProofStale else
      if negb (is_ok (ValidateEvidenceAt e t)) then failM ErrProofEvidence else
      let provenance := eventEvidenceProvenance equalFold toLower parseManifest e node in
      if eqs provenance provenanceUnknown || (negb (AGate_simulation gate) && eqs provenance provenanceSimulation)
      then failM ErrProofEventProvenance else
      let p := mkProtectedEvidence (evidenceUntil staleAfter e (Proof_validUntil p))
        (if eqs provenance provenanceSimulation then provenanceSimulation else Proof_provenance p)
        (Proof_mesh p) (Proof_dns p) (Proof_route p) (Proof_egress p) in
      liftR (proveEvent (Report_NodeID report) (Event_Kind e) (Event_Payload e) p)
  end.

Fixpoint proofLoop (report : postureReport) (node : Node) (t : time) (seen eventIDs : list string) (p : protectedEvidence) : MG protectedEvidence :=
  match eventIDs with
  | [] => retM p
  | eventID :: rest =>
      let! p := proofTurn report node t seen eventID p in
      proofLoop report node t (eventID :: seen) rest p
  end.

Definition validateProtectedEvidence (report : postureReport) (t : time) : MG protectedEvidence :=
  if negb (len (Report_VerificationEventIDs report) =? 4) then failM ErrProofCount else
  let! read := attempt (coreDB (GetNode sqlFails (Report_NodeID report))) in
  match read with
  | Err _ => failM ErrProofNode
  | Ok node =>
      let provenance := nodeEvidenceProvenance equalFold parseManifest node in
      if eqs provenance provenanceUnknown || (negb (AGate_simulation gate) && eqs provenance provenanceSimulation) then failM ErrProofProvenance else
      let! p := proofLoop report node t [] (Report_VerificationEventIDs report) (mkProtectedEvidence (t + staleAfter) provenance None None None None) in
      if negb (proofBound p) then failM ErrProofUnbound else
      if negb (t <? Proof_validUntil p) then failM ErrProofExpired else
      retM p
  end.

Definition samePostureReport (left right : postureReport) : bool :=
  eqs (Report_EvidenceClass left) (Report_EvidenceClass right) && eqs (Report_EvidenceProvenance left) (Report_EvidenceProvenance right)
  && float32_eq (Report_Confidence left) (Report_Confidence right)
  && match reportMarshal left, reportMarshal right with Some l, Some r => bool_decide (l = r) | _, _ => false end.

(** The input of the posture engine: with bound evidence the facts are
    verified. *)
Definition reportInput (report : postureReport) (class : Z) : PostureInput :=
  let observedAt := mustParsePostureTime (Report_ObservedAt report) in
  mkInput (AGate_deploymentID gate) (Report_NodeID report) "active-protection-profile" (Report_PolicyRevision report) observedAt observedAt
    (Report_NetworkTrust report) (PConfig_RequireMeshOnUntrusted protection)
    (postureFact (Report_MeshConnected report) class (Report_ObservedAt report))
    (postureFact (Report_ApprovedExitActive report) class (Report_ObservedAt report))
    (postureFact (Report_DNSProtected report) class (Report_ObservedAt report))
    (postureFact (Report_RouteProtected report) class (Report_ObservedAt report)).

(** The report as it is held: what was derived replaces what was said. *)
Definition derivedReport (report : postureReport) (s : ProtectionSnapshot) (validUntil : time) (class provenance : string) : postureReport :=
  mkReport (Report_NodeID report) (protectionStateName (Protection_State s)) (Report_ObservedAt report) (formatNano validUntil) (Report_NetworkTrust report)
    (Report_MeshConnected report) (Report_ApprovedExitActive report) (Report_DNSProtected report) (Report_RouteProtected report)
    (map (fun r => match r with Some r => Reason_ReasonCode r | None => EmptyString end) (Protection_Reasons s)) (Report_PolicyRevision report)
    (Report_VerificationEventIDs report) class provenance (Protection_Confidence s).

Definition withValidUntil (t : time) (s : ProtectionSnapshot) : ProtectionSnapshot :=
  mkProtection (Protection_Id s) (Protection_DeploymentId s) (Protection_NodeId s) (Protection_PolicyId s) (Protection_PolicyRevision s)
    (Protection_State s) (Protection_EnforcementState s) (Protection_EvaluatedAt s) (Some (Timestamp_New t)) (Protection_Reasons s)
    (Protection_Confidence s) (Protection_RecommendedResponse s) (Protection_EvidenceProvenance s).

(** The earliest of the snapshot's, the report's and the evidence's end. *)
Definition reportUntil (report : postureReport) (s : ProtectionSnapshot) (proof : option protectedEvidence) : time :=
  let derived := match Protection_ValidUntil s with Some u => AsTime u | None => 0 end in
  let validUntil := earlier (mustParsePostureTime (Report_ValidUntil report)) derived in
  match proof with
  | Some p => if IsZero (Proof_validUntil p) then validUntil else earlier (Proof_validUntil p) validUntil
  | None => validUntil
  end.

(** A report that is older, or of an older policy, than the one held. *)
Definition regresses (report existing : postureReport) : bool :=
  (Report_PolicyRevision report <? Report_PolicyRevision existing)
  || (mustParsePostureTime (Report_ObservedAt report) <? mustParsePostureTime (Report_ObservedAt existing)).
Definition sameInstant (report existing : postureReport) : bool :=
  (mustParsePostureTime (Report_ObservedAt report) =? mustParsePostureTime (Report_ObservedAt existing))
  && (Report_PolicyRevision report =? Report_PolicyRevision existing).

(** Under the lock: the node again, the report that is held, the audit entry,
    the findings, and the report itself. *)
Definition commitReport (ctx : ctxT) (actor : principal) (report : postureReport) (snapshot : ProtectionSnapshot) : MG unit :=
  let! current := attempt (coreDB (GetNode sqlFails (Report_NodeID report))) in
  if negb match current with Ok node => eqs (Node_Status node) NodeActive | Err _ => false end then failM ErrReportRaced else
  let! w := getS in
  let existing := gw_postures w !! Report_NodeID report in
  if match existing with Some e => regresses report e | None => false end then failM ErrReportRegresses else
  if match existing with Some e => sameInstant report e | None => false end
  then if match existing with Some e => samePostureReport e report | None => false end then retM tt else failM ErrReportConflicts
  else
  run! zoom gw_audit setGateAudit (Append sqlFails sysFails torn contention fsyncLinks wall auditClock newID marshalDetails service ctx
    (mkAppend "NODE" (Principal_ID actor) "posture.report" "node" (Report_NodeID report) (Report_State report)
      [("policyRevision", ActionNumber (Report_PolicyRevision report)); ("reasonCodes", ActionTexts (Report_ReasonCodes report));
       ("verificationEventIds", ActionTexts (Report_VerificationEventIDs report)); ("evidenceClass", ActionText_ (Report_EvidenceClass report));
       ("evidenceProvenance", ActionText_ (Report_EvidenceProvenance report))])) in
  let! w := getS in
  let! '(findings, _) := liftR (ApplySnapshot (gw_findings w) (Some snapshot)) in
  modS (fun w => setPostures (<[Report_NodeID report := report]> (gw_postures w)) (setFindings findings w)).

Definition reportPosture (ctx : ctxT) (caller : option principal) (report : postureReport) : MG unit :=
  let! t := now clock in
  run! liftR (validatePostureReport report t) in
  let! read := attempt (coreDB (GetNode sqlFails (Report_NodeID report))) in
  match read with
  | Err _ => failM ErrReportNode
  | Ok node =>
      if negb (eqs (Node_Status node) NodeActive) then failM ErrReportInactive else
      let provenance := nodeEvidenceProvenance equalFold parseManifest node in
      if eqs provenance provenanceUnknown then failM ErrReportProvenance else
      if eqs provenance provenanceSimulation && negb (AGate_simulation gate) then failM ErrReportSimulation else
      let protected := eqs (Report_State report) "PROTECTED" in
      let! proof := (if protected then (let! p := validateProtectedEvidence report t in retM (Some p)) else retM None) in
      let class := match proof with Some _ => ClassVerified | None => ClassDetected end in
      let! snapshot := liftR (Posture_Evaluate formatNano (AGate_postureEngine gate) (reportInput report class)) in
      if negb (Bool.eqb (Protection_State snapshot =? StateProtected) protected) then failM ErrReportInconsistent else
      let validUntil := reportUntil report snapshot proof in
      commitReport ctx (principalFromContext caller)
        (derivedReport report snapshot validUntil (if protected then "VERIFIED" else "DETECTED")%string
           (match proof with Some p => Proof_provenance p | None => provenance end))
        (withValidUntil validUntil snapshot)
  end.

End PostureReports.
