(* ===== verification/DirectoryFacts.v ===== *)
(** * The directory: what its operations do to the file

    Everything before the rename leaves the file alone; the rename and the
    sync of the directory install the new content; a power loss at any system
    call leaves the old file or the new one. *)

From S2P Require Import Prelude Directory.
From stdpp Require Import base gmap list strings.
From Stdlib Require Import ZArith Lia.

Open Scope Z_scope.

(** A file as an installation leaves it. *)
Definition installedNode (content : list Z) : node := mkNode Regular perm_0600 content true.

(** What a reader that refuses anything but a private regular file finds. *)
Definition privateContent (f : node) : option (list Z) :=
  if bool_decide (node_kind f = Regular) && (node_mode f =? perm_0600) then Some (node_content f) else None.

Section Effects.
Context (sysFails : nat -> bool) (contention : nat -> nat * bool).

(** The images [d'] records beyond those of [d] all satisfy [P]. *)
Definition images_grow (P : option node -> Prop) (d d' : directory) : Prop :=
  forall i, i ∈ dir_images d' -> i ∈ dir_images d \/ P i.

(** What the disk or the running system has under the file's name. *)
Definition bound (d : directory) (i : option node) : Prop := i = dir_journal d \/ i = dir_durable d.

(** Neither name binding has changed, and no other binding was ever seen. *)
Definition calm (d d' : directory) : Prop :=
  dir_journal d' = dir_journal d /\ dir_durable d' = dir_durable d /\ images_grow (bound d) d d'.

Lemma calm_refl d : calm d d.
Proof. split_and!; [done..|]. intros i Hi. by left. Qed.

Lemma calm_trans d1 d2 d3 : calm d1 d2 -> calm d2 d3 -> calm d1 d3.
Proof.
  intros (Hj & Hd & Hi) (Hj' & Hd' & Hi'). split_and!; [congruence..|].
  intros i Hin. destruct (Hi' i Hin) as [H|[->| ->]]; [by apply Hi|right; left; congruence|right; right; congruence].
Qed.

(** A system call that leaves the two bindings alone. *)
Lemma calm_observe f d :
  dir_journal (f d) = dir_journal d -> dir_durable (f d) = dir_durable d -> dir_images (f d) = dir_images d ->
  calm d (observe (f d)).
Proof.
  intros Hj Hd Hi. split_and!; [done..|]. intros i. unfold observe; simpl. rewrite Hi, Hj, Hd, !elem_of_cons.
  unfold bound. tauto.
Qed.

Lemma wp_syscall e f Q d :
  Q (Ok tt) (observe (f d)) -> Q (Err e) d -> wp (syscall sysFails e f) Q d.
Proof. intros H1 H2 n. unfold syscall; simpl. by destruct (sysFails n). Qed.

Lemma wp_defer {S A} h (m : M S A) Q s : wp m (fun r s' => Q r (h s')) s -> wp (deferM h m) Q s.
Proof. intros H n. specialize (H n). unfold deferM. by destruct (m (n, s)) as [r [n' s']]. Qed.

Lemma wp_calm_syscall {A} e f (k : unit -> M directory A) (Q : result A -> directory -> Prop) d d0 :
  calm d0 d -> dir_journal (f d) = dir_journal d -> dir_durable (f d) = dir_durable d ->
  dir_images (f d) = dir_images d ->
  (forall d', calm d0 d' -> dir_stage d' = dir_stage (f d) -> wp (k tt) Q d') -> Q (Err e) d ->
  wp (let! x := syscall sysFails e f in k x) Q d.
Proof.
  intros Hc Hj Hd Hi Hk He. wp_step. apply wp_syscall; [|done]. apply Hk; [|done].
  eapply calm_trans; [done|by apply calm_observe].
Qed.

Lemma open_spec missing unopened unsafe d :
  wp (openFileNoFollow sysFails missing unopened unsafe) (fun res d' => d' = d /\
    (res = Err unopened \/
     match dir_journal d with
     | None => res = Err missing
     | Some f => match privateContent f with Some content => res = Ok content | None => res = Err unopened \/ res = Err unsafe end
     end)) d.
Proof.
  intros n. unfold openFileNoFollow; simpl. split; [done|]. destruct (sysFails n); [by left|right].
  destruct (dir_journal d) as [f|]; [|done]. unfold privateContent.
  destruct (node_kind f); simpl; [|by left|by right]. destruct (node_mode f =? perm_0600); simpl; [done|by right].
Qed.

(** ** Installing *)

Definition installs (content : list Z) (d : directory) (res : result unit) (d' : directory) : Prop :=
  images_grow (fun i => bound d i \/ i = Some (installedNode content)) d d' /\
  match res with
  | Ok _ => dir_journal d' = Some (installedNode content) /\ dir_durable d' = dir_journal d'
  | Err _ => dir_durable d' = dir_durable d /\
             (dir_journal d' = dir_journal d \/ dir_journal d' = Some (installedNode content))
  end.

Lemma calm_installs content d e d' : calm d d' -> installs content d (Err e) d'.
Proof. intros (Hj & Hd & Hi). split; [|by auto]. intros i Hin. destruct (Hi i Hin); auto. Qed.

(** Past the rename: the new file is visible, and the disk has the old one
    or the new one. *)
Lemma sync_installs E content d d' :
  images_grow (fun i => bound d i \/ i = Some (installedNode content)) d d' ->
  dir_journal d' = Some (installedNode content) -> dir_durable d' = dir_durable d ->
  wp (fsyncDirectory sysFails E) (installs content d) d'.
Proof.
  intros Hi Hj Hd. assert (forall e, installs content d (Err e) d') as He by (intros e; split; auto).
  unfold fsyncDirectory. repeat wp_step. destruct (negb _); [by apply wp_fail|].
  wp_step. apply wp_syscall; [|by apply He]. wp_step. apply wp_syscall.
  - split; [|by rewrite <- Hj]. intros i. unfold observe, syncDirectory; simpl.
    rewrite !elem_of_cons, Hj, Hd. intros [->|[->|[->|[->|Hin]]]]; unfold bound; [auto..|by apply Hi].
  - split; [|by auto]. intros i. unfold observe; simpl.
    rewrite !elem_of_cons, Hj, Hd. intros [->|[->|Hin]]; unfold bound; [auto..|by apply Hi].
Qed.

Lemma install_effect E content d :
  wp (installContent sysFails E content) (fun res d' => installs content d res d') d.
Proof.
  pose proof (calm_refl d) as Hc. unfold installContent.
  assert (forall d' e, calm d d' -> installs content d (Err e) (set_stage None d')) as He.
  { intros d' e Hd'. by apply calm_installs. }
  apply (wp_calm_syscall _ _ _ _ _ d); [done..|clear Hc; intros d1 Hc Hst|by apply calm_installs]. apply wp_defer.
  do 4 (apply (wp_calm_syscall _ _ _ _ _ d); [done..|clear Hc; intros ? Hc Hst'; simpl in Hst'; rewrite Hst in Hst';
    clear Hst; rename Hst' into Hst|by apply He]).
  wp_step. apply wp_syscall; [|by apply He]. wp_step.
  eapply wp_mono; [apply (sync_installs E content d)|].
  - intros i. unfold observe, install. simpl. rewrite !elem_of_cons, Hst.
    destruct Hc as (Hj & Hd & Hi). rewrite Hd. intros [->|[->|Hin]]; unfold bound; auto.
    destruct (Hi i Hin); auto.
  - exact Hst.
  - apply Hc.
  - intros [[]|e] ? Hs; exact Hs.
Qed.

(** An installation after operations that left the bindings alone. *)
Lemma calm_installs_trans content d d1 res d2 : calm d d1 -> installs content d1 res d2 -> installs content d res d2.
Proof.
  intros (Hj & Hd & Hi) [Hi2 Hs]. rewrite Hj in Hs.
  split; [|destruct res as [[]|]; rewrite <- ?Hd; exact Hs].
  intros i Hin. destruct (Hi2 i Hin) as [Hin1|[[->| ->]| ->]]; unfold bound; rewrite ?Hj, ?Hd; auto.
  destruct (Hi i Hin1) as [?|Hb]; [by auto|]. right. left. exact Hb.
Qed.

(** ** The lock *)

(** Methods that leave the file's bindings alone, however they end. *)
Definition calmly {A : Type} (m : M directory A) : Prop := forall d, wp m (fun _ d' => calm d d') d.

Lemma calmly_bind {A B} (m : M directory A) (k : A -> M directory B) :
  calmly m -> (forall a, calmly (k a)) -> calmly (bindM m k).
Proof.
  intros Hm Hk d. wp_step. eapply wp_mono; [apply Hm|]. intros [a|e] d1 Hc; [|done]. red.
  eapply wp_mono; [apply Hk|]. intros r d2 Hc2. by eapply calm_trans.
Qed.

Lemma calmly_syscall e f :
  (forall d, dir_journal (f d) = dir_journal d /\ dir_durable (f d) = dir_durable d /\ dir_images (f d) = dir_images d) ->
  calmly (syscall sysFails e f).
Proof. intros Hf d. apply wp_syscall; [apply calm_observe; apply Hf|apply calm_refl]. Qed.

Lemma calmly_pure {A} (m : M directory A) : (forall d, wp m (fun _ d' => d' = d) d) -> calmly m.
Proof. intros Hm d. eapply wp_mono; [apply Hm|]. intros r d' ->. apply calm_refl. Qed.

Local Ltac calmly_local :=
  repeat match goal with
  | |- calmly (bindM _ _) => apply calmly_bind; [|intros ?]
  | |- calmly (syscall _ _ _) => by apply calmly_syscall
  | |- calmly (if ?b then _ else _) => destruct b
  | |- calmly (match ?o with Some _ => _ | None => _ end) => destruct o
  | |- calmly (lockAttempts _ _ _ _) => fail 1
  | |- calmly (ctxErr _) => by (apply calmly_pure; intros ?; apply wp_ctxErr)
  | |- calmly _ => by (apply calmly_pure; intros ? ?)
  end.

Lemma lockAttempts_calmly refused ctx blocked acquired : calmly (lockAttempts refused ctx blocked acquired).
Proof.
  induction blocked as [|k IH]; simpl.
  - destruct acquired; [|calmly_local]. intros d. apply wp_mod. exact (calm_refl d).
  - apply calmly_bind; [calmly_local|intros _; exact IH].
Qed.

Lemma acquireLock_calmly refused ctx : calmly (acquireLock contention refused ctx).
Proof. apply calmly_bind; [by apply calmly_pure; intros ? ?|]. intros c. apply lockAttempts_calmly. Qed.

Lemma openLockFile_calmly unopened unsafe : calmly (openLockFile sysFails unopened unsafe).
Proof. unfold openLockFile. calmly_local. Qed.

(** ** When nothing goes wrong *)

(** A machine whose system calls succeed, a lock that is freed, and a live
    context. *)
Definition benign (ctx : ctxT) : Prop :=
  (forall n, sysFails n = false) /\ (forall n, snd (contention n) = true) /\ (forall n, ctx n = None).

Definition private_directory (d : directory) : Prop :=
  dir_kind d = Directory /\ dir_mode d = perm_0700 /\
  match dir_lock d with Some f => node_kind f = Regular | None => True end.

(** A method that succeeds and answers [a], keeping the directory private
    and the file's binding. *)
Definition succeeds {A : Type} (m : M directory A) (a : A) : Prop := forall d,
  private_directory d -> wp m (fun res d' => res = Ok a /\ private_directory d' /\ dir_journal d' = dir_journal d) d.

Lemma wp_live {ctx} e f Q d : benign ctx -> Q (Ok tt) (observe (f d)) -> wp (syscall sysFails e f) Q d.
Proof. intros (Hs & _) H n. unfold syscall; simpl. by rewrite Hs. Qed.

Lemma wp_live_ctx {S} ctx Q (s : S) : benign ctx -> Q (Ok tt) s -> wp (ctxErr ctx) Q s.
Proof. intros (_ & _ & Hc) H n. unfold ctxErr; simpl. by rewrite Hc. Qed.

Lemma lockAttempts_succeeds refused ctx blocked : benign ctx -> succeeds (lockAttempts refused ctx blocked true) tt.
Proof.
  intros Hb. induction blocked as [|k IH]; intros d Hd; simpl; [by apply wp_mod|].
  wp_step. apply (wp_live_ctx _ _ _ Hb). red. by apply IH.
Qed.

Lemma openLock_succeeds unopened unsafe ctx : benign ctx -> succeeds (openLockFile sysFails unopened unsafe) tt.
Proof.
  intros Hb d (Hk & Hm & Hl). unfold openLockFile. do 3 wp_step. destruct (dir_lock d) as [f|] eqn:Ef.
  - rewrite Hl. simpl. wp_step. apply (wp_live _ _ _ _ Hb). red. apply (wp_live _ _ _ _ Hb).
    by split_and!; [done|split_and!; [done..|simpl]|].
  - wp_step. apply (wp_live _ _ _ _ Hb). red. apply (wp_live _ _ _ _ Hb).
    by split_and!; [done|split_and!; [done..|simpl]|].
Qed.

Lemma acquireLock_succeeds refused ctx : benign ctx -> succeeds (acquireLock contention refused ctx) tt.
Proof.
  intros Hb d Hd. unfold acquireLock. wp_step. intros n. unfold attempts; simpl.
  destruct (contention n) as [blocked acquired] eqn:Ec.
  assert (acquired = true) as -> by (destruct Hb as (_ & Hc & _); specialize (Hc n); by rewrite Ec in Hc).
  by apply lockAttempts_succeeds.
Qed.

Lemma installContent_succeeds ctx E content d :
  benign ctx -> private_directory d -> wp (installContent sysFails E content) (fun res _ => res = Ok tt) d.
Proof.
  intros Hb (Hk & _). unfold installContent.
  wp_step. apply (wp_live _ _ _ _ Hb). red. apply wp_defer.
  do 5 (wp_step; apply (wp_live _ _ _ _ Hb); red).
  unfold fsyncDirectory. do 3 wp_step. simpl. rewrite Hk. simpl.
  wp_step. apply (wp_live _ _ _ _ Hb). red. by apply (wp_live _ _ _ _ Hb).
Qed.
End Effects.

(** ** Crashes and restarts *)

(** The directory a process finds that starts after a power loss which left
    the file [i]. *)
Definition restarted (i : option node) (d : directory) : directory :=
  mkDirectory (dir_kind d) (dir_linked d) (dir_mode d) (afterPowerLoss <$> i) (afterPowerLoss <$> i) None (dir_lock d) false [].

Definition unobserved (d : directory) : directory :=
  mkDirectory (dir_kind d) (dir_linked d) (dir_mode d) (dir_journal d) (dir_durable d) (dir_stage d) (dir_lock d) (dir_held d) [].

Lemma afterPowerLoss_twice (i : option node) : afterPowerLoss <$> (afterPowerLoss <$> i) = afterPowerLoss <$> i.
Proof. destruct i as [f|]; [|done]. simpl. f_equal. unfold afterPowerLoss. by destruct (node_synced f) eqn:E; simpl; rewrite ?E. Qed.

(** What is kept, for a store whose state is what [loads] reads in the file. *)
Section Kept.
Context {T : Type} (loads : option node -> result T) (wf : T -> Prop).

(** The file [i] loads, as it is and after a power loss, to one well-formed
    state that satisfies [P]. *)
Definition kept_holds (P : T -> Prop) (i : option node) : Prop :=
  exists s, loads i = Ok s /\ loads (afterPowerLoss <$> i) = Ok s /\ wf s /\ P s.

(** So do the file the system sees and the file on the disk. *)
Definition kept_keeps (P : T -> Prop) (d : directory) : Prop := kept_holds P (dir_journal d) /\ kept_holds P (dir_durable d).

(** What an operation leaves, on the disk and in every image of a power loss. *)
Definition kept_survives (P : T -> Prop) (d d' : directory) : Prop := kept_keeps P d' /\ images_grow (kept_holds P) d d'.

Lemma holds_mono (P Q : T -> Prop) i : (forall s, P s -> Q s) -> kept_holds P i -> kept_holds Q i.
Proof. intros HPQ (s & ? & ? & ? & ?). exists s. auto. Qed.

Lemma keeps_bound P d i : kept_keeps P d -> bound d i -> kept_holds P i.
Proof. by intros [Hj Hd] [->| ->]. Qed.

Lemma calm_survives P d d' : kept_keeps P d -> calm d d' -> kept_survives P d d'.
Proof.
  intros Hk (Hj & Hd & Hi). split; [unfold kept_keeps; by rewrite Hj, Hd|].
  intros i Hin. destruct (Hi i Hin); [by left|right]. by eapply keeps_bound.
Qed.

Lemma restarted_keeps P i d : kept_holds P i -> kept_keeps P (restarted i d).
Proof. intros (s & ? & ? & ? & ?). split; exists s; simpl; rewrite afterPowerLoss_twice; auto. Qed.

Lemma survives_keeps P d d' d'' : kept_survives P (unobserved d) d' ->
  d'' = d' \/ (exists i, i ∈ dir_images d' /\ d'' = restarted i d') -> kept_keeps P d''.
Proof.
  intros [Hk Hi] [->|(i & Hin & ->)]; [done|]. apply restarted_keeps. destruct (Hi i Hin) as [Hin'|?]; [by apply not_elem_of_nil in Hin'|done].
Qed.
End Kept.

(** Take a method apart that leaves the file's bindings alone. *)
Ltac calmly_tac :=
  repeat match goal with
  | |- calmly (bindM _ _) => apply calmly_bind; [|intros ?]
  | |- calmly (syscall _ _ _) => by apply calmly_syscall
  | |- calmly (openLockFile _ _ _) => apply openLockFile_calmly
  | |- calmly (acquireLock _ _ _) => apply acquireLock_calmly
  | |- calmly (if ?b then _ else _) => destruct b
  | |- calmly (match ?o with Some _ => _ | None => _ end) => destruct o
  | |- calmly (ctxErr _) => by (apply calmly_pure; intros ?; apply wp_ctxErr)
  | |- calmly _ => by (apply calmly_pure; intros ? ?)
  end.
