(* ===== verification/ContractFacts.v ===== *)
(** * The driver contract: theorems

    What the string rules accept, and what the digests bind. *)

From S2P Require Import Prelude Sha256 Digest Probe Contract DriverStores Lifecycle.
From stdpp Require Import base list strings sorting.
From Stdlib Require Import ZArith Lia.

Open Scope Z_scope.

(** ** String rules *)

Lemma validIdentifier_spec s :
  validIdentifier s = true <->
  s <> EmptyString /\ slen s <= MaxProbeIdentifierLength /\
  Forall (fun b => 0x21 <= b <= 0x7e) (bytes_of s).
Proof.
  unfold validIdentifier.
  transitivity (((eqs s EmptyString || (MaxProbeIdentifierLength <? slen s)) || negb (printableASCII s)) = false
    /\ containsAny s [space; tab] = false).
  { destruct (_ || negb _); rewrite ?negb_true_iff; naive_solver. }
  rewrite !orb_false, slen_nonempty, Z.ltb_ge, negb_false_iff, containsAny_false.
  unfold printableASCII. rewrite all_chars_forall.
  transitivity (s <> EmptyString /\ slen s <= MaxProbeIdentifierLength /\
    Forall (fun b => printable_byte b = true /\ b ∉ [space; tab]) (bytes_of s)).
  { rewrite Forall_and. naive_solver. }
  assert (Forall (fun b => printable_byte b = true /\ b ∉ [space; tab]) (bytes_of s) <->
          Forall (fun b => 0x21 <= b <= 0x7e) (bytes_of s)) as ->; [|done].
  apply Forall_iff. intros b. unfold printable_byte, space, tab. rewrite andb_true_iff, !Z.leb_le.
  rewrite !not_elem_of_cons. split; [intros (? & ? & ? & _); lia|].
  intros ?. split; [lia|]. repeat split; [lia..|apply not_elem_of_nil].
Qed.

Lemma ValidateTarget_spec s :
  ValidateTarget s = Ok tt <->
  s <> EmptyString /\ slen s <= MaxTargetLength /\
  Forall (fun b => 0x20 <= b <= 0x7e /\ b ∉ shellMetacharacters) (bytes_of s).
Proof.
  unfold ValidateTarget. rewrite !reject_Ok, orb_false, slen_nonempty, Z.ltb_ge, negb_false_iff, containsAny_false.
  unfold printableASCII. rewrite all_chars_forall, Forall_and.
  assert (Forall (fun b => printable_byte b = true) (bytes_of s) <->
          Forall (fun b => 0x20 <= b <= 0x7e) (bytes_of s)) as ->.
  { apply Forall_iff. intros b. unfold printable_byte. by rewrite andb_true_iff, !Z.leb_le. }
  naive_solver.
Qed.

(** ** Sizes: everything the digests hash fits its length prefix *)

Lemma identifier_chunk s : validIdentifier s = true -> chunk_ok (bytes_of s).
Proof.
  intros (_ & Hl & _)%validIdentifier_spec. apply chunk_ok_str.
  unfold MaxProbeIdentifierLength in Hl. lia.
Qed.

Lemma target_chunk s : ValidateTarget s = Ok tt -> chunk_ok (bytes_of s).
Proof.
  intros (_ & Hl & _)%ValidateTarget_spec. apply chunk_ok_str. unfold MaxTargetLength in Hl. lia.
Qed.

Lemma digest_chunk s : validDigest s = true -> chunk_ok (bytes_of s).
Proof.
  unfold validDigest. destruct (slen s =? sha256_Size * 2) eqn:E; simpl; [|done].
  intros _. apply chunk_ok_str. apply Z.eqb_eq in E. unfold sha256_Size in E. lia.
Qed.

Lemma reason_chunk s : validReasonCode s = true -> chunk_ok (bytes_of s).
Proof.
  unfold validReasonCode. destruct (negb (hasPrefix s "AF-")); [done|]. simpl.
  destruct (MaxProbeIdentifierLength <? slen s) eqn:E; [done|]. intros _. apply chunk_ok_str.
  apply Z.ltb_ge in E. unfold MaxProbeIdentifierLength in E. lia.
Qed.

#[export] Hint Resolve identifier_chunk target_chunk digest_chunk reason_chunk : antiflock.

(** Equal chunk lists, field by field. *)
Ltac chunks_eq H :=
  repeat match type of H with
  | _ :: _ = _ :: _ =>
      let E := fresh "E" in apply cons_inj in H as [E H];
      first [ apply bytes_of_inj in E | apply be_bytes8_inj in E; [|assumption..] | idtac ]
  end.

Ltac open_writers := unfold dw_time, dw_uint, dw_str, dw_bytes, newDigest; cbn [app].

Section Binding.
Context {H : Hasher}.

Lemma ReservationKey_writer_eq k : ReservationKey_writer k =
  [bytes_of "AntiFlock-DriverReservation-v1"; bytes_of (Key_PlanID k); be_bytes 8 (Key_PolicyRevision k);
   be_bytes 8 (Key_PlanRevision k); bytes_of (Key_Nonce k); bytes_of (Key_Fingerprint k)].
Proof. unfold ReservationKey_writer. by open_writers. Qed.

Lemma ReservationKey_chunks k : ReservationKey_Validate k = Ok tt -> Forall chunk_ok (ReservationKey_writer k).
Proof.
  intros Hk. unfold ReservationKey_Validate in Hk. validated Hk.
  apply orb_false in Hv1 as [[Hn Hf]%orb_false _]. apply negb_false_iff in Hn, Hf, Hv.
  rewrite ReservationKey_writer_eq. repeat constructor; auto with antiflock.
Qed.

(** The values a Go [uint64] field can hold. *)
Definition key_u64 (k : ReservationKey) : Prop := u64 (Key_PolicyRevision k) /\ u64 (Key_PlanRevision k).

Lemma ReservationKey_Digest_Ok k d :
  ReservationKey_Digest k = Ok d <->
  ReservationKey_Validate k = Ok tt /\ d = dw_hex (ReservationKey_writer k).
Proof. unfold ReservationKey_Digest. rewrite rbind_Ok. split; [intros ([] & ? & [=]); auto|intros [? ->]; eauto]. Qed.

Lemma ReservationKey_binding k1 k2 d :
  key_u64 k1 -> key_u64 k2 ->
  ReservationKey_Digest k1 = Ok d -> ReservationKey_Digest k2 = Ok d ->
  k1 = k2 \/ collision (dw_preimage (ReservationKey_writer k1)) (dw_preimage (ReservationKey_writer k2)).
Proof.
  intros [? ?] [? ?] [Hv1 ->]%ReservationKey_Digest_Ok [Hv2 Hd]%ReservationKey_Digest_Ok.
  apply dw_hex_binding in Hd as [Hw|]; [left|by right|auto using ReservationKey_chunks..].
  rewrite !ReservationKey_writer_eq in Hw. chunks_eq Hw.
  destruct k1, k2; simpl in *; congruence.
Qed.

Lemma OwnershipToken_writer_eq p r o t s : OwnershipToken_writer p r o t s =
  [bytes_of "AntiFlock-DriverOwnership-v1"; bytes_of p; be_bytes 8 r; bytes_of o; bytes_of t; bytes_of s].
Proof. unfold OwnershipToken_writer. by open_writers. Qed.

Lemma Approval_writer_eq p r o t k : Approval_writer p r o t k =
  [bytes_of "AntiFlock-DriverApproval-v1"; bytes_of p; be_bytes 8 r; bytes_of o; bytes_of t; bytes_of k].
Proof. unfold Approval_writer. by open_writers. Qed.

Lemma Receipt_writer_eq r : Receipt_writer r =
  [bytes_of "AntiFlock-DriverReceipt-v1"; be_bytes 8 (Receipt_SchemaVersion r);
   be_bytes 8 (ReceiptKind_num (Receipt_Kind r)); bytes_of (Receipt_PlanID r);
   be_bytes 8 (Receipt_PlanRevision r); bytes_of (Receipt_OperationID r); bytes_of (Receipt_Target r);
   bytes_of (Receipt_OwnershipToken r); bytes_of (Receipt_Digest r); bytes_of (Receipt_ReasonCode r);
   be_bytes 8 (Unix (Receipt_At r)); be_bytes 8 (Nanosecond (Receipt_At r))].
Proof. unfold Receipt_writer. by open_writers. Qed.

(** *** Snapshots *)

Definition entry_chunks (e : SnapshotEntry) : list (list Z) :=
  [bytes_of (Entry_Key e); bytes_of (Entry_Value e)].

Lemma Snapshot_writer_eq s : Snapshot_writer s =
  [bytes_of "AntiFlock-DriverSnapshot-v1"; be_bytes 8 (Snapshot_SchemaVersion s);
   bytes_of (Snapshot_DriverName s); be_bytes 8 (Scope_OperationType (Snapshot_Scope s));
   be_bytes 8 (len (Scope_Targets (Snapshot_Scope s)))]
  ++ map bytes_of (sort_strings (Scope_Targets (Snapshot_Scope s)))
  ++ be_bytes 8 (len (Snapshot_Entries s)) :: concat (map entry_chunks (Snapshot_Entries s)).
Proof.
  unfold Snapshot_writer. rewrite dw_strs_eq. unfold dw_uint at 1. unfold dw_bytes at 1.
  assert (forall es w, fold_left (fun w entry => dw_str (Entry_Value entry) (dw_str (Entry_Key entry) w)) es w
    = w ++ concat (map entry_chunks es)) as ->.
  { induction es as [|e es IH]; intros w; simpl; [by rewrite app_nil_r|].
    rewrite IH. unfold dw_str, dw_bytes. by rewrite <- !app_assoc. }
  replace (len (sort_strings (Scope_Targets (Snapshot_Scope s)))) with (len (Scope_Targets (Snapshot_Scope s)))
    by (unfold len, sort_strings; by rewrite merge_sort_Permutation).
  open_writers. by rewrite <- !app_assoc.
Qed.

Lemma sort_strings_perm l : sort_strings l ≡ₚ l.
Proof. apply merge_sort_Permutation. Qed.

Lemma operation_type_known t : badOperationType t = false -> 1 <= t <= 8.
Proof.
  unfold badOperationType. intros [H1 H2]%orb_false. apply Z.eqb_neq in H1. apply slen_nonempty in H2.
  unfold PlanOperationType_name in H2.
  destruct t as [|p|p]; [done| |done]. do 4 (destruct p as [p|p|]; try done; try lia).
Qed.

Lemma snapshot_entries_forall prev es :
  snapshot_entries prev es = Ok tt ->
  Forall (fun e => ValidateTarget (Entry_Key e) = Ok tt /\ slen (Entry_Value e) <= MaxSnapshotValueLength) es.
Proof.
  revert prev. induction es as [|e es IH]; intros prev Hv; [done|]. simpl in Hv.
  validated Hv. apply orb_false in Hv1 as [Hl _]. apply Z.ltb_ge in Hl. constructor; [done|]. by eapply IH.
Qed.

Lemma Snapshot_Digest_Ok s d :
  Snapshot_Digest s = Ok d <-> Snapshot_Validate s = Ok tt /\ d = dw_hex (Snapshot_writer s).
Proof. unfold Snapshot_Digest. rewrite rbind_Ok. split; [intros ([] & ? & [=]); auto|intros [? ->]; eauto]. Qed.

(** What a valid snapshot guarantees of the parts the digest hashes. *)
Lemma Snapshot_Validate_inv s : Snapshot_Validate s = Ok tt ->
  Snapshot_SchemaVersion s = ContractVersion /\ validIdentifier (Snapshot_DriverName s) = true /\
  1 <= Scope_OperationType (Snapshot_Scope s) <= 8 /\
  len (Scope_Targets (Snapshot_Scope s)) <= MaxSnapshotEntries /\
  Forall (fun t => ValidateTarget t = Ok tt) (Scope_Targets (Snapshot_Scope s)) /\
  len (Snapshot_Entries s) <= MaxSnapshotEntries /\
  Forall (fun e => ValidateTarget (Entry_Key e) = Ok tt /\ slen (Entry_Value e) <= MaxSnapshotValueLength)
    (Snapshot_Entries s).
Proof.
  unfold Snapshot_Validate, Scope_Validate. intros Hv. validated Hv. validated Hv2.
  apply negb_false_iff in Hv0, Hv1. apply Z.eqb_eq in Hv0. apply operation_type_known in Hv6.
  apply Z.ltb_ge in Hv3, Hv7. apply each_Ok in Hv2. apply snapshot_entries_forall in Hv4. auto 10.
Qed.

Lemma Snapshot_chunks s : Snapshot_Validate s = Ok tt -> Forall chunk_ok (Snapshot_writer s).
Proof.
  intros (_ & Hn & _ & _ & Ht & _ & He)%Snapshot_Validate_inv. rewrite Snapshot_writer_eq.
  cbn [app]. repeat (apply Forall_cons; split; [auto with antiflock|]).
  apply Forall_app; split.
  - apply Forall_map. rewrite sort_strings_perm. eapply Forall_impl; [exact Ht|auto with antiflock].
  - apply Forall_cons; split; [auto with antiflock|].
    apply Forall_concat, Forall_map. eapply Forall_impl; [exact He|]. intros e [Hk Hl]. simpl.
    unfold entry_chunks. repeat constructor; [auto with antiflock|]. apply chunk_ok_str.
    unfold MaxSnapshotValueLength in Hl. lia.
Qed.

Lemma entry_chunks_inj es fs :
  concat (map entry_chunks es) = concat (map entry_chunks fs) -> es = fs.
Proof.
  revert fs. induction es as [|[k v] es IH]; intros [|[k' v'] fs] E; simpl in *; try done.
  injection E as Ek Ev E. apply bytes_of_inj in Ek, Ev. f_equal; [congruence|auto].
Qed.

Lemma len_u64 {A} (l : list A) : len l <= MaxSnapshotEntries -> u64 (len l).
Proof. unfold u64, len, MaxSnapshotEntries. lia. Qed.

Lemma snapshot_binding s1 s2 d :
  Snapshot_Digest s1 = Ok d -> Snapshot_Digest s2 = Ok d ->
  (Snapshot_DriverName s1 = Snapshot_DriverName s2 /\
   Scope_OperationType (Snapshot_Scope s1) = Scope_OperationType (Snapshot_Scope s2) /\
   Scope_Targets (Snapshot_Scope s1) ≡ₚ Scope_Targets (Snapshot_Scope s2) /\
   Snapshot_Entries s1 = Snapshot_Entries s2)
  \/ collision (dw_preimage (Snapshot_writer s1)) (dw_preimage (Snapshot_writer s2)).
Proof.
  intros [V1 ->]%Snapshot_Digest_Ok [V2 Hd]%Snapshot_Digest_Ok.
  apply dw_hex_binding in Hd as [Hw|]; [left|by right|auto using Snapshot_chunks..].
  apply Snapshot_Validate_inv in V1 as (S1 & _ & O1 & T1 & _ & E1 & _).
  apply Snapshot_Validate_inv in V2 as (S2 & _ & O2 & T2 & _ & E2 & _).
  rewrite !Snapshot_writer_eq in Hw. cbn [app] in Hw.
  assert (u64 (Scope_OperationType (Snapshot_Scope s1))) by (unfold u64; lia).
  assert (u64 (Scope_OperationType (Snapshot_Scope s2))) by (unfold u64; lia).
  pose proof (len_u64 _ T1). pose proof (len_u64 _ T2). pose proof (len_u64 _ E1). pose proof (len_u64 _ E2).
  chunks_eq Hw.
  apply app_inj_1 in Hw as [Ht Hw].
  2: { rewrite !length_map, !sort_strings_perm. unfold len in *. lia. }
  apply cons_inj in Hw as [_ Hw]. apply entry_chunks_inj in Hw.
  repeat split; auto. rewrite <- (sort_strings_perm (Scope_Targets (Snapshot_Scope s1))).
  rewrite <- (sort_strings_perm (Scope_Targets (Snapshot_Scope s2))).
  apply map_bytes_of_inj in Ht. by rewrite Ht.
Qed.

(** *** Receipts *)

Lemma ContentDigest_Ok r d :
  ContentDigest r = Ok d <-> Receipt_Validate r = Ok tt /\ d = dw_hex (Receipt_writer r).
Proof. unfold ContentDigest. rewrite rbind_Ok. split; [intros ([] & ? & [=]); auto|intros [? ->]; eauto]. Qed.

Lemma optional_target_chunk s :
  (if negb (eqs s EmptyString) then ValidateTarget s else Ok tt) = Ok tt -> chunk_ok (bytes_of s).
Proof.
  destruct (eqs s EmptyString) eqn:E; simpl; [|auto with antiflock].
  apply eqs_true in E as ->. intros _. by apply chunk_ok_str.
Qed.

Lemma Receipt_chunks r : Receipt_Validate r = Ok tt -> Forall chunk_ok (Receipt_writer r).
Proof.
  intros Hr. unfold Receipt_Validate in Hr. validated Hr. apply optional_target_chunk in Hv2.
  apply orb_false in Hv1 as [[Hp _]%orb_false Ho]. apply negb_false_iff in Hp, Ho, Hv3, Hv4, Hv5.
  rewrite Receipt_writer_eq. repeat constructor; auto with antiflock.
Qed.

(** The values the Go fields of a receipt can hold. *)
Definition receipt_ranges (r : Receipt) : Prop := u64 (Receipt_PlanRevision r) /\ i64 (Unix (Receipt_At r)).

Lemma ReceiptKind_num_inj k1 k2 : be_bytes 8 (ReceiptKind_num k1) = be_bytes 8 (ReceiptKind_num k2) -> k1 = k2.
Proof. intros E%be_bytes8_inj; [|by destruct k1|by destruct k2]. by destruct k1, k2. Qed.

Lemma Receipt_binding r1 r2 d :
  receipt_ranges r1 -> receipt_ranges r2 ->
  ContentDigest r1 = Ok d -> ContentDigest r2 = Ok d ->
  r1 = r2 \/ collision (dw_preimage (Receipt_writer r1)) (dw_preimage (Receipt_writer r2)).
Proof.
  intros [? Ht1] [? Ht2] [V1 ->]%ContentDigest_Ok [V2 Hd]%ContentDigest_Ok.
  apply dw_hex_binding in Hd as [Hw|]; [left|by right|auto using Receipt_chunks..].
  assert (Receipt_SchemaVersion r1 = Receipt_SchemaVersion r2) as Hs.
  { unfold Receipt_Validate in V1, V2. validated V1. validated V2. lia. }
  assert (u64 (Nanosecond (Receipt_At r1)) /\ u64 (Nanosecond (Receipt_At r2))) as [? ?].
  { unfold u64, Nanosecond. pose proof (Z.mod_pos_bound (Receipt_At r1) 1000000000).
    pose proof (Z.mod_pos_bound (Receipt_At r2) 1000000000). lia. }
  rewrite !Receipt_writer_eq in Hw. chunks_eq Hw.
  apply ReceiptKind_num_inj in E1. apply be_bytes8_signed_inj in E9; [|done..].
  assert (Receipt_At r1 = Receipt_At r2) by (rewrite (time_split (Receipt_At r1)), (time_split (Receipt_At r2)); congruence).
  destruct r1, r2; simpl in *; congruence.
Qed.

(** *** Approvals and ownership tokens *)

Lemma ApprovalDigest_Ok p r o t k d :
  ApprovalDigest p r o t k = Ok d <->
  validIdentifier p = true /\ r <> 0 /\ validIdentifier o = true /\ validIdentifier k = true /\
  ValidateTarget t = Ok tt /\ d = dw_hex (Approval_writer p r o t k).
Proof.
  unfold ApprovalDigest. rewrite reject_Ok, rbind_Ok, !orb_false, !negb_false_iff, Z.eqb_neq.
  split; [intros ([[[]]] & [] & ? & [=]); auto 10|intros (? & ? & ? & ? & ? & ->); eauto 10].
Qed.

(** What an approval hashes. *)
Definition approvalPreimage (a : Approval) : list Z :=
  dw_preimage (Approval_writer (Approval_PlanID a) (Approval_PlanRevision a) (Approval_OperationID a) (Approval_Target a) (Approval_ApproverKind a)).

Lemma Approval_binding a1 a2 :
  u64 (Approval_PlanRevision a1) -> u64 (Approval_PlanRevision a2) ->
  Approval_Validate a1 = Ok tt -> Approval_Validate a2 = Ok tt ->
  Approval_Digest a1 = Approval_Digest a2 ->
  a1 = a2 \/ collision (approvalPreimage a1) (approvalPreimage a2).
Proof.
  intros ? ? V1 V2 Hd. unfold Approval_Validate in V1, V2. validated V1. validated V2.
  apply negb_false_iff, eqs_true in Hv0, Hv2.
  apply ApprovalDigest_Ok in Hv as (? & ? & ? & ? & ? & E1).
  apply ApprovalDigest_Ok in Hv1 as (? & ? & ? & ? & ? & E2).
  assert (dw_hex (Approval_writer (Approval_PlanID a1) (Approval_PlanRevision a1) (Approval_OperationID a1) (Approval_Target a1) (Approval_ApproverKind a1))
    = dw_hex (Approval_writer (Approval_PlanID a2) (Approval_PlanRevision a2) (Approval_OperationID a2) (Approval_Target a2) (Approval_ApproverKind a2))) as Hw by congruence.
  apply dw_hex_binding in Hw as [Hw|]; [left|by right|..].
  - rewrite !Approval_writer_eq in Hw. chunks_eq Hw. destruct a1, a2; simpl in *; congruence.
  - rewrite Approval_writer_eq. repeat constructor; auto with antiflock.
  - rewrite Approval_writer_eq. repeat constructor; auto with antiflock.
Qed.
End Binding.
