(* ===== verification/ProbeFacts.v ===== *)
(** * Capability probes: theorems

    A probe result is a set-valued claim: the order in which a driver lists
    its operations, reasons and constraints changes neither its validity nor
    its digest, and the digest determines everything else. *)

From S2P Require Import Prelude Sha256 Digest Probe Contract ContractFacts.
From stdpp Require Import base gmap list strings sorting.
From Stdlib Require Import ZArith Lia.

Open Scope Z_scope.

(** ** Results up to the order of their lists *)

Record probe_equiv (r1 r2 : ProbeResult) : Prop := {
  pe_operations : Probe_Operations r1 ≡ₚ Probe_Operations r2;
  pe_reasons : Probe_ReasonCodes r1 ≡ₚ Probe_ReasonCodes r2;
  pe_constraints : Probe_Constraints r1 ≡ₚ Probe_Constraints r2;
  pe_rest :
    (Probe_SchemaVersion r1, Probe_Key r1, Probe_Domain r1, Probe_SupportLevel r1, Probe_DriverName r1,
     Probe_DriverVersion r1, Probe_Health r1, Probe_RecoveryReady r1, Probe_ProbedAt r1, Probe_ExpiresAt r1)
    = (Probe_SchemaVersion r2, Probe_Key r2, Probe_Domain r2, Probe_SupportLevel r2, Probe_DriverName r2,
     Probe_DriverVersion r2, Probe_Health r2, Probe_RecoveryReady r2, Probe_ProbedAt r2, Probe_ExpiresAt r2);
}.

#[export] Instance probe_equiv_equivalence : Equivalence probe_equiv.
Proof.
  split.
  - intros r. by split.
  - intros r1 r2 []. split; by symmetry.
  - intros r1 r2 r3 [] []. split; by etrans.
Qed.

(** ** Validity *)

Lemma probe_operations_Ok seen l :
  probe_operations seen l = Ok tt <->
  Forall (fun o => 1 <= o <= 4) l /\ NoDup l /\ Forall (fun o => o ∉ seen) l.
Proof.
  revert seen. induction l as [|o l IH]; intros seen; simpl.
  { split; [repeat split; constructor|done]. }
  rewrite !reject_Ok, IH, !Forall_cons, NoDup_cons, bool_decide_eq_false, orb_false, negb_false_iff.
  unfold CapabilityOperation_known. rewrite andb_true_iff, !Z.leb_le, Z.eqb_neq, !Forall_forall.
  split.
  - intros ([? ?] & ? & Hk & ? & Hs). split; [split; [lia|done]|]. split; [split; [|done]|split; [done|]].
    + intros Ho. apply (Hs o Ho). set_solver.
    + intros x Hx. specialize (Hs x Hx). set_solver.
  - intros ([? Hk] & [Ho ?] & ? & Hs). split; [lia|]. split; [done|]. split; [done|]. split; [done|].
    intros x Hx. specialize (Hs x Hx). assert (x <> o) by (by intros ->). set_solver.
Qed.

Lemma probe_operations_error seen l e : probe_operations seen l = Err e -> e = ErrProbeInvalid.
Proof.
  revert seen. induction l as [|o l IH]; intros seen; simpl; [done|].
  repeat (case_match; [by intros [= <-]|]). apply IH.
Qed.

(** Every refusal of [Validate] is the same sentinel. *)
Lemma ProbeResult_Validate_error r e : ProbeResult_Validate r = Err e -> e = ErrProbeInvalid.
Proof.
  unfold ProbeResult_Validate. intros Hv.
  repeat match type of Hv with
  | (if ?b then _ else _) = _ => destruct b; [by injection Hv as <-|]
  | rbind (probe_operations _ _) _ = _ =>
      apply rbind_Err in Hv as [Hv|([] & _ & Hv)]; [by eapply probe_operations_error|]
  | rbind _ _ = _ => apply rbind_Err in Hv as [Hv|([] & _ & Hv)]; [apply each_Err in Hv as (x & _ & Hv); by case_match; [injection Hv as <-|]|]
  end. done.
Qed.

Lemma ProbeResult_Validate_mono r1 r2 :
  probe_equiv r1 r2 -> ProbeResult_Validate r1 = Ok tt -> ProbeResult_Validate r2 = Ok tt.
Proof.
  destruct r1 as [v1 k1 d1 os l1 n1 w1 h1 y1 cs ks p1 x1], r2 as [v2 k2 d2 os' l2 n2 w2 h2 y2 cs' ks' p2 x2].
  intros [Ho Hr Hc Hrest]; simpl in *. injection Hrest as -> -> -> -> -> -> -> -> -> ->.
  unfold ProbeResult_Validate; simpl.
  intros Hv.
  unfold len in *. rewrite <- (Permutation_length Ho), <- (Permutation_length Hr), <- (Permutation_length Hc).
  assert (probe_operations ∅ os = Ok tt -> probe_operations ∅ os' = Ok tt) as Hops.
  { rewrite !probe_operations_Ok. by setoid_rewrite Ho. }
  validated Hv. rewrite Hops by done. apply each_Ok in Hv9, Hv11. rewrite Hr in Hv9. rewrite Hc in Hv11.
  apply each_Ok in Hv9, Hv11. simpl in *.
  by repeat (first [match goal with Hb : _ = false |- _ => rewrite Hb; clear Hb end | rewrite Hv9 | rewrite Hv11]; simpl).
Qed.

#[export] Instance ProbeResult_Validate_proper : Proper (probe_equiv ==> eq) ProbeResult_Validate.
Proof.
  intros r1 r2 He. destruct (ProbeResult_Validate r1) as [[]|e1] eqn:E1.
  - by rewrite (ProbeResult_Validate_mono r1 r2).
  - destruct (ProbeResult_Validate r2) as [[]|e2] eqn:E2.
    + symmetry in He. by rewrite (ProbeResult_Validate_mono r2 r1) in E1.
    + by rewrite (ProbeResult_Validate_error r1 e1), (ProbeResult_Validate_error r2 e2).
Qed.

(** ** The digest *)

Lemma ProbeResult_writer_eq r : ProbeResult_writer r =
  [bytes_of "AntiFlock-DriverProbe-v1"; be_bytes 8 (Probe_SchemaVersion r); bytes_of (Probe_Key r);
   be_bytes 8 (Probe_Domain r); be_bytes 8 (len (Probe_Operations r))]
  ++ map (be_bytes 8) (sort_ints (Probe_Operations r))
  ++ be_bytes 8 (Probe_SupportLevel r) :: bytes_of (Probe_DriverName r) :: bytes_of (Probe_DriverVersion r)
  :: be_bytes 8 (HealthStatus_num (Probe_Health r)) :: be_bytes 8 (if Probe_RecoveryReady r then 1 else 0)
  :: be_bytes 8 (len (Probe_ReasonCodes r))
  :: map bytes_of (sort_strings (Probe_ReasonCodes r))
  ++ be_bytes 8 (len (Probe_Constraints r))
  :: map bytes_of (sort_strings (Probe_Constraints r))
  ++ [be_bytes 8 (Unix (Probe_ProbedAt r)); be_bytes 8 (Nanosecond (Probe_ProbedAt r));
      be_bytes 8 (Unix (Probe_ExpiresAt r)); be_bytes 8 (Nanosecond (Probe_ExpiresAt r))].
Proof.
  unfold ProbeResult_writer. rewrite !dw_strs_eq.
  assert (forall es w, fold_left (fun w o => dw_uint o w) es w = w ++ map (be_bytes 8) es) as ->.
  { induction es as [|e es IH]; intros w; simpl; [by rewrite app_nil_r|].
    rewrite IH. unfold dw_uint, dw_bytes. by rewrite <- app_assoc. }
  assert (forall l, len (sort_strings l) = len l) as Hl.
  { intros l. unfold len. by rewrite (Permutation_length (sort_strings_perm l)). }
  assert (len (sort_ints (Probe_Operations r)) = len (Probe_Operations r)) as ->.
  { unfold len, sort_ints. by rewrite (Permutation_length (merge_sort_Permutation Z.le (Probe_Operations r))). }
  rewrite !Hl. open_writers. by rewrite <- !app_assoc.
Qed.

#[export] Instance ProbeResult_writer_proper : Proper (probe_equiv ==> eq) ProbeResult_writer.
Proof.
  intros r1 r2 [Ho Hr Hc Hrest]. injection Hrest as H1 H2 H3 H4 H5 H6 H7 H8 H9 H10.
  rewrite !ProbeResult_writer_eq, H1, H2, H3, H4, H5, H6, H7, H8, H9, H10.
  unfold sort_ints, sort_strings. rewrite (merge_sort_ext Z.le _ _ Ho), (merge_sort_ext String.le _ _ Hr), (merge_sort_ext String.le _ _ Hc).
  unfold len. by rewrite (Permutation_length Ho), (Permutation_length Hr), (Permutation_length Hc).
Qed.

Section Digest.
Context {H : Hasher}.

Lemma ProbeResult_Digest_Ok r d :
  ProbeResult_Digest r = Ok d <-> ProbeResult_Validate r = Ok tt /\ d = dw_hex (ProbeResult_writer r).
Proof. unfold ProbeResult_Digest. rewrite rbind_Ok. split; [intros ([] & ? & [=]); auto|intros [? ->]; eauto]. Qed.

#[export] Instance ProbeResult_Digest_proper : Proper (probe_equiv ==> eq) ProbeResult_Digest.
Proof.
  intros r1 r2 He. unfold ProbeResult_Digest.
  by rewrite (ProbeResult_Validate_proper _ _ He), (ProbeResult_writer_proper _ _ He).
Qed.

(** What a valid result guarantees of the values the digest hashes. *)
Record probe_bounds (r : ProbeResult) : Prop := {
  pb_schema : Probe_SchemaVersion r = ProbeSchemaVersion;
  pb_key : slen (Probe_Key r) <= MaxProbeKeyLength;
  pb_domain : 1 <= Probe_Domain r <= 11;
  pb_operations : Forall (fun o => 1 <= o <= 4) (Probe_Operations r) /\ NoDup (Probe_Operations r) /\ Probe_Operations r <> [];
  pb_support : 1 <= Probe_SupportLevel r <= 4;
  pb_name : validIdentifier (Probe_DriverName r) = true /\ validIdentifier (Probe_DriverVersion r) = true;
  pb_ready : Probe_RecoveryReady r = true -> Probe_Health r = HealthHealthy \/ Probe_Health r = HealthDegraded;
  pb_reasons : 1 <= len (Probe_ReasonCodes r) <= MaxProbeReasonCodes /\ Forall (fun c => validReasonCode c = true) (Probe_ReasonCodes r);
  pb_constraints : len (Probe_Constraints r) <= MaxProbeConstraints /\
    Forall (fun c => 1 <= slen c <= MaxProbeConstraintLength /\ printableASCII c = true) (Probe_Constraints r);
  pb_time : Probe_ProbedAt r < Probe_ExpiresAt r <= Probe_ProbedAt r + MaxProbeValidity;
}.

Lemma slen_pos s : s <> EmptyString -> 1 <= slen s.
Proof. unfold slen. destruct s; simpl; [done|lia]. Qed.

Lemma len_0 {A} (l : list A) : (len l =? 0) = false -> l <> [] /\ 1 <= len l.
Proof. unfold len. destruct l; simpl; [done|]. split; [done|lia]. Qed.

Lemma ProbeResult_Validate_bounds r : ProbeResult_Validate r = Ok tt -> probe_bounds r.
Proof.
  unfold ProbeResult_Validate. intros Hv. validated Hv.
  apply probe_operations_Ok in Hv4 as (? & ? & _). apply len_0 in Hv3 as [? _].
  apply each_Ok in Hv9, Hv11. apply orb_false in Hv2 as [? Hd], Hv5 as [? Hs], Hv6 as [? ?], Hv8 as [[_ ?]%len_0 ?].
  apply negb_false_iff in Hd, Hs. unfold CapabilityDomain_known, CapabilitySupportLevel_known in *.
  split; try lia; auto.
  - unfold validKey in Hv1. destruct (eqs _ _ || _ || _ || _ || _) eqn:E; [done|].
    repeat apply orb_false in E as [E ?]. lia.
  - by rewrite <- !negb_false_iff.
  - intros Hr. rewrite Hr in Hv7. destruct (Probe_Health r); simpl in Hv7; auto; done.
  - split; [lia|]. eapply Forall_impl; [exact Hv9|]. intros c [Hc _]%reject_Ok. by apply negb_false_iff.
  - split; [lia|]. eapply Forall_impl; [exact Hv11|].
    intros c [[[Hn ?]%orb_false Hp]%orb_false _]%reject_Ok. apply slen_nonempty, slen_pos in Hn.
    apply negb_false_iff in Hp. split; [lia|done].
Qed.

Lemma probe_chunks r : ProbeResult_Validate r = Ok tt -> Forall chunk_ok (ProbeResult_writer r).
Proof.
  intros [Hs Hk Hd Ho Hl [Hn Hn'] _ [Hr Hr'] [Hc Hc'] _]%ProbeResult_Validate_bounds.
  rewrite ProbeResult_writer_eq. unfold MaxProbeKeyLength, MaxProbeConstraintLength in *.
  assert (chunk_ok (bytes_of (Probe_Key r))) by (apply chunk_ok_str; lia).
  assert (Forall chunk_ok (map bytes_of (sort_strings (Probe_ReasonCodes r)))).
  { apply Forall_map. rewrite sort_strings_perm. eapply Forall_impl; [exact Hr'|auto with antiflock]. }
  assert (Forall chunk_ok (map bytes_of (sort_strings (Probe_Constraints r)))).
  { apply Forall_map. rewrite sort_strings_perm. eapply Forall_impl; [exact Hc'|].
    intros c [? _]. apply chunk_ok_str. lia. }
  cbn [app]. repeat (apply Forall_cons; split; [auto with antiflock|]).
  apply Forall_app; split; [apply Forall_map, Forall_true; auto with antiflock|].
  repeat (apply Forall_cons; split; [auto with antiflock|]). apply Forall_app; split; [done|].
  apply Forall_cons; split; [auto with antiflock|]. apply Forall_app; split; [done|].
  repeat constructor; auto with antiflock.
Qed.

Lemma map_be_bytes_inj os os' :
  Forall u64 os -> Forall u64 os' -> map (be_bytes 8) os = map (be_bytes 8) os' -> os = os'.
Proof.
  intros Ho. revert os'. induction Ho as [|o os Ho Hos IH]; intros [|o' os'] Ho' E; try done.
  apply Forall_cons in Ho' as [? ?]. cbn [map] in E. apply cons_inj in E as [E1 E2].
  apply be_bytes8_inj in E1; [|done..]. f_equal; auto.
Qed.

Lemma HealthStatus_num_inj h1 h2 : be_bytes 8 (HealthStatus_num h1) = be_bytes 8 (HealthStatus_num h2) -> h1 = h2.
Proof. intros E%be_bytes8_inj; [|by destruct h1|by destruct h2]. by destruct h1, h2. Qed.

Lemma ready_inj (b1 b2 : bool) : be_bytes 8 (if b1 then 1 else 0) = be_bytes 8 (if b2 then 1 else 0) -> b1 = b2.
Proof. intros E%be_bytes8_inj; [|by destruct b1|by destruct b2]. by destruct b1, b2. Qed.

Lemma nanosecond_u64 t : u64 (Nanosecond t).
Proof. unfold u64, Nanosecond. pose proof (Z.mod_pos_bound t 1000000000). lia. Qed.

(** The instants the Go fields hold: seconds in an [int64]. *)
Definition probe_ranges (r : ProbeResult) : Prop :=
  i64 (Unix (Probe_ProbedAt r)) /\ i64 (Unix (Probe_ExpiresAt r)).

Lemma time_inj t1 t2 : i64 (Unix t1) -> i64 (Unix t2) ->
  be_bytes 8 (Unix t1) = be_bytes 8 (Unix t2) -> be_bytes 8 (Nanosecond t1) = be_bytes 8 (Nanosecond t2) -> t1 = t2.
Proof.
  intros ? ? Eu%be_bytes8_signed_inj En%be_bytes8_inj; [|auto using nanosecond_u64..].
  rewrite (time_split t1), (time_split t2). congruence.
Qed.

(** A counted list of chunks ends where its count says. *)
Lemma counted_inj {A} (f : A -> list Z) (sort : list A -> list A) l k r1 r2 :
  (forall l, sort l ≡ₚ l) -> len l = len k ->
  map f (sort l) ++ r1 = map f (sort k) ++ r2 -> map f (sort l) = map f (sort k) /\ r1 = r2.
Proof.
  intros Hs Hl. apply app_inj_1. rewrite !length_map, !(Permutation_length (Hs _)). unfold len in Hl. lia.
Qed.

Lemma probe_u64 r : probe_bounds r ->
  u64 (len (Probe_Operations r)) /\ u64 (len (Probe_ReasonCodes r)) /\ u64 (len (Probe_Constraints r)) /\
  u64 (Probe_Domain r) /\ u64 (Probe_SupportLevel r) /\ Forall u64 (sort_ints (Probe_Operations r)).
Proof.
  intros [_ _ ? (Ho & Hn & _) ? _ _ [? _] [? _] _].
  unfold u64, MaxProbeReasonCodes, MaxProbeConstraints in *.
  assert (length (Probe_Operations r) <= 4)%nat.
  { apply (NoDup_incl_length (l' := [1; 2; 3; 4])); [by apply NoDup_ListNoDup|].
    intros o Hin%list_elem_of_In. rewrite Forall_forall in Ho. specialize (Ho o Hin). simpl. lia. }
  repeat split; try lia; try (unfold len in *; lia).
  unfold sort_ints. rewrite merge_sort_Permutation. eapply Forall_impl; [exact Ho|]. simpl. lia.
Qed.

(** Two writers of valid results with the same chunks. *)
Lemma probe_writer_inj r1 r2 :
  probe_bounds r1 -> probe_bounds r2 -> probe_ranges r1 -> probe_ranges r2 ->
  ProbeResult_writer r1 = ProbeResult_writer r2 -> probe_equiv r1 r2.
Proof.
  intros B1 B2 [? ?] [? ?] Hw. rewrite !ProbeResult_writer_eq in Hw.
  destruct (probe_u64 r1 B1) as (? & ? & ? & ? & ? & ?). destruct (probe_u64 r2 B2) as (? & ? & ? & ? & ? & ?).
  cbn [app] in Hw. chunks_eq Hw.
  apply counted_inj in Hw as [Eo Hw]; [|intros l; apply merge_sort_Permutation|done]. chunks_eq Hw.
  apply counted_inj in Hw as [Er Hw]; [|apply sort_strings_perm|done]. chunks_eq Hw.
  apply counted_inj in Hw as [Ec Hw]; [|apply sort_strings_perm|done].
  apply map_be_bytes_inj in Eo; [|done..]. apply map_bytes_of_inj in Er, Ec.
  apply cons_inj in Hw as [Ep1 Hw]. apply cons_inj in Hw as [Ep2 Hw].
  apply cons_inj in Hw as [Ex1 Hw]. apply cons_inj in Hw as [Ex2 _].
  split.
  - unfold sort_ints in Eo. by rewrite <- (merge_sort_Permutation Z.le (Probe_Operations r1)), <- (merge_sort_Permutation Z.le (Probe_Operations r2)), Eo.
  - by rewrite <- (sort_strings_perm (Probe_ReasonCodes r1)), <- (sort_strings_perm (Probe_ReasonCodes r2)), Er.
  - by rewrite <- (sort_strings_perm (Probe_Constraints r1)), <- (sort_strings_perm (Probe_Constraints r2)), Ec.
  - assert (Probe_ProbedAt r1 = Probe_ProbedAt r2) by (by apply time_inj).
    assert (Probe_ExpiresAt r1 = Probe_ExpiresAt r2) by (by apply time_inj).
    apply HealthStatus_num_inj in E7. apply ready_inj in E8.
    destruct B1 as [S1 _ _ _ _ _ _ _ _ _], B2 as [S2 _ _ _ _ _ _ _ _ _]. congruence.
Qed.

(** The digest of a probe result is a digest of the claim, not of its
    spelling: equivalent results (the same claim with operations, reasons and
    constraints in another order) have the same digest and the same errors,
    and two results with the same digest are equivalent, unless the hash
    collides. *)
Theorem probe_digest_exact r1 r2 :
  (probe_equiv r1 r2 -> ProbeResult_Digest r1 = ProbeResult_Digest r2) /\
  forall d, probe_ranges r1 -> probe_ranges r2 ->
    ProbeResult_Digest r1 = Ok d -> ProbeResult_Digest r2 = Ok d ->
    probe_equiv r1 r2 \/
    collision (dw_preimage (ProbeResult_writer r1)) (dw_preimage (ProbeResult_writer r2)).
Proof.
  split; [apply ProbeResult_Digest_proper|].
  intros d ? ? [V1 ->]%ProbeResult_Digest_Ok [V2 Hd]%ProbeResult_Digest_Ok.
  apply dw_hex_binding in Hd as [Hw|]; [left|by right|by apply probe_chunks..].
  apply probe_writer_inj; auto using ProbeResult_Validate_bounds.
Qed.

(** A probe result that validates claims nothing it cannot: it is recovery
    ready only in a healthy or degraded state, names at least one known
    operation and none twice, carries one to 32 reason codes, and expires
    after it was taken and within a day, so that a result read a day later is
    always expired. *)
Theorem probe_claim_bounded r :
  ProbeResult_Validate r = Ok tt ->
  (Probe_RecoveryReady r = true -> Probe_Health r = HealthHealthy \/ Probe_Health r = HealthDegraded) /\
  (Forall (fun o => 1 <= o <= 4) (Probe_Operations r) /\ NoDup (Probe_Operations r) /\ Probe_Operations r <> []) /\
  (1 <= len (Probe_ReasonCodes r) <= MaxProbeReasonCodes) /\
  ProbeResult_Expired r (Probe_ProbedAt r) = false /\
  forall instant, Probe_ProbedAt r + MaxProbeValidity <= instant -> ProbeResult_Expired r instant = true.
Proof.
  intros [_ _ _ Ho _ _ Hr [Hc _] _ Ht]%ProbeResult_Validate_bounds.
  unfold ProbeResult_Expired. repeat split; try done; try lia; apply Ho.
Qed.
End Digest.

(** Every reason code the package declares is one it accepts, and no two are
    spelled the same. *)
Example reason_codes_valid :
  forallb validReasonCode (probe_reasons ++ contract_reasons) = true /\ NoDup (probe_reasons ++ contract_reasons).
Proof. split; [vm_compute; reflexivity|]. apply (bool_decide_unpack _). vm_compute. exact I. Qed.

(** ** The pinned result of agent/driver/probe_test.go *)

Definition demo_probe (operations : list Z) : ProbeResult :=
  mkProbeResult 1 "firewall.nftables.enforce" 6 operations 3 "nftables" "0.1.0" HealthHealthy true
    [ReasonProbeOK] ["isolated-table-only"%string]
    (1787486400 * Second) (1787486400 * Second + 10 * Minute).

Example probe_digest_pinned : @ProbeResult_Digest sha256 (demo_probe [3; 2]) =
  Ok "10a87041bb92a1a22b2b1d9e245fc01654f6c7b12faa57d854586e7eec372b0a"%string.
Proof. vm_compute. reflexivity. Qed.

Example probe_digest_reordered :
  @ProbeResult_Digest sha256 (demo_probe [2; 3]) = @ProbeResult_Digest sha256 (demo_probe [3; 2]).
Proof. apply ProbeResult_Digest_proper. split; [apply Permutation_swap|reflexivity..]. Qed.

Lemma probe_claim_bounded_witness :
  ProbeResult_Validate (demo_probe [3; 2]) = Ok tt /\
  ProbeResult_Expired (demo_probe [3; 2]) (1787486400 * Second) = false.
Proof.
  split; [vm_compute; reflexivity|].
  apply (probe_claim_bounded (demo_probe [3; 2])). vm_compute. reflexivity.
Defined.
