(* ===== verification/ContractSpec.v ===== *)
(** * The driver contract: what it promises

    Which targets and requests cross the host-mutation boundary, and what each
    digest of the package commits to: two values with the same digest are the
    same value, or SHA-256 has a collision. *)

From S2P Require Import Prelude Sha256 Digest Probe Contract DriverStores Lifecycle ContractFacts.
From stdpp Require Import base gmap list strings sorting.
From Stdlib Require Import ZArith Lia.

Open Scope Z_scope.

(** ** What crosses the boundary *)

(** A target is accepted exactly when it is one to 256 printable ASCII
    characters, none of them white space, a quote or a shell metacharacter;
    every other string is refused with [ErrUnsafeTarget]. *)
Theorem target_shell_free s :
  (ValidateTarget s = Ok tt /\
   1 <= slen s <= MaxTargetLength /\
   Forall (fun b => 0x21 <= b <= 0x7d /\ b ∉ shellMetacharacters) (bytes_of s)) \/
  (ValidateTarget s = Err ErrUnsafeTarget /\
   ~ (1 <= slen s <= MaxTargetLength /\
      Forall (fun b => 0x21 <= b <= 0x7d /\ b ∉ shellMetacharacters) (bytes_of s))).
Proof.
  assert (ValidateTarget s = Ok tt <-> 1 <= slen s <= MaxTargetLength /\
    Forall (fun b => 0x21 <= b <= 0x7d /\ b ∉ shellMetacharacters) (bytes_of s)) as Hs.
  { rewrite ValidateTarget_spec.
    assert (s <> EmptyString <-> 1 <= slen s) as ->.
    { unfold slen. destruct s; simpl; split; intros ?; try done; lia. }
    assert (Forall (fun b => 0x20 <= b <= 0x7e /\ b ∉ shellMetacharacters) (bytes_of s) <->
            Forall (fun b => 0x21 <= b <= 0x7d /\ b ∉ shellMetacharacters) (bytes_of s)) as ->; [|naive_solver].
    apply Forall_iff. intros b. split; [|intros [? ?]; split; [lia|done]].
    intros [? Hb]. split; [|done].
    assert (b <> 32 /\ b <> 126) as [? ?]; [|lia].
    split; intros ->; apply Hb; unfold shellMetacharacters; set_solver. }
  destruct (ValidateTarget s) as [[]|e] eqn:E; [left; by rewrite <- Hs|].
  right. rewrite <- Hs. split; [|done]. f_equal. revert E. unfold ValidateTarget.
  repeat (case_match; [by intros [= <-]|]). done.
Qed.

Section Spec.
Context {H : Hasher}.

(** What a caller must present to mutate a host. *)
Record mutation_warrant (q : ApplyRequest) : Prop := {
  warrant_plan : validIdentifier (Apply_PlanID q) = true /\ Apply_PlanRevision q <> 0;
  warrant_operation : exists o, Apply_Operation q = Some o /\ validIdentifier (Operation_Id o) = true /\
    Operation_Id o = Apply_OperationID q /\ Operation_Target o = Apply_Target q /\ 1 <= Operation_Type o <= 8;
  warrant_target : ValidateTarget (Apply_Target q) = Ok tt;
  (** The reservation token is the digest of its key, and the key names this
      very plan revision. *)
  warrant_reservation :
    ReservationKey_Digest (Token_Key (Apply_Reservation q)) = Ok (Token_Token (Apply_Reservation q)) /\
    Token_IssuedAt (Apply_Reservation q) <> zeroTime /\
    Key_PlanID (Token_Key (Apply_Reservation q)) = Apply_PlanID q /\
    Key_PlanRevision (Token_Key (Apply_Reservation q)) = Apply_PlanRevision q;
  warrant_timeout : 0 < Apply_Timeout q <= MaxOperationTimeout;
}.

Lemma ReservationToken_Validate_iff t :
  ReservationToken_Validate t = Ok tt <->
  ReservationKey_Digest (Token_Key t) = Ok (Token_Token t) /\ Token_IssuedAt t <> zeroTime.
Proof.
  unfold ReservationToken_Validate. rewrite rbind_Ok. unfold IsZero. split.
  - intros (d & Hd & [Ht [Hz _]%reject_Ok]%reject_Ok).
    apply negb_false_iff, eqs_true in Ht as ->. apply Z.eqb_neq in Hz. done.
  - intros [Hd Hz%Z.eqb_neq]. exists (Token_Token t). by rewrite eqs_refl, Hz.
Qed.

Lemma badOperationType_iff t : badOperationType t = false <-> 1 <= t <= 8.
Proof.
  split; [apply operation_type_known|]. intros Ht.
  assert (t = 1 \/ t = 2 \/ t = 3 \/ t = 4 \/ t = 5 \/ t = 6 \/ t = 7 \/ t = 8) as Hc by lia.
  by destruct Hc as [->|[->|[->|[->|[->|[->|[->| ->]]]]]]].
Qed.

Lemma apply_request_parts q : ApplyRequest_Validate q = Ok tt ->
  GetTarget (Apply_Operation q) = Apply_Target q /\ ValidateTarget (Apply_Target q) = Ok tt.
Proof.
  unfold ApplyRequest_Validate. intros Hv. validated Hv. split; [|done].
  by apply negb_false_iff, eqs_true in Hv4.
Qed.

Lemma ApplyRequest_warrant q : ApplyRequest_Validate q = Ok tt <-> mutation_warrant q.
Proof.
  unfold ApplyRequest_Validate. split.
  - intros Hv. validated Hv. rewrite ReservationToken_Validate_iff in Hv6. destruct Hv6 as [? ?].
    apply orb_false in Hv0 as [[Hp Hr]%orb_false Ho]. apply orb_false in Hv7 as [Hk1 Hk2].
    apply orb_false in Hv8 as [? ?].
    destruct (Apply_Operation q) as [o|] eqn:Eo; [|done]. simpl in *.
    apply negb_false_iff in Hp, Ho, Hv3, Hv4, Hk1, Hk2. apply eqs_true in Hv3, Hv4, Hk1.
    apply badOperationType_iff in Hv5.
    split; [split; [done|lia]|exists o; rewrite Hv3; auto|done|split; [done|]; split; [done|]; split; [done|lia]|lia].
  - intros [[? ?] (o & Eo & ? & ? & ? & ?) -> (? & ? & ? & ?) ?]. rewrite Eo. simpl.
    rewrite (proj2 (ReservationToken_Validate_iff _)) by done. simpl.
    rewrite (proj2 (badOperationType_iff (Operation_Type o))) by done.
    replace (validIdentifier (Apply_OperationID q)) with true by congruence.
    replace (validIdentifier (Apply_PlanID q)) with true by congruence. simpl.
    rewrite (proj2 (eqs_true _ _)), (proj2 (eqs_true _ _)), (proj2 (eqs_true _ _)) by done. simpl.
    destruct (Apply_PlanRevision q =? 0) eqn:?; [lia|]. simpl.
    destruct (Key_PlanRevision _ =? _) eqn:?; [|lia]. simpl.
    destruct ((_ <=? 0) || _) eqn:?; [lia|done].
Qed.

(** The request check accepts exactly the requests that carry the whole
    warrant: a named plan revision, a typed operation on the same shell-free
    target, a reservation whose token is the digest of a key for that plan
    revision, and a bounded timeout. *)
Theorem apply_request_warrant q : ApplyRequest_Validate q = Ok tt <-> mutation_warrant q.
Proof. apply ApplyRequest_warrant. Qed.

(** ** What the digests commit to *)

(** A reservation token names its key: two valid tokens with the same text
    are for the same plan, revisions, nonce and fingerprint, unless the hash
    collides. *)
Theorem reservation_token_binding t1 t2 :
  key_u64 (Token_Key t1) -> key_u64 (Token_Key t2) ->
  ReservationToken_Validate t1 = Ok tt -> ReservationToken_Validate t2 = Ok tt ->
  Token_Token t1 = Token_Token t2 ->
  Token_Key t1 = Token_Key t2 \/
  collision (dw_preimage (ReservationKey_writer (Token_Key t1))) (dw_preimage (ReservationKey_writer (Token_Key t2))).
Proof.
  intros ? ? [V1 _]%ReservationToken_Validate_iff [V2 _]%ReservationToken_Validate_iff E.
  rewrite <- E in V2. by eapply ReservationKey_binding.
Qed.

(** The state of the host two snapshots describe: the time of the capture and
    the order in which the scope lists its targets do not belong to it. *)
Definition same_state (s1 s2 : Snapshot) : Prop :=
  Snapshot_DriverName s1 = Snapshot_DriverName s2 /\
  Scope_OperationType (Snapshot_Scope s1) = Scope_OperationType (Snapshot_Scope s2) /\
  Scope_Targets (Snapshot_Scope s1) ≡ₚ Scope_Targets (Snapshot_Scope s2) /\
  Snapshot_Entries s1 = Snapshot_Entries s2.

Lemma same_state_writer s1 s2 :
  Snapshot_SchemaVersion s1 = Snapshot_SchemaVersion s2 -> same_state s1 s2 ->
  Snapshot_writer s1 = Snapshot_writer s2.
Proof.
  intros Hs (Hn & Ho & Ht & He). rewrite !Snapshot_writer_eq, Hs, Hn, Ho, He.
  assert (sort_strings (Scope_Targets (Snapshot_Scope s1)) = sort_strings (Scope_Targets (Snapshot_Scope s2))) as ->
    by (by apply merge_sort_ext; try apply _).
  unfold len. by rewrite (Permutation_length Ht).
Qed.

(** The digest of a snapshot identifies the state it captured: equal states
    have equal digests whenever they were captured and in whatever order the
    targets were asked for, and equal digests mean equal states, unless the
    hash collides. *)
Theorem snapshot_digest_exact s1 s2 d1 d2 :
  Snapshot_Digest s1 = Ok d1 -> Snapshot_Digest s2 = Ok d2 ->
  (same_state s1 s2 -> d1 = d2) /\
  (d1 = d2 -> same_state s1 s2 \/
     collision (dw_preimage (Snapshot_writer s1)) (dw_preimage (Snapshot_writer s2))).
Proof.
  intros H1 H2. split; [|intros <-; by eapply snapshot_binding].
  intros Hs. apply Snapshot_Digest_Ok in H1 as [V1 ->], H2 as [V2 ->].
  f_equal. apply same_state_writer; [|done].
  apply Snapshot_Validate_inv in V1 as [-> _], V2 as [-> _]. done.
Qed.

(** A receipt is tamper-evident: two receipts with the same content digest
    agree on every field, unless the hash collides. *)
Theorem receipt_tamper_evident r1 r2 d :
  receipt_ranges r1 -> receipt_ranges r2 ->
  ContentDigest r1 = Ok d -> ContentDigest r2 = Ok d ->
  r1 = r2 \/ collision (dw_preimage (Receipt_writer r1)) (dw_preimage (Receipt_writer r2)).
Proof. apply Receipt_binding. Qed.

(** An approval cannot be moved: an approval that validates with the digest
    of another valid approval is that approval, so it cannot be presented for
    another plan, revision, operation, target or approver kind, unless the
    hash collides. *)
Theorem approval_not_transferable a1 a2 :
  u64 (Approval_PlanRevision a1) -> u64 (Approval_PlanRevision a2) ->
  Approval_Validate a1 = Ok tt -> Approval_Validate a2 = Ok tt ->
  Approval_Digest a1 = Approval_Digest a2 ->
  a1 = a2 \/ collision (approvalPreimage a1) (approvalPreimage a2).
Proof. apply Approval_binding. Qed.

Lemma OwnershipToken_chunks p r o t s :
  validIdentifier p = true -> validIdentifier o = true -> ValidateTarget t = Ok tt -> validDigest s = true ->
  Forall chunk_ok (OwnershipToken_writer p r o t s).
Proof. intros. rewrite OwnershipToken_writer_eq. repeat constructor; auto with antiflock. Qed.

(** Ownership is bound to the reservation: the ownership tokens of two
    applies are equal only when plan, revision, operation, target and
    reservation token are, unless the hash collides; and an ownership token is
    always a well-formed digest. *)
Theorem ownership_token_binding p1 r1 o1 t1 s1 p2 r2 o2 t2 s2 :
  Forall (fun x => validIdentifier x = true) [p1; o1; p2; o2] ->
  Forall (fun t => ValidateTarget t = Ok tt) [t1; t2] ->
  Forall (fun s => validDigest s = true) [s1; s2] -> u64 r1 -> u64 r2 ->
  validDigest (OwnershipTokenFor p1 r1 o1 t1 s1) = true /\
  (OwnershipTokenFor p1 r1 o1 t1 s1 = OwnershipTokenFor p2 r2 o2 t2 s2 ->
   (p1, r1, o1, t1, s1) = (p2, r2, o2, t2, s2) \/
   collision (dw_preimage (OwnershipToken_writer p1 r1 o1 t1 s1))
             (dw_preimage (OwnershipToken_writer p2 r2 o2 t2 s2))).
Proof.
  rewrite !Forall_cons. intros (? & ? & ? & ? & _) (? & ? & _) (? & ? & _) ? ?.
  split; [apply dw_hex_valid|]. intros E.
  apply dw_hex_binding in E as [Hw|]; [left|by right|by apply OwnershipToken_chunks..].
  rewrite !OwnershipToken_writer_eq in Hw. chunks_eq Hw. congruence.
Qed.
End Spec.

(** ** Concrete values, with the real SHA-256 *)

Definition orEmpty (r : result string) : string := match r with Ok s => s | Err _ => EmptyString end.

Definition demo_key : ReservationKey := mkKey "plan-1" 3 7 "00ff" "sha256:agent".
Definition demo_token (instant : time) : ReservationToken :=
  mkToken demo_key (orEmpty (@ReservationKey_Digest sha256 demo_key)) instant.

Lemma reservation_token_binding_witness :
  Token_IssuedAt (demo_token 5) <> Token_IssuedAt (demo_token 6) /\
  (Token_Key (demo_token 5) = Token_Key (demo_token 6) \/
   @collision sha256 (dw_preimage (ReservationKey_writer (Token_Key (demo_token 5))))
     (dw_preimage (ReservationKey_writer (Token_Key (demo_token 6))))).
Proof.
  split; [cbn [Token_IssuedAt demo_token]; lia|].
  apply (@reservation_token_binding sha256 (demo_token 5) (demo_token 6)).
  - split; split; vm_compute; congruence.
  - split; split; vm_compute; congruence.
  - vm_compute; reflexivity.
  - vm_compute; reflexivity.
  - vm_compute; reflexivity.
Defined.

Definition demo_snapshot (targets : list string) (instant : time) : Snapshot :=
  mkSnapshot ContractVersion "memory" (mkScope 1 targets) [mkEntry "inet/a" "firewall:00"] instant.

Lemma snapshot_digest_exact_witness :
  let s1 := demo_snapshot ["inet/a"; "inet/b"]%string 5 in
  let s2 := demo_snapshot ["inet/b"; "inet/a"]%string 9 in
  @Snapshot_Digest sha256 s1 = @Snapshot_Digest sha256 s2.
Proof.
  intros s1 s2.
  assert (@Snapshot_Digest sha256 s1 = Ok (orEmpty (@Snapshot_Digest sha256 s1))) as H1 by (vm_compute; reflexivity).
  assert (@Snapshot_Digest sha256 s2 = Ok (orEmpty (@Snapshot_Digest sha256 s2))) as H2 by (vm_compute; reflexivity).
  assert (same_state s1 s2) as Hs by (repeat split; apply Permutation_swap).
  exact (eq_trans H1 (eq_trans (f_equal Ok (proj1 (@snapshot_digest_exact sha256 s1 s2 _ _ H1 H2) Hs)) (eq_sym H2))).
Defined.

(** The receipt of the package's own pinned test vector. *)
Definition demo_receipt : Receipt :=
  mkReceipt 1 ReceiptKindApply "plan" 1 "op" "t"
    "aaaaaaaaaaaaaaaaaaaaaaaaaaaaaaaaaaaaaaaaaaaaaaaaaaaaaaaaaaaaaaaa"
    "bbbbbbbbbbbbbbbbbbbbbbbbbbbbbbbbbbbbbbbbbbbbbbbbbbbbbbbbbbbbbbbb"
    ReasonApplied (1787486400 * 1000000000).

(** The layout is the pinned one: agent/driver/contract_test.go. *)
Example receipt_digest_pinned : @ContentDigest sha256 demo_receipt =
  Ok "2371a87b3e5d4834850af03ffe814c5994eb75632d206d6e2a873c58672b1502"%string.
Proof. vm_compute. reflexivity. Qed.

Lemma receipt_tamper_evident_witness :
  exists d, @ContentDigest sha256 demo_receipt = Ok d /\
  forall r, receipt_ranges r -> @ContentDigest sha256 r = Ok d ->
    demo_receipt = r \/ @collision sha256 (dw_preimage (Receipt_writer demo_receipt)) (dw_preimage (Receipt_writer r)).
Proof.
  exists "2371a87b3e5d4834850af03ffe814c5994eb75632d206d6e2a873c58672b1502"%string.
  split; [vm_compute; reflexivity|]. intros r Hr Hd.
  apply (@receipt_tamper_evident sha256 demo_receipt r
           "2371a87b3e5d4834850af03ffe814c5994eb75632d206d6e2a873c58672b1502"%string);
    [split; vm_compute; split; congruence|exact Hr|vm_compute; reflexivity|exact Hd].
Defined.

Definition demo_approval : Approval :=
  mkApproval "plan-1" 7 "op-1" "inet/a" "operator"
    (orEmpty (@ApprovalDigest sha256 "plan-1" 7 "op-1" "inet/a" "operator")).

Lemma approval_not_transferable_witness :
  @Approval_Validate sha256 demo_approval = Ok tt /\
  forall a, u64 (Approval_PlanRevision a) -> @Approval_Validate sha256 a = Ok tt ->
    Approval_Digest demo_approval = Approval_Digest a ->
    demo_approval = a \/ @collision sha256 (approvalPreimage demo_approval) (approvalPreimage a).
Proof.
  split; [vm_compute; reflexivity|]. intros a Ha Hv Hd.
  apply (@approval_not_transferable sha256 demo_approval a);
    [vm_compute; split; congruence|exact Ha|vm_compute; reflexivity|exact Hv|exact Hd].
Defined.

Lemma ownership_token_binding_witness :
  validDigest (@OwnershipTokenFor sha256 "plan-1" 7 "op-1" "inet/a" (Token_Token (demo_token 5))) = true.
Proof.
  apply (@ownership_token_binding sha256 "plan-1" 7 "op-1" "inet/a" (Token_Token (demo_token 5))
           "plan-2" 8 "op-2" "inet/b" (Token_Token (demo_token 5)));
    [repeat constructor; vm_compute; reflexivity..|vm_compute; split; congruence|vm_compute; split; congruence].
Defined.

(** A request with its whole warrant, and the same request with a target the
    operation does not name. *)
Definition demo_operation : PlanOperation := mkPlanOperation "op-1" 1 "inet/a" None.
Definition demo_request (target : string) : ApplyRequest :=
  mkApplyRequest "plan-1" 7 "op-1" target (Some demo_operation) (demo_token 5) (30 * Second).

Example demo_request_accepted : @ApplyRequest_Validate sha256 (demo_request "inet/a") = Ok tt.
Proof. vm_compute. reflexivity. Qed.

Example demo_request_retargeted :
  @ApplyRequest_Validate sha256 (demo_request "inet/b") = Err ErrTargetMismatch.
Proof. vm_compute. reflexivity. Qed.
