(* ===== verification/JournalFacts.v ===== *)
(** * The journal discipline: theorems

    [append] keeps a journal loadable and moves its open entries as the
    record says, compaction included; compaction bounds the finished history;
    [inFlight] lists the open entries in one order whatever the iteration
    order of the map. *)

From S2P Require Import Prelude Sha256 Digest Probe Contract Journal Interfaces.
From stdpp Require Import base gmap list strings sorting.
From Stdlib Require Import ZArith Lia.

Open Scope Z_scope.

(** ** Open entries *)

Lemma open_app rs r : open (rs ++ [r]) = open_step (open rs) r.
Proof. unfold open. by rewrite fold_left_app. Qed.

Lemma open_step_lookup_ne m r i : Identity r <> i -> open_step m r !! i = m !! i.
Proof.
  intros Hi. unfold open_step. destruct (Record_Kind r);
    rewrite ?lookup_insert_ne, ?lookup_delete_ne by done; done.
Qed.

(** The entries outside a set of identities. *)
Definition outside (X : gset JournalIdentity) (m : openMap) : openMap :=
  filter (fun p => p.1 ∉ X) m.

Definition keep (X : gset JournalIdentity) (rs : list JournalRecord) : list JournalRecord :=
  filter (fun r => Identity r ∉ X) rs.

Lemma outside_step_in X m r : Identity r ∈ X -> outside X (open_step m r) = outside X m.
Proof.
  intros Hr. unfold outside, open_step. destruct (Record_Kind r); [done|..].
  - apply map_filter_insert_not. naive_solver.
  - apply map_filter_insert_not. naive_solver.
  - apply map_filter_delete_not. naive_solver.
Qed.

Lemma outside_step_out X m r : Identity r ∉ X -> outside X (open_step m r) = open_step (outside X m) r.
Proof.
  intros Hr. unfold outside, open_step. destruct (Record_Kind r); [done|..].
  - by apply map_filter_insert_True.
  - by apply map_filter_insert_True.
  - by rewrite map_filter_delete.
Qed.

Lemma open_keep_from X rs m :
  fold_left open_step (keep X rs) (outside X m) = outside X (fold_left open_step rs m).
Proof.
  unfold keep. revert m. induction rs as [|r rs IH]; intros m; [done|].
  rewrite filter_cons. simpl. destruct (decide (Identity r ∉ X)) as [Hr|Hr]; simpl.
  - rewrite <- outside_step_out by done. apply IH.
  - apply dec_stable in Hr. by rewrite <- (outside_step_in X m r Hr), IH.
Qed.

Lemma open_keep X rs : open (keep X rs) = outside X (open rs).
Proof.
  unfold open. by rewrite <- open_keep_from.
Qed.

Lemma outside_closed X m : (forall i, i ∈ X -> m !! i = None) -> outside X m = m.
Proof.
  intros HX. unfold outside. apply map_filter_id. intros i x Hi; simpl. intros HiX.
  rewrite HX in Hi; done.
Qed.

(** ** The choice of the entries to drop *)

Lemma choose_dropped_closed opened cs n X rs i :
  (forall j, j ∈ X -> opened !! j = None) ->
  i ∈ choose_dropped opened cs n X rs -> opened !! i = None.
Proof.
  revert n X. induction rs as [|r rs IH]; intros n X HX; simpl; [by apply HX|].
  case_match; [by apply HX|]. case_bool_decide as Ho; [by apply IH|].
  case_bool_decide; [by apply IH|]. apply IH. intros j [->%elem_of_singleton|Hj]%elem_of_union; [|auto].
  by apply eq_None_not_Some.
Qed.

Lemma compact_keep rs : exists X,
  compact rs = keep X rs /\ forall i, i ∈ X -> open rs !! i = None.
Proof.
  assert (keep ∅ rs = rs) as Hid.
  { unfold keep. induction rs as [|r rs IH]; [done|]. rewrite filter_cons_True by set_solver. by rewrite IH. }
  unfold compact. case_match; [exists ∅; split; [done|set_solver]|].
  case_bool_decide; [exists ∅; split; [done|set_solver]|].
  eexists. split; [reflexivity|]. intros i. apply choose_dropped_closed. set_solver.
Qed.

Lemma compact_open rs : open (compact rs) = open rs.
Proof.
  destruct (compact_keep rs) as (X & -> & HX). by rewrite open_keep, outside_closed.
Qed.

(** ** Loadability *)

Lemma check_records_app m rs r :
  check_records m (rs ++ [r]) = Ok tt <->
  check_records m rs = Ok tt /\ JournalRecord_Validate r = Ok tt /\
  admissible (fold_left open_step rs m) r = Ok tt.
Proof.
  revert m. induction rs as [|r0 rs IH]; intros m; simpl.
  - rewrite <- !is_ok_unit. destruct (is_ok (JournalRecord_Validate r)), (is_ok (admissible m r)); simpl; naive_solver.
  - destruct (is_ok (JournalRecord_Validate r0)), (is_ok (admissible m r0)); simpl;
      [apply IH|naive_solver..].
Qed.

Lemma admissible_outside X m r : Identity r ∉ X -> admissible (outside X m) r = admissible m r.
Proof.
  intros Hr. unfold admissible. replace (outside X m !! Identity r) with (m !! Identity r); [done|].
  unfold outside. rewrite map_lookup_filter. destruct (m !! Identity r); simpl; [|done].
  by rewrite option_guard_True.
Qed.

Lemma check_records_keep X rs m :
  check_records m rs = Ok tt -> check_records (outside X m) (keep X rs) = Ok tt.
Proof.
  unfold keep. revert m. induction rs as [|r rs IH]; intros m; [done|]. simpl.
  destruct (is_ok (JournalRecord_Validate r)) eqn:Hv; simpl; [|done].
  destruct (is_ok (admissible m r)) eqn:Ha; simpl; [|done]. intros Hc.
  rewrite filter_cons. destruct (decide (Identity r ∉ X)) as [Hr|Hr]; simpl.
  - rewrite Hv, admissible_outside, Ha by done. simpl. rewrite <- outside_step_out by done. by apply IH.
  - apply dec_stable in Hr. rewrite <- (outside_step_in X m r) by done. by apply IH.
Qed.

Lemma keep_len X rs : len (keep X rs) <= len rs.
Proof. unfold len, keep. pose proof (length_filter (fun r => Identity r ∉ X) rs). lia. Qed.

Lemma check_compact rs : check rs = Ok tt -> check (compact rs) = Ok tt.
Proof.
  destruct (compact_keep rs) as (X & -> & HX). unfold check.
  destruct (MaxJournalRecords <? len rs) eqn:E; [done|]. intros Hc.
  pose proof (keep_len X rs).
  destruct (MaxJournalRecords <? len (keep X rs)) eqn:E'; [lia|].
  rewrite <- (map_filter_empty (fun p : JournalIdentity * JournalRecord => p.1 ∉ X)).
  by apply check_records_keep.
Qed.

Lemma append_Ok rs r rs' :
  append rs r = Ok rs' <->
  JournalRecord_Validate r = Ok tt /\ len rs < MaxJournalRecords /\ admissible (open rs) r = Ok tt /\
  rs' = if bool_decide (Record_Kind r = JournalKindFinish) then compact (rs ++ [r]) else rs ++ [r].
Proof.
  unfold append. rewrite rbind_Ok. split.
  - intros ([] & Hv & Hr). destruct (MaxJournalRecords <=? len rs) eqn:E; [done|].
    apply rbind_Ok in Hr as ([] & Ha & Hr). injection Hr as <-. repeat split; auto; lia.
  - intros (Hv & Hl & Ha & ->). exists tt. split; [done|].
    destruct (MaxJournalRecords <=? len rs) eqn:E; [lia|]. by rewrite Ha.
Qed.

Lemma append_open rs r rs' : append rs r = Ok rs' -> open rs' = open_step (open rs) r.
Proof.
  intros (_ & _ & _ & ->)%append_Ok. case_bool_decide; [rewrite compact_open|]; apply open_app.
Qed.

Lemma append_check rs r rs' : check rs = Ok tt -> append rs r = Ok rs' -> check rs' = Ok tt.
Proof.
  intros Hc (Hv & Hl & Ha & ->)%append_Ok.
  assert (check (rs ++ [r]) = Ok tt) as Hc'.
  { unfold check in *. destruct (MaxJournalRecords <? len rs) eqn:E; [done|].
    destruct (MaxJournalRecords <? len (rs ++ [r])) eqn:E'.
    - apply Z.ltb_lt in E'. unfold len in *. rewrite length_app in E'. cbn [length] in E'. lia.
    - by apply check_records_app. }
  case_bool_decide; [by apply check_compact|done].
Qed.

(** ** The bound of compaction *)

(** The number of records of an identity. *)
Definition occurrences (i : JournalIdentity) (rs : list JournalRecord) : Z :=
  len (filter (fun r => Identity r = i) rs).

Lemma len_cons {A} (x : A) l : len (x :: l) = len l + 1.
Proof. unfold len. simpl. lia. Qed.

Lemma counts_occurrences rs i : default 0 (counts rs !! i) = occurrences i rs.
Proof.
  unfold counts, occurrences.
  assert (forall m : gmap JournalIdentity Z, default 0 (fold_left (fun m r => <[ Identity r := default 0 (m !! Identity r) + 1 ]> m) rs m !! i)
    = default 0 (m !! i) + len (filter (fun r => Identity r = i) rs)) as Hgen.
  { induction rs as [|r rs IH]; intros m; cbn [fold_left].
    { unfold len. simpl. lia. }
    rewrite IH, filter_cons. destruct (decide (Identity r = i)) as [<-|Hne].
    - rewrite lookup_insert_eq, len_cons. simpl. lia.
    - by rewrite lookup_insert_ne. }
  rewrite Hgen, lookup_empty. simpl. lia.
Qed.

Lemma keep_union X i rs : i ∉ X -> len (keep ({[ i ]} ∪ X) rs) = len (keep X rs) - occurrences i rs.
Proof.
  intros Hi. unfold keep, occurrences. induction rs as [|r rs IH]; [done|].
  rewrite !filter_cons.
  destruct (decide (Identity r = i)) as [<-|Hne].
  - rewrite decide_False, (decide_True _ _ Hi), !len_cons by set_solver. lia.
  - destruct (decide (Identity r ∈ X)) as [HX|HX].
    + rewrite !decide_False by set_solver. lia.
    + rewrite !decide_True, !len_cons by set_solver. lia.
Qed.

(** Half the threshold is reached, or every record still to be visited is
    open or already dropped. *)
Lemma choose_dropped_bound opened all n X rs :
  n = len (keep X all) ->
  let Y := choose_dropped opened (counts all) n X rs in
  X ⊆ Y /\
  (len (keep Y all) <= JournalCompactionThreshold / 2 \/
   Forall (fun r => is_Some (opened !! Identity r) \/ Identity r ∈ Y) rs).
Proof.
  revert n X. induction rs as [|r rs IH]; intros n X Hn; simpl; [auto|].
  destruct (n <=? JournalCompactionThreshold / 2) eqn:E.
  { split; [done|]. left. apply Z.leb_le in E. lia. }
  case_bool_decide as Ho.
  { destruct (IH n X Hn) as [HX HY]. split; [done|].
    destruct HY as [HY|HY]; [by left|right; constructor; auto]. }
  case_bool_decide as Hd.
  { destruct (IH n X Hn) as [HX HY]. split; [done|].
    destruct HY as [HY|HY]; [by left|right; constructor; auto]. }
  destruct (IH (n - default 0 (counts all !! Identity r)) ({[ Identity r ]} ∪ X)) as [HX HY].
  { rewrite counts_occurrences, keep_union by done. lia. }
  split; [set_solver|]. destruct HY as [HY|HY]; [auto|]. right. constructor; [|done]. right. set_solver.
Qed.

Lemma keep_empty rs : keep ∅ rs = rs.
Proof.
  unfold keep. induction rs as [|r rs IH]; [done|]. rewrite filter_cons_True by set_solver. by rewrite IH.
Qed.

Lemma compact_bound rs :
  len (compact rs) <= JournalCompactionThreshold \/
  Forall (fun r => is_Some (open rs !! Identity r)) (compact rs).
Proof.
  unfold compact. destruct (len rs <=? JournalCompactionThreshold) eqn:E; [left; lia|].
  pose proof (choose_dropped_bound (open rs) rs (len rs) ∅ rs) as [_ HY]; [by rewrite keep_empty|].
  set (Y := choose_dropped _ _ _ _ _) in *.
  assert (keep Y rs = if bool_decide (Y = ∅) then rs else filter (fun r => Identity r ∉ Y) rs) as <-.
  { case_bool_decide as HYe; [by rewrite HYe, keep_empty|done]. }
  destruct HY as [HY|HY].
  - left. unfold JournalCompactionThreshold in *. change (1024 / 2) with 512 in HY. lia.
  - right. apply Forall_forall. intros r [Hr1 Hr2]%list_elem_of_filter.
    rewrite Forall_forall in HY. destruct (HY r Hr2); [done|contradiction].
Qed.

(** ** In-flight entries *)

Lemma compareStrings_le a b : compareStrings a b <= 0 <-> String.le a b.
Proof.
  unfold compareStrings, String.le, String.ltb, String.leb.
  rewrite (String.compare_antisym b a). destruct (String.compare a b); simpl; split; try done; lia.
Qed.

Lemma compareStrings_0 a b : compareStrings a b = 0 -> a = b.
Proof.
  unfold compareStrings, String.ltb. rewrite (String.compare_antisym b a).
  destruct (String.compare a b) eqn:E; simpl; try done. intros _. by apply String.compare_eq_iff.
Qed.

(** The comparison is the lexicographic order of the identities. *)
Lemma record_le_alt a b : record_le a b <->
  (Record_PlanID a <> Record_PlanID b /\ String.le (Record_PlanID a) (Record_PlanID b)) \/
  (Record_PlanID a = Record_PlanID b /\ Record_PlanRevision a < Record_PlanRevision b) \/
  (Record_PlanID a = Record_PlanID b /\ Record_PlanRevision a = Record_PlanRevision b /\
   String.le (Record_OperationID a) (Record_OperationID b)).
Proof.
  unfold record_le, compareRecords.
  destruct (eqs (Record_PlanID a) (Record_PlanID b)) eqn:E1; simpl.
  - apply eqs_true in E1. destruct (Record_PlanRevision a =? Record_PlanRevision b) eqn:E2; simpl.
    + rewrite compareStrings_le. apply Z.eqb_eq in E2. intuition lia.
    + apply Z.eqb_neq in E2. destruct (Record_PlanRevision a <? Record_PlanRevision b) eqn:E3;
        intuition lia.
  - rewrite compareStrings_le. assert (Record_PlanID a <> Record_PlanID b) as Hne.
    { intros Heq%eqs_true. congruence. }
    tauto.
Qed.

#[export] Instance record_le_total : Total record_le.
Proof.
  intros a b. rewrite !record_le_alt.
  destruct (decide (Record_PlanID a = Record_PlanID b)) as [E|E].
  - rewrite E. destruct (Z.lt_trichotomy (Record_PlanRevision a) (Record_PlanRevision b)) as [?|[?|?]];
      [tauto| |right; right; left; split; [done|lia]].
    destruct (total String.le (Record_OperationID a) (Record_OperationID b)); [tauto|].
    right; right; right; auto.
  - destruct (total String.le (Record_PlanID a) (Record_PlanID b)); [tauto|]. right; left; auto.
Qed.

#[export] Instance record_le_trans : Transitive record_le.
Proof.
  intros a b c. rewrite !record_le_alt.
  intros [[H1 H2]|[[H1 H2]|(H1 & H2 & H3)]] [[H4 H5]|[[H4 H5]|(H4 & H5 & H6)]].
  - left. split; [|by etrans]. intros Hac. rewrite Hac in H2. apply H4. by apply (anti_symm String.le).
  - left. by rewrite <- H4.
  - left. by rewrite <- H4.
  - left. by rewrite H1.
  - right; left. split; [congruence|lia].
  - right; left. split; [congruence|lia].
  - left. by rewrite H1.
  - right; left. split; [congruence|lia].
  - right; right. split; [congruence|]. split; [lia|]. by etrans.
Qed.

Lemma record_le_antisym a b : record_le a b -> record_le b a -> Identity a = Identity b.
Proof.
  rewrite !record_le_alt. unfold Identity.
  intros [[H1 H2]|[[H1 H2]|(H1 & H2 & H3)]] [[H4 H5]|[[H4 H5]|(H4 & H5 & H6)]]; try congruence; try lia.
  - destruct H1. by apply (anti_symm String.le).
  - rewrite H1, H2. f_equal. by apply (anti_symm String.le).
Qed.

Lemma open_identity rs i r : open rs !! i = Some r -> Identity r = i.
Proof.
  unfold open. assert (forall m : openMap, (forall j x, m !! j = Some x -> Identity x = j) ->
    fold_left open_step rs m !! i = Some r -> Identity r = i) as Hgen; [|apply Hgen; naive_solver].
  induction rs as [|r0 rs IH]; intros m Hm; simpl; [apply Hm|]. apply IH.
  intros j x. unfold open_step. destruct (Record_Kind r0); [apply Hm|..].
  - intros [[<- <-]|[? ?]]%lookup_insert_Some; auto.
  - intros [[<- <-]|[? ?]]%lookup_insert_Some; auto.
  - intros [? ?]%lookup_delete_Some; auto.
Qed.

Lemma inFlight_perm rs : inFlight rs ≡ₚ (map_to_list (open rs)).*2.
Proof. apply merge_sort_Permutation. Qed.

Lemma inFlight_elem rs r : r ∈ inFlight rs <-> open rs !! Identity r = Some r.
Proof.
  rewrite inFlight_perm, list_elem_of_fmap. split.
  - intros ([i x] & -> & Hx%elem_of_map_to_list). simpl. by rewrite (open_identity _ _ _ Hx).
  - intros Hr. exists (Identity r, r). split; [done|]. by apply elem_of_map_to_list.
Qed.

Lemma inFlight_identities rs : NoDup (Identity <$> inFlight rs).
Proof.
  rewrite inFlight_perm. rewrite <- list_fmap_compose.
  erewrite list_fmap_ext; [apply (NoDup_fst_map_to_list (open rs))|].
  intros k [i x] Hk. simpl. apply (open_identity rs).
  apply elem_of_map_to_list. by eapply list_elem_of_lookup_2.
Qed.

Lemma inFlight_nil rs : inFlight rs = [] <-> open rs = ∅.
Proof.
  split.
  - intros He. apply map_empty. intros i. destruct (open rs !! i) eqn:E; [|done].
    pose proof (open_identity _ _ _ E) as <-. apply inFlight_elem in E. rewrite He in E. set_solver.
  - intros He. apply Permutation_nil_r. rewrite inFlight_perm, He. by rewrite map_to_list_empty.
Qed.

(** Sorting a list of records with distinct identities forgets its order. *)
Lemma sort_records_order l1 l2 :
  NoDup (Identity <$> l1) -> l1 ≡ₚ l2 -> sort_records l1 = sort_records l2.
Proof.
  intros Hnd Hp. unfold sort_records.
  assert (merge_sort record_le l1 ≡ₚ merge_sort record_le l2) as Hs
    by (by rewrite !merge_sort_Permutation).
  apply StronglySorted_unique_strong with (R := record_le); [|apply StronglySorted_merge_sort; apply _..|done].
  intros x y Hx Hy Hxy Hyx.
  apply record_le_antisym in Hyx; [|done].
  assert (x ∈ l1) as Hx1 by (by rewrite <- (merge_sort_Permutation record_le l1)).
  assert (y ∈ l1) as Hy1 by (by rewrite Hp, <- (merge_sort_Permutation record_le l2)).
  by eapply (NoDup_fmap_inj Identity l1).
Qed.

(** ** The in-process journal obeys the laws *)

Lemma MemoryJournal_write_law kind :
  journal_write_law MJ_state kind (fun ctx r => MemoryJournal_write ctx (setKind kind r)).
Proof.
  intros ctx r j. unfold MemoryJournal_write. repeat wp_step; [|by left].
  destruct (MJ_corrupt j); [apply wp_fail; by left|]. repeat wp_step.
  destruct (append (MJ_state j) (setKind kind r)) eqn:E; repeat wp_step; [done|by left].
Qed.

#[export] Instance MemoryJournal_laws : JournalLaws MemoryJournal.
Proof.
  refine {| journal_view := MJ_state |}; try apply MemoryJournal_write_law.
  - intros ctx j. simpl. unfold MemoryJournal_InFlight. repeat wp_step; [|naive_solver].
    destruct (MJ_corrupt j); repeat wp_step; naive_solver.
  - intros ctx j. simpl. unfold MemoryJournal_Records. repeat wp_step; [|naive_solver].
    destruct (MJ_corrupt j); repeat wp_step; naive_solver.
Defined.

Create HintDb journal.
#[export] Hint Resolve append_open append_check check_compact : journal.
