(* ===== verification/JournalFileFacts.v ===== *)
(** * The durable journal: theorems

    A record survives its persisted form, a saved journal loads to the same
    records, and a write is atomic and durable: whichever system call fails
    or loses power, the file loads to the journal before the write or to the
    journal after it. A file that does not load is never written over. *)

From S2P Require Import Prelude Directory DirectoryFacts Sha256 Digest Probe Contract Journal ContractFacts JournalFacts JournalFile.
From stdpp Require Import base gmap list strings.
From Stdlib Require Import ZArith Lia.

Open Scope Z_scope.

(** ** ASCII *)

Lemma ascii_empty : ascii EmptyString.
Proof. constructor. Qed.

Lemma ascii_identifier s : validIdentifier s = true -> ascii s.
Proof.
  intros (_ & _ & Hb)%validIdentifier_spec. eapply Forall_impl; [exact Hb|]. simpl. lia.
Qed.

Lemma ascii_target s : ValidateTarget s = Ok tt -> ascii s.
Proof.
  intros (_ & _ & Hb)%ValidateTarget_spec. eapply Forall_impl; [exact Hb|]. simpl. intros b [? _]. lia.
Qed.

Lemma ascii_digest s : validDigest s = true -> ascii s.
Proof.
  unfold validDigest. destruct (negb _); [done|]. rewrite all_chars_forall. intros Hb.
  eapply Forall_impl; [exact Hb|]. simpl. intros b. unfold hex_char. lia.
Qed.

Lemma ascii_kind k : ascii (JournalKind_String k).
Proof. destruct k; unfold ascii; simpl; repeat constructor. Qed.

Lemma ascii_step s : ascii (Step_String s).
Proof. destruct s; unfold ascii; simpl; repeat constructor. Qed.

(** An optional field: empty or valid. *)
Lemma ascii_optional (p : string -> bool) s :
  (forall s, p s = true -> ascii s) ->
  negb (eqs s EmptyString) && negb (p s) = false -> ascii s.
Proof.
  intros Hp. destruct (eqs s EmptyString) eqn:E; simpl; rewrite ?negb_false_iff.
  - apply eqs_true in E as ->. intros _. apply ascii_empty.
  - apply Hp.
Qed.

#[export] Hint Resolve ascii_empty ascii_identifier ascii_target ascii_digest ascii_kind ascii_step : antiflock.

(** ** Names *)

Lemma journalKindByName_String k : k <> JournalKindUnknown -> journalKindByName (JournalKind_String k) = Some k.
Proof. destruct k; [done|reflexivity..]. Qed.

Lemma stepByName_String s : Step_Valid s = true -> stepByName (Step_String s) = Some s.
Proof. destruct s; [done|reflexivity..]. Qed.

(** The widths of the Go fields, and an instant the text can carry. *)
Definition record_ranges (r : JournalRecord) : Prop :=
  u64 (Record_PlanRevision r) /\ key_u64 (Record_Reservation r) /\ fourDigitYear (Record_At r).

Section Facts.
Context {JC : JournalCodec}.

(** ** Records *)

Lemma decode_encodeKey k : decodeReservationKey (encodeReservationKey k) = k.
Proof. unfold encodeReservationKey. case_bool_decide; [by subst|]. by destruct k. Qed.

(** The text of an instant reads back. *)
Definition dated (r : JournalRecord) : Prop := parseRFC3339Nano (formatRFC3339Nano (Record_At r)) = Some (Record_At r).

Lemma record_decode_encode r :
  JournalRecord_Validate r = Ok tt -> dated r -> persistedJournalRecord_decode (encodeJournalRecord r) = Ok r.
Proof.
  intros Hv Hp. unfold dated in Hp.
  assert (Record_Kind r <> JournalKindUnknown /\ Step_Valid (Record_Step r) = true) as [Hk Hs].
  { unfold JournalRecord_Validate in Hv. validated Hv.
    split; [by apply bool_decide_eq_false_1 in Hv1|by apply negb_false_iff]. }
  unfold persistedJournalRecord_decode, encodeJournalRecord. simpl.
  rewrite journalKindByName_String, stepByName_String, Hp, decode_encodeKey by done.
  replace (mkRecord _ _ _ _ _ _ _ _ _ _ _) with r by by destruct r.
  by rewrite Hv.
Qed.

Lemma plain_encodeKey k pk :
  ReservationKey_Validate k = Ok tt \/ k = zeroKey -> key_u64 k ->
  encodeReservationKey k = Some pk -> plainKey pk.
Proof.
  unfold encodeReservationKey. case_bool_decide as Hz; [done|]. intros [Hk|?] [Hp Hq] [= <-]; [|done].
  unfold ReservationKey_Validate in Hk. validated Hk.
  apply orb_false in Hv1 as [[Hn Hf]%orb_false _]. apply negb_false_iff in Hn, Hf, Hv.
  repeat split; simpl; auto with antiflock; apply Hp || apply Hq.
Qed.

Lemma plain_encode r :
  JournalRecord_Validate r = Ok tt -> record_ranges r -> plainRecord (encodeJournalRecord r).
Proof.
  intros Hv (Hr & Hk & Ht). destruct (rfc3339_roundtrip _ Ht) as [Ha _].
  unfold JournalRecord_Validate in Hv. validated Hv.
  apply negb_false_iff, Z.eqb_eq in Hv0. apply orb_false in Hv2 as [[Hp _]%orb_false Ho].
  apply negb_false_iff in Hp, Ho.
  split_and!; simpl; [rewrite Hv0; unfold u32, ContractVersion; lia|done| |].
  - repeat (apply Forall_cons; split); auto with antiflock.
    + eapply ascii_optional; [|exact Hv6]. auto with antiflock.
    + eapply ascii_optional; [|exact Hv7]. auto with antiflock.
    + destruct (eqs (Record_Target r) EmptyString) eqn:E; simpl in Hv8; [|by apply ascii_target].
      apply eqs_true in E as ->. apply ascii_empty.
  - intros k. apply plain_encodeKey; [|done].
    case_bool_decide as Hz; [by left|]. right. by destruct (decide (Record_Reservation r = zeroKey)).
Qed.

(** ** Loading *)

Definition sound (rs : list JournalRecord) : Prop :=
  check rs = Ok tt /\ Forall record_ranges rs.

(** The persisted form of a journal, as [save] marshals it. *)
Definition encoded (rs : list JournalRecord) : list Z :=
  jsonMarshal (mkPersistedJournal fileJournalSchema (encodeJournalRecord <$> rs)).

Definition journalNode (rs : list JournalRecord) : node := installedNode (encoded rs).

(** What a load of the file finds. *)
Definition loads (f : option node) : result (list JournalRecord) :=
  match f with
  | None => Ok []
  | Some f =>
      match privateContent f with
      | Some content => decodeJournal (take (Z.to_nat (maximumJournalBytes + 1)) content)
      | None => Err ErrJournalCorrupt
      end
  end.

Lemma check_validates rs : check rs = Ok tt -> Forall (fun r => JournalRecord_Validate r = Ok tt) rs.
Proof.
  unfold check. intros (_ & Hc)%reject_Ok. revert Hc. generalize (∅ : gmap JournalIdentity JournalRecord).
  induction rs as [|r rs IH]; intros m Hc; constructor; simpl in Hc; validated Hc.
  - by apply is_ok_unit, negb_false_iff.
  - by eapply IH.
Qed.

Lemma decodeRecords_encode rs :
  Forall (fun r => JournalRecord_Validate r = Ok tt) rs -> Forall dated rs ->
  decodeRecords (encodeJournalRecord <$> rs) = Ok rs.
Proof.
  induction 1 as [|r rs Hv _ IH]; intros Hr; [done|]. inversion_clear Hr as [|?? Ht Hrs].
  cbn [fmap list_fmap decodeRecords]. rewrite record_decode_encode by done. by rewrite IH.
Qed.

Lemma plain_records rs : sound rs -> Forall plainRecord (encodeJournalRecord <$> rs).
Proof.
  intros [Hc Hr]. apply check_validates in Hc. induction Hc as [|r rs Hv _ IH]; [constructor|].
  inversion_clear Hr. constructor; [by apply plain_encode|by apply IH].
Qed.

Lemma ascii_schema : ascii fileJournalSchema.
Proof. unfold ascii, fileJournalSchema. simpl. repeat constructor. Qed.

Lemma ranges_dated rs : Forall record_ranges rs -> Forall dated rs.
Proof. intros Hr. eapply Forall_impl; [exact Hr|]. intros r (_ & _ & Ht). apply (rfc3339_roundtrip _ Ht). Qed.

(** A checked journal loads as soon as its text reads back. *)
Lemma loads_decoded rs :
  check rs = Ok tt -> Forall dated rs -> encoded rs <> [] ->
  jsonDecode (encoded rs) = Some (mkPersistedJournal fileJournalSchema (encodeJournalRecord <$> rs), []) ->
  len (encoded rs) <= maximumJournalBytes -> loads (Some (journalNode rs)) = Ok rs.
Proof.
  intros Hc Ht Hne Hd Hl. unfold loads, journalNode. simpl. rewrite take_ge by (unfold len in Hl; lia).
  unfold decodeJournal. rewrite Hd. simpl.
  assert ((len (encoded rs) =? 0) || (maximumJournalBytes <? len (encoded rs)) = false) as ->.
  { apply orb_false. split; [|by apply Z.ltb_ge]. apply Z.eqb_neq. unfold len.
    destruct (encoded rs); [done|simpl; lia]. }
  rewrite decodeRecords_encode by (done || by apply check_validates). simpl. by rewrite Hc.
Qed.

Lemma loads_journalNode rs :
  sound rs -> len (encoded rs) <= maximumJournalBytes -> loads (Some (journalNode rs)) = Ok rs.
Proof.
  intros Hs Hl.
  destruct (json_roundtrip (mkPersistedJournal fileJournalSchema (encodeJournalRecord <$> rs))) as [Hne Hd];
    [apply ascii_schema|by apply plain_records|].
  apply loads_decoded; [apply Hs|apply ranges_dated, Hs|done..].
Qed.

End Facts.

(** ** Effects on the directory *)

Section Effects.
Context {JC : JournalCodec}.
Context (sysFails : nat -> bool) (contention : nat -> nat * bool).

Lemma load_calm d :
  wp (load sysFails) (fun res d' => calm d d' /\ (res = loads (dir_journal d) \/ res = Err ErrJournalCorrupt)) d.
Proof.
  unfold load, openJournalFileNoFollow. repeat wp_step. eapply wp_mono; [apply open_spec|]. intros res d' [-> Hres]. wp_step.
  pose proof (calm_refl d) as Hc. unfold loads.
  destruct (dir_journal d) as [f|]; [destruct (privateContent f) as [content|]|];
    repeat match goal with Ho : _ \/ _ |- _ => destruct Ho as [Ho|Ho] end; subst res; simpl;
    try (wp_step; split; [done|by eauto]).
  apply (wp_calm_syscall _ _ _ _ _ _ d); [done..| |by split; [|right]].
  intros d' Hc' _. wp_step. split; [done|by left].
Qed.

(** ** Reading and writing *)

Lemma lock_calmly ctx : calmly (lock sysFails contention ctx).
Proof. unfold lock, checkPrivateDirectory, openJournalLockFile. calmly_tac. Qed.

(** Reading keeps the bindings and answers what the file holds. *)
Lemma read_spec ctx d :
  wp (FileJournal_read sysFails contention ctx) (fun res d' => calm d d' /\
    forall rs, res = Ok rs -> loads (dir_journal d) = Ok rs) d.
Proof.
  unfold FileJournal_read. wp_step. apply wp_ctxErr; [|intros e; split; [apply calm_refl|done]].
  red. wp_step. eapply wp_mono; [apply lock_calmly|]. intros [[]|e] d1 Hc; [|done]. red.
  apply wp_defer. eapply wp_mono; [apply load_calm|].
  intros res d2 [Hc2 [->| ->]]; (split; [exact (calm_trans _ _ _ Hc Hc2)|]); [|done].
  by rewrite (proj1 Hc).
Qed.

(** ** Writing *)

Lemma write_effect ctx r d :
  wp (FileJournal_write sysFails contention ctx r) (fun res d' =>
    (calm d d' /\ exists e, res = Err e) \/
    exists rs rs', loads (dir_journal d) = Ok rs /\ append rs r = Ok rs' /\ installs (encoded rs') d res d' /\
      len (encoded rs') <= maximumJournalBytes) d.
Proof.
  unfold FileJournal_write. wp_step.
  apply wp_ctxErr; [red|intros e; left; split; [apply calm_refl|by eexists]].
  wp_step. eapply wp_mono; [apply lock_calmly|]. intros [[]|e] d1 Hc; [red|left; split; [done|by eexists]].
  apply wp_defer. wp_step. eapply wp_mono; [apply load_calm|].
  intros res d2 [Hc2' Hl]. pose proof (calm_trans _ _ _ Hc Hc2') as Hc2.
  destruct res as [rs|e]; [red|left; split; [exact Hc2|by eexists]].
  assert (loads (dir_journal d) = Ok rs) as Hrs by (destruct Hl as [E|E]; [by rewrite <- (proj1 Hc), E|done]).
  wp_step. apply wp_lift. destruct (append rs r) as [rs'|e] eqn:Ha; [red|left; split; [exact Hc2|by eexists]].
  unfold save. fold (encoded rs'). destruct (_ || _) eqn:Hbad; [apply wp_fail; left; split; [exact Hc2|by eexists]|].
  apply orb_false in Hbad as [_ Hn%Z.ltb_ge].
  eapply wp_mono; [apply install_effect|]. intros res d3 Hs. right. exists rs, rs'. split_and!; [done..| |done].
  apply (calm_installs_trans _ _ _ _ _ Hc2) in Hs. destruct res; exact Hs.
Qed.

End Effects.

(** ** What the durable journal promises *)

Section Promises.
Context {JC : JournalCodec}.
Context (sysFails : nat -> bool) (contention : nat -> nat * bool).

Lemma append_ranges rs r rs' :
  Forall record_ranges rs -> record_ranges r -> append rs r = Ok rs' -> Forall record_ranges rs'.
Proof.
  intros Hrs Hr (_ & _ & _ & ->)%append_Ok.
  assert (Forall record_ranges (rs ++ [r])) as Ha by (apply Forall_app; auto).
  case_bool_decide; [|done]. destruct (compact_keep (rs ++ [r])) as (X & -> & _).
  unfold keep. rewrite Forall_forall in Ha |- *. intros x [_ Hx]%list_elem_of_filter. by apply Ha.
Qed.

Lemma decodeJournal_Ok content rs :
  decodeJournal content = Ok rs -> check rs = Ok tt /\ 0 < len content <= maximumJournalBytes.
Proof.
  unfold decodeJournal. intros [[H0%Z.eqb_neq H1%Z.ltb_ge]%orb_false Hd]%reject_Ok.
  split; [|unfold len in *; lia].
  destruct (jsonDecode content) as [[p rest]|]; [|done]. validated Hd. by injection Hd as ->.
Qed.

Lemma loads_check f rs : loads f = Ok rs -> check rs = Ok tt.
Proof.
  destruct f as [f|]; simpl; [|by intros [= <-]].
  destruct (privateContent f); [|done]. by intros [? _]%decodeJournal_Ok.
Qed.

(** The persisted form is faithful in both directions: a checked journal,
    marshalled, decodes to the same records in the same order; and whatever
    bytes decode, within the size bound, are a journal that passes the check,
    so that no file smuggles an invalid record or an impossible history in. *)
Theorem journal_file_roundtrip rs :
  (sound rs -> len (encoded rs) <= maximumJournalBytes -> decodeJournal (encoded rs) = Ok rs) /\
  (forall content, decodeJournal content = Ok rs ->
     check rs = Ok tt /\ 0 < len content <= maximumJournalBytes).
Proof.
  split; [|intros content; apply decodeJournal_Ok]. intros Hs Hl.
  pose proof (loads_journalNode rs Hs Hl) as E. unfold loads, journalNode in E. simpl in E.
  by rewrite take_ge in E by (unfold len in Hl; lia).
Qed.

(** A directory at rest: the file loads, it is on the disk, and so is the
    name. *)
Definition settled (rs : list JournalRecord) (d : directory) : Prop :=
  loads (dir_journal d) = Ok rs /\ dir_durable d = dir_journal d /\
  (forall f, dir_journal d = Some f -> node_synced f = true) /\ Forall record_ranges rs.

Lemma settled_image rs d i : settled rs d -> bound d i -> loads (afterPowerLoss <$> i) = Ok rs.
Proof.
  intros (Hl & Hd & Hs & _) Hb. assert (i = dir_journal d) as -> by (destruct Hb as [->| ->]; congruence).
  destruct (dir_journal d) as [f|]; [|done]. simpl. unfold afterPowerLoss. by rewrite (Hs f eq_refl).
Qed.

Lemma append_sound rs r rs' d :
  settled rs d -> record_ranges r -> append rs r = Ok rs' -> sound rs'.
Proof.
  intros (Hl & _ & _ & Hr) Hrr Ha. split; [|by eapply append_ranges].
  eapply append_check; [by eapply loads_check|done].
Qed.

Lemma settled_node rs d :
  sound rs -> len (encoded rs) <= maximumJournalBytes ->
  dir_journal d = Some (journalNode rs) -> dir_durable d = dir_journal d -> settled rs d.
Proof.
  intros Hs Hl Hj Hd. rewrite <- Hj in Hd || idtac.
  split_and!; [rewrite Hj; by apply loads_journalNode|done|rewrite Hj; by intros f [= <-]|apply Hs].
Qed.

(** C40. A write is atomic and durable, whichever system call fails, whoever
    else holds the lock and whenever the context ends: when it returns, the
    new journal is on the disk under its name; when it fails, the file loads
    to the journal before or after it; and a power loss at any of its system
    calls leaves a file that loads to one of the two. *)
Theorem file_write_atomic ctx r rs d :
  settled rs d -> record_ranges r ->
  wp (FileJournal_write sysFails contention ctx r) (fun res d' =>
    match res with
    | Ok _ => exists rs', append rs r = Ok rs' /\ settled rs' d'
    | Err _ => loads (dir_journal d') = Ok rs \/
               exists rs', append rs r = Ok rs' /\ loads (dir_journal d') = Ok rs'
    end /\
    images_grow (fun i => loads (afterPowerLoss <$> i) = Ok rs \/
      exists rs', append rs r = Ok rs' /\ loads (afterPowerLoss <$> i) = Ok rs') d d') d.
Proof.
  intros Hset Hr. eapply wp_mono; [apply write_effect|].
  intros res d' [[(Hj & _ & Hi) [e ->]]|(rs0 & rs' & Hl & Ha & [Hi Hs] & Hn)].
  { split; [left; rewrite Hj; apply Hset|]. intros i Hin. destruct (Hi i Hin); [by auto|].
    right. left. by eapply settled_image. }
  assert (rs0 = rs) as -> by (destruct Hset as (E & _); congruence).
  pose proof (append_sound _ _ _ _ Hset Hr Ha) as Hsound.
  pose proof (loads_journalNode rs' Hsound Hn) as Hload. split.
  - destruct res as [[]|e].
    + exists rs'. split; [done|]. apply settled_node; naive_solver.
    + destruct Hs as [_ [->| ->]]; [left; apply Hset|right; by exists rs'].
  - intros i Hin. destruct (Hi i Hin) as [?|[Hb| ->]]; [by auto| |]; right.
    + left. by eapply settled_image.
    + right. by exists rs'.
Qed.

(** The journal never repairs itself: while the file does not load (not a
    private regular file, undecodable, oversized, of another schema, or with
    an impossible history) every write and every read fails, and the file is
    left as it is. *)
Theorem corrupt_never_repaired ctx r e d :
  loads (dir_journal d) = Err e ->
  wp (FileJournal_write sysFails contention ctx r) (fun res d' => is_ok res = false /\
    dir_journal d' = dir_journal d /\ dir_durable d' = dir_durable d) d /\
  wp (FileJournal_InFlight sysFails contention ctx) (fun res d' => is_ok res = false /\ dir_journal d' = dir_journal d) d.
Proof.
  intros Hl. split.
  - eapply wp_mono; [apply write_effect|].
    intros res d' [[(Hj & Hd & _) [e' ->]]|(rs & rs' & Hl' & _)]; [done|congruence].
  - unfold FileJournal_InFlight. wp_step. eapply wp_mono; [apply read_spec|].
    intros [rs|e'] d' [Hc Hrs]; [by rewrite (Hrs rs eq_refl) in Hl|]. red. split; [done|apply Hc].
Qed.

(** ** When nothing goes wrong *)

Lemma lock_succeeds ctx : benign sysFails contention ctx -> succeeds (lock sysFails contention ctx) tt.
Proof.
  intros Hb d Hd. unfold lock, checkPrivateDirectory. wp_step. wp_step. apply (wp_live _ _ _ _ _ _ Hb). red.
  do 3 wp_step. pose proof Hd as (Hk & Hm & _). simpl. rewrite Hk, Hm. simpl. wp_step. red. wp_step.
  eapply wp_mono; [apply (openLock_succeeds _ _ _ _ _ Hb); exact Hd|].
  intros res d' (-> & Hd' & Hj'). red.
  eapply wp_mono; [by apply (acquireLock_succeeds _ _ _ _ Hb)|]. intros r d3 (-> & Hp3 & Hj3). split_and!; [done|done|by rewrite Hj3, Hj'].
Qed.

Lemma load_succeeds ctx rs d :
  benign sysFails contention ctx -> private_directory d -> loads (dir_journal d) = Ok rs ->
  wp (load sysFails) (fun res d' => res = Ok rs /\ private_directory d') d.
Proof.
  intros (Hs & _) Hd Hl. unfold load, openJournalFileNoFollow. do 2 wp_step. intros n. unfold openFileNoFollow; simpl.
  rewrite Hs. unfold loads, privateContent in Hl.
  destruct (dir_journal d) as [f|]; [|injection Hl as <-; by red].
  destruct (node_kind f); simpl in Hl |- *; [|done..]. destruct (node_mode f =? perm_0600); [|done]. simpl.
  apply wp_bind. intros n'. unfold syscall; simpl. rewrite Hs. red. by apply wp_lift.
Qed.

Lemma save_succeeds ctx rs d :
  benign sysFails contention ctx -> private_directory d -> 0 < len (encoded rs) <= maximumJournalBytes ->
  wp (save sysFails rs) (fun res _ => res = Ok tt) d.
Proof.
  intros Hb Hp Hl. unfold save. fold (encoded rs).
  assert ((len (encoded rs) =? 0) || (maximumJournalBytes <? len (encoded rs)) = false) as -> by lia.
  by apply (installContent_succeeds _ _ _ _ _ _ Hb).
Qed.

(** A write returns: on a machine whose system calls succeed, in a private
    directory, under a live context and once other holders free the lock, a
    record the discipline accepts is written, however often the lock would
    block, and the new journal is at rest on the disk. *)
Theorem file_write_returns ctx r rs rs' d :
  benign sysFails contention ctx -> private_directory d -> settled rs d -> record_ranges r ->
  append rs r = Ok rs' -> len (encoded rs') <= maximumJournalBytes ->
  wp (FileJournal_write sysFails contention ctx r) (fun res d' => res = Ok tt /\ settled rs' d') d.
Proof.
  intros Hb Hp Hset Hr Ha Hn.
  pose proof (append_sound _ _ _ _ Hset Hr Ha) as Hsound.
  destruct (json_roundtrip (mkPersistedJournal fileJournalSchema (encodeJournalRecord <$> rs'))) as [Hne _];
    [apply ascii_schema|by apply plain_records|].
  assert (0 < len (encoded rs')) as Hpos by (unfold len, encoded; destruct (jsonMarshal _); [done|simpl; lia]).
  assert (wp (FileJournal_write sysFails contention ctx r) (fun res _ => res = Ok tt) d) as Hok.
  { unfold FileJournal_write. wp_step. apply (wp_live_ctx _ _ _ _ _ Hb). red. wp_step.
    eapply wp_mono; [by apply (lock_succeeds _ Hb)|]. intros res d1 (-> & Hp1 & Hj1). red. apply wp_defer.
    wp_step. eapply wp_mono; [apply (load_succeeds _ rs _ Hb Hp1); rewrite Hj1; apply Hset|].
    intros res d2 (-> & Hp2). red. wp_step. apply wp_lift. rewrite Ha. red. by apply (save_succeeds _ _ _ Hb). }
  intros n. specialize (Hok n). pose proof (write_effect sysFails contention ctx r d n) as He.
  destruct (FileJournal_write _ _ _ _ _) as [res [n' d']]. subst res.
  destruct He as [[_ [e He]]|(rs0 & rs0' & Hl & Ha0 & [_ [Hj Hd]] & _)]; [done|].
  assert (rs0' = rs') as -> by (destruct Hset as (E & _); congruence).
  split; [done|by apply settled_node].
Qed.
End Promises.

(** ** A codec that obeys the laws

    Not [encoding/json]: the binary digits of an enumeration of the values,
    as text. It shows that the laws can hold and lets the theorems be run. *)

Fixpoint posDigits (p : positive) : string :=
  match p with
  | xH => EmptyString
  | xO q => String (hex_digit 0) (posDigits q)
  | xI q => String (hex_digit 1) (posDigits q)
  end.

Fixpoint digitsPos (s : string) : positive :=
  match s with
  | EmptyString => xH
  | String c r => if Ascii.eqb c (hex_digit 0) then xO (digitsPos r) else xI (digitsPos r)
  end.

Lemma digitsPos_posDigits p : digitsPos (posDigits p) = p.
Proof. induction p; simpl; congruence. Qed.

Lemma ascii_posDigits p : ascii (posDigits p).
Proof. unfold ascii. induction p; simpl; constructor; try done; vm_compute; reflexivity. Qed.

Definition bytesPos (l : list Z) : positive :=
  foldr (fun b p => if b =? 0x30 then xO p else xI p) xH (tail l).

(** The digits as bytes, after one opening byte. *)
Definition posBytes (p : positive) : list Z := 0x7b :: bytes_of (posDigits p).

Lemma bytesPos_posBytes p : bytesPos (posBytes p) = p.
Proof. unfold bytesPos, posBytes. simpl. induction p; simpl; congruence. Qed.

#[export] Instance persistedKey_eq_dec : EqDecision persistedReservationKey.
Proof. solve_decision. Defined.
#[export] Instance persistedKey_countable : Countable persistedReservationKey.
Proof.
  refine (inj_countable
    (fun k => ([PKey_PlanID k; PKey_Nonce k; PKey_Fingerprint k], [PKey_PolicyRevision k; PKey_PlanRevision k]))
    (fun p => match p with ([plan; nonce; print], [policy; revision]) => Some (mkPersistedKey plan policy revision nonce print) | _ => None end) _).
  by intros [].
Defined.

#[export] Instance persistedRecord_eq_dec : EqDecision persistedJournalRecord.
Proof. solve_decision. Defined.
#[export] Instance persistedRecord_countable : Countable persistedJournalRecord.
Proof.
  refine (inj_countable
    (fun r => ([PRecord_Kind r; PRecord_PlanID r; PRecord_OperationID r; PRecord_Step r; PRecord_OwnershipToken r; PRecord_Digest r;
                PRecord_Target r; PRecord_At r], ([PRecord_SchemaVersion r; PRecord_PlanRevision r], PRecord_Reservation r)))
    (fun p => match p with
       | ([kind; plan; op; step; own; digest; target; at_], ([schema; revision], key)) =>
           Some (mkPersistedRecord schema kind plan revision op step own digest target key at_)
       | _ => None end) _).
  by intros [].
Defined.

#[export] Instance persistedJournal_eq_dec : EqDecision persistedJournal.
Proof. solve_decision. Defined.
#[export] Instance persistedJournal_countable : Countable persistedJournal.
Proof.
  refine (inj_countable' (fun j => (Persisted_SchemaVersion j, Persisted_Records j))
    (fun p => mkPersistedJournal p.1 p.2) _). by intros [].
Defined.

Definition digitsCodec : JournalCodec.
Proof.
  refine {| jsonMarshal := fun p => posBytes (encode p);
            jsonDecode := fun l => p ← decode (bytesPos l); Some (p, []);
            formatRFC3339Nano := fun t => posDigits (encode t);
            parseRFC3339Nano := fun s => decode (digitsPos s) |}.
  - intros p _ _. split; [done|]. by rewrite bytesPos_posBytes, decode_encode.
  - intros t _. split; [apply ascii_posDigits|]. by rewrite digitsPos_posDigits, decode_encode.
Defined.

(** It carries every journal that passes the check. *)
Lemma digits_carry rs :
  check rs = Ok tt -> len (@encoded digitsCodec rs) <= maximumJournalBytes ->
  @loads digitsCodec (Some (@journalNode digitsCodec rs)) = Ok rs.
Proof.
  intros Hc Hl. apply (@loads_decoded digitsCodec); [done| |done| |done].
  - apply Forall_forall. intros r _. unfold dated. simpl. by rewrite digitsPos_posDigits, decode_encode.
  - unfold encoded. cbn [jsonDecode jsonMarshal digitsCodec]. by rewrite bytesPos_posBytes, decode_encode.
Qed.

(** *** Concrete runs *)

Definition demo_record : JournalRecord :=
  mkRecord ContractVersion JournalKindBegin "plan-1" 1 "op-1" StepCapture EmptyString EmptyString EmptyString
    zeroKey (1700000000 * Second).

(** A private directory without a journal yet. *)
Definition freshDirectory : directory :=
  mkDirectory Directory false perm_0700 None None None None false [].

Definition noFailure : nat -> bool := fun _ => false.
(** Two attempts to lock block, the third succeeds. *)
Definition busyLock : nat -> nat * bool := fun _ => (2%nat, true).
(** The directory's [fsync] fails. *)
Definition syncFails : nat -> bool := fun n => bool_decide (n = 15%nat).

Lemma demo_ranges : record_ranges demo_record.
Proof. repeat split; by vm_compute. Qed.

Lemma fresh_settled : @settled digitsCodec [] freshDirectory.
Proof. by split_and!. Qed.

Lemma file_write_atomic_witness :
  @settled digitsCodec [] freshDirectory /\ record_ranges demo_record /\
  wp (@FileJournal_write digitsCodec syncFails busyLock Background demo_record) (fun res d' =>
    match res with
    | Ok _ => exists rs', append [] demo_record = Ok rs' /\ @settled digitsCodec rs' d'
    | Err _ => @loads digitsCodec (dir_journal d') = Ok [] \/
               exists rs', append [] demo_record = Ok rs' /\ @loads digitsCodec (dir_journal d') = Ok rs'
    end /\
    images_grow (fun i => @loads digitsCodec (afterPowerLoss <$> i) = Ok [] \/
      exists rs', append [] demo_record = Ok rs' /\ @loads digitsCodec (afterPowerLoss <$> i) = Ok rs')
      freshDirectory d') freshDirectory.
Proof.
  split; [apply fresh_settled|]. split; [apply demo_ranges|].
  apply (@file_write_atomic digitsCodec syncFails busyLock Background demo_record [] freshDirectory);
    [apply fresh_settled|apply demo_ranges].
Defined.

Lemma file_write_returns_witness :
  wp (@FileJournal_write digitsCodec noFailure busyLock Background demo_record)
     (fun res d' => res = Ok tt /\ @settled digitsCodec [demo_record] d') freshDirectory.
Proof.
  apply (@file_write_returns digitsCodec noFailure busyLock Background demo_record [] [demo_record] freshDirectory).
  - by split_and!.
  - by split_and!.
  - apply fresh_settled.
  - apply demo_ranges.
  - vm_compute. reflexivity.
  - apply Z.leb_le. vm_compute. reflexivity.
Defined.

(** A journal file that is a symbolic link. *)
Definition linkedDirectory : directory :=
  mkDirectory Directory false perm_0700 (Some (mkNode Symlink perm_0600 [] true)) None None None false [].

Lemma corrupt_never_repaired_witness :
  wp (@FileJournal_write digitsCodec noFailure busyLock Background demo_record) (fun res d' => is_ok res = false /\
    dir_journal d' = dir_journal linkedDirectory /\ dir_durable d' = dir_durable linkedDirectory) linkedDirectory /\
  wp (@FileJournal_InFlight digitsCodec noFailure busyLock Background)
     (fun res d' => is_ok res = false /\ dir_journal d' = dir_journal linkedDirectory) linkedDirectory.
Proof.
  apply (@corrupt_never_repaired digitsCodec noFailure busyLock Background demo_record ErrJournalCorrupt linkedDirectory).
  reflexivity.
Defined.

Lemma journal_file_roundtrip_witness :
  @decodeJournal digitsCodec (@encoded digitsCodec [demo_record]) = Ok [demo_record].
Proof.
  apply (@journal_file_roundtrip digitsCodec [demo_record]).
  - split; [vm_compute; reflexivity|]. constructor; [apply demo_ranges|constructor].
  - apply Z.leb_le. vm_compute. reflexivity.
Defined.

(** The failed [fsync] is reported, and the record is visible all the same:
    the second branch of a failed write happens. *)
Lemma failed_sync_installs :
  let out := @FileJournal_write digitsCodec syncFails busyLock Background demo_record (0%nat, freshDirectory) in
  (fst out, @loads digitsCodec (dir_journal (snd (snd out))), dir_durable (snd (snd out))) =
  (Err ErrSyncDirectory, Ok [demo_record], None).
Proof. vm_compute. reflexivity. Qed.
