(* ===== verification/JournalSpec.v ===== *)
(** * The journal: what it promises

    The abstract journal knows one thing per identity: closed, or open at a
    step. [entry_step] is the automaton of one entry, and [append] refines
    it. The reachable journals, those a process can build from the empty one,
    stay loadable; a journal used by one lifecycle, which opens an entry only
    when none is open, never fills up. *)

From S2P Require Import Prelude Sha256 Digest Probe Contract ContractFacts Journal Interfaces JournalFacts.
From stdpp Require Import base gmap list strings sorting.
From Stdlib Require Import ZArith Lia.

Open Scope Z_scope.

(** ** The automaton of one entry *)

(** [None]: closed. [Some s]: open, last recorded at step [s]. *)
Inductive entry_step : option Step -> JournalKind -> Step -> option Step -> Prop :=
| entry_begin s : Step_Terminal s = false -> entry_step None JournalKindBegin s (Some s)
| entry_advance s t : Step_Terminal t = false -> Step_num s < Step_num t ->
    entry_step (Some s) JournalKindAdvance t (Some t)
| entry_finish s t : Step_Terminal t = true -> entry_step (Some s) JournalKindFinish t None.

(** The phase of an identity in a journal. *)
Definition phase (rs : list JournalRecord) (i : JournalIdentity) : option Step :=
  Record_Step <$> open rs !! i.

(** A record that [Validate] accepts has a terminal step exactly when it is a
    finish record. *)
Lemma record_terminal r : JournalRecord_Validate r = Ok tt ->
  Record_Kind r <> JournalKindUnknown /\
  Step_Terminal (Record_Step r) = bool_decide (Record_Kind r = JournalKindFinish).
Proof.
  unfold JournalRecord_Validate. intros Hv. validated Hv.
  apply bool_decide_eq_false in Hv1. split; [done|].
  destruct (Step_Terminal (Record_Step r)), (bool_decide (Record_Kind r = JournalKindFinish)); done.
Qed.

Lemma record_step_pos r : JournalRecord_Validate r = Ok tt -> 1 <= Step_num (Record_Step r).
Proof.
  unfold JournalRecord_Validate. intros Hv. validated Hv. apply negb_false_iff in Hv3.
  unfold Step_Valid in Hv3. apply andb_true_iff in Hv3 as [Hl _]. simpl in Hl. lia.
Qed.

Lemma record_validate_error r e : JournalRecord_Validate r = Err e ->
  e = ErrInvalidRequest \/ e = ErrUnsafeTarget \/ e = ErrReservationInvalid.
Proof.
  unfold JournalRecord_Validate, ValidateTarget, ReservationKey_Validate. intros Hv.
  repeat match type of Hv with
  | (if ?b then _ else _) = _ => destruct b; [injection Hv as <-; auto|]
  | rbind _ _ = _ => apply rbind_Err in Hv as [Hv|([] & _ & Hv)]
  | Ok _ = Err _ => discriminate Hv
  | (if ?b then _ else Ok tt) = _ => destruct b
  end.
Qed.

(** The tests of [append] are the guards of the automaton. *)
Lemma admissible_step m r t :
  Record_Kind r <> JournalKindUnknown ->
  Step_Terminal (Record_Step r) = bool_decide (Record_Kind r = JournalKindFinish) ->
  entry_step (Record_Step <$> m !! Identity r) (Record_Kind r) (Record_Step r) t <->
  admissible m r = Ok tt /\ t = Record_Step <$> open_step m r !! Identity r.
Proof.
  intros Hk Ht. unfold admissible, open_step.
  destruct (m !! Identity r) as [c|] eqn:E, (Record_Kind r); simpl in *;
    rewrite ?lookup_insert_eq, ?lookup_delete_eq; simpl; split; try done.
  - by inversion 1.
  - by intros [? _].
  - inversion 1; subst. destruct (Step_num (Record_Step r) <=? Step_num (Record_Step c)) eqn:L; [lia|done].
  - destruct (Step_num (Record_Step r) <=? Step_num (Record_Step c)) eqn:L; [by intros []|].
    intros [_ ->]. constructor; [done|lia].
  - by inversion 1.
  - intros [_ ->]. by constructor.
  - by inversion 1.
  - intros [_ ->]. by constructor.
  - inversion 1.
  - by intros [? _].
  - inversion 1.
  - by intros [? _].
Qed.

Lemma append_phase_other rs r rs' i :
  append rs r = Ok rs' -> Identity r <> i -> phase rs' i = phase rs i.
Proof. intros Ha Hi. unfold phase. by rewrite (append_open _ _ _ Ha), open_step_lookup_ne. Qed.

(** The refusals of the automaton, with the sentinel that reports each. *)
Inductive entry_refused : option Step -> JournalKind -> Step -> error -> Prop :=
| refused_active s t : entry_refused (Some s) JournalKindBegin t ErrJournalActive
| refused_advance t : entry_refused None JournalKindAdvance t ErrJournalInactive
| refused_finish t : entry_refused None JournalKindFinish t ErrJournalInactive
| refused_order s t : Step_num t <= Step_num s ->
    entry_refused (Some s) JournalKindAdvance t ErrJournalOrder.

Lemma admissible_refused m r e :
  admissible m r = Err e <-> entry_refused (Record_Step <$> m !! Identity r) (Record_Kind r) (Record_Step r) e.
Proof.
  unfold admissible. destruct (m !! Identity r) as [c|], (Record_Kind r); simpl; split; try done;
    try (by inversion 1); try (intros [= <-]; by constructor).
  - case_match eqn:L; [|done]. intros [= <-]. constructor. lia.
  - inversion 1; subst. case_match eqn:L; [done|lia].
Qed.

(** C38. Refinement, on every branch: a write of the journal that succeeds moves
    the record's identity as the automaton of one entry allows and leaves the
    phase of every other identity alone, whatever compaction dropped; a write
    that fails fails because the record is invalid, because the journal is
    full, or because the automaton refuses the record, and says which. *)
Theorem append_refines rs r :
  match append rs r with
  | Ok rs' =>
      JournalRecord_Validate r = Ok tt /\ len rs < MaxJournalRecords /\
      entry_step (phase rs (Identity r)) (Record_Kind r) (Record_Step r) (phase rs' (Identity r)) /\
      forall i, i <> Identity r -> phase rs' i = phase rs i
  | Err e =>
      JournalRecord_Validate r = Err e \/
      (e = ErrJournalFull /\ MaxJournalRecords <= len rs) \/
      entry_refused (phase rs (Identity r)) (Record_Kind r) (Record_Step r) e
  end.
Proof.
  destruct (append rs r) as [rs'|e] eqn:Ha.
  - pose proof Ha as (Hv & Hl & Hadm & _)%append_Ok.
    destruct (record_terminal r Hv) as [Hk Ht]. repeat split; [done..| |].
    + apply admissible_step; [done..|]. split; [done|]. unfold phase. by rewrite (append_open _ _ _ Ha).
    + intros i Hi. apply (append_phase_other rs r rs'); [done|congruence].
  - unfold append in Ha. apply rbind_Err in Ha as [Ha|([] & _ & Ha)]; [by left|right].
    destruct (MaxJournalRecords <=? len rs) eqn:L; [left; split; [congruence|lia]|right].
    apply rbind_Err in Ha as [Ha|([] & _ & Ha)]; [by apply admissible_refused|done].
Qed.

Lemma append_succeeds rs r t :
  JournalRecord_Validate r = Ok tt -> len rs < MaxJournalRecords ->
  entry_step (phase rs (Identity r)) (Record_Kind r) (Record_Step r) t ->
  exists rs', append rs r = Ok rs' /\ phase rs' (Identity r) = t.
Proof.
  intros Hv Hl Hs. destruct (record_terminal r Hv) as [Hk Ht].
  apply admissible_step in Hs as [Ha ->]; [|done..].
  eexists. assert (append rs r = Ok _) as Happ by (apply append_Ok; repeat split; done).
  split; [exact Happ|]. unfold phase. by rewrite (append_open _ _ _ Happ).
Qed.

(** ** Reachable journals *)

(** What successive processes can make of an empty journal: each successful
    write, of whatever kind, from whatever caller. *)
Inductive reachable : list JournalRecord -> Prop :=
| reachable_new : reachable []
| reachable_write rs kind r rs' :
    reachable rs -> append rs (setKind kind r) = Ok rs' -> reachable rs'.

Lemma reachable_check rs : reachable rs -> check rs = Ok tt.
Proof. induction 1; eauto with journal. Qed.

Lemma check_len rs : check rs = Ok tt -> len rs <= MaxJournalRecords.
Proof. unfold check. case_match eqn:L; [done|]. intros _. lia. Qed.

(** C39. Every journal a process can reach loads again: the check a reload runs
    accepts it, it is within its bound, and the entries a recovery would be
    shown are exactly the open ones, each once, in ascending order of plan,
    revision and operation, whatever order the map of open entries is
    iterated in. *)
Theorem reachable_loads rs :
  reachable rs ->
  check rs = Ok tt /\ len rs <= MaxJournalRecords /\
  (forall r, r ∈ inFlight rs <-> open rs !! Identity r = Some r) /\
  NoDup (Identity <$> inFlight rs) /\ StronglySorted record_le (inFlight rs) /\
  forall entries, entries ≡ₚ (map_to_list (open rs)).*2 -> sort_records entries = inFlight rs.
Proof.
  intros Hr. repeat split; [by apply reachable_check|by apply check_len, reachable_check|..].
  - by apply inFlight_elem.
  - by apply inFlight_elem.
  - apply inFlight_identities.
  - apply StronglySorted_merge_sort; apply _.
  - intros l Hl. rewrite <- inFlight_perm in Hl. rewrite (sort_records_order l (inFlight rs)).
    + apply sort_records_order; [apply inFlight_identities|]. apply inFlight_perm.
    + rewrite Hl. apply inFlight_identities.
    + done.
Qed.

(** ** One lifecycle *)

(** The journal as one lifecycle uses it: [Begin] is guarded by an empty
    [inFlight]. *)
Inductive sequential : list JournalRecord -> Prop :=
| sequential_new : sequential []
| sequential_begin rs r rs' : sequential rs -> inFlight rs = [] ->
    append rs (setKind JournalKindBegin r) = Ok rs' -> sequential rs'
| sequential_advance rs r rs' : sequential rs ->
    append rs (setKind JournalKindAdvance r) = Ok rs' -> sequential rs'
| sequential_finish rs r rs' : sequential rs ->
    append rs (setKind JournalKindFinish r) = Ok rs' -> sequential rs'.

(** Nothing is open and the history is compacted, or one entry is open and
    has added at most one record per step. *)
Definition sequential_inv (rs : list JournalRecord) : Prop :=
  (open rs = ∅ /\ len rs <= JournalCompactionThreshold) \/
  exists r, open rs = {[ Identity r := r ]} /\ Step_Terminal (Record_Step r) = false /\
    len rs <= JournalCompactionThreshold + Step_num (Record_Step r).

Lemma append_begin rs r rs' : append rs (setKind JournalKindBegin r) = Ok rs' ->
  open rs' = <[ Identity r := setKind JournalKindBegin r ]> (open rs) /\
  len rs' = len rs + 1 /\ Step_Terminal (Record_Step r) = false /\ 1 <= Step_num (Record_Step r).
Proof.
  intros Ha. rewrite (append_open _ _ _ Ha). pose proof Ha as (Hv & _ & _ & ->)%append_Ok.
  destruct (record_terminal _ Hv) as [_ Ht]. simpl in Ht. repeat split; [|done|].
  - simpl. unfold len. rewrite length_app. simpl. lia.
  - by apply record_step_pos in Hv.
Qed.

Lemma append_advance rs r rs' : append rs (setKind JournalKindAdvance r) = Ok rs' ->
  open rs' = <[ Identity r := setKind JournalKindAdvance r ]> (open rs) /\
  len rs' = len rs + 1 /\ Step_Terminal (Record_Step r) = false /\
  exists c, open rs !! Identity r = Some c /\ Step_num (Record_Step c) < Step_num (Record_Step r).
Proof.
  intros Ha. rewrite (append_open _ _ _ Ha). pose proof Ha as (Hv & _ & Hadm & ->)%append_Ok.
  destruct (record_terminal _ Hv) as [_ Ht]. simpl in Ht. repeat split; [|done|].
  - simpl. unfold len. rewrite length_app. simpl. lia.
  - unfold admissible in Hadm. simpl in Hadm.
    change (Identity (setKind JournalKindAdvance r)) with (Identity r) in Hadm.
    destruct (open rs !! Identity r) as [c|]; [|done]. exists c. split; [done|].
    destruct (Step_num (Record_Step r) <=? Step_num (Record_Step c)) eqn:L; [done|lia].
Qed.

Lemma append_finish rs r rs' : append rs (setKind JournalKindFinish r) = Ok rs' ->
  open rs' = delete (Identity r) (open rs) /\ is_Some (open rs !! Identity r) /\
  (len rs' <= JournalCompactionThreshold \/ open rs' <> ∅ \/ rs' = []).
Proof.
  intros Ha. pose proof (append_open _ _ _ Ha) as Ho. pose proof Ha as (Hv & _ & Hadm & Hrs)%append_Ok.
  split; [by rewrite Ho|]. split.
  { unfold admissible in Hadm. simpl in Hadm.
    change (Identity (setKind JournalKindFinish r)) with (Identity r) in Hadm.
    by destruct (open rs !! Identity r). }
  simpl in Hrs. subst rs'. destruct (compact_bound (rs ++ [setKind JournalKindFinish r])) as [Hb|Hb]; [by left|].
  right. destruct (compact _) as [|x l] eqn:E; [by right|left]. rewrite <- E, compact_open.
  apply Forall_cons in Hb as [[c Hc] _]. intros He. by rewrite He, lookup_empty in Hc.
Qed.

Lemma sequential_invariant rs : sequential rs -> sequential_inv rs.
Proof.
  induction 1 as [|rs r rs' _ IH He Ha|rs r rs' _ IH Ha|rs r rs' _ IH Ha].
  - left. split; [done|]. unfold len, JournalCompactionThreshold. simpl. lia.
  - apply inFlight_nil in He. apply append_begin in Ha as (Ho & Hl & Ht & Hs).
    right. exists (setKind JournalKindBegin r). rewrite Ho, He. repeat split; [done|]. simpl.
    destruct IH as [[_ ?]|(c & Hc & _)]; [lia|].
    rewrite He in Hc. by apply (f_equal (lookup (Identity c))) in Hc; rewrite lookup_singleton_eq in Hc.
  - apply append_advance in Ha as (Ho & Hl & Ht & c & Hc & Hs).
    destruct IH as [[He _]|(c' & Hc' & _ & ?)]; [by rewrite He in Hc|].
    rewrite Hc' in Hc. apply lookup_singleton_Some in Hc as [Hi ->].
    right. exists (setKind JournalKindAdvance r). rewrite Ho, Hc', Hi, insert_singleton_eq.
    repeat split; [done|]. simpl. lia.
  - apply append_finish in Ha as (Ho & [c Hc] & Hl). left.
    assert (open rs' = ∅) as He.
    { rewrite Ho. destruct IH as [[He _]|(c' & Hc' & _)]; [by rewrite He, delete_empty|].
      rewrite Hc' in Hc |- *. apply lookup_singleton_Some in Hc as [<- _]. by rewrite delete_singleton_eq. }
    split; [done|]. destruct Hl as [?|[?| ->]]; [done|done|]. unfold len, JournalCompactionThreshold. simpl. lia.
Qed.

(** A journal used by one lifecycle never fills up: it holds at most the
    compacted history and one record per non-terminal step of the open entry,
    and so no write of it is ever refused with [ErrJournalFull]. *)
Theorem sequential_never_full rs r :
  sequential rs ->
  len rs <= JournalCompactionThreshold + 7 /\ append rs r <> Err ErrJournalFull.
Proof.
  intros Hs%sequential_invariant.
  assert (len rs <= JournalCompactionThreshold + 7) as Hl.
  { destruct Hs as [[_ ?]|(c & _ & Ht & ?)]; [lia|]. destruct (Record_Step c); simpl in *; try done; lia. }
  split; [done|]. unfold append. intros [Hv|([] & _ & Ha)]%rbind_Err.
  - by apply record_validate_error in Hv as [|[|]].
  - unfold MaxJournalRecords, JournalCompactionThreshold in *.
    case_match eqn:L; [lia|]. apply rbind_Err in Ha as [Ha|([] & _ & Ha)]; [|done].
    apply admissible_refused in Ha. inversion Ha.
Qed.

(** ** Compaction *)

(** The records of one identity, in order. *)
Definition entry_records (i : JournalIdentity) (rs : list JournalRecord) : list JournalRecord :=
  filter (fun r => Identity r = i) rs.

Lemma entry_records_keep X i rs :
  entry_records i (keep X rs) = if bool_decide (i ∈ X) then [] else entry_records i rs.
Proof.
  unfold entry_records, keep. induction rs as [|r rs IH]; [by case_bool_decide|].
  rewrite !filter_cons. destruct (decide (Identity r ∉ X)) as [Hr|Hr].
  - rewrite filter_cons, IH. case_bool_decide as Hi; [|done].
    rewrite decide_False by set_solver. done.
  - rewrite IH. case_bool_decide as Hi; [done|]. rewrite decide_False by set_solver. done.
Qed.

(** Compaction forgets finished history only, and enough of it: it keeps or
    drops the records of an identity as a whole and in order, keeps those of
    every open entry, leaves the open entries as they were and a loadable
    journal loadable, and ends within the threshold unless nothing but open
    entries remains. *)
Theorem compaction_safe rs :
  open (compact rs) = open rs /\
  (forall i, entry_records i (compact rs) = entry_records i rs \/
             (entry_records i (compact rs) = [] /\ open rs !! i = None)) /\
  (check rs = Ok tt -> check (compact rs) = Ok tt) /\
  (len (compact rs) <= JournalCompactionThreshold \/
   Forall (fun r => is_Some (open rs !! Identity r)) (compact rs)).
Proof.
  split; [apply compact_open|]. split; [|split; [apply check_compact|apply compact_bound]].
  destruct (compact_keep rs) as (X & -> & HX). intros i. rewrite entry_records_keep.
  case_bool_decide; auto.
Qed.

(** ** A concrete journal *)

Definition demo_record (op : string) (step : Step) : JournalRecord :=
  mkRecord ContractVersion JournalKindUnknown "plan-1" 7 op step EmptyString EmptyString EmptyString zeroKey 1.

Lemma reachable_loads_witness : exists rs,
  reachable rs /\ Record_Step <$> inFlight rs = [StepCapture; StepApply] /\ check rs = Ok tt.
Proof.
  set (w := fun rs kind r => match append rs (setKind kind r) with Ok rs' => rs' | Err _ => [] end).
  pose (r1 := demo_record "op-2" StepCapture). pose (r2 := demo_record "op-1" StepCapture).
  pose (r3 := demo_record "op-2" StepApply).
  pose (rs := w (w (w [] JournalKindBegin r1) JournalKindBegin r2) JournalKindAdvance r3).
  assert (reachable rs) as Hr.
  { eapply (reachable_write (w (w [] JournalKindBegin r1) JournalKindBegin r2) JournalKindAdvance r3);
      [|vm_compute; reflexivity].
    eapply (reachable_write (w [] JournalKindBegin r1) JournalKindBegin r2); [|vm_compute; reflexivity].
    eapply (reachable_write [] JournalKindBegin r1); [constructor|vm_compute; reflexivity]. }
  exists rs. split; [exact Hr|]. split; [vm_compute; reflexivity|]. exact (proj1 (reachable_loads rs Hr)).
Defined.

Lemma sequential_never_full_witness :
  let rs := match append [] (setKind JournalKindBegin (demo_record "op-1" StepCapture)) with Ok rs => rs | Err _ => [] end in
  sequential rs /\ len rs = 1 /\ append rs (demo_record "op-1" StepApply) <> Err ErrJournalFull.
Proof.
  intros rs. assert (sequential rs) as Hs.
  { eapply (sequential_begin [] (demo_record "op-1" StepCapture)); [constructor|vm_compute; reflexivity..]. }
  split; [exact Hs|]. split; [vm_compute; reflexivity|].
  exact (proj2 (sequential_never_full rs (demo_record "op-1" StepApply) Hs)).
Defined.
