(* ===== verification/DriverStoreFacts.v ===== *)
(** * The stores of agent/driver: theorems

    At most one grant per plan for ever, and an append-only log of receipts
    without duplicates. *)

From S2P Require Import Prelude Sha256 Digest Probe Contract Journal DriverStores Interfaces ContractFacts ContractSpec.
From stdpp Require Import base gmap list strings.
From Stdlib Require Import ZArith Lia.

Open Scope Z_scope.

(** * The replay boundary: theorems

    A plan id is granted at most once, for ever; the floors only rise; an
    outcome, once recorded, never changes. The invariant holds of every store
    a sequence of calls can reach, whatever the contexts, clocks and
    interleavings of reservations and releases. *)

Section Facts.
Context {H : Hasher} (clock : clockT).

Abbreviation Store := MemoryReservationStore.

(** ** Steps of a store *)

Inductive store_step : Store -> Store -> Prop :=
| step_reserve n ctx key s r n' s' :
    MemoryReservationStore_Reserve clock ctx key (n, s) = (r, (n', s')) -> store_step s s'
| step_release n ctx token terminal result s r n' s' :
    MemoryReservationStore_Release ctx token terminal result (n, s) = (r, (n', s')) -> store_step s s'.

(** The invariant: a record is filed under the plan of its own valid token,
    and no record is above the floors. *)
Definition record_inv (floor : RevisionFloor) (p : string) (r : reservationRecord) : Prop :=
  Key_PlanID (Token_Key (rr_token r)) = p /\
  ReservationToken_Validate (rr_token r) = Ok tt /\
  Key_PlanRevision (Token_Key (rr_token r)) <= Floor_PlanRevision floor /\
  Key_PolicyRevision (Token_Key (rr_token r)) <= Floor_PolicyRevision floor.

Record store_inv (s : Store) : Prop := {
  inv_records : map_Forall (record_inv (RS_floor s)) (RS_records s);
  (** Grants of different plans have different plan revisions. *)
  inv_revisions : forall p q r t, RS_records s !! p = Some r -> RS_records s !! q = Some t ->
    Key_PlanRevision (Token_Key (rr_token r)) = Key_PlanRevision (Token_Key (rr_token t)) -> p = q;
}.

(** What every later store keeps of an earlier one. *)
Record later (s s' : Store) : Prop := {
  later_plan : Floor_PlanRevision (RS_floor s) <= Floor_PlanRevision (RS_floor s');
  later_policy : Floor_PolicyRevision (RS_floor s) <= Floor_PolicyRevision (RS_floor s');
  later_records : forall p r, RS_records s !! p = Some r ->
    exists r', RS_records s' !! p = Some r' /\ rr_token r' = rr_token r /\ (rr_released r = true -> r' = r);
}.

#[export] Instance later_preorder : PreOrder later.
Proof.
  split.
  - intros s. split; [lia..|]. intros p r Hr. by exists r.
  - intros s1 s2 s3 [Hp Hq Hr] [Hp' Hq' Hr']. split; [lia..|].
    intros p r (r2 & H2 & T2 & R2)%Hr. destruct (Hr' p r2 H2) as (r3 & H3 & T3 & R3).
    exists r3. split; [done|]. split; [congruence|]. intros Hrel. rewrite <- (R2 Hrel). apply R3.
    by rewrite (R2 Hrel).
Qed.

(** ** The outcomes of the operations *)

(** What a reservation call can do to a store. *)
Inductive reserve_outcome (s : Store) (key : ReservationKey) : result Reservation -> Store -> Prop :=
| outcome_refused e : reserve_outcome s key (Err e) s
| outcome_replay r :
    RS_records s !! Key_PlanID key = Some r -> rr_released r = true -> Token_Key (rr_token r) = key ->
    ReservationKey_Validate key = Ok tt ->
    reserve_outcome s key (Ok (mkReservation (rr_token r) true (rr_terminal r) (rr_result r))) s
| outcome_grant digest instant :
    RS_records s !! Key_PlanID key = None ->
    Floor_PolicyRevision (RS_floor s) <= Key_PolicyRevision key ->
    Floor_PlanRevision (RS_floor s) < Key_PlanRevision key ->
    ReservationKey_Digest key = Ok digest -> instant <> zeroTime ->
    reserve_outcome s key (Ok (mkReservation (mkToken key digest instant) false StepNone []))
      (mkStore (mkFloor (Key_PolicyRevision key) (Key_PlanRevision key))
         (<[ Key_PlanID key := mkReservationRecord (mkToken key digest instant) false StepNone [] ]> (RS_records s))).

Lemma reserve_outcomes ctx key s :
  wp (MemoryReservationStore_Reserve clock ctx key) (reserve_outcome s key) s.
Proof.
  unfold MemoryReservationStore_Reserve. repeat wp_step; [|constructor].
  destruct (ReservationKey_Digest key) as [digest|e] eqn:Hd; repeat wp_step; [|constructor].
  pose proof Hd as [Hk _]%ReservationKey_Digest_Ok.
  destruct (RS_records s !! Key_PlanID key) as [r|] eqn:Hr.
  - case_bool_decide; simpl; [|apply wp_fail; constructor].
    destruct (rr_released r) eqn:?; simpl; [|apply wp_fail; constructor].
    apply wp_ret. by constructor.
  - destruct ((_ <? _) || _) eqn:Hf; [apply wp_fail; constructor|]. repeat wp_step.
    unfold IsZero. simpl. destruct (clock n =? zeroTime) eqn:Hz; [apply wp_fail; constructor|].
    repeat wp_step. constructor; try done; lia.
Qed.

(** What a release call can do to a store. *)
Inductive release_outcome (s : Store) (token : ReservationToken) (terminal : Step) (res : list Z)
    : result unit -> Store -> Prop :=
| outcome_release_refused e : release_outcome s token terminal res (Err e) s
| outcome_release_again r :
    RS_records s !! Key_PlanID (Token_Key token) = Some r -> Token_Token (rr_token r) = Token_Token token ->
    rr_released r = true -> rr_terminal r = terminal -> rr_result r = res ->
    release_outcome s token terminal res (Ok tt) s
| outcome_release_first r :
    RS_records s !! Key_PlanID (Token_Key token) = Some r -> Token_Token (rr_token r) = Token_Token token ->
    rr_released r = false -> Step_Terminal terminal = true -> len res <= MaxReservationResultBytes ->
    release_outcome s token terminal res (Ok tt)
      (mkStore (RS_floor s)
        (<[ Key_PlanID (Token_Key token) := mkReservationRecord (rr_token r) true terminal res ]> (RS_records s))).

Lemma release_outcomes ctx token terminal res s :
  wp (MemoryReservationStore_Release ctx token terminal res) (release_outcome s token terminal res) s.
Proof.
  unfold MemoryReservationStore_Release. repeat wp_step; [|constructor].
  destruct (ReservationToken_Validate token) as [[]|e]; repeat wp_step; [|constructor].
  destruct (Step_Terminal terminal) eqn:?; simpl; [|apply wp_fail; constructor].
  destruct (MaxReservationResultBytes <? len res) eqn:?; [apply wp_fail; constructor|]. repeat wp_step.
  destruct (RS_records s !! _) as [r|] eqn:Hr; [|apply wp_fail; constructor].
  destruct (eqs _ _) eqn:Ht; simpl; [apply eqs_true in Ht|apply wp_fail; constructor].
  destruct (rr_released r) eqn:?; [|repeat wp_step; constructor; try done; lia].
  do 2 case_bool_decide; simpl; try (apply wp_fail; constructor). apply wp_ret. by eapply outcome_release_again.
Qed.

(** ** Preservation *)

Lemma record_inv_later floor floor' p r :
  Floor_PlanRevision floor <= Floor_PlanRevision floor' ->
  Floor_PolicyRevision floor <= Floor_PolicyRevision floor' ->
  record_inv floor p r -> record_inv floor' p r.
Proof. intros ? ? (? & ? & ? & ?). repeat split; try done; lia. Qed.

Lemma reserve_outcome_inv s key r s' : reserve_outcome s key r s' -> store_inv s -> store_inv s' /\ later s s'.
Proof.
  intros Ho [Hr Hrev]. inversion Ho as [e|rec|digest instant Hn Hq Hp Hd Hz]; subst; [by split; [split|]..|].
  split; [split|split]; simpl; try lia.
  - apply map_Forall_insert_2.
    + repeat split; simpl; try lia. by apply ReservationToken_Validate_iff.
    + eapply map_Forall_impl; [exact Hr|]. intros p x. apply record_inv_later; simpl; lia.
  - assert (forall p x, RS_records s !! p = Some x -> Key_PlanRevision (Token_Key (rr_token x)) < Key_PlanRevision key) as Hlt.
    { intros p x Hx. destruct (Hr p x Hx) as (_ & _ & ? & _). lia. }
    intros p q x y [[<- <-]|[? Hx]]%lookup_insert_Some [[<- <-]|[? Hy]]%lookup_insert_Some E; simpl in *; eauto.
    + specialize (Hlt _ _ Hy). lia.
    + specialize (Hlt _ _ Hx). lia.
  - intros p x Hx. exists x. rewrite lookup_insert_ne by congruence. done.
Qed.

Lemma release_outcome_inv s token terminal res r s' :
  release_outcome s token terminal res r s' -> store_inv s -> store_inv s' /\ later s s'.
Proof.
  intros Ho [Hr Hrev]. inversion Ho as [e|rec|rec Hx Ht Hrel]; subst; [by split; [split|]..|].
  assert (forall q y, <[Key_PlanID (Token_Key token):=mkReservationRecord (rr_token rec) true terminal res]> (RS_records s) !! q = Some y ->
    exists x, RS_records s !! q = Some x /\ rr_token y = rr_token x) as Hold.
  { intros q y [[<- <-]|[? Hy]]%lookup_insert_Some; eauto. }
  split; [split|split]; simpl; try lia.
  - intros p y (x & Hp & Hy)%Hold. destruct (Hr p x Hp) as (? & ? & ? & ?). by rewrite <- Hy in *.
  - intros p q x y (x' & Hx' & Ex)%Hold (y' & Hy' & Ey)%Hold. rewrite Ex, Ey. by apply Hrev.
  - intros p x Hp. destruct (decide (p = Key_PlanID (Token_Key token))) as [->|Hne].
    + assert (x = rec) as -> by congruence. rewrite lookup_insert_eq. eexists. split; [done|].
      split; [done|]. congruence.
    + rewrite lookup_insert_ne by congruence. by exists x.
Qed.

Lemma store_step_inv s s' : store_step s s' -> store_inv s -> store_inv s' /\ later s s'.
Proof.
  intros [n ctx key s0 r n' s0' E|n ctx token terminal res s0 r n' s0' E].
  - eapply reserve_outcome_inv. by apply (wp_run _ _ _ _ _ _ _ (reserve_outcomes ctx key s0) E).
  - eapply release_outcome_inv. by apply (wp_run _ _ _ _ _ _ _ (release_outcomes ctx token terminal res s0) E).
Qed.

Lemma store_steps_inv s s' : rtc store_step s s' -> store_inv s -> store_inv s' /\ later s s'.
Proof.
  induction 1 as [|s1 s2 s3 Hs _ IH]; [done|]. intros [H2 L2]%(store_step_inv _ _ Hs).
  destruct (IH H2) as [? ?]. split; [done|]. by etrans.
Qed.

Lemma store_inv_new p q : store_inv (NewMemoryReservationStore p q).
Proof. split; simpl; [apply map_Forall_empty|]. intros ? ? ? ? Hr. by rewrite lookup_empty in Hr. Qed.

(** The stores that calls can make of a new one. *)
Definition store_reachable (policy plan : Z) (s : Store) : Prop :=
  rtc store_step (NewMemoryReservationStore policy plan) s.

Lemma store_reachable_inv policy plan s : store_reachable policy plan s -> store_inv s.
Proof. intros Hr. eapply store_steps_inv; [exact Hr|]. apply store_inv_new. Qed.

(** ** The promises *)

(** The store's state is sound in every reachable state: each record is
    filed under the plan of its token, its token is the digest of its key, no
    granted revision is above the floors, two plans never share a plan
    revision, and the floors never fall below what the store was built with. *)
Theorem reservation_invariant policy plan s :
  store_reachable policy plan s ->
  store_inv s /\ policy <= Floor_PolicyRevision (RS_floor s) /\ plan <= Floor_PlanRevision (RS_floor s).
Proof.
  intros Hr. destruct (store_steps_inv _ _ Hr (store_inv_new _ _)) as [? [? ? _]]. done.
Qed.

(** At most one grant per plan, for ever: once a plan id is recorded, no
    later call, however many reservations and releases lie between, answers
    with a fresh grant for it; and a fresh grant is always above the plan
    floor of every earlier store and derived from the very key asked for. *)
Theorem reservation_at_most_once policy plan s s' n ctx key reservation n' s'' :
  store_reachable policy plan s -> rtc store_step s s' ->
  MemoryReservationStore_Reserve clock ctx key (n, s') = (Ok reservation, (n', s'')) ->
  Reservation_Replayed reservation = false ->
  RS_records s !! Key_PlanID key = None /\
  Floor_PlanRevision (RS_floor s) < Key_PlanRevision key /\
  Floor_PolicyRevision (RS_floor s) <= Key_PolicyRevision key /\
  Token_Key (Reservation_Token reservation) = key /\
  ReservationToken_Validate (Reservation_Token reservation) = Ok tt.
Proof.
  intros Hr%store_reachable_inv Hs E Hf. destruct (store_steps_inv _ _ Hs Hr) as [_ [? ? Hl]].
  pose proof (wp_run _ _ _ _ _ _ _ (reserve_outcomes ctx key s') E) as Ho.
  inversion Ho as [e|rec|digest instant Hn Hq Hp Hd Hz]; subst; [done|].
  split; [|split; [lia|split; [lia|split; [done|by apply ReservationToken_Validate_iff]]]].
  destruct (RS_records s !! Key_PlanID key) as [x|] eqn:Ex; [|done].
  destruct (Hl _ _ Ex) as (x' & Hx' & _). congruence.
Qed.

(** An outcome is write-once: after a release has recorded a terminal step
    and result for a plan, every later store still holds them, a repeated
    reservation of the same key replays exactly them without changing the
    store, and releasing with anything else fails with
    [ErrReservationConflict]. *)
Theorem reservation_outcome_final policy plan s s' p r n ctx key :
  store_reachable policy plan s -> RS_records s !! p = Some r -> rr_released r = true ->
  rtc store_step s s' -> Token_Key (rr_token r) = key -> ctx n = None ->
  RS_records s' !! p = Some r /\
  MemoryReservationStore_Reserve clock ctx key (n, s') =
    (Ok (mkReservation (rr_token r) true (rr_terminal r) (rr_result r)), (S n, s')) /\
  forall terminal res, Step_Terminal terminal = true -> len res <= MaxReservationResultBytes ->
    MemoryReservationStore_Release ctx (rr_token r) terminal res (n, s') =
    ((if bool_decide (rr_terminal r = terminal) && bool_decide (rr_result r = res)
      then Ok tt else Err ErrReservationConflict), (S n, s')).
Proof.
  intros Hr%store_reachable_inv Hp Hrel Hs <- Hctx. destruct (store_steps_inv _ _ Hs Hr) as [_ [_ _ Hl]].
  destruct (inv_records _ Hr p r Hp) as (<- & Hv & _).
  destruct (Hl _ _ Hp) as (r' & Hr' & _ & Heq). specialize (Heq Hrel) as ->.
  split; [done|]. pose proof Hv as [Hd _]%ReservationToken_Validate_iff. split.
  - unfold MemoryReservationStore_Reserve, bindM, ctxErr, liftR, getS; simpl. rewrite Hctx, Hd; simpl.
    rewrite Hr'. by rewrite bool_decide_eq_true_2, Hrel.
  - intros terminal res Ht Hb. unfold MemoryReservationStore_Release, bindM, ctxErr, liftR, getS; simpl.
    rewrite Hctx, Hv; simpl. rewrite Ht; simpl. destruct (MaxReservationResultBytes <? len res) eqn:?; [lia|].
    simpl. rewrite Hr', eqs_refl, Hrel. simpl. by destruct (_ && _).
Qed.

(** ** The interface *)

Definition MemoryReservation_laws : @ReservationLaws Store H (MemoryReservation_ops clock).
Proof.
  unshelve refine {| store_granted := fun s p => is_Some (RS_records s !! p) |}.
  - intros ctx key s. simpl. eapply wp_mono; [apply reserve_outcomes|].
    intros r s' [e|rec Hrec Hrel Hkey Hv|digest instant Hn Hq Hp Hd Hz]; simpl; [by auto|by auto|].
    split; [intros p [x Hx]; destruct (decide (p = Key_PlanID key)) as [->|];
              [congruence|rewrite lookup_insert_ne by congruence; eauto]|].
    pose proof Hd as [? _]%ReservationKey_Digest_Ok.
    split; [done|]. split; [done|]. intros _. split; [by apply ReservationToken_Validate_iff|].
    rewrite Hn, lookup_insert_eq. split; [by intros []|by eexists].
  - intros ctx token terminal res s. simpl. eapply wp_mono; [apply release_outcomes|].
    intros r s' [e|rec|rec Hrec Ht Hrel]; simpl; [done|done|]. intros p.
    destruct (decide (p = Key_PlanID (Token_Key token))) as [->|].
    + rewrite Hrec, lookup_insert_eq. by split; eauto.
    + by rewrite lookup_insert_ne by congruence.
Defined.
End Facts.

(** ** A concrete store *)

Definition demo_clock : clockT := fun n => 1787486400 * Second + Z.of_nat n.
Definition demo_store : MemoryReservationStore :=
  snd (snd (@MemoryReservationStore_Reserve sha256 demo_clock Background demo_key
              (O, NewMemoryReservationStore 0 0))).
Definition demo_released : MemoryReservationStore :=
  snd (snd (@MemoryReservationStore_Release sha256 Background (demo_token (demo_clock 1%nat)) StepCommit [1; 2]
              (2%nat, demo_store))).
Definition demo_next_key : ReservationKey := mkKey "plan-2" 3 8 "00fe" "sha256:agent".

Lemma demo_store_reachable : @store_reachable sha256 demo_clock 0 0 demo_store.
Proof.
  eapply rtc_once, (@step_reserve sha256 demo_clock 0%nat Background demo_key (NewMemoryReservationStore 0 0)).
  vm_compute. reflexivity.
Qed.

Lemma demo_released_reachable : @store_reachable sha256 demo_clock 0 0 demo_released.
Proof.
  eapply rtc_r; [apply demo_store_reachable|].
  eapply (@step_release sha256 demo_clock 2%nat Background (demo_token (demo_clock 1%nat)) StepCommit [1; 2] demo_store).
  vm_compute. reflexivity.
Qed.

Lemma reservation_invariant_witness : @store_inv sha256 demo_released.
Proof. apply (@reservation_invariant sha256 demo_clock 0 0 demo_released demo_released_reachable). Defined.

Lemma reservation_at_most_once_witness :
  RS_records demo_store !! "plan-2"%string = None /\ Floor_PlanRevision (RS_floor demo_store) < 8.
Proof.
  pose (out := @MemoryReservationStore_Reserve sha256 demo_clock Background demo_next_key (5%nat, demo_released)).
  assert (exists r n' s', out = (Ok r, (n', s')) /\ Reservation_Replayed r = false) as (r & n' & s' & E & F).
  { eexists _, _, _. vm_compute. split; reflexivity. }
  assert (rtc (@store_step sha256 demo_clock) demo_store demo_released) as Hs.
  { eapply rtc_once, (@step_release sha256 demo_clock 2%nat Background (demo_token (demo_clock 1%nat)) StepCommit [1; 2]).
    vm_compute. reflexivity. }
  destruct (@reservation_at_most_once sha256 demo_clock 0 0 demo_store demo_released 5%nat Background demo_next_key
    r n' s' demo_store_reachable Hs E F) as (H1 & H2 & _).
  split; [exact H1|exact H2].
Defined.

Lemma reservation_outcome_final_witness :
  fst (@MemoryReservationStore_Reserve sha256 demo_clock Background demo_key (9%nat, demo_released)) =
  Ok (mkReservation (demo_token (demo_clock 1%nat)) true StepCommit [1; 2]).
Proof.
  pose (rec := mkReservationRecord (demo_token (demo_clock 1%nat)) true StepCommit [1; 2]).
  assert (RS_records demo_released !! "plan-1"%string = Some rec) as Hr by (vm_compute; reflexivity).
  destruct (@reservation_outcome_final sha256 demo_clock 0 0 demo_released demo_released "plan-1" rec 9%nat Background
    demo_key demo_released_reachable Hr eq_refl (rtc_refl _ _) eq_refl eq_refl) as (_ & E & _).
  rewrite E. reflexivity.
Defined.

(** * The receipt store: theorems

    The log is append-only, holds only valid receipts and no two with the
    same content digest, and reports a second append of the same content
    without recording it. *)

Section Facts.
Context {H : Hasher}.

Abbreviation Log := MemoryReceiptStore.

(** The digest of a receipt, given that it validates. *)
Definition digest_of (r : Receipt) : string := dw_hex (Receipt_writer r).

Record log_inv (s : Log) : Prop := {
  log_valid : Forall (fun r => Receipt_Validate r = Ok tt) (RC_receipts s);
  log_digests : forall d, d ∈ RC_digests s <-> d ∈ digest_of <$> RC_receipts s;
  log_unique : NoDup (digest_of <$> RC_receipts s);
}.

(** What an append can do to a log. *)
Inductive append_outcome (s : Log) (r : Receipt) : result unit -> Log -> Prop :=
| append_refused e : append_outcome s r (Err e) s
| append_new : Receipt_Validate r = Ok tt -> digest_of r ∉ RC_digests s ->
    append_outcome s r (Ok tt) (mkReceiptStore (RC_receipts s ++ [r]) ({[ digest_of r ]} ∪ RC_digests s)).

Lemma append_outcomes ctx r s : wp (MemoryReceiptStore_Append ctx r) (append_outcome s r) s.
Proof.
  unfold MemoryReceiptStore_Append, ContentDigest. repeat wp_step; [|constructor].
  destruct (Receipt_Validate r) as [[]|e] eqn:Hv; simpl; repeat wp_step; [|constructor].
  fold (digest_of r). case_bool_decide; repeat wp_step; by constructor.
Qed.

Inductive log_step : Log -> Log -> Prop :=
| step_append n ctx r s res n' s' :
    MemoryReceiptStore_Append ctx r (n, s) = (res, (n', s')) -> log_step s s'.

Definition log_reachable (s : Log) : Prop := rtc log_step NewMemoryReceiptStore s.

Lemma append_outcome_inv s r res s' :
  append_outcome s r res s' -> log_inv s -> log_inv s' /\ RC_receipts s `prefix_of` RC_receipts s'.
Proof.
  intros [e|Hv Hd] Hi; [done|]. destruct Hi as [Hval Hdig Huniq]. split; [split|]; simpl.
  - apply Forall_app. split; [done|]. by constructor.
  - intros d. rewrite fmap_app, elem_of_union, elem_of_singleton, elem_of_app, Hdig. simpl.
    rewrite list_elem_of_singleton. tauto.
  - rewrite fmap_app. apply NoDup_app. split; [done|]. split; [|apply NoDup_singleton].
    intros d Hd1 ->%list_elem_of_singleton. by apply Hd, Hdig.
  - by apply prefix_app_r.
Qed.

Lemma log_steps_inv s s' : rtc log_step s s' -> log_inv s -> log_inv s' /\ RC_receipts s `prefix_of` RC_receipts s'.
Proof.
  induction 1 as [|s1 s2 s3 [n ctx r s1' res n' s2' E] _ IH]; [done|]. intros Hi.
  pose proof (wp_run _ _ _ _ _ _ _ (append_outcomes ctx r s1') E) as Ho.
  destruct (append_outcome_inv _ _ _ _ Ho Hi) as [H2 P2]. destruct (IH H2) as [? ?].
  split; [done|]. by etrans.
Qed.

Lemma log_inv_new : log_inv NewMemoryReceiptStore.
Proof. split; simpl; [constructor| |constructor]. intros d. set_solver. Qed.

(** The receipt log is append-only and sound: whatever is appended in
    between, what was recorded stays where it was recorded, every recorded
    receipt is valid, and no content is recorded twice. *)
Theorem receipt_log_append_only s s' :
  log_reachable s -> rtc log_step s s' ->
  RC_receipts s `prefix_of` RC_receipts s' /\ log_inv s'.
Proof.
  intros Hr Hs. destruct (log_steps_inv _ _ Hr log_inv_new) as [Hi _].
  by destruct (log_steps_inv _ _ Hs Hi).
Qed.

(** Appending is idempotent and visible: with a live context, a valid
    receipt is recorded once, at the end of what [List] answers for its plan
    and nowhere else; appending it again reports [ErrReceiptDuplicate] and
    changes nothing. *)
Theorem receipt_append_idempotent s r ctx n m k :
  Receipt_Validate r = Ok tt -> digest_of r ∉ RC_digests s ->
  ctx n = None -> ctx m = None -> ctx k = None ->
  exists s', MemoryReceiptStore_Append ctx r (n, s) = (Ok tt, (S n, s')) /\
    MemoryReceiptStore_Append ctx r (m, s') = (Err ErrReceiptDuplicate, (S m, s')) /\
    (forall p, validIdentifier p = true ->
       exists before, MemoryReceiptStore_List ctx p (k, s) = (Ok before, (S k, s)) /\
         MemoryReceiptStore_List ctx p (k, s') =
           (Ok (if bool_decide (Receipt_PlanID r = p) then before ++ [r] else before), (S k, s'))).
Proof.
  intros Hv Hd Hn Hm Hk. eexists. split; [|split].
  - unfold MemoryReceiptStore_Append, ContentDigest, bindM, ctxErr, liftR, getS, modS; simpl.
    rewrite Hn, Hv; simpl. fold (digest_of r). by rewrite bool_decide_eq_false_2.
  - unfold MemoryReceiptStore_Append, ContentDigest, bindM, ctxErr, liftR, getS, modS; simpl.
    rewrite Hm, Hv; simpl. fold (digest_of r). by rewrite bool_decide_eq_true_2 by set_solver.
  - intros p Hp. eexists.
    unfold MemoryReceiptStore_List, bindM, ctxErr, getS, retM; simpl. rewrite Hk, Hp; simpl. split; [done|].
    rewrite filter_app, filter_cons, filter_nil.
    destruct (decide (Receipt_PlanID r = p)) as [E|E];
      [rewrite bool_decide_eq_true_2|rewrite bool_decide_eq_false_2, app_nil_r]; done.
Qed.
End Facts.

(** ** A concrete log *)

Definition demo_log : MemoryReceiptStore :=
  snd (snd (@MemoryReceiptStore_Append sha256 Background demo_receipt (O, NewMemoryReceiptStore))).
Definition demo_second : Receipt :=
  mkReceipt 1 ReceiptKindCommit "plan" 1 "op" "t" (Receipt_OwnershipToken demo_receipt) (Receipt_Digest demo_receipt)
    ReasonApplied (1787486401 * Second).

Lemma demo_log_reachable : @log_reachable sha256 demo_log.
Proof.
  eapply rtc_once, (@step_append sha256 0%nat Background demo_receipt NewMemoryReceiptStore).
  vm_compute. reflexivity.
Qed.

Lemma receipt_log_append_only_witness : @log_inv sha256 demo_log.
Proof. apply (@receipt_log_append_only sha256 demo_log demo_log demo_log_reachable (rtc_refl _ _)). Defined.

Lemma receipt_append_idempotent_witness : exists s',
  @MemoryReceiptStore_Append sha256 Background demo_second (4%nat, demo_log) = (Ok tt, (5%nat, s')).
Proof.
  destruct (@receipt_append_idempotent sha256 demo_log demo_second Background 4%nat 5%nat 6%nat) as (s' & E & _).
  - vm_compute. reflexivity.
  - apply (bool_decide_unpack _). vm_compute. reflexivity.
  - reflexivity.
  - reflexivity.
  - reflexivity.
  - exists s'. exact E.
Defined.
