(* ===== verification/MemoryFacts.v ===== *)
(** * The reference driver: theorems

    Reading the fake host, what a simulation predicts, what an apply changes
    and keeps for the way back, and what rollback and recovery restore. *)

From S2P Require Import Prelude Sha256 Digest Probe Contract ContractFacts Journal DriverStores Interfaces JournalFacts ContractSpec Memory.
From stdpp Require Import base gmap list strings sorting.
From Stdlib Require Import ZArith Lia.

Open Scope Z_scope.

(** ** Captures *)

(** The entries of a scope before sorting. *)
Definition scope_entries (scope : Scope) (rules : gmap ruleKey string) : list SnapshotEntry :=
  (fun p => mkEntry (Rule_Target p.1) p.2) <$> List.filter (in_scope scope) (map_to_list rules).

Lemma filter_bool_perm {A} (f : A -> bool) (l k : list A) :
  l ≡ₚ k -> List.filter f l ≡ₚ List.filter f k.
Proof.
  induction 1 as [|x l k _ IH|x y l|l1 l2 l3 _ IH1 _ IH2]; simpl; [done| | |by etrans].
  - by destruct (f x); rewrite IH.
  - destruct (f x), (f y); try done. apply Permutation_swap.
Qed.

Lemma scope_entries_insert scope rules k v :
  rules !! k = None ->
  scope_entries scope (<[ k := v ]> rules) ≡ₚ
  (if in_scope scope (k, v) then [mkEntry (Rule_Target k) v] else []) ++ scope_entries scope rules.
Proof.
  intros Hk. unfold scope_entries. rewrite (filter_bool_perm _ _ _ (map_to_list_insert rules k v Hk)). simpl.
  by destruct (in_scope scope (k, v)).
Qed.

Lemma in_scope_type scope p : in_scope scope p = true -> Rule_Type p.1 = Scope_OperationType scope.
Proof. unfold in_scope. destruct (Rule_Type p.1 =? _) eqn:E; simpl; [intros _; lia|done]. Qed.

Lemma scope_entries_elem scope rules e :
  e ∈ scope_entries scope rules ->
  rules !! mkRuleKey (Scope_OperationType scope) (Entry_Key e) = Some (Entry_Value e).
Proof.
  unfold scope_entries. intros ([[t tgt] v] & -> & Hp)%list_elem_of_fmap.
  apply list_elem_of_In, filter_In in Hp as [Hp Hs]. apply list_elem_of_In, elem_of_map_to_list in Hp.
  apply in_scope_type in Hs. simpl in *. by rewrite <- Hs.
Qed.

(** Within a scope the target determines the rule. *)
Lemma scope_entries_keys scope rules : NoDup (Entry_Key <$> scope_entries scope rules).
Proof.
  induction rules as [|k v rules Hk IH] using map_ind; [apply NoDup_nil_2|].
  rewrite (scope_entries_insert scope rules k v Hk). destruct (in_scope scope (k, v)) eqn:Hs; [|done].
  simpl. apply NoDup_cons. split; [|done]. intros (e & He & Hin)%list_elem_of_fmap.
  apply scope_entries_elem in Hin. apply in_scope_type in Hs. destruct k as [t tgt]. simpl in *.
  rewrite <- He, <- Hs in Hin. congruence.
Qed.

#[export] Instance entry_le_total : Total entry_le.
Proof. intros a b. apply (total String.le). Qed.
#[export] Instance entry_le_trans : Transitive entry_le.
Proof. intros a b c. unfold entry_le. by etrans. Qed.

(** Two sorted lists of the same entries with distinct keys are equal. *)
Lemma sorted_entries_unique l k :
  NoDup (Entry_Key <$> l) -> StronglySorted entry_le l -> StronglySorted entry_le k -> l ≡ₚ k -> l = k.
Proof.
  intros Hn Hl Hk Hp. apply (StronglySorted_unique_strong entry_le); [|done..].
  intros x y Hx Hy Hxy Hyx. apply (NoDup_fmap_inj Entry_Key l); [done..|by rewrite Hp|].
  by apply (anti_symm String.le).
Qed.

Lemma sort_entries_sorted l : StronglySorted entry_le (sort_entries l).
Proof. apply StronglySorted_merge_sort; apply _. Qed.

Lemma sort_entries_perm l : sort_entries l ≡ₚ l.
Proof. apply merge_sort_Permutation. Qed.

Lemma capture_perm rules scope : capture rules scope ≡ₚ scope_entries scope rules.
Proof. apply sort_entries_perm. Qed.

Lemma capture_keys rules scope : NoDup (Entry_Key <$> capture rules scope).
Proof. rewrite capture_perm. apply scope_entries_keys. Qed.

Lemma capture_unique rules scope l :
  StronglySorted entry_le l -> l ≡ₚ scope_entries scope rules -> l = capture rules scope.
Proof.
  intros Hs Hp. symmetry. apply sorted_entries_unique; [apply capture_keys|apply sort_entries_sorted|done|].
  by rewrite capture_perm, Hp.
Qed.

Lemma capture_elem rules scope t v :
  in_scope scope (mkRuleKey (Scope_OperationType scope) t, v) = true ->
  mkEntry t v ∈ capture rules scope <-> rules !! mkRuleKey (Scope_OperationType scope) t = Some v.
Proof.
  intros Hs. rewrite capture_perm. split; [apply (scope_entries_elem scope rules (mkEntry t v))|].
  intros Hr. unfold scope_entries. apply list_elem_of_fmap. exists (mkRuleKey (Scope_OperationType scope) t, v). split; [done|].
  by apply list_elem_of_In, filter_In; split; [apply list_elem_of_In, elem_of_map_to_list|].
Qed.

(** ** What a simulation predicts *)

Lemma find_entry_Some t l e : find_entry t l = Some e -> e ∈ l /\ Entry_Key e = t.
Proof. unfold find_entry. intros [Hin Ht%eqs_true]%List.find_some. by rewrite list_elem_of_In. Qed.

Lemma find_entry_None t l : find_entry t l = None -> t ∉ Entry_Key <$> l.
Proof.
  unfold find_entry. intros Hf (e & -> & He)%list_elem_of_fmap.
  apply list_elem_of_In, (List.find_none _ _ Hf) in He. by rewrite eqs_refl in He.
Qed.

Lemma set_entry_keys t v l : Entry_Key <$> set_entry t v l = Entry_Key <$> l.
Proof. induction l as [|e l IH]; simpl; [done|]. case_match; simpl; [done|]. f_equal. apply IH. Qed.

Lemma set_entry_perm t v e l rest :
  NoDup (Entry_Key <$> l) -> Entry_Key e = t -> l ≡ₚ e :: rest -> set_entry t v l ≡ₚ mkEntry t v :: rest.
Proof.
  intros Hn He Hp.
  assert (exists a b, l = a ++ e :: b) as (a & b & ->).
  { apply list_elem_of_split. rewrite Hp. apply list_elem_of_here. }
  rewrite <- Permutation_middle in Hp. apply Permutation_cons_inv in Hp. rewrite <- Hp. clear Hp rest.
  rewrite fmap_app in Hn. apply NoDup_app in Hn as (_ & Hd & _). simpl in Hd.
  assert (set_entry t v (a ++ e :: b) = a ++ mkEntry t v :: b) as ->; [|by rewrite <- Permutation_middle].
  induction a as [|x a IH]; simpl.
  - rewrite (proj2 (eqs_true _ _) He). by rewrite He.
  - destruct (eqs (Entry_Key x) t) eqn:Ex.
    + apply eqs_true in Ex. exfalso. apply (Hd (Entry_Key x)); [apply list_elem_of_here|].
      rewrite Ex, He. apply list_elem_of_here.
    + f_equal. apply IH. intros k Hk. apply Hd. by apply list_elem_of_further.
Qed.

Lemma keys_sorted l k :
  Entry_Key <$> l = Entry_Key <$> k -> StronglySorted entry_le l -> StronglySorted entry_le k.
Proof.
  intros E Hl. revert k E. induction Hl as [|x l Hl IH Hx]; intros [|y k] E; try done; [constructor|].
  rewrite !fmap_cons in E. apply cons_inj in E as [Exy E]. constructor; [by apply IH|]. apply Forall_forall. intros z Hz.
  assert (Entry_Key z ∈ Entry_Key <$> l) as (w & Hw & Hwl)%list_elem_of_fmap.
  { rewrite E. apply list_elem_of_fmap. eauto. }
  rewrite Forall_forall in Hx. specialize (Hx w Hwl). unfold entry_le in *. congruence.
Qed.

(** The entries a simulation predicts are the ones a capture will find once
    the rule is written, for every scope the rule belongs to. *)
Lemma simulate_entries_capture rules scope target value :
  let key := mkRuleKey (Scope_OperationType scope) target in
  in_scope scope (key, value) = true ->
  fst (simulate_entries target value (capture rules scope)) = capture (<[ key := value ]> rules) scope.
Proof.
  intros key Hs. unfold simulate_entries.
  assert (forall v, in_scope scope (key, v) = true) as Hsv by (intros v; by rewrite <- Hs).
  assert (scope_entries scope (<[key:=value]> rules) ≡ₚ
          mkEntry target value :: scope_entries scope (delete key rules)) as Hnew.
  { rewrite <- insert_delete_eq, scope_entries_insert by apply lookup_delete_eq. by rewrite Hsv. }
  destruct (find_entry target _) as [[k old]|] eqn:Hf.
  - apply find_entry_Some in Hf as [Hin Hk]. simpl in Hk. subst k.
    assert (rules !! key = Some old) as Hr by (by apply (capture_elem rules scope target old)).
    simpl. destruct (eqs old value) eqn:Ev.
    { apply eqs_true in Ev as ->. simpl. by rewrite insert_id. }
    simpl. apply capture_unique.
    + eapply keys_sorted; [symmetry; apply set_entry_keys|apply sort_entries_sorted].
    + rewrite Hnew. apply (set_entry_perm _ _ (mkEntry target old)); [apply capture_keys|done|].
      rewrite capture_perm. rewrite <- (insert_id rules key old) at 1 by done.
      rewrite <- insert_delete_eq, scope_entries_insert by apply lookup_delete_eq. by rewrite Hsv.
  - simpl. apply capture_unique; [apply sort_entries_sorted|].
    rewrite sort_entries_perm, Hnew, <- Permutation_cons_append, capture_perm.
    apply find_entry_None in Hf.
    assert (rules !! key = None) as Hr; [|by rewrite delete_id].
    destruct (rules !! key) as [old|] eqn:Hr; [|done]. exfalso. apply Hf.
    apply (capture_elem rules scope target old (Hsv old)) in Hr.
    apply list_elem_of_fmap. by exists (mkEntry target old).
Qed.

(** ** The driver over any journal *)

Section Driver.
Context {H : Hasher} (protoMarshal : option pbStruct -> option (list Z)) (clock wall : clockT).
Context {J : Type} {JO : JournalOps J} {JL : JournalLaws J}.

Abbreviation D := (MemoryDriver J).
Abbreviation view := (journal_view (J := J)).

Lemma wp_journal {A} (m : M J A) Q (d : D) :
  (forall r j', Q r (setJournal j' d)) -> wp (zoom getJournal setJournal m) Q d.
Proof. intros HQ. apply wp_zoom. intros n. destruct (m (n, _)) as [r [n' j']]. apply HQ. Qed.

Lemma wp_driver_inFlight ctx Q (d : D) :
  (forall r j', view j' = view (getJournal d) ->
     (forall l, r = Ok l -> l = inFlight (view (getJournal d))) -> Q r (setJournal j' d)) ->
  wp (Memory_inFlight ctx) Q d.
Proof.
  intros HQ. unfold Memory_inFlight. repeat wp_step. eapply wp_mono; [apply journal_inFlight|].
  intros r j' [Hv Hl]; simpl. destruct r as [l|e]; repeat wp_step; apply HQ; naive_solver.
Qed.

(** Steps up to the next call of the journal. *)
Ltac wp_pure :=
  lazymatch goal with
  | |- wp (zoom _ _ _) _ _ => fail
  | |- _ => wp_step
  end.

(** One target, read under the lock. *)

Lemma targetSnapshot_same (d d' : D) key t t' a b :
  MD_name d = MD_name d' ->
  capture (getRules d) (mkScope (Rule_Type key) [Rule_Target key]) = capture (getRules d') (mkScope (Rule_Type key) [Rule_Target key]) ->
  Snapshot_Digest (targetSnapshot d key t) = Ok a -> Snapshot_Digest (targetSnapshot d' key t') = Ok b -> a = b.
Proof.
  intros Hn Hc [_ ->]%Snapshot_Digest_Ok [_ ->]%Snapshot_Digest_Ok. f_equal.
  by apply same_state_writer.
Qed.

Lemma in_scope_target key v : in_scope (mkScope (Rule_Type key) [Rule_Target key]) (key, v) = true.
Proof.
  unfold in_scope. simpl. rewrite Z.eqb_refl. simpl. apply bool_decide_eq_true_2. apply list_elem_of_here.
Qed.

(** A simulation of an operation of the scope's own type that returns has
    rendered a value and predicts what a capture will show. *)
Lemma simulate_predicts (d : D) key t operation sim :
  simulate protoMarshal (targetSnapshot d key t) operation = Ok sim ->
  GetType operation = Rule_Type key -> GetTarget operation = Rule_Target key ->
  exists value, render protoMarshal operation = Ok value /\
    Snapshot_Digest (targetSnapshot d key t) = Ok (Simulation_SnapshotDigest sim) /\
    Simulation_WouldSucceed sim = true /\
    forall (d' : D) t' digest, MD_name d' = MD_name d -> getRules d' = <[ key := value ]> (getRules d) ->
      Snapshot_Digest (targetSnapshot d' key t') = Ok digest -> digest = Diff_AfterDigest (Simulation_Diff sim).
Proof.
  unfold simulate. intros Hs Hty Htgt. validated Hs.
  change (Scope_OperationType (Snapshot_Scope (targetSnapshot d key t))) with (Rule_Type key) in Hs.
  rewrite Hty, Z.eqb_refl in Hs. simpl in Hs. validated Hs. injection Hs as <-. simpl.
  match goal with Hr : render _ _ = Ok ?v |- _ => exists v; split; [done|] end.
  repeat split; [done|]. intros d' t' digest Hn Hr Hd.
  match goal with Ha : Snapshot_Digest (withEntries _ _) = Ok _ |- _ => apply Snapshot_Digest_Ok in Ha as [_ ->] end.
  apply Snapshot_Digest_Ok in Hd as [_ ->]. f_equal. apply same_state_writer; [done|].
  split; [done|]. split; [done|]. split; [done|]. simpl. rewrite Hr, Htgt. symmetry.
  destruct key as [ty tgt]. apply (simulate_entries_capture (getRules d) (mkScope ty [tgt]) tgt).
  apply in_scope_target.
Qed.

(** *** Frames *)

Lemma closeOpenEntry_frame ctx p r o token t Q (d : D) :
  (forall res j', Q res (setJournal j' d)) -> wp (closeOpenEntry ctx p r o token t) Q d.
Proof.
  intros HQ. unfold closeOpenEntry. apply wp_bind, wp_driver_inFlight. intros res j' _ _.
  destruct res as [l|e]; simpl; [|apply HQ]. destruct (List.find _ _); [|apply wp_ret; apply HQ].
  apply wp_journal. intros res j''. apply HQ.
Qed.
(** *** Apply *)

Definition applyKey (request : ApplyRequest) : ruleKey :=
  mkRuleKey (GetType (Apply_Operation request)) (Apply_Target request).
Definition applyToken (request : ApplyRequest) : string :=
  OwnershipTokenFor (Apply_PlanID request) (Apply_PlanRevision request) (Apply_OperationID request)
    (Apply_Target request) (Token_Token (Apply_Reservation request)).
Definition applyIdentity (request : ApplyRequest) : JournalIdentity :=
  mkIdentity (Apply_PlanID request) (Apply_PlanRevision request) (Apply_OperationID request).
Definition previousRule (d : D) (key : ruleKey) : savedState :=
  match getRules d !! key with
  | Some previous => mkSaved key previous true
  | None => mkSaved key EmptyString false
  end.

(** The entries of the driver's journal an apply leaves: those of other
    identities as they were, its own absent, as it was, or opened with the
    apply's token. *)
Definition apply_entries (d d' : D) (request : ApplyRequest) : Prop :=
  (forall i, i <> applyIdentity request -> open (view (getJournal d')) !! i = open (view (getJournal d)) !! i) /\
  (forall r, open (view (getJournal d')) !! applyIdentity request = Some r ->
     open (view (getJournal d)) !! applyIdentity request = Some r \/ Record_OwnershipToken r = applyToken request).

(** What an apply leaves when it did not touch the host. *)
Definition apply_untouched (d d' : D) (request : ApplyRequest) : Prop :=
  getRules d' = getRules d /\
  (getSaved d' = getSaved d \/ getSaved d' = delete (applyToken request) (getSaved d)).

(** What an apply leaves when it wrote the rule: the previous rule is saved
    under the ownership token. *)
Definition apply_written (d d' : D) (request : ApplyRequest) : Prop :=
  exists value, render protoMarshal (Apply_Operation request) = Ok value /\
    getRules d' = <[ applyKey request := value ]> (getRules d) /\
    getSaved d' = <[ applyToken request := previousRule d (applyKey request) ]> (getSaved d).

(** An apply that wrote the rule and failed has its entry open, unless the
    failure is that of the receipt it had already closed the entry for. *)
Definition apply_open (d' : D) (request : ApplyRequest) (e : error) : Prop :=
  journal_atomic J -> e <> ErrInvalidRequest ->
  exists r, open (view (getJournal d')) !! applyIdentity request = Some r /\
    Record_OwnershipToken r = applyToken request.

(** The receipt of a successful apply: its digests are those of the target
    before and after, and the second is what the simulation had predicted. *)
Definition apply_receipt (d : D) (request : ApplyRequest) (receipt : ApplyReceipt) : Prop :=
  AReceipt_OwnershipToken receipt = applyToken request /\
  exists t sim, simulate protoMarshal (targetSnapshot d (applyKey request) t) (Apply_Operation request) = Ok sim /\
    AReceipt_BeforeDigest receipt = Simulation_SnapshotDigest sim /\
    AReceipt_AppliedDigest receipt = Diff_AfterDigest (Simulation_Diff sim).

Definition apply_post (d : D) (request : ApplyRequest) (r : result ApplyReceipt) (d' : D) : Prop :=
  MD_name d' = MD_name d /\ getRolled d' = getRolled d /\ apply_entries d d' request /\
  match r with
  | Ok receipt => apply_written d d' request /\ apply_receipt d request receipt
  | Err e => apply_untouched d d' request \/ (apply_written d d' request /\ apply_open d' request e)
  end.

(** The two writes of the driver's journal. *)
Lemma wp_finish ctx request step token digest t Q (d : D) :
  (forall j', open (view j') = delete (applyIdentity request) (open (view (getJournal d))) -> Q (Ok tt) (setJournal j' d)) ->
  (forall e j', (view j' = view (getJournal d) \/
                 (~ journal_atomic J /\ open (view j') = delete (applyIdentity request) (open (view (getJournal d))))) ->
     Q (Err e) (setJournal j' d)) ->
  wp (zoom getJournal setJournal (Journal_Finish ctx (applyRecord request step token digest t))) Q d.
Proof.
  intros HOk HErr. apply wp_zoom. intros n.
  pose proof (journal_finish ctx (applyRecord request step token digest t) (getJournal d) n) as Hl.
  destruct (Journal_Finish _ _ _) as [res [n' j']] eqn:E.
  assert (append (view (getJournal d)) (setKind JournalKindFinish (applyRecord request step token digest t)) = Ok (view j') ->
    open (view j') = delete (applyIdentity request) (open (view (getJournal d)))) as Ho
    by (intros Ha; by rewrite (append_open _ _ _ Ha)).
  destruct res as [[]|e]; [by apply HOk, Ho|]. apply HErr. destruct Hl as [Hl|Hl]; [by left|].
  destruct (decide (view j' = view (getJournal d))) as [|Hne]; [by left|right]. split; [|by apply Ho].
  intros Ha. apply Hne. specialize (Ha JournalKindFinish ctx (applyRecord request step token digest t) (getJournal d) n).
  simpl in Ha. rewrite E in Ha. by eapply Ha.
Qed.

Lemma wp_begin ctx request token digest t Q (d : D) :
  let opened := open_step (open (view (getJournal d))) (setKind JournalKindBegin (applyRecord request StepApply token digest t)) in
  (forall j', open (view j') = opened -> Q (Ok tt) (setJournal j' d)) ->
  (forall e j', (view j' = view (getJournal d) \/ open (view j') = opened) -> Q (Err e) (setJournal j' d)) ->
  wp (zoom getJournal setJournal (Journal_Begin ctx (applyRecord request StepApply token digest t))) Q d.
Proof.
  intros opened HOk HErr. apply wp_zoom. eapply wp_mono; [apply journal_begin|].
  intros [[]|e] j' Hl; simpl.
  - by apply HOk, (append_open _ _ _ Hl).
  - apply HErr. destruct Hl as [|Hl]; [by left|right]. by apply (append_open _ _ _ Hl).
Qed.
(** The journal once the entry of the apply is open. *)
Definition apply_begun (d d' : D) (request : ApplyRequest) : Prop :=
  exists r, open (view (getJournal d')) = <[ applyIdentity request := r ]> (open (view (getJournal d))) /\
    Record_OwnershipToken r = applyToken request.

Lemma begun_entries d d' request : apply_begun d d' request -> apply_entries d d' request.
Proof.
  intros (r & Ho & Ht). split.
  - intros i Hi. by rewrite Ho, lookup_insert_ne.
  - intros r'. rewrite Ho, lookup_insert_eq. intros [= <-]. by right.
Qed.

Lemma begun_open d d' request : apply_begun d d' request ->
  exists r, open (view (getJournal d')) !! applyIdentity request = Some r /\
    Record_OwnershipToken r = applyToken request.
Proof. intros (r & Ho & Ht). exists r. by rewrite Ho, lookup_insert_eq. Qed.

Lemma closed_entries (d d' : D) request m :
  open (view (getJournal d')) = delete (applyIdentity request) m ->
  (forall i, i <> applyIdentity request -> m !! i = open (view (getJournal d)) !! i) ->
  apply_entries d d' request.
Proof.
  intros Ho Hm. split; intros i; rewrite Ho.
  - intros Hi. rewrite lookup_delete_ne by done. by apply Hm.
  - by rewrite lookup_delete_eq.
Qed.

Lemma begun_other d d' request i :
  apply_begun d d' request -> i <> applyIdentity request ->
  open (view (getJournal d')) !! i = open (view (getJournal d)) !! i.
Proof. intros (r & Ho & _) Hi. by rewrite Ho, lookup_insert_ne. Qed.

Lemma written_journal d d' request j : apply_written d d' request -> apply_written d (setJournal j d') request.
Proof. done. Qed.

Lemma apply_post_view d request r d' j' :
  view j' = view (getJournal d') -> apply_post d request r d' -> apply_post d request r (setJournal j' d').
Proof.
  intros Hj. unfold apply_post, apply_entries, apply_open.
  change (getJournal (setJournal j' d')) with j'. by rewrite Hj.
Qed.

Lemma ApplyReceipt_Validate_error r e :
  ValidateTarget (AReceipt_Target r) = Ok tt -> ApplyReceipt_Validate r = Err e -> e = ErrInvalidRequest.
Proof.
  unfold ApplyReceipt_Validate. intros -> Hv. simpl in Hv.
  by repeat match type of Hv with (if ?b then _ else _) = _ => destruct b; [by injection Hv as <-|] end.
Qed.

(** After the write, whatever fails leaves the entry open, until the finish. *)
Lemma finishApply_post ctx request started d0 d1 sim t :
  MD_name d1 = MD_name d0 -> getRolled d1 = getRolled d0 ->
  simulate protoMarshal (targetSnapshot d0 (applyKey request) t) (Apply_Operation request) = Ok sim ->
  GetTarget (Apply_Operation request) = Apply_Target request -> ValidateTarget (Apply_Target request) = Ok tt ->
  apply_written d0 d1 request -> apply_begun d0 d1 request ->
  wp (Memory_finishApply clock ctx request (applyKey request) (applyToken request) (Simulation_SnapshotDigest sim) started)
     (apply_post d0 request) d1.
Proof.
  intros Hn Hr Hsim Htgt Hval Hw Hb. unfold Memory_finishApply.
  assert (forall e, apply_post d0 request (Err e) d1) as Hopen.
  { intros e. split; [done|]. split; [done|]. split; [by apply begun_entries|]. right. split; [done|].
    intros _ _. exact (begun_open _ _ _ Hb). }
  repeat wp_pure. destruct (Snapshot_Digest _) as [digest|e] eqn:Hd; repeat wp_pure; [|apply Hopen].
  assert (digest = Diff_AfterDigest (Simulation_Diff sim)) as ->.
  { destruct (simulate_predicts _ _ _ _ _ Hsim eq_refl Htgt) as (v & Hv & _ & _ & Hp).
    destruct Hw as (v' & Hv' & Hrules & _). assert (v' = v) as -> by congruence. by eapply Hp. }
  assert (forall j', open (view j') = delete (applyIdentity request) (open (view (getJournal d1))) ->
    apply_entries d0 (setJournal j' d1) request) as Hclosed.
  { intros j' Hj. eapply closed_entries; [exact Hj|]. intros i. by apply begun_other. }
  apply wp_finish.
  - intros j' Hj. repeat wp_pure. destruct (ApplyReceipt_Validate _) as [[]|e] eqn:Hv; repeat wp_pure;
      (split; [done|]; split; [done|]; split; [by apply Hclosed|]).
    + split; [done|]. split; [done|]. by exists t, sim.
    + right. split; [done|]. intros _ He. by apply ApplyReceipt_Validate_error in Hv.
  - intros e j' [Hj|[Hna Hj]]; red; [by apply apply_post_view|].
    split; [done|]. split; [done|]. split; [by apply Hclosed|]. right. split; [done|]. by intros Ha.
Qed.

(** The entry is open and the host untouched: the write, or the retreat of a
    cancelled context. *)
Lemma mutate_post ctx request started d0 d1 sim t :
  MD_name d1 = MD_name d0 -> getRolled d1 = getRolled d0 ->
  simulate protoMarshal (targetSnapshot d0 (applyKey request) t) (Apply_Operation request) = Ok sim ->
  GetTarget (Apply_Operation request) = Apply_Target request -> ValidateTarget (Apply_Target request) = Ok tt ->
  getRules d1 = getRules d0 ->
  getSaved d1 = <[ applyToken request := previousRule d0 (applyKey request) ]> (getSaved d0) ->
  apply_begun d0 d1 request ->
  wp (Memory_mutate protoMarshal clock ctx request (applyKey request) (applyToken request) (Simulation_SnapshotDigest sim) started)
     (apply_post d0 request) d1.
Proof.
  intros Hn Hr Hsim Htgt Hval Hrules Hsaved Hb. unfold Memory_mutate.
  destruct (simulate_predicts _ _ _ _ _ Hsim eq_refl Htgt) as (v & Hv & _).
  assert (apply_written d0 (setRules (<[ applyKey request := v ]> (getRules d1)) d1) request) as Hw.
  { exists v. split; [done|]. split; [by simpl; rewrite Hrules|done]. }
  repeat wp_pure.
  - rewrite Hv. repeat wp_pure. simpl. destruct (MD_crash d1); repeat wp_pure.
    + split; [done|]. split; [done|]. split; [by apply begun_entries|]. right. split; [done|].
      intros _ _. exact (begun_open _ _ _ Hb).
    + by eapply finishApply_post.
  - set (d2 := setSaved _ _).
    assert (getRules d2 = getRules d0 /\ getSaved d2 = delete (applyToken request) (getSaved d0)) as [Hr2 Hs2].
    { split; [done|]. change (getSaved d2) with (delete (applyToken request) (getSaved d1)). by rewrite Hsaved, delete_insert_eq. }
    apply wp_finish.
    + intros j' Hj. repeat wp_pure. split; [done|]. split; [done|]. split.
      * eapply closed_entries; [exact Hj|]. intros i. by apply begun_other.
      * left. split; [done|by right].
    + intros e2 j' Hj. repeat wp_pure. split; [done|]. split; [done|]. split.
      * destruct Hj as [Hj|[_ Hj]].
        -- destruct (begun_entries _ _ _ Hb) as [H1 H2]. unfold apply_entries.
           change (getJournal (setJournal j' d2)) with j'. by rewrite Hj.
        -- eapply closed_entries; [exact Hj|]. intros i. by apply begun_other.
      * left. split; [done|by right].
Qed.

Lemma same_view_untouched (d d' : D) request e j' :
  MD_name d' = MD_name d -> getRolled d' = getRolled d -> getRules d' = getRules d ->
  (getSaved d' = getSaved d \/ getSaved d' = delete (applyToken request) (getSaved d)) ->
  view j' = view (getJournal d) -> apply_post d request (Err e) (setJournal j' d').
Proof.
  intros Hn Hr Hrules Hs Hj. split; [done|]. split; [done|]. split; [|by left; split].
  unfold apply_entries. change (getJournal (setJournal j' d')) with j'. rewrite Hj. split; [done|by left].
Qed.

Lemma Apply_post ctx request d :
  wp (Memory_Apply protoMarshal clock wall ctx request) (apply_post d request) d.
Proof.
  assert (forall e, apply_post d request (Err e) d) as Hstop.
  { intros e. pose proof (same_view_untouched d d request e (getJournal d)) as Hs.
    destruct d as [[] ? ? ? ?]. apply Hs; auto. }
  unfold Memory_Apply. repeat wp_pure. destruct (ApplyRequest_Validate request) as [[]|e] eqn:Hv; repeat wp_pure; try apply Hstop.
  apply apply_request_parts in Hv as (Htgt & Hval).
  apply wp_driver_inFlight. intros res j0 Hj0 _. destruct res as [l|e]; repeat wp_pure; [|by apply same_view_untouched; auto].
  set (d1 := setJournal j0 d). unfold Memory_Simulate. repeat wp_pure; [|by apply same_view_untouched; auto].
  change (targetSnapshot d1 _ (clock n)) with (targetSnapshot d (applyKey request) (clock n)).
  destruct (simulate _ _ _) as [sim|e] eqn:Hsim; repeat wp_pure; [|by apply same_view_untouched; auto].
  destruct (simulate_predicts _ _ _ _ _ Hsim eq_refl Htgt) as (v & _ & _ & -> & _). simpl.
  destruct (_ || _); [apply wp_fail; by apply same_view_untouched; auto|]. repeat wp_pure.
  fold (applyKey request) (applyToken request). change (getRules d1) with (getRules d).
  change (match getRules d !! applyKey request with Some previous => _ | None => _ end) with (previousRule d (applyKey request)).
  assert (forall j' d', open (view j') = open_step (open (view j0)) (setKind JournalKindBegin
      (applyRecord request StepApply (applyToken request) (Simulation_SnapshotDigest sim) (clock n))) ->
    apply_begun d (setJournal j' d') request) as Hbegun.
  { intros j' d' Hj. match type of Hj with _ = open_step _ ?r => exists r end. split; [|reflexivity]. transitivity (open (view j')); [done|]. by rewrite Hj, Hj0. }
  apply wp_begin.
  - intros j' Hj. repeat wp_pure. eapply mutate_post; try done. by apply Hbegun.
  - intros e2 j' Hj. red. split; [done|]. split; [done|].
    split; [|left; split; [done|right; exact (delete_insert_eq (getSaved d) (applyToken request) _)]].
    destruct Hj as [Hj|Hj]; [|exact (begun_entries _ _ _ (Hbegun j' d1 Hj))].
    change (view (getJournal (setSaved _ d1))) with (view j0) in Hj.
    unfold apply_entries. match goal with |- context [getJournal ?x] =>
      change (getJournal x) with j' end. rewrite Hj, Hj0. split; [done|by left].
Qed.

(** *** Rollback *)

(** The durable state of the host and its way back. *)
Definition same_host (d d' : D) : Prop :=
  MD_name d' = MD_name d /\ getRules d' = getRules d /\ getSaved d' = getSaved d /\ getRolled d' = getRolled d.

#[local] Instance same_host_preorder : PreOrder same_host.
Proof. split; [by intros d|]. intros d1 d2 d3 (? & ? & ? & ?) (? & ? & ? & ?). repeat split; congruence. Qed.

Lemma same_host_journal d j : same_host d (setJournal j d).
Proof. done. Qed.

(** The rule saved for a token, written back. *)
Lemma restore_written d d' request :
  apply_written d d' request ->
  exists d'', restore (applyToken request) d' = Some (applyKey request, d'') /\ getRules d'' = getRules d.
Proof.
  intros (v & _ & Hr & Hs). unfold restore. rewrite Hs, lookup_insert_eq. unfold previousRule.
  destruct (getRules d !! applyKey request) as [old|] eqn:E; simpl; eexists; (split; [reflexivity|]); simpl; rewrite Hr.
  - by rewrite insert_insert_eq, insert_id.
  - by rewrite delete_insert_eq, delete_id.
Qed.

(** What a rollback of a token does. *)
Definition rollback_post (d : D) (token : string) (r : result RollbackReceipt) (d' : D) : Prop :=
  match getRolled d !! token with
  | Some key =>
      same_host d d' /\ forall receipt, r = Ok receipt -> RReceipt_AlreadyRolledBack receipt = true /\
        exists t, Snapshot_Digest (targetSnapshot d key t) = Ok (RReceipt_RestoredDigest receipt)
  | None =>
      match restore token d with
      | None => same_host d d' /\ exists e, r = Err e
      | Some (key, d1) =>
          (same_host d d' /\ exists e, r = Err e) \/
          (same_host d1 d' /\ forall receipt, r = Ok receipt -> RReceipt_AlreadyRolledBack receipt = false /\
             exists t, Snapshot_Digest (targetSnapshot d1 key t) = Ok (RReceipt_RestoredDigest receipt))
      end
  end.

Lemma rollbackReceipt_post request key already reason t (d0 d1 : D) :
  same_host d0 d1 ->
  wp (Memory_rollbackReceipt request key already reason t) (fun r d' =>
    same_host d0 d' /\ forall receipt, r = Ok receipt -> RReceipt_AlreadyRolledBack receipt = already /\
      exists t, Snapshot_Digest (targetSnapshot d0 key t) = Ok (RReceipt_RestoredDigest receipt)) d1.
Proof.
  intros Hh. unfold Memory_rollbackReceipt. repeat wp_pure.
  assert (Snapshot_Digest (targetSnapshot d1 key t) = Snapshot_Digest (targetSnapshot d0 key t)) as ->.
  { destruct Hh as (Hn & Hr & _). unfold targetSnapshot. by rewrite Hn, Hr. }
  destruct (Snapshot_Digest _) as [digest|e] eqn:Hd; repeat wp_pure; [|by split].
  destruct (RollbackReceipt_Validate _) as [[]|e]; repeat wp_pure; [|by split].
  split; [done|]. intros receipt [= <-]. simpl. split; [done|]. by exists t.
Qed.

Lemma Rollback_post ctx request d :
  wp (Memory_Rollback clock ctx request) (rollback_post d (Rollback_OwnershipToken request)) d.
Proof.
  set (token := Rollback_OwnershipToken request).
  assert (forall e d', same_host d d' -> rollback_post d token (Err e) d') as Hstop.
  { intros e d' Hh. unfold rollback_post. destruct (getRolled d !! token); [by split|].
    destruct (restore token d) as [[key d1]|]; [left|]; by eauto. }
  unfold Memory_Rollback. repeat wp_pure.
  destruct (RollbackRequest_Validate request) as [[]|e]; repeat wp_pure; try by apply Hstop.
  apply wp_driver_inFlight. intros [l|e] j0 _ _; repeat wp_pure; [|by apply Hstop].
  fold token. unfold rollback_post. change (getRolled (setJournal j0 d)) with (getRolled d).
  destruct (getRolled d !! token) as [key|].
  { by apply rollbackReceipt_post. }
  assert (restore token (setJournal j0 d) = match restore token d with
    | Some (key, d1) => Some (key, setJournal j0 d1) | None => None end) as ->.
  { unfold restore. change (getSaved (setJournal j0 d)) with (getSaved d). by destruct (getSaved d !! token). }
  destruct (restore token d) as [[key d1]|]; [|apply wp_fail; split; by eauto].
  repeat wp_pure. apply closeOpenEntry_frame. intros [[]|e] j'; repeat wp_pure.
  - eapply wp_mono; [by apply (rollbackReceipt_post _ _ _ _ _ d1)|]. intros r d' Hr. by right.
  - right. by split.
Qed.

(** *** Recovery *)

(** The driver after the rule of a token is written back, if it is owned. *)
Definition reverted (token : string) (d : D) : D :=
  if eqs token EmptyString then d else match restore token d with Some (_, d1) => d1 | None => d end.

Lemma reverted_journal token d : getJournal (reverted token d) = getJournal d.
Proof. unfold reverted, restore. by destruct (eqs _ _), (getSaved d !! token). Qed.

Lemma recoverRecord_post ctx t r d :
  wp (Memory_recoverRecord ctx t r) (fun res d' =>
    same_host (reverted (Record_OwnershipToken r) d) d' /\
    (is_ok res = true -> open (view (getJournal d')) = delete (Identity r) (open (view (getJournal d))))) d.
Proof.
  unfold Memory_recoverRecord. repeat wp_pure.
  replace (match (if eqs _ _ then None else _) with Some (_, d') => d' | None => d end) with (reverted (Record_OwnershipToken r) d).
  2: { unfold reverted. by destruct (eqs _ _). }
  apply wp_zoom. eapply wp_mono; [apply journal_finish|]. intros [[]|e] j' Hj; repeat wp_pure; [|by split].
  split; [done|]. intros _. change (getJournal (setJournal j' _)) with j'.
  rewrite (append_open _ _ _ Hj), reverted_journal. done.
Qed.

(** Recovery of a driver with nothing, or one entry, in flight. *)
Lemma Recover_post ctx d :
  wp (Memory_Recover clock ctx) (fun res d' =>
    (inFlight (view (getJournal d)) = [] -> same_host d d' /\ view (getJournal d') = view (getJournal d)) /\
    (forall r, inFlight (view (getJournal d)) = [r] -> is_ok res = true ->
       same_host (reverted (Record_OwnershipToken r) d) d' /\
       open (view (getJournal d')) = delete (Identity r) (open (view (getJournal d))))) d.
Proof.
  assert (forall j e, view j = view (getJournal d) -> (inFlight (view (getJournal d)) = [] -> same_host d (setJournal j d) /\ view (getJournal (setJournal j d)) = view (getJournal d)) /\
    (forall r, inFlight (view (getJournal d)) = [r] -> is_ok (Err (A:=RecoveryReport) e) = true ->
       same_host (reverted (Record_OwnershipToken r) d) (setJournal j d) /\
       open (view (getJournal (setJournal j d))) = delete (Identity r) (open (view (getJournal d))))) as Hstop by done.
  unfold Memory_Recover. repeat wp_pure; [|by destruct d as [[] ? ? ? ?]; apply (Hstop (getJournal _))].
  apply wp_driver_inFlight. intros [l|e] j0 Hj0 Hl; repeat wp_pure; [|by apply Hstop].
  rewrite (Hl l eq_refl). destruct (inFlight (view (getJournal d))) as [|r [|r' rest]] eqn:Hf; simpl.
  - repeat wp_pure. destruct (RecoveryReport_Validate _); repeat wp_pure; by split.
  - repeat wp_pure. eapply wp_mono; [apply recoverRecord_post|]. intros [o|e] d' [Hh Ho]; repeat wp_pure.
    + assert (same_host (reverted (Record_OwnershipToken r) d) d' /\
        open (view (getJournal d')) = delete (Identity r) (open (view (getJournal d)))) as Hdone.
      { specialize (Ho eq_refl). change (getJournal (setJournal j0 d)) with j0 in Ho. rewrite Hj0 in Ho. split; [|done].
        etrans; [|exact Hh]. unfold reverted, restore. change (getSaved (setJournal j0 d)) with (getSaved d).
        by destruct (eqs (Record_OwnershipToken r) EmptyString), (getSaved d !! Record_OwnershipToken r). }
      destruct (RecoveryReport_Validate _); repeat wp_pure; (split; [done|]); by intros r0 [= <-].
    + split; [done|]. by intros r0 [= <-].
  - eapply wp_mono; [apply wp_any|]. intros res d' _. unfold thenQ.
    destruct res; [|by split]. eapply wp_mono; [apply wp_any|]. intros res' d'' _. by split.
Qed.

(** ** The promises *)

(** What an apply does, on every branch, for every context, deadline and
    journal: it returns a receipt only when it wrote exactly the rule of the
    request's type and target, the receipt carries the ownership token and the
    digests of the target before and after, and the second is the digest a
    simulation of the same host predicts; when it fails it has touched no
    rule, or that rule alone, and then the previous rule is saved under the
    ownership token. *)
Theorem apply_effect ctx request d :
  wp (Memory_Apply protoMarshal clock wall ctx request) (fun r d' =>
    getRolled d' = getRolled d /\
    match r with
    | Ok receipt => apply_written d d' request /\ apply_receipt d request receipt
    | Err _ => apply_untouched d d' request \/ apply_written d d' request
    end) d.
Proof.
  eapply wp_mono; [apply Apply_post|]. intros r d' (_ & Hr & _ & Hp). split; [done|].
  destruct r; [done|]. naive_solver.
Qed.

(** A rollback undoes an apply exactly: whatever the apply returned, a
    rollback of its ownership token that succeeds leaves every rule of the
    host as it was before the apply. *)
Theorem rollback_undoes_apply ctx ctx' request undo d :
  Rollback_OwnershipToken undo = applyToken request ->
  getSaved d !! applyToken request = None -> getRolled d !! applyToken request = None ->
  wp (run! attempt (Memory_Apply protoMarshal clock wall ctx request) in Memory_Rollback clock ctx' undo)
     (fun r d' => is_ok r = true -> getRules d' = getRules d) d.
Proof.
  intros Hu Hs Hro. repeat wp_pure. eapply wp_mono; [apply Apply_post|].
  intros r d1 (_ & Hr & _ & Hp). red. eapply wp_mono; [apply Rollback_post|]. intros r2 d2.
  unfold rollback_post. rewrite Hu, Hr, Hro. intros H2 Hok.
  assert (apply_untouched d d1 request \/ apply_written d d1 request) as [[_ Hsv]|Hw]
    by (destruct r; naive_solver).
  - assert (getSaved d1 !! applyToken request = None) as Hn.
    { destruct Hsv as [-> | ->]; [done|apply lookup_delete_eq]. }
    unfold restore in H2. rewrite Hn in H2. by destruct H2 as [_ [e ->]].
  - destruct (restore_written _ _ _ Hw) as (d3 & H3 & Hrules). rewrite H3 in H2.
    destruct H2 as [[_ [e ->]]|[(_ & -> & _) _]]; done.
Qed.

(** Rollback is idempotent: repeating a rollback that succeeded changes no
    rule, reports that it was already rolled back, and answers with the same
    restored digest. *)
Theorem rollback_idempotent ctx ctx' request d :
  wp (let! first := Memory_Rollback clock ctx request in
      let! d1 := getS in
      let! second := Memory_Rollback clock ctx' request in
      retM (first, d1, second))
     (fun r d' => forall first d1 second, r = Ok (first, d1, second) ->
        getRules d' = getRules d1 /\ RReceipt_AlreadyRolledBack second = true /\
        RReceipt_RestoredDigest second = RReceipt_RestoredDigest first) d.
Proof.
  repeat wp_pure. eapply wp_mono; [apply Rollback_post|]. intros [first|e] d1 H1; repeat wp_pure; [|done].
  eapply wp_mono; [apply Rollback_post|]. intros [second|e] d2 H2; repeat wp_pure; [|done].
  intros ? ? ? [= <- <- <-]. unfold rollback_post in H1, H2. revert H2.
  destruct (getRolled d !! _) as [key|] eqn:Hr.
  - destruct H1 as [(Hn & Hrules & _ & ->) H1]. destruct (H1 _ eq_refl) as [_ [t Ht]]. rewrite Hr.
    intros [(_ & ? & _) H2]. destruct (H2 _ eq_refl) as [? [t' Ht']]. split; [done|]. split; [done|].
    symmetry. by eapply (targetSnapshot_same d d1); [..|exact Ht|exact Ht']; rewrite ?Hn, ?Hrules.
  - destruct (restore _ d) as [[key d3]|] eqn:H3; [|by destruct H1 as [_ [? ?]]].
    destruct H1 as [[_ [? ?]]|[(Hn & Hrules & _ & ->) H1]]; [done|].
    assert (getRolled d3 !! Rollback_OwnershipToken request = Some key) as ->.
    { unfold restore in H3. destruct (getSaved d !! _); [|done]. injection H3 as <- <-. simpl. apply lookup_insert_eq. }
    destruct (H1 _ eq_refl) as [_ [t Ht]].
    intros [(_ & ? & _) H2]. destruct (H2 _ eq_refl) as [? [t' Ht']]. split; [done|]. split; [done|].
    symmetry. by eapply (targetSnapshot_same d3 d1); [..|exact Ht|exact Ht']; rewrite ?Hn, ?Hrules.
Qed.
End Driver.
