(* ===== verification/MemorySpec.v ===== *)
(** * The reference driver: crashes, restarts and the driver interface

    A crash between the write of a rule and the end of the apply is undone by
    the recovery of the restarted driver; over the in-process journal that
    recovery always returns. The driver meets the laws the lifecycle relies
    on. *)

From S2P Require Import Prelude Sha256 Digest Probe Contract ContractFacts Journal DriverStores Interfaces JournalFacts JournalSpec ContractSpec DriverStoreFacts Memory MemoryFacts.
From stdpp Require Import base gmap list strings sorting.
From Stdlib Require Import ZArith Lia.

Open Scope Z_scope.

(** A map with at most one key. *)
Lemma map_one_key {A} (m : gmap JournalIdentity A) k :
  (forall i, i <> k -> m !! i = None) -> m = ∅ \/ exists x, m = {[ k := x ]}.
Proof.
  intros Hm. destruct (m !! k) as [x|] eqn:E.
  - right. exists x. apply map_eq. intros i. destruct (decide (i = k)) as [->|Hi].
    + by rewrite E, lookup_singleton_eq.
    + by rewrite Hm, lookup_singleton_ne.
  - left. apply map_empty. intros i. destruct (decide (i = k)) as [->|Hi]; auto.
Qed.

Lemma inFlight_singleton rs r : open rs = {[ Identity r := r ]} -> inFlight rs = [r].
Proof.
  intros Ho. apply Permutation_singleton_r. rewrite inFlight_perm, Ho, map_to_list_singleton. done.
Qed.

Section Crash.
Context {H : Hasher} (protoMarshal : option pbStruct -> option (list Z)) (clock wall : clockT).
Context {J : Type} {JO : JournalOps J} {JL : JournalLaws J}.

Abbreviation D := (MemoryDriver J).
Abbreviation view := (journal_view (J := J)).

(** The process dies; a new one opens a driver over the same backing. *)
Definition restart : M D unit :=
  let! d := getS in
  let! d' := liftR (Memory_Reopen d) in
  modS (fun _ => d').

Lemma Reopen_backing (d d' : D) : Memory_Reopen d = Ok d' -> MD_backing d' = MD_backing d.
Proof. unfold Memory_Reopen, Memory_New. intros Hr. validated Hr. by injection Hr as <-. Qed.

(** What recovery makes of the state a failed apply left. *)
Lemma recover_after_apply ctx request e (d d1 d2 : D) :
  journal_atomic J -> open (view (getJournal d)) = ∅ ->
  getSaved d !! applyToken request = None -> applyToken request <> EmptyString ->
  apply_post protoMarshal d request (Err e) d1 -> e <> ErrInvalidRequest ->
  MD_backing d2 = MD_backing d1 ->
  wp (Memory_Recover clock ctx) (fun res d' => is_ok res = true ->
    getRules d' = getRules d /\ open (view (getJournal d')) = ∅) d2.
Proof.
  intros Hat Hopen Hsv Hne (_ & _ & [Hother Hown] & Hp) He Hb.
  assert (getJournal d2 = getJournal d1 /\ getRules d2 = getRules d1 /\ getSaved d2 = getSaved d1) as (Hj2 & Hr2 & Hs2)
    by (unfold getJournal, getRules, getSaved; rewrite Hb; done).
  destruct (map_one_key (open (view (getJournal d1))) (applyIdentity request)) as [Ho|[r Ho]].
  { intros i Hi. rewrite Hother by done. by rewrite Hopen. }
  - assert (getRules d1 = getRules d) as Hrules.
    { destruct Hp as [[-> _]|[_ Hop]]; [done|]. destruct (Hop Hat He) as (r & Hr & _). by rewrite Ho in Hr. }
    eapply wp_mono; [apply Recover_post|]. intros res d' [H0 _] _. rewrite Hj2 in H0.
    destruct (H0 (proj2 (inFlight_nil _) Ho)) as [(_ & -> & _) ->]. split; [congruence|done].
  - assert (Record_OwnershipToken r = applyToken request) as Htok.
    { destruct (Hown r) as [Hr|]; [by rewrite Ho, lookup_singleton_eq|by rewrite Hopen in Hr|done]. }
    assert (Identity r = applyIdentity request) as Hid.
    { apply (open_identity (view (getJournal d1))). by rewrite Ho, lookup_singleton_eq. }
    rewrite <- Hid in Ho.
    eapply wp_mono; [apply Recover_post|]. intros res d' [_ H1] Hok. rewrite Hj2 in H1.
    destruct (H1 r (inFlight_singleton _ _ Ho) Hok) as [(_ & Hr & _) ->]. split; [|by rewrite Ho, delete_singleton_eq].
    rewrite Hr, Htok. unfold reverted. rewrite (proj2 (slen_nonempty _) Hne).
    destruct Hp as [[Hrules Hs]|[Hw _]].
    + assert (getSaved d2 !! applyToken request = None) as Hn.
      { rewrite Hs2. destruct Hs as [-> | ->]; [done|apply lookup_delete_eq]. }
      unfold restore. rewrite Hn. congruence.
    + assert (apply_written protoMarshal d d2 request) as Hw2.
      { destruct Hw as (v & ? & ? & ?). exists v. split; [done|]. split; congruence. }
      destruct (restore_written _ _ _ _ Hw2) as (d3 & -> & ?). done.
Qed.

(** Crash safety of the driver: when an apply is cut short after nothing was
    pending, by the crash hook, a cancelled context, a deadline or the
    journal, the recovery of the restarted driver leaves every rule as it was
    before the apply and no entry in flight. (An apply that fails with
    [ErrInvalidRequest] was refused, or had closed its entry before its own
    receipt failed to validate.) *)
Theorem crash_recovery_restores ctx ctx' request d :
  journal_atomic J -> open (view (getJournal d)) = ∅ ->
  getSaved d !! applyToken request = None ->
  wp (let! r := attempt (Memory_Apply protoMarshal clock wall ctx request) in
      run! restart in
      run! Memory_Recover clock ctx' in
      retM r)
     (fun res d' => forall e, res = Ok (Err e) -> e <> ErrInvalidRequest ->
        getRules d' = getRules d /\ open (view (getJournal d')) = ∅) d.
Proof.
  intros Hat Hopen Hsv. repeat wp_step. eapply wp_mono; [apply Apply_post|]. intros r d1 Hp. red.
  unfold restart. repeat wp_step. destruct (Memory_Reopen d1) as [d2|e] eqn:Hr; repeat wp_step; [|done].
  apply Reopen_backing in Hr. destruct r as [receipt|e].
  { eapply wp_mono; [apply wp_any|]. intros [] d' _; repeat wp_step; [|done]. by intros e [= ]. }
  destruct (decide (e = ErrInvalidRequest)) as [->|He].
  { eapply wp_mono; [apply wp_any|]. intros [] d' _; repeat wp_step; [|done]. by intros ? [= <-]. }
  eapply wp_mono; [eapply recover_after_apply; try done|].
  - intros E. pose proof (dw_hex_valid (OwnershipToken_writer (Apply_PlanID request) (Apply_PlanRevision request) (Apply_OperationID request) (Apply_Target request) (Token_Token (Apply_Reservation request)))) as Hd.
    unfold applyToken, OwnershipTokenFor in E. by rewrite E in Hd.
  - intros [rep|e'] d' Hd; repeat wp_step; [|done]. intros ? [= <-] _. by apply Hd.
Qed.
End Crash.

(** The in-process journal is atomic. *)
Lemma MemoryJournal_atomic : journal_atomic MemoryJournal.
Proof.
  intros kind ctx r j.
  assert (forall k, wp (MemoryJournal_write ctx (setKind k r)) (fun res j' => forall e, res = Err e -> MJ_state j' = MJ_state j) j) as Hw.
  { intros k. unfold MemoryJournal_write. repeat wp_step; [|done].
    destruct (MJ_corrupt j); repeat wp_step; [done|]. destruct (append _ _); repeat wp_step; done. }
  destruct kind; apply Hw.
Qed.

(** ** Recovery over the in-process journal returns *)

Section Total.
Context {H : Hasher} (clock : clockT).

Abbreviation D := (MemoryDriver MemoryJournal).

Lemma open_elem rs i r : open rs !! i = Some r -> r ∈ rs.
Proof.
  unfold open. assert (forall m : openMap, fold_left open_step rs m !! i = Some r -> r ∈ rs \/ m !! i = Some r) as Hgen.
  { induction rs as [|x rs IH]; intros m; simpl; [by right|]. intros [Hr|Hr]%IH; [left; by apply list_elem_of_further|].
    unfold open_step in Hr. destruct (Record_Kind x); [by right|..].
    - apply lookup_insert_Some in Hr as [[_ <-]|[_ ?]]; [left; apply list_elem_of_here|by right].
    - apply lookup_insert_Some in Hr as [[_ <-]|[_ ?]]; [left; apply list_elem_of_here|by right].
    - apply lookup_delete_Some in Hr as [_ ?]. by right. }
  intros [Hr|Hr]%Hgen; [done|by rewrite lookup_empty in Hr].
Qed.

Lemma check_valid rs : check rs = Ok tt -> Forall (fun r => JournalRecord_Validate r = Ok tt) rs.
Proof.
  unfold check. intros [_ Hc]%reject_Ok. revert Hc. generalize (∅ : openMap).
  induction rs as [|r rs IH]; intros m Hc; [done|]. simpl in Hc. apply reject_Ok in Hc as [Hv [_ Hc]%reject_Ok].
  apply negb_false_iff, is_ok_unit in Hv. constructor; [done|]. by eapply IH.
Qed.

Lemma open_valid rs i r : check rs = Ok tt -> open rs !! i = Some r -> JournalRecord_Validate r = Ok tt.
Proof. intros Hc Ho%open_elem. by apply (proj1 (Forall_forall _ _) (check_valid _ Hc)). Qed.

Lemma append_len rs r rs' : append rs r = Ok rs' -> len rs' <= len rs + 1.
Proof.
  intros (_ & _ & _ & ->)%append_Ok.
  assert (len (rs ++ [r]) = len rs + 1) as Hl by (unfold len; rewrite length_app; simpl; lia).
  case_bool_decide; [|lia]. destruct (compact_keep (rs ++ [r])) as (X & -> & _).
  pose proof (keep_len X (rs ++ [r])). lia.
Qed.

(** The record that closes a recovered entry is valid. *)
Lemma rollbackRecord_valid r t :
  JournalRecord_Validate r = Ok tt -> t <> zeroTime ->
  JournalRecord_Validate (setKind JournalKindFinish (rollbackRecord (Record_PlanID r) (Record_PlanRevision r)
    (Record_OperationID r) (Record_OwnershipToken r) t)) = Ok tt.
Proof.
  unfold JournalRecord_Validate. intros Hv Ht. validated Hv. simpl. rewrite Hv2, Hv6. simpl.
  unfold IsZero. by rewrite (proj2 (Z.eqb_neq _ _) Ht).
Qed.

Lemma finish_succeeds (j : MemoryJournal) r n c :
  MJ_corrupt j = false -> len (MJ_state j) < MaxJournalRecords ->
  JournalRecord_Validate (setKind JournalKindFinish r) = Ok tt ->
  open (MJ_state j) !! Identity r = Some c ->
  exists rs, append (MJ_state j) (setKind JournalKindFinish r) = Ok rs /\
    MemoryJournal_Finish Background r (n, j) = (Ok tt, (S n, mkMemoryJournal rs false)).
Proof.
  intros Hc Hl Hv Ho. exists (compact (MJ_state j ++ [setKind JournalKindFinish r])).
  assert (append (MJ_state j) (setKind JournalKindFinish r) = Ok (compact (MJ_state j ++ [setKind JournalKindFinish r]))) as Ha.
  { apply append_Ok. split; [done|]. split; [done|]. split; [|reflexivity].
    unfold admissible. simpl. change (Identity (setKind JournalKindFinish r)) with (Identity r). by rewrite Ho. }
  split; [exact Ha|]. unfold MemoryJournal_Finish, MemoryJournal_write, bindM, ctxErr, getS, liftR, modS; simpl.
  rewrite Hc. simpl. rewrite Ha. by rewrite Hc.
Qed.

(** What recovery needs of the entries it still has to close. *)
Definition recoverable (d : D) (l : list JournalRecord) : Prop :=
  MJ_corrupt (getJournal d) = false /\ NoDup (Identity <$> l) /\
  len (MJ_state (getJournal d)) + len l <= MaxJournalRecords /\
  Forall (fun r => JournalRecord_Validate r = Ok tt /\ is_Some (open (MJ_state (getJournal d)) !! Identity r)) l.

Definition valid_operation (o : RecoveredOperation) : Prop :=
  validIdentifier (Recovered_PlanID o) = true /\ Recovered_PlanRevision o <> 0 /\
  validIdentifier (Recovered_OperationID o) = true /\ validIdentifier (Recovered_OwnershipToken o) = true /\
  Step_Valid (Recovered_Step o) = true.

Definition recovered_identity (o : RecoveredOperation) : JournalIdentity :=
  mkIdentity (Recovered_PlanID o) (Recovered_PlanRevision o) (Recovered_OperationID o).

Lemma recoverRecord_total (d : D) r l t n :
  recoverable d (r :: l) -> t <> zeroTime ->
  exists o n' d', Memory_recoverRecord Background t r (n, d) = (Ok o, (n', d')) /\
    recoverable d' l /\ valid_operation o /\ recovered_identity o = Identity r /\
    open (MJ_state (getJournal d')) = delete (Identity r) (open (MJ_state (getJournal d))).
Proof.
  intros (Hc & Hnd & Hl & Hf) Ht. rewrite fmap_cons in Hnd. apply NoDup_cons in Hnd as [Hr Hnd]. apply Forall_cons in Hf as [[Hv [c Ho]] Hf].
  pose proof (reverted_journal (Record_OwnershipToken r) d) as Hj.
  assert (match (if eqs (Record_OwnershipToken r) EmptyString then None else restore (Record_OwnershipToken r) d)
          with Some (_, d') => d' | None => d end = reverted (Record_OwnershipToken r) d) as Hd1.
  { unfold reverted. by destruct (eqs (Record_OwnershipToken r) EmptyString). }
  set (d1 := reverted (Record_OwnershipToken r) d) in *.
  destruct (finish_succeeds (getJournal d1) (rollbackRecord (Record_PlanID r) (Record_PlanRevision r)
    (Record_OperationID r) (Record_OwnershipToken r) t) n c) as (rs & Ha & Hfin).
  { by rewrite Hj. } { rewrite Hj. unfold len in *. simpl in Hl. lia. } { by apply rollbackRecord_valid. } { by rewrite Hj. }
  rewrite Hj in Ha. pose proof (append_open _ _ _ Ha) as Hopen.
  eexists _, _, _. split; [|split; [|split; [|split]]].
  - unfold Memory_recoverRecord, bindM, getS, modS, retM. cbn [fst snd]. rewrite Hd1.
    unfold zoom. cbn [fst snd Journal_Finish MemoryJournal_ops]. rewrite Hfin. reflexivity.
  - split; [done|]. split; [done|]. split.
    + simpl. pose proof (append_len _ _ _ Ha). unfold len in *. simpl in Hl. lia.
    + eapply Forall_impl; [apply Forall_and; split; [exact Hf|apply Forall_forall]|].
      * intros x Hx. exact (fun E : Identity x = Identity r => Hr (proj2 (list_elem_of_fmap Identity l (Identity r)) (ex_intro _ x (conj (eq_sym E) Hx)))).
      * intros x [[? ?] Hne]. split; [done|]. simpl. rewrite Hopen.
        by rewrite open_step_lookup_ne by (intros E; apply Hne; rewrite <- E; done).
  - unfold JournalRecord_Validate in Hv. validated Hv. apply orb_false in Hv2 as [[? ?]%orb_false ?].
    repeat split; simpl; [by apply negb_false_iff|lia|by apply negb_false_iff| |by apply negb_false_iff].
    destruct (eqs (Record_OwnershipToken r) EmptyString); [done|]. by apply negb_false_iff.
  - done.
  - simpl. by rewrite Hopen.
Qed.

(** The identities still open once a list of entries is closed. *)
Lemma recoverLoop_total l : forall (d : D) t n, recoverable d l -> t <> zeroTime ->
  exists os n' d', eachM (Memory_recoverRecord Background t) l (n, d) = (Ok os, (n', d')) /\
    Forall valid_operation os /\ recovered_identity <$> os = Identity <$> l /\
    open (MJ_state (getJournal d')) = filter (fun p => p.1 ∉ Identity <$> l) (open (MJ_state (getJournal d))).
Proof.
  induction l as [|r l IH]; intros d t n Hrec Ht.
  { exists [], n, d. split; [done|]. split; [constructor|]. split; [done|]. symmetry. apply map_filter_id. set_solver. }
  destruct (recoverRecord_total d r l t n Hrec Ht) as (o & n1 & d1 & E1 & Hrec1 & Hv & Hid & Ho).
  destruct (IH d1 t n1 Hrec1 Ht) as (os & n2 & d2 & E2 & Hvs & Hids & Ho2).
  exists (o :: os), n2, d2. split; [|split; [|split]].
  - simpl. unfold bindM at 1. rewrite E1. unfold bindM. by rewrite E2.
  - by constructor.
  - by rewrite !fmap_cons, Hid, Hids.
  - rewrite Ho2, Ho. apply map_eq. intros i. rewrite !map_lookup_filter, fmap_cons.
    destruct (decide (i = Identity r)) as [->|Hi].
    + rewrite lookup_delete_eq. simpl. destruct (open _ !! _); simpl; [|done].
      rewrite option_guard_False; [done|]. set_solver.
    + rewrite lookup_delete_ne by done. destruct (open _ !! i); simpl; [|done].
      destruct (decide (i ∈ Identity <$> l)).
      * rewrite !option_guard_False; [done|set_solver|set_solver].
      * rewrite !option_guard_True; [done|set_solver|set_solver].
Qed.

Lemma report_valid os (b : bool) t : Forall valid_operation os -> t <> zeroTime ->
  RecoveryReport_Validate (mkRecoveryReport os (if b then [ReasonRecoveryClean] else [ReasonRecovered]) t) = Ok tt.
Proof.
  intros Hos Ht. unfold RecoveryReport_Validate. simpl. unfold IsZero. rewrite (proj2 (Z.eqb_neq _ _) Ht).
  rewrite (proj2 (each_Ok _ _)); [by destruct b|]. eapply Forall_impl; [exact Hos|].
  intros o (Hp & Hr & Ho & Hk & Hs). rewrite Hp, Ho, Hk, Hs, (proj2 (Z.eqb_neq _ _) Hr). done.
Qed.

(** Recovery is total: over a readable in-process journal with room for the
    closing records, and whatever crashed processes left in flight, the
    recovery of the driver returns a report with exactly one finished
    operation per in-flight entry, in order, and leaves no entry open. *)
Theorem driver_recovery_total (d : D) n :
  MJ_corrupt (getJournal d) = false -> check (MJ_state (getJournal d)) = Ok tt ->
  len (MJ_state (getJournal d)) + len (inFlight (MJ_state (getJournal d))) <= MaxJournalRecords ->
  (forall k, clock k <> zeroTime) ->
  exists report n' d', Memory_Recover clock Background (n, d) = (Ok report, (n', d')) /\
    recovered_identity <$> Recovery_Operations report = Identity <$> inFlight (MJ_state (getJournal d)) /\
    open (MJ_state (getJournal d')) = ∅ /\ inFlight (MJ_state (getJournal d')) = [].
Proof.
  intros Hc Hck Hl Ht. set (rs := MJ_state (getJournal d)) in *.
  destruct (recoverLoop_total (inFlight rs) d (clock (S (S n))) (S (S (S n)))) as (os & n' & d' & E & Hv & Hid & Ho); [|done|].
  { split; [done|]. split; [apply inFlight_identities|]. split; [done|]. apply Forall_forall.
    intros r Hr%inFlight_elem. split; [by eapply open_valid|by eexists]. }
  assert (open (MJ_state (getJournal d')) = ∅) as Hempty.
  { rewrite Ho. fold rs. apply map_empty. intros i. rewrite map_lookup_filter.
    destruct (open rs !! i) as [r|] eqn:Er; simpl; [|done]. rewrite option_guard_False; [done|]. intros Hn. apply Hn.
    pose proof (open_identity _ _ _ Er) as <-. apply list_elem_of_fmap. exists r. split; [done|]. by apply inFlight_elem. }
  exists (mkRecoveryReport os (if len os =? 0 then [ReasonRecoveryClean] else [ReasonRecovered]) (clock (S (S n)))), n', d'.
  split; [|split; [exact Hid|split; [exact Hempty|by apply inFlight_nil]]].
  unfold Memory_Recover, Memory_inFlight, attempt, zoom, bindM, ctxErr, now, liftR, retM; simpl.
  unfold MemoryJournal_InFlight, bindM, ctxErr, getS, retM; simpl. rewrite Hc. simpl. fold rs.
  replace (setJournal (getJournal d) d) with d by (by destruct d as [[] ? ? ? ?]).
  rewrite E. by rewrite report_valid.
Qed.
End Total.

(** ** The driver interface *)

Section Laws.
Context {H : Hasher} (protoMarshal : option pbStruct -> option (list Z)) (clock wall : clockT).
Context {J : Type} {JO : JournalOps J}.

(** The host of the reference driver is its rules. *)
Definition Memory_laws : @DriverLaws (MemoryDriver J) H (Memory_ops protoMarshal clock wall).
Proof.
  unshelve refine {| host := gmap ruleKey string; driver_host := getRules |}; simpl.
  - intros ctx scope d. unfold Memory_Capture. repeat wp_step; try done.
    destruct (Scope_Validate scope); repeat wp_step; try done.
    destruct (Snapshot_Validate _); by repeat wp_step.
  - intros ctx snapshot operation d. unfold Memory_Simulate. by repeat wp_step.
  - intros ctx receipt d. unfold Memory_Verify. repeat wp_step.
    destruct (ApplyReceipt_Validate receipt); repeat wp_step; try done.
    destruct (ownedKey _ _); repeat wp_step; try done. destruct (Snapshot_Digest _); by repeat wp_step.
  - intros ctx d. unfold Memory_Health. repeat wp_step; try done. unfold Memory_inFlight. repeat wp_step.
    eapply wp_mono; [apply wp_any|]. intros [[|]|e] j' _; by repeat wp_step.
  - intros ctx request d. unfold Memory_Apply. repeat wp_step.
    destruct (ApplyRequest_Validate request) as [[]|e] eqn:E; repeat wp_step; try done.
    eapply wp_mono; [apply wp_any|]. intros r d' _. unfold thenQ. destruct r; [|done].
    eapply wp_mono; [apply wp_any|]. done.
Defined.
End Laws.

(** ** A concrete driver *)

(** Deterministic marshalling of the absent parameters of the demo. *)
Definition demo_marshal (s : option pbStruct) : option (list Z) :=
  match s with None => Some [] | Some _ => None end.
Definition demo_wall : clockT := fun n => Z.of_nat n.
Definition demo_driver : MemoryDriver MemoryJournal :=
  mkMemoryDriver (NewBacking NewMemoryJournal) DefaultName DefaultVersion [] false.
Definition demo_undo : RollbackRequest :=
  mkRollbackRequest "plan-1" 7 "op-1" (@applyToken sha256 (demo_request "inet/a")) (30 * Second).

Lemma rollback_undoes_apply_witness :
  let m := (run! attempt (@Memory_Apply sha256 demo_marshal demo_clock demo_wall _ _ Background (demo_request "inet/a")) in
            @Memory_Rollback sha256 demo_clock _ _ Background demo_undo) in
  is_ok (fst (m (O, demo_driver))) = true /\ getRules (snd (snd (m (O, demo_driver)))) = ∅.
Proof.
  intros m. assert (is_ok (fst (m (O, demo_driver))) = true) as Hok by (vm_compute; reflexivity).
  split; [exact Hok|].
  assert (Rollback_OwnershipToken demo_undo = @applyToken sha256 (demo_request "inet/a")) as Hu by (vm_compute; reflexivity).
  pose proof (@rollback_undoes_apply sha256 demo_marshal demo_clock demo_wall _ _ _ Background Background
    (demo_request "inet/a") demo_undo demo_driver Hu (lookup_empty _) (lookup_empty _) O) as Hw.
  fold m in Hw. destruct (m (O, demo_driver)) as [r [n' d']]. exact (Hw Hok).
Defined.

(** The crash hook is armed: the apply dies after the write. *)
Lemma crash_recovery_restores_witness :
  let m := (let! r := attempt (@Memory_Apply sha256 demo_marshal demo_clock demo_wall _ _ Background (demo_request "inet/a")) in
            run! restart in
            run! @Memory_Recover demo_clock _ _ Background in
            retM r) in
  fst (m (O, Memory_InjectCrash demo_driver)) = Ok (Err ErrCrashInjected) /\
  getRules (snd (snd (m (O, Memory_InjectCrash demo_driver)))) = ∅.
Proof.
  intros m. assert (fst (m (O, Memory_InjectCrash demo_driver)) = Ok (Err ErrCrashInjected)) as Hr by (vm_compute; reflexivity).
  split; [exact Hr|].
  pose proof (@crash_recovery_restores sha256 demo_marshal demo_clock demo_wall _ _ _ Background Background
    (demo_request "inet/a") (Memory_InjectCrash demo_driver) MemoryJournal_atomic eq_refl (lookup_empty _) O) as Hw.
  fold m in Hw. destruct (m (O, Memory_InjectCrash demo_driver)) as [r [n' d']].
  refine (proj1 (Hw ErrCrashInjected Hr _)). discriminate.
Defined.

Lemma driver_recovery_total_witness :
  let crashed := snd (snd (@Memory_Apply sha256 demo_marshal demo_clock demo_wall _ _ Background (demo_request "inet/a")
                             (O, Memory_InjectCrash demo_driver))) in
  length (inFlight (MJ_state (getJournal crashed))) = 1%nat /\
  exists report n' d', Memory_Recover demo_clock Background (O, crashed) = (Ok report, (n', d')) /\
    inFlight (MJ_state (getJournal d')) = [].
Proof.
  intros crashed. split; [vm_compute; reflexivity|].
  destruct (driver_recovery_total demo_clock crashed O) as (report & n' & d' & E & _ & _ & Hd).
  - vm_compute. reflexivity.
  - vm_compute. reflexivity.
  - vm_compute. congruence.
  - intros k. unfold demo_clock, zeroTime, Second. lia.
  - exists report, n', d'. split; [exact E|exact Hd].
Defined.
