(* ===== verification/LifecycleFacts.v ===== *)
(** * The lifecycle: invariants of the machine

    Proved against the laws of the interfaces, for every driver, journal,
    reservation store and receipt store that obeys them, and for every clock,
    deadline and cancellation. *)

From S2P Require Import Prelude Sha256 Digest Probe Contract ContractFacts Journal DriverStores Interfaces JournalFacts ContractSpec Lifecycle.
From stdpp Require Import base gmap list strings sorting.
From Stdlib Require Import ZArith Lia.

Open Scope Z_scope.

(** ** Preserved predicates

    [keeps P m]: whatever it returns, [m] takes states of [P] to states of
    [P]. The lemmas follow the structure of a method. *)

Definition keeps {S A : Type} (P : S -> Prop) (m : M S A) : Prop :=
  forall s, P s -> wp m (fun _ s' => P s') s.

Create HintDb keeps.

Section Keeps.
Context {S : Type} (P : S -> Prop).

Lemma keeps_ret {A} (a : A) : keeps P (retM a).
Proof. intros s HP. by apply wp_ret. Qed.
Lemma keeps_fail {A} e : keeps P (failM (A := A) e).
Proof. intros s HP. by apply wp_fail. Qed.
Lemma keeps_lift {A} (r : result A) : keeps P (liftR r).
Proof. intros s HP. by apply wp_lift. Qed.
Lemma keeps_get : keeps P getS.
Proof. intros s HP. by apply wp_get. Qed.
Lemma keeps_now clk : keeps P (now clk).
Proof. intros s HP. by apply wp_now. Qed.
Lemma keeps_ctxErr ctx : keeps P (ctxErr ctx).
Proof. intros s HP. by apply wp_ctxErr. Qed.
Lemma keeps_withTimeout wl ctx d : keeps P (withTimeout wl ctx d).
Proof. intros s HP. by apply wp_withTimeout. Qed.
Lemma keeps_mod f : (forall s, P s -> P (f s)) -> keeps P (modS f).
Proof. intros Hf s HP. apply wp_mod. auto. Qed.
Lemma keeps_bind {A B} (m : M S A) (k : A -> M S B) :
  keeps P m -> (forall a, keeps P (k a)) -> keeps P (bindM m k).
Proof.
  intros Hm Hk s HP. apply wp_bind. eapply wp_mono; [by apply Hm|].
  intros [a|e] s' HP'; simpl; [by apply Hk|done].
Qed.
Lemma keeps_attempt {A} (m : M S A) : keeps P m -> keeps P (attempt m).
Proof. intros Hm s HP. apply wp_attempt. by apply Hm. Qed.
Lemma keeps_onErr {A} h (m : M S A) : (forall s, P s -> P (h s)) -> keeps P m -> keeps P (onErr h m).
Proof.
  intros Hh Hm s HP. apply wp_onErr. eapply wp_mono; [by apply Hm|]. intros [a|e] s' HP'; auto.
Qed.
Lemma keeps_eachM {A B} (f : A -> M S B) l : (forall x, keeps P (f x)) -> keeps P (eachM f l).
Proof.
  intros Hf. induction l as [|x l IH]; simpl; [apply keeps_ret|].
  apply keeps_bind; [done|]. intros y. apply keeps_bind; [done|]. intros ys. apply keeps_ret.
Qed.
Lemma keeps_zoom {T A} (get : S -> T) set (m : M T A) :
  (forall s, P s -> wp m (fun _ t => P (set t s)) (get s)) -> keeps P (zoom get set m).
Proof. intros Hm s HP. apply wp_zoom. by apply Hm. Qed.
End Keeps.

#[export] Hint Resolve keeps_ret keeps_fail keeps_lift keeps_get keeps_now keeps_ctxErr keeps_withTimeout : keeps.

(** Follow the structure of the method; what is left are the calls across an
    interface and the assignments. *)
Ltac keeps_step :=
  match goal with
  | |- keeps _ (bindM _ _) => apply keeps_bind; [|intros ?]
  | |- keeps _ (attempt _) => apply keeps_attempt
  | |- keeps _ (onErr _ _) => apply keeps_onErr; [done|]
  | |- keeps _ (modS _) => apply keeps_mod; done
  | |- keeps _ (eachM _ _) => apply keeps_eachM; intros ?
  | |- keeps _ (match ?x with _ => _ end) => destruct x
  | |- keeps _ (let _ := _ in _) => cbv zeta
  | |- keeps _ _ => solve [auto with keeps]
  end.

Section Machine.
Context {H : Hasher}.
Context {D J R C : Type}.
Context {DO : DriverOps D} {JO : JournalOps J} {RO : ReservationOps R} {CO : ReceiptOps C}.
Context {DL : DriverLaws D} {JL : JournalLaws J} {RL : ReservationLaws R}.
Context (clock wall : clockT) (timeouts : StepTimeouts).

Abbreviation L := (Lifecycle D J R C).

(** ** The host *)

Definition hostOf (l : L) : host := driver_host (L_driver l).

(** The lifecycle keeps the host [h]. *)
Definition atHost (h : host) (l : L) : Prop := hostOf l = h.

Lemma atHost_journal {A} h (m : M J A) : keeps (atHost h) (onJournal (D := D) (R := R) (C := C) m).
Proof. apply keeps_zoom. intros l Hl. eapply wp_mono; [apply wp_any|]. by intros. Qed.
Lemma atHost_reservations {A} h (m : M R A) : keeps (atHost h) (onReservations (D := D) (J := J) (C := C) m).
Proof. apply keeps_zoom. intros l Hl. eapply wp_mono; [apply wp_any|]. by intros. Qed.
Lemma atHost_receipts {A} h (m : M C A) : keeps (atHost h) (onReceipts (D := D) (J := J) (R := R) m).
Proof. apply keeps_zoom. intros l Hl. eapply wp_mono; [apply wp_any|]. by intros. Qed.
Lemma atHost_driver {A} h (m : M D A) :
  (forall d, wp m (fun _ d' => driver_host d' = driver_host d) d) ->
  keeps (atHost h) (onDriver (J := J) (R := R) (C := C) m).
Proof.
  intros Hm. apply keeps_zoom. intros l Hl. eapply wp_mono; [apply Hm|].
  intros r d' Hd. unfold atHost, hostOf in *. simpl. congruence.
Qed.

Hint Resolve atHost_journal atHost_reservations atHost_receipts : keeps.
Hint Extern 1 (keeps _ (onDriver _)) => apply atHost_driver; intros ? : keeps.
Hint Resolve driver_capture_readonly driver_simulate_readonly driver_verify_readonly driver_health_readonly : keeps.

Ltac host_kept := repeat keeps_step.

Lemma atHost_advance h ctx run step own digest : keeps (atHost h) (advance clock ctx run step own digest).
Proof. unfold advance. host_kept. Qed.
Lemma atHost_appendReceipt h ctx r : keeps (atHost h) (appendReceipt (J := J) ctx r).
Proof. unfold appendReceipt. host_kept. Qed.
Lemma atHost_require h s : keeps (atHost h) (require s).
Proof. unfold require. host_kept. Qed.
Lemma atHost_commit h ctx run reason : keeps (atHost h) (commit clock ctx run reason).
Proof. unfold commit, finish. host_kept. all: apply atHost_appendReceipt. Qed.
Hint Resolve atHost_advance atHost_appendReceipt atHost_require atHost_commit : keeps.

Lemma atHost_Begin h ctx ref : keeps (atHost h) (Begin clock wall timeouts ctx ref).
Proof. unfold Begin, bounded. host_kept. Qed.
Lemma atHost_Capture h ctx scope : keeps (atHost h) (Capture wall timeouts ctx scope).
Proof. unfold Capture, bounded, orFail. host_kept. Qed.
Lemma atHost_Simulate h ctx o : keeps (atHost h) (Simulate clock wall timeouts ctx o).
Proof. unfold Simulate, bounded, failed, orFail. host_kept. Qed.
Lemma atHost_Approve h ctx a : keeps (atHost h) (Approve clock wall timeouts ctx a).
Proof. unfold Approve, bounded. host_kept. Qed.
Lemma atHost_Reserve h ctx k : keeps (atHost h) (Reserve clock wall timeouts ctx k).
Proof. unfold Reserve, bounded, failed, orFail. host_kept. Qed.
Lemma atHost_Verify h ctx : keeps (atHost h) (Verify wall timeouts ctx).
Proof. unfold Verify, bounded, failed, orFail. host_kept. Qed.
Lemma atHost_LRecord h ctx : keeps (atHost h) (LRecord clock wall timeouts ctx).
Proof. unfold LRecord, bounded, failed, orFail. host_kept. Qed.
Lemma atHost_Commit h ctx : keeps (atHost h) (Commit clock wall timeouts ctx).
Proof. unfold Commit, bounded, failed, orFail. host_kept. Qed.
Lemma atHost_Health h ctx : keeps (atHost h) (Health clock ctx).
Proof. unfold Health. host_kept. Qed.
Hint Resolve atHost_Begin atHost_Capture atHost_Simulate atHost_Approve atHost_Reserve atHost_Verify
  atHost_LRecord atHost_Commit atHost_Health : keeps.

(** ** The operations of the machine *)

Inductive operation : Type :=
| OpBegin (ref : PlanRef)
| OpCapture (scope : Scope)
| OpSimulate (o : option PlanOperation)
| OpApprove (approval : Approval)
| OpReserve (key : ReservationKey)
| OpApply
| OpVerify
| OpRecord
| OpCommit
| OpRollback
| OpHealth
| OpRecover.

Definition forget {A} (m : M L A) : M L unit := run! m in retM tt.

Definition perform (ctx : ctxT) (op : operation) : M L unit :=
  match op with
  | OpBegin ref => Begin clock wall timeouts ctx ref
  | OpCapture scope => forget (Capture wall timeouts ctx scope)
  | OpSimulate o => forget (Simulate clock wall timeouts ctx o)
  | OpApprove approval => Approve clock wall timeouts ctx approval
  | OpReserve key => forget (Reserve clock wall timeouts ctx key)
  | OpApply => forget (Apply clock wall timeouts ctx)
  | OpVerify => forget (Verify wall timeouts ctx)
  | OpRecord => LRecord clock wall timeouts ctx
  | OpCommit => Commit clock wall timeouts ctx
  | OpRollback => forget (Rollback clock wall timeouts ctx)
  | OpHealth => forget (Health clock ctx)
  | OpRecover => forget (Recover clock wall timeouts ctx)
  end.

(** The operations that may reach the host. *)
Definition mutating (op : operation) : bool :=
  match op with OpApply | OpRollback | OpRecover => true | _ => false end.

(** The host is out of reach of every operation but three: whatever their
    arguments, results, deadlines and failures, only [Apply], [Rollback] and
    [Recover] can leave the driver's host different from how they found it. *)
Theorem host_isolated ctx op l :
  mutating op = false -> wp (perform ctx op) (fun _ l' => hostOf l' = hostOf l) l.
Proof.
  intros Hm. assert (keeps (atHost (hostOf l)) (perform ctx op)) as Hk; [|by apply Hk].
  destruct op; try discriminate Hm; simpl; unfold forget; host_kept.
Qed.

(** ** Writing the lifecycle's journal *)

Definition recordsOf (l : L) : list JournalRecord := journal_view (L_journal l).

Definition runIdentity (run : lifecycleRun) : JournalIdentity :=
  mkIdentity (Ref_PlanID (run_ref run)) (Ref_PlanRevision (run_ref run)) (Ref_OperationID (run_ref run)).

Lemma record_identity run kind step own digest t : Identity (record run kind step own digest t) = runIdentity run.
Proof. done. Qed.

Lemma wp_inFlight ctx Q (l : L) :
  (forall r j', journal_view j' = recordsOf l -> (forall x, r = Ok x -> x = inFlight (recordsOf l)) ->
     Q r (set_journal j' l)) ->
  wp (onJournal (Journal_InFlight ctx)) Q l.
Proof. intros HQ. apply wp_zoom. eapply wp_mono; [apply journal_inFlight|]. intros r j' [? ?]. by apply HQ. Qed.

Lemma wp_records ctx Q (l : L) :
  (forall r j', journal_view j' = recordsOf l -> Q r (set_journal j' l)) ->
  wp (onJournal (Journal_Records ctx)) Q l.
Proof. intros HQ. apply wp_zoom. eapply wp_mono; [apply journal_records|]. intros r j' [? ?]. by apply HQ. Qed.

(** How a failed write left the journal: alone, or, unless writes are [exact],
    with the record landed and the open entries [o]. *)
Definition left_behind (exact : bool) (o : gmap JournalIdentity JournalRecord) (before after : list JournalRecord) : Prop :=
  after = before \/ (exact = false /\ open after = o).

(** A journal is exact when its failed writes leave nothing behind. The
    invariants are proved for both kinds at once. *)
Context (exact : bool) (atomic : exact = true -> journal_atomic J).

Lemma write_left (ctx : ctxT) (kind : JournalKind) x (l : L) n e n' j' :
  (kind = JournalKindBegin \/ kind = JournalKindAdvance \/ kind = JournalKindFinish) ->
  (match kind with
   | JournalKindBegin => Journal_Begin ctx x
   | JournalKindAdvance => Journal_Advance ctx x
   | _ => Journal_Finish ctx x end) (n, L_journal l) = (Err e, (n', j')) ->
  journal_view j' = recordsOf l \/ append (recordsOf l) (setKind kind x) = Ok (journal_view j') ->
  journal_view j' = recordsOf l \/
    (exact = false /\ append (recordsOf l) (setKind kind x) = Ok (journal_view j')).
Proof.
  intros Hk E [Hs|Ha]; [by left|]. destruct exact; [left|by right].
  pose proof (atomic eq_refl kind ctx x (L_journal l) n) as Hat. by destruct Hk as [->|[->| ->]]; rewrite E in Hat; apply (Hat e).
Qed.

(** A successful finish closes the entry of the run. *)
Lemma wp_finish_run ctx run step own digest Q (l : L) :
  (forall j', open (journal_view j') = delete (runIdentity run) (open (recordsOf l)) -> Q (Ok tt) (set_journal j' l)) ->
  (forall e j', left_behind exact (delete (runIdentity run) (open (recordsOf l))) (recordsOf l) (journal_view j') ->
     Q (Err e) (set_journal j' l)) ->
  wp (finish clock ctx run step own digest) Q l.
Proof.
  intros HOk HErr. unfold finish. repeat wp_step. apply wp_zoom. intros m.
  pose proof (journal_finish ctx (record run JournalKindFinish step own digest (clock n)) (L_journal l) m) as Hl.
  destruct (Journal_Finish _ _ _) as [[[]|e] [n' j']] eqn:E.
  - apply HOk. by rewrite (append_open _ _ _ Hl).
  - apply HErr. apply (write_left ctx JournalKindFinish _ l m e n' j') in Hl as [Hl|[He Hl]]; [by left| |by auto|done].
    right. split; [done|]. by rewrite (append_open _ _ _ Hl).
Qed.

(** A successful advance moves the entry of the run to the step. *)
Lemma wp_advance ctx run step own digest Q (l : L) :
  (forall j' t, open (journal_view j') =
      <[ runIdentity run := record run JournalKindAdvance step own digest t ]> (open (recordsOf l)) -> Q (Ok tt) (set_journal j' l)) ->
  (forall e j' t, left_behind exact (<[ runIdentity run := record run JournalKindAdvance step own digest t ]> (open (recordsOf l)))
      (recordsOf l) (journal_view j') -> Q (Err e) (set_journal j' l)) ->
  wp (advance clock ctx run step own digest) Q l.
Proof.
  intros HOk HErr. unfold advance. repeat wp_step. apply wp_zoom. intros m.
  pose proof (journal_advance ctx (record run JournalKindAdvance step own digest (clock n)) (L_journal l) m) as Hl.
  destruct (Journal_Advance _ _ _) as [[[]|e] [n' j']] eqn:E.
  - apply (HOk j' (clock n)). by rewrite (append_open _ _ _ Hl).
  - apply (HErr e j' (clock n)).
    apply (write_left ctx JournalKindAdvance _ l m e n' j') in Hl as [Hl|[He Hl]]; [by left| |by auto|done].
    right. split; [done|]. by rewrite (append_open _ _ _ Hl).
Qed.

Lemma wp_begin_run ctx run step own digest t Q (l : L) :
  (forall j', open (journal_view j') =
      <[ runIdentity run := record run JournalKindBegin step own digest t ]> (open (recordsOf l)) -> Q (Ok tt) (set_journal j' l)) ->
  (forall e j', left_behind exact (<[ runIdentity run := record run JournalKindBegin step own digest t ]> (open (recordsOf l)))
      (recordsOf l) (journal_view j') -> Q (Err e) (set_journal j' l)) ->
  wp (onJournal (Journal_Begin ctx (record run JournalKindBegin step own digest t))) Q l.
Proof.
  intros HOk HErr. apply wp_zoom. intros m.
  pose proof (journal_begin ctx (record run JournalKindBegin step own digest t) (L_journal l) m) as Hl.
  destruct (Journal_Begin _ _ _) as [[[]|e] [n' j']] eqn:E.
  - apply HOk. by rewrite (append_open _ _ _ Hl).
  - apply HErr. apply (write_left ctx JournalKindBegin _ l m e n' j') in Hl as [Hl|[He Hl]]; [by left| |by auto|done].
    right. split; [done|]. by rewrite (append_open _ _ _ Hl).
Qed.

(** ** What a state of the machine means *)

(** The step the open journal entry is at, and how far the run has come. *)
Definition stepOf (s : LifecycleState) : Step :=
  match s with
  | StateBegun | StateCaptured => StepCapture
  | StateSimulated => StepSimulate
  | StateApproved => StepApprove
  | StateReserved => StepReserve
  | StateApplied | StateVerified => StepVerify
  | StateRecorded => StepRecord
  | _ => StepNone
  end.

Definition rank (s : LifecycleState) : nat :=
  match s with
  | StateCaptured => 1 | StateSimulated => 2 | StateApproved => 3 | StateReserved => 4
  | StateApplied => 5 | StateVerified => 6 | StateRecorded => 7 | _ => 0
  end.

Definition run_captured (run : lifecycleRun) : Prop :=
  Snapshot_Digest (run_snapshot run) = Ok (run_digest run).
Definition run_simulated (run : lifecycleRun) : Prop :=
  exists o, run_operation run = Some o /\ Operation_Id o = Ref_OperationID (run_ref run) /\
    ValidateTarget (Operation_Target o) = Ok tt /\
    SimulationResult_Validate (run_simulation run) = Ok tt /\
    Simulation_SnapshotDigest (run_simulation run) = run_digest run /\
    Simulation_Target (run_simulation run) = Operation_Target o /\
    Simulation_WouldSucceed (run_simulation run) = true.
Definition run_approved (run : lifecycleRun) : Prop :=
  Approval_Validate (run_approval run) = Ok tt /\
  Approval_PlanID (run_approval run) = Ref_PlanID (run_ref run) /\
  Approval_PlanRevision (run_approval run) = Ref_PlanRevision (run_ref run) /\
  Approval_OperationID (run_approval run) = Ref_OperationID (run_ref run) /\
  Approval_Target (run_approval run) = GetTarget (run_operation run).
Definition run_holds (run : lifecycleRun) : Prop :=
  run_reserved run = true /\ ReservationToken_Validate (run_reservation run) = Ok tt /\
  Key_PlanID (Token_Key (run_reservation run)) = Ref_PlanID (run_ref run) /\
  Key_PlanRevision (Token_Key (run_reservation run)) = Ref_PlanRevision (run_ref run).
Definition run_mutated (run : lifecycleRun) : Prop :=
  run_applied run = true /\ ApplyReceipt_Validate (run_receipt run) = Ok tt /\
  receiptBound run (run_receipt run) = true.
Definition run_verified (run : lifecycleRun) : Prop :=
  VerificationResult_Validate (run_verification run) = Ok tt /\
  Verification_Verified (run_verification run) = true /\
  Verification_ExpectedDigest (run_verification run) = AReceipt_AppliedDigest (run_receipt run).

(** Everything a run of rank [k] has been through. *)
Definition run_inv (k : nat) (run : lifecycleRun) : Prop :=
  ((1 <= k)%nat -> run_captured run) /\ ((2 <= k)%nat -> run_simulated run) /\
  ((3 <= k)%nat -> run_approved run) /\ ((4 <= k)%nat -> run_holds run) /\
  ((5 <= k)%nat -> run_mutated run) /\ ((6 <= k)%nat -> run_verified run).

(** The open entry carries what a recovery needs. *)
Definition entry_data (k : nat) (run : lifecycleRun) (r : JournalRecord) : Prop :=
  ((2 <= k)%nat -> Record_Target r = GetTarget (run_operation run)) /\
  ((4 <= k)%nat -> Record_Reservation r = Token_Key (run_reservation run)).

(** An entry nothing was done for yet: its recovery has no reservation to
    release and no target to revert. *)
Definition only_begun (o : gmap JournalIdentity JournalRecord) : Prop :=
  exists r, o = {[ Identity r := r ]} /\ Record_Step r = StepCapture /\
    Record_Target r = EmptyString /\ Record_Reservation r = zeroKey.

(** The open journal entries, the state and the run agree: an active run has
    exactly one open entry, its own; a finished run has none, and a committed
    run has been through every step. A journal whose failed writes may have
    landed differs in three places: the entry of a [Begin] that failed may be
    open beside a finished run, the entry of a failed run may be closed, and
    the entry of a simulated run may be at [StepApprove] already. *)
Inductive inv_at (exact : bool) : gmap JournalIdentity JournalRecord -> LifecycleState -> option lifecycleRun -> Prop :=
| inv_none o s : inv_at exact o s None
| inv_done o s run : LifecycleState_Terminal s = true ->
    (s = StateCommitted -> run_inv (rank StateRecorded) run) ->
    o = ∅ \/ (exact = false /\ only_begun o) -> inv_at exact o s (Some run)
| inv_failed o run :
    (exists r, o = {[ runIdentity run := r ]} /\ Identity r = runIdentity run) \/ (exact = false /\ o = ∅) ->
    inv_at exact o StateFailed (Some run)
| inv_active s run r :
    LifecycleState_Terminal s = false -> s <> StateFailed -> Identity r = runIdentity run ->
    Record_Step r = stepOf s \/ (exact = false /\ s = StateSimulated /\ Record_Step r = StepApprove) ->
    run_inv (rank s) run -> entry_data (rank s) run r ->
    inv_at exact {[ runIdentity run := r ]} s (Some run).

Definition life_inv (l : L) : Prop := inv_at exact (open (recordsOf l)) (L_state l) (L_run l).

(** ** Every operation preserves it *)

(** From [pre] to [post], or an error that stays or fails. *)
Definition moved {A} (pre post s : LifecycleState) (res : result A) (s' : LifecycleState) : Prop :=
  match res with
  | Ok _ => s = pre /\ s' = post
  | Err _ => s' = s \/ s' = StateFailed
  end.

Definition step_ok {A} (pre post : LifecycleState) (m : M L A) : Prop :=
  forall l, life_inv l -> wp m (fun res l' => life_inv l' /\ moved pre post (L_state l) res (L_state l')) l.

Lemma wp_require s Q (l : L) :
  life_inv l -> LifecycleState_Terminal s = false -> s <> StateFailed ->
  (forall e, Q (Err e) l) ->
  (forall run r, L_run l = Some run -> L_state l = s -> open (recordsOf l) = {[ runIdentity run := r ]} ->
     Identity r = runIdentity run -> (s <> StateSimulated -> Record_Step r = stepOf s) ->
     run_inv (rank s) run -> entry_data (rank s) run r -> Q (Ok run) l) ->
  wp (require s) Q l.
Proof.
  intros Hi Ht Hf HErr HOk. unfold require. repeat wp_step.
  destruct (L_run l) as [run|] eqn:Hr; [|by apply wp_fail].
  case_bool_decide as Hs; [|by apply wp_fail]. apply wp_ret. unfold life_inv in Hi. rewrite Hr, Hs in Hi.
  inversion Hi; subst; try congruence. eapply HOk; try done. naive_solver.
Qed.

(** A failure leaves the open entry of the run, whatever else it changed; a
    failed write of the run may have moved or closed it. *)
Lemma inv_fail (l l' : L) run run' r o :
  left_behind exact o (recordsOf l) (recordsOf l') ->
  (o = ∅ \/ exists x, o = {[ runIdentity run := x ]} /\ Identity x = runIdentity run) ->
  open (recordsOf l) = {[ runIdentity run := r ]} -> Identity r = runIdentity run ->
  L_run l' = Some run' -> runIdentity run' = runIdentity run ->
  life_inv (set_state StateFailed l').
Proof.
  intros Hl Hn Ho Hr Hrun Hid. unfold life_inv. simpl. change (recordsOf (set_state StateFailed l')) with (recordsOf l').
  rewrite Hrun. apply inv_failed. setoid_rewrite Hid. destruct Hl as [->|[He ->]]; [left; by exists r|].
  destruct Hn as [->|Hx]; [by right|by left].
Qed.

(** What a failed advance of the run may have left open. *)
Lemma left_moved (l : L) run r x :
  open (recordsOf l) = {[ runIdentity run := r ]} -> Identity x = runIdentity run ->
  <[ runIdentity run := x ]> (open (recordsOf l)) = ∅ \/
  exists y, <[ runIdentity run := x ]> (open (recordsOf l)) = {[ runIdentity run := y ]} /\ Identity y = runIdentity run.
Proof. intros -> Hx. right. exists x. by rewrite insert_singleton_eq. Qed.

(** A step that succeeds leaves one open entry, at the step of its state. *)
Lemma inv_next (l' : L) s run r :
  open (recordsOf l') = {[ runIdentity run := r ]} -> L_run l' = Some run -> L_state l' = s ->
  LifecycleState_Terminal s = false -> s <> StateFailed -> Identity r = runIdentity run ->
  Record_Step r = stepOf s -> run_inv (rank s) run -> entry_data (rank s) run r -> life_inv l'.
Proof. intros Ho Hrun Hs ? ? ? ? ? ?. unfold life_inv. rewrite Ho, Hrun, Hs. apply inv_active; auto. Qed.

(** Split an invariant by rank; what the rank does not ask for is gone. *)
Ltac by_rank :=
  unfold run_inv, entry_data in *; cbn [rank] in *;
  repeat match goal with
  | |- (?a <= ?b)%nat -> _ => let Hk := fresh "Hk" in intros Hk; try (exfalso; lia)
  | |- ((_ <= _)%nat -> _) /\ _ => split
  end.

Lemma wp_onDriver {A} (m : M D A) Q (l : L) :
  (forall res d', Q res (set_driver d' l)) -> wp (onDriver m) Q l.
Proof. intros HQ. apply wp_zoom. eapply wp_mono; [apply wp_any|]. intros r d' _. apply HQ. Qed.
Lemma wp_onReservations {A} (m : M R A) Q (l : L) :
  (forall res d', Q res (set_reservations d' l)) -> wp (onReservations m) Q l.
Proof. intros HQ. apply wp_zoom. eapply wp_mono; [apply wp_any|]. intros r d' _. apply HQ. Qed.
Lemma wp_appendReceipt ctx r Q (l : L) :
  (forall res c', Q res (set_receipts c' l)) -> wp (appendReceipt ctx r) Q l.
Proof.
  intros HQ. unfold appendReceipt. repeat wp_step. apply wp_zoom. eapply wp_mono; [apply wp_any|].
  intros [[]|e] c' _; red; [apply wp_ret, HQ|]. case_bool_decide; [apply wp_ret|apply wp_fail]; apply HQ.
Qed.

Ltac stay := by split; [|left].
Ltac failing l :=
  match goal with |- life_inv _ /\ moved _ _ _ _ _ =>
    split; [|by right];
    first
      [ match goal with Hj : left_behind exact _ _ _ |- _ =>
          eapply (inv_fail l); [exact Hj|eapply left_moved; [eassumption|reflexivity]|eassumption|first [eassumption|reflexivity]|first [reflexivity|eassumption]|done] end
      | eapply (inv_fail l _ _ _ _ ∅); [by left|by left|eassumption|first [eassumption|reflexivity]|first [reflexivity|eassumption]|done] ]
  end.
Ltac next_step l Hj s run :=
  match type of Hj with open (journal_view ?j) = <[ _ := ?x ]> _ =>
    apply (inv_next _ s run x); [|try done..];
    [change (open (journal_view j) = {[ runIdentity run := x ]}); rewrite Hj;
     match goal with |- <[ _ := _ ]> (open (recordsOf ?y)) = _ => change (recordsOf y) with (recordsOf l) end;
     match goal with Ho : open (recordsOf l) = _ |- _ => rewrite Ho end; apply insert_singleton_eq|..]
  end.
Ltac begin_step l := intros l Hi; wp_step;
  apply wp_require; [done..|intros ?; stay|]; intros run r Hrun Hs Ho Hid Hst Hinv Hdata; repeat wp_step.

Lemma Capture_ok ctx scope : step_ok StateBegun StateCaptured (Capture wall timeouts ctx scope).
Proof.
  unfold Capture, bounded, orFail. begin_step l.
  destruct (Scope_Validate scope); repeat wp_step; [|stay].
  apply wp_onDriver. intros [snapshot|e] d'; repeat wp_step; [|failing l].
  destruct (Snapshot_Digest snapshot) as [digest|e] eqn:Hd; repeat wp_step; [|failing l].
  split; [|done].
  specialize (Hst ltac:(done)).
  apply (inv_next _ StateCaptured (run_with_capture scope snapshot digest run) r); try done; by_rank. done.
Qed.

Lemma Simulate_ok ctx o : step_ok StateCaptured StateSimulated (Simulate clock wall timeouts ctx o).
Proof.
  unfold Simulate, bounded, failed, orFail. begin_step l.
  destruct o as [o|]; repeat wp_step; [|stay].
  destruct (eqs (Operation_Id o) _) eqn:Ei; simpl; repeat wp_step; [|stay].
  destruct (ValidateTarget (Operation_Target o)) as [[]|e] eqn:Hv; repeat wp_step; [|stay].
  apply wp_onDriver. intros [sim|e] d'; repeat wp_step; [|failing l].
  destruct (SimulationResult_Validate sim) as [[]|e] eqn:Hsv; repeat wp_step; [|failing l].
  destruct (_ || _) eqn:Hb; repeat wp_step; [failing l|].
  destruct (Simulation_WouldSucceed sim) eqn:Hw; simpl; repeat wp_step; [|failing l].
  apply wp_advance; [|intros e j' t Hj; red; failing l]. intros j' t Hj. repeat wp_step. split; [|done].
  next_step l Hj StateSimulated (run_with_simulation sim (Some o) run).
  - apply eqs_true in Ei. apply orb_false in Hb as [[E1 E2]%orb_false E3].
    apply negb_false_iff, eqs_true in E1, E2, E3.
    destruct Hinv as [Hc _]. by_rank; [by apply Hc|]. exists o. repeat split; done.
  - by_rank. done.
Qed.

Lemma Approve_ok ctx a : step_ok StateSimulated StateApproved (Approve clock wall timeouts ctx a).
Proof.
  unfold Approve, bounded, failed, orFail. begin_step l.
  destruct (Approval_Validate a) as [[]|e] eqn:Hv; repeat wp_step; [|stay].
  destruct (_ || _) eqn:Hb; repeat wp_step; [stay|].
  apply wp_advance.
  - intros j' t Hj. repeat wp_step. split; [|done].
    next_step l Hj StateApproved (run_with_approval a run).
    + repeat apply orb_false in Hb as [Hb ?]. rewrite !negb_false_iff in *.
      rewrite !eqs_true in *. destruct Hinv as (Hc & Hsim & _).
      by_rank; [by apply Hc; lia|by apply Hsim; lia|]. repeat split; simpl; try done; lia.
    + by_rank. done.
  - intros e j' t Hj. red. split; [|by left]. unfold life_inv in *. simpl.
    change (recordsOf (set_journal j' l)) with (journal_view j'). destruct Hj as [->|[He ->]]; [done|].
    rewrite Ho, Hrun, Hs, insert_singleton_eq. apply inv_active; [done..|by right|done|]. by_rank. done.
Qed.

Lemma Reserve_ok ctx k : step_ok StateApproved StateReserved (Reserve clock wall timeouts ctx k).
Proof.
  unfold Reserve, bounded, failed, orFail. begin_step l.
  destruct (ReservationKey_Validate k) as [[]|e] eqn:Hv; repeat wp_step; [|stay].
  destruct (_ || _) eqn:Hb; repeat wp_step; [stay|].
  apply wp_zoom. eapply wp_mono; [apply store_reserve|].
  intros [res|e] s' [_ Hres]; repeat wp_step; [|failing l].
  destruct (Reservation_Replayed res) eqn:Hrep; repeat wp_step; [failing l|].
  destruct Hres as (Hkey & _ & Hfresh). destruct (Hfresh eq_refl) as (Htok & _).
  apply wp_advance; [|intros e j' t Hj; red; failing l]. intros j' t Hj. repeat wp_step. split; [|done].
  next_step l Hj StateReserved (run_with_reservation (Reservation_Token res) run).
  apply orb_false in Hb as [E1 E2]. apply negb_false_iff in E1, E2. apply eqs_true in E1.
    destruct Hinv as (Hc & Hsim & Happ & _). by_rank; [by apply Hc; lia|by apply Hsim; lia|by apply Happ; lia|].
    split; [done|]. split; [done|]. simpl. rewrite Hkey. split; [done|lia].
Qed.

(** The entry after an advance. *)
Lemma advanced (l : L) run r x j' :
  open (recordsOf l) = {[ runIdentity run := r ]} ->
  open (journal_view j') = <[ runIdentity run := x ]> (open (recordsOf l)) ->
  open (recordsOf (set_journal j' l)) = {[ runIdentity run := x ]}.
Proof. intros Ho Hj. change (recordsOf (set_journal j' l)) with (journal_view j'). by rewrite Hj, Ho, insert_singleton_eq. Qed.

Lemma Apply_ok ctx : step_ok StateReserved StateApplied (Apply clock wall timeouts ctx).
Proof.
  unfold Apply, bounded, failed, orFail. begin_step l.
  apply wp_onDriver. intros [current|e] d'; repeat wp_step; [|failing l].
  destruct (Snapshot_Digest current) as [digest|e] eqn:Hd; repeat wp_step; [|failing l].
  destruct (negb (eqs digest (run_digest run))) eqn:Hdrift; repeat wp_step; [failing l|].
  apply wp_advance; [|intros e j' t Hj; red; failing l]. intros j1 t1 Hj1. repeat wp_step.
  pose proof (advanced l _ _ _ j1 Ho Hj1) as Ho1. set (l1 := set_journal j1 l) in *.
  apply wp_onDriver. intros [receipt|e] d2; repeat wp_step; [|failing l1].
  destruct (ApplyReceipt_Validate receipt) as [[]|e] eqn:Hv; repeat wp_step; [|failing l1].
  destruct (receiptBound run receipt) eqn:Hb; simpl; repeat wp_step; [|failing l1].
  apply wp_advance; [|intros e j' t Hj; red; failing l1]. intros j2 t2 Hj2. repeat wp_step. split; [|done].
  next_step l1 Hj2 StateApplied (run_with_receipt receipt run).
  - destruct Hinv as (Hc & Hsim & Happ & Hres & _).
    by_rank; [by apply Hc; lia|by apply Hsim; lia|by apply Happ; lia|by apply Hres; lia|done].
  - destruct Hinv as (_ & Hsim & _ & Hres & _). destruct (Hsim ltac:(cbn; lia)) as (o & Hop & _).
    destruct (Hres ltac:(cbn; lia)) as (Hr & _). by_rank; simpl; [by rewrite Hop|by rewrite Hr].
Qed.

Lemma Verify_ok ctx : step_ok StateApplied StateVerified (Verify wall timeouts ctx).
Proof.
  unfold Verify, bounded, failed, orFail. begin_step l.
  apply wp_onDriver. intros [v|e] d'; repeat wp_step; [|failing l].
  destruct (VerificationResult_Validate v) as [[]|e] eqn:Hv; repeat wp_step; [|failing l].
  destruct (_ || _) eqn:Hb; repeat wp_step; [failing l|]. split; [|done].
  apply orb_false in Hb as [E1 E2]. apply negb_false_iff in E1, E2. apply eqs_true in E2.
  specialize (Hst ltac:(done)). apply (inv_next _ StateVerified (run_with_verification v run) r); try done.
  - destruct Hinv as (Hc & Hsim & Happ & Hres & Hm & _).
    by_rank; [by apply Hc; lia|by apply Hsim; lia|by apply Happ; lia|by apply Hres; lia|by apply Hm; lia|done].
  - destruct Hdata as [H1 H2]. by_rank; [apply H1|apply H2]; lia.
Qed.

Lemma LRecord_ok ctx : step_ok StateVerified StateRecorded (LRecord clock wall timeouts ctx).
Proof.
  unfold LRecord, bounded, failed, orFail. begin_step l.
  apply wp_advance; [|intros e j' t Hj; red; failing l]. intros j1 t1 Hj1. repeat wp_step.
  pose proof (advanced l _ _ _ j1 Ho Hj1) as Ho1. set (l1 := set_journal j1 l) in *.
  simpl eachM. repeat wp_step.
  apply wp_appendReceipt. intros [[]|e] c1; repeat wp_step; [|failing l1].
  apply wp_appendReceipt. intros [[]|e] c2; repeat wp_step; [|failing l1].
  split; [|done]. eapply (inv_next _ StateRecorded run); [exact Ho1|done..| |].
  - destruct Hinv as (Hc & Hsim & Happ & Hres & Hm & Hver).
    by_rank; [by apply Hc; lia|by apply Hsim; lia|by apply Happ; lia|by apply Hres; lia|by apply Hm; lia|by apply Hver; lia].
  - destruct Hinv as (_ & Hsim & _ & Hres & _). destruct (Hsim ltac:(cbn; lia)) as (o & Hop & _).
    destruct (Hres ltac:(cbn; lia)) as (Hr & _). by_rank; simpl; [by rewrite Hop|by rewrite Hr].
Qed.

Lemma Commit_ok ctx : step_ok StateRecorded StateCommitted (Commit clock wall timeouts ctx).
Proof.
  unfold Commit, commit, bounded, failed, orFail. begin_step l.
  destruct (ContentDigest _) as [digest|e]; repeat wp_step; [|failing l].
  apply wp_appendReceipt. intros [[]|e] c1; repeat wp_step; [|failing l].
  apply wp_onReservations. intros [[]|e] s1; repeat wp_step; [|failing l].
  assert (delete (runIdentity run) (open (recordsOf l)) = ∅) as Hdel by (by rewrite Ho, delete_singleton_eq).
  apply wp_finish_run; [intros j' Hj; repeat wp_step|intros e j' Hj; red]; (split; [|first [done|by right]]).
  - unfold life_inv. simpl. change (recordsOf _) with (journal_view j'). rewrite Hj, Hrun.
    change (recordsOf _) with (recordsOf l). rewrite Hdel. apply inv_done; auto.
  - eapply (inv_fail l); [exact Hj|by left|exact Ho|done|exact Hrun|done].
Qed.

(** ** Opening, aborting, recovering *)

(** What the driver, the stores and the receipts cannot touch. *)
Definition core (l l' : L) : Prop := recordsOf l' = recordsOf l /\ L_run l' = L_run l /\ L_state l' = L_state l.

Lemma core_driver {A} l (m : M D A) : keeps (core l) (onDriver m).
Proof. apply keeps_zoom. intros l' Hl. eapply wp_mono; [apply wp_any|]. by intros. Qed.
Lemma core_reservations {A} l (m : M R A) : keeps (core l) (onReservations m).
Proof. apply keeps_zoom. intros l' Hl. eapply wp_mono; [apply wp_any|]. by intros. Qed.
Lemma core_receipts {A} l (m : M C A) : keeps (core l) (onReceipts m).
Proof. apply keeps_zoom. intros l' Hl. eapply wp_mono; [apply wp_any|]. by intros. Qed.
Hint Resolve core_driver core_reservations core_receipts : keeps.
Lemma core_appendReceipt l ctx r : keeps (core l) (appendReceipt ctx r).
Proof. unfold appendReceipt. repeat keeps_step. Qed.
Hint Resolve core_appendReceipt : keeps.
Lemma core_revert l ctx run reason : keeps (core l) (revert timeouts ctx run reason).
Proof. unfold revert. repeat keeps_step. Qed.
Lemma core_recoverVerify l ctx receipt : keeps (core l) (recoverVerify ctx receipt).
Proof. unfold recoverVerify. repeat keeps_step. Qed.

(** The effect on the open entries of a method that ends by closing one. *)
Definition closes (i : JournalIdentity) (l : L) {A} (res : result A) (l' : L) : Prop :=
  L_run l' = L_run l /\ L_state l' = L_state l /\
  match res with
  | Ok _ => open (recordsOf l') = delete i (open (recordsOf l))
  | Err _ => left_behind exact (delete i (open (recordsOf l))) (recordsOf l) (recordsOf l')
  end.

Lemma core_closes i l l' {A} (res : result A) l'' : core l l' -> closes i l' res l'' -> closes i l res l''.
Proof. intros (Hr & Hrun & Hs) (Hrun' & Hs' & Hp). unfold closes. rewrite <- Hr, <- Hrun, <- Hs. done. Qed.

Lemma core_failed i l l' {A} e : core l l' -> closes i l (Err (A := A) e) l'.
Proof. intros (Hr & Hrun & Hs). split; [done|]. split; [done|]. by left. Qed.

(** Closing never adds an entry. *)
Lemma closes_subseteq i l {A} (res : result A) l' : closes i l res l' -> open (recordsOf l') ⊆ open (recordsOf l).
Proof.
  intros (_ & _ & Hp). destruct res; [rewrite Hp; apply delete_subseteq|].
  destruct Hp as [->|[_ ->]]; [done|apply delete_subseteq].
Qed.

Lemma finish_closes ctx run step own digest l :
  wp (finish clock ctx run step own digest) (closes (runIdentity run) l) l.
Proof. apply wp_finish_run; [intros j' Hj|intros e j' Hj]; (split; [done|]; split; [done|exact Hj]). Qed.

Lemma commit_closes ctx run reason l : wp (commit clock ctx run reason) (closes (runIdentity run) l) l.
Proof.
  unfold commit. repeat wp_step. destruct (ContentDigest _) as [digest|e]; repeat wp_step; [|by apply core_failed].
  eapply wp_mono; [by apply (core_appendReceipt l)|]. intros [[]|e] l1 H1; repeat wp_step; [|by apply core_failed].
  eapply wp_mono; [by apply (core_reservations l)|]. intros [[]|e] l2 H2; repeat wp_step; [|by apply core_failed].
  eapply wp_mono; [apply finish_closes|]. intros res l3 H3. by eapply core_closes.
Qed.

Lemma rollback_closes ctx run reason l : wp (rollback clock timeouts ctx run reason) (closes (runIdentity run) l) l.
Proof.
  unfold rollback. repeat wp_step.
  eapply wp_mono; [by apply (core_revert l)|]. intros [reverted|e] l1 H1; repeat wp_step; [|by apply core_failed].
  eapply (wp_mono _ (fun _ l' => core l l')).
  { destruct (run_reserved run); [by apply core_reservations|by apply wp_ret]. }
  intros [[]|e] l2 H2; repeat wp_step; [|by apply core_failed].
  eapply wp_mono; [apply finish_closes|]. intros [[]|e] l3 H3; repeat wp_step; by eapply core_closes.
Qed.

Lemma Begin_ok ctx ref l : life_inv l ->
  wp (Begin clock wall timeouts ctx ref) (fun res l' => life_inv l' /\
    match res with
    | Ok _ => active l = false /\ open (recordsOf l) = ∅ /\ L_state l' = StateBegun
    | Err _ => L_state l' = L_state l
    end) l.
Proof.
  intros Hi. unfold Begin, bounded. repeat wp_step.
  destruct (PlanRef_Validate ref) as [[]|e]; repeat wp_step; [|done].
  destruct (active l) eqn:Ha; repeat wp_step; [done|].
  assert (forall j', journal_view j' = recordsOf l -> life_inv (set_journal j' l)) as Hsame.
  { intros j' Hj. unfold life_inv in *. change (recordsOf (set_journal j' l)) with (journal_view j'). by rewrite Hj. }
  apply wp_inFlight. intros [x|e] j0 Hj0 Hx; repeat wp_step; [|by split; [apply Hsame|]].
  specialize (Hx x eq_refl) as ->. destruct (0 <? len (inFlight (recordsOf l))) eqn:Hl; repeat wp_step;
    [by split; [apply Hsame|]|].
  assert (open (recordsOf l) = ∅) as Hempty.
  { apply inFlight_nil. destruct (inFlight (recordsOf l)); [done|]. done. }
  apply wp_begin_run.
  - intros j' Hj. repeat wp_step. split; [|done]. change (recordsOf (set_journal j0 l)) with (journal_view j0) in Hj.
    rewrite Hj0, Hempty in Hj.
    eapply (inv_next _ StateBegun (newRun ref)); [exact Hj|try done; by_rank..].
  - intros e j' Hj. red. split; [|done]. change (recordsOf (set_journal j0 l)) with (journal_view j0) in Hj.
    rewrite Hj0, Hempty in Hj. destruct Hj as [Hj|[He Hj]]; [by apply (Hsame j')|].
    unfold life_inv, active in *. change (recordsOf _) with (journal_view j'). simpl. rewrite Hj.
    destruct (L_run l) as [run|]; [|constructor]. apply negb_false_iff in Ha.
    apply inv_done; [exact Ha| |right; split; [exact He|]].
    2: { match goal with |- only_begun (<[ _ := ?x ]> ∅) => by exists x end. }
    intros Hs. rewrite Hs in Hi. inversion Hi as [|o s run' _ Hcom _| |]; [by apply Hcom|congruence..].
Qed.

Lemma Rollback_ok ctx l : life_inv l ->
  wp (Rollback clock wall timeouts ctx) (fun res l' => life_inv l' /\
    match res with
    | Ok _ => active l = true /\ L_state l' = StateRolledBack
    | Err _ => L_state l' = L_state l \/ L_state l' = StateFailed
    end) l.
Proof.
  intros Hi. unfold Rollback, bounded, orFail. repeat wp_step.
  destruct (L_run l) as [run|] eqn:Hrun; [|repeat wp_step; split; [done|by left]].
  destruct (LifecycleState_Terminal (L_state l)) eqn:Ht; repeat wp_step; [split; [done|by left]|].
  assert ((exists r, open (recordsOf l) = {[ runIdentity run := r ]} /\ Identity r = runIdentity run) \/
    (exact = false /\ open (recordsOf l) = ∅)) as Ho.
  { unfold life_inv in Hi. rewrite Hrun in Hi. inversion Hi; subst; [congruence|done|by left; eauto]. }
  assert (delete (runIdentity run) (open (recordsOf l)) = ∅) as Hdel.
  { destruct Ho as [(r & -> & _)|[_ ->]]; [apply delete_singleton_eq|apply delete_empty]. }
  eapply wp_mono; [apply rollback_closes|]. intros [receipt|e] l' (Hrun' & Hs' & Hc); repeat wp_step.
  - split; [|split; [unfold active; by rewrite Hrun, Ht|done]].
    unfold life_inv. simpl. change (recordsOf (set_state StateRolledBack l')) with (recordsOf l').
    rewrite Hc, Hdel, Hrun', Hrun. apply inv_done; auto. done.
  - split; [|by right]. unfold life_inv. simpl. change (recordsOf (set_state StateFailed l')) with (recordsOf l').
    rewrite Hrun', Hrun. apply inv_failed. destruct Hc as [->|[He ->]]; [done|by right].
Qed.

(** A recovered entry is closed under its own identity. *)
Lemma recoveredRun_identity entry run : recoveredRun entry = Ok run -> runIdentity run = Identity entry.
Proof.
  unfold recoveredRun. intros [run' [Hr Hrun]]%rbind_Ok. injection Hrun as <-.
  assert (runIdentity run' = Identity entry) as Hid.
  { revert Hr. case_bool_decide; [|by intros [= <-]]. intros [d [_ Hr]]%rbind_Ok. by injection Hr as <-. }
  by destruct (eqs _ _).
Qed.

Lemma recoverEntry_closes ctx records entry l :
  wp (recoverEntry clock timeouts ctx records entry) (closes (Identity entry) l) l.
Proof.
  unfold recoverEntry. repeat wp_step. destruct (recoveredRun entry) as [run|e] eqn:Hr; repeat wp_step; [|by apply core_failed].
  apply recoveredRun_identity in Hr. rewrite <- Hr.
  assert (forall reason (k : RollbackReceipt -> RecoveredOperation * string) run', runIdentity run' = runIdentity run -> forall l',
    core l l' -> wp (let! receipt := rollback clock timeouts ctx run' reason in retM (k receipt)) (closes (runIdentity run) l) l') as Hroll.
  { intros reason k run' Hrun' l' Hl'. repeat wp_step. eapply wp_mono; [apply rollback_closes|]. rewrite Hrun'.
    intros [x|e] l'' Hc; repeat wp_step; by eapply core_closes. }
  destruct (Record_Step entry); try by eapply Hroll.
  all: destruct (_ || _); repeat wp_step; [by apply core_failed|]; unfold recoverApplied; repeat wp_step.
  all: eapply wp_mono; [by apply (core_recoverVerify l)|]; intros [[v|]|e] l1 H1; repeat wp_step;
    [|eapply wp_mono; [apply rollback_closes|]; intros [x|e] l2 H2; repeat wp_step; by eapply core_closes|by apply core_failed].
  all: simpl eachM; repeat wp_step.
  all: eapply wp_mono; [by apply (core_appendReceipt l)|]; intros [[]|e] l2 H2; repeat wp_step; [|by apply core_failed].
  all: eapply wp_mono; [by apply (core_appendReceipt l)|]; intros [[]|e] l3 H3; repeat wp_step; [|by apply core_failed].
  all: eapply wp_mono; [apply commit_closes|]; intros [[]|e] l4 H4; repeat wp_step; by eapply core_closes.
Qed.

(** Recovery closes every entry it lists, or stops at an error; it never moves
    the machine. *)
Lemma Recover_drains ctx l :
  wp (Recover clock wall timeouts ctx) (fun res l' =>
    L_run l' = L_run l /\ L_state l' = L_state l /\
    (open (recordsOf l') ⊆ open (recordsOf l) /\ (active l = true -> recordsOf l' = recordsOf l)) /\
    forall report, res = Ok report -> active l = false /\ open (recordsOf l') = ∅ /\
      length (Recovery_Operations report) = length (inFlight (recordsOf l))) l.
Proof.
  unfold Recover, bounded. repeat wp_step. destruct (active l) eqn:Ha; repeat wp_step; [done|].
  assert (forall e l', core l l' -> L_run l' = L_run l /\ L_state l' = L_state l /\
    (open (recordsOf l') ⊆ open (recordsOf l) /\ (false = true -> recordsOf l' = recordsOf l)) /\
    forall report, Err (A := RecoveryReport) e = Ok report -> false = false /\ open (recordsOf l') = ∅ /\
      length (Recovery_Operations report) = length (inFlight (recordsOf l))) as Hstop.
  { intros e l' (Hr & Hrun & Hs). by rewrite Hr. }
  apply wp_inFlight. intros [x|e] j0 Hj0 Hx; repeat wp_step; [|by apply Hstop].
  specialize (Hx x eq_refl) as ->. destruct (len (inFlight (recordsOf l)) =? 0) eqn:Hl; repeat wp_step.
  { assert (inFlight (recordsOf l) = []) as Hnil by (by destruct (inFlight (recordsOf l))).
    change (recordsOf (set_journal j0 l)) with (journal_view j0). rewrite Hj0. do 3 (split; [done|]).
    intros report [= <-]. rewrite Hnil. split; [done|]. split; [|done]. by apply inFlight_nil. }
  apply wp_records. intros records j1 Hj1. change (recordsOf (set_journal j0 l)) with (journal_view j0) in Hj1. rewrite Hj0 in Hj1.
  destruct records as [records|e]; repeat wp_step; [|by apply Hstop].
  apply wp_onDriver. intros [r|e] d1; repeat wp_step; [|by apply Hstop].
  set (l1 := set_driver d1 _).
  assert (recordsOf l1 = recordsOf l) as Hr1 by exact Hj1.
  eapply wp_mono; [apply (wp_eachM _
    (fun pending l' => L_run l' = L_run l /\ L_state l' = L_state l /\ open (recordsOf l') ⊆ open (recordsOf l) /\
       forall i, is_Some (open (recordsOf l') !! i) -> i ∈ Identity <$> pending)
    (fun _ l' => L_run l' = L_run l /\ L_state l' = L_state l /\ open (recordsOf l') ⊆ open (recordsOf l)))|].
  - rewrite Hr1. do 3 (split; [done|]). intros i [x Hx'].
    pose proof (open_identity _ _ _ Hx') as <-. apply list_elem_of_fmap. exists x. split; [done|]. by apply inFlight_elem.
  - intros entry pending l' (Hrun & Hs & Hsub & Ho). eapply wp_mono; [apply recoverEntry_closes|].
    intros res l2 Hc. pose proof (closes_subseteq _ _ _ _ Hc) as Hsub2. destruct Hc as (Hrun2 & Hs2 & Hc).
    destruct res as [o|e]; (split; [congruence|]; split; [congruence|]); [|by etrans].
    split; [by etrans|]. intros i Hi. rewrite Hc in Hi. destruct Hi as [y [Hne' Hy]%lookup_delete_Some].
    specialize (Ho i (ex_intro _ y Hy)). rewrite fmap_cons in Ho. set_solver.
  - intros [os|e] l2 Hp; repeat wp_step; [|by destruct Hp as (? & ? & ?)].
    destruct Hp as [(Hrun & Hs & Hsub & Ho) Hlen].
    destruct (RecoveryReport_Validate _); repeat wp_step; (do 2 (split; [done|]); split; [by split|]); [|done].
    intros report [= <-]. split; [done|]. split.
    + apply map_empty. intros i. destruct (open (recordsOf l2) !! i) eqn:E; [|done].
      specialize (Ho i ltac:(by eexists)). set_solver.
    + simpl. rewrite length_fmap. done.
Qed.

(** Below one entry there is that entry or none. *)
Lemma subseteq_singleton (o : gmap JournalIdentity JournalRecord) i r : o ⊆ {[ i := r ]} -> o = ∅ \/ o = {[ i := r ]}.
Proof.
  intros Ho. assert (forall k y, o !! k = Some y -> k = i /\ y = r) as Hk.
  { intros k y Ek. by pose proof (lookup_weaken _ _ _ _ Ek Ho) as [<- <-]%lookup_singleton_Some. }
  destruct (o !! i) as [x|] eqn:E; [right|left]; apply map_eq; intros k; destruct (o !! k) as [y|] eqn:Ek; rewrite ?Ek.
  - destruct (Hk _ _ Ek) as [-> ->]. by rewrite lookup_singleton_eq.
  - rewrite lookup_singleton_ne; [done|]. congruence.
  - destruct (Hk _ _ Ek) as [-> _]. congruence.
  - by rewrite lookup_empty.
Qed.

Lemma Recover_ok ctx l : life_inv l ->
  wp (Recover clock wall timeouts ctx) (fun res l' => life_inv l' /\ L_state l' = L_state l) l.
Proof.
  intros Hi. eapply wp_mono; [apply Recover_drains|]. intros res l' (Hrun & Hs & Hnil & Hok).
  split; [|done]. unfold life_inv in *. rewrite Hrun, Hs.
  destruct (L_run l) as [run|] eqn:Hr; [|constructor]. destruct Hnil as [Hsub Hact].
  destruct (LifecycleState_Terminal (L_state l)) eqn:Ht.
  - inversion Hi as [|o s run' _ Hcom Ho|o run' Ho Eo Es|]; [|by rewrite <- Es in Ht|congruence]. subst.
    apply inv_done; [done..|].
    destruct Ho as [Ho|[He (r & Ho & Hb)]]; rewrite Ho in Hsub.
    + left. apply map_empty. intros k. destruct (open (recordsOf l') !! k) eqn:E; [|done].
      by pose proof (lookup_weaken _ _ _ _ E Hsub).
    + apply subseteq_singleton in Hsub as [->| ->]; [by left|right]. split; [done|]. by exists r.
  - rewrite Hact; [done|]. unfold active. by rewrite Hr, Ht.
Qed.

Lemma Health_ok ctx l : life_inv l ->
  wp (Health clock ctx) (fun res l' => life_inv l' /\ L_state l' = L_state l) l.
Proof.
  intros Hi. unfold Health. repeat wp_step; [|done]. apply wp_inFlight. intros r j' Hj _. repeat wp_step.
  assert (life_inv (set_journal j' l)) as Hi'.
  { unfold life_inv in *. change (recordsOf (set_journal j' l)) with (journal_view j'). by rewrite Hj. }
  destruct r as [[|]|]; repeat wp_step; try done. by apply wp_onDriver.
Qed.

(** ** Any sequence of operations *)

(** Where an operation may succeed from, and where it then ends. *)
Definition allowed (op : operation) (l : L) (s' : LifecycleState) : Prop :=
  match op with
  | OpBegin _ => active l = false /\ open (recordsOf l) = ∅ /\ s' = StateBegun
  | OpCapture _ => L_state l = StateBegun /\ s' = StateCaptured
  | OpSimulate _ => L_state l = StateCaptured /\ s' = StateSimulated
  | OpApprove _ => L_state l = StateSimulated /\ s' = StateApproved
  | OpReserve _ => L_state l = StateApproved /\ s' = StateReserved
  | OpApply => L_state l = StateReserved /\ s' = StateApplied
  | OpVerify => L_state l = StateApplied /\ s' = StateVerified
  | OpRecord => L_state l = StateVerified /\ s' = StateRecorded
  | OpCommit => L_state l = StateRecorded /\ s' = StateCommitted
  | OpRollback => active l = true /\ s' = StateRolledBack
  | OpHealth | OpRecover => s' = L_state l
  end.

Lemma perform_ok ctx op l : life_inv l ->
  wp (perform ctx op) (fun res l' => life_inv l' /\
    match res with
    | Ok _ => allowed op l (L_state l')
    | Err _ => L_state l' = L_state l \/ L_state l' = StateFailed
    end) l.
Proof.
  intros Hi.
  assert (forall A (m : M L A) (P : result A -> L -> Prop) (Q : result unit -> L -> Prop),
    wp m P l -> (forall a l', P (Ok a) l' -> Q (Ok tt) l') -> (forall e l', P (Err e) l' -> Q (Err e) l') -> wp (forget m) Q l) as Hf.
  { intros A m P Q Hm HOk HErr. unfold forget. wp_step. eapply wp_mono; [exact Hm|].
    intros [a|e] l' HP; [apply wp_ret; eauto|by apply HErr]. }
  destruct op; simpl.
  - eapply wp_mono; [by apply Begin_ok|]. intros [] l' [? ?]; split; auto.
  - eapply Hf; [by apply Capture_ok|..]; by intros.
  - eapply Hf; [by apply Simulate_ok|..]; by intros.
  - eapply wp_mono; [by apply Approve_ok|]. by intros [].
  - eapply Hf; [by apply Reserve_ok|..]; by intros.
  - eapply Hf; [by apply Apply_ok|..]; by intros.
  - eapply Hf; [by apply Verify_ok|..]; by intros.
  - eapply wp_mono; [by apply LRecord_ok|]. by intros [].
  - eapply wp_mono; [by apply Commit_ok|]. by intros [].
  - eapply Hf; [by apply Rollback_ok|..]; by intros.
  - eapply Hf; [by apply Health_ok|..]; intros ? l' []; auto.
  - eapply Hf; [by apply Recover_ok|..]; intros ? l' []; auto.
Qed.
End Machine.
