(* ===== verification/LifecycleSpec.v ===== *)
(** * The lifecycle: what it promises

    Properties of every sequence of operations, arguments, contexts and ticks,
    for every driver, journal, reservation store and receipt store that obeys
    the laws of the interfaces. Some ask in addition that a failed write of the
    journal leaves nothing behind ([journal_atomic]), and say so. *)

From S2P Require Import Prelude Sha256 Digest Probe Contract ContractFacts Journal DriverStores Interfaces JournalFacts ContractSpec Lifecycle LifecycleFacts.
From stdpp Require Import base gmap list strings sorting.
From Stdlib Require Import ZArith Lia.

Open Scope Z_scope.

Section Promises.
Context {H : Hasher}.
Context {D J R C : Type}.
Context {DO : DriverOps D} {JO : JournalOps J} {RO : ReservationOps R} {CO : ReceiptOps C}.
Context {DL : DriverLaws D} {JL : JournalLaws J} {RL : ReservationLaws R}.
Context (clock wall : clockT) (timeouts : StepTimeouts).

Abbreviation L := (Lifecycle D J R C).
Abbreviation perform := (perform (C := C) clock wall timeouts).

(** ** Sequences of operations *)

Inductive life_step : L -> L -> Prop :=
| step_perform ctx op n l res n' l' : perform ctx op (n, l) = (res, (n', l')) -> life_step l l'.

(** A lifecycle built by [NewLifecycle], after any operations. *)
Definition life_reachable (l : L) : Prop :=
  exists config d j r c l0, NewLifecycle config d j r c = Ok (timeouts, l0) /\ rtc life_step l0 l.

(** Run a script of operations, each under its own context, and carry on
    after failures. *)
Definition exec (script : list (ctxT * operation)) (st : nat * L) : nat * L :=
  fold_left (fun st call => snd (perform (fst call) (snd call) st)) script st.

Lemma exec_steps script st : rtc life_step (snd st) (snd (exec script st)).
Proof.
  unfold exec. revert st. induction script as [|[ctx op] script IH]; intros [n l]; simpl; [constructor|].
  destruct (perform ctx op (n, l)) as [res [n' l']] eqn:E.
  eapply rtc_l; [by eapply step_perform|]. apply (IH (n', l')).
Qed.

Lemma NewLifecycle_Ok config d j r c t (l0 : L) :
  NewLifecycle config d j r c = Ok (t, l0) ->
  l0 = mkLifecycle d j r c StateIdle None /\ StepTimeouts_Validate t = Ok tt /\
  validIdentifier (Driver_Name d) = true /\ validIdentifier (Driver_Version d) = true /\
  PrivilegeBoundary_Validate (Driver_PrivilegeBoundary d) = Ok tt.
Proof.
  unfold NewLifecycle. intros Hn. validated Hn. injection Hn as <- <-.
  apply orb_false in Hv0 as [? ?]. by rewrite <- !negb_false_iff.
Qed.

Section Reachable.
Context (exact : bool) (atomic : exact = true -> journal_atomic J).

Lemma life_steps_inv l l' : rtc life_step l l' -> life_inv exact l -> life_inv exact l'.
Proof.
  induction 1 as [|l1 l2 l3 [ctx op n l1' res n' l2' E] _ IH]; [done|].
  intros Hi. apply IH. by apply (wp_run _ _ _ _ _ _ _ (perform_ok clock wall timeouts exact atomic ctx op l1' Hi) E).
Qed.

Lemma life_reachable_inv l : life_reachable l -> life_inv exact l.
Proof.
  intros (config & d & j & r & c & l0 & Hn & Hs). eapply life_steps_inv; [exact Hs|].
  apply NewLifecycle_Ok in Hn as [-> _]. constructor.
Qed.
End Reachable.

Lemma reachable_atomic l : journal_atomic J -> life_reachable l -> life_inv true l.
Proof. intros Ha. by apply life_reachable_inv. Qed.

Lemma reachable_any l : life_reachable l -> life_inv false l.
Proof. by apply life_reachable_inv. Qed.

(** C2. The machine, its run and its journal agree in every reachable state,
    over every journal that obeys the interface, the durable one included,
    whose failed write may have landed. While a run is active and has not
    failed the journal holds exactly one open entry, the run's own, with the
    target and reservation a recovery needs, at the step of the state (or, for
    a simulated run, at APPROVE, when the write of the approval failed after
    landing); the run carries the evidence of every step behind it. A failed
    run has its own entry open and no other, or none. A finished run has no
    open entry but that of a [Begin] that failed after landing, which has
    nothing to revert. Over a journal whose failed writes leave nothing behind
    the exceptions do not occur. *)
Theorem lifecycle_invariant l :
  life_reachable l -> life_inv false l /\ (journal_atomic J -> life_inv true l).
Proof. intros Hr. split; [by apply reachable_any|]. intros Ha. by apply reachable_atomic. Qed.

(** Steps happen in order: in every reachable state an operation succeeds
    only from the state before it, moves to the state after it, and a failure
    leaves the state or moves to [StateFailed], from which only [Rollback]
    succeeds. *)
Theorem order_enforced l ctx op :
  journal_atomic J -> life_reachable l ->
  wp (perform ctx op) (fun res l' =>
    match res with
    | Ok _ => allowed op l (L_state l')
    | Err _ => L_state l' = L_state l \/ L_state l' = StateFailed
    end) l.
Proof.
  intros Ha Hr. eapply wp_mono; [apply (perform_ok clock wall timeouts true (fun _ => Ha)), (reachable_atomic l Ha Hr)|]. by intros res l' [_ ?].
Qed.

(** Nothing is committed unproved: a lifecycle in [StateCommitted] carries a
    run whose capture was digested, whose simulation predicted success on that
    very digest, whose approval validates and names the same plan, operation
    and target, whose reservation token is the digest of a key for that plan
    revision, whose receipt carries the ownership token derived from them, and
    whose verification found the applied digest; and the journal is closed. *)
Theorem committed_run_complete l :
  journal_atomic J -> life_reachable l -> L_state l = StateCommitted ->
  forall run, L_run l = Some run ->
  run_captured run /\ run_simulated run /\ run_approved run /\ run_holds run /\ run_mutated run /\
  run_verified run /\ open (recordsOf l) = ∅.
Proof.
  intros Ha Hr Hs run Hrun. pose proof (reachable_atomic l Ha Hr) as Hi. unfold life_inv in Hi.
  rewrite Hs, Hrun in Hi. inversion Hi as [|o s' run' _ Hinv Ho| |]; subst; [|done].
  destruct Ho as [Ho|[? _]]; [|done].
  destruct (Hinv eq_refl) as (H1 & H2 & H3 & H4 & H5 & H6). cbn in *.
  repeat split; auto with lia; first [apply H1|apply H2|apply H3|apply H4|apply H5|apply H6]; lia.
Qed.

(** ** The gate in front of the host *)

(** What must be in place before the host is touched by an apply. *)
Definition gate (l l' : L) : Prop :=
  exists run r, L_state l = StateReserved /\ L_run l = Some run /\
    mutation_warrant (applyRequest timeouts run) /\
    run_captured run /\ run_simulated run /\ run_approved run /\ run_holds run /\
    (** The intent is on record: a restart will find it. *)
    open (recordsOf l') = {[ runIdentity run := r ]} /\
    (Record_Step r = StepApply \/ Record_Step r = StepVerify) /\
    Record_Target r = Approval_Target (run_approval run) /\
    Record_Reservation r = Token_Key (run_reservation run).

Lemma wp_drv {A} (m : M D A) Q (l : L) :
  (forall d, wp m (fun _ d' => driver_host d' = driver_host d) d) ->
  (forall res d', driver_host d' = hostOf l -> Q res (set_driver d' l)) -> wp (onDriver m) Q l.
Proof. intros Hm HQ. apply wp_zoom. eapply wp_mono; [apply Hm|]. intros res d' Hd. by apply HQ. Qed.

(** The two records of an apply carry the target and the reservation. *)
Lemma gate_record run r step own digest t :
  run_simulated run -> run_approved run -> run_holds run -> r = record run JournalKindAdvance step own digest t ->
  Record_Target r = Approval_Target (run_approval run) /\ Record_Reservation r = Token_Key (run_reservation run).
Proof.
  intros (o & Ho & _) (_ & _ & _ & _ & ->) (Hr & _) ->. simpl. by rewrite Hr, Ho.
Qed.

(** The gate is passed once the warrant holds and the entry of the run is at
    one of the two steps of an apply. *)
Lemma gate_entry l l' run run' x step own digest t :
  L_state l = StateReserved -> L_run l = Some run -> run_captured run -> run_simulated run -> run_approved run -> run_holds run ->
  mutation_warrant (applyRequest timeouts run) ->
  (run' = run \/ exists receipt, run' = run_with_receipt receipt run) ->
  x = record run' JournalKindAdvance step own digest t -> (step = StepApply \/ step = StepVerify) ->
  open (recordsOf l') = {[ runIdentity run := x ]} -> gate l l'.
Proof.
  intros Hs Hrun Hc Hsim Happ Hres Hw Hr Hx Hst Ho. destruct (gate_record run x step own digest t) as [E1 E2]; [done..| |].
  { by destruct Hr as [->|[receipt ->]]. }
  exists run, x. do 8 (split; [done|]). split; [by subst x|done].
Qed.

(** C1. The host is touched only through the gate: if [Apply] leaves the host
    different, whether it then succeeds, fails or is cut off, the machine was
    in [StateReserved] with a fully validated request for the approved,
    simulated and reserved operation, and the journal already holds the open
    entry, at APPLY or VERIFY, with the target and the reservation key from
    which a recovery derives the ownership token. The journal is any that
    obeys the interface, the durable one included: a write that fails after
    landing does not open the gate. *)
Theorem host_mutation_gated l ctx :
  life_reachable l ->
  wp (Apply clock wall timeouts ctx) (fun _ l' => hostOf l' <> hostOf l -> gate l l') l.
Proof.
  intros Hi%reachable_any. unfold Apply, bounded, failed, orFail. wp_step.
  apply (wp_require false); [try done..|]; [by intros e Hne|]. intros run r Hrun Hs Ho Hid Hst (Hc & Hsim & Happ & Hres & _) _.
  specialize (Hc ltac:(cbn; lia)). specialize (Hsim ltac:(cbn; lia)).
  specialize (Happ ltac:(cbn; lia)). specialize (Hres ltac:(cbn; lia)). repeat wp_step.
  apply wp_drv; [intros d; apply driver_capture_readonly|]. intros [current|e] d1 Hd1; repeat wp_step; [|done].
  destruct (Snapshot_Digest current) as [digest|e]; repeat wp_step; [|done].
  destruct (negb _); repeat wp_step; [done|].
  apply (wp_advance _ false ltac:(done)); [|by intros e j' t _ []]. intros j1 t1 Hj1. repeat wp_step.
  pose proof (advanced l _ _ _ j1 Ho Hj1) as Ho1.
  set (q := applyRequest timeouts run).
  apply wp_zoom. eapply wp_mono; [apply driver_apply_validates|]. fold q. intros res d2 Hd2.
  assert (driver_host d2 <> hostOf l -> mutation_warrant q) as Hw.
  { intros Hne. apply ApplyRequest_warrant. destruct (ApplyRequest_Validate q) as [[]|e] eqn:E; [done|].
    destruct Hne. rewrite Hd2; [exact Hd1|done]. }
  assert (forall l', recordsOf l' = journal_view j1 -> driver_host d2 <> hostOf l -> gate l l') as Happly.
  { intros l' Hl' Hne. eapply (gate_entry l l' run run); [done..|by apply Hw|by left|reflexivity|by left|]. rewrite Hl'. exact Ho1. }
  destruct res as [receipt|e]; repeat wp_step; [|by apply (Happly (set_state _ _))].
  destruct (ApplyReceipt_Validate receipt) as [[]|e]; repeat wp_step; [|by apply (Happly (set_state _ _))].
  destruct (negb (receiptBound run receipt)) eqn:Hb; repeat wp_step; [by apply (Happly (set_state _ _))|].
  assert (forall l' j2 t2, recordsOf l' = journal_view j2 ->
    open (journal_view j2) = <[ runIdentity run := record (run_with_receipt receipt run) JournalKindAdvance StepVerify
      (AReceipt_OwnershipToken receipt) (AReceipt_AppliedDigest receipt) t2 ]> (open (journal_view j1)) ->
    driver_host d2 <> hostOf l -> gate l l') as Hverify.
  { intros l' j2 t2 Hl' Hj2 Hne. eapply (gate_entry l l' run); [done..|by apply Hw|by right; exists receipt|reflexivity|by right|].
    rewrite Hl'. eapply (advanced (set_journal j1 l) run); [exact Ho1|exact Hj2]. }
  apply (wp_advance _ false ltac:(done)).
  - intros j2 t2 Hj2. repeat wp_step. eapply Hverify; [reflexivity|exact Hj2].
  - intros e j2 t2 [Hj2|[_ Hj2]]; red; [by apply Happly|]. eapply Hverify; [reflexivity|exact Hj2].
Qed.

(** ** Restarts and recovery *)

(** A new process over the same durable state, with a driver it opened anew. *)
Definition restarted (d : D) (l : L) : L :=
  mkLifecycle d (L_journal l) (L_reservations l) (L_receipts l) StateIdle None.

(** A crash is never forgotten: if a process dies while a run is active, in
    whatever state, the next process cannot begin any plan until the journal
    is recovered, and its attempts leave the host alone. *)
Theorem restart_refused l d ctx ref :
  journal_atomic J -> life_reachable l -> active l = true ->
  wp (Begin clock wall timeouts ctx ref)
     (fun res l' => is_ok res = false /\ hostOf l' = driver_host d) (restarted d l).
Proof.
  intros Ha Hr Hact.
  assert (open (recordsOf l) <> ∅) as Hne.
  { pose proof (reachable_atomic l Ha Hr) as Hi. unfold life_inv, active in *.
    destruct (L_run l) as [run|]; [|done]. apply negb_true_iff in Hact.
    inversion Hi as [| |? ? Hf|]; subst; [congruence| |apply map_non_empty_singleton].
    destruct Hf as [(r & -> & _)|[? _]]; [apply map_non_empty_singleton|done]. }
  intros n. pose proof (Begin_ok clock wall timeouts true (fun _ => Ha) ctx ref (restarted d l) (inv_none _ _ _) n) as H1.
  pose proof (atHost_Begin clock wall timeouts (driver_host d) ctx ref (restarted d l) eq_refl n) as H2.
  destruct (Begin _ _ _ _ _ _) as [[[]|e] [n' l']]; [|done]. by destruct H1 as (_ & _ & He & _).
Qed.

(** C3. Recovery is complete and idempotent: a recovery that returns has settled
    one operation per in-flight entry and left none in flight, so that a
    second recovery finds nothing to do and says so. *)
Theorem recovery_complete l ctx ctx' :
  wp (let! first := Recover clock wall timeouts ctx in
      let! second := Recover clock wall timeouts ctx' in
      retM (first, second))
     (fun res l' => forall first second, res = Ok (first, second) ->
        length (Recovery_Operations first) = length (inFlight (recordsOf l)) /\
        Recovery_Operations second = [] /\ inFlight (recordsOf l') = []) l.
Proof.
  repeat wp_step. eapply wp_mono; [apply (Recover_drains _ _ _ false ltac:(done))|].
  intros [first|e] l1 (_ & _ & _ & H1); repeat wp_step; [|done]. destruct (H1 first eq_refl) as (_ & Ho & Hlen).
  eapply wp_mono; [apply (Recover_drains _ _ _ false ltac:(done))|]. intros [second|e] l2 (_ & _ & _ & H2); repeat wp_step; [|done].
  intros ? ? [= <- <-]. destruct (H2 second eq_refl) as (_ & Ho2 & Hlen2). apply inFlight_nil in Ho, Ho2.
  rewrite Ho in Hlen2. split; [done|]. split; [by apply nil_length_inv|done].
Qed.

(** ** Replays *)

Definition granted (p : string) (l : L) : Prop := store_granted (L_reservations l) p.

Lemma granted_driver {A} p (m : M D A) : keeps (granted p) (onDriver m).
Proof. apply keeps_zoom. intros l Hl. eapply wp_mono; [apply wp_any|]. by intros. Qed.
Lemma granted_journal {A} p (m : M J A) : keeps (granted p) (onJournal m).
Proof. apply keeps_zoom. intros l Hl. eapply wp_mono; [apply wp_any|]. by intros. Qed.
Lemma granted_receipts {A} p (m : M C A) : keeps (granted p) (onReceipts m).
Proof. apply keeps_zoom. intros l Hl. eapply wp_mono; [apply wp_any|]. by intros. Qed.
Lemma granted_reserve p ctx key : keeps (granted p) (onReservations (Store_Reserve ctx key)).
Proof. apply keeps_zoom. intros l Hl. eapply wp_mono; [apply store_reserve|]. intros r s' [Hm _]. by apply Hm. Qed.
Lemma granted_release p ctx token terminal res : keeps (granted p) (onReservations (Store_Release ctx token terminal res)).
Proof. apply keeps_zoom. intros l Hl. eapply wp_mono; [apply store_release|]. intros r s' Hm. by apply Hm. Qed.
Hint Resolve granted_driver granted_journal granted_receipts granted_reserve granted_release : keeps.

Lemma granted_rollback p ctx run reason : keeps (granted p) (rollback clock timeouts ctx run reason).
Proof. unfold rollback, revert, finish, appendReceipt. repeat keeps_step. Qed.
Lemma granted_commit p ctx run reason : keeps (granted p) (commit clock ctx run reason).
Proof. unfold commit, finish, appendReceipt. repeat keeps_step. Qed.
Hint Resolve granted_rollback granted_commit : keeps.
Lemma granted_recoverEntry p ctx records entry : keeps (granted p) (recoverEntry clock timeouts ctx records entry).
Proof. unfold recoverEntry, recoverApplied, recoverVerify, appendReceipt. repeat keeps_step. Qed.
Hint Resolve granted_recoverEntry : keeps.

Lemma granted_perform p ctx op : keeps (granted p) (perform ctx op).
Proof.
  destruct op; simpl; unfold forget, Begin, Capture, Simulate, Approve, Reserve, Apply, Verify, LRecord, Commit,
    Rollback, Health, Recover, require, advance, appendReceipt, bounded, failed, orFail; repeat keeps_step.
Qed.

Lemma granted_steps p l l' : rtc life_step l l' -> granted p l -> granted p l'.
Proof.
  induction 1 as [|l1 l2 l3 [ctx op n l1' res n' l2' E] _ IH]; [done|].
  intros Hg. apply IH. by apply (wp_run _ _ _ _ _ _ _ (granted_perform p ctx op l1' Hg) E).
Qed.

(** A reservation that succeeds grants a plan that was not granted before. *)
Lemma Reserve_grants ctx key l :
  wp (Reserve clock wall timeouts ctx key) (fun res l' =>
    is_ok res = true -> ~ granted (Key_PlanID key) l /\ granted (Key_PlanID key) l') l.
Proof.
  unfold Reserve, require, bounded, failed, orFail. repeat wp_step.
  destruct (L_run l) as [run|]; repeat wp_step; [|done]. case_bool_decide; repeat wp_step; [|done].
  destruct (ReservationKey_Validate key) as [[]|e]; repeat wp_step; [|done].
  destruct (_ || _); repeat wp_step; [done|].
  apply wp_zoom. eapply wp_mono; [apply store_reserve|]. intros [res|e] s' [_ Hr]; repeat wp_step; [|done].
  destruct (Reservation_Replayed res) eqn:Hrep; repeat wp_step; [done|].
  destruct Hr as (_ & _ & Hfresh). destruct (Hfresh eq_refl) as (_ & Hn & Hg).
  unfold advance. repeat wp_step. apply wp_zoom. eapply wp_mono; [apply wp_any|].
  intros [[]|e] j' _; by repeat wp_step.
Qed.

(** A plan is reserved once: after a reservation succeeded for a plan, no
    sequence of operations, rollbacks and recoveries included, brings the
    machine to a state in which a reservation for the same plan id succeeds
    again. *)
Theorem plan_reserved_once ctx key n l token n1 l1 l2 ctx' key' :
  Reserve clock wall timeouts ctx key (n, l) = (Ok token, (n1, l1)) ->
  rtc life_step l1 l2 -> Key_PlanID key' = Key_PlanID key ->
  wp (Reserve clock wall timeouts ctx' key') (fun res _ => is_ok res = false) l2.
Proof.
  intros E Hs Hk.
  pose proof (wp_run _ _ _ _ _ _ _ (Reserve_grants ctx key l) E eq_refl) as [_ Hg].
  pose proof (granted_steps _ _ _ Hs Hg) as Hg2. eapply wp_mono; [apply Reserve_grants|].
  intros [a|e] l3 Hr; [|done]. destruct (Hr eq_refl) as [Hn _]. by rewrite Hk in Hn.
Qed.

(** ** Construction *)

(** A lifecycle is built only within bounds: it starts idle, every step
    timeout it will use is positive and at most two minutes (the defaults when
    none were given), the driver is named by bounded identifiers, and the
    driver declares a shell-free privilege boundary. *)
Theorem new_lifecycle_bounded config d j r c t (l0 : L) :
  NewLifecycle config d j r c = Ok (t, l0) ->
  l0 = mkLifecycle d j r c StateIdle None /\
  Forall (fun v => 0 < v <= MaxStepTimeout)
    [Timeout_Capture t; Timeout_Simulate t; Timeout_Reserve t; Timeout_Apply t; Timeout_Verify t;
     Timeout_Record t; Timeout_Rollback t] /\
  (config = mkTimeouts 0 0 0 0 0 0 0 -> t = DefaultStepTimeouts) /\
  validIdentifier (Driver_Name d) = true /\ validIdentifier (Driver_Version d) = true /\
  Boundary_ShellFree (Driver_PrivilegeBoundary d) = true.
Proof.
  intros Hn. pose proof Hn as (-> & Ht & ? & ? & Hb)%NewLifecycle_Ok. split; [done|]. split; [|split; [|split; [done|split; [done|]]]].
  - apply each_Ok in Ht. eapply Forall_impl; [exact Ht|]. intros v [Hv _]%reject_Ok. lia.
  - intros ->. unfold NewLifecycle in Hn. simpl in Hn. validated Hn. by injection Hn.
  - unfold PrivilegeBoundary_Validate in Hb. validated Hb. by apply negb_false_iff.
Qed.
End Promises.
