(* ===== verification/Runs.v ===== *)
(** * The lifecycle over the reference driver

    The parts put together: the lifecycle with the memory driver, journal,
    reservation store and receipt store, SHA-256 as the hash. Scripts of
    operations run by evaluation: the happy path, a crash inside the driver, a
    cancelled reservation, and the interruptions the machine does not recover
    from. The durable journal is shown to obey the laws of the interface, and
    the lifecycle runs over it with a write that lands and still fails. *)

From S2P Require Import Prelude Directory DirectoryFacts Sha256 Digest Probe Contract ContractFacts Journal DriverStores Interfaces JournalFacts ContractSpec JournalFile JournalFileFacts DriverStoreFacts Memory MemoryFacts MemorySpec Lifecycle LifecycleFacts LifecycleSpec.
From stdpp Require Import base gmap list strings sorting.
From Stdlib Require Import ZArith Lia.

Open Scope Z_scope.

(** ** The assembled agent core *)

#[local] Existing Instance sha256.
#[local] Instance run_driver : DriverOps (MemoryDriver MemoryJournal) := Memory_ops demo_marshal demo_clock demo_wall.
#[local] Instance run_driver_laws : DriverLaws (MemoryDriver MemoryJournal) := Memory_laws demo_marshal demo_clock demo_wall.
#[local] Instance run_store : ReservationOps MemoryReservationStore := MemoryReservation_ops demo_clock.
#[local] Instance run_store_laws : ReservationLaws MemoryReservationStore := MemoryReservation_laws demo_clock.

Abbreviation Agent := (Lifecycle (MemoryDriver MemoryJournal) MemoryJournal MemoryReservationStore MemoryReceiptStore).

Definition agent0 : Agent :=
  mkLifecycle demo_driver NewMemoryJournal (NewMemoryReservationStore 0 0) NewMemoryReceiptStore StateIdle None.

Definition agent_exec : list (ctxT * operation) -> nat * Agent -> nat * Agent :=
  exec demo_clock demo_wall DefaultStepTimeouts.
Definition agent_perform : ctxT -> operation -> M Agent unit :=
  perform demo_clock demo_wall DefaultStepTimeouts.

Definition live (ops : list operation) : list (ctxT * operation) := (fun op => (Background, op)) <$> ops.

(** A context that is cancelled from tick [k] on. *)
Definition cancelledAt (k : nat) : ctxT := fun n => if (k <=? n)%nat then Some Canceled else None.

(** The script of one plan operation. *)
Definition toReserved : list operation :=
  [OpBegin (mkRef "plan-1" 7 "op-1"); OpCapture (mkScope 1 ["inet/a"%string]);
   OpSimulate (Some demo_operation); OpApprove demo_approval; OpReserve demo_key].
Definition toRecorded : list operation := toReserved ++ [OpApply; OpVerify; OpRecord].

Definition reservedAgent : nat * Agent := agent_exec (live toReserved) (O, agent0).
Definition recordedAgent : nat * Agent := agent_exec (live toRecorded) (O, agent0).
Definition committedAgent : nat * Agent := agent_exec (live (toRecorded ++ [OpCommit])) (O, agent0).

Lemma agent0_new : NewLifecycle DefaultStepTimeouts demo_driver NewMemoryJournal (NewMemoryReservationStore 0 0)
  NewMemoryReceiptStore = Ok (DefaultStepTimeouts, agent0).
Proof. vm_compute. reflexivity. Qed.

Abbreviation agent_reachable := (life_reachable demo_clock demo_wall DefaultStepTimeouts).

Lemma agent_exec_reachable script : agent_reachable (snd (agent_exec script (O, agent0))).
Proof.
  exists DefaultStepTimeouts, demo_driver, NewMemoryJournal, (NewMemoryReservationStore 0 0), NewMemoryReceiptStore, agent0.
  split; [exact agent0_new|]. apply (exec_steps demo_clock demo_wall DefaultStepTimeouts script (O, agent0)).
Qed.

(** What an observer sees of an agent. *)
Definition summary (st : nat * Agent) : LifecycleState * list (ruleKey * string) * list Step * list (string * bool) :=
  (L_state (snd st), map_to_list (getRules (L_driver (snd st))),
   Record_Step <$> inFlight (MJ_state (L_journal (snd st))),
   (fun p => (fst p, rr_released (snd p))) <$> map_to_list (RS_records (L_reservations (snd st)))).

Definition demo_rule : ruleKey * string := (mkRuleKey 1 "inet/a", "firewall:e3b0c44298fc1c14"%string).

(** The happy path happens: from a new agent core over the reference driver,
    the nine operations in order, under a live context, end in
    [StateCommitted] with exactly the approved rule on the host, an empty
    journal of open entries, a released reservation and three receipts. *)
Theorem happy_path_commits :
  summary committedAgent = (StateCommitted, [demo_rule], [], [("plan-1"%string, true)]) /\
  Receipt_Kind <$> RC_receipts (L_receipts (snd committedAgent)) =
    [ReceiptKindApply; ReceiptKindVerify; ReceiptKindCommit].
Proof. split; vm_compute; reflexivity. Qed.

(** The rollback of a recorded run restores the host and settles everything. *)
Example rollback_restores :
  summary (agent_exec (live [OpRollback]) recordedAgent) = (StateRolledBack, [], [], [("plan-1"%string, true)]).
Proof. vm_compute. reflexivity. Qed.

(** ** The lifecycle over the durable journal

    The same core over [FileJournal]: a failed write may have landed, when the
    directory could not be synced after the rename. *)

Definition FileJournal_ops {JC : JournalCodec} (sysFails : nat -> bool) (contention : nat -> nat * bool) : JournalOps directory := {|
  Journal_Begin := FileJournal_Begin sysFails contention;
  Journal_Advance := FileJournal_Advance sysFails contention;
  Journal_Finish := FileJournal_Finish sysFails contention;
  Journal_InFlight := FileJournal_InFlight sysFails contention;
  Journal_Records := FileJournal_Records sysFails contention;
|}.

(** The codec carries every journal that passes the check. ([loads_journalNode]
    gives it for the instants of four-digit years.) *)
Definition codec_carries (JC : JournalCodec) : Prop :=
  forall rs, check rs = Ok tt -> len (encoded rs) <= maximumJournalBytes -> loads (Some (journalNode rs)) = Ok rs.

(** The records the file loads to, none when it does not load. *)
Definition file_view {JC : JournalCodec} (d : directory) : list JournalRecord :=
  match loads (dir_journal d) with Ok rs => rs | Err _ => [] end.

Section Durable.
Context {JC : JournalCodec} (carries : codec_carries JC).
Context (sysFails : nat -> bool) (contention : nat -> nat * bool).

Lemma file_view_same d d' : calm d d' -> file_view d' = file_view d.
Proof. intros (Hj & _). unfold file_view. by rewrite Hj. Qed.

Lemma FileJournal_write_law kind ctx r d :
  wp (FileJournal_write sysFails contention ctx (setKind kind r)) (fun res d' =>
    match res with
    | Ok _ => append (file_view d) (setKind kind r) = Ok (file_view d')
    | Err _ => file_view d' = file_view d \/ append (file_view d) (setKind kind r) = Ok (file_view d')
    end) d.
Proof.
  eapply wp_mono; [apply write_effect|]. intros res d' [[Hc [e ->]]|(rs & rs' & Hl & Ha & [_ Hs] & Hn)].
  { left. by apply file_view_same. }
  assert (file_view d = rs) as Hv by (unfold file_view; by rewrite Hl).
  assert (loads (Some (journalNode rs')) = Ok rs') as Hload.
  { apply carries; [|done]. eapply append_check; [by eapply loads_check|exact Ha]. }
  assert (dir_journal d' = Some (journalNode rs') -> file_view d' = rs') as Hnew by (unfold file_view; intros ->; by rewrite Hload).
  rewrite Hv. destruct res as [[]|e]; [rewrite Hnew; [done|apply Hs]|].
  destruct Hs as [_ [Hj|Hj]]; [left|right; by rewrite Hnew]. unfold file_view. by rewrite Hj, Hl.
Qed.

Lemma FileJournal_read_law ctx d :
  wp (FileJournal_read sysFails contention ctx) (fun res d' =>
    file_view d' = file_view d /\ forall l, res = Ok l -> l = file_view d) d.
Proof.
  eapply wp_mono; [apply read_spec|]. intros res d' [Hc Hr]. split; [by apply file_view_same|].
  intros l ->. unfold file_view. by rewrite (Hr l eq_refl).
Qed.

(** The durable journal obeys the interface. *)
Definition FileJournal_laws : @JournalLaws directory (FileJournal_ops sysFails contention).
Proof.
  refine {| journal_view := file_view : directory -> list JournalRecord |}.
  - intros ctx r d. apply (FileJournal_write_law JournalKindBegin).
  - intros ctx r d. apply (FileJournal_write_law JournalKindAdvance).
  - intros ctx r d. apply (FileJournal_write_law JournalKindFinish).
  - intros ctx d. simpl. unfold FileJournal_InFlight. wp_step. eapply wp_mono; [apply FileJournal_read_law|].
    intros [rs|e] d' [Hv Hr]; [|by split]. apply wp_ret. split; [done|]. intros l [= <-]. by rewrite (Hr rs eq_refl).
  - intros ctx d. apply FileJournal_read_law.
Defined.
End Durable.

Abbreviation DurableAgent := (Lifecycle (MemoryDriver MemoryJournal) directory MemoryReservationStore MemoryReceiptStore).

(** An agent core whose journal is the file, on a machine whose system calls
    fail as [sysFails] says. *)
Section DurableAgent.
Context (sysFails : nat -> bool).
#[local] Existing Instance digitsCodec.
#[local] Instance durable_journal : JournalOps directory := FileJournal_ops sysFails (fun _ => (0%nat, true)).
#[local] Instance durable_laws : JournalLaws directory := FileJournal_laws digits_carry sysFails (fun _ => (0%nat, true)).

Definition durable0 : DurableAgent :=
  mkLifecycle demo_driver freshDirectory (NewMemoryReservationStore 0 0) NewMemoryReceiptStore StateIdle None.
Definition durable_exec (ops : list operation) : nat * DurableAgent :=
  exec demo_clock demo_wall DefaultStepTimeouts (live ops) (O, durable0).
Definition durable_Apply : M DurableAgent ApplyReceipt := Apply demo_clock demo_wall DefaultStepTimeouts Background.
Definition durable_inv : DurableAgent -> Prop := life_inv false.
Definition durable_gate : DurableAgent -> DurableAgent -> Prop := gate DefaultStepTimeouts.
Definition durable_reachable : DurableAgent -> Prop := life_reachable demo_clock demo_wall DefaultStepTimeouts.

Lemma durable_exec_reachable ops : durable_reachable (snd (durable_exec ops)).
Proof.
  exists DefaultStepTimeouts, demo_driver, freshDirectory, (NewMemoryReservationStore 0 0), NewMemoryReceiptStore, durable0.
  split; [vm_compute; reflexivity|]. apply (exec_steps demo_clock demo_wall DefaultStepTimeouts (live ops) (O, durable0)).
Qed.
End DurableAgent.

(** What an observer sees of a durable agent: the state, the steps of the
    entries the file holds open, and the number of rules on the host. *)
Definition durable_summary (l : DurableAgent) : LifecycleState * list Step * nat :=
  (L_state l, Record_Step <$> inFlight (@file_view digitsCodec (L_journal l)), size (getRules (L_driver l))).

(** The directory cannot be synced after the rename of the approval's record,
    of the record after the apply, or of the one that closes the entry. *)
Definition approvalLands : nat -> bool := fun n => (n =? 59)%nat.
Definition applyLands : nat -> bool := fun n => (n =? 123)%nat.

(** ** Witnesses *)

Lemma host_isolated_witness :
  hostOf (snd (snd (agent_perform Background OpHealth reservedAgent))) = hostOf (snd reservedAgent).
Proof.
  pose proof (host_isolated demo_clock demo_wall DefaultStepTimeouts Background OpHealth (snd reservedAgent) eq_refl (fst reservedAgent)) as Hw.
  rewrite <- surjective_pairing in Hw. unfold agent_perform.
  destruct (perform demo_clock demo_wall DefaultStepTimeouts Background OpHealth reservedAgent) as [r [n' l']]. exact Hw.
Defined.

Lemma lifecycle_invariant_witness :
  life_inv true (snd recordedAgent) /\ L_state (snd recordedAgent) = StateRecorded /\
  let l := snd (durable_exec approvalLands (take 4 toReserved)) in
  durable_inv approvalLands l /\ durable_summary l = (StateSimulated, [StepApprove], O).
Proof.
  split; [|split; [vm_compute; reflexivity|intros l; split; [|vm_compute; reflexivity]]].
  - exact (proj2 (lifecycle_invariant demo_clock demo_wall DefaultStepTimeouts (snd recordedAgent)
             (agent_exec_reachable (live toRecorded))) MemoryJournal_atomic).
  - exact (proj1 (lifecycle_invariant (JL := durable_laws approvalLands) demo_clock demo_wall DefaultStepTimeouts l
             (durable_exec_reachable approvalLands (take 4 toReserved)))).
Defined.

Lemma order_enforced_witness :
  is_ok (fst (agent_perform Background OpCommit recordedAgent)) = true /\
  allowed OpCommit (snd recordedAgent) (L_state (snd (snd (agent_perform Background OpCommit recordedAgent)))).
Proof.
  assert (is_ok (fst (agent_perform Background OpCommit recordedAgent)) = true) as Hok by (vm_compute; reflexivity).
  split; [exact Hok|].
  pose proof (order_enforced demo_clock demo_wall DefaultStepTimeouts (snd recordedAgent) Background OpCommit
    MemoryJournal_atomic (agent_exec_reachable (live toRecorded)) (fst recordedAgent)) as Hw.
  rewrite <- surjective_pairing in Hw. unfold agent_perform in *. revert Hok Hw.
  destruct (perform demo_clock demo_wall DefaultStepTimeouts Background OpCommit recordedAgent) as [[a|e] [n' l']]; intros Hok Hw; [exact Hw|discriminate Hok].
Defined.

Lemma committed_run_complete_witness : exists run,
  L_run (snd committedAgent) = Some run /\ run_approved run /\ run_verified run.
Proof.
  assert (isSome (L_run (snd committedAgent)) = true) as Hsome by (vm_compute; reflexivity).
  destruct (isSome_exists _ Hsome) as [run Hrun].
  assert (L_state (snd committedAgent) = StateCommitted) as Hs by (vm_compute; reflexivity).
  destruct (committed_run_complete demo_clock demo_wall DefaultStepTimeouts (snd committedAgent) MemoryJournal_atomic
    (agent_exec_reachable (live (toRecorded ++ [OpCommit]))) Hs run Hrun) as (_ & _ & Ha & _ & _ & Hv & _).
  exists run. split; [exact Hrun|]. split; [exact Ha|exact Hv].
Defined.

Lemma host_mutation_gated_witness :
  let st := durable_exec applyLands toReserved in
  let out := durable_Apply applyLands st in
  (is_ok (fst out), size (getRules (L_driver (snd st))), durable_summary (snd (snd out))) =
    (false, O, (StateFailed, [StepVerify], 1%nat)) /\
  hostOf (snd (snd out)) <> hostOf (snd st) /\ durable_gate applyLands (snd st) (snd (snd out)).
Proof.
  intros st out.
  assert ((is_ok (fst out), size (getRules (L_driver (snd st))), durable_summary (snd (snd out))) =
    (false, O, (StateFailed, [StepVerify], 1%nat))) as Hrun by (vm_compute; reflexivity).
  split; [exact Hrun|]. pose proof (durable_exec_reachable applyLands toReserved) as Hr. fold st in Hr.
  subst out. clearbody st. destruct st as [n l]. unfold durable_Apply in Hrun |- *.
  pose proof (host_mutation_gated (JL := durable_laws applyLands) demo_clock demo_wall DefaultStepTimeouts l Background Hr n) as Hw.
  destruct (Apply demo_clock demo_wall DefaultStepTimeouts Background (n, l)) as [r [n' l']].
  assert (hostOf l' <> hostOf l) as Hne; [|split; [exact Hne|exact (Hw Hne)]].
  unfold durable_summary in Hrun. simpl in Hrun. injection Hrun as _ H0 _ _ H1. intros E.
  change (getRules (L_driver l') = getRules (L_driver l)) in E. rewrite E, H0 in H1. discriminate H1.
Defined.

Lemma restart_refused_witness :
  let l := snd (agent_exec (live (toReserved ++ [OpApply])) (O, agent0)) in
  active l = true /\
  wp (Begin demo_clock demo_wall DefaultStepTimeouts Background (mkRef "plan-2" 8 "op-1"))
     (fun res _ => is_ok res = false) (restarted demo_driver l).
Proof.
  intros l. assert (active l = true) as Ha by (vm_compute; reflexivity). split; [exact Ha|].
  intros n. pose proof (restart_refused demo_clock demo_wall DefaultStepTimeouts l demo_driver Background
    (mkRef "plan-2" 8 "op-1") MemoryJournal_atomic (agent_exec_reachable (live (toReserved ++ [OpApply]))) Ha n) as Hw.
  destruct (Begin _ _ _ _ _ _) as [res [n' l']]. exact (proj1 Hw).
Defined.

Definition approvedAgent : nat * Agent := agent_exec (live (take 4 toReserved)) (O, agent0).

Lemma plan_reserved_once_witness :
  let out := Reserve demo_clock demo_wall DefaultStepTimeouts Background demo_key approvedAgent in
  is_ok (fst out) = true /\
  wp (Reserve demo_clock demo_wall DefaultStepTimeouts Background demo_key) (fun res _ => is_ok res = false)
     (snd (agent_exec (live [OpRollback; OpBegin (mkRef "plan-1" 7 "op-1")]) (snd out))).
Proof.
  intros out. assert (is_ok (fst out) = true) as Hok by (vm_compute; reflexivity). split; [exact Hok|].
  pose proof (exec_steps demo_clock demo_wall DefaultStepTimeouts (live [OpRollback; OpBegin (mkRef "plan-1" 7 "op-1")]) (snd out)) as Hs.
  assert (out = Reserve demo_clock demo_wall DefaultStepTimeouts Background demo_key (fst approvedAgent, snd approvedAgent)) as Hout
    by (by rewrite <- surjective_pairing).
  unfold agent_exec. clearbody out. destruct out as [[token|e] [n1 l1]]; [|discriminate Hok].
  exact (plan_reserved_once demo_clock demo_wall DefaultStepTimeouts Background demo_key _ _ token n1 l1 _
           Background demo_key (eq_sym Hout) Hs eq_refl).
Defined.

Lemma new_lifecycle_bounded_witness : 0 < Timeout_Apply DefaultStepTimeouts <= MaxStepTimeout.
Proof.
  destruct (new_lifecycle_bounded _ _ _ _ _ _ _ agent0_new) as (_ & Ht & _).
  rewrite !Forall_cons in Ht. destruct Ht as (_ & _ & _ & Ha & _). exact Ha.
Defined.

(** ** Interruptions the machine does not settle *)

(** The driver dies after the write: [Apply] fails with the rule on the host. *)
Definition crashedAgent : nat * Agent :=
  agent_exec (live [OpApply])
    (fst reservedAgent, set_driver (Memory_InjectCrash (L_driver (snd reservedAgent))) (snd reservedAgent)).

Example crash_leaves_rule :
  summary crashedAgent = (StateFailed, [demo_rule], [StepApply], [("plan-1"%string, false)]).
Proof. vm_compute. reflexivity. Qed.

(** A restart that recovers puts the host back. *)
Example crash_then_recover :
  summary (agent_exec (live [OpRecover]) (fst crashedAgent, restarted (setCrash false (L_driver (snd crashedAgent))) (snd crashedAgent)))
  = (StateIdle, [], [], [("plan-1"%string, true)]).
Proof. vm_compute. reflexivity. Qed.

(** [Rollback] after the same failure does not: the run was never marked as
    applied, so the driver is not asked to revert, the entry is closed, the
    reservation is released, and no later recovery of the lifecycle finds
    anything to do. The rule stays. *)
Example rollback_after_crash_keeps_rule :
  let after := agent_exec (live [OpRollback]) crashedAgent in
  summary after = (StateRolledBack, [demo_rule], [], [("plan-1"%string, true)]) /\
  summary (agent_exec (live [OpRecover; OpRecover]) after) = (StateRolledBack, [demo_rule], [], [("plan-1"%string, true)]).
Proof. split; vm_compute; reflexivity. Qed.

(** The context of [Commit] is cancelled after the reservation was released
    and before the journal is closed. *)
Definition interruptedCommit : nat * Agent :=
  snd (agent_perform (cancelledAt (fst recordedAgent + 4)) OpCommit recordedAgent).

(** After a commit interrupted between the release and the journal, every
    later settlement releases with another result digest and is refused as a
    conflict: recovery by a restarted process fails, again and again, and
    no plan can begin. *)
Example interrupted_commit_wedges :
  let st := (fst interruptedCommit, restarted (L_driver (snd interruptedCommit)) (snd interruptedCommit)) in
  summary interruptedCommit = (StateFailed, [demo_rule], [StepRecord], [("plan-1"%string, true)]) /\
  fst (agent_perform Background OpRecover st) = Err ErrReservationConflict /\
  fst (agent_perform Background OpRecover (agent_exec (live [OpRecover]) st)) = Err ErrReservationConflict /\
  fst (agent_perform Background (OpBegin (mkRef "plan-2" 8 "op-1")) (agent_exec (live [OpRecover]) st)) = Err ErrRecoveryPending.
Proof. do 3 (split; [vm_compute; reflexivity|]). vm_compute. reflexivity. Qed.

(** The in-process [Rollback] of the same failure reverts the host and then
    meets the same conflict: the store says committed, the host is restored. *)
Example interrupted_commit_rollback :
  fst (agent_perform Background OpRollback interruptedCommit) = Err ErrReservationConflict /\
  getRules (L_driver (snd (agent_exec (live [OpRollback]) interruptedCommit))) = ∅ /\
  (rr_terminal <$> RS_records (L_reservations (snd (agent_exec (live [OpRollback]) interruptedCommit))) !! "plan-1"%string) = Some StepCommit.
Proof. do 2 (split; [vm_compute; reflexivity|]). vm_compute. reflexivity. Qed.

(** The context of [Reserve] is cancelled after the store granted and before
    the grant is journalled. *)
Definition interruptedReserve : nat * Agent :=
  snd (agent_perform (cancelledAt (fst approvedAgent + 3)) (OpReserve demo_key) approvedAgent).

(** A reservation interrupted before its journal record leaks: the entry
    stays at APPROVE, and its recovery closes it without releasing the
    reservation, which stays granted. *)
Example interrupted_reserve_leaks :
  let st := (fst interruptedReserve, restarted (L_driver (snd interruptedReserve)) (snd interruptedReserve)) in
  summary interruptedReserve = (StateFailed, [], [StepApprove], [("plan-1"%string, false)]) /\
  summary (agent_exec (live [OpRecover]) st) = (StateIdle, [], [], [("plan-1"%string, false)]).
Proof. split; vm_compute; reflexivity. Qed.
