(* ===== verification/PolicyFacts.v ===== *)
(** * The policy compiler and the enforcer agree

    What the compiler signs and what the enforcer accepts are written in two
    packages, one list of rules each. The theorems say exactly when a plan
    compiled from a profile without violations is executable on the node it
    was compiled for. *)

From S2P Require Import Prelude Sha256 Digest Probe Contract Plan Policy Enforcement.
From stdpp Require Import base gmap list strings sorting.
From Stdlib Require Import ZArith Lia.

Open Scope Z_scope.

(** ** Profiles without violations *)

Lemma violate_nil b code field message : violate b code field message = [] <-> b = false.
Proof. destruct b; naive_solver. Qed.

Lemma merge_sort_nil {A} (R : relation A) `{forall x y, Decision (R x y)} l : merge_sort R l = [] -> l = [].
Proof. intros E. apply Permutation_nil_r. rewrite <- E. symmetry. apply merge_sort_Permutation. Qed.

Lemma len_nil {A} (l : list A) : (len l =? 0) = true <-> l = [].
Proof. unfold len. destruct l; simpl; [done|]. split; [lia|done]. Qed.

Section Agreement.
Context {H : Hasher} {E : Ed25519}.
Context (ToLower : string -> string) (sizeProfile : ProtectionProfile -> Z) (sizePlan : Plan -> Z)
  (marshalPlan : Plan -> option (list Z)).

(** What the compiler relies on once [Validate] found nothing. *)
Record accepted_profile (p : ProtectionProfile) (m : ResourceMetadata) (mesh : MeshPolicy) (egress : EgressPolicy) (dns : DnsPolicy) : Prop := {
  ap_metadata : Profile_Metadata p = Some m;
  ap_mesh : Profile_Mesh p = Some mesh;
  ap_egress : Profile_Egress p = Some egress;
  ap_dns : Profile_Dns p = Some dns;
  ap_revision : Metadata_Revision m <> 0;
  ap_provider : NormalizeDestination ToLower (Mesh_Provider mesh) ∈ meshProviders;
  ap_exits : Egress_Mode egress = EgressModeTrustedExit -> validUniqueValues (Egress_AllowedExitNodeIds egress) 1 32 128 = true;
  ap_mode : Egress_Mode egress = EgressModeMesh \/ Egress_Mode egress = EgressModeTrustedExit;
  ap_recovery : validUniqueValues (Egress_RecoveryDestinations egress) 1 32 512 = true;
  ap_resolvers : validUniqueValues (Dns_AllowedResolvers dns) 1 16 512 = true;
}.

Lemma meshViolations_nil p : meshViolations ToLower p = [] ->
  exists mesh, Profile_Mesh p = Some mesh /\ NormalizeDestination ToLower (Mesh_Provider mesh) ∈ meshProviders.
Proof.
  unfold meshViolations. destruct (Profile_Mesh p) as [mesh|]; [|done].
  destruct (negb (Mesh_Required mesh)); [done|].
  intros Hp%violate_nil%negb_false_iff%bool_decide_eq_true. eauto.
Qed.

Lemma egressViolations_nil p : egressViolations p = [] ->
  exists egress, Profile_Egress p = Some egress /\
    (Egress_Mode egress = EgressModeTrustedExit -> validUniqueValues (Egress_AllowedExitNodeIds egress) 1 32 128 = true) /\
    (Egress_Mode egress = EgressModeMesh \/ Egress_Mode egress = EgressModeTrustedExit) /\
    validUniqueValues (Egress_RecoveryDestinations egress) 1 32 512 = true.
Proof.
  unfold egressViolations. destruct (Profile_Egress p) as [egress|]; [|done].
  destruct (negb (Egress_FailMode egress =? _)); [done|].
  intros [Hm%violate_nil [Hx%violate_nil Hr]%app_nil]%app_nil.
  exists egress. split; [done|]. split_and!.
  - intros Hmode. apply Z.eqb_eq in Hmode. rewrite Hmode in Hx. simpl in Hx. by apply negb_false_iff.
  - apply andb_false_iff in Hm as [Hm|Hm]; apply negb_false_iff, Z.eqb_eq in Hm; auto.
  - destruct (_ || _); [done|]. by apply violate_nil, negb_false_iff in Hr.
Qed.

Lemma dnsViolations_nil p : dnsViolations p = [] ->
  exists dns, Profile_Dns p = Some dns /\ validUniqueValues (Dns_AllowedResolvers dns) 1 16 512 = true.
Proof.
  unfold dnsViolations. destruct (Profile_Dns p) as [dns|]; [|done]. destruct (_ || _); [done|].
  intros Hd%violate_nil%negb_false_iff. eauto.
Qed.

Lemma Validate_accepted p : Policy_Validate ToLower sizeProfile (Some p) = [] ->
  exists m mesh egress dns, accepted_profile p m mesh egress dns.
Proof.
  unfold Policy_Validate. destruct (_ || _); [done|]. intros Hv%merge_sort_nil.
  apply app_nil in Hv as [Hm%violate_nil Hv]. do 2 apply app_nil in Hv as [_ Hv].
  apply app_nil in Hv as [(mesh & ? & ?)%meshViolations_nil Hv].
  apply app_nil in Hv as [(egress & ? & ? & ? & ?)%egressViolations_nil Hv].
  apply app_nil in Hv as [(dns & ? & ?)%dnsViolations_nil _].
  destruct (Profile_Metadata p) as [m|] eqn:Em; [|done]. apply orb_false in Hm as [_ Hr%Z.eqb_neq].
  exists m, mesh, egress, dns. by constructor.
Qed.

(** ** The compiled plan *)

(** Compilation of an accepted profile is the signature of [compilePlan]. *)
Lemma Compile_plan c p nodeID revision manifest now plan :
  Compile ToLower sizeProfile marshalPlan c (Some p) nodeID revision (Some manifest) now = Ok (inl plan) ->
  exists m mesh egress dns s encoded,
    let unsigned := compilePlan ToLower c (Metadata_Id m) nodeID (Metadata_Revision m) revision mesh egress dns now in
    accepted_profile p m mesh egress dns /\ revision <> 0 /\ Manifest_NodeId manifest = nodeID /\
    Forall (fun r => supports manifest r = true) planRequirements /\
    marshalPlan (signableView unsigned) = Some encoded /\
    newSignature planDomain (Compiler_keyID c) (Compiler_key c) (sum256 encoded) now = Ok s /\
    plan = withSignature s unsigned.
Proof.
  unfold Compile. destruct (len _ =? 0) eqn:Hl; [|done]. apply len_nil in Hl. simpl.
  destruct (Validate_accepted p Hl) as (m & mesh & egress & dns & Hacc).
  intros Hc. apply reject_Ok in Hc as [[[_ Hr%Z.eqb_neq]%orb_false Hn%negb_false_iff%eqs_true]%orb_false Hc].
  destruct (len (missingCapabilityViolations manifest) =? 0) eqn:Hmiss; [|done]. apply len_nil in Hmiss. simpl in Hc.
  destruct Hacc as [Hm Hmesh Heg Hdns] eqn:Hacc'. rewrite Hm, Hmesh, Heg, Hdns in Hc.
  apply rbind_Ok in Hc as (plan' & Hs & [= <-]). unfold signPlan in Hs.
  destruct (marshalPlan _) as [encoded|] eqn:Henc; [|done]. apply rbind_Ok in Hs as (s & Hs & [= <-]).
  exists m, mesh, egress, dns, s, encoded. split_and!; try done.
  unfold missingCapabilityViolations in Hmiss. simpl in Hmiss.
  apply app_nil in Hmiss as [H1%violate_nil%negb_false_iff [H2%violate_nil%negb_false_iff Hmiss]%app_nil].
  apply app_nil in Hmiss as [H3%violate_nil%negb_false_iff [H4%violate_nil%negb_false_iff _]%app_nil].
  by repeat constructor.
Qed.

(** A requirement the compiler found supported is one the enforcer finds met. *)
Lemma supports_meets manifest r :
  Requirement_MinimumSupportLevel r = SupportFull -> Forall (fun o => o <> 0) (Requirement_RequiredOperations r) ->
  supports manifest r = true -> existsb (capabilityMeets r) (Manifest_Capabilities manifest) = true.
Proof.
  intros Hlevel Hops. unfold supports. induction (Manifest_Capabilities manifest) as [|[c|] rest IH]; simpl; [done| |apply IH].
  destruct (_ || _) eqn:Hk; [intros Hs; apply orb_true_iff; right; by apply IH|].
  apply orb_false in Hk as [Hk%negb_false_iff Hl%negb_false_iff]. intros Hs. apply orb_true_iff. left.
  unfold capabilityMeets. rewrite Hk, Hlevel. unfold supportSatisfies. simpl. rewrite Hl. simpl.
  rewrite forallb_forall in Hs |- *. intros o Ho. rewrite (Hs o Ho), andb_true_r.
  rewrite Forall_forall in Hops. apply negb_true_iff, Z.eqb_neq, Hops, list_elem_of_In, Ho.
Qed.

Lemma supported manifest rs :
  Forall (fun r => supports manifest r = true) planRequirements -> rs <> [] -> (forall r, r ∈ rs -> r ∈ planRequirements) ->
  supportsAll manifest (Some <$> rs) = true.
Proof.
  intros Hs Hne Hin. unfold supportsAll. rewrite Forall_forall in Hs.
  assert (forall r, r ∈ planRequirements ->
    safePlanToken (Requirement_Key r) = true /\ Requirement_MinimumSupportLevel r = SupportFull /\
    Requirement_RequiredOperations r <> [] /\ Forall (fun o => o <> 0) (Requirement_RequiredOperations r)) as Hreq.
  { intros r Hr. unfold planRequirements in Hr. repeat (apply elem_of_cons in Hr as [->|Hr]); [..|by apply not_elem_of_nil in Hr];
      (split; [vm_compute; reflexivity|]); (split; [done|]); (split; [done|]); repeat constructor; done. }
  apply andb_true_iff. split.
  - apply andb_true_iff. split; [by destruct rs|]. rewrite forallb_forall. intros o Ho.
    apply list_elem_of_In, list_elem_of_fmap in Ho as (r & -> & Hr). destruct (Hreq r (Hin r Hr)) as (-> & -> & Hn & _).
    simpl. rewrite andb_true_r. destruct (Requirement_RequiredOperations r); [done|]. unfold len. simpl. lia.
  - rewrite forallb_forall. intros o Ho. apply list_elem_of_In, list_elem_of_fmap in Ho as (r & -> & Hr).
    destruct (Hreq r (Hin r Hr)) as (_ & Hl & _ & Ho). apply supports_meets; auto.
Qed.

(** ** Lists of values *)

(** A list both packages accept: bounded, unique, trimmed, without control
    characters, and valid text. *)
Definition listOk (l : list string) (minimum maximum maximumLength : Z) : bool :=
  validUniqueValues l minimum maximum maximumLength
  && forallb (fun v => negb (hasControl v)) l && forallb (fun v => validUTF8 (bytes_of v)) l.

Lemma stringItems_spec n seen l :
  stringItems n seen (StringValue <$> l) =
  if uniqueValues n seen l && forallb (fun v => negb (hasControl v)) l then Some l else None.
Proof.
  revert seen. induction l as [|v l IH]; intros seen; [done|].
  cbn [fmap list_fmap stringItems uniqueValues forallb].
  destruct (eqs v EmptyString || (n <? slen v) || negb (trimmed v)); [done|]. simpl.
  destruct (hasControl v); simpl; [by rewrite andb_false_r|]. case_bool_decide; [done|].
  rewrite IH. by destruct (uniqueValues _ _ _ && _).
Qed.

Lemma stringListField_spec m name l minimum maximum maximumLength :
  m !! name = Some (stringListValue l) ->
  stringListField (Some m) name minimum maximum maximumLength =
  if validUniqueValues l minimum maximum maximumLength && forallb (fun v => negb (hasControl v)) l then Some l else None.
Proof.
  intros Hm. unfold stringListField, field. rewrite Hm. unfold stringListValue, validUniqueValues.
  assert (len (StringValue <$> l) = len l) as -> by (unfold len; by rewrite length_fmap).
  destruct (_ || _); [done|]. apply stringItems_spec.
Qed.

Lemma utf8_list l : utf8Value (stringListValue l) = forallb (fun v => validUTF8 (bytes_of v)) l.
Proof.
  unfold utf8Value, stringListValue. induction l as [|v l IH]; [done|]. cbn [fmap list_fmap forallb]. by rewrite IH.
Qed.

(** What the enforcer asks of the parameters of each compiled operation. *)
Definition paramsOk (o : POperation) (rollback : bool) (allowlist : list string) : bool :=
  isSome (POperation_Parameters o) && validOperationParameters o rollback allowlist.

(** The compiled parameters carry [simulation: false] and [failMode: CLOSED]. *)
Lemma params_open o m rollback allowlist :
  POperation_Parameters o = Some m ->
  m !! "simulation"%string = Some (BoolValue false) -> m !! "failMode"%string = Some (StringValue "CLOSED") ->
  validOperationParameters o rollback allowlist =
  (if rollback then exactFields (Some m) ["simulation"; "failMode"]
   else if POperation_Type o =? OperationFirewall then
    eqs (POperation_Target o) "protected-egress"
    && exactFields (Some m) ["simulation"; "failMode"; "allowedDestinations"; "recoveryDestinations"]
    && isSome (stringListField (Some m) "allowedDestinations" 0 32 512)
    && bool_decide (stringListField (Some m) "recoveryDestinations" 1 32 512 = Some allowlist)
   else if POperation_Type o =? OperationMesh then
    bool_decide (POperation_Target o ∈ meshProviders) && exactFields (Some m) ["simulation"; "failMode"]
   else if POperation_Type o =? OperationRoute then
    eqs (POperation_Target o) "approved-egress"
    && exactFields (Some m) ["simulation"; "failMode"; "allowedExitNodeIds"]
    && isSome (stringListField (Some m) "allowedExitNodeIds" 1 32 128)
   else if POperation_Type o =? OperationDns then
    eqs (POperation_Target o) "protected-dns"
    && exactFields (Some m) ["simulation"; "failMode"; "allowedResolvers"]
    && isSome (stringListField (Some m) "allowedResolvers" 1 16 512)
   else false).
Proof.
  intros Hp Hs Hf. unfold validOperationParameters. rewrite Hp.
  assert (boolField (Some m) "simulation" = Some false) as -> by (unfold boolField, field; by rewrite Hs).
  assert (stringField (Some m) "failMode" = Some "CLOSED"%string) as -> by (unfold stringField, field; by rewrite Hf).
  rewrite !bool_decide_true by done. done.
Qed.

(** Open the parameters of a compiled operation, of which some lists may not
    be valid text. *)
Ltac open_params l :=
  unfold paramsOk, policyOperation, NewStruct; cbn [app forallb snd POperation_Parameters]; rewrite ?utf8_list; unfold listOk;
  try (destruct (forallb (fun v => validUTF8 (bytes_of v)) l); [|simpl; by rewrite !andb_false_r]).

Lemma firewall_params id description r dests recovery :
  paramsOk (policyOperation id OperationFirewall "protected-egress" description r
    [("allowedDestinations", stringListValue dests); ("recoveryDestinations", stringListValue recovery)]) false recovery
  = listOk dests 0 32 512 && listOk recovery 1 32 512.
Proof.
  open_params dests. open_params recovery. rewrite !andb_true_r. cbn [utf8Value andb isSome].
  set (m := list_to_map _). assert (exactFields (Some m) ["simulation"; "failMode"; "allowedDestinations"; "recoveryDestinations"] = true) as Hx by reflexivity.
  assert (m !! "allowedDestinations"%string = Some (stringListValue dests)) as Hd by reflexivity.
  assert (m !! "recoveryDestinations"%string = Some (stringListValue recovery)) as Hr by reflexivity.
  rewrite (params_open _ m) by reflexivity. clearbody m. cbn [POperation_Target POperation_Type].
  change (OperationFirewall =? OperationFirewall) with true. cbv iota. rewrite Hx, eqs_refl. cbn [andb].
  rewrite (stringListField_spec m _ dests), (stringListField_spec m _ recovery) by done. rewrite isSome_if.
  destruct (_ && forallb _ recovery); [by rewrite bool_decide_true|]. by rewrite bool_decide_false, andb_false_r.
Qed.

Lemma route_params id description r exits allowlist :
  paramsOk (policyOperation id OperationRoute "approved-egress" description r
    [("allowedExitNodeIds", stringListValue exits)]) false allowlist = listOk exits 1 32 128.
Proof.
  open_params exits. rewrite !andb_true_r. cbn [utf8Value andb isSome].
  set (m := list_to_map _). assert (exactFields (Some m) ["simulation"; "failMode"; "allowedExitNodeIds"] = true) as Hx by reflexivity.
  assert (m !! "allowedExitNodeIds"%string = Some (stringListValue exits)) as Hd by reflexivity.
  rewrite (params_open _ m) by reflexivity. clearbody m. cbn [POperation_Target POperation_Type].
  change (OperationRoute =? OperationFirewall) with false. change (OperationRoute =? OperationMesh) with false.
  change (OperationRoute =? OperationRoute) with true. cbv iota. rewrite Hx, eqs_refl. cbn [andb].
  by rewrite (stringListField_spec m _ exits), isSome_if by done.
Qed.

Lemma dns_params id description r resolvers allowlist :
  paramsOk (policyOperation id OperationDns "protected-dns" description r
    [("allowedResolvers", stringListValue resolvers)]) false allowlist = listOk resolvers 1 16 512.
Proof.
  open_params resolvers. rewrite !andb_true_r. cbn [utf8Value andb isSome].
  set (m := list_to_map _). assert (exactFields (Some m) ["simulation"; "failMode"; "allowedResolvers"] = true) as Hx by reflexivity.
  assert (m !! "allowedResolvers"%string = Some (stringListValue resolvers)) as Hd by reflexivity.
  rewrite (params_open _ m) by reflexivity. clearbody m. cbn [POperation_Target POperation_Type].
  change (OperationDns =? OperationFirewall) with false. change (OperationDns =? OperationMesh) with false.
  change (OperationDns =? OperationRoute) with false. change (OperationDns =? OperationDns) with true. cbv iota.
  rewrite Hx, eqs_refl. cbn [andb]. by rewrite (stringListField_spec m _ resolvers), isSome_if by done.
Qed.

Lemma mesh_params id target description r allowlist :
  paramsOk (policyOperation id OperationMesh target description r []) false allowlist = bool_decide (target ∈ meshProviders).
Proof.
  unfold paramsOk, policyOperation, NewStruct. cbn [app forallb snd POperation_Parameters utf8Value].
  set (m := list_to_map _). assert (exactFields (Some m) ["simulation"; "failMode"] = true) as Hx by reflexivity.
  change (validUTF8 (bytes_of "CLOSED")) with true. cbn [andb isSome].
  rewrite (params_open _ m) by reflexivity. clearbody m. cbn [POperation_Target POperation_Type].
  change (OperationMesh =? OperationFirewall) with false. change (OperationMesh =? OperationMesh) with true. cbv iota.
  by rewrite Hx, andb_true_r.
Qed.

Lemma rollback_params id kind target description r allowlist :
  paramsOk (policyOperation id kind target description r []) true allowlist = true.
Proof. reflexivity. Qed.

(** ** The checks and operations of a compiled plan *)

Context (manifest : CapabilityManifest).
Context (Hsupports : Forall (fun r => supports manifest r = true) planRequirements).

Lemma supported_one r : r ∈ planRequirements -> supportsAll manifest [Some r] = true.
Proof.
  intros Hr. apply (supported manifest [r] Hsupports); [done|]. by intros ? ->%list_elem_of_singleton.
Qed.

Lemma supported_plan : supportsAll manifest (Some <$> planRequirements) = true.
Proof. by apply supported. Qed.

(** Step over a guard that evaluates to false. *)
Ltac pass := match goal with
  |- (if ?b then Err _ else _) = _ => replace b with false by (vm_compute; reflexivity) end; cbv iota.

Definition checkIds : gset string := {[ "preflight-current-state" ]} ∪ ∅.
Definition verificationIds : gset string :=
  {[ "verify-dns" ]} ∪ ({[ "verify-route" ]} ∪ ({[ "verify-mesh" ]} ∪ checkIds)).

Lemma requirement_in (r : CapabilityRequirement) :
  r = firewallRequirement \/ r = meshRequirement \/ r = routeRequirement \/ r = dnsRequirement -> r ∈ planRequirements.
Proof. unfold planRequirements. rewrite !elem_of_cons. naive_solver. Qed.

Lemma compiled_check_ok e id phase kind description rs ids rest :
  Enforcer_capabilities e = manifest -> supportsAll manifest (Some <$> rs) = true ->
  id <> EmptyString -> kind <> EmptyString -> id ∉ ids -> validCheckParameters (policyCheck id phase kind description true rs) = true ->
  validChecks e true phase ids (Some (policyCheck id phase kind description true rs) :: rest) =
  validChecks e true phase ({[ id ]} ∪ ids) rest.
Proof.
  intros He Hs Hid Hkind Hin Hp. cbn [validChecks]. rewrite Hp.
  assert (eqs (PCheck_Id (policyCheck id phase kind description true rs)) EmptyString
    || negb (PCheck_Phase (policyCheck id phase kind description true rs) =? phase)
    || eqs (PCheck_CheckType (policyCheck id phase kind description true rs)) EmptyString
    || negb (isSome (PCheck_Parameters (policyCheck id phase kind description true rs)))
    || negb (validTimeout (PCheck_Timeout (policyCheck id phase kind description true rs))) = false) as ->.
  { simpl. apply slen_nonempty in Hid, Hkind. rewrite Hid, Hkind, Z.eqb_refl. reflexivity. }
  cbn [PCheck_RequiredCapabilities PCheck_Id policyCheck]. rewrite He, Hs.
  unfold supportsAll in Hs. apply andb_true_iff in Hs as [-> _]. rewrite bool_decide_false by done. done.
Qed.

Lemma compiled_operation_ok e id kind target description r values rollback allowlist ids rest :
  Enforcer_capabilities e = manifest -> r ∈ planRequirements ->
  id <> EmptyString -> kind <> 0 -> target <> EmptyString -> id ∉ ids ->
  let o := policyOperation id kind target description r values in
  validOperations e true rollback allowlist ids (Some o :: rest) =
  if isSome (POperation_Parameters o) then
    (if paramsOk o rollback allowlist then validOperations e true rollback allowlist ({[ id ]} ∪ ids) rest
     else Err (refusal "AF-PLAN-OPERATION-PARAMETERS-INVALID"))
  else Err (refusal "AF-PLAN-OPERATION-INVALID").
Proof.
  intros He Hr Hid Hkind Htarget Hin o. pose proof (supported_one r Hr) as Hs.
  cbn [validOperations]. unfold paramsOk. destruct (isSome (POperation_Parameters o)) eqn:Hp.
  2: { subst o. simpl. rewrite !orb_true_r. done. }
  assert (eqs (POperation_Id o) EmptyString || (POperation_Type o =? 0) || eqs (POperation_Target o) EmptyString
    || negb true || negb (validTimeout (POperation_Timeout o)) = false) as ->.
  { subst o. simpl. apply slen_nonempty in Hid, Htarget. apply Z.eqb_neq in Hkind. by rewrite Hid, Htarget, Hkind. }
  change (POperation_RequiredCapabilities o) with [Some r]. rewrite He, Hs.
  unfold supportsAll in Hs. apply andb_true_iff in Hs as [-> _]. change (POperation_Id o) with id.
  rewrite bool_decide_false by done. cbn [andb negb]. by destruct (validOperationParameters o rollback allowlist).
Qed.

Ltac fresh_id := apply (bool_decide_unpack (_ ∉ _)); vm_compute; exact I.

Section Compiled.
Context (e : Enforcer) (He : Enforcer_capabilities e = manifest).
Context (c : Compiler) (id nodeID : string) (policyRevision planRevision : Z)
  (mesh : MeshPolicy) (egress : EgressPolicy) (dns : DnsPolicy) (at_ : time).
Abbreviation plan := (compilePlan ToLower c id nodeID policyRevision planRevision mesh egress dns at_).

Lemma compiled_preconditions :
  validChecks e true PhasePrecondition ∅ (Plan_Preconditions plan) = Ok checkIds.
Proof.
  cbn [compilePlan Plan_Preconditions].
  by rewrite compiled_check_ok by first [exact He|exact supported_plan|done|fresh_id].
Qed.

Lemma compiled_verifications :
  validChecks e true PhaseVerification checkIds (Plan_Verifications plan) = Ok verificationIds.
Proof.
  cbn [compilePlan Plan_Verifications].
  do 3 (rewrite compiled_check_ok; [|exact He|apply (supported_one _), requirement_in; tauto|done|done|fresh_id|reflexivity]).
  reflexivity.
Qed.

(** The lists of the profile the enforcer reads. *)
Definition listsOk : bool :=
  (listOk (Egress_AllowedDestinations egress) 0 32 512 && listOk (Egress_RecoveryDestinations egress) 1 32 512)
  && listOk (Egress_AllowedExitNodeIds egress) 1 32 128 && listOk (Dns_AllowedResolvers dns) 1 16 512.

Lemma paramsOk_Some o rollback allowlist : isSome (POperation_Parameters o) = false -> paramsOk o rollback allowlist = false.
Proof. unfold paramsOk. by intros ->. Qed.

Lemma compiled_operations :
  NormalizeDestination ToLower (Mesh_Provider mesh) ∈ meshProviders ->
  is_ok (do ids <- validOperations e true false (Egress_RecoveryDestinations egress) verificationIds (Plan_Actions plan);
         validOperations e true true (Egress_RecoveryDestinations egress) ids (Plan_Rollback plan)) = listsOk.
Proof.
  intros Hmesh. assert (NormalizeDestination ToLower (Mesh_Provider mesh) <> EmptyString) as Hne.
  { intros E0. rewrite E0 in Hmesh. revert Hmesh. fresh_id. }
  cbn [compilePlan Plan_Actions Plan_Rollback]. unfold listsOk.
  rewrite <- (firewall_params "guard-egress" "Hold protected egress before changing the route." firewallRequirement).
  rewrite <- (route_params "set-route" "Select an approved protected route." routeRequirement _ (Egress_RecoveryDestinations egress)).
  rewrite <- (dns_params "set-dns" "Use DNS through the protected path." dnsRequirement _ (Egress_RecoveryDestinations egress)).
  do 4 (rewrite compiled_operation_ok; [|exact He|apply requirement_in; tauto|done|done|first [exact Hne|done]|fresh_id];
    match goal with |- context [if isSome ?p then _ else _] =>
      let Hp := fresh "Hp" in destruct (isSome p) eqn:Hp;
      [clear Hp|first [by rewrite (paramsOk_Some _ _ _ Hp), ?andb_false_r|by vm_compute in Hp]] end;
    match goal with |- context [if paramsOk ?o ?b ?l then _ else _] =>
      let Hb := fresh "Hb" in destruct (paramsOk o b l) eqn:Hb;
      [|first [by rewrite ?andb_false_r|by rewrite mesh_params, bool_decide_true in Hb]]; clear Hb end).
  match goal with |- context [validOperations e true false ?l ?ids []] => change (validOperations e true false l ids []) with (Ok ids) end.
  cbn [rbind andb].
  do 3 (rewrite compiled_operation_ok; [|exact He|apply requirement_in; tauto|done|done|done|fresh_id];
    rewrite rollback_params; cbv iota; match goal with |- context [if isSome ?p then _ else _] => change (isSome p) with true end; cbv iota).
  reflexivity.
Qed.
End Compiled.

End Agreement.

(** ** Identity, times and signature *)

Lemma AsTime_New t : AsTime (Timestamp_New t) = t.
Proof. unfold AsTime, Timestamp_New, Second. simpl. symmetry. apply time_split. Qed.

(** Instants a timestamp can carry: the years 1 to 9999. *)
Definition timestampable (t : time) : Prop := zeroTime <= t < 253402300800 * Second.

Lemma CheckValid_New t : timestampable t -> Timestamp_CheckValid (Timestamp_New t) = true.
Proof.
  intros Ht. unfold timestampable, zeroTime, Second in Ht. unfold Timestamp_CheckValid, Timestamp_New, Second; simpl.
  pose proof (time_split t) as Es. unfold Unix, Nanosecond in *. pose proof (Z.mod_pos_bound t 1000000000). lia.
Qed.

Lemma all_chars_app p a b : all_chars p (a +:+ b) = all_chars p a && all_chars p b.
Proof. induction a as [|c a IH]; simpl; [done|]. by rewrite IH, andb_assoc. Qed.

Lemma all_chars_impl p q s : (forall b, p b = true -> q b = true) -> all_chars p s = true -> all_chars q s = true.
Proof. intros Hpq. rewrite !all_chars_forall. intros Hs. eapply Forall_impl; [exact Hs|exact Hpq]. Qed.

Section Accepted.
Context {H : Hasher} {E : Ed25519}.

Lemma planID_token id node a b : safePlanToken (deterministicPlanID id node a b) = true.
Proof.
  unfold safePlanToken, deterministicPlanID. set (digest := take 16 _).
  assert (Forall is_byte digest) as Hd by apply Forall_take, sum256_bytes.
  assert (length digest = 16%nat) as Hl by (unfold digest; rewrite length_take, sum256_length; done).
  assert (slen ("plan_" +:+ hexEncode digest) = 37) as Hs.
  { unfold slen. change (String.length ("plan_" +:+ hexEncode digest)) with (5 + String.length (hexEncode digest))%nat.
    rewrite hexEncode_length, Hl. done. }
  rewrite Hs. simpl. apply (all_chars_impl hex_char); [|by apply hexEncode_chars].
  intros x. unfold hex_char, token_byte. lia.
Qed.

Lemma nonce_length key id node a b : len (deriveNonce key id node a b) = sha256_Size.
Proof. unfold deriveNonce, hmac256, len. by rewrite sum256_length. Qed.

Lemma newSignature_Ok domain keyID key digest t s :
  newSignature domain keyID key digest t = Ok s ->
  exists input, signatureInput domain s = Ok input /\ Signature_Value s = ed_sign key input /\
    Signature_KeyId s = keyID /\ Signature_SignedAt s = Some (Timestamp_New t) /\
    Signature_SignedContentDigest s = Some (mkIntegrity "sha256" digest) /\ signatureKnown (Some s) = true.
Proof.
  unfold newSignature. intros (input & Hi & [= <-])%rbind_Ok. exists input. by split_and!.
Qed.

Lemma newSignature_timestampable domain keyID key digest t s :
  newSignature domain keyID key digest t = Ok s -> Timestamp_CheckValid (Timestamp_New t) = true.
Proof.
  unfold newSignature. intros (input & Hi & _)%rbind_Ok. unfold signatureInput in Hi. simpl in Hi.
  destruct (Timestamp_CheckValid (Timestamp_New t)); [done|]. by rewrite !orb_true_r in Hi.
Qed.

Context (ToLower : string -> string) (sizeProfile : ProtectionProfile -> Z) (sizePlan : Plan -> Z)
  (marshalPlan : Plan -> option (list Z)).

(** The enforcer of the node a plan is compiled for, with the compiler's
    public key pinned. *)
Record provisioned (e : Enforcer) (c : Compiler) (nodeID : string) (manifest : CapabilityManifest) : Prop := {
  pv_deployment : Enforcer_deploymentID e = Compiler_deploymentID c;
  pv_node : Enforcer_nodeID e = nodeID;
  pv_keyID : Enforcer_planKeyID e = Compiler_keyID c;
  pv_key : Enforcer_planPublicKey e = Public (Compiler_key c);
  pv_manifest : Enforcer_capabilities e = manifest;
}.

Lemma recovery_values l : validUniqueValues l 1 32 512 = true ->
  (len l =? 0) || (32 <? len l) = false /\
  forallb recoveryDestination l = forallb (fun v => negb (hasControl v)) l.
Proof.
  unfold validUniqueValues. destruct (_ || _) eqn:Hl; [done|]. intros Hu. split; [lia|]. clear Hl.
  revert Hu. generalize (∅ : gset string). induction l as [|v l IH]; intros seen; [done|].
  cbn [uniqueValues forallb]. destruct (eqs v EmptyString || (512 <? slen v) || negb (trimmed v)) eqn:Hv; [done|].
  case_bool_decide; [done|]. intros Hu. rewrite (IH _ Hu). f_equal. unfold recoveryDestination. by rewrite Hv.
Qed.

(** The guards before the loops, on a compiled plan. *)
Lemma VerifyPlan_compiled c unsigned encoded s now t :
  marshalPlan (signableView unsigned) = Some encoded -> ed_key (Compiler_key c) ->
  newSignature planDomain (Compiler_keyID c) (Compiler_key c) (sum256 encoded) now = Ok s ->
  timesValid unsigned t = true ->
  VerifyPlan marshalPlan (withSignature s unsigned) (Public (Compiler_key c)) t = Ok tt.
Proof.
  intros Henc Hkey Hs Ht. destruct (newSignature_Ok _ _ _ _ _ _ Hs) as (input & Hi & Hv & _ & _ & Hd & _).
  unfold VerifyPlan. simpl. change (signableView (withSignature s unsigned)) with (signableView unsigned).
  rewrite Henc, Hd, Hi, Hv. simpl. rewrite bool_decide_true by done. unfold Public.
  rewrite ed_verify_sign by done.
  assert ((len (drop 32 (Compiler_key c)) =? PublicKeySize) = true) as ->.
  { unfold len. rewrite length_drop, ed_key_length by done. done. }
  unfold timesValid in Ht. destruct (Plan_CreatedAt unsigned) as [created|]; [|done].
  destruct (Plan_ExpiresAt unsigned) as [expires|]; [|done]. unfold Minute, Second. simpl.
  apply andb_true_iff in Ht as [[[[-> ->]%andb_true_iff Hc%negb_true_iff]%andb_true_iff He]%andb_true_iff _].
  rewrite He. simpl. replace (_ <? AsTime created) with false by lia. done.
Qed.

Definition enforceable (id : string) (egress : EgressPolicy) (dns : DnsPolicy) : bool :=
  safePlanToken id && listsOk egress dns.

(** C32. The compiler and the enforcer agree up to a stated gap: a plan compiled
    from a profile without violations is accepted by the enforcer of its node,
    at any instant of its five minutes, exactly when the policy id is a plan
    token and the four lists of the profile (destinations, recovery
    destinations, exits, resolvers) are within the enforcer's own bounds. *)
Theorem compiled_plan_accepted c p nodeID revision manifest now plan e t :
  Compile ToLower sizeProfile marshalPlan c (Some p) nodeID revision (Some manifest) now = Ok (inl plan) ->
  ed_key (Compiler_key c) -> provisioned e c nodeID manifest -> sizePlan plan <= maximumPlanBytes ->
  timestampable (now + 5 * Minute) -> now <= t < now + 5 * Minute ->
  exists m egress dns, Profile_Metadata p = Some m /\ Profile_Egress p = Some egress /\ Profile_Dns p = Some dns /\
    (validatePlan sizePlan marshalPlan e plan t = Ok tt <-> enforceable (Metadata_Id m) egress dns = true).
Proof.
  intros (m & mesh & egress & dns & s & encoded & Hacc & Hrev & Hnode & Hsup & Henc & Hs & ->)%Compile_plan Hkey Hp Hsize Hto Ht.
  destruct Hacc as [Hm _ He Hd Hr0 Hprov _ _ Hrecovery _]. exists m, egress, dns. split_and!; [done..|].
  destruct (newSignature_Ok _ _ _ _ _ _ Hs) as (input & _ & _ & Hkid & Hsat & _ & Hknown).
  pose proof (newSignature_timestampable _ _ _ _ _ _ Hs) as Hnow. pose proof (CheckValid_New _ Hto) as Hexp.
  destruct (recovery_values _ Hrecovery) as [Hrl Hrd]. destruct Hp as [Hdep Hnid Hkeyid Hpub Hman].
  set (unsigned := compilePlan _ _ _ _ _ _ _ _ _ _) in *.
  assert (timesValid unsigned t = true) as Htimes.
  { unfold timesValid. simpl. rewrite Hnow, Hexp, !AsTime_New. unfold Minute, Second in *. lia. }
  assert (planKnown (withSignature s unsigned) = true) as Hk.
  { unfold planKnown. change (Plan_Signature (withSignature s unsigned)) with (Some s). rewrite Hknown. reflexivity. }
  assert (signerValid e (withSignature s unsigned) t = true) as Hsigner.
  { unfold signerValid. simpl. rewrite Hkid, Hkeyid, eqs_refl, Hsat, Hnow, !AsTime_New. unfold Minute, Second in *. lia. }
  pose proof (VerifyPlan_compiled c unsigned encoded s now t Henc Hkey Hs Htimes) as Hverify.
  unfold validatePlan, validatePlanMode. rewrite Hk, Hpub, Hverify, Hsigner.
  change (timesValid (withSignature s unsigned) t) with (timesValid unsigned t). rewrite Htimes.
  replace (maximumPlanBytes <? _) with false by lia. cbn [orb negb is_ok].
  change (Plan_DeploymentId (withSignature s unsigned)) with (Compiler_deploymentID c).
  change (Plan_NodeId (withSignature s unsigned)) with nodeID. rewrite Hdep, Hnid, !eqs_refl. cbn [orb negb].
  change (Plan_Id (withSignature s unsigned)) with (deterministicPlanID (Metadata_Id m) nodeID (Metadata_Revision m) revision).
  change (Plan_Nonce (withSignature s unsigned)) with (deriveNonce (Seed (Compiler_key c)) (Metadata_Id m) nodeID (Metadata_Revision m) revision).
  change (Plan_PolicyId (withSignature s unsigned)) with (Metadata_Id m).
  change (Plan_PolicyRevision (withSignature s unsigned)) with (Metadata_Revision m).
  change (Plan_Revision (withSignature s unsigned)) with revision.
  rewrite planID_token, nonce_length. apply Z.eqb_neq in Hr0, Hrev. rewrite Hr0, Hrev, Z.eqb_refl. cbn [orb negb].
  unfold enforceable. destruct (safePlanToken (Metadata_Id m)); [|done]. cbn [orb negb].
  change (Plan_Status (withSignature s unsigned)) with PlanStatusSigned. rewrite Z.eqb_refl. cbn [andb negb].
  change (Plan_RecoveryAllowlist (withSignature s unsigned)) with (Egress_RecoveryDestinations egress).
  rewrite Hrl, Hrd. change (structureValid (withSignature s unsigned)) with true.
  change (validPlanLayout (withSignature s unsigned)) with true. cbn [negb].
  destruct (forallb (fun v => negb (hasControl v)) (Egress_RecoveryDestinations egress)) eqn:Hctl; cbn [negb].
  2: { unfold listsOk, listOk. rewrite Hctl, !andb_false_r. done. }
  change (Plan_Preconditions (withSignature s unsigned)) with (Plan_Preconditions unsigned).
  change (Plan_Verifications (withSignature s unsigned)) with (Plan_Verifications unsigned).
  change (Plan_Actions (withSignature s unsigned)) with (Plan_Actions unsigned).
  change (Plan_Rollback (withSignature s unsigned)) with (Plan_Rollback unsigned).
  rewrite (compiled_preconditions ToLower manifest Hsup e Hman c (Metadata_Id m) nodeID (Metadata_Revision m) revision mesh egress dns now
    : validChecks e true _ _ (Plan_Preconditions unsigned) = _). cbn [rbind].
  rewrite (compiled_verifications ToLower manifest Hsup e Hman c (Metadata_Id m) nodeID (Metadata_Revision m) revision mesh egress dns now
    : validChecks e true _ _ (Plan_Verifications unsigned) = _). cbn [rbind andb].
  rewrite <- (compiled_operations ToLower manifest Hsup e Hman c (Metadata_Id m) nodeID (Metadata_Revision m) revision mesh egress dns now Hprov).
  fold unsigned. destruct (validOperations e true false _ _ _) as [ids|]; [|done]. cbn [rbind].
  by destruct (validOperations e true true _ _ _).
Qed.

Lemma validOperations_params e rc rollback allowlist ids operations ids' :
  validOperations e rc rollback allowlist ids operations = Ok ids' ->
  Forall (fun o => match o with Some o => paramsOk o rollback allowlist = true | None => False end) operations.
Proof.
  revert ids. induction operations as [|[o|] rest IH]; intros ids Ho; [constructor| |done].
  cbn [validOperations] in Ho. validated Ho. constructor; [|by eapply IH].
  apply orb_false in Hv as [[_ Hp%negb_false_iff]%orb_false _]. unfold paramsOk. rewrite Hp. by apply negb_false_iff.
Qed.

(** A gap between the packages: a profile that routes egress over the mesh
    need not list exits, is compiled and signed, and its plan is refused by
    every enforcer, whatever its keys, node and clock. *)
Theorem mesh_policy_unenforceable c p nodeID revision manifest now plan egress e t :
  Compile ToLower sizeProfile marshalPlan c (Some p) nodeID revision (Some manifest) now = Ok (inl plan) ->
  Profile_Egress p = Some egress -> Egress_AllowedExitNodeIds egress = [] ->
  Egress_Mode egress = EgressModeMesh /\ is_ok (validatePlan sizePlan marshalPlan e plan t) = false.
Proof.
  intros (m & mesh & egress' & dns & s & encoded & [_ _ He _ _ _ Hx Hmode] & _ & _ & _ & _ & _ & ->)%Compile_plan Hegress Hnil.
  rewrite He in Hegress. injection Hegress as ->. split.
  { destruct Hmode as [?|Ht]; [done|]. specialize (Hx Ht). by rewrite Hnil in Hx. }
  apply not_true_is_false. rewrite is_ok_unit. unfold validatePlan, validatePlanMode. intros Hv.
  validated Hv. apply validOperations_params in Hv13. cbn [compilePlan withSignature Plan_Actions] in Hv13.
  do 2 apply Forall_cons in Hv13 as [_ Hv13]. apply Forall_cons in Hv13 as [Hroute _].
  by rewrite route_params, Hnil in Hroute.
Qed.
End Accepted.

(** ** Concrete profiles *)

(** A signature scheme that obeys the laws, to run the theorems with: the
    signature of a message is the public key and the message. *)
Definition plainEd25519 : Ed25519.
Proof.
  refine {| ed_sign := fun key message => drop 32 key ++ message;
            ed_verify := fun public message signature => bool_decide (signature = public ++ message);
            ed_key := fun key => length key = 64%nat |}; [done|].
  intros key message _. by apply bool_decide_true.
Defined.

Definition demo_profile (mode : Z) (exits : list string) : ProtectionProfile :=
  mkProfile (Some (mkMetadata "policy-1" 4)) policyAPIVersion ModeGuard (Some (mkMesh true "tailscale"))
    (Some (mkEgress mode FailModeClosed exits ["10.0.0.0/8"] ["recovery.example:443"]))
    (Some (mkDns DnsModeProtected ["10.0.0.53"] true)) (Some (mkNetwork true 1 true))
    [Some (mkAction ["operator"] ["app"] true 1)] (Some (mkTelemetry false 7)) false false.

Definition demo_manifest : CapabilityManifest :=
  mkManifest "node-1" ((fun r => Some (mkCapability (Requirement_Key r) [1; 2; 3; 4] SupportFull)) <$> planRequirements) false.

Definition demo_compiler : Compiler := mkCompiler "deployment-1" "key-1" (repeat 7 64).
Definition demo_enforcer : Enforcer :=
  mkEnforcer "deployment-1" "node-1" "key-1" (repeat 7 32) "node-1" (repeat 9 64) demo_manifest (2 * Minute) Minute.
Definition demo_marshal_plan (p : Plan) : option (list Z) := Some (bytes_of (Plan_Id p) ++ Plan_Nonce p).

Definition demo_instant : time := 1700000000 * Second.

Definition demo_compile (mode : Z) (exits : list string) : result (Plan + list PolicyViolation) :=
  @Compile sha256 plainEd25519 (fun s => s) (fun _ => 1000) demo_marshal_plan demo_compiler
    (Some (demo_profile mode exits)) "node-1" 9 (Some demo_manifest) demo_instant.

Definition is_plan (r : result (Plan + list PolicyViolation)) : bool :=
  match r with Ok (inl _) => true | _ => false end.

Lemma is_plan_exists r : is_plan r = true -> exists plan, r = Ok (inl plan).
Proof. destruct r as [[plan|]|]; [eauto|done..]. Qed.

Lemma compiled_plan_accepted_witness : exists plan,
  demo_compile EgressModeTrustedExit ["exit-1"] = Ok (inl plan) /\
  @validatePlan sha256 plainEd25519 (fun _ => 1000) demo_marshal_plan demo_enforcer plan (demo_instant + Second) = Ok tt.
Proof.
  assert (is_plan (demo_compile EgressModeTrustedExit ["exit-1"]) = true) as Hp by (vm_compute; reflexivity).
  destruct (is_plan_exists _ Hp) as [plan Hplan]. exists plan. split; [exact Hplan|].
  destruct (@compiled_plan_accepted sha256 plainEd25519 (fun s => s) (fun _ => 1000) (fun _ => 1000) demo_marshal_plan
    demo_compiler (demo_profile EgressModeTrustedExit ["exit-1"]) "node-1" 9 demo_manifest demo_instant plan demo_enforcer
    (demo_instant + Second) Hplan eq_refl) as (m & egress & dns & Hm & He & Hd & Hiff).
  - constructor; reflexivity.
  - apply Z.leb_le. vm_compute. reflexivity.
  - split; [apply Z.leb_le|apply Z.ltb_lt]; vm_compute; reflexivity.
  - split; [apply Z.leb_le|apply Z.ltb_lt]; vm_compute; reflexivity.
  - injection Hm as <-. injection He as <-. injection Hd as <-. apply Hiff. vm_compute. reflexivity.
Defined.

Lemma mesh_policy_unenforceable_witness : exists plan,
  demo_compile EgressModeMesh [] = Ok (inl plan) /\
  is_ok (@validatePlan sha256 plainEd25519 (fun _ => 1000) demo_marshal_plan demo_enforcer plan (demo_instant + Second)) = false.
Proof.
  assert (is_plan (demo_compile EgressModeMesh []) = true) as Hp by (vm_compute; reflexivity).
  destruct (is_plan_exists _ Hp) as [plan Hplan]. exists plan. split; [exact Hplan|].
  apply (@mesh_policy_unenforceable sha256 plainEd25519 (fun s => s) (fun _ => 1000) (fun _ => 1000) demo_marshal_plan
    demo_compiler (demo_profile EgressModeMesh []) "node-1" 9 demo_manifest demo_instant plan _ demo_enforcer
    (demo_instant + Second) Hplan eq_refl eq_refl).
Defined.
