(* ===== verification/EnforcementFacts.v ===== *)
(** * What one [Apply] of the enforcer does

    A driver is observed through a log of the calls made to it. For every
    driver, store, clock and schedule of deadlines and cancellations, the log
    of one [Apply] is a run of a small specification of a transaction: checks,
    then actions, then verifications, then, after a failure, every rollback
    operation in the order of the plan. *)

From S2P Require Import Prelude Sha256 Digest Contract Plan Policy Enforcement EnforcementRun.
From stdpp Require Import base gmap list strings.
From Stdlib Require Import ZArith Lia.

Open Scope Z_scope.

(** ** The driver, observed *)

Inductive driverCall : Type :=
| CalledCheck (c : PCheck)
| CalledApply (o : POperation)
| CalledRollback (o : POperation).

Definition callId (c : driverCall) : string :=
  match c with CalledCheck c => PCheck_Id c | CalledApply o | CalledRollback o => POperation_Id o end.

Definition logged {D A : Type} (call : driverCall) (m : M D A) : M (list driverCall * D) A :=
  run! modS (fun s => (fst s ++ [call], snd s)) in zoom snd (fun d s => (fst s, d)) m.

(** Any driver, with a log of its calls. *)
#[export] Instance observedDriver {D : Type} `{PlanDriver D} : PlanDriver (list driverCall * D) := {|
  PD_Check ctx c := logged (CalledCheck c) (PD_Check ctx c);
  PD_Apply ctx o := logged (CalledApply o) (PD_Apply ctx o);
  PD_Rollback ctx o := logged (CalledRollback o) (PD_Rollback ctx o);
|}.

(** ** The specification of a transaction *)

Section Facts.
Context {H : Hasher} {E : Ed25519}.
Context (sizePlan : Plan -> Z) (marshalPlan : Plan -> option (list Z)).
Context (sizeEvidence : EvidenceReference -> Z) (marshalResult : PlanExecutionResult -> option (list Z)).
Context {D S : Type} {PD : PlanDriver D} {SS : StateStore S}.
Context (clock wall : clockT) (enforcer : Enforcer).

Abbreviation state := (@EState (list driverCall * D) S).

Definition callsOf (st : state) : list driverCall := fst (ES_driver st).

(** What a check result says of its check: a pass rests on valid evidence,
    some of it current and supporting at the instant of the check. *)
Definition supportedPass (c : PCheck) (r : CheckResult) : Prop :=
  CR_CheckId r = PCheck_Id c /\
  (CR_Outcome r = CheckOutcomePassed -> exists t,
     CR_CheckedAt r = Timestamp_New t /\ hasCurrentSupportingEvidence enforcer (CR_Evidence r) t = true /\
     Forall (fun e => validEvidence sizeEvidence (Some e) t = true) (CR_Evidence r)).

Inductive checked : list PCheck -> list CheckResult -> bool -> list driverCall -> Prop :=
| checked_all : checked [] [] true []
| checked_stop c rest r : supportedPass c r -> PCheck_Required c = true -> CR_Outcome r <> CheckOutcomePassed ->
    checked (c :: rest) [r] false [CalledCheck c]
| checked_next c rest r rs ok calls : supportedPass c r ->
    (PCheck_Required c = true -> CR_Outcome r = CheckOutcomePassed) ->
    checked rest rs ok calls -> checked (c :: rest) (r :: rs) ok (CalledCheck c :: calls).

Inductive acted : list POperation -> list OperationResult -> bool -> list driverCall -> Prop :=
| acted_all : acted [] [] true []
| acted_stop o rest r : OR_OperationId r = POperation_Id o -> OR_Succeeded r = false ->
    acted (o :: rest) [r] false [CalledApply o]
| acted_next o rest r rs ok calls : OR_OperationId r = POperation_Id o -> OR_Succeeded r = true ->
    acted rest rs ok calls -> acted (o :: rest) (r :: rs) ok (CalledApply o :: calls).

Definition undone (operations : list POperation) (rs : list OperationResult) (calls : list driverCall) : Prop :=
  Forall2 (fun o r => OR_OperationId r = POperation_Id o) operations rs /\ calls = CalledRollback <$> operations.

(** How a rollback ends. *)
Definition undoneAs (rs : list OperationResult) (status : Z) : Prop :=
  status = if forallb OR_Succeeded rs then PlanStatusRolledBack else PlanStatusFailed.

Inductive transaction (p : Plan) : Z -> PlanExecutionResult -> list driverCall -> Prop :=
| transaction_rejected r calls :
    checked (omap id (Plan_Preconditions p)) (Result_PreconditionResults r) false calls ->
    Result_OperationResults r = [] -> Result_VerificationResults r = [] -> Result_RollbackResults r = [] ->
    transaction p PlanStatusRejected r calls
| transaction_unacted r status pre act undo :
    checked (omap id (Plan_Preconditions p)) (Result_PreconditionResults r) true pre ->
    acted (omap id (Plan_Actions p)) (Result_OperationResults r) false act ->
    Result_VerificationResults r = [] ->
    undone (omap id (Plan_Rollback p)) (Result_RollbackResults r) undo -> undoneAs (Result_RollbackResults r) status ->
    transaction p status r (pre ++ act ++ undo)
| transaction_unverified r status pre act ver undo :
    checked (omap id (Plan_Preconditions p)) (Result_PreconditionResults r) true pre ->
    acted (omap id (Plan_Actions p)) (Result_OperationResults r) true act ->
    checked (omap id (Plan_Verifications p)) (Result_VerificationResults r) false ver ->
    undone (omap id (Plan_Rollback p)) (Result_RollbackResults r) undo -> undoneAs (Result_RollbackResults r) status ->
    transaction p status r (pre ++ act ++ ver ++ undo)
| transaction_committed r pre act ver :
    checked (omap id (Plan_Preconditions p)) (Result_PreconditionResults r) true pre ->
    acted (omap id (Plan_Actions p)) (Result_OperationResults r) true act ->
    checked (omap id (Plan_Verifications p)) (Result_VerificationResults r) true ver ->
    Result_RollbackResults r = [] ->
    transaction p PlanStatusCommitted r (pre ++ act ++ ver).

(** ** The phases run as specified *)

(** A driver call adds itself to the log and leaves the store alone. *)
Definition oneCall (st st' : state) (calls : list driverCall) : Prop :=
  callsOf st' = callsOf st ++ calls /\ ES_store st' = ES_store st.

Lemma oneCall_nil st : oneCall st st [].
Proof. split; [by rewrite app_nil_r|done]. Qed.

Lemma oneCall_trans st st' st'' a b : oneCall st st' a -> oneCall st' st'' b -> oneCall st st'' (a ++ b).
Proof. intros [Ha Sa] [Hb Sb]. split; [by rewrite Hb, Ha, app_assoc|congruence]. Qed.

Lemma wp_observed {A B} ctx call (k : called B -> M (list driverCall * D) A) (m : M D (called B)) (st : state) :
  (forall x s, wp (k x) (fun _ s' => s' = s) s) ->
  wp (observed ctx (bindM (logged call m) k)) (fun r st' => (exists o, r = Ok o) /\ oneCall st st' [call]) st.
Proof.
  intros Hk. unfold observed, onPlanDriver. repeat wp_step. unfold logged. repeat wp_step.
  eapply wp_mono; [apply wp_any|]. intros x d' _.
  assert (oneCall st (set_plan_driver (fst (ES_driver st) ++ [call], d') st) [call]) as Hone by done.
  destruct x as [x|e]; simpl; [|split; [by eexists|done]].
  eapply wp_mono; [apply Hk|]. intros [a|e] s' ->; simpl; [|split; [by eexists|done]].
  repeat wp_step; simpl; (split; [by eexists|done]).
Qed.

Lemma wp_recovered {A} (e : error) (x : called A) (s : list driverCall * D) :
  wp (match x with Returned a => retM a | Panicked => failM e end) (fun _ s' => s' = s) s.
Proof. destruct x; wp_step; done. Qed.

Lemma checkResult_supported c obs t : supportedPass c (checkResult sizeEvidence enforcer c obs t).
Proof.
  unfold checkResult, supportedPass. destruct (forallb _ _) eqn:Hall; simpl; [|split; [done|by intros [=]]].
  assert (Forall (fun e => validEvidence sizeEvidence (Some e) t = true) (omap id (PCO_Evidence obs))) as Hvalid.
  { rewrite Forall_forall. intros e (o & Ho & Heq)%list_elem_of_omap. simpl in Heq. subst o.
    rewrite forallb_forall in Hall. by apply Hall, list_elem_of_In. }
  destruct ((_ =? CheckOutcomeUnspecified) || _) eqn:Hmissing; [split; [done|by intros [=]]|].
  destruct (_ && (_ =? CheckOutcomeSkipped)) eqn:Hskip; [split; [done|by intros [=]]|].
  split; [done|]. simpl. intros Hp. exists t. split_and!; [done| |done].
  rewrite Hp in Hmissing. simpl in Hmissing. by apply negb_false_iff in Hmissing.
Qed.

Lemma runCheck_spec parent c st :
  wp (runCheck sizeEvidence clock wall enforcer parent c)
    (fun r st' => exists cr, r = Ok cr /\ supportedPass c cr /\ oneCall st st' [CalledCheck c]) st.
Proof.
  unfold runCheck, safelyCheck, recovering. repeat wp_step.
  eapply wp_mono; [apply wp_observed; intros; apply wp_recovered|].
  intros r st' [[obs ->] Hone]. wp_step. repeat wp_step. eexists. split; [done|]. split; [|done].
  destruct obs; [apply checkResult_supported|]. split; [done|]. by intros [=].
Qed.

Lemma runOperation_spec parent o rollback st :
  wp (runOperation clock wall parent o rollback)
    (fun r st' => exists x, r = Ok x /\ OR_OperationId x = POperation_Id o /\
       oneCall st st' [if rollback then CalledRollback o else CalledApply o]) st.
Proof.
  unfold runOperation, safelyOperate, recovering. repeat wp_step.
  assert (forall ctx, (if rollback then PD_Rollback ctx o else PD_Apply ctx o) =
    logged (if rollback then CalledRollback o else CalledApply o)
      (if rollback then @PD_Rollback D PD ctx o else @PD_Apply D PD ctx o)) as -> by (intros; by destruct rollback).
  eapply wp_mono; [apply wp_observed; intros; apply wp_recovered|].
  intros r st' [[obs ->] Hone]. wp_step. repeat wp_step. eexists. split; [done|]. split; [|done].
  by destruct obs.
Qed.

Lemma runChecks_spec ctx checks st :
  wp (runChecks sizeEvidence clock wall enforcer ctx checks)
    (fun r st' => exists rs ok calls, r = Ok (rs, ok) /\ checked checks rs ok calls /\ oneCall st st' calls) st.
Proof.
  revert st. induction checks as [|c rest IH]; intros st; simpl.
  { wp_step. eexists _, _, _. split; [done|]. split; [constructor|apply oneCall_nil]. }
  wp_step. eapply wp_mono; [apply runCheck_spec|]. intros r st1 (cr & -> & Hs & Hone). wp_step.
  destruct (PCheck_Required c && negb (CR_Outcome cr =? CheckOutcomePassed)) eqn:Hstop.
  - apply andb_true_iff in Hstop as [Hreq Hne%negb_true_iff%Z.eqb_neq]. wp_step.
    eexists _, _, _. split; [done|]. split; [by apply checked_stop|done].
  - wp_step. eapply wp_mono; [apply IH|]. intros r st2 (rs & ok & calls & -> & Hc & Hmore). wp_step. wp_step.
    eexists _, _, _. split; [done|]. split; [|apply (oneCall_trans _ _ _ _ _ Hone Hmore)].
    apply checked_next; [done| |done]. intros Hr. rewrite Hr in Hstop. simpl in Hstop.
    by apply negb_false_iff, Z.eqb_eq in Hstop.
Qed.

Lemma runActions_spec ctx operations st :
  wp (runActions clock wall ctx operations)
    (fun r st' => exists rs ok calls, r = Ok (rs, ok) /\ acted operations rs ok calls /\ oneCall st st' calls) st.
Proof.
  revert st. induction operations as [|o rest IH]; intros st; simpl.
  { wp_step. eexists _, _, _. split; [done|]. split; [constructor|apply oneCall_nil]. }
  wp_step. eapply wp_mono; [apply runOperation_spec|]. intros r st1 (x & -> & Hid & Hone). wp_step.
  destruct (OR_Succeeded x) eqn:Hx; simpl; wp_step.
  - eapply wp_mono; [apply IH|]. intros r st2 (rs & ok & calls & -> & Hc & Hmore). wp_step. wp_step.
    eexists _, _, _. split; [done|]. split; [by apply acted_next|apply (oneCall_trans _ _ _ _ _ Hone Hmore)].
  - eexists _, _, _. split; [done|]. split; [by apply acted_stop|done].
Qed.

Lemma undoing_spec ctx operations st :
  wp (eachM (fun o => runOperation clock wall ctx o true) operations)
    (fun r st' => exists rs calls, r = Ok rs /\ undone operations rs calls /\ oneCall st st' calls) st.
Proof.
  revert st. induction operations as [|o rest IH]; intros st; simpl.
  { wp_step. eexists _, _. split; [done|]. split; [by split|apply oneCall_nil]. }
  wp_step. eapply wp_mono; [apply runOperation_spec|]. intros r st1 (x & -> & Hid & Hone). wp_step.
  wp_step. eapply wp_mono; [apply IH|]. intros r st2 (rs & calls & -> & [Hf ->] & Hmore). wp_step. wp_step.
  eexists _, _. split; [done|]. split; [split; [by constructor|done]|apply (oneCall_trans _ _ _ _ _ Hone Hmore)].
Qed.

(** ** The transaction as a whole *)

(** The identity of a result, which no phase changes. *)
Definition sameIdentity (r r' : PlanExecutionResult) : Prop :=
  Result_PlanId r' = Result_PlanId r /\ Result_NodeId r' = Result_NodeId r /\
  Result_PlanRevision r' = Result_PlanRevision r /\ Result_Unknown r' = Result_Unknown r.

(** How a transaction ends: the result is signed and given to the store; the
    driver is not called any more. *)
Definition ended (r : PlanExecutionResult) (status : Z) (reason : string) (ans : answer) (st st' : state) : Prop :=
  ES_driver st' = ES_driver st /\ exists t,
  match Enforcer_finish marshalResult enforcer r status reason t with
  | Err e => ans = (None, Some e) /\ ES_store st' = ES_store st
  | Ok terminal => exists c n n' persisted,
      State_Complete c terminal (n, ES_store st) = (persisted, (n', ES_store st')) /\
      ans = (Some terminal, match persisted with Ok _ => None | Err e => Some e end)
  end.

Lemma complete_spec r status reason st :
  wp (Enforcer_complete marshalResult clock wall enforcer r status reason)
    (fun res st' => exists ans, res = Ok ans /\ ended r status reason ans st st') st.
Proof.
  unfold Enforcer_complete. wp_step. wp_step. wp_step.
  destruct (Enforcer_finish _ _ r status reason (clock n)) as [terminal|e] eqn:Hf.
  - wp_step. wp_step. wp_step. wp_step. wp_step. unfold onStore. wp_step. intros m.
    destruct (State_Complete c terminal (m, ES_store st)) as [persisted [m' s']] eqn:Hc. wp_step. wp_step.
    eexists. split; [done|]. split; [done|]. exists (clock n). rewrite Hf. by exists c, m, m', persisted.
  - wp_step. eexists. split; [done|]. split; [done|]. exists (clock n). by rewrite Hf.
Qed.

(** A run of the plan from a fresh reservation. *)
Definition transacted (p : Plan) (r : PlanExecutionResult) (ans : answer) (st st' : state) : Prop :=
  exists status reason r' calls mid, oneCall st mid calls /\ sameIdentity r r' /\
    transaction p status r' calls /\ ended r' status reason ans mid st'.

Lemma rollback_spec p r reason (st mid : state) before :
  oneCall st mid before -> Result_RollbackResults r = [] ->
  (forall status rs undo, undone (omap id (Plan_Rollback p)) rs undo -> undoneAs rs status ->
     transaction p status (addRollbacks rs r) (before ++ undo)) ->
  wp (Enforcer_rollback marshalResult clock wall enforcer p r reason)
    (fun res st' => exists ans, res = Ok ans /\ transacted p r ans st st') mid.
Proof.
  intros Hone Hempty Ht. unfold Enforcer_rollback. wp_step. wp_step. wp_step.
  wp_step. eapply wp_mono; [apply undoing_spec|]. intros res st1 (rs & calls & -> & Hu & Hmore). wp_step.
  pose proof (oneCall_trans _ _ _ _ _ Hone Hmore) as Hall.
  destruct (forallb OR_Succeeded rs) eqn:Hs;
    (eapply wp_mono; [apply complete_spec|]; intros res2 st' (ans & -> & Hend);
     exists ans; split; [done|]; do 4 eexists; exists st1; split; [exact Hall|]; split; [|split; [|exact Hend]]; [done|];
     apply Ht; [done|by unfold undoneAs; rewrite Hs]).
Qed.

(** A result to which nothing has been added. *)
Definition fresh (r : PlanExecutionResult) : Prop :=
  Result_PreconditionResults r = [] /\ Result_OperationResults r = [] /\
  Result_VerificationResults r = [] /\ Result_RollbackResults r = [].

Lemma execute_spec ctx p r st : fresh r ->
  wp (execute sizeEvidence marshalResult clock wall enforcer ctx p r)
    (fun res st' => exists ans, res = Ok ans /\ transacted p r ans st st') st.
Proof.
  intros (Hp & Ho & Hv & Hr). unfold execute.
  wp_step. eapply wp_mono; [apply runChecks_spec|]. intros res st1 (pre & okp & callsp & -> & Hpre & H1). wp_step. simpl.
  destruct okp; simpl.
  2:{ eapply wp_mono; [apply complete_spec|]. intros res st' (ans & -> & Hend). exists ans. split; [done|].
      do 4 eexists. exists st1. split; [exact H1|]. split; [|split; [|exact Hend]]; [done|].
      apply transaction_rejected; simpl; by rewrite ?Hp. }
  wp_step. eapply wp_mono; [apply runActions_spec|]. intros res st2 (act & oka & callsa & -> & Hact & H2). wp_step. simpl.
  pose proof (oneCall_trans _ _ _ _ _ H1 H2) as H12.
  destruct oka; simpl.
  2:{ eapply wp_mono; [apply (rollback_spec _ _ _ _ _ _ H12); [done|]|].
      - intros status rs undo Hu Hs. rewrite <- app_assoc.
        apply transaction_unacted; simpl; by rewrite ?Hp, ?Ho, ?Hr.
      - intros res st' (ans & -> & Hans). exists ans. by split. }
  wp_step. eapply wp_mono; [apply runChecks_spec|]. intros res st3 (ver & okv & callsv & -> & Hver & H3). wp_step. simpl.
  pose proof (oneCall_trans _ _ _ _ _ H12 H3) as H123.
  destruct okv; simpl.
  - eapply wp_mono; [apply complete_spec|]. intros res st' (ans & -> & Hend). exists ans. split; [done|].
    do 4 eexists. exists st3. split; [exact H123|]. split; [|split; [|exact Hend]]; [done|].
    rewrite <- app_assoc. apply transaction_committed; simpl; by rewrite ?Hp, ?Ho, ?Hv.
  - eapply wp_mono; [apply (rollback_spec _ _ _ _ _ _ H123); [done|]|].
    + intros status rs undo Hu Hs. rewrite <- !app_assoc.
      eapply transaction_unverified; simpl; by rewrite ?Hp, ?Ho, ?Hv, ?Hr.
    + intros res st' (ans & -> & Hans). exists ans. by split.
Qed.

(** The result [Apply] starts from. *)
Definition blankResult (p : Plan) : PlanExecutionResult :=
  mkResult (Plan_Id p) (Enforcer_nodeID enforcer) (Plan_Revision p) 0 [] [] [] [] None EmptyString None false.

(** What one [Apply] does, on every branch. *)
Inductive applied (ctx : ctxT) (input : option Plan) (st : state) : answer -> state -> Prop :=
| applied_nil : input = None -> applied ctx input st (None, Some ErrPlanRequired) st
| applied_invalid p t reason : input = Some p -> validatePlan sizePlan marshalPlan enforcer p t = Err reason ->
    applied ctx input st (rejected marshalResult enforcer (blankResult p) (reasonCode reason) t) st
| applied_unreserved p t n n' s' e reason : input = Some p -> validatePlan sizePlan marshalPlan enforcer p t = Ok tt ->
    State_Reserve ctx (reservationOf p) (n, ES_store st) = (Err e, (n', s')) ->
    applied ctx input st (rejected marshalResult enforcer (blankResult p) reason t) (set_plan_store s' st)
| applied_replayed p t n n' s' existing ans : input = Some p -> validatePlan sizePlan marshalPlan enforcer p t = Ok tt ->
    State_Reserve ctx (reservationOf p) (n, ES_store st) = (Ok (Some existing), (n', s')) ->
    (ans = (None, Some ErrPersistedResult) \/
     ans = (Some existing, None) /\ Result_PlanId existing = Plan_Id p /\ Result_PlanRevision existing = Plan_Revision p /\
       Result_NodeId existing = Enforcer_nodeID enforcer /\
       VerifyExecutionResult marshalResult existing (Public (Enforcer_nodePrivateKey enforcer)) = Ok tt) ->
    applied ctx input st ans (set_plan_store s' st)
| applied_executed p t n n' s' ans st' : input = Some p -> validatePlan sizePlan marshalPlan enforcer p t = Ok tt ->
    State_Reserve ctx (reservationOf p) (n, ES_store st) = (Ok None, (n', s')) ->
    transacted p (blankResult p) ans (set_plan_store s' st) st' ->
    applied ctx input st ans st'.

Lemma Apply_spec ctx input st :
  wp (Enforcer_Apply sizePlan marshalPlan sizeEvidence marshalResult clock wall enforcer ctx input)
    (fun res st' => exists ans, res = Ok ans /\ applied ctx input st ans st') st.
Proof.
  unfold Enforcer_Apply. destruct input as [p|]; [|wp_step; eexists; split; [done|by apply applied_nil]].
  wp_step. wp_step. wp_step. fold (blankResult p). set (t := clock n).
  destruct (validatePlan _ _ enforcer p t) as [[]|reason] eqn:Hval.
  2:{ wp_step. eexists. split; [done|]. by eapply applied_invalid. }
  wp_step. wp_step. unfold onStore. wp_step. intros m.
  destruct (State_Reserve ctx (reservationOf p) (m, ES_store st)) as [[existing|e] [m' s']] eqn:Hres; wp_step.
  2:{ wp_step. eexists. split; [done|]. by eapply applied_unreserved. }
  destruct existing as [existing|].
  - destruct (_ || _) eqn:Hbad; wp_step; (eexists; split; [done|]; eapply applied_replayed; [done|exact Hval|exact Hres|]); [by left|right].
    apply orb_false in Hbad as [[[H1%negb_false_iff%eqs_true H2%negb_false_iff%Z.eqb_eq]%orb_false
      H3%negb_false_iff%eqs_true]%orb_false H4%negb_false_iff%is_ok_unit]. done.
  - eapply wp_mono; [by apply execute_spec|]. intros res st' (ans & -> & Ht). exists ans. split; [done|].
    by eapply applied_executed.
Qed.

(** ** What the layout fixes *)

Definition preconditionSteps : list string := ["preflight-current-state"].
Definition actionSteps : list string := ["guard-egress"; "connect-mesh"; "set-route"; "set-dns"].
Definition verificationSteps : list string := ["verify-mesh"; "verify-route"; "verify-dns"].
Definition rollbackSteps : list string := ["rollback-dns"; "rollback-route"; "rollback-firewall"].

Lemma matchesCheck_Some id kind contracts o : matchesCheck id kind contracts o = true ->
  exists c, o = Some c /\ PCheck_Id c = id /\ PCheck_Required c = true.
Proof.
  destruct o as [c|]; [|done]. simpl. intros Hc. exists c.
  apply andb_true_iff in Hc as [[[Hid%eqs_true _]%andb_true_iff Hr]%andb_true_iff _]. done.
Qed.

Lemma matchesOperation_Some id kind target contract o : matchesOperation id kind target contract o = true ->
  exists x, o = Some x /\ POperation_Id x = id.
Proof.
  destruct o as [x|]; [|done]. simpl. intros Hc. exists x.
  apply andb_true_iff in Hc as [[[Hid%eqs_true _]%andb_true_iff _]%andb_true_iff _]. done.
Qed.

(** The identifiers of the steps of a plan, and that its checks are required. *)
Record standardPlan (p : Plan) : Prop := {
  sp_preconditions : PCheck_Id <$> omap id (Plan_Preconditions p) = preconditionSteps;
  sp_actions : POperation_Id <$> omap id (Plan_Actions p) = actionSteps;
  sp_verifications : PCheck_Id <$> omap id (Plan_Verifications p) = verificationSteps;
  sp_rollback : POperation_Id <$> omap id (Plan_Rollback p) = rollbackSteps;
  sp_required : Forall (fun c => PCheck_Required c = true) (omap id (Plan_Preconditions p) ++ omap id (Plan_Verifications p));
}.

Lemma layout_standard p : validPlanLayout p = true -> standardPlan p.
Proof.
  unfold validPlanLayout.
  destruct (Plan_Preconditions p) as [|c0 [|]] eqn:E0; try done.
  destruct (Plan_Actions p) as [|a0 [|a1 [|a2 [|a3 [|]]]]] eqn:E1; try done.
  destruct (Plan_Verifications p) as [|v0 [|v1 [|v2 [|]]]] eqn:E2; try done.
  destruct (Plan_Rollback p) as [|u0 [|u1 [|u2 [|]]]] eqn:E3; try done.
  rewrite !andb_true_iff. intros Hall. destruct_and!.
  repeat match goal with
  | Hm : matchesCheck _ _ _ _ = true |- _ => apply matchesCheck_Some in Hm as (? & -> & ? & ?)
  | Hm : matchesOperation _ _ _ _ _ = true |- _ => apply matchesOperation_Some in Hm as (? & -> & ?)
  end.
  split; rewrite ?E0, ?E1, ?E2, ?E3; simpl; unfold preconditionSteps, actionSteps, verificationSteps, rollbackSteps;
    [congruence..|]. by repeat constructor.
Qed.

Lemma validatePlan_standard p t : validatePlan sizePlan marshalPlan enforcer p t = Ok tt -> standardPlan p.
Proof.
  unfold validatePlan, validatePlanMode. intros Hv. validated Hv.
  apply layout_standard. by match goal with Hl : negb (validPlanLayout p) = false |- _ => apply negb_false_iff in Hl end.
Qed.

Lemma checked_ids checks rs ok calls : checked checks rs ok calls ->
  callId <$> calls `prefix_of` PCheck_Id <$> checks /\ (ok = true -> calls = CalledCheck <$> checks).
Proof.
  induction 1 as [|c rest|c rest r rs ok calls Hs Hr Hc [IH1 IH2]]; simpl; [done|split; [|done]|split].
  - apply (prefix_cons _ []), prefix_nil.
  - by apply prefix_cons.
  - intros Hok. by rewrite (IH2 Hok).
Qed.

Lemma acted_ids operations rs ok calls : acted operations rs ok calls ->
  callId <$> calls `prefix_of` POperation_Id <$> operations /\ (ok = true -> calls = CalledApply <$> operations).
Proof.
  induction 1 as [|o rest|o rest r rs ok calls Hs Hr Hc [IH1 IH2]]; simpl; [done|split; [|done]|split].
  - apply (prefix_cons _ []), prefix_nil.
  - by apply prefix_cons.
  - intros Hok. by rewrite (IH2 Hok).
Qed.

Lemma checked_passed checks rs ok calls : checked checks rs ok calls -> ok = true ->
  Forall (fun c => PCheck_Required c = true) checks ->
  Forall2 (fun c r => supportedPass c r /\ CR_Outcome r = CheckOutcomePassed) checks rs.
Proof.
  induction 1 as [|c rest|c rest r rs ok calls Hs Hr Hc IH]; [constructor|done|].
  intros Hok [Hreq Hrest]%Forall_cons. constructor; [by split; [|apply Hr]|by apply IH].
Qed.

Lemma acted_succeeded operations rs ok calls : acted operations rs ok calls -> ok = true ->
  Forall2 (fun o r => OR_OperationId r = POperation_Id o /\ OR_Succeeded r = true) operations rs.
Proof.
  induction 1 as [|o rest|o rest r rs ok calls Hs Hr Hc IH]; [constructor|done|].
  intros Hok. constructor; [done|by apply IH].
Qed.

(** The result that a transaction gives to the store keeps its phases. *)
Lemma finish_keeps r status reason t terminal :
  Enforcer_finish marshalResult enforcer r status reason t = Ok terminal ->
  exists s, terminal = withNodeSignature (Some s) (withStatus status reason t r).
Proof.
  unfold Enforcer_finish, SignExecutionResult. intros Hf. validated Hf.
  destruct (marshalResult _); [|done]. validated Hf. injection Hf as <-. by eexists.
Qed.

Lemma rejected_status r reason t terminal err :
  rejected marshalResult enforcer r reason t = (Some terminal, err) -> Result_Status terminal = PlanStatusRejected.
Proof.
  unfold rejected. destruct (Enforcer_finish _ _ _ _ _ _) as [x|] eqn:Hf; [|done]. intros [= <- _].
  by apply finish_keeps in Hf as [s ->].
Qed.

Lemma ended_status r status reason terminal err st st' :
  ended r status reason (Some terminal, err) st st' ->
  Result_Status terminal = status /\ Result_PreconditionResults terminal = Result_PreconditionResults r /\
  Result_OperationResults terminal = Result_OperationResults r /\
  Result_VerificationResults terminal = Result_VerificationResults r /\
  Result_RollbackResults terminal = Result_RollbackResults r.
Proof.
  intros [_ [t Hend]]. destruct (Enforcer_finish _ _ _ _ _ t) as [x|] eqn:Hf; [|by destruct Hend].
  destruct Hend as (c & n & n' & persisted & _ & [= -> _]). by apply finish_keeps in Hf as [s ->].
Qed.

(** ** The claims *)

(** The driver is called only for a plan that passed the whole validation
    at the instant [Apply] read, and to which the store granted a fresh
    reservation; on every other branch, whatever the answer, the driver is
    left exactly as it was. *)
Theorem enforcement_gated ctx input (st : state) :
  wp (Enforcer_Apply sizePlan marshalPlan sizeEvidence marshalResult clock wall enforcer ctx input)
    (fun _ st' => ES_driver st' = ES_driver st \/
       exists p t n n' s', input = Some p /\ validatePlan sizePlan marshalPlan enforcer p t = Ok tt /\
         State_Reserve ctx (reservationOf p) (n, ES_store st) = (Ok None, (n', s'))) st.
Proof.
  eapply wp_mono; [apply Apply_spec|]. intros res st' (ans & _ & Happ). destruct Happ; [by left..|].
  right. by eexists _, _, _, _, _.
Qed.

(** C5. A COMMITTED answer that involved the driver means that all eight steps
    of the plan ran, once each and in the plan's order (capture, guard, mesh,
    route, DNS, three verifications), that every check passed on valid
    evidence of which some was current and supporting, that every action
    succeeded, and that nothing was rolled back. *)
Theorem committed_means_verified ctx input (st : state) :
  wp (Enforcer_Apply sizePlan marshalPlan sizeEvidence marshalResult clock wall enforcer ctx input)
    (fun res st' => forall terminal err, res = Ok (Some terminal, err) ->
       Result_Status terminal = PlanStatusCommitted -> callsOf st' <> callsOf st ->
       exists p calls, input = Some p /\ callsOf st' = callsOf st ++ calls /\
         callId <$> calls = preconditionSteps ++ actionSteps ++ verificationSteps /\
         Forall2 (fun c r => supportedPass c r /\ CR_Outcome r = CheckOutcomePassed)
           (omap id (Plan_Preconditions p) ++ omap id (Plan_Verifications p))
           (Result_PreconditionResults terminal ++ Result_VerificationResults terminal) /\
         Forall2 (fun o r => OR_OperationId r = POperation_Id o /\ OR_Succeeded r = true)
           (omap id (Plan_Actions p)) (Result_OperationResults terminal) /\
         Result_RollbackResults terminal = []) st.
Proof.
  eapply wp_mono; [apply Apply_spec|]. intros res st' (ans & -> & Happ) terminal err [= ->] Hst Hcalled.
  inversion Happ as [| | | |p t n n' s' a st2 Hin Hval Hres Ht]; subst; try done.
  destruct Ht as (status & reason & r' & calls & mid & [Hcalls _] & _ & Htr & Hend).
  destruct (validatePlan_standard _ _ Hval) as [Ip Ia Iv Iu Hreq%Forall_app]. destruct Hreq as [Rp Rv].
  pose proof (ended_status _ _ _ _ _ _ _ Hend) as (Es & -> & -> & -> & ->). rewrite Hst in Es. destruct Hend as [Hd _].
  exists p, calls. split; [done|]. split; [by unfold callsOf in *; rewrite Hd, Hcalls|].
  destruct Htr as [| ? ? ? ? ? ? ? ? ? Hu | ? ? ? ? ? ? ? ? ? ? Hu |r' pre act ver Hpre Hact Hver Hroll];
    [done|unfold undoneAs in Hu; destruct (forallb _ _); subst; done..|].
  split_and!; [| |by apply (acted_succeeded _ _ true act)|done].
  - rewrite (proj2 (checked_ids _ _ _ _ Hpre) eq_refl), (proj2 (acted_ids _ _ _ _ Hact) eq_refl),
      (proj2 (checked_ids _ _ _ _ Hver) eq_refl). rewrite !fmap_app, <- !list_fmap_compose. by rewrite <- Ip, <- Ia, <- Iv.
  - apply Forall2_app; [by apply (checked_passed _ _ true pre)|by apply (checked_passed _ _ true ver)].
Qed.

Definition isApply (c : driverCall) : bool := match c with CalledApply _ => true | _ => false end.
Definition isRollback (c : driverCall) : bool := match c with CalledRollback _ => true | _ => false end.

Lemma checked_noRollback checks rs ok calls : checked checks rs ok calls ->
  Forall (fun c => isRollback c = false /\ isApply c = false) calls.
Proof. induction 1; repeat constructor; auto. Qed.

Lemma acted_noRollback operations rs ok calls : acted operations rs ok calls -> Forall (fun c => isRollback c = false) calls.
Proof. induction 1; repeat constructor; auto. Qed.

(** What the log of a transaction shows, whatever its result. *)
Definition allOrUndone (calls : list driverCall) (committed : Prop) (undoneWith : list OperationResult -> Prop) : Prop :=
  Forall (fun c => isRollback c = false /\ isApply c = false) calls \/
  callId <$> calls = preconditionSteps ++ actionSteps ++ verificationSteps /\ committed \/
  exists before undo rs, calls = before ++ undo /\
    callId <$> before `prefix_of` preconditionSteps ++ actionSteps ++ verificationSteps /\
    Forall (fun c => isRollback c = false) before /\
    Forall (fun c => isRollback c = true) undo /\ callId <$> undo = rollbackSteps /\
    OR_OperationId <$> rs = rollbackSteps /\ undoneWith rs.

Lemma undone_ids p rs undo : standardPlan p -> undone (omap id (Plan_Rollback p)) rs undo ->
  Forall (fun c => isRollback c = true) undo /\ callId <$> undo = rollbackSteps /\ OR_OperationId <$> rs = rollbackSteps.
Proof.
  intros [_ _ _ Iu _] [Hf ->]. split; [|split].
  - rewrite Forall_fmap. by apply Forall_true.
  - by rewrite <- list_fmap_compose, <- Iu.
  - rewrite <- Iu. clear Iu. induction Hf as [|o r os rs Hr Hf IH]; [done|]. rewrite !fmap_cons, Hr. by f_equal.
Qed.

Lemma transaction_undoes p status r calls : standardPlan p -> transaction p status r calls ->
  allOrUndone calls (status = PlanStatusCommitted)
    (fun rs => Result_RollbackResults r = rs /\ undoneAs rs status).
Proof.
  intros Hp Ht. pose proof Hp as [Ip Ia Iv Iu _].
  destruct Ht as [r calls Hpre|r status pre act undo Hpre Hact _ Hu Hs
    |r status pre act ver undo Hpre Hact Hver Hu Hs|r pre act ver Hpre Hact Hver Hroll].
  - left. by eapply checked_noRollback.
  - right; right. exists (pre ++ act), undo, (Result_RollbackResults r).
    destruct (undone_ids p _ _ Hp Hu) as (? & ? & ?). split_and!; try done.
    + by rewrite app_assoc.
    + rewrite fmap_app, (proj2 (checked_ids _ _ _ _ Hpre) eq_refl), <- list_fmap_compose, <- Ip.
      apply prefix_app. rewrite <- Ia. apply prefix_app_r, (acted_ids _ _ _ _ Hact).
    + apply Forall_app. split; [|by eapply acted_noRollback].
      eapply Forall_impl; [by eapply checked_noRollback|]. by intros c [? _].
  - right; right. exists (pre ++ act ++ ver), undo, (Result_RollbackResults r).
    destruct (undone_ids p _ _ Hp Hu) as (? & ? & ?). split_and!; try done.
    + by rewrite !app_assoc.
    + rewrite !fmap_app, (proj2 (checked_ids _ _ _ _ Hpre) eq_refl), (proj2 (acted_ids _ _ _ _ Hact) eq_refl),
        <- !list_fmap_compose, <- Ip, <- Ia, <- Iv. do 2 apply prefix_app. apply (checked_ids _ _ _ _ Hver).
    + rewrite !Forall_app. split_and!; [| by eapply acted_noRollback|];
        (eapply Forall_impl; [by eapply checked_noRollback|]; by intros c [? _]).
  - right; left. split; [|done].
    rewrite (proj2 (checked_ids _ _ _ _ Hpre) eq_refl), (proj2 (acted_ids _ _ _ _ Hact) eq_refl),
      (proj2 (checked_ids _ _ _ _ Hver) eq_refl). rewrite !fmap_app, <- !list_fmap_compose. by rewrite <- Ip, <- Ia, <- Iv.
Qed.

(** C4. One [Apply] is all or undone. Either it made no mutating call; or it
    made all eight calls of the plan, and the answer is COMMITTED; or it made
    a prefix of them followed by every rollback operation of the plan (DNS,
    route, firewall), each once and in that order, whatever failed before,
    whatever the driver answered or panicked, and although the caller's
    context may be cancelled; and then the answer is ROLLED_BACK if every
    rollback succeeded and FAILED if one did not. *)
Theorem apply_all_or_undone ctx input (st : state) :
  wp (Enforcer_Apply sizePlan marshalPlan sizeEvidence marshalResult clock wall enforcer ctx input)
    (fun res st' => exists calls, callsOf st' = callsOf st ++ calls /\
       let answered status := forall terminal err, res = Ok (Some terminal, err) -> Result_Status terminal = status in
       allOrUndone calls (answered PlanStatusCommitted)
         (fun rs => answered (if forallb OR_Succeeded rs then PlanStatusRolledBack else PlanStatusFailed))) st.
Proof.
  eapply wp_mono; [apply Apply_spec|]. intros res st' (ans & -> & Happ).
  destruct Happ as [| | | |p t n n' s' a st2 Hin Hval Hres Ht];
    [exists []; split; [by rewrite app_nil_r|by left; constructor]..|].
  destruct Ht as (status & reason & r' & calls & mid & [Hcalls _] & _ & Htr & Hend).
  exists calls. split; [unfold callsOf in *; by rewrite (proj1 Hend), Hcalls|]. cbv zeta.
  assert (forall terminal err, a = (Some terminal, err) -> Result_Status terminal = status) as Hans.
  { intros terminal err ->. apply (ended_status _ _ _ _ _ _ _ Hend). }
  destruct (transaction_undoes _ _ _ _ (validatePlan_standard _ _ Hval) Htr)
    as [Hnone|[[Hids ->]|(before & undo & rs & Hcut & Hpre & Hb & Hu & Hids & Hrs & _ & Hs)]];
    [by left|right; left|right; right].
  - split; [done|]. intros terminal err [= ->]. by apply (Hans _ err).
  - exists before, undo, rs. split_and!; try done. rewrite <- Hs. intros terminal err [= ->]. by apply (Hans _ err).
Qed.
End Facts.
