(* ===== verification/ReplayFacts.v ===== *)
(** * Replay and signed results

    The state store decides whether a plan may run: at most once, and never
    out of order. With the in-process store, applying a finished plan again
    answers the stored result and leaves the host alone; the stored result is
    one the enforcer's own verification accepts. *)

From S2P Require Import Prelude Sha256 Digest Probe Contract Plan Policy Enforcement EnforcementRun PolicyFacts EnforcementFacts.
From stdpp Require Import base gmap list strings relations.
From Stdlib Require Import ZArith Lia.

Open Scope Z_scope.

(** ** The in-process store *)

(** One call on the store, whatever its answer. *)
Inductive store_step : MemoryStateStore -> MemoryStateStore -> Prop :=
| step_reserve ctx r n res n' s s' : MemoryStateStore_Reserve ctx r (n, s) = (res, (n', s')) -> store_step s s'
| step_complete ctx r n res n' s s' : MemoryStateStore_Complete ctx r (n, s) = (res, (n', s')) -> store_step s s'.

(** What [Reserve] does, on every branch. *)
Lemma Reserve_spec ctx r s :
  wp (MemoryStateStore_Reserve ctx r) (fun res s' =>
    match res with
    | Ok (Some result) => s' = s /\ MS_records s !! PR_PlanID r = Some (mkMemoryRecord r (Some result))
    | Ok None => MS_records s !! PR_PlanID r = None /\ PR_PolicyRevision r <> 0 /\ PR_PlanRevision r <> 0 /\
        MS_lastPolicyRevision s <= PR_PolicyRevision r /\ MS_lastPlanRevision s < PR_PlanRevision r /\
        s' = mkStateStore (PR_PolicyRevision r) (PR_PlanRevision r) (<[ PR_PlanID r := mkMemoryRecord r None ]> (MS_records s))
    | Err _ => s' = s
    end) s.
Proof.
  unfold MemoryStateStore_Reserve. wp_step. wp_step; [|done]. wp_step. wp_step. wp_step. wp_step.
  destruct (MS_records s !! PR_PlanID r) as [[r0 result]|] eqn:Hl; simpl.
  - case_bool_decide as Hr; simpl; [subst|by wp_step]. destruct result; by wp_step.
  - destruct (_ || _) eqn:Hbad; [by wp_step|]. repeat wp_step.
    apply orb_false in Hbad as [[[[_ Hp%Z.eqb_neq]%orb_false Hq%Z.eqb_neq]%orb_false Hp'%Z.ltb_ge]%orb_false Hq'%Z.leb_gt].
    by split_and!.
Qed.

Lemma Complete_spec ctx r s :
  wp (MemoryStateStore_Complete ctx r) (fun res s' =>
    match res with
    | Ok _ => exists reservation, PR_PlanRevision reservation = Result_PlanRevision r /\
        (s' = s /\ MS_records s !! Result_PlanId r = Some (mkMemoryRecord reservation (Some r)) \/
         MS_records s !! Result_PlanId r = Some (mkMemoryRecord reservation None) /\
         s' = mkStateStore (MS_lastPolicyRevision s) (MS_lastPlanRevision s)
                (<[ Result_PlanId r := mkMemoryRecord reservation (Some r) ]> (MS_records s)))
    | Err _ => s' = s
    end) s.
Proof.
  unfold MemoryStateStore_Complete. destruct (eqs _ _); [by wp_step|]. wp_step. wp_step; [|done]. wp_step. wp_step. wp_step. wp_step.
  destruct (MS_records s !! Result_PlanId r) as [[reservation result]|] eqn:Hl; [|by wp_step]. simpl.
  destruct (_ =? _) eqn:Hrev; simpl; [|by wp_step]. apply Z.eqb_eq in Hrev.
  destruct result as [previous|].
  - case_bool_decide as He; wp_step; [|done]. subst. exists reservation. auto.
  - wp_step. exists reservation. auto.
Qed.

(** A record, once made, keeps its reservation, and its result once it has one. *)
Definition persists (s s' : MemoryStateStore) : Prop :=
  MS_lastPolicyRevision s <= MS_lastPolicyRevision s' /\ MS_lastPlanRevision s <= MS_lastPlanRevision s' /\
  forall id rec, MS_records s !! id = Some rec -> exists rec', MS_records s' !! id = Some rec' /\
    MR_reservation rec' = MR_reservation rec /\ (forall result, MR_result rec = Some result -> MR_result rec' = Some result).

#[export] Instance persists_preorder : PreOrder persists.
Proof.
  split.
  - intros s. split_and!; [done..|]. intros id rec Hr. by exists rec.
  - intros s1 s2 s3 (? & ? & H12) (? & ? & H23). split_and!; [lia..|]. intros id rec Hr.
    destruct (H12 _ _ Hr) as (rec2 & Hr2 & E2 & R2). destruct (H23 _ _ Hr2) as (rec3 & Hr3 & E3 & R3).
    exists rec3. split_and!; [done|congruence|auto].
Qed.

(** An insertion at [id] of a record that extends what was there. *)
Lemma persists_insert s id rec p q :
  MS_lastPolicyRevision s <= p -> MS_lastPlanRevision s <= q ->
  (forall old, MS_records s !! id = Some old -> MR_reservation rec = MR_reservation old /\ MR_result old = None) ->
  persists s (mkStateStore p q (<[ id := rec ]> (MS_records s))).
Proof.
  intros Hp Hq Hold. split_and!; [done..|]. intros id' rec' Hr. simpl.
  destruct (decide (id' = id)) as [->|Hne].
  - exists rec. rewrite lookup_insert_eq. destruct (Hold _ Hr) as [-> Hn]. split_and!; [done..|]. by rewrite Hn.
  - exists rec'. by rewrite lookup_insert_ne.
Qed.

Lemma Reserve_persists ctx r s : wp (MemoryStateStore_Reserve ctx r) (fun _ s' => persists s s') s.
Proof.
  eapply wp_mono; [apply Reserve_spec|]. intros [[result|]|e] s'; [by intros [-> _]| |by intros ->].
  intros (Hn & _ & _ & Hp & Hq & ->). apply persists_insert; [lia..|]. intros old. by rewrite Hn.
Qed.

Lemma Complete_persists ctx r s : wp (MemoryStateStore_Complete ctx r) (fun _ s' => persists s s') s.
Proof.
  eapply wp_mono; [apply Complete_spec|]. intros [[]|e] s'; [|by intros ->].
  intros (reservation & _ & [[-> _]|[Hn ->]]); [done|]. apply persists_insert; [lia..|].
  intros old. rewrite Hn. by intros [= <-].
Qed.

Lemma steps_persist s s' : rtc store_step s s' -> persists s s'.
Proof.
  induction 1 as [s|s1 s2 s3 Hs _ IH]; [done|]. transitivity s2; [|done].
  destruct Hs as [ctx r n res n' s s' Hr|ctx r n res n' s s' Hr].
  - apply (wp_run _ _ _ _ _ _ _ (Reserve_persists ctx r s) Hr).
  - apply (wp_run _ _ _ _ _ _ _ (Complete_persists ctx r s) Hr).
Qed.

(** A reservation is granted at most once and in order: after a grant, and
    after any further calls on the store, no reservation of the same plan id,
    of a plan revision that is not newer, or of an older policy revision is
    granted again. *)
Theorem state_store_at_most_once ctx r n n1 s s1 s2 ctx' r' m m' s3 :
  MemoryStateStore_Reserve ctx r (n, s) = (Ok None, (n1, s1)) -> rtc store_step s1 s2 ->
  PR_PlanID r' = PR_PlanID r \/ PR_PlanRevision r' <= PR_PlanRevision r \/ PR_PolicyRevision r' < PR_PolicyRevision r ->
  MemoryStateStore_Reserve ctx' r' (m, s2) <> (Ok None, (m', s3)).
Proof.
  intros Hgrant Hsteps Hold Hagain.
  pose proof (wp_run _ _ _ _ _ _ _ (Reserve_spec ctx r s) Hgrant) as (_ & _ & _ & _ & _ & ->).
  pose proof (wp_run _ _ _ _ _ _ _ (Reserve_spec ctx' r' s2) Hagain) as (Hnone & _ & _ & Hp & Hq & _).
  destruct (steps_persist _ _ Hsteps) as (Hp' & Hq' & Hrec). simpl in *.
  destruct Hold as [Hid|[Hle|Hlt]]; [|lia..]. rewrite Hid in Hnone.
  destruct (Hrec (PR_PlanID r) (mkMemoryRecord r None)) as (rec' & Hr' & _); [by rewrite lookup_insert_eq|congruence].
Qed.

(** ** Signed results *)

Section Signed.
Context {H : Hasher} {E : Ed25519}.
Context (marshalResult : PlanExecutionResult -> option (list Z)).

Lemma SignExecutionResult_Ok r keyID key t r' : SignExecutionResult marshalResult r keyID key t = Ok r' ->
  exists s encoded, r' = withNodeSignature (Some s) r /\ marshalResult (withNodeSignature None r) = Some encoded /\
    newSignature resultSignatureDomain keyID key (sum256 encoded) t = Ok s.
Proof.
  unfold SignExecutionResult. intros Hs. validated Hs.
  destruct (marshalResult _) as [encoded|]; [|done]. validated Hs. injection Hs as <-. by eexists _, encoded.
Qed.

(** A result signed with the node's key is one its public key verifies. *)
Lemma sign_verifies r keyID key t r' :
  SignExecutionResult marshalResult r keyID key t = Ok r' -> ed_key key -> keyID = Result_NodeId r ->
  resultKnown r' = true -> VerifyExecutionResult marshalResult r' (Public key) = Ok tt.
Proof.
  intros (s & encoded & -> & Henc & Hs)%SignExecutionResult_Ok Hkey -> Hknown.
  destruct (newSignature_Ok _ _ _ _ _ _ Hs) as (input & Hi & Hv & Hid & _ & Hd & _).
  unfold VerifyExecutionResult. simpl. rewrite Hid, eqs_refl. unfold Public, len.
  rewrite length_drop, ed_key_length by done. simpl.
  change (withNodeSignature None (withNodeSignature (Some s) r)) with (withNodeSignature None r).
  rewrite Hknown, Henc, Hd. simpl. rewrite bool_decide_true by done. unfold resultSignatureInput. rewrite Hi, Hv.
  by rewrite ed_verify_sign.
Qed.

(** A signed result is tamper-evident: two results that carry the same
    node signature and both verify, under whatever keys, have the same signed
    content byte for byte, or their contents are a collision of the hash. *)
Theorem result_tamper_evident r1 r2 k1 k2 :
  VerifyExecutionResult marshalResult r1 k1 = Ok tt -> VerifyExecutionResult marshalResult r2 k2 = Ok tt ->
  Result_NodeSignature r1 = Result_NodeSignature r2 ->
  exists b1 b2, marshalResult (withNodeSignature None r1) = Some b1 /\ marshalResult (withNodeSignature None r2) = Some b2 /\
    (b1 = b2 \/ b1 <> b2 /\ sum256 b1 = sum256 b2) /\ Result_NodeId r1 = Result_NodeId r2.
Proof.
  intros H1 H2 Hsig. unfold VerifyExecutionResult in *. rewrite <- Hsig in H2.
  destruct (Result_NodeSignature r1) as [s|]; [|done]. validated H1. validated H2.
  destruct (marshalResult (withNodeSignature None r1)) as [b1|]; [|done].
  destruct (marshalResult (withNodeSignature None r2)) as [b2|]; [|done].
  destruct (Signature_SignedContentDigest s) as [d|]; [|done]. validated H1. validated H2.
  exists b1, b2. split; [done|]. split; [done|].
  repeat match goal with Hb : negb (bool_decide _) = false |- _ => apply negb_false_iff, bool_decide_eq_true in Hb end.
  repeat match goal with Hb : _ || _ = false |- _ => apply orb_false in Hb as [? ?%negb_false_iff%eqs_true] end.
  split; [|congruence]. destruct (decide (b1 = b2)) as [|Hne]; [by left|right]. split; [done|congruence].
Qed.
End Signed.

(** ** Applying a finished plan again *)

Section Replay.
Context {H : Hasher} {E : Ed25519}.
Context (sizePlan : Plan -> Z) (marshalPlan : Plan -> option (list Z)).
Context (sizeEvidence : EvidenceReference -> Z) (marshalResult : PlanExecutionResult -> option (list Z)).
Context {D : Type} {PD : PlanDriver D}.
Context (enforcer : Enforcer).

Abbreviation state := (@EState (list driverCall * D) MemoryStateStore).
Abbreviation apply clock wall := (Enforcer_Apply sizePlan marshalPlan sizeEvidence marshalResult clock wall enforcer).

(** After a run that was persisted the store holds its result, and the result
    is the signature of this enforcer over one of its own. *)
Lemma run_recorded clock wall ctx p n n' (st st' : state) terminal :
  apply clock wall ctx (Some p) (n, st) = (Ok (Some terminal, None), (n', st')) -> callsOf st' <> callsOf st ->
  MS_records (ES_store st') !! Plan_Id p = Some (mkMemoryRecord (reservationOf p) (Some terminal)) /\
  exists r t, Result_PlanId r = Plan_Id p /\ Result_NodeId r = Enforcer_nodeID enforcer /\ Result_PlanRevision r = Plan_Revision p /\
    SignExecutionResult marshalResult r (Enforcer_nodeKeyID enforcer) (Enforcer_nodePrivateKey enforcer) t = Ok terminal.
Proof.
  intros Hrun Hcalls. pose proof (wp_run _ _ _ _ _ _ _ (Apply_spec sizePlan marshalPlan sizeEvidence marshalResult clock wall enforcer _ _ _) Hrun)
    as (ans & [= <-] & Happ).
  inversion Happ as [| | | |p' t0 m m' s' a st2 [= <-] Hval Hres Ht]; subst; try done.
  destruct Ht as (status & reason & r' & calls & mid & [_ Hmid] & (I1 & I2 & I3 & _) & Htr & _ & t & Hend). simpl in *.
  destruct (Enforcer_finish _ _ _ _ _ t) as [x|] eqn:Hf; [|by destruct Hend].
  destruct Hend as (c & k & k' & persisted & Hcomp & [= <- Hp]). destruct persisted as [[]|]; [|done].
  assert (Result_PlanId terminal = Plan_Id p) as Hid.
  { apply finish_keeps in Hf as [s ->]. exact I1. }
  split; [|exists (withStatus status reason t r'), t; by split_and!].
  pose proof (wp_run _ _ _ _ _ _ _ (Reserve_spec _ _ _) Hres) as (_ & _ & _ & _ & _ & ->).
  pose proof (wp_run _ _ _ _ _ _ _ (Complete_spec _ _ _) Hcomp) as (reservation & _ & Hc). rewrite Hmid, Hid in Hc. simpl in Hc.
  rewrite lookup_insert_eq in Hc. destruct Hc as [[_ [=]]|[[= <-] ->]]. simpl. by rewrite lookup_insert_eq.
Qed.

(** Replay is harmless and faithful. Once a run of a plan was persisted,
    applying the same plan again, after any further use of the store and as
    long as the plan still validates, answers exactly the stored result: the
    driver, its log and the store are left as they were. *)
Theorem replay_returns_stored clock wall ctx p n n' (st st1 st2 : state) terminal clock' wall' ctx' m :
  apply clock wall ctx (Some p) (n, st) = (Ok (Some terminal, None), (n', st1)) -> callsOf st1 <> callsOf st ->
  ed_key (Enforcer_nodePrivateKey enforcer) -> Enforcer_nodeKeyID enforcer = Enforcer_nodeID enforcer ->
  resultKnown terminal = true -> rtc store_step (ES_store st1) (ES_store st2) ->
  validatePlan sizePlan marshalPlan enforcer p (clock' m) = Ok tt -> ctx' (S m) = None ->
  exists m', apply clock' wall' ctx' (Some p) (m, st2) = (Ok (Some terminal, None), (m', st2)).
Proof.
  intros Hrun Hcalls Hkey Hid Hknown Hsteps Hval Hlive.
  destruct (run_recorded _ _ _ _ _ _ _ _ _ Hrun Hcalls) as (Hrec & r & t & I1 & I2 & I3 & Hsign).
  destruct (steps_persist _ _ Hsteps) as (_ & _ & Hkept). destruct (Hkept _ _ Hrec) as ([res2 result2] & Hrec2 & Hr & Hres).
  simpl in Hr, Hres. rewrite (Hres _ eq_refl) in Hrec2. subst res2.
  assert (VerifyExecutionResult marshalResult terminal (Public (Enforcer_nodePrivateKey enforcer)) = Ok tt) as Hver.
  { apply (sign_verifies _ _ _ _ _ _ Hsign Hkey); [by rewrite Hid, I2|done]. }
  destruct (SignExecutionResult_Ok _ _ _ _ _ _ Hsign) as (s & _ & -> & _).
  unfold Enforcer_Apply, now, bindM. simpl. rewrite Hval. unfold attempt, onStore, zoom, MemoryStateStore_Reserve, ctxErr, bindM. simpl.
  rewrite Hlive. simpl. rewrite Hrec2. simpl. rewrite bool_decide_true by done. simpl. rewrite I1, I2, I3, !eqs_refl, Z.eqb_refl, Hver.
  simpl. eexists. unfold retM, set_plan_store. by destruct st2.
Qed.
End Replay.

(** ** Inspection *)

Section Inspection.
Context {H : Hasher} {E : Ed25519}.
Context (sizePlan : Plan -> Z) (marshalPlan : Plan -> option (list Z)).

Lemma validChecks_mode e phase ids checks ids' :
  validChecks e true phase ids checks = Ok ids' <->
  validChecks e false phase ids checks = Ok ids' /\
  Forall (fun c => supportsAll (Enforcer_capabilities e) (PCheck_RequiredCapabilities c) = true) (omap id checks).
Proof.
  revert ids. induction checks as [|[c|] rest IH]; intros ids; simpl; [split; [by split|by intros []]| |by split; [|intros []]].
  rewrite !reject_Ok, IH, Forall_cons. simpl. rewrite !negb_false_iff. intuition done.
Qed.

Lemma validOperations_mode e rollback allowlist ids operations ids' :
  validOperations e true rollback allowlist ids operations = Ok ids' <->
  validOperations e false rollback allowlist ids operations = Ok ids' /\
  Forall (fun o => supportsAll (Enforcer_capabilities e) (POperation_RequiredCapabilities o) = true) (omap id operations).
Proof.
  revert ids. induction operations as [|[o|] rest IH]; intros ids; simpl; [split; [by split|by intros []]| |by split; [|intros []]].
  rewrite !reject_Ok, IH, Forall_cons. simpl. rewrite !negb_false_iff. intuition done.
Qed.

(** Every list of requirements of a plan. *)
Definition requirementLists (p : Plan) : list (list (option CapabilityRequirement)) :=
  (PCheck_RequiredCapabilities <$> omap id (Plan_Preconditions p ++ Plan_Verifications p)) ++
  (POperation_RequiredCapabilities <$> omap id (Plan_Actions p ++ Plan_Rollback p)).

(** The mode only adds the support of the requirements. *)
Lemma validatePlan_mode e p t :
  validatePlanMode sizePlan marshalPlan e p t true = Ok tt <->
  validatePlanMode sizePlan marshalPlan e p t false = Ok tt /\
  Forall (fun rs => supportsAll (Enforcer_capabilities e) rs = true) (requirementLists p).
Proof.
  unfold validatePlanMode, requirementLists. rewrite !reject_Ok.
  setoid_rewrite rbind_Ok. setoid_rewrite rbind_Ok. setoid_rewrite rbind_Ok. setoid_rewrite rbind_Ok.
  setoid_rewrite validChecks_mode. setoid_rewrite validOperations_mode.
  rewrite !omap_app, !fmap_app, !Forall_app, !Forall_fmap. unfold compose.
  split; [intros Hall|intros [Hall Hs]]; repeat (destruct_and?; match goal with Hx : exists _, _ |- _ => destruct Hx end); destruct_and?.
  - split; [|by split_and!]. split_and!; try done. eexists. split; [done|]. eexists. split; [done|]. eexists. split; [done|]. by eexists.
  - split_and!; try done. eexists. split; [by split|]. eexists. split; [by split|]. eexists. split; [by split|]. eexists. by split_and!.
Qed.

Lemma validChecks_requirements e b phase ids checks ids' : validChecks e b phase ids checks = Ok ids' ->
  Forall (fun c => exists x, c = Some x /\ validCapabilityRequirements (PCheck_RequiredCapabilities x) = true) checks.
Proof.
  revert ids. induction checks as [|[c|] rest IH]; intros ids Hc; [constructor| |done]. simpl in Hc. validated Hc.
  constructor; [|by eapply IH]. exists c. split; [done|]. by apply negb_false_iff.
Qed.

Lemma validOperations_requirements e b rollback allowlist ids operations ids' :
  validOperations e b rollback allowlist ids operations = Ok ids' ->
  Forall (fun o => exists x, o = Some x /\ validCapabilityRequirements (POperation_RequiredCapabilities x) = true) operations.
Proof.
  revert ids. induction operations as [|[o|] rest IH]; intros ids Ho; [constructor| |done]. simpl in Ho. validated Ho.
  constructor; [|by eapply IH]. exists o. split; [done|]. by apply negb_false_iff.
Qed.

Lemma validatePlan_requirements e p t b : validatePlanMode sizePlan marshalPlan e p t b = Ok tt ->
  Forall (fun rs => validCapabilityRequirements rs = true) (requirementLists p).
Proof.
  unfold validatePlanMode. intros Hv. validated Hv. unfold requirementLists. rewrite !omap_app, !fmap_app, !Forall_app, !Forall_fmap.
  repeat match goal with
  | Hc : validChecks _ _ _ _ _ = Ok _ |- _ => apply validChecks_requirements in Hc
  | Ho : validOperations _ _ _ _ _ _ = Ok _ |- _ => apply validOperations_requirements in Ho
  end.
  split_and!; (apply Forall_forall; intros x (o & Ho & Hx)%list_elem_of_omap; simpl in Hx; subst o; unfold compose;
    match goal with Hc : Forall _ ?l, Hi : Some x ∈ ?l |- _ => rewrite Forall_forall in Hc; destruct (Hc _ Hi) as (? & [= <-] & ?) end; done).
Qed.

Lemma supportsAll_each manifest rs : validCapabilityRequirements rs = true ->
  (supportsAll manifest rs = true <-> Forall (fun r => supportsAll manifest [r] = true) rs).
Proof.
  intros Hv. unfold supportsAll. rewrite Hv. simpl. rewrite forallb_forall, Forall_forall.
  unfold validCapabilityRequirements in Hv. apply andb_true_iff in Hv as [_ Hv]. rewrite forallb_forall in Hv.
  split; intros Hall r Hr.
  - apply list_elem_of_In in Hr. rewrite andb_true_r. apply andb_true_iff. split; [|by apply Hall].
    unfold validCapabilityRequirements. simpl. by rewrite (Hv r Hr).
  - specialize (Hall r (proj2 (list_elem_of_In _ _) Hr)). rewrite andb_true_r in Hall. by apply andb_true_iff in Hall as [_ ?].
Qed.

Lemma sort_strings_nil l : sort_strings l = [] <-> l = [].
Proof. split; [apply merge_sort_nil|by intros ->]. Qed.

(** The requirements of the steps of a plan, in the order they are inspected. *)
Lemma inspected_requirements p :
  flat_map (fun c => match c with Some c => PCheck_RequiredCapabilities c | None => [] end) (Plan_Preconditions p ++ Plan_Verifications p) ++
  flat_map (fun o => match o with Some o => POperation_RequiredCapabilities o | None => [] end) (Plan_Actions p ++ Plan_Rollback p) =
  mjoin (requirementLists p).
Proof.
  unfold requirementLists. rewrite join_app. f_equal.
  - induction (Plan_Preconditions p ++ Plan_Verifications p) as [|[c|] l IH]; simpl; [done| |done]. by rewrite IH.
  - induction (Plan_Actions p ++ Plan_Rollback p) as [|[o|] l IH]; simpl; [done| |done]. by rewrite IH.
Qed.

Lemma missing_none manifest p : Forall (fun rs => validCapabilityRequirements rs = true) (requirementLists p) ->
  (missingCapabilities manifest p = [] <-> Forall (fun rs => supportsAll manifest rs = true) (requirementLists p)).
Proof.
  intros Hv. unfold missingCapabilities. rewrite inspected_requirements, sort_strings_nil, elements_empty_iff.
  assert (forall r, missingKey manifest r = [] <-> supportsAll manifest [r] = true) as Hkey.
  { intros [q|]; [|split; by intros [=]]. unfold missingKey. destruct (supportsAll manifest [Some q]); naive_solver. }
  transitivity (Forall (fun r => supportsAll manifest [r] = true) (mjoin (requirementLists p))).
  - induction (mjoin (requirementLists p)) as [|r l IH]; simpl; [done|]. rewrite list_to_set_app, empty_union, IH, Forall_cons, <- Hkey.
    destruct (missingKey manifest r); simpl; set_solver.
  - rewrite !Forall_forall in *. setoid_rewrite list_elem_of_join. split.
    + intros Hall rs Hrs. apply supportsAll_each; [by apply Hv|]. apply Forall_forall. intros r Hr. apply Hall. eauto.
    + intros Hall r (rs & Hr & Hrs). specialize (Hall rs Hrs). apply supportsAll_each in Hall; [|by apply Hv].
      rewrite Forall_forall in Hall. by apply Hall.
Qed.

(** Inspection predicts execution. A report of the read-only inspection
    never calls a plan executable, and it calls a plan valid and compatible
    exactly when an enforcer with the same identity, key and capabilities
    would accept it at that instant. *)
Theorem inspection_agrees deploymentID nodeID keyID key manifest p t v e :
  VerifyPlanInspection sizePlan marshalPlan deploymentID nodeID keyID key (Some manifest) (Some p) t = Ok v ->
  Enforcer_deploymentID e = deploymentID -> Enforcer_nodeID e = nodeID -> Enforcer_planKeyID e = keyID ->
  Enforcer_planPublicKey e = key -> Enforcer_capabilities e = manifest ->
  PV_Executable v = false /\
  (PV_Valid v && PV_CapabilityCompatible v = true <-> validatePlan sizePlan marshalPlan e p t = Ok tt).
Proof.
  unfold VerifyPlanInspection. intros Hv <- <- <- <- <-. validated Hv.
  set (verifier := mkEnforcer _ _ _ _ _ _ _ _ _) in Hv.
  assert (forall b, validatePlanMode sizePlan marshalPlan verifier p t b = validatePlanMode sizePlan marshalPlan e p t b) as Heq by done.
  unfold validatePlan. rewrite validatePlan_mode, <- !Heq.
  destruct (validatePlanMode sizePlan marshalPlan verifier p t false) as [[]|] eqn:Hm.
  - injection Hv as <-. split; [done|]. simpl. rewrite len_nil, missing_none by (by eapply validatePlan_requirements). naive_solver.
  - injection Hv as <-. split; [done|]. simpl. naive_solver.
Qed.
End Inspection.

(** * The enforcer, run

    A plan compiled from a concrete profile, applied to a scripted driver, by
    evaluation with SHA-256: a commit, a rollback, and witnesses of the
    theorems on replay, signatures and inspection. *)

(** A driver that passes every check on fresh evidence, fails the operations
    named in its script and panics on those named twice. *)
Definition scripted : Type := list string.

Definition demo_evidence : EvidenceReference :=
  mkEvidence "evidence-1" RoleSupporting ClassDetected SourceLocalSensor "sensor" "observed" (Some (Timestamp_New demo_instant))
    None None 0x3f000000 1 1 None false.

Definition scriptedOperation (o : POperation) : M scripted (called OperationObservation) :=
  let! script := getS in
  match filter (fun x => x = POperation_Id o) script with
  | [] => retM (Returned (mkOperationObservation true "AF-DEMO-DONE" "done"))
  | [_] => failM (errorsNew "refused")
  | _ => retM Panicked
  end.

#[export] Instance scripted_driver : PlanDriver scripted := {|
  PD_Check _ _ := retM (Returned (mkPlanCheckObservation CheckOutcomePassed "AF-DEMO-PASSED" "passed" [Some demo_evidence]));
  PD_Apply _ o := scriptedOperation o;
  PD_Rollback _ o := scriptedOperation o;
|}.

Definition demo_clock : clockT := fun n => demo_instant + Second + Z.of_nat n.
Definition demo_marshal_result (r : PlanExecutionResult) : option (list Z) :=
  Some (bytes_of (Result_PlanId r) ++ [Result_PlanRevision r; Result_Status r]).

Definition no_plan : Plan :=
  mkPlan EmptyString EmptyString EmptyString EmptyString 0 0 [] None None 0 [] [] [] [] [] None EmptyString 0 false.

Definition demo_plan : Plan :=
  Eval vm_compute in match demo_compile EgressModeTrustedExit ["exit-1"] with Ok (inl p) => p | _ => no_plan end.

Abbreviation demo_apply := (@Enforcer_Apply sha256 plainEd25519 (fun _ => 1000) demo_marshal_plan (fun _ => 100)
  demo_marshal_result (list driverCall * scripted) MemoryStateStore _ _ demo_clock demo_clock demo_enforcer).

Definition demo_state (script : scripted) : @EState (list driverCall * scripted) MemoryStateStore :=
  mkEState ([], script) (NewMemoryStateStore 0 0).

(** What a run shows: the status and reason of its answer, and the calls. *)
Definition shown (out : result answer * (nat * @EState (list driverCall * scripted) MemoryStateStore))
    : option (Z * string) * list string :=
  (match fst out with Ok (Some r, None) => Some (Result_Status r, Result_ReasonCode r) | _ => None end,
   callId <$> callsOf (snd (snd out))).

(** The three ends of a transaction happen: a compiled plan commits; with a
    failing [set-route] it is rolled back completely; with a [set-dns] that
    fails and a [rollback-route] that panics the remaining rollback still
    runs and the answer is FAILED. *)
Theorem enforcement_runs :
  shown (demo_apply Background (Some demo_plan) (0%nat, demo_state [])) =
    (Some (PlanStatusCommitted, "AF-PLAN-COMMITTED"), preconditionSteps ++ actionSteps ++ verificationSteps) /\
  shown (demo_apply Background (Some demo_plan) (0%nat, demo_state ["set-route"])) =
    (Some (PlanStatusRolledBack, "AF-PLAN-ACTION-FAILED"),
     preconditionSteps ++ take 3 actionSteps ++ rollbackSteps) /\
  shown (demo_apply Background (Some demo_plan) (0%nat, demo_state ["set-dns"; "rollback-route"; "rollback-route"])) =
    (Some (PlanStatusFailed, "AF-PLAN-ROLLBACK-INCOMPLETE"), preconditionSteps ++ actionSteps ++ rollbackSteps).
Proof. split; [vm_compute; reflexivity|]. split; vm_compute; reflexivity. Qed.

(** *** Witnesses *)

Definition demo_reservation (id : string) (policy revision : Z) : PlanReservation := mkPlanReservation id "digest" policy revision.

Definition demo_store : MemoryStateStore :=
  mkStateStore 2 5 {[ "plan-1" := mkMemoryRecord (demo_reservation "plan-1" 2 5) None ]}.

Lemma demo_grant : MemoryStateStore_Reserve Background (demo_reservation "plan-1" 2 5) (0%nat, NewMemoryStateStore 0 0) = (Ok None, (1%nat, demo_store)).
Proof. vm_compute. reflexivity. Qed.

Lemma state_store_at_most_once_witness :
  MemoryStateStore_Reserve Background (demo_reservation "plan-2" 2 5) (1%nat, demo_store) <> (Ok None, (2%nat, demo_store)).
Proof.
  apply (state_store_at_most_once Background (demo_reservation "plan-1" 2 5) 0 1 (NewMemoryStateStore 0 0) demo_store demo_store
    Background (demo_reservation "plan-2" 2 5) 1 2 demo_store demo_grant); [apply rtc_refl|].
  right; left. apply Z.leb_le. vm_compute. reflexivity.
Defined.

Definition demo_run : result answer * (nat * @EState (list driverCall * scripted) MemoryStateStore) :=
  Eval vm_compute in demo_apply Background (Some demo_plan) (0%nat, demo_state []).
Definition demo_after : @EState (list driverCall * scripted) MemoryStateStore := Eval vm_compute in snd (snd demo_run).
Definition demo_ticks : nat := Eval vm_compute in fst (snd demo_run).
Definition demo_terminal : PlanExecutionResult :=
  Eval vm_compute in match fst demo_run with Ok (Some r, _) => r | _ => blankResult demo_enforcer demo_plan end.

Lemma demo_ran : demo_apply Background (Some demo_plan) (0%nat, demo_state []) = (Ok (Some demo_terminal, None), (demo_ticks, demo_after)).
Proof. vm_compute. reflexivity. Qed.

Lemma replay_returns_stored_witness : exists m',
  demo_apply Background (Some demo_plan) (demo_ticks, demo_after) = (Ok (Some demo_terminal, None), (m', demo_after)).
Proof.
  apply (@replay_returns_stored sha256 plainEd25519 (fun _ => 1000) demo_marshal_plan (fun _ => 100) demo_marshal_result
    scripted scripted_driver demo_enforcer demo_clock demo_clock Background demo_plan 0 demo_ticks (demo_state []) demo_after demo_after
    demo_terminal demo_clock demo_clock Background demo_ticks demo_ran).
  - discriminate.
  - reflexivity.
  - reflexivity.
  - vm_compute. reflexivity.
  - apply rtc_refl.
  - vm_compute. reflexivity.
  - reflexivity.
Defined.

Lemma result_tamper_evident_witness : exists b1 b2,
  demo_marshal_result (withNodeSignature None demo_terminal) = Some b1 /\ demo_marshal_result (withNodeSignature None demo_terminal) = Some b2 /\
  (b1 = b2 \/ b1 <> b2 /\ @sum256 sha256 b1 = @sum256 sha256 b2) /\ Result_NodeId demo_terminal = Result_NodeId demo_terminal.
Proof.
  apply (@result_tamper_evident sha256 plainEd25519 demo_marshal_result demo_terminal demo_terminal (repeat 9 32) (repeat 9 32));
    [vm_compute; reflexivity|vm_compute; reflexivity|reflexivity].
Defined.

Definition demo_report : PlanVerification :=
  mkPlanVerification (Plan_Id demo_plan) "node-1" "deployment-1" true true false "AF-PLAN-VERIFIED-EXECUTION-DISABLED" []
    (Plan_HumanReadableDryRun demo_plan).

Lemma inspection_agrees_witness :
  PV_Executable demo_report = false /\
  (PV_Valid demo_report && PV_CapabilityCompatible demo_report = true <->
   @validatePlan sha256 plainEd25519 (fun _ => 1000) demo_marshal_plan demo_enforcer demo_plan (demo_instant + Second) = Ok tt).
Proof.
  apply (@inspection_agrees sha256 plainEd25519 (fun _ => 1000) demo_marshal_plan "deployment-1" "node-1" "key-1" (repeat 7 32)
    demo_manifest demo_plan (demo_instant + Second) demo_report demo_enforcer); [vm_compute; reflexivity|reflexivity..].
Defined.
