(* ===== verification/StateFileFacts.v ===== *)
(** * The durable plan state: theorems

    A success of the durable store is a success of the in-process store on
    what the file holds, and the new file is on the disk; a failure leaves
    the old state or the new one, also when power is lost at any system call.
    So a plan is granted at most once across failures, crashes and restarts. *)

From S2P Require Import Prelude Directory DirectoryFacts Sha256 Digest Contract JournalFile JournalFileFacts Plan Policy Enforcement EnforcementRun StateFile EnforcementFacts PolicyFacts ReplayFacts.
From stdpp Require Import base gmap list strings relations.
From Stdlib Require Import ZArith Lia.

Open Scope Z_scope.

Section Facts.
Context {SC : StateCodec}.

(** ** What a file stands for *)

Definition recordOf (rec : persistedFileRecord) : memoryRecord :=
  mkMemoryRecord (FR_Reservation rec) (if len (FR_Result rec) =? 0 then None else resultUnmarshal (FR_Result rec)).

(** The in-process store a persisted state stands for. *)
Definition storeOf (s : persistedFileState) : MemoryStateStore :=
  mkStateStore (FS_LastPolicyRevision s) (FS_LastPlanRevision s) (recordOf <$> fileRecords s).

(** A state [load] accepts, of values JSON can carry. *)
Definition wfState (s : persistedFileState) : Prop :=
  plainState s /\ FS_SchemaVersion s = fileStateSchema /\
  map_Forall (fun id rec => id = PR_PlanID (FR_Reservation rec) /\ validateReservation (FR_Reservation rec) = Ok tt /\
    (FR_Result rec <> [] -> exists r, resultUnmarshal (FR_Result rec) = Some r /\ resultKnown r = true /\
       Result_PlanId r = PR_PlanID (FR_Reservation rec) /\ Result_PlanRevision r = PR_PlanRevision (FR_Reservation rec)))
    (fileRecords s).

Definition stateNode (s : persistedFileState) : node := installedNode (stateMarshal s).

(** What a load of the file finds. *)
Definition loadsState (f : option node) : result persistedFileState :=
  match f with
  | None => Ok emptyState
  | Some f =>
      match privateContent f with
      | Some content => decodeState (take (Z.to_nat (maximumFileStateBytes + 1)) content)
      | None => Err ErrStateNotPrivate
      end
  end.

Lemma wf_empty : wfState emptyState.
Proof.
  assert (forall id, fileRecords emptyState !! id = None) as Hn by (intros id; reflexivity).
  split; [split_and!|split]; try done; try (intros id rec; by rewrite Hn).
  apply Forall_forall. intros b Hb. vm_compute in Hb. set_solver by lia.
Qed.

Lemma checkRecord_Ok s id rec : wfState s -> fileRecords s !! id = Some rec -> len (stateMarshal s) <= maximumFileStateBytes ->
  checkFileRecord (id, rec) = Ok tt.
Proof.
  intros (_ & _ & Hall) Hr Hl. destruct (Hall id rec Hr) as (-> & Hv & Hres). pose proof (state_carries _ _ _ Hr) as Hc.
  unfold checkFileRecord. rewrite eqs_refl, Hv. simpl. replace (maximumFileStateBytes <? len (FR_Result rec)) with false by lia.
  destruct (len (FR_Result rec) =? 0) eqn:H0; [done|].
  destruct Hres as (r & -> & -> & -> & ->); [by intros E; rewrite E in H0|]. by rewrite eqs_refl, Z.eqb_refl.
Qed.

Lemma loads_stateNode s : wfState s -> len (stateMarshal s) <= maximumFileStateBytes -> loadsState (Some (stateNode s)) = Ok s.
Proof.
  intros Hwf Hl. destruct Hwf as (Hp & Hs & Hall) eqn:E. clear E. destruct (state_roundtrip s Hp) as [Hne Hd].
  unfold loadsState, stateNode, privateContent. simpl. rewrite take_ge by (unfold len in Hl; lia).
  unfold decodeState. rewrite Hd. simpl.
  assert ((len (stateMarshal s) =? 0) || (maximumFileStateBytes <? len (stateMarshal s)) = false) as ->.
  { apply orb_false. split; [|lia]. apply Z.eqb_neq. unfold len. destruct (stateMarshal s); [done|simpl; lia]. }
  rewrite Hs, eqs_refl. destruct Hp as (_ & _ & _ & -> & _). simpl.
  assert (each checkFileRecord (map_to_list (fileRecords s)) = Ok tt) as ->; [|done].
  apply each_Ok, Forall_forall. intros [id rec] Hin%elem_of_map_to_list. by eapply checkRecord_Ok.
Qed.

(** ** The two changes of state *)

Definition granted (s : persistedFileState) (r : PlanReservation) : persistedFileState :=
  putRecord s (PR_PolicyRevision r) (PR_PlanRevision r) (PR_PlanID r) (mkFileRecord r []).

Definition completed (s : persistedFileState) (reservation : PlanReservation) (r : PlanExecutionResult) (canonical : list Z) : persistedFileState :=
  putRecord s (FS_LastPolicyRevision s) (FS_LastPlanRevision s) (Result_PlanId r) (mkFileRecord reservation canonical).

Lemma storeOf_put s p q id rec :
  storeOf (putRecord s p q id rec) = mkStateStore p q (<[ id := recordOf rec ]> (MS_records (storeOf s))).
Proof. unfold storeOf, putRecord, fileRecords. simpl. by rewrite fmap_insert. Qed.

Lemma storeOf_lookup s id : MS_records (storeOf s) !! id = recordOf <$> fileRecords s !! id.
Proof. unfold storeOf. simpl. by rewrite lookup_fmap. Qed.

Lemma wf_put s p q id rec : wfState s -> u64 p -> u64 q ->
  ascii id -> plainReservation (FR_Reservation rec) -> Forall is_byte (FR_Result rec) ->
  id = PR_PlanID (FR_Reservation rec) -> validateReservation (FR_Reservation rec) = Ok tt ->
  (FR_Result rec <> [] -> exists r, resultUnmarshal (FR_Result rec) = Some r /\ resultKnown r = true /\
       Result_PlanId r = PR_PlanID (FR_Reservation rec) /\ Result_PlanRevision r = PR_PlanRevision (FR_Reservation rec)) ->
  wfState (putRecord s p q id rec).
Proof.
  intros ((Ha & Hp & Hq & Hs & Hall) & Hschema & Hrec) Hp' Hq' Hid Hr Hb He Hv Hres.
  split; [split_and!; try done|split; [done|]]; (apply map_Forall_insert_2; [by split_and!|done]).
Qed.

(** A fresh grant, as the in-process store has it. *)
Definition grantable (s : persistedFileState) (r : PlanReservation) : Prop :=
  validateReservation r = Ok tt /\ fileRecords s !! PR_PlanID r = None /\
  FS_LastPolicyRevision s <= PR_PolicyRevision r /\ FS_LastPlanRevision s < PR_PlanRevision r.

Lemma granted_wf s r : wfState s -> plainReservation r -> grantable s r -> wfState (granted s r).
Proof. intros Hwf Hp (Hv & _). apply wf_put; try done; try apply Hp. Qed.

Lemma granted_persists s r : grantable s r -> persists (storeOf s) (storeOf (granted s r)).
Proof.
  intros (_ & Hn & Hp & Hq). unfold granted. rewrite storeOf_put. apply persists_insert; simpl; [lia..|].
  intros old. change (recordOf <$> fileRecords s) with (MS_records (storeOf s)). rewrite storeOf_lookup, Hn. done.
Qed.

(** A first result for a reserved plan. *)
Definition completable (s : persistedFileState) (reservation : PlanReservation) (r : PlanExecutionResult) (canonical : list Z) : Prop :=
  fileRecords s !! Result_PlanId r = Some (mkFileRecord reservation []) /\ PR_PlanRevision reservation = Result_PlanRevision r /\
  resultMarshal r = Some canonical /\ resultKnown r = true.

Lemma completed_wf s reservation r canonical : wfState s -> completable s reservation r canonical -> wfState (completed s reservation r canonical).
Proof.
  intros Hwf (Hl & Hrev & Hm & Hk). destruct (result_roundtrip _ _ Hm) as [Hb Hu].
  pose proof Hwf as ((_ & Hp & Hq & _ & Hplain) & _ & Hrec). destruct (Hrec _ _ Hl) as (Hid & Hv & _). destruct (Hplain _ _ Hl) as (Ha & Hr & _).
  apply wf_put; try done. simpl in *. intros _. exists r. by split_and!.
Qed.

Lemma completed_persists s reservation r canonical : completable s reservation r canonical ->
  persists (storeOf s) (storeOf (completed s reservation r canonical)).
Proof.
  intros (Hl & _). unfold completed. rewrite storeOf_put. apply persists_insert; simpl; [lia..|].
  intros old. change (recordOf <$> fileRecords s) with (MS_records (storeOf s)). rewrite storeOf_lookup, Hl. simpl. by intros [= <-].
Qed.
End Facts.

(** ** What the operations do to the file *)

Section Operations.
Context {SC : StateCodec}.
Context (sysFails : nat -> bool) (contention : nat -> nat * bool).

Lemma stateLock_calmly ctx : calmly (state_lock sysFails contention ctx).
Proof. unfold state_lock. calmly_tac. Qed.

Lemma stateLoad_calm d :
  wp (state_load sysFails) (fun res d' => calm d d' /\ forall s, res = Ok s -> loadsState (dir_journal d) = Ok s) d.
Proof.
  unfold state_load. repeat wp_step. eapply wp_mono; [apply open_spec|]. intros res d' [-> Hres]. wp_step.
  pose proof (calm_refl d) as Hc. unfold loadsState.
  destruct (dir_journal d) as [f|]; [destruct (privateContent f) as [content|]|];
    repeat match goal with Ho : _ \/ _ |- _ => destruct Ho as [Ho|Ho] end; subst res; simpl;
    try (wp_step; split; [done|by intros s [= ?]]).
  - apply (wp_calm_syscall _ _ _ _ _ _ d); [done..| |by split].
    intros d' Hc' _. wp_step. by split.
  - wp_step. split; [done|]. by intros s [= <-].
Qed.

(** A save that succeeds or fails past its guards installs the new state. *)
Lemma stateSave_effect s d :
  wp (state_save sysFails s) (fun res d' => (calm d d' /\ exists e, res = Err e) \/
    (installs (stateMarshal s) d res d' /\ len (stateMarshal s) <= maximumFileStateBytes)) d.
Proof.
  unfold state_save. destruct (_ || _); [apply wp_fail; left; split; [apply calm_refl|by eexists]|].
  destruct (_ || _) eqn:Hl; [apply wp_fail; left; split; [apply calm_refl|by eexists]|]. apply orb_false in Hl as [_ Hl%Z.ltb_ge].
  eapply wp_mono; [apply install_effect|]. intros res d' Hi. by right.
Qed.

Definition stateStored (s' : persistedFileState) (d : directory) (ok : bool) (d' : directory) : Prop :=
  installs (stateMarshal s') d (if ok then Ok tt else Err ErrStateInstall) d' /\ len (stateMarshal s') <= maximumFileStateBytes.

Lemma installs_ok content d (res : result unit) d' :
  installs content d res d' -> installs content d (if is_ok res then Ok tt else Err ErrStateInstall) d'.
Proof. by destruct res as [[]|]. Qed.

Lemma Reserve_effect ctx r d :
  wp (FileStateStore_Reserve sysFails contention ctx r) (fun res d' =>
    (calm d d' /\ forall ans, res = Ok ans -> exists s result, loadsState (dir_journal d) = Ok s /\ ans = Some result /\
       MS_records (storeOf s) !! PR_PlanID r = Some (mkMemoryRecord r (Some result))) \/
    (exists s, loadsState (dir_journal d) = Ok s /\ grantable s r /\ stateStored (granted s r) d (is_ok res) d' /\
       forall ans, res = Ok ans -> ans = None)) d.
Proof.
  pose proof (calm_refl d) as Hrefl. unfold FileStateStore_Reserve.
  destruct (is_ok (validateReservation r)) eqn:Hv; simpl; [|apply wp_fail; by left]. apply is_ok_unit in Hv.
  wp_step. eapply wp_mono; [apply stateLock_calmly|]. intros [[]|e] d1 Hc; [red|by left].
  apply wp_defer. wp_step. eapply wp_mono; [apply stateLoad_calm|]. intros res d2 [Hc2' Hl]. pose proof (calm_trans _ _ _ Hc Hc2') as Hc2.
  destruct res as [s|e]; [red|by left]. specialize (Hl s eq_refl). rewrite (proj1 Hc) in Hl.
  destruct (fileRecords s !! PR_PlanID r) as [[reservation result]|] eqn:Hr; simpl.
  - case_bool_decide as Heq; simpl; [subst reservation|by apply wp_fail; left].
    destruct (len result =? 0) eqn:H0; [by apply wp_fail; left|].
    destruct (resultUnmarshal result) as [x|] eqn:Hu; [|by apply wp_fail; left].
    destruct (resultKnown x); [|by apply wp_fail; left].
    apply wp_ret. left. split; [done|]. intros ans [= <-]. exists s, x. split_and!; [done..|].
    simpl. rewrite lookup_fmap, Hr. simpl. unfold recordOf. simpl. by rewrite H0, Hu.
  - destruct (_ || _) eqn:Hold; [by apply wp_fail; left|]. apply orb_false in Hold as [Hp%Z.ltb_ge Hq%Z.leb_gt].
    wp_step. eapply wp_mono; [apply stateSave_effect|]. intros res d3 [[Hc3 [e ->]]|[Hi Hn]].
    { left. split; [exact (calm_trans _ _ _ Hc2 Hc3)|done]. }
    assert (forall ok, is_ok res = ok -> stateStored (granted s r) d ok (unlock d3)) as Hst.
    { intros ok <-. split; [|done]. apply installs_ok, (calm_installs_trans _ _ _ _ _ Hc2) in Hi. exact Hi. }
    assert (grantable s r) as Hg by by split_and!.
    destruct res as [[]|e]; [red; apply wp_ret|red]; right; exists s; split_and!; try done; try by apply Hst.
    by intros ans [= <-].
Qed.

Lemma Complete_effect ctx r d :
  wp (FileStateStore_Complete sysFails contention ctx r) (fun res d' =>
    (calm d d' /\ (res = Ok tt -> exists s reservation canonical, loadsState (dir_journal d) = Ok s /\ resultMarshal r = Some canonical /\
       canonical <> [] /\ fileRecords s !! Result_PlanId r = Some (mkFileRecord reservation canonical) /\
       PR_PlanRevision reservation = Result_PlanRevision r)) \/
    (exists s reservation canonical, loadsState (dir_journal d) = Ok s /\ completable s reservation r canonical /\ canonical <> [] /\
       stateStored (completed s reservation r canonical) d (is_ok res) d')) d.
Proof.
  pose proof (calm_refl d) as Hrefl. unfold FileStateStore_Complete.
  destruct (_ || _) eqn:Hid; [by apply wp_fail; left|]. apply orb_false in Hid as [Hid%slen_nonempty _].
  wp_step. apply wp_ctxErr; [red|intros e; by left].
  destruct (resultKnown r) eqn:Hk; simpl; [|by apply wp_fail; left].
  destruct (resultMarshal r) as [canonical|] eqn:Hm; [|by apply wp_fail; left]. pose proof (result_nonempty _ _ Hm Hid) as Hne.
  wp_step. eapply wp_mono; [apply stateLock_calmly|]. intros [[]|e] d1 Hc; [red|by left].
  apply wp_defer. wp_step. eapply wp_mono; [apply stateLoad_calm|]. intros res d2 [Hc2' Hl]. pose proof (calm_trans _ _ _ Hc Hc2') as Hc2.
  destruct res as [s|e]; [red|by left]. specialize (Hl s eq_refl). rewrite (proj1 Hc) in Hl.
  destruct (fileRecords s !! Result_PlanId r) as [[reservation result]|] eqn:Hr; simpl; [|by apply wp_fail; left].
  destruct (_ =? _) eqn:Hrev; simpl; [|by apply wp_fail; left]. apply Z.eqb_eq in Hrev.
  destruct (len result =? 0) eqn:H0; simpl.
  - assert (result = []) as -> by (unfold len in H0; destruct result; [done|simpl in H0; lia]).
    eapply wp_mono; [apply stateSave_effect|]. intros res d3 [[Hc3 [e ->]]|[Hi Hn]].
    { left. split; [exact (calm_trans _ _ _ Hc2 Hc3)|done]. }
    right. exists s, reservation, canonical. split_and!; try done. split; [|done].
    apply installs_ok, (calm_installs_trans _ _ _ _ _ Hc2) in Hi. exact Hi.
  - case_bool_decide as Heq; [apply wp_ret|by apply wp_fail; left]. subst result. left. split; [done|].
    intros _. by exists s, reservation, canonical.
Qed.
End Operations.

(** ** Crashes and restarts *)

Section Durable.
Context {SC : StateCodec}.

(** What holds of the file, of the directory, and across an operation, for the
    state a load of the file gives. *)
Abbreviation holds := (kept_holds loadsState wfState).
Abbreviation keeps := (kept_keeps loadsState wfState).
Abbreviation survives := (kept_survives loadsState wfState).

Lemma holds_stateNode (P : persistedFileState -> Prop) s : wfState s -> len (stateMarshal s) <= maximumFileStateBytes -> P s -> holds P (Some (stateNode s)).
Proof. intros Hwf Hl HP. pose proof (loads_stateNode s Hwf Hl). by exists s. Qed.

Lemma stored_survives (P : persistedFileState -> Prop) s' d ok d' :
  keeps P d -> wfState s' -> P s' -> stateStored s' d ok d' -> survives P d d'.
Proof.
  intros Hk Hwf HP [[Hi Hs] Hn]. pose proof (holds_stateNode P s' Hwf Hn HP) as Hnew. split.
  - destruct ok; unfold keeps.
    + destruct Hs as [-> ->]. done.
    + destruct Hs as [-> [->| ->]]; split; try done; apply Hk.
  - intros i Hin. destruct (Hi i Hin) as [?|[Hb| ->]]; [by left|right..]; [by eapply keeps_bound|done].
Qed.

(** A property of states that no call on the store can undo. *)
Definition stable (P : persistedFileState -> Prop) : Prop := forall s s', persists (storeOf s) (storeOf s') -> P s -> P s'.

Lemma loads_unique P d s : keeps P d -> loadsState (dir_journal d) = Ok s -> wfState s /\ P s.
Proof. intros [(s' & Hl & _ & ? & ?) _] Hs. rewrite Hl in Hs. by injection Hs as <-. Qed.

Lemma Reserve_survives P sysFails contention ctx r d : stable P -> keeps P d -> plainReservation r ->
  wp (FileStateStore_Reserve sysFails contention ctx r) (fun _ d' => survives P d d') d.
Proof.
  intros Hst Hk Hp. eapply wp_mono; [apply Reserve_effect|]. intros res d' [[Hc _]|(s & Hl & Hg & Hs & _)]; [by apply calm_survives|].
  destruct (loads_unique _ _ _ Hk Hl) as [Hwf HP]. eapply stored_survives; [done|by apply granted_wf| |done].
  eapply Hst; [|done]. by apply granted_persists.
Qed.

Lemma Complete_survives P sysFails contention ctx r d : stable P -> keeps P d ->
  wp (FileStateStore_Complete sysFails contention ctx r) (fun _ d' => survives P d d') d.
Proof.
  intros Hst Hk. eapply wp_mono; [apply Complete_effect|].
  intros res d' [[Hc _]|(s & reservation & canonical & Hl & Hg & _ & Hs)]; [by apply calm_survives|].
  destruct (loads_unique _ _ _ Hk Hl) as [Hwf HP]. eapply stored_survives; [done|by apply completed_wf| |done].
  eapply Hst; [|done]. by apply completed_persists.
Qed.

(** One step of the life of the store: a call that ends, however it ends and
    whatever fails, or a power loss at one of its system calls. *)
Inductive file_step : directory -> directory -> Prop :=
| fstep_reserve sysFails contention ctx r n res n' d d' d'' : plainReservation r ->
    FileStateStore_Reserve sysFails contention ctx r (n, unobserved d) = (res, (n', d')) ->
    d'' = d' \/ (exists i, i ∈ dir_images d' /\ d'' = restarted i d') -> file_step d d''
| fstep_complete sysFails contention ctx r n res n' d d' d'' :
    FileStateStore_Complete sysFails contention ctx r (n, unobserved d) = (res, (n', d')) ->
    d'' = d' \/ (exists i, i ∈ dir_images d' /\ d'' = restarted i d') -> file_step d d''
| fstep_powerloss d i : bound d i -> file_step d (restarted i d).

Lemma step_keeps P d d' : stable P -> file_step d d' -> keeps P d -> keeps P d'.
Proof.
  intros Hst Hstep Hk. destruct Hstep as [sysFails contention ctx r n res n' d d' d'' Hp Hr Hd|sysFails contention ctx r n res n' d d' d'' Hr Hd|d i Hb].
  - eapply survives_keeps; [|exact Hd]. apply (wp_run _ _ _ _ _ _ _ (Reserve_survives P sysFails contention ctx r (unobserved d) Hst Hk Hp) Hr).
  - eapply survives_keeps; [|exact Hd]. apply (wp_run _ _ _ _ _ _ _ (Complete_survives P sysFails contention ctx r (unobserved d) Hst Hk) Hr).
  - apply restarted_keeps. by eapply keeps_bound.
Qed.

Lemma steps_keep P d d' : stable P -> rtc file_step d d' -> keeps P d -> keeps P d'.
Proof. intros Hst. induction 1 as [|d1 d2 d3 Hs _ IH]; [done|]. intros Hk. apply IH. by eapply step_keeps. Qed.

Lemma stable_persists t : stable (fun s => persists t (storeOf s)).
Proof. intros s s' Hss Hts. by transitivity (storeOf s). Qed.

Lemma recordOf_result reservation r canonical : resultMarshal r = Some canonical -> canonical <> [] ->
  recordOf (mkFileRecord reservation canonical) = mkMemoryRecord reservation (Some r).
Proof.
  intros Hm Hne. destruct (result_roundtrip _ _ Hm) as [_ Hu]. unfold recordOf. simpl. rewrite Hu.
  replace (len canonical =? 0) with false; [done|]. unfold len. destruct canonical; [done|simpl; lia].
Qed.

Lemma memory_grants s r : grantable s r ->
  MemoryStateStore_Reserve Background r (0%nat, storeOf s) = (Ok None, (1%nat, storeOf (granted s r))).
Proof.
  intros (Hv & Hn & Hp & Hq). unfold validateReservation in Hv. apply reject_Ok in Hv as [Hv _].
  rewrite !orb_false in Hv.
  unfold MemoryStateStore_Reserve, bindM. simpl. rewrite lookup_fmap, Hn. simpl.
  unfold granted. rewrite storeOf_put. simpl.
  replace (_ || _) with false; [done|]. symmetry. rewrite !orb_false. destruct_and!. split_and!; done || lia.
Qed.

Lemma memory_completes s reservation r canonical : completable s reservation r canonical -> canonical <> [] -> Result_PlanId r <> EmptyString ->
  MemoryStateStore_Complete Background r (0%nat, storeOf s) = (Ok tt, (1%nat, storeOf (completed s reservation r canonical))).
Proof.
  intros (Hl & Hrev & Hm & _) Hne Hid%slen_nonempty. unfold MemoryStateStore_Complete, bindM. rewrite Hid. simpl. rewrite lookup_fmap, Hl. simpl.
  rewrite Hrev, Z.eqb_refl. simpl. unfold completed. by rewrite storeOf_put, (recordOf_result _ r) by done.
Qed.

(** The durable store refines the in-process one. Whenever a reservation or
    a completion of the durable store succeeds, the in-process store that
    stands for the file before it gives the same answer, and stands for the
    file after it, which is then also the file on the disk unless nothing was
    written. *)
Theorem file_state_refines sysFails contention ctx reservation r d :
  keeps (fun _ => True) d -> plainReservation reservation -> Result_PlanId r <> EmptyString ->
  wp (FileStateStore_Reserve sysFails contention ctx reservation) (fun res d' => forall ans, res = Ok ans ->
    exists s s', loadsState (dir_journal d) = Ok s /\ loadsState (dir_journal d') = Ok s' /\
      (dir_journal d' = dir_journal d \/ dir_durable d' = dir_journal d') /\
      MemoryStateStore_Reserve Background reservation (0%nat, storeOf s) = (Ok ans, (1%nat, storeOf s'))) d /\
  wp (FileStateStore_Complete sysFails contention ctx r) (fun res d' => res = Ok tt ->
    exists s s', loadsState (dir_journal d) = Ok s /\ loadsState (dir_journal d') = Ok s' /\
      (dir_journal d' = dir_journal d \/ dir_durable d' = dir_journal d') /\
      MemoryStateStore_Complete Background r (0%nat, storeOf s) = (Ok tt, (1%nat, storeOf s'))) d.
Proof.
  intros Hk Hp Hid. split.
  - eapply wp_mono; [apply Reserve_effect|]. intros res d' [[(Hj & _) Hans]|(s & Hl & Hg & [[_ Hs] Hn] & Hans)] ans ->.
    + destruct (Hans _ eq_refl) as (s & result & Hl & -> & Hr). exists s, s. rewrite Hj. split_and!; [done..|by left|].
      unfold MemoryStateStore_Reserve, bindM. simpl in *. rewrite Hr. simpl. by rewrite bool_decide_true.
    + rewrite (Hans _ eq_refl). destruct Hs as [Hj Hd]. destruct (loads_unique _ _ _ Hk Hl) as [Hwf _].
      exists s, (granted s reservation). rewrite Hj. split_and!; [done|apply loads_stateNode; [by apply granted_wf|done]|right; congruence|].
      by apply memory_grants.
  - eapply wp_mono; [apply Complete_effect|].
    intros res d' [[(Hj & _) Hans]|(s & rv & canonical & Hl & Hg & Hne & [[_ Hs] Hn])] ->.
    + destruct (Hans eq_refl) as (s & rv & canonical & Hl & Hm & Hne & Hr & Hrev). exists s, s. rewrite Hj. split_and!; [done..|by left|].
      unfold MemoryStateStore_Complete, bindM. apply slen_nonempty in Hid. rewrite Hid. simpl. rewrite lookup_fmap, Hr. simpl.
      rewrite Hrev, Z.eqb_refl. simpl. destruct (result_roundtrip _ _ Hm) as [_ Hu]. rewrite Hu.
      replace (len canonical =? 0) with false; [by rewrite bool_decide_true|]. unfold len. destruct canonical; [done|simpl; lia].
    + destruct Hs as [Hj Hd]. destruct (loads_unique _ _ _ Hk Hl) as [Hwf _].
      exists s, (completed s rv r canonical). rewrite Hj. split_and!; [done|apply loads_stateNode; [by apply completed_wf|done]|right; congruence|].
      by apply memory_completes.
Qed.

(** C31. The replay boundary survives crashes: after the durable store granted a
    reservation, and after any sequence of further calls in any process, with
    whatever system calls failing and power lost at whatever point of them,
    no reservation of the same plan id, of a plan revision that is not newer
    or of an older policy revision is granted again. *)
Theorem file_state_at_most_once sysFails contention ctx r n n1 d d1 d2 sysFails' contention' ctx' r' m m' d3 :
  keeps (fun _ => True) d -> plainReservation r ->
  FileStateStore_Reserve sysFails contention ctx r (n, d) = (Ok None, (n1, d1)) -> rtc file_step d1 d2 ->
  PR_PlanID r' = PR_PlanID r \/ PR_PlanRevision r' <= PR_PlanRevision r \/ PR_PolicyRevision r' < PR_PolicyRevision r ->
  FileStateStore_Reserve sysFails' contention' ctx' r' (m, d2) <> (Ok None, (m', d3)).
Proof.
  intros Hk Hp Hgrant Hsteps Hold Hagain.
  pose proof (wp_run _ _ _ _ _ _ _ (Reserve_effect _ _ _ _ _) Hgrant) as [[_ Hans]|(s & Hl & Hg & [[_ [Hj Hd]] Hn] & _)].
  { by destruct (Hans None eq_refl) as (? & ? & _ & [=] & _). }
  destruct (loads_unique _ _ _ Hk Hl) as [Hwf _].
  assert (keeps (fun s' => persists (storeOf (granted s r)) (storeOf s')) d1) as Hk1.
  { pose proof (holds_stateNode (fun s' => persists (storeOf (granted s r)) (storeOf s')) _ (granted_wf _ _ Hwf Hp Hg) Hn) as Hh.
    split; rewrite ?Hd, Hj; by apply Hh. }
  pose proof (steps_keep _ _ _ (stable_persists _) Hsteps Hk1) as Hk2.
  pose proof (wp_run _ _ _ _ _ _ _ (Reserve_effect _ _ _ _ _) Hagain) as [[_ Hans]|(s2 & Hl2 & (_ & Hnone & Hpol & Hrev) & _)].
  { by destruct (Hans None eq_refl) as (? & ? & _ & [=] & _). }
  destruct (loads_unique _ _ _ Hk2 Hl2) as [_ (Hp2 & Hq2 & Hrec)]. unfold granted in *. rewrite storeOf_put in Hp2, Hq2, Hrec. simpl in *.
  destruct Hold as [Hid|[Hle|Hlt]]; [|lia..]. rewrite Hid in Hnone.
  destruct (Hrec (PR_PlanID r) (recordOf (mkFileRecord r []))) as (rec' & Hr' & _); [by rewrite lookup_insert_eq|].
  rewrite lookup_fmap, Hnone in Hr'. done.
Qed.
End Durable.

(** ** A codec that obeys the laws *)

#[export] Instance Timestamp_countable : Countable Timestamp.
Proof. refine (inj_countable' (fun t => (Timestamp_Seconds t, Timestamp_Nanos t)) (fun p => mkTimestamp p.1 p.2) _). by intros []. Defined.
#[export] Instance IntegrityDigest_countable : Countable IntegrityDigest.
Proof. refine (inj_countable' (fun d => (Integrity_Algorithm d, Integrity_Digest d)) (fun p => mkIntegrity p.1 p.2) _). by intros []. Defined.
#[export] Instance Signature_countable : Countable Signature.
Proof.
  refine (inj_countable' (fun s => (Signature_KeyId s, Signature_Algorithm s, Signature_Value s, Signature_SignedAt s, Signature_Encoding s,
      Signature_SignedContentDigest s, Signature_Domain s))
    (fun p => mkSignature p.1.1.1.1.1.1 p.1.1.1.1.1.2 p.1.1.1.1.2 p.1.1.1.2 p.1.1.2 p.1.2 p.2) _). by intros [].
Defined.
#[export] Instance EvidenceReference_countable : Countable EvidenceReference.
Proof.
  refine (inj_countable' (fun e => ((Evidence_Id e, Evidence_Role e, Evidence_Classification e, Evidence_SourceType e, Evidence_SourceName e,
      Evidence_Summary e, Evidence_ObservedAt e), (Evidence_LastVerifiedAt e, Evidence_ExpiresAt e, Evidence_Confidence e, Evidence_Sensitivity e,
      Evidence_LocationPrecision e, Evidence_Integrity e, Evidence_Unknown e)))
    (fun '((a, b, c, d, e, f, g), (h, i, j, k, l, m, n)) => mkEvidence a b c d e f g h i j k l m n) _). by intros [].
Defined.
#[export] Instance CheckResult_countable : Countable CheckResult.
Proof.
  refine (inj_countable' (fun r => (CR_CheckId r, CR_Outcome r, CR_ReasonCode r, CR_SafeMessage r, CR_CheckedAt r, CR_Evidence r))
    (fun '(a, b, c, d, e, f) => mkCheckResult a b c d e f) _). by intros [].
Defined.
#[export] Instance OperationResult_countable : Countable OperationResult.
Proof.
  refine (inj_countable' (fun r => (OR_OperationId r, OR_Succeeded r, OR_ReasonCode r, OR_SafeMessage r, OR_StartedAt r, OR_CompletedAt r))
    (fun '(a, b, c, d, e, f) => mkOperationResult a b c d e f) _). by intros [].
Defined.
#[export] Instance PlanExecutionResult_countable : Countable PlanExecutionResult.
Proof.
  refine (inj_countable' (fun r => ((Result_PlanId r, Result_NodeId r, Result_PlanRevision r, Result_Status r, Result_PreconditionResults r,
      Result_OperationResults r), (Result_VerificationResults r, Result_RollbackResults r, Result_CompletedAt r, Result_ReasonCode r,
      Result_NodeSignature r, Result_Unknown r)))
    (fun '((a, b, c, d, e, f), (g, h, i, j, k, l)) => mkResult a b c d e f g h i j k l) _). by intros [].
Defined.
#[export] Instance PlanReservation_countable : Countable PlanReservation.
Proof.
  refine (inj_countable' (fun r => (PR_PlanID r, PR_Fingerprint r, PR_PolicyRevision r, PR_PlanRevision r))
    (fun '(a, b, c, d) => mkPlanReservation a b c d) _). by intros [].
Defined.
#[export] Instance persistedFileRecord_eq_dec : EqDecision persistedFileRecord.
Proof. solve_decision. Defined.
#[export] Instance persistedFileRecord_countable : Countable persistedFileRecord.
Proof. refine (inj_countable' (fun r => (FR_Reservation r, FR_Result r)) (fun p => mkFileRecord p.1 p.2) _). by intros []. Defined.
#[export] Instance persistedFileState_eq_dec : EqDecision persistedFileState.
Proof. solve_decision. Defined.
#[export] Instance persistedFileState_countable : Countable persistedFileState.
Proof.
  refine (inj_countable' (fun s => (FS_SchemaVersion s, FS_LastPolicyRevision s, FS_LastPlanRevision s, FS_Records s))
    (fun '(a, b, c, d) => mkFileState a b c d) _). by intros [].
Defined.

(** The digits of an enumeration, after as many spaces as results have bytes. *)
Definition paddingOf (s : persistedFileState) : nat :=
  foldr (fun entry n => (length (FR_Result entry.2) + n)%nat) 0%nat (map_to_list (fileRecords s)).

Fixpoint dropSpaces (l : list Z) : list Z :=
  match l with
  | b :: rest => if b =? 0x20 then dropSpaces rest else l
  | [] => []
  end.

Lemma dropSpaces_padding k p : dropSpaces (repeat 0x20 k ++ posBytes p) = posBytes p.
Proof. by induction k. Qed.

Lemma padding_carries s id rec : fileRecords s !! id = Some rec -> (length (FR_Result rec) <= paddingOf s)%nat.
Proof.
  unfold paddingOf. intros Hin%elem_of_map_to_list. induction (map_to_list (fileRecords s)) as [|x l IH]; [by apply not_elem_of_nil in Hin|].
  apply elem_of_cons in Hin as [<-|Hin]; simpl; [lia|]. specialize (IH Hin). lia.
Qed.

Lemma posBytes_range p : Forall is_byte (posBytes p).
Proof. unfold posBytes. constructor; [by unfold is_byte|apply bytes_of_range]. Qed.

Definition digitsStateCodec : StateCodec.
Proof.
  refine {| stateMarshal := fun s => repeat 0x20 (paddingOf s) ++ posBytes (encode s);
            stateDecode := fun l => s ← decode (bytesPos (dropSpaces l)); Some (s, []);
            resultMarshal := fun r => Some (posBytes (encode r));
            resultUnmarshal := fun l => decode (bytesPos l) |}.
  - intros s _. split; [by destruct (paddingOf s)|]. by rewrite dropSpaces_padding, bytesPos_posBytes, decode_encode.
  - intros s id rec Hr. pose proof (padding_carries s id rec Hr). unfold len. rewrite length_app, repeat_length. lia.
  - intros r b [= <-]. split; [apply posBytes_range|]. by rewrite bytesPos_posBytes, decode_encode.
  - by intros r b [= <-] _.
Defined.

(** *** Witnesses *)

Definition demo_state_reservation (id : string) (revision : Z) : PlanReservation := mkPlanReservation id "digest" 2 revision.

Lemma fresh_keeps : kept_keeps (@loadsState digitsStateCodec) (@wfState digitsStateCodec) (fun _ => True) freshDirectory.
Proof. split; exists emptyState; (split; [done|]); (split; [done|]); (split; [apply wf_empty|done]). Qed.

Lemma demo_plain_reservation id revision : ascii id -> u64 revision -> plainReservation (demo_state_reservation id revision).
Proof. intros. split_and!; try done. apply Forall_forall. intros b Hb. vm_compute in Hb. set_solver by lia. Qed.

(** The directory after a grant for plan-1. *)
Definition demo_granted : nat * directory :=
  Eval vm_compute in snd (@FileStateStore_Reserve digitsStateCodec noFailure busyLock Background (demo_state_reservation "plan-1" 5) (0%nat, freshDirectory)).

Lemma demo_file_grant :
  @FileStateStore_Reserve digitsStateCodec noFailure busyLock Background (demo_state_reservation "plan-1" 5) (0%nat, freshDirectory) =
  (Ok None, (fst demo_granted, snd demo_granted)).
Proof. vm_compute. reflexivity. Qed.

Lemma file_state_at_most_once_witness :
  @FileStateStore_Reserve digitsStateCodec noFailure busyLock Background (demo_state_reservation "plan-1" 6)
    (0%nat, restarted (dir_durable (snd demo_granted)) (snd demo_granted)) <> (Ok None, (0%nat, freshDirectory)).
Proof.
  apply (@file_state_at_most_once digitsStateCodec noFailure busyLock Background (demo_state_reservation "plan-1" 5) 0 (fst demo_granted)
    freshDirectory (snd demo_granted) _ noFailure busyLock Background (demo_state_reservation "plan-1" 6) 0 0 freshDirectory fresh_keeps).
  - apply demo_plain_reservation; [|by vm_compute]. repeat constructor.
  - exact demo_file_grant.
  - eapply rtc_l; [|apply rtc_refl]. apply fstep_powerloss. by right.
  - by left.
Defined.

Lemma file_state_refines_witness :
  kept_keeps (@loadsState digitsStateCodec) (@wfState digitsStateCodec) (fun _ => True) freshDirectory /\
  wp (@FileStateStore_Reserve digitsStateCodec syncFails busyLock Background (demo_state_reservation "plan-1" 5)) (fun res d' =>
    forall ans, res = Ok ans -> exists s s', @loadsState digitsStateCodec (dir_journal freshDirectory) = Ok s /\
      @loadsState digitsStateCodec (dir_journal d') = Ok s' /\
      (dir_journal d' = dir_journal freshDirectory \/ dir_durable d' = dir_journal d') /\
      MemoryStateStore_Reserve Background (demo_state_reservation "plan-1" 5) (0%nat, @storeOf digitsStateCodec s) =
        (Ok ans, (1%nat, @storeOf digitsStateCodec s'))) freshDirectory.
Proof.
  split; [apply fresh_keeps|].
  apply (@file_state_refines digitsStateCodec syncFails busyLock Background (demo_state_reservation "plan-1" 5)
    (mkResult "plan-1" "node-1" 5 0 [] [] [] [] None EmptyString None false) freshDirectory fresh_keeps); [|done].
  apply demo_plain_reservation; [|by vm_compute]. repeat constructor.
Defined.
