(* ===== verification/GateFacts.v ===== *)
(** * Posture and gate: theorems

    When a node is protected, when an action is allowed, and what a one-time
    authorization is bound to; end to end, an allowed action rests on facts
    that were fresh, valid and true. *)

From S2P Require Import Prelude Sha256 Digest Library Probe ProbeFacts Contract JournalFile JournalFileFacts Plan Policy PolicyFacts Posture Gate.
From stdpp Require Import base list strings sorting countable gmap.
From Stdlib Require Import ZArith Lia.

Open Scope Z_scope.

(** ** Posture *)

(** What each guard of the evaluation asks for. *)
Definition telemetryFresh (staleAfter : Z) (input : PostureInput) : bool :=
  negb (IsZero (Input_TelemetryAt input))
  && (- (5 * Minute) <=? Sub (Input_EvaluatedAt input) (Input_TelemetryAt input))
  && (Sub (Input_EvaluatedAt input) (Input_TelemetryAt input) <=? staleAfter).

Definition trustKnown (input : PostureInput) : bool :=
  eqs (Input_NetworkTrust input) "TRUSTED" || eqs (Input_NetworkTrust input) "UNTRUSTED".

(** A required control is established by a known, valid, true fact. *)
Definition established (staleAfter : Z) (now : time) (c : postureCheck) : bool :=
  negb (Check_required c) || (Fact_Known (Check_fact c) && validFact (Check_fact c) now staleAfter && Fact_Value (Check_fact c)).


Lemma worsen_protected state : worsen state = StateProtected <-> False.
Proof. unfold worsen. destruct (state =? StateProtected) eqn:E; [done|]. apply Z.eqb_neq in E. tauto. Qed.

Lemma assessTelemetry_state staleAfter input a :
  A_state (assessTelemetry staleAfter input a) = StateProtected <-> telemetryFresh staleAfter input = true /\ A_state a = StateProtected.
Proof.
  unfold assessTelemetry, telemetryFresh. destruct (IsZero _); simpl; [split; [done|by intros []]|].
  destruct (_ || _) eqn:E; simpl.
  - split; [done|]. rewrite andb_true_iff, !Z.leb_le. apply orb_true_iff in E. rewrite !Z.ltb_lt in E. lia.
  - apply orb_false in E as [E1%Z.ltb_ge E2%Z.ltb_ge]. rewrite andb_true_iff, !Z.leb_le. naive_solver.
Qed.

Lemma assessTrust_state input a :
  A_state (assessTrust input a) = StateProtected <-> trustKnown input = true /\ A_state a = StateProtected.
Proof.
  unfold assessTrust, trustKnown. destruct (eqs _ "TRUSTED"), (eqs _ "UNTRUSTED"); simpl; rewrite ?worsen_protected; naive_solver.
Qed.

Lemma assessCheck_state staleAfter now a c a' : assessCheck staleAfter now a c = Ok a' ->
  (A_state a' = StateProtected <-> established staleAfter now c = true /\ A_state a = StateProtected).
Proof.
  unfold assessCheck, established. destruct (Check_required c); simpl; [|intros [= <-]; tauto].
  destruct (Fact_Known _); simpl; [|intros [= <-]; simpl; rewrite worsen_protected; naive_solver].
  destruct (validFact _ _ _); simpl; [|done]. destruct (Fact_Value _); simpl; intros [= <-]; naive_solver.
Qed.

Lemma assessChecks_state staleAfter now a checks a' : assessChecks staleAfter now a checks = Ok a' ->
  (A_state a' = StateProtected <-> forallb (established staleAfter now) checks = true /\ A_state a = StateProtected).
Proof.
  revert a. induction checks as [|c rest IH]; intros a; simpl; [intros [= <-]; tauto|].
  intros (a1 & Hc & Hr)%rbind_Ok. rewrite (IH _ Hr), (assessCheck_state _ _ _ _ _ Hc), andb_true_iff. tauto.
Qed.

(** *** What a PROTECTED snapshot says of its evidence *)








Section Posture.
Context {H : Hasher} (text : time -> string).

Lemma Evaluate_Ok staleAfter input s : Posture_Evaluate text staleAfter input = Ok s ->
  (Protection_State s = StateProtected <-> telemetryFresh staleAfter input = true /\ trustKnown input = true /\
     forallb (established staleAfter (Input_EvaluatedAt input)) (postureChecks input) = true) /\
  Protection_NodeId s = Input_NodeID input /\ Protection_PolicyRevision s = Input_PolicyRevision input /\
  Protection_EvaluatedAt s = Some (Timestamp_New (Input_EvaluatedAt input)) /\
  Protection_ValidUntil s = Some (Timestamp_New (Input_EvaluatedAt input + staleAfter)) /\
  Protection_EnforcementState s = enforcementFor (Protection_State s) /\ Protection_EvidenceProvenance s = 0.
Proof.
  unfold Posture_Evaluate. intros Hs. validated Hs. injection Hs as <-. simpl. split; [|done].
  assert (A_state (assessProtected a) = A_state a) as -> by (unfold assessProtected; by destruct (A_state a =? StateProtected)).
  match goal with Hc : assessChecks _ _ _ _ = Ok _ |- _ => rewrite (assessChecks_state _ _ _ _ _ Hc) end.
  rewrite assessTrust_state, assessTelemetry_state. simpl. tauto.
Qed.



End Posture.

(** ** The gate *)

Section Gate.
Context {H : Hasher} {T : ActionText}.

(** A snapshot that can decide an action of the request's node. *)
Definition snapshotFits (q : SecureActionRequest) (s : ProtectionSnapshot) : bool :=
  eqs (Action_NodeId q) (Protection_NodeId s) && negb (Protection_PolicyRevision s =? 0)
  && goodTimestamp (Protection_EvaluatedAt s) && goodTimestamp (Protection_ValidUntil s).

Definition inTime (q : SecureActionRequest) (now : time) : bool :=
  match Action_Deadline q with Some t => now <? AsTime t | None => true end.

Definition protectedNow (s : ProtectionSnapshot) (now : time) : bool :=
  (Protection_State s =? StateProtected) && match Protection_ValidUntil s with Some u => now <? AsTime u | None => false end
  && validExecutionProvenance (Protection_EvidenceProvenance s).

(** The verdict the gate is specified to give. *)
Definition verdict (gate : Gate) (q : SecureActionRequest) (s : ProtectionSnapshot) (now : time) : Z :=
  if negb (dimensionsMatch gate q && destinationsMatch gate q && inTime q now) then DecisionBlock
  else if protectedNow s now then DecisionAllow else DecisionHold.

Lemma Evaluate_decision gate q s now :
  validateActionRequest q = Ok tt -> snapshotFits q s = true ->
  exists reasons expiresAt, Gate_Evaluate gate (Some q) (Some s) now = Ok (decision gate q s (verdict gate q s now) reasons expiresAt) /\
    (verdict gate q s now = DecisionHold -> now < expiresAt <= now + 2 * Minute /\
       (forall t, Action_Deadline q = Some t -> expiresAt <= AsTime t) /\ reasons <> []) /\
    (verdict gate q s now <> DecisionHold -> expiresAt = zeroTime).
Proof.
  intros Hq Hs. unfold Gate_Evaluate, verdict, protectedNow, inTime. rewrite Hq. simpl.
  unfold snapshotFits in Hs. apply andb_true_iff in Hs as [[[-> Hr]%andb_true_iff ->]%andb_true_iff ->]. rewrite negb_true_iff in Hr. rewrite Hr. simpl.
  destruct (dimensionsMatch gate q); simpl; [|by eexists _, _].
  destruct (destinationsMatch gate q); simpl; [|by eexists _, _].
  assert (forall deadline : time, now < deadline -> let e := if now + 2 * Minute <? deadline then now + 2 * Minute else deadline in
    now < e <= now + 2 * Minute /\ e <= deadline) as He.
  { intros deadline Hd. simpl. destruct (_ <? deadline) eqn:E; unfold Minute, Second in *; lia. }
  assert (forall l : list string, (if len l =? 0 then ["AF-PROTECTION-NOT-VERIFIED"] else l) <> []) as Hl.
  { intros l. destruct (len l =? 0) eqn:E; [done|]. intros ->. done. }
  destruct (Action_Deadline q) as [t|].
  - destruct (now <? AsTime t) eqn:E; simpl; [|by eexists _, _]. apply Z.ltb_lt in E. specialize (He _ E).
    destruct (_ && _ && _); [by eexists _, _|]. eexists _, _. split; [done|]. split; [|done]. intros _. simpl in He. split; [lia|].
    split; [intros t' [= <-]; lia|apply Hl].
  - assert (now < now + 30 * Second) as E by (unfold Second; lia). specialize (He _ E). apply Z.ltb_lt in E. rewrite E. simpl.
    destruct (_ && _ && _); [by eexists _, _|]. eexists _, _. split; [done|]. split; [|done]. intros _. simpl in He. split; [lia|].
    by split; [|apply Hl].
Qed.

Lemma Evaluate_fails gate q s now : validateActionRequest q <> Ok tt \/ snapshotFits q s = false ->
  is_ok (Gate_Evaluate gate (Some q) (Some s) now) = false.
Proof.
  unfold Gate_Evaluate. destruct (validateActionRequest q) as [[]|]; simpl; [|done]. intros [?|Hs]; [done|].
  unfold snapshotFits in Hs. replace (_ || _) with true; [done|].
  destruct (eqs _ _), (_ =? 0), (goodTimestamp _), (goodTimestamp _); done.
Qed.

Lemma Evaluate_inv gate q s now d : Gate_Evaluate gate (Some q) (Some s) now = Ok d ->
  validateActionRequest q = Ok tt /\ snapshotFits q s = true /\
  exists reasons e, d = decision gate q s (verdict gate q s now) reasons e.
Proof.
  intros Hd. assert (validateActionRequest q = Ok tt) as Hq.
  { unfold Gate_Evaluate in Hd. destruct (validateActionRequest q) as [[]|]; [done|]. done. }
  destruct (snapshotFits q s) eqn:Hs; [|by pose proof (Evaluate_fails gate q s now (or_intror Hs)) as Hf; rewrite Hd in Hf].
  destruct (Evaluate_decision gate q s now Hq Hs) as (reasons & e & Hd' & _). rewrite Hd in Hd'. injection Hd' as ->.
  split_and!; [done..|]. by eexists _, _.
Qed.

(** The gate decides as specified: it answers exactly the well-formed
    requests whose snapshot is for their node; it blocks outside policy or
    past the deadline, allows exactly while the snapshot says PROTECTED, has
    not expired and rests on live or simulated evidence, and holds
    otherwise, for at most two minutes and never past the deadline. *)
Theorem gate_decides gate q s now :
  match Gate_Evaluate gate (Some q) (Some s) now with
  | Err _ => validateActionRequest q <> Ok tt \/ snapshotFits q s = false
  | Ok d => validateActionRequest q = Ok tt /\ snapshotFits q s = true /\
      Decision_Decision d = verdict gate q s now /\ Decision_Status d = statusOf (verdict gate q s now) /\
      Decision_Protection d = Some s /\ Decision_ActionId d = Action_Id q /\ Decision_Authorization d = EmptyString /\
      (verdict gate q s now = DecisionHold -> exists e, now < e <= now + 2 * Minute /\
         (forall t, Action_Deadline q = Some t -> e <= AsTime t) /\ Decision_ReasonCodes d <> [] /\
         Decision_ExpiresAt d = if IsZero e then None else Some (Timestamp_New e)) /\
      (verdict gate q s now <> DecisionHold -> Decision_ExpiresAt d = None)
  end.
Proof.
  assert (validateActionRequest q = Ok tt \/ validateActionRequest q <> Ok tt) as [Hq|Hq]; [|destruct (snapshotFits q s) eqn:Hs|].
  { destruct (validateActionRequest q) as [[]|]; [by left|by right]. }
  - destruct (Evaluate_decision gate q s now Hq Hs) as (reasons & e & -> & Hhold & Hnot). unfold decision. simpl. split_and!; try done.
    + intros Hh. destruct (Hhold Hh) as ([? ?] & ? & ?). exists e. by split_and!.
    + intros Hn. by rewrite (Hnot Hn).
  - pose proof (Evaluate_fails gate q s now (or_intror Hs)) as Hf. destruct (Gate_Evaluate _ _ _ _); [done|by right].
  - pose proof (Evaluate_fails gate q s now (or_introl Hq)) as Hf. destruct (Gate_Evaluate _ _ _ _); [done|by left].
Qed.

(** ** One-time authorization *)

(** Everything a successful authorization rests on. *)
Lemma AuthorizeOnce_Ok gate q d destinations expiresAt now consent d' :
  AuthorizeOnce gate (Some q) (Some d) destinations expiresAt now consent = Ok d' ->
  exists s, Decision_Protection d = Some s /\ validateActionRequest q = Ok tt /\
    GP_AllowOneTimeBypass (Gate_policy gate) = true /\ consent = true /\
    Decision_ActionId d = Action_Id q /\ eligible (Decision_Decision d) = true /\
    Decision_RequestBinding d = decisionBinding gate q s (Decision_Decision d)
      (match Decision_ExpiresAt d with Some t => AsTime t | None => zeroTime end) /\
    requestWithinPolicy gate q = true /\ sameStrings (Action_Destinations q) destinations = true /\
    now < expiresAt <= now + GP_OneTimeBypassTTL (Gate_policy gate) /\ expiresAt <= deadlineOf q /\
    d' = withAuthorization (authorization gate q expiresAt) (decision gate q s DecisionAllowOnce ["AF-USER-AUTHORIZED-ONCE"] expiresAt).
Proof.
  unfold AuthorizeOnce. destruct (Decision_Protection d) as [s|]; [|done]. intros Ha. validated Ha. injection Ha as <-.
  repeat match goal with Hb : _ || _ = false |- _ => apply orb_false in Hb as [? ?] end.
  repeat match goal with Hb : negb _ = false |- _ => apply negb_false_iff in Hb end.
  repeat match goal with Hb : eqs _ _ = true |- _ => apply eqs_true in Hb end.
  exists s. split_and!; try done; lia.
Qed.

Lemma sameStrings_perm l k : sameStrings l k = true -> l ≡ₚ k.
Proof.
  unfold sameStrings, sort_strings. intros [_ Hs%bool_decide_eq_true]%andb_true_iff.
  by rewrite <- (merge_sort_Permutation String.le l), Hs, merge_sort_Permutation.
Qed.

(** A one-time authorization needs everything at once: a policy that
    permits it and the operator's consent, a request within policy, a held or
    blocked decision bound to this very request, exactly the request's
    destinations, and an expiry after now, within the policy's limit and not
    past the request's deadline; and what it returns is an ALLOW_ONCE on the
    same snapshot with a grant for this request that expires then. *)
Theorem authorize_once_sound gate q d destinations expiresAt now consent d' :
  AuthorizeOnce gate (Some q) (Some d) destinations expiresAt now consent = Ok d' ->
  GP_AllowOneTimeBypass (Gate_policy gate) = true /\ consent = true /\ requestWithinPolicy gate q = true /\
  eligible (Decision_Decision d) = true /\ destinations ≡ₚ Action_Destinations q /\
  now < expiresAt <= now + GP_OneTimeBypassTTL (Gate_policy gate) /\
  expiresAt <= deadlineOf q /\
  Decision_Decision d' = DecisionAllowOnce /\ Decision_Status d' = StatusBypassed /\
  Decision_Protection d' = Decision_Protection d /\ Decision_ActionId d' = Action_Id q /\
  Decision_Authorization d' = authorization gate q expiresAt.
Proof.
  intros (s & Hs & _ & Hp & Hc & _ & He & _ & Hw & Hd & Ht & Hdl & ->)%AuthorizeOnce_Ok.
  split_and!; try done; [by symmetry; apply sameStrings_perm|lia..].
Qed.

(** What is blocked stays blocked: a BLOCK that the gate issued for a
    request is never turned into a one-time authorization, by any consent,
    destinations or expiry, at that instant or later. *)
Theorem blocked_never_authorized gate q s now d destinations expiresAt now' consent :
  Gate_Evaluate gate (Some q) (Some s) now = Ok d -> Decision_Decision d = DecisionBlock -> now <= now' ->
  is_ok (AuthorizeOnce gate (Some q) (Some d) destinations expiresAt now' consent) = false.
Proof.
  intros Hd Hblock Hnow. destruct (AuthorizeOnce _ _ _ _ _ _ _) as [d'|] eqn:Ha; [|done].
  destruct (AuthorizeOnce_Ok _ _ _ _ _ _ _ _ Ha) as (s' & _ & Hq & _ & _ & _ & _ & _ & Hw & _ & Ht & Hdl & _).
  unfold requestWithinPolicy in Hw. apply andb_true_iff in Hw as [[Hdim Hdest]%andb_true_iff _].
  destruct (Evaluate_inv _ _ _ _ _ Hd) as (_ & _ & reasons & e & ->).
  simpl in Hblock. unfold verdict in Hblock. rewrite Hdim, Hdest in Hblock. simpl in Hblock.
  assert (inTime q now = true) as Hin.
  { unfold inTime. unfold deadlineOf in Hdl. destruct (Action_Deadline q); [|done]. lia. }
  rewrite Hin in Hblock. simpl in Hblock. by destruct (protectedNow s now).
Qed.

(** A request without a deadline is held but can never be authorized: the
    missing deadline counts as now plus thirty seconds when the gate decides,
    and as the Unix epoch when an operator consents. *)
Theorem no_deadline_never_authorized gate q d destinations expiresAt now consent :
  Action_Deadline q = None -> 0 <= now ->
  is_ok (AuthorizeOnce gate (Some q) (Some d) destinations expiresAt now consent) = false.
Proof.
  intros Hn H0. destruct (AuthorizeOnce _ _ _ _ _ _ _) as [d'|] eqn:Ha; [|done].
  destruct (AuthorizeOnce_Ok _ _ _ _ _ _ _ _ Ha) as (s' & _ & _ & _ & _ & _ & _ & _ & _ & _ & Ht & Hdl & _).
  unfold deadlineOf in Hdl. rewrite Hn in Hdl. lia.
Qed.

(** ** What a decision is bound to *)

Lemma hmac_bytes key m : Forall is_byte (hmac256 key m).
Proof. unfold hmac256. apply sum256_bytes. Qed.

Lemma sensitivityName_inj u v : validSensitivity u = true -> validSensitivity v = true -> sensitivityName u = sensitivityName v -> u = v.
Proof.
  unfold validSensitivity. intros Hu Hv.
  assert (u = 1 \/ u = 2 \/ u = 3 \/ u = 4 \/ u = 5) as Hu' by lia. assert (v = 1 \/ v = 2 \/ v = 3 \/ v = 4 \/ v = 5) as Hv' by lia.
  destruct_or!; subst; done.
Qed.

Lemma AsTime_valid t : Timestamp_CheckValid t = true -> zeroTime <= AsTime t < 253402300800 * Second.
Proof. unfold Timestamp_CheckValid, AsTime, zeroTime, Second. lia. Qed.

Lemma AsTime_inj t u : Timestamp_CheckValid t = true -> Timestamp_CheckValid u = true -> AsTime t = AsTime u -> t = u.
Proof.
  unfold Timestamp_CheckValid, AsTime, Second. destruct t as [a b], u as [c d]. simpl. intros. assert (a = c /\ b = d) as [-> ->] by lia. done.
Qed.

Definition validDeadline (t : option Timestamp) : Prop := forall x, t = Some x -> Timestamp_CheckValid x = true.

Lemma timestampString_inj t u : validDeadline t -> validDeadline u -> timestampString t = timestampString u -> t = u.
Proof.
  intros Ht Hu. unfold timestampString. destruct t as [t|], u as [u|]; try done; rewrite ?(Ht t), ?(Hu u) by done.
  - intros Heq%RFC3339Nano_inj; [|by apply AsTime_valid; auto..]. f_equal. apply AsTime_inj; auto.
  - intros Heq. by destruct (proj1 (RFC3339Nano_text (AsTime t))).
  - intros Heq. by destruct (proj1 (RFC3339Nano_text (AsTime u))).
Qed.

(** A request whose text is what the wire can carry. *)
Definition utf8Request (q : SecureActionRequest) : Prop :=
  Forall utf8 ([Action_Id q; Action_ApplicationId q; Action_NodeId q; Action_OperationId q; Action_ActionType q; Action_DataClass q]
    ++ Action_Destinations q).

Lemma utf8_ascii s : Forall (fun b => b < 128) (bytes_of s) -> utf8 s.
Proof.
  unfold utf8. induction s as [|c s IH]; simpl; [done|]. intros [Hc Hs]%Forall_cons.
  replace (byte_of c <? 0x80) with true by lia. by apply IH.
Qed.

Lemma base64_text l : Forall is_byte l -> utf8 (base64url l).
Proof. intros Hl. by apply utf8_ascii, base64url_ascii. Qed.

Lemma binding_utf8 q s kind e : utf8Request q -> validSensitivity (Action_Sensitivity q) = true -> validDeadline (Action_Deadline q) ->
  (forall b, snapshotMarshal s = Some b -> Forall is_byte b) -> 0 <= kind <= 5 -> utf8Binding (bindingOf q s kind e).
Proof.
  intros [Hq Hd]%Forall_app Hs Hdl Hm Hk. unfold utf8Binding, bindingOf. simpl.
  assert (utf8 (sensitivityName (Action_Sensitivity q))) as H1.
  { unfold validSensitivity in Hs. assert (Action_Sensitivity q = 1 \/ Action_Sensitivity q = 2 \/ Action_Sensitivity q = 3 \/
      Action_Sensitivity q = 4 \/ Action_Sensitivity q = 5) as Hx by lia. destruct_or! Hx; rewrite Hx; vm_compute; done. }
  assert (utf8 (decisionName kind)) as H2.
  { assert (kind = 0 \/ kind = 1 \/ kind = 2 \/ kind = 3 \/ kind = 4 \/ kind = 5) as Hx by lia. destruct_or! Hx; rewrite Hx; vm_compute; done. }
  assert (utf8 (timestampString (Action_Deadline q))) as H3.
  { unfold timestampString. destruct (Action_Deadline q); [|done]. case_match; [apply RFC3339Nano_text|done]. }
  assert (utf8 (timeString e)) as H4 by (unfold timeString; case_match; [done|apply RFC3339Nano_text]).
  assert (utf8 (canonicalProto s)) as H5.
  { unfold canonicalProto. destruct (snapshotMarshal s) eqn:E; [by apply base64_text, Hm|done]. }
  assert (Forall utf8 (sort_strings (Action_Destinations q))) as H6 by (unfold sort_strings; by rewrite merge_sort_Permutation).
  repeat (apply Forall_cons in Hq as [? Hq]). repeat (apply Forall_cons; split); auto.
Qed.

(** Decisions do not transfer. A decision the gate issued for one request
    and snapshot is accepted as the prior of an authorization only for a
    request with the same identity, application, node, operation, action
    type, data class, sensitivity, deadline and destinations (up to their
    order) and a snapshot with the same encoding, or two different messages
    with the same keyed hash are in hand. *)
Theorem decision_not_transferable gate q s kind reasons e q' d destinations expiresAt now consent d' :
  Decision_RequestBinding d = Decision_RequestBinding (decision gate q s kind reasons e) -> Decision_Decision d = kind ->
  validateActionRequest q = Ok tt -> utf8Request q -> utf8Request q' -> 0 <= kind <= 5 ->
  (forall s b, snapshotMarshal s = Some b -> Forall is_byte b) ->
  AuthorizeOnce gate (Some q') (Some d) destinations expiresAt now consent = Ok d' ->
  (exists s', Decision_Protection d = Some s' /\ canonicalProto s' = canonicalProto s /\
     Action_Id q' = Action_Id q /\ Action_ApplicationId q' = Action_ApplicationId q /\ Action_NodeId q' = Action_NodeId q /\
     Action_OperationId q' = Action_OperationId q /\ Action_ActionType q' = Action_ActionType q /\ Action_DataClass q' = Action_DataClass q /\
     Action_Sensitivity q' = Action_Sensitivity q /\ Action_Deadline q' = Action_Deadline q /\
     Action_Destinations q' ≡ₚ Action_Destinations q) \/
  (exists m m', m <> m' /\ hmac256 (Gate_key gate) m = hmac256 (Gate_key gate) m').
Proof.
  intros Hb Hk Hq Hu Hu' Hkind Hm (s' & Hs' & Hq' & _ & _ & _ & _ & Hb' & _)%AuthorizeOnce_Ok.
  rewrite Hb, Hk in Hb'. unfold decision, decisionBinding in Hb'. cbn [Decision_RequestBinding] in Hb'.
  apply base64url_inj in Hb'; [|apply hmac_bytes..].
  match type of Hb' with hmac256 _ ?m1 = hmac256 _ ?m2 => destruct (decide (m1 = m2)) as [Hmm|Hne]; [left|right; by exists m1, m2] end.
  apply app_inv_head in Hmm. cbn [app] in Hmm. apply cons_inj in Hmm as [_ Hmm].
  assert (forall q, validateActionRequest q = Ok tt -> validSensitivity (Action_Sensitivity q) = true /\ validDeadline (Action_Deadline q)) as Hv.
  { clear. intros q Hq. unfold validateActionRequest in Hq. validated Hq. split.
    - apply negb_false_iff. by match goal with Hb : _ || _ = false |- _ => apply orb_false in Hb as [_ ?] end.
    - intros x Hx. rewrite Hx in Hv1. by apply negb_false_iff. }
  destruct (Hv q Hq) as [Hsen Hdl], (Hv q' Hq') as [Hsen' Hdl'].
  apply bindingJSON_inj in Hmm; [|apply binding_utf8; eauto..].
  unfold bindingOf in Hmm. injection Hmm as -> -> -> -> -> -> Hse Hde Hdl2 _ Hc. exists s'. split_and!; try done.
  - by apply sensitivityName_inj.
  - symmetry. by apply timestampString_inj.
  - unfold sort_strings in Hde. by rewrite <- (merge_sort_Permutation String.le (Action_Destinations q')), <- Hde, merge_sort_Permutation.
Qed.

(** ** End to end *)

Definition withProvenance (v : Z) (s : ProtectionSnapshot) : ProtectionSnapshot :=
  mkProtection (Protection_Id s) (Protection_DeploymentId s) (Protection_NodeId s) (Protection_PolicyId s) (Protection_PolicyRevision s)
    (Protection_State s) (Protection_EnforcementState s) (Protection_EvaluatedAt s) (Protection_ValidUntil s) (Protection_Reasons s)
    (Protection_Confidence s) (Protection_RecommendedResponse s) v.

(** An allowed action rests on established facts. When the gate allows an
    action on a snapshot of the engine, whatever provenance the server put on
    it, then the telemetry was fresh at the evaluation, the network was
    classified, every control an untrusted network requires was known, valid
    and true, the snapshot is not older than the freshness window, and the
    provenance is live or simulation: a snapshot as the engine leaves it, of
    unspecified provenance, never allows. *)
Theorem allowed_rests_on_facts gate q staleAfter input s v now d :
  Posture_Evaluate RFC3339Nano staleAfter input = Ok s ->
  Gate_Evaluate gate (Some q) (Some (withProvenance v s)) now = Ok d -> Decision_Decision d = DecisionAllow ->
  telemetryFresh staleAfter input = true /\ trustKnown input = true /\
  forallb (established staleAfter (Input_EvaluatedAt input)) (postureChecks input) = true /\
  now < Input_EvaluatedAt input + staleAfter /\ (v = ProvenanceLive \/ v = ProvenanceSimulation) /\
  requestWithinPolicy gate q = true.
Proof.
  intros Hp Hd Hallow. destruct (Evaluate_Ok RFC3339Nano _ _ _ Hp) as (Hiff & _ & _ & _ & Hu & _).
  destruct (Evaluate_inv _ _ _ _ _ Hd) as (Hq & _ & reasons & e & ->).
  simpl in Hallow. unfold verdict in Hallow. destruct (negb _) eqn:Hin in Hallow; [done|]. apply negb_false_iff in Hin.
  destruct (protectedNow _ now) eqn:Hprot; [|done]. unfold protectedNow in Hprot. simpl in Hprot. rewrite Hu in Hprot.
  apply andb_true_iff in Hprot as [[Hst%Z.eqb_eq Hnow%Z.ltb_lt]%andb_true_iff Hv]. rewrite AsTime_New in Hnow.
  apply Hiff in Hst as (? & ? & ?). split_and!; try done.
  - unfold validExecutionProvenance in Hv. apply orb_true_iff in Hv. rewrite !Z.eqb_eq in Hv. done.
  - unfold requestWithinPolicy. apply andb_true_iff in Hin as [Hin _]. rewrite Hin. simpl.
    unfold validateActionRequest in Hq. validated Hq. destruct (Action_Destinations q); [|done]. by rewrite !orb_true_r in Hv0.
Qed.
End Gate.

(** ** Concrete runs *)

(** Text that obeys the laws: the digits of an enumeration. *)
Definition bindingTuple (b : bindingFields) :=
  ((Binding_ActionID b, Binding_ApplicationID b, Binding_NodeID b, Binding_OperationID b, Binding_ActionType b, Binding_DataClass b),
   (Binding_Sensitivity b, Binding_Destinations b, Binding_Deadline b, Binding_Decision b, Binding_DecisionExpiry b, Binding_Snapshot b)).

Definition digitsText : ActionText.
Proof.
  refine {| RFC3339Nano := fun t => String (hex_digit 0) (posDigits (encode t));
            bindingJSON := fun b => posBytes (encode (bindingTuple b));
            grantJSON := fun g => bytes_of (Grant_ActionID g) ++ bytes_of (Grant_ExpiresAt g);
            snapshotMarshal := fun s => Some (bytes_of (Protection_Id s)) |}.
  - intros t u _ _ Heq. injection Heq as Heq. apply (f_equal digitsPos) in Heq. rewrite !digitsPos_posDigits in Heq. by apply (inj encode).
  - intros t. split; [done|]. apply utf8_ascii. constructor; [done|apply ascii_posDigits].
  - intros a b _ _ Heq. apply (f_equal bytesPos) in Heq. rewrite !bytesPos_posBytes in Heq. apply (inj encode) in Heq.
    destruct a, b. unfold bindingTuple in Heq. simpl in Heq. by injection Heq as -> -> -> -> -> -> -> -> -> -> -> ->.
Defined.

Definition demo_gate : Gate :=
  mkGate (mkGatePolicy ["*"] ["mail"] ["*"] ["*"] ["*"] ["mail.example"; "backup.example"] true (5 * Minute)) (repeat 3 32).

Definition demo_fact (value : bool) : Fact := mkFact true value ClassVerified 0x3f000000 demo_instant EmptyString.
Definition demo_input (value : bool) : PostureInput :=
  mkInput "deployment-1" "node-1" "policy-1" 4 (demo_instant + Second) demo_instant "UNTRUSTED" true
    (demo_fact true) (demo_fact true) (demo_fact true) (demo_fact value).

Definition noSnapshot : ProtectionSnapshot :=
  mkProtection EmptyString EmptyString EmptyString EmptyString 0 0 0 None None [] 0 EmptyString 0.
Definition demo_snapshot (value : bool) : ProtectionSnapshot :=
  match @Posture_Evaluate sha256 (@RFC3339Nano digitsText) (2 * Minute) (demo_input value) with Ok s => s | Err _ => noSnapshot end.

Definition demo_action (application : string) (deadline : option Timestamp) : SecureActionRequest :=
  mkActionRequest "action-1" application "node-1" "send" ["mail.example"; "backup.example"] "mail" 2 deadline "operation-1".

Definition demo_deadline : option Timestamp := Some (Timestamp_New (demo_instant + Minute)).

Definition noDecision : SecureActionDecision :=
  mkDecision EmptyString 0 0 None [] EmptyString None EmptyString EmptyString EmptyString.
Definition demo_decision (q : SecureActionRequest) (s : ProtectionSnapshot) : SecureActionDecision :=
  match @Gate_Evaluate sha256 digitsText demo_gate (Some q) (Some s) (demo_instant + 2 * Second) with Ok d => d | Err _ => noDecision end.

Abbreviation demo_authorize q d :=
  (@AuthorizeOnce sha256 digitsText demo_gate (Some q) (Some d) ["backup.example"; "mail.example"] (demo_instant + 30 * Second)
    (demo_instant + 3 * Second) true).

(** The request held on an exposed node, and its authorization. *)
Definition demo_held : SecureActionDecision := demo_decision (demo_action "mail" demo_deadline) (demo_snapshot false).

Lemma is_ok_exists {A} (r : result A) : is_ok r = true -> exists a, r = Ok a.
Proof. destruct r; [eauto|done]. Qed.

Lemma demo_authorized : exists d', demo_authorize (demo_action "mail" demo_deadline) demo_held = Ok d'.
Proof. apply is_ok_exists. vm_compute. reflexivity. Qed.

Lemma authorize_once_sound_witness : exists d', demo_authorize (demo_action "mail" demo_deadline) demo_held = Ok d' /\
  Decision_Decision d' = DecisionAllowOnce.
Proof.
  destruct demo_authorized as [d' Hd]. exists d'. split; [exact Hd|].
  destruct (@authorize_once_sound _ _ _ _ _ _ _ _ _ _ Hd) as (_ & _ & _ & _ & _ & _ & _ & Hk & _). exact Hk.
Defined.

Lemma demo_evaluates q s : is_ok (@Gate_Evaluate sha256 digitsText demo_gate (Some q) (Some s) (demo_instant + 2 * Second)) = true ->
  @Gate_Evaluate sha256 digitsText demo_gate (Some q) (Some s) (demo_instant + 2 * Second) = Ok (demo_decision q s).
Proof. unfold demo_decision. by destruct (Gate_Evaluate _ _ _ _). Qed.

Lemma blocked_never_authorized_witness :
  is_ok (demo_authorize (demo_action "chat" demo_deadline) (demo_decision (demo_action "chat" demo_deadline) (demo_snapshot false))) = false.
Proof.
  apply (@blocked_never_authorized sha256 digitsText demo_gate (demo_action "chat" demo_deadline) (demo_snapshot false)
    (demo_instant + 2 * Second)).
  - apply demo_evaluates. vm_compute. reflexivity.
  - vm_compute. reflexivity.
  - apply Z.leb_le. vm_compute. reflexivity.
Defined.

Lemma no_deadline_never_authorized_witness :
  Decision_Decision (demo_decision (demo_action "mail" None) (demo_snapshot false)) = DecisionHold /\
  is_ok (demo_authorize (demo_action "mail" None) (demo_decision (demo_action "mail" None) (demo_snapshot false))) = false.
Proof.
  split; [vm_compute; reflexivity|].
  apply (@no_deadline_never_authorized sha256 digitsText); [reflexivity|apply Z.leb_le; vm_compute; reflexivity].
Defined.

Lemma demo_action_utf8 : utf8Request (demo_action "mail" demo_deadline).
Proof. unfold utf8Request. repeat constructor. Qed.

Lemma decision_not_transferable_witness :
  exists d' s', demo_authorize (demo_action "mail" demo_deadline) demo_held = Ok d' /\ Decision_Protection demo_held = Some s'.
Proof.
  destruct demo_authorized as [d' Hd]. exists d'.
  destruct (@decision_not_transferable sha256 digitsText demo_gate (demo_action "mail" demo_deadline) (demo_snapshot false) DecisionHold
    [] (demo_instant + Minute) (demo_action "mail" demo_deadline) demo_held
    ["backup.example"; "mail.example"] (demo_instant + 30 * Second) (demo_instant + 3 * Second) true d') as [(s' & Hs & _)|_].
  - vm_compute. reflexivity.
  - vm_compute. reflexivity.
  - reflexivity.
  - apply demo_action_utf8.
  - apply demo_action_utf8.
  - split; apply Z.leb_le; reflexivity.
  - intros s b [= <-]. apply bytes_of_range.
  - exact Hd.
  - exists s'. split; [exact Hd|exact Hs].
  - exists (demo_snapshot false). split; [exact Hd|]. vm_compute. reflexivity.
Defined.

Lemma demo_posture value : @Posture_Evaluate sha256 (@RFC3339Nano digitsText) (2 * Minute) (demo_input value) = Ok (demo_snapshot value).
Proof. unfold demo_snapshot. destruct (Posture_Evaluate _ _ _) eqn:E; [done|]. exfalso. revert E. destruct value; vm_compute; discriminate. Qed.


Lemma allowed_rests_on_facts_witness :
  telemetryFresh (2 * Minute) (demo_input true) = true /\
  demo_instant + 2 * Second < Input_EvaluatedAt (demo_input true) + 2 * Minute.
Proof.
  destruct (@allowed_rests_on_facts sha256 digitsText demo_gate (demo_action "mail" demo_deadline) (2 * Minute) (demo_input true)
    (demo_snapshot true) ProvenanceLive (demo_instant + 2 * Second)
    (demo_decision (demo_action "mail" demo_deadline) (withProvenance ProvenanceLive (demo_snapshot true)))) as (Ht & _ & _ & Hn & _).
  - apply demo_posture.
  - apply demo_evaluates. vm_compute. reflexivity.
  - vm_compute. reflexivity.
  - split; [exact Ht|exact Hn].
Defined.
