(* ===== verification/NanoFacts.v ===== *)
(** * The Nano language: theorems

    The parser accepts exactly a grammar, given here as concrete syntax with a
    printer and a meaning; a printed program compiles to its meaning; and the
    loops of the compiler always have fuel. *)

From S2P Require Import Prelude Sha256 Digest Plan NanoLang.
From stdpp Require Import base list strings pretty sets.
From Stdlib Require Import ZArith Lia SpecFloat.

Open Scope Z_scope.

(** ** Concrete syntax *)

(** What the parser sees of a token: its kind, and its text where the kind
    does not determine it. *)
Abbreviation sym := (kind * string)%type (only parsing).
Definition worded (k : kind) : bool :=
  match k with IDENT | INT | FLOAT | INTERVAL | OP => true | _ => false end.
Definition symOf (t : token) : sym := (Token_kind t, if worded (Token_kind t) then Token_value t else EmptyString).
Definition punct (k : kind) : sym := (k, EmptyString).

Record literal : Type := mkLiteral { lit_fraction : bool; lit_text : string }.
Record ccondition : Type := mkCCondition {
  cc_signal : string;
  cc_argument : option string;
  cc_operator : string;
  cc_value : literal;
}.
Record caction : Type := mkCAction { ca_name : string; ca_trade : option (string * option literal) }.
Inductive citem : Type :=
| CAgent (name : string)
| CEvery (interval : string) (rule : option (list ccondition * list caction)).
Record cprogram : Type := mkCProgram { cp_name : string; cp_items : list citem }.

(** *** Printing *)

Definition ident (s : string) : sym := (IDENT, s).
Definition symLiteral (l : literal) : sym := (if lit_fraction l then FLOAT else INT, lit_text l).

Definition printCondition (c : ccondition) : list sym :=
  ident (cc_signal c)
  :: (match cc_argument c with Some n => [punct LPAREN; (INT, n); punct RPAREN] | None => [] end)
  ++ [(OP, cc_operator c); symLiteral (cc_value c)].

Definition printConfidence (v : option literal) : list sym :=
  match v with Some l => [punct COMMA; symLiteral l] | None => [] end.

Definition printAction (a : caction) : list sym :=
  ident (ca_name a) :: punct LPAREN
  :: (match ca_trade a with Some (asset, v) => ident asset :: printConfidence v | None => [] end)
  ++ [punct RPAREN].

Fixpoint printConditions (cs : list ccondition) : list sym :=
  match cs with
  | [] => []
  | [c] => printCondition c
  | c :: cs => printCondition c ++ ident "and" :: printConditions cs
  end.

Definition printRule (r : list ccondition * list caction) : list sym :=
  ident "if" :: printConditions (fst r) ++ punct LBRACE :: flat_map printAction (snd r) ++ [punct RBRACE].

Definition printItem (i : citem) : list sym :=
  match i with
  | CAgent name => [ident "agent"; ident name]
  | CEvery interval rule =>
      ident "every" :: (INTERVAL, interval) :: punct LBRACE
      :: (match rule with Some r => printRule r | None => [] end) ++ [punct RBRACE]
  end.

Definition printProgram (p : cprogram) : list sym :=
  ident "strategy" :: ident (cp_name p) :: punct LBRACE :: flat_map printItem (cp_items p) ++ [punct RBRACE].

(** *** Meaning *)

Definition meanCondition (c : ccondition) : option Condition :=
  v ← ParseFloat (lit_text (cc_value c)); Some (mkCondition (cc_signal c) (cc_operator c) v).

Definition meanConfidence (v : option literal) : option (option float64) :=
  match v with
  | None => Some None
  | Some l => f ← ParseFloat (lit_text l); if outsideUnit f then None else Some (Some f)
  end.

Definition meanAction (a : caction) : option Intent :=
  action ← canonicalAction (ca_name a);
  match ca_trade a with
  | Some (asset, v) => if trades action then c ← meanConfidence v; Some (mkIntent action asset c) else None
  | None => if trades action then None else Some (mkIntent action EmptyString None)
  end.

(** A rule has at least one condition and one action. *)
Definition meanRule (r : list ccondition * list caction) : option (list Condition * list Intent) :=
  cs ← mapM meanCondition (fst r); acts ← mapM meanAction (snd r);
  match cs, acts with _ :: _, _ :: _ => Some (cs, acts) | _, _ => None end.

Definition meanItem (p : Program) (i : citem) : option Program :=
  match i with
  | CAgent name => Some (withAgent p name)
  | CEvery interval rule =>
      if isSome (Program_Schedule p) then None else
      match intervalSeconds interval with
      | Err _ => None
      | Ok seconds =>
          r ← (match rule with Some r => meanRule r | None => Some ([], []) end);
          Some (withSchedule p (mkSchedule interval seconds) r)
      end
  end.

Fixpoint meanItems (p : Program) (items : list citem) : option Program :=
  match items with
  | [] => Some p
  | i :: items => p ← meanItem p i; meanItems p items
  end.

Definition meanProgram (p : cprogram) : option Program := meanItems (mkProgram (cp_name p) None [] [] []) (cp_items p).

Definition withinLimits (limits : Limits) (p : Program) : Prop :=
  len (Program_Conditions p) <= MaxConditions limits /\ len (Program_Intents p) <= MaxIntents limits /\
  len (Program_Agents p) <= MaxAgents limits.

(** ** Steps of the parser *)

Definition symsOf (ts : list token) : list sym := symOf <$> ts.

Lemma take_cons t ts : Token_kind t <> EOF -> takeToken (t :: ts) = ts.
Proof. intros Ht. unfold takeToken. simpl. rewrite bool_decide_false by done. by rewrite drop_0. Qed.

Lemma expect_Ok k d ts t rest : k <> EOF -> expect k d ts = Ok (t, rest) <-> ts = t :: rest /\ Token_kind t = k.
Proof.
  intros Hk. unfold expect, takeToken. destruct ts as [|u ts]; simpl.
  - rewrite bool_decide_false by congruence. simpl. naive_solver.
  - destruct (decide (Token_kind u = k)) as [<-|Hu]; [|rewrite bool_decide_false by done; simpl; naive_solver].
    rewrite bool_decide_true by done. simpl. rewrite bool_decide_false by done. naive_solver.
Qed.

Lemma keyword_inv v ts : keyword v ts = true -> exists t, ts = t :: takeToken ts /\ symOf t = ident v.
Proof.
  unfold keyword, takeToken. intros [Hk%bool_decide_eq_true Hv%eqs_true]%andb_true_iff.
  destruct ts as [|t ts]; [done|]. simpl in *. exists t. rewrite bool_decide_false by congruence.
  split; [done|]. unfold symOf, ident. rewrite Hk. simpl. congruence.
Qed.

Lemma keyword_sym v ts : keyword v ts = match symsOf ts with (IDENT, w) :: _ => eqs w v | _ => false end.
Proof. destruct ts as [|t ts]; [done|]. unfold keyword, symOf. simpl. destruct (Token_kind t); try done. Qed.

Lemma kind_sym k ts : k <> EOF -> bool_decide (Token_kind (current ts) = k) = match symsOf ts with s :: _ => bool_decide (fst s = k) | [] => false end.
Proof. intros Hk. destruct ts; simpl; [by rewrite bool_decide_false by congruence|done]. Qed.

(** A token at the head of what is left. *)
Lemma syms_cons s l ts : symsOf ts = s :: l -> exists t rest, ts = t :: rest /\ symOf t = s /\ symsOf rest = l.
Proof. unfold symsOf. destruct ts as [|t ts]; [done|]. intros E. injection E as <- <-. eauto. Qed.

Lemma expect_syms k v d l ts : k <> EOF -> symsOf ts = (k, v) :: l ->
  exists t rest, expect k d ts = Ok (t, rest) /\ (worded k = true -> Token_value t = v) /\ symsOf rest = l.
Proof.
  intros Hk (t & rest & -> & Ht & Hl)%syms_cons. injection Ht as Htk Htv. exists t, rest. rewrite Htk in Htv.
  split_and!; [by apply expect_Ok| |done]. intros Hw. by rewrite Hw in Htv.
Qed.

(** The symbol of an expected token. *)
Lemma sym_word t k : Token_kind t = k -> worded k = true -> symOf t = (k, Token_value t).
Proof. intros <- Hw. unfold symOf. by rewrite Hw. Qed.

Lemma sym_punct t k : Token_kind t = k -> worded k = false -> symOf t = punct k.
Proof. intros <- Hw. unfold symOf. by rewrite Hw. Qed.

Lemma take_syms s l ts : fst s <> EOF -> symsOf ts = s :: l -> symsOf (takeToken ts) = l.
Proof.
  intros Hs (t & rest & -> & <- & <-)%syms_cons. by rewrite take_cons.
Qed.

(** Take a successful run of a parser apart. *)
Ltac parsed H :=
  repeat match type of H with
  | rbind _ _ = Ok _ => let x := fresh "x" in let E := fresh "E" in apply rbind_Ok in H as ([x ?] & E & H); simpl in H
  | (if _ then Err _ else _) = Ok _ => let E := fresh "E" in apply reject_Ok in H as [E H]
  | (if _ then syntaxAt _ _ else _) = Ok _ => let E := fresh "E" in apply reject_Ok in H as [E H]
  end.

Lemma number_Ok d ts v rest : number d ts = Ok (v, rest) ->
  exists l, symsOf ts = symLiteral l :: symsOf rest /\ ParseFloat (lit_text l) = Some v /\ (length rest < length ts)%nat.
Proof.
  unfold number. destruct ts as [|t ts]; [done|]. simpl. intros H. parsed H.
  destruct (ParseFloat _) as [w|] eqn:Hw; [|done]. injection H as <- <-.
  rewrite take_cons by (intros Heq; by rewrite Heq in E). exists (mkLiteral (bool_decide (Token_kind t = FLOAT)) (Token_value t)).
  split_and!; [|done|simpl; lia]. unfold symLiteral, symOf, symsOf. simpl. f_equal.
  destruct (Token_kind t); done.
Qed.

Lemma number_syms d l r ts v : symsOf ts = symLiteral l :: r -> ParseFloat (lit_text l) = Some v ->
  exists rest, number d ts = Ok (v, rest) /\ symsOf rest = r.
Proof.
  intros Hs Hv. exists (takeToken ts). split; [|eapply take_syms; [|exact Hs]; by destruct l as [[] ?]].
  apply syms_cons in Hs as (t & rest & -> & Ht & _). unfold number. simpl. unfold symOf, symLiteral in Ht.
  destruct l as [[] text]; injection Ht as Hk Ht; rewrite Hk in *; simpl in *; by rewrite Ht, Hv.
Qed.

(** *** Conditions and actions *)

Definition printArgument (argument : option string) : list sym :=
  match argument with Some n => [punct LPAREN; (INT, n); punct RPAREN] | None => [] end.

Lemma argument_sound ts t rest :
  (if bool_decide (Token_kind (current ts) = LPAREN)
   then rbind (expect INT "integer signal argument" (takeToken ts)) (fun '(_, ts) => expect RPAREN ")" ts)
   else Ok (current ts, ts)) = Ok (t, rest) ->
  exists argument, symsOf ts = printArgument argument ++ symsOf rest.
Proof.
  destruct (bool_decide _) eqn:Hp; [|intros H; injection H as _ <-; by exists None].
  destruct ts as [|u ts]; [done|]. apply bool_decide_eq_true in Hp. simpl in Hp. rewrite take_cons by congruence.
  intros H. parsed H. apply expect_Ok in E as [-> Hi]; [|done]. apply expect_Ok in H as [-> Hr]; [|done].
  exists (Some (Token_value x)). simpl. by rewrite (sym_punct u LPAREN), (sym_word x INT), (sym_punct t RPAREN).
Qed.

Lemma parseCondition_sound ts c rest : parseCondition ts = Ok (c, rest) ->
  exists cc, symsOf ts = printCondition cc ++ symsOf rest /\ meanCondition cc = Some c.
Proof.
  unfold parseCondition. intros H. parsed H. injection H as <- <-.
  apply expect_Ok in E as [-> Hsignal]; [|done]. apply argument_sound in E0 as [argument Ha].
  apply expect_Ok in E1 as [-> Hop]; [|done]. apply number_Ok in E2 as (v & Hv & Hparse & _).
  exists (mkCCondition (Token_value x) argument (Token_value x1) v). split.
  - unfold printCondition. simpl. rewrite Ha. simpl. rewrite (sym_word x IDENT), (sym_word x1 OP), Hv, <- app_assoc by done. done.
  - unfold meanCondition. simpl. by rewrite Hparse.
Qed.

Lemma parseConfidence_sound action ts v rest : parseConfidence action ts = Ok (v, rest) ->
  exists l, symsOf ts = printConfidence l ++ symsOf rest /\ meanConfidence l = Some v.
Proof.
  unfold parseConfidence. destruct (bool_decide _) eqn:Hp; [|intros H; injection H as <- <-; by exists None].
  destruct ts as [|u ts]; [done|]. apply bool_decide_eq_true in Hp. simpl in Hp. rewrite take_cons by congruence.
  intros H. parsed H. injection H as <- <-. apply number_Ok in E as (l' & Hl & Hparse & _). exists (Some l'). simpl.
  rewrite (sym_punct u COMMA), Hl, Hparse by done. simpl. by rewrite E0.
Qed.

Lemma parseIntent_sound ts i rest : Token_kind (current ts) = IDENT -> parseIntent ts = Ok (i, rest) ->
  exists a, symsOf ts = printAction a ++ symsOf rest /\ meanAction a = Some i.
Proof.
  destruct ts as [|t ts]; [done|]. simpl. intros Ht. unfold parseIntent. simpl. rewrite take_cons by congruence.
  destruct (canonicalAction _) as [action|] eqn:Ha; [|done]. intros H. parsed H. injection H as <- <-.
  apply expect_Ok in E as [-> Hl]; [|done]. apply expect_Ok in E1 as [-> Hr]; [|done].
  destruct (trades action) eqn:Htr.
  - parsed E0. apply expect_Ok in E as [-> Hasset]; [|done]. apply parseConfidence_sound in E1 as (v & Hv & Hm).
    injection E0 as <- ->. exists (mkCAction (Token_value t) (Some (Token_value x2, v))). unfold printAction, meanAction. simpl.
    rewrite Hv. simpl. rewrite (sym_word t IDENT), (sym_punct x LPAREN), (sym_word x2 IDENT), (sym_punct x1 RPAREN), <- app_assoc by done.
    by rewrite Ha, Hm; simpl; rewrite Htr.
  - injection E0 as <- ->. exists (mkCAction (Token_value t) None). unfold printAction, meanAction. simpl.
    rewrite (sym_word t IDENT), (sym_punct x LPAREN), (sym_punct x1 RPAREN) by done. rewrite Ha. simpl. by rewrite Htr.
Qed.

(** *** Loops *)

Lemma parseConditions_sound fuel limits before ts cs rest : parseConditions fuel limits before ts = Ok (cs, rest) ->
  exists cc ccs cs', symsOf ts = printConditions (cc :: ccs) ++ symsOf rest /\ mapM meanCondition (cc :: ccs) = Some cs' /\
    cs = before ++ cs' /\ len cs <= MaxConditions limits.
Proof.
  revert before ts. induction fuel as [|fuel IH]; intros before ts; [done|]. simpl. intros H. parsed H.
  apply parseCondition_sound in E as (cc & Hs & Hm). apply Z.ltb_ge in E0.
  destruct (keyword "and" l) eqn:Hk.
  - apply keyword_inv in Hk as (t & Hl & Ht). apply IH in H as (cc' & ccs & cs' & Hs' & Hm' & -> & Hlen).
    exists cc, (cc' :: ccs), (x :: cs'). split_and!; [| |by rewrite <- app_assoc|done].
    + rewrite Hs, Hl. unfold symsOf in *. rewrite fmap_cons, Ht, Hs'.
      trans ((printCondition cc ++ ident "and" :: printConditions (cc' :: ccs)) ++ (symOf <$> rest)); [by rewrite <- app_assoc|done].
    + simpl in *. by rewrite Hm, Hm'.
  - injection H as <- <-. exists cc, [], [x]. split_and!; [done|simpl; by rewrite Hm|done|done].
Qed.

Lemma parseIntents_sound fuel limits before ts acts rest : parseIntents fuel limits before ts = Ok (acts, rest) ->
  exists cas acts', symsOf ts = flat_map printAction cas ++ symsOf rest /\ mapM meanAction cas = Some acts' /\
    acts = before ++ acts' /\ (cas <> [] -> len acts <= MaxIntents limits) /\
    (Token_kind (current ts) = IDENT -> cas <> []).
Proof.
  revert before ts. induction fuel as [|fuel IH]; intros before ts; simpl; (destruct (bool_decide _) eqn:Hk;
    [apply bool_decide_eq_true in Hk|apply bool_decide_eq_false in Hk; intros H; injection H as <- <-;
     exists [], []; rewrite app_nil_r; by split_and!]); [done|].
  intros H. parsed H. apply parseIntent_sound in E as (ca & Hs & Hm); [|done]. apply Z.ltb_ge in E0.
  apply IH in H as (cas & acts' & Hs' & Hm' & -> & Hlen & _). exists (ca :: cas), (x :: acts'). split_and!.
  - rewrite Hs, Hs'. cbn [flat_map]. by rewrite <- app_assoc.
  - simpl. by rewrite Hm, Hm'.
  - by rewrite <- app_assoc.
  - intros _. destruct cas; [|by apply Hlen]. injection Hm' as <-. by rewrite app_nil_r.
  - done.
Qed.

Lemma mapM_nonempty {A B} (f : A -> option B) l k : mapM f l = Some k -> l <> [] -> exists x r, k = x :: r.
Proof.
  intros H%mapM_Some_1%Forall2_length Hl. destruct k as [|x r]; [|eauto]. by destruct l.
Qed.

Lemma parseRule_sound limits ts rule rest : keyword "if" ts = true -> parseRule limits ts = Ok (rule, rest) ->
  exists r, symsOf ts = printRule r ++ symsOf rest /\ meanRule r = Some rule /\
    len (fst rule) <= MaxConditions limits /\ len (snd rule) <= MaxIntents limits.
Proof.
  intros (t & Hts & Ht)%keyword_inv. unfold parseRule. intros H. parsed H. injection H as <- <-.
  apply parseConditions_sound in E as (cc & ccs & cs' & Hs & Hm & Hcs & Hlen). simpl in Hcs. subst x.
  apply expect_Ok in E0 as [-> Hb]; [|done]. apply negb_false_iff, bool_decide_eq_true in E1.
  apply parseIntents_sound in E2 as (cas & acts' & Hs' & Hm' & Ha & Hlen' & Hne). simpl in Ha. subst x1.
  apply expect_Ok in E3 as [-> Hc]; [|done]. exists (cc :: ccs, cas). unfold printRule, meanRule. cbn [fst snd]. split_and!.
  - rewrite Hts. unfold symsOf in *. rewrite fmap_cons, Ht, Hs, fmap_cons, Hs', fmap_cons, (sym_punct x0 LBRACE), (sym_punct x2 RBRACE) by done.
    simpl. rewrite <- !app_assoc. simpl. by rewrite <- app_assoc.
  - rewrite Hm. simpl. rewrite Hm'. simpl. destruct (mapM_nonempty _ _ _ Hm) as (? & ? & ->); [done|].
    by destruct (mapM_nonempty _ _ _ Hm' (Hne E1)) as (? & ? & ->).
  - done.
  - by apply Hlen', Hne.
Qed.

Lemma parseSchedule_sound limits p ts p' rest : 0 <= MaxConditions limits -> 0 <= MaxIntents limits ->
  keyword "every" ts = true -> isSome (Program_Schedule p) = false -> parseSchedule limits p ts = Ok (p', rest) ->
  exists i, symsOf ts = printItem i ++ symsOf rest /\ meanItem p i = Some p' /\ (withinLimits limits p -> withinLimits limits p').
Proof.
  intros Hc Hi (t & Hts & Ht)%keyword_inv Hsch. unfold parseSchedule. intros H. parsed H.
  apply expect_Ok in E as [E Hx]; [|done].
  destruct (intervalSeconds _) as [seconds|[]] eqn:Hsec; [|done]. parsed H. injection H as <- <-.
  apply expect_Ok in E0 as [-> Hb]; [|done]. apply expect_Ok in E3 as [-> Hcl]; [|done].
  assert (exists r, symsOf l0 = (match r with Some r => printRule r | None => [] end) ++ symsOf (x2 :: l2) /\
            (match r with Some r => meanRule r | None => Some ([], []) end) = Some x1 /\
            len (fst x1) <= MaxConditions limits /\ len (snd x1) <= MaxIntents limits) as (r & Hr & Hm & Hl1 & Hl2).
  { destruct (keyword "if" l0) eqn:Hif.
    - apply parseRule_sound in E1 as (r & ? & ? & ? & ?); [|done]. by exists (Some r).
    - injection E1 as <- ->. exists None. by split_and!. }
  exists (CEvery (Token_value x) r). unfold printItem, meanItem. split_and!.
  - rewrite Hts, E. unfold symsOf in *. rewrite !fmap_cons, Ht, Hr, fmap_cons, (sym_word x INTERVAL), (sym_punct x0 LBRACE),
      (sym_punct x2 RBRACE) by done. simpl. by rewrite <- app_assoc.
  - rewrite Hsch, Hsec, Hm. done.
  - intros (_ & _ & Ha). done.
Qed.

Lemma parseItems_sound fuel limits p ts p' rest : 0 <= MaxConditions limits -> 0 <= MaxIntents limits ->
  parseItems fuel limits p ts = Ok (p', rest) ->
  exists items, symsOf ts = flat_map printItem items ++ symsOf rest /\ meanItems p items = Some p' /\
    (withinLimits limits p -> withinLimits limits p') /\ Token_kind (current rest) = RBRACE.
Proof.
  intros Hc Hi. revert p ts. induction fuel as [|fuel IH]; intros p ts; simpl;
    (destruct (bool_decide (_ = RBRACE)) eqn:Hr; [apply bool_decide_eq_true in Hr; intros H; injection H as <- <-; exists []; by split_and!|]);
    (destruct (bool_decide (_ = EOF)) eqn:He; [done|]); [done|].
  destruct (keyword "agent" ts) eqn:Hagent.
  { apply keyword_inv in Hagent as (t & Hts & Ht). intros H. parsed H. apply expect_Ok in E as [E Hx]; [|done]. apply Z.ltb_ge in E0.
    apply IH in H as (items & Hs & Hm & Hw & Hrest). exists (CAgent (Token_value x) :: items). split_and!; try done.
    - rewrite Hts, E. unfold symsOf in *. rewrite !fmap_cons, Ht, Hs, (sym_word x IDENT) by done. done.
    - intros (? & ? & ?). apply Hw. by split_and!. }
  destruct (keyword "every" ts) eqn:Hevery; [|done]. intros H. parsed H.
  apply parseSchedule_sound in E0 as (i & Hs & Hm & Hw); [|done..].
  apply IH in H as (items & Hs' & Hm' & Hw' & Hrest). exists (i :: items). split_and!; try done.
  - rewrite Hs, Hs'. cbn [flat_map]. by rewrite <- app_assoc.
  - simpl. by rewrite Hm.
  - auto.
Qed.

(** ** Every sentence of the grammar is parsed *)

(** Read one expected symbol. *)
Ltac reads k H v rest :=
  let t := fresh "t" in let Ht := fresh "Ht" in let E := fresh "E" in
  match goal with |- context [expect k ?d ?ts] =>
    destruct (expect_syms k _ d _ ts ltac:(done) H) as (t & rest & E & Ht & v); rewrite E; simpl; try specialize (Ht eq_refl)
  end.

Lemma parseCondition_complete cc r ts c : symsOf ts = printCondition cc ++ r -> meanCondition cc = Some c ->
  exists rest, parseCondition ts = Ok (c, rest) /\ symsOf rest = r.
Proof.
  unfold printCondition, meanCondition. destruct cc as [signal argument operator value]. simpl. intros Hs Hm.
  destruct (ParseFloat _) as [f|] eqn:Hf; [|done]. injection Hm as <-. unfold parseCondition.
  reads IDENT Hs H1 l1. rewrite kind_sym, H1 by done. destruct argument as [n|]; simpl in *.
  - pose proof H1 as H2. apply take_syms in H2; [|done]. reads INT H2 H3 l2. reads RPAREN H3 H4 l3. reads OP H4 H5 l4.
    destruct (number_syms "condition value" _ _ _ _ H5 Hf) as (rest & -> & Hr). simpl. exists rest. by rewrite Ht, Ht2.
  - reads OP H1 H5 l4.
    destruct (number_syms "condition value" _ _ _ _ H5 Hf) as (rest & -> & Hr). simpl. exists rest. by rewrite Ht, Ht0.
Qed.

Lemma parseConfidence_complete action v r ts c : symsOf ts = printConfidence v ++ punct RPAREN :: r -> meanConfidence v = Some c ->
  exists rest, parseConfidence action ts = Ok (c, rest) /\ symsOf rest = punct RPAREN :: r.
Proof.
  unfold parseConfidence. intros Hs Hm. rewrite kind_sym, Hs by done. destruct v as [l|]; simpl in *.
  - destruct (ParseFloat _) as [f|] eqn:Hf; [|done]. simpl in Hm. destruct (outsideUnit f) eqn:Ho; [done|]. injection Hm as <-.
    apply take_syms in Hs; [|done]. destruct (number_syms "confidence" _ _ _ _ Hs Hf) as (rest & -> & Hr). simpl. rewrite Ho. eauto.
  - injection Hm as <-. eauto.
Qed.

Lemma parseIntent_complete a r ts i : symsOf ts = printAction a ++ r -> meanAction a = Some i ->
  exists rest, parseIntent ts = Ok (i, rest) /\ symsOf rest = r.
Proof.
  destruct a as [name trade]. unfold printAction, meanAction. simpl. intros Hs Hm.
  pose proof Hs as (t & l & -> & Ht & Hl)%syms_cons. injection Ht as Hk Hv. rewrite Hk in Hv. simpl in Hv.
  destruct (canonicalAction name) as [action|] eqn:Ha; [|done]. simpl in Hm.
  unfold parseIntent. simpl. rewrite Hv, Ha, take_cons by congruence. reads LPAREN Hl H1 l1. clear Ht.
  destruct trade as [[asset v]|]; destruct (trades action); try done; simpl in *.
  - destruct (meanConfidence v) as [c|] eqn:Hc; [|done]. injection Hm as <-. reads IDENT H1 H2 l2. rewrite <- app_assoc in H2. simpl in H2.
    destruct (parseConfidence_complete t _ _ _ _ H2 Hc) as (l3 & -> & H3). simpl. reads RPAREN H3 H4 l4. exists l4. by rewrite Ht.
  - injection Hm as <-. reads RPAREN H1 H4 l4. eauto.
Qed.

Lemma mapM_cons_Some {A B} (f : A -> option B) x l k : mapM f (x :: l) = Some k -> exists y r, f x = Some y /\ mapM f l = Some r /\ k = y :: r.
Proof. simpl. intros H. destruct (f x) as [y|]; [|done]. simpl in H. destruct (mapM f l) as [r|]; [|done]. injection H as <-. eauto. Qed.

Lemma parseConditions_complete fuel limits before cc ccs cs r ts : symsOf ts = printConditions (cc :: ccs) ++ punct LBRACE :: r ->
  mapM meanCondition (cc :: ccs) = Some cs -> (length ccs < fuel)%nat -> len (before ++ cs) <= MaxConditions limits ->
  exists rest, parseConditions fuel limits before ts = Ok (before ++ cs, rest) /\ symsOf rest = punct LBRACE :: r.
Proof.
  revert before cc cs ts fuel. induction ccs as [|cc' ccs IH]; intros before cc cs ts [|fuel] Hs Hm Hf Hlen; try lia; simpl in Hf;
    apply mapM_cons_Some in Hm as (c & cs' & Hc & Hm & ->).
  - injection Hm as <-. destruct (parseCondition_complete cc _ _ _ Hs Hc) as (l & E & Hl). simpl. rewrite E. simpl.
    replace (MaxConditions limits <? _) with false by (symmetry; apply Z.ltb_ge; done). rewrite keyword_sym, Hl. simpl. eauto.
  - assert (symsOf ts = printCondition cc ++ ident "and" :: printConditions (cc' :: ccs) ++ punct LBRACE :: r) as Hs'.
    { rewrite Hs. trans ((printCondition cc ++ ident "and" :: printConditions (cc' :: ccs)) ++ punct LBRACE :: r); [done|by rewrite <- app_assoc]. }
    destruct (parseCondition_complete cc _ _ _ Hs' Hc) as (l & E & Hl). simpl. rewrite E. simpl.
    replace (MaxConditions limits <? _) with false by (symmetry; apply Z.ltb_ge; unfold len in *; rewrite !length_app in *; simpl in *; lia).
    rewrite keyword_sym, Hl. simpl.
    destruct (IH (before ++ [c]) cc' cs' (takeToken l) fuel) as (rest & Er & Hr); [eapply take_syms; [|exact Hl]; done|done|lia|by rewrite <- app_assoc|].
    exists rest. rewrite Er, <- app_assoc. done.
Qed.

Lemma parseIntents_complete fuel limits before cas acts r ts : symsOf ts = flat_map printAction cas ++ punct RBRACE :: r ->
  mapM meanAction cas = Some acts -> (length cas <= fuel)%nat -> len (before ++ acts) <= MaxIntents limits ->
  exists rest, parseIntents fuel limits before ts = Ok (before ++ acts, rest) /\ symsOf rest = punct RBRACE :: r.
Proof.
  revert before acts ts fuel. induction cas as [|ca cas IH]; intros before acts ts fuel Hs Hm Hf Hlen.
  - injection Hm as <-. exists ts. rewrite app_nil_r. split; [|done].
    destruct fuel; simpl; rewrite kind_sym, Hs by done; done.
  - apply mapM_cons_Some in Hm as (i & acts' & Hi & Hm & ->). destruct fuel as [|fuel]; simpl in Hf; [lia|].
    cbn [flat_map] in Hs. rewrite <- app_assoc in Hs. simpl. rewrite kind_sym, Hs by done. simpl.
    destruct (parseIntent_complete ca _ _ _ Hs Hi) as (l & -> & Hl). simpl.
    replace (MaxIntents limits <? _) with false by (symmetry; apply Z.ltb_ge; unfold len in *; rewrite !length_app in *; simpl in *; lia).
    destruct (IH (before ++ [i]) acts' l fuel Hl Hm) as (rest & -> & Hr); [lia|by rewrite <- app_assoc|].
    exists rest. by rewrite <- app_assoc.
Qed.

(** Every part of a sentence has a symbol, so its tokens are fuel enough. *)
Lemma flat_map_len {A} (f : A -> list sym) l : (forall x, 1 <= length (f x))%nat -> (length l <= length (flat_map f l))%nat.
Proof. intros Hf. induction l as [|x l IH]; simpl; [lia|]. rewrite length_app. specialize (Hf x). lia. Qed.

Lemma printConditions_len ccs : (length ccs <= length (printConditions ccs))%nat.
Proof.
  induction ccs as [|c [|c' ccs] IH]; [done|simpl; lia|].
  trans (length (printCondition c ++ ident "and" :: printConditions (c' :: ccs))); [|done]. rewrite length_app. simpl length in *. lia.
Qed.

Lemma syms_len ts l : symsOf ts = l -> length ts = length l.
Proof. intros <-. unfold symsOf. by rewrite length_fmap. Qed.

Lemma printRule_app cr r :
  printRule cr ++ r = ident "if" :: printConditions (fst cr) ++ punct LBRACE :: flat_map printAction (snd cr) ++ punct RBRACE :: r.
Proof. unfold printRule. by rewrite <- app_comm_cons, <- app_assoc, <- app_comm_cons, <- app_assoc. Qed.

Lemma parseRule_complete limits cr rule r ts : symsOf ts = printRule cr ++ r -> meanRule cr = Some rule ->
  len (fst rule) <= MaxConditions limits -> len (snd rule) <= MaxIntents limits ->
  exists rest, parseRule limits ts = Ok (rule, rest) /\ symsOf rest = r.
Proof.
  rewrite printRule_app. destruct cr as [ccs cas]. unfold meanRule. cbn [fst snd]. intros Hs Hm Hc Hi.
  destruct (mapM meanCondition ccs) as [cs|] eqn:Hmc; [|done]. destruct (mapM meanAction cas) as [acts|] eqn:Hma; [|done]. simpl in Hm.
  destruct cs as [|c cs]; [done|]. destruct acts as [|i acts]; [done|]. injection Hm as <-. simpl in Hc, Hi.
  destruct ccs as [|cc ccs]; [done|]. destruct cas as [|ca cas]; [done|]. apply take_syms in Hs; [|done]. unfold parseRule.
  destruct (parseConditions_complete (S (length (takeToken ts))) limits [] cc ccs _ _ _ Hs Hmc) as (l1 & -> & H1); [|done|].
  { rewrite (syms_len _ _ Hs), length_app. pose proof (printConditions_len (cc :: ccs)). simpl length in *. lia. }
  simpl. destruct (expect_syms LBRACE _ "rule opening brace" _ _ ltac:(done) H1) as (t & l2 & -> & _ & H2). simpl.
  rewrite kind_sym, H2 by done. simpl.
  destruct (parseIntents_complete (length l2) limits [] (ca :: cas) _ _ _ H2 Hma) as (l3 & -> & H3); [|done|].
  { rewrite (syms_len _ _ H2), length_app. pose proof (flat_map_len printAction (ca :: cas)) as Hl. specialize (Hl ltac:(simpl; lia)). lia. }
  simpl. reads RBRACE H3 H4 l4. eauto.
Qed.

Lemma printItem_head i r : exists s l, printItem i ++ r = s :: l /\ fst s = IDENT /\
  (snd s = "agent" \/ snd s = "every").
Proof. destruct i; unfold printItem; simpl; eexists _, _; split_and!; [done|done|auto|done|done|auto]. Qed.

Lemma parseSchedule_complete limits p interval rule p' r ts :
  symsOf ts = printItem (CEvery interval rule) ++ r -> meanItem p (CEvery interval rule) = Some p' ->
  len (Program_Conditions p') <= MaxConditions limits -> len (Program_Intents p') <= MaxIntents limits ->
  exists rest, parseSchedule limits p ts = Ok (p', rest) /\ symsOf rest = r.
Proof.
  unfold printItem, meanItem. intros Hs Hm Hc Hi. rewrite <- !app_comm_cons, <- app_assoc in Hs. unfold parseSchedule.
  destruct (isSome _); [done|]. apply take_syms in Hs; [|done]. reads INTERVAL Hs H1 l1. rewrite Ht.
  destruct (intervalSeconds interval) as [seconds|] eqn:Hsec; [|done]. reads LBRACE H1 H2 l2. clear Ht0.
  destruct rule as [cr|].
  - destruct (meanRule cr) as [rule|] eqn:Hr; [|done]. injection Hm as <-. simpl in Hc, Hi.
    rewrite keyword_sym, H2, printRule_app. simpl. destruct (parseRule_complete limits cr rule _ _ H2 Hr Hc Hi) as (l3 & -> & H3).
    simpl. rewrite keyword_sym, H3. simpl. reads RBRACE H3 H4 l4. exists l4. done.
  - injection Hm as <-. rewrite keyword_sym, H2. simpl. rewrite keyword_sym, H2. simpl. reads RBRACE H2 H4 l4. exists l4. done.
Qed.

(** What comes later only adds agents, and a rule is there to stay. *)
Lemma meanItems_grows p items p' : meanItems p items = Some p' ->
  len (Program_Agents p) <= len (Program_Agents p') /\
  (isSome (Program_Schedule p) = true -> Program_Conditions p' = Program_Conditions p /\ Program_Intents p' = Program_Intents p).
Proof.
  revert p. induction items as [|i items IH]; intros p; simpl; [intros H; injection H as <-; split; [lia|done]|].
  destruct (meanItem p i) as [q|] eqn:Hq; [|done]. simpl. intros [Ha Hk]%IH. destruct i as [name|interval rule]; simpl in Hq.
  - injection Hq as <-. simpl in *. split; [|done]. unfold len in *. rewrite length_app in Ha. simpl in Ha. lia.
  - destruct (isSome _) eqn:Hs; [done|]. split; [|done]. destruct (intervalSeconds interval); [|done].
    destruct (match rule with Some r => meanRule r | None => _ end); [|done]. by injection Hq as <-.
Qed.

Lemma meanEvery_rule p interval rule p' : meanItem p (CEvery interval rule) = Some p' -> isSome (Program_Schedule p') = true.
Proof.
  simpl. destruct (isSome _); [done|]. destruct (intervalSeconds _); [|done]. destruct (match rule with Some r => meanRule r | None => _ end); [|done].
  intros H. by injection H as <-.
Qed.

Lemma parseItems_complete fuel limits p items p' r ts : symsOf ts = flat_map printItem items ++ punct RBRACE :: r ->
  meanItems p items = Some p' -> (length items <= fuel)%nat -> withinLimits limits p' ->
  exists rest, parseItems fuel limits p ts = Ok (p', rest) /\ symsOf rest = punct RBRACE :: r.
Proof.
  intros Hs Hm Hf Hw. revert p ts fuel Hs Hm Hf. induction items as [|i items IH]; intros p ts fuel Hs Hm Hf.
  - injection Hm as <-. exists ts. split; [|done]. destruct fuel; simpl; rewrite kind_sym, Hs by done; done.
  - destruct fuel as [|fuel]; simpl in Hf; [lia|]. cbn [flat_map] in Hs. rewrite <- app_assoc in Hs.
    cbn [meanItems] in Hm. destruct (meanItem p i) as [q|] eqn:Hq; [|done]. cbn [mbind option_bind] in Hm.
    pose proof (meanItems_grows _ _ _ Hm) as [Ha Hk]. destruct Hw as (Hc & Hi & Hag).
    cbn [parseItems]. rewrite kind_sym, Hs by done.
    assert (Token_kind (current ts) <> EOF) as He.
    { destruct (printItem_head i (flat_map printItem items ++ punct RBRACE :: r)) as (s & l & Hp & Hsk & _). rewrite Hp in Hs.
      apply syms_cons in Hs as (t & rest & -> & Hts & _). simpl. unfold symOf in Hts. rewrite <- Hts in Hsk. simpl in Hsk. congruence. }
    destruct i as [name|interval rule].
    + simpl. rewrite (bool_decide_false _ He), keyword_sym, Hs. simpl. injection Hq as <-. apply take_syms in Hs; [|done].
      reads IDENT Hs H1 l1. rewrite Ht. replace (MaxAgents limits <? _) with false by (symmetry; apply Z.ltb_ge; simpl in *; lia).
      apply (IH (withAgent p name) l1 fuel); [done|done|lia].
    + assert (isSome (Program_Schedule p) = false) as Hsch by (simpl in Hq; by destruct (isSome _)).
      destruct (Hk (meanEvery_rule _ _ _ _ Hq)) as [Hkc Hki]. rewrite Hkc in Hc. rewrite Hki in Hi.
      destruct (parseSchedule_complete limits p _ _ _ _ _ Hs Hq Hc Hi) as (l1 & E & H1).
      simpl. rewrite (bool_decide_false _ He), !keyword_sym, Hs. simpl. rewrite Hsch, E. simpl. apply (IH q l1 fuel); [done|done|lia].
Qed.

(** ** The parser accepts exactly the grammar *)

(** No EOF among the symbols. *)
Definition kinded (l : list sym) : Prop := Forall (fun s => fst s <> EOF) l.

Lemma kinded_flat_map {A} (f : A -> list sym) l : (forall x, kinded (f x)) -> kinded (flat_map f l).
Proof. intros Hf. induction l as [|x l IH]; simpl; [constructor|]. apply Forall_app_2; [apply Hf|exact IH]. Qed.

Ltac kinds :=
  repeat match goal with
  | |- kinded [] => constructor
  | |- kinded (_ :: _) => constructor; [try done|]
  | |- kinded (_ ++ _) => apply Forall_app_2
  | |- kinded (flat_map _ _) => apply kinded_flat_map; intros
  | |- Forall _ ?l => change (kinded l)
  end.

Lemma kinded_condition c : kinded (printCondition c).
Proof. destruct c as [? [|] ? [[] ?]]; unfold printCondition; simpl; kinds. Qed.

Lemma kinded_conditions cs : kinded (printConditions cs).
Proof.
  induction cs as [|c [|c' cs] IH]; [constructor|apply kinded_condition|].
  apply (Forall_app_2 _ (printCondition c) (ident "and" :: printConditions (c' :: cs))); [apply kinded_condition|kinds; apply IH].
Qed.

Lemma kinded_item i : kinded (printItem i).
Proof.
  destruct i as [name|interval [[ccs cas]|]]; unfold printItem, printRule; cbn [fst snd]; kinds; [apply kinded_conditions|].
  destruct x as [? [[? [[[] ?]|]]|]]; unfold printAction; simpl; kinds.
Qed.

Lemma kinded_program c : kinded (printProgram c).
Proof. unfold printProgram. kinds. apply kinded_item. Qed.

(** The tokens of a source: EOF ends them and is nowhere else. *)
Definition closed (l : list sym) : Prop := exists b, l = b ++ [punct EOF] /\ kinded b.

Lemma closed_rest pre l : closed (pre ++ l) -> kinded pre -> match l with s :: _ => fst s = EOF | [] => True end -> l = [punct EOF].
Proof.
  intros (b & E & Hb) Hp Hl. destruct l as [|s l] using rev_ind; [|clear IHl].
  - rewrite app_nil_r in E. subst pre. apply Forall_app in Hp as [_ Hp]. apply Forall_cons in Hp as [Hp _]. by destruct Hp.
  - rewrite app_assoc in E. apply app_inj_tail in E as [E ->]. destruct l as [|u l]; [done|]. simpl in Hl.
    rewrite <- E in Hb. apply Forall_app in Hb as [_ Hb]. by apply Forall_cons in Hb as [Hb _].
Qed.

Lemma parse_sound limits ts p : 0 <= MaxConditions limits -> 0 <= MaxIntents limits -> 0 <= MaxAgents limits ->
  closed (symsOf ts) -> parseProgram limits ts = Ok p ->
  exists c, symsOf ts = printProgram c ++ [punct EOF] /\ meanProgram c = Some p /\ withinLimits limits p.
Proof.
  intros Hlc Hli Hla Hcl. unfold parseProgram, expectKeyword. intros H. parsed H.
  destruct (keyword "strategy" ts) eqn:Hk; [|done]. apply keyword_inv in Hk as (t & Hts & Ht). injection E as _ <-.
  apply expect_Ok in E0 as [E0 Hn]; [|done]. apply expect_Ok in E1 as [-> Hb]; [|done].
  apply parseItems_sound in E2 as (items & Hs & Hm & Hw & Hr); [|done..]. injection H as ->.
  destruct l2 as [|u l2]; [done|]. simpl in Hr. rewrite take_cons in E3 by congruence. apply negb_false_iff, bool_decide_eq_true in E3.
  exists (mkCProgram (Token_value x0) items).
  assert (symsOf ts = printProgram (mkCProgram (Token_value x0) items) ++ symsOf l2) as Hsyms.
  { rewrite Hts, E0. unfold symsOf in *. rewrite !fmap_cons, Ht, Hs, fmap_cons, (sym_word x0 IDENT), (sym_punct x1 LBRACE), (sym_punct u RBRACE) by done.
    unfold printProgram, ident. simpl. by rewrite <- app_assoc. }
  split_and!; [|done|apply Hw; by split_and!].
  rewrite Hsyms in Hcl |- *. f_equal. eapply closed_rest; [exact Hcl|apply kinded_program|]. by destruct l2.
Qed.

Lemma parse_complete limits ts c p : symsOf ts = printProgram c ++ [punct EOF] -> meanProgram c = Some p -> withinLimits limits p ->
  parseProgram limits ts = Ok p.
Proof.
  unfold printProgram. destruct c as [name items]. intros Hs Hm Hw. rewrite <- !app_comm_cons, <- app_assoc in Hs. simpl in Hs.
  unfold parseProgram, expectKeyword. rewrite keyword_sym, Hs. simpl. apply take_syms in Hs; [|done].
  reads IDENT Hs H1 l1. rewrite Ht. reads LBRACE H1 H2 l2. clear Ht0. unfold meanProgram in Hm. simpl in Hm.
  destruct (parseItems_complete (length l2) limits _ items p _ _ H2 Hm) as (l3 & -> & H3); [|done|].
  { rewrite (syms_len _ _ H2), length_app. pose proof (flat_map_len printItem items) as Hl.
    assert (forall i, 1 <= length (printItem i))%nat as Hi by (intros []; simpl; lia). specialize (Hl Hi). lia. }
  simpl. apply take_syms in H3; [|done]. apply syms_cons in H3 as (u & rest & -> & Hu & _). injection Hu as Hu _. simpl.
  by rewrite Hu.
Qed.

(** ** The tokenizer *)

(** A turn consumes a byte, and never yields EOF. *)
Lemma span_spec p bs taken rest : span p bs = (taken, rest) -> bs = taken ++ rest /\ Forall (fun b => p b = true) taken.
Proof.
  revert taken rest. induction bs as [|b bs IH]; simpl; intros taken rest H; [injection H as <- <-; by split|].
  destruct (p b) eqn:Hp; [|injection H as <- <-; by split]. destruct (span p bs) as [taken' rest'] eqn:E. injection H as <- <-.
  destruct (IH _ _ eq_refl) as [-> Hf]. split; [done|by constructor].
Qed.

Lemma span_len p bs taken rest : span p bs = (taken, rest) -> (length rest <= length bs)%nat.
Proof. intros [-> _]%span_spec. rewrite length_app. lia. Qed.

Definition advances (n : nat) (r : lexed) : Prop :=
  match r with
  | Skipped rest _ _ => (length rest < n)%nat
  | Lexed t rest _ => (length rest < n)%nat /\ Token_kind t <> EOF
  | Refused e => exists message line column, e = syntax message line column
  end.

Lemma lexNumber_advances k text rest line column n : (length rest < n)%nat -> k <> EOF -> advances n (lexNumber k text rest line column).
Proof.
  intros Hn Hk. unfold lexNumber. destruct (span identifierPart rest) as [suffix after] eqn:E. apply span_len in E.
  destruct suffix; [by split|]. destruct (_ || _); simpl; [eauto|]. split; [lia|done].
Qed.

Lemma span_head p b bs taken rest : p b = true -> span p (b :: bs) = (taken, rest) -> (length rest < S (length bs))%nat.
Proof.
  intros Hp. simpl. rewrite Hp. destruct (span p bs) as [t r] eqn:E. apply span_len in E. intros H. injection H as _ <-. lia.
Qed.

Lemma lexOne_advances b bs line column : advances (S (length bs)) (lexOne b bs line column).
Proof.
  unfold lexOne. destruct (b =? 10) eqn:Hnl; [simpl; lia|]. destruct (_ || _); [simpl; lia|].
  destruct (_ && _).
  { destruct (span _ (b :: bs)) as [c rest] eqn:E. apply span_head in E; [done|by rewrite Hnl]. }
  destruct (punctuation b) as [k|] eqn:Hk.
  { split; [simpl; lia|]. simpl. intros ->. unfold punctuation in Hk. repeat case_match; done. }
  assert (length (drop 1 bs) <= length bs)%nat as Hd by (rewrite length_drop; lia).
  destruct (_ || _); [destruct (bool_decide _); simpl; split; (lia || done)|].
  destruct (_ || _); [destruct (bool_decide _); simpl; [split; (lia || done)|eauto]|].
  destruct (identifierStart b) eqn:Hid.
  { destruct (span _ (b :: bs)) as [name rest] eqn:E. apply span_head in E; [by split|]. unfold identifierPart. by rewrite Hid. }
  destruct (digit b) eqn:Hdig; [|simpl; eauto].
  destruct (span digit (b :: bs)) as [whole rest] eqn:E. apply span_head in E; [|done].
  destruct (bool_decide _); [|by apply lexNumber_advances]. destruct (span digit (drop 1 rest)) as [fraction after] eqn:E'.
  apply span_len in E'. rewrite length_drop in E'. destruct fraction; [simpl; eauto|]. apply lexNumber_advances; [lia|done].
Qed.

Lemma syntax_fuel message line column : syntax message line column <> ErrFuel.
Proof.
  unfold syntax, ErrFuel. intros H. injection H as H. apply (f_equal (fun s => length (bytes_of s))) in H.
  rewrite !bytes_of_app, !length_app in H. simpl in H. lia.
Qed.

Lemma scan_spec fuel budget bs line column : (length bs <= fuel)%nat ->
  match scan fuel budget bs line column with
  | Ok ts => closed (symsOf ts) /\ (0 <= budget -> len ts <= budget + 1)
  | Err e => e <> ErrFuel
  end.
Proof.
  revert budget bs line column. induction fuel as [|fuel IH]; intros budget [|b bs] line column Hf; simpl in *; try lia;
    try (split; [exists []; by split; [|constructor]|unfold len; simpl; lia]).
  pose proof (lexOne_advances b bs line column) as Ha. destruct (lexOne b bs line column) as [rest l c|t rest c|e]; simpl in Ha.
  - apply IH. lia.
  - destruct Ha as [Hr Ht]. destruct (budget <? 1) eqn:Hb; [done|]. apply Z.ltb_ge in Hb.
    specialize (IH (budget - 1) rest line c ltac:(lia)). destruct (scan _ _ _ _ _) as [ts|e]; simpl; [|done].
    destruct IH as [(body & Hbody & Hk) Hlen]. split.
    + exists (symOf t :: body). simpl. rewrite Hbody. split; [done|by constructor].
    + intros _. unfold len in *. simpl. lia.
  - destruct Ha as (? & ? & ? & ->). apply syntax_fuel.
Qed.

(** *** The loops of the parser have fuel *)

Definition fueled {A : Type} (r : result A) : Prop := r <> Err ErrFuel.

Lemma fueled_bind {A B} (r : result A) (k : A -> result B) : fueled r -> (forall a, r = Ok a -> fueled (k a)) -> fueled (rbind r k).
Proof. intros Hr Hk. destruct r; simpl; [by apply Hk|]. intros H. apply Hr. congruence. Qed.

Lemma fueled_syntax {A} message t : fueled (@syntaxAt A message t).
Proof. intros H. apply (syntax_fuel message (Token_line t) (Token_column t)). unfold syntaxAt in H. congruence. Qed.

Lemma fueled_expect k d ts : fueled (expect k d ts).
Proof. unfold expect. destruct (negb _); [apply fueled_syntax|done]. Qed.

Lemma fueled_number d ts : fueled (number d ts).
Proof. unfold number. destruct (_ && _); [apply fueled_syntax|]. destruct (ParseFloat _); [done|apply fueled_syntax]. Qed.

Ltac fuels :=
  repeat match goal with
  | |- fueled (rbind _ _) => apply fueled_bind; [|intros [? ?] ?; simpl]
  | |- fueled (let '(_, _) := ?p in _) => destruct p
  | |- fueled (if ?b then _ else _) => destruct b eqn:?
  | |- fueled (syntaxAt _ _) => apply fueled_syntax
  | |- fueled (expect _ _ _) => apply fueled_expect
  | |- fueled (number _ _) => apply fueled_number
  | |- fueled (Ok _) => done
  | |- fueled (Err ErrLimitExceeded) => done
  end.

Lemma fueled_intent ts : fueled (parseIntent ts).
Proof. unfold parseIntent, parseConfidence. destruct (canonicalAction _); fuels. Qed.

Lemma sound_len ts l rest : symsOf ts = l ++ symsOf rest -> (length ts = length l + length rest)%nat.
Proof. intros H%syms_len. unfold symsOf in H. rewrite length_app, length_fmap in H. done. Qed.

Lemma fueled_conditions fuel limits before ts : (length ts < fuel)%nat -> fueled (parseConditions fuel limits before ts).
Proof.
  revert before ts. induction fuel as [|fuel IH]; intros before ts Hf; [lia|]. simpl. apply fueled_bind.
  { unfold parseCondition. fuels. }
  intros [c l] (cc & Hs & _)%parseCondition_sound. simpl. fuels. apply IH. apply sound_len in Hs. simpl in Hs.
  match goal with Hk : keyword _ l = true |- _ => apply keyword_inv in Hk as (t & Hl & _) end.
  rewrite Hl in Hs. simpl in Hs. lia.
Qed.

Lemma fueled_intents fuel limits before ts : (length ts <= fuel)%nat -> fueled (parseIntents fuel limits before ts).
Proof.
  revert before ts. induction fuel as [|fuel IH]; intros before ts Hf; simpl; (destruct (bool_decide _) eqn:Hk; [|done]).
  { by destruct ts; simpl in *; [|lia]. }
  apply bool_decide_eq_true in Hk. apply fueled_bind; [apply fueled_intent|].
  intros [i l] (ca & Hs & _)%parseIntent_sound; [|done]. simpl. fuels. apply IH. apply sound_len in Hs. simpl in Hs. lia.
Qed.

Lemma fueled_rule limits ts : fueled (parseRule limits ts).
Proof. unfold parseRule. apply fueled_bind; [apply fueled_conditions; lia|]. intros [cs l] _. fuels. by apply fueled_intents. Qed.

Lemma fueled_schedule limits p ts : fueled (parseSchedule limits p ts).
Proof. unfold parseSchedule. fuels. destruct (intervalSeconds _) as [|[]]; fuels. apply fueled_rule. Qed.

Lemma fueled_items fuel limits p ts : 0 <= MaxConditions limits -> 0 <= MaxIntents limits -> (length ts <= fuel)%nat ->
  fueled (parseItems fuel limits p ts).
Proof.
  intros Hlc Hli. revert p ts. induction fuel as [|fuel IH]; intros p ts Hf; simpl; fuels.
  - by destruct ts; simpl in *; [|lia].
  - apply IH. match goal with E : expect _ _ _ = Ok _, K : keyword "agent" ts = true |- _ =>
      apply expect_Ok in E as [E _]; [|done]; apply keyword_inv in K as (u & K & _); rewrite K in Hf; simpl in Hf; rewrite E in Hf end.
    simpl in Hf. lia.
  - apply fueled_schedule.
  - apply IH. match goal with E : parseSchedule _ _ _ = Ok _ |- _ => apply parseSchedule_sound in E as (i & Hs & _); [|done..] end.
    apply sound_len in Hs. destruct i; simpl in Hs; lia.
Qed.

(** ** Sources *)

(** The text of a symbol; a source writes a space after each. *)
Definition textOf (s : sym) : string :=
  match fst s with
  | LBRACE => "{" | RBRACE => "}" | LPAREN => "(" | RPAREN => ")" | COMMA => "," | EOF => EmptyString
  | _ => snd s
  end.
Definition renderSource (l : list sym) : string := foldr (fun s text => textOf s +:+ " " +:+ text) EmptyString l.

Definition digits (bs : list Z) : bool := negb (len bs =? 0) && forallb digit bs.

(** What the text of a symbol looks like. *)
Definition lexical (s : sym) : bool :=
  let bs := bytes_of (snd s) in
  match fst s with
  | IDENT => match bs with b :: r => identifierStart b && forallb identifierPart r | [] => false end
  | INT => digits bs
  | FLOAT => let '(whole, rest) := span digit bs in
             digits whole && match rest with 46 :: fraction => digits fraction | _ => false end
  | INTERVAL => digits (removelast bs) && existsb (Z.eqb (List.last bs 0)) [115; 109; 104; 100]
  | OP => existsb (eqs (snd s)) ["<"; "<="; ">"; ">="; "=="; "!="]
  | EOF => false
  | _ => eqs (snd s) EmptyString
  end.

Lemma string_of_bytes_of s : string_of_bytes (bytes_of s) = s.
Proof.
  induction s as [|c s IH]; [done|]. cbn [bytes_of]. change (string_of_bytes (byte_of c :: bytes_of s)) with
    (String (Ascii.ascii_of_N (Z.to_N (byte_of c))) (string_of_bytes (bytes_of s))).
  unfold byte_of. by rewrite IH, N2Z.id, Ascii.ascii_N_embedding.
Qed.

Lemma span_stops p l x tail : Forall (fun b => p b = true) l -> p x = false -> span p (l ++ x :: tail) = (l, x :: tail).
Proof. intros Hl Hx. induction Hl as [|b l Hb Hl IH]; simpl; [by rewrite Hx|by rewrite Hb, IH]. Qed.

Lemma forallb_True {A} (p : A -> bool) l : forallb p l = true <-> Forall (fun x => p x = true) l.
Proof. rewrite forallb_forall, Forall_forall. split; intros H x Hx; apply H; by apply list_elem_of_In. Qed.

Lemma digits_spec bs : digits bs = true -> exists b r, bs = b :: r /\ digit b = true /\ Forall (fun b => digit b = true) bs.
Proof.
  unfold digits. intros [Hn%negb_true_iff%Z.eqb_neq Hd%forallb_True]%andb_true_iff. destruct bs as [|b r]; [by unfold len in Hn|].
  exists b, r. split_and!; [done| |done]. by apply Forall_cons in Hd as [? _].
Qed.

(** The bytes by which a turn tells identifiers and numbers from the rest. *)
Lemma identifierStart_class b : identifierStart b = true ->
  (b =? 10) = false /\ (b =? 32) || (b =? 9) || (b =? 13) = false /\ (b =? 47) = false /\ punctuation b = None /\
  (b =? 60) || (b =? 62) = false /\ (b =? 61) || (b =? 33) = false.
Proof. unfold identifierStart, punctuation. intros Hb. split_and!; try (repeat case_match; try done); lia. Qed.

Lemma digit_class b : digit b = true ->
  (b =? 10) = false /\ (b =? 32) || (b =? 9) || (b =? 13) = false /\ (b =? 47) = false /\ punctuation b = None /\
  (b =? 60) || (b =? 62) = false /\ (b =? 61) || (b =? 33) = false /\ identifierStart b = false.
Proof. unfold digit, identifierStart, punctuation. intros Hb. split_and!; try (repeat case_match; try done); lia. Qed.

Definition lexesTo (s : sym) (text tail : list Z) : Prop :=
  forall line column, exists b bs t, text = b :: bs /\
    lexOne b (bs ++ 32 :: tail) line column = Lexed t (32 :: tail) (column + len text) /\ symOf t = s.

Lemma lex_ident v tail : lexical (ident v) = true -> lexesTo (ident v) (bytes_of v) tail.
Proof.
  unfold lexical, ident. simpl. intros Hv line column. destruct (bytes_of v) as [|b bs] eqn:E; [done|].
  apply andb_true_iff in Hv as [Hb Hbs%forallb_True]. destruct (identifierStart_class b Hb) as (H1 & H2 & H3 & H4 & H5 & H6).
  exists b, bs, (mkToken IDENT v line column). split_and!; [done| |done].
  unfold lexOne. rewrite H1, H2, H3, H4, H5, H6, Hb. simpl andb. cbv iota.
  rewrite app_comm_cons, span_stops, <- E, string_of_bytes_of; [done| |done]. constructor; [|done]. unfold identifierPart. by rewrite Hb.
Qed.

(** A turn that starts with a digit. *)
Lemma lexOne_number b bs line column : digit b = true ->
  lexOne b bs line column =
  let '(whole, rest) := span digit (b :: bs) in
  if bool_decide (head rest = Some 46) then
    let '(fraction, after) := span digit (drop 1 rest) in
    match fraction with
    | [] => Refused (syntax "digits are required after a decimal point" line column)
    | _ => lexNumber FLOAT (whole ++ 46 :: fraction) after line column
    end
  else lexNumber INT whole rest line column.
Proof.
  intros Hb. destruct (digit_class b Hb) as (H1 & H2 & H3 & H4 & H5 & H6 & H7). unfold lexOne.
  by rewrite H1, H2, H3, H4, H5, H6, H7, Hb.
Qed.

Lemma lexNumber_plain k text tail line column :
  lexNumber k text (32 :: tail) line column = Lexed (mkToken k (string_of_bytes text) line column) (32 :: tail) (column + len text).
Proof. done. Qed.

Lemma lex_int v tail : lexical (INT, v) = true -> lexesTo (INT, v) (bytes_of v) tail.
Proof.
  unfold lexical. simpl. intros Hv line column. destruct (digits_spec _ Hv) as (b & bs & E & Hb & Hd).
  exists b, bs, (mkToken INT v line column). split_and!; [done| |done].
  rewrite lexOne_number by done. rewrite app_comm_cons, <- E, span_stops by done. simpl bool_decide. cbv iota.
  by rewrite lexNumber_plain, string_of_bytes_of.
Qed.

Lemma lex_float v tail : lexical (FLOAT, v) = true -> lexesTo (FLOAT, v) (bytes_of v) tail.
Proof.
  unfold lexical. simpl. destruct (span digit (bytes_of v)) as [whole rest] eqn:E. apply span_spec in E as [E _].
  intros [Hw Hr]%andb_true_iff line column. destruct rest as [|x fraction]; [done|].
  destruct (decide (x = 46)) as [->|Hx]; [|exfalso; repeat (case_match; try done); congruence].
  destruct (digits_spec _ Hw) as (b & bs & -> & Hb & Hd). destruct (digits_spec _ Hr) as (f & fs & -> & Hf & Hfd).
  exists b, (bs ++ 46 :: f :: fs), (mkToken FLOAT v line column). split_and!; [done| |done].
  rewrite lexOne_number by done.
  replace (b :: (bs ++ 46 :: f :: fs) ++ 32 :: tail) with ((b :: bs) ++ 46 :: ((f :: fs) ++ 32 :: tail)) by (simpl; by rewrite <- app_assoc).
  rewrite span_stops by done. simpl bool_decide. cbv iota. change (drop 1 (46 :: (f :: fs) ++ 32 :: tail)) with ((f :: fs) ++ 32 :: tail).
  rewrite (span_stops digit (f :: fs)) by done. cbv iota. by rewrite lexNumber_plain, <- E, string_of_bytes_of.
Qed.

Lemma removelast_last (bs : list Z) : bs <> [] -> bs = removelast bs ++ [List.last bs 0].
Proof. intros Hb. by apply app_removelast_last. Qed.

Lemma lex_interval v tail : lexical (INTERVAL, v) = true -> lexesTo (INTERVAL, v) (bytes_of v) tail.
Proof.
  unfold lexical. cbn [fst snd]. intros [Hd Hu]%andb_true_iff line column.
  assert (bytes_of v <> []) as Hne by (intros Hn; by rewrite Hn in Hd).
  pose proof (removelast_last _ Hne) as E. destruct (digits_spec _ Hd) as (b & bs & Er & Hb & Hds).
  assert (Forall (fun b => digit b = true) (b :: bs)) as Hds' by (by rewrite <- Er).
  remember (List.last (bytes_of v) 0) as u eqn:Hlast. rewrite Er in E.
  assert (digit u = false /\ identifierPart u = true) as [Hnd Hip].
  { unfold digit, identifierPart, identifierStart, digit. simpl in Hu. split; lia. }
  exists b, (bs ++ [u]), (mkToken INTERVAL v line column). split_and!; [done| |done].
  rewrite lexOne_number by done.
  replace (b :: (bs ++ [u]) ++ 32 :: tail) with ((b :: bs) ++ u :: 32 :: tail) by (simpl; by rewrite <- app_assoc).
  rewrite span_stops by done. replace (bool_decide (head (u :: 32 :: tail) = Some 46)) with false.
  2: { symmetry. apply bool_decide_eq_false. intros Hx. injection Hx as ->. done. }
  unfold lexNumber. cbn [span]. rewrite Hip. replace (identifierPart 32) with false by done. cbv iota.
  rewrite <- E, <- Hlast, Er, Hu. replace (forallb digit (b :: bs)) with true by (symmetry; by apply forallb_True).
  replace (len (bytes_of v) <? 2) with false; [by rewrite string_of_bytes_of|].
  symmetry. apply Z.ltb_ge. rewrite E. unfold len. rewrite length_app. simpl. lia.
Qed.

Lemma lex_symbol s tail : lexical s = true -> lexesTo s (bytes_of (textOf s)) tail.
Proof.
  destruct s as [k v]. destruct k; [..|done]; intros Hs; unfold textOf; cbn [fst snd];
    try (unfold lexical in Hs; cbn [fst snd] in Hs; apply eqs_true in Hs as ->; intros line column; by eexists _, _, _).
  - assert (v ∈ ["<"; "<="; ">"; ">="; "=="; "!="]) as Hv.
    { unfold lexical in Hs. cbn [fst snd] in Hs. apply existsb_exists in Hs as (w & Hw%list_elem_of_In & ->%eqs_true). done. }
    intros line column. repeat (apply elem_of_cons in Hv as [->|Hv]; [by eexists _, _, _|]). by apply not_elem_of_nil in Hv.
  - by apply lex_ident.
  - by apply lex_int.
  - by apply lex_float.
  - by apply lex_interval.
Qed.

Lemma scan_render l : Forall (fun s => lexical s = true) l ->
  forall fuel budget line column, (length (bytes_of (renderSource l)) <= fuel)%nat -> len l <= budget ->
  exists ts, scan fuel budget (bytes_of (renderSource l)) line column = Ok ts /\ symsOf ts = l ++ [punct EOF].
Proof.
  induction 1 as [|s l Hs Hl IH]; intros fuel budget line column Hf Hb.
  - destruct fuel; simpl; by eexists.
  - simpl in *. rewrite !bytes_of_app in *. cbn [bytes_of app] in *. change (byte_of _) with 32 in Hf |- *.
    destruct (lex_symbol s (bytes_of (renderSource l)) Hs line column) as (b & bs & t & E & Hlex & Ht).
    rewrite E in Hf |- *. rewrite <- app_comm_cons. rewrite <- app_comm_cons in Hf. simpl in Hf. rewrite length_app in Hf. simpl in Hf.
    destruct fuel as [|[|fuel]]; [lia|lia|]. cbn [scan]. rewrite Hlex. unfold len in Hb. simpl in Hb.
    replace (budget <? 1) with false by lia. cbn [scan].
    change (lexOne 32 (bytes_of (renderSource l)) line (column + len (bytes_of (textOf s)))) with
      (Skipped (bytes_of (renderSource l)) line (column + len (bytes_of (textOf s)) + 1)). cbv iota.
    destruct (IH fuel (budget - 1) line (column + len (bytes_of (textOf s)) + 1)) as (ts & -> & Hts); [lia|unfold len; lia|].
    simpl. exists (t :: ts). split; [done|]. simpl. by rewrite Ht, Hts.
Qed.

(** Lexical text is ASCII, hence UTF-8. *)
Lemma lexical_ascii s : lexical s = true -> Forall (fun b => b < 128) (bytes_of (textOf s)).
Proof.
  assert (forall bs, Forall (fun b => digit b = true) bs -> Forall (fun b => b < 128) bs) as Hdig.
  { intros bs Hb. eapply Forall_impl; [exact Hb|]. intros b. unfold digit. simpl. lia. }
  assert (forall bs, digits bs = true -> Forall (fun b => b < 128) bs) as Hdigs.
  { intros bs (? & ? & _ & _ & Hb)%digits_spec. by apply Hdig. }
  destruct s as [k v]. unfold lexical, textOf. destruct k; cbn [fst snd]; try (intros _; repeat constructor; done).
  - intros (w & Hw & ->%eqs_true)%existsb_exists. repeat destruct Hw as [<-|Hw]; try done; repeat constructor; done.
  - destruct (bytes_of v) as [|b bs]; [done|]. intros [Hb Hbs%forallb_True]%andb_true_iff. unfold identifierStart in Hb. constructor; [lia|].
    eapply Forall_impl; [exact Hbs|]. intros c. unfold identifierPart, identifierStart, digit. simpl. lia.
  - apply Hdigs.
  - destruct (span digit (bytes_of v)) as [whole rest] eqn:E. apply span_spec in E as [-> Hw]. intros [_ Hr]%andb_true_iff.
    apply Forall_app. split; [by apply Hdig|]. destruct rest as [|x fraction]; [done|].
    destruct (decide (x = 46)) as [->|Hx]; [|exfalso; repeat (case_match; try done); congruence]. constructor; [done|by apply Hdigs].
  - intros [Hd Hu]%andb_true_iff. assert (bytes_of v <> []) as Hne by (intros Hn; by rewrite Hn in Hd).
    rewrite (removelast_last _ Hne). apply Forall_app. split; [by apply Hdigs|]. constructor; [|constructor]. simpl in Hu. lia.
Qed.

Lemma utf8_plain bs : Forall (fun b => b < 128) bs -> validUTF8 bs = true.
Proof. induction 1 as [|b bs Hb _ IH]; simpl; [done|]. by replace (b <? 0x80) with true by lia. Qed.

Lemma render_utf8 l : Forall (fun s => lexical s = true) l -> validUTF8 (bytes_of (renderSource l)) = true.
Proof.
  intros Hl. apply utf8_plain. induction Hl as [|s l Hs _ IH]; simpl; [constructor|]. rewrite !bytes_of_app.
  apply Forall_app. split; [by apply lexical_ascii|by constructor].
Qed.

(** *** Operators *)

Definition operators : list string := ["<"; "<="; ">"; ">="; "=="; "!="].
Definition operated (s : sym) : Prop := fst s = OP -> snd s ∈ operators.

Lemma lexOne_operated b bs line column t rest c : lexOne b bs line column = Lexed t rest c -> operated (symOf t).
Proof.
  assert (forall k text r l, k <> OP -> lexNumber k text r l column = Lexed t rest c -> operated (symOf t)) as Hnum.
  { intros k text r l Hk. unfold lexNumber. destruct (span _ _) as [[|x suffix] after].
    - intros H. injection H as <- _ _. intros Hop. by destruct Hk.
    - destruct (_ || _); [done|]. intros H. by injection H as <- _ _. }
  unfold lexOne. destruct (b =? 10); [done|]. destruct (_ || _); [done|]. destruct (_ && _); [by destruct (span _ _)|].
  destruct (punctuation b) as [k|] eqn:Hk.
  { intros H. injection H as <- _ _. intros Hop. simpl in Hop. subst k. unfold punctuation in Hk. repeat case_match; done. }
  destruct ((b =? 60) || (b =? 62)) eqn:Hlt.
  { apply orb_true_iff in Hlt as [->%Z.eqb_eq | ->%Z.eqb_eq]; destruct (bool_decide _); intros H; injection H as <- _ _; intros _; set_solver. }
  destruct ((b =? 61) || (b =? 33)) eqn:Heq.
  { destruct (bool_decide _); [|done]. apply orb_true_iff in Heq as [->%Z.eqb_eq | ->%Z.eqb_eq]; intros H; injection H as <- _ _; intros _; set_solver. }
  destruct (identifierStart b); [destruct (span _ _); intros H; injection H as <- _ _; done|].
  destruct (digit b); [|done]. destruct (span digit (b :: bs)) as [whole r]. destruct (bool_decide _); [|by apply Hnum].
  destruct (span digit (drop 1 r)) as [[|f fs] after]; [done|by apply Hnum].
Qed.

Lemma scan_operated fuel budget bs line column ts : scan fuel budget bs line column = Ok ts -> Forall operated (symsOf ts).
Proof.
  revert budget bs line column ts. induction fuel as [|fuel IH]; intros budget [|b bs] line column ts; simpl; try done;
    try (intros H; injection H as <-; by repeat constructor).
  destruct (lexOne b bs line column) as [rest l c|t rest c|e] eqn:E; [apply IH| |done].
  intros H. validated H. injection H as <-. constructor; [by eapply lexOne_operated|by eapply IH].
Qed.

(** ** The claims *)

Lemma validate_limits limits : Limits_validate limits = Ok tt ->
  0 <= MaxConditions limits /\ 0 <= MaxIntents limits /\ 0 <= MaxAgents limits /\ 0 <= MaxTokens limits.
Proof.
  unfold Limits_validate. intros H. validated H. simpl in Hv. repeat (apply orb_false in Hv as [? Hv]).
  split_and!; lia.
Qed.

(** What a successful compilation went through. *)
Lemma compile_parts source limits p : NanoCompile source limits = Ok p ->
  Limits_validate limits = Ok tt /\ 0 < slen source <= MaxSourceBytes limits /\ validUTF8 (bytes_of source) = true /\
  (exists ts c, tokenize source (MaxTokens limits) = Ok ts /\ symsOf ts = printProgram c ++ [punct EOF] /\ meanProgram c = Some p) /\
  withinLimits limits p /\ (Program_Schedule p <> None \/ Program_Agents p <> []).
Proof.
  unfold NanoCompile. intros H. validated H. injection H as ->. apply orb_false in Hv0 as [[Hz Hm]%orb_false Hu%negb_false_iff].
  apply Z.eqb_neq in Hz. apply Z.ltb_ge in Hm. destruct (validate_limits _ Hv) as (? & ? & ? & ?).
  pose proof (scan_spec (length (bytes_of source)) (MaxTokens limits) (bytes_of source) 1 1 ltac:(done)) as Hs.
  unfold tokenize in Hv1. rewrite Hv1 in Hs. destruct Hs as [Hc _].
  destruct (parse_sound _ _ _ ltac:(done) ltac:(done) ltac:(done) Hc Hv2) as (c & ? & ? & ?).
  split_and!; [done|unfold slen in *; lia|unfold slen in *; lia|done|by exists a, c|done|].
  destruct (Program_Schedule p), (Program_Agents p); naive_solver.
Qed.

(** C36. The compiler accepts exactly a grammar. A source compiles to a program
    if and only if the limits are positive, the source is non-empty UTF-8
    within its bound, and it reads as the symbols of a strategy of the
    grammar whose meaning is that program, within the limits on conditions,
    actions and agents, and with a schedule or an agent. *)
Theorem nano_grammar source limits p :
  NanoCompile source limits = Ok p <->
  Limits_validate limits = Ok tt /\ 0 < slen source <= MaxSourceBytes limits /\ validUTF8 (bytes_of source) = true /\
  (exists ts c, tokenize source (MaxTokens limits) = Ok ts /\ symsOf ts = printProgram c ++ [punct EOF] /\ meanProgram c = Some p) /\
  withinLimits limits p /\ (Program_Schedule p <> None \/ Program_Agents p <> []).
Proof.
  split; [apply compile_parts|]. intros (Hl & Hlen & Hu & (ts & c & Ht & Hs & Hm) & Hw & Hn). unfold NanoCompile. rewrite Hl. simpl.
  replace (slen source =? 0) with false by lia. replace (MaxSourceBytes limits <? slen source) with false by lia. rewrite Hu. simpl.
  rewrite Ht. simpl. rewrite (parse_complete _ _ _ _ Hs Hm Hw). simpl.
  destruct (Program_Schedule p); [done|]. destruct (Program_Agents p); [naive_solver|done].
Qed.

(** C37. The compiler always ends: none of its loops runs out of fuel, on any
    source and under any limits. *)
Theorem nano_total source limits : NanoCompile source limits <> Err ErrFuel.
Proof.
  unfold NanoCompile. apply (fueled_bind (Limits_validate limits)).
  { unfold Limits_validate. by destruct (existsb _ _). }
  intros [] Hl. destruct (_ || _); [done|]. destruct (validate_limits _ Hl) as (? & ? & ? & ?). apply fueled_bind.
  { pose proof (scan_spec (length (bytes_of source)) (MaxTokens limits) (bytes_of source) 1 1 ltac:(done)) as Hs.
    unfold tokenize. intros Hf. by rewrite Hf in Hs. }
  intros ts Hts. apply fueled_bind; [|intros p _; by destruct (_ && _)]. unfold parseProgram, expectKeyword. fuels. by apply fueled_items.
Qed.

(** Printing and compiling are inverse: a strategy of the grammar whose
    words are lexically well-formed, written out with spaces, compiles to its
    meaning, when it is within the limits. *)
Theorem nano_roundtrip c limits p :
  meanProgram c = Some p -> Forall (fun s => lexical s = true) (printProgram c) -> Limits_validate limits = Ok tt ->
  slen (renderSource (printProgram c)) <= MaxSourceBytes limits -> len (printProgram c) <= MaxTokens limits ->
  withinLimits limits p -> (Program_Schedule p <> None \/ Program_Agents p <> []) ->
  NanoCompile (renderSource (printProgram c)) limits = Ok p.
Proof.
  intros Hm Hx Hl Hlen Htok Hw Hn. unfold NanoCompile. rewrite Hl. cbn [rbind].
  assert (0 < slen (renderSource (printProgram c))) as Hpos.
  { unfold slen. rewrite <- bytes_of_length. unfold printProgram. simpl. rewrite !bytes_of_app, !length_app. simpl. lia. }
  rewrite (proj2 (Z.eqb_neq _ _)), (proj2 (Z.ltb_ge _ _)), render_utf8 by (done || lia). cbn [orb negb].
  destruct (scan_render _ Hx (length (bytes_of (renderSource (printProgram c)))) (MaxTokens limits) 1 1 ltac:(done) Htok) as (ts & Hts & Hs).
  unfold tokenize. rewrite Hts. cbn [rbind]. rewrite (parse_complete _ _ _ _ Hs Hm Hw). cbn [rbind].
  destruct (Program_Schedule p); [done|]. destruct (Program_Agents p); [naive_solver|done].
Qed.

(** *** Compiled programs *)

Definition actions : list string := ["BUY"; "SELL"; "EXECUTE"; "PAUSE"; "OBSERVE"].

Definition wellFormed (p : Program) : Prop :=
  match Program_Schedule p with
  | Some s => intervalSeconds (Schedule_Interval s) = Ok (Schedule_Seconds s)
  | None => Program_Conditions p = [] /\ Program_Intents p = []
  end /\
  (Program_Conditions p = [] <-> Program_Intents p = []) /\
  Forall (fun c => Condition_Operator c ∈ operators /\ float64_finite (Condition_Value c) = true) (Program_Conditions p) /\
  Forall (fun i => Intent_Action i ∈ actions /\ (trades (Intent_Action i) = false -> Intent_Asset i = EmptyString /\ Intent_Confidence i = None) /\
    (forall v, Intent_Confidence i = Some v -> outsideUnit v = false)) (Program_Intents p).

Lemma intervalSeconds_bounds v seconds : intervalSeconds v = Ok seconds -> 1 <= seconds <= MaxInt64.
Proof.
  unfold intervalSeconds. intros H. validated H. apply orb_false in Hv0 as [[_ Hmax%Z.ltb_ge]%orb_false Hpos%Z.leb_gt].
  destruct (multiplier _) as [m|] eqn:Hm; [|done]. validated H. injection H as <-. apply Z.ltb_ge in Hv0.
  assert (1 <= m) by (unfold multiplier in Hm; repeat case_match; naive_solver lia).
  split; [nia|]. assert (m * (MaxInt64 / m) <= MaxInt64) by (apply Z.mul_div_le; lia). nia.
Qed.

Lemma ParseFloat_finite s v : ParseFloat s = Some v -> float64_finite v = true.
Proof. unfold ParseFloat. destruct (span _ _). intros H. case_match; [|done]. by injection H as <-. Qed.

Lemma meanAction_formed a i : meanAction a = Some i ->
  Intent_Action i ∈ actions /\ (trades (Intent_Action i) = false -> Intent_Asset i = EmptyString /\ Intent_Confidence i = None) /\
  (forall v, Intent_Confidence i = Some v -> outsideUnit v = false).
Proof.
  unfold meanAction. destruct (canonicalAction _) as [act|] eqn:Ha; [|done]. simpl. intros H.
  assert (act ∈ actions) by (unfold canonicalAction in Ha; repeat case_match; simplify_eq; set_solver).
  destruct (ca_trade a) as [[asset [l|]]|]; destruct (trades act) eqn:Ht; simplify_eq/=; try by split_and!.
  - destruct (ParseFloat _) as [f|]; simpl in H; [|done]. destruct (outsideUnit f) eqn:Ho; simplify_eq/=.
    split_and!; [done|by rewrite Ht|]. intros v Hv. by simplify_eq.
  - split_and!; [done|by rewrite Ht|done].
Qed.

Lemma operated_condition cc c : Forall operated (printCondition cc) -> meanCondition cc = Some c ->
  Condition_Operator c ∈ operators /\ float64_finite (Condition_Value c) = true.
Proof.
  unfold printCondition, meanCondition. intros Hop. destruct (ParseFloat _) as [v|] eqn:Hv; [|done]. simpl. intros H. injection H as <-. simpl.
  split; [|by eapply ParseFloat_finite]. apply Forall_cons in Hop as [_ Hop]. apply Forall_app in Hop as [_ Hop].
  apply Forall_cons in Hop as [Hop _]. by apply Hop.
Qed.

Lemma operated_conditions ccs cs : Forall operated (printConditions ccs) -> mapM meanCondition ccs = Some cs ->
  Forall (fun c => Condition_Operator c ∈ operators /\ float64_finite (Condition_Value c) = true) cs.
Proof.
  revert cs. induction ccs as [|cc [|cc' ccs] IH]; intros cs Hop Hm.
  - injection Hm as <-. constructor.
  - apply mapM_cons_Some in Hm as (c & r & Hc & Hr & ->). injection Hr as <-. constructor; [|constructor]. by eapply operated_condition.
  - apply mapM_cons_Some in Hm as (c & r & Hc & Hr & ->).
    change (Forall operated (printCondition cc ++ ident "and" :: printConditions (cc' :: ccs))) in Hop.
    apply Forall_app in Hop as [Hop1 [_ Hop2]%Forall_cons]. constructor; [by eapply operated_condition|by apply IH].
Qed.

Lemma meanActions_formed cas acts : mapM meanAction cas = Some acts ->
  Forall (fun i => Intent_Action i ∈ actions /\ (trades (Intent_Action i) = false -> Intent_Asset i = EmptyString /\ Intent_Confidence i = None) /\
    (forall v, Intent_Confidence i = Some v -> outsideUnit v = false)) acts.
Proof. intros H%mapM_Some_1. induction H; constructor; [by eapply meanAction_formed|done]. Qed.

Lemma operated_rule cr r : Forall operated (printRule cr ++ r) -> Forall operated (printConditions (fst cr)).
Proof. rewrite printRule_app. intros [_ Hop]%Forall_cons. by apply Forall_app in Hop as [Hop _]. Qed.

Lemma meanItem_formed p i p' : Forall operated (printItem i) -> wellFormed p -> meanItem p i = Some p' -> wellFormed p'.
Proof.
  destruct i as [name|interval rule]; simpl; intros Hop Hw H; [injection H as <-; exact Hw|].
  destruct (isSome _) eqn:Hs; [done|]. destruct (intervalSeconds interval) as [seconds|] eqn:Hsec; [|done].
  destruct rule as [[ccs cas]|]; simpl in H; [|injection H as <-; unfold wellFormed; simpl; split_and!; [done|done|constructor|constructor]].
  unfold meanRule in H. cbn [fst snd] in H.
  destruct (mapM meanCondition ccs) as [cs|] eqn:Hcs; [|done]. destruct (mapM meanAction cas) as [acts|] eqn:Hacts; [|done]. simpl in H.
  apply meanActions_formed in Hacts. apply operated_conditions in Hcs; [|].
  - destruct cs as [|c cs]; [done|]. destruct acts as [|a acts]; [done|]. injection H as <-. unfold wellFormed. simpl. by split_and!.
  - apply (operated_rule (ccs, cas) [punct RBRACE]). do 3 (apply Forall_cons in Hop as [_ Hop]). exact Hop.
Qed.

(** What compiles is well-formed: the schedule's seconds are those of its
    interval, between one and the largest 64-bit integer; a rule has both
    conditions and actions, and only a schedule has one; every operator is
    one of the six the evaluator knows, so that no comparison falls through
    to its default; every compared value is finite; only trades carry an
    asset or a confidence, and a confidence is between zero and one. *)
Theorem nano_compiled_wf source limits p : NanoCompile source limits = Ok p ->
  wellFormed p /\ withinLimits limits p /\ (forall s, Program_Schedule p = Some s -> 1 <= Schedule_Seconds s <= MaxInt64).
Proof.
  intros (_ & _ & _ & (ts & c & Hts & Hs & Hm) & Hw & _)%compile_parts. apply scan_operated in Hts. rewrite Hs in Hts.
  apply Forall_app in Hts as [Hts _]. unfold printProgram in Hts. do 3 (apply Forall_cons in Hts as [_ Hts]). apply Forall_app in Hts as [Hts _].
  assert (wellFormed p) as Hf.
  { unfold meanProgram in Hm. revert Hm. assert (wellFormed (mkProgram (cp_name c) None [] [] [])) as H0.
    { unfold wellFormed. simpl. split_and!; [done|done|done|constructor|constructor]. }
    revert H0. generalize (mkProgram (cp_name c) None [] [] []). induction (cp_items c) as [|i items IH]; intros q Hq Hm; simpl in Hm; [by injection Hm as <-|].
    cbn [flat_map] in Hts. apply Forall_app in Hts as [Hi Hts]. destruct (meanItem q i) as [q'|] eqn:Hq'; [|done]. simpl in Hm.
    apply (IH Hts q'); [by eapply meanItem_formed|done]. }
  split_and!; [done|done|]. intros s Hsch. destruct Hf as [Hf _]. rewrite Hsch in Hf. by eapply intervalSeconds_bounds.
Qed.

(** ** A concrete program *)

Definition demo_strategy : cprogram :=
  mkCProgram "guard"
    [CAgent "sentinel";
     CEvery "5m" (Some ([mkCCondition "REASON_AF_DNS_UNPROTECTED" (Some "3") ">=" (mkLiteral false "1");
                         mkCCondition "CONFIDENCE" None ">" (mkLiteral true "0.75")],
                        [mkCAction "execute" None; mkCAction "observe" None]))].

Definition demo_program : Program :=
  match meanProgram demo_strategy with Some p => p | None => mkProgram EmptyString None [] [] [] end.

Lemma demo_program_within : withinLimits DefaultLimits demo_program.
Proof. split_and!; apply Z.leb_le; vm_compute; reflexivity. Qed.

Lemma nano_roundtrip_witness :
  NanoCompile (renderSource (printProgram demo_strategy)) DefaultLimits = Ok demo_program /\
  (Schedule_Seconds <$> Program_Schedule demo_program) = Some 300.
Proof.
  split; [|vm_compute; reflexivity]. apply nano_roundtrip.
  - vm_compute. reflexivity.
  - apply forallb_True. vm_compute. reflexivity.
  - reflexivity.
  - apply Z.leb_le. vm_compute. reflexivity.
  - apply Z.leb_le. vm_compute. reflexivity.
  - apply demo_program_within.
  - left. vm_compute. discriminate.
Defined.

Lemma nano_compiled_wf_witness : wellFormed demo_program /\ withinLimits DefaultLimits demo_program.
Proof.
  destruct (nano_compiled_wf (renderSource (printProgram demo_strategy)) DefaultLimits demo_program) as (Hw & Hl & _).
  - vm_compute. reflexivity.
  - split; [exact Hw|exact Hl].
Defined.
