(* ===== verification/NanoEvalFacts.v ===== *)
(** * The Nano evaluator and runner: theorems

    The evaluator does exactly what a reference says, within its budgets and
    however its input is cut into frames; and a watchdog fires at most once
    per interval, whatever runs concurrently and whoever dies in between, over
    every cursor store that obeys [CursorLaws]: the in-process one and that of
    Core's database. *)

From S2P Require Import Prelude Sha256 Digest Plan Events EventStore NanoLang NanoEval NanoFacts.
From stdpp Require Import base gmap list strings pretty sorting relations.
From Stdlib Require Import ZArith Lia SpecFloat.

Open Scope Z_scope.

(** ** The reference *)

(** A timestamp is due unless the schedule says later. *)
Definition isDue (c : Cursor) (t : Z) : bool := negb (Cursor_Initialized c && (t <? Cursor_NextDueUnix c)).

(** The due ticks of timestamps from [index] on, and the cursor after them. *)
Fixpoint dueTicks (step : Z) (c : Cursor) (index : nat) (ts : list Z) : list (nat * Z) :=
  match ts with
  | [] => []
  | t :: rest => if isDue c t then (index, t) :: dueTicks step (mkCursor true (t + step)) (S index) rest else dueTicks step c (S index) rest
  end.

Fixpoint cursorAfter (step : Z) (c : Cursor) (ts : list Z) : Cursor :=
  match ts with
  | [] => c
  | t :: rest => cursorAfter step (if isDue c t then mkCursor true (t + step) else c) rest
  end.

Definition conditionHolds (frame : Frame) (index : nat) (c : Condition) : bool :=
  match Frame_Signals frame !! Condition_Signal c with
  | Some series => match series !! index with
                   | Some observed => compare observed (Condition_Operator c) (Condition_Value c)
                   | None => false
                   end
  | None => false
  end.

(** A rule fires at a tick when it has conditions and all of them hold. *)
Definition fires (program : Program) (frame : Frame) (index : nat) : bool :=
  (0 <? len (Program_Conditions program)) && forallb (conditionHolds frame index) (Program_Conditions program).

Definition emittedAt (program : Program) (frame : Frame) (tick : nat * Z) : list EmittedIntent :=
  if fires program frame (fst tick) then (fun i => mkEmitted (Intent_Action i) (snd tick)) <$> Program_Intents program else [].

Definition emitted (program : Program) (frame : Frame) (ticks : list (nat * Z)) : list EmittedIntent :=
  flat_map (emittedAt program frame) ticks.

(** ** The evaluator follows the reference *)

Section Evaluator.
Context (FormatFloat : float64 -> string) (limits : Limits).

Definition withinBudget (r : EvaluationResult) : Prop :=
  0 <= Eval_Instructions r <= MaxInstructions limits /\ len (Eval_Intents r) <= MaxOutputs limits.

Lemma evalConditions_spec frame index t cs r :
  match evalConditions FormatFloat limits frame index t cs r with
  | Ok (passed, r') => passed = forallb (conditionHolds frame index) cs /\ Eval_Intents r' = Eval_Intents r /\
      Eval_Instructions r <= Eval_Instructions r' <= Eval_Instructions r + len cs /\ (withinBudget r -> withinBudget r')
  | Err e => e = ErrInstructionLimit \/ e = ErrInvalidFrame \/ e = ErrIndex
  end.
Proof.
  revert r. induction cs as [|c cs IH]; intros r; simpl; [unfold len; simpl; split_and!; [done|done|lia|lia|done]|].
  destruct (MaxInstructions limits <? _) eqn:Hm; [auto|]. apply Z.ltb_ge in Hm. unfold conditionHolds at 1.
  destruct (Frame_Signals frame !! _) as [series|]; [|auto]. destruct (series !! index) as [v|]; [|auto].
  destruct (compare v _ _) eqn:Hc.
  - specialize (IH (mkEvaluation (Eval_Intents r) (Eval_Trace r ++ [conditionTrace FormatFloat c t v true]) (Eval_Instructions r + 1))).
    destruct (evalConditions _ _ _ _ _ _ _) as [[passed r']|e]; [|done]. destruct IH as (Hp & Hi & Hn & Hb). simpl in *.
    unfold len, withinBudget in *. simpl in *. split_and!; [done|done|lia|lia|]. intros [? ?]. apply Hb. split; [lia|done].
  - unfold len, withinBudget. simpl. split_and!; [done|done|lia|lia|]. intros [? ?]. split; [lia|done].
Qed.

Lemma emitIntents_spec t acts r :
  match emitIntents limits t acts r with
  | Ok r' => Eval_Intents r' = Eval_Intents r ++ ((fun i => mkEmitted (Intent_Action i) t) <$> acts) /\
      Eval_Instructions r' = Eval_Instructions r + len acts /\ (withinBudget r -> withinBudget r')
  | Err e => e = ErrInstructionLimit
  end.
Proof.
  revert r. induction acts as [|i acts IH]; intros r; simpl; [rewrite app_nil_r; unfold len; simpl; split_and!; [done|lia|done]|].
  destruct (_ || _) eqn:Hm; [done|]. apply orb_false in Hm as [Hm%Z.ltb_ge Ho%Z.leb_gt].
  specialize (IH (mkEvaluation (Eval_Intents r ++ [mkEmitted (Intent_Action i) t]) (Eval_Trace r ++ [mkTrace "intent.emitted" t (Intent_Action i)])
    (Eval_Instructions r + 1))).
  destruct (emitIntents _ _ _ _) as [r'|e]; [|done]. destruct IH as (Hi & Hn & Hb). simpl in *. split_and!.
  - by rewrite Hi, <- app_assoc.
  - unfold len in *. simpl. lia.
  - intros [? ?]. apply Hb. unfold withinBudget, len in *. simpl. rewrite length_app. simpl. lia.
Qed.

Lemma evalTicks_spec program frame step index ts c r :
  match evalTicks FormatFloat limits program frame step index ts c r with
  | Ok (r', c') => c' = cursorAfter step c ts /\ Eval_Intents r' = Eval_Intents r ++ emitted program frame (dueTicks step c index ts) /\
      (withinBudget r -> withinBudget r') /\ Forall (fun '(_, t) => t <= MaxInt64 - step) (dueTicks step c index ts)
  | Err e => e = ErrInstructionLimit \/ e = ErrInvalidFrame \/ e = ErrIndex
  end.
Proof.
  revert index c r. induction ts as [|t ts IH]; intros index c r; simpl; [rewrite app_nil_r; by split_and!|].
  unfold isDue. destruct (_ && _) eqn:Hdue; simpl; [apply IH|].
  destruct (MaxInt64 - step <? t) eqn:Hmax; [auto|]. apply Z.ltb_ge in Hmax.
  pose proof (evalConditions_spec frame index t (Program_Conditions program) r) as Hc.
  destruct (evalConditions _ _ _ _ _ _ _) as [[passed r1]|e]; simpl; [|done]. destruct Hc as (-> & Hi & _ & Hb).
  fold (fires program frame index). unfold emittedAt at 1. simpl. destruct (fires program frame index).
  - pose proof (emitIntents_spec t (Program_Intents program) r1) as He. destruct (emitIntents _ _ _ _) as [r2|e]; simpl; [|auto].
    destruct He as (Hi2 & _ & Hb2). specialize (IH (S index) (mkCursor true (t + step)) r2).
    destruct (evalTicks _ _ _ _ _ _ _ _ _) as [[r' c']|e]; [|done]. destruct IH as (Hc' & Hi' & Hb' & Hf).
    split_and!; [done|by rewrite Hi', Hi2, Hi, <- app_assoc|auto|by constructor].
  - specialize (IH (S index) (mkCursor true (t + step)) r1).
    destruct (evalTicks _ _ _ _ _ _ _ _ _) as [[r' c']|e]; [|done]. destruct IH as (Hc' & Hi' & Hb' & Hf).
    split_and!; [done|by rewrite Hi', Hi|auto|by constructor].
Qed.

(** *** Enough budget is enough *)

Definition observable (frame : Frame) (n : nat) (c : Condition) : Prop :=
  exists series, Frame_Signals frame !! Condition_Signal c = Some series /\ (n <= length series)%nat.

Lemma evalConditions_total frame index t cs r : Forall (observable frame (S index)) cs ->
  Eval_Instructions r + len cs <= MaxInstructions limits -> is_ok (evalConditions FormatFloat limits frame index t cs r) = true.
Proof.
  revert r. induction cs as [|c cs IH]; intros r Hs Hn; simpl; [done|]. apply Forall_cons in Hs as [(series & Hl & Hlen) Hs].
  unfold len in *. simpl in Hn. rewrite (proj2 (Z.ltb_ge _ _)) by lia. rewrite Hl.
  destruct (lookup_lt_is_Some_2 series index) as [v Hv]; [lia|]. rewrite Hv.
  destruct (compare v _ _); [|done]. apply IH; [done|simpl; lia].
Qed.

Lemma emitIntents_total t acts r : Eval_Instructions r + len acts <= MaxInstructions limits ->
  len (Eval_Intents r) + len acts <= MaxOutputs limits -> is_ok (emitIntents limits t acts r) = true.
Proof.
  revert r. induction acts as [|i acts IH]; intros r Hn Ho; simpl; [done|]. unfold len in *. simpl in Hn, Ho.
  rewrite (proj2 (Z.ltb_ge _ _)), (proj2 (Z.leb_gt _ _)) by lia. simpl. apply IH; simpl; rewrite ?length_app; simpl; lia.
Qed.

Lemma evalTicks_total program frame step index ts c r :
  let ticks := dueTicks step c index ts in
  let conditions := len (Program_Conditions program) in
  let intents := len (Program_Intents program) in
  Forall (observable frame (index + length ts)) (Program_Conditions program) -> Forall (fun '(_, t) => t <= MaxInt64 - step) ticks ->
  Eval_Instructions r + len ticks * (conditions + intents) <= MaxInstructions limits ->
  len (Eval_Intents r) + len ticks * intents <= MaxOutputs limits ->
  is_ok (evalTicks FormatFloat limits program frame step index ts c r) = true.
Proof.
  cbv zeta. revert index c r. induction ts as [|t ts IH]; intros index c r Hs Hmax Hn Ho; simpl in *; [done|].
  assert (Forall (observable frame (S index + length ts)) (Program_Conditions program)) as Hs'.
  { eapply Forall_impl; [exact Hs|]. intros d (series & ? & ?). exists series. split; [done|lia]. }
  assert (Forall (observable frame (S index)) (Program_Conditions program)) as Hs1.
  { eapply Forall_impl; [exact Hs|]. intros d (series & ? & ?). exists series. split; [done|lia]. }
  unfold isDue in *. destruct (_ && _) eqn:Hdue; simpl in *; [by apply IH|].
  apply Forall_cons in Hmax as [Ht Hmax]. rewrite (proj2 (Z.ltb_ge _ _)) by lia.
  remember (dueTicks step (mkCursor true (t + step)) (S index) ts) as ticks eqn:Hticks.
  unfold len in Hn, Ho. simpl in Hn, Ho. rewrite Nat2Z.inj_succ in Hn, Ho.
  pose proof (evalConditions_spec frame index t (Program_Conditions program) r) as Hc.
  pose proof (evalConditions_total frame index t (Program_Conditions program) r Hs1) as Hok.
  destruct (evalConditions _ _ _ _ _ _ _) as [[passed r1]|e]; [|exfalso; unfold len, is_ok in Hok; apply diff_false_true, Hok; nia].
  destruct Hc as (_ & Hi & Hle & _). cbn [rbind]. destruct ((0 <? _) && passed).
  - pose proof (emitIntents_spec t (Program_Intents program) r1) as He. pose proof (emitIntents_total t (Program_Intents program) r1) as Hok'.
    rewrite Hi in Hok'. destruct (emitIntents _ _ _ _) as [r2|e]; [|exfalso; unfold len, is_ok in *; apply diff_false_true, Hok'; nia].
    destruct He as (Hi2 & Hn2 & _). simpl. apply IH; [done|by rewrite <- Hticks|rewrite <- Hticks; unfold len in *; nia|].
    rewrite <- Hticks, Hi2, Hi. unfold len in *. rewrite length_app, length_fmap. nia.
  - apply IH; [done|by rewrite <- Hticks|rewrite <- Hticks; unfold len in *; nia|rewrite <- Hticks, Hi; unfold len in *; nia].
Qed.
End Evaluator.

(** ** The claims on the evaluator *)

Lemma nanoEvaluate_inv FormatFloat program frame cursor limits r next :
  Evaluate FormatFloat program frame cursor limits = Ok (r, next) ->
  Limits_validate limits = Ok tt /\ AdmitWatchdog program = Ok tt /\ validFrame limits frame = true /\
  next = cursorAfter (intervalOf program) cursor (Frame_Timestamps frame) /\
  Eval_Intents r = emitted program frame (dueTicks (intervalOf program) cursor 0 (Frame_Timestamps frame)) /\ withinBudget limits r.
Proof.
  unfold Evaluate. intros H. validated H. apply negb_false_iff in Hv1.
  match type of H with evalTicks _ _ _ _ _ _ _ _ ?r0 = _ =>
    pose proof (evalTicks_spec FormatFloat limits program frame (intervalOf program) 0 (Frame_Timestamps frame) cursor r0) as Hs;
    assert (withinBudget limits r0) as Hb end.
  { unfold Limits_validate in Hv. validated Hv. simpl in Hv2. repeat (apply orb_false in Hv2 as [? Hv2]). split; unfold len; simpl; lia. }
  rewrite H in Hs. destruct Hs as (? & ? & Hb' & _). split_and!; try done; apply Hb', Hb.
Qed.

Lemma admitted_actions program : AdmitWatchdog program = Ok tt ->
  Forall (fun i => Intent_Action i = "EXECUTE" \/ Intent_Action i = "OBSERVE") (Program_Intents program).
Proof.
  unfold AdmitWatchdog. intros H%each_Ok. eapply Forall_impl; [exact H|]. intros i Hi. cbv beta in Hi. validated Hi.
  apply andb_false_iff in Hv as [Hv|Hv]; apply negb_false_iff, eqs_true in Hv; auto.
Qed.

Lemma dueTicks_elem step c index ts i t : (i, t) ∈ dueTicks step c index ts -> exists k, i = (index + k)%nat /\ ts !! k = Some t.
Proof.
  revert c index. induction ts as [|u ts IH]; intros c index; simpl; [by intros ?%not_elem_of_nil|].
  destruct (isDue c u).
  - intros [E|H]%elem_of_cons; [injection E as -> ->; exists 0%nat; split; [lia|done]|].
    apply IH in H as (k & -> & Hk). exists (S k). split; [lia|done].
  - intros (k & -> & Hk)%IH. exists (S k). split; [lia|done].
Qed.

Lemma emitted_elem program frame ticks e : e ∈ emitted program frame ticks ->
  exists i t act, (i, t) ∈ ticks /\ act ∈ Program_Intents program /\ e = mkEmitted (Intent_Action act) t /\ fires program frame i = true.
Proof.
  unfold emitted. rewrite list_elem_of_In, in_flat_map. intros ([i t] & Hin%list_elem_of_In & He%list_elem_of_In).
  unfold emittedAt in He. simpl in He. destruct (fires program frame i) eqn:Hf; [|by apply not_elem_of_nil in He].
  apply list_elem_of_fmap in He as (act & -> & Hact). by exists i, t, act.
Qed.

Lemma validFrame_series limits frame k series : validFrame limits frame = true -> Frame_Signals frame !! k = Some series ->
  length series = length (Frame_Timestamps frame).
Proof.
  unfold validFrame. intros [_ Hf]%andb_true_iff Hk. rewrite forallb_forall in Hf.
  specialize (Hf (k, series)). rewrite <- list_elem_of_In, elem_of_map_to_list in Hf. apply Hf in Hk.
  apply andb_true_iff in Hk as [[_ Hl%Z.eqb_eq]%andb_true_iff _]. unfold len in Hl. lia.
Qed.

(** C35. The evaluator does exactly what the schedule and the rule say. What it
    emits is, for every due tick at which the rule has conditions and all of
    them hold on the signals of the frame, the actions of the program, in
    order and stamped with the tick; they are only EXECUTE and OBSERVE, and
    the outputs and instructions are within their budgets. Conversely, an
    admitted program on a valid frame that carries its signals is evaluated
    whenever the budgets cover its due ticks. *)
Theorem evaluate_exact FormatFloat program frame cursor limits :
  let ticks := dueTicks (intervalOf program) cursor 0 (Frame_Timestamps frame) in
  let conditions := len (Program_Conditions program) in
  let intents := len (Program_Intents program) in
  (forall r next, Evaluate FormatFloat program frame cursor limits = Ok (r, next) ->
     Eval_Intents r = emitted program frame ticks /\ next = cursorAfter (intervalOf program) cursor (Frame_Timestamps frame) /\
     Forall (fun i => (Emitted_Action i = "EXECUTE" \/ Emitted_Action i = "OBSERVE") /\ Emitted_Timestamp i ∈ Frame_Timestamps frame) (Eval_Intents r) /\
     0 <= Eval_Instructions r <= MaxInstructions limits /\ len (Eval_Intents r) <= MaxOutputs limits) /\
  (Limits_validate limits = Ok tt /\ AdmitWatchdog program = Ok tt /\ validFrame limits frame = true /\
   Forall (fun c => is_Some (Frame_Signals frame !! Condition_Signal c)) (Program_Conditions program) /\
   Forall (fun '(_, t) => t <= MaxInt64 - intervalOf program) ticks /\
   len ticks * (conditions + intents) <= MaxInstructions limits /\ len ticks * intents <= MaxOutputs limits ->
   is_ok (Evaluate FormatFloat program frame cursor limits) = true).
Proof.
  cbv zeta. split.
  - intros r next (_ & Had & _ & Hn & He & [Hb1 Hb2])%nanoEvaluate_inv. split_and!; try done; try lia.
    rewrite He. apply Forall_forall. intros e (i & t & act & Ht & Hact & -> & _)%emitted_elem. simpl. split.
    + apply admitted_actions in Had. rewrite Forall_forall in Had. by apply Had.
    + apply dueTicks_elem in Ht as (k & _ & Hk). by eapply list_elem_of_lookup_2.
  - intros (Hl & Had & Hf & Hs & Hmax & Hn & Ho). unfold Evaluate. rewrite Hl, Had, Hf. simpl. apply evalTicks_total; try done.
    simpl. eapply Forall_impl; [exact Hs|]. intros c [series Hseries]. exists series. split; [done|].
    by rewrite (validFrame_series _ _ _ _ Hf Hseries).
Qed.

(** *** Cutting a frame *)

Lemma dueTicks_app step c index a b :
  dueTicks step c index (a ++ b) = dueTicks step c index a ++ dueTicks step (cursorAfter step c a) (index + length a) b.
Proof.
  revert c index. induction a as [|t a IH]; intros c index; simpl; [by rewrite Nat.add_0_r|].
  destruct (isDue c t); simpl; rewrite IH, <- Nat.add_succ_comm; done.
Qed.

Lemma cursorAfter_app step c a b : cursorAfter step c (a ++ b) = cursorAfter step (cursorAfter step c a) b.
Proof. revert c. induction a as [|t a IH]; intros c; simpl; [done|apply IH]. Qed.

Lemma dueTicks_shift step c n index ts : dueTicks step c (n + index) ts = (fun '(i, t) => ((n + i)%nat, t)) <$> dueTicks step c index ts.
Proof.
  revert c index. induction ts as [|t ts IH]; intros c index; simpl; [done|].
  rewrite !plus_n_Sm. destruct (isDue c t); simpl; by rewrite IH.
Qed.

Lemma emitted_app program frame a b : emitted program frame (a ++ b) = emitted program frame a ++ emitted program frame b.
Proof. apply flat_map_app. Qed.

Lemma emitted_ext program f g a b : Forall2 (fun x y => snd x = snd y /\ fires program f (fst x) = fires program g (fst y)) a b ->
  emitted program f a = emitted program g b.
Proof.
  unfold emitted. induction 1 as [|x y a b [Ht Hf] _ IH]; simpl; [done|]. rewrite IH. f_equal. unfold emittedAt. by rewrite Hf, Ht.
Qed.

(** [f] is [f1] followed by [f2], signal by signal. *)
Definition joined (f1 f2 f : Frame) : Prop :=
  Frame_Timestamps f = Frame_Timestamps f1 ++ Frame_Timestamps f2 /\
  forall k, Frame_Signals f !! k = match Frame_Signals f1 !! k, Frame_Signals f2 !! k with
                                   | Some a, Some b => Some (a ++ b)
                                   | _, _ => None
                                   end /\
            (is_Some (Frame_Signals f1 !! k) <-> is_Some (Frame_Signals f2 !! k)).

Lemma conditionHolds_joined limits f1 f2 f c : joined f1 f2 f -> validFrame limits f1 = true ->
  (forall i, (i < length (Frame_Timestamps f1))%nat -> conditionHolds f i c = conditionHolds f1 i c) /\
  (forall i, conditionHolds f (length (Frame_Timestamps f1) + i) c = conditionHolds f2 i c).
Proof.
  intros [_ Hj] Hv. destruct (Hj (Condition_Signal c)) as [Hs Hiff]. unfold conditionHolds. rewrite Hs.
  destruct (Frame_Signals f1 !! _) as [a|] eqn:Ha, (Frame_Signals f2 !! _) as [b|] eqn:Hb; try done.
  - pose proof (validFrame_series _ _ _ _ Hv Ha) as Hl. split; intros i; [intros Hi; by rewrite lookup_app_l by lia|].
    rewrite lookup_app_r by lia. rewrite Hl. by replace (length (Frame_Timestamps f1) + i - length (Frame_Timestamps f1))%nat with i by lia.
  - destruct (proj1 Hiff) as [? ?]; [eauto|done].
  - destruct (proj2 Hiff) as [? ?]; [eauto|done].
Qed.

Lemma fires_ext program f g i j : (forall c, conditionHolds f i c = conditionHolds g j c) -> fires program f i = fires program g j.
Proof. intros Hc. unfold fires. f_equal. induction (Program_Conditions program) as [|c cs IH]; simpl; [done|by rewrite Hc, IH]. Qed.

(** How the input is cut does not matter. Evaluating a frame in two parts,
    handing the cursor of the first to the second, emits exactly what
    evaluating it whole does, and leaves the same cursor: no tick is lost or
    fired twice at the seam. *)
Theorem evaluate_chunking FormatFloat program f1 f2 f cursor limits r1 c1 r2 c2 r c :
  joined f1 f2 f ->
  Evaluate FormatFloat program f1 cursor limits = Ok (r1, c1) -> Evaluate FormatFloat program f2 c1 limits = Ok (r2, c2) ->
  Evaluate FormatFloat program f cursor limits = Ok (r, c) ->
  Eval_Intents r = Eval_Intents r1 ++ Eval_Intents r2 /\ c = c2.
Proof.
  intros Hj (_ & _ & Hv1 & -> & -> & _)%nanoEvaluate_inv (_ & _ & _ & -> & -> & _)%nanoEvaluate_inv (_ & _ & _ & -> & -> & _)%nanoEvaluate_inv.
  pose proof Hj as [Hts _]. rewrite Hts, cursorAfter_app, dueTicks_app, emitted_app. split; [|done]. f_equal.
  - apply emitted_ext. apply Forall2_same_length_lookup_2; [done|]. intros k [i t] y Hx Hy. rewrite Hx in Hy. injection Hy as <-.
    split; [done|]. apply fires_ext. intros d. apply (conditionHolds_joined limits f1 f2 f d Hj Hv1). simpl.
    apply list_elem_of_lookup_2, dueTicks_elem in Hx as (n & -> & Hn). apply lookup_lt_Some in Hn. lia.
  - replace (0 + length (Frame_Timestamps f1))%nat with (length (Frame_Timestamps f1) + 0)%nat by lia.
    rewrite dueTicks_shift. apply emitted_ext.
    apply Forall2_fmap_l. apply Forall2_same_length_lookup_2; [done|]. intros k [i t] y Hx Hy. rewrite Hx in Hy. injection Hy as <-.
    split; [done|]. apply fires_ext. intros d. apply (conditionHolds_joined limits f1 f2 f d Hj Hv1).
Qed.

(** ** The runner among others

    Runs of [RunFinding] for one program on one node share a cursor store. A
    run touches the store in two calls only, to read the cursor and to replace
    it; between them other runs take steps of their own, and a run may die.
    The steps are those of [RunFinding] itself: it runs over a store that
    answers from a script, and stops at the first call the script has no
    answer for; that call is then made to the shared store, and its answer
    goes to the script. *)

Inductive storeCall : Type :=
| CallLoad (ctx : ctxT) (programDigest nodeID : string)
| CallSwap (ctx : ctxT) (programDigest nodeID : string) (previous next : Cursor).

(** The answer to a call and the tick it came at. *)
Inductive storeAnswer : Type :=
| AnsLoad (r : result Cursor) (tick : nat)
| AnsSwap (r : result bool) (tick : nat).

(** The answers still to give, and the call that had none. *)
Record script : Type := mkScript { Script_answers : list storeAnswer; Script_pending : option storeCall }.

Definition ErrSuspended : error := errorsNew "suspended at a call of the store".

#[local] Instance scripted : CursorStore script := {|
  Store_Load := fun ctx programDigest nodeID st =>
    match Script_answers (snd st) with
    | AnsLoad r tick :: rest => (r, (tick, mkScript rest None))
    | [] => (Err ErrSuspended, (fst st, mkScript [] (Some (CallLoad ctx programDigest nodeID))))
    | _ => (Err ErrSuspended, (fst st, mkScript [] None))
    end;
  Store_CompareAndSwap := fun ctx programDigest nodeID previous next st =>
    match Script_answers (snd st) with
    | AnsSwap r tick :: rest => (r, (tick, mkScript rest None))
    | [] => (Err ErrSuspended, (fst st, mkScript [] (Some (CallSwap ctx programDigest nodeID previous next))))
    | _ => (Err ErrSuspended, (fst st, mkScript [] None))
    end;
|}.

(** What a shared cursor store promises: it keeps a cursor per key; reading
    changes nothing; a swap that answers true found the previous cursor and
    replaced it, under its key only; any other answer means that it did not,
    or that it did and could not say so. *)
Class CursorLaws (S : Type) {CS : CursorStore S} : Type := {
  cursor_id : Type;
  cursor_view : S -> cursor_id -> Cursor;
  cursor_key : string -> string -> cursor_id;
  cursor_load : forall ctx d node s, wp (Store_Load ctx d node) (fun r s' =>
    (forall k, cursor_view s' k = cursor_view s k) /\ forall c, r = Ok c -> c = cursor_view s (cursor_key d node)) s;
  cursor_swap : forall ctx d node previous next s, wp (Store_CompareAndSwap ctx d node previous next) (fun r s' =>
    (cursor_view s (cursor_key d node) = previous /\ cursor_view s' (cursor_key d node) = next /\
     forall k, k <> cursor_key d node -> cursor_view s' k = cursor_view s k) \/
    (r <> Ok true /\ forall k, cursor_view s' k = cursor_view s k)) s;
}.

(** *** The in-process store *)

Lemma Load_inv ctx d n k c k' s s' : MemoryCursorStore_Load ctx d n (k, s) = (Ok c, (k', s')) -> s' = s /\ c = cursorAt s d n.
Proof. unfold MemoryCursorStore_Load, bindM, ctxErr, getS, retM. simpl. destruct (ctx k); naive_solver. Qed.

Lemma CAS_inv ctx d n c next k r k' s s' : MemoryCursorStore_CompareAndSwap ctx d n c next (k, s) = (r, (k', s')) ->
  (r = Ok true /\ cursorAt s d n = c /\ s' = mkMemoryCursors (<[ cursorKey d n := next ]> (Cursors s))) \/ (r <> Ok true /\ s' = s).
Proof.
  unfold MemoryCursorStore_CompareAndSwap, bindM, ctxErr, getS, retM, modS. simpl. destruct (ctx k); [naive_solver|]. simpl.
  destruct (bool_decide _) eqn:Hb; simpl; [apply bool_decide_eq_true in Hb|]; naive_solver.
Qed.

Lemma cursorAt_insert s d n d' n' next : cursorAt (mkMemoryCursors (<[ cursorKey d n := next ]> (Cursors s))) d' n' =
  if decide (cursorKey d n = cursorKey d' n') then next else cursorAt s d' n'.
Proof. unfold cursorAt. simpl. case_decide as Hk; [by rewrite Hk, lookup_insert_eq|by rewrite lookup_insert_ne]. Qed.

(** The in-process store obeys the laws. *)
#[export] Instance MemoryCursor_laws : CursorLaws MemoryCursorStore.
Proof.
  refine {| cursor_id := string; cursor_view := fun s k => default zeroCursor (Cursors s !! k); cursor_key := cursorKey |}.
  - intros ctx d node s n. simpl. unfold MemoryCursorStore_Load, bindM, ctxErr, getS, retM. simpl. destruct (ctx n); [done|]. split; [done|]. by intros c [= <-].
  - intros ctx d node previous next s n. simpl. destruct (MemoryCursorStore_CompareAndSwap _ _ _ _ _ _) as [r [n' s']] eqn:E.
    apply CAS_inv in E as [(-> & Hc & ->)|[Hne ->]]; [left|by right]. simpl. split; [done|]. rewrite lookup_insert_eq. split; [done|].
    intros k Hk. by rewrite lookup_insert_ne.
Defined.

(** *** The store of Core's database *)

Definition rowCursor (row : NanoCursorRow) : Cursor := mkCursor (NCR_initialized row =? 1) (NCR_next_due_unix row).
Definition nanoCursorAt (s : NanoCursors) (k : string * string) : Cursor := from_option rowCursor zeroCursor (nano_runner_cursors s !! k).

Lemma rowCursor_of c t : rowCursor (cursorRow c t) = c.
Proof. by destruct c as [[] ?]. Qed.

Lemma nanoCursorAt_written d n row s k :
  nanoCursorAt (writeCursor d n row s) k = if decide ((d, n) = k) then rowCursor row else nanoCursorAt s k.
Proof. unfold nanoCursorAt. simpl. case_decide as Hk; [by rewrite Hk, lookup_insert_eq|by rewrite lookup_insert_ne]. Qed.

Lemma cursorMatches_at d n c s : cursorMatches d n c s = true -> nanoCursorAt s (d, n) = c.
Proof.
  unfold cursorMatches, nanoCursorAt. destruct (_ !! _) as [row|]; [|done]. rewrite andb_true_iff. intros [Hi%Z.eqb_eq Hn%Z.eqb_eq].
  unfold rowCursor. simpl. rewrite Hi, Hn. by destruct c as [[] ?].
Qed.

(** What a swap that wrote its row leaves behind. *)
Definition swapped (d n : string) (previous next : Cursor) (s s' : NanoCursors) : Prop :=
  nanoCursorAt s (d, n) = previous /\ nanoCursorAt s' (d, n) = next /\ forall k, k <> (d, n) -> nanoCursorAt s' k = nanoCursorAt s k.

Lemma written_swapped d n previous next t s : nanoCursorAt s (d, n) = previous -> swapped d n previous next s (writeCursor d n (cursorRow next t) s).
Proof.
  intros Hp. split_and!; [done| |intros k Hk]; rewrite nanoCursorAt_written; [by rewrite decide_True, rowCursor_of|by rewrite decide_False].
Qed.

Lemma CompareAndSwapNanoCursor_spec sqlFails d n previous next t s :
  wp (CompareAndSwapNanoCursor sqlFails d n previous next t) (fun r s' => swapped d n previous next s s' \/ (r <> Ok true /\ s' = s)) s.
Proof.
  intros k. unfold CompareAndSwapNanoCursor, bindM, statement, getS, retM, failM. simpl.
  destruct (_ || IsZero t); [by right|]. simpl. destruct (sqlFails k); [by right|]. simpl.
  destruct (cursorMatches d n previous s) eqn:Hm.
  - pose proof (written_swapped d n previous next t s (cursorMatches_at _ _ _ _ Hm)). destruct (sqlFails (S k)); by left.
  - destruct (sqlFails (S k)); [by right|]. simpl. destruct (_ || negb _) eqn:Hz; simpl; [by right|]. destruct (sqlFails (S (S k))); simpl; [by right|]. simpl.
    unfold cursorAbsent. case_bool_decide as Hrow; [|destruct (sqlFails _); by right].
    assert (nanoCursorAt s (d, n) = previous) as Hp.
    { unfold nanoCursorAt. rewrite Hrow. simpl. destruct previous as [[] due]; [done|]. simpl in Hz. apply negb_false_iff, Z.eqb_eq in Hz. by subst. }
    pose proof (written_swapped d n previous next t s Hp). destruct (sqlFails _); by left.
Qed.

(** The database's store obeys the laws, whichever statements fail: a swap may
    land and its answer be lost. *)
Definition StorageCursor_laws (clock : clockT) (sqlFails : nat -> bool) : @CursorLaws NanoCursors (StorageCursorStore_ops clock sqlFails).
Proof.
  refine {| cursor_view := nanoCursorAt; cursor_key := fun d n => (d, n) |}.
  - intros ctx d n s k. simpl. unfold StorageCursorStore_Load, LoadNanoCursor, bindM, statement, getS, retM, failM. simpl.
    destruct (_ || _); [by split|]. simpl. destruct (sqlFails k); simpl; [by split|]. simpl. unfold nanoCursorAt.
    destruct (_ !! _) as [row|]; [|split; [done|]; by intros c [= <-]]. destruct (_ && _); [by split|]. split; [done|]. by intros c [= <-].
  - intros ctx d n previous next s k. simpl. unfold StorageCursorStore_CompareAndSwap, bindM, now. simpl.
    pose proof (CompareAndSwapNanoCursor_spec sqlFails d n previous next (clock k) s (S k)) as Hc.
    destruct (CompareAndSwapNanoCursor _ _ _ _ _ _ _) as [r [k' s']]. destruct Hc as [Hc|[Hr ->]]; [left; exact Hc|by right].
Defined.

Section Watchdog.
Context {H : Hasher} (FormatFloat : float64 -> string) (ToUpper : string -> string).
Context (RFC3339Nano : time -> string) (parseTime : string -> option time) (clock : clockT) (runner : Runner).

Abbreviation evaluating := (evaluateFinding FormatFloat RFC3339Nano parseTime clock runner (S := MemoryCursorStore)).
Abbreviation running := (RunFinding FormatFloat ToUpper RFC3339Nano parseTime (S := MemoryCursorStore) clock runner).
Abbreviation theProgram := (Runner_program runner).
Abbreviation theDigest := (Runner_programDigest runner).
Abbreviation theNode := (Runner_nodeID runner).

(** A run in progress: how it was called, and the answers it has had. *)
Record runInProgress : Type := mkRunning {
  Running_ctx : ctxT;
  Running_finding : FindingContext;
  Running_tick : nat;
  Running_answers : list storeAnswer;
}.
Definition answered (answer : storeAnswer) (p : runInProgress) : runInProgress :=
  mkRunning (Running_ctx p) (Running_finding p) (Running_tick p) (Running_answers p ++ [answer]).

(** [RunFinding], as far as the answers go. *)
Definition replay (p : runInProgress) : result RunResult * (nat * script) :=
  RunFinding FormatFloat ToUpper RFC3339Nano parseTime (S := script) clock runner (Running_ctx p) (Running_finding p)
    (Running_tick p, mkScript (Running_answers p) None).

Section Shared.
Context {S : Type} {CS : CursorStore S}.

Definition performCall (call : storeCall) (tick : nat) (s : S) : storeAnswer * S :=
  match call with
  | CallLoad ctx d node => match Store_Load ctx d node (tick, s) with (r, (tick', s')) => (AnsLoad r tick', s') end
  | CallSwap ctx d node previous next =>
      match Store_CompareAndSwap ctx d node previous next (tick, s) with (r, (tick', s')) => (AnsSwap r tick', s') end
  end.

(** The shared store, the runs in progress, and what was returned. *)
Record world : Type := mkWorld {
  W_store : S;
  W_running : list runInProgress;
  W_returned : list (FindingContext * RunResult);
}.

(** A run starts; a run makes the call it stands at; a run returns; a run
    fails or dies; a runner of another program or node makes a call. *)
Inductive wstep {CL : CursorLaws S} : world -> world -> Prop :=
| w_start ctx f n s run returned :
    wstep (mkWorld s run returned) (mkWorld s (mkRunning ctx f n [] :: run) returned)
| w_call p before after r tick rest call answer s s' returned :
    replay p = (r, (tick, mkScript rest (Some call))) -> performCall call tick s = (answer, s') ->
    wstep (mkWorld s (before ++ p :: after) returned) (mkWorld s' (before ++ answered answer p :: after) returned)
| w_return p before after r tick rest s returned :
    replay p = (Ok r, (tick, rest)) ->
    wstep (mkWorld s (before ++ p :: after) returned) (mkWorld s (before ++ after) (returned ++ [(Running_finding p, r)]))
| w_gone p before after s returned :
    wstep (mkWorld s (before ++ p :: after) returned) (mkWorld s (before ++ after) returned)
| w_other ctx digest node c next n r n2 s s2 run returned :
    cursor_key digest node <> cursor_key theDigest theNode ->
    Store_CompareAndSwap ctx digest node c next (n, s) = (r, (n2, s2)) ->
    wstep (mkWorld s run returned) (mkWorld s2 run returned).

(** The run at a place takes its next step: its call, its return, or its end
    with an error. *)
Definition turn (i : nat) (w : world) : world :=
  let run := W_running w in
  match run !! i with
  | None => w
  | Some p =>
      let '(r, (tick, script)) := replay p in
      match Script_pending script with
      | Some call =>
          let '(answer, s') := performCall call tick (W_store w) in
          mkWorld s' (take i run ++ answered answer p :: drop (1 + i) run) (W_returned w)
      | None =>
          mkWorld (W_store w) (take i run ++ drop (1 + i) run)
            (W_returned w ++ match r with Ok r => [(Running_finding p, r)] | Err _ => [] end)
      end
  end.

Lemma turn_steps {CL : CursorLaws S} i w : rtc wstep w (turn i w).
Proof.
  unfold turn. destruct (W_running w !! i) as [p|] eqn:Hp; [|done]. apply rtc_once. destruct w as [s run returned]. simpl in *.
  rewrite <- (take_drop_middle run i p Hp) at 1. destruct (replay p) as [r [tick [rest [call|]]]] eqn:Hr.
  - simpl. destruct (performCall _ _ _) as [answer s'] eqn:Hc. by eapply w_call.
  - simpl. destruct r as [r|]; [by eapply w_return|rewrite app_nil_r; apply w_gone].
Qed.
End Shared.
Arguments world : clear implicits.

Lemma evaluating_inv f frame d c n s e next proposals n' s' : evaluating f frame d c (n, s) = (Ok (e, next, proposals), (n', s')) ->
  s' = s /\ Evaluate FormatFloat theProgram frame c DefaultLimits = Ok (e, next) /\
  BuildProposals RFC3339Nano parseTime e (Runner_bindingID runner) theDigest d theNode (RFC3339Nano (findingDeadline runner f)) = Ok proposals /\
  (Eval_Intents e <> [] -> clock n < findingDeadline runner f).
Proof.
  unfold evaluateFinding, bindM, liftR, now, retM, failM. simpl. destruct (Evaluate _ _ _ _ _) as [[e0 next0]|]; [|done]. simpl.
  destruct (len (Eval_Intents e0) =? 0) eqn:Hl.
  - simpl. destruct (BuildProposals _ _ _ _ _ _ _ _) as [ps|] eqn:Hps; simpl; [|done]. intros E. injection E as -> -> -> _ ->.
    split_and!; try done. intros Hne. apply Z.eqb_eq in Hl. destruct (Eval_Intents e); [done|]. unfold len in Hl. simpl in Hl. lia.
  - simpl. destruct (clock n <? _) eqn:Hc; [|done]. destruct (BuildProposals _ _ _ _ _ _ _ _) as [ps|] eqn:Hps; simpl; [|done].
    intros E. injection E as -> -> -> _ ->. apply Z.ltb_lt in Hc. by split_and!.
Qed.

(** What is between the two calls never touches the store, whatever it is. *)
Lemma evaluateFinding_store {S1 S2 : Type} f frame d c n (s1 : S1) (s2 : S2) :
  match evaluateFinding FormatFloat RFC3339Nano parseTime clock runner f frame d c (n, s1) with (r, (n', s1')) => s1' = s1 /\
    evaluateFinding FormatFloat RFC3339Nano parseTime clock runner f frame d c (n, s2) = (r, (n', s2)) /\
    forall e next ps, r = Ok (e, next, ps) -> Evaluate FormatFloat theProgram frame c DefaultLimits = Ok (e, next) end.
Proof.
  unfold evaluateFinding, bindM, liftR, now, retM, failM. simpl. destruct (Evaluate _ _ _ _ _) as [[e0 next0]|]; [|done]. simpl.
  destruct (len (Eval_Intents e0) =? 0); simpl; [|destruct (clock n <? _); simpl; [|done]];
    (destruct (BuildProposals _ _ _ _ _ _ _ _); simpl; [split_and!; naive_solver|done]).
Qed.

(** One finding is one tick. *)
Lemma frame_tick f frame d : FrameForFinding FormatFloat ToUpper f = Ok (frame, d) -> Frame_Timestamps frame = [Finding_ObservedUnix f].
Proof. unfold FrameForFinding. intros E. validated E. by injection E as <- _. Qed.

Lemma evaluate_tick f frame c e next :
  Frame_Timestamps frame = [Finding_ObservedUnix f] -> Evaluate FormatFloat theProgram frame c DefaultLimits = Ok (e, next) ->
  (Eval_Intents e = [] /\ next = c) \/
  (isDue c (Finding_ObservedUnix f) = true /\ next = mkCursor true (Finding_ObservedUnix f + intervalOf theProgram) /\
   Forall (fun x => Emitted_Timestamp x = Finding_ObservedUnix f) (Eval_Intents e)).
Proof.
  intros Ht (_ & _ & _ & -> & -> & _)%nanoEvaluate_inv. rewrite Ht. simpl. destruct (isDue c _); [right|left]; split_and!; try done.
  apply Forall_forall. intros x (i & t & act & Hin & _ & -> & _)%emitted_elem. apply list_elem_of_singleton in Hin. by injection Hin as _ ->.
Qed.

(** *** What the code does with its answers *)

(** What the evaluation of a finding from a cursor yields. *)
Definition evaluates (f : FindingContext) (c : Cursor) (e : EvaluationResult) (next : Cursor) : Prop :=
  exists frame d, FrameForFinding FormatFloat ToUpper f = Ok (frame, d) /\ Evaluate FormatFloat theProgram frame c DefaultLimits = Ok (e, next).

(** A run stands at reading the cursor, or at replacing the cursor it read by
    the one after its evaluation; it returns only after a swap that answered
    true, and then what it evaluated from the cursor it read. *)
Definition replayed (p : runInProgress) (out : result RunResult * (nat * script)) : Prop :=
  let f := Running_finding p in
  (forall call, Script_pending (snd (snd out)) = Some call ->
     Running_answers p = [] /\ call = CallLoad (Running_ctx p) theDigest theNode \/
     exists c k e next, Running_answers p = [AnsLoad (Ok c) k] /\ call = CallSwap (Running_ctx p) theDigest theNode c next /\ evaluates f c e next) /\
  (forall r, fst out = Ok r -> exists c k k' rest next, Running_answers p = AnsLoad (Ok c) k :: AnsSwap (Ok true) k' :: rest /\
     evaluates f c (Run_Evaluation r) next).

Lemma replay_calls p : replayed p (replay p).
Proof.
  destruct (replay p) as [x [tick st]] eqn:E. revert E. destruct p as [ctx f n answers]. unfold replayed, replay, RunFinding, bindM at 1, ctxErr. simpl.
  destruct (ctx n); [by intros [= <- <- <-]|].
  destruct (negb _); [by intros [= <- <- <-]|]. unfold bindM at 1, liftR. destruct (FrameForFinding _ _ f) as [[frame d]|] eqn:Hf; [|by intros [= <- <- <-]].
  unfold bindM at 1. simpl. destruct answers as [|[[c|er] k|r k] answers]; simpl; [intros [= <- <- <-]; split; [intros call [= <-]; by left|done]| |by intros [= <- <- <-]..].
  unfold bindM at 1. pose proof (evaluateFinding_store f frame d c k (mkScript answers None) tt) as Hev.
  destruct (evaluateFinding _ _ _ _ _ _ _ _ _ _) as [[[[e next] ps]|er] [k1 s1]]; destruct Hev as (-> & _ & He); [|by intros [= <- <- <-]].
  assert (evaluates f c e next) as Hfe by (exists frame, d; split; [done|by eapply He]).
  unfold bindM. simpl. destruct answers as [|[r2 k2|[[]|er] k2] answers]; simpl; intros [= <- <- <-]; try done.
  - split; [|done]. intros call [= <-]. right. by exists c, k, e, next.
  - split; [done|]. intros r [= <-]. by exists c, k, k2, answers, next.
Qed.

(** *** The invariant *)

Lemma ordPairs_lookup {A} (R : A -> A -> Prop) (l : list A) : ForallOrdPairs R l -> forall i j x y, (i < j)%nat -> l !! i = Some x -> l !! j = Some y -> R x y.
Proof.
  induction 1 as [|z l Hz _ IH]; intros i j x y Hij Hi Hj; [done|]. destruct j as [|j]; [lia|]. destruct i as [|i]; simpl in *.
  - injection Hi as ->. rewrite Forall_lookup in Hz. by eapply Hz.
  - eapply (IH i j); [lia|done|done].
Qed.

(** Two returns with something to do are an interval apart. *)
Definition apart (x y : FindingContext * EvaluationResult) : Prop :=
  Eval_Intents (snd x) <> [] -> Eval_Intents (snd y) <> [] ->
  Finding_ObservedUnix (fst x) + intervalOf theProgram <= Finding_ObservedUnix (fst y) \/
  Finding_ObservedUnix (fst y) + intervalOf theProgram <= Finding_ObservedUnix (fst x).

(** The cursor is an interval past a return with something to do. *)
Definition passed (c : Cursor) (x : FindingContext * EvaluationResult) : Prop :=
  Eval_Intents (snd x) <> [] -> Cursor_Initialized c = true /\ Finding_ObservedUnix (fst x) + intervalOf theProgram <= Cursor_NextDueUnix c.

Lemma apart_sym x y : apart x y -> apart y x.
Proof. unfold apart. naive_solver. Qed.

Lemma apart_permuted l k : l ≡ₚ k -> ForallOrdPairs apart l -> ForallOrdPairs apart k.
Proof.
  induction 1 as [|x l k Hp IH|x y l|l1 l2 l3 _ IH1 _ IH2]; intros Hl; [done| | |by auto].
  - inversion_clear Hl. constructor; [by rewrite <- Hp|auto].
  - inversion_clear Hl as [|? ? Hy Hl']. inversion_clear Hl' as [|? ? Hx Hl'']. inversion_clear Hy.
    constructor; [constructor; [by apply apart_sym|done]|by constructor].
Qed.

#[local] Instance apart_proper : Proper ((≡ₚ) ==> iff) (ForallOrdPairs apart).
Proof. intros l k Hp. split; by apply apart_permuted. Qed.

(** What a run that won its swap will return. *)
Definition claimOf (p : runInProgress) : option (FindingContext * EvaluationResult) :=
  match Running_answers p with
  | AnsLoad (Ok c) _ :: AnsSwap (Ok true) _ :: _ =>
      match FrameForFinding FormatFloat ToUpper (Running_finding p) with
      | Ok (frame, _) =>
          match Evaluate FormatFloat theProgram frame c DefaultLimits with
          | Ok (e, _) => Some (Running_finding p, e)
          | Err _ => None
          end
      | Err _ => None
      end
  | _ => None
  end.

Lemma claimOf_won p c k k' rest e next : Running_answers p = AnsLoad (Ok c) k :: AnsSwap (Ok true) k' :: rest ->
  evaluates (Running_finding p) c e next -> claimOf p = Some (Running_finding p, e).
Proof. intros Ha (frame & d & Hf & He). unfold claimOf. by rewrite Ha, Hf, He. Qed.

(** A swap that replaced the cursor claims its finding. *)
Lemma swap_claims f c e next l : 0 <= intervalOf theProgram -> evaluates f c e next -> Forall (passed c) l -> ForallOrdPairs apart l ->
  Forall (passed next) ((f, e) :: l) /\ ForallOrdPairs apart ((f, e) :: l).
Proof.
  intros Hstep (frame & d & Hf & He) Hp Ha. apply (evaluate_tick f frame) in He; [|by eapply frame_tick]. split.
  - constructor.
    + intros Hne. destruct He as [[? _]|(_ & -> & _)]; [done|]. simpl. split; [done|lia].
    + eapply Forall_impl; [exact Hp|]. intros x Hx Hne. destruct (Hx Hne) as [Hi Hn]. destruct He as [[_ ->]|(Hd & -> & _)]; [done|].
      simpl. split; [done|]. unfold isDue in Hd. rewrite Hi in Hd. simpl in Hd. lia.
  - constructor; [|done]. eapply Forall_impl; [exact Hp|]. intros x Hx Hne Hne'. destruct (Hx Hne') as [Hi Hn].
    destruct He as [[? _]|(Hd & _)]; [done|]. right. unfold isDue in Hd. rewrite Hi in Hd. simpl in *. lia.
Qed.

Section SharedFacts.
Context {S : Type} {CS : CursorStore S} {CL : CursorLaws S}.

Abbreviation theCursor s := (cursor_view s (cursor_key theDigest theNode)).
Abbreviation evaluated x := (fst x, Run_Evaluation (snd x)).

(** All that was returned, all that will be, and what died after its swap:
    pairwise apart, and behind the cursor. *)
Definition worldInv (w : world S) : Prop := exists lost,
  let all := (map (fun x => evaluated x) (W_returned w) ++ omap claimOf (W_running w)) ++ lost in
  ForallOrdPairs apart all /\ Forall (passed (theCursor (W_store w))) all.

Lemma worldInv_permuted s s' run run' returned returned' :
  theCursor s' = theCursor s ->
  map (fun x => evaluated x) returned ++ omap claimOf run ≡ₚ map (fun x => evaluated x) returned' ++ omap claimOf run' ->
  worldInv (mkWorld s run returned) -> worldInv (mkWorld s' run' returned').
Proof.
  intros Hc Hp (lost & Ha & Hf). exists lost. simpl in *. by rewrite Hc, <- Hp.
Qed.

Lemma claims_middle before p after :
  omap claimOf (before ++ p :: after) = omap claimOf before ++ option_list (claimOf p) ++ omap claimOf after.
Proof. rewrite omap_app. f_equal. simpl. by destruct (claimOf p). Qed.

(** The same claims in another order. *)
Local Ltac permuted Hl :=
  match type of Hl with ForallOrdPairs _ ?l => match goal with |- ForallOrdPairs _ ?k /\ _ =>
    assert (l ≡ₚ k) as Hperm by (simpl; solve_Permutation); by rewrite <- Hperm end end.

Lemma wstep_inv w w' : 0 <= intervalOf theProgram -> wstep w w' -> worldInv w -> worldInv w'.
Proof.
  intros Hstep Hw Hinv. destruct Hw as [ctx f n s run returned|p before after r tick rest call answer s s' returned Hr Hc
    |p before after r tick rest s returned Hr|p before after s returned|ctx digest node c next n r n2 s s2 run returned Hk Hc].
  - by eapply worldInv_permuted; [| |exact Hinv].
  - pose proof (replay_calls p) as [Hcall _]. rewrite Hr in Hcall. destruct (Hcall call eq_refl) as [[Ha ->]|(c & k & e & next & Ha & -> & He)]; simpl in Hc.
    + pose proof (cursor_load (Running_ctx p) theDigest theNode s tick) as Hl. destruct (Store_Load _ _ _ _) as [x [tick' s1]]. injection Hc as <- <-.
      eapply worldInv_permuted; [apply (proj1 Hl)| |exact Hinv]. rewrite !claims_middle.
      assert (claimOf p = None /\ claimOf (answered (AnsLoad x tick') p) = None) as [-> ->]; [|done].
      unfold claimOf. simpl. rewrite Ha. by destruct x.
    + pose proof (cursor_swap (Running_ctx p) theDigest theNode c next s tick) as Hl. destruct (Store_CompareAndSwap _ _ _ _ _ _) as [x [tick' s1]].
      injection Hc as <- <-. assert (claimOf p = None) as Hnone by (unfold claimOf; by rewrite Ha).
      assert (Running_answers (answered (AnsSwap x tick') p) = [AnsLoad (Ok c) k; AnsSwap x tick']) as Ha' by (simpl; by rewrite Ha).
      destruct Hl as [(Hold & Hnew & _)|[Hne Hsame]].
      * destruct Hinv as (lost & Hap & Hpa). simpl in Hap, Hpa. rewrite Hold in Hpa.
        destruct (swap_claims _ _ _ _ _ Hstep He Hpa Hap) as [Hpa' Hap'].
        rewrite claims_middle, Hnone in Hap', Hpa'. simpl in Hap', Hpa'.
        assert (x = Ok true \/ x <> Ok true) as [->|Hx] by (destruct x as [[]|]; naive_solver).
        -- exists lost. simpl. rewrite Hnew, claims_middle. rewrite (claimOf_won _ _ _ _ _ _ _ Ha' He).
           permuted Hap'.
        -- exists ((Running_finding p, e) :: lost). simpl. rewrite Hnew, claims_middle.
           assert (claimOf (answered (AnsSwap x tick') p) = None) as -> by (unfold claimOf; rewrite Ha'; by destruct x as [[]|]).
           permuted Hap'.
      * eapply worldInv_permuted; [apply Hsame| |exact Hinv]. rewrite !claims_middle. rewrite Hnone.
        assert (claimOf (answered (AnsSwap x tick') p) = None) as -> by (unfold claimOf; rewrite Ha'; by destruct x as [[]|]). done.
  - pose proof (replay_calls p) as [_ Hret]. rewrite Hr in Hret. destruct (Hret r eq_refl) as (c & k & k' & more & next & Ha & He).
    eapply worldInv_permuted; [done| |exact Hinv]. rewrite map_app, claims_middle, omap_app. simpl. rewrite (claimOf_won _ _ _ _ _ _ _ Ha He). solve_Permutation.
  - destruct Hinv as (lost & Hap & Hpa). destruct (claimOf p) as [x|] eqn:Hx; [exists (x :: lost)|exists lost]; simpl in *; rewrite claims_middle, Hx in Hap, Hpa; rewrite omap_app; [simpl in Hap, Hpa|done].
    permuted Hap.
  - pose proof (cursor_swap ctx digest node c next s n) as Hl. rewrite Hc in Hl. eapply worldInv_permuted; [|done|exact Hinv].
    destruct Hl as [(_ & _ & Hother)|[_ Hsame]]; [by apply Hother|by apply Hsame].
Qed.

(** C34. A watchdog fires at most once per interval. Among any runs of
    [RunFinding] of a program on a node that share a cursor store, the interval
    being at least a second, as of every program that compiles, interleaved in
    any way at their calls of the store, with each other and with runs of
    other programs, some of them dying anywhere, any two that returned
    something to do are for findings at least an interval apart; in
    particular no finding fires twice. The store is any whose swap answers
    true only when it replaced the cursor it was given, and which may fail
    after replacing it: Core's database and the in-process one both are. *)
Theorem watchdog_once (w0 w : world S) : 1 <= intervalOf theProgram -> W_running w0 = [] -> W_returned w0 = [] -> rtc wstep w0 w ->
  forall i j f r f' r', i <> j -> W_returned w !! i = Some (f, r) -> W_returned w !! j = Some (f', r') ->
    Eval_Intents (Run_Evaluation r) <> [] -> Eval_Intents (Run_Evaluation r') <> [] ->
    (Finding_ObservedUnix f + intervalOf theProgram <= Finding_ObservedUnix f' \/
     Finding_ObservedUnix f' + intervalOf theProgram <= Finding_ObservedUnix f) /\ f <> f'.
Proof.
  intros Hstep Hr Hf Hs.
  assert (worldInv w) as (lost & Hap & _).
  { assert (worldInv w0) as Hinv by (exists []; simpl; rewrite Hr, Hf; simpl; by repeat constructor).
    clear Hr Hf. induction Hs as [|w0 w1 w Hw _ IH]; [done|]. apply IH. eapply wstep_inv; [lia|done|done]. }
  assert (forall i j f r f' r', (i < j)%nat -> W_returned w !! i = Some (f, r) -> W_returned w !! j = Some (f', r') ->
    apart (f, Run_Evaluation r) (f', Run_Evaluation r')) as Hpair.
  { intros i j f r f' r' Hij Hi Hj. rewrite <- app_assoc in Hap. eapply (ordPairs_lookup _ _ Hap i j); [done|..];
      (rewrite lookup_app_l by (rewrite length_map; by eapply lookup_lt_Some)); rewrite list_lookup_fmap; by rewrite ?Hi, ?Hj. }
  intros i j f r f' r' Hij Hi Hj Hne Hne'.
  assert (apart (f, Run_Evaluation r) (f', Run_Evaluation r')) as Hf'.
  { destruct (decide (i < j)%nat); [by eapply Hpair|]. apply apart_sym. eapply (Hpair j i); [lia|done|done]. }
  specialize (Hf' Hne Hne'). simpl in Hf'. split; [done|]. intros ->. lia.
Qed.
End SharedFacts.

Lemma buildProposals_spec b id d i node deadline index intents ps :
  buildProposals RFC3339Nano b id d i node deadline index intents = Ok ps ->
  Forall (fun p => Proposal_ApplicationID p = "antiflock-nano" /\ Proposal_NodeID p = node /\ Proposal_ActionType p = PB_ActionType b /\
    Proposal_Destinations p = [PB_Destination b] /\ Proposal_DataClass p = PB_DataClass b /\ Proposal_BindingID p = id /\
    Proposal_Sensitivity p = "SENSITIVITY_OPERATOR_PRIVATE" /\
    Proposal_ProgramDigest p = d /\ Proposal_InputDigest p = i /\ Proposal_Deadline p = RFC3339Nano deadline) ps /\
  length ps = length (List.filter (fun x => negb (eqs (Emitted_Action x) "OBSERVE")) intents).
Proof.
  revert index ps. induction intents as [|x intents IH]; intros index ps; simpl; [intros E; injection E as <-; by split|].
  destruct (eqs _ "OBSERVE"); simpl; [apply IH|]. intros E. validated E. injection E as <-. apply IH in Hv0 as [? <-].
  split; [constructor; [by split_and!|done]|done].
Qed.

Lemma running_inv ctx f n s r n' s' : running ctx f (n, s) = (r, (n', s')) ->
  match r with
  | Err _ => s' = s
  | Ok out => ctx n = None /\ Finding_NodeID f = theNode /\ exists frame next k1 k2 k3,
      FrameForFinding FormatFloat ToUpper f = Ok (frame, Run_InputDigest out) /\ Run_ProgramDigest out = theDigest /\
      MemoryCursorStore_Load ctx theDigest theNode (S n, s) = (Ok (cursorAt s theDigest theNode), (k1, s)) /\
      evaluating f frame (Run_InputDigest out) (cursorAt s theDigest theNode) (k1, s) = (Ok (Run_Evaluation out, next, Run_Proposals out), (k2, s)) /\
      MemoryCursorStore_CompareAndSwap ctx theDigest theNode (cursorAt s theDigest theNode) next (k2, s) = (Ok true, (k3, s'))
  end.
Proof.
  unfold RunFinding, bindM at 1, ctxErr. simpl. destruct (ctx n) eqn:Hctx; [intros E; by injection E as <- _ <-|].
  destruct (negb _) eqn:Hn; [unfold failM; intros E; by injection E as <- _ <-|]. apply negb_false_iff, eqs_true in Hn.
  unfold bindM at 1, liftR. destruct (FrameForFinding _ _ f) as [[frame d]|] eqn:Hf; [|intros E; by injection E as <- _ <-].
  unfold bindM at 1. simpl. destruct (MemoryCursorStore_Load _ _ _ _) as [[c|er] [k1 s1]] eqn:Hl.
  2: { unfold MemoryCursorStore_Load, bindM, ctxErr, getS, retM in Hl. simpl in Hl. destruct (ctx (S n)); [|done].
       injection Hl as _ _ <-. intros E. by injection E as <- _ <-. }
  pose proof Hl as [-> ->]%Load_inv. unfold bindM at 1. destruct (evaluating _ _ _ _ _) as [[[[e next] ps]|er] [k2 s2]] eqn:He.
  2: { intros E. injection E as <- _ <-. revert He. unfold evaluateFinding, bindM, liftR, now, retM, failM. simpl.
       repeat (case_match; simplify_eq/=; try done); intros E; by injection E as _ _ <-. }
  pose proof He as (-> & _)%evaluating_inv. unfold bindM. destruct (MemoryCursorStore_CompareAndSwap _ _ _ _ _ _) as [[[]|er] [k3 s3]] eqn:Hc;
    pose proof Hc as Hc'%CAS_inv; simpl; unfold retM, failM; intros E; injection E as <- _ <-.
  - split_and!; [done|done|]. simpl. by exists frame, next, k1, k2, k3.
  - by destruct Hc' as [(? & _)|[_ ->]].
  - by destruct Hc' as [(? & _)|[_ ->]].
Qed.

(** The calls of a run whose store answers as the in-process one does. *)
Lemma replay_alone ctx f n frame next (s : MemoryCursorStore) k1 k2 k3 r :
  ctx n = None -> Finding_NodeID f = theNode -> FrameForFinding FormatFloat ToUpper f = Ok (frame, Run_InputDigest r) ->
  Run_ProgramDigest r = theDigest ->
  evaluating f frame (Run_InputDigest r) (cursorAt s theDigest theNode) (k1, s) = (Ok (Run_Evaluation r, next, Run_Proposals r), (k2, s)) ->
  let c := cursorAt s theDigest theNode in
  replay (mkRunning ctx f n []) = (Err ErrSuspended, (S n, mkScript [] (Some (CallLoad ctx theDigest theNode)))) /\
  replay (mkRunning ctx f n [AnsLoad (Ok c) k1]) = (Err ErrSuspended, (k2, mkScript [] (Some (CallSwap ctx theDigest theNode c next)))) /\
  replay (mkRunning ctx f n [AnsLoad (Ok c) k1; AnsSwap (Ok true) k3]) = (Ok r, (k3, mkScript [] None)).
Proof.
  intros Hctx Hnode Hf Hd He c. unfold replay, RunFinding, bindM, ctxErr, liftR. simpl. rewrite Hctx, Hnode, eqs_refl, Hf. simpl.
  assert (forall st : script, evaluateFinding FormatFloat RFC3339Nano parseTime clock runner f frame (Run_InputDigest r) c (k1, st)
    = (Ok (Run_Evaluation r, next, Run_Proposals r), (k2, st))) as Hev.
  { intros st. pose proof (evaluateFinding_store f frame (Run_InputDigest r) c k1 s st) as Hs. unfold c in *. rewrite He in Hs. apply Hs. }
  rewrite !Hev. simpl. split_and!; [done..|]. rewrite <- Hd. by destruct r.
Qed.

(** A run alone over the in-process store is a start, its two calls and a
    return: the steps are those of the code. *)
Lemma running_steps ctx f n s r n' s' run returned : running ctx f (n, s) = (Ok r, (n', s')) ->
  rtc wstep (mkWorld s run returned) (mkWorld s' run (returned ++ [(f, r)])).
Proof.
  intros (Hctx & Hnode & frame & next & k1 & k2 & k3 & Hf & Hd & Hl & He & Hc)%running_inv.
  destruct (replay_alone ctx f n frame next s k1 k2 k3 r Hctx Hnode Hf Hd He) as (H1 & H2 & H3).
  eapply rtc_l; [apply (w_start ctx f n)|].
  eapply rtc_l; [eapply (w_call (mkRunning ctx f n []) [] run); [exact H1|simpl; by rewrite Hl]|]. simpl.
  eapply rtc_l; [eapply (w_call (mkRunning ctx f n [_]) [] run); [exact H2|simpl; by rewrite Hc]|]. simpl.
  apply rtc_once. eapply (w_return (mkRunning ctx f n [_; _]) [] run). exact H3.
Qed.

(** What a watchdog can cause is host-owned. A run that fails leaves the
    cursors as they were. A run that succeeds is the two steps of the shared
    store, and each of its proposals is on the runner's own node and program,
    for the input of this finding, with the action, the single destination
    and the data class that the host's binding fixes, private to the
    operator and ending with the finding's deadline; there is one per
    EXECUTE, before the deadline, and the cursor is past the finding. *)
Theorem run_finding_contained ctx f n s run returned :
  match running ctx f (n, s) with
  | (Err _, (_, s')) => s' = s
  | (Ok r, (_, s')) =>
      rtc wstep (mkWorld s run returned) (mkWorld s' run (returned ++ [(f, r)])) /\
      Finding_NodeID f = theNode /\
      (exists b, admittedBindings (Runner_bindingID runner) = Some b /\
         Forall (fun p => Proposal_ApplicationID p = "antiflock-nano" /\ Proposal_NodeID p = theNode /\ Proposal_ActionType p = PB_ActionType b /\
           Proposal_Destinations p = [PB_Destination b] /\ Proposal_DataClass p = PB_DataClass b /\
           Proposal_BindingID p = Runner_bindingID runner /\ Proposal_Sensitivity p = "SENSITIVITY_OPERATOR_PRIVATE" /\
           Proposal_ProgramDigest p = theDigest /\ Proposal_InputDigest p = Run_InputDigest r) (Run_Proposals r)) /\
      length (Run_Proposals r) = length (List.filter (fun x => negb (eqs (Emitted_Action x) "OBSERVE")) (Eval_Intents (Run_Evaluation r))) /\
      (Run_Proposals r <> [] -> (exists k, clock k < findingDeadline runner f) /\
         cursorAt s' theDigest theNode = mkCursor true (Finding_ObservedUnix f + intervalOf theProgram))
  end.
Proof.
  destruct (running ctx f (n, s)) as [[r|] [n' s']] eqn:E; [|by apply running_inv in E].
  pose proof E as (_ & Hnode & frame & next & k1 & k2 & k3 & Hf & Hd & Hl & He & Hc)%running_inv.
  pose proof He as (_ & Hev & Hb & Hclock)%evaluating_inv. pose proof Hc as [(_ & _ & Hs')|[? _]]%CAS_inv; [|done].
  unfold BuildProposals in Hb. destruct (admittedBindings _) as [b|]; [|done]. validated Hb. destruct (parseTime _) as [deadline|]; [|done].
  apply buildProposals_spec in Hb as [Hps Hlen]. split_and!; [| done | | done |].
  - by eapply running_steps.
  - exists b. split; [done|]. eapply Forall_impl; [exact Hps|]. intros p (? & ? & ? & ? & ? & ? & ? & ? & ? & ?). by split_and!.
  - intros Hne. assert (Eval_Intents (Run_Evaluation r) <> []) as Hi.
    { intros Hn. rewrite Hn in Hlen. simpl in Hlen. by destruct (Run_Proposals r). }
    split; [exists k1; auto|]. rewrite Hs', cursorAt_insert, decide_True by done.
    apply (evaluate_tick f frame) in Hev as [[? _]|(_ & -> & _)]; [done|done|by eapply frame_tick].
Qed.
End Watchdog.
Arguments world : clear implicits.

(** ** Concrete runs *)

Definition demo_format (v : float64) : string := if SFltb v float64_one then "0.9" else "1".
Definition demo_parse (s : string) : option time := Some (decimal (bytes_of s)).

Definition demo_frame (ts : list Z) (reason confidence : list float64) : Frame :=
  mkFrame ts (<[ "REASON_AF_DNS_UNPROTECTED" := reason ]> {[ "CONFIDENCE" := confidence ]}).

Definition high : float64 := roundRatio 9 10.

Definition demo_whole : Frame := demo_frame [1000; 1100; 1300] (repeat float64_one 3) (repeat high 3).
Definition demo_first : Frame := demo_frame [1000; 1100] (repeat float64_one 2) (repeat high 2).
Definition demo_second : Frame := demo_frame [1300] [float64_one] [high].

Definition demo_eval (frame : Frame) (c : Cursor) : EvaluationResult * Cursor :=
  match Evaluate demo_format demo_program frame c DefaultLimits with Ok r => r | Err _ => (mkEvaluation [] [] 0, c) end.

Lemma demo_nano_evaluates frame c : is_ok (Evaluate demo_format demo_program frame c DefaultLimits) = true ->
  Evaluate demo_format demo_program frame c DefaultLimits = Ok (fst (demo_eval frame c), snd (demo_eval frame c)).
Proof. unfold demo_eval. by destruct (Evaluate _ _ _ _ _) as [[r d]|]. Qed.

Lemma evaluate_exact_witness :
  map Emitted_Timestamp (Eval_Intents (fst (demo_eval demo_whole zeroCursor))) = [1000; 1000; 1300; 1300] /\
  len (Eval_Intents (fst (demo_eval demo_whole zeroCursor))) <= MaxOutputs DefaultLimits.
Proof.
  split; [vm_compute; reflexivity|].
  destruct (proj1 (evaluate_exact demo_format demo_program demo_whole zeroCursor DefaultLimits) _ _
    (demo_nano_evaluates demo_whole zeroCursor ltac:(vm_compute; reflexivity))) as (_ & _ & _ & _ & Ho). exact Ho.
Defined.

Lemma demo_joined : joined demo_first demo_second demo_whole.
Proof.
  split; [done|]. intros k. unfold demo_whole, demo_first, demo_second, demo_frame. simpl.
  destruct (decide (k = "REASON_AF_DNS_UNPROTECTED")) as [->|Hk]; [rewrite !lookup_insert_eq; split; [done|split; eauto]|].
  rewrite !lookup_insert_ne by done. destruct (decide (k = "CONFIDENCE")) as [->|Hc].
  - rewrite !lookup_singleton_eq. split; [done|split; eauto].
  - rewrite !lookup_singleton_ne by done. split; [done|split; intros [? ?]; done].
Qed.

Lemma evaluate_chunking_witness :
  Eval_Intents (fst (demo_eval demo_whole zeroCursor)) =
  Eval_Intents (fst (demo_eval demo_first zeroCursor)) ++ Eval_Intents (fst (demo_eval demo_second (snd (demo_eval demo_first zeroCursor)))).
Proof.
  apply (evaluate_chunking demo_format demo_program demo_first demo_second demo_whole zeroCursor DefaultLimits
    _ (snd (demo_eval demo_first zeroCursor)) _ (snd (demo_eval demo_second (snd (demo_eval demo_first zeroCursor))))
    _ (snd (demo_eval demo_whole zeroCursor))); [apply demo_joined|apply demo_nano_evaluates; vm_compute; reflexivity..].
Defined.

Definition demo_watchdog : Runner :=
  match @NewRunner sha256 (fun ir => Some (bytes_of (IR_Name ir))) demo_program "countermeasure-plan-v1" "node-1" (15 * Minute) with
  | Ok r => r
  | Err _ => mkRunner demo_program EmptyString EmptyString EmptyString 0
  end.

Definition demo_finding (observed : Z) : FindingContext := mkFinding "finding-1" "node-1" "AF-DNS-UNPROTECTED" high observed.

(** The database loses the answer of one swap, at tick 205. *)
Definition demo_sql (tick : nat) : bool := Nat.eqb tick 205.
Definition demo_time : clockT := fun _ => 2000 * Second.

Abbreviation demo_store := (StorageCursorStore_ops demo_time demo_sql).
Abbreviation demo_step :=
  (@wstep sha256 demo_format id pretty demo_parse demo_time demo_watchdog NanoCursors demo_store (StorageCursor_laws demo_time demo_sql)).

(** What happens in the demonstration: a run starts at a tick, or the run at a
    place takes its turn. *)
Inductive demo_event : Type := Started (observed : Z) (tick : nat) | Turn (i : nat).
Definition demo_next (w : world NanoCursors) (ev : demo_event) : world NanoCursors :=
  match ev with
  | Started observed tick => mkWorld (W_store w) (mkRunning Background (demo_finding observed) tick [] :: W_running w) (W_returned w)
  | Turn i => @turn sha256 demo_format id pretty demo_parse demo_time demo_watchdog NanoCursors demo_store i w
  end.

Lemma demo_happens events w : rtc demo_step w (foldl demo_next w events).
Proof.
  revert w. induction events as [|ev events IH]; intros w; [done|]. etrans; [|apply IH].
  destruct ev as [observed tick|i]; simpl; [apply rtc_once; destruct w; apply w_start|apply turn_steps].
Qed.

(** Two runs read the cursor before either replaces it: one wins, the other
    loses and fails. A third replaces it and its answer is lost; a fourth, in
    the interval of the third, finds nothing due; a fifth is past it. *)
Definition demo_raced : world NanoCursors := foldl demo_next (mkWorld (mkNanoCursors ∅) [] [])
  [Started 1600 100; Started 1500 0; Turn 0; Turn 1; Turn 0; Turn 1; Turn 1; Turn 0;
   Started 1800 200; Turn 0; Turn 0; Turn 0; Started 1900 300; Turn 0; Turn 0; Turn 0; Started 2200 400; Turn 0; Turn 0; Turn 0].

(** The instants of the findings returned for, and whether there was something
    to do. *)
Definition demo_fired (w : world NanoCursors) : list (Z * bool) :=
  map (fun x => (Finding_ObservedUnix (fst x), bool_decide (Eval_Intents (Run_Evaluation (snd x)) <> []))) (W_returned w).

Lemma demo_raced_happens : rtc demo_step (mkWorld (mkNanoCursors ∅) [] []) demo_raced.
Proof. unfold demo_raced. apply demo_happens. Qed.

Lemma demo_fires : demo_fired demo_raced = [(1500, true); (1900, false); (2200, true)].
Proof. vm_compute. reflexivity. Qed.

Lemma watchdog_once_witness :
  demo_fired demo_raced = [(1500, true); (1900, false); (2200, true)] /\ 1500 + intervalOf (Runner_program demo_watchdog) <= 2200.
Proof.
  assert (forall w, rtc demo_step (mkWorld (mkNanoCursors ∅) [] []) w -> demo_fired w = [(1500, true); (1900, false); (2200, true)] ->
    1500 + intervalOf (Runner_program demo_watchdog) <= 2200) as Hw.
  { intros w Hs Hmap. unfold demo_fired in Hmap. destruct (W_returned w) as [|[f r] [|x [|[f' r'] [|]]]] eqn:Hr; try discriminate Hmap.
    simpl in Hmap. injection Hmap as Hf Hi _ _ Hf' Hi'.
    destruct (@watchdog_once sha256 demo_format id pretty demo_parse demo_time demo_watchdog NanoCursors demo_store
      (StorageCursor_laws demo_time demo_sql) (mkWorld (mkNanoCursors ∅) [] []) w)
      with (i := 0%nat) (j := 2%nat) (f := f) (f' := f') (r := r) (r' := r') as [Hle _].
    - apply Z.leb_le. vm_compute. reflexivity.
    - reflexivity.
    - reflexivity.
    - exact Hs.
    - discriminate.
    - by rewrite Hr.
    - by rewrite Hr.
    - by apply bool_decide_eq_true in Hi.
    - by apply bool_decide_eq_true in Hi'.
    - assert (0 < intervalOf (Runner_program demo_watchdog)) by (apply Z.ltb_lt; vm_compute; reflexivity). lia. }
  exact (conj demo_fires (Hw demo_raced demo_raced_happens demo_fires)).
Defined.
