(* ===== verification/SanitizeFacts.v ===== *)
(** * Sanitizing: what is rendered is safe, and settled

    A rendering is a sequence of settled pieces: each classifies as itself,
    whatever follows it. From this follow the safety of the text and that
    rendering it again changes nothing. *)

From S2P Require Import Prelude Plan Sanitize.
From stdpp Require Import base gmap list strings sorting.
From Stdlib Require Import ZArith Lia.

Open Scope Z_scope.

Lemma len_app {A} (l k : list A) : len (l ++ k) = len l + len k.
Proof. unfold len. rewrite length_app. lia. Qed.
Lemma len_nonneg {A} (l : list A) : 0 <= len l.
Proof. unfold len. lia. Qed.
Lemma take_len_app {A} (l k : list A) : take (Z.to_nat (len l)) (l ++ k) = l.
Proof. unfold len. rewrite Nat2Z.id. apply take_app_length. Qed.
Lemma drop_len_app {A} (l k : list A) : drop (Z.to_nat (len l)) (l ++ k) = k.
Proof. unfold len. rewrite Nat2Z.id. apply drop_app_length. Qed.
Lemma len_dropZ n s : 0 <= n <= len s -> len (dropZ n s) = len s - n.
Proof. unfold len, dropZ. rewrite length_drop. lia. Qed.
Lemma len_takeZ {A} n (s : list A) : 0 <= n <= len s -> len (take (Z.to_nat n) s) = n.
Proof. unfold len. rewrite length_take. lia. Qed.

(** ** Sequences end within the text *)

Lemma spanOf_bound p s : 0 <= spanOf p s <= len s.
Proof. induction s as [|b r IH]; unfold len in *; simpl; [lia|]. case_match; lia. Qed.

Lemma finalOf_bound p s : 0 <= finalOf p s <= len s.
Proof. destruct s as [|b r]; unfold len; simpl; [lia|]. case_match; lia. Qed.

Lemma terminated_bound n : forall s, 0 <= terminated n s <= len s.
Proof.
  induction n as [|n IH]; intros [|b r]; unfold len in *; simpl; try lia. specialize (IH r).
  destruct r as [|c r]; simpl in *; repeat case_match; simplify_eq; simpl in *; try lia; rewrite ?andb_false_r in *; done.
Qed.

Lemma scanSequenceBody_bound raw i kind : 0 <= i <= len raw -> i <= scanSequenceBody raw i kind <= len raw.
Proof.
  intros Hi. unfold scanSequenceBody. pose proof (len_dropZ i raw Hi) as Hl. set (body := dropZ i raw) in *. case_match.
  - set (a := spanOf _ body). pose proof (spanOf_bound (inRange 0x30 0x3f) body) as Ha. fold a in Ha.
    pose proof (len_dropZ a body Ha) as Hla. set (b := spanOf _ (dropZ a body)). pose proof (spanOf_bound (inRange 0x20 0x2f) (dropZ a body)) as Hb. fold b in Hb.
    pose proof (finalOf_bound (inRange 0x40 0x7e) (dropZ (a + b) body)) as Hf. rewrite len_dropZ in Hf by lia. lia.
  - pose proof (terminated_bound (Z.to_nat maxSequenceBytes) body). lia.
Qed.

Lemma scanEscape_bound raw : raw <> [] -> 1 <= fst (scanEscape raw) <= len raw.
Proof.
  intros Hr. destruct raw as [|a [|b r]]; [done|unfold len; simpl; lia|].
  assert (2 <= len (a :: b :: r)) as H2 by (unfold len; simpl; lia).
  pose proof (spanOf_bound (inRange 0x20 0x2f) r) as Hs. pose proof (finalOf_bound (inRange 0x30 0x7e) (dropZ (spanOf (inRange 0x20 0x2f) r) r)) as Hf.
  rewrite len_dropZ in Hf by done. assert (len (a :: b :: r) = 2 + len r) as Hlen by (unfold len; simpl; lia).
  unfold scanEscape. repeat case_match; cbn [fst]; try lia;
    match goal with |- context [scanSequenceBody ?x ?i ?k] => pose proof (scanSequenceBody_bound x i k); lia end.
Qed.

(** ** Printable bytes *)

Definition printable (b : Z) : Prop := 0x20 <= b <= 0x7e.
Definition safeByte (asciiOnly : bool) (b : Z) : Prop := b = 10 \/ printable b \/ (asciiOnly = false /\ 0x80 <= b <= 0xff).

Lemma hexDigit_printable v : printable (hexDigit (v mod 16)).
Proof. unfold printable, hexDigit. pose proof (Z.mod_pos_bound v 16). case_match; lia. Qed.

Lemma hexPadded_printable w : forall v, Forall printable (hexPadded w v).
Proof. induction w as [|w IH]; intros v; simpl; [done|]. apply Forall_app. split; [apply IH|]. constructor; [apply hexDigit_printable|done]. Qed.

Lemma digits_printable fuel : forall v, 0 <= v -> Forall printable (decimalDigits fuel v).
Proof.
  induction fuel as [|fuel IH]; intros v Hv; simpl; [done|]. apply Forall_app. split; [case_match; [done|apply IH, Z.div_pos; lia]|].
  constructor; [|done]. unfold printable. pose proof (Z.mod_pos_bound v 10). lia.
Qed.

Lemma digits_len fuel : forall v, len (decimalDigits fuel v) <= Z.of_nat fuel.
Proof.
  induction fuel as [|fuel IH]; intros v; [unfold len; simpl; lia|]. cbn [decimalDigits]. rewrite len_app.
  assert (len (if v <? 10 then [] else decimalDigits fuel (v / 10)) <= Z.of_nat fuel) as Hl by (case_match; [unfold len; simpl; lia|apply IH]).
  unfold len in *. simpl in *. lia.
Qed.

Lemma escapeByte_printable b : Forall printable (escapeByte b).
Proof. unfold escapeByte. repeat (constructor; [unfold printable; lia|]). apply hexPadded_printable. Qed.

Lemma escapeRune_printable r : Forall printable (escapeRune r).
Proof. unfold escapeRune. repeat case_match; repeat (constructor; [unfold printable; lia|]); apply hexPadded_printable. Qed.

Lemma escapeRunes_printable fuel : forall s, Forall printable (escapeRunes fuel s).
Proof.
  induction fuel as [|fuel IH]; intros s; [done|]. cbn [escapeRunes]. destruct s as [|b s]; [done|]. destruct (decodeRune (b :: s)) as [r size].
  apply Forall_app. split; [|apply IH]. case_match; [apply escapeByte_printable|]. case_match eqn:Hp; [|apply escapeRune_printable].
  apply inRange_true in Hp. constructor; [exact Hp|done].
Qed.

Create HintDb sanitize.
#[local] Hint Resolve hexPadded_printable escapeByte_printable escapeRune_printable : sanitize.

Section Facts.
Context {U : UnicodeTables}.

(** ** Settled pieces *)

(** The runes that are rendered as they are. *)
Definition passes (asciiOnly : bool) (r : Z) : Prop :=
  0x20 <= r /\ r <> 0x7f /\ inRange 0x80 0x9f r = false /\ isBidiControl r = false /\ r <> 0x2028 /\ r <> 0x2029 /\ unicodeCf r = false /\
  (asciiOnly = true -> r < 0x80) /\ (0x80 <= r -> unicodeIsPrint r = true \/ unicodeZs r = true).

Lemma classify_pass asciiOnly raw r size : decodeRune raw = (r, size) -> r <> RuneError \/ size <> 1 -> passes asciiOnly r ->
  classify raw asciiOnly = (take (Z.to_nat size) raw, size, EmptyString).
Proof.
  intros Hd He (H1 & H2 & H3 & H4 & H5 & H6 & H7 & H8 & H9). unfold classify. rewrite Hd.
  replace ((r =? RuneError) && (size =? 1)) with false by (symmetry; apply andb_false_iff; destruct He; [left|right]; by apply Z.eqb_neq).
  repeat match goal with |- context [r =? ?n] => replace (r =? n) with false by (symmetry; apply Z.eqb_neq; lia) end.
  replace (r <? 0x20) with false by (symmetry; apply Z.ltb_ge; lia). rewrite H3, H4, H7. cbn [orb].
  replace (asciiOnly && (0x80 <=? r)) with false by (symmetry; destruct asciiOnly; [|done]; apply Z.leb_gt; auto).
  destruct (0x80 <=? r) eqn:Hr; [|done]. apply Z.leb_le in Hr. destruct (H9 Hr) as [-> | ->]; [done|]. by rewrite andb_false_r.
Qed.

(** A piece that classifies as itself wherever it stands. *)
Record settledPiece (asciiOnly : bool) (u : list Z) : Prop := {
  st_some : u <> [];
  st_self : forall rest, classify (u ++ rest) asciiOnly = (u, len u, EmptyString);
  st_safe : Forall (safeByte asciiOnly) u;
  st_utf8 : forall rest, validUTF8 (u ++ rest) = validUTF8 rest;
}.

Definition plain (asciiOnly : bool) (text : list Z) : Prop := exists us, text = concat us /\ Forall (settledPiece asciiOnly) us.

Lemma plain_app a s t : plain a s -> plain a t -> plain a (s ++ t).
Proof. intros (us & -> & Hu) (vs & -> & Hv). exists (us ++ vs). rewrite concat_app. split; [done|by apply Forall_app]. Qed.

Lemma plain_nil a : plain a [].
Proof. by exists []. Qed.

Lemma plain_settled a u : settledPiece a u -> plain a u.
Proof. intros Hu. exists [u]. simpl. rewrite app_nil_r. auto. Qed.

Lemma plain_concat a l : Forall (plain a) l -> plain a (concat l).
Proof. induction 1; simpl; [apply plain_nil|by apply plain_app]. Qed.

Lemma unicodeCf_ascii r : r < 0x80 -> unicodeCf r = false.
Proof.
  intros Hr. unfold unicodeCf, inRanges, formatRunes. apply not_true_iff_false. intros (p & Hp & Hb)%existsb_exists.
  repeat (destruct Hp as [<-|Hp]; [apply inRange_true in Hb; lia|]). done.
Qed.

Lemma isBidiControl_ascii r : r < 0x80 -> isBidiControl r = false.
Proof. intros Hr. unfold isBidiControl, inRange. rewrite !orb_false, !andb_false_iff, !Z.leb_gt, !Z.eqb_neq. lia. Qed.

Lemma passes_ascii a r : printable r -> passes a r.
Proof.
  intros Hr. unfold printable in Hr. repeat split; try lia; [apply inRange_false; lia|apply isBidiControl_ascii; lia|apply unicodeCf_ascii; lia].
Qed.

Lemma settled_ascii a b : printable b -> settledPiece a [b].
Proof.
  intros Hb. assert (forall rest, decodeRune (b :: rest) = (b, 1)) as Hd.
  { intros rest. simpl. unfold printable in Hb. by replace (b <? 0x80) with true by (symmetry; apply Z.ltb_lt; lia). }
  split; [done| |by constructor; [right; left|]|].
  - intros rest. cbn [app]. rewrite (classify_pass a (b :: rest) b 1); [done|done|left; unfold printable, RuneError in *; lia|by apply passes_ascii].
  - intros rest. simpl. unfold printable in Hb. by replace (b <? 0x80) with true by (symmetry; apply Z.ltb_lt; lia).
Qed.

Lemma settled_newline a : settledPiece a [10].
Proof. split; [done|done|by constructor; [left|]|done]. Qed.

Lemma plain_printable a l : Forall printable l -> plain a l.
Proof. induction 1 as [|b l Hb Hl IH]; [apply plain_nil|]. apply (plain_app a [b]); [by apply plain_settled, settled_ascii|done]. Qed.

#[local] Hint Resolve plain_printable plain_nil : sanitize.

Lemma low6_trail b : 0x80 <= b <= 0xbf -> low6 b = b - 0x80.
Proof. intros Hb. unfold low6. symmetry. apply (Z.mod_unique b 64 2); lia. Qed.

(** Comparisons whose outcome is known. *)
Ltac decideZ :=
  repeat match goal with
  | |- context [?x <=? ?y] => first [rewrite (proj2 (Z.leb_le x y)) by lia | rewrite (proj2 (Z.leb_gt x y)) by lia]
  | |- context [?x <? ?y] => first [rewrite (proj2 (Z.ltb_lt x y)) by lia | rewrite (proj2 (Z.ltb_ge x y)) by lia]
  | |- context [?x =? ?y] => first [rewrite (proj2 (Z.eqb_eq x y)) by lia | rewrite (proj2 (Z.eqb_neq x y)) by lia]
  end; cbn [andb orb negb].

(** The encoding of a rune that is not ASCII. *)
Lemma decodeRune_multi raw r size : decodeRune raw = (r, size) -> 2 <= size ->
  0x80 <= r /\ decodeRune (take (Z.to_nat size) raw) = (r, size) /\ Forall (fun b => 0x80 <= b <= 0xff) (take (Z.to_nat size) raw) /\
  forall rest, validUTF8 (take (Z.to_nat size) raw ++ rest) = validUTF8 rest.
Proof.
  intros Hd Hs. destruct raw as [|a [|b [|c [|d raw]]]]; cbn [decodeRune] in Hd; repeat case_match; simplify_eq; try lia;
    repeat match goal with
    | H : _ && _ = true |- _ => apply andb_true_iff in H as [? ?]
    | H : inRange _ _ _ = true |- _ => apply inRange_true in H
    | H : trail _ = true |- _ => apply inRange_true in H
    | H : (_ =? _) = true |- _ => apply Z.eqb_eq in H
    | H : (_ =? _) = false |- _ => apply Z.eqb_neq in H
    | H : (_ <? _) = true |- _ => apply Z.ltb_lt in H
    | H : (_ <? _) = false |- _ => apply Z.ltb_ge in H
    end.
  all: rewrite ?low6_trail by lia; split_and!; [lia|..].
  all: try intros rest; rewrite ?(eq_refl : Z.to_nat 2 = 2%nat), ?(eq_refl : Z.to_nat 3 = 3%nat), ?(eq_refl : Z.to_nat 4 = 4%nat).
  all: cbn [take app decodeRune validUTF8]; rewrite ?firstn_O; unfold cont, trail, inRange; try by (repeat constructor; lia).
  all: rewrite ?low6_trail by lia; decideZ; done.
Qed.

Lemma settled_multi a raw r size : decodeRune raw = (r, size) -> 2 <= size -> passes a r -> settledPiece a (take (Z.to_nat size) raw).
Proof.
  intros Hd Hs Hp. destruct (decodeRune_multi raw r size Hd Hs) as (Hr & Ht & Hb & Hu).
  assert (len (take (Z.to_nat size) raw) = size) as Hl.
  { apply len_takeZ. pose proof (decodeRune_size raw) as Hsize. rewrite Hd in Hsize. cbn [snd] in Hsize.
    destruct raw as [|x raw]; [cbn in Hd; simplify_eq; lia|]. specialize (Hsize ltac:(done)). lia. }
  split; [by intros E; rewrite E in Hl; unfold len in Hl; simpl in Hl; lia| | |exact Hu].
  - intros rest. rewrite (classify_pass a _ r size); [|apply decodeRune_app; [done|lia..]|lia|done].
    rewrite Hl. by rewrite <- Hl at 1; rewrite take_len_app.
  - eapply Forall_impl; [exact Hb|]. intros b Hbb. right; right. split; [|done]. destruct a; [|done]. destruct Hp as (_ & _ & _ & _ & _ & _ & _ & Hp & _).
    specialize (Hp eq_refl). lia.
Qed.

(** Whatever a string begins with, the piece it is rendered as is settled,
    and the input moves on. *)
Lemma classify_spec a raw : raw <> [] ->
  let '(piece, size, kind) := classify raw a in plain a piece /\ 1 <= size <= len raw.
Proof.
  intros Hraw. pose proof (decodeRune_size raw Hraw) as Hsize. pose proof (scanEscape_bound raw Hraw) as Hesc.
  assert (1 <= len raw) as Hone by lia.
  unfold classify. destruct (decodeRune raw) as [r size] eqn:Hd. cbn [snd] in Hsize.
  destruct ((r =? RuneError) && (size =? 1)) eqn:Hinvalid; [split; [auto with sanitize|done]|].
  destruct (r =? 10) eqn:H10; [split; [apply plain_settled, settled_newline|done]|].
  destruct (r =? 13) eqn:H13.
  { destruct (startsWith 10 (dropZ 1 raw)) eqn:Hlf; [|split; [auto with sanitize|done]].
    split; [apply plain_settled, settled_newline|]. destruct raw as [|x [|y raw]]; [done|done|unfold len; simpl; lia]. }
  destruct (r =? 0) eqn:H0; [split; [auto with sanitize|done]|].
  destruct (r =? 0x1b) eqn:H1b.
  { destruct (scanEscape raw) as [length kind]. split; [|done]. apply plain_printable, escapeRunes_printable. }
  destruct (r <? 0x20) eqn:H20; [split; [auto with sanitize|done]|].
  destruct (r =? 0x7f) eqn:H7f; [split; [auto with sanitize|done]|].
  destruct (inRange 0x80 0x9f r) eqn:Hc1.
  { destruct (c1Introducer r) as [kind|]; [|split; [auto with sanitize|done]].
    pose proof (scanSequenceBody_bound raw size kind ltac:(lia)). split; [apply plain_printable, escapeRunes_printable|lia]. }
  destruct (isBidiControl r) eqn:Hbidi; [split; [auto with sanitize|done]|].
  destruct ((r =? 0x2028) || (r =? 0x2029)) eqn:Hsep; [split; [auto with sanitize|done]|].
  destruct (unicodeCf r) eqn:Hcf; [split; [auto with sanitize|done]|].
  destruct (a && (0x80 <=? r)) eqn:Ha; [split; [auto with sanitize|done]|].
  destruct ((0x80 <=? r) && negb (unicodeIsPrint r) && negb (unicodeZs r)) eqn:Hp; [split; [auto with sanitize|done]|].
  split; [|done]. apply Z.ltb_ge in H20. apply Z.eqb_neq in H7f. apply orb_false in Hsep as [Hs1%Z.eqb_neq Hs2%Z.eqb_neq].
  assert (passes a r) as Hpass.
  { split_and!; try done; [by intros ->; simpl in Ha; apply Z.leb_gt in Ha|]. intros Hr%Z.leb_le. rewrite Hr in Hp.
    destruct (unicodeIsPrint r), (unicodeZs r); simpl in Hp; auto; done. }
  apply plain_settled. destruct (decide (size = 1)) as [->|]; [|apply (settled_multi a raw r); [done|lia|done]].
  destruct raw as [|b raw]; [done|]. cbn [decodeRune] in Hd. destruct (b <? 0x80) eqn:Hb.
  - simplify_eq. simpl. apply settled_ascii. apply Z.ltb_lt in Hb. unfold printable. lia.
  - exfalso. repeat case_match; simplify_eq; by rewrite Z.eqb_refl in Hinvalid.
Qed.

(** ** The units of a string *)

Abbreviation unit_ := (list Z * Z * string)%type.
Definition unitPiece (u : unit_) : list Z := fst (fst u).
Definition unitSize (u : unit_) : Z := snd (fst u).
Definition unitKind (u : unit_) : string := snd u.

Fixpoint unitsIn (fuel : nat) (a : bool) (raw : list Z) : list unit_ :=
  match fuel, raw with
  | S fuel, _ :: _ => classify raw a :: unitsIn fuel a (dropZ (unitSize (classify raw a)) raw)
  | _, _ => []
  end.
Definition units (a : bool) (raw : list Z) : list unit_ := unitsIn (length raw) a raw.

Lemma classify_moves a b raw : let n := length (dropZ (unitSize (classify (b :: raw) a)) (b :: raw)) in (n <= length raw)%nat /\
  len (b :: raw) = unitSize (classify (b :: raw) a) + Z.of_nat n.
Proof.
  pose proof (classify_spec a (b :: raw) ltac:(done)) as Hc. unfold unitSize. destruct (classify (b :: raw) a) as [[piece size] kind].
  destruct Hc as [_ Hc]. cbn [fst snd]. pose proof (len_dropZ size (b :: raw) ltac:(lia)) as Hl. unfold len in *. simpl in *. lia.
Qed.

Lemma unitsIn_enough fuel : forall a raw, (length raw <= fuel)%nat -> unitsIn fuel a raw = units a raw.
Proof.
  assert (forall n m a raw, (length raw <= n)%nat -> (length raw <= m)%nat -> unitsIn n a raw = unitsIn m a raw) as Hind.
  { induction n as [|n IH]; intros m a raw Hn Hm; [by destruct raw; simpl in *; destruct m; try done; lia|].
    destruct raw as [|b raw]; [by destruct m|]. destruct m as [|m]; [simpl in Hm; lia|]. cbn [unitsIn]. f_equal.
    destruct (classify_moves a b raw) as [Hmove _]. simpl in *. apply IH; lia. }
  intros a raw Hf. by apply Hind.
Qed.

Lemma units_cons a b raw : units a (b :: raw) = classify (b :: raw) a :: units a (dropZ (unitSize (classify (b :: raw) a)) (b :: raw)).
Proof.
  unfold units at 1. cbn [length unitsIn]. f_equal. apply unitsIn_enough. apply classify_moves.
Qed.

Lemma length_ind (P : list Z -> Prop) : (forall raw, (forall raw', (length raw' < length raw)%nat -> P raw') -> P raw) -> forall raw, P raw.
Proof. intros Hstep raw. apply (induction_ltof1 _ (@length Z)). exact Hstep. Qed.

Lemma units_plain a : forall raw, Forall (fun u => plain a (unitPiece u) /\ 1 <= unitSize u) (units a raw).
Proof.
  apply length_ind. intros [|b raw] IH; [by constructor|]. rewrite units_cons. constructor.
  - pose proof (classify_spec a (b :: raw) ltac:(done)) as Hc. unfold unitPiece, unitSize. destruct (classify (b :: raw) a) as [[piece size] kind]. simpl. split; [apply Hc|lia].
  - apply IH. destruct (classify_moves a b raw). simpl. lia.
Qed.

Definition sizes (us : list unit_) : Z := foldr (fun u n => unitSize u + n) 0 us.

Lemma units_sizes a : forall raw, sizes (units a raw) = len raw.
Proof.
  apply length_ind. intros [|b raw] IH; [done|]. rewrite units_cons. destruct (classify_moves a b raw) as [Hm Hl]. cbn [sizes foldr].
  change (unitSize (classify (b :: raw) a) + sizes (units a (dropZ (unitSize (classify (b :: raw) a)) (b :: raw))) = len (b :: raw)).
  rewrite IH by (simpl; lia). unfold len at 1. lia.
Qed.

(** The loop is a fold over the units: it needs no more fuel than bytes. *)
Lemma renderLoop_units a strip limit budget : forall raw fuel s, (length raw <= fuel)%nat ->
  renderLoop fuel a strip limit budget raw s = Ok (foldl (fun s u => renderTurn strip limit budget u s) s (units a raw)).
Proof.
  apply (length_ind (fun raw => forall fuel s, (length raw <= fuel)%nat -> _)). intros raw IH fuel s Hf. destruct raw as [|b raw]; [by destruct fuel|].
  destruct fuel as [|fuel]; [simpl in Hf; lia|]. rewrite units_cons. cbn [renderLoop foldl]. destruct (classify_moves a b raw) as [Hm _].
  apply IH; simpl in *; lia.
Qed.

(** ** What the loop leaves *)

Section Pass.
Context (strip : bool).

Definition pieceOf (u : unit_) : list Z := if negb (eqs (unitKind u) EmptyString) && strip then [] else unitPiece u.
Definition textOf (us : list unit_) : list Z := concat (map pieceOf us).

(** The longest run of units from the start within a number of bytes. *)
Fixpoint within (b : Z) (us : list unit_) : list unit_ :=
  match us with
  | u :: r => if len (pieceOf u) <=? b then u :: within (b - len (pieceOf u)) r else []
  | [] => []
  end.

Lemma textOf_app us vs : textOf (us ++ vs) = textOf us ++ textOf vs.
Proof. unfold textOf. by rewrite map_app, concat_app. Qed.
Lemma textOf_one u : textOf [u] = pieceOf u.
Proof. unfold textOf. simpl. apply app_nil_r. Qed.
Lemma textOf_cons u us : textOf (u :: us) = pieceOf u ++ textOf us.
Proof. done. Qed.

Lemma sizes_app us vs : sizes (us ++ vs) = sizes us + sizes vs.
Proof. unfold sizes. induction us as [|u us IH]; simpl; lia. Qed.

Lemma within_all us : forall b, len (textOf us) <= b -> within b us = us.
Proof.
  induction us as [|u us IH]; intros b Hb; [done|]. rewrite textOf_cons, len_app in Hb. pose proof (len_nonneg (textOf us)). simpl.
  replace (len (pieceOf u) <=? b) with true by (symmetry; apply Z.leb_le; lia). by rewrite IH by lia.
Qed.

Lemma within_snoc us u : forall b, within b (us ++ [u]) =
  if len (textOf us) <=? b then (if len (textOf us) + len (pieceOf u) <=? b then us ++ [u] else us) else within b us.
Proof.
  induction us as [|v us IH]; intros b.
  - cbn [within app]. change (len (textOf [])) with 0. rewrite Z.add_0_l. pose proof (len_nonneg (pieceOf u)).
    destruct (Z.leb_spec (len (pieceOf u)) b); [by rewrite (proj2 (Z.leb_le _ _)) by lia|by case_match].
  - rewrite textOf_cons, len_app. pose proof (len_nonneg (textOf us)) as Hn. pose proof (len_nonneg (pieceOf u)). cbn [within app]. rewrite IH.
    destruct (len (pieceOf v) <=? b) eqn:Hv.
    + replace (len (textOf us) <=? b - len (pieceOf v)) with (len (pieceOf v) + len (textOf us) <=? b) by (apply eq_true_iff_eq; rewrite !Z.leb_le; lia).
      replace (len (textOf us) + len (pieceOf u) <=? b - len (pieceOf v)) with (len (pieceOf v) + len (textOf us) + len (pieceOf u) <=? b)
        by (apply eq_true_iff_eq; rewrite !Z.leb_le; lia). by repeat case_match.
    + apply Z.leb_gt in Hv. by rewrite (proj2 (Z.leb_gt _ _)) by lia.
Qed.

Lemma within_prefix us : forall b, exists rest, us = within b us ++ rest.
Proof. induction us as [|u us IH]; intros b; [by exists []|]. simpl. case_match; [|by exists (u :: us)]. destruct (IH (b - len (pieceOf u))) as [rest Hr]. exists rest. simpl. by f_equal. Qed.

Lemma within_len us : forall b, 0 <= b -> len (textOf (within b us)) <= b.
Proof.
  induction us as [|u us IH]; intros b Hb; [done|]. simpl. destruct (len (pieceOf u) <=? b) eqn:Hu; [|done]. apply Z.leb_le in Hu.
  rewrite textOf_cons, len_app. specialize (IH (b - len (pieceOf u)) ltac:(lia)). lia.
Qed.

(** A smaller bound keeps less. *)
Lemma within_mono us : forall b c, b <= c -> exists rest, within c us = within b us ++ rest.
Proof.
  induction us as [|u us IH]; intros b c Hbc; [by exists []|]. simpl. destruct (len (pieceOf u) <=? b) eqn:Hb; [|by eexists].
  apply Z.leb_le in Hb. rewrite (proj2 (Z.leb_le _ c)) by lia. destruct (IH (b - len (pieceOf u)) (c - len (pieceOf u)) ltac:(lia)) as [rest Hr].
  exists rest. simpl. by rewrite Hr.
Qed.

Definition hostileTaint (us : list unit_) : Z :=
  foldl (fun t u => if negb (eqs (unitKind u) EmptyString) then Z.lor t (kindTaint (unitKind u)) else t) 0 us.

Definition kindCounts (us : list unit_) : gmap string Z :=
  foldl (fun m u => if negb (eqs (unitKind u) EmptyString) then <[unitKind u := default 0 (m !! unitKind u) + 1]> m else m) ∅ us.

Record rendered (limit budget : Z) (us : list unit_) (s : renderState) : Prop := {
  rd_index : R_index s = sizes us;
  rd_out : R_out s = textOf (within limit us);
  rd_appending : R_appending s = (len (textOf us) <=? limit);
  rd_cuts : (R_cutOut s, R_cutIn s) = if len (textOf us) <=? budget then (-1, -1) else (len (textOf (within budget us)), sizes (within budget us));
  rd_taint : R_taint s = hostileTaint us;
  rd_counts : R_counts s = kindCounts us;
}.

Lemma render_fold limit budget us : 0 <= budget <= limit -> rendered limit budget us (foldl (fun s u => renderTurn strip limit budget u s) renderStart us).
Proof.
  intros Hb. induction us as [|u us IH] using rev_ind.
  - split; cbn -[Z.leb]; try done; unfold textOf, len; cbn -[Z.leb]; by rewrite (proj2 (Z.leb_le _ _)) by lia.
  - rewrite foldl_snoc. set (s := foldl _ _ us) in *. destruct IH as [Hindex Hout Happ Hcuts Htaint Hcounts].
    assert (len (R_out s) = if R_appending s then len (textOf us) else len (R_out s)) as Hlen.
    { rewrite Happ. destruct (Z.leb_spec (len (textOf us)) limit) as [Hl|]; [|done]. by rewrite Hout, within_all. }
    pose proof (len_nonneg (pieceOf u)) as Hp. pose proof (len_nonneg (textOf us)) as Ht.
    destruct u as [[piece size] kind].
    assert (renderTurn strip limit budget (piece, size, kind) s =
      mkRender (R_index s + size) (if R_appending s && (len (R_out s) + len (pieceOf (piece, size, kind)) <=? limit) then R_out s ++ pieceOf (piece, size, kind) else R_out s)
        (if negb (eqs kind EmptyString) then <[kind := default 0 (R_counts s !! kind) + 1]> (R_counts s) else R_counts s)
        (if negb (eqs kind EmptyString) then Z.lor (R_taint s) (kindTaint kind) else R_taint s)
        (R_appending s && (len (R_out s) + len (pieceOf (piece, size, kind)) <=? limit))
        (fst (if R_appending s && (R_cutOut s <? 0) && (budget <? len (R_out s) + len (pieceOf (piece, size, kind))) then (len (R_out s), R_index s) else (R_cutOut s, R_cutIn s)))
        (snd (if R_appending s && (R_cutOut s <? 0) && (budget <? len (R_out s) + len (pieceOf (piece, size, kind))) then (len (R_out s), R_index s) else (R_cutOut s, R_cutIn s))))
      as -> by done.
    set (u := (piece, size, kind)) in *. rewrite Happ, Hlen, Hindex, Htaint, Hcounts. rewrite Happ. clear Hlen.
    split; cbn [R_index R_out R_counts R_taint R_appending R_cutOut R_cutIn]; rewrite ?textOf_app, ?textOf_one, ?len_app.
    + rewrite sizes_app. unfold sizes. simpl. fold (unitSize u). change (unitSize u) with size. lia.
    + rewrite within_snoc, Hout. destruct (len (textOf us) <=? limit) eqn:Hl; [|done]. cbn [andb]. apply Z.leb_le in Hl. rewrite within_all by done.
      destruct (len (textOf us) + len (pieceOf u) <=? limit); [by rewrite textOf_app, textOf_one|done].
    + destruct (len (textOf us) <=? limit) eqn:Hl; cbn [andb]; [done|]. apply Z.leb_gt in Hl. symmetry. apply Z.leb_gt. lia.
    + rewrite <- surjective_pairing, within_snoc. destruct (len (textOf us) <=? budget) eqn:Hbudget.
      * injection Hcuts as -> ->. apply Z.leb_le in Hbudget. rewrite (proj2 (Z.leb_le _ limit)) by lia. cbn [andb Z.ltb Z.compare].
        destruct (budget <? len (textOf us) + len (pieceOf u)) eqn:Hcut.
        -- apply Z.ltb_lt in Hcut. by rewrite !(proj2 (Z.leb_gt _ _)) by lia.
        -- apply Z.ltb_ge in Hcut. by rewrite (proj2 (Z.leb_le _ _)) by lia.
      * apply Z.leb_gt in Hbudget. injection Hcuts as HcutOut HcutIn. pose proof (len_nonneg (textOf (within budget us))) as Hn.
        rewrite (proj2 (Z.ltb_ge (R_cutOut s) 0)) by lia. rewrite andb_false_r. cbn [andb]. rewrite (proj2 (Z.leb_gt _ budget)) by lia. by rewrite HcutOut, HcutIn.
    + unfold hostileTaint. by rewrite foldl_snoc.
    + unfold kindCounts. by rewrite foldl_snoc.
Qed.
End Pass.

(** ** Rendering *)

Definition validMode (policy : RenderPolicy) : Prop := RP_Mode policy = RenderEscape \/ RP_Mode policy = RenderStrip.
Definition stripOf (policy : RenderPolicy) : bool := RP_Mode policy =? RenderStrip.

Lemma renderLimit_min policy : MinMaxBytes <= renderLimit policy.
Proof. unfold renderLimit. case_match eqn:H; [done|]. by apply Z.ltb_ge in H. Qed.

Definition capTaint (raw : list Z) (limit taint : Z) : Z := if limit <? len raw then Z.lor taint TaintOversized else taint.
Definition sortedCounts (us : list unit_) : list ShapeCount :=
  merge_sort shape_le (map (fun '(kind, count) => mkShape kind count) (map_to_list (kindCounts us))).

(** What a valid policy answers: everything, or the longest run of units that
    leaves room for the marker. *)
Lemma Render_eq raw policy : validMode policy ->
  let us := units (RP_ASCIIOnly policy) raw in let limit := renderLimit policy in let kept := within (stripOf policy) (limit - markerReserve) us in
  Render raw policy = Ok
    (if len (textOf (stripOf policy) us) <=? limit
     then mkRendered (textOf (stripOf policy) us) (capTaint raw limit (hostileTaint us)) (sortedCounts us) (len raw) 0
     else mkRendered (textOf (stripOf policy) kept ++ truncationMarker (len raw - sizes kept) (RP_ASCIIOnly policy))
            (Z.lor (capTaint raw limit (hostileTaint us)) TaintTruncated) (sortedCounts us) (len raw) (len raw - sizes kept)).
Proof.
  intros Hmode us limit kept. unfold Render.
  replace (negb (RP_Mode policy =? RenderEscape) && negb (RP_Mode policy =? RenderStrip)) with false by (destruct Hmode as [-> | ->]; done).
  fold (stripOf policy) limit. pose proof (renderLimit_min policy) as Hmin. fold limit in Hmin. unfold MinMaxBytes in Hmin.
  assert (0 <= limit - markerReserve <= limit) as Hbudget by (unfold markerReserve; lia).
  rewrite renderLoop_units by done. cbn [rbind]. fold us. destruct (render_fold (stripOf policy) limit (limit - markerReserve) us Hbudget) as [_ Hout Happ Hcuts Htaint Hcounts].
  unfold renderResult. rewrite Happ, Htaint, Hcounts. destruct (Z.leb_spec (len (textOf (stripOf policy) us)) limit) as [Hfits|Hlong].
  - by rewrite Hout, within_all.
  - rewrite (proj2 (Z.leb_gt _ (limit - markerReserve))) in Hcuts by lia. injection Hcuts as HcutOut HcutIn.
    fold kept in HcutOut, HcutIn. pose proof (len_nonneg (textOf (stripOf policy) kept)). rewrite (proj2 (Z.ltb_ge (R_cutOut _) 0)) by lia.
    cbn [fst snd]. rewrite HcutOut, HcutIn, Hout. destruct (within_mono (stripOf policy) us (limit - markerReserve) limit ltac:(lia)) as [rest ->].
    fold kept. by rewrite textOf_app, take_len_app.
Qed.

Lemma plain_textOf a strip us : Forall (fun u => plain a (unitPiece u) /\ 1 <= unitSize u) us -> plain a (textOf strip us).
Proof.
  intros Hus. apply plain_concat, Forall_map. eapply Forall_impl; [exact Hus|]. intros u [Hu _]. unfold pieceOf. case_match; [apply plain_nil|done].
Qed.

Lemma sizes_nonneg a us : Forall (fun u => plain a (unitPiece u) /\ 1 <= unitSize u) us -> 0 <= sizes us.
Proof. induction 1 as [|u us [_ Hu] _ IH]; simpl; [lia|]. unfold sizes in *. simpl. lia. Qed.

Lemma truncationMarker_plain dropped a : 0 <= dropped -> plain a (truncationMarker dropped a).
Proof.
  intros Hd. unfold truncationMarker. apply plain_app.
  - destruct a; [apply plain_printable, escapeRune_printable|]. apply plain_settled.
    refine (settled_multi false [0xe2; 0x80; 0xa6] 0x2026 3 eq_refl _ _); [lia|]. split_and!; try done. intros _. left. exact unicode_ellipsis.
  - apply plain_printable. apply Forall_app. split; [repeat (constructor; [unfold printable; vm_compute; split; discriminate|]); done|].
    apply Forall_app. split; [by apply digits_printable|]. repeat (constructor; [unfold printable; vm_compute; split; discriminate|]); done.
Qed.

Lemma truncationMarker_len dropped a : len (truncationMarker dropped a) <= markerReserve.
Proof.
  unfold truncationMarker. rewrite !len_app. pose proof (digits_len 20 dropped) as Hd. fold (Itoa dropped) in Hd.
  assert (len (if a then escapeRune 0x2026 else [0xe2; 0x80; 0xa6]) <= 6) as Hm by (destruct a; vm_compute; discriminate).
  change (len (bytes_of "[truncated ")) with 11. change (len (bytes_of " bytes]")) with 7. unfold markerReserve. lia.
Qed.

(** A rendering is plain and within the limit. *)
Lemma Render_plain raw policy r : validMode policy -> Render raw policy = Ok r ->
  plain (RP_ASCIIOnly policy) (Rendered_Text r) /\ len (Rendered_Text r) <= renderLimit policy.
Proof.
  intros Hmode. rewrite (Render_eq raw policy Hmode). intros E. injection E as <-. pose proof (renderLimit_min policy) as Hmin. unfold MinMaxBytes in Hmin.
  set (us := units _ raw). pose proof (units_plain (RP_ASCIIOnly policy) raw) as Hus. fold us in Hus.
  destruct (Z.leb_spec (len (textOf (stripOf policy) us)) (renderLimit policy)) as [Hfits|Hlong]; cbn [Rendered_Text]; [split; [by apply plain_textOf|done]|].
  set (kept := within _ _ us). destruct (within_prefix (stripOf policy) us (renderLimit policy - markerReserve)) as [rest Hrest]. fold kept in Hrest.
  pose proof Hus as Hall. rewrite Hrest in Hall. apply Forall_app in Hall as [Hkept Hleft].
  assert (0 <= len raw - sizes kept) as Hdropped.
  { rewrite <- (units_sizes (RP_ASCIIOnly policy) raw). fold us. rewrite Hrest, sizes_app. pose proof (sizes_nonneg _ rest Hleft). lia. }
  split; [apply plain_app; [by apply plain_textOf|by apply truncationMarker_plain]|]. rewrite len_app.
  pose proof (truncationMarker_len (len raw - sizes kept) (RP_ASCIIOnly policy)).
  pose proof (within_len (stripOf policy) us (renderLimit policy - markerReserve) ltac:(unfold markerReserve; lia)) as Hl. fold kept in Hl. lia.
Qed.

(** ** Plain text *)

Lemma plain_units a us : Forall (settledPiece a) us -> units a (concat us) = map (fun u => (u, len u, EmptyString)) us.
Proof.
  induction 1 as [|u us Hu Hus IH]; [done|]. destruct Hu as [Hsome Hself _ _]. cbn [concat map]. destruct u as [|b u]; [done|].
  change ((b :: u) ++ concat us) with (b :: (u ++ concat us)). rewrite units_cons. change (b :: (u ++ concat us)) with ((b :: u) ++ concat us).
  rewrite Hself. unfold unitSize. cbn [fst snd]. f_equal. rewrite <- IH. f_equal. apply drop_len_app.
Qed.

Lemma quiet_units strip us : let vs := map (fun u => (u, len u, EmptyString)) us in
  textOf strip vs = concat us /\ hostileTaint vs = 0 /\ kindCounts vs = ∅.
Proof.
  split_and!; unfold textOf, hostileTaint, kindCounts.
  - f_equal. rewrite map_map. apply map_id.
  - induction us as [|u us IH]; [done|exact IH].
  - induction us as [|u us IH]; [done|exact IH].
Qed.

Lemma Render_of_plain text policy : validMode policy -> plain (RP_ASCIIOnly policy) text -> len text <= renderLimit policy ->
  Render text policy = Ok (mkRendered text 0 [] (len text) 0).
Proof.
  intros Hmode (us & -> & Hus) Hlen. rewrite (Render_eq (concat us) policy Hmode), (plain_units _ us Hus).
  destruct (quiet_units (stripOf policy) us) as (Ht & Hh & Hk). rewrite Ht, Hh. rewrite (proj2 (Z.leb_le _ _)) by done.
  unfold capTaint, sortedCounts. rewrite Hk, map_to_list_empty. by rewrite (proj2 (Z.ltb_ge _ _)) by done.
Qed.

Lemma plain_safe a text : plain a text -> Forall (safeByte a) text /\ validUTF8 text = true.
Proof.
  intros (us & -> & Hus). induction Hus as [|u us [_ _ Hsafe Hutf8] _ [IHs IHu]]; [done|]. simpl. split; [by apply Forall_app|by rewrite Hutf8].
Qed.

(** ** Classification and runes *)

Lemma validUTF8_decode s : s <> [] -> validUTF8 s = negb ((fst (decodeRune s) =? RuneError) && (snd (decodeRune s) =? 1)) && validUTF8 (dropZ (snd (decodeRune s)) s).
Proof.
  intros Hs. pose proof (decodeRune_size s Hs) as Hsize. destruct (decodeRune s) as [r size] eqn:Hd. cbn [fst snd] in *.
  destruct (decide (2 <= size)) as [H2|H2].
  - destruct (decodeRune_multi s r size Hd H2) as (_ & _ & _ & Hu). rewrite <- (take_drop (Z.to_nat size) s) at 1. rewrite Hu.
    rewrite (proj2 (Z.eqb_neq size 1)) by lia. by rewrite andb_false_r.
  - assert (size = 1) as -> by lia. rewrite andb_true_r. unfold dropZ. change (Z.to_nat 1) with 1%nat. destruct s as [|b s]; [done|]. cbn [drop].
    destruct (b <? 0x80) eqn:Hb.
    + cbn [decodeRune validUTF8] in *. rewrite Hb in *. simplify_eq. apply Z.ltb_lt in Hb. unfold RuneError. by rewrite (proj2 (Z.eqb_neq _ _)) by lia.
    + assert (r = RuneError) as ->.
      { cbn [decodeRune] in Hd. rewrite Hb in Hd. repeat case_match; simplify_eq; done. }
      rewrite Z.eqb_refl. cbn [negb andb]. destruct s as [|c [|d [|e s]]]; cbn [decodeRune validUTF8] in *; rewrite Hb in *; unfold cont, inRange, trail, inRange in *;
        repeat case_match; simplify_eq; try done; try (by rewrite ?andb_false_r).
Qed.

Lemma runes_cons b s : runes (b :: s) = fst (decodeRune (b :: s)) :: runes (dropZ (snd (decodeRune (b :: s))) (b :: s)).
Proof.
  assert (forall n m s, (length s <= n)%nat -> (length s <= m)%nat -> runesIn n s = runesIn m s) as Hind.
  { induction n as [|n IH]; intros m t Hn Hm; [by destruct t; simpl in *; destruct m; try done; lia|]. destruct t as [|c t]; [by destruct m|].
    destruct m as [|m]; [simpl in Hm; lia|]. pose proof (decodeRune_size (c :: t) ltac:(done)) as Hsize. cbn [runesIn]. destruct (decodeRune (c :: t)) as [r size].
    f_equal. cbn [snd] in Hsize. apply IH; rewrite length_drop; unfold len in *; simpl in *; lia. }
  unfold runes. cbn [length runesIn]. pose proof (decodeRune_size (b :: s) ltac:(done)) as Hsize. destruct (decodeRune (b :: s)) as [r size]. cbn [fst snd] in *.
  f_equal. apply Hind; unfold dropZ; rewrite ?length_drop; unfold len in *; simpl in *; lia.
Qed.

(** The runes no kind of finding is about. *)
Definition harmless (r : Z) : bool :=
  (r =? 10) || ((0x20 <=? r) && negb (r =? 0x7f) && negb (inRange 0x80 0x9f r) && negb (isBidiControl r) && negb ((r =? 0x2028) || (r =? 0x2029)) && negb (unicodeCf r)).
Fixpoint cleanRunes (rs : list Z) : bool :=
  match rs with
  | [] => true
  | r :: rest =>
      if r =? 13 then match rest with n :: rest => (n =? 10) && cleanRunes rest | [] => false end
      else harmless r && cleanRunes rest
  end.

Lemma scanEscape_kind raw : snd (scanEscape raw) <> EmptyString.
Proof. unfold scanEscape. by repeat case_match. Qed.
Lemma c1Introducer_kind r kind : c1Introducer r = Some kind -> kind <> EmptyString.
Proof. unfold c1Introducer. intros ?. by repeat case_match; simplify_eq. Qed.

(** A unit without a finding is a harmless rune or a CRLF; and its kind and
    its size do not depend on the policy. *)
Lemma classify_quiet a raw : raw <> [] ->
  let '(r, size) := decodeRune raw in
  if (r =? 13) && startsWith 10 (dropZ 1 raw) then unitSize (classify raw a) = 2 /\ unitKind (classify raw a) = EmptyString
  else if negb ((r =? RuneError) && (size =? 1)) && harmless r then unitSize (classify raw a) = size /\ unitKind (classify raw a) = EmptyString
  else unitKind (classify raw a) <> EmptyString /\ unitSize (classify raw a) = unitSize (classify raw false) /\ unitKind (classify raw a) = unitKind (classify raw false).
Proof.
  intros Hraw. unfold classify. pose proof (decodeRune_size raw Hraw) as Hsize. pose proof (scanEscape_kind raw) as Hesc. destruct (decodeRune raw) as [r size] eqn:Hd.
  assert (r < 0x80 -> (r =? RuneError) && (size =? 1) = false -> size = 1) as Hone.
  { intros Hr _. destruct (decide (2 <= size)) as [H2|]; [|simpl in Hsize; lia]. destruct (decodeRune_multi raw r size Hd H2). lia. }
  unfold harmless, unitSize, unitKind. destruct ((r =? RuneError) && (size =? 1)) eqn:Hinv.
  { apply andb_true_iff in Hinv as [->%Z.eqb_eq ->%Z.eqb_eq]. done. }
  cbn [negb andb]. destruct (r =? 10) eqn:H10; [apply Z.eqb_eq in H10 as ->; cbn [Z.eqb Pos.eqb andb orb fst snd]; by rewrite Hone|].
  destruct (r =? 13) eqn:H13.
  { apply Z.eqb_eq in H13 as ->. cbn [andb]. destruct (startsWith 10 (dropZ 1 raw)); done. }
  cbn [andb orb]. destruct (r =? 0) eqn:H0; [by apply Z.eqb_eq in H0 as ->|].
  destruct (r =? 0x1b) eqn:H1b; [apply Z.eqb_eq in H1b as ->; destruct (scanEscape raw); done|].
  destruct (Z.ltb_spec r 0x20); [by rewrite (proj2 (Z.leb_gt _ _)) by done|]. rewrite (proj2 (Z.leb_le _ _)) by done. cbn [andb].
  destruct (r =? 0x7f); [done|]. destruct (inRange 0x80 0x9f r); cbn [negb andb].
  { destruct (c1Introducer r) as [kind|] eqn:Hk; [|done]. apply c1Introducer_kind in Hk. done. }
  destruct (isBidiControl r); [done|]. destruct ((r =? 0x2028) || (r =? 0x2029)); [done|]. destruct (unicodeCf r); [done|]. cbn [negb].
  destruct (a && (0x80 <=? r)); [done|]. by destruct ((0x80 <=? r) && negb (unicodeIsPrint r) && negb (unicodeZs r)).
Qed.

Lemma classify_policy a raw : raw <> [] -> unitSize (classify raw a) = unitSize (classify raw false) /\ unitKind (classify raw a) = unitKind (classify raw false).
Proof.
  intros Hraw. pose proof (classify_quiet a raw Hraw) as Ha. pose proof (classify_quiet false raw Hraw) as Hf.
  destruct (decodeRune raw) as [r size]. case_match; [destruct Ha as [-> ->], Hf as [-> ->]; done|]. case_match; [destruct Ha as [-> ->], Hf as [-> ->]; done|]. apply Ha.
Qed.

Lemma units_kinds a : forall raw, map unitKind (units a raw) = map unitKind (units false raw).
Proof.
  apply length_ind. intros [|b raw] IH; [done|]. rewrite !units_cons. cbn [map]. destruct (classify_policy a (b :: raw) ltac:(done)) as [Hs ->]. rewrite Hs. f_equal.
  apply IH. destruct (classify_moves false b raw). simpl. lia.
Qed.

Lemma hostileTaint_kinds us vs : map unitKind us = map unitKind vs -> hostileTaint us = hostileTaint vs.
Proof.
  intros E. unfold hostileTaint. generalize 0. revert vs E. induction us as [|u us IH]; intros [|v vs] E t; try done. injection E as Ek E. cbn [foldl]. rewrite Ek. by apply IH.
Qed.

(** The taint is one of the two bits, or both; none only when no unit has a
    finding. *)
Definition shapes : Z := Z.lor TaintContainsControlChars TaintContainsBidi.

Lemma hostile_from us : forall t, t ∈ [0; 2; 4; 6] ->
  let t' := foldl (fun t u => if negb (eqs (unitKind u) EmptyString) then Z.lor t (kindTaint (unitKind u)) else t) t us in
  t' ∈ [0; 2; 4; 6] /\ (t' = 0 <-> t = 0 /\ Forall (fun u => unitKind u = EmptyString) us).
Proof.
  induction us as [|u us IH]; intros t Ht; [split; [done|split; [auto|tauto]]|]. cbn [foldl].
  destruct (eqs (unitKind u) EmptyString) eqn:Hk; cbn [negb].
  - apply eqs_true in Hk. destruct (IH t Ht) as [Hin Hz]. split; [done|]. rewrite Hz, Forall_cons. tauto.
  - apply eqs_false in Hk. assert (Z.lor t (kindTaint (unitKind u)) ∈ [2; 4; 6]) as Hor.
    { unfold kindTaint. destruct (eqs (unitKind u) FindingBidi); repeat (apply elem_of_cons in Ht as [->|Ht]; [set_solver|]); by apply elem_of_nil in Ht. }
    destruct (IH (Z.lor t (kindTaint (unitKind u)))) as [Hin Hz]; [set_solver|]. split; [done|]. rewrite Hz, Forall_cons. split; [|tauto].
    intros [E _]. rewrite E in Hor. set_solver.
Qed.

Lemma hostileTaint_shapes us : Z.land (hostileTaint us) shapes = hostileTaint us /\ (hostileTaint us = 0 <-> Forall (fun u => unitKind u = EmptyString) us).
Proof.
  destruct (hostile_from us 0) as [Hin Hz]; [set_solver|]. fold (hostileTaint us) in *. split; [|tauto].
  repeat (apply elem_of_cons in Hin as [->|Hin]; [done|]). by apply elem_of_nil in Hin.
Qed.

(** No unit has a finding exactly when the text is clean. *)
Lemma units_clean : forall raw, Forall (fun u => unitKind u = EmptyString) (units false raw) <-> validUTF8 raw = true /\ cleanRunes (runes raw) = true.
Proof.
  apply length_ind. intros [|b raw] IH; [done|]. rewrite units_cons, Forall_cons.
  assert (b :: raw <> []) as Hne by done. pose proof (classify_quiet false (b :: raw) Hne) as Hq. destruct (classify_moves false b raw) as [Hm _].
  rewrite (validUTF8_decode _ Hne), runes_cons. specialize (IH (dropZ (unitSize (classify (b :: raw) false)) (b :: raw)) ltac:(simpl; lia)).
  rewrite IH. clear IH Hm. pose proof (decodeRune_size _ Hne) as Hsize. destruct (decodeRune (b :: raw)) as [r size] eqn:Hd. cbn [fst snd cleanRunes] in *.
  assert (r = 13 -> size = 1) as Hcr.
  { intros ->. destruct (decide (2 <= size)) as [H2|]; [|lia]. destruct (decodeRune_multi _ 13 size Hd H2). lia. }
  destruct ((r =? 13) && startsWith 10 (dropZ 1 (b :: raw))) eqn:Hcrlf.
  - destruct Hq as [-> ->]. apply andb_true_iff in Hcrlf as [->%Z.eqb_eq Hlf]. rewrite (Hcr eq_refl). cbn [Z.eqb Pos.eqb andb negb].
    change (dropZ 1 (b :: raw)) with raw in *. change (dropZ 2 (b :: raw)) with (drop 1 raw). destruct raw as [|c raw]; [done|]. cbn [startsWith] in Hlf. apply Z.eqb_eq in Hlf as ->.
    rewrite runes_cons. cbn [decodeRune Z.ltb Z.compare Pos.compare Pos.compare_cont fst snd validUTF8 drop]. change (dropZ 1 (10 :: raw)) with raw.
    rewrite Z.eqb_refl. cbn [andb]. tauto.
  - destruct (negb ((r =? RuneError) && (size =? 1)) && harmless r) eqn:Hh.
    + destruct Hq as [-> ->]. apply andb_true_iff in Hh as [Hv Hh]. destruct (r =? 13) eqn:H13; [apply Z.eqb_eq in H13 as ->; done|]. rewrite Hv, Hh. cbn [andb]. tauto.
    + destruct Hq as [Hk _]. split; [tauto|]. intros [[Hv Hrest]%andb_true_iff Hc]. exfalso. rewrite Hv in Hh. cbn [andb] in Hh. destruct (r =? 13) eqn:H13; [|by rewrite Hh in Hc].
      apply Z.eqb_eq in H13 as ->. rewrite (Hcr eq_refl) in Hc. change (dropZ 1 (b :: raw)) with raw in *. cbn [andb Z.eqb Pos.eqb] in Hcrlf.
      destruct raw as [|c raw]; [done|]. rewrite runes_cons in Hc. cbn [startsWith] in Hcrlf. apply andb_true_iff in Hc as [Hc _]. apply Z.eqb_eq in Hc.
      destruct (decodeRune (c :: raw)) as [r' size'] eqn:Hd'. cbn [fst] in Hc. subst r'.
      assert (size' = 1) as ->. { pose proof (decodeRune_size (c :: raw) ltac:(done)) as Hs'. rewrite Hd' in Hs'. cbn [snd] in Hs'.
        destruct (decide (2 <= size')) as [H2|]; [|lia]. destruct (decodeRune_multi _ 10 size' Hd' H2). lia. }
      cbn [decodeRune] in Hd'. repeat case_match; simplify_eq; done.
Qed.

Lemma scanLoop_units : forall raw fuel t, (length raw <= fuel)%nat ->
  scanLoop fuel raw t = Ok (foldl (fun t u => if negb (eqs (unitKind u) EmptyString) then Z.lor t (kindTaint (unitKind u)) else t) t (units false raw)).
Proof.
  apply (length_ind (fun raw => forall fuel t, (length raw <= fuel)%nat -> _)). intros raw IH fuel t Hf. destruct raw as [|b raw]; [by destruct fuel|].
  destruct fuel as [|fuel]; [simpl in Hf; lia|]. rewrite units_cons. destruct (classify_moves false b raw) as [Hm _].
  specialize (IH (dropZ (unitSize (classify (b :: raw) false)) (b :: raw)) ltac:(simpl; lia) fuel). cbn [scanLoop foldl].
  unfold unitSize, unitKind in *. destruct (classify (b :: raw) false) as [[piece size] kind]. cbn [fst snd] in *. rewrite IH by (simpl in *; lia). by destruct (eqs kind EmptyString).
Qed.

(** ** Theorems *)

(** C26. A rendering is safe. Whatever bytes come in, a policy of a known mode
    answers, with a text that is valid UTF-8, holds no control but the
    newline, no DEL and, in ASCII mode, nothing above, and is within the
    limit of the policy, marker included. *)
Theorem render_safe raw policy : validMode policy -> exists r, Render raw policy = Ok r /\ Forall (safeByte (RP_ASCIIOnly policy)) (Rendered_Text r) /\
  validUTF8 (Rendered_Text r) = true /\ len (Rendered_Text r) <= renderLimit policy.
Proof.
  intros Hmode. pose proof (Render_eq raw policy Hmode) as He. cbv zeta in He. eexists. split; [exact He|].
  destruct (Render_plain raw policy _ Hmode He) as [Hplain Hlen]. destruct (plain_safe _ _ Hplain). auto.
Qed.

(** C27. Rendering is idempotent. Under the same policy a rendering is rendered
    as itself, with no taint, no finding and nothing dropped. *)
Theorem render_idempotent raw policy r : Render raw policy = Ok r ->
  Render (Rendered_Text r) policy = Ok (mkRendered (Rendered_Text r) 0 [] (len (Rendered_Text r)) 0).
Proof.
  intros Hr. assert (validMode policy) as Hmode.
  { unfold Render in Hr. apply reject_Ok in Hr as [Hm _]. unfold validMode. apply andb_false_iff in Hm as [Hm|Hm]; apply negb_false_iff, Z.eqb_eq in Hm; auto. }
  destruct (Render_plain raw policy r Hmode Hr). by apply Render_of_plain.
Qed.
(** C28. The scan misses nothing and accuses nothing. It ends on every input;
    it finds no control and no bidirectional shape exactly when the input is
    valid UTF-8 whose runes are newlines, CRLF pairs and runes that are no
    control, no separator and no format character; it says what the detector
    of instructions says; and a rendering, under any policy, reports the same
    shapes for the whole input, cut or not. *)
Theorem scan_exact raw : exists t, Scan raw = Ok t /\
  (Z.land t shapes = 0 <-> validUTF8 raw = true /\ cleanRunes (runes raw) = true) /\
  (Z.land t TaintContainsInstructionLike <> 0 <-> fst (LooksInstructionLike raw) = true) /\
  (forall policy r, Render raw policy = Ok r -> Z.land (Rendered_Taints r) shapes = Z.land t shapes).
Proof.
  unfold Scan. rewrite scanLoop_units by done. cbn [rbind]. fold (hostileTaint (units false raw)). eexists. split; [done|].
  destruct (hostileTaint_shapes (units false raw)) as [Hland Hz]. set (h := hostileTaint (units false raw)) in *.
  assert (forall b : bool, Z.land (if b then Z.lor h TaintContainsInstructionLike else h) shapes = h) as Hshapes.
  { intros []; [|done]. rewrite Z.land_lor_distr_l, Hland. change (Z.land TaintContainsInstructionLike shapes) with 0. apply Z.lor_0_r. }
  assert (Z.land h TaintContainsInstructionLike = 0) as Hno by (rewrite <- Hland, <- Z.land_assoc; apply Z.land_0_r).
  rewrite Hshapes. split_and!; [by rewrite Hz, units_clean| |].
  - destruct (fst (LooksInstructionLike raw)); [|by rewrite Hno]. rewrite Z.land_lor_distr_l, Hno. done.
  - intros policy r Hr. assert (validMode policy) as Hmode.
    { unfold Render in Hr. apply reject_Ok in Hr as [Hm _]. unfold validMode. apply andb_false_iff in Hm as [Hm|Hm]; apply negb_false_iff, Z.eqb_eq in Hm; auto. }
    rewrite (Render_eq raw policy Hmode) in Hr. injection Hr as <-.
    assert (hostileTaint (units (RP_ASCIIOnly policy) raw) = h) as -> by apply hostileTaint_kinds, units_kinds.
    assert (Z.land (capTaint raw (renderLimit policy) h) shapes = h) as Hcap.
    { unfold capTaint. case_match; [|done]. rewrite Z.land_lor_distr_l, Hland. apply Z.lor_0_r. }
    case_match; cbn [Rendered_Taints]; [by rewrite Hcap|]. rewrite Z.land_lor_distr_l, Hcap. apply Z.lor_0_r.
Qed.
(** ** Labels *)

Lemma isLabelRune_ascii r : isLabelRune r = true -> 0x20 <= r < 0x7f.
Proof.
  unfold isLabelRune, inRange. rewrite !orb_true_iff, !andb_true_iff, !Z.leb_le, !Z.eqb_eq. lia.
Qed.

Lemma runes_ascii l : Forall (fun b => isLabelRune b = true) l -> runes l = l.
Proof.
  induction 1 as [|b l Hb Hl IH]; [done|]. apply isLabelRune_ascii in Hb. rewrite runes_cons. cbn [decodeRune]. rewrite (proj2 (Z.ltb_lt _ _)) by lia.
  cbn [fst snd]. f_equal. exact IH.
Qed.

Lemma labelRunes_spec maximum rs : forall out, len out <= maximum -> exists added,
  labelRunes rs maximum out = out ++ added /\ Forall (fun b => isLabelRune b = true) added /\ len (out ++ added) <= maximum /\
  (Forall (fun r => isLabelRune r = true) rs -> len out + len rs <= maximum -> added = rs) /\ (rs <> [] -> len out < maximum -> added <> []).
Proof.
  induction rs as [|r rs IH]; intros out Hout; cbn [labelRunes].
  - exists []. rewrite app_nil_r. by split_and!.
  - destruct (Z.leb_spec maximum (len out)) as [Hfull|Hroom].
    + exists []. rewrite app_nil_r. split_and!; try done; [|lia]. intros _ Hl. unfold len in *. simpl in Hl. lia.
    + set (b := if isLabelRune r then r else 95). destruct (IH (out ++ [b])) as (added & He & Hadded & Hlen & Hall & _); [rewrite len_app; unfold len at 2; simpl; lia|].
      exists (b :: added). rewrite He, <- app_assoc. split_and!; [done| |by rewrite <- app_assoc in Hlen| |done].
      * constructor; [|done]. unfold b. by case_match.
      * intros [Hr Hrs]%Forall_cons Hl. unfold b. rewrite Hr. f_equal. apply Hall; [done|]. rewrite len_app. unfold len in *. simpl in *. lia.
Qed.

(** A label is one. Whatever the value, the label is not empty, no longer than
    asked for and of the allowed characters only; and a value that is a safe
    label is its own label. *)
Theorem safe_label value maximum : let l := SafeLabel value maximum in
  l <> [] /\ len l <= (if maximum <=? 0 then DefaultLabelMax else maximum) /\ Forall (fun b => isLabelRune b = true) l /\
  (IsSafeLabel value = true -> SafeLabel value 0 = value).
Proof.
  intros l. unfold l, SafeLabel. set (m := if maximum <=? 0 then DefaultLabelMax else maximum).
  assert (1 <= m) as Hm by (unfold m, DefaultLabelMax; destruct (Z.leb_spec maximum 0); lia).
  destruct (labelRunes_spec m (runes value) []) as (added & He & Hadded & Hlen & _ & _); [unfold len; simpl; lia|]. rewrite He. cbn [app] in *.
  split_and!.
  - case_match eqn:E; [done|]. by intros ->.
  - case_match; [unfold len; simpl; lia|done].
  - case_match; [by repeat constructor|done].
  - unfold IsSafeLabel. intros Hsafe. destruct ((len value =? 0) || (DefaultLabelMax <? len value)) eqn:E; [done|]. apply orb_false in E as [Hsome Hshort]. apply Z.ltb_ge in Hshort.
    rewrite List.forallb_forall in Hsafe. change (0 <=? 0) with true. cbn [app].
    assert (Forall (fun r => isLabelRune r = true) (runes value)) as Hall by (apply Forall_forall; intros r Hr; apply Hsafe; by apply list_elem_of_In).
    destruct (labelRunes_spec DefaultLabelMax (runes value) []) as (a & Ha & _ & _ & Hkeep & _); [done|].
    assert (runes value = value) as Hv.
    { clear -Hall. revert Hall. apply (length_ind (fun value => Forall (fun r => isLabelRune r = true) (runes value) -> runes value = value)). clear value.
      intros [|b raw] IH Hall; [done|]. rewrite runes_cons in *. apply Forall_cons in Hall as [Hb Hall]. apply isLabelRune_ascii in Hb.
      destruct (decodeRune (b :: raw)) as [r size] eqn:Hd. cbn [fst snd] in *. assert (size = 1) as ->.
      { pose proof (decodeRune_size (b :: raw) ltac:(done)) as Hs. rewrite Hd in Hs. cbn [snd] in Hs. destruct (decide (2 <= size)) as [H2|]; [|lia].
        destruct (decodeRune_multi _ r size Hd H2). lia. }
      change (dropZ 1 (b :: raw)) with raw in *. rewrite IH; [|simpl; lia|done]. f_equal. cbn [decodeRune] in Hd. unfold RuneError in Hd. repeat case_match; simplify_eq; done || lia. }
    rewrite Ha, Hkeep; [|done|rewrite Hv; unfold len at 1; simpl; lia]. cbn [app]. rewrite Hv, Hsome. done.
Qed.
End Facts.

(** ** Witnesses *)

(** Tables that print everything but the private use area, and fold nothing. *)
Definition plainTables : UnicodeTables := {| unicodePrint := fun r => negb (inRange 0xe000 0xf8ff r); unicodeLower := id; unicode_ellipsis := eq_refl |}.

(** A colour sequence, a right-to-left override, a NUL and an invalid byte. *)
Definition hostileText : list Z := bytes_of "ok" ++ [0x1b; 91; 51; 49; 109; 0xe2; 0x80; 0xae; 0; 0xff; 13; 10].
Definition stripPolicy : RenderPolicy := mkPolicy RenderStrip true 0.

Lemma hostile_rendered : @Render plainTables hostileText stripPolicy =
  Ok (mkRendered [111; 107; 10] 6 [mkShape "BIDI" 1; mkShape "CSI" 1; mkShape "INVALID_UTF8" 1; mkShape "NUL" 1] 14 0).
Proof. vm_compute. reflexivity. Qed.

Lemma render_safe_witness : exists r, @Render plainTables hostileText stripPolicy = Ok r /\ Forall (safeByte true) (Rendered_Text r) /\
  validUTF8 (Rendered_Text r) = true /\ len (Rendered_Text r) <= 4096.
Proof. apply (@render_safe plainTables hostileText stripPolicy). by right. Defined.

Lemma render_idempotent_witness : @Render plainTables [111; 107; 10] stripPolicy = Ok (mkRendered [111; 107; 10] 0 [] 3 0).
Proof. exact (@render_idempotent plainTables hostileText stripPolicy _ hostile_rendered). Defined.
