(* ===== verification/TrustFacts.v ===== *)
(** * Trust: envelopes, replays and bounded JSON

    An envelope keeps what it was wrapped with, whatever its authenticity or
    class becomes; the set of seen digests is exactly the window of the most
    recent ones; the walk over JSON tokens accepts exactly the complete
    documents within its limits, wherever the tokenizer stops. *)

From S2P Require Import Prelude Sha256 Digest Plan Sanitize SanitizeFacts Trust.
From stdpp Require Import base gmap list strings sorting.
From Stdlib Require Import ZArith Lia.

Open Scope Z_scope.

(** ** Replay *)

(** The distinct digests of a history, the most recent first. *)
Fixpoint recent (seen : list string) (newestFirst : list string) : list string :=
  match newestFirst with
  | [] => []
  | d :: r => if decide (d ∈ seen) then recent seen r else d :: recent (d :: seen) r
  end.

Definition observeAll (capacity : Z) (history : list string) : SeenSet :=
  foldl (fun s d => snd (Observe d s)) (NewSeenSet capacity) history.

Definition capacityOf (capacity : Z) : nat := Z.to_nat (if capacity <=? 0 then DefaultSeenCapacity else capacity).

(** What the set holds: the index has the keys of the list, each once. *)
Record seenInv (cap : nat) (s : SeenSet) : Prop := {
  si_capacity : Seen_capacity s = Z.of_nat cap;
  si_positive : (1 <= cap)%nat;
  si_order : NoDup (Seen_order s);
  si_index : Seen_index s = list_to_set (Seen_order s);
  si_bound : (length (Seen_order s) <= cap)%nat;
}.

Lemma filter_absent d l : d ∉ l -> List.filter (fun x => negb (eqs x d)) l = l.
Proof.
  induction l as [|x l IH]; intros Hd; [done|]. apply not_elem_of_cons in Hd as [Hx Hd]. simpl.
  rewrite (proj2 (eqs_false x d)) by congruence. simpl. by rewrite IH.
Qed.

Lemma filter_elem d l x : x ∈ List.filter (fun x => negb (eqs x d)) l <-> x ∈ l /\ x <> d.
Proof. rewrite !list_elem_of_In, filter_In, negb_true_iff, eqs_false. done. Qed.

Lemma NoDup_filterb (d : string) l : NoDup l -> NoDup (List.filter (fun x => negb (eqs x d)) l).
Proof.
  induction 1 as [|x l Hx Hl IH]; simpl; [constructor|]. case_match; [|done]. constructor; [|done]. rewrite filter_elem. tauto.
Qed.

(** A digest that is there moves to the front; another takes the front, and
    the last one leaves when there are too many. *)
Lemma Observe_spec cap d s : seenInv cap s ->
  fst (Observe d s) = bool_decide (d ∈ Seen_order s) /\ seenInv cap (snd (Observe d s)) /\
  Seen_order (snd (Observe d s)) = take cap (d :: List.filter (fun x => negb (eqs x d)) (Seen_order s)).
Proof.
  intros [Hcap Hpos Hnd Hindex Hbound]. unfold Observe. rewrite Hindex. destruct (decide (d ∈ Seen_order s)) as [Hd|Hd].
  - rewrite !bool_decide_eq_true_2 by set_solver. split; [done|].
    assert (length (d :: List.filter (fun x => negb (eqs x d)) (Seen_order s)) = length (Seen_order s)) as Hlen.
    { pose proof (NoDup_submseteq (d :: List.filter (fun x => negb (eqs x d)) (Seen_order s)) (Seen_order s)) as H1.
      assert (NoDup (d :: List.filter (fun x => negb (eqs x d)) (Seen_order s))) as Hn.
      { constructor; [rewrite filter_elem; tauto|by apply NoDup_filterb]. }
      apply Permutation_length, NoDup_Permutation; [done|done|]. intros x. rewrite elem_of_cons, filter_elem. destruct (decide (x = d)); naive_solver. }
    cbn [snd Seen_order]. split; [|by rewrite take_ge by lia]. split; cbn [Seen_capacity Seen_order Seen_index]; try done.
    + constructor; [rewrite filter_elem; tauto|by apply NoDup_filterb].
    + apply set_eq. intros x. rewrite !elem_of_list_to_set, elem_of_cons, filter_elem. destruct (decide (x = d)); naive_solver.
    + lia.
  - rewrite !bool_decide_eq_false_2 by set_solver. split; [done|]. rewrite filter_absent by done. cbn [snd].
    set (l := Seen_order s) in *. cbn [Seen_order length].
    cbn [evict Seen_capacity Seen_order Seen_index]. rewrite Hcap.
    assert (NoDup (d :: l)) as Hndl by (by constructor).
    destruct (Z.ltb_spec (Z.of_nat cap) (len (d :: l))) as [Hfull|Hroom].
    + assert (length l = cap) as Hl by (unfold len in Hfull; simpl in Hfull; lia).
      destruct (last (d :: l)) as [oldest|] eqn:Hlast; [|by apply last_None in Hlast].
      apply last_Some in Hlast as [front Hfront]. rewrite Hfront. rewrite removelast_last.
      assert (length front = cap) as Hlf by (apply (f_equal length) in Hfront; rewrite length_app in Hfront; simpl in Hfront; lia).
      assert (evict (length l) (mkSeen (Z.of_nat cap) front (({[d]} ∪ list_to_set l) ∖ {[oldest]})) = mkSeen (Z.of_nat cap) front (({[d]} ∪ list_to_set l) ∖ {[oldest]})) as ->.
      { destruct (length l); [done|]. cbn [evict Seen_capacity Seen_order]. rewrite (proj2 (Z.ltb_ge _ _)) by (unfold len; lia). done. }
      rewrite Hfront in Hndl. apply NoDup_app in Hndl as (Hn & Hdis & _).
      cbn [Seen_order]. split; [|by rewrite take_app_le, take_ge by lia]. split; cbn [Seen_capacity Seen_order Seen_index]; try done; [|lia].
      change ({[d]} ∪ list_to_set l) with (list_to_set (d :: l) : gset string). rewrite Hfront, list_to_set_app_L. apply set_eq. intros x. specialize (Hdis x). set_solver.
    + assert (length (d :: l) <= cap)%nat as Hlen by (unfold len in Hroom; lia).
      split; [|cbn [Seen_order]; by rewrite take_ge by lia]. split; cbn [Seen_capacity Seen_order Seen_index]; try done. 
Qed.

Lemma recent_elem l : forall seen d, d ∈ recent seen l <-> d ∈ l /\ d ∉ seen.
Proof.
  induction l as [|x l IH]; intros seen d; cbn [recent]; [by split; [intros Hd%elem_of_nil|intros [Hd%elem_of_nil _]]|].
  destruct (decide (x ∈ seen)); rewrite ?elem_of_cons, IH, ?elem_of_cons; destruct (decide (d = x)) as [->|]; tauto.
Qed.

Lemma recent_seen l : forall seen seen', (forall d, d ∈ seen <-> d ∈ seen') -> recent seen l = recent seen' l.
Proof.
  induction l as [|x l IH]; intros seen seen' Hs; [done|]. simpl. pose proof (Hs x) as Hx. case_decide; case_decide; try tauto; [by apply IH|].
  f_equal. apply IH. intros d. rewrite !elem_of_cons, Hs. done.
Qed.

Lemma recent_filter d l : forall seen, recent (d :: seen) l = List.filter (fun x => negb (eqs x d)) (recent seen l).
Proof.
  induction l as [|x l IH]; intros seen; [done|]. simpl. destruct (decide (x ∈ seen)) as [Hx|Hx].
  - rewrite decide_True by set_solver. apply IH.
  - destruct (decide (x = d)) as [->|Hne].
    + rewrite decide_True by set_solver. simpl. rewrite eqs_refl. simpl. rewrite <- IH. apply recent_seen. set_solver.
    + rewrite decide_False by set_solver. simpl. rewrite (proj2 (eqs_false x d)) by done. simpl. f_equal. rewrite <- IH. apply recent_seen. set_solver.
Qed.

Lemma elem_of_rev (x : string) l : x ∈ rev l <-> x ∈ l.
Proof. rewrite !list_elem_of_In, <- in_rev. done. Qed.

Lemma NoDup_recent l : forall seen, NoDup (recent seen l).
Proof.
  induction l as [|x l IH]; intros seen; simpl; [constructor|]. case_decide; [apply IH|]. constructor; [|apply IH]. rewrite recent_elem. set_solver.
Qed.

Lemma take_filter_take d (l : list string) : NoDup l -> forall n, take n (List.filter (fun x => negb (eqs x d)) (take (S n) l)) = take n (List.filter (fun x => negb (eqs x d)) l).
Proof.
  induction 1 as [|x l Hx Hl IH]; intros n; [done|]. cbn [take List.filter]. destruct (eqs x d) eqn:He; cbn [negb].
  - apply eqs_true in He as ->. rewrite !filter_absent; [by rewrite take_take, Nat.min_id|done|]. intros Hd. apply Hx. by eapply subseteq_take.
  - destruct n as [|n]; [done|]. cbn [take]. f_equal. apply IH.
Qed.

(** The set is the window of the most recent distinct digests. *)
Lemma observeAll_window capacity history : let s := observeAll capacity history in
  seenInv (capacityOf capacity) s /\ Seen_order s = take (capacityOf capacity) (recent [] (rev history)).
Proof.
  assert (1 <= capacityOf capacity)%nat as Hpos by (unfold capacityOf, DefaultSeenCapacity; case_match; lia).
  induction history as [|d history [IH Horder]] using rev_ind; cbv zeta.
  - split; [|by destruct (capacityOf capacity)]. split; try done; [|constructor|simpl; lia].
    unfold observeAll, capacityOf, NewSeenSet, DefaultSeenCapacity. simpl. case_match; [done|]. lia.
  - unfold observeAll. rewrite foldl_snoc. fold (observeAll capacity history). destruct (Observe_spec _ d _ IH) as (_ & Hinv & Ho). split; [done|].
    rewrite Ho, Horder, rev_app_distr. cbn [rev app recent]. rewrite decide_False by set_solver. rewrite recent_filter.
    destruct (capacityOf capacity) as [|n]; [lia|]. cbn [take]. f_equal. apply take_filter_take, NoDup_recent.
Qed.

(** Where a digest stands among the recent ones. *)
Lemma recent_position pre d post : d ∉ post -> recent [] (rev (pre ++ d :: post)) = recent [] (rev post) ++ d :: recent (d :: rev post) (rev pre).
Proof.
  intros Hd. rewrite rev_app_distr. cbn [rev]. rewrite <- app_assoc. cbn [app].
  assert (forall l seen r, recent seen (l ++ r) = recent seen l ++ recent (rev l ++ seen) r) as Happ.
  { induction l as [|x l IH]; intros seen r; [done|]. cbn [app recent rev]. case_decide.
    - rewrite IH. f_equal. apply recent_seen. intros y. rewrite !elem_of_app, elem_of_cons. set_solver.
    - rewrite IH. cbn [app]. do 2 f_equal. apply recent_seen. intros y. rewrite !elem_of_app, !elem_of_cons. set_solver. }
  rewrite Happ. f_equal. cbn [recent]. rewrite decide_False by (rewrite app_nil_r, elem_of_rev, elem_of_rev; done). f_equal. apply recent_seen.
  intros y. rewrite !elem_of_cons, app_nil_r, !elem_of_rev. done.
Qed.

Lemma recent_length l : length (recent [] l) = size (list_to_set l : gset string).
Proof.
  rewrite <- (size_list_to_set (C := gset string)) by apply NoDup_recent. f_equal. apply set_eq. intros d. rewrite !elem_of_list_to_set, recent_elem. set_solver.
Qed.

Lemma elem_of_take_recent cap pre d post : d ∉ post ->
  d ∈ take cap (recent [] (rev (pre ++ d :: post))) <-> (size (list_to_set post : gset string) < cap)%nat.
Proof.
  intros Hd. rewrite recent_position by done. assert (length (recent [] (rev post)) = size (list_to_set post : gset string)) as Hl.
  { rewrite recent_length. f_equal. apply set_eq. intros x. by rewrite !elem_of_list_to_set, elem_of_rev. }
  assert (d ∉ recent [] (rev post)) as Hno by (rewrite recent_elem, elem_of_rev; tauto). rewrite <- Hl. split.
  - intros Hin. destruct (decide (length (recent [] (rev post)) < cap)%nat) as [|Hge]; [done|]. exfalso. apply Hno. rewrite take_app_le in Hin by lia.
    eapply subseteq_take; exact Hin.
  - intros Hlt. rewrite take_app_ge by lia. apply elem_of_app. right. destruct (cap - length (recent [] (rev post)))%nat eqn:E; [lia|]. cbn [take]. set_solver.
Qed.

(** C30. What counts as a replay. After any history of observations, a digest
    is reported as seen before exactly when it was observed and fewer distinct
    digests than the capacity were observed since; the set never holds more
    than its capacity. *)
Theorem seen_window capacity history d :
  (fst (Observe d (observeAll capacity history)) = true <->
   (exists pre post, history = pre ++ d :: post /\ (d ∉ post) /\ (size (list_to_set post : gset string) < capacityOf capacity)%nat)) /\
  Seen_Len (observeAll capacity history) <= Z.of_nat (capacityOf capacity).
Proof.
  destruct (observeAll_window capacity history) as [Hinv Horder]. destruct (Observe_spec _ d _ Hinv) as [-> _].
  split; [|destruct Hinv; unfold Seen_Len, len; lia]. rewrite bool_decide_eq_true, Horder. split.
  - intros Hin. assert (d ∈ history) as Hd.
    { apply subseteq_take in Hin. apply recent_elem in Hin as [Hin _]. by apply elem_of_rev. }
    apply list_elem_of_split_r in Hd as (pre & post & -> & Hpost). exists pre, post. split_and!; [done|done|]. exact (proj1 (elem_of_take_recent _ pre d post Hpost) Hin).
  - intros (pre & post & -> & Hpost & Hsize). by apply elem_of_take_recent.
Qed.

(** ** Bounded JSON *)

(** A JSON document and the tokens it is written with. *)
Inductive json : Type :=
| JString (value : list Z)
| JNumber (value : list Z)
| JLiteral
| JArray (items : list json)
| JObject (members : list (list Z * json)).

(** Induction with a hypothesis for every value inside. *)
Lemma json_induction (P : json -> Prop) : (forall s, P (JString s)) -> (forall n, P (JNumber n)) -> P JLiteral ->
  (forall items, Forall P items -> P (JArray items)) -> (forall members, Forall (fun m => P (snd m)) members -> P (JObject members)) -> forall v, P v.
Proof.
  intros Hs Hn Hl Ha Ho. fix IH 1. intros [s|n| |items|members]; [apply Hs|apply Hn|apply Hl|apply Ha|apply Ho].
  - induction items as [|v items IHl]; constructor; [apply IH|apply IHl].
  - induction members as [|[k v] members IHl]; constructor; [apply IH|apply IHl].
Qed.

Fixpoint jsonTokens (v : json) : list jsonToken :=
  match v with
  | JString s => [TokenString s]
  | JNumber n => [TokenNumber n]
  | JLiteral => [TokenLiteral]
  | JArray items => DelimOpen false :: concat (map jsonTokens items) ++ [DelimClose false]
  | JObject members => DelimOpen true :: concat (map (fun '(k, v) => TokenString k :: jsonTokens v) members) ++ [DelimClose true]
  end.

Section JSON.
Context {U : UnicodeTables}.

(** Within the limits at a depth: bounded strings, numbers and nesting, and
    no object that repeats a key. *)
Fixpoint fits (l : JSONLimits) (depth : Z) (v : json) : bool :=
  match v with
  | JString s => len s <=? MaxStringBytes l
  | JNumber n => len n <=? MaxNumberBytes l
  | JLiteral => true
  | JArray items => (depth + 1 <=? MaxDepth l) && forallb (fits l (depth + 1)) items
  | JObject members =>
      (depth + 1 <=? MaxDepth l) && bool_decide (NoDup (map fst members))
      && forallb (fun '(k, v) => (len k <=? MaxStringBytes l) && fits l (depth + 1) v) members
  end.

(** The taint of the strings of a document, keys included. *)
Fixpoint stringsTaint (v : json) : Z :=
  match v with
  | JString s => scanned s
  | JNumber _ | JLiteral => 0
  | JArray items => foldr (fun v t => Z.lor (stringsTaint v) t) 0 items
  | JObject members => foldr (fun '(k, v) t => Z.lor (Z.lor (scanned k) (stringsTaint v)) t) 0 members
  end.

(** Where a value may stand: at the top, in an array, or after a key. *)
Definition valuePlace (stack : list jsonFrame) : Prop :=
  match stack with [] => True | f :: _ => Frame_object f && Frame_expectKey f = false end.

(** What the walk does once a value has ended. *)
Definition resume (l : JSONLimits) (ends : bool) (rest : list jsonToken) (stack : list jsonFrame) (count taint : Z) : Z * option JSONError :=
  match toggled stack with
  | [] => match rest with [] => if ends then (taint, None) else (taint, Some (mkJSONError ErrJSONTrailing 0)) | _ => (taint, Some (mkJSONError ErrJSONTrailing 0)) end
  | f :: r => walkJSON l ends rest (f :: r) count taint
  end.

Definition refused (x : Z * option JSONError) : Prop := snd x <> None.

(** The walk over a value: it ends in an error, or resumes after it. *)
Definition walks (l : JSONLimits) (v : json) : Prop := forall ends rest stack count taint, valuePlace stack -> count <= MaxTokens l ->
  if fits l (len stack) v && (count + len (jsonTokens v) <=? MaxTokens l)
  then walkJSON l ends (jsonTokens v ++ rest) stack count taint = resume l ends rest stack (count + len (jsonTokens v)) (Z.lor taint (stringsTaint v))
  else refused (walkJSON l ends (jsonTokens v ++ rest) stack count taint).

Lemma walk_array l items : Forall (walks l) items -> forall ends rest outer count taint, count <= MaxTokens l ->
  if forallb (fits l (len outer + 1)) items && (count + len (concat (map jsonTokens items)) <=? MaxTokens l)
  then walkJSON l ends (concat (map jsonTokens items) ++ rest) (mkFrame false false ∅ :: outer) count taint =
    walkJSON l ends rest (mkFrame false false ∅ :: outer) (count + len (concat (map jsonTokens items))) (Z.lor taint (foldr (fun v t => Z.lor (stringsTaint v) t) 0 items))
  else refused (walkJSON l ends (concat (map jsonTokens items) ++ rest) (mkFrame false false ∅ :: outer) count taint).
Proof.
  induction 1 as [|v items Hv _ IH]; intros ends rest outer count taint Hc.
  - cbn [map concat forallb foldr app andb]. change (len []) with 0. rewrite Z.add_0_r, Z.lor_0_r, (proj2 (Z.leb_le _ _)) by done. done.
  - cbn [map concat forallb foldr]. rewrite len_app, <- app_assoc. set (stack := mkFrame false false ∅ :: outer).
    pose proof (len_nonneg (concat (map jsonTokens items))) as Hn. specialize (Hv ends (concat (map jsonTokens items) ++ rest) stack count taint eq_refl Hc).
    assert (len stack = len outer + 1) as Hs by (unfold stack, len; simpl; lia). rewrite Hs in Hv.
    destruct (fits l (len outer + 1) v) eqn:Hf; cbn [andb] in *; [|exact Hv].
    destruct (Z.leb_spec (count + len (jsonTokens v)) (MaxTokens l)) as [Hle|Hgt].
    + rewrite Hv. unfold resume. cbn [toggled stack Frame_object]. specialize (IH ends rest outer (count + len (jsonTokens v)) (Z.lor taint (stringsTaint v)) Hle).
      rewrite Z.add_assoc, Z.lor_assoc. exact IH.
    + rewrite (proj2 (Z.leb_gt _ _)) by lia. by rewrite andb_false_r.
Qed.

Lemma walk_key l ends k rest outer keys count taint : count + 1 <= MaxTokens l ->
  walkJSON l ends (TokenString k :: rest) (mkFrame true true keys :: outer) count taint =
  if MaxStringBytes l <? len k then (Z.lor taint TaintOversized, Some (mkJSONError ErrJSONStringLength (len outer + 1)))
  else if bool_decide (k ∈ keys) then (Z.lor (Z.lor taint (scanned k)) TaintDuplicateFields, Some (mkJSONError ErrJSONDuplicateKey (len outer + 1)))
  else walkJSON l ends rest (mkFrame true false ({[k]} ∪ keys) :: outer) (count + 1) (Z.lor taint (scanned k)).
Proof.
  intros Hc. cbn [walkJSON]. rewrite (proj2 (Z.ltb_ge _ _)) by done. cbn [Frame_object Frame_expectKey Frame_keys andb toggled negb].
  replace (len (mkFrame true true keys :: outer)) with (len outer + 1) by (unfold len; simpl; lia). done.
Qed.

(** The keys of an object after its members, and that each was new. *)
Definition keysAfter (keys : gset (list Z)) (members : list (list Z * json)) : gset (list Z) := foldl (fun ks m => {[fst m]} ∪ ks) keys members.
Fixpoint keysNew (keys : gset (list Z)) (members : list (list Z * json)) : bool :=
  match members with
  | [] => true
  | (k, _) :: r => negb (bool_decide (k ∈ keys)) && keysNew ({[k]} ∪ keys) r
  end.

Lemma keysNew_NoDup members : forall keys, keysNew keys members = true <-> NoDup (map fst members) /\ Forall (fun k => k ∉ keys) (map fst members).
Proof.
  induction members as [|[k v] members IH]; intros keys; [split; [by repeat constructor|done]|].
  cbn [keysNew map fst]. rewrite andb_true_iff, negb_true_iff, bool_decide_eq_false, IH, NoDup_cons, Forall_cons. rewrite !Forall_forall. split.
  - intros (Hk & Hnd & Hnew). split_and!; try done; [intros Hin; apply (Hnew k Hin); set_solver|]. intros x Hx Hin. apply (Hnew x Hx). set_solver.
  - intros [[Hk Hnd] [Hkk Hnew]]. split_and!; try done. intros x Hx. specialize (Hnew x Hx). assert (x <> k) by (intros ->; done). set_solver.
Qed.

Lemma walk_object l members : Forall (fun m => walks l (snd m)) members -> forall ends rest outer keys count taint, count <= MaxTokens l ->
  let tokens := concat (map (fun '(k, v) => TokenString k :: jsonTokens v) members) in
  if keysNew keys members && forallb (fun '(k, v) => (len k <=? MaxStringBytes l) && fits l (len outer + 1) v) members && (count + len tokens <=? MaxTokens l)
  then walkJSON l ends (tokens ++ rest) (mkFrame true true keys :: outer) count taint =
    walkJSON l ends rest (mkFrame true true (keysAfter keys members) :: outer) (count + len tokens)
      (Z.lor taint (foldr (fun '(k, v) t => Z.lor (Z.lor (scanned k) (stringsTaint v)) t) 0 members))
  else refused (walkJSON l ends (tokens ++ rest) (mkFrame true true keys :: outer) count taint).
Proof.
  induction 1 as [|[k v] members Hv _ IH]; intros ends rest outer keys count taint Hc; cbv zeta.
  - cbn [map concat forallb foldr app andb keysNew]. change (len []) with 0. rewrite Z.add_0_r, Z.lor_0_r, (proj2 (Z.leb_le _ _)) by done. done.
  - cbn [map concat forallb foldr keysNew keysAfter foldl fst snd app] in *. set (tokens := concat _) in *.
    assert (len (TokenString k :: jsonTokens v ++ tokens) = 1 + len (jsonTokens v) + len tokens) as Hlen by (unfold len; simpl; rewrite length_app; lia).
    change (TokenString k :: (jsonTokens v ++ tokens) ++ rest) with (TokenString k :: (jsonTokens v ++ tokens) ++ rest). rewrite Hlen. clear Hlen.
    pose proof (len_nonneg (jsonTokens v)) as Hn1. pose proof (len_nonneg tokens) as Hn2. rewrite <- app_assoc.
    destruct (Z.leb_spec (count + 1) (MaxTokens l)) as [Hone|Hover].
    2: { rewrite (proj2 (Z.leb_gt (count + _) _)) by lia. rewrite andb_false_r. unfold refused. cbn [walkJSON]. by rewrite (proj2 (Z.ltb_lt _ _)) by lia. }
    rewrite walk_key by done.
    destruct (Z.ltb_spec (MaxStringBytes l) (len k)) as [Hlong|Hshort].
    { rewrite (proj2 (Z.leb_gt (len k) _)) by done. cbn [andb]. by rewrite andb_false_r. }
    rewrite (proj2 (Z.leb_le (len k) _)) by done. destruct (bool_decide (k ∈ keys)); [done|]. cbn [negb andb].
    set (stack := mkFrame true false ({[k]} ∪ keys) :: outer). assert (len stack = len outer + 1) as Hs by (unfold stack, len; simpl; lia).
    specialize (Hv ends (tokens ++ rest) stack (count + 1) (Z.lor taint (scanned k)) eq_refl Hone). rewrite Hs in Hv.
    destruct (fits l (len outer + 1) v); cbn [andb] in *; [|by rewrite andb_false_r].
    destruct (Z.leb_spec (count + 1 + len (jsonTokens v)) (MaxTokens l)) as [Hle|Hgt].
    + rewrite Hv. unfold resume. cbn [toggled stack Frame_object Frame_expectKey Frame_keys negb].
      specialize (IH ends rest outer ({[k]} ∪ keys) (count + 1 + len (jsonTokens v)) (Z.lor (Z.lor taint (scanned k)) (stringsTaint v)) Hle). cbv zeta in IH. fold tokens in IH.
      replace (count + (1 + len (jsonTokens v) + len tokens)) with (count + 1 + len (jsonTokens v) + len tokens) by lia. rewrite !Z.lor_assoc. exact IH.
    + rewrite (proj2 (Z.leb_gt (count + _) _)) by lia. by rewrite andb_false_r.
Qed.

Lemma walk_open l ends object rest stack count taint : count + 1 <= MaxTokens l ->
  walkJSON l ends (DelimOpen object :: rest) stack count taint =
  if MaxDepth l <? len stack + 1 then (Z.lor taint TaintOversized, Some (mkJSONError ErrJSONDepth (len stack)))
  else walkJSON l ends rest (mkFrame object object ∅ :: stack) (count + 1) taint.
Proof. intros Hc. cbn [walkJSON]. by rewrite (proj2 (Z.ltb_ge _ _)) by done. Qed.

Lemma walk_close l ends object rest f stack count taint :
  if count + 1 <=? MaxTokens l then walkJSON l ends (DelimClose object :: rest) (f :: stack) count taint = resume l ends rest stack (count + 1) taint
  else refused (walkJSON l ends (DelimClose object :: rest) (f :: stack) count taint).
Proof.
  cbn [walkJSON tail]. destruct (Z.leb_spec (count + 1) (MaxTokens l)); [by rewrite (proj2 (Z.ltb_ge _ _)) by done|]. by rewrite (proj2 (Z.ltb_lt _ _)) by done.
Qed.

Lemma walk_spent l ends token rest stack count taint : MaxTokens l < count + 1 -> refused (walkJSON l ends (token :: rest) stack count taint).
Proof. intros Hc. cbn [walkJSON]. by rewrite (proj2 (Z.ltb_lt _ _)) by done. Qed.

(** Every document. *)
Lemma json_walks l v : walks l v.
Proof.
  induction v as [s|n| |items Hitems|members Hmembers] using json_induction; intros ends rest stack count taint Hplace Hc.
  - cbn [fits jsonTokens app stringsTaint]. change (len [TokenString s]) with 1. destruct (Z.leb_spec (count + 1) (MaxTokens l)) as [Hone|]; [|rewrite andb_false_r; by apply walk_spent].
    cbn [walkJSON]. rewrite (proj2 (Z.ltb_ge (MaxTokens l) _)) by done. rewrite andb_true_r.
    destruct (Z.leb_spec (len s) (MaxStringBytes l)); [rewrite (proj2 (Z.ltb_ge _ _)) by done|by rewrite (proj2 (Z.ltb_lt _ _)) by done].
    destruct stack as [|f stack]; [done|]. cbn [valuePlace] in Hplace. by rewrite Hplace.
  - cbn [fits jsonTokens app stringsTaint]. change (len [TokenNumber n]) with 1. destruct (Z.leb_spec (count + 1) (MaxTokens l)) as [Hone|]; [|rewrite andb_false_r; by apply walk_spent].
    cbn [walkJSON]. rewrite (proj2 (Z.ltb_ge (MaxTokens l) _)), andb_true_r, Z.lor_0_r by done.
    destruct (Z.leb_spec (len n) (MaxNumberBytes l)); [by rewrite (proj2 (Z.ltb_ge _ _)) by done|by rewrite (proj2 (Z.ltb_lt _ _)) by done].
  - cbn [fits jsonTokens app stringsTaint]. change (len [TokenLiteral]) with 1. destruct (Z.leb_spec (count + 1) (MaxTokens l)) as [Hone|]; [|rewrite andb_false_r; by apply walk_spent].
    cbn [walkJSON]. by rewrite (proj2 (Z.ltb_ge (MaxTokens l) _)), Z.lor_0_r by done.
  - cbn [fits jsonTokens stringsTaint app]. set (tokens := concat (map jsonTokens items)).
    assert (len (DelimOpen false :: tokens ++ [DelimClose false]) = len tokens + 2) as -> by (unfold len; simpl; rewrite length_app; simpl; lia).
    pose proof (len_nonneg tokens) as Hn. rewrite <- app_assoc.
    destruct (Z.leb_spec (count + 1) (MaxTokens l)) as [Hone|]; [|rewrite (proj2 (Z.leb_gt (count + _) _)) by lia; rewrite andb_false_r; by apply walk_spent].
    rewrite walk_open by done. destruct (Z.leb_spec (len stack + 1) (MaxDepth l)) as [Hd|Hd]; [rewrite (proj2 (Z.ltb_ge _ _)) by done|by rewrite (proj2 (Z.ltb_lt _ _)) by done].
    pose proof (walk_array l items Hitems ends ([DelimClose false] ++ rest) stack (count + 1) taint Hone) as Hw. fold tokens in Hw. cbn [andb].
    destruct (forallb (fits l (len stack + 1)) items); cbn [andb] in *; [|exact Hw].
    destruct (Z.leb_spec (count + 1 + len tokens) (MaxTokens l)) as [Hle|]; [|by rewrite (proj2 (Z.leb_gt (count + _) _)) by lia]. rewrite Hw.
    pose proof (walk_close l ends false rest (mkFrame false false ∅) stack (count + 1 + len tokens)
      (Z.lor taint (foldr (fun v t => Z.lor (stringsTaint v) t) 0 items))) as Hclose.
    by replace (count + 1 + len tokens + 1) with (count + (len tokens + 2)) in Hclose by lia.
  - cbn [fits jsonTokens stringsTaint app]. set (tokens := concat (map (fun '(k, v) => TokenString k :: jsonTokens v) members)).
    assert (len (DelimOpen true :: tokens ++ [DelimClose true]) = len tokens + 2) as -> by (unfold len; simpl; rewrite length_app; simpl; lia).
    pose proof (len_nonneg tokens) as Hn. rewrite <- app_assoc.
    destruct (Z.leb_spec (count + 1) (MaxTokens l)) as [Hone|]; [|rewrite (proj2 (Z.leb_gt (count + _) _)) by lia; rewrite andb_false_r; by apply walk_spent].
    rewrite walk_open by done. destruct (Z.leb_spec (len stack + 1) (MaxDepth l)) as [Hd|Hd]; [rewrite (proj2 (Z.ltb_ge _ _)) by done|by rewrite (proj2 (Z.ltb_lt _ _)) by done].
    assert (bool_decide (NoDup (map fst members)) = keysNew ∅ members) as ->.
    { apply eq_true_iff_eq. rewrite bool_decide_eq_true, keysNew_NoDup. split; [|tauto]. intros Hnd. split; [done|]. apply Forall_forall. intros x _. set_solver. }
    pose proof (walk_object l members Hmembers ends ([DelimClose true] ++ rest) stack ∅ (count + 1) taint Hone) as Hw. cbv zeta in Hw. fold tokens in Hw. cbn [andb].
    match type of Hw with if ?b && _ then _ else _ => destruct b end; cbn [andb] in *; [|exact Hw].
    destruct (Z.leb_spec (count + 1 + len tokens) (MaxTokens l)) as [Hle|]; [|by rewrite (proj2 (Z.leb_gt (count + _) _)) by lia]. rewrite Hw.
    pose proof (walk_close l ends true rest (mkFrame true true (keysAfter ∅ members)) stack (count + 1 + len tokens)
      (Z.lor taint (foldr (fun '(k, v) t => Z.lor (Z.lor (scanned k) (stringsTaint v)) t) 0 members))) as Hclose.
    by replace (count + 1 + len tokens + 1) with (count + (len tokens + 2)) in Hclose by lia.
Qed.

(** *** Texts that end inside a document *)

(** How many containers the tokens leave open. *)
Definition opened (token : jsonToken) : Z := match token with DelimOpen _ => 1 | DelimClose _ => -1 | _ => 0 end.
Definition net (tokens : list jsonToken) : Z := foldr (fun token n => opened token + n) 0 tokens.

Lemma net_app k m : net (k ++ m) = net k + net m.
Proof. unfold net. induction k as [|t k IH]; simpl; [done|]. rewrite IH. lia. Qed.

(** Within a value nothing closes that it did not open, and it is complete
    only when all of it is there. *)
Definition nested (tokens : list jsonToken) : Prop := net tokens = 0 /\ forall p, p `prefix_of` tokens -> 0 <= net p.
Definition nestedValue (tokens : list jsonToken) : Prop := nested tokens /\ forall p, p `prefix_of` tokens -> p <> [] -> p <> tokens -> 1 <= net p.

Lemma prefix_split {A} (p k m : list A) : p `prefix_of` k ++ m -> p `prefix_of` k \/ exists q, p = k ++ q /\ q `prefix_of` m.
Proof. intros [r Hr]. apply app_eq_inv in Hr as [(q & -> & _)|(q & -> & ->)]; [left; by exists q|right; exists q; split; [done|by exists r]]. Qed.

Lemma nested_app k m : nested k -> nested m -> nested (k ++ m).
Proof.
  intros [Hk Pk] [Hm Pm]. split; [rewrite net_app; lia|]. intros p [Hp|(q & -> & Hq)]%prefix_split; [by apply Pk|]. rewrite net_app, Hk. by apply Pm.
Qed.

Lemma nested_concat l : Forall nested l -> nested (concat l).
Proof.
  induction 1 as [|k l Hk _ IH]; simpl; [|by apply nested_app]. split; [done|]. intros p Hp. by apply prefix_nil_inv in Hp as ->.
Qed.

(** A container around nested tokens. *)
Lemma nested_container object body : nested body -> nestedValue (DelimOpen object :: body ++ [DelimClose object]).
Proof.
  intros [Hb Pb]. assert (forall p, p `prefix_of` DelimOpen object :: body ++ [DelimClose object] ->
    p = [] \/ p = DelimOpen object :: body ++ [DelimClose object] \/ 1 <= net p) as Hp.
  { intros [|t p] Hp; [by left|right]. pose proof (prefix_cons_inv_1 _ _ _ _ Hp) as ->. apply prefix_cons_inv_2 in Hp.
    apply prefix_split in Hp as [Hp|(q & -> & Hq)]; [right; simpl; specialize (Pb _ Hp); unfold net in *; simpl; lia|].
    destruct q as [|x q]; [right; rewrite app_nil_r; unfold net in *; simpl; lia|left]. pose proof (prefix_cons_inv_1 _ _ _ _ Hq) as ->.
    apply prefix_cons_inv_2, prefix_nil_inv in Hq as ->. done. }
  assert (net (DelimOpen object :: body ++ [DelimClose object]) = 0) as Hnet by (change (1 + net (body ++ [DelimClose object]) = 0); rewrite net_app, Hb; done).
  split; [split; [exact Hnet|]|]; intros p Hpre; destruct (Hp p Hpre) as [->|[->|?]]; try done; lia.
Qed.

Lemma tokens_nested v : nestedValue (jsonTokens v).
Proof.
  assert (forall token, opened token = 0 -> nestedValue [token]) as Hone.
  { intros token Ht. split; [split; [unfold net; simpl; lia|]|]; intros [|t p] Hp; try done; pose proof (prefix_cons_inv_1 _ _ _ _ Hp) as ->;
      apply prefix_cons_inv_2, prefix_nil_inv in Hp as ->; [unfold net; simpl; lia|done]. }
  induction v as [s|n| |items Hitems|members Hmembers] using json_induction; cbn [jsonTokens]; [by apply Hone..| |]; apply nested_container, nested_concat, Forall_map.
  - eapply Forall_impl; [exact Hitems|]. by intros v [Hv _].
  - eapply Forall_impl; [exact Hmembers|]. intros [k v] [Hv _]. apply (nested_app [TokenString k]); [apply Hone|]; done.
Qed.

(** The walk accepts only when what was open is closed. *)
Lemma walk_accepts_closed l ends tokens : forall stack count taint, snd (walkJSON l ends tokens stack count taint) = None ->
  tokens <> [] /\ len stack + net tokens <= 0.
Proof.
  induction tokens as [|token rest IH]; intros stack count taint Hw; [cbn [walkJSON] in Hw; by destruct ends|]. split; [done|].
  assert (forall s taint, len s = len stack + opened token \/ s = [] /\ len stack + opened token <= 0 ->
    snd (match toggled s with
     | [] => match rest with [] => if ends then (taint, None) else (taint, Some (mkJSONError ErrJSONTrailing 0)) | _ => (taint, Some (mkJSONError ErrJSONTrailing 0)) end
     | f :: r => walkJSON l ends rest (f :: r) (count + 1) taint end) = None -> len stack + net (token :: rest) <= 0) as Hnext.
  { intros s taint' Hs Hn. unfold net in *. cbn [foldr]. assert (len (toggled s) = len s) as Hlen by (destruct s as [|f s]; [done|]; cbn [toggled]; destruct (Frame_object f); reflexivity).
    destruct (toggled s) as [|f r] eqn:Ht.
    - assert (len s = 0) by (by rewrite <- Hlen). destruct rest; [cbn; lia|done].
    - apply IH in Hn as [_ Hn]. destruct Hs as [Hs|[-> _]]; [lia|done]. }
  cbn [walkJSON] in Hw. destruct (MaxTokens l <? count + 1); [done|]. destruct token as [object|object|value|value|].
  - destruct (MaxDepth l <? len stack + 1); [done|]. apply IH in Hw as [_ Hw]. unfold net in *. unfold len in *. simpl in *. lia.
  - refine (Hnext (tail stack) taint _ Hw). destruct stack as [|f stack]; [right|left]; unfold len; simpl; [done|lia].
  - destruct (MaxStringBytes l <? len value); [done|]. destruct stack as [|f stack]; [refine (Hnext [] (Z.lor taint (scanned value)) _ Hw); by left|].
    destruct (_ && _); [destruct (bool_decide _); [done|]|]; refine (Hnext _ _ _ Hw); left; unfold len; simpl; lia.
  - destruct (MaxNumberBytes l <? len value); [done|]. refine (Hnext _ _ _ Hw). left. simpl. lia.
  - refine (Hnext _ _ _ Hw). left. simpl. lia.
Qed.

(** What [json.Decoder.Token] gives: its delimiters are nested and matched and
    the tokens of an object alternate between keys and values, so that the
    tokens begin with a document, or the text ended, or broke off in an
    error, inside its first one. *)
Definition decoderStream (tokens : list jsonToken) : Prop :=
  exists v, (exists after, tokens = jsonTokens v ++ after) \/ (tokens `prefix_of` jsonTokens v /\ tokens <> jsonTokens v).

Lemma walk_cut_short l ends v tokens count taint : tokens `prefix_of` jsonTokens v -> tokens <> jsonTokens v ->
  refused (walkJSON l ends tokens [] count taint).
Proof.
  intros Hp Hne Hw. apply walk_accepts_closed in Hw as [Hnil Hnet]. destruct (tokens_nested v) as [_ Hopen].
  specialize (Hopen tokens Hp Hnil Hne). change (len []) with 0 in Hnet. lia.
Qed.

(** A walk from the start of a complete document. *)
Lemma walk_document l ends v after : 0 <= MaxTokens l ->
  (snd (walkJSON l ends (jsonTokens v ++ after) [] 0 0) = None <-> after = [] /\ ends = true /\ len (jsonTokens v) <= MaxTokens l /\ fits l 0 v = true) /\
  (snd (walkJSON l ends (jsonTokens v ++ after) [] 0 0) = None -> fst (walkJSON l ends (jsonTokens v ++ after) [] 0 0) = stringsTaint v).
Proof.
  intros Hmax. pose proof (json_walks l v ends after [] 0 0 I Hmax) as Hw. change (len []) with 0 in Hw. rewrite Z.add_0_l, Z.lor_0_l in Hw.
  destruct (fits l 0 v) eqn:Hf; cbn [andb] in Hw; [|split; [split; [done|by intros (_ & _ & _ & ?)]|done]].
  destruct (Z.leb_spec (len (jsonTokens v)) (MaxTokens l)) as [Hle|Hgt]; [|split; [split; [done|intros (_ & _ & ? & _); lia]|done]].
  rewrite Hw. unfold resume. cbn [toggled]. destruct after; [|split; [split; [done|by intros (? & _)]|done]].
  destruct ends; [|split; [split; [done|by intros (_ & ? & _)]|done]]. done.
Qed.

(** C29. Bounded JSON accepts exactly the documents within its bounds. Over any
    tokenizer that answers like [json.Decoder.Token] (its delimiters are
    nested and matched and objects alternate keys and values, but it may stop
    anywhere, at the end of the text or in an error), a text is accepted
    exactly when it is within the byte limit and not blank, its tokens are
    those of one complete document with nothing after it, the tokenizer ends
    at the end of the text, the tokens are at most as many as allowed, and the
    document is within the limits on strings, numbers and nesting and repeats
    no key in any object; and then the taint is that of its strings, keys
    included. *)
Theorem bounded_json_exact tokenize raw limits tokens ends : tokenize raw = (tokens, ends) -> decoderStream tokens ->
  let l := withDefaults limits in
  (snd (BoundedJSON tokenize raw limits) = None <-> len raw <= MaxBytes l /\ blankJSON raw = false /\ ends = true /\
     exists v, tokens = jsonTokens v /\ len tokens <= MaxTokens l /\ fits l 0 v = true) /\
  (forall v, tokens = jsonTokens v -> snd (BoundedJSON tokenize raw limits) = None -> fst (BoundedJSON tokenize raw limits) = stringsTaint v).
Proof.
  intros Ht Hstream l. unfold BoundedJSON. fold l. rewrite Ht. cbn [fst snd].
  assert (0 <= MaxTokens l) as Hmax by (unfold l, withDefaults, orDefault, DefaultMaxTokens; cbn [MaxTokens]; case_match eqn:E; [lia|apply Z.leb_gt in E; lia]).
  destruct (Z.ltb_spec (MaxBytes l) (len raw)) as [Hbig|Hsmall]; [split; [split; [done|intros (? & _); lia]|done]|].
  destruct (blankJSON raw); [split; [split; [done|by intros (_ & ? & _)]|done]|].
  assert (forall v, tokens = jsonTokens v -> (snd (walkJSON l ends tokens [] 0 0) = None <-> ends = true /\ len tokens <= MaxTokens l /\ fits l 0 v = true) /\
    (snd (walkJSON l ends tokens [] 0 0) = None -> fst (walkJSON l ends tokens [] 0 0) = stringsTaint v)) as Hdoc.
  { intros v ->. pose proof (walk_document l ends v [] Hmax) as Hd. rewrite app_nil_r in Hd. tauto. }
  split; [|intros v Hv; by apply Hdoc]. split.
  - intros Hw. destruct Hstream as (v & [(after & ->)|[Hp Hne]]); [|by destruct (walk_cut_short l ends v tokens 0 0 Hp Hne)].
    destruct (proj1 (walk_document l ends v after Hmax)) as [Hacc _]. destruct (Hacc Hw) as (-> & -> & Hle & Hf). rewrite app_nil_r.
    do 3 (split; [done|]). by exists v.
  - intros (_ & _ & Hends & v & Hv & Hle & Hf). by apply (Hdoc v Hv).
Qed.
End JSON.

(** ** Envelopes *)

Section Envelopes.
Context {H : Hasher} {U : UnicodeTables}.

(** The changes an envelope can undergo. *)
Inductive envelopeChange : Type :=
| ChangeAuthenticity (authenticity : Z)
| ChangeTaint (mask : Z)
| ChangeEvidenceClass (class : Z).

Definition changed (c : envelopeChange) (e : Envelope) : Envelope :=
  match c with
  | ChangeAuthenticity a => WithAuthenticity a e
  | ChangeTaint mask => WithTaint mask e
  | ChangeEvidenceClass class => WithEvidenceClass class e
  end.

Definition printableText (s : string) : Prop := Forall printable (bytes_of s).
#[local] Instance printable_dec b : Decision (printable b).
Proof. unfold printable. apply _. Defined.
#[local] Instance printableText_dec s : Decision (printableText s).
Proof. unfold printableText. apply _. Defined.

(** A closed text, by evaluation. *)
Ltac printableLiteral := match goal with |- ?P => apply (bool_decide_eq_true_1 P); vm_compute; reflexivity end.

Lemma printableText_app s t : printableText s -> printableText t -> printableText (s +:+ t).
Proof. unfold printableText. rewrite bytes_of_app. intros. by apply Forall_app. Qed.

Lemma nameAt_printable names v : Forall printableText names -> printableText (nameAt names v).
Proof.
  intros Hn. unfold nameAt. case_match.
  - destruct (nth_in_or_default (Z.to_nat v) names EmptyString) as [Hin| ->]; [|by constructor]. rewrite Forall_forall in Hn. by apply Hn, list_elem_of_In.
  - destruct names; [by constructor|by inversion Hn].
Qed.

Lemma joinNames_printable l : Forall printableText l -> printableText (joinNames "|" l).
Proof.
  induction 1 as [|x l Hx Hl IH]; [by constructor|]. cbn [joinNames]. destruct l; [done|]. apply printableText_app; [done|]. apply printableText_app; [|done].
  vm_compute. repeat constructor; discriminate.
Qed.

Lemma Taint_String_printable t : printableText (Taint_String t).
Proof.
  unfold Taint_String. case_match; [vm_compute; repeat constructor; discriminate|]. apply joinNames_printable. unfold Taint_Names.
  assert (Forall printableText (map snd taintNames)) as Hall by (apply (bool_decide_eq_true_1 (Forall printableText (map snd taintNames))); vm_compute; reflexivity).
  rewrite Forall_forall in *. intros x Hx. apply Hall. apply list_elem_of_In, in_map_iff in Hx as (p & <- & [Hp _]%filter_In). by apply list_elem_of_In, in_map.
Qed.

Lemma hex_printable l : Forall is_byte l -> printableText (hexEncode l).
Proof.
  intros Hl. apply hexEncode_chars in Hl. apply all_chars_forall in Hl. eapply Forall_impl; [exact Hl|]. intros b Hb. unfold hex_char, printable in *.
  rewrite !orb_true_iff, !andb_true_iff, !Z.leb_le in Hb. lia.
Qed.

Lemma quoteRune_printable r : Forall printable (quoteRune r).
Proof.
  unfold quoteRune. repeat case_match; repeat first [apply hexPadded_printable | constructor]; unfold printable; try lia;
    repeat match goal with H : inRange _ _ _ = true |- _ => apply inRange_true in H | H : _ || _ = true |- _ => apply orb_true_iff in H | H : (_ =? _) = true |- _ => apply Z.eqb_eq in H end; try lia.
  all: match goal with H : _ \/ _ |- _ => destruct H as [H|H]; apply Z.eqb_eq in H; lia end.
Qed.

Lemma QuoteForTerminal_printable s : Forall printable (QuoteForTerminal s).
Proof.
  unfold QuoteForTerminal. generalize (length s) as fuel. intros fuel. revert s. induction fuel as [|fuel IH]; intros s; [done|]. destruct s as [|b s]; [done|].
  cbn [quoteLoop]. destruct (decodeRune (b :: s)) as [r size]. apply Forall_app. split; [|apply IH]. case_match; [|apply quoteRune_printable].
  repeat (constructor; [unfold printable; lia|]). apply hexPadded_printable.
Qed.

(** What wrapping fixes: no change touches it. *)
Record wrapped (origin : Z) (raw : list Z) (opts : WrapOptions) (e : Envelope) : Prop := {
  wr_origin : Env_Origin e = origin;
  wr_raw : Payload_raw (Env_Payload e) = raw;
  wr_digest : Env_Digest e = "sha256:" +:+ hexEncode (sum256 raw);
  wr_text : exists policy, validMode policy /\ Render raw policy = Ok (Payload_Rendered (Env_Payload e)) /\ policy ∈ [default DefaultPolicy (Wrap_Policy opts); DefaultPolicy];
  wr_taint : exists t, Env_Taint e = Z.lor t (Z.lor (Z.lor TaintUntrusted (Rendered_Taints (Payload_Rendered (Env_Payload e))))
    (Z.lor (Wrap_ExtraTaint opts) (if negb (Wrap_SkipInstructionScan opts) && fst (LooksInstructionLike raw) then TaintContainsInstructionLike else 0)));
}.

Lemma Wrap_wrapped origin authenticity raw opts : wrapped origin raw opts (Wrap origin authenticity raw opts).
Proof.
  unfold Wrap. split; try done; cbn [Env_Payload Payload_Rendered Env_Taint].
  - set (policy := default DefaultPolicy (Wrap_Policy opts)). destruct (Render raw policy) as [r|e] eqn:Hr.
    + exists policy. split_and!; [|done|set_solver]. unfold Render in Hr. apply reject_Ok in Hr as [Hm _]. unfold validMode.
      apply andb_false_iff in Hm as [Hm|Hm]; apply negb_false_iff, Z.eqb_eq in Hm; auto.
    + exists DefaultPolicy. destruct (render_safe raw DefaultPolicy ltac:(by left)) as (r & Hd & _). rewrite Hd. split_and!; [by left|done|set_solver].
  - exists 0. rewrite Z.lor_0_l. case_match; rewrite ?Z.lor_0_r, ?Z.lor_assoc; done.
Qed.

Lemma changed_wrapped origin raw opts c e : wrapped origin raw opts e -> wrapped origin raw opts (changed c e).
Proof.
  intros [Ho Hr Hd Ht (t & Hta)]. destruct c as [a|mask|class]; split; try done; [by exists t| |by exists t]. exists (Z.lor mask t). cbn [changed WithTaint Env_Taint Env_Payload].
  rewrite Hta, (Z.lor_comm _ mask), Z.lor_assoc. done.
Qed.

(** Nothing an envelope can undergo gives its content more than it had.
    Whatever authenticity, class or taint is set on it afterwards, it keeps
    the bytes, the digest and the origin it was wrapped with; every taint bit
    of the wrapping stays, the bits for shapes found in the bytes among them;
    its text stays safe to print; and its line for logs is one line of
    printable ASCII. *)
Theorem envelope_inviolable origin authenticity raw opts changes : let e := foldl (fun e c => changed c e) (Wrap origin authenticity raw opts) changes in
  Env_Origin e = origin /\ Payload_raw (Env_Payload e) = raw /\ Env_Digest e = "sha256:" +:+ hexEncode (sum256 raw) /\
  Taint_Has (Env_Taint e) (Z.lor TaintUntrusted (Wrap_ExtraTaint opts)) = true /\
  (exists t, Scan raw = Ok t /\ Taint_Has (Env_Taint e) (Z.land t shapes) = true) /\
  Forall (safeByte false) (Env_Text e) /\ Forall printable (Env_String e).
Proof.
  intros e. assert (wrapped origin raw opts e) as [Ho Hr Hd (policy & Hmode & Hren & _) (t & Ht)].
  { unfold e. induction changes as [|c changes IH] using rev_ind; [apply Wrap_wrapped|]. rewrite foldl_snoc. by apply changed_wrapped. }
  assert (forall a b c, Z.land (Z.lor a (Z.lor b c)) b = b) as Hkeep.
  { intros a b c. apply Z.bits_inj'. intros n Hn. rewrite Z.land_spec, !Z.lor_spec. by destruct (Z.testbit a n), (Z.testbit b n), (Z.testbit c n). }
  split_and!; try done.
  - apply Z.eqb_eq. rewrite Ht. apply Z.bits_inj'. intros n Hn. rewrite Z.land_spec, !Z.lor_spec. by repeat match goal with |- context [Z.testbit ?x n] => destruct (Z.testbit x n) end.
  - destruct (scan_exact raw) as (s & Hs & _ & _ & Hshapes). exists s. split; [done|]. specialize (Hshapes policy _ Hren). rewrite <- Hshapes.
    apply Z.eqb_eq. rewrite Ht. apply Z.bits_inj'. intros n Hn. rewrite !Z.land_spec, !Z.lor_spec.
    by repeat match goal with |- context [Z.testbit ?x n] => destruct (Z.testbit x n) end.
  - destruct (render_safe raw policy Hmode) as (r & Hr' & Hsafe & _). rewrite Hren in Hr'. injection Hr' as <-. eapply Forall_impl; [exact Hsafe|].
    intros b [?|[?|[_ ?]]]; unfold safeByte; auto.
  - unfold Env_String. rewrite Hd, bytes_of_app. repeat (apply Forall_app; split);
      [by apply nameAt_printable; printableLiteral|printableLiteral|by apply nameAt_printable; printableLiteral|printableLiteral|printableLiteral
      |printableLiteral|apply Taint_String_printable|printableLiteral|printableLiteral|apply hex_printable, sum256_bytes|printableLiteral
      |apply QuoteForTerminal_printable].
Qed.
End Envelopes.

(** ** Witnesses *)

Definition demoDocument : json := JObject [(bytes_of "a", JArray [JNumber [49]; JLiteral]); (bytes_of "b", JString (bytes_of "run"))].
Definition demoTokenize (raw : list Z) : list jsonToken * bool := (jsonTokens demoDocument, true).
(** The same text, cut short before it closes. *)
Definition cutTokenize (raw : list Z) : list jsonToken * bool := (take 8 (jsonTokens demoDocument), true).

Lemma bounded_json_exact_witness :
  snd (@BoundedJSON plainTables demoTokenize (bytes_of "{") (mkLimits 0 2 9 0 0)) = None /\
  snd (@BoundedJSON plainTables demoTokenize (bytes_of "{") (mkLimits 0 1 9 0 0)) <> None /\
  snd (@BoundedJSON plainTables cutTokenize (bytes_of "{") (mkLimits 0 2 9 0 0)) <> None.
Proof.
  assert (decoderStream (jsonTokens demoDocument)) as Hwhole by (exists demoDocument; left; exists []; by rewrite app_nil_r).
  assert (decoderStream (take 8 (jsonTokens demoDocument))) as Hcut.
  { exists demoDocument. right. split; [apply prefix_take|]. vm_compute. discriminate. }
  split; [|split].
  - apply (@bounded_json_exact plainTables demoTokenize (bytes_of "{") (mkLimits 0 2 9 0 0) _ true eq_refl Hwhole).
    split; [vm_compute; discriminate|]. split; [reflexivity|]. split; [reflexivity|]. exists demoDocument.
    split_and!; [reflexivity|vm_compute; discriminate|vm_compute; reflexivity].
  - intros E. pose proof (proj2 (@bounded_json_exact plainTables demoTokenize (bytes_of "{") (mkLimits 0 1 9 0 0) _ true eq_refl Hwhole) demoDocument eq_refl E) as Ht.
    vm_compute in E. discriminate E.
  - intros E. apply (@bounded_json_exact plainTables cutTokenize (bytes_of "{") (mkLimits 0 2 9 0 0) _ true eq_refl Hcut) in E as (_ & _ & _ & v & Hv & _).
    destruct (tokens_nested v) as [[Hnet _] _]. rewrite <- Hv in Hnet. vm_compute in Hnet. discriminate Hnet.
Defined.
