(* ===== verification/EventFacts.v ===== *)
(** * Event envelopes and their signatures: theorems

    The wire form of a valid envelope stands for it, so that what a source
    signs, what Core stores and what it reads back are one envelope; a signed
    envelope verifies, and a signature cannot be moved to another one. *)

From S2P Require Import Prelude Sha256 Digest Contract Plan Events.
From stdpp Require Import base gmap list strings pretty.
From Stdlib Require Import ZArith Lia.

Open Scope Z_scope.

(** ** Enumerations and times *)

Lemma containsValue_elem values v : containsValue values v = true <-> v ∈ values.
Proof.
  unfold containsValue. rewrite existsb_exists. split.
  - intros (x & Hx%list_elem_of_In & ->%eqs_true). done.
  - intros Hv. exists v. by rewrite <- list_elem_of_In, eqs_refl.
Qed.

(** A name of the list comes back from its number, and its number is listed. *)
Definition named (table : list (string * Z)) (values : list string) : Prop :=
  Forall (fun v => trimEnum table (lookupName table v) = v /\ enumListed table (lookupName table v) = true) values.

Lemma named_containsValue table values v : named table values -> containsValue values v = true ->
  trimEnum table (lookupName table v) = v /\ enumListed table (lookupName table v) = true.
Proof. unfold named. rewrite Forall_forall. intros Hn Hv%containsValue_elem. by apply Hn. Qed.

Ltac named_tac := unfold named; repeat (apply Forall_cons; split; [split; vm_compute; reflexivity|]); apply Forall_nil; exact I.

Lemma class_named c : EvidenceClass_Valid c = true ->
  trimEnum EvidenceClass_names (lookupName EvidenceClass_names c) = c /\ enumListed EvidenceClass_names (lookupName EvidenceClass_names c) = true.
Proof. apply named_containsValue. named_tac. Qed.

Lemma sensitivity_named c : Sensitivity_Valid c = true ->
  trimEnum Sensitivity_names (lookupName Sensitivity_names c) = c /\ enumListed Sensitivity_names (lookupName Sensitivity_names c) = true.
Proof. apply named_containsValue. named_tac. Qed.

Lemma role_named c : validEvidenceRole c = true ->
  trimEnum EvidenceRole_names (lookupName EvidenceRole_names c) = c /\ enumListed EvidenceRole_names (lookupName EvidenceRole_names c) = true.
Proof. apply named_containsValue. named_tac. Qed.

Lemma source_named c : validEvidenceSource c = true ->
  trimEnum EvidenceSourceType_names (lookupName EvidenceSourceType_names c) = c /\
  enumListed EvidenceSourceType_names (lookupName EvidenceSourceType_names c) = true.
Proof. apply named_containsValue. named_tac. Qed.

Lemma location_named c : validLocationPrecision c = true ->
  locationPrecisionFromProto (lookupName LocationPrecision_names c) = c /\
  enumListed LocationPrecision_names (lookupName LocationPrecision_names c) = true.
Proof.
  unfold validLocationPrecision. intros Hc%containsValue_elem. revert c Hc. apply Forall_forall.
  repeat (apply Forall_cons; split; [split; vm_compute; reflexivity|]). by apply Forall_nil.
Qed.

Lemma event_AsTime_New t : AsTime (Timestamp_New t) = t.
Proof. unfold AsTime, Timestamp_New, Second. simpl. by rewrite <- time_split. Qed.

Lemma IsZero_false t : IsZero t = false <-> t <> zeroTime.
Proof. unfold IsZero. rewrite Z.eqb_neq. done. Qed.

(** The first valid instant is Go's zero time. *)
Lemma validProtoTime_ge t : validProtoTime t = true -> zeroTime <= t.
Proof.
  unfold validProtoTime, Timestamp_CheckValid, Timestamp_New, zeroTime. simpl. intros H.
  rewrite (time_split t). assert (0 <= Nanosecond t) by (unfold Nanosecond; apply Z.mod_pos_bound; lia).
  assert (-62135596800 <= Unix t) by (apply andb_true_iff in H as [[[H _]%andb_true_iff _]%andb_true_iff _]; lia). lia.
Qed.

Lemma requiredTimestamp_Ok t : validProtoTime t = true -> t <> zeroTime -> requiredTimestamp t = Ok (Some (Timestamp_New t)).
Proof. unfold requiredTimestamp, validProtoTime. intros Hv Hz%IsZero_false. by rewrite Hz, Hv. Qed.

Lemma timestampToTime_New t b : validProtoTime t = true -> timestampToTime (Some (Timestamp_New t)) b = Ok t.
Proof. unfold timestampToTime, validProtoTime. intros Hv. by rewrite Hv, event_AsTime_New. Qed.

(** An optional time, with the zero time read as absent. *)
Definition presentTime (t : option time) : option time := match t with Some t => if IsZero t then None else Some t | None => None end.

Lemma optional_roundtrip t : match t with Some t => validProtoTime t | None => true end = true ->
  exists w, optionalTimestamp t = Ok w /\ timestampToPointer w = Ok (presentTime t).
Proof.
  destruct t as [t|]; simpl; [|by exists None]. intros Hv. destruct (IsZero t) eqn:Hz; [by exists None|].
  exists (Some (Timestamp_New t)). rewrite requiredTimestamp_Ok by (by apply IsZero_false || done). split; [done|].
  unfold timestampToPointer. rewrite timestampToTime_New by done. simpl. by rewrite Hz.
Qed.

Lemma digest_roundtrip d : digestFromProto (digestToProto d) = d.
Proof.
  unfold digestToProto. destruct (eqs _ _ && _) eqn:Hd; [|done]. apply andb_true_iff in Hd as [Ha%eqs_true Hl].
  destruct d as [a l]; simpl in *. subst a. destruct l; [done|]. unfold len in Hl. simpl in Hl. lia.
Qed.

(** ** The wire form *)

(** An envelope as its wire form keeps it: a zero receipt time of an evidence
    reference is no receipt time, and the ordinal of Core stays in Core. *)
Definition normalEvidence (e : EventEvidence) : EventEvidence :=
  mkEventEvidence (EE_ID e) (EE_Role e) (EE_Classification e) (EE_SourceType e) (EE_Source e) (EE_SourceURI e) (EE_ObservedAt e)
    (presentTime (EE_ReceivedAt e)) (EE_LastVerifiedAt e) (EE_ExpiresAt e) (EE_Confidence e) (EE_Sensitivity e) (EE_LocationPrecision e)
    (EE_Explanation e) (EE_Integrity e) (EE_SourceLicense e) (EE_Attributes e).

Definition normalEvent (e : EventEnvelope) : EventEnvelope :=
  mkEvent (Event_ID e) (Event_SchemaVersion e) (Event_DeploymentID e) (Event_NodeID e) (Event_Kind e) (Event_ObservedAt e) (Event_ReceivedAt e)
    (Event_Sequence e) (Event_BootID e) (Event_Classification e) (Event_Confidence e) (Event_Sensitivity e) (Event_PayloadTypeURL e)
    (Event_Payload e) (normalEvidence <$> Event_Evidence e) (Event_CorrelationID e) (Event_CausationID e) (Event_PayloadDigest e)
    (Event_SourceSignature e) 0.

Definition evidencesKnown (v : wireEvidence) : bool :=
  enumListed EvidenceRole_names (WE_Role v) && enumListed EvidenceClass_names (WE_Classification v)
  && enumListed EvidenceSourceType_names (WE_SourceType v) && enumListed Sensitivity_names (WE_Sensitivity v)
  && enumListed LocationPrecision_names (WE_LocationPrecision v).

(** Conjuncts of a disjunction of refusals that did not fire. *)
Ltac refuted :=
  repeat match goal with
  | Hv : _ || _ = false |- _ => apply orb_false in Hv as [? Hv]
  | Hv : negb _ = false |- _ => apply negb_false_iff in Hv
  end.

Lemma evidence_roundtrip s e : validateEvidence s e = Ok tt ->
  exists w, evidenceToProto e = Ok w /\ evidenceFromProto (Some w) = Ok (normalEvidence e) /\ evidencesKnown w = true.
Proof.
  unfold validateEvidence. intros Hv. validated Hv. refuted.
  match goal with Ht : validEvidence_times e = true |- _ => unfold validEvidence_times in Ht; simpl in Ht;
    rewrite !andb_true_iff in Ht; destruct Ht as (Hr & Hl & Hx & _) end.
  assert (EE_ObservedAt e <> zeroTime) as Hz by (by apply IsZero_false).
  match goal with Ho : validProtoTime (EE_ObservedAt e) = true |- _ => rename Ho into Hobs end.
  pose proof (validProtoTime_ge _ Hobs) as Hge.
  destruct (optional_roundtrip _ Hr) as (wr & Hwr & Hwr'). destruct (optional_roundtrip _ Hl) as (wl & Hwl & Hwl').
  destruct (optional_roundtrip _ Hx) as (wx & Hwx & Hwx').
  assert (presentTime (EE_LastVerifiedAt e) = EE_LastVerifiedAt e) as Pl.
  { destruct (EE_LastVerifiedAt e) as [t|]; [|done]. simpl. replace (IsZero t) with false; [done|]. symmetry. apply IsZero_false. lia. }
  assert (presentTime (EE_ExpiresAt e) = EE_ExpiresAt e) as Px.
  { destruct (EE_ExpiresAt e) as [t|]; [|done]. simpl. replace (IsZero t) with false; [done|]. symmetry. apply IsZero_false.
    refuted. lia. }
  edestruct class_named as [C1 C2]; [eassumption|]. edestruct sensitivity_named as [S1 S2]; [eassumption|].
  edestruct role_named as [R1 R2]; [eassumption|]. edestruct source_named as [O1 O2]; [eassumption|].
  edestruct location_named as [L1 L2]; [eassumption|].
  unfold evidenceToProto. rewrite requiredTimestamp_Ok, Hwr, Hwl, Hwx by done. cbn [rbind]. eexists. split; [reflexivity|]. split.
  - unfold evidenceFromProto. cbn [WE_ObservedAt WE_ReceivedAt WE_LastVerifiedAt WE_ExpiresAt WE_Id WE_Role WE_Classification WE_SourceType
      WE_SourceName WE_SourceUri WE_Confidence WE_Sensitivity WE_LocationPrecision WE_Summary WE_Integrity WE_SourceLicense WE_Attributes].
    rewrite timestampToTime_New, Hwr', Hwl', Hwx' by done. cbn [rbind]. by rewrite C1, S1, R1, O1, L1, Pl, Px, digest_roundtrip.
  - unfold evidencesKnown. cbn [WE_Role WE_Classification WE_SourceType WE_Sensitivity WE_LocationPrecision]. by rewrite C2, S2, R2, O2, L2.
Qed.

Lemma evidences_roundtrip s l : each (validateEvidence s) l = Ok tt ->
  exists ws, mapR evidenceToProto l = Ok ws /\ mapR evidenceFromProto (Some <$> ws) = Ok (normalEvidence <$> l) /\
    forallb (fun o => match o with None => true | Some v => evidencesKnown v end) (Some <$> ws) = true.
Proof.
  induction l as [|e l IH]; intros Hv; [by exists []|]. cbn [each] in Hv. apply rbind_Ok in Hv as ([] & He & Hl).
  destruct (evidence_roundtrip _ _ He) as (w & Hw & Hf & Hk). destruct (IH Hl) as (ws & Hws & Hfs & Hks).
  exists (w :: ws). cbn [mapR]. rewrite Hw, Hws. cbn [rbind]. split; [done|]. rewrite !fmap_cons. cbn [mapR forallb].
  rewrite Hf, Hfs, Hk, Hks. done.
Qed.

Section Facts.
Context {H : Hasher} {E : Ed25519} {EC : EventCodec}.
Context (checkMessage : string -> list Z -> string -> result unit) (validateOpaqueProtobuf : list Z -> result unit).

Abbreviation Validate := (EventEnvelope_Validate checkMessage validateOpaqueProtobuf).
Abbreviation Verify := (VerifySource checkMessage validateOpaqueProtobuf).
Abbreviation ValidateSource := (ValidateSourceContent checkMessage validateOpaqueProtobuf).

(** The times of an envelope that its validation leaves open. *)
Definition representable (e : EventEnvelope) : Prop :=
  validProtoTime (ES_SignedAt (Event_SourceSignature e)) = true /\
  (Event_ReceivedAt e = zeroTime \/ validProtoTime (Event_ReceivedAt e) = true).

Lemma received_roundtrip t : t = zeroTime \/ validProtoTime t = true ->
  exists w, (if IsZero t then Ok None else requiredTimestamp t) = Ok w /\ timestampToTime w false = Ok t.
Proof.
  intros Ht. destruct (IsZero t) eqn:Hz.
  - exists None. split; [done|]. unfold IsZero in Hz. simpl. f_equal. lia.
  - apply IsZero_false in Hz. destruct Ht as [?|Ht]; [done|]. exists (Some (Timestamp_New t)).
    by rewrite requiredTimestamp_Ok, timestampToTime_New.
Qed.

Lemma signature_roundtrip s : EventSignature_Validate s = Ok tt -> validProtoTime (ES_SignedAt s) = true ->
  exists w, signatureToProto s = Ok w /\ signatureFromProto w = Ok s /\
    enumListed SignatureAlgorithm_names (Signature_Algorithm w) && enumListed SignatureEncoding_names (Signature_Encoding w) = true.
Proof.
  unfold EventSignature_Validate. intros Hv Ht. validated Hv. refuted.
  repeat match goal with He : eqs _ _ = true |- _ => apply eqs_true in He end.
  unfold signatureToProto. rewrite requiredTimestamp_Ok by (done || by apply IsZero_false). cbn [rbind]. eexists. split; [reflexivity|].
  unfold signatureFromProto. cbn [Signature_KeyId Signature_Algorithm Signature_Value Signature_SignedAt Signature_Encoding
    Signature_SignedContentDigest Signature_Domain].
  rewrite timestampToTime_New, digest_roundtrip by done. destruct s; simpl in *; subst. done.
Qed.

(** A key id that is not blank is not empty. *)
Lemma notBlank s : eqs (TrimSpace s) EmptyString = false -> s <> EmptyString.
Proof. intros Hs ->. done. Qed.

(** No signature yet, or one a wire message can carry. *)
Definition signatureFits (s : EventSignature) : Prop :=
  s = noSignature \/ (EventSignature_Validate s = Ok tt /\ validProtoTime (ES_SignedAt s) = true).

Lemma signatureFits_roundtrip s : signatureFits s ->
  exists w, (if negb (eqs (ES_KeyID s) EmptyString) || (0 <? len (ES_Value s)) then do s <- signatureToProto s; Ok (Some s) else Ok None) = Ok w /\
    match w with None => Ok noSignature | Some s => signatureFromProto s end = Ok s /\
    match w with None => true
    | Some s => enumListed SignatureAlgorithm_names (Signature_Algorithm s) && enumListed SignatureEncoding_names (Signature_Encoding s) end = true.
Proof.
  intros [->|[Hv Ht]]; [by exists None|]. destruct (signature_roundtrip _ Hv Ht) as (w & Hw & Hf & Hk). exists (Some w).
  assert (negb (eqs (ES_KeyID s) EmptyString) = true) as Hkey.
  { unfold EventSignature_Validate in Hv. validated Hv. apply negb_true_iff, slen_nonempty. by apply notBlank. }
  rewrite Hkey, Hw. done.
Qed.

Lemma wire_roundtrip (wireSize : wireEvent -> Z) e : ValidateSource e = Ok tt -> signatureFits (Event_SourceSignature e) ->
  Event_ReceivedAt e = zeroTime \/ validProtoTime (Event_ReceivedAt e) = true ->
  exists w, EventToProto e = Ok w /\ plainWire w = true /\ Wire_Id w = Event_ID e /\ Wire_NodeId w = Event_NodeID e /\
    Wire_BootId w = Event_BootID e /\ Wire_Sequence w = Event_Sequence e /\
    EventFromProto wireSize (Some w) = (if MaximumEventWireBytes <? wireSize w then Err ErrEnvelopeSize else Ok (normalEvent e)).
Proof.
  unfold ValidateSourceContent. intros Hc Hs Hr. validated Hc. refuted.
  edestruct class_named as [C1 C2]; [eassumption|]. edestruct sensitivity_named as [S1 S2]; [eassumption|].
  destruct (evidences_roundtrip _ _ Hc) as (ws & Hws & Hfs & Hks). destruct (received_roundtrip _ Hr) as (wr & Hwr & Hwr').
  destruct (signatureFits_roundtrip _ Hs) as (wsig & Hwsig & Hwsig' & Hk).
  unfold EventToProto. rewrite requiredTimestamp_Ok, Hwr, Hws, Hwsig by (done || by apply IsZero_false). cbn [rbind].
  eexists. split; [reflexivity|]. split.
  { unfold plainWire. cbn [Wire_Evidence Wire_Unknown]. rewrite andb_true_r. clear. by induction ws. }
  do 4 (split; [reflexivity|]).
  unfold EventFromProto. destruct (_ <? _); [done|].
  replace (wireKnown _) with true.
  2: { unfold wireKnown. cbn [Wire_Unknown Wire_Classification Wire_Sensitivity Wire_Evidence Wire_SourceSignature].
       unfold evidencesKnown in Hks. by rewrite C2, S2, Hks, Hk. }
  cbn [negb Wire_ObservedAt Wire_ReceivedAt Wire_Payload Wire_Evidence Wire_SourceSignature].
  rewrite timestampToTime_New, Hwr' by done. cbn [rbind]. rewrite Hfs, Hwsig'. cbn [rbind].
  cbn [Wire_Id Wire_SchemaVersion Wire_DeploymentId Wire_NodeId Wire_Kind Wire_Sequence Wire_BootId Wire_Classification Wire_Confidence
    Wire_Sensitivity Wire_CorrelationId Wire_CausationId Wire_PayloadDigest Any_TypeUrl Any_Value].
  by rewrite C1, S1, digest_roundtrip.
Qed.

(** Converting succeeds only on times the wire can carry. *)
Lemma toProto_times e w : EventToProto e = Ok w -> ES_KeyID (Event_SourceSignature e) <> EmptyString -> representable e.
Proof.
  unfold EventToProto. intros Hw Hk. validated Hw. apply slen_nonempty in Hk. rewrite Hk in Hv2. cbn [negb orb] in Hv2.
  validated Hv2. unfold signatureToProto in Hv3. validated Hv3. unfold requiredTimestamp in *. validated Hv4. refuted. split; [done|].
  destruct (IsZero (Event_ReceivedAt e)) eqn:Hz; [left; unfold IsZero in Hz; lia|]. right. validated Hv0. by refuted.
Qed.

Lemma validate_fits e w : Validate e = Ok tt -> EventToProto e = Ok w ->
  ValidateSource e = Ok tt /\ signatureFits (Event_SourceSignature e) /\ representable e.
Proof.
  unfold EventEnvelope_Validate. intros Hv Hw. apply rbind_Ok in Hv as ([] & Hc & Hsig).
  assert (representable e) as Hr.
  { eapply toProto_times; [done|]. unfold EventSignature_Validate in Hsig. validated Hsig. by apply notBlank. }
  split; [done|]. split; [|done]. right. split; [done|apply Hr].
Qed.

(** C11. The wire form stands for the envelope. A valid envelope whose times the
    wire can carry converts to a message that keeps its id, node, boot and
    sequence and that the encoding tells apart from every other; converting
    the message back, when it is within the size bound, gives the envelope,
    with a zero receipt time of its evidence read as none. *)
Theorem event_roundtrip (wireSize : wireEvent -> Z) e : Validate e = Ok tt -> representable e ->
  exists w, EventToProto e = Ok w /\ plainWire w = true /\ Wire_Id w = Event_ID e /\ Wire_NodeId w = Event_NodeID e /\
    Wire_BootId w = Event_BootID e /\ Wire_Sequence w = Event_Sequence e /\
    (wireSize w <= MaximumEventWireBytes -> EventFromProto wireSize (Some w) = Ok (normalEvent e)).
Proof.
  unfold EventEnvelope_Validate. intros Hv [Hs Hr]. apply rbind_Ok in Hv as ([] & Hc & Hsig).
  destruct (wire_roundtrip wireSize e Hc) as (w & Hw & Hp & ? & ? & ? & ? & Hf); [by right|done|]. exists w. do 6 (split; [done|]).
  intros Hle. rewrite Hf. replace (_ <? _) with false by lia. done.
Qed.

(** ** Signatures *)

(** What a source signs: the envelope without receipt time and signature. *)
Definition sourceContent (e : EventEnvelope) : EventEnvelope := setSourceSignature noSignature (setReceivedAt zeroTime (normalEvent e)).

Lemma strip_toProto e w : EventToProto e = Ok w ->
  EventToProto (setSourceSignature noSignature (setReceivedAt zeroTime e)) = Ok (clearSignature (clearReceived w)).
Proof.
  unfold EventToProto. intros Hw. validated Hw. injection Hw as <-. destruct e; cbn in *. rewrite Hv, Hv1. reflexivity.
Qed.

(** The signature of an envelope is not part of its own digest. *)
Lemma resign_toProto s e w : EventToProto e = Ok w -> signatureFits s ->
  exists w', EventToProto (setSourceSignature s e) = Ok w' /\ clearSignature (clearReceived w') = clearSignature (clearReceived w).
Proof.
  unfold EventToProto. intros Hw (ws & Hs & _)%signatureFits_roundtrip. validated Hw. injection Hw as <-. destruct e; cbn in *.
  rewrite Hv, Hv0, Hv1. cbn [rbind]. rewrite Hs. cbn [rbind]. eexists. split; [reflexivity|]. reflexivity.
Qed.

Lemma signingDigest_inv e d : signingDigest e = Ok d -> exists w b, EventToProto e = Ok w /\
  eventMarshal (clearSignature (clearReceived w)) = Some b /\ d = sum256 b.
Proof.
  unfold signingDigest, rejectUnknown, marshalWire. intros Hd. validated Hd. destruct (eventMarshal _) as [b|] eqn:Hb; [|done].
  injection Hd as <-. injection Hv1 as <-. by exists a, b.
Qed.

Lemma resign_digest s e d : signingDigest e = Ok d -> signatureFits s -> signingDigest (setSourceSignature s e) = Ok d.
Proof.
  intros Hd Hs. pose proof Hd as (w & b & Hw & Hb & ->)%signingDigest_inv. destruct (resign_toProto s e w Hw Hs) as (w' & Hw' & Hc).
  revert Hd. unfold signingDigest. rewrite Hw, Hw'. cbn [rbind]. cbv zeta. by rewrite Hc.
Qed.

Lemma resign_source s e : ValidateSource (setSourceSignature s e) = ValidateSource e.
Proof. by destruct e. Qed.

(** A signed envelope verifies: what a source signs with its node key, at an
    instant the wire can carry, is the envelope with its payload digest and a
    signature added, and Core accepts it under the public half of the key. *)
Theorem signed_event_verifies e key signedAt e' :
  ed_key key -> validProtoTime signedAt = true ->
  SignAt checkMessage validateOpaqueProtobuf e (Event_NodeID e) key signedAt = Ok e' ->
  Verify e' (Public key) = Ok tt /\
  e' = setSourceSignature (Event_SourceSignature e') (setPayloadDigest (mkIntegrity "sha256" (sum256 (Event_Payload e))) e).
Proof.
  intros Hkey Ht Hs. unfold SignAt in Hs. cbv zeta in Hs. validated Hs. injection Hs as <-.
  set (e0 := setPayloadDigest (mkIntegrity "sha256" (sum256 (Event_Payload e))) e) in *.
  set (sig := signed (mkEventSignature (Event_NodeID e) "ED25519" [] signedAt "PROTOBUF_DETERMINISTIC_V1" (mkIntegrity "sha256" a) eventDomain)
    (ed_sign key a0)) in *.
  split; [|by destruct e]. unfold VerifySource.
  assert (len (Public key) = PublicKeySize) as Hl.
  { unfold Public, PublicKeySize, len. rewrite length_drop, (ed_key_length _ Hkey). done. }
  rewrite Hl. cbn [negb Z.eqb PublicKeySize Pos.eqb]. rewrite Hv5. cbn [rbind].
  assert (signatureFits sig) as Hfit.
  { right. split; [|done]. unfold EventEnvelope_Validate in Hv5. apply rbind_Ok in Hv5 as ([] & _ & Hsig). by destruct e. }
  replace (eqs _ _) with true by (symmetry; apply eqs_true; by destruct e). cbn [negb].
  rewrite (resign_digest _ _ _ Hv3 Hfit). cbn [rbind].
  replace (Event_SourceSignature (setSourceSignature sig e0)) with sig by (by destruct e).
  replace (ES_SignedContentDigest sig) with (mkIntegrity "sha256" a) by done. cbn [Integrity_Digest].
  rewrite bool_decide_true by done. cbn [negb].
  replace (eventSignatureInput sig) with (Ok a0). cbn [rbind]. replace (ES_Value sig) with (ed_sign key a0) by done.
  unfold Public. by rewrite ed_verify_sign.
Qed.

(** The bytes whose digest a source signs. *)
Definition signableBytes (e : EventEnvelope) : option (list Z) :=
  match EventToProto e with
  | Ok w => eventMarshal (clearSignature (clearReceived w))
  | Err _ => None
  end.

(** A signature cannot be moved: two envelopes that Core verified, under
    whatever keys, with the same signed-content digest carry the same source
    content, every field of it, unless their own signable bytes are a
    collision of the hash. *)
Theorem event_tamper_evident e1 e2 pk1 pk2 :
  Verify e1 pk1 = Ok tt -> Verify e2 pk2 = Ok tt ->
  Integrity_Digest (ES_SignedContentDigest (Event_SourceSignature e1)) = Integrity_Digest (ES_SignedContentDigest (Event_SourceSignature e2)) ->
  exists b1 b2, signableBytes e1 = Some b1 /\ signableBytes e2 = Some b2 /\ (sourceContent e1 = sourceContent e2 \/ collision b1 b2).
Proof.
  assert (forall e pk, Verify e pk = Ok tt -> exists w b, EventToProto e = Ok w /\ eventMarshal (clearSignature (clearReceived w)) = Some b /\
    plainWire (clearSignature (clearReceived w)) = true /\
    EventFromProto (fun _ => 0) (Some (clearSignature (clearReceived w))) = Ok (sourceContent e) /\
    Integrity_Digest (ES_SignedContentDigest (Event_SourceSignature e)) = sum256 b) as Hall.
  { intros e pk Hv. unfold VerifySource in Hv. validated Hv. refuted. apply bool_decide_eq_true in Hv4.
    pose proof Hv3 as (w & b & Hw & Hb & ->)%signingDigest_inv. exists w, b. do 2 (split; [done|]).
    destruct (validate_fits e w Hv1 Hw) as (Hc & _ & _). pose proof (strip_toProto _ _ Hw) as Hst.
    assert (ValidateSource (setSourceSignature noSignature (setReceivedAt zeroTime e)) = Ok tt) as Hc' by (by destruct e).
    destruct (wire_roundtrip (fun _ => 0) _ Hc') as (w' & Hw' & Hp & _ & _ & _ & _ & Hf); [by left; destruct e..|].
    rewrite Hst in Hw'. injection Hw' as <-. split; [done|]. split; [|done]. rewrite Hf. by destruct e. }
  intros (w1 & b1 & Hw1 & Hb1 & Hp1 & Hf1 & Hd1)%Hall (w2 & b2 & Hw2 & Hb2 & Hp2 & Hf2 & Hd2)%Hall Heq. rewrite Hd1, Hd2 in Heq.
  exists b1, b2. unfold signableBytes. rewrite Hw1, Hw2. do 2 (split; [done|]).
  destruct (decide (b1 = b2)) as [->|Hne]; [|by right]. left.
  pose proof (event_codec _ _ Hp1 Hb1) as Hu1. pose proof (event_codec _ _ Hp2 Hb2) as Hu2. rewrite Hu1 in Hu2. apply (inj Some) in Hu2 as Hu.
  rewrite Hu, Hf2 in Hf1. congruence.
Qed.
End Facts.
