(* ===== verification/EventStoreFacts.v ===== *)
(** * The event log of Core: theorems

    What Core accepted of a node and boot is 1, 2, 3, ... without a gap or a
    repetition, whatever statements failed and whatever retention deleted; a
    boot that was followed by another never comes back; a source that sends
    an envelope again gets the first answer again and changes nothing. *)

From S2P Require Import Prelude Sha256 Digest Contract Plan Events EventStore EventFacts.
From stdpp Require Import base gmap list strings pretty sorting.
From Stdlib Require Import ZArith Lia Sorted.

Open Scope Z_scope.

Section Facts.
Context {H : Hasher} {E : Ed25519} {EC : EventCodec}.
Context (checkMessage : string -> list Z -> string -> result unit) (validateOpaqueProtobuf : list Z -> result unit).
Context (wireSize : wireEvent -> Z).

Abbreviation Append sqlFails := (AppendEvent checkMessage validateOpaqueProtobuf wireSize sqlFails).
Abbreviation Validate := (EventEnvelope_Validate checkMessage validateOpaqueProtobuf).
Abbreviation unmarshal := (unmarshalEvent checkMessage validateOpaqueProtobuf wireSize).

(** ** Statements and transactions *)

Lemma wp_statement {T} sqlFails e (f : T -> T) Q s : Q (Ok tt) (f s) -> Q (Err e) s -> wp (statement sqlFails e f) Q s.
Proof. intros H1 H2 n. unfold statement; simpl. by destruct (sqlFails n). Qed.

Lemma wp_transaction {T A} sqlFails begin commit (m : M T (A * bool)) Q d :
  wp m (fun r d' => match r with
    | Ok (a, true) => Q (Ok a) d' /\ Q (Err commit) d
    | Ok (a, false) => Q (Ok a) d
    | Err e => Q (Err e) d
    end) d -> Q (Err begin) d -> wp (dbTransaction sqlFails begin commit m) Q d.
Proof.
  intros Hm Hb n. unfold dbTransaction; simpl. destruct (sqlFails n); [done|]. specialize (Hm (S n)).
  destruct (m (S n, d)) as [[[a []]|e] [n' d']]; [|done..]. destruct (sqlFails n'); tauto.
Qed.

(** ** What an append does *)

(** The event is the next one of its node: the first of a boot not seen
    before, or the one after the highest of the current boot. *)
Definition accepts (d : DB) (e : EventEnvelope) : Prop :=
  match db_state d !! Event_NodeID e with
  | None => Event_Sequence e = 1 /\ db_boots d !! (Event_NodeID e, Event_BootID e) = None
  | Some s =>
      (NS_CurrentBootID s = Event_BootID e /\ Event_Sequence e = NS_HighestContiguousSequence s + 1) \/
      (NS_CurrentBootID s <> Event_BootID e /\ db_boots d !! (Event_NodeID e, Event_BootID e) = None /\ Event_Sequence e = 1)
  end.

(** The tables after the event was accepted. *)
Record accepted (d : DB) (e : EventEnvelope) (encoded : list Z) (d' : DB) : Prop := {
  acc_events : db_events d' = db_events d ++ [rowOf (db_ordinal d + 1) e encoded];
  acc_ordinal : db_ordinal d' = db_ordinal d + 1;
  acc_state : db_state d' = <[ Event_NodeID e := mkNodeState (Event_BootID e) (Event_Sequence e) (Event_ID e) (Event_ReceivedAt e) ]> (db_state d);
  acc_boots : exists b, Boot_highest b = Event_Sequence e /\ db_boots d' = <[ (Event_NodeID e, Event_BootID e) := b ]> (db_boots d);
  acc_cursors : db_cursors d' = db_cursors d;
  acc_nodes : forall id, match db_nodes d !! id with
    | None => db_nodes d' !! id = None
    | Some n => exists n', db_nodes d' !! id = Some n' /\ (n' = n \/ n' = seen n (Event_ReceivedAt e))
    end;
}.

(** [d1] is [d] with the counters of the event's node moved on to it. *)
Definition advanced (d : DB) (e : EventEnvelope) (d1 : DB) : Prop :=
  db_events d1 = db_events d /\ db_ordinal d1 = db_ordinal d /\ db_nodes d1 = db_nodes d /\ db_cursors d1 = db_cursors d /\
  db_state d1 = <[ Event_NodeID e := mkNodeState (Event_BootID e) (Event_Sequence e) (Event_ID e) (Event_ReceivedAt e) ]> (db_state d) /\
  exists b, Boot_highest b = Event_Sequence e /\ db_boots d1 = <[ (Event_NodeID e, Event_BootID e) := b ]> (db_boots d).

(** The current boot of every node is on record. *)
Definition bootsKnown (d : DB) : Prop :=
  forall node s, db_state d !! node = Some s ->
    exists b, db_boots d !! (node, NS_CurrentBootID s) = Some b /\ Boot_highest b = NS_HighestContiguousSequence s.

Lemma advance_spec sqlFails e d : bootsKnown d ->
  wp (advanceEventSequence sqlFails e) (fun r d1 => match r with Ok _ => accepts d e /\ advanced d e d1 | Err _ => True end) d.
Proof.
  intros Hk. unfold advanceEventSequence, accepts. wp_step. apply wp_statement; [|done]. cbv [id]. wp_step. wp_step. wp_step. wp_step.
  destruct (db_state d !! Event_NodeID e) as [s|] eqn:Hs.
  - destruct (Hk _ _ Hs) as (b0 & Hb0 & Hh). wp_step. destruct (negb (eqs (NS_CurrentBootID s) (Event_BootID e))) eqn:Hb.
    + apply negb_true_iff in Hb. wp_step. apply wp_statement; [|done]. cbv [id]. wp_step. destruct (db_boots d !! (Event_NodeID e, Event_BootID e)) eqn:Hn; simpl; [by apply wp_fail|].
      destruct (negb (Event_Sequence e =? 1)) eqn:Hq; [by apply wp_fail|]. apply negb_false_iff, Z.eqb_eq in Hq.
      apply wp_statement; [|done]. wp_step. wp_step. apply wp_statement; [|done]. wp_step. apply wp_statement; [|done].
      split.
      * right. split; [|done]. intros Heq. rewrite Heq, eqs_refl in Hb. done.
      * simpl. rewrite lookup_insert_eq. split_and!; try done. simpl. rewrite insert_insert_eq. eexists. split; [|reflexivity]. done.
    + apply negb_false_iff, eqs_true in Hb. destruct (negb (Event_Sequence e =? _)) eqn:Hq.
      { destruct (_ <=? _); by apply wp_fail. }
      apply negb_false_iff, Z.eqb_eq in Hq. wp_step. wp_step. wp_step. apply wp_statement; [|done]. wp_step. apply wp_statement; [|done].
      split; [by left|]. rewrite Hb in Hb0. simpl. rewrite Hb0. split_and!; try done. simpl. eexists. split; [|reflexivity]. done.
  - destruct (negb (Event_Sequence e =? 1)) eqn:Hq; [by apply wp_fail|]. apply negb_false_iff, Z.eqb_eq in Hq.
    wp_step. apply wp_statement; [|done]. wp_step. destruct (db_boots d !! (Event_NodeID e, Event_BootID e)) eqn:Hn; simpl; [by apply wp_fail|].
    apply wp_statement; [|done]. split; [done|]. split_and!; try done. simpl. eexists. split; [|reflexivity]. done.
Qed.

Lemma insert_spec sqlFails e encoded d :
  wp (insertEvent sqlFails e encoded) (fun r d1 => match r with
    | Ok _ => rowById (Event_ID e) d = None /\ d1 = setEvents (db_events d ++ [rowOf (db_ordinal d + 1) e encoded]) (db_ordinal d + 1) d
    | Err _ => True end) d.
Proof.
  unfold insertEvent. wp_step. wp_step. wp_step. destruct (existsb _ _) eqn:Hx; [by apply wp_fail|]. apply wp_statement; [|done].
  split; [|done]. unfold rowById. induction (db_events d) as [|r rows IH]; [done|]. simpl in *. apply orb_false in Hx as [Hr Hx].
  apply orb_false in Hr as [-> _]. by apply IH.
Qed.

Lemma lastSeen_spec sqlFails node t d :
  wp (advanceNodeLastSeen sqlFails node t) (fun r d1 => match r with
    | Ok _ => d1 = d \/ exists n, db_nodes d !! node = Some n /\ d1 = setNode node (seen n t) d
    | Err _ => True end) d.
Proof.
  unfold advanceNodeLastSeen. wp_step. apply wp_statement; [|done]. cbv [id]. do 4 wp_step.
  destruct (db_nodes d !! node) as [n|] eqn:Hn; [|apply wp_ret; by left].
  destruct (match Node_LastSeenAt n with Some _ => _ | None => _ end); [apply wp_ret; by left|].
  apply wp_statement; [|done]. right. by exists n.
Qed.

(** The source form an append compares. *)
Definition sameSource (e existing : EventEnvelope) : Prop :=
  exists b, marshalSourceEvent e = Ok b /\ marshalSourceEvent existing = Ok b.

(** What every accepted event passed, with its encoding. *)
Definition admitted (e : EventEnvelope) (encoded : list Z) : Prop :=
  Validate e = Ok tt /\ Event_ReceivedAt e <> zeroTime /\ ValidateEvidenceAt e (Event_ReceivedAt e) = Ok tt /\
  marshalEvent e = Ok encoded /\ len encoded <= MaximumEventWireBytes.

Lemma append_spec sqlFails e d : bootsKnown d ->
  wp (Append sqlFails e) (fun r d' => match r with
    | Err _ => d' = d
    | Ok false => d' = d /\ exists row existing, rowById (Event_ID e) d = Some row /\ unmarshal (Row_envelope_proto row) = Ok existing /\
                    sameSource e existing
    | Ok true => rowById (Event_ID e) d = None /\ accepts d e /\ exists encoded, admitted e encoded /\ accepted d e encoded d'
    end) d.
Proof.
  intros Hk. unfold AppendEvent. wp_step. wp_step. destruct (Validate e) as [[]|] eqn:Hv; [|done]. wp_step.
  destruct (IsZero _) eqn:Hz; [by apply wp_fail|]. apply IsZero_false in Hz. wp_step. wp_step. destruct (ValidateEvidenceAt e _) as [[]|] eqn:Hve; [|done]. wp_step.
  wp_step. wp_step. destruct (marshalEvent e) as [encoded|] eqn:Hm; [|done]. wp_step. destruct (_ <? len encoded) eqn:Hl; [by apply wp_fail|].
  apply wp_transaction; [|done]. wp_step. apply wp_statement; [|done]. cbv [id]. do 4 wp_step.
  destruct (rowById (Event_ID e) d) as [row|] eqn:Hrow.
  - wp_step. wp_step. destruct (unmarshal _) as [existing|] eqn:Hu; [|done]. wp_step. wp_step. wp_step.
    destruct (marshalSourceEvent e) as [b|] eqn:Hb; [|done]. wp_step. wp_step. wp_step.
    destruct (marshalSourceEvent existing) as [b'|] eqn:Hb'; [|done]. wp_step. case_bool_decide as Heq; [|by apply wp_fail]. subst b'.
    apply wp_ret. split; [done|]. exists row, existing. split_and!; [done..|]. by exists b.
  - wp_step. eapply wp_mono; [by apply advance_spec|]. intros [[]|er] d1 H1; [|done]. destruct H1 as [Hacc (A1 & A2 & A3 & A4 & A5 & b & A6 & A7)].
    red. wp_step. eapply wp_mono; [apply insert_spec|]. intros [[]|er] d2 H2; [|done]. destruct H2 as [_ ->]. red.
    wp_step. eapply wp_mono; [apply lastSeen_spec|]. intros [[]|er] d3 H3; [|done]. red. apply wp_ret. split; [|done]. split_and!; try done.
    exists encoded. split; [split_and!; try done; lia|]. rewrite A1, A2 in H3.
    destruct H3 as [->|(n & Hn & ->)]; split; simpl; try done; try (by exists b); try (by rewrite A3); intros id.
    + rewrite A3. destruct (db_nodes d !! id) as [n|]; [|done]. exists n. split; [done|by left].
    + simpl in Hn. rewrite A3 in *. destruct (decide (id = Event_NodeID e)) as [->|Hid].
      * rewrite Hn, lookup_insert_eq. eexists. split; [done|by right].
      * rewrite lookup_insert_ne by done. destruct (db_nodes d !! id) as [n'|]; [|done]. exists n'. split; [done|by left].
Qed.

Lemma setCursor_spec sqlFails projection c d :
  wp (SetProjectionCursor sqlFails projection c) (fun r d' => d' = d \/ exists c', d' = setCursor projection c' d) d.
Proof.
  unfold SetProjectionCursor. destruct (_ || _ || _); [apply wp_fail; by left|]. apply wp_transaction; [|by left].
  wp_step. apply wp_statement; [|by left]. cbv [id]. do 4 wp_step. destruct (rowById _ d) as [row|]; [|apply wp_fail; by left].
  destruct (_ && _); [apply wp_fail; by left|]. destruct (_ && _); [apply wp_fail; by left|].
  wp_step. apply wp_statement; [|by left]. cbv [id]. wp_step. wp_step.
  apply (wp_mono _ (fun _ d' => d' = d)).
  { destruct (db_cursors d !! projection) as [p|]; [|by apply wp_ret]. repeat case_match; first [by apply wp_fail|by apply wp_ret]. }
  intros [[]|er] d' ->; [|by left]. red. wp_step. apply wp_statement; [|by left]. wp_step. apply wp_ret. split; [|by left]. right. by eexists.
Qed.

(** ** The log over time *)

Definition ofBoot (node boot : string) (e : EventEnvelope) : bool := eqs (Event_NodeID e) node && eqs (Event_BootID e) boot.
Definition ofNode (node : string) (e : EventEnvelope) : bool := eqs (Event_NodeID e) node.

(** What the database can become, with the events Core accepted so far:
    appends that succeed or fail at any statement, cursor updates, changes of
    the node registry, and retention, which deletes rows. *)
Inductive logged : DB -> list EventEnvelope -> Prop :=
| logged_new nodes : logged (mkDB [] 0 ∅ ∅ nodes ∅) []
| logged_append sqlFails n e r n' d d' h : logged d h -> Append sqlFails e (n, d) = (r, (n', d')) ->
    logged d' (match r with Ok true => h ++ [e] | _ => h end)
| logged_cursor sqlFails projection c n r n' d d' h : logged d h ->
    SetProjectionCursor sqlFails projection c (n, d) = (r, (n', d')) -> logged d' h
| logged_node id node d h : logged d h -> logged (setNode id node d) h
| logged_pruned keep d h : logged d h -> logged (setEvents (List.filter keep (db_events d)) (db_ordinal d) d) h.

(** The highest sequence of a boot, zero before its first event. *)
Definition highestOf (d : DB) (node boot : string) : Z := match db_boots d !! (node, boot) with Some b => Boot_highest b | None => 0 end.

(** The boots of a list of events, neighbours merged. *)
Fixpoint collapse (l : list string) : list string :=
  match l with
  | a :: ((b :: _) as r) => if eqs a b then collapse r else a :: collapse r
  | _ => l
  end.

Lemma collapse_cons a b r : collapse (a :: b :: r) = if eqs a b then collapse (b :: r) else a :: collapse (b :: r).
Proof. done. Qed.

Lemma collapse_elem l x : x ∈ collapse l <-> x ∈ l.
Proof.
  induction l as [|a [|b r] IH]; try done. rewrite collapse_cons. destruct (eqs a b) eqn:Hab.
  - apply eqs_true in Hab as ->. rewrite IH, !elem_of_cons. tauto.
  - rewrite !elem_of_cons, IH, elem_of_cons. tauto.
Qed.

Lemma collapse_snoc l x : collapse (l ++ [x]) = if bool_decide (last l = Some x) then collapse l else collapse l ++ [x].
Proof.
  induction l as [|a [|b r] IH]; [done| |].
  - cbn. unfold eqs. destruct (decide (a = x)) as [->|Hne].
    + by rewrite !bool_decide_true.
    + by rewrite !bool_decide_false by congruence.
  - change ((a :: b :: r) ++ [x]) with (a :: b :: (r ++ [x])). rewrite !collapse_cons.
    change (b :: r ++ [x]) with ((b :: r) ++ [x]). rewrite IH. rewrite last_cons_cons.
    destruct (eqs a b); [done|]. by case_bool_decide.
Qed.

Record logInv (d : DB) (h : list EventEnvelope) : Prop := {
  li_known : bootsKnown d;
  li_fresh : forall node boot, db_state d !! node = None -> db_boots d !! (node, boot) = None;
  li_positive : forall node boot b, db_boots d !! (node, boot) = Some b -> 1 <= Boot_highest b;
  li_sequences : forall node boot, Event_Sequence <$> List.filter (ofBoot node boot) h = seqZ 1 (highestOf d node boot);
  li_last : forall node, last (Event_BootID <$> List.filter (ofNode node) h) = NS_CurrentBootID <$> (db_state d !! node);
  li_runs : forall node, NoDup (collapse (Event_BootID <$> List.filter (ofNode node) h));
  li_ids : NoDup (Row_id <$> db_events d);
  li_ordered : StronglySorted Z.lt (Row_ingest_ordinal <$> db_events d);
  li_ordinals : Forall (fun r => Row_ingest_ordinal r <= db_ordinal d) (db_events d);
  li_rows : Forall (fun r => exists e encoded, e ∈ h /\ admitted e encoded /\ r = rowOf (Row_ingest_ordinal r) e encoded) (db_events d);
}.

(** No event of a boot Core has no record of. *)
Lemma boot_unseen d h node boot : logInv d h -> db_boots d !! (node, boot) = None ->
  boot ∉ Event_BootID <$> List.filter (ofNode node) h.
Proof.
  intros Hi Hn (e & -> & Hin)%list_elem_of_fmap. pose proof (li_sequences d h Hi node (Event_BootID e)) as Hs.
  unfold highestOf in Hs. rewrite Hn in Hs. change (seqZ 1 0) with (@nil Z) in Hs. apply fmap_nil_inv in Hs.
  apply list_elem_of_In, filter_In in Hin as [Hin Ho].
  assert (e ∈ List.filter (ofBoot node (Event_BootID e)) h) as Hb.
  { apply list_elem_of_In, filter_In. split; [done|]. unfold ofNode in Ho. unfold ofBoot. by rewrite Ho, eqs_refl. }
  rewrite Hs in Hb. by apply not_elem_of_nil in Hb.
Qed.

Lemma rowById_None id d : rowById id d = None -> id ∉ Row_id <$> db_events d.
Proof.
  unfold rowById. induction (db_events d) as [|r rows IH]; simpl; [intros _; apply not_elem_of_nil|].
  destruct (eqs (Row_id r) id) eqn:Hr; [done|]. intros Hn. rewrite elem_of_cons. intros [->|Hin]; [by rewrite eqs_refl in Hr|by apply IH].
Qed.

Lemma sorted_snoc (l : list Z) x : StronglySorted Z.lt l -> Forall (fun y => y < x) l -> StronglySorted Z.lt (l ++ [x]).
Proof.
  induction 1 as [|a l Hs IH Ha]; simpl; intros Hf; [by repeat constructor|]. apply Forall_cons in Hf as [Hax Hf].
  constructor; [by apply IH|]. apply Forall_app. split; [done|by repeat constructor].
Qed.

Lemma accepts_next d h e : logInv d h -> accepts d e -> Event_Sequence e = highestOf d (Event_NodeID e) (Event_BootID e) + 1.
Proof.
  intros Hi. unfold accepts, highestOf. destruct (db_state d !! _) as [s|] eqn:Hs.
  - intros [[<- ->]|(_ & -> & ->)]; [|done]. by destruct (li_known d h Hi _ _ Hs) as (b & -> & ->).
  - by intros [-> ->].
Qed.

Lemma highestOf_nonneg d h node boot : logInv d h -> 0 <= highestOf d node boot.
Proof. intros Hi. unfold highestOf. destruct (db_boots d !! _) eqn:Hb; [|lia]. pose proof (li_positive d h Hi _ _ _ Hb). lia. Qed.

Lemma highestOf_accepted d e encoded d' node boot : accepted d e encoded d' ->
  highestOf d' node boot = if ofBoot node boot e then Event_Sequence e else highestOf d node boot.
Proof.
  intros [_ _ _ (b & Hb & Hboots) _ _]. unfold highestOf, ofBoot. rewrite Hboots.
  destruct (eqs (Event_NodeID e) node) eqn:Hn, (eqs (Event_BootID e) boot) eqn:Hbt; simpl.
  { apply eqs_true in Hn as <-, Hbt as <-. by rewrite lookup_insert_eq. }
  all: rewrite lookup_insert_ne; [done|]; intros [=]; subst; by rewrite ?eqs_refl in *.
Qed.

Lemma seqZ_snoc k : 0 <= k -> seqZ 1 (k + 1) = seqZ 1 k ++ [k + 1].
Proof. intros Hk. rewrite seqZ_app by lia. f_equal. replace (k + 1) with (1 + k) by lia. done. Qed.

Lemma accepted_sequences d h e encoded d' node boot : logInv d h -> accepts d e -> accepted d e encoded d' ->
  Event_Sequence <$> List.filter (ofBoot node boot) (h ++ [e]) = seqZ 1 (highestOf d' node boot).
Proof.
  intros Hi Ha Hacc. rewrite (highestOf_accepted _ _ _ _ _ _ Hacc), List.filter_app, fmap_app, (li_sequences d h Hi). simpl.
  destruct (ofBoot node boot e) eqn:Ho; simpl; [|by rewrite app_nil_r].
  rewrite (accepts_next d h e Hi Ha). unfold ofBoot in Ho. apply andb_true_iff in Ho as [<-%eqs_true <-%eqs_true].
  by rewrite seqZ_snoc by (by eapply highestOf_nonneg).
Qed.

Lemma accepted_boots d h e encoded d' node : logInv d h -> accepts d e -> accepted d e encoded d' ->
  last (Event_BootID <$> List.filter (ofNode node) (h ++ [e])) = NS_CurrentBootID <$> (db_state d' !! node) /\
  NoDup (collapse (Event_BootID <$> List.filter (ofNode node) (h ++ [e]))).
Proof.
  intros Hi Ha Hacc. rewrite List.filter_app, fmap_app, (acc_state _ _ _ _ Hacc). simpl. destruct (ofNode node e) eqn:Ho; simpl.
  - unfold ofNode in Ho. apply eqs_true in Ho as <-. rewrite last_snoc, lookup_insert_eq. split; [done|].
    rewrite collapse_snoc, (li_last d h Hi). case_bool_decide as Hl; [apply (li_runs d h Hi)|].
    apply NoDup_app. split; [apply (li_runs d h Hi)|]. split; [|apply NoDup_singleton].
    intros x Hx Hin. rewrite collapse_elem in Hx. apply list_elem_of_singleton in Hin as ->. eapply boot_unseen; [exact Hi| |exact Hx].
    unfold accepts in Ha. destruct (db_state d !! _) as [s|]; [|by destruct Ha]. destruct Ha as [[Heq _]|(_ & ? & _)]; [|done]. exfalso. apply Hl. simpl. by rewrite Heq.
  - rewrite app_nil_r, lookup_insert_ne by (intros <-; unfold ofNode in Ho; by rewrite eqs_refl in Ho).
    split; [apply (li_last d h Hi)|apply (li_runs d h Hi)].
Qed.

Lemma accepted_rows d h e encoded d' : logInv d h -> admitted e encoded -> rowById (Event_ID e) d = None ->
  accepted d e encoded d' ->
  NoDup (Row_id <$> db_events d') /\ StronglySorted Z.lt (Row_ingest_ordinal <$> db_events d') /\
  Forall (fun r => Row_ingest_ordinal r <= db_ordinal d') (db_events d') /\
  Forall (fun r => exists e' encoded, e' ∈ h ++ [e] /\ admitted e' encoded /\ r = rowOf (Row_ingest_ordinal r) e' encoded) (db_events d').
Proof.
  intros Hi Hm Hr Hacc. rewrite (acc_events _ _ _ _ Hacc), (acc_ordinal _ _ _ _ Hacc), !fmap_app. simpl. pose proof (li_ordinals d h Hi) as Ho. split_and!.
  - apply NoDup_app. split; [apply (li_ids d h Hi)|]. split; [|apply NoDup_singleton].
    intros x Hx Hin. apply list_elem_of_singleton in Hin as ->. by apply rowById_None in Hr.
  - apply sorted_snoc; [apply (li_ordered d h Hi)|]. apply Forall_fmap. eapply Forall_impl; [exact Ho|]. intros r. simpl. lia.
  - apply Forall_app. split; [|by repeat constructor]. eapply Forall_impl; [exact Ho|]. intros r. simpl. lia.
  - apply Forall_app. split.
    + eapply Forall_impl; [apply (li_rows d h Hi)|]. intros r (e' & b & He & ?). exists e', b. split; [apply elem_of_app; by left|done].
    + constructor; [|done]. exists e, encoded. split; [apply elem_of_app; right; by apply list_elem_of_singleton|done].
Qed.

Lemma accepted_inv d h e encoded d' : logInv d h -> admitted e encoded -> rowById (Event_ID e) d = None ->
  accepts d e -> accepted d e encoded d' -> logInv d' (h ++ [e]).
Proof.
  intros Hi Hm Hr Ha Hacc. destruct (accepted_rows _ _ _ _ _ Hi Hm Hr Hacc) as (? & ? & ? & ?).
  destruct (acc_boots _ _ _ _ Hacc) as (b & Hb & Hboots). pose proof (acc_state _ _ _ _ Hacc) as Hst. split; try done.
  - intros node s Hs. rewrite Hst in Hs. rewrite Hboots. apply lookup_insert_Some in Hs as [[<- <-]|[Hne Hs]]; simpl.
    + exists b. by rewrite lookup_insert_eq.
    + rewrite lookup_insert_ne by congruence. by apply (li_known d h Hi).
  - intros node boot Hn. rewrite Hst in Hn. apply lookup_insert_None in Hn as [Hn Hne]. rewrite Hboots, lookup_insert_ne by congruence.
    by apply (li_fresh d h Hi).
  - intros node boot b'. rewrite Hboots. intros [[[= <- <-] <-]|[_ Hs]]%lookup_insert_Some; [|by eapply (li_positive d h Hi)].
    rewrite Hb, (accepts_next d h e Hi Ha). pose proof (highestOf_nonneg d h (Event_NodeID e) (Event_BootID e) Hi). lia.
  - intros node boot. by eapply accepted_sequences.
  - intros node. by eapply accepted_boots.
  - intros node. by eapply accepted_boots.
Qed.

Lemma forall_filter (P : eventRow -> Prop) (keep : eventRow -> bool) rows : Forall P rows -> Forall P (List.filter keep rows).
Proof. induction 1 as [|r rows Hr Hs IH]; simpl; [done|]. destruct (keep r); [by constructor|done]. Qed.

Lemma sorted_filter (keep : eventRow -> bool) rows : StronglySorted Z.lt (Row_ingest_ordinal <$> rows) ->
  StronglySorted Z.lt (Row_ingest_ordinal <$> List.filter keep rows).
Proof.
  induction rows as [|r rows IH]; simpl; [done|]. intros Hs. apply StronglySorted_inv in Hs as [Hs Hf]. destruct (keep r); [|by apply IH].
  simpl. constructor; [by apply IH|]. apply Forall_fmap, forall_filter. rewrite Forall_fmap in Hf. exact Hf.
Qed.

Lemma nodup_filter (keep : eventRow -> bool) rows : NoDup (Row_id <$> rows) -> NoDup (Row_id <$> List.filter keep rows).
Proof.
  induction rows as [|r rows IH]; simpl; [done|]. intros [Hr Hn]%NoDup_cons. destruct (keep r); [|by apply IH]. simpl. apply NoDup_cons.
  split; [|by apply IH]. intros (x & Hx & Hin)%list_elem_of_fmap. apply Hr. rewrite Hx. apply list_elem_of_fmap_2.
  apply list_elem_of_In, filter_In in Hin as [Hin _]. by apply list_elem_of_In.
Qed.

Lemma logged_inv d h : logged d h -> logInv d h.
Proof.
  induction 1 as [nodes|sqlFails n e r n' d d' h _ IH Happ|sqlFails projection c n r n' d d' h _ IH Hc|id node d h _ IH|keep d h _ IH].
  - split; unfold bootsKnown, highestOf; simpl; try (by constructor); intros *; rewrite ?lookup_empty; try done; by constructor.
  - pose proof (wp_run _ _ _ _ _ _ _ (append_spec sqlFails e d (li_known d h IH)) Happ) as Hs. destruct r as [[]|].
    + destruct Hs as (Hr & Ha & encoded & Hm & Hacc). by eapply accepted_inv.
    + by destruct Hs as [-> _].
    + by rewrite Hs.
  - pose proof (wp_run _ _ _ _ _ _ _ (setCursor_spec sqlFails projection c d) Hc) as [->|[c' ->]]; [done|]. destruct IH. by split.
  - destruct IH. by split.
  - destruct IH. split; try done; simpl; first [by apply nodup_filter|by apply sorted_filter|by apply forall_filter].
Qed.

(** C8. The log is contiguous. In every state the database can reach, with
    statements failing anywhere, cursors and nodes changing and retention
    deleting whatever it wants, the events Core accepted of a node and boot
    have the sequences 1, 2, 3, ... up to the highest on record; the boots of
    a node follow each other and none comes back after another; and the rows
    that are still there are accepted events as they were encoded, each id
    once, in the order of their ordinals. *)
Theorem event_log_contiguous d h : logged d h ->
  (forall node boot, Event_Sequence <$> List.filter (ofBoot node boot) h = seqZ 1 (highestOf d node boot)) /\
  (forall node, NoDup (collapse (Event_BootID <$> List.filter (ofNode node) h))) /\
  NoDup (Row_id <$> db_events d) /\ StronglySorted Z.lt (Row_ingest_ordinal <$> db_events d) /\
  Forall (fun r => exists e encoded, e ∈ h /\ admitted e encoded /\ r = rowOf (Row_ingest_ordinal r) e encoded) (db_events d).
Proof. intros Hi%logged_inv. destruct Hi. by split_and!. Qed.

(** A key that is unique among the elements a filter keeps. *)
Lemma filter_key_once {A} (p : A -> bool) (f : A -> Z) (l : list A) i j x y : NoDup (f <$> List.filter p l) ->
  l !! i = Some x -> l !! j = Some y -> p x = true -> p y = true -> f x = f y -> i = j.
Proof.
  intros Hnd Hi Hj Hx Hy Hf. revert i j Hnd Hi Hj. induction l as [|a l IH]; intros i j Hnd Hi Hj; [done|]. simpl in Hnd.
  assert (forall z, z ∈ l -> p z = true -> f z ∈ f <$> List.filter p l) as Hin.
  { intros z Hz Hp. apply list_elem_of_fmap_2, list_elem_of_In, filter_In. by rewrite <- list_elem_of_In. }
  destruct i as [|i], j as [|j]; simpl in Hi, Hj; [done| | |].
  - injection Hi as ->. rewrite Hx in Hnd. simpl in Hnd. apply NoDup_cons in Hnd as [Hn _]. exfalso. apply Hn. rewrite Hf.
    apply Hin; [by eapply list_elem_of_lookup_2|done].
  - injection Hj as ->. rewrite Hy in Hnd. simpl in Hnd. apply NoDup_cons in Hnd as [Hn _]. exfalso. apply Hn. rewrite <- Hf.
    apply Hin; [by eapply list_elem_of_lookup_2|done].
  - f_equal. apply IH; try done. destruct (p a); [|done]. by apply NoDup_cons in Hnd as [_ ?].
Qed.

(** Core accepts one event per node, boot and sequence. *)
Lemma accepted_once d h e e' i j : logged d h -> h !! i = Some e -> h !! j = Some e' ->
  Event_NodeID e = Event_NodeID e' -> Event_BootID e = Event_BootID e' -> Event_Sequence e = Event_Sequence e' -> i = j.
Proof.
  intros Hi%logged_inv H1 H2 Hn Hb Hq. eapply (filter_key_once (ofBoot (Event_NodeID e) (Event_BootID e)) Event_Sequence h); try done.
  - rewrite (li_sequences d h Hi). apply NoDup_seqZ.
  - unfold ofBoot. by rewrite !eqs_refl.
  - unfold ofBoot. by rewrite Hn, Hb, !eqs_refl.
Qed.

(** ** Sending again *)

Lemma normalEvidence_toProto e : evidenceToProto (normalEvidence e) = evidenceToProto e.
Proof.
  unfold evidenceToProto. destruct e as [i1 i2 i3 i4 i5 i6 i7 r]; cbn. destruct (requiredTimestamp i7); [|done]. cbn.
  replace (optionalTimestamp (presentTime r)) with (optionalTimestamp r); [done|]. destruct r as [t|]; [|done]. cbn.
  destruct (IsZero t) eqn:Hz; cbn; by rewrite ?Hz.
Qed.

Lemma normalEvent_toProto e : EventToProto (normalEvent e) = EventToProto e.
Proof.
  unfold EventToProto, normalEvent. cbn [Event_ObservedAt Event_ReceivedAt Event_Evidence Event_SourceSignature].
  replace (mapR evidenceToProto (normalEvidence <$> Event_Evidence e)) with (mapR evidenceToProto (Event_Evidence e)); [done|].
  induction (Event_Evidence e) as [|x l IH]; [done|]. rewrite fmap_cons. cbn [mapR]. by rewrite normalEvidence_toProto, IH.
Qed.

Lemma normalEvent_valid e : Validate e = Ok tt -> Validate (normalEvent e) = Ok tt.
Proof.
  unfold EventEnvelope_Validate, ValidateSourceContent. intros Hv. apply rbind_Ok in Hv as ([] & Hc & Hs). validated Hc.
  unfold normalEvent. cbn [Event_ID Event_SchemaVersion Event_DeploymentID Event_NodeID Event_Kind Event_ObservedAt Event_Sequence Event_BootID
    Event_Classification Event_Confidence Event_Sensitivity Event_PayloadTypeURL Event_Payload Event_Evidence Event_CorrelationID Event_CausationID
    Event_PayloadDigest Event_SourceSignature].
  repeat match goal with Hx : ?b = false |- context [if ?b then _ else _] => rewrite Hx end.
  match goal with Hp : validateEventPayload _ _ _ _ _ _ = Ok tt |- _ => rewrite Hp end. cbn [rbind].
  repeat match goal with Hx : ?b = false |- context [if ?b then _ else _] => rewrite Hx end.
  replace (len (normalEvidence <$> Event_Evidence e)) with (len (Event_Evidence e)) by (unfold len; by rewrite length_fmap).
  match goal with Hx : (64 <? _) = false |- _ => rewrite Hx end.
  replace (each _ (normalEvidence <$> Event_Evidence e)) with (Ok tt : result unit); [done|]. symmetry.
  rewrite each_Ok in Hc |- *. apply Forall_fmap. eapply Forall_impl; [exact Hc|]. intros x Hx. unfold compose. cbv beta. unfold validateEvidence in *. validated Hx.
  replace (negb (validEvidence_times (normalEvidence x))) with false.
  2: { match goal with Hn : negb (validEvidence_times x) = false |- _ => apply negb_false_iff in Hn as Ht end.
       unfold validEvidence_times in *. cbn in *. destruct (EE_ReceivedAt x) as [t|]; cbn in *; [|by rewrite Ht].
       apply andb_true_iff in Ht as [Ht1 Ht2]. destruct (IsZero t); cbn; by rewrite ?Ht1, Ht2. }
  unfold normalEvidence. cbn [EE_ID EE_Role EE_Classification EE_SourceType EE_Source EE_SourceURI EE_ObservedAt EE_LastVerifiedAt EE_ExpiresAt
    EE_Confidence EE_Sensitivity EE_LocationPrecision EE_Explanation EE_Integrity EE_SourceLicense EE_Attributes].
  repeat match goal with Hx : ?b = false |- context [if ?b then _ else _] => rewrite Hx end. done.
Qed.

(** [proto.Size] is the length of the encoding. *)
Definition sized : Prop := forall w b, eventMarshal w = Some b -> wireSize w = len b.

Lemma marshalEvent_inv e encoded : marshalEvent e = Ok encoded -> exists w, EventToProto e = Ok w /\ eventMarshal w = Some encoded.
Proof.
  unfold marshalEvent, marshalWire. intros Hm. apply rbind_Ok in Hm as (w & Hw & Hm). exists w. split; [done|].
  destruct (eventMarshal w); [|done]. by injection Hm as ->.
Qed.

(** A row reads back as the event it was made of. *)
Lemma stored_reads e encoded : sized -> admitted e encoded -> unmarshal encoded = Ok (normalEvent e).
Proof.
  intros Hsz (Hv & _ & _ & Hm & Hl). destruct (marshalEvent_inv _ _ Hm) as (w & Hw & Hb).
  destruct (validate_fits _ _ e w Hv Hw) as (Hc & Hs & [_ Hr]).
  destruct (wire_roundtrip _ _ wireSize e Hc Hs Hr) as (w' & Hw' & Hp & _ & _ & _ & _ & Hf). rewrite Hw in Hw'. injection Hw' as <-.
  unfold unmarshalEvent. rewrite (event_codec _ _ Hp Hb). unfold plainWire in Hp. apply andb_true_iff in Hp as [_ Hp%negb_true_iff].
  rewrite Hp, Hf, (Hsz _ _ Hb). replace (_ <? _) with false by lia. cbn [rbind]. by rewrite normalEvent_valid.
Qed.

Lemma marshalSource_exists e encoded : admitted e encoded -> marshalSourceEvent (normalEvent e) = marshalSourceEvent e.
Proof. intros _. unfold marshalSourceEvent. by rewrite normalEvent_toProto. Qed.

Lemma rowById_Some d row : NoDup (Row_id <$> db_events d) -> row ∈ db_events d -> rowById (Row_id row) d = Some row.
Proof.
  unfold rowById. induction (db_events d) as [|r rows IH]; intros Hnd Hin; [by apply not_elem_of_nil in Hin|]. simpl in *.
  apply NoDup_cons in Hnd as [Hr Hnd]. apply elem_of_cons in Hin as [->|Hin]; [by rewrite eqs_refl|].
  destruct (eqs (Row_id r) (Row_id row)) eqn:Hq; [|by apply IH]. apply eqs_true in Hq. exfalso. apply Hr. rewrite Hq. by apply list_elem_of_fmap_2.
Qed.

(** Appending what is stored changes nothing; it is answered as a duplicate
    unless a statement or the encoding of the source form fails. *)
Lemma append_again sqlFails e encoded ordinal d h : sized -> logged d h -> admitted e encoded -> rowOf ordinal e encoded ∈ db_events d ->
  wp (Append sqlFails e) (fun r d' => d' = d /\ r <> Ok true /\
    ((forall n, sqlFails n = false) -> is_ok (marshalSourceEvent e) = true -> r = Ok false)) d.
Proof.
  intros Hsz Hi%logged_inv Hm Hin. pose proof Hm as (Hv & Hz%IsZero_false & Hve & Hmar & Hl).
  pose proof (rowById_Some d _ (li_ids d h Hi) Hin) as Hrow. change (Row_id (rowOf ordinal e encoded)) with (Event_ID e) in Hrow.
  unfold AppendEvent. wp_step. wp_step. rewrite Hv. wp_step. rewrite Hz. wp_step. wp_step. rewrite Hve. wp_step. wp_step. wp_step.
  rewrite Hmar. wp_step. replace (_ <? _) with false by lia.
  intros n. unfold dbTransaction, bindM, statement, getS, liftR, retM, failM. cbn [fst snd].
  destruct (sqlFails n) eqn:F1; [split_and!; try done; intros F; by rewrite F in F1|].
  destruct (sqlFails (S n)) eqn:F2; [split_and!; try done; intros F; by rewrite F in F2|]. cbv [id]. cbn [snd fst]. rewrite Hrow. cbn [Row_envelope_proto rowOf].
  rewrite (stored_reads _ _ Hsz Hm), (marshalSource_exists _ _ Hm). destruct (marshalSourceEvent e) as [b|]; [|by split_and!].
  by rewrite bool_decide_true.
Qed.

End Facts.
