(* ===== verification/RetentionFacts.v ===== *)
(** * What retention deletes, and what it leaves (Retention.v) *)

From S2P Require Import Prelude Library Sha256 Digest Plan JournalFile Events EventStore Retention EventStoreFacts.
From stdpp Require Import base gmap list strings sorting.
From Stdlib Require Import ZArith Lia.

Open Scope Z_scope.

(** ** The bytes of a hash are uniquely decodable *)

(** Lengths and numbers fit the eight bytes they are written on. *)
Definition fits (value : list Z) : Prop := len value < 2 ^ 64.
Definition fitsText (s : string) : Prop := fits (bytes_of s).

Lemma retentionUint64_inj x y r s : u64 x -> u64 y -> retentionUint64 x ++ r = retentionUint64 y ++ s -> x = y /\ r = s.
Proof.
  unfold retentionUint64. intros Hx Hy Heq. apply app_inj_1 in Heq as [Hl Hr]; [|by rewrite !be_bytes_length]. split; [|done]. by apply be_bytes8_inj.
Qed.

Lemma retentionField_inj a b r s : fits a -> fits b -> retentionField a ++ r = retentionField b ++ s -> a = b /\ r = s.
Proof.
  unfold retentionField, fits. intros Ha Hb Heq. rewrite <- !app_assoc in Heq.
  apply retentionUint64_inj in Heq as [Hl Hr]; [|unfold u64, len in *; lia..]. apply app_inj_1 in Hr; [done|unfold len in Hl; lia].
Qed.

Lemma retentionText_inj a b r s : fitsText a -> fitsText b -> retentionText a ++ r = retentionText b ++ s -> a = b /\ r = s.
Proof.
  intros Ha Hb Heq. destruct (retentionField_inj (bytes_of a) (bytes_of b) r s Ha Hb Heq) as [Hl Hr]. split; [|done]. by apply bytes_of_inj.
Qed.

Section Binding.
Context {H : Hasher}.

Lemma sum256_fits m : fits (sum256 m).
Proof. unfold fits, len. rewrite sum256_length. lia. Qed.

Lemma hexSum_inj a b : hexEncode (sum256 a) = hexEncode (sum256 b) -> a = b \/ collision a b.
Proof. intros Heq%hexEncode_inj; [|apply sum256_bytes..]. destruct (decide (a = b)); [by left|by right]. Qed.

(** A candidate whose numbers and texts fit. *)
Definition plainCandidate (c : retentionCandidate) : Prop := u64 (Candidate_ordinal c) /\ fitsText (Candidate_id c).

Lemma candidateBytes_inj c1 c2 r s : plainCandidate c1 -> plainCandidate c2 -> candidateBytes c1 ++ r = candidateBytes c2 ++ s ->
  (c1 = c2 \/ collision (Candidate_wire c1) (Candidate_wire c2)) /\ r = s.
Proof.
  intros [Ho1 Hi1] [Ho2 Hi2]. unfold candidateBytes. rewrite <- !app_assoc. intros [Ho Heq]%retentionUint64_inj; [|done..].
  apply retentionText_inj in Heq as [Hi Heq]; [|done..]. apply retentionField_inj in Heq as [Hw Heq]; [|apply sum256_fits..]. split; [|done].
  destruct c1, c2; simpl in *. subst. destruct (decide (Candidate_wire = Candidate_wire0)) as [->|]; [by left|by right].
Qed.

Lemma candidateBytes_nonempty c : candidateBytes c <> [].
Proof.
  intros Hnil%(f_equal length). unfold candidateBytes, retentionUint64 in Hnil. rewrite length_app, be_bytes_length in Hnil. simpl in Hnil. lia.
Qed.

(** Two batches with one hash are one batch, or the hash collides on them. *)
Lemma batchBytes_inj b1 b2 : Forall plainCandidate b1 -> Forall plainCandidate b2 -> batchBytes b1 = batchBytes b2 ->
  b1 = b2 \/ exists c1 c2, c1 ∈ b1 /\ c2 ∈ b2 /\ collision (Candidate_wire c1) (Candidate_wire c2).
Proof.
  unfold batchBytes. intros H1 H2 Heq%app_inv_head. revert b2 H2 Heq. induction H1 as [|c1 b1 Hc1 _ IH]; intros b2 H2 Heq.
  - destruct b2 as [|c2 b2]; [by left|]. symmetry in Heq. apply app_eq_nil in Heq as [Heq _]. by apply candidateBytes_nonempty in Heq.
  - destruct H2 as [|c2 b2 Hc2 H2]. { apply app_eq_nil in Heq as [Heq _]. by apply candidateBytes_nonempty in Heq. }
    apply candidateBytes_inj in Heq as [Hc Heq]; [|done..].
    destruct Hc as [->|Hc]; [|right; exists c1, c2; split_and!; [constructor..|done]].
    destruct (IH b2 H2 Heq) as [->|(x & y & Hx & Hy & Hc)]; [by left|]. right. exists x, y. split_and!; [by constructor..|done].
Qed.

Lemma batchHash_inj b1 b2 : Forall plainCandidate b1 -> Forall plainCandidate b2 -> retentionBatchHash b1 = retentionBatchHash b2 ->
  b1 = b2 \/ collision (batchBytes b1) (batchBytes b2) \/
  exists c1 c2, c1 ∈ b1 /\ c2 ∈ b2 /\ collision (Candidate_wire c1) (Candidate_wire c2).
Proof.
  intros H1 H2 [Heq|Hc]%hexSum_inj; [|by right; left]. destruct (batchBytes_inj b1 b2 H1 H2 Heq) as [?|?]; [by left|by right; right].
Qed.

(** ** The chain *)

Definition tombBytes (t : tombstone) : list Z :=
  tombstoneBytes (Tomb_previous_hash t) (Tomb_first t) (Tomb_last t) (Tomb_count t) (Tomb_batch_hash t) (Tomb_policy_json t) (Tomb_cutoff_at t)
    (Tomb_pruned_at t).

Record plainTombstone (t : tombstone) : Prop := {
  pt_first : u64 (Tomb_first t);
  pt_last : u64 (Tomb_last t);
  pt_count : u64 (Tomb_count t);
  pt_texts : Forall fitsText [Tomb_previous_hash t; Tomb_batch_hash t; Tomb_policy_json t; Tomb_cutoff_at t; Tomb_pruned_at t];
}.

(** The same tombstone, under whatever id. *)
Definition sameTombstone (s t : tombstone) : Prop :=
  t = mkTombstone (Tomb_id t) (Tomb_first s) (Tomb_last s) (Tomb_count s) (Tomb_batch_hash s) (Tomb_policy_json s) (Tomb_cutoff_at s)
        (Tomb_pruned_at s) (Tomb_previous_hash s) (Tomb_hash s).

Lemma tombBytes_inj s t : plainTombstone s -> plainTombstone t -> Tomb_hash s = Tomb_hash t -> tombBytes s = tombBytes t -> sameTombstone s t.
Proof.
  intros [Sf Sl Sc Ss] [Tf Tl Tc Ts] Hh. repeat apply Forall_cons in Ss as [? Ss]. repeat apply Forall_cons in Ts as [? Ts].
  unfold tombBytes, tombstoneBytes. intros Heq%app_inv_head.
  apply retentionText_inj in Heq as [? Heq]; [|done..]. apply retentionUint64_inj in Heq as [? Heq]; [|done..].
  apply retentionUint64_inj in Heq as [? Heq]; [|done..]. apply retentionUint64_inj in Heq as [? Heq]; [|done..].
  do 3 (apply retentionText_inj in Heq as [? Heq]; [|done..]). rewrite <- (app_nil_r (retentionText (Tomb_pruned_at s))), <- (app_nil_r (retentionText (Tomb_pruned_at t))) in Heq.
  apply retentionText_inj in Heq as [? _]; [|done..]. destruct s, t; unfold sameTombstone; simpl in *. by subst.
Qed.

Context {RC : RetentionCodec}.

(** What a verified row is. *)
Record soundTombstone (previousID : Z) (previousHash : string) (t : tombstone) : Prop := {
  sd_id : previousID < Tomb_id t;
  sd_first : Tomb_first t <> 0;
  sd_bounds : Tomb_first t <= Tomb_last t;
  sd_count : Tomb_count t <> 0;
  sd_within : Tomb_count t <= (Tomb_last t - Tomb_first t + 1) mod 2 ^ 64;
  sd_batch : validSHA256Hex (Tomb_batch_hash t) = true;
  sd_valid : validSHA256Hex (Tomb_hash t) = true;
  sd_previous : Tomb_previous_hash t = previousHash;
  sd_policy : exists policy, policyRecordUnmarshal (Tomb_policy_json t) = Some policy /\ policyRecordMarshal policy = Tomb_policy_json t;
  sd_times : isSome (parseRetentionTime (Tomb_cutoff_at t)) = true /\ isSome (parseRetentionTime (Tomb_pruned_at t)) = true;
  sd_hash : Tomb_hash t = hexEncode (sum256 (tombBytes t));
}.

Lemma verifyTombstone_sound previousID previousHash t : verifyTombstone previousID previousHash t = Ok tt <->
  soundTombstone previousID previousHash t /\ (Tomb_previous_hash t = EmptyString \/ validSHA256Hex (Tomb_previous_hash t) = true).
Proof.
  unfold verifyTombstone. rewrite !reject_Ok, !orb_false, !negb_false_iff, !Z.leb_gt, !Z.eqb_neq, !Z.ltb_ge, andb_false_iff, !negb_false_iff, !eqs_true.
  split.
  - intros (((((Hid & Hf) & Hl) & Hc) & Hw) & ((Hb & Hh) & Hp) & Hprev & Hk). destruct (policyRecordUnmarshal _) as [policy|] eqn:Hpol; [|done].
    rewrite !reject_Ok, orb_false, !negb_false_iff, !eqs_true in Hk. destruct Hk as (Hcan & Ht & Hash & _). split; [|done]. split; try done. by exists policy.
  - intros [[] Hp]. destruct sd_policy0 as (policy & -> & Hcan). rewrite !reject_Ok, orb_false, !negb_false_iff, !eqs_true.
    destruct sd_times0. by split_and!.
Qed.

Lemma verifyChain_snoc rows : forall id h t, verifyChain id h (rows ++ [t]) =
  rbind (verifyChain id h rows) (fun h' => rbind (verifyTombstone (default id (Tomb_id <$> last rows)) h' t) (fun _ => Ok (Tomb_hash t))).
Proof.
  induction rows as [|r rows IH]; intros id h t; [done|]. simpl. destruct (verifyTombstone id h r); simpl; [|done]. rewrite IH.
  destruct rows as [|r' rows]; [done|]. rewrite last_cons_cons. destruct (last (r' :: rows)) eqn:Hl; [done|]. by apply last_None in Hl.
Qed.

Lemma sound_nonempty id h t : soundTombstone id h t -> Tomb_hash t <> EmptyString.
Proof. intros Hs Hh. pose proof (sd_valid _ _ _ Hs) as Hv. by rewrite Hh in Hv. Qed.

(** Two verified chains that end in one hash hold the same tombstones, or the
    hash collides on two of them. *)
Lemma chain_inj l1 : forall l2 h, Forall plainTombstone l1 -> Forall plainTombstone l2 ->
  verifyChain 0 EmptyString l1 = Ok h -> verifyChain 0 EmptyString l2 = Ok h ->
  Forall2 sameTombstone l1 l2 \/ exists t1 t2, t1 ∈ l1 /\ t2 ∈ l2 /\ collision (tombBytes t1) (tombBytes t2).
Proof.
  induction l1 as [|t1 l1 IH] using rev_ind; intros l2 h P1 P2 V1 V2.
  - injection V1 as <-. destruct l2 as [|t2 l2 _] using rev_ind; [by left; constructor|]. rewrite verifyChain_snoc in V2.
    apply rbind_Ok in V2 as (h2 & _ & (u & Hu & Hh)%rbind_Ok). destruct u. apply verifyTombstone_sound in Hu as [Hs _].
    injection Hh as Hh. by apply sound_nonempty in Hs.
  - rewrite verifyChain_snoc in V1. apply rbind_Ok in V1 as (h1 & V1 & (u & Hu & Hh)%rbind_Ok). destruct u.
    apply verifyTombstone_sound in Hu as [S1 _]. injection Hh as Hh. destruct l2 as [|t2 l2 _] using rev_ind.
    { injection V2 as <-. by apply sound_nonempty in S1. }
    rewrite verifyChain_snoc in V2. apply rbind_Ok in V2 as (h2 & V2 & (u & Hu & Hh2)%rbind_Ok). destruct u.
    apply verifyTombstone_sound in Hu as [S2 _]. injection Hh2 as Hh2. apply Forall_app in P1 as [P1 [Q1 _]%Forall_cons].
    apply Forall_app in P2 as [P2 [Q2 _]%Forall_cons]. assert (Tomb_hash t1 = Tomb_hash t2) as Heq by congruence. pose proof Heq as Heq'.
    rewrite (sd_hash _ _ _ S1), (sd_hash _ _ _ S2) in Heq'. destruct (hexSum_inj _ _ Heq') as [Hb|Hc].
    + pose proof (tombBytes_inj t1 t2 Q1 Q2 Heq Hb) as Hsame. assert (h1 = h2) as <-.
      { rewrite <- (sd_previous _ _ _ S1), <- (sd_previous _ _ _ S2), Hsame. done. }
      destruct (IH l2 h1 P1 P2 V1 V2) as [Hall|(x & y & Hx & Hy & Hc)].
      * left. apply Forall2_app; [done|]. by repeat constructor.
      * right. exists x, y. set_solver.
    + right. exists t1, t2. set_solver.
Qed.
End Binding.

(** ** What a pass does *)

(** The least of the cursors of the required projections, all of them ready. *)
Definition safeOf (required : list string) (d : DB) (safe : safeCursor) : Prop :=
  (forall p, p ∈ required -> exists c, db_cursors d !! p = Some c /\ Safe_ordinal safe <= PC_LastIngestOrdinal c) /\
  exists p c, p ∈ required /\ db_cursors d !! p = Some c /\ safe = mkSafe (PC_LastIngestOrdinal c) (PC_LastReceivedAt c) (PC_LastEventID c).

Section Passes.
Context {H : Hasher} {RC : RetentionCodec}.

Lemma safeCursor_spec sqlFails required : forall safe d, wp (retentionSafeCursor sqlFails safe required) (fun r d' => d' = d /\ match r with
    | Ok s => (Safe_ordinal safe <> 0 -> Safe_ordinal s <= Safe_ordinal safe) /\
        (forall p, p ∈ required -> exists c, db_cursors (rt_core d) !! p = Some c /\ Safe_ordinal s <= PC_LastIngestOrdinal c) /\
        ((s = safe /\ (required = [] \/ Safe_ordinal safe <> 0)) \/
         exists p c, p ∈ required /\ db_cursors (rt_core d) !! p = Some c /\ s = mkSafe (PC_LastIngestOrdinal c) (PC_LastReceivedAt c) (PC_LastEventID c))
    | Err _ => True end) d.
Proof.
  induction required as [|p required IH]; intros safe d; simpl.
  { apply wp_ret. split_and!; [done|lia|intros p Hp; set_solver|left; by split; [|left]]. }
  wp_step. apply wp_statement; [|done]. cbv [id]. do 4 wp_step. destruct (db_cursors (rt_core d) !! p) as [c|] eqn:Hc; [|by wp_step].
  destruct (_ || _ || _) eqn:Hready; [by wp_step|]. apply orb_false in Hready as [[Hz _]%orb_false _]. apply Z.eqb_neq in Hz.
  match goal with |- context [retentionSafeCursor _ (if ?b then ?x else ?y) _] => set (safe' := if b then x else y) end. eapply wp_mono; [apply (IH safe')|]. intros [s|e] d' [-> Hs]; [|done]. split; [done|].
  assert (Safe_ordinal safe' <> 0 /\ Safe_ordinal safe' <= PC_LastIngestOrdinal c /\ (Safe_ordinal safe <> 0 -> Safe_ordinal safe' <= Safe_ordinal safe)) as (Hz' & Hle & Hsafe).
  { subst safe'. destruct (Safe_ordinal safe =? 0) eqn:H0; simpl; [lia|]. destruct (_ <? _) eqn:Hl; simpl; lia. }
  destruct Hs as (H1 & H2 & H3). specialize (H1 Hz'). split_and!; [lia| |].
  - intros q [->|Hq]%elem_of_cons; [exists c; split; [done|lia]|by apply H2].
  - destruct H3 as [[-> _]|(q & c' & Hq & Hc' & ->)]; [|right; exists q, c'; split_and!; [by constructor|done..]].
    subst safe'. destruct ((Safe_ordinal safe =? 0) || _) eqn:Hl; [|left; split; [done|right; apply orb_false in Hl as [Hl _]; lia]].
    right. exists p, c. split_and!; [by constructor|done..].
Qed.

Lemma verifyTx_spec sqlFails d : wp (verifyRetentionTombstonesTx sqlFails) (fun r d' => d' = d /\ match r with
    | Ok _ => verifyChain 0 EmptyString (rt_tombstones d) = Ok (rt_head d) /\ len (rt_tombstones d) = rt_count d
    | Err _ => True end) d.
Proof.
  unfold verifyRetentionTombstonesTx. wp_step. apply wp_statement; [|done]. cbv [id]. do 2 wp_step. apply wp_statement; [|done]. cbv [id]. do 6 wp_step.
  destruct (verifyChain _ _ _) as [h|] eqn:Hv; [|done]. wp_step. destruct (_ || _) eqn:Hc; [by wp_step|]. wp_step. split; [done|].
  apply orb_false in Hc as [?%negb_false_iff ?%negb_false_iff]. rewrite eqs_true in *. split; [congruence|lia].
Qed.

Lemma wp_retentionTransaction {A} sqlFails begin (commit : A -> error) (m : M retentionDB A) Q d :
  wp m (fun r d' => match r with Ok a => Q (Ok a) d' /\ Q (Err (commit a)) d | Err e => Q (Err e) d end) d -> Q (Err begin) d ->
  wp (retentionTransaction sqlFails begin commit m) Q d.
Proof.
  intros Hm Hb n. unfold retentionTransaction; simpl. destruct (sqlFails n); [done|]. specialize (Hm (S n)).
  destruct (m (S n, d)) as [[a|e] [n' d']]; [|done]. destruct (sqlFails n'); tauto.
Qed.

(** A pass that deletes the batch [b]: the tables after it. *)
Definition batchPruned (wall : clockT) (cutoffs : EventRetentionCutoffs) (required : list string) (size : Z) (safe : safeCursor) (b : list retentionCandidate)
    (t : tombstone) (d d' : retentionDB) : Prop :=
  safeOf required (rt_core d) safe /\ b = retentionCandidates cutoffs (Safe_ordinal safe) size (rt_core d) /\ b <> [] /\
  (exists policyJSON m, canonicalRetentionPolicy cutoffs = Ok policyJSON /\
     t = tombstoneFor b policyJSON (Cutoffs_DefaultBefore cutoffs) (wall m) (rt_head d) (rt_ordinal d + 1)) /\
  d' = mkRetentionDB (rt_tombstones d ++ [t]) (rt_ordinal d + 1) (rt_count d + 1) (Tomb_hash t)
         (withoutOrdinals (Candidate_ordinal <$> b) (rt_core d)).

Definition passSize (batchSize : Z) : Z := if (batchSize <=? 0) || (10000 <? batchSize) then 500 else batchSize.

(** What a pass answers, and what it leaves. *)
Definition passDone (wall : clockT) (cutoffs : EventRetentionCutoffs) (required : list string) (size : Z) (d : retentionDB) (outcome : RetentionResult) (d' : retentionDB) : Prop :=
  exists safe, safeOf required (rt_core d) safe /\ Retention_SafeThroughOrdinal outcome = Safe_ordinal safe /\
    Retention_SafeThroughAt outcome = Safe_at safe /\ Retention_SafeThroughID outcome = Safe_id safe /\
    ((retentionCandidates cutoffs (Safe_ordinal safe) size (rt_core d) = [] /\ Retention_Deleted outcome = 0 /\ Retention_TombstoneHash outcome = EmptyString /\ d' = d) \/
     exists b t, batchPruned wall cutoffs required size safe b t d d' /\ Retention_Deleted outcome = len b /\ Retention_TombstoneHash outcome = Tomb_hash t).

Lemma pruneBody_spec sqlFails wall cutoffs policyJSON required size d : required <> [] -> canonicalRetentionPolicy cutoffs = Ok policyJSON ->
  wp (pruneBody sqlFails wall cutoffs policyJSON required size) (fun r d' => match r with
    | Ok outcome => passDone wall cutoffs required size d outcome d' | Err _ => True end) d.
Proof.
  intros Hreq Hpol. unfold pruneBody. wp_step. eapply wp_mono; [apply verifyTx_spec|]. intros [u|e] d1 [-> _]; [|done]. red.
  wp_step. eapply wp_mono; [apply safeCursor_spec|]. intros [safe|e] d1 [-> Hs]; [|done]. destruct Hs as (_ & Hall & Hatt).
  assert (safeOf required (rt_core d) safe) as Hsafe.
  { split; [done|]. destruct Hatt as [[_ [?|?]]|?]; [done| |done]. by simpl in *. }
  red. wp_step. unfold selectRetentionCandidates. wp_step. apply wp_statement; [|done]. cbv [id]. do 4 wp_step.
  set (b := retentionCandidates _ _ _ _). do 2 wp_step. destruct (len b =? 0) eqn:Hlen.
  { wp_step. exists safe. split_and!; try done. left. split_and!; [|done..]. fold b. clearbody b. destruct b; [done|]. unfold len in Hlen. simpl in Hlen. lia. }
  assert (b <> []) as Hb by (intros Hnil; rewrite Hnil in Hlen; done). repeat wp_step. apply wp_statement; [|done]. cbv [id]. repeat wp_step.
  unfold insertTombstone. repeat wp_step. destruct (tombstoneTaken _ _); [by wp_step|]. apply wp_statement; [|done].
  unfold advanceRetentionState. repeat wp_step. cbn [rt_count rt_head addTombstone]. rewrite Z.eqb_refl, eqs_refl. cbn [andb negb].
  apply wp_statement; [|done]. repeat wp_step. apply wp_statement; [|done]. cbv [id]. unfold deleteEvents. repeat wp_step.
  apply wp_statement; [|done]. repeat wp_step. apply wp_statement; [|done]. cbv [id]. repeat wp_step.
  destruct (negb _); [by wp_step|]. repeat wp_step. exists safe. split_and!; try done. right.
  eexists b, (tombstoneFor b policyJSON _ (wall n) (rt_head d) (rt_ordinal d + 1)). split_and!; [|done|done].
  split_and!; [done|done|done|by eexists _, _|done].
Qed.
Lemma prune_spec sqlFails wall cutoffs required batchSize d :
  wp (PruneEventsWithCutoffs sqlFails wall cutoffs required batchSize) (fun r d' => match r with
    | Ok (outcome, _) => passDone wall cutoffs required (passSize batchSize) d outcome d' | Err _ => d' = d end) d.
Proof.
  unfold PruneEventsWithCutoffs. repeat wp_step. destruct (canonicalRetentionPolicy cutoffs) as [policyJSON|] eqn:Hpol; [|done]. wp_step.
  destruct (len required =? 0) eqn:Hreq; [by wp_step|]. assert (required <> []) as Hne by (intros ->; done).
  repeat wp_step. destruct (validateProjections [] required) as [u|]; [|done]. repeat wp_step. fold (passSize batchSize).
  apply wp_retentionTransaction; [|done]. eapply wp_mono; [by apply pruneBody_spec|]. intros [outcome|e] d' Hp; [|done]. split; [|done]. red.
  destruct (Retention_Deleted outcome =? 0); [by apply wp_ret|]. repeat wp_step. apply wp_statement; repeat wp_step; done.
Qed.
End Passes.

(** ** Sorted ordinals *)

Lemma sorted_span (l : list Z) : StronglySorted Z.lt l -> l <> [] ->
  default 0 (head l) + len l - 1 <= default 0 (last l) /\ Forall (fun x => default 0 (head l) <= x <= default 0 (last l)) l.
Proof.
  induction l as [|x l IH]; [done|]. intros [Hs Hf]%StronglySorted_inv _. destruct l as [|y l]; [unfold len; simpl; split; [lia|repeat constructor; lia]|].
  destruct (IH Hs ltac:(done)) as [Hspan Hall]. apply Forall_cons in Hf as [Hxy _]. rewrite last_cons_cons.
  change (head (y :: l)) with (Some y) in *. change (head (x :: y :: l)) with (Some x). cbn [default from_option id] in *.
  unfold len in *. cbn [length] in *. split; [lia|]. constructor; [lia|]. eapply Forall_impl; [exact Hall|]. intros z Hz. simpl in Hz. lia.
Qed.

Lemma sorted_take (l : list Z) n : StronglySorted Z.lt l -> StronglySorted Z.lt (take n l).
Proof.
  revert n. induction l as [|x l IH]; intros [|n]; simpl; try (by constructor). intros [Hs Hf]%StronglySorted_inv. constructor; [by apply IH|].
  by apply Forall_take.
Qed.

Lemma sorted_nodup (l : list Z) : StronglySorted Z.lt l -> NoDup l.
Proof.
  induction 1 as [|x l Hs IH Hf]; [constructor|]. constructor; [|done]. intros Hx. rewrite Forall_forall in Hf. specialize (Hf x Hx). lia.
Qed.

(** ** The batch of a pass *)

Section Batch.
Context (cutoffs : EventRetentionCutoffs) (safeOrdinal size : Z).

Definition dueRow (r : eventRow) : bool := expiredRow cutoffs r && (Row_ingest_ordinal r <=? safeOrdinal).
Definition dueRows (rows : list eventRow) : list eventRow := take (Z.to_nat size) (List.filter dueRow rows).

Lemma dueRows_due rows : Forall (fun r => r ∈ rows /\ dueRow r = true) (dueRows rows).
Proof.
  apply Forall_take, Forall_forall. intros r Hr. apply list_elem_of_In, filter_In in Hr as [Hr Hd]. by rewrite list_elem_of_In.
Qed.

Lemma dueRows_sorted rows : StronglySorted Z.lt (Row_ingest_ordinal <$> rows) -> StronglySorted Z.lt (Row_ingest_ordinal <$> dueRows rows).
Proof. intros Hs. unfold dueRows. rewrite fmap_take. by apply sorted_take, sorted_filter. Qed.

Lemma candidates_rows d : retentionCandidates cutoffs safeOrdinal size d = candidateOf <$> dueRows (db_events d).
Proof. done. Qed.

Lemma candidate_ordinals (rows : list eventRow) : Candidate_ordinal <$> (candidateOf <$> rows) = Row_ingest_ordinal <$> rows.
Proof. rewrite <- list_fmap_compose. done. Qed.

(** What is left after the rows of some ordinals are taken out. *)
Lemma rows_split (rows some : list eventRow) : StronglySorted Z.lt (Row_ingest_ordinal <$> rows) -> some ⊆ rows -> NoDup some ->
  rows ≡ₚ some ++ List.filter (fun r => negb (bool_decide (Row_ingest_ordinal r ∈ Row_ingest_ordinal <$> some))) rows.
Proof.
  intros Hs Hsub Hnd. pose proof (sorted_nodup _ Hs) as Hords. assert (NoDup rows) as Hrows by by eapply NoDup_fmap_1.
  apply NoDup_Permutation; [done| |].
  - apply NoDup_app. split; [done|]. split.
    + intros r Hr Hin. apply list_elem_of_In, filter_In in Hin as [_ Hin]. apply negb_true_iff, bool_decide_eq_false in Hin. by apply Hin, list_elem_of_fmap_2.
    + apply NoDup_ListNoDup, List.NoDup_filter. by apply NoDup_ListNoDup.
  - intros r. rewrite elem_of_app. split.
    + intros Hr. destruct (decide (Row_ingest_ordinal r ∈ Row_ingest_ordinal <$> some)) as [(r' & Heq & Hr')%list_elem_of_fmap|Hno].
      * left. by rewrite (NoDup_fmap_inj Row_ingest_ordinal rows r r' Hords Hr (Hsub r' Hr') Heq).
      * right. apply list_elem_of_In, filter_In. split; [by apply list_elem_of_In|]. by rewrite bool_decide_eq_false_2.
    + intros [Hr|Hr]; [by apply Hsub|]. apply list_elem_of_In, filter_In in Hr as [Hr _]. by apply list_elem_of_In.
Qed.

Lemma dueRows_split rows : StronglySorted Z.lt (Row_ingest_ordinal <$> rows) ->
  rows ≡ₚ dueRows rows ++ List.filter (fun r => negb (bool_decide (Row_ingest_ordinal r ∈ Row_ingest_ordinal <$> dueRows rows))) rows.
Proof.
  intros Hs. apply rows_split; [done| |].
  - intros r Hr. pose proof (dueRows_due rows) as Hd. rewrite Forall_forall in Hd. by apply Hd.
  - eapply NoDup_fmap_1, sorted_nodup. by apply dueRows_sorted.
Qed.



End Batch.

(** ** The texts of a policy *)

Definition textUTF8 (s : string) : Prop := validUTF8 (bytes_of s) = true.

Lemma listed_utf8 (values : list string) s : Forall textUTF8 values -> containsValue values s = true -> textUTF8 s.
Proof.
  unfold containsValue. intros Hall (v & Hv & ->%eqs_true)%existsb_exists. rewrite Forall_forall in Hall. apply Hall. by apply list_elem_of_In.
Qed.

Lemma class_utf8 c : EvidenceClass_Valid c = true -> textUTF8 c.
Proof. apply listed_utf8. repeat constructor. Qed.
Lemma sensitivity_utf8 s : Sensitivity_Valid s = true -> textUTF8 s.
Proof. apply listed_utf8. repeat constructor. Qed.

Lemma cutoffRules_valid valid invalid extends default rules : cutoffRules valid invalid extends default rules = Ok tt ->
  Forall (fun p => valid (fst p) = true /\ default <= snd p) rules.
Proof.
  induction rules as [|[value before] rest IH]; simpl; [done|]. rewrite !reject_Ok, orb_false, negb_false_iff. intros (Hv & [_ Hb%Z.ltb_ge] & Hrest).
  constructor; [done|by apply IH].
Qed.

Section Policies.
Context {RC : RetentionCodec}.

Lemma rules_utf8 (valid : string -> bool) invalid extends default rules : (forall s, valid s = true -> textUTF8 s) ->
  cutoffRules valid invalid extends default (map_to_list rules) = Ok tt ->
  Forall textUTF8 (flat_map (fun r => [RuleRecord_Value r; RuleRecord_Before r]) (ruleRecords rules)).
Proof.
  intros Hv Hc%cutoffRules_valid. apply Forall_forall. intros s (r & Hr & Hs)%list_elem_of_In%in_flat_map. apply list_elem_of_In in Hr.
  unfold ruleRecords in Hr. rewrite merge_sort_Permutation in Hr. apply list_elem_of_fmap in Hr as ([value before] & -> & Hin).
  rewrite Forall_forall in Hc. destruct (Hc _ Hin) as [Hval _]. simpl in Hs. destruct Hs as [<-|[<-|[]]]; [by apply Hv|]. apply retention_time_utf8.
Qed.

Lemma policy_canonical cutoffs policyJSON : canonicalRetentionPolicy cutoffs = Ok policyJSON ->
  exists policy, policyRecordUnmarshal policyJSON = Some policy /\ policyRecordMarshal policy = policyJSON.
Proof.
  unfold canonicalRetentionPolicy. intros Hc. apply reject_Ok in Hc as [_ Hc]. apply rbind_Ok in Hc as ([] & H1 & Hc). apply rbind_Ok in Hc as ([] & H2 & Hc).
  injection Hc as <-. exists (policyRecordOf cutoffs). split; [|done]. apply policy_record_roundtrip. constructor; [apply retention_time_utf8|].
  simpl. rewrite flat_map_app. apply Forall_app. split; (eapply rules_utf8; [|done]); [apply class_utf8|apply sensitivity_utf8].
Qed.
End Policies.

(** ** The tables over time *)

Section Life.
Context {H : Hasher} {E : Ed25519} {EC : EventCodec} {RC : RetentionCodec}.
Context (checkMessage : string -> list Z -> string -> result unit) (validateOpaqueProtobuf : list Z -> result unit).
Context (wireSize : wireEvent -> Z).

Abbreviation AppendE sqlFails := (AppendEvent checkMessage validateOpaqueProtobuf wireSize sqlFails).
Abbreviation logInvE := (logInv checkMessage validateOpaqueProtobuf).
Abbreviation admittedE := (admitted checkMessage validateOpaqueProtobuf).

(** What the tables can become, with the events Core accepted so far: appends,
    cursors, nodes, and passes of retention, which fail at any statement. *)
Inductive retained : retentionDB -> list EventEnvelope -> Prop :=
| retained_new nodes : retained (mkRetentionDB [] 0 0 EmptyString (mkDB [] 0 ∅ ∅ nodes ∅)) []
| retained_append sqlFails n e r n' d c' h : retained d h -> AppendE sqlFails e (n, rt_core d) = (r, (n', c')) ->
    retained (setLog c' d) (match r with Ok true => h ++ [e] | _ => h end)
| retained_cursor sqlFails projection c n r n' d c' h : retained d h ->
    SetProjectionCursor sqlFails projection c (n, rt_core d) = (r, (n', c')) -> retained (setLog c' d) h
| retained_node id node d h : retained d h -> retained (setLog (setNode id node (rt_core d)) d) h
| retained_pass sqlFails wall cutoffs required batchSize n r n' d d' h : retained d h ->
    (forall m, fourDigitYear (wall m)) -> fourDigitYear (Cutoffs_DefaultBefore cutoffs) ->
    PruneEventsWithCutoffs sqlFails wall cutoffs required batchSize (n, d) = (r, (n', d')) -> retained d' h.

(** The rows of all accepted events, deleted or not. *)
Definition rowsOf (h : list EventEnvelope) (all : list eventRow) : Prop :=
  Row_ingest_ordinal <$> all = seqZ 1 (len h) /\
  Forall2 (fun e r => exists encoded, admittedE e encoded /\ r = rowOf (Row_ingest_ordinal r) e encoded) h all.

(** The tombstone is the receipt of the rows. *)
Definition receiptOf (t : tombstone) (rows : list eventRow) : Prop :=
  rows <> [] /\ Tomb_batch_hash t = retentionBatchHash (candidateOf <$> rows) /\ Tomb_count t = len rows /\
  Tomb_first t = default 0 (head (Row_ingest_ordinal <$> rows)) /\ Tomb_last t = default 0 (last (Row_ingest_ordinal <$> rows)) /\
  StronglySorted Z.lt (Row_ingest_ordinal <$> rows).

Record retentionInv (d : retentionDB) (h : list EventEnvelope) (all : list eventRow) (deleted : list (list eventRow)) : Prop := {
  ri_log : logInvE (rt_core d) h;
  ri_ordinal : db_ordinal (rt_core d) = len h;
  ri_all : rowsOf h all;
  ri_partition : concat deleted ++ db_events (rt_core d) ≡ₚ all;
  ri_receipts : Forall2 receiptOf (rt_tombstones d) deleted;
  ri_ids : Tomb_id <$> rt_tombstones d = seqZ 1 (rt_ordinal d);
  ri_last : rt_ordinal d = len (rt_tombstones d);
  ri_count : rt_count d = len (rt_tombstones d);
  ri_chain : len h < 2 ^ 64 -> verifyChain 0 EmptyString (rt_tombstones d) = Ok (rt_head d);
}.

Lemma rows_ordinals h all r : rowsOf h all -> r ∈ all -> 1 <= Row_ingest_ordinal r <= len h.
Proof.
  intros [Ho _] Hr. assert (Row_ingest_ordinal r ∈ seqZ 1 (len h)) as Hin by (rewrite <- Ho; by apply list_elem_of_fmap_2). apply elem_of_seqZ in Hin. lia.
Qed.

(** The head of a verified chain is empty or a digest. *)
Lemma chain_head rows h : verifyChain 0 EmptyString rows = Ok h -> h = EmptyString \/ validSHA256Hex h = true.
Proof.
  destruct rows as [|t rows _] using rev_ind; [by intros [= <-]; left|]. rewrite verifyChain_snoc.
  intros (h' & _ & ([] & Hu & [= <-])%rbind_Ok)%rbind_Ok. right. apply verifyTombstone_sound in Hu as [Hs _]. by apply (sd_valid _ _ _ Hs).
Qed.

Lemma hexSum_valid m : validSHA256Hex (hexEncode (sum256 m)) = true.
Proof. unfold validSHA256Hex, validDigest, slen. rewrite hexEncode_length, sum256_length. simpl. apply hexEncode_chars, sum256_bytes. Qed.

(** The tombstone of a sorted batch of positive ordinals continues the chain. *)
Lemma tombstone_continues rows b policyJSON cutoff prunedAt h id bound :
  verifyChain 0 EmptyString rows = Ok h -> default 0 (Tomb_id <$> last rows) < id -> b <> [] -> StronglySorted Z.lt (Candidate_ordinal <$> b) ->
  (forall c, c ∈ b -> 1 <= Candidate_ordinal c <= bound) -> bound < 2 ^ 64 ->
  (exists policy, policyRecordUnmarshal policyJSON = Some policy /\ policyRecordMarshal policy = policyJSON) ->
  fourDigitYear cutoff -> fourDigitYear prunedAt ->
  let t := tombstoneFor b policyJSON cutoff prunedAt h id in verifyChain 0 EmptyString (rows ++ [t]) = Ok (Tomb_hash t).
Proof.
  intros Hchain Hid Hb Hs Hords Hbound Hpol Hc Hp t. rewrite verifyChain_snoc, Hchain. cbn [rbind].
  assert (verifyTombstone (default 0 (Tomb_id <$> last rows)) h t = Ok tt) as ->; [|done].
  apply verifyTombstone_sound. split; [|by eapply chain_head].
  destruct (sorted_span (Candidate_ordinal <$> b) Hs) as [Hspan Hall]; [by destruct b|].
  assert (Tomb_first t = default 0 (head (Candidate_ordinal <$> b))) as Hfirst by by destruct b.
  assert (Tomb_last t = default 0 (last (Candidate_ordinal <$> b))) as Hlast by by (unfold t, tombstoneFor; cbn [Tomb_last]; rewrite fmap_last).
  assert (Forall (fun x => 1 <= x <= bound) (Candidate_ordinal <$> b)) as Hrange.
  { apply Forall_fmap, Forall_forall. intros c Hc'. by apply Hords. }
  assert (len (Candidate_ordinal <$> b) = len b) as Hlen by (unfold len; by rewrite length_fmap).
  assert (1 <= Tomb_first t /\ Tomb_last t <= bound /\ Tomb_first t + len b - 1 <= Tomb_last t /\ 1 <= len b) as (Hf & Hl & Hsp & Hn).
  { rewrite Hfirst, Hlast. rewrite Forall_forall in Hrange. split_and!; [| |lia|destruct b; [done|unfold len; simpl; lia]].
    - destruct b as [|c b]; [done|]. apply Hrange. constructor.
    - destruct (last (Candidate_ordinal <$> b)) as [x|] eqn:Hx; [|apply last_None, fmap_nil_inv in Hx; done].
      apply Hrange. apply last_Some in Hx as [l' ->]. apply elem_of_app. right. constructor. }
  split.
  - exact Hid.
  - lia.
  - lia.
  - change (Tomb_count t) with (len b). lia.
  - change (Tomb_count t) with (len b). rewrite Z.mod_small; lia.
  - apply hexSum_valid.
  - apply hexSum_valid.
  - done.
  - exact Hpol.
  - unfold t, tombstoneFor. cbn [Tomb_cutoff_at Tomb_pruned_at]. by rewrite !retention_time_parsed.
  - done.
Qed.

(** *** Preservation *)

Lemma retention_append sqlFails e n r n' d c' h all deleted : retentionInv d h all deleted -> AppendE sqlFails e (n, rt_core d) = (r, (n', c')) ->
  exists all', retentionInv (setLog c' d) (match r with Ok true => h ++ [e] | _ => h end) all' deleted.
Proof.
  intros Hi Happ. pose proof (wp_run _ _ _ _ _ _ _ (append_spec checkMessage validateOpaqueProtobuf wireSize sqlFails e _ (li_known _ _ _ _ (ri_log _ _ _ _ Hi))) Happ) as Hs.
  assert (setLog (rt_core d) d = d) as Hd by by destruct d. destruct r as [[]|].
  - destruct Hs as (Hr & Ha & encoded & Hm & Hacc). exists (all ++ [rowOf (db_ordinal (rt_core d) + 1) e encoded]). destruct Hi.
    assert (len (h ++ [e]) = len h + 1) as Hlen by (unfold len; rewrite length_app; simpl; lia). split; try done; simpl.
    + by eapply accepted_inv.
    + rewrite (acc_ordinal _ _ _ _ Hacc). lia.
    + destruct ri_all0 as [Ho Hf]. split.
      * rewrite fmap_app, Ho, Hlen, seqZ_snoc by (unfold len; lia). simpl. by rewrite ri_ordinal0.
      * apply Forall2_app; [done|]. constructor; [|constructor]. by exists encoded.
    + rewrite (acc_events _ _ _ _ Hacc), app_assoc. by apply Permutation_app_tail.
    + intros Hb. apply ri_chain0. lia.
  - destruct Hs as [-> _]. rewrite Hd. by exists all.
  - subst c'. rewrite Hd. by exists all.
Qed.

Lemma retention_core c' d h all deleted : retentionInv d h all deleted -> logInvE c' h -> db_events c' = db_events (rt_core d) ->
  db_ordinal c' = db_ordinal (rt_core d) -> retentionInv (setLog c' d) h all deleted.
Proof. intros [] Hl He Ho. split; try done; simpl; [congruence|by rewrite He]. Qed.

Lemma logInv_without ordinals c h : logInvE c h -> logInvE (withoutOrdinals ordinals c) h.
Proof. intros []. split; try done; simpl; first [by apply nodup_filter|by apply sorted_filter|by apply forall_filter]. Qed.

Lemma seqZ_last k id : 0 <= k -> k < id -> default 0 (last (seqZ 1 k)) < id.
Proof.
  intros Hk Hid. destruct (last (seqZ 1 k)) as [x|] eqn:Hx; simpl; [|lia]. apply last_Some in Hx as [l Hl].
  assert (x ∈ seqZ 1 k) as Hin%elem_of_seqZ by (rewrite Hl; apply elem_of_app; right; constructor). lia.
Qed.

Lemma retention_pass sqlFails wall cutoffs required batchSize n r n' d d' h all deleted : retentionInv d h all deleted ->
  (forall m, fourDigitYear (wall m)) -> fourDigitYear (Cutoffs_DefaultBefore cutoffs) ->
  PruneEventsWithCutoffs sqlFails wall cutoffs required batchSize (n, d) = (r, (n', d')) -> exists deleted', retentionInv d' h all deleted'.
Proof.
  intros Hi Hw Hc Hrun. pose proof (wp_run _ _ _ _ _ _ _ (prune_spec sqlFails wall cutoffs required batchSize d) Hrun) as Hs. destruct r as [[outcome e]|e].
  - destruct Hs as (safe & Hsafe & _ & _ & _ & [(_ & _ & _ & ->)|(b & t & Hb & _)]); [by exists deleted|].
    destruct Hb as (_ & -> & Hne & (policyJSON & m & Hpol & ->) & ->). rewrite candidates_rows in *.
    set (due := dueRows cutoffs (Safe_ordinal safe) (passSize batchSize) (db_events (rt_core d))) in *. exists (deleted ++ [due]).
    destruct Hi. pose proof (li_ordered _ _ _ _ ri_log0) as Hsorted. pose proof (dueRows_sorted cutoffs (Safe_ordinal safe) (passSize batchSize) _ Hsorted) as Hdue.
    pose proof (dueRows_split cutoffs (Safe_ordinal safe) (passSize batchSize) _ Hsorted) as Hsplit. fold due in Hdue, Hsplit.
    assert (forall x, x ∈ due -> x ∈ all) as Hall. { intros x Hx. rewrite <- ri_partition0, Hsplit. set_solver. }
    rewrite candidate_ordinals. split; cbn [rt_core rt_tombstones rt_ordinal rt_count rt_head]; try done.
    + by apply logInv_without.
    + rewrite concat_app. simpl. rewrite app_nil_r, <- app_assoc. etransitivity; [|exact ri_partition0]. apply Permutation_app_head. by symmetry.
    + apply Forall2_app; [done|]. constructor; [|constructor]. split_and!; try done.
      * intros Hnil. by rewrite Hnil in Hne.
      * unfold tombstoneFor, len. cbn [Tomb_count]. by rewrite length_fmap.
      * unfold tombstoneFor. cbn [Tomb_first]. by destruct due.
      * unfold tombstoneFor. cbn [Tomb_last]. by rewrite <- fmap_last, candidate_ordinals.
    + rewrite fmap_app, ri_ids0, ri_last0, seqZ_snoc by (unfold len; lia). done.
    + rewrite ri_last0. unfold len. rewrite length_app. simpl. lia.
    + rewrite ri_count0. unfold len. rewrite length_app. simpl. lia.
    + intros Hbound. apply (tombstone_continues _ _ _ _ _ _ _ (len h)); try done; [by apply ri_chain0| | | |by eapply policy_canonical].
      * rewrite <- fmap_last, ri_ids0, ri_last0. apply seqZ_last; [unfold len; lia|lia].
      * by rewrite candidate_ordinals.
      * intros c (x & -> & Hx)%list_elem_of_fmap. simpl. eapply rows_ordinals; [done|by apply Hall].
  - subst d'. by exists deleted.
Qed.

Lemma retained_inv d h : retained d h -> exists all deleted, retentionInv d h all deleted.
Proof.
  induction 1 as [nodes|sqlFails n e r n' d c' h _ (all & deleted & Hi) Happ|sqlFails projection c n r n' d c' h _ (all & deleted & Hi) Hc|id node d h _ (all & deleted & Hi)
                 |sqlFails wall cutoffs required batchSize n r n' d d' h _ (all & deleted & Hi) Hw Hc Hrun].
  - exists [], []. split; try done.
    split; unfold bootsKnown, highestOf; simpl; try (by constructor); intros *; rewrite ?lookup_empty; try done; by constructor.
  - destruct (retention_append _ _ _ _ _ _ _ _ _ _ Hi Happ) as [all' Hi']. by exists all', deleted.
  - exists all, deleted. pose proof (ri_log _ _ _ _ Hi) as Hl. pose proof (wp_run _ _ _ _ _ _ _ (setCursor_spec sqlFails projection c _) Hc) as [->|[c0 ->]].
    + by apply retention_core.
    + apply retention_core; try done. destruct Hl. by split.
  - exists all, deleted. apply retention_core; try done. destruct (ri_log _ _ _ _ Hi). by split.
  - destruct (retention_pass _ _ _ _ _ _ _ _ _ _ _ _ _ Hi Hw Hc Hrun) as [deleted' Hi']. by exists all, deleted'.
Qed.


(** One receipt, one batch. *)
Lemma batches_same rows1 rows2 deleted1 deleted2 : Forall2 sameTombstone rows1 rows2 ->
  Forall2 receiptOf rows1 deleted1 -> Forall2 receiptOf rows2 deleted2 ->
  Forall (Forall (fun r => plainCandidate (candidateOf r))) deleted1 -> Forall (Forall (fun r => plainCandidate (candidateOf r))) deleted2 ->
  map (map candidateOf) deleted1 = map (map candidateOf) deleted2 \/
  (exists b1 b2, b1 ∈ deleted1 /\ b2 ∈ deleted2 /\ (collision (batchBytes (candidateOf <$> b1)) (batchBytes (candidateOf <$> b2)) \/
     exists r1 r2, r1 ∈ b1 /\ r2 ∈ b2 /\ collision (Row_envelope_proto r1) (Row_envelope_proto r2))).
Proof.
  intros Hsame. revert deleted1 deleted2. induction Hsame as [|t1 t2 rows1 rows2 Ht _ IH]; intros deleted1 deleted2 R1 R2 C1 C2.
  { inversion R1; inversion R2; subst. by left. }
  apply Forall2_cons_inv_l in R1 as (b1 & d1 & R1 & Hr1 & ->). apply Forall2_cons_inv_l in R2 as (b2 & d2 & R2 & Hr2 & ->).
  apply Forall_cons in C1 as [C1 D1]. apply Forall_cons in C2 as [C2 D2]. destruct R1 as (_ & Hb1 & _), R2 as (_ & Hb2 & _).
  destruct (IH d1 d2 Hr1 Hr2 D1 D2) as [Heq|(x & y & Hx & Hy & Hc)]; [|right; exists x, y; split_and!; [by constructor..|done]].
  assert (retentionBatchHash (candidateOf <$> b1) = retentionBatchHash (candidateOf <$> b2)) as Hh by (rewrite <- Hb1, <- Hb2, Ht; done).
  destruct (batchHash_inj (candidateOf <$> b1) (candidateOf <$> b2)) as [Hb|[Hc|(c1 & c2 & (r1 & -> & Hr)%list_elem_of_fmap & (r2 & -> & Hr')%list_elem_of_fmap & Hc)]];
    [by apply Forall_fmap|by apply Forall_fmap|done| | |].
  - left. simpl. f_equal; [exact Hb|exact Heq].
  - right. exists b1, b2. split_and!; [constructor|constructor|by left].
  - right. exists b1, b2. split_and!; [constructor|constructor|]. right. by exists r1, r2.
Qed.

(** ** Theorems *)



(** C23. Nothing disappears without a receipt. Whatever was appended, pruned and
    left half done, every event Core ever accepted is either still in the log
    or in exactly one deleted batch, and the tombstones are the receipts of
    the batches, one each and in order; and the chain of tombstones always
    verifies when the database can be read. *)
Theorem nothing_unaccounted d h : retained d h ->
  (exists all deleted, rowsOf h all /\ concat deleted ++ db_events (rt_core d) ≡ₚ all /\ Forall2 receiptOf (rt_tombstones d) deleted) /\
  (len h < 2 ^ 64 -> forall sqlFails n, (forall m, sqlFails m = false) -> exists n', VerifyEventRetentionTombstones sqlFails (n, d) = (Ok tt, (n', d))).
Proof.
  intros (all & deleted & [])%retained_inv. split; [by exists all, deleted|]. intros Hb sqlFails n Hok.
  unfold VerifyEventRetentionTombstones, dbTransaction, verifyRetentionTombstonesTx, statement, bindM. cbn [fst snd]. rewrite !Hok. cbn [fst snd getS liftR retM id].
  rewrite ri_chain0 by done. cbn [fst snd]. rewrite ri_count0, Z.eqb_refl, eqs_refl. cbn [negb orb retM]. rewrite !Hok. by eexists.
Qed.

(** C25. The head of the chain commits to all deletions. Two databases whose
    chains verify up to the same head hold the same tombstones, and the
    batches they are receipts of are the same events byte for byte, unless the
    hash collides on what was hashed. *)
Theorem receipts_binding rows1 rows2 head deleted1 deleted2 :
  Forall plainTombstone rows1 -> Forall plainTombstone rows2 -> verifyChain 0 EmptyString rows1 = Ok head -> verifyChain 0 EmptyString rows2 = Ok head ->
  Forall2 receiptOf rows1 deleted1 -> Forall2 receiptOf rows2 deleted2 ->
  Forall (Forall (fun r => plainCandidate (candidateOf r))) deleted1 -> Forall (Forall (fun r => plainCandidate (candidateOf r))) deleted2 ->
  (Forall2 sameTombstone rows1 rows2 /\ map (map candidateOf) deleted1 = map (map candidateOf) deleted2) \/
  (exists t1 t2, t1 ∈ rows1 /\ t2 ∈ rows2 /\ collision (tombBytes t1) (tombBytes t2)) \/
  (exists b1 b2, b1 ∈ deleted1 /\ b2 ∈ deleted2 /\ (collision (batchBytes (candidateOf <$> b1)) (batchBytes (candidateOf <$> b2)) \/
     exists r1 r2, r1 ∈ b1 /\ r2 ∈ b2 /\ collision (Row_envelope_proto r1) (Row_envelope_proto r2))).
Proof.
  intros P1 P2 V1 V2 R1 R2 C1 C2. destruct (chain_inj rows1 rows2 head P1 P2 V1 V2) as [Hsame|Hc]; [|by right; left].
  destruct (batches_same rows1 rows2 deleted1 deleted2 Hsame R1 R2 C1 C2) as [Heq|Hc]; [by left|by right; right].
Qed.
End Life.
