(* ===== verification/EventIngestFacts.v ===== *)
(** * Ingesting events: theorems

    Only an event that an active, enrolled node signed, inside the validity
    of its credential, reaches the log; a subscription that is open has every
    event published since it was made, in order; and an answer of the batch
    handler that rejects nothing means every event of the batch is stored. *)

From S2P Require Import Prelude Sha256 Digest Contract Plan Events EventStore EventIngest EventFacts EventStoreFacts.
From stdpp Require Import base gmap list strings pretty sorting relations.
From Stdlib Require Import ZArith Lia Sorted.

Open Scope Z_scope.

(** Tables that differ in the cursors at most. *)
Definition quiet (d d' : DB) : Prop := exists cursors, d' = mkDB (db_events d) (db_ordinal d) (db_state d) (db_boots d) (db_nodes d) cursors.

Lemma quiet_refl d : quiet d d.
Proof. exists (db_cursors d). by destruct d. Qed.

Lemma quiet_trans d1 d2 d3 : quiet d1 d2 -> quiet d2 d3 -> quiet d1 d3.
Proof. intros [c1 ->] [c2 ->]. by exists c2. Qed.

Lemma quiet_row d d' id : quiet d d' -> rowById id d' = rowById id d.
Proof. by intros [c ->]. Qed.

#[export] Hint Resolve quiet_refl : core.

Lemma withDatabase_get s : withDatabase (St_database s) s = s.
Proof. by destruct s. Qed.

Ltac wp_if Hb := match goal with |- wp (if ?b then _ else _) _ _ => destruct b eqn:Hb end.

(** ** Subscriptions *)

Definition room (ch : channel) : bool := bool_decide (length (Ch_queue ch) < Ch_capacity ch)%nat.

Definition offered (e : EventEnvelope) (ch : channel) : channel :=
  if room ch then mkChannel (Ch_capacity ch) (Ch_queue ch ++ [e]) (Ch_received ch) (Ch_closed ch)
  else mkChannel (Ch_capacity ch) (Ch_queue ch) (Ch_received ch) true.

Lemma offer_lookup e i j s :
  St_channels (offer e i s) !! j = if bool_decide (i = j) then offered e <$> St_channels s !! j else St_channels s !! j.
Proof.
  unfold offer, offered, room. case_bool_decide as Hij.
  - subst j. destruct (St_channels s !! i) as [ch|] eqn:Hc; [|simpl; by rewrite Hc]. simpl. case_bool_decide; simpl; by rewrite lookup_insert_eq.
  - destruct (St_channels s !! i) as [ch|]; [|done]. case_bool_decide; simpl; by rewrite lookup_insert_ne.
Qed.

Lemma offer_member e i j s :
  j ∈ St_subscribers (offer e i s) <-> j ∈ St_subscribers s /\ (i = j -> forall ch, St_channels s !! i = Some ch -> room ch = true).
Proof.
  unfold offer, room. destruct (St_channels s !! i) as [ch|] eqn:Hc; [|split; [intros ?; by split|by intros [? _]]].
  case_bool_decide as Hr; simpl.
  - split; [intros Hj; split; [done|]; intros -> ch' [= <-]; by apply bool_decide_eq_true|by intros [? _]].
  - rewrite elem_of_difference, elem_of_singleton. split.
    + intros [Hj Hne]. split; [done|]. by intros <-.
    + intros [Hj Hf]. split; [done|]. intros ->. pose proof (Hf eq_refl _ eq_refl) as Hb%bool_decide_eq_true. done.
Qed.

Lemma offers_lookup e l j s : NoDup l ->
  St_channels (foldr (offer e) s l) !! j = if bool_decide (j ∈ l) then offered e <$> St_channels s !! j else St_channels s !! j.
Proof.
  induction 1 as [|i l Hi Hn IH]; simpl; [done|].
  rewrite offer_lookup, IH. destruct (decide (i = j)) as [->|Hij]; repeat case_bool_decide; try done; set_solver.
Qed.

Lemma offers_member e l j s : NoDup l ->
  j ∈ St_subscribers (foldr (offer e) s l) <-> j ∈ St_subscribers s /\ (j ∈ l -> forall ch, St_channels s !! j = Some ch -> room ch = true).
Proof.
  induction 1 as [|i l Hi Hn IH]; simpl; [split; [intros ?; split; [done|]; intros Hj; by apply not_elem_of_nil in Hj|by intros [? _]]|].
  rewrite offer_member, IH, offers_lookup by done. rewrite (bool_decide_false (i ∈ l)) by done. split.
  - intros [[Hj Hl] He]. split; [done|]. intros [->|Hin]%elem_of_cons ch Hc; [by apply He|by apply Hl].
  - intros [Hj Hl]. split_and!; [done| |].
    + intros Hin. apply Hl, elem_of_cons. by right.
    + intros -> ch Hc. apply Hl; [apply elem_of_cons; by left|done].
Qed.

Lemma publish_lookup e j s : St_channels (publish e s) !! j =
  if bool_decide (j ∈ St_subscribers s) then offered e <$> St_channels s !! j else St_channels s !! j.
Proof.
  unfold publish. rewrite offers_lookup by apply NoDup_elements. repeat case_bool_decide; try done; set_solver.
Qed.

Lemma publish_member e j s : j ∈ St_subscribers (publish e s) <->
  j ∈ St_subscribers s /\ forall ch, St_channels s !! j = Some ch -> room ch = true.
Proof.
  unfold publish. rewrite offers_member by apply NoDup_elements. rewrite elem_of_elements. tauto.
Qed.

Lemma publish_next e s : St_nextSubscriber (publish e s) = St_nextSubscriber s /\ St_database (publish e s) = St_database s.
Proof.
  unfold publish. induction (elements (St_subscribers s)) as [|i l IH]; simpl; [done|]. unfold offer.
  destruct (St_channels _ !! i); [|done]. by case_bool_decide.
Qed.

(** What a store can go through, with what was published since each
    subscription was made: subscriptions come and go, subscribers take events
    out of their channels at their own pace, events are published. *)
Inductive lived : Store -> (nat -> list EventEnvelope) -> Prop :=
| lived_new d : lived (mkStore d 0 ∅ ∅) (fun _ => [])
| lived_subscribe buffer s log : lived s log -> lived (snd (Subscribe buffer s)) log
| lived_publish e s log : lived s log ->
    lived (publish e s) (fun i => if bool_decide (i < St_nextSubscriber s)%nat then log i ++ [e] else log i)
| lived_unsubscribe i s log : lived s log -> lived (unsubscribe i s) log
| lived_receive i s log : lived s log -> lived (receive i s) log
| lived_database d s log : lived s log -> lived (withDatabase d s) log.

Record subscriptionsOK (s : Store) (log : nat -> list EventEnvelope) : Prop := {
  so_made : forall i ch, St_channels s !! i = Some ch -> (i < St_nextSubscriber s)%nat;
  so_later : forall i, (St_nextSubscriber s <= i)%nat -> log i = [] /\ i ∉ St_subscribers s;
  so_open : forall i, i ∈ St_subscribers s -> exists ch, St_channels s !! i = Some ch /\ Ch_closed ch = false /\
    Ch_received ch ++ Ch_queue ch = log i;
  so_gone : forall i ch, St_channels s !! i = Some ch -> i ∉ St_subscribers s -> Ch_closed ch = true /\
    Ch_received ch ++ Ch_queue ch `prefix_of` log i;
}.

Lemma subscribe_ok buffer s log : subscriptionsOK s log -> subscriptionsOK (snd (Subscribe buffer s)) log.
Proof.
  intros [H1 H2 H3 H4]. set (m := St_nextSubscriber s) in *. split; cbn.
  - intros i ch [[<- _]|[_ Hc]]%lookup_insert_Some; [lia|]. apply H1 in Hc. unfold m in *. lia.
  - intros i Hi. destruct (H2 i) as [? ?]; [lia|]. split; [done|]. rewrite elem_of_union, elem_of_singleton. intros [->|?]; [lia|done].
  - intros i [->%elem_of_singleton|Hi]%elem_of_union.
    + rewrite lookup_insert_eq. eexists. split; [done|]. split; [done|]. symmetry. by destruct (H2 m) as [? _].
    + rewrite lookup_insert_ne; [by apply H3|]. intros <-. by destruct (H2 m) as [_ ?].
  - intros i ch [[<- _]|[Hne Hc]]%lookup_insert_Some Hn; [set_solver|]. apply H4; [done|set_solver].
Qed.

Lemma publish_ok e s log : subscriptionsOK s log ->
  subscriptionsOK (publish e s) (fun i => if bool_decide (i < St_nextSubscriber s)%nat then log i ++ [e] else log i).
Proof.
  intros [H1 H2 H3 H4]. split; rewrite ?(proj1 (publish_next _ _)).
  - intros i ch. rewrite publish_lookup. case_bool_decide as Hs; [|by eauto]. intros (ch' & Hc & _)%fmap_Some. by eauto.
  - intros i Hi. destruct (H2 i Hi) as [? Hn]. rewrite bool_decide_false by lia. split; [done|]. by intros [? _]%publish_member.
  - intros i [Hs Hr]%publish_member. destruct (H3 i Hs) as (ch & Hc & Hcl & Hl). rewrite publish_lookup, bool_decide_true, Hc by done.
    rewrite bool_decide_true by (by eapply H1). eexists. split; [done|]. unfold offered. rewrite (Hr ch Hc). cbn. by rewrite app_assoc, Hl.
  - intros i ch Hc Hn. rewrite publish_member in Hn. rewrite publish_lookup in Hc. case_bool_decide as Hs.
    + destruct (H3 i Hs) as (ch' & Hc' & Hcl & Hl). rewrite Hc' in Hc. injection Hc as <-. rewrite bool_decide_true by (by eapply H1).
      assert (room ch' = false) as Hr. { apply not_true_is_false. intros Hr. apply Hn. split; [done|]. intros ch [= <-]%(eq_trans (eq_sym Hc')). done. }
      unfold offered. rewrite Hr. cbn. rewrite Hl. split; [done|]. by apply prefix_app_r.
    + destruct (H4 i ch Hc Hs) as [? Hp]. rewrite bool_decide_true by (by eapply H1). split; [done|]. by apply prefix_app_r.
Qed.

Lemma unsubscribe_ok i s log : subscriptionsOK s log -> subscriptionsOK (unsubscribe i s) log.
Proof.
  intros Hs. unfold unsubscribe. case_bool_decide as Hi; [|done]. destruct Hs as [H1 H2 H3 H4]. split; cbn.
  - intros j ch [(<- & ch' & Hc & _)|[_ Hc]]%lookup_alter_Some; by eauto.
  - intros j Hj. destruct (H2 j Hj). set_solver.
  - intros j [Hj Hne]%elem_of_difference. rewrite elem_of_singleton in Hne. rewrite lookup_alter_ne by done. by apply H3.
  - intros j ch Hc Hn. apply lookup_alter_Some in Hc as [(<- & ch' & Hc & ->)|[Hne Hc]]; cbn.
    + destruct (H3 i Hi) as (ch & Hch & _ & Hl). rewrite Hc in Hch. injection Hch as ->. by rewrite Hl.
    + apply H4; [done|set_solver].
Qed.

Lemma receive_ok i s log : subscriptionsOK s log -> subscriptionsOK (receive i s) log.
Proof.
  intros Hs. unfold receive. destruct (St_channels s !! i) as [[capacity [|e queue] received closed]|] eqn:Hi; try done.
  destruct Hs as [H1 H2 H3 H4]. split; cbn.
  - intros j ch [[<- _]|[_ Hc]]%lookup_insert_Some; by eauto.
  - done.
  - intros j Hj. destruct (H3 j Hj) as (ch & Hc & Hcl & Hl). destruct (decide (i = j)) as [<-|Hne].
    + rewrite lookup_insert_eq. eexists. split; [done|]. rewrite Hi in Hc. injection Hc as <-. cbn in *. by rewrite <- app_assoc.
    + rewrite lookup_insert_ne by done. by exists ch.
  - intros j ch [[<- <-]|[_ Hc]]%lookup_insert_Some Hn; [|by apply H4]. destruct (H4 i _ Hi Hn) as [? Hp]. cbn in *. by rewrite <- app_assoc.
Qed.

Lemma lived_ok s log : lived s log -> subscriptionsOK s log.
Proof.
  induction 1; [|by apply subscribe_ok|by apply publish_ok|by apply unsubscribe_ok|by apply receive_ok|by destruct IHlived].
  split; cbn; set_solver.
Qed.

(** A subscriber is never left with a silent gap. At any time, what it took
    out of its channel followed by what waits there is a prefix of the events
    published since it subscribed, in that order; and as long as its channel
    is open it is all of them: the only way to miss an event is to be evicted
    by closing the channel. *)
Theorem no_silent_gap s log i ch : lived s log -> St_channels s !! i = Some ch ->
  Ch_received ch ++ Ch_queue ch `prefix_of` log i /\
  (Ch_closed ch = false -> Ch_received ch ++ Ch_queue ch = log i) /\
  (i ∈ St_subscribers s <-> Ch_closed ch = false).
Proof.
  intros [H1 H2 H3 H4]%lived_ok Hc. destruct (decide (i ∈ St_subscribers s)) as [Hs|Hs].
  - destruct (H3 i Hs) as (ch' & Hc' & Hcl & Hl). rewrite Hc in Hc'. injection Hc' as <-. by rewrite Hl.
  - destruct (H4 i ch Hc Hs) as [Hcl Hp]. split; [done|]. rewrite Hcl. by split_and!.
Qed.

Section Ingest.
Context {H : Hasher} {E : Ed25519} {EC : EventCodec}.
Context (checkMessage : string -> list Z -> string -> result unit) (validateOpaqueProtobuf : list Z -> result unit).
Context (wireSize : wireEvent -> Z) (sqlFails : nat -> bool).
Context (parseCertificate : string -> option Certificate) (checkSignatureFrom : string -> Certificate -> bool).
Context (clock : clockT) (deploymentID : string) (caCertificate : Certificate).

Abbreviation Validate := (EventEnvelope_Validate checkMessage validateOpaqueProtobuf).
Abbreviation credential := (validateCredential parseCertificate checkSignatureFrom deploymentID caCertificate).
Abbreviation Get := (GetEvent checkMessage validateOpaqueProtobuf wireSize sqlFails).
Abbreviation Ingest := (Store_Append checkMessage validateOpaqueProtobuf wireSize sqlFails parseCertificate checkSignatureFrom clock
  deploymentID caCertificate).
Abbreviation admittedEvent := (admitted checkMessage validateOpaqueProtobuf).

(** ** The parts of an append *)

Lemma getNode_spec name d : wp (GetNode sqlFails name) (fun r d' => d' = d /\ forall node, r = Ok node -> db_nodes d !! name = Some node) d.
Proof.
  unfold GetNode. wp_step. apply wp_statement; [|done]. cbv [id]. do 4 wp_step. destruct (db_nodes d !! name) as [node|] eqn:Hn;
    [apply wp_ret|apply wp_fail]; split; try done. by intros ? [= <-].
Qed.

Lemma getEvent_spec name d : wp (Get name) (fun r d' => d' = d /\ forall e, r = Ok e -> exists row, rowById name d = Some row) d.
Proof.
  unfold GetEvent. wp_step. apply wp_statement; [|done]. cbv [id]. do 4 wp_step. destruct (rowById name d) as [row|] eqn:Hn;
    [apply wp_lift|apply wp_fail]; split; try done. intros. by exists row.
Qed.

Lemma getCursor_spec projection d : wp (GetProjectionCursor sqlFails projection) (fun _ d' => d' = d) d.
Proof. unfold GetProjectionCursor. wp_step. apply wp_statement; [|done]. cbv [id]. do 4 wp_step. by apply wp_ret. Qed.

Lemma apiCursor_quiet e t d : wp (advanceAPICursor sqlFails e t) (fun _ d' => quiet d d') d.
Proof.
  unfold advanceAPICursor. wp_step. eapply wp_mono; [apply getCursor_spec|]. intros [c|er] ? ->; [red|by apply quiet_refl].
  destruct (_ <=? _); [by apply wp_ret|]. wp_step. wp_step.
  eapply wp_mono; [apply setCursor_spec|]. intros r d1 Hd. assert (quiet d d1) as Hq.
  { destruct Hd as [->|[c' ->]]; [done|]. by eexists. }
  red. destruct r; [by apply wp_ret|]. wp_step. wp_step. eapply wp_mono; [apply getCursor_spec|]. intros [l|er] ? ->; red; [|by apply wp_fail].
  destruct (_ <=? _); [by apply wp_ret|by apply wp_fail].
Qed.

(** ** What an append does *)

(** What Core checked of the credential of an event's node at the instant
    [at_]: the authority is valid now; the certificate carries the enrolled
    key, names the node and the deployment, may authenticate a client, is
    signed by the authority, and was valid when the event was signed; and no
    instant of the event is more than five minutes ahead of [at_], nor are its
    two instants further apart. *)
Definition credentialHolds (e : EventEnvelope) (node : Node) (at_ : time) : Prop :=
  let signedAt := ES_SignedAt (Event_SourceSignature e) in
  Cert_NotBefore caCertificate <= at_ < Cert_NotAfter caCertificate /\
  (exists certificate, parseCertificate (Node_CertificatePEM node) = Some certificate /\
     Cert_PublicKey certificate = Some (Node_PublicKey node) /\ Cert_CommonName certificate = Node_ID node /\
     deploymentID ∈ Cert_Organization certificate /\ Cert_ClientAuth certificate = true /\
     checkSignatureFrom (Node_CertificatePEM node) caCertificate = true /\
     Cert_NotBefore certificate <= signedAt <= Cert_NotAfter certificate) /\
  signedAt <= at_ + 5 * Minute /\ Event_ObservedAt e <= at_ + 5 * Minute /\
  - (5 * Minute) <= Sub signedAt (Event_ObservedAt e) <= 5 * Minute.

(** What Core checked of the signature: it names the node, covers the digest
    of the content, and verifies under the enrolled key. *)
Definition signatureHolds (e : EventEnvelope) (publicKey : list Z) : Prop :=
  Validate e = Ok tt /\ ES_KeyID (Event_SourceSignature e) = Event_NodeID e /\
  signingDigest e = Ok (Integrity_Digest (ES_SignedContentDigest (Event_SourceSignature e))) /\
  exists signedBytes, eventSignatureInput (Event_SourceSignature e) = Ok signedBytes /\
    ed_verify publicKey signedBytes (ES_Value (Event_SourceSignature e)) = true.

Lemma credential_holds e node at_ : credential e node at_ = Ok tt -> credentialHolds e node at_.
Proof.
  unfold validateCredential. intros [Hca Hc]%reject_Ok. destruct (parseCertificate _) as [certificate|] eqn:Hp; [|done]. cbv zeta in Hc. validated Hc.
  unfold credentialHolds. cbv zeta. repeat match goal with Ho : _ || _ = false |- _ => apply orb_false in Ho as [? ?] end.
  rewrite ?negb_false_iff in *.
  split; [lia|]. split; [|split_and!; lia]. exists certificate.
  split_and!; try done; try lia; [by eapply bool_decide_eq_true_1|by apply eqs_true|by apply containsValue_elem].
Qed.

Lemma signature_holds e publicKey : VerifySource checkMessage validateOpaqueProtobuf e publicKey = Ok tt -> signatureHolds e publicKey.
Proof.
  unfold VerifySource. intros Hv. validated Hv. rewrite !negb_false_iff in *. split; [done|]. split; [by apply eqs_true|].
  split; [|by eexists]. match goal with Hb : bool_decide _ = true |- _ => apply bool_decide_eq_true in Hb as <- end. done.
Qed.

(** What Core checked of an event against the node [d] has for it. *)
Definition authentic (d : DB) (e : EventEnvelope) (at_ : time) : Prop :=
  exists node, db_nodes d !! Event_NodeID e = Some node /\ Node_Status node = NodeActive /\ Event_DeploymentID e = deploymentID /\
    credentialHolds e node at_ /\ signatureHolds e (Node_PublicKey node) /\ ValidateEvidenceAt e at_ = Ok tt.

(** The append changed nothing but the cursors, and nobody was told. *)
Definition unheard (r : result bool) (e : EventEnvelope) (s s' : Store) : Prop :=
  (exists d, s' = withDatabase d s /\ quiet (St_database s) d) /\ r <> Ok true /\
  (r = Ok false -> exists row existing received, rowById (Event_ID e) (St_database s) = Some row /\
     unmarshalEvent checkMessage validateOpaqueProtobuf wireSize (Row_envelope_proto row) = Ok existing /\
     Validate (setReceivedAt received e) = Ok tt /\ sameSource (setReceivedAt received e) existing).

(** The append stored the event, checked at [t] and received at [t]; when it
    also returned without an error, the event was published. *)
Definition storedBy (t : time) (r : result bool) (e : EventEnvelope) (s s' : Store) : Prop :=
  r <> Ok false /\ rowById (Event_ID e) (St_database s) = None /\ accepts (St_database s) e /\
  exists encoded d1 d2, authentic (St_database s) e t /\ admittedEvent (setReceivedAt t e) encoded /\
    accepted (St_database s) (setReceivedAt t e) encoded d1 /\ quiet d1 d2 /\
    ((r <> Ok true /\ s' = withDatabase d2 s) \/ (r = Ok true /\ exists stored, s' = publish stored (withDatabase d2 s))).

Lemma unheard_err er e s : unheard (Err er) e s s.
Proof. split; [|done]. exists (St_database s). by rewrite withDatabase_get. Qed.

(** After the append itself: read back, move the cursor, publish. *)
Lemma told_spec (inserted : bool) e t s Q :
  (forall er d', quiet (St_database s) d' -> Q (Err er) (withDatabase d' s)) ->
  (forall stored d', quiet (St_database s) d' -> (exists row, rowById (Event_ID e) (St_database s) = Some row) ->
     Q (Ok inserted) (if inserted then publish stored (withDatabase d' s) else withDatabase d' s)) ->
  wp (let! stored := attempt (zoom St_database withDatabase (Get (Event_ID e))) in
      match stored with
      | Err _ => failM ErrReadBack
      | Ok stored =>
          run! zoom St_database withDatabase (advanceAPICursor sqlFails stored t) in
          run! (if inserted then modS (publish stored) else retM tt) in
          retM inserted
      end) Q s.
Proof.
  intros He Hok. do 3 wp_step. eapply wp_mono; [apply getEvent_spec|]. intros r ? [-> Hr]. red.
  destruct r as [stored|er]; [|by apply wp_fail, He]. wp_step. wp_step. rewrite withDatabase_get.
  eapply wp_mono; [apply apiCursor_quiet|]. intros [[]|er] d' Hq; [|by apply He]. red. wp_step.
  pose proof (Hok stored d' Hq (Hr _ eq_refl)) as HQ. destruct inserted; do 2 wp_step; by apply wp_ret.
Qed.

(** A method that reads the clock first. *)
Lemma run_now {S A} (clk : clockT) (k : time -> M S A) (Q : result A -> S -> Prop) s n :
  wp (k (clk n)) Q s -> match bindM (now clk) k (n, s) with (r, (_, s')) => Q r s' end.
Proof. intros Hk. apply (Hk (Datatypes.S n)). Qed.

(** The one reading of the clock is the first thing an append does. *)
Lemma store_append_at e s n : bootsKnown (St_database s) ->
  match Ingest e (n, s) with (r, (_, s')) => unheard r e s s' \/ storedBy (clock n) r e s s' end.
Proof.
  intros Hk. unfold Store_Append. apply (run_now clock). set (t := clock n). cbv beta.
  assert (forall er, unheard (Err er) e s s \/ storedBy t (Err er) e s s) as He by (intros; left; apply unheard_err).
  wp_step. wp_step. destruct (Validate e) as [[]|]; [|by apply He]. red. wp_step. wp_step. destruct (EventToProto e) as [w|]; [|by apply He]. red.
  destruct (_ <? _); [by apply wp_fail, He|]. destruct (negb (eqs (Event_DeploymentID e) _)) eqn:Hd; [by apply wp_fail, He|].
  apply negb_false_iff, eqs_true in Hd. wp_step. wp_step. eapply wp_mono; [apply getNode_spec|]. intros r ? [-> Hn]. rewrite withDatabase_get.
  destruct r as [node|er]; [|by apply He]. pose proof (Hn _ eq_refl) as Hnode. red. destruct (negb (eqs (Node_Status node) _)) eqn:Hst; [by apply wp_fail, He|].
  apply negb_false_iff, eqs_true in Hst. wp_step. wp_step. destruct (credential e node _) as [[]|] eqn:Hc; [|by apply He]. red. wp_step. wp_step.
  destruct (VerifySource _ _ _ _) as [[]|] eqn:Hv; [|by apply He]. red. wp_step. wp_step. destruct (ValidateEvidenceAt e _) as [[]|] eqn:Hev; [|by apply He]. red.
  assert (authentic (St_database s) e t) as Hauth.
  { exists node. split_and!; [done..|by apply credential_holds|by apply signature_holds|done]. }
  do 3 wp_step. eapply wp_mono; [apply getEvent_spec|]. intros r ? [-> Hrow]. rewrite withDatabase_get. red. wp_step.
  apply (wp_mono _ (fun x s' => s' = s /\ forall received, x = Ok received -> rowById (Event_ID e) (St_database s) = None -> received = t)).
  { destruct r as [stored|er]; [|case_bool_decide; [|by apply wp_fail]]; apply wp_ret; (split; [done|]); intros received [= <-] Hnone; [|done].
    destruct (Hrow _ eq_refl) as [row Hr]. congruence. }
  intros [received|er] ? [-> Hrec]; [red|by apply He]. wp_step. wp_step. destruct (Validate (setReceivedAt received e)) as [[]|] eqn:Hvr; [|by apply He]. red.
  wp_step. wp_step. eapply wp_mono; [by apply append_spec|]. intros [[]|er] d1 Hs; red.
  - destruct Hs as (Hr & Ha & encoded & Hm & Hacc). specialize (Hrec received eq_refl Hr) as ->.
    apply (told_spec true (setReceivedAt t e) t (withDatabase d1 s)); cbn [St_database withDatabase].
    + intros er d2 Hq. right. do 3 (split; [done|]). exists encoded, d1, d2. split_and!; try done. by left.
    + intros stored d2 Hq _. right. do 3 (split; [done|]). exists encoded, d1, d2. split_and!; try done. right. split; [done|]. by exists stored.
  - destruct Hs as [-> (row & existing & Hrow' & Hu & Hsame)]. rewrite withDatabase_get. apply (told_spec false (setReceivedAt received e) t s).
    + intros er d2 Hq. left. split; [by exists d2|done].
    + intros stored d2 Hq _. left. split; [by exists d2|]. split; [done|]. intros _. by exists row, existing, received.
  - subst d1. rewrite withDatabase_get. apply He.
Qed.

Lemma store_append_spec e s : bootsKnown (St_database s) ->
  wp (Ingest e) (fun r s' => unheard r e s s' \/ exists t, storedBy t r e s s') s.
Proof.
  intros Hk n. pose proof (store_append_at e s n Hk) as Hn. destruct (Ingest e (n, s)) as [r [n' s']].
  destruct Hn as [Hu|Hs]; [by left|right; by exists (clock n)].
Qed.

Lemma accepted_known d e encoded d' : bootsKnown d -> accepted d e encoded d' -> bootsKnown d'.
Proof.
  intros Hk Hacc node st Hs. destruct (acc_boots _ _ _ _ Hacc) as (b & Hb & Hboots). rewrite (acc_state _ _ _ _ Hacc) in Hs. rewrite Hboots.
  apply lookup_insert_Some in Hs as [[<- <-]|[Hne Hs]]; simpl.
  - exists b. by rewrite lookup_insert_eq.
  - rewrite lookup_insert_ne by congruence. by apply Hk.
Qed.

(** C9. Core's log holds what enrolled nodes signed. An append reads Core's
    clock once, first. It either leaves the table of events and the subscribers
    alone, or, by that reading: the deployment authority is valid; the event is
    of this deployment and of an active node, whose certificate carries the
    enrolled key, names the node and the deployment, was issued by the
    authority and was valid when the event was signed; neither instant of the
    event is more than five minutes ahead of the reading, nor are the two
    further apart; the signature covers the content and verifies under the
    enrolled key; and verified evidence is fresh. Then one row is added, the
    event as received at that reading. *)
Theorem stored_is_authentic e n r n' s s' : bootsKnown (St_database s) -> Ingest e (n, s) = (r, (n', s')) ->
  (db_events (St_database s') = db_events (St_database s) /\ r <> Ok true /\ St_channels s' = St_channels s) \/
  (exists encoded, authentic (St_database s) e (clock n) /\ admittedEvent (setReceivedAt (clock n) e) encoded /\
     db_events (St_database s') =
       db_events (St_database s) ++ [rowOf (db_ordinal (St_database s) + 1) (setReceivedAt (clock n) e) encoded]).
Proof.
  intros Hk Hrun. pose proof (store_append_at e s n Hk) as Hn. rewrite Hrun in Hn. destruct Hn as [((d & -> & c & ->) & ? & _)|Hst]; [by left|right].
  destruct Hst as (_ & _ & _ & encoded & d1 & d2 & Ha & Hm & Hacc & (c & ->) & Hs). exists encoded. split; [done|]. split; [done|].
  rewrite <- (acc_events _ _ _ _ Hacc). by destruct Hs as [[_ ->]|(_ & stored & ->)]; [|rewrite (proj2 (publish_next _ _))].
Qed.

(** ** The batch handler *)

Definition keepsRows (d d' : DB) : Prop := forall id row, rowById id d = Some row -> rowById id d' = Some row.

Lemma find_app {A} (f : A -> bool) l k x : List.find f l = Some x -> List.find f (l ++ k) = Some x.
Proof. induction l as [|a l IH]; simpl; [done|]. by destruct (f a). Qed.

Lemma find_snoc (f : eventRow -> bool) l x : f x = true -> is_Some (List.find f (l ++ [x])).
Proof. intros Hx. induction l as [|a l IH]; simpl; [by rewrite Hx|]. by destruct (f a). Qed.

(** What every append leaves behind. *)
Definition grown (r : result bool) (e : EventEnvelope) (d d' : DB) : Prop :=
  bootsKnown d' /\ keepsRows d d' /\ (is_ok r = true -> is_Some (rowById (Event_ID e) d')).

Lemma append_grows e s : bootsKnown (St_database s) -> wp (Ingest e) (fun r s' => grown r e (St_database s) (St_database s')) s.
Proof.
  intros Hk. eapply wp_mono; [by apply store_append_spec|]. intros r s' [((d & -> & c & ->) & Hn & Hf)|Hst].
  - split_and!; [done|by intros ? ?|]. intros Hr. cbn. destruct r as [[]|]; try done. destruct (Hf eq_refl) as (row & _ & _ & Hrow & _). by exists row.
  - destruct Hst as (t & _ & _ & _ & encoded & d1 & d2 & _ & _ & Hacc & (c & ->) & Hs).
    assert (St_database s' = mkDB (db_events d1) (db_ordinal d1) (db_state d1) (db_boots d1) (db_nodes d1) c) as ->.
    { by destruct Hs as [[_ ->]|(_ & stored & ->)]; [|rewrite (proj2 (publish_next _ _))]. }
    split_and!; [by apply (accepted_known _ _ _ _ Hk Hacc)| |].
    + intros i row Hrow. unfold rowById in *. cbn. rewrite (acc_events _ _ _ _ Hacc). by apply find_app.
    + intros _. unfold rowById. cbn. rewrite (acc_events _ _ _ _ Hacc). apply find_snoc. apply eqs_refl.
Qed.

Lemma fromProto_fields w e : EventFromProto wireSize (Some w) = Ok e ->
  Event_ID e = Wire_Id w /\ Event_NodeID e = Wire_NodeId w /\ Event_BootID e = Wire_BootId w /\ Event_Sequence e = Wire_Sequence w.
Proof. unfold EventFromProto. intros Hp. validated Hp. destruct (Wire_Payload w); [|done]. validated Hp. by injection Hp as <-. Qed.

Context (equalFold : string -> string -> bool) (toLower : string -> string).
Context (parseManifest : string -> option (list (option (string * list string)))) (simulation : bool).

Abbreviation One := (ingestOne checkMessage validateOpaqueProtobuf wireSize sqlFails parseCertificate checkSignatureFrom clock
  deploymentID caCertificate equalFold toLower parseManifest simulation).
Abbreviation All := (ingestAll checkMessage validateOpaqueProtobuf wireSize sqlFails parseCertificate checkSignatureFrom clock
  deploymentID caCertificate equalFold toLower parseManifest simulation).
Abbreviation Handle := (handleEventBatch checkMessage validateOpaqueProtobuf wireSize sqlFails parseCertificate checkSignatureFrom clock
  deploymentID caCertificate equalFold toLower parseManifest simulation).

(** A turn of the loop either refuses the event and leaves the store, or is
    an append. *)
Lemma ingestOne_cases node nodeID boot o s (Q : result (string * option (string * string)) -> Store -> Prop) :
  (forall boot' reason, Q (Ok (boot', Some reason)) s) ->
  (forall w e, o = Some w -> EventFromProto wireSize (Some w) = Ok e ->
     wp (Ingest e) (fun r s' => match r with
       | Ok _ => forall boot', Q (Ok (boot', None)) s'
       | Err _ => forall boot' reason, Q (Ok (boot', Some reason)) s' end) s) ->
  wp (One node nodeID boot o) Q s.
Proof.
  intros Hr Ha. unfold ingestOne. destruct o as [w|]; [|by apply wp_ret]. destruct (_ || _); [by apply wp_ret|]. destruct (_ && _); [by apply wp_ret|].
  destruct (EventFromProto _ _) as [e|] eqn:He; [|by apply wp_ret]. destruct (_ || _); [by apply wp_ret|]. destruct (_ && _); [by apply wp_ret|].
  wp_step. wp_step. eapply wp_mono; [by apply (Ha w e)|]. intros [b|er] s' HQ; red; by apply wp_ret.
Qed.

(** Core has a row for the event. *)
Definition onRecord (d : DB) (o : option wireEvent) : Prop := exists w, o = Some w /\ is_Some (rowById (Wire_Id w) d).

Lemma onRecord_keeps d d' o : keepsRows d d' -> onRecord d o -> onRecord d' o.
Proof. intros Hk (w & -> & row & Hrow). exists w. split; [done|]. exists row. by apply Hk. Qed.

Lemma keepsRows_trans d1 d2 d3 : keepsRows d1 d2 -> keepsRows d2 d3 -> keepsRows d1 d3.
Proof. intros H1 H2 i row Hr. by apply H2, H1. Qed.

Lemma ingestOne_grows node nodeID boot o s : bootsKnown (St_database s) ->
  wp (One node nodeID boot o) (fun r s' => bootsKnown (St_database s') /\ keepsRows (St_database s) (St_database s') /\
    forall boot', r = Ok (boot', None) -> onRecord (St_database s') o) s.
Proof.
  intros Hk. apply ingestOne_cases; [intros; split_and!; [done|by intros ? ?|done]|].
  intros w e -> He. destruct (fromProto_fields w e He) as (Hid & _). eapply wp_mono; [by apply append_grows|].
  intros [b|er] s' (Hk' & Hkeep & Hrow); intros; split_and!; try done. intros _ _. exists w. split; [done|]. rewrite <- Hid. by apply Hrow.
Qed.

(** Core holds every event of a batch it rejects nothing of. *)
Lemma ingestAll_grows node nodeID events boot rejected s : bootsKnown (St_database s) ->
  wp (All node nodeID boot events rejected) (fun r s' => bootsKnown (St_database s') /\ keepsRows (St_database s) (St_database s') /\
    forall boot' rejected', r = Ok (boot', rejected') -> exists more, rejected' = rejected ++ more /\
      (more = [] -> Forall (onRecord (St_database s')) events)) s.
Proof.
  revert boot rejected s. induction events as [|o events IH]; intros boot rejected s Hk; cbn [ingestAll].
  { apply wp_ret. split_and!; [done|by intros ? ?|]. intros boot' rejected' [= <- <-]. exists []. by rewrite app_nil_r. }
  wp_step. eapply wp_mono; [by apply ingestOne_grows|]. intros [[boot1 refused]|er] s1 (Hk1 & Hr1 & Ho); [|by split_and!]. red.
  eapply wp_mono; [by apply IH|]. intros r s2 (Hk2 & Hr2 & Hmore). split_and!; [done|by eapply keepsRows_trans|].
  intros boot' rejected' Hr. destruct (Hmore _ _ Hr) as (more & -> & Hall). destruct refused as [x|].
  - exists (x :: more). by rewrite <- app_assoc.
  - exists more. split; [done|]. intros Hm. constructor; [|by apply Hall]. eapply onRecord_keeps; [done|]. by eapply Ho.
Qed.

Lemma getNodeState_spec name d : wp (GetNodeEventState sqlFails name) (fun _ d' => d' = d) d.
Proof. unfold GetNodeEventState. wp_step. apply wp_statement; [|done]. cbv [id]. do 4 wp_step. by apply wp_ret. Qed.

(** How an answer that rejects nothing comes about. *)
Lemma handle_cases callerNode b s (Q : result batchResponse -> Store -> Prop) :
  (forall status code, Q (Ok (Refused status code)) s) ->
  (len (Batch_Events b) <> 0 -> forall node, wp (All node (Batch_NodeId b) EmptyString (Batch_Events b) []) (fun r s' => match r with
     | Err er => Q (Err er) s'
     | Ok (_, rejected) => Q (Ok (Refused 500 "INTERNAL")) s' /\
         forall highest, Q (Ok (Acknowledged (mkAck (Batch_BatchId b) highest rejected))) s'
     end) s) ->
  wp (Handle callerNode (Some b)) Q s.
Proof.
  intros Hr Ha. unfold handleEventBatch. wp_if Hb; [by apply wp_ret|]. wp_if Hc; [by apply wp_ret|].
  do 3 wp_step. eapply wp_mono; [apply getNode_spec|]. intros r ? [-> _]. rewrite withDatabase_get. red. destruct r as [node|]; [|by apply wp_ret].
  wp_step. eapply wp_mono; [apply Ha|]. { rewrite !orb_false in Hb. lia. }
  intros [[boot rejected]|er] s' HQ; red; [|done]. do 3 wp_step. eapply wp_mono; [apply getNodeState_spec|]. intros r ? ->. rewrite withDatabase_get. red.
  destruct r; apply wp_ret; [|apply HQ]. by apply HQ.
Qed.

(** When Core answers a batch without a rejection, each of its events is in
    the log; an answer of any kind removes nothing from it. *)
Lemma handle_grows callerNode b s : bootsKnown (St_database s) ->
  wp (Handle callerNode (Some b)) (fun r s' => bootsKnown (St_database s') /\ keepsRows (St_database s) (St_database s') /\
    forall ack, r = Ok (Acknowledged ack) -> Ack_Rejected ack = [] -> Forall (onRecord (St_database s')) (Batch_Events b)) s.
Proof.
  intros Hk. apply handle_cases; [intros; split_and!; [done|by intros ? ?|done]|]. intros _ node.
  eapply wp_mono; [by apply ingestAll_grows|]. intros [[boot rejected]|er] s' (Hk' & Hrows & Hmore); [|by split_and!].
  split; [by split_and!|]. intros highest. split_and!; try done. intros ack [= <-]. cbn. intros ->.
  by destruct (Hmore _ _ eq_refl) as ([|x more] & Hm & Hall); [apply Hall|].
Qed.

(** ** Events Core does not take *)

(** Neither the next event of their node nor one Core already has. *)
Definition unacceptable (d : DB) (w : wireEvent) : Prop :=
  forall e, Event_ID e = Wire_Id w -> Event_NodeID e = Wire_NodeId w -> Event_BootID e = Wire_BootId w -> Event_Sequence e = Wire_Sequence w ->
    ~ accepts d e /\
    forall row existing, rowById (Event_ID e) d = Some row -> Validate e = Ok tt ->
      unmarshalEvent checkMessage validateOpaqueProtobuf wireSize (Row_envelope_proto row) = Ok existing -> ~ sameSource e existing.

(** Nothing but the cursors changed, and no subscriber was told. *)
Definition untouched (s s' : Store) : Prop := exists d, s' = withDatabase d s /\ quiet (St_database s) d.

Lemma untouched_refl s : untouched s s.
Proof. exists (St_database s). by rewrite withDatabase_get. Qed.

Lemma untouched_trans s1 s2 s3 : untouched s1 s2 -> untouched s2 s3 -> untouched s1 s3.
Proof. intros (d1 & -> & Hq1) (d2 & -> & Hq2). exists d2. split; [done|]. by eapply quiet_trans. Qed.

Lemma unacceptable_untouched s s' w : untouched s s' -> unacceptable (St_database s) w -> unacceptable (St_database s') w.
Proof. by intros (d & -> & c & ->). Qed.

Lemma known_untouched s s' : untouched s s' -> bootsKnown (St_database s) -> bootsKnown (St_database s').
Proof. by intros (d & -> & c & ->). Qed.

Lemma ingestOne_refuses node nodeID boot w s : bootsKnown (St_database s) -> unacceptable (St_database s) w ->
  wp (One node nodeID boot (Some w)) (fun r s' => untouched s s' /\ exists boot' reason, r = Ok (boot', Some reason)) s.
Proof.
  intros Hk Hno. apply ingestOne_cases; [intros; split; [apply untouched_refl|by eauto]|]. intros w' e [= <-] He.
  destruct (fromProto_fields w e He) as (Hid & Hn & Hb & Hq). eapply wp_mono; [by apply store_append_spec|]. intros r s' [(Hs & Ht & Hf)|Hst].
  - destruct r as [[]|er]; [done| |]; [|intros; split; [done|by eauto]]. exfalso.
    destruct (Hf eq_refl) as (row & existing & received & Hr & Hu & Hv & Hsame).
    by destruct (Hno (setReceivedAt received e) Hid Hn Hb Hq) as [_ Hs']; apply (Hs' row existing Hr Hv Hu).
  - destruct Hst as (t & _ & _ & Ha & _). by destruct (Hno e Hid Hn Hb Hq) as [Hna _].
Qed.

Lemma ingestAll_refuses node nodeID events boot rejected s : bootsKnown (St_database s) -> Forall (unacceptable (St_database s)) events ->
  wp (All node nodeID boot (Some <$> events) rejected) (fun r s' => untouched s s' /\ exists boot' more,
    r = Ok (boot', rejected ++ more) /\ length more = length events) s.
Proof.
  revert boot rejected s. induction events as [|w events IH]; intros boot rejected s Hk Hu; cbn [fmap list_fmap ingestAll].
  { apply wp_ret. split; [apply untouched_refl|]. exists boot, []. by rewrite app_nil_r. }
  apply Forall_cons in Hu as [Hw Hu]. wp_step. eapply wp_mono; [by apply ingestOne_refuses|]. intros r s1 (Hs & boot1 & reason & ->). red.
  eapply wp_mono; [apply IH; [by eapply known_untouched|]|].
  { eapply Forall_impl; [exact Hu|]. intros x. by apply unacceptable_untouched. }
  intros r s2 (Hs2 & boot2 & more & -> & Hl). split; [by eapply untouched_trans|]. exists boot2, (reason :: more). rewrite <- app_assoc. simpl. by rewrite Hl.
Qed.

(** A batch of such events is never accepted. *)
Lemma handle_refuses callerNode b events s : bootsKnown (St_database s) -> Batch_Events b = Some <$> events ->
  Forall (unacceptable (St_database s)) events ->
  wp (Handle callerNode (Some b)) (fun r s' => untouched s s' /\ forall ack, r = Ok (Acknowledged ack) -> Ack_Rejected ack <> []) s.
Proof.
  intros Hk Hb Hu. apply handle_cases; [intros; split; [apply untouched_refl|done]|]. intros Hn node. rewrite Hb in Hn |- *.
  eapply wp_mono; [by apply ingestAll_refuses|]. intros r s' (Hs & boot & more & -> & Hl). simpl. split; [by split|]. intros highest. split; [done|].
  intros ack [= <-]. cbn. intros ->. unfold len in Hn. rewrite length_fmap, <- Hl in Hn. done.
Qed.

End Ingest.
