(* ===== verification/EventQueueFacts.v ===== *)
(** * The durable event queue: theorems

    A sequence number is handed out once, across failed saves, power losses
    and restarts; a batch is a sorted prefix of one boot; an acknowledgement
    removes exactly what it names; and what was enqueued stays, in memory and
    on the disk, until it is acknowledged. *)

From S2P Require Import Prelude Directory DirectoryFacts Sha256 Digest Library Contract JournalFile Plan Events EventFacts EventQueue.
From stdpp Require Import base gmap list strings sorting relations.
From Stdlib Require Import ZArith Lia Sorted.

Open Scope Z_scope.

(** ** The file *)

Section Queue.
Context {EC : EventCodec} {QC : QueueCodec}.

Definition queueNode (s : queueState) : node := installedNode (queueMarshal s).

(** A state the code writes for the node, of values JSON can carry. *)
Definition wfQueue (nodeID : string) (s : queueState) : Prop :=
  plainQueue s /\ QS_SchemaVersion s = queueSchema /\ QS_NodeID s = nodeID /\ len (QS_Events s) <= maximumQueueEvents.

(** What a load of the file finds. *)
Definition loadsQueue (nodeID : string) (i : option node) : result queueState :=
  match i with
  | None => Ok (emptyQueue nodeID)
  | Some f =>
      if negb (bool_decide (node_kind f = Regular)) || negb (node_mode f =? perm_0600) || (maximumQueueBytes <? len (node_content f))
      then Err ErrQueueFile else decodeQueue nodeID (emptyQueue nodeID) (node_content f)
  end.

Lemma loads_queueNode nodeID s : wfQueue nodeID s -> len (queueMarshal s) <= maximumQueueBytes -> loadsQueue nodeID (Some (queueNode s)) = Ok s.
Proof.
  intros (Hp & Hs & Hn & Hl) Hlen. unfold loadsQueue. simpl. replace (_ <? _) with false by lia.
  unfold decodeQueue. rewrite queue_roundtrip by done. simpl. rewrite Hs, Hn, !eqs_refl. simpl. by replace (_ <? _) with false by lia.
Qed.

Lemma queue_load_spec sysFails nodeID d :
  wp (queue_load sysFails nodeID) (fun r d' => calm d d' /\ forall s, r = Ok s -> loadsQueue nodeID (dir_journal d) = Ok s) d.
Proof.
  intros n. unfold queue_load. cbn [fst snd]. destruct (sysFails n); [split; [apply calm_refl|done]|].
  destruct (dir_journal d) as [f|] eqn:Hj; [|split; [apply calm_refl|done]]. unfold loadsQueue.
  destruct (negb _ || _ || _); [split; [apply calm_refl|done]|].
  unfold bindM, syscall, liftR. cbn [fst snd]. destruct (sysFails (S n)); [split; [apply calm_refl|done]|].
  split; [by apply (calm_observe id)|done].
Qed.

(** What a save leaves. *)
Definition saves (s : queueState) (d : directory) (installed : bool) (r : result unit) (d' : directory) : Prop :=
  images_grow (fun i => bound d i \/ (i = Some (queueNode s) /\ len (queueMarshal s) <= maximumQueueBytes)) d d' /\
  if installed
  then dir_journal d' = Some (queueNode s) /\ len (queueMarshal s) <= maximumQueueBytes /\
       match r with Ok _ => dir_durable d' = dir_journal d' | Err _ => dir_durable d' = dir_durable d end
  else is_ok r = false /\ dir_journal d' = dir_journal d /\ dir_durable d' = dir_durable d.

Lemma calm_saves s d d' e : calm d d' -> saves s d false (Err e) d'.
Proof. intros (Hj & Hd & Hi). split; [|done]. intros i Hin. destruct (Hi i Hin); auto. Qed.

Lemma sync_saves sysFails s d d' : len (queueMarshal s) <= maximumQueueBytes ->
  images_grow (fun i => bound d i \/ (i = Some (queueNode s) /\ len (queueMarshal s) <= maximumQueueBytes)) d d' ->
  dir_journal d' = Some (queueNode s) -> dir_durable d' = dir_durable d ->
  wp (syncQueueDirectory sysFails) (fun r d2 => saves s d true r d2) d'.
Proof.
  intros Hl Hi Hj Hd. assert (forall e, saves s d true (Err e) d') as He by (intros e; split; auto).
  unfold syncQueueDirectory. repeat wp_step. destruct (negb _); [by apply wp_fail|]. wp_step.
  apply wp_syscall; [|by apply He]. wp_step. apply wp_syscall.
  - split; [|by rewrite <- Hj]. intros i. unfold observe, syncDirectory; simpl.
    rewrite !elem_of_cons, Hj, Hd. intros [->|[->|[->|[->|Hin]]]]; unfold bound; [auto..|by apply Hi].
  - split; [|by auto]. intros i. unfold observe; simpl.
    rewrite !elem_of_cons, Hj, Hd. intros [->|[->|Hin]]; unfold bound; [auto..|by apply Hi].
Qed.

Lemma save_effect sysFails s d :
  wp (queue_save sysFails s) (fun res d' => exists installed r, res = Ok (installed, r) /\ saves s d installed r d') d.
Proof.
  unfold queue_save. destruct (_ <? _) eqn:Hl; [apply wp_ret; exists false; eexists; split; [done|]; apply calm_saves, calm_refl|].
  wp_step. wp_step. apply wp_syscall; [|red; apply wp_ret; exists false; eexists; split; [done|]; apply calm_saves, calm_refl].
  red. apply wp_defer. set (d1 := observe _). assert (calm d d1) as Hc by (by apply (calm_observe (set_stage _))).
  assert (dir_stage d1 = Some (mkNode Regular perm_0600 [] false)) as Hst by done. clearbody d1.
  assert (forall d' e, calm d d' -> exists installed r, (Ok (false, Err e) : result (bool * result unit)) = Ok (installed, r) /\
    saves s d installed r (set_stage None d')) as He.
  { intros d' e Hd'. exists false, (Err e). split; [done|]. by apply calm_saves. }
  wp_step. wp_step.
  do 4 (apply (wp_calm_syscall _ _ _ _ _ _ d); [done..|clear Hc; intros ? Hc Hst'; simpl in Hst'; rewrite Hst in Hst';
    clear Hst; rename Hst' into Hst|red; apply wp_ret; by apply He]).
  apply wp_syscall; [|red; apply wp_ret; by apply He]. red. wp_step. wp_step.
  eapply wp_mono; [apply (sync_saves sysFails s d)|].
  - lia.
  - intros i. unfold observe, install. simpl. rewrite !elem_of_cons, Hst.
    destruct Hc as (Hj & Hd & Hi). rewrite Hd. intros [->|[->|Hin]]; unfold bound; auto.
    + right. right. split; [done|lia].
    + destruct (Hi i Hin); auto.
  - exact Hst.
  - apply Hc.
  - intros r d2 Hs. red. apply wp_ret. by exists true, r.
Qed.

(** ** What the operations do *)

Lemma wp_save sysFails q (Q : result (bool * result unit) -> Queue -> Prop) :
  (forall installed r d', saves (Queue_state q) (Queue_directory q) installed r d' ->
     Q (Ok (installed, r)) (mkQueue (Queue_nodeID q) (Queue_state q) d')) -> wp (saveQueue sysFails) Q q.
Proof.
  intros HQ. unfold saveQueue. wp_step. wp_step. wp_step. wp_step. eapply wp_mono; [apply save_effect|].
  intros res d' (installed & r & -> & Hs). by apply HQ.
Qed.

Lemma NextSequence_effect sysFails ctx q :
  let s := withSequence (QS_LastSequence (Queue_state q) + 1) (Queue_state q) in
  wp (NextSequence sysFails ctx) (fun r q' =>
    (is_ok r = false /\ q' = q) \/
    (QS_LastSequence (Queue_state q) <> 2 ^ 64 - 1 /\ exists installed r' d',
       saves s (Queue_directory q) installed r' d' /\ q' = mkQueue (Queue_nodeID q) s d' /\
       r = match r' with Ok _ => Ok (QS_LastSequence (Queue_state q) + 1) | Err e => Err e end)) q.
Proof.
  intros s. unfold NextSequence. wp_step. wp_step; [|by left]. do 4 wp_step. destruct (_ =? _) eqn:Hm; [apply wp_fail; by left|].
  wp_step. wp_step. wp_step. wp_step. apply wp_save. intros installed r d' Hs. wp_step.
  destruct r as [[]|e]; [apply wp_ret|apply wp_fail]; (right; split; [lia|]); by eexists installed, _, d'.
Qed.

Lemma replaceEvents_effect sysFails events q :
  let s := withEvents events (Queue_state q) in
  wp (replaceEvents sysFails (QS_Events (Queue_state q)) events) (fun r q' => exists installed d', saves s (Queue_directory q) installed r d' /\
    q' = mkQueue (Queue_nodeID q) (if installed then s else Queue_state q) d') q.
Proof.
  intros s. unfold replaceEvents. wp_step. wp_step. wp_step. wp_step. apply wp_save. intros installed r d' Hs. wp_step.
  destruct r as [[]|e].
  - apply wp_ret. exists installed, d'. split; [done|]. destruct installed; [done|]. by destruct Hs as [_ [? _]].
  - destruct installed; simpl; repeat wp_step; eexists _, d'; (split; [exact Hs|]); [done|].
    unfold setQueueState, withEvents. simpl. by destruct q as [node [? ? ? ?] d].
Qed.

Lemma EnqueueBatch_effect sysFails ctx entries q :
  wp (EnqueueBatch sysFails ctx entries) (fun r q' =>
    (is_ok r = false /\ q' = q) \/
    exists encoded, mapR (encodeEntry (Queue_nodeID q)) entries = Ok encoded /\
      len (QS_Events (Queue_state q)) + len entries <= maximumQueueEvents /\
      let s := withEvents (QS_Events (Queue_state q) ++ encoded) (Queue_state q) in
      exists installed d', saves s (Queue_directory q) installed r d' /\ q' = mkQueue (Queue_nodeID q) (if installed then s else Queue_state q) d') q.
Proof.
  unfold EnqueueBatch. destruct (_ =? 0); [apply wp_fail; by left|]. wp_step. wp_step; [|by left]. do 4 wp_step. wp_step. wp_step.
  destruct (mapR _ entries) as [encoded|e] eqn:Hm; [|by left]. red. destruct (_ <? _) eqn:Hl; [apply wp_fail; by left|].
  eapply wp_mono; [apply replaceEvents_effect|]. intros r q' He. right. exists encoded. split; [done|]. split; [lia|exact He].
Qed.

Lemma Acknowledge_effect sysFails ctx events q :
  wp (Acknowledge sysFails ctx events) (fun r q' =>
    (is_ok r = false /\ q' = q) \/
    exists ids kept, mapR ackID events = Ok ids /\ keepUnsent ids (QS_Events (Queue_state q)) = Ok kept /\
      len kept <> len (QS_Events (Queue_state q)) /\
      let s := withEvents kept (Queue_state q) in
      exists installed d', saves s (Queue_directory q) installed r d' /\ q' = mkQueue (Queue_nodeID q) (if installed then s else Queue_state q) d') q.
Proof.
  unfold Acknowledge. destruct (_ =? 0); [apply wp_fail; by left|]. wp_step. wp_step; [|by left]. wp_step. wp_step. wp_step.
  destruct (mapR ackID events) as [ids|e] eqn:Hi; [|by left]. red. do 4 wp_step. wp_step.
  destruct (keepUnsent ids _) as [kept|e] eqn:Hk; [|by left]. red. destruct (_ =? _) eqn:Hl; [apply wp_fail; by left|].
  eapply wp_mono; [apply replaceEvents_effect|]. intros r q' He. right. exists ids, kept. do 2 (split; [done|]). split; [lia|exact He].
Qed.

(** ** What is kept *)

(** The memory and every file of the queue satisfy [P]. *)
Definition keepsQueue (P : queueState -> Prop) (q : Queue) : Prop :=
  wfQueue (Queue_nodeID q) (Queue_state q) /\ P (Queue_state q) /\
  kept_keeps (loadsQueue (Queue_nodeID q)) (wfQueue (Queue_nodeID q)) P (Queue_directory q).

Definition survivesQueue (P : queueState -> Prop) (q q' : Queue) : Prop :=
  Queue_nodeID q' = Queue_nodeID q /\ keepsQueue P q' /\
  images_grow (kept_holds (loadsQueue (Queue_nodeID q)) (wfQueue (Queue_nodeID q)) P) (Queue_directory q) (Queue_directory q').

Lemma holds_queueNode (P : queueState -> Prop) nodeID s : wfQueue nodeID s -> len (queueMarshal s) <= maximumQueueBytes -> P s ->
  kept_holds (loadsQueue nodeID) (wfQueue nodeID) P (Some (queueNode s)).
Proof. intros Hwf Hl HP. pose proof (loads_queueNode nodeID s Hwf Hl). by exists s. Qed.

(** A save of a state that satisfies [P], whatever becomes of it. *)
Lemma saves_survives (P : queueState -> Prop) q s installed r d' s' : keepsQueue P q -> wfQueue (Queue_nodeID q) s -> P s ->
  saves s (Queue_directory q) installed r d' -> s' = s \/ s' = Queue_state q -> survivesQueue P q (mkQueue (Queue_nodeID q) s' d').
Proof.
  intros (Hwfm & HPm & Hk) Hwf HP [Hi Hs] Hs'. split; [done|]. split.
  - split; [by destruct Hs' as [->| ->]|]. split; [by destruct Hs' as [->| ->]|]. simpl.
    unfold kept_keeps. destruct installed.
    + destruct Hs as (-> & Hl & Hd). pose proof (holds_queueNode P _ s Hwf Hl HP) as Hh. split; [done|].
      destruct r as [[]|]; rewrite Hd; [done|apply Hk].
    + destruct Hs as (_ & -> & ->). exact Hk.
  - intros i Hin. destruct (Hi i Hin) as [?|[Hb|[-> Hl]]]; [by left|right..]; [by eapply keeps_bound|by apply holds_queueNode].
Qed.

Lemma survivesQueue_refl P q : keepsQueue P q -> survivesQueue P q q.
Proof. intros Hk. split; [done|]. split; [done|]. intros i Hin. by left. Qed.

Lemma wf_sequence nodeID s : wfQueue nodeID s -> QS_LastSequence s <> 2 ^ 64 - 1 -> wfQueue nodeID (withSequence (QS_LastSequence s + 1) s).
Proof. intros ((? & ? & Hu & ?) & ? & ? & ?) Hn. split; [|done]. split_and!; try done. simpl. unfold u64 in *. lia. Qed.

Lemma encoded_plain nodeID entries encoded : Forall (fun e => 0 <= Entry_Priority e < 256) entries ->
  mapR (encodeEntry nodeID) entries = Ok encoded ->
  Forall (fun q => 0 <= Queued_Priority q < 256 /\ ascii (Queued_Wire q)) encoded /\ length encoded = length entries.
Proof.
  intros Hp. revert encoded. induction Hp as [|e entries He Hp IH]; intros encoded Hm; cbn [mapR] in Hm; [by injection Hm as <-|].
  validated Hm. injection Hm as <-. destruct (IH _ Hv0) as [Hf Hl]. split; [|simpl; by rewrite Hl]. constructor; [|done].
  unfold encodeEntry in Hv. destruct (Entry_Event e) as [w|]; [|done]. validated Hv. injection Hv as <-. simpl. split; [done|].
  unfold marshalWire in Hv2. destruct (eventMarshal w) eqn:Hw; [|done]. injection Hv2 as <-. by eapply base64_ascii, event_codec_bytes.
Qed.

Lemma wf_events nodeID s events : wfQueue nodeID s -> Forall (fun q => 0 <= Queued_Priority q < 256 /\ ascii (Queued_Wire q)) events ->
  len events <= maximumQueueEvents -> wfQueue nodeID (withEvents events s).
Proof. intros ((? & ? & ? & ?) & ? & ? & ?) Hf Hl. by split_and!. Qed.

Lemma keepUnsent_sublist ids stored kept : keepUnsent ids stored = Ok kept -> sublist kept stored.
Proof.
  revert kept. induction stored as [|s rest IH]; intros kept Hk; cbn [keepUnsent] in Hk; [by injection Hk as <-|].
  validated Hk. injection Hk as <-. destruct (containsValue _ _); [apply sublist_cons|apply sublist_skip]; by apply IH.
Qed.

Lemma NextSequence_survives P sysFails ctx q : (forall s, P s -> P (withSequence (QS_LastSequence s + 1) s)) -> keepsQueue P q ->
  wp (NextSequence sysFails ctx) (fun _ q' => survivesQueue P q q') q.
Proof.
  intros Hst Hk. eapply wp_mono; [apply NextSequence_effect|]. intros r q' [[_ ->]|(Hn & installed & r' & d' & Hs & -> & _)].
  - by apply survivesQueue_refl.
  - eapply saves_survives; [done|apply wf_sequence; [apply Hk|done]|apply Hst, Hk|done|by left].
Qed.

Lemma EnqueueBatch_survives P sysFails ctx entries q : (forall s encoded, P s -> P (withEvents (QS_Events s ++ encoded) s)) ->
  Forall (fun e => 0 <= Entry_Priority e < 256) entries -> keepsQueue P q ->
  wp (EnqueueBatch sysFails ctx entries) (fun _ q' => survivesQueue P q q') q.
Proof.
  intros Hst Hp Hk. eapply wp_mono; [apply EnqueueBatch_effect|]. intros r q' [[_ ->]|(encoded & Hm & Hl & installed & d' & Hs & ->)].
  - by apply survivesQueue_refl.
  - destruct (encoded_plain _ _ _ Hp Hm) as [Hf He]. pose proof Hk as (Hwf & HP & _). pose proof Hwf as ((_ & _ & _ & Hev) & _).
    eapply (saves_survives P q (withEvents (QS_Events (Queue_state q) ++ encoded) (Queue_state q)));
      [done|apply wf_events; [done|by apply Forall_app|]|by apply Hst|exact Hs|destruct installed; auto].
    unfold len in *. rewrite length_app. lia.
Qed.

Lemma Acknowledge_survives P sysFails ctx events q :
  (forall ids kept, mapR ackID events = Ok ids -> keepUnsent ids (QS_Events (Queue_state q)) = Ok kept ->
     P (withEvents kept (Queue_state q))) -> keepsQueue P q ->
  wp (Acknowledge sysFails ctx events) (fun _ q' => survivesQueue P q q') q.
Proof.
  intros Hst Hk. eapply wp_mono; [apply Acknowledge_effect|]. intros r q' [[_ ->]|(ids & kept & Hi & Hu & _ & installed & d' & Hs & ->)].
  - by apply survivesQueue_refl.
  - pose proof Hk as (Hwf & HP & _). pose proof Hwf as ((_ & _ & _ & Hev) & _ & _ & Hl). pose proof (keepUnsent_sublist _ _ _ Hu) as Hsub.
    eapply (saves_survives P q (withEvents kept (Queue_state q)));
      [done|apply wf_events; [done| |]|by eapply Hst|exact Hs|destruct installed; auto].
    + rewrite Forall_forall in Hev |- *. intros x Hx. eapply Hev, elem_of_sublist; done.
    + apply sublist_length in Hsub. unfold len in *. lia.
Qed.

(** ** Opening *)

Lemma wp_calm_bind {A B} (m : M directory A) (k : A -> M directory B) Q d : calmly m ->
  (forall a d1, calm d d1 -> wp (k a) Q d1) -> (forall e d1, calm d d1 -> Q (Err e) d1) -> wp (bindM m k) Q d.
Proof. intros Hm Hk He. wp_step. eapply wp_mono; [apply Hm|]. intros [a|e] d1 Hc; [by apply Hk|by apply He]. Qed.

Lemma queueLock_calmly sysFails contention : calmly (acquireQueueLock sysFails contention).
Proof.
  unfold acquireQueueLock. apply calmly_bind; [calmly_tac|]. intros d0. destruct (dir_held d0); [calmly_tac|].
  apply calmly_bind; [calmly_tac|]. intros _. destruct (match dir_lock d0 with Some _ => _ | None => _ end); [calmly_tac|].
  apply calmly_bind; [calmly_tac|]. intros _. apply calmly_bind; [calmly_tac|]. intros _. apply calmly_bind; [calmly_tac|]. intros c.
  destruct (_ && _); [|calmly_tac]. intros d. apply wp_mod. exact (calm_refl d).
Qed.

Lemma lockClose_calmly sysFails : calmly (queueLock_Close sysFails).
Proof.
  unfold queueLock_Close. apply calmly_bind; [calmly_tac|]. intros d0. destruct (negb _); [calmly_tac|].
  apply calmly_bind; [|intros r; apply calmly_bind; [intros d; apply wp_mod; exact (calm_refl d)|intros _; by destruct r; calmly_tac]].
  intros d. wp_step. apply calmly_syscall; by intros.
Qed.

Lemma OpenQueue_spec sysFails contention blank nodeID d :
  wp (OpenQueue sysFails contention blank nodeID) (fun r d' => calm d d' /\ forall s, r = Ok s -> loadsQueue nodeID (dir_journal d) = Ok s) d.
Proof.
  unfold OpenQueue. assert (forall e d', calm d d' -> calm d d' /\ (forall s, (Err e : result queueState) = Ok s -> loadsQueue nodeID (dir_journal d) = Ok s)) as He by done.
  destruct (_ || _); [apply wp_fail, He, calm_refl|]. do 3 wp_step. destruct (bool_decide _); [apply wp_fail, He, calm_refl|].
  apply wp_calm_bind; [apply calmly_syscall; intros d0; by destruct (bool_decide _)| |done]. intros _ d1 H1.
  apply wp_calm_bind; [calmly_tac| |intros; apply He; by eapply calm_trans]. intros _ d2 H2. pose proof (calm_trans _ _ _ H1 H2) as H12.
  apply wp_calm_bind; [calmly_tac| |intros; apply He; by eapply calm_trans]. intros _ d3 H3. pose proof (calm_trans _ _ _ H12 H3) as H13.
  do 3 wp_step. destruct (_ || _); [by apply wp_fail, He|].
  apply wp_calm_bind; [calmly_tac| |intros; apply He; by eapply calm_trans]. intros _ d4 H4. pose proof (calm_trans _ _ _ H13 H4) as H14.
  apply wp_calm_bind; [apply queueLock_calmly| |intros; apply He; by eapply calm_trans]. intros _ d5 H5. pose proof (calm_trans _ _ _ H14 H5) as H15.
  wp_step. wp_step. eapply wp_mono; [apply queue_load_spec|]. intros r d6 [H6 Hs]. pose proof (calm_trans _ _ _ H15 H6) as H16. red.
  destruct r as [s|e].
  - apply wp_ret. split; [done|]. intros s' [= <-]. rewrite <- (Hs s eq_refl). by destruct H15 as [-> _].
  - wp_step. wp_step. eapply wp_mono; [apply lockClose_calmly|]. intros r d7 H7. red. apply wp_fail, He. by eapply calm_trans.
Qed.

(** ** The life of a queue *)

(** A process that finds the directory [d] and opens the queue. *)
Definition opened (nodeID : string) (d : directory) (q : Queue) : Prop :=
  exists sysFails contention n s n' d', OpenQueue sysFails contention false nodeID (n, d) = (Ok s, (n', d')) /\ q = mkQueue nodeID s d'.

(** How a call ends: it returns, or power is lost at one of its system calls
    and another process opens the queue. *)
Definition endsIn (q' q'' : Queue) : Prop :=
  q'' = q' \/ exists i, i ∈ dir_images (Queue_directory q') /\ opened (Queue_nodeID q') (restarted i (Queue_directory q')) q''.

Definition freshQueue (q : Queue) : Queue := mkQueue (Queue_nodeID q) (Queue_state q) (unobserved (Queue_directory q)).

Inductive queue_step : Queue -> Queue -> Prop :=
| qstep_sequence sysFails ctx n r n' q q' q'' :
    NextSequence sysFails ctx (n, freshQueue q) = (r, (n', q')) -> endsIn q' q'' -> queue_step q q''
| qstep_enqueue sysFails ctx entries n r n' q q' q'' : Forall (fun e => 0 <= Entry_Priority e < 256) entries ->
    EnqueueBatch sysFails ctx entries (n, freshQueue q) = (r, (n', q')) -> endsIn q' q'' -> queue_step q q''
| qstep_acknowledge sysFails ctx events n r n' q q' q'' :
    Acknowledge sysFails ctx events (n, freshQueue q) = (r, (n', q')) -> endsIn q' q'' -> queue_step q q''
| qstep_powerloss i q q' : bound (Queue_directory q) i -> opened (Queue_nodeID q) (restarted i (Queue_directory q)) q' -> queue_step q q'
| qstep_restart q q' : opened (Queue_nodeID q) (set_held false (Queue_directory q)) q' -> queue_step q q'.

Lemma opened_keeps P nodeID d q : kept_keeps (loadsQueue nodeID) (wfQueue nodeID) P d -> opened nodeID d q -> keepsQueue P q /\ Queue_nodeID q = nodeID.
Proof.
  intros Hk (sysFails & contention & n & s & n' & d' & Ho & ->). split; [|done].
  pose proof (wp_run _ _ _ _ _ _ _ (OpenQueue_spec sysFails contention false nodeID d) Ho) as [(Hj & Hd & _) Hs].
  destruct Hk as [(s' & Hl & Hl' & Hwf & HP) Hdur]. pose proof (Hs s eq_refl) as Hs1. rewrite Hl in Hs1. injection Hs1 as <-.
  split; [done|]. split; [done|]. split; simpl; [rewrite Hj; by exists s'|by rewrite Hd].
Qed.

Lemma endsIn_keeps P q q' q'' : survivesQueue P (freshQueue q) q' -> endsIn q' q'' -> keepsQueue P q'' /\ Queue_nodeID q'' = Queue_nodeID q.
Proof.
  intros (Hid & Hk & Hi) [->|(i & Hin & Ho)]; [by split|]. simpl in Hid.
  eapply (opened_keeps P) in Ho as [? ?]; [split; [done|congruence]|]. rewrite Hid. apply restarted_keeps.
  destruct (Hi i Hin) as [Hnil|?]; [by apply not_elem_of_nil in Hnil|done].
Qed.

Lemma freshQueue_keeps P q : keepsQueue P q -> keepsQueue P (freshQueue q).
Proof. by intros (? & ? & ?). Qed.

Lemma powerloss_keeps P i q q' : keepsQueue P q -> bound (Queue_directory q) i ->
  opened (Queue_nodeID q) (restarted i (Queue_directory q)) q' -> keepsQueue P q' /\ Queue_nodeID q' = Queue_nodeID q.
Proof. intros (_ & _ & Hk) Hb Ho. eapply opened_keeps; [|done]. apply restarted_keeps. by eapply keeps_bound. Qed.

Lemma restart_keeps P q q' : keepsQueue P q -> opened (Queue_nodeID q) (set_held false (Queue_directory q)) q' ->
  keepsQueue P q' /\ Queue_nodeID q' = Queue_nodeID q.
Proof. intros (_ & _ & Hk) Ho. eapply opened_keeps; [|done]. done. Qed.

Lemma call_keeps {A} P (m : M Queue A) q n r n' q' q'' : wp m (fun _ q' => survivesQueue P (freshQueue q) q') (freshQueue q) ->
  m (n, freshQueue q) = (r, (n', q')) -> endsIn q' q'' -> keepsQueue P q'' /\ Queue_nodeID q'' = Queue_nodeID q.
Proof. intros Hw Hr He. eapply endsIn_keeps; [|done]. exact (wp_run _ _ _ _ _ _ _ Hw Hr). Qed.

(** The numbers up to [n] are used up. *)
Definition usedUp (n : Z) (s : queueState) : Prop := n <= QS_LastSequence s.

(** A property the operations keep holds through the life of a queue. *)
Lemma queueStep_keeps (P : queueState -> Prop) q q' :
  (forall s, P s -> P (withSequence (QS_LastSequence s + 1) s)) -> (forall s events, P s -> P (withEvents events s)) ->
  queue_step q q' -> keepsQueue P q -> keepsQueue P q' /\ Queue_nodeID q' = Queue_nodeID q.
Proof.
  intros Hseq Hev Hstep. destruct Hstep as [sysFails ctx m r m' q q' q'' Hr He|sysFails ctx entries m r m' q q' q'' Hp Hr He|
    sysFails ctx events m r m' q q' q'' Hr He|i q q' Hb Ho|q q' Ho]; intros Hk; pose proof (freshQueue_keeps _ _ Hk) as Hf.
  - by eapply call_keeps; [apply NextSequence_survives| |].
  - eapply call_keeps; [apply EnqueueBatch_survives; [|done|done]|done|done]. intros s encoded. apply Hev.
  - eapply call_keeps; [apply Acknowledge_survives; [|done]|done|done]. intros ids kept _ _. apply Hev, Hk.
  - exact (powerloss_keeps _ _ _ _ Hk Hb Ho).
  - exact (restart_keeps _ _ _ Hk Ho).
Qed.

Lemma queueSteps_keep (P : queueState -> Prop) q q' :
  (forall s, P s -> P (withSequence (QS_LastSequence s + 1) s)) -> (forall s events, P s -> P (withEvents events s)) ->
  rtc queue_step q q' -> keepsQueue P q -> keepsQueue P q' /\ Queue_nodeID q' = Queue_nodeID q.
Proof.
  intros Hseq Hev Hsteps. induction Hsteps as [|x y z Hxy _ IH]; intros Hk; [done|].
  destruct (queueStep_keeps P x y Hseq Hev Hxy Hk) as [Hy Hn]. destruct (IH Hy) as [Hz Hn']. split; [done|congruence].
Qed.

(** The queue stays within its bounds and can always be opened. Whatever the
    calls, the failures and the power losses were: at most 10000 events wait,
    the last sequence number fits 64 bits without wrapping, and every file a
    power loss could leave is one a process can load, within the same bounds. *)
Theorem queue_bounded q q' : keepsQueue (fun _ => True) q -> rtc queue_step q q' ->
  (len (QS_Events (Queue_state q')) <= maximumQueueEvents /\ 0 <= QS_LastSequence (Queue_state q') < 2 ^ 64) /\
  forall i, bound (Queue_directory q') i -> exists s, loadsQueue (Queue_nodeID q) i = Ok s /\
    len (QS_Events s) <= maximumQueueEvents /\ 0 <= QS_LastSequence s < 2 ^ 64.
Proof.
  intros Hk Hs. destruct (queueSteps_keep (fun _ => True) q q') as [(((_ & _ & Hu & _) & _ & _ & Hl) & _ & Hd) Hn]; [done..|].
  split; [split; [done|exact Hu]|]. intros i Hi. destruct (keeps_bound _ _ _ _ _ Hd Hi) as (s & Hload & _ & ((_ & _ & Hu' & _) & _ & _ & Hl') & _).
  exists s. rewrite <- Hn. split; [done|]. split; [done|]. exact Hu'.
Qed.

(** After a save that succeeded, the memory and every file are the state. *)
Lemma saved_keeps (P : queueState -> Prop) nodeID s d installed d' : wfQueue nodeID s -> P s -> saves s d installed (Ok tt) d' -> keepsQueue P (mkQueue nodeID s d').
Proof.
  intros Hwf HP [_ Hs]. destruct installed; [|by destruct Hs]. destruct Hs as (Hj & Hl & Hd). do 2 (split; [done|]). cbn. unfold kept_keeps.
  rewrite Hd, Hj. pose proof (holds_queueNode P nodeID s Hwf Hl HP). done.
Qed.

Lemma enqueued_keeps sysFails ctx entries n n' q q' : keepsQueue (fun _ => True) q -> Forall (fun e => 0 <= Entry_Priority e < 256) entries ->
  EnqueueBatch sysFails ctx entries (n, q) = (Ok tt, (n', q')) -> keepsQueue (fun st => QS_Events st = QS_Events (Queue_state q')) q'.
Proof.
  intros (Hwf & _ & _) Hp Hr. pose proof (wp_run _ _ _ _ _ _ _ (EnqueueBatch_effect sysFails ctx entries q) Hr)
    as [[? _]|(encoded & Hm & Hl & installed & d' & Hs & ->)]; [done|].
  destruct (encoded_plain _ _ _ Hp Hm) as [Hf He]. destruct installed; [|by destruct Hs as (_ & ? & _)].
  eapply saved_keeps; [|done|exact Hs]. pose proof Hwf as ((_ & _ & _ & Hev) & _). apply wf_events; [done|by apply Forall_app|].
  unfold len in *. rewrite length_app. lia.
Qed.

(** C10. A sequence number is handed out once. After the queue gave a number, and
    after any further calls of this process and any others, with saves that
    fail anywhere, power lost at any system call and the queue opened again,
    every number it gives is larger. *)
Theorem sequences_never_reused sysFails ctx n a n1 q q1 q2 sysFails' ctx' m b m' q3 :
  keepsQueue (fun _ => True) q -> NextSequence sysFails ctx (n, q) = (Ok a, (n1, q1)) -> rtc queue_step q1 q2 ->
  NextSequence sysFails' ctx' (m, q2) = (Ok b, (m', q3)) -> a < b.
Proof.
  intros (Hwf & _ & _) Hn Hsteps Hm.
  pose proof (wp_run _ _ _ _ _ _ _ (NextSequence_effect sysFails ctx q) Hn) as [[? _]|(Hmax & installed & r' & d' & Hs & -> & Hr)]; [done|].
  destruct r' as [[]|]; [|done]. injection Hr as ->. set (s := withSequence _ _) in *.
  assert (keepsQueue (usedUp (QS_LastSequence (Queue_state q) + 1)) (mkQueue (Queue_nodeID q) s d')) as Hk.
  { eapply saved_keeps; [by apply wf_sequence|unfold usedUp; simpl; lia|exact Hs]. }
  assert (keepsQueue (usedUp (QS_LastSequence (Queue_state q) + 1)) q2) as (_ & Hu & _).
  { eapply queueSteps_keep; [| |exact Hsteps|exact Hk]; unfold usedUp; simpl; [lia|done]. }
  pose proof (wp_run _ _ _ _ _ _ _ (NextSequence_effect sysFails' ctx' q2) Hm) as [[? _]|(_ & installed2 & r' & d2 & _ & _ & Hr)]; [done|].
  destruct r' as [[]|]; [|done]. injection Hr as ->. unfold usedUp in Hu. lia.
Qed.

(** ** Batches *)

Definition bootOf (boot : string) (w : wireEvent) : bool := eqs (Wire_BootId w) boot.

Lemma batchEvent_inv nodeID stored w : batchEvent nodeID stored = Ok w ->
  decodeStored stored = Ok w /\ Wire_Id w <> EmptyString /\ Wire_Sequence w <> 0 /\ Wire_NodeId w = nodeID /\ Wire_BootId w <> EmptyString.
Proof.
  unfold batchEvent. intros Hb. validated Hb. injection Hb as <-. rewrite !orb_false in Hv0. destruct Hv0 as (((Hi & Hq) & Hn) & Hb).
  split; [done|]. apply negb_false_iff, eqs_true in Hn. split_and!; [|lia|done|]; intros Heq; by rewrite Heq in *.
Qed.

Lemma collectBatch_members nodeID maximum stored boot values r : collectBatch nodeID maximum boot values stored = Ok r ->
  values `prefix_of` r /\ forall w, w ∈ r -> w ∈ values \/ exists q, q ∈ stored /\ batchEvent nodeID q = Ok w.
Proof.
  revert boot values. induction stored as [|q stored IH]; intros boot values Hc; cbn [collectBatch] in Hc.
  { injection Hc as <-. split; [done|by left]. }
  case_bool_decide; [injection Hc as <-; split; [done|by left]|]. validated Hc.
  assert (forall w, (exists q', q' ∈ stored /\ batchEvent nodeID q' = Ok w) -> exists q', q' ∈ q :: stored /\ batchEvent nodeID q' = Ok w) as Hup.
  { intros w (q' & Hq & Hb). exists q'. split; [by right|done]. }
  destruct (negb _) eqn:Hb; apply IH in Hc as [Hp Hm].
  - split; [done|]. intros w [?|?]%Hm; [by left|by right; apply Hup].
  - split; [by eapply prefix_app_l|]. intros w [[?|Hw]%elem_of_app|?]%Hm; [by left| |by right; apply Hup].
    apply list_elem_of_singleton in Hw as ->. right. exists q. split; [by left|done].
Qed.

(** A queue that is not empty gives a batch that is not. *)
Lemma collectBatch_some nodeID maximum q stored r : (0 < maximum)%nat -> collectBatch nodeID maximum EmptyString [] (q :: stored) = Ok r -> r <> [].
Proof.
  intros Hm. cbn [collectBatch]. rewrite bool_decide_false by (simpl; lia). intros Hc. validated Hc. cbn [negb] in Hc.
  change (eqs EmptyString EmptyString) with true in Hc. cbv iota in Hc. rewrite eqs_refl in Hc. cbn [negb] in Hc.
  apply collectBatch_members in Hc as [[l ->] _]. done.
Qed.

Lemma collectBatch_exact nodeID maximum stored all boot values : boot <> EmptyString -> (length values <= maximum)%nat ->
  mapR (batchEvent nodeID) stored = Ok all ->
  collectBatch nodeID maximum boot values stored = Ok (take maximum (values ++ List.filter (bootOf boot) all)).
Proof.
  intros Hb. revert all values. induction stored as [|q stored IH]; intros all values Hl Hm; cbn [mapR] in Hm; cbn [collectBatch].
  { injection Hm as <-. simpl. by rewrite app_nil_r, firstn_all2 by lia. }
  validated Hm. injection Hm as <-. case_bool_decide as Hmax.
  { by rewrite take_app_le, firstn_all2 by lia. }
  rewrite Hv. cbn [rbind]. replace (eqs boot EmptyString) with false by (symmetry; unfold eqs; by apply bool_decide_false).
  cbn [List.filter]. unfold bootOf at 1. destruct (eqs (Wire_BootId a) boot); cbn [negb].
  - rewrite (IH a0) by (done || (rewrite length_app; simpl; lia)). by rewrite <- app_assoc.
  - by apply IH.
Qed.

(** A batch is what it is meant to be. When every queued event can be
    decoded, [Batch] gives the first events of the boot of the oldest one, at
    most the number asked for, in the order of their sequences, and leaves
    the queue as it is; it is empty only for an empty queue. *)
Theorem batch_exact ctx maximum n q all :
  1 <= maximum <= 256 -> ctx n = None -> mapR (batchEvent (Queue_nodeID q)) (QS_Events (Queue_state q)) = Ok all ->
  exists events, Batch ctx maximum (n, q) = (Ok events, (S n, q)) /\ StronglySorted sequence_le events /\
    events ≡ₚ take (Z.to_nat maximum) (List.filter (bootOf (default EmptyString (Wire_BootId <$> head all))) all) /\
    (events = [] -> QS_Events (Queue_state q) = []).
Proof.
  intros Hmax Hctx Hall. assert (exists values, collectBatch (Queue_nodeID q) (Z.to_nat maximum) EmptyString [] (QS_Events (Queue_state q)) = Ok values /\
    values = take (Z.to_nat maximum) (List.filter (bootOf (default EmptyString (Wire_BootId <$> head all))) all)) as (values & Hc & ->).
  { destruct (QS_Events (Queue_state q)) as [|stored rest].
    - cbn [mapR] in Hall. injection Hall as <-. eexists. split; [done|]. simpl. by rewrite take_nil.
    - cbn [mapR] in Hall. validated Hall. injection Hall as <-. eexists. split; [|done]. cbn [collectBatch]. rewrite bool_decide_false by (simpl; lia).
      rewrite Hv. cbn [rbind]. change (eqs EmptyString EmptyString) with true. cbv iota. rewrite eqs_refl. cbn [negb head fmap option_fmap option_map default].
      cbv [id]. cbn [List.filter]. replace (bootOf (Wire_BootId a) a) with true by (symmetry; apply eqs_refl).
      apply (collectBatch_exact _ _ _ _ _ [a]); [|simpl; lia|done].
      by apply batchEvent_inv in Hv as (_ & _ & _ & _ & ?). }
  set (values := take _ _) in *. exists (merge_sort sequence_le values). split.
  { unfold Batch. replace (_ || _) with false by lia. unfold bindM, ctxErr, getS, liftR, retM. cbn [fst snd]. by rewrite Hctx, Hc. }
  assert (TotalOrder_ : Total sequence_le) by (intros x y; unfold sequence_le; lia).
  split; [apply StronglySorted_merge_sort; [intros x y z; unfold sequence_le; lia|done]|]. split; [apply merge_sort_Permutation|].
  intros Hnil. pose proof (merge_sort_Permutation sequence_le values) as Hp. rewrite Hnil in Hp. apply Permutation_nil_l in Hp.
  destruct (QS_Events (Queue_state q)) as [|x rest]; [done|]. apply collectBatch_some in Hc; [done|lia].
Qed.

Lemma Batch_spec ctx maximum q : wp (Batch ctx maximum) (fun r q' => q' = q /\ forall events, r = Ok events ->
  (events = [] -> QS_Events (Queue_state q) = []) /\
  Forall (fun w => exists s, s ∈ QS_Events (Queue_state q) /\ batchEvent (Queue_nodeID q) s = Ok w) events) q.
Proof.
  unfold Batch. destruct (_ || _) eqn:Hb; [by apply wp_fail|]. wp_step. apply wp_ctxErr; [|done]. red. do 5 wp_step.
  destruct (collectBatch _ _ _ _ _) as [values|] eqn:Hc; [|done]. red. apply wp_ret. split; [done|]. intros events [= <-].
  pose proof (merge_sort_Permutation sequence_le values) as Hp. split.
  - intros Hnil. rewrite Hnil in Hp. apply Permutation_nil_l in Hp; subst values. destruct (QS_Events _) as [|x rest]; [done|]. apply collectBatch_some in Hc; [done|lia].
  - apply Forall_forall. intros w Hw. rewrite Hp in Hw. apply collectBatch_members in Hc as [_ Hm]. destruct (Hm w Hw) as [Hn|?]; [by apply not_elem_of_nil in Hn|done].
Qed.

(** An acknowledgement removes the events it names and no others. *)
Lemma keepUnsent_exact ids stored kept : keepUnsent ids stored = Ok kept ->
  exists events, mapR decodeStored stored = Ok events /\
    kept = fst <$> List.filter (fun p => negb (containsValue ids (Wire_Id (snd p)))) (zip stored events).
Proof.
  revert kept. induction stored as [|q stored IH]; intros kept Hk; cbn [keepUnsent] in Hk; cbn [mapR]; [injection Hk as <-; by exists []|].
  validated Hk. injection Hk as <-. destruct (IH _ Hv0) as (events & Hm & ->). exists (a :: events). rewrite Hv, Hm. split; [done|].
  cbn [zip_with List.filter snd]. by destruct (containsValue _ _).
Qed.

Lemma keepUnsent_elem ids stored kept q : keepUnsent ids stored = Ok kept -> q ∈ stored ->
  q ∈ kept \/ exists w, decodeStored q = Ok w /\ containsValue ids (Wire_Id w) = true.
Proof.
  revert kept. induction stored as [|x stored IH]; intros kept Hk Hq; cbn [keepUnsent] in Hk; [by apply not_elem_of_nil in Hq|].
  validated Hk. injection Hk as <-. apply elem_of_cons in Hq as [->|Hq].
  - destruct (containsValue ids (Wire_Id a)) eqn:Hc; [right; by exists a|left; by left].
  - destruct (IH _ Hv0 Hq) as [Hin|?]; [left|by right]. destruct (containsValue _ _); [done|by right].
Qed.

End Queue.
