(* ===== verification/DeliveryFacts.v ===== *)
(** * Delivery from an agent to Core: theorems

    The agent's queue, its loop and the batch handler of Core put together
    over a network that may lose a request or its answer. An event leaves the
    queue only when Core has it on record, in memory, on the disk and at
    every instant of a power loss; the loop terminates, and one that returns
    has emptied the queue. And of a node that starts again under another boot
    id Core never stores an event of the new boot, because it wants each boot
    to start at sequence one and the queue goes on counting. *)

From S2P Require Import Prelude Directory DirectoryFacts Sha256 Digest Library Contract JournalFile Plan Events EventStore EventIngest EventQueue AgentLoop EventFacts EventStoreFacts EventIngestFacts EventQueueFacts.
From stdpp Require Import base gmap list strings pretty sorting relations.
From Stdlib Require Import ZArith Lia Sorted.

Open Scope Z_scope.

(** ** The network *)

Definition ErrUnreachable : error := errorsNew "submit agent event batch: %w".

(** A post reaches the handler unless the request is lost; then its answer may
    be lost. *)
Definition overNetwork (requestLost replyLost : nat -> bool) (handle : option EventBatch -> M Store batchResponse) : Transport Store := fun b st =>
  if requestLost (fst st) then (Err ErrUnreachable, (S (fst st), snd st)) else
  match handle (Some b) (S (fst st), snd st) with
  | (Err e, st') => (Err e, st')
  | (Ok response, (n, s)) =>
      (if replyLost n then Err ErrUnreachable
       else Ok (match response with Refused status _ => (status, None) | Acknowledged ack => (200, Some ack) end), (S n, s))
  end.

(** ** The loop of [drain] *)

Section Drain.
Context {EC : EventCodec} {QC : QueueCodec} {N : Type} {T : Transport N} (sysFails : nat -> bool).

(** The loop without a bound on its turns. *)
Inductive drains (b : TelemetryBuilder) (ctx : ctxT) : nat * agent (N := N) -> result unit * (nat * agent (N := N)) -> Prop :=
| drains_fails st e st' : drainTurn sysFails b ctx st = (Err e, st') -> drains b ctx st (Err e, st')
| drains_done st st' : drainTurn sysFails b ctx st = (Ok false, st') -> drains b ctx st (Ok tt, st')
| drains_again st st' res : drainTurn sysFails b ctx st = (Ok true, st') -> drains b ctx st' res -> drains b ctx st res.

Abbreviation queued a := (length (QS_Events (Queue_state (Agent_queue a)))).

Lemma acknowledge_shrinks ctx events q : wp (Acknowledge sysFails ctx events) (fun r q' => is_ok r = true ->
  (length (QS_Events (Queue_state q')) < length (QS_Events (Queue_state q)))%nat) q.
Proof.
  eapply wp_mono; [apply Acknowledge_effect|]. intros r q' [[Hr ->]|(ids & kept & _ & Hu & Hl & installed & d' & [_ Hs] & ->)]; [by rewrite Hr|].
  intros Hr. destruct installed; [|by destruct Hs as [Hf _]; rewrite Hf in Hr]. cbn.
  pose proof (sublist_length _ _ (keepUnsent_sublist _ _ _ Hu)). unfold len in Hl. lia.
Qed.

Lemma turn_shrinks b ctx (a : agent (N := N)) : wp (drainTurn sysFails b ctx) (fun r a' => r = Ok true -> (queued a' < queued a)%nat) a.
Proof.
  unfold drainTurn. wp_step. wp_step. eapply wp_mono; [apply Batch_spec|]. intros [[|first rest]|er] q' [-> Hb]; [by apply wp_ret| |done]. red.
  wp_step. wp_step. eapply wp_mono; [apply wp_any|]. intros [ack|er] s1 _; [red|done]. wp_step. wp_step.
  eapply wp_mono; [apply acknowledge_shrinks|]. intros [[]|er] q1 Hq; [|done]. red. apply wp_ret. intros _. by apply Hq.
Qed.

(** [drain] terminates. With any system calls failing and any behaviour of
    the network, the loop ends within as many turns as there are queued
    events, in the result that many turns of fuel give. *)
Theorem drain_terminates b ctx n (a : agent (N := N)) : drains b ctx (n, a) (drain sysFails (queued a) b ctx (n, a)).
Proof.
  assert (forall fuel n a, (queued a <= fuel)%nat -> drains b ctx (n, a) (drain sysFails fuel b ctx (n, a))) as Hall; [|by apply Hall].
  clear n a. induction fuel as [|fuel IH]; intros n a Hl; cbn [drain]; unfold bindM at 1; pose proof (turn_shrinks b ctx a n) as Hs;
    (destruct (drainTurn sysFails b ctx (n, a)) as [[[]|e] [n' a']] eqn:Ht; [|by apply drains_done|by apply drains_fails]);
    specialize (Hs eq_refl); [lia|].
  eapply drains_again; [done|]. apply IH. lia.
Qed.

End Drain.

Section Delivery.
Context {H : Hasher} {E : Ed25519} {EC : EventCodec} {QC : QueueCodec}.
Context (checkMessage : string -> list Z -> string -> result unit) (validateOpaqueProtobuf : list Z -> result unit).
Context (wireSize : wireEvent -> Z) (sqlFails sysFails requestLost replyLost : nat -> bool).
Context (parseCertificate : string -> option Certificate) (checkSignatureFrom : string -> Certificate -> bool).
Context (clock coreClock : clockT) (deploymentID : string) (caCertificate : Certificate).
Context (equalFold : string -> string -> bool) (toLower : string -> string).
Context (parseManifest : string -> option (list (option (string * list string)))) (simulation : bool) (callerNode : string).

Abbreviation Handle := (handleEventBatch checkMessage validateOpaqueProtobuf wireSize sqlFails parseCertificate checkSignatureFrom coreClock
  deploymentID caCertificate equalFold toLower parseManifest simulation callerNode).

#[local] Instance toCore : Transport Store := overNetwork requestLost replyLost Handle.

Abbreviation Drain := (drain sysFails (N := Store)).

(** ** A submission *)

Lemma post_spec b s (Q : result (Z * option EventBatchAck) -> Store -> Prop) :
  (forall e, Q (Err e) s) ->
  wp (Handle (Some b)) (fun r s' => (forall e, Q (Err e) s') /\ match r with
    | Ok (Refused status _) => Q (Ok (status, None)) s'
    | Ok (Acknowledged ack) => Q (Ok (200, Some ack)) s'
    | Err _ => True end) s -> wp (Post b) Q s.
Proof.
  intros He Hh n. unfold Post, toCore, overNetwork. cbn [fst snd]. destruct (requestLost n); [done|]. specialize (Hh (S n)).
  destruct (Handle (Some b) (S n, s)) as [[response|e] [n' s']]; [|apply Hh]. destruct Hh as [Hl Hh]. destruct (replyLost n'); [apply Hl|]. by destruct response.
Qed.

(** A submission that returns was acknowledged without a rejection. *)
Lemma submit_spec ctx b s (Q : result EventBatchAck -> Store -> Prop) :
  (forall e, Q (Err e) s) ->
  wp (Handle (Some b)) (fun r s' => (forall e, Q (Err e) s') /\
    forall ack, r = Ok (Acknowledged ack) -> Ack_Rejected ack = [] -> Q (Ok ack) s') s ->
  wp (Submit ctx b) Q s.
Proof.
  intros He Hh. unfold Submit. wp_step. apply wp_ctxErr; [|done]. red. wp_step. wp_step. destruct (validInput b); [|apply He]. red. wp_step.
  apply post_spec; [done|]. eapply wp_mono; [exact Hh|]. intros r s' [Hl Ha]. split; [done|]. destruct r as [[status code|ack]|]; [| |done].
  - red. destruct (negb _); by apply wp_fail.
  - red. change (negb (200 =? 200)) with false. cbv iota. destruct (_ || _) eqn:Hr; [by apply wp_fail|]. apply orb_false in Hr as [_ Hr].
    apply wp_ret, Ha; [done|]. apply negb_false_iff, Z.eqb_eq in Hr. unfold len in Hr. destruct (Ack_Rejected ack); [done|simpl in Hr; lia].
Qed.

Lemma submit_grows ctx b s : bootsKnown (St_database s) ->
  wp (Submit ctx b) (fun r s' => bootsKnown (St_database s') /\ keepsRows (St_database s) (St_database s') /\
    (is_ok r = true -> Forall (onRecord (St_database s')) (Batch_Events b))) s.
Proof.
  intros Hk. apply submit_spec; [intros; split_and!; [done|by intros ? ?|done]|]. eapply wp_mono; [by apply handle_grows|].
  intros r s' (Hk' & Hr & Hall). split; [done|]. intros ack -> Hn. split_and!; try done. intros _. by eapply Hall.
Qed.

Lemma submit_refuses ctx b events s : bootsKnown (St_database s) -> Batch_Events b = Some <$> events ->
  Forall (unacceptable checkMessage validateOpaqueProtobuf wireSize (St_database s)) events ->
  wp (Submit ctx b) (fun r s' => untouched s s' /\ is_ok r = false) s.
Proof.
  intros Hk Hb Hu. apply submit_spec; [intros; split; [apply untouched_refl|done]|]. eapply wp_mono; [by apply (handle_refuses _ _ _ _ _ _ _ _ _ _ _ _ _ _ b events)|].
  intros r s' (Hs & Hn). split; [done|]. intros ack Hr Hnil. by destruct (Hn ack Hr).
Qed.

(** ** Nothing is lost *)

(** Core has the queued event on record. *)
Definition delivered (d : DB) (stored : queuedEvent) : Prop := exists w, decodeStored stored = Ok w /\ is_Some (rowById (Wire_Id w) d).

(** Each of the events [l] is in the queue or delivered. *)
Definition safe (l : list queuedEvent) (d : DB) (s : queueState) : Prop := forall x, x ∈ l -> x ∈ QS_Events s \/ delivered d x.

Lemma safe_keeps l d d' s : keepsRows d d' -> safe l d s -> safe l d' s.
Proof. intros Hk Hs x Hx. destruct (Hs x Hx) as [?|(w & Hw & row & Hrow)]; [by left|]. right. exists w. split; [done|]. exists row. by apply Hk. Qed.

Lemma keepsQueue_mono (P Q : queueState -> Prop) q : (forall s, P s -> Q s) -> keepsQueue P q -> keepsQueue Q q.
Proof. intros HPQ (Hwf & HP & Hj & Hd). split; [done|]. split; [by apply HPQ|]. split; by eapply holds_mono. Qed.

Lemma survivesQueue_trans (P Q : queueState -> Prop) q q1 q2 : (forall s, P s -> Q s) -> survivesQueue P q q1 -> survivesQueue Q q1 q2 -> survivesQueue Q q q2.
Proof.
  intros HPQ (Hn1 & _ & Hi1) (Hn2 & Hk2 & Hi2). rewrite Hn1 in *. split; [done|]. split; [done|]. intros i Hin.
  destruct (Hi2 i Hin) as [Hi|?]; [|by right]. destruct (Hi1 i Hi) as [?|?]; [by left|right]. by eapply holds_mono.
Qed.

Lemma ackIDs events ids : mapR ackID (Some <$> events) = Ok ids -> ids = Wire_Id <$> events.
Proof.
  revert ids. induction events as [|w events IH]; intros ids Hm; cbn [fmap list_fmap mapR] in Hm; [by injection Hm as <-|].
  validated Hm. injection Hm as <-. cbn [ackID] in Hv. validated Hv. injection Hv as <-. cbn. f_equal. by apply IH.
Qed.

Lemma acknowledge_safe l d ctx events q : Forall (onRecord d) (Some <$> events) -> keepsQueue (safe l d) q ->
  wp (Acknowledge sysFails ctx (Some <$> events)) (fun _ q' => survivesQueue (safe l d) q q') q.
Proof.
  intros Hrec Hk. apply Acknowledge_survives; [|done]. intros ids kept Hids Hu x Hx. pose proof Hk as (_ & Hs & _).
  destruct (Hs x Hx) as [Hin|?]; [|by right]. destruct (keepUnsent_elem _ _ _ _ Hu Hin) as [?|(w & Hw & Hc)]; [by left|right].
  exists w. split; [done|]. apply ackIDs in Hids as ->. apply containsValue_elem, list_elem_of_fmap in Hc as (w' & -> & Hin').
  rewrite Forall_forall in Hrec. destruct (Hrec (Some w')) as (w2 & [= <-] & ?); [by apply list_elem_of_fmap_2|done].
Qed.

(** What a turn of the drain leaves of the queue [q] and the store [s]. *)
Definition turned (l : list queuedEvent) (q : Queue) (s : Store) (r : result bool) (a' : agent (N := Store)) : Prop :=
  bootsKnown (St_database (Agent_network a')) /\ keepsRows (St_database s) (St_database (Agent_network a')) /\
  survivesQueue (safe l (St_database (Agent_network a'))) q (Agent_queue a') /\
  (r = Ok false -> QS_Events (Queue_state (Agent_queue a')) = []).

Lemma turn_safe l b ctx q s : bootsKnown (St_database s) -> keepsQueue (safe l (St_database s)) q ->
  wp (drainTurn sysFails b ctx) (turned l q s) (mkAgent q s).
Proof.
  intros Hk Hq. assert (keepsRows (St_database s) (St_database s)) as Hsame by (by intros ? ?).
  assert (survivesQueue (safe l (St_database s)) q q) as Hrefl by (by apply survivesQueue_refl).
  unfold drainTurn. wp_step. wp_step. eapply wp_mono; [apply Batch_spec|]. intros [[|first rest]|er] q' [-> Hb]; [| |by split_and!]; red.
  { apply wp_ret. split_and!; [done..|]. intros _. by destruct (Hb _ eq_refl) as [Hnil _]; apply Hnil. }
  wp_step. wp_step. eapply wp_mono; [by apply submit_grows|]. cbn [Agent_network setAgentQueue]. intros r s1 (Hk1 & Hr1 & Hrec).
  assert (keepsQueue (safe l (St_database s1)) q) as Hq1. { eapply keepsQueue_mono; [|done]. intros st. by apply safe_keeps. }
  destruct r as [ack|er]; [red|by split_and!; [..|apply survivesQueue_refl|]]. wp_step. wp_step. cbn [Agent_queue setAgentNetwork setAgentQueue].
  eapply wp_mono; [apply acknowledge_safe; [by apply Hrec|done]|]. intros [[]|er] q1 Hs1; [red; apply wp_ret|]; by split_and!.
Qed.

Lemma drain_safe l b ctx fuel q s : bootsKnown (St_database s) -> keepsQueue (safe l (St_database s)) q ->
  wp (Drain fuel b ctx) (fun r a' => keepsRows (St_database s) (St_database (Agent_network a')) /\
    survivesQueue (safe l (St_database (Agent_network a'))) q (Agent_queue a') /\
    (is_ok r = true -> QS_Events (Queue_state (Agent_queue a')) = [])) (mkAgent q s).
Proof.
  revert q s. induction fuel as [|fuel IH]; intros q s Hk Hq; cbn [drain]; wp_step; (eapply wp_mono; [by apply turn_safe|]);
    intros [[]|er] a1 (Hk1 & Hr1 & Hs1 & Hf); try (by split_and!); red; try (by apply wp_fail); try (by apply wp_ret; split_and!; auto).
  destruct a1 as [q1 s1]. eapply wp_mono; [apply (IH q1 s1 Hk1); apply Hs1|]. cbn in *. intros r a' (Hr2 & Hs2 & Hok).
  split_and!; [by eapply keepsRows_trans| |done]. eapply survivesQueue_trans; [|exact Hs1|exact Hs2]. intros st. by apply safe_keeps.
Qed.

(** C6. Nothing that was queued is lost on the way. Whatever fails during a drain
    (statements of Core's database, system calls of the agent, requests and
    answers of the network), each event that was in the queue is afterwards
    still in the queue or on Core's record. That holds of the queue in
    memory and of its file as it would be found after losing power at any
    system call of the drain; Core's record only grows; and a drain that
    returns without an error leaves the queue empty. *)
Theorem queued_or_delivered b ctx fuel q s n r n' q' s' :
  bootsKnown (St_database s) -> keepsQueue (fun st => QS_Events st = QS_Events (Queue_state q)) q -> dir_images (Queue_directory q) = [] ->
  Drain fuel b ctx (n, mkAgent q s) = (r, (n', mkAgent q' s')) ->
  let l := QS_Events (Queue_state q) in
  safe l (St_database s') (Queue_state q') /\
  (forall i, i ∈ dir_images (Queue_directory q') -> exists st, loadsQueue (Queue_nodeID q) i = Ok st /\ safe l (St_database s') st) /\
  keepsRows (St_database s) (St_database s') /\
  (is_ok r = true -> Forall (delivered (St_database s')) l).
Proof.
  intros Hk Hq Hi Hrun l. assert (keepsQueue (safe l (St_database s)) q) as Hq'.
  { eapply keepsQueue_mono; [|exact Hq]. intros st Hst x Hx. left. by rewrite Hst. }
  pose proof (wp_run _ _ _ _ _ _ _ (drain_safe l b ctx fuel q s Hk Hq') Hrun) as (Hrows & (_ & (_ & Hs & _) & Himg) & Hok). cbn in *.
  split_and!; try done.
  - intros i Hin. destruct (Himg i Hin) as [Hn|(st & Hl & _ & _ & HP)]; [rewrite Hi in Hn; by apply not_elem_of_nil in Hn|]. by exists st.
  - intros Hr. apply Forall_forall. intros x Hx. destruct (Hs x Hx) as [Hin|?]; [|done]. rewrite Hok in Hin by done. by apply not_elem_of_nil in Hin.
Qed.

(** ** A node that comes back under another boot *)

Abbreviation Validate := (EventEnvelope_Validate checkMessage validateOpaqueProtobuf).
Abbreviation unmarshal := (unmarshalEvent checkMessage validateOpaqueProtobuf wireSize).

(** The wire form of a valid event is plain and keeps its fields. *)
Lemma valid_wire e w : Validate e = Ok tt -> EventToProto e = Ok w ->
  plainWire w = true /\ Wire_NodeId w = Event_NodeID e /\ Wire_BootId w = Event_BootID e /\ Wire_Sequence w = Event_Sequence e.
Proof.
  intros Hv Hw. destruct (validate_fits _ _ e w Hv Hw) as (Hc & Hs & [_ Hr]).
  destruct (wire_roundtrip _ _ wireSize e Hc Hs Hr) as (w' & Hw' & Hp & _ & Hn & Hb & Hq & _). rewrite Hw in Hw'. by injection Hw' as <-.
Qed.

Lemma source_wire e b : Validate e = Ok tt -> marshalSourceEvent e = Ok b ->
  exists w, eventUnmarshal b = Some w /\ Wire_NodeId w = Event_NodeID e /\ Wire_BootId w = Event_BootID e.
Proof.
  unfold marshalSourceEvent, marshalWire. intros Hv Hm. apply rbind_Ok in Hm as (w & Hw & Hm). destruct (valid_wire e w Hv Hw) as (Hp & Hn & Hb & _).
  destruct (eventMarshal (clearReceived w)) as [b'|] eqn:He; [|done]. injection Hm as ->. exists (clearReceived w). split; [|done].
  by apply (event_codec (clearReceived w)).
Qed.

Lemma sameSource_scope e existing : Validate e = Ok tt -> Validate existing = Ok tt -> sameSource e existing ->
  Event_NodeID existing = Event_NodeID e /\ Event_BootID existing = Event_BootID e.
Proof.
  intros H1 H2 (b & Hb1 & Hb2). destruct (source_wire e b H1 Hb1) as (w1 & U1 & <- & <-), (source_wire existing b H2 Hb2) as (w2 & U2 & <- & <-).
  rewrite U1 in U2. by injection U2 as <-.
Qed.

(** Core has no event of this boot of the node. *)
Record stranger (d : DB) (node boot : string) : Prop := {
  stranger_known : bootsKnown d;
  stranger_current : forall st, db_state d !! node = Some st -> NS_CurrentBootID st <> boot;
  stranger_rows : forall row existing, row ∈ db_events d -> unmarshal (Row_envelope_proto row) = Ok existing ->
    Event_NodeID existing = node -> Event_BootID existing <> boot;
}.

Lemma stranger_untouched s s' node boot : untouched s s' -> stranger (St_database s) node boot -> stranger (St_database s') node boot.
Proof. intros (d & -> & c & ->) [H1 H2 H3]. by split. Qed.

Lemma stranger_unacceptable d w : stranger d (Wire_NodeId w) (Wire_BootId w) -> Wire_Sequence w <> 1 ->
  unacceptable checkMessage validateOpaqueProtobuf wireSize d w.
Proof.
  intros [_ Hc Hr] Hq e Hid Hn Hb Hs. rewrite <- Hn, <- Hb in *. split.
  - unfold accepts. destruct (db_state d !! Event_NodeID e) as [st|]; [|by intros [? _]; congruence].
    intros [[Heq _]|(_ & _ & ?)]; [by apply (Hc st)|congruence].
  - intros row existing Hrow Hv Hu Hsame. unfold rowById in Hrow. apply find_some in Hrow as [Hin%list_elem_of_In _].
    assert (Validate existing = Ok tt) as Hv'.
    { unfold unmarshalEvent in Hu. destruct (eventUnmarshal _); [|done]. validated Hu. by injection Hu as <-. }
    destruct (sameSource_scope e existing Hv Hv' Hsame) as [Hn' Hb']. by apply (Hr row existing Hin Hu).
Qed.

(** An event of this boot of the node is not its first. *)
Definition notFirst (node boot : string) (w : wireEvent) : Prop := Wire_NodeId w = node -> Wire_BootId w = boot -> Wire_Sequence w <> 1.

(** Core stores no such event: what it stored is of another boot or node. *)
Lemma stored_stranger t r e s s' node boot :
  storedBy checkMessage validateOpaqueProtobuf parseCertificate checkSignatureFrom deploymentID caCertificate t r e s s' ->
  (Event_NodeID e = node -> Event_BootID e = boot -> Event_Sequence e <> 1) ->
  stranger (St_database s) node boot -> stranger (St_database s') node boot.
Proof.
  intros (_ & _ & Hacc & encoded & d1 & d2 & _ & (Hv & _ & _ & Hm & _) & Ha & (c & ->) & Hs) Hfirst [Hk Hc Hr].
  assert (~ (Event_NodeID e = node /\ Event_BootID e = boot)) as Hother.
  { intros [<- <-]. specialize (Hfirst eq_refl eq_refl). unfold accepts in Hacc. destruct (db_state _ !! _) as [st|]; [|by destruct Hacc].
    destruct Hacc as [[Heq _]|(_ & _ & ?)]; [by apply (Hc st)|congruence]. }
  assert (St_database s' = mkDB (db_events d1) (db_ordinal d1) (db_state d1) (db_boots d1) (db_nodes d1) c) as ->.
  { by destruct Hs as [[_ ->]|(_ & stored & ->)]; [|rewrite (proj2 (publish_next _ _))]. }
  split; cbn [db_events db_state].
  - by apply (accepted_known _ _ _ _ Hk Ha).
  - intros st. rewrite (acc_state _ _ _ _ Ha). intros [[Hn <-]|[_ Hst]]%lookup_insert_Some; [|by apply Hc]. cbn. intros Hb. by apply Hother.
  - intros row existing. rewrite (acc_events _ _ _ _ Ha). intros [Hin| ->%list_elem_of_singleton]%elem_of_app Hu Hn; [by eapply Hr|]. intros Hb.
    destruct (marshalEvent_inv _ _ Hm) as (w & Hw & Hbytes). destruct (valid_wire _ w Hv Hw) as (Hp & Hwn & Hwb & _).
    cbn in Hu. unfold unmarshalEvent in Hu. rewrite (event_codec w encoded Hp Hbytes) in Hu. validated Hu. injection Hu as <-.
    match goal with Hf : EventFromProto _ (Some w) = Ok _ |- _ => destruct (fromProto_fields _ w _ Hf) as (_ & Hn' & Hb' & _) end.
    cbn in *. apply Hother. split; congruence.
Qed.

Abbreviation All := (ingestAll checkMessage validateOpaqueProtobuf wireSize sqlFails parseCertificate checkSignatureFrom coreClock
  deploymentID caCertificate equalFold toLower parseManifest simulation).

Lemma ingestAll_stranger enrolled nodeID events at_ rejected s node boot : Forall (notFirst node boot) events -> stranger (St_database s) node boot ->
  wp (All enrolled nodeID at_ (Some <$> events) rejected) (fun _ s' => stranger (St_database s') node boot) s.
Proof.
  revert at_ rejected s. induction events as [|w events IH]; intros at_ rejected s Hall Hst; cbn [fmap list_fmap ingestAll]; [by apply wp_ret|].
  apply Forall_cons in Hall as [Hw Hall]. wp_step.
  apply (wp_mono _ (fun _ s' => stranger (St_database s') node boot)).
  { apply ingestOne_cases; [done|]. intros w' e [= <-] He. destruct (fromProto_fields _ w e He) as (_ & Hn & Hb & Hq).
    eapply wp_mono; [apply store_append_spec, Hst|]. intros r s' Hr. assert (stranger (St_database s') node boot) as Hs'; [|by destruct r].
    destruct Hr as [(Hu & _)|[t Hstored]]; [by eapply stranger_untouched|]. eapply stored_stranger; [exact Hstored| |done]. by rewrite Hn, Hb, Hq. }
  intros [[at1 refused]|er] s1 Hs1; [red|done]. by apply IH.
Qed.

Lemma submit_stranger ctx name nodeID events s node boot : Forall (notFirst node boot) events -> stranger (St_database s) node boot ->
  wp (Submit ctx (mkBatch name nodeID (Some <$> events))) (fun _ s' => stranger (St_database s') node boot) s.
Proof.
  intros Hall Hst. apply submit_spec; [done|]. apply (wp_mono _ (fun _ s' => stranger (St_database s') node boot)); [|by intros r s' Hs'; split].
  apply handle_cases; [done|]. intros _ enrolled. cbn [Batch_Events]. eapply wp_mono; [by apply ingestAll_stranger|]. intros [[at_ rejected]|er] s' Hs'; [by split|done].
Qed.

(** The queue went on counting: no event of this boot in it is the first. *)
Record countsOn (node boot : string) (q : Queue) : Prop := {
  co_node : Queue_nodeID q = node;
  co_last : 1 <= QS_LastSequence (Queue_state q);
  co_events : Forall (fun x => forall w, decodeStored x = Ok w -> Wire_BootId w = boot -> Wire_Sequence w <> 1) (QS_Events (Queue_state q));
}.

(** All that is queued is of this boot. *)
Definition onlyBoot (boot : string) (q : Queue) : Prop := Forall (fun x => forall w, decodeStored x = Ok w -> Wire_BootId w = boot) (QS_Events (Queue_state q)).

(** A turn of the drain may deliver events of other boots. *)
Lemma turn_stranger b ctx q s node boot : stranger (St_database s) node boot -> countsOn node boot q ->
  wp (drainTurn sysFails b ctx) (fun _ a' => stranger (St_database (Agent_network a')) node boot /\ countsOn node boot (Agent_queue a')) (mkAgent q s).
Proof.
  intros Hst Hc. pose proof Hc as [Hn Hl Hev]. unfold drainTurn. wp_step. wp_step. eapply wp_mono; [apply Batch_spec|].
  intros [[|first rest]|er] q' [-> Hb]; [by apply wp_ret| |by split]. red. wp_step. wp_step. destruct (Hb _ eq_refl) as [_ Hf].
  eapply wp_mono; [apply submit_stranger; [|exact Hst]|].
  { eapply Forall_impl; [exact Hf|]. intros w (x & Hx & (Hd & _ & _ & Hnode & _)%batchEvent_inv) _. rewrite Forall_forall in Hev. by apply (Hev x Hx). }
  intros [ack|er] s1 Hs1; [red|by split]. wp_step. wp_step. eapply wp_mono; [apply Acknowledge_effect|].
  intros r q1 Hq1. assert (countsOn node boot q1) as Hc1; [|destruct r; [red; by apply wp_ret|by split]].
  destruct Hq1 as [[_ ->]|(ids & kept & _ & Hu & _ & installed & d' & _ & ->)]; [done|]. destruct installed; [|by split]. split; [done|done|]. cbn.
  apply keepUnsent_sublist in Hu. apply Forall_forall. intros x Hx. rewrite Forall_forall in Hev. apply Hev. by eapply elem_of_sublist.
Qed.

Lemma drain_stranger b ctx fuel q s node boot : stranger (St_database s) node boot -> countsOn node boot q ->
  wp (Drain fuel b ctx) (fun _ a' => stranger (St_database (Agent_network a')) node boot /\ countsOn node boot (Agent_queue a')) (mkAgent q s).
Proof.
  revert q s. induction fuel as [|fuel IH]; intros q s Hst Hc; cbn [drain]; wp_step; (eapply wp_mono; [by apply turn_stranger|]);
    intros [[]|er] [q1 s1] [Hs1 Hc1]; try done; red; try (by apply wp_fail); try (by apply wp_ret). by apply IH.
Qed.

Lemma turn_refused b ctx q s node boot : stranger (St_database s) node boot -> countsOn node boot q -> onlyBoot boot q ->
  wp (drainTurn sysFails b ctx) (fun r a' => Agent_queue a' = q /\ untouched s (Agent_network a') /\ r <> Ok true) (mkAgent q s).
Proof.
  intros Hst [Hn _ Hev] Honly. unfold drainTurn. wp_step. wp_step. eapply wp_mono; [apply Batch_spec|]. pose proof (untouched_refl s) as Hrefl.
  intros [[|first rest]|er] q' [-> Hb]; [by apply wp_ret| |by split_and!]. red. wp_step. wp_step.
  eapply wp_mono; [apply (submit_refuses _ _ (first :: rest)); [apply Hst|done|]|]; [|intros [ack|er] s1 [Hs1 Hr]; [done|by split_and!]].
  destruct (Hb _ eq_refl) as [_ Hf]. eapply Forall_impl; [exact Hf|]. intros w (x & Hx & Hw). apply batchEvent_inv in Hw as (Hd & _ & _ & Hnode & _).
  unfold onlyBoot in Honly. rewrite Forall_forall in Hev, Honly.
  pose proof (Honly x Hx w Hd) as Hboot. apply stranger_unacceptable; [rewrite Hnode, Hboot; cbn; by rewrite Hn|by apply (Hev x Hx)].
Qed.

Lemma drain_refused b ctx fuel q s node boot : stranger (St_database s) node boot -> countsOn node boot q -> onlyBoot boot q ->
  wp (Drain fuel b ctx) (fun _ a' => Agent_queue a' = q /\ untouched s (Agent_network a')) (mkAgent q s).
Proof.
  intros Hst Hc Honly. destruct fuel; cbn [drain]; wp_step; (eapply wp_mono; [by eapply turn_refused|]); intros [[]|er] a' (? & ? & ?); try done; red; by apply wp_ret.
Qed.

(** A built event is of the builder's node and boot and has the sequence it
    was given. *)
Context (eventJSON : EventEnvelope -> option (list Z)) (privateKey : list Z).

Abbreviation signWith b := (fileSigner_Sign checkMessage validateOpaqueProtobuf clock (Builder_nodeID b) privateKey).
Abbreviation Finish b := (finishEvent checkMessage validateOpaqueProtobuf clock eventJSON (signWith b) b).

Lemma signed_fields e keyID key t e' : SignAt checkMessage validateOpaqueProtobuf e keyID key t = Ok e' ->
  Event_NodeID e' = Event_NodeID e /\ Event_BootID e' = Event_BootID e /\ Event_Sequence e' = Event_Sequence e.
Proof. unfold SignAt. intros Hs. validated Hs. by injection Hs as <-. Qed.

(** An event of this boot that is not its first. *)
Definition later (boot : string) (w : wireEvent) : Prop := plainWire w = true /\ Wire_BootId w = boot /\ Wire_Sequence w <> 1.

Lemma wp_tick {S A} (f : nat -> result A) (Q : result A -> S -> Prop) (s : S) : (forall n, Q (f n) s) ->
  wp (fun st => (f (fst st), (Datatypes.S (fst st), snd st))) Q s.
Proof. intros HQ n. apply HQ. Qed.

Lemma finish_spec b e (q : Queue) : Event_BootID e = Builder_bootID b -> Event_Sequence e <> 1 ->
  wp (Finish b e) (fun r q' => q' = q /\ forall w, r = Ok w -> later (Builder_bootID b) w) q.
Proof.
  intros Hb Hq. unfold finishEvent. do 3 wp_step. wp_step. wp_step. destruct (ValidateEvidenceAt e _) as [[]|]; [|done]. red. wp_step. wp_step.
  destruct (immutableEventDigest _ e); [|done]. red. wp_step. apply (wp_tick (fun t => signWith b t e)). intros t. unfold fileSigner_Sign.
  destruct (SignAt _ _ _ _ _ _) as [e'|] eqn:Hs; [|done]. destruct (signed_fields _ _ _ _ _ Hs) as (_ & Hb' & Hq'). red. wp_step. wp_step.
  destruct (immutableEventDigest _ e'); [|done]. red. destruct (negb _); [by apply wp_fail|]. destruct (negb _); [by apply wp_fail|].
  do 3 wp_step. wp_step. wp_step. destruct (ValidateEvidenceAt e' _) as [[]|]; [|done]. red. wp_step. wp_step. destruct (Validate e') as [[]|] eqn:Hv; [|done]. red.
  wp_step. split; [done|]. intros w Hw. destruct (valid_wire e' w Hv Hw) as (Hp & _ & Hwb & Hwq). split; [done|]. rewrite Hwb, Hwq, Hb', Hq'. by split.
Qed.

Abbreviation BuildOne b := (Build checkMessage validateOpaqueProtobuf sysFails clock eventJSON (signWith b) b).
Abbreviation BuildAll b := (buildAll checkMessage validateOpaqueProtobuf sysFails clock eventJSON (signWith b) b).

(** Only the counter moves, and it moves up. *)
Definition countedUp (q q' : Queue) : Prop :=
  Queue_nodeID q' = Queue_nodeID q /\ QS_Events (Queue_state q') = QS_Events (Queue_state q) /\
  QS_LastSequence (Queue_state q) <= QS_LastSequence (Queue_state q').

Lemma countedUp_refl q : countedUp q q.
Proof. by split_and!. Qed.

Lemma countedUp_trans q1 q2 q3 : countedUp q1 q2 -> countedUp q2 q3 -> countedUp q1 q3.
Proof. intros (N1 & E1 & L1) (N2 & E2 & L2). split_and!; [congruence..|lia]. Qed.

Lemma build_spec b ctx o q : 1 <= QS_LastSequence (Queue_state q) ->
  wp (BuildOne b ctx o) (fun r q' => countedUp q q' /\ forall w p, r = Ok (w, p) -> later (Builder_bootID b) w) q.
Proof.
  intros Hl. pose proof (countedUp_refl q) as Hrefl. unfold Build. wp_step. apply wp_ctxErr; [|done]. red.
  destruct (Obs_Payload o) as [[name encoded]|]; [|by apply wp_fail]. destruct (_ || _ || _ || _); [by apply wp_fail|].
  destruct encoded as [payload|]; [|by apply wp_fail]. wp_step. eapply wp_mono; [apply NextSequence_effect|].
  intros r q' [[Hr ->]|(_ & installed & r' & d' & _ & -> & Hr)]; [by destruct r|].
  assert (countedUp q (mkQueue (Queue_nodeID q) (withSequence (QS_LastSequence (Queue_state q) + 1) (Queue_state q)) d')) as Hc by (split_and!; cbn; [done..|lia]).
  destruct r' as [[]|]; subst r; [red|done]. destruct (_ =? 0); [by apply wp_fail|]. wp_step.
  eapply wp_mono; [apply finish_spec; [done|cbn; lia]|]. intros [w|er] q' [-> Hw]; [red|done]. apply wp_ret. split; [done|]. intros w' p [= <- _]. by apply Hw.
Qed.

Definition laterEntry (boot : string) (e : QueueEntry) : Prop := exists w, Entry_Event e = Some w /\ later boot w.

Lemma buildAll_spec b ctx observations q : 1 <= QS_LastSequence (Queue_state q) ->
  wp (BuildAll b ctx observations) (fun r q' => countedUp q q' /\ forall entries, r = Ok entries -> Forall (laterEntry (Builder_bootID b)) entries) q.
Proof.
  revert q. induction observations as [|o observations IH]; intros q Hl; cbn [buildAll].
  { apply wp_ret. split; [apply countedUp_refl|]. intros entries [= <-]. constructor. }
  wp_step. eapply wp_mono; [by apply build_spec|]. intros [[w p]|er] q1 [Hc Hw]; [red|done]. wp_step.
  eapply wp_mono; [apply IH; destruct Hc as (_ & _ & ?); lia|]. intros [entries|er] q2 [Hc2 He]; [red|split; [by eapply countedUp_trans|done]].
  apply wp_ret. split; [by eapply countedUp_trans|]. intros entries' [= <-]. constructor; [|by apply He]. exists w. split; [done|]. by eapply Hw.
Qed.

(** What is enqueued decodes to what was built. *)
Lemma encoded_later boot nodeID entries encoded : Forall (laterEntry boot) entries -> mapR (encodeEntry nodeID) entries = Ok encoded ->
  Forall (fun x => forall w, decodeStored x = Ok w -> Wire_BootId w = boot /\ Wire_Sequence w <> 1) encoded.
Proof.
  intros Hl. revert encoded. induction Hl as [|e entries (w & He & Hp & Hb & Hq) _ IH]; intros encoded Hm; cbn [mapR] in Hm; [by injection Hm as <-|].
  validated Hm. injection Hm as <-. constructor; [|by apply IH]. intros w' Hd. unfold encodeEntry in Hv. rewrite He in Hv. validated Hv. injection Hv as <-.
  unfold marshalWire in Hv2. destruct (eventMarshal w) as [bytes|] eqn:Hw; [|done]. injection Hv2 as <-.
  unfold decodeStored in Hd. cbn [Queued_Wire] in Hd. rewrite base64_roundtrip in Hd by (by eapply event_codec_bytes). rewrite (event_codec w bytes Hp Hw) in Hd.
  by injection Hd as <-.
Qed.

Lemma countedUp_on node boot q q' : countedUp q q' -> countsOn node boot q -> countsOn node boot q'.
Proof. intros (Hn & He & Hl) [Cn Cl Ce]. split; [congruence|lia|by rewrite He]. Qed.

Lemma enqueue_counts node boot ctx entries q : Forall (laterEntry boot) entries -> countsOn node boot q ->
  wp (EnqueueBatch sysFails ctx entries) (fun _ q' => countsOn node boot q' /\ (onlyBoot boot q -> onlyBoot boot q') /\
    QS_Events (Queue_state q) `prefix_of` QS_Events (Queue_state q')) q.
Proof.
  intros Hl Hc. eapply wp_mono; [apply EnqueueBatch_effect|]. intros r q' [[_ ->]|(encoded & Hm & _ & installed & d' & _ & ->)]; [by split_and!|].
  destruct Hc as [Cn Cl Ce]. destruct installed; cbn; [|by split_and!]. pose proof (encoded_later _ _ _ _ Hl Hm) as He.
  split_and!; [split; cbn; [done|done|]|unfold onlyBoot; cbn; intros Ho|by apply prefix_app_r]; (apply Forall_app; split; [done|]);
    (eapply Forall_impl; [exact He|]); intros x Hx w Hw; by destruct (Hx w Hw).
Qed.

Abbreviation Once collect b := (RunOnce checkMessage validateOpaqueProtobuf sysFails clock eventJSON (signWith b) (N := Store) collect b).

(** A pass that builds and enqueues, up to its drain. *)
Lemma pass_cases collect b ctx q s (Q : result unit -> agent (N := Store) -> Prop) : countsOn (Builder_nodeID b) (Builder_bootID b) q ->
  (forall r q1, countsOn (Builder_nodeID b) (Builder_bootID b) q1 -> (onlyBoot (Builder_bootID b) q -> onlyBoot (Builder_bootID b) q1) ->
     QS_Events (Queue_state q) `prefix_of` QS_Events (Queue_state q1) ->
     (forall e, Q (Err e) (mkAgent q1 s)) /\ (r = Ok tt -> forall fuel, wp (Drain fuel b ctx) Q (mkAgent q1 s))) ->
  wp (Once collect b ctx) Q (mkAgent q s).
Proof.
  intros Hc HQ. unfold RunOnce. wp_step. apply (wp_tick collect). intros t. destruct (collect t) as [observations|er]; [red|by apply (HQ (Err er) q)].
  wp_step. wp_step. eapply wp_mono; [apply buildAll_spec, Hc|]. intros r q1 [Hq1 He]. pose proof (countedUp_on _ _ _ _ Hq1 Hc) as Hc1.
  assert (QS_Events (Queue_state q1) = QS_Events (Queue_state q)) as Heq by (by destruct Hq1 as (_ & -> & _)).
  assert (onlyBoot (Builder_bootID b) q -> onlyBoot (Builder_bootID b) q1) as Ho1 by (unfold onlyBoot; by rewrite Heq).
  destruct r as [entries|er]; [red|apply (HQ (Err er) q1); [done..|by rewrite Heq]]. wp_step.
  apply (wp_mono _ (fun _ a => Agent_network a = s /\ countsOn (Builder_nodeID b) (Builder_bootID b) (Agent_queue a) /\
    (onlyBoot (Builder_bootID b) q1 -> onlyBoot (Builder_bootID b) (Agent_queue a)) /\
    QS_Events (Queue_state q1) `prefix_of` QS_Events (Queue_state (Agent_queue a)))).
  { destruct (negb _); [|by apply wp_ret]. wp_step. eapply wp_mono; [apply enqueue_counts; [by apply He|done]|]. intros r q2 (Hc2 & Ho2 & Hp2). by split_and!. }
  intros r [q2 s2] (Hs & Hc2 & Ho2 & Hp2). cbn in *. subst s2. rewrite Heq in Hp2. destruct (HQ r q2 Hc2 (fun Ho => Ho2 (Ho1 Ho)) Hp2) as [Herr Hdrain].
  destruct r as [[]|er]; [red|by apply Herr]. do 3 wp_step. by apply Hdrain.
Qed.

(** Core stays without an event of the new boot. *)
Lemma pass_stranger collect b ctx q s : stranger (St_database s) (Builder_nodeID b) (Builder_bootID b) ->
  countsOn (Builder_nodeID b) (Builder_bootID b) q ->
  wp (Once collect b ctx) (fun _ a' => stranger (St_database (Agent_network a')) (Builder_nodeID b) (Builder_bootID b) /\
    countsOn (Builder_nodeID b) (Builder_bootID b) (Agent_queue a')) (mkAgent q s).
Proof. intros Hst Hc. apply pass_cases; [done|]. intros r q1 Hc1 _ _. split; [done|]. intros _ fuel. by apply drain_stranger. Qed.

(** A pass leaves the wedge as it is. *)
Lemma pass_refused collect b ctx q s : stranger (St_database s) (Builder_nodeID b) (Builder_bootID b) ->
  countsOn (Builder_nodeID b) (Builder_bootID b) q -> onlyBoot (Builder_bootID b) q ->
  wp (Once collect b ctx) (fun _ a' => untouched s (Agent_network a') /\ onlyBoot (Builder_bootID b) (Agent_queue a') /\
    QS_Events (Queue_state q) `prefix_of` QS_Events (Queue_state (Agent_queue a'))) (mkAgent q s).
Proof.
  intros Hst Hc Honly. pose proof (untouched_refl s) as Hrefl. apply pass_cases; [done|]. intros r q1 Hc1 Ho1 Hp1. specialize (Ho1 Honly).
  split; [intros e; by split_and!|]. intros _ fuel. eapply wp_mono; [by eapply drain_refused|]. intros x a' [-> Hu]. by split_and!.
Qed.

(** A pass of the agent's loop, whatever the collector found. *)
Definition pass (b : TelemetryBuilder) (a a' : agent (N := Store)) : Prop :=
  exists collect ctx n r n', Once collect b ctx (n, a) = (r, (n', a')).

(** C7. Nothing a node says under another boot id is ever heard.
    Take an agent whose queue has given out a sequence number before, so that
    it goes on at two or more and holds no first event of the new boot, and a
    Core that has no event of that boot. However often the loop runs, whatever
    it collects and whatever fails, Core never has an event of the new boot:
    it wants the first event of a boot to have sequence one, and answers a
    gap. What the queue still holds of the boots before may be delivered;
    from the moment all that is queued is of the new boot, as after the queue
    was drained before the restart, Core stores nothing at all, and the agent
    keeps every batch and sends it again, so that the queue only grows. *)
Theorem reboot_never_delivers b a a' :
  stranger (St_database (Agent_network a)) (Builder_nodeID b) (Builder_bootID b) ->
  countsOn (Builder_nodeID b) (Builder_bootID b) (Agent_queue a) ->
  rtc (pass b) a a' ->
  stranger (St_database (Agent_network a')) (Builder_nodeID b) (Builder_bootID b) /\
  (onlyBoot (Builder_bootID b) (Agent_queue a) ->
   db_events (St_database (Agent_network a')) = db_events (St_database (Agent_network a)) /\
   QS_Events (Queue_state (Agent_queue a)) `prefix_of` QS_Events (Queue_state (Agent_queue a'))).
Proof.
  intros Hst Hc Hp. induction Hp as [a|a a1 a' (collect & ctx & n & r & n' & Hrun) _ IH]; [done|]. destruct a as [q s]. cbn in *.
  destruct (wp_run _ _ _ _ _ _ _ (pass_stranger collect b ctx q s Hst Hc) Hrun) as [Hst1 Hc1]. destruct (IH Hst1 Hc1) as [Hst' Hrest].
  split; [done|]. intros Honly. pose proof (wp_run _ _ _ _ _ _ _ (pass_refused collect b ctx q s Hst Hc Honly) Hrun) as (Hu & Ho1 & Hp1).
  destruct (Hrest Ho1) as [IH1 IH2]. split; [|by etrans]. rewrite IH1. by destruct Hu as (d & -> & c & ->).
Qed.

End Delivery.
