(* ===== verification/EventRuns.v ===== *)
(** * The event pipeline: concrete runs

    An encoding of envelopes and of the queue for which the laws of the
    classes hold, an enrolled node and its agent, and runs of the pipeline:
    the witnesses of its theorems. *)

From S2P Require Import Prelude Sha256 Digest Library Contract Directory JournalFile Plan Enforcement EnforcementRun StateFile Events EventStore Retention EventIngest EventQueue AgentLoop DirectoryFacts JournalFileFacts StateFileFacts GateFacts EventFacts EventStoreFacts RetentionFacts EventIngestFacts EventQueueFacts DeliveryFacts.
From stdpp Require Import base gmap list strings pretty sorting relations countable.
From Stdlib Require Import ZArith Lia Sorted.

Open Scope Z_scope.

(** ** Numbers as bytes *)

Fixpoint packBytes (fuel : nat) (z : Z) : list Z :=
  match fuel with
  | O => []
  | S fuel => if z <? 256 then [z] else Z.land z 255 :: packBytes fuel (Z.shiftr z 8)
  end.

Definition unpackBytes (l : list Z) : Z := foldr (fun b acc => b + 256 * acc) 0 l.

Lemma pack_step z : Z.land z 255 = z mod 256 /\ Z.shiftr z 8 = z / 256.
Proof. split; [by apply (Z.land_ones z 8)|by rewrite Z.shiftr_div_pow2]. Qed.

Lemma unpack_pack fuel z : 0 <= z < 256 ^ Z.of_nat fuel -> unpackBytes (packBytes fuel z) = z /\ Forall is_byte (packBytes fuel z).
Proof.
  revert z. induction fuel as [|fuel IH]; intros z Hz; [simpl in *; split; [lia|constructor]|]. cbn [packBytes].
  destruct (z <? 256) eqn:Hlt; [split; [cbn; lia|repeat constructor; lia]|]. destruct (pack_step z) as [-> ->].
  rewrite Nat2Z.inj_succ, Z.pow_succ_r in Hz by lia. destruct (IH (z / 256)) as [Hu Hf].
  { split; [apply Z.div_pos; lia|apply Z.div_lt_upper_bound; lia]. }
  split; [|constructor; [|done]; unfold is_byte; pose proof (Z.mod_pos_bound z 256); lia].
  unfold unpackBytes in *. cbn [foldr]. rewrite Hu. pose proof (Z.div_mod z 256). lia.
Qed.

Definition posPack (p : positive) : list Z := packBytes (Pos.size_nat p) (Z.pos p).
Definition posUnpack (l : list Z) : positive := Z.to_pos (unpackBytes l).

Lemma size_bound p : Z.pos p < 256 ^ Z.of_nat (Pos.size_nat p).
Proof.
  induction p as [p IH|p IH|]; [| |done]; cbn [Pos.size_nat]; rewrite Nat2Z.inj_succ, Z.pow_succ_r by lia; lia.
Qed.

Lemma posPack_spec p : posUnpack (posPack p) = p /\ Forall is_byte (posPack p).
Proof.
  unfold posUnpack, posPack. destruct (unpack_pack (Pos.size_nat p) (Z.pos p)) as [-> ?]; [split; [lia|apply size_bound]|done].
Qed.

(** ** Encodings *)

#[local] Instance Signature_flat : Countable Signature.
Proof.
  refine (inj_countable
    (fun r => [encode (Signature_KeyId r); encode (Signature_Algorithm r); encode (Signature_Value r); encode (Signature_SignedAt r); encode (Signature_Encoding r); encode (Signature_SignedContentDigest r); encode (Signature_Domain r)])
    (fun l => match l with [x0; x1; x2; x3; x4; x5; x6] =>
      x0 ← decode x0; x1 ← decode x1; x2 ← decode x2; x3 ← decode x3; x4 ← decode x4; x5 ← decode x5; x6 ← decode x6; Some (mkSignature x0 x1 x2 x3 x4 x5 x6)
    | _ => None end) _).
  intros r. rewrite !decode_encode. by destruct r.
Defined.
#[local] Instance wireAny_eq_dec : EqDecision wireAny.
Proof. solve_decision. Defined.
#[local] Instance wireAny_flat : Countable wireAny.
Proof.
  refine (inj_countable
    (fun r => [encode (Any_TypeUrl r); encode (Any_Value r)])
    (fun l => match l with [x0; x1] =>
      x0 ← decode x0; x1 ← decode x1; Some (mkAny x0 x1)
    | _ => None end) _).
  intros r. rewrite !decode_encode. by destruct r.
Defined.
#[local] Instance wireEvidence_eq_dec : EqDecision wireEvidence.
Proof. solve_decision. Defined.
#[local] Instance wireEvidence_flat : Countable wireEvidence.
Proof.
  refine (inj_countable
    (fun r => [encode (WE_Id r); encode (WE_Role r); encode (WE_Classification r); encode (WE_SourceType r); encode (WE_SourceName r); encode (WE_SourceUri r); encode (WE_ObservedAt r); encode (WE_ReceivedAt r); encode (WE_LastVerifiedAt r); encode (WE_ExpiresAt r); encode (WE_Confidence r); encode (WE_Sensitivity r); encode (WE_LocationPrecision r); encode (WE_Summary r); encode (WE_Integrity r); encode (WE_SourceLicense r); encode (WE_Attributes r)])
    (fun l => match l with [x0; x1; x2; x3; x4; x5; x6; x7; x8; x9; x10; x11; x12; x13; x14; x15; x16] =>
      x0 ← decode x0; x1 ← decode x1; x2 ← decode x2; x3 ← decode x3; x4 ← decode x4; x5 ← decode x5; x6 ← decode x6; x7 ← decode x7; x8 ← decode x8; x9 ← decode x9; x10 ← decode x10; x11 ← decode x11; x12 ← decode x12; x13 ← decode x13; x14 ← decode x14; x15 ← decode x15; x16 ← decode x16; Some (mkWireEvidence x0 x1 x2 x3 x4 x5 x6 x7 x8 x9 x10 x11 x12 x13 x14 x15 x16)
    | _ => None end) _).
  intros r. rewrite !decode_encode. by destruct r.
Defined.
#[local] Instance wireEvent_eq_dec : EqDecision wireEvent.
Proof. solve_decision. Defined.
#[local] Instance wireEvent_flat : Countable wireEvent.
Proof.
  refine (inj_countable
    (fun r => [encode (Wire_Id r); encode (Wire_SchemaVersion r); encode (Wire_DeploymentId r); encode (Wire_NodeId r); encode (Wire_Kind r); encode (Wire_ObservedAt r); encode (Wire_ReceivedAt r); encode (Wire_Sequence r); encode (Wire_BootId r); encode (Wire_Classification r); encode (Wire_Confidence r); encode (Wire_Sensitivity r); encode (Wire_Payload r); encode (Wire_Evidence r); encode (Wire_CorrelationId r); encode (Wire_CausationId r); encode (Wire_PayloadDigest r); encode (Wire_SourceSignature r); encode (Wire_Unknown r)])
    (fun l => match l with [x0; x1; x2; x3; x4; x5; x6; x7; x8; x9; x10; x11; x12; x13; x14; x15; x16; x17; x18] =>
      x0 ← decode x0; x1 ← decode x1; x2 ← decode x2; x3 ← decode x3; x4 ← decode x4; x5 ← decode x5; x6 ← decode x6; x7 ← decode x7; x8 ← decode x8; x9 ← decode x9; x10 ← decode x10; x11 ← decode x11; x12 ← decode x12; x13 ← decode x13; x14 ← decode x14; x15 ← decode x15; x16 ← decode x16; x17 ← decode x17; x18 ← decode x18; Some (mkWire x0 x1 x2 x3 x4 x5 x6 x7 x8 x9 x10 x11 x12 x13 x14 x15 x16 x17 x18)
    | _ => None end) _).
  intros r. rewrite !decode_encode. by destruct r.
Defined.

Definition packedEvents : EventCodec.
Proof.
  refine {| eventMarshal := fun w => Some (posPack (encode w)); eventUnmarshal := fun b => decode (posUnpack b) |}.
  - intros w b _ [= <-]. by rewrite (proj1 (posPack_spec _)), decode_encode.
  - intros w b [= <-]. apply posPack_spec.
Defined.

#[local] Instance queuedEvent_eq_dec : EqDecision queuedEvent.
Proof. solve_decision. Defined.
#[local] Instance queuedEvent_flat : Countable queuedEvent.
Proof.
  refine (inj_countable
    (fun r => [encode (Queued_Priority r); encode (Queued_Wire r)])
    (fun l => match l with [x0; x1] =>
      x0 ← decode x0; x1 ← decode x1; Some (mkQueued x0 x1)
    | _ => None end) _).
  intros r. rewrite !decode_encode. by destruct r.
Defined.
#[local] Instance queueState_eq_dec : EqDecision queueState.
Proof. solve_decision. Defined.
#[local] Instance queueState_flat : Countable queueState.
Proof.
  refine (inj_countable
    (fun r => [encode (QS_SchemaVersion r); encode (QS_NodeID r); encode (QS_LastSequence r); encode (QS_Events r)])
    (fun l => match l with [x0; x1; x2; x3] =>
      x0 ← decode x0; x1 ← decode x1; x2 ← decode x2; x3 ← decode x3; Some (mkQueueState x0 x1 x2 x3)
    | _ => None end) _).
  intros r. rewrite !decode_encode. by destruct r.
Defined.

Definition packedQueue : QueueCodec.
Proof.
  refine {| queueMarshal := fun s => posPack (encode s);
            queueDecode := fun _ b => s ← decode (posUnpack b); Some (s, []) |}.
  intros s0 s _. by rewrite (proj1 (posPack_spec _)), decode_encode.
Defined.

(** A signature of 64 bytes that checks what was signed. *)
Definition digestEd25519 : Ed25519.
Proof.
  refine {| ed_sign := fun key message => drop 32 key ++ @sum256 foldHasher message;
            ed_verify := fun public message signature => bool_decide (signature = public ++ @sum256 foldHasher message);
            ed_key := fun key => length key = 64%nat |}; [done|].
  intros key message _. by apply bool_decide_true.
Defined.

(** ** A deployment of one node *)

Definition demo_time : time := 1767225600 * Second.
Definition demo_key : list Z := repeat 1 32 ++ repeat 9 32.
Definition demo_check (message : string) (payload : list Z) (sensitivity : string) : result unit := Ok tt.
Definition demo_opaque (payload : list Z) : result unit := Ok tt.
Definition demo_size (w : wireEvent) : Z := len (posPack (encode w)).
Definition demo_authority : Certificate := mkCertificate (demo_time - Hour) (demo_time + Hour) None "authority" ["deployment-1"]%string false.
Definition demo_certificate : Certificate :=
  mkCertificate (demo_time - Hour) (demo_time + Hour) (Some (repeat 9 32)) "node-1" ["deployment-1"]%string true.
Definition demo_parse (pem : string) : option Certificate := if eqs pem "PEM" then Some demo_certificate else None.
Definition demo_issued (pem : string) (authority : Certificate) : bool := eqs pem "PEM".
Definition demo_node : Node := mkEnrolled "node-1" "edge" "NODE_TYPE_AGENT" "linux" "6.1" NodeActive [] "{}" "CLAIMED" (repeat 9 32) "PEM" 0 None None 0.
Definition demo_json (e : EventEnvelope) : option (list Z) := Some (bytes_of (Event_ID e) ++ Event_Payload e).
Definition demo_manifests (text : string) : option (list (option (string * list string))) := Some [].
Definition demo_now : clockT := fun _ => demo_time.

Abbreviation demo_handle := (@handleEventBatch foldHasher digestEd25519 packedEvents demo_check demo_opaque demo_size noFailure demo_parse demo_issued
  demo_now "deployment-1" demo_authority eqs id demo_manifests false "node-1").
Abbreviation demo_network := (overNetwork noFailure noFailure demo_handle).
Abbreviation demo_once := (@RunOnce foldHasher packedEvents packedQueue demo_check demo_opaque noFailure demo_now demo_json
  (@fileSigner_Sign foldHasher digestEd25519 packedEvents demo_check demo_opaque demo_now "node-1" demo_key) Store demo_network).

Definition demo_builder (boot : string) : TelemetryBuilder := mkBuilder "deployment-1" "node-1" boot.
Definition demo_heartbeat (state : Z) : Observation :=
  mkObservation "node.heartbeat" demo_time "DETECTED" 0 "INTERNAL" (Some ("antiflock.v1.NodeHeartbeat"%string, Some [8; state])) [].

Definition demo_agent : agent (N := Store) :=
  mkAgent (mkQueue "node-1" (emptyQueue "node-1") freshDirectory)
          (mkStore (mkDB [] 0 ∅ ∅ {[ "node-1"%string := demo_node ]} ∅) 0 ∅ ∅).

(** What a pass shows: how it ended, the numbers the queue gave out, how many
    events wait, and the sequences Core stored. *)
Definition seen_of (out : result unit * (nat * agent (N := Store))) : result unit * Z * nat * list Z :=
  let a := snd (snd out) in
  (fst out, QS_LastSequence (Queue_state (Agent_queue a)), length (QS_Events (Queue_state (Agent_queue a))),
   Row_sequence <$> db_events (St_database (Agent_network a))).

Definition demo_first_boot := demo_once (fun _ => Ok [demo_heartbeat 1; demo_heartbeat 2]) (demo_builder "boot-1") Background (0%nat, demo_agent).
Definition demo_second_boot := demo_once (fun _ => Ok [demo_heartbeat 3]) (demo_builder "boot-2") Background (0%nat, snd (snd demo_first_boot)).

(** The pipeline runs: the first boot delivers its two events and empties the
    queue; the second boot's event has sequence three and stays there. *)
Lemma pipeline_runs :
  seen_of demo_first_boot = (Ok tt, 2, 0%nat, [1; 2]) /\ seen_of demo_second_boot = (Err ErrNotAccepted, 3, 1%nat, [1; 2]).
Proof. split; vm_compute; reflexivity. Qed.

(** ** Witnesses *)

Definition demo_unsigned : EventEnvelope := @unsignedEvent foldHasher (demo_builder "boot-1") (demo_heartbeat 1) 1 "antiflock.v1.NodeHeartbeat" [8; 1].

Definition demo_event : EventEnvelope :=
  Eval vm_compute in match @SignAt foldHasher digestEd25519 packedEvents demo_check demo_opaque demo_unsigned "node-1" demo_key demo_time with
                     | Ok e => e | Err _ => demo_unsigned end.

Lemma event_roundtrip_witness : exists w, EventToProto demo_event = Ok w /\ Wire_BootId w = "boot-1"%string /\
  EventFromProto demo_size (Some w) = Ok (normalEvent demo_event).
Proof.
  destruct (@event_roundtrip foldHasher demo_check demo_opaque demo_size demo_event) as (w & Hw & _ & _ & _ & Hb & _ & Hf);
    [vm_compute; reflexivity|split; [vm_compute; reflexivity|by left]|]. exists w. split; [done|]. split; [done|]. apply Hf.
  vm_compute in Hw. injection Hw as <-. vm_compute. discriminate.
Defined.

Lemma signed_event_verifies_witness :
  @VerifySource foldHasher digestEd25519 packedEvents demo_check demo_opaque demo_event (Public demo_key) = Ok tt.
Proof.
  apply (@signed_event_verifies foldHasher digestEd25519 packedEvents demo_check demo_opaque demo_unsigned demo_key demo_time demo_event);
    [reflexivity|vm_compute; reflexivity|vm_compute; reflexivity].
Defined.

Lemma event_tamper_evident_witness : exists b1 b2, @signableBytes packedEvents demo_event = Some b1 /\
  @signableBytes packedEvents (setReceivedAt demo_time demo_event) = Some b2 /\
  (sourceContent demo_event = sourceContent (setReceivedAt demo_time demo_event) \/ @collision foldHasher b1 b2).
Proof.
  apply (@event_tamper_evident foldHasher digestEd25519 packedEvents demo_check demo_opaque demo_event (setReceivedAt demo_time demo_event)
    (Public demo_key) (Public demo_key)); vm_compute; reflexivity.
Defined.

Definition demo_received : EventEnvelope := setReceivedAt demo_time demo_event.
Abbreviation demo_append := (@AppendEvent foldHasher packedEvents demo_check demo_opaque demo_size noFailure demo_received).
Definition demo_db : DB := mkDB [] 0 ∅ ∅ {[ "node-1"%string := demo_node ]} ∅.
Definition demo_stored : DB := snd (snd (demo_append (0%nat, demo_db))).

Lemma event_log_contiguous_witness :
  Event_Sequence <$> List.filter (ofBoot "node-1" "boot-1") [demo_received] = seqZ 1 (highestOf demo_stored "node-1" "boot-1") /\
  highestOf demo_stored "node-1" "boot-1" = 1.
Proof.
  split; [|vm_compute; reflexivity].
  apply (@event_log_contiguous foldHasher packedEvents demo_check demo_opaque demo_size demo_stored [demo_received]).
  apply (logged_append _ _ _ noFailure 0 demo_received (Ok true) (fst (snd (demo_append (0%nat, demo_db)))) demo_db demo_stored []).
  - apply logged_new.
  - vm_compute. reflexivity.
Defined.

Lemma no_silent_gap_witness : Ch_received (mkChannel 32 [demo_event] [] false) ++ [demo_event] = [demo_event].
Proof.
  set (s := publish demo_event (snd (Subscribe 0 (mkStore demo_db 0 ∅ ∅)))).
  destruct (no_silent_gap s (fun i => if bool_decide (i < 1)%nat then [] ++ [demo_event] else []) 0 (mkChannel 32 [demo_event] [] false)) as (_ & Hall & _).
  - apply (lived_publish demo_event (snd (Subscribe 0 (mkStore demo_db 0 ∅ ∅))) (fun _ => [])), lived_subscribe, lived_new.
  - vm_compute. reflexivity.
  - exact (Hall eq_refl).
Defined.

Lemma run_eta {S A} (out : result A * (nat * S)) r : fst out = r -> out = (r, (fst (snd out), snd (snd out))).
Proof. intros <-. by destruct out as [? []]. Qed.

Definition demo_store : Store := mkStore demo_db 0 ∅ ∅.

Lemma demo_known : bootsKnown demo_db.
Proof. intros node st Hs. change ((∅ : gmap string NodeEventState) !! node = Some st) in Hs. by rewrite lookup_empty in Hs. Qed.

Definition demo_ingest := @Store_Append foldHasher digestEd25519 packedEvents demo_check demo_opaque demo_size noFailure demo_parse demo_issued demo_now
  "deployment-1" demo_authority demo_event (0%nat, demo_store).

Lemma stored_is_authentic_witness : exists encoded,
  @authentic foldHasher digestEd25519 packedEvents demo_check demo_opaque demo_parse demo_issued "deployment-1" demo_authority demo_db demo_event (demo_now 0%nat) /\
  @admitted foldHasher packedEvents demo_check demo_opaque (setReceivedAt (demo_now 0%nat) demo_event) encoded /\
  db_events (St_database (snd (snd demo_ingest))) = [rowOf 1 (setReceivedAt (demo_now 0%nat) demo_event) encoded].
Proof.
  destruct (@stored_is_authentic foldHasher digestEd25519 packedEvents demo_check demo_opaque demo_size noFailure demo_parse demo_issued demo_now
    "deployment-1" demo_authority demo_event 0 (fst demo_ingest) (fst (snd demo_ingest)) demo_store (snd (snd demo_ingest)) demo_known)
    as [(_ & Hn & _)|Hs]; [exact (run_eta demo_ingest _ eq_refl)| |exact Hs].
  exfalso. apply Hn. vm_compute. reflexivity.
Defined.

(** A queue that holds the event, as a save leaves it. *)
Definition demo_empty : Queue := mkQueue "node-1" (emptyQueue "node-1") freshDirectory.
Definition demo_entries : list QueueEntry := [mkEntry (match EventToProto demo_event with Ok w => Some w | Err _ => None end) 1].
Definition demo_enqueued := @EnqueueBatch packedEvents packedQueue noFailure Background demo_entries (0%nat, demo_empty).
Definition demo_queued : Queue := freshQueue (snd (snd demo_enqueued)).

Lemma demo_empty_keeps : @keepsQueue packedQueue (fun _ => True) demo_empty.
Proof.
  assert (wfQueue "node-1" (emptyQueue "node-1")) as Hwf.
  { split; [|by vm_compute]. split_and!; [by repeat constructor..|by vm_compute|constructor]. }
  split; [done|]. split; [done|]. split; exists (emptyQueue "node-1"); by split_and!.
Qed.

(** The events the queue holds, in memory and in every file. *)
Definition holdsEvents (q : Queue) : Prop := @keepsQueue packedQueue (fun st => QS_Events st = QS_Events (Queue_state q)) q.

Lemma holdsEvents_fresh q : holdsEvents q -> holdsEvents (freshQueue q).
Proof. apply freshQueue_keeps. Qed.

Lemma holdsEvents_enqueued sysFails entries n q : let out := @EnqueueBatch packedEvents packedQueue sysFails Background entries (n, q) in
  fst out = Ok tt -> @keepsQueue packedQueue (fun _ => True) q -> Forall (fun e => 0 <= Entry_Priority e < 256) entries -> holdsEvents (snd (snd out)).
Proof. intros out Hok Hq Hp. eapply enqueued_keeps; [exact Hq|exact Hp|]. by apply run_eta. Qed.

Lemma demo_queued_keeps : holdsEvents demo_queued.
Proof.
  unfold demo_queued, demo_enqueued. apply holdsEvents_fresh, holdsEvents_enqueued.
  - vm_compute. reflexivity.
  - apply demo_empty_keeps.
  - by repeat constructor.
Qed.

Lemma batch_exact_witness : exists events, @Batch packedEvents Background 256 (0%nat, demo_queued) = (Ok events, (1%nat, demo_queued)) /\ events <> [].
Proof.
  destruct (@batch_exact packedEvents Background 256 0 demo_queued (match EventToProto demo_event with Ok w => [w] | Err _ => [] end))
    as (events & Hb & _ & _ & Hn); [lia|done|vm_compute; reflexivity|]. exists events. split; [done|]. intros Hnil. apply Hn in Hnil.
  by vm_compute in Hnil.
Defined.

Definition demo_given := @NextSequence packedQueue noFailure Background (0%nat, demo_empty).
Definition demo_used : Queue := snd (snd demo_given).

(** The next process, after power was lost. *)
Definition freeLock : nat -> nat * bool := fun _ => (0%nat, true).
Definition demo_rebooted : directory := restarted (dir_durable (Queue_directory demo_used)) (Queue_directory demo_used).
Definition demo_open := @OpenQueue packedQueue noFailure freeLock false "node-1" (0%nat, demo_rebooted).
Definition demo_reopened : Queue :=
  mkQueue "node-1" (match fst demo_open with Ok s => s | Err _ => emptyQueue "node-1" end) (snd (snd demo_open)).
Definition demo_given_again := @NextSequence packedQueue noFailure Background (0%nat, demo_reopened).

Lemma opens nodeID d s : let out := @OpenQueue packedQueue noFailure freeLock false nodeID (0%nat, d) in
  fst out = Ok s -> @opened packedQueue nodeID d (mkQueue nodeID s (snd (snd out))).
Proof.
  intros out Hok. exists noFailure, freeLock, 0%nat, s, (fst (snd out)), (snd (snd out)). split; [by apply run_eta|reflexivity].
Qed.

Lemma demo_restart : @queue_step packedEvents packedQueue demo_used demo_reopened.
Proof.
  apply (qstep_powerloss (dir_durable (Queue_directory demo_used))); [by right|].
  assert (Queue_nodeID demo_used = "node-1"%string) as -> by (vm_compute; reflexivity).
  unfold demo_reopened, demo_open, demo_rebooted. apply opens. vm_compute. reflexivity.
Qed.

Lemma sequences_never_reused_witness : 1 < 2.
Proof.
  apply (@sequences_never_reused packedEvents packedQueue noFailure Background 0 1 (fst (snd demo_given)) demo_empty demo_used
    demo_reopened noFailure Background 0 2 (fst (snd demo_given_again)) (snd (snd demo_given_again))).
  - apply demo_empty_keeps.
  - unfold demo_used, demo_given. apply run_eta. vm_compute. reflexivity.
  - eapply rtc_l; [apply demo_restart|apply rtc_refl].
  - unfold demo_given_again. apply run_eta. vm_compute. reflexivity.
Defined.

Abbreviation demo_drain := (@drain packedEvents packedQueue noFailure Store demo_network).
Definition demo_drained := demo_drain 1%nat (demo_builder "boot-1") Background (0%nat, mkAgent demo_queued demo_store).

Lemma agent_eta (out : result unit * (nat * agent (N := Store))) :
  out = (fst out, (fst (snd out), mkAgent (Agent_queue (snd (snd out))) (Agent_network (snd (snd out))))).
Proof. by destruct out as [? [? []]]. Qed.

Lemma queued_or_delivered_witness :
  Forall (@delivered packedEvents (St_database (Agent_network (snd (snd demo_drained))))) (QS_Events (Queue_state demo_queued)) /\
  length (QS_Events (Queue_state demo_queued)) = 1%nat.
Proof.
  split; [|vm_compute; reflexivity].
  apply (@queued_or_delivered foldHasher digestEd25519 packedEvents packedQueue demo_check demo_opaque demo_size noFailure noFailure noFailure noFailure
    demo_parse demo_issued demo_now "deployment-1" demo_authority eqs id demo_manifests false "node-1" (demo_builder "boot-1") Background 1 demo_queued
    demo_store 0 (fst demo_drained) (fst (snd demo_drained)) (Agent_queue (snd (snd demo_drained))) (Agent_network (snd (snd demo_drained)))).
  - apply demo_known.
  - apply demo_queued_keeps.
  - reflexivity.
  - unfold demo_drained. apply agent_eta.
  - vm_compute. reflexivity.
Defined.

(** Core after the first boot sent an event that retention has deleted since,
    and the agent under its second boot. *)
Definition demo_rebooted_agent : agent (N := Store) :=
  mkAgent (mkQueue "node-1" (mkQueueState queueSchema "node-1" 1 []) freshDirectory)
          (mkStore (mkDB [] 1 {[ "node-1"%string := mkNodeState "boot-1" 1 "event-1" demo_time ]}
                     {[ ("node-1"%string, "boot-1"%string) := mkBoot 1 demo_time demo_time ]} {[ "node-1"%string := demo_node ]} ∅) 0 ∅ ∅).

Definition demo_unheard := demo_once (fun _ => Ok [demo_heartbeat 2]) (demo_builder "boot-2") Background (0%nat, demo_rebooted_agent).

Lemma demo_stranger : @stranger foldHasher packedEvents demo_check demo_opaque demo_size (St_database (Agent_network demo_rebooted_agent)) "node-1" "boot-2".
Proof.
  assert (forall node st, ({[ "node-1"%string := mkNodeState "boot-1" 1 "event-1" demo_time ]} : gmap string NodeEventState) !! node = Some st ->
    node = "node-1"%string /\ st = mkNodeState "boot-1" 1 "event-1" demo_time) as Hst by (by intros ? ? [<- <-]%lookup_singleton_Some).
  split.
  - intros node st [-> ->]%Hst. exists (mkBoot 1 demo_time demo_time). split; vm_compute; reflexivity.
  - by intros st [_ ->]%Hst.
  - intros row existing Hin. by apply not_elem_of_nil in Hin.
Qed.

Lemma reboot_never_delivers_witness :
  @stranger foldHasher packedEvents demo_check demo_opaque demo_size (St_database (Agent_network (snd (snd demo_unheard)))) "node-1" "boot-2" /\
  db_events (St_database (Agent_network (snd (snd demo_unheard)))) = [] /\
  length (QS_Events (Queue_state (Agent_queue (snd (snd demo_unheard))))) = 1%nat.
Proof.
  destruct (@reboot_never_delivers foldHasher digestEd25519 packedEvents packedQueue demo_check demo_opaque demo_size noFailure noFailure noFailure noFailure
    demo_parse demo_issued demo_now demo_now "deployment-1" demo_authority eqs id demo_manifests false "node-1" demo_json demo_key
    (demo_builder "boot-2") demo_rebooted_agent (snd (snd demo_unheard))) as [Hst Hwedge].
  - apply demo_stranger.
  - by split.
  - apply rtc_once. unfold demo_unheard. eexists (fun _ => Ok [demo_heartbeat 2]), Background, 0%nat, _, _. by apply run_eta.
  - split; [exact Hst|]. split; [|vm_compute; reflexivity]. apply Hwedge. constructor.
Defined.

Lemma demo_sequence_step : @queue_step packedEvents packedQueue demo_empty demo_used.
Proof.
  eapply (qstep_sequence noFailure Background 0 (Ok 1) (fst (snd demo_given)) demo_empty demo_used); [|by left].
  assert (freshQueue demo_empty = demo_empty) as -> by reflexivity. unfold demo_used, demo_given. apply run_eta. vm_compute. reflexivity.
Qed.

Lemma queue_bounded_witness : len (QS_Events (Queue_state demo_reopened)) <= maximumQueueEvents /\ 0 <= QS_LastSequence (Queue_state demo_reopened) < 2 ^ 64.
Proof.
  apply (@queue_bounded packedEvents packedQueue demo_empty demo_reopened demo_empty_keeps).
  eapply rtc_l; [apply demo_sequence_step|]. eapply rtc_l; [apply demo_restart|apply rtc_refl].
Defined.

(** * Retention: concrete runs

    An encoding for which the laws of [RetentionCodec] hold, and a log of one
    event that every projection has passed: the witnesses of the theorems of
    RetentionFacts.v. *)

(** ** An encoding *)

Definition textOf (p : positive) : string := base64url (posPack p).
Definition ofText (s : string) : option positive := posUnpack <$> base64url_decode s.

Lemma ofText_textOf p : ofText (textOf p) = Some p.
Proof. destruct (posPack_spec p) as [Hu Hb]. unfold ofText, textOf. rewrite base64url_roundtrip by done. simpl. by rewrite Hu. Qed.

#[local] Instance rule_eq_dec : EqDecision retentionRuleRecord.
Proof. solve_decision. Defined.
#[local] Instance rule_flat : Countable retentionRuleRecord.
Proof.
  refine (inj_countable' (fun r => (RuleRecord_Value r, RuleRecord_Before r)) (fun p => mkRuleRecord (fst p) (snd p)) _). by intros [].
Defined.
#[local] Instance policyRecord_eq_dec : EqDecision retentionPolicyRecord.
Proof. solve_decision. Defined.
#[local] Instance policyRecord_flat : Countable retentionPolicyRecord.
Proof.
  refine (inj_countable' (fun p => (PolicyRecord_DefaultBefore p, PolicyRecord_ByClassification p, PolicyRecord_BySensitivity p))
    (fun p => mkPolicyRecord (fst (fst p)) (snd (fst p)) (snd p)) _). by intros [].
Defined.

Definition packedRetention : RetentionCodec.
Proof.
  refine {| retentionTime := fun t => textOf (encode t); parseRetentionTime := fun s => p ← ofText s; decode p;
            policyRecordMarshal := fun p => textOf (encode p); policyRecordUnmarshal := fun s => p ← ofText s; decode p |}.
  - intros t. apply base64_text, posPack_spec.
  - intros t _. rewrite ofText_textOf. simpl. by rewrite decode_encode.
  - intros p _. rewrite ofText_textOf. simpl. by rewrite decode_encode.
Defined.

(** ** A log of one event *)

Definition ret_new : retentionDB := mkRetentionDB [] 0 0 EmptyString demo_db.
Definition ret_append := demo_append (0%nat, rt_core ret_new).
Definition ret_logged : retentionDB := setLog (snd (snd ret_append)) ret_new.
Definition ret_cursor := SetProjectionCursor noFailure "topology" (mkProjection 0 zeroTime (Event_ID demo_event) demo_time) (0%nat, rt_core ret_logged).
Definition ret_ready : retentionDB := setLog (snd (snd ret_cursor)) ret_logged.
Definition ret_policy : RetentionPolicy := mkRetentionPolicy Hour {[ "DETECTED"%string := Minute ]} ∅.
Definition ret_cutoffs : EventRetentionCutoffs := cutoffsAt ret_policy (demo_time + 30 * Minute).
Definition ret_wall : clockT := fun _ => demo_time + 30 * Minute.
Abbreviation ret_prune := (@PruneEventsWithCutoffs foldHasher packedRetention noFailure ret_wall ret_cutoffs ["topology"%string] 500).
Definition ret_pass := ret_prune (0%nat, ret_ready).
Definition ret_pruned : retentionDB := snd (snd ret_pass).

(** The override of the class makes the event due before the default does;
    the pass deletes it and leaves one tombstone, and the next pass nothing. *)
Lemma retention_runs :
  (Retention_Deleted ∘ fst <$> match fst ret_pass with Ok a => Some a | Err _ => None end) = Some 1 /\
  db_events (rt_core ret_pruned) = [] /\ length (rt_tombstones ret_pruned) = 1%nat /\
  (Retention_Deleted ∘ fst <$> match fst (ret_prune (0%nat, ret_pruned)) with Ok a => Some a | Err _ => None end) = Some 0.
Proof. split_and!; vm_compute; reflexivity. Qed.

Abbreviation ret_retained := (@retained foldHasher packedEvents packedRetention demo_check demo_opaque demo_size).

Lemma ret_ready_retained : ret_retained ret_ready [demo_received].
Proof.
  apply (retained_cursor _ _ _ noFailure "topology" (mkProjection 0 zeroTime (Event_ID demo_event) demo_time) 0 (fst ret_cursor) (fst (snd ret_cursor))
    ret_logged (snd (snd ret_cursor))); [|exact (run_eta ret_cursor _ eq_refl)].
  apply (retained_append _ _ _ noFailure 0 demo_received (Ok true) (fst (snd ret_append)) ret_new (snd (snd ret_append)) []); [apply retained_new|].
  apply run_eta. vm_compute. reflexivity.
Qed.

Lemma ret_years : forall m, fourDigitYear (ret_wall m).
Proof. intros m. unfold fourDigitYear, ret_wall. vm_compute. split; discriminate || reflexivity. Qed.

Lemma ret_pruned_retained : ret_retained ret_pruned [demo_received].
Proof.
  apply (retained_pass _ _ _ noFailure ret_wall ret_cutoffs ["topology"%string] 500 0 (fst ret_pass) (fst (snd ret_pass)) ret_ready ret_pruned);
    [apply ret_ready_retained|apply ret_years|unfold fourDigitYear; vm_compute; split; discriminate || reflexivity|exact (run_eta ret_pass _ eq_refl)].
Qed.

(** ** Witnesses *)



Lemma nothing_unaccounted_witness : exists n', @VerifyEventRetentionTombstones foldHasher packedRetention noFailure (0%nat, ret_pruned) = (Ok tt, (n', ret_pruned)).
Proof.
  apply (@nothing_unaccounted foldHasher packedEvents packedRetention demo_check demo_opaque demo_size ret_pruned [demo_received] ret_pruned_retained);
    [vm_compute; reflexivity|done].
Defined.

Definition ret_rows : list eventRow := Eval vm_compute in db_events (rt_core ret_ready).
Definition ret_receipts : list tombstone := Eval vm_compute in rt_tombstones ret_pruned.

(** The batch and its receipt, as the run above has them. *)
Lemma ret_values : ret_rows = db_events (rt_core ret_ready) /\ ret_receipts = rt_tombstones ret_pruned.
Proof. split; vm_compute; reflexivity. Qed.

Lemma ret_plain : Forall plainTombstone ret_receipts.
Proof. repeat constructor; vm_compute; first [discriminate|reflexivity]. Qed.

Lemma receipts_binding_witness : (Forall2 sameTombstone ret_receipts ret_receipts /\ map (map candidateOf) [ret_rows] = map (map candidateOf) [ret_rows]) \/
  (exists t1 t2, t1 ∈ ret_receipts /\ t2 ∈ ret_receipts /\ @collision foldHasher (tombBytes t1) (tombBytes t2)) \/
  (exists b1 b2, b1 ∈ [ret_rows] /\ b2 ∈ [ret_rows] /\ (@collision foldHasher (@batchBytes foldHasher (candidateOf <$> b1)) (@batchBytes foldHasher (candidateOf <$> b2)) \/
     exists r1 r2, r1 ∈ b1 /\ r2 ∈ b2 /\ @collision foldHasher (Row_envelope_proto r1) (Row_envelope_proto r2))).
Proof.
  assert (Forall2 (@receiptOf foldHasher) ret_receipts [ret_rows]) as Hreceipt.
  { constructor; [|constructor]. split_and!; vm_compute; first [discriminate|reflexivity|repeat constructor]. }
  assert (Forall (Forall (fun r => plainCandidate (candidateOf r))) [ret_rows]) as Hcandidates.
  { repeat constructor; vm_compute; first [discriminate|reflexivity]. }
  assert (exists head, @verifyChain foldHasher packedRetention 0 EmptyString ret_receipts = Ok head) as [head Hhead] by (eexists; vm_compute; reflexivity).
  exact (@receipts_binding foldHasher packedRetention ret_receipts ret_receipts head [ret_rows] [ret_rows]
    ret_plain ret_plain Hhead Hhead Hreceipt Hreceipt Hcandidates Hcandidates).
Defined.
