(* ===== verification/AuditChainFacts.v ===== *)
(** * The audit chain and its journal file: shared facts

    What the statements on the audit tables do; when a chain of entries
    verifies; the loop over pages is one pass over the table; the bytes of the
    journal of anchors, its lines and its torn tail. *)

From S2P Require Import Prelude Directory Sha256 Digest Library Contract JournalFile Plan Events EventStore EventQueue Gate AuditStore AuditService JournalFileFacts EventStoreFacts EventQueueFacts.
From stdpp Require Import base gmap list strings sorting.
From Stdlib Require Import ZArith Lia.

Open Scope Z_scope.

(** ** The tables *)

Section Tables.
Context {D : Type} (sqlFails : nat -> bool).

Lemma GetAuditHead_spec (t : coreTables D) :
  wp (GetAuditHead sqlFails) (fun r t' => t' = t /\ match r with
    | Ok head => aud_state (core_audit t) = Some head /\ head = headOf (aud_entries (core_audit t))
    | Err _ => True end) t.
Proof.
  unfold GetAuditHead. wp_step. apply wp_statement; [|done]. cbv [id]. do 4 wp_step.
  destruct (aud_state _) as [h|]; [|by apply wp_fail]. case_bool_decide as Hh; [|by apply wp_fail]. by apply wp_ret.
Qed.

Lemma GetAuditHead_total (t : coreTables D) : (forall n, sqlFails n = false) ->
  aud_state (core_audit t) = Some (headOf (aud_entries (core_audit t))) ->
  wp (GetAuditHead sqlFails) (fun r t' => t' = t /\ r = Ok (headOf (aud_entries (core_audit t)))) t.
Proof.
  intros Hf Hs n. unfold GetAuditHead, bindM, statement, getS. simpl. rewrite Hf. simpl. rewrite Hs. by rewrite bool_decide_eq_true_2.
Qed.

(** [t'] is [t] with the entry appended to the log, whatever the domain. *)
Record inserted (entry : AuditEntry) (t t' : coreTables D) : Prop := {
  ins_key : Audit_KeyID entry <> EmptyString;
  ins_range : 0 < aud_ordinal (core_audit t) + 1 <= 2 ^ 63 - 1;
  ins_head : exists h, aud_state (core_audit t) = Some h /\ Head_Hash h = Audit_PreviousHash entry /\
    core_audit t' = mkAuditTables (aud_entries (core_audit t) ++ [auditRow (aud_ordinal (core_audit t) + 1) entry])
      (aud_ordinal (core_audit t) + 1) (Some (mkHead (Head_Count h + 1) (aud_ordinal (core_audit t) + 1) (Audit_EntryHash entry)));
}.

Lemma insertAuditEntry_spec entry (t : coreTables D) :
  wp (insertAuditEntry sqlFails entry) (fun r t' => match r with
    | Ok _ => inserted entry t t' /\ core_domain t' = core_domain t
    | Err _ => True end) t.
Proof.
  unfold insertAuditEntry. destruct (eqs (Audit_KeyID entry) EmptyString) eqn:Hk; [by apply wp_fail|].
  do 3 wp_step. destruct (_ || _) eqn:Hd; [by apply wp_fail|]. apply orb_false in Hd as [_ Hmax%Z.ltb_ge].
  wp_step. apply wp_statement; [|done]. do 2 wp_step. apply wp_statement; [|done]. cbv [id]. wp_step.
  destruct (_ <=? 0) eqn:Hp; [by apply wp_fail|]. apply Z.leb_gt in Hp.
  wp_step. apply wp_statement; [|done]. do 2 wp_step. apply wp_statement; [|done]. cbv [id]. wp_step.
  destruct (negb _) eqn:Hu; [by apply wp_fail|]. apply negb_false_iff, Z.eqb_eq in Hu. apply wp_ret. split; [|done].
  unfold advancedRows in Hu. destruct (aud_state (core_audit t)) as [h|] eqn:Hs; [|done].
  destruct (eqs (Head_Hash h) _) eqn:Hh; [|done]. split.
  - by apply slen_nonempty.
  - lia.
  - exists h. split_and!; [done|by apply eqs_true|]. unfold setAudit, advanceAuditState, insertAuditRow. cbn. by rewrite Hs; simpl; rewrite Hh.
Qed.

(** What an audited mutation promises: the entry and the transition of the
    domain, in one transaction, or nothing. *)
Definition audited (transition : D -> D -> Prop) (mutation : AuditedMutation (D := D)) : Prop :=
  forall entry t, wp (mutation entry) (fun r t' => match r with
    | Ok _ => inserted entry t t' /\ transition (core_domain t) (core_domain t')
    | Err _ => t' = t end) t.

Lemma withAudit_audited begin commit (m : M D unit) (transition : D -> D -> Prop) :
  (forall d, wp m (fun r d' => match r with Ok _ => transition d d' | Err _ => True end) d) ->
  audited transition (withAudit sqlFails begin commit m).
Proof.
  intros Hm entry t. unfold withAudit. apply wp_transaction; [|done]. wp_step. apply wp_zoom.
  eapply wp_mono; [apply Hm|]. intros [[]|e] d' Hd; wp_step; [|done]. wp_step.
  eapply wp_mono; [apply insertAuditEntry_spec|]. intros [[]|e] t' Ht; wp_step; [|done]. apply wp_ret.
  destruct Ht as [[Hk Hr Hh] Hdom]. split; [|done]. split; [by split|]. by rewrite Hdom.
Qed.

Lemma AuditEntryMutation_audited : audited eq (AuditEntryMutation sqlFails).
Proof.
  intros entry t. unfold AuditEntryMutation, InsertAuditEntry. apply wp_transaction; [|done]. wp_step.
  eapply wp_mono; [apply insertAuditEntry_spec|]. intros [[]|e] t' Ht; wp_step; [|done]. apply wp_ret.
  destruct Ht as [Hi Hd]. split; [|done]. by split.
Qed.

End Tables.

(** ** The chain *)

Section Chain.
Context {H : Hasher} {E : Ed25519} {AC : AuditCodec}.

Abbreviation ring := (gmap string (list Z)).

(** An entry that verifies after one with the hash [previous] and the key
    [after]. *)
Definition goodEntry (keys : ring) (previous : string) (after : Z) (e : AuditEntry) : Prop :=
  after < Audit_Sequence e /\ Audit_PreviousHash e = previous /\ exists key b signature,
    keys !! Audit_KeyID e = Some key /\ entryJSON (payloadOf e) = Some b /\ Audit_EntryHash e = hexEncode (sum256 b) /\
    base64url_decode (Audit_Signature e) = Some signature /\ ed_verify key (sum256 b) signature = true.

Fixpoint goodChain (keys : ring) (previous : string) (after : Z) (es : list AuditEntry) : Prop :=
  match es with
  | [] => True
  | e :: rest => goodEntry keys previous after e /\ goodChain keys (Audit_EntryHash e) (Audit_Sequence e) rest
  end.

(** How the loop's variables move on, without the checks. *)
Definition chainNext (trusted : anchor) (st : chainState) (e : AuditEntry) : chainState :=
  let count := Chain_count st + 1 in
  mkChain (Audit_EntryHash e) (Audit_Sequence e) count
    (if Anchor_Count trusted <? count
     then Chain_recoveryAnchors st ++ [mkHead count (Audit_Sequence e) (Audit_EntryHash e)]
     else Chain_recoveryAnchors st)
    (if count =? Anchor_Count trusted
     then (Audit_Sequence e =? Anchor_Sequence trusted) && eqs (Audit_EntryHash e) (Anchor_HeadHash trusted)
     else Chain_prefixMatched st).

Lemma verifyEntry_spec service trusted st e st' :
  verifyEntry service trusted st e = Ok st' <->
  goodEntry (Service_keyring service) (Chain_previous st) (Chain_afterSequence st) e /\ st' = chainNext trusted st e.
Proof.
  unfold verifyEntry, goodEntry, hashEntry. split.
  - intros Hv. validated Hv. apply Z.leb_gt in Hv0. apply negb_false_iff, eqs_true in Hv1.
    destruct (Service_keyring service !! Audit_KeyID e) as [key|] eqn:Hk; [|done]. validated Hv. simplify_eq.
    destruct (entryJSON (payloadOf e)) as [b|] eqn:Hb; [|done]. simplify_eq. apply negb_false_iff, eqs_true in Hv3.
    apply negb_false_iff in Hv4. destruct (base64url_decode _) as [s|] eqn:Hs; [|done]. split; [|done]. split_and!; [done..|].
    by exists key, b, s.
  - intros [(Hs & Hp & key & b & signature & Hk & Hb & Hh & Hd & Hver) ->]. rewrite (proj2 (Z.leb_gt _ _)) by lia.
    rewrite Hp, eqs_refl, Hk, Hb. simpl. by rewrite <- Hh, eqs_refl, Hd, Hver.
Qed.

Lemma verifyEntries_spec service trusted es : forall st st',
  verifyEntries service trusted st es = Ok st' <->
  goodChain (Service_keyring service) (Chain_previous st) (Chain_afterSequence st) es /\ st' = foldl (chainNext trusted) st es.
Proof.
  induction es as [|e es IH]; intros st st'; simpl; [naive_solver|]. rewrite rbind_Ok. split.
  - intros (st1 & [Hg ->]%verifyEntry_spec & [Hr ->]%IH). done.
  - intros [[Hg Hr] ->]. exists (chainNext trusted st e). rewrite verifyEntry_spec, IH. done.
Qed.

Lemma verifyEntries_app service trusted es es' st :
  verifyEntries service trusted st (es ++ es') = rbind (verifyEntries service trusted st es) (fun st => verifyEntries service trusted st es').
Proof.
  revert st. induction es as [|e es IH]; intros st; simpl; [done|]. destruct (verifyEntry _ _ _ _); simpl; [apply IH|done].
Qed.

Lemma goodEntry_mono (keys keys' : ring) previous after e : keys ⊆ keys' -> goodEntry keys previous after e -> goodEntry keys' previous after e.
Proof. intros Hs (? & ? & key & b & s & Hk & ?). split_and!; [done..|]. exists key, b, s. split; [by eapply lookup_weaken|done]. Qed.

Lemma goodChain_mono (keys keys' : ring) es : keys ⊆ keys' -> forall previous after, goodChain keys previous after es -> goodChain keys' previous after es.
Proof. intros Hs. induction es as [|e es IH]; simpl; [done|]. intros p a [Hg Hr]. eauto using goodEntry_mono. Qed.

(** The hash and the key a chain ends with. *)
Definition endHash (previous : string) (es : list AuditEntry) : string := foldl (fun _ e => Audit_EntryHash e) previous es.
Definition endKey (after : Z) (es : list AuditEntry) : Z := foldl (fun _ e => Audit_Sequence e) after es.

Lemma goodChain_app (keys : ring) es es' : forall previous after,
  goodChain keys previous after (es ++ es') <->
  goodChain keys previous after es /\ goodChain keys (endHash previous es) (endKey after es) es'.
Proof. induction es as [|e es IH]; intros p a; simpl; [naive_solver|]. rewrite IH. naive_solver. Qed.

Lemma endHash_snoc p es e : endHash p (es ++ [e]) = Audit_EntryHash e.
Proof. unfold endHash. by rewrite foldl_snoc. Qed.

Lemma endKey_snoc a es e : endKey a (es ++ [e]) = Audit_Sequence e.
Proof. unfold endKey. by rewrite foldl_snoc. Qed.

Lemma headOf_end es : headOf es = mkHead (len es) (endKey 0 es) (endHash EmptyString es).
Proof.
  unfold headOf. destruct es as [|e es _] using rev_ind; [done|]. by rewrite last_snoc, endKey_snoc, endHash_snoc.
Qed.

(** Keys grow along a chain, so there are at least as many as entries. *)
Lemma goodChain_keys (keys : ring) es : forall previous after, goodChain keys previous after es ->
  after + len es <= endKey after es /\ Forall (fun e => after < Audit_Sequence e <= endKey after es) es.
Proof.
  unfold len. induction es as [|e es IH]; intros p a; simpl; [split; [lia|constructor]|].
  intros [(Hs & _) Hr]. destruct (IH _ _ Hr) as [Hl Hf]. split; [lia|]. constructor; [lia|].
  eapply Forall_impl; [exact Hf|]. simpl. lia.
Qed.

(** *** Pages *)

Definition keyOrder (es : list AuditEntry) : Prop := StronglySorted (fun a b => Audit_Sequence a < Audit_Sequence b) es.

Lemma goodChain_order (keys : ring) es : forall previous after, goodChain keys previous after es -> keyOrder es.
Proof.
  induction es as [|e es IH]; intros p a; [constructor|]. intros [_ Hr]. constructor; [by eapply IH|].
  destruct (goodChain_keys _ _ _ _ Hr) as [_ Hf]. eapply Forall_impl; [exact Hf|]. simpl. lia.
Qed.

Abbreviation after k := (List.filter (fun r => k <? Audit_Sequence r)).

Lemma endKey_le k es : Forall (fun x => k < Audit_Sequence x) es -> k <= endKey k es.
Proof.
  destruct es as [|x l _] using rev_ind; [done|]. intros [_ Hx%Forall_inv]%Forall_app. rewrite endKey_snoc. simpl in Hx. lia.
Qed.

Lemma after_all k es : Forall (fun x => k < Audit_Sequence x) es -> after k es = es.
Proof. induction 1 as [|x l Hx Hl IH]; simpl; [done|]. rewrite (proj2 (Z.ltb_lt _ _)) by lia. by f_equal. Qed.

Lemma after_forall k es : Forall (fun x => k < Audit_Sequence x) (after k es).
Proof. induction es as [|x l IH]; simpl; [constructor|]. destruct (k <? _) eqn:Hk; [|done]. constructor; [by apply Z.ltb_lt|done]. Qed.

(** The rows behind the last one of a page are the rest of the table. *)
Lemma after_page es : keyOrder es -> forall k page rest, after k es = page ++ rest -> after (endKey k page) es = rest.
Proof.
  induction 1 as [|e es Hs IH Hf]; intros k page rest; simpl.
  { intros Hn. symmetry in Hn. by apply app_nil in Hn as [-> ->]. }
  assert (Hall : forall j, j <= Audit_Sequence e -> after j es = es).
  { intros j Hj. apply after_all. eapply Forall_impl; [exact Hf|]. simpl. lia. }
  destruct (k <? Audit_Sequence e) eqn:Hk.
  - destruct page as [|e' page]; simpl; [intros <-; by rewrite Hk|]. intros [= <- Hp].
    apply Z.ltb_lt in Hk. rewrite Hall in Hp by lia. fold (endKey (Audit_Sequence e) page).
    assert (Audit_Sequence e <= endKey (Audit_Sequence e) page) as Hle.
    { apply endKey_le. rewrite Hp in Hf. by apply Forall_app in Hf as [? _]. }
    rewrite (proj2 (Z.ltb_ge _ _)) by lia. apply IH. by rewrite Hall by lia.
  - apply Z.ltb_ge in Hk. intros Hp. rewrite (proj2 (Z.ltb_ge _ _)); [by apply IH|].
    pose proof (after_forall k es) as Ha. rewrite Hp in Ha. apply Forall_app in Ha as [Ha _]. apply endKey_le in Ha. lia.
Qed.

Context {D : Type} (sqlFails : nat -> bool).

Lemma ListAuditEntriesAfter_spec k (t : coreTables D) :
  wp (ListAuditEntriesAfter sqlFails k auditVerificationPageSize) (fun r t' => t' = t /\ match r with
    | Ok page => page = take 100 (after k (aud_entries (core_audit t)))
    | Err e => e = ErrListAuditEntries /\ exists n, sqlFails n = true end) t.
Proof.
  intros n. unfold ListAuditEntriesAfter, bindM, statement, getS, retM. simpl. destruct (sqlFails n) eqn:Hn; [|done]. simpl. eauto.
Qed.

(** The loop is one pass over the rows it has not seen; it stops early only
    when a statement fails. *)
Lemma verifyPages_spec service trusted fuel : forall st (w : auditWorld D),
  keyOrder (aud_entries (core_audit (aw_tables w))) ->
  (length (after (Chain_afterSequence st) (aud_entries (core_audit (aw_tables w)))) < fuel)%nat ->
  wp (verifyPages sqlFails fuel service trusted st) (fun r w' => w' = w /\
    (r = verifyEntries service trusted st (after (Chain_afterSequence st) (aud_entries (core_audit (aw_tables w)))) \/
     (r = Err ErrListAuditEntries /\ exists n, sqlFails n = true))) w.
Proof.
  induction fuel as [|fuel IH]; intros st w Hord Hfuel; [lia|]. cbn [verifyPages].
  set (es := aud_entries (core_audit (aw_tables w))) in *. wp_step. apply wp_zoom.
  eapply wp_mono; [apply ListAuditEntriesAfter_spec|]. intros [page|e] t' [-> Hr]; wp_step.
  2: { destruct Hr as [-> Hr]. split; [by destruct w|by right]. }
  replace (setTables (aw_tables w) w) with w by by destruct w. subst page.
  set (rest := after (Chain_afterSequence st) es) in *.
  destruct (len _ =? 0) eqn:Hl; unfold len in Hl; rewrite length_take in Hl; fold es in Hl; fold rest in Hl.
  { apply wp_ret. split; [done|]. left. apply Z.eqb_eq in Hl. assert (rest = []) as -> by (apply nil_length_inv; lia). done. }
  assert (verifyEntries service trusted st rest =
    rbind (verifyEntries service trusted st (take 100 rest)) (fun st => verifyEntries service trusted st (drop 100 rest))) as Hsplit.
  { by rewrite <- verifyEntries_app, take_drop. }
  wp_step. wp_step. fold es. fold rest. rewrite Hsplit.
  destruct (verifyEntries _ _ _ (take 100 rest)) as [st1|e] eqn:Hv; wp_step; [|split; [done|by left]].
  apply verifyEntries_spec in Hv as [_ Hst]. assert (Chain_afterSequence st1 = endKey (Chain_afterSequence st) (take 100 rest)) as Hend.
  { rewrite Hst. clear. generalize (take 100 rest). intros l. destruct l as [|x l _] using rev_ind; [done|].
    by rewrite foldl_snoc, endKey_snoc. }
  assert (after (Chain_afterSequence st1) es = drop 100 rest) as Hdrop.
  { rewrite Hend. apply after_page; [done|]. by rewrite take_drop. }
  eapply wp_mono; [apply IH; [done|]|].
  - fold es. rewrite Hdrop, length_drop. apply Z.eqb_neq in Hl. lia.
  - simpl. fold es. rewrite Hdrop. done.
Qed.

End Chain.

(** ** The bytes of the journal: complete lines and a tail without newline *)

Definition journalBytes (ls : list (list Z)) (tail : list Z) : list Z := concat (map (fun l => l ++ [newline]) ls) ++ tail.

Definition oneLine (l : list Z) : Prop := newline ∉ l.

Lemma journalBytes_cons l ls tail : journalBytes (l :: ls) tail = l ++ newline :: journalBytes ls tail.
Proof. unfold journalBytes. simpl. by rewrite <- !app_assoc. Qed.

Lemma journalBytes_snoc ls l tail : journalBytes (ls ++ [l]) tail = journalBytes ls [] ++ l ++ newline :: tail.
Proof. induction ls as [|x ls IH]; [unfold journalBytes; simpl; by rewrite <- !app_assoc|]. rewrite <- app_comm_cons, !journalBytes_cons, IH. by rewrite <- app_assoc. Qed.

Lemma journalBytes_tail ls tail : journalBytes ls tail = journalBytes ls [] ++ tail.
Proof. unfold journalBytes. by rewrite app_nil_r. Qed.

Lemma split_line l rest : oneLine l -> splitByte newline (l ++ newline :: rest) = l :: splitByte newline rest.
Proof.
  unfold oneLine. induction l as [|x l IH]; intros Hl; simpl; [done|].
  apply not_elem_of_cons in Hl as [Hx Hl]. rewrite (proj2 (Z.eqb_neq _ _)) by done. by rewrite IH.
Qed.

Lemma split_last l : oneLine l -> splitByte newline l = [l].
Proof.
  unfold oneLine. induction l as [|x l IH]; intros Hl; simpl; [done|].
  apply not_elem_of_cons in Hl as [Hx Hl]. rewrite (proj2 (Z.eqb_neq _ _)) by done. by rewrite IH.
Qed.

Lemma journal_nonempty (ls : list (list Z)) : ls <> [] -> exists ls0 l, ls = ls0 ++ [l].
Proof. destruct ls as [|l ls _] using rev_ind; [done|]. eauto. Qed.

(** The lines are read back. *)
Lemma split_journal ls : Forall oneLine ls -> ls <> [] -> splitByte newline (trimSuffixByte newline (journalBytes ls [])) = ls.
Proof.
  intros Hls (ls0 & l & ->)%journal_nonempty. rewrite journalBytes_snoc. unfold trimSuffixByte.
  rewrite (app_assoc _ l [newline]), last_snoc, bool_decide_eq_true_2 by done. rewrite length_app. simpl.
  rewrite Nat.add_sub, take_app_length. apply Forall_app in Hls as [H0 Hl%Forall_inv]. induction H0 as [|x ls0 Hx H0 IH]; simpl.
  { by rewrite split_last. }
  rewrite journalBytes_cons, <- app_assoc. simpl. by rewrite split_line, IH.
Qed.

Lemma last_journal ls tail : oneLine tail -> ls <> [] -> last (journalBytes ls tail) = Some newline <-> tail = [].
Proof.
  intros Ht (ls0 & l & ->)%journal_nonempty. rewrite journalBytes_snoc. destruct tail as [|x r _] using rev_ind.
  { split; [done|]. intros _. by rewrite app_assoc, last_snoc. }
  rewrite (app_comm_cons r), !app_assoc, last_snoc. split; [|intros Hn; by apply app_nil in Hn as []].
  intros [= ->]. exfalso. apply Ht, elem_of_app. right. apply list_elem_of_here.
Qed.

Lemma lastIndex_none l : oneLine l -> lastIndexByte newline l = None.
Proof.
  unfold oneLine. induction l as [|x l IH]; intros Hl; simpl; [done|]. apply not_elem_of_cons in Hl as [Hx Hl].
  rewrite IH by done. by rewrite (proj2 (Z.eqb_neq _ _)).
Qed.

Lemma lastIndex_app l r : oneLine r -> lastIndexByte newline (l ++ newline :: r) = Some (length l).
Proof. intros Hr. induction l as [|x l IH]; simpl; [by rewrite lastIndex_none by done|]. by rewrite IH. Qed.

(** The tail starts right behind the last newline. *)
Lemma lastIndex_journal ls tail : oneLine tail -> ls <> [] ->
  exists i, lastIndexByte newline (journalBytes ls tail) = Some i /\ (i + 1)%nat = length (journalBytes ls []).
Proof.
  intros Ht (ls0 & l & ->)%journal_nonempty. rewrite !journalBytes_snoc, !app_assoc. exists (length (journalBytes ls0 [] ++ l)).
  split; [by apply lastIndex_app|]. rewrite !length_app. simpl. lia.
Qed.

(** A prefix of a journal is a journal: fewer lines, and a tail. *)
Lemma journal_prefix ls tail p : Forall oneLine ls -> oneLine tail -> p `prefix_of` journalBytes ls tail ->
  exists ls' tail', p = journalBytes ls' tail' /\ ls' `prefix_of` ls /\ oneLine tail'.
Proof.
  intros Hls Ht. revert p. induction Hls as [|l ls Hl Hls IH]; intros p Hp.
  { exists [], p. split_and!; [done..|]. destruct Hp as [k Hk]. unfold oneLine, journalBytes in *. simpl in Hk. set_solver. }
  rewrite journalBytes_cons in Hp. destruct (decide (length p <= length l)%nat) as [Hle|Hlt].
  - exists [], p. split_and!; [done|apply prefix_nil|]. unfold oneLine in *. destruct Hp as [k Hk].
    assert (p = take (length p) l) as ->.
    { rewrite <- (take_app_le l (newline :: journalBytes ls tail)) by lia. rewrite Hk. by rewrite take_app_length. }
    intros Hin. apply Hl. apply elem_of_take in Hin as (i & Hi & _). by eapply list_elem_of_lookup_2.
  - destruct Hp as [k Hk]. assert (take (length l) p = l) as Htake.
    { rewrite <- (take_app_le p k) by lia. rewrite <- Hk. by rewrite take_app_length. }
    rewrite <- (take_drop (length l) p), Htake in Hk |- *. rewrite <- app_assoc in Hk. apply app_inv_head in Hk.
    destruct (drop (length l) p) as [|x p'] eqn:Hd.
    { apply (f_equal length) in Hd. rewrite length_drop in Hd. simpl in Hd. lia. }
    injection Hk as <- Hk. destruct (IH p') as (ls' & tail' & -> & Hpre & Hone); [by exists k|].
    exists (l :: ls'), tail'. split_and!; [by rewrite journalBytes_cons|by apply prefix_cons|done].
Qed.
