(* ===== verification/AuditFacts.v ===== *)
(** * The audit service: theorems

    The journal of anchors never runs ahead of the chain and never loses its
    genesis, whatever calls fail and whenever the power is lost; from every
    such state a verification in which nothing fails brings the journal up to
    the head of the chain. A mutation and its entry commit together or not at
    all. What verifies against an anchor is the chain that was anchored, or
    the hash collides. *)

From S2P Require Import Prelude Directory Sha256 Digest Library Contract JournalFile Plan Events EventStore EventQueue Gate AuditStore AuditService DirectoryFacts JournalFileFacts EventStoreFacts GateFacts AuditChainFacts.
From stdpp Require Import base gmap list strings sorting.
From Stdlib Require Import ZArith Lia.

Open Scope Z_scope.

(** Ed25519 signatures are 64 bytes. *)
Class SignatureBytes {E : Ed25519} : Prop := {
  ed_sign_length : forall key message, ed_key key -> len (ed_sign key message) = SignatureSize;
  ed_sign_bytes : forall key message, ed_key key -> Forall is_byte (ed_sign key message);
}.

Section Anchors.
Context {H : Hasher} {E : Ed25519} {AC : AuditCodec}.

Abbreviation ring := (gmap string (list Z)).

(** ** Anchors and the heads they name *)

Definition goodAnchor (keys : ring) (a : anchor) : Prop :=
  Anchor_Version a = anchorVersion /\ exists key signature, keys !! Anchor_KeyID a = Some key /\
    base64url_decode (Anchor_Signature a) = Some signature /\ len signature = SignatureSize /\
    ed_verify key (anchorDigest a) signature = true.

Lemma verifyAnchor_spec service a : verifyAnchor service a = Ok tt <-> goodAnchor (Service_keyring service) a.
Proof.
  unfold verifyAnchor, goodAnchor. split.
  - intros Hv. validated Hv. apply negb_false_iff, eqs_true in Hv0. split; [done|].
    destruct (Service_keyring service !! _) as [key|]; [|done]. destruct (base64url_decode _) as [s|]; [|done].
    validated Hv. apply negb_false_iff in Hv1, Hv2. exists key, s. split_and!; try done. by apply Z.eqb_eq.
  - intros (Hv & key & s & Hk & Hs & Hl & Hver). by rewrite Hv, eqs_refl, Hk, Hs, Hl, Hver.
Qed.

Lemma anchorMatchesHead_spec a h : anchorMatchesHead a h = true <->
  Anchor_Count a = Head_Count h /\ Anchor_Sequence a = Head_Sequence h /\ Anchor_HeadHash a = Head_Hash h.
Proof. unfold anchorMatchesHead. rewrite !andb_true_iff, !Z.eqb_eq, eqs_true. tauto. Qed.

(** The line anchors the first [i] entries. *)
Definition anchors (keys : ring) (es : list AuditEntry) (i : nat) (l : list Z) : Prop :=
  exists a, anchorUnmarshal l = Some a /\ goodAnchor keys a /\ anchorMatchesHead a (headOf (take i es)) = true.

(** One more entry: the count goes up by one, the key grows, the hash is not
    empty. *)
Lemma head_step keys es j : goodChain keys EmptyString 0 es -> (S j <= length es)%nat ->
  Head_Count (headOf (take (S j) es)) = Head_Count (headOf (take j es)) + 1 /\
  Head_Sequence (headOf (take j es)) < Head_Sequence (headOf (take (S j) es)) /\
  Head_Hash (headOf (take (S j) es)) <> EmptyString.
Proof.
  intros Hg Hj. destruct (lookup_lt_is_Some_2 es j) as [e He]; [lia|]. rewrite (take_S_r _ _ _ He).
  rewrite <- (take_drop_middle es j e He) in Hg. apply goodChain_app in Hg as [_ [(Hs & _ & key & b & s & _ & _ & Hh & _) _]].
  rewrite !headOf_end. simpl. rewrite endKey_snoc, endHash_snoc. split_and!; [unfold len; rewrite length_app; simpl; lia|done|].
  rewrite Hh. intros He'. apply (f_equal String.length) in He'. rewrite hexEncode_length, sum256_length in He'. done.
Qed.

(** The lines of a journal load, and the last one is what they give. *)
Lemma loadLines_spec service es ls : goodChain (Service_keyring service) EmptyString 0 es -> forall k current,
  (forall i l, ls !! i = Some l -> anchors (Service_keyring service) es (k + i) l) -> (k + length ls <= S (length es))%nat ->
  match current with None => k = 0%nat | Some a => exists j, k = S j /\ anchorMatchesHead a (headOf (take j es)) = true end ->
  exists current', loadLines service current ls = Ok current' /\
    match current' with None => k = 0%nat /\ ls = [] | Some a => exists j, (k + length ls)%nat = S j /\ anchorMatchesHead a (headOf (take j es)) = true end.
Proof.
  intros Hg. induction ls as [|l ls IH]; intros k current Hls Hlen Hc; simpl.
  { exists current. split; [done|]. destruct current as [a|]; [|done]. destruct Hc as (j & -> & Hm). exists j. split; [simpl; lia|done]. }
  destruct (Hls 0%nat l eq_refl) as (a & Ha & Hga & Hm). rewrite Nat.add_0_r in Hm.
  assert (loadLine service current l = Ok a) as ->.
  { unfold loadLine. rewrite Ha, (proj2 (verifyAnchor_spec _ _) Hga). cbn [rbind]. apply anchorMatchesHead_spec in Hm as (Hc1 & Hc2 & Hc3).
    destruct current as [cur|].
    - destruct Hc as (j & -> & (Hj1 & Hj2 & Hj3)%anchorMatchesHead_spec). simpl in Hlen.
      destruct (head_step _ es j Hg) as (Hn1 & Hn2 & Hn3); [lia|]. rewrite Hc1, Hc2, Hc3, Hn1, Hj1, Hj2, Z.eqb_refl. simpl.
      rewrite (proj2 (Z.leb_gt _ _)) by lia. by apply slen_nonempty in Hn3 as ->.
    - subst k. simpl in Hc1, Hc2, Hc3. by rewrite Hc1, Hc2, Hc3. }
  cbn [rbind]. destruct (IH (S k) (Some a)) as (current' & Hl & Hcur).
  - intros i l' Hi. replace (S k + i)%nat with (k + S i)%nat by lia. by apply Hls.
  - simpl in Hlen. lia.
  - exists k. done.
  - exists current'. split; [done|]. destruct current' as [a'|]; [|naive_solver]. destruct Hcur as (j & Hj & ?). exists j. split; [simpl; lia|done].
Qed.

(** ** The journal file *)

(** Complete lines that anchor the beginnings of the chain, in order. *)
Definition complete (keys : ring) (es : list AuditEntry) (ls : list (list Z)) : Prop :=
  Forall oneLine ls /\ (length ls <= S (length es))%nat /\ forall i l, ls !! i = Some l -> anchors keys es i l.

(** A journal with the first line [g], maybe with a torn tail. *)
Definition journalFor (keys : ring) (es : list AuditEntry) (g c : list Z) : Prop :=
  exists ls tail, c = journalBytes (g :: ls) tail /\ complete keys es (g :: ls) /\ oneLine tail.

Definition fileOK (keys : ring) (es : list AuditEntry) (f : anchorFile) : Prop :=
  exists g c d, file_content f = Some c /\ file_durable f = Some d /\ journalFor keys es g c /\ journalFor keys es g d.

Lemma complete_prefix keys es ls ls' : complete keys es ls -> ls' `prefix_of` ls -> complete keys es ls'.
Proof.
  intros (Ho & Hl & Ha) [k ->]. rewrite length_app in Hl. apply Forall_app in Ho as [Ho _]. split_and!; [done|lia|].
  intros i l Hi. apply Ha. by apply lookup_app_l_Some.
Qed.

Lemma anchors_mono keys keys' es i l : keys ⊆ keys' -> anchors keys es i l -> anchors keys' es i l.
Proof.
  intros Hs (a & Ha & (Hv & key & s & Hk & Hr) & Hm). exists a. split_and!; [done| |done]. split; [done|].
  exists key, s. split; [by eapply lookup_weaken|done].
Qed.

Lemma anchors_app keys es es' i l : (i <= length es)%nat -> anchors keys es i l -> anchors keys (es ++ es') i l.
Proof. intros Hi (a & Ha & Hg & Hm). exists a. by rewrite take_app_le by lia. Qed.

Lemma complete_mono keys keys' es es' ls : keys ⊆ keys' -> complete keys es ls -> complete keys' (es ++ es') ls.
Proof.
  intros Hs (Ho & Hl & Ha). split_and!; [done|rewrite length_app; lia|]. intros i l Hi. apply anchors_app.
  - apply lookup_lt_Some in Hi. lia.
  - eapply anchors_mono; [done|]. by apply Ha.
Qed.

Lemma fileOK_mono keys keys' es es' f : keys ⊆ keys' -> fileOK keys es f -> fileOK keys' (es ++ es') f.
Proof.
  intros Hs (g & c & d & Hc & Hd & (ls & t & -> & Hls & Ht) & (ls' & t' & -> & Hls' & Ht')).
  exists g, (journalBytes (g :: ls) t), (journalBytes (g :: ls') t'). split_and!; [done..|by exists ls, t; eauto using complete_mono|by exists ls', t'; eauto using complete_mono].
Qed.

(** A power loss leaves a journal with the same first line. *)
Lemma fileOK_powerloss keys es f image mode : fileOK keys es f -> mayLeave f image -> fileOK keys es (mkAnchorFile image image mode).
Proof.
  intros (g & c & d & Hc & Hd & Hjc & Hjd). unfold mayLeave. rewrite Hc, Hd. intros (p & -> & Hp & Hcommon).
  assert (forall x, journalFor keys es g x -> (g ++ [newline]) `prefix_of` x) as Hgen.
  { intros x (ls & t & -> & _). rewrite journalBytes_cons. exists (journalBytes ls t). by rewrite <- app_assoc. }
  assert (exists x, journalFor keys es g x /\ p `prefix_of` x) as (x & (ls & t & -> & Hls & Ht) & Hpx) by naive_solver.
  exists g, p, p. assert (journalFor keys es g p); [|done].
  destruct (journal_prefix (g :: ls) t p) as (ls' & t' & -> & Hpre & Ht'); [apply Hls|done..|].
  specialize (Hcommon (g ++ [newline]) (Hgen _ Hjc) (Hgen _ Hjd)).
  destruct ls' as [|g' ls'].
  { destruct Hcommon as [k Hk]. exfalso. apply Ht'. unfold journalBytes in Hk. simpl in Hk. rewrite Hk. set_solver. }
  pose proof (prefix_cons_inv_1 _ _ _ _ Hpre) as ->. exists ls', t'. split_and!; [done|by eapply complete_prefix|done].
Qed.

End Anchors.

(** ** What verification computes *)

Section Heads.
Context {H : Hasher} {E : Ed25519} {AC : AuditCodec}.

(** The heads behind the first [k] entries. *)
Definition headsAfter (k : nat) (es : list AuditEntry) : list AuditHead :=
  map (fun i => headOf (take i es)) (seq (S k) (length es - k)).

Lemma headsAfter_snoc k es e : headsAfter k (es ++ [e]) =
  if bool_decide (k <= length es)%nat then headsAfter k es ++ [headOf (es ++ [e])] else [].
Proof.
  unfold headsAfter. rewrite length_app. simpl. case_bool_decide as Hk.
  - replace (length es + 1 - k)%nat with (length es - k + 1)%nat by lia. rewrite seq_app, map_app. simpl. f_equal.
    + apply map_ext_in. intros i Hi%in_seq. by rewrite take_app_le by lia.
    + by rewrite take_ge by (rewrite length_app; simpl; lia).
  - by replace (length es + 1 - k)%nat with 0%nat by lia.
Qed.

(** The loop's variables after the whole chain. *)
Lemma chain_fold trusted es : 0 <= Anchor_Count trusted ->
  exists matched, foldl (chainNext trusted) (startChain trusted) es =
    mkChain (endHash EmptyString es) (endKey 0 es) (len es) (headsAfter (Z.to_nat (Anchor_Count trusted)) es) matched /\
    (Anchor_Count trusted <= len es -> matched = anchorMatchesHead trusted (headOf (take (Z.to_nat (Anchor_Count trusted)) es))) /\
    (len es < Anchor_Count trusted -> matched = false).
Proof.
  intros Hc. set (k := Z.to_nat (Anchor_Count trusted)). assert (Z.of_nat k = Anchor_Count trusted) as Hk0 by (unfold k; lia). clearbody k. induction es as [|e es IH] using rev_ind.
  { simpl. eexists. split; [reflexivity|]. unfold len. simpl. split.
    - intros Hk. by rewrite take_nil.
    - intros Hk. by rewrite (proj2 (Z.eqb_neq _ _)) by lia. }
  destruct IH as (m & Hf & Hm1 & Hm2). rewrite foldl_snoc, Hf. unfold chainNext. cbn [Chain_count Chain_recoveryAnchors Chain_prefixMatched].
  eexists. rewrite endHash_snoc, endKey_snoc, headsAfter_snoc. unfold len in *. rewrite length_app. simpl.
  replace (Z.of_nat (length es + 1)) with (Z.of_nat (length es) + 1) by lia. split; [|split].
  - f_equal. case_bool_decide as Hk.
    + rewrite (proj2 (Z.ltb_lt _ _)) by lia. do 2 f_equal. rewrite headOf_end, endHash_snoc, endKey_snoc. f_equal. unfold len. rewrite length_app. simpl. lia.
    + rewrite (proj2 (Z.ltb_ge _ _)) by lia. unfold headsAfter. by replace (length es - k)%nat with 0%nat by lia.
  - intros Hle. destruct (_ =? _) eqn:Heq.
    + apply Z.eqb_eq in Heq. rewrite take_ge by (rewrite length_app; simpl; lia). rewrite headOf_end, endHash_snoc, endKey_snoc.
      unfold anchorMatchesHead, len. rewrite length_app. simpl. rewrite (proj2 (Z.eqb_eq (Anchor_Count trusted) _)) by lia.
      simpl. rewrite (Z.eqb_sym (Anchor_Sequence trusted)). f_equal. unfold eqs. by apply bool_decide_ext.
    + apply Z.eqb_neq in Heq. rewrite take_app_le by lia. apply Hm1. lia.
  - intros Hlt. rewrite (proj2 (Z.eqb_neq _ _)) by lia. apply Hm2. lia.
Qed.

Lemma head_ascii keys es i : goodChain keys EmptyString 0 es -> ascii (Head_Hash (headOf (take i es))).
Proof.
  rewrite <- (take_drop i es) at 1. intros [Hg _]%goodChain_app. rewrite headOf_end. simpl.
  destruct (take i es) as [|e l _] using rev_ind; [by apply Forall_nil|]. rewrite endHash_snoc.
  apply goodChain_app in Hg as [_ [(_ & _ & key & b & s & _ & _ & -> & _) _]].
  pose proof (hexEncode_chars (sum256 b) (sum256_bytes b)) as Hc. apply all_chars_forall in Hc. eapply Forall_impl; [exact Hc|].
  intros x. unfold hex_char. simpl. lia.
Qed.

Lemma head_range keys es i : goodChain keys EmptyString 0 es -> endKey 0 es <= 2 ^ 63 - 1 ->
  u64 (Head_Count (headOf (take i es))) /\ u64 (Head_Sequence (headOf (take i es))).
Proof.
  intros Hg Hmax. rewrite <- (take_drop i es) in Hg. apply goodChain_app in Hg as [Hg Hr].
  apply goodChain_keys in Hg as [Hl _]. apply goodChain_keys in Hr as [Hl' _]. rewrite headOf_end. unfold u64. simpl.
  assert (endKey 0 es = endKey (endKey 0 (take i es)) (drop i es)) as He.
  { rewrite <- (take_drop i es) at 1. unfold endKey. by rewrite foldl_app. }
  unfold len in *. lia.
Qed.

End Heads.

(** ** The service *)

Section Service.
Context {H : Hasher} {E : Ed25519} {AC : AuditCodec} {SB : SignatureBytes}.
Context {D : Type}.

Abbreviation ring := (gmap string (list Z)).
Abbreviation entriesOf w := (aud_entries (core_audit (aw_tables w))).

(** A service that can sign, and knows every key in use. *)
Record serviceOK (keys : ring) (s : Service) : Prop := {
  so_key : ed_key (Service_privateKey s);
  so_id : ascii (Service_keyID s) /\ Service_keyID s <> EmptyString;
  so_ring : Service_keyring s !! Service_keyID s = Some (Public (Service_privateKey s));
  so_keys : keys ⊆ Service_keyring s;
}.

(** The chain verifies, the counters agree with it, and the journal anchors
    beginnings of it. *)
Record auditInv (keys : ring) (w : auditWorld D) : Prop := {
  ai_chain : goodChain keys EmptyString 0 (entriesOf w);
  ai_ordinal : endKey 0 (entriesOf w) <= aud_ordinal (core_audit (aw_tables w)) <= 2 ^ 63 - 1;
  ai_state : aud_state (core_audit (aw_tables w)) = Some (headOf (entriesOf w));
  ai_file : fileOK keys (entriesOf w) (aw_file w);
}.

(** A file whose content is exactly these lines. *)
Definition fileAt (keys : ring) (es : list AuditEntry) (ls : list (list Z)) (f : anchorFile) : Prop :=
  exists g ls0 d, ls = g :: ls0 /\ file_content f = Some (journalBytes ls []) /\ complete keys es ls /\
    file_durable f = Some d /\ journalFor keys es g d.

Lemma fileAt_OK keys es ls f : fileAt keys es ls f -> fileOK keys es f.
Proof.
  intros (g & ls0 & d & -> & Hc & Hls & Hd & Hj). exists g, (journalBytes (g :: ls0) []), d. split_and!; [done..| |done].
  exists ls0, []. split_and!; [done..|]. apply not_elem_of_nil.
Qed.

Section Environment.
Context (sqlFails sysFails : nat -> bool) (torn : nat -> nat) (contention : nat -> nat * bool) (fsyncLinks : bool).
Context (wall clock : clockT) (newID : nat -> string).
Hypothesis clock_years : forall n, fourDigitYear (clock n).

(** Nothing fails and no other process holds the lock. *)
Definition calmHost : Prop :=
  (forall n, sqlFails n = false) /\ (forall n, sysFails n = false) /\ (forall n, contention n = (0%nat, true)).

Lemma wp_osCall e f (Q : result unit -> auditWorld D -> Prop) w :
  Q (Ok tt) (f w) -> (~ calmHost -> Q (Err e) w) -> wp (osCall sysFails e f) Q w.
Proof.
  intros H1 H2 n. unfold osCall. simpl. destruct (sysFails n) eqn:Hn; [|done]. apply H2. intros (_ & Hs & _). by rewrite Hs in Hn.
Qed.

Lemma wp_osWrite e bytes (Q : result unit -> auditWorld D -> Prop) w :
  Q (Ok tt) (onFile (appendFile bytes) w) ->
  (~ calmHost -> forall k, (k <= length bytes - 1)%nat -> Q (Err e) (onFile (appendFile (take k bytes)) w)) ->
  wp (osWrite sysFails torn e bytes) Q w.
Proof.
  intros H1 H2 n. unfold osWrite. simpl. destruct (sysFails n) eqn:Hn; [|done]. apply H2; [|lia]. intros (_ & Hs & _). by rewrite Hs in Hn.
Qed.

(** *** Reading the journal *)

Lemma repair_spec keys (w : auditWorld D) g c d ls tail : file_content (aw_file w) = Some c -> c = journalBytes (g :: ls) tail ->
  complete keys (entriesOf w) (g :: ls) -> oneLine tail -> file_durable (aw_file w) = Some d -> journalFor keys (entriesOf w) g d ->
  wp (repairAnchor sysFails fsyncLinks c) (fun r w' => aw_tables w' = aw_tables w /\ match r with
    | Ok c' => c' = journalBytes (g :: ls) [] /\ fileAt keys (entriesOf w) (g :: ls) (aw_file w')
    | Err _ => fileOK keys (entriesOf w) (aw_file w') /\ ~ calmHost end) w.
Proof.
  intros Hc -> Hls Ht Hd Hj. assert (fileOK keys (entriesOf w) (aw_file w)) as Hok.
  { exists g, (journalBytes (g :: ls) tail), d. split_and!; [done..| |done]. by exists ls, tail. }
  unfold repairAnchor. case_bool_decide as Hlast.
  { apply last_journal in Hlast; [|done..]. subst tail. apply wp_ret. split_and!; [done..|]. by exists g, ls, d. }
  destruct (lastIndex_journal (g :: ls) tail) as (i & -> & Hi); [done..|]. rewrite Hi.
  wp_step. apply wp_osCall; [|done]. cbv [id]. wp_step.
  wp_step. apply wp_osCall; [|done]. wp_step.
  assert (file_content (truncateFile (length (journalBytes (g :: ls) [])) (aw_file w)) = Some (journalBytes (g :: ls) [])) as Hcut.
  { simpl. rewrite Hc. simpl. by rewrite (journalBytes_tail _ tail), take_app_length. }
  assert (fileAt keys (entriesOf w) (g :: ls) (truncateFile (length (journalBytes (g :: ls) [])) (aw_file w))) as Hat by by exists g, ls, d.
  wp_step. apply wp_osCall; [|intros; split_and!; [done|by eapply fileAt_OK|done]]. wp_step.
  assert (fileAt keys (entriesOf w) (g :: ls) (syncFile fsyncLinks (truncateFile (length (journalBytes (g :: ls) [])) (aw_file w)))) as Hat'.
  { exists g, ls, (journalBytes (g :: ls) []). split_and!; [done|exact Hcut|done| |].
    - simpl. rewrite Hd, orb_true_r. exact Hcut.
    - exists ls, []. split_and!; [done..|]. apply not_elem_of_nil. }
  wp_step. apply wp_osCall; [|intros; split_and!; [done|by eapply fileAt_OK|done]]. wp_step. cbv [id]. apply wp_ret.
  split_and!; [done| |done]. by rewrite (journalBytes_tail _ tail), take_app_length.
Qed.

Lemma journal_lines keys es g ls t g0 ls0 : journalBytes (g :: ls) t = journalBytes (g0 :: ls0) [] ->
  complete keys es (g :: ls) -> oneLine t -> complete keys es (g0 :: ls0) -> g0 :: ls0 = g :: ls.
Proof.
  intros Heq [Hls _] Ht [Hls0 _]. assert (t = []) as ->.
  { apply (last_journal (g :: ls) t); [done..|]. rewrite Heq. by apply last_journal; [apply not_elem_of_nil|..]. }
  rewrite <- (split_journal (g0 :: ls0)), <- Heq by done. by apply split_journal.
Qed.

(** What the chain and the file of [w] give: the anchor of a beginning. *)
Lemma loadAnchor_spec keys (w : auditWorld D) service : auditInv keys w -> keys = Service_keyring service ->
  wp (loadAnchor sysFails fsyncLinks service) (fun r w' => aw_tables w' = aw_tables w /\ match r with
    | Ok a => exists ls k, fileAt keys (entriesOf w) ls (aw_file w') /\ length ls = S k /\ (k <= length (entriesOf w))%nat /\
        anchorMatchesHead a (headOf (take k (entriesOf w))) = true /\ (forall ls0, fileAt keys (entriesOf w) ls0 (aw_file w) -> ls0 = ls)
    | Err _ => fileOK keys (entriesOf w) (aw_file w') /\ ~ calmHost end) w.
Proof.
  intros [Hchain _ _ Hfile] ->. pose proof Hfile as (g & c & d & Hc & Hd & (ls & t & Heq & Hls & Ht) & Hj).
  unfold loadAnchor. wp_step. apply wp_osCall; [|by intros]. cbv [id]. do 4 wp_step. rewrite Hc.
  destruct (len c =? 0) eqn:Hl.
  { apply Z.eqb_eq in Hl. rewrite Heq, journalBytes_cons in Hl. unfold len in Hl. rewrite length_app in Hl. simpl in Hl. lia. }
  wp_step. eapply wp_mono; [by eapply repair_spec|]. intros [c'|e] w' [Htab Hr]; wp_step; [|done]. destruct Hr as [-> Hat].
  wp_step. wp_step. rewrite split_journal by (destruct Hls; done).
  destruct (loadLines_spec service (entriesOf w) (g :: ls) Hchain 0 None) as (cur & -> & Hcur); [apply Hls..|done|].
  wp_step. apply wp_ret. split; [done|]. destruct cur as [a|]; [|naive_solver]. destruct Hcur as (j & Hlen & Hm). simpl in Hlen.
  pose proof Hls as (_ & Hle & _). simpl in Hle. exists (g :: ls), j. split_and!; [done|simpl; lia|lia|done|].
  intros ls0 (g0 & ls1 & d0 & -> & Hc0 & Hls0 & _). rewrite Hc in Hc0. injection Hc0 as Heq0. rewrite Heq in Heq0.
  by eapply journal_lines.
Qed.

(** *** Writing an anchor *)

Lemma fileOK_extend keys es ls f more : fileAt keys es ls f -> oneLine more -> fileOK keys es (appendFile more f).
Proof.
  intros (g & ls0 & d & -> & Hc & Hls & Hd & Hj) Hm. exists g, (journalBytes (g :: ls0) more), d. split_and!; [|done| |done].
  - simpl. by rewrite Hc, (journalBytes_tail _ more).
  - by exists ls0, more.
Qed.

Lemma fileAt_extend keys es ls f l : fileAt keys es ls f -> oneLine l -> (length ls <= length es)%nat -> anchors keys es (length ls) l ->
  fileAt keys es (ls ++ [l]) (appendFile (l ++ [newline]) f).
Proof.
  intros (g & ls0 & d & -> & Hc & (Ho & Hlen & Ha) & Hd & Hj) Hl Hle Hal. exists g, (ls0 ++ [l]), d. split_and!; [done| | |done|done].
  - cbn [appendFile file_content]. rewrite Hc. simpl default. by rewrite <- journalBytes_snoc.
  - split_and!; [by apply Forall_app; split; [done|apply Forall_singleton]|rewrite length_app; simpl in *; lia|].
    intros i x [Hi|[Hi Hx]]%lookup_app_Some; [by apply Ha|]. apply list_lookup_singleton_Some in Hx as [Hz <-].
    by replace i with (length (g :: ls0)) by lia.
Qed.

Lemma fileAt_sync keys es ls f : fileAt keys es ls f -> fileAt keys es ls (syncFile fsyncLinks f) /\
  file_durable (syncFile fsyncLinks f) = file_content (syncFile fsyncLinks f).
Proof.
  intros (g & ls0 & d & -> & Hc & Hls & Hd & Hj). assert (file_durable (syncFile fsyncLinks f) = file_content (syncFile fsyncLinks f)) as Heq.
  { simpl. by rewrite Hd, orb_true_r. }
  split; [|done]. exists g, ls0, (journalBytes (g :: ls0) []). rewrite Heq. split_and!; [done..|]. exists ls0, []. split_and!; [done..|].
  apply not_elem_of_nil.
Qed.

Lemma writeAnchor_spec keys (w : auditWorld D) service ls : goodChain keys EmptyString 0 (entriesOf w) ->
  endKey 0 (entriesOf w) <= 2 ^ 63 - 1 -> serviceOK keys service -> keys = Service_keyring service ->
  fileAt keys (entriesOf w) ls (aw_file w) -> (length ls <= length (entriesOf w))%nat -> forall h, h = headOf (take (length ls) (entriesOf w)) ->
  wp (writeAnchor sysFails torn fsyncLinks clock service (Head_Count h) (Head_Sequence h) (Head_Hash h)) (fun r w' => aw_tables w' = aw_tables w /\
    match r with
    | Ok _ => exists l, fileAt keys (entriesOf w) (ls ++ [l]) (aw_file w') /\ file_durable (aw_file w') = file_content (aw_file w')
    | Err _ => fileOK keys (entriesOf w) (aw_file w') /\ ~ calmHost end) w.
Proof.
  intros Hchain Hmax [Hkey [Hid _] Hring _] -> Hat Hle h ->. unfold writeAnchor. wp_step. wp_step. wp_step.
  set (a0 := mkAnchor _ _ _ _ _ _ EmptyString). set (a := setAnchorSignature _ a0).
  pose proof (ed_sign_bytes (Service_privateKey service) (anchorDigest a0) Hkey) as Hb.
  destruct (head_range _ _ (length ls) Hchain Hmax) as [Hr1 Hr2].
  destruct (anchor_roundtrip a) as (b & -> & Hne & Hone & Hun).
  { split_and!; [|done..|apply clock_years]. rewrite !Forall_cons. split_and!; [by repeat constructor|done|by eapply head_ascii|by apply base64url_ascii|by apply Forall_nil]. }
  assert (anchors (Service_keyring service) (entriesOf w) (length ls) b) as Hab.
  { exists a. split_and!; [done| |by apply anchorMatchesHead_spec]. split; [done|]. exists (Public (Service_privateKey service)), (ed_sign (Service_privateKey service) (anchorDigest a0)).
    split_and!; [done|by apply base64url_roundtrip|by apply ed_sign_length|by apply ed_verify_sign]. }
  pose proof (fileAt_OK _ _ _ _ Hat) as Hok. assert (onFile createFile w = w) as Hcreate.
  { destruct Hat as (g & ls0 & d & _ & Hc & _). unfold onFile, createFile. rewrite Hc. by destruct w. }
  wp_step. apply wp_osCall; [|by intros]. cbv [id]. wp_step.
  wp_step. apply wp_osCall; [|by intros]. wp_step. rewrite Hcreate.
  wp_step. apply wp_osCall; [|by intros]. wp_step.
  assert (fileAt (Service_keyring service) (entriesOf w) ls (chmodFile (aw_file w))) as Hat1 by exact Hat.
  wp_step. apply wp_osWrite.
  2: { intros Hn k Hk. split; [done|]. split; [|done]. rewrite length_app in Hk. simpl in Hk. cbn [onFile setFile aw_file].
       eapply fileOK_extend; [exact Hat1|]. unfold oneLine. rewrite take_app_le by lia. intros Hin. apply Hone.
       apply elem_of_take in Hin as (i & Hi & _). by eapply list_elem_of_lookup_2. }
  wp_step. pose proof (fileAt_extend _ _ _ _ _ Hat1 Hone Hle Hab) as Hat2. destruct (fileAt_sync _ _ _ _ Hat2) as [Hat3 Heq3].
  wp_step. apply wp_osCall; [|intros; split_and!; [done|by eapply fileAt_OK|done]]. wp_step.
  apply wp_osCall; [|intros; split_and!; [done|by eapply fileAt_OK|done]]. split; [done|]. by exists b.
Qed.

(** *** The lock *)

Definition sameFiles (w w' : auditWorld D) : Prop := aw_tables w' = aw_tables w /\ aw_file w' = aw_file w.

Lemma wp_contention (Q : result (nat * bool) -> auditWorld D -> Prop) w :
  (forall c, (calmHost -> c = (0%nat, true)) -> Q (Ok c) w) -> wp (anchorContention contention) Q w.
Proof. intros HQ n. apply HQ. intros (_ & _ & Hc). apply Hc. Qed.

Lemma lockAttempts_spec ctx deadline acquired blocked (w : auditWorld D) : (calmHost -> blocked = 0%nat /\ acquired = true) ->
  wp (anchorLockAttempts wall ctx deadline blocked acquired) (fun r w' => sameFiles w w' /\
    match r with Ok _ => True | Err _ => ~ calmHost end) w.
Proof.
  intros Hcalm. assert (forall Q, (calmHost -> False) -> (forall r, Q r) -> wp (anchorLockAttempts wall ctx deadline blocked acquired)
    (fun r w' => sameFiles w w' /\ Q r) w) as Hany.
  { intros Q Hn HQ. clear Hcalm. induction blocked as [|b IH]; simpl.
    - destruct acquired; [by apply wp_mod|by apply wp_fail].
    - do 3 wp_step. destruct (_ <? _); [by apply wp_fail|]. wp_step. apply wp_ctxErr; [|by intros]. wp_step. exact IH. }
  destruct blocked as [|b]; [destruct acquired|].
  - simpl. by apply wp_mod.
  - simpl. apply wp_fail. split; [done|]. intros Hc. by destruct (Hcalm Hc).
  - assert (~ calmHost) as Hn by (intros Hc; by destruct (Hcalm Hc)). apply (Hany (fun r => match r with Ok _ => True | Err _ => _ end)); [done|].
    by intros [].
Qed.

Lemma acquire_spec ctx (w : auditWorld D) :
  wp (acquireAnchorLock sysFails contention wall ctx) (fun r w' => sameFiles w w' /\ match r with Ok _ => True | Err _ => ~ calmHost end) w.
Proof.
  unfold acquireAnchorLock. do 3 (wp_step; apply wp_osCall; [|by intros]; wp_step). cbv [id]. do 3 wp_step. wp_step.
  apply wp_contention. intros c Hc. wp_step. eapply wp_mono; [apply lockAttempts_spec|].
  - intros Hcalm. by rewrite (Hc Hcalm).
  - intros r w' [[Ht Hf] Hr]. split; [by split|done].
Qed.

(** A body under the lock: what it leaves in the tables and the file. *)
Lemma underLock_spec {A} ctx (m : M (auditWorld D) A) (Q : result A -> coreTables D -> anchorFile -> Prop) w :
  (forall w', sameFiles w w' -> wp m (fun r w'' => Q r (aw_tables w'') (aw_file w'')) w') ->
  (forall e, ~ calmHost -> Q (Err e) (aw_tables w) (aw_file w)) ->
  wp (underAnchorLock sysFails contention wall ctx m) (fun r w' => Q r (aw_tables w') (aw_file w')) w.
Proof.
  intros Hm He. unfold underAnchorLock. wp_step. eapply wp_mono; [apply acquire_spec|].
  intros [[]|e] w' [Hsame Hr]; wp_step; [apply wp_defer; by apply Hm|]. destruct Hsame as [-> ->]. by apply He.
Qed.

(** *** Verification *)

Lemma replay_spec keys service m : forall (w : auditWorld D) ls, goodChain keys EmptyString 0 (entriesOf w) ->
  endKey 0 (entriesOf w) <= 2 ^ 63 - 1 -> serviceOK keys service -> keys = Service_keyring service ->
  fileAt keys (entriesOf w) ls (aw_file w) -> (length ls + m <= S (length (entriesOf w)))%nat ->
  wp (replayAnchors sysFails torn fsyncLinks clock service (map (fun i => headOf (take i (entriesOf w))) (seq (length ls) m))) (fun r w' =>
    aw_tables w' = aw_tables w /\ match r with
    | Ok _ => exists ls', fileAt keys (entriesOf w) ls' (aw_file w') /\ length ls' = (length ls + m)%nat
    | Err _ => fileOK keys (entriesOf w) (aw_file w') /\ ~ calmHost end) w.
Proof.
  induction m as [|m IH]; intros w ls Hg Hmax Hs Hk Hat Hle; cbn [seq map replayAnchors].
  { apply wp_ret. split; [done|]. exists ls. split; [done|lia]. }
  wp_step. eapply wp_mono; [eapply writeAnchor_spec; [done..|lia|reflexivity]|].
  intros [[]|e] w' [Ht Hr]; wp_step; [|done]. destruct Hr as (l & Hat' & _). rewrite <- Ht in *.
  pose proof (length_app ls [l]) as Hlen. simpl in Hlen. replace (S (length ls)) with (length (ls ++ [l])) by lia.
  eapply wp_mono; [apply IH; try done; lia|]. intros [[]|e] w'' [Ht' Hr']; [|done]. split; [done|].
  destruct Hr' as (ls' & Hat'' & Hl'). exists ls'. split; [done|]. lia.
Qed.

Lemma GetAuditHead_inv keys (w : auditWorld D) : auditInv keys w ->
  wp (GetAuditHead sqlFails) (fun r t' => t' = aw_tables w /\ match r with
    | Ok head => head = headOf (entriesOf w) | Err _ => ~ calmHost end) (aw_tables w).
Proof.
  intros [_ _ Hs _] n. unfold GetAuditHead, bindM, statement, getS. simpl. destruct (sqlFails n) eqn:Hn.
  - split; [done|]. intros (Hq & _). by rewrite Hq in Hn.
  - simpl. rewrite Hs. by rewrite bool_decide_eq_true_2.
Qed.

Lemma verifyLocked_spec keys (w : auditWorld D) service : auditInv keys w -> serviceOK keys service -> keys = Service_keyring service ->
  wp (verifyLocked sqlFails sysFails torn fsyncLinks clock service) (fun r w' => aw_tables w' = aw_tables w /\ match r with
    | Ok _ => exists ls, fileAt keys (entriesOf w) ls (aw_file w') /\ length ls = S (length (entriesOf w))
    | Err _ => fileOK keys (entriesOf w) (aw_file w') /\ ~ calmHost end) w.
Proof.
  intros Hinv Hs Hk. pose proof Hinv as [Hg Hord Hst Hf]. unfold verifyLocked. wp_step. eapply wp_mono; [by eapply loadAnchor_spec|].
  intros [trusted|e] w1 [Ht Hr]; wp_step; [|done]. destruct Hr as (ls & k & Hat & Hlen & Hle & Hm & _).
  assert (auditInv keys w1) as Hinv1. { split; rewrite Ht; [done..|by eapply fileAt_OK]. }
  do 3 wp_step. wp_step. eapply wp_mono; [apply verifyPages_spec|].
  { rewrite Ht. by eapply goodChain_order. }
  { simpl. pose proof (filter_length_le (fun r => 0 <? Audit_Sequence r) (entriesOf w1)). lia. }
  pose proof Hm as (Hcount & _ & _)%anchorMatchesHead_spec. rewrite headOf_end in Hcount. simpl in Hcount.
  unfold len in Hcount. rewrite length_take_le in Hcount by lia.
  destruct (chain_fold trusted (entriesOf w)) as (matched & Hfold & Hm1 & _); [lia|]. unfold len in Hm1.
  rewrite Hcount, Nat2Z.id in Hm1, Hfold. specialize (Hm1 ltac:(lia)). rewrite Hm in Hm1. subst matched.
  assert (verifyEntries service trusted (startChain trusted) (List.filter (fun r => 0 <? Audit_Sequence r) (entriesOf w)) =
    Ok (mkChain (endHash EmptyString (entriesOf w)) (endKey 0 (entriesOf w)) (len (entriesOf w)) (headsAfter k (entriesOf w)) true)) as Hv.
  { rewrite after_all. 2: { eapply Forall_impl; [apply (goodChain_keys _ _ _ _ Hg)|]. simpl. lia. }
    apply verifyEntries_spec. rewrite <- Hk. by rewrite Hfold. }
  intros r w2 [-> [->| [-> [n Hn]]]].
  2: { wp_step. split_and!; [done|by eapply fileAt_OK|]. intros (Hq & _). by rewrite Hq in Hn. }
  cbn [startChain Chain_afterSequence]. rewrite Ht, Hv. wp_step. wp_step. apply wp_zoom. cbn [Chain_count Chain_afterSequence Chain_previous Chain_prefixMatched Chain_recoveryAnchors].
  eapply wp_mono; [by eapply GetAuditHead_inv|]. rewrite Ht. intros [head|e] t' [-> Hh]; wp_step.
  2: { split_and!; [done|by eapply fileAt_OK|done]. }
  subst head. rewrite <- headOf_end, bool_decide_eq_true_2 by done. simpl negb. cbv iota.
  replace (setTables (aw_tables w) w1) with w1 by (rewrite <- Ht; by destruct w1).
  destruct (anchorMatchesHead trusted (headOf (entriesOf w))) eqn:Hmatch.
  { apply wp_ret. split; [done|]. exists ls. split; [done|]. apply anchorMatchesHead_spec in Hmatch as (Hc & _ & _).
    rewrite headOf_end in Hc. simpl in Hc. unfold len in Hc. lia. }
  rewrite Hcount. destruct (Z.of_nat k <? _) eqn:Hlt.
  2: { exfalso. apply Z.ltb_ge in Hlt. unfold len in Hlt. rewrite take_ge in Hm by lia. congruence. }
  simpl andb. cbv iota. unfold headsAfter. rewrite <- Hlen. eapply wp_mono; [rewrite <- Ht; eapply replay_spec|]; rewrite ?Ht; try done; [lia|lia|].
  intros [[]|e] w' [Ht' Hr']; (split; [done|]); [|done]. destruct Hr' as (ls' & Hat' & Hl'). exists ls'. split; [done|]. lia.
Qed.
(** *** Start *)

(** No journal yet, no entry yet. *)
Definition freshAudit (w : auditWorld D) : Prop :=
  aw_file w = mkAnchorFile None None 0 /\ core_audit (aw_tables w) = noAudit.

Lemma genesis_spec (w : auditWorld D) service : freshAudit w -> serviceOK ∅ service -> fsyncLinks = true ->
  wp (initializeLocked sqlFails sysFails torn fsyncLinks clock service) (fun r w' => aw_tables w' = aw_tables w /\
    match r with Ok _ => fileOK (Service_keyring service) [] (aw_file w') | Err _ => ~ calmHost end) w.
Proof.
  intros [Hfile Htab] [Hkey [Hid _] Hring _] Hlinks. unfold initializeLocked. wp_step. apply wp_osCall; [|by intros]. cbv [id].
  do 4 wp_step. rewrite Hfile. cbn [file_content]. wp_step. apply wp_zoom.
  assert (wp (GetAuditHead sqlFails) (fun r t' => t' = aw_tables w /\ match r with Ok h => h = mkHead 0 0 EmptyString | Err _ => ~ calmHost end) (aw_tables w)) as Hhead.
  { intros n. unfold GetAuditHead, bindM, statement, getS. simpl. destruct (sqlFails n) eqn:Hn.
    - split; [done|]. intros (Hq & _). by rewrite Hq in Hn.
    - simpl. by rewrite Htab. }
  eapply wp_mono; [exact Hhead|]. intros [head|e] t' [-> Hh]; wp_step; [|done]. subst head. simpl. replace (setTables (aw_tables w) w) with w by by destruct w.
  unfold writeAnchor. do 3 wp_step. set (a0 := mkAnchor _ _ _ _ _ _ EmptyString). set (a := setAnchorSignature _ a0).
  pose proof (ed_sign_bytes (Service_privateKey service) (anchorDigest a0) Hkey) as Hb.
  destruct (anchor_roundtrip a) as (b & -> & Hne & Hone & Hun).
  { split_and!; [|done..|apply clock_years]. rewrite !Forall_cons. split_and!; [by repeat constructor|done|by apply Forall_nil|by apply base64url_ascii|by apply Forall_nil]. }
  do 3 (wp_step; apply wp_osCall; [|by intros]; wp_step). cbv [id]. wp_step. apply wp_osWrite; [|by intros]. wp_step.
  wp_step. apply wp_osCall; [|by intros]. wp_step. apply wp_osCall; [|by intros]. split; [done|]. simpl. rewrite Hfile, Hlinks. simpl.
  assert (journalFor (Service_keyring service) [] b (b ++ [newline])) as Hj.
  { exists [], []. split_and!; [unfold journalBytes; simpl; by rewrite !app_nil_r| |apply not_elem_of_nil].
    split_and!; [by apply Forall_singleton|simpl; lia|]. intros i l [-> <-]%list_lookup_singleton_Some. exists a.
    split_and!; [done| |done]. split; [done|]. exists (Public (Service_privateKey service)), (ed_sign (Service_privateKey service) (anchorDigest a0)).
    split_and!; [done|by apply base64url_roundtrip|by apply ed_sign_length|by apply ed_verify_sign]. }
  by exists b, (b ++ [newline]), (b ++ [newline]).
Qed.

Lemma initializeLocked_spec keys (w : auditWorld D) service : auditInv keys w -> serviceOK keys service -> keys = Service_keyring service ->
  wp (initializeLocked sqlFails sysFails torn fsyncLinks clock service) (fun r w' => aw_tables w' = aw_tables w /\
    fileOK keys (entriesOf w) (aw_file w') /\ match r with Ok _ => True | Err _ => ~ calmHost end) w.
Proof.
  intros Hinv Hs Hk. pose proof (ai_file _ _ Hinv) as Hf. unfold initializeLocked. wp_step. apply wp_osCall; [|by intros]. cbv [id].
  do 4 wp_step. pose proof Hf as (g & c & d & -> & _). eapply wp_mono; [by apply verifyLocked_spec|].
  intros [[]|e] w' [Ht Hr]; split_and!; try done; [|apply Hr..]. destruct Hr as (ls & Hat & _). by eapply fileAt_OK.
Qed.

(** *** Appending *)

Context {Details : Type} (marshalDetails : Details -> option string).
(** [json.Marshal] gives a JSON text. *)
Hypothesis marshal_json : forall d s, marshalDetails d = Some s -> s <> EmptyString /\ isSome (compactJSON s) = true.

(** The entry of a request, sealed by the service. *)
Record sealedBy (service : Service) (q : AppendRequest Details) (e : AuditEntry) : Prop := {
  sb_json : exists b, entryJSON (payloadOf e) = Some b /\ Audit_EntryHash e = hexEncode (sum256 b) /\
    Audit_Signature e = base64url (ed_sign (Service_privateKey service) (sum256 b));
  sb_key : Audit_KeyID e = Service_keyID service;
  sb_fields : requestFields q = [Audit_ActorType e; Audit_ActorID e; Audit_Action e; Audit_ResourceType e; Audit_ResourceID e; Audit_Outcome e];
  sb_details : marshalDetails (Append_Details q) = Some (Audit_Details e);
}.

Lemma inserted_inv keys (w : auditWorld D) service q t' entry : auditInv keys w -> serviceOK keys service -> keys = Service_keyring service ->
  sealedBy service q entry -> inserted entry (aw_tables w) t' ->
  auditInv keys (setTables t' w) /\
  aud_entries (core_audit t') = entriesOf w ++ [setAuditSequence (aud_ordinal (core_audit (aw_tables w)) + 1) entry].
Proof.
  intros [Hg Hord Hst Hf] [Hkey _ Hring _] -> [(b & Hb & Hh & Hsig) Hk _ Hd] [_ Hrange (h & Hh1 & Hh2 & Htab)].
  apply marshal_json in Hd as [Hne _]. rewrite Hst in Hh1. injection Hh1 as <-. unfold auditRow in Htab.
  apply slen_nonempty in Hne. rewrite Hne in Htab. set (row := setAuditSequence _ entry) in *.
  assert (aud_entries (core_audit t') = entriesOf w ++ [row]) as Hes by by rewrite Htab.
  assert (headOf (entriesOf w ++ [row]) = mkHead (Head_Count (headOf (entriesOf w)) + 1) (aud_ordinal (core_audit (aw_tables w)) + 1) (Audit_EntryHash entry)) as Hhead.
  { rewrite !headOf_end, endKey_snoc, endHash_snoc. simpl. f_equal. unfold len. rewrite length_app. simpl. lia. }
  split; [|done]. split; cbn [setTables aw_tables aw_file]; rewrite ?Hes.
  - apply goodChain_app. split; [done|]. split; [|done]. split_and!; [simpl; lia|by rewrite headOf_end in Hh2|].
    exists (Public (Service_privateKey service)), b, (ed_sign (Service_privateKey service) (sum256 b)).
    split_and!; [by rewrite <- Hring, <- Hk|done..| |by apply ed_verify_sign]. change (Audit_Signature row) with (Audit_Signature entry).
    rewrite Hsig. by apply base64url_roundtrip, ed_sign_bytes.
  - rewrite endKey_snoc, Htab. simpl. lia.
  - rewrite Htab. simpl. by rewrite Hhead.
  - by eapply fileOK_mono.
Qed.

Lemma sealEntry_spec service q id at_ details previous : marshalDetails (Append_Details q) = Some details ->
  exists e, sealEntry service (draftEntry service id at_ q details previous) = Ok e /\ sealedBy service q e /\ Audit_PreviousHash e = previous /\ Audit_ID e = id.
Proof.
  intros Hd. unfold sealEntry, hashEntry. set (draft := draftEntry _ _ _ _ _ _).
  pose proof (entryJSON_total (payloadOf draft)) as Htot. simpl in Htot. rewrite (proj2 (marshal_json _ _ Hd)) in Htot.
  destruct (entryJSON (payloadOf draft)) as [b|] eqn:Hb; [|done]. simpl. eexists. split; [done|]. split; [|done]. split; [|done..].
  by exists b.
Qed.

(** Why an append may fail. *)
Definition acceptable (q : AppendRequest Details) : Prop :=
  Forall (fun value => validAuditIdentifier value 256 = true) (requestFields q) /\
  exists details, marshalDetails (Append_Details q) = Some details /\ slen details <= 64 * 1024.

(** The tables after the append: one entry more, and the domain's transition. *)
Definition recorded (transition : D -> D -> Prop) (service : Service) (q : AppendRequest Details) (t t' : coreTables D) (e : AuditEntry) : Prop :=
  aud_entries (core_audit t') = aud_entries (core_audit t) ++ [e] /\ sealedBy service q e /\ transition (core_domain t) (core_domain t').

(** The journal anchors the whole chain. *)
Definition upToDate (keys : ring) (t : coreTables D) (f : anchorFile) : Prop :=
  exists ls, fileAt keys (aud_entries (core_audit t)) ls f /\ length ls = S (length (aud_entries (core_audit t))).

Definition appendPost (transition : D -> D -> Prop) (keys : ring) (service : Service) (q : AppendRequest Details) (mutation : AuditedMutation (D := D))
    (w : auditWorld D) (r : result AuditEntry) (t' : coreTables D) (f' : anchorFile) : Prop :=
  (forall w', aw_tables w' = t' -> aw_file w' = f' -> auditInv keys w') /\
  match r with
  | Ok e => recorded transition service q (aw_tables w) t' e /\ upToDate keys t' f' /\ file_durable f' = file_content f'
  | Err _ => (t' = aw_tables w \/ exists e, recorded transition service q (aw_tables w) t' e) /\
      (calmHost -> upToDate keys (aw_tables w) (aw_file w) -> acceptable q -> exists entry n e, sealedBy service q entry /\ fst (mutation entry (n, aw_tables w)) = Err e)
  end.

Lemma fileAt_mono keys es es' ls f : fileAt keys es ls f -> fileAt keys (es ++ es') ls f.
Proof.
  intros (g & ls0 & d & -> & Hc & Hls & Hd & (ls' & t & -> & Hls' & Ht)). exists g, ls0, (journalBytes (g :: ls') t).
  split_and!; [done..|by apply (complete_mono keys)|done|]. exists ls', t. split_and!; [done|by apply (complete_mono keys)|done].
Qed.

Lemma appendPost_same transition keys service q mutation (w w' : auditWorld D) e : auditInv keys w ->
  aw_tables w' = aw_tables w -> fileOK keys (entriesOf w) (aw_file w') ->
  (calmHost -> upToDate keys (aw_tables w) (aw_file w) -> acceptable q -> exists entry n e, sealedBy service q entry /\ fst (mutation entry (n, aw_tables w)) = Err e) ->
  appendPost transition keys service q mutation w (Err e) (aw_tables w') (aw_file w').
Proof.
  intros [Hg Hord Hst _] Ht Hf Hc. split.
  - intros w2 Ht2 Hf2. split; rewrite ?Ht2, ?Ht, ?Hf2; done.
  - split; [by left|done].
Qed.

(** Past the commit: the tables have the entry, and the anchor is written or
    the error says that it was not. *)
Lemma anchorEntry_spec transition keys (w w1 : auditWorld D) service q mutation ls entry t' : auditInv keys w -> serviceOK keys service ->
  keys = Service_keyring service -> aw_tables w1 = aw_tables w -> fileAt keys (entriesOf w) ls (aw_file w1) -> length ls = S (length (entriesOf w)) ->
  sealedBy service q entry -> inserted entry (aw_tables w) t' -> transition (core_domain (aw_tables w)) (core_domain t') ->
  wp (let! newHead := attempt (zoom aw_tables setTables (GetAuditHead sqlFails)) in
      match newHead with
      | Err _ => failM ErrHeadUnread
      | Ok newHead =>
          if negb (Head_Count newHead =? Head_Count (headOf (entriesOf w)) + 1) || (Head_Sequence newHead <=? Head_Sequence (headOf (entriesOf w)))
             || negb (eqs (Head_Hash newHead) (Audit_EntryHash entry)) then failM ErrHeadUnexpected else
          let entry := setAuditSequence (Head_Sequence newHead) entry in
          let! anchored := attempt (writeAnchor sysFails torn fsyncLinks clock service (Head_Count newHead) (Head_Sequence newHead) (Head_Hash newHead)) in
          match anchored with
          | Err _ => failM ErrAnchorUpdate
          | Ok _ => retM entry
          end
      end) (fun r w' => appendPost transition keys service q mutation w r (aw_tables w') (aw_file w')) (setTables t' w1).
Proof.
  intros Hinv Hs Hk Ht Hat Hlen Hseal Hins Htr. assert (inserted entry (aw_tables w1) t') as Hins1 by by rewrite Ht.
  assert (auditInv keys w1) as Hinv1. { destruct Hinv. split; rewrite Ht; [done..|by eapply fileAt_OK]. }
  destruct (inserted_inv keys w1 service q t' entry Hinv1 Hs Hk Hseal Hins1) as [Hinv' Hes]. rewrite Ht in Hes.
  set (row := setAuditSequence _ entry) in Hes. set (w2 := setTables t' w1) in *.
  assert (entriesOf w2 = entriesOf w ++ [row]) as Hes2 by exact Hes.
  assert (recorded transition service q (aw_tables w) t' row) as Hrec. { split_and!; [done|by destruct Hseal|done]. }
  assert (forall e w3, aw_tables w3 = t' -> fileOK keys (entriesOf w2) (aw_file w3) -> ~ calmHost ->
    appendPost transition keys service q mutation w (Err e) (aw_tables w3) (aw_file w3)) as Herr.
  { intros e w3 Ht3 Hf3 Hn. split; [|split; [right; exists row; by rewrite Ht3|done]]. intros w4 Ht4 Hf4.
    destruct Hinv'. split; rewrite ?Ht4, ?Ht3, ?Hf4; done. }
  wp_step. apply wp_attempt, wp_zoom. eapply wp_mono; [by apply (GetAuditHead_inv keys)|]. intros [head|e] t2 [-> Hh]; wp_step.
  2: { apply wp_fail. apply Herr; [done|apply Hinv'|done]. }
  replace (setTables (aw_tables w2) w2) with w2 by done. rewrite Hes2 in Hh.
  assert (head = mkHead (Head_Count (headOf (entriesOf w)) + 1) (Audit_Sequence row) (Audit_EntryHash entry)) as ->.
  { rewrite Hh, !headOf_end, endKey_snoc, endHash_snoc. simpl. f_equal. unfold len. rewrite length_app. simpl. lia. }
  cbn [Head_Count Head_Sequence Head_Hash]. rewrite Z.eqb_refl, eqs_refl. rewrite (proj2 (Z.leb_gt _ _)).
  2: { destruct Hinv as [_ Hord _ _]. rewrite headOf_end. simpl. lia. }
  simpl orb. cbv iota. wp_step. apply wp_attempt. rewrite Hk in Hat. assert (fileAt keys (entriesOf w2) ls (aw_file w2)) as Hat2.
  { rewrite Hes2, Hk. by apply fileAt_mono. }
  assert (length ls = length (entriesOf w2)) as Hlen2. { rewrite Hes2, length_app. simpl. lia. }
  eapply wp_mono; [apply (writeAnchor_spec keys w2 service ls) with (h := mkHead (Head_Count (headOf (entriesOf w)) + 1) (Audit_Sequence row) (Audit_EntryHash entry));
    [apply Hinv'| |done..|lia|]|].
  { destruct Hinv' as [_ Hord _ _]. lia. }
  { rewrite Hh. rewrite Hes2. rewrite take_ge; [done|]. rewrite <- Hes2. lia. }
  intros [[]|e] w3 [Ht3 Hr]; wp_step.
  2: { apply wp_fail. apply Herr; [done|apply Hr..]. }
  apply wp_ret. destruct Hr as (l & Hat3 & Hdur). rewrite Ht3. split.
  { intros w4 Ht4 Hf4. destruct Hinv'. split; rewrite ?Ht4, ?Hf4; [done..|]. by eapply fileAt_OK. }
  split_and!; [exact Hrec| |done]. exists (ls ++ [l]). split; [done|]. rewrite length_app. cbn [length]. change (aw_tables w2) with t' in *. lia.
Qed.

Lemma auditInv_mono keys keys' (w : auditWorld D) : keys ⊆ keys' -> auditInv keys w -> auditInv keys' w.
Proof.
  intros Hk [Hg Hord Hst Hf]. split; [by eapply goodChain_mono|done..|].
  rewrite <- (app_nil_r (entriesOf w)). by eapply fileOK_mono.
Qed.

Lemma auditInv_files keys (w w' : auditWorld D) : sameFiles w w' -> auditInv keys w -> auditInv keys w'.
Proof. intros [Ht Hf] [Hg Hord Hst Hok]. split; rewrite ?Ht, ?Hf; done. Qed.

Lemma wp_drawID prefix (Q : result string -> auditWorld D -> Prop) w : (forall id, Q (Ok id) w) -> wp (drawID newID prefix) Q w.
Proof. intros HQ n. apply HQ. Qed.

(** [wp_mono] with the tick at which the method ran. *)
Lemma wp_witness {S A} (m : M S A) (Q Q' : result A -> S -> Prop) s :
  wp m Q s -> (forall n r s', fst (m (n, s)) = r -> Q r s' -> Q' r s') -> wp m Q' s.
Proof. intros Hm HQ n. specialize (Hm n). specialize (HQ n). destruct (m (n, s)) as [r [n' s']]. by apply HQ. Qed.

Lemma appendLocked_spec transition keys (w : auditWorld D) service q mutation : auditInv keys w -> serviceOK keys service ->
  keys = Service_keyring service -> audited transition mutation ->
  wp (appendLocked sqlFails sysFails torn fsyncLinks clock newID marshalDetails service q (Some mutation))
    (fun r w' => appendPost transition keys service q mutation w r (aw_tables w') (aw_file w')) w.
Proof.
  intros Hinv Hs Hk Hmut. pose proof Hinv as [Hg Hord Hst Hf]. unfold appendLocked. cbn [isSome negb].
  destruct (forallb (fun value => validAuditIdentifier value 256) (requestFields q)) eqn:Hfields; cbn [negb].
  2: { apply wp_fail. apply appendPost_same; [done..|]. intros _ _ [Ha _]. exfalso. apply not_true_iff_false in Hfields. apply Hfields.
       apply forallb_forall. intros x Hx%list_elem_of_In. rewrite Forall_forall in Ha. by apply Ha. }
  wp_step. eapply wp_mono; [by eapply loadAnchor_spec|]. intros [cur|e] w1 [Ht Hr]; wp_step.
  2: { apply appendPost_same; [done..|apply Hr|]. intros Hc. by destruct Hr as [_ []]. }
  destruct Hr as (ls & k & Hat & Hlen & Hle & Hm & Hsame).
  assert (fileOK keys (entriesOf w) (aw_file w1)) as Hf1 by by eapply fileAt_OK.
  assert (auditInv keys w1) as Hinv1. { split; rewrite Ht; done. }
  wp_step. apply wp_zoom. eapply wp_mono; [by apply (GetAuditHead_inv keys)|]. intros [head|e] t' [-> Hh]; wp_step.
  2: { apply appendPost_same; [done..|]. by intros. }
  replace (setTables (aw_tables w1) w1) with w1 by by destruct w1. rewrite Ht in Hh. subst head.
  destruct (anchorMatchesHead cur (headOf (entriesOf w))) eqn:Hmatch; cbn [negb].
  2: { apply wp_fail. apply appendPost_same; [done..|]. intros _ (ls0 & Hat0 & Hl0) _. exfalso. pose proof (Hsame _ Hat0) as Heq. subst ls0.
       rewrite take_ge in Hm by lia. congruence. }
  destruct (marshalDetails (Append_Details q)) as [details|] eqn:Hd.
  2: { apply wp_fail. apply appendPost_same; [done..|]. intros _ _ [_ (details & Hd' & _)]. congruence. }
  destruct (64 * 1024 <? slen details) eqn:Hsize.
  { apply wp_fail. apply appendPost_same; [done..|]. intros _ _ [_ (details' & Hd' & Hsz)]. apply Z.ltb_lt in Hsize. simplify_eq. lia. }
  wp_step. apply wp_drawID. intros id. do 4 wp_step.
  destruct (sealEntry_spec service q id (clock n) details (Anchor_HeadHash cur) Hd) as (entry & -> & Hseal & _ & _). wp_step.
  do 3 wp_step. apply wp_zoom. rewrite Ht. unfold CommitAuditedMutation. eapply wp_witness; [apply Hmut|]. intros m [[]|e] t' Hres Hpost; wp_step.
  - destruct Hpost as [Hins Htr]. eapply anchorEntry_spec; try done. apply anchorMatchesHead_spec in Hmatch as (Hc1 & _ & _).
    apply anchorMatchesHead_spec in Hm as (Hc2 & _ & _). rewrite Hc1 in Hc2. rewrite !headOf_end in Hc2. simpl in Hc2. unfold len in Hc2.
    rewrite length_take_le in Hc2 by lia. lia.
  - subst t'. replace (setTables (aw_tables w) w1) with w1 by (rewrite <- Ht; by destruct w1). apply appendPost_same; [done..|].
    intros _ _ _. exists entry, m, e. done.
Qed.

End Environment.
End Service.
