(* ===== verification/AuditSpec.v ===== *)
(** * The audit service: what it promises

    The life of an audit log, over restarts, key rotation, failures and power
    losses, and what holds of every log that lives so. *)

From S2P Require Import Prelude Directory Sha256 Digest Library Contract JournalFile Plan Events EventStore EventQueue Gate AuditStore AuditService DirectoryFacts JournalFileFacts EventStoreFacts GateFacts AuditChainFacts AuditFacts.
From stdpp Require Import base gmap list strings sorting.
From Stdlib Require Import ZArith Lia.

Open Scope Z_scope.

(** The environment of one call. *)
Record auditHost : Type := mkHost {
  host_sqlFails : nat -> bool;
  host_sysFails : nat -> bool;
  host_torn : nat -> nat;
  host_contention : nat -> nat * bool;
  host_fsyncLinks : bool;
  host_wall : clockT;
  host_clock : clockT;
  host_newID : nat -> string;
}.

Section Spec.
Context {H : Hasher} {E : Ed25519} {AC : AuditCodec} {SB : SignatureBytes}.
Context {D Details : Type} (marshalDetails : Details -> option string).
Hypothesis marshal_json : forall d s, marshalDetails d = Some s -> s <> EmptyString /\ isSome (compactJSON s) = true.

Abbreviation ring := (gmap string (list Z)).
Abbreviation entriesOf w := (aud_entries (core_audit (aw_tables w))).
Abbreviation calm host := (calmHost (host_sqlFails host) (host_sysFails host) (host_contention host)).

Definition AuditVerify (host : auditHost) (service : Service) (ctx : ctxT) : M (auditWorld D) unit :=
  Service_Verify (host_sqlFails host) (host_sysFails host) (host_torn host) (host_contention host) (host_fsyncLinks host) (host_wall host) (host_clock host) service ctx.
Definition AuditInitialize (host : auditHost) (service : Service) (ctx : ctxT) : M (auditWorld D) unit :=
  initialize (host_sqlFails host) (host_sysFails host) (host_torn host) (host_contention host) (host_fsyncLinks host) (host_wall host) (host_clock host) service ctx.
Definition AuditAppend (host : auditHost) (service : Service) (ctx : ctxT) (q : AppendRequest Details) (mutation : AuditedMutation (D := D)) : M (auditWorld D) AuditEntry :=
  AppendWithMutation (host_sqlFails host) (host_sysFails host) (host_torn host) (host_contention host) (host_fsyncLinks host) (host_wall host) (host_clock host)
    (host_newID host) marshalDetails service ctx q (Some mutation).

Definition years (host : auditHost) : Prop := forall n, fourDigitYear (host_clock host n).

(** ** The calls keep the log *)

Lemma serviceOK_ring keys service : serviceOK keys service -> serviceOK (Service_keyring service) service.
Proof. intros [Hk Hi Hr _]. by split. Qed.

Lemma auditInv_file keys (w w' : auditWorld D) f : auditInv keys w -> fileOK keys (entriesOf w) f ->
  aw_tables w' = aw_tables w -> aw_file w' = f -> auditInv keys w'.
Proof. intros [Hg Hord Hst _] Hf Ht Hfile. split; rewrite ?Ht, ?Hfile; done. Qed.

(** A postcondition of the tables and the file, under the lock. *)
Lemma locked_keeps {A} host keys (w : auditWorld D) ctx (m : M (auditWorld D) A) (Q : result A -> coreTables D -> anchorFile -> Prop) :
  auditInv keys w -> (forall w', auditInv keys w' -> aw_tables w' = aw_tables w -> aw_file w' = aw_file w -> wp m (fun r w'' => Q r (aw_tables w'') (aw_file w'')) w') ->
  (forall e, ~ calm host -> Q (Err e) (aw_tables w) (aw_file w)) ->
  wp (underAnchorLock (host_sysFails host) (host_contention host) (host_wall host) ctx m) (fun r w' => Q r (aw_tables w') (aw_file w')) w.
Proof.
  intros Hinv Hm He. eapply (underLock_spec (host_sqlFails host)); [|done]. intros w' Hsame. apply Hm; [by eapply auditInv_files|apply Hsame..].
Qed.

Lemma Verify_keeps host keys (w : auditWorld D) service ctx : years host -> auditInv keys w -> serviceOK keys service ->
  wp (AuditVerify host service ctx) (fun r w' => auditInv (Service_keyring service) w' /\ aw_tables w' = aw_tables w /\
    match r with Ok _ => upToDate (Service_keyring service) (aw_tables w') (aw_file w') | Err _ => ~ calm host end) w.
Proof.
  intros Hy Hinv0 Hs0. pose proof (auditInv_mono _ _ _ (so_keys _ _ Hs0) Hinv0) as Hinv. pose proof (serviceOK_ring _ _ Hs0) as Hs.
  set (keyring := Service_keyring service) in *. eapply wp_mono; [eapply (locked_keeps host keyring w ctx _
    (fun r t f => t = aw_tables w /\ fileOK keyring (entriesOf w) f /\ match r with Ok _ => upToDate keyring t f | Err _ => ~ calm host end)); [done|..]|].
  - intros w1 Hinv1 Ht Hfile. eapply wp_mono; [by eapply (verifyLocked_spec _ _ _ (host_contention host) _ _ Hy keyring)|].
    rewrite Ht. intros [[]|e] w2 [Ht2 Hr]; [|destruct Hr; by split_and!]. destruct Hr as (ls & Hat & Hlen).
    split_and!; [done|by eapply fileAt_OK|]. rewrite Ht2. by exists ls.
  - intros e Hn. split_and!; [done|apply Hinv|done].
  - intros r w' (Ht & Hf & Hr). split_and!; [by eapply auditInv_file|done..].
Qed.

Lemma Initialize_keeps host keys (w : auditWorld D) service ctx : years host -> auditInv keys w -> serviceOK keys service ->
  wp (AuditInitialize host service ctx) (fun r w' => auditInv (Service_keyring service) w' /\ aw_tables w' = aw_tables w /\
    match r with Ok _ => True | Err _ => ~ calm host end) w.
Proof.
  intros Hy Hinv0 Hs0. pose proof (auditInv_mono _ _ _ (so_keys _ _ Hs0) Hinv0) as Hinv. pose proof (serviceOK_ring _ _ Hs0) as Hs.
  set (keyring := Service_keyring service) in *. eapply wp_mono; [eapply (locked_keeps host keyring w ctx _
    (fun r t f => t = aw_tables w /\ fileOK keyring (entriesOf w) f /\ match r with Ok _ => True | Err _ => ~ calm host end)); [done|..]|].
  - intros w1 Hinv1 Ht Hfile. eapply wp_mono; [by eapply (initializeLocked_spec _ _ _ (host_contention host) _ _ Hy keyring)|].
    rewrite Ht. done.
  - intros e Hn. split_and!; [done|apply Hinv|done].
  - intros r w' (Ht & Hf & Hr). split_and!; [by eapply auditInv_file|done..].
Qed.

Lemma Append_keeps transition host keys (w : auditWorld D) service ctx q mutation : years host -> auditInv keys w -> serviceOK keys service ->
  audited transition mutation ->
  wp (AuditAppend host service ctx q mutation) (fun r w' =>
    appendPost (host_sqlFails host) (host_sysFails host) (host_contention host) marshalDetails transition (Service_keyring service) service q mutation w r (aw_tables w') (aw_file w')) w.
Proof.
  intros Hy Hinv0 Hs0 Hmut. pose proof (auditInv_mono _ _ _ (so_keys _ _ Hs0) Hinv0) as Hinv. pose proof (serviceOK_ring _ _ Hs0) as Hs.
  set (keyring := Service_keyring service) in *. eapply (locked_keeps host keyring w ctx); [done|..].
  - intros w1 Hinv1 Ht Hfile. eapply wp_mono; [by eapply (appendLocked_spec _ _ _ (host_contention host) _ _ _ Hy marshalDetails marshal_json transition keyring)|].
    intros r w2. unfold appendPost. by rewrite Ht, Hfile.
  - intros e Hn. apply appendPost_same; [done..|apply Hinv|done].
Qed.

(** The first start, on a file system that makes a new name durable. *)
Lemma Genesis_starts host (w : auditWorld D) service ctx : years host -> freshAudit w -> serviceOK ∅ service -> host_fsyncLinks host = true ->
  wp (AuditInitialize host service ctx) (fun r w' => aw_tables w' = aw_tables w /\
    match r with Ok _ => auditInv (Service_keyring service) w' | Err _ => ~ calm host end) w.
Proof.
  intros Hy Hfresh Hs Hlinks. eapply wp_mono; [eapply (underLock_spec (host_sqlFails host) _ _ _ ctx _
    (fun r t f => t = aw_tables w /\ match r with Ok _ => fileOK (Service_keyring service) [] f | Err _ => ~ calm host end))|].
  - intros w1 [Ht Hf]. eapply wp_mono; [eapply (genesis_spec _ _ _ (host_contention host) _ _ Hy w1)|]; [|done..|].
    + destruct Hfresh as [H1 H2]. by rewrite <- Hf, <- Ht in *.
    + by rewrite Ht.
  - done.
  - intros [[]|e] w' [Ht Hr]; (split; [done|]); [|done]. destruct Hfresh as [_ Htab]. split; rewrite Ht, Htab; simpl; [done|lia|done|done].
Qed.

(** ** The life of an audit log *)

(** The keys in use and the world: a request is appended with some audited
    mutation, the log is verified, the service starts again, maybe with new
    keys beside the old ones, other tables are written, the power is lost. *)
Inductive auditStep : ring * auditWorld D -> ring * auditWorld D -> Prop :=
| step_append host service ctx q mutation transition keys w n r n' w' :
    years host -> serviceOK keys service -> audited transition mutation ->
    AuditAppend host service ctx q mutation (n, w) = (r, (n', w')) -> auditStep (keys, w) (Service_keyring service, w')
| step_verify host service ctx keys w n r n' w' :
    years host -> serviceOK keys service -> AuditVerify host service ctx (n, w) = (r, (n', w')) -> auditStep (keys, w) (Service_keyring service, w')
| step_start host service ctx keys w n r n' w' :
    years host -> serviceOK keys service -> AuditInitialize host service ctx (n, w) = (r, (n', w')) -> auditStep (keys, w) (Service_keyring service, w')
| step_domain keys w d : auditStep (keys, w) (keys, setTables (setDomain d (aw_tables w)) w)
| step_power keys w image mode : mayLeave (aw_file w) image ->
    auditStep (keys, w) (keys, mkWorld (aw_tables w) (mkAnchorFile image image mode) (aw_lock w) false).

Lemma auditStep_keeps x y : auditStep x y -> auditInv x.1 x.2 -> auditInv y.1 y.2 /\ entriesOf x.2 `prefix_of` entriesOf y.2.
Proof.
  intros Hstep Hinv. destruct Hstep as [host service ctx q mutation transition keys w n r n' w' Hy Hs Hmut Hrun
    |host service ctx keys w n r n' w' Hy Hs Hrun|host service ctx keys w n r n' w' Hy Hs Hrun|keys w d|keys w image mode Himg]; simpl in *.
  - destruct (wp_run _ _ _ _ _ _ _ (Append_keeps transition host keys w service ctx q mutation Hy Hinv Hs Hmut) Hrun) as [Hinv' Hr].
    split; [by apply Hinv'|]. destruct r as [e|e].
    + destruct Hr as [(-> & _) _]. by exists [e].
    + destruct Hr as [[->|(x & -> & _)] _]; [done|by exists [x]].
  - destruct (wp_run _ _ _ _ _ _ _ (Verify_keeps host keys w service ctx Hy Hinv Hs) Hrun) as (Hinv' & -> & _). done.
  - destruct (wp_run _ _ _ _ _ _ _ (Initialize_keeps host keys w service ctx Hy Hinv Hs) Hrun) as (Hinv' & -> & _). done.
  - split; [|done]. by destruct Hinv.
  - split; [|done]. destruct Hinv as [Hg Hord Hst Hf]. split; [done..|]. simpl. by eapply fileOK_powerloss.
Qed.

Lemma auditSteps_keep x y : rtc auditStep x y -> auditInv x.1 x.2 -> auditInv y.1 y.2 /\ entriesOf x.2 `prefix_of` entriesOf y.2.
Proof.
  induction 1 as [x|x y z Hxy _ IH]; intros Hx; [done|]. destruct (auditStep_keeps x y Hxy Hx) as [Hy Hp]. destruct (IH Hy) as [Hz Hp'].
  split; [done|]. by transitivity (entriesOf y.2).
Qed.

(** A log that lives: started on an empty database with the genesis on disk,
    then any steps. *)
Definition auditLives (keys : ring) (w : auditWorld D) : Prop :=
  exists host service ctx w0 n n' w1, years host /\ freshAudit w0 /\ serviceOK ∅ service /\ host_fsyncLinks host = true /\
    AuditInitialize host service ctx (n, w0) = (Ok tt, (n', w1)) /\ rtc auditStep (Service_keyring service, w1) (keys, w).

Lemma auditLives_inv keys w : auditLives keys w -> auditInv keys w.
Proof.
  intros (host & service & ctx & w0 & n & n' & w1 & Hy & Hfresh & Hs & Hlinks & Hrun & Hsteps).
  destruct (wp_run _ _ _ _ _ _ _ (Genesis_starts host w0 service ctx Hy Hfresh Hs Hlinks) Hrun) as [_ Hinv].
  by destruct (auditSteps_keep _ _ Hsteps Hinv).
Qed.

End Spec.

Section Tamper.
Context {H : Hasher} {E : Ed25519} {AC : AuditCodec} {SB : SignatureBytes}.
Context {D : Type}.

Abbreviation ring := (gmap string (list Z)).
Abbreviation entriesOf w := (aud_entries (core_audit (aw_tables w))).
Abbreviation calm host := (calmHost (host_sqlFails host) (host_sysFails host) (host_contention host)).

(** ** Tamper evidence *)

(** The anchor a journal's bytes hold: that of its last complete line. *)
Definition completePart (c : list Z) : option (list Z) :=
  if bool_decide (last c = Some newline) then Some c else
  match lastIndexByte newline c with Some i => Some (take (i + 1) c) | None => None end.

Definition anchorIn (service : Service) (c : list Z) : option anchor :=
  c' ← completePart c;
  match loadLines service None (splitByte newline (trimSuffixByte newline c')) with Ok current => current | Err _ => None end.

Lemma splitByte_nonempty b bs : splitByte b bs <> [].
Proof. destruct bs as [|x r]; simpl; [done|]. destruct (x =? b); [done|]. by destruct (splitByte b r). Qed.

Lemma loadLine_Ok service current l a : loadLine service current l = Ok a ->
  anchorUnmarshal l = Some a /\ match current with None => Anchor_Count a = 0 | Some c => Anchor_Count a = Anchor_Count c + 1 end.
Proof.
  unfold loadLine. destruct (anchorUnmarshal l) as [v|]; [|done]. intros (u & _ & Hv)%rbind_Ok.
  destruct current; apply reject_Ok in Hv as [Hb [= <-]]; (split; [done|]); rewrite !orb_false, !negb_false_iff in Hb; lia.
Qed.

Lemma loadLines_Ok service ls : forall current current', loadLines service current ls = Ok current' ->
  match current with Some c => 0 <= Anchor_Count c | None => True end ->
  match current' with
  | Some a => 0 <= Anchor_Count a /\ (ls <> [] -> (l ← last ls; anchorUnmarshal l) = Some a)
  | None => ls = [] end.
Proof.
  induction ls as [|l ls IH]; intros current current' Hl Hc; simpl in Hl; [by destruct current; simplify_eq|].
  apply rbind_Ok in Hl as (a & [Hun Ha]%loadLine_Ok & Hl). specialize (IH (Some a) current' Hl).
  destruct current' as [a'|].
  - destruct IH as [Hc' Hlast]; [destruct current; lia|]. split; [done|]. intros _. destruct ls as [|l' ls]; [|by apply Hlast].
    simpl in Hl. injection Hl as <-. done.
  - assert (ls = []) as -> by (apply IH; destruct current; lia). done.
Qed.

Lemma anchorIn_unique s1 s2 c a b : anchorIn s1 c = Some a -> anchorIn s2 c = Some b -> a = b.
Proof.
  unfold anchorIn. destruct (completePart c) as [c'|]; [|done]. simpl. set (ls := splitByte _ _).
  assert (ls <> []) as Hne by apply splitByte_nonempty.
  destruct (loadLines s1 None ls) as [cur1|] eqn:H1; [|done]. destruct (loadLines s2 None ls) as [cur2|] eqn:H2; [|done].
  intros -> ->. destruct (loadLines_Ok _ _ _ _ H1 I) as [_ Ha]. destruct (loadLines_Ok _ _ _ _ H2 I) as [_ Hb].
  specialize (Ha Hne). specialize (Hb Hne). congruence.
Qed.

Lemma loadAnchor_Ok sysFails fsyncLinks service (w : auditWorld D) :
  wp (loadAnchor sysFails fsyncLinks service) (fun r w' => aw_tables w' = aw_tables w /\ match r with
    | Ok a => 0 <= Anchor_Count a /\ exists c, file_content (aw_file w) = Some c /\ anchorIn service c = Some a
    | Err _ => True end) w.
Proof.
  assert (forall e f (Q : result unit -> auditWorld D -> Prop) w, Q (Ok tt) (f w) -> Q (Err e) w -> wp (osCall sysFails e f) Q w) as Hcall.
  { intros e f Q w1 H1 H2 n. unfold osCall. simpl. by destruct (sysFails n). }
  assert (forall w1 c c', aw_tables w1 = aw_tables w -> file_content (aw_file w) = Some c -> completePart c = Some c' ->
    wp (let! current := liftR (loadLines service None (splitByte newline (trimSuffixByte newline c'))) in retM (default noAnchor current))
      (fun r w' => aw_tables w' = aw_tables w /\ match r with
        | Ok a => 0 <= Anchor_Count a /\ exists c, file_content (aw_file w) = Some c /\ anchorIn service c = Some a
        | Err _ => True end) w1) as Hlines.
  { intros w1 c c' Ht Hc Hpart. do 2 wp_step. set (ls := splitByte _ _). assert (ls <> []) as Hne by apply splitByte_nonempty.
    destruct (loadLines service None ls) as [cur|] eqn:Hl; wp_step; [|done]. pose proof (loadLines_Ok _ _ _ _ Hl I) as Hcur.
    destruct cur as [a|]; [|done]. apply wp_ret. split; [done|]. split; [apply Hcur|]. exists c. split; [done|].
    unfold anchorIn. rewrite Hpart. cbn [mbind option_bind]. fold ls. by rewrite Hl. }
  unfold loadAnchor. wp_step. apply Hcall; [|done]. cbv [id]. do 4 wp_step. destruct (file_content (aw_file w)) as [c|] eqn:Hc; [|by apply wp_fail].
  destruct (len c =? 0); [by apply wp_fail|]. wp_step. unfold repairAnchor. unfold completePart in Hlines. case_bool_decide as Hlast.
  { apply wp_ret. wp_step. apply (Hlines _ c); [done..|]. by rewrite bool_decide_eq_true_2. }
  destruct (lastIndexByte newline c) as [i|] eqn:Hi; [|by apply wp_fail].
  do 4 (wp_step; apply Hcall; [|done]; wp_step). apply wp_ret. wp_step. apply (Hlines _ c); [done..|]. by rewrite bool_decide_eq_false_2, Hi by done.
Qed.

Lemma after_length k es : length (List.filter (fun r => k <? Audit_Sequence r) es) = length es ->
  List.filter (fun r => k <? Audit_Sequence r) es = es.
Proof.
  induction es as [|e es IH]; simpl; [done|]. destruct (k <? _); simpl; intros Hl.
  - f_equal. apply IH. lia.
  - pose proof (filter_length_le (fun r => k <? Audit_Sequence r) es). lia.
Qed.

(** What a verification that succeeds has checked. *)
Lemma verifyLocked_Ok sqlFails sysFails torn fsyncLinks clock service (w : auditWorld D) : keyOrder (entriesOf w) ->
  wp (verifyLocked sqlFails sysFails torn fsyncLinks clock service) (fun r w' => r = Ok tt ->
    goodChain (Service_keyring service) EmptyString 0 (entriesOf w) /\
    exists trusted c, file_content (aw_file w) = Some c /\ anchorIn service c = Some trusted /\
      0 <= Anchor_Count trusted <= len (entriesOf w) /\ anchorMatchesHead trusted (headOf (take (Z.to_nat (Anchor_Count trusted)) (entriesOf w))) = true) w.
Proof.
  intros Hord. unfold verifyLocked. wp_step. eapply wp_mono; [apply loadAnchor_Ok|]. intros [trusted|e] w1 [Ht Hr]; wp_step; [|done].
  destruct Hr as [Hc (c & Hfile & Hin)]. do 4 wp_step. eapply wp_mono; [apply verifyPages_spec|].
  { by rewrite Ht. }
  { simpl. pose proof (filter_length_le (fun r => 0 <? Audit_Sequence r) (entriesOf w1)). lia. }
  intros r w2 [-> [->| [-> _]]]; [|by wp_step]. rewrite Ht. cbn [startChain Chain_afterSequence]. set (es := List.filter _ (entriesOf w)).
  destruct (verifyEntries service trusted (startChain trusted) es) as [chain|e] eqn:Hv; [|by wp_step]. apply verifyEntries_spec in Hv as [Hg Hchain].
  destruct (chain_fold trusted es Hc) as (matched & Hfold & Hm1 & Hm2). rewrite Hfold in Hchain. subst chain. wp_step. wp_step. apply wp_zoom.
  eapply wp_mono; [apply GetAuditHead_spec|]. intros [head|e] t' [-> Hh]; wp_step; [|done]. destruct Hh as [_ ->].
  cbn [Chain_count Chain_afterSequence Chain_previous Chain_prefixMatched Chain_recoveryAnchors]. rewrite Ht.
  case_bool_decide as Heq; simpl negb; cbv iota; [|by apply wp_fail].
  assert (es = entriesOf w) as Hes.
  { apply after_length. rewrite (headOf_end (entriesOf w)) in Heq. injection Heq as Hl _ _. unfold len in Hl. subst es. lia. }
  rewrite Hes in *. rewrite <- headOf_end. destruct (anchorMatchesHead trusted (headOf (entriesOf w))) eqn:Hmatch.
  - apply wp_ret. intros _. split; [done|]. exists trusted, c. pose proof Hmatch as (Hcount & _ & _)%anchorMatchesHead_spec.
    rewrite headOf_end in Hcount. simpl in Hcount. split_and!; [done..|lia|lia|]. rewrite take_ge; [done|]. unfold len in Hcount. lia.
  - destruct (_ && _) eqn:Hb; [|by apply wp_fail]. apply andb_true_iff in Hb as [Hlt%Z.ltb_lt ->]. eapply wp_mono; [apply wp_any|].
    intros r w' _ _. split; [done|]. exists trusted, c. split_and!; [done..|lia|]. symmetry. apply Hm1. lia.
Qed.

(** Two entries with the same signed content: their texts are the same where
    they are valid UTF-8, and their details up to JSON white space. *)
Definition sameEntry (e1 e2 : AuditEntry) : Prop :=
  compactJSON (Audit_Details e1) = compactJSON (Audit_Details e2) /\
  Forall2 (fun s t => utf8 s -> utf8 t -> s = t) (payloadStrings (payloadOf e1)) (payloadStrings (payloadOf e2)).

(** Two entries whose different contents have one hash. *)
Definition entriesCollide (l1 l2 : list AuditEntry) : Prop :=
  exists e1 e2 b1 b2, e1 ∈ l1 /\ e2 ∈ l2 /\ entryJSON (payloadOf e1) = Some b1 /\ entryJSON (payloadOf e2) = Some b2 /\ b1 <> b2 /\ sum256 b1 = sum256 b2.

Lemma endHash_utf8 keys es : goodChain keys EmptyString 0 es -> utf8 (endHash EmptyString es).
Proof.
  intros Hg. apply utf8_ascii. pose proof (head_ascii keys es (length es) Hg) as Ha. rewrite take_ge, headOf_end in Ha by done. exact Ha.
Qed.

Lemma chains_agree keys1 keys2 l1 : forall l2, length l1 = length l2 ->
  goodChain keys1 EmptyString 0 l1 -> goodChain keys2 EmptyString 0 l2 -> endHash EmptyString l1 = endHash EmptyString l2 ->
  Forall2 sameEntry l1 l2 \/ entriesCollide l1 l2.
Proof.
  induction l1 as [|e1 l1 IH] using rev_ind; intros l2 Hlen Hg1 Hg2 Hend.
  { destruct l2; [by left|done]. }
  destruct l2 as [|e2 l2 _] using rev_ind; [rewrite length_app in Hlen; simpl in Hlen; lia|].
  rewrite !length_app in Hlen. simpl in Hlen. rewrite !endHash_snoc in Hend.
  apply goodChain_app in Hg1 as [Hg1 [(_ & Hp1 & k1 & b1 & s1 & _ & Hb1 & Hh1 & _) _]].
  apply goodChain_app in Hg2 as [Hg2 [(_ & Hp2 & k2 & b2 & s2 & _ & Hb2 & Hh2 & _) _]].
  rewrite Hh1, Hh2 in Hend. apply hexEncode_inj in Hend; [|apply sum256_bytes..].
  assert (e1 ∈ l1 ++ [e1] /\ e2 ∈ l2 ++ [e2]) as [Hin1 Hin2] by set_solver.
  destruct (decide (b1 = b2)) as [<-|Hne]; [|right; by exists e1, e2, b1, b2].
  destruct (entryJSON_inj _ _ _ Hb1 Hb2) as [Hd Hs]. pose proof Hs as Hs'. unfold payloadStrings in Hs'.
  rewrite !Forall2_cons in Hs'. destruct Hs' as (_ & _ & _ & _ & _ & _ & _ & _ & _ & Hprev & _). simpl in Hprev.
  rewrite Hp1, Hp2 in Hprev. destruct (IH l2) as [Hall|(x1 & x2 & c1 & c2 & Hx1 & Hx2 & Hr)]; [lia|done|done| | |].
  - apply Hprev; by eapply endHash_utf8.
  - left. apply Forall2_app; [done|]. constructor; [by split|constructor].
  - right. exists x1, x2, c1, c2. split_and!; [set_solver..|apply Hr|apply Hr|apply Hr|apply Hr].
Qed.

Lemma Verify_Ok host service ctx (w : auditWorld D) n x : keyOrder (entriesOf w) -> AuditVerify host service ctx (n, w) = (Ok tt, x) ->
  goodChain (Service_keyring service) EmptyString 0 (entriesOf w) /\
  exists trusted c, file_content (aw_file w) = Some c /\ anchorIn service c = Some trusted /\
    0 <= Anchor_Count trusted <= len (entriesOf w) /\ anchorMatchesHead trusted (headOf (take (Z.to_nat (Anchor_Count trusted)) (entriesOf w))) = true.
Proof.
  intros Hord Hrun. destruct x as [n' w']. refine (wp_run _ (fun r _ => r = Ok tt -> _) _ _ _ _ _ _ Hrun eq_refl).
  eapply (underLock_spec (host_sqlFails host) _ _ _ ctx _ (fun r _ _ => r = Ok tt -> _)); [|done]. intros w1 [Ht Hf].
  eapply wp_mono; [apply verifyLocked_Ok; by rewrite Ht|]. rewrite Ht, Hf. intros r w2 Hr. exact Hr.
Qed.

Lemma elem_of_take_list {A} (x : A) k l : x ∈ take k l -> x ∈ l.
Proof. intros Hx. rewrite <- (take_drop k l). apply elem_of_app. by left. Qed.

(** A journal of a living log holds the anchor of a beginning of its chain. *)
Lemma fileOK_anchorIn service es f : goodChain (Service_keyring service) EmptyString 0 es -> fileOK (Service_keyring service) es f ->
  exists c a k, file_content f = Some c /\ anchorIn service c = Some a /\ (k <= length es)%nat /\ anchorMatchesHead a (headOf (take k es)) = true.
Proof.
  intros Hg (g & c & d & Hc & _ & (ls & t & -> & Hls & Ht) & _).
  destruct (loadLines_spec service es (g :: ls) Hg 0 None) as (cur & Hload & Hcur); [apply Hls..|done|].
  destruct cur as [a|]; [|naive_solver]. destruct Hcur as (k & Hk & Hm). destruct Hls as (Ho & Hle & _). simpl in Hk, Hle.
  exists (journalBytes (g :: ls) t), a, k. split_and!; [done| |lia|done]. unfold anchorIn.
  assert (completePart (journalBytes (g :: ls) t) = Some (journalBytes (g :: ls) [])) as ->.
  { unfold completePart. case_bool_decide as Hl; [apply last_journal in Hl as ->; done|].
    destruct (lastIndex_journal (g :: ls) t) as (i & -> & ->); [done..|]. by rewrite (journalBytes_tail _ t), take_app_length. }
  cbn [mbind option_bind]. by rewrite split_journal, Hload.
Qed.

(** C14. Tamper evidence: two databases that verify against one journal file hold
    the same entries as far as the file anchors them, or two different
    entries in them have one hash. In particular neither is cut short of the
    last anchor. *)
Theorem audit_tamper_evident host1 host2 service1 service2 ctx1 ctx2 (w1 w2 : auditWorld D) n1 n2 x1 x2 :
  keyOrder (entriesOf w1) -> keyOrder (entriesOf w2) -> file_content (aw_file w1) = file_content (aw_file w2) ->
  AuditVerify host1 service1 ctx1 (n1, w1) = (Ok tt, x1) -> AuditVerify host2 service2 ctx2 (n2, w2) = (Ok tt, x2) ->
  exists trusted c, file_content (aw_file w1) = Some c /\ anchorIn service1 c = Some trusted /\
    let k := Z.to_nat (Anchor_Count trusted) in
    (k <= length (entriesOf w1))%nat /\ (k <= length (entriesOf w2))%nat /\
    (Forall2 sameEntry (take k (entriesOf w1)) (take k (entriesOf w2)) \/ entriesCollide (entriesOf w1) (entriesOf w2)).
Proof.
  intros Ho1 Ho2 Hfile Hr1 Hr2.
  destruct (Verify_Ok host1 service1 ctx1 w1 n1 x1 Ho1 Hr1) as (Hg1 & a & c & Hc1 & Ha & Hle1 & (Hn1 & _ & Hh1)%anchorMatchesHead_spec).
  destruct (Verify_Ok host2 service2 ctx2 w2 n2 x2 Ho2 Hr2) as (Hg2 & b & c' & Hc2 & Hb & Hle2 & (Hn2 & _ & Hh2)%anchorMatchesHead_spec).
  rewrite Hfile, Hc2 in Hc1. injection Hc1 as <-. pose proof (anchorIn_unique _ _ _ _ _ Ha Hb) as <-.
  exists a, c'. rewrite Hfile. set (k := Z.to_nat (Anchor_Count a)) in *. unfold len in *. split_and!; [done..|lia|lia|].
  rewrite headOf_end in Hh1, Hh2. simpl in Hh1, Hh2.
  rewrite <- (take_drop k (entriesOf w1)) in Hg1. rewrite <- (take_drop k (entriesOf w2)) in Hg2.
  apply goodChain_app in Hg1 as [Hg1 _]. apply goodChain_app in Hg2 as [Hg2 _].
  destruct (chains_agree (Service_keyring service1) (Service_keyring service2) (take k (entriesOf w1)) (take k (entriesOf w2))) as [Hall|(e1 & e2 & b1 & b2 & Hi1 & Hi2 & Hrest)];
    [rewrite !length_take; lia|done|done|congruence|by left|right].
  exists e1, e2, b1, b2. split_and!; [by eapply elem_of_take_list|by eapply elem_of_take_list|apply Hrest..].
Qed.

(** A journal that lost its genesis is never repaired: when the file is gone
    beside entries, or holds no complete line, every start fails under every
    schedule and leaves the tables and the file as they are. *)
Theorem anchor_loss_is_final host service ctx (w : auditWorld D) n r n' w' :
  (file_content (aw_file w) = None /\ entriesOf w <> []) \/ (exists c, file_content (aw_file w) = Some c /\ newline ∉ c) ->
  AuditInitialize host service ctx (n, w) = (r, (n', w')) ->
  r <> Ok tt /\ aw_tables w' = aw_tables w /\ aw_file w' = aw_file w.
Proof.
  intros Hlost Hrun. refine (wp_run _ (fun r w' => r <> Ok tt /\ aw_tables w' = aw_tables w /\ aw_file w' = aw_file w) _ _ _ _ _ _ Hrun). eapply (underLock_spec (host_sqlFails host) _ _ _ ctx _
    (fun r t f => r <> Ok tt /\ t = aw_tables w /\ f = aw_file w)); [|done].
  intros w1 [Ht Hf]. unfold initializeLocked. wp_step. apply (wp_osCall (host_sqlFails host) _ (host_contention host)); [|done]. cbv [id].
  do 4 wp_step. rewrite Hf. destruct Hlost as [[Hnone Hes]|(c & Hc & Hnl)].
  - rewrite Hnone. wp_step. apply wp_zoom. eapply wp_mono; [apply GetAuditHead_spec|]. intros [head|e] t' [-> Hh]; wp_step; [|done].
    destruct Hh as [_ ->]. rewrite Ht, headOf_end. simpl. destruct (_ =? 0) eqn:Hz; [|by apply wp_fail].
    exfalso. apply Z.eqb_eq in Hz. apply Hes, nil_length_inv. unfold len in Hz. lia.
  - rewrite Hc. unfold verifyLocked. wp_step. unfold loadAnchor. wp_step. apply (wp_osCall (host_sqlFails host) _ (host_contention host)); [|done]. cbv [id].
    do 4 wp_step. rewrite Hf, Hc. destruct (len c =? 0) eqn:Hz; [by apply wp_fail|]. wp_step. unfold repairAnchor. rewrite bool_decide_eq_false_2.
    2: { intros Hl. apply Hnl. apply last_Some in Hl as [l ->]. set_solver. }
    rewrite lastIndex_none by done. by apply wp_fail.
Qed.

End Tamper.

Section Promises.
Context {H : Hasher} {E : Ed25519} {AC : AuditCodec} {SB : SignatureBytes}.
Context {D Details : Type} (marshalDetails : Details -> option string).
Hypothesis marshal_json : forall d s, marshalDetails d = Some s -> s <> EmptyString /\ isSome (compactJSON s) = true.

Abbreviation ring := (gmap string (list Z)).
Abbreviation entriesOf w := (aud_entries (core_audit (aw_tables w))).
Abbreviation calm host := (calmHost (host_sqlFails host) (host_sysFails host) (host_contention host)).

(** ** Theorems *)

(** The audit log only grows: over appends, verifications, restarts, key
    rotations, failures and power losses every entry stays where it is, the
    chain verifies with the keys in use, and the journal file always holds a
    signed anchor of a beginning of the chain. *)
Theorem audit_append_only keys (w : auditWorld D) keys' (w' : auditWorld D) service :
  auditLives marshalDetails keys w -> rtc (auditStep marshalDetails) (keys, w) (keys', w') -> serviceOK keys' service ->
  entriesOf w `prefix_of` entriesOf w' /\ goodChain keys' EmptyString 0 (entriesOf w') /\
  exists c a k, file_content (aw_file w') = Some c /\ anchorIn service c = Some a /\ (k <= length (entriesOf w'))%nat /\
    anchorMatchesHead a (headOf (take k (entriesOf w'))) = true.
Proof.
  intros Hlive Hsteps Hs. destruct (auditSteps_keep marshalDetails marshal_json _ _ Hsteps (auditLives_inv marshalDetails marshal_json _ _ Hlive)) as [Hinv Hp]. simpl in *.
  pose proof (auditInv_mono _ _ _ (so_keys _ _ Hs) Hinv) as Hinv'. split_and!; [done|apply Hinv|].
  apply fileOK_anchorIn; apply Hinv'.
Qed.

(** C12. Recovery: from every state a living log can be in, that is, one whose
    first start succeeded on a file system where syncing a new file also makes
    its name durable, a verification in which nothing fails succeeds, leaves the tables alone and brings the
    journal up to the head of the chain; after it a canonical request is
    appended, unless the mutation it commits refuses. *)
Theorem audit_recovers keys (w : auditWorld D) host service ctx n :
  auditLives marshalDetails keys w -> serviceOK keys service -> years host -> calm host ->
  exists n' w', AuditVerify host service ctx (n, w) = (Ok tt, (n', w')) /\ aw_tables w' = aw_tables w /\
    upToDate (Service_keyring service) (aw_tables w') (aw_file w') /\
    forall transition q mutation, audited transition mutation -> acceptable marshalDetails q ->
      (exists e n2 w2, AuditAppend marshalDetails host service ctx q mutation (n', w') = (Ok e, (n2, w2)) /\
         recorded marshalDetails transition service q (aw_tables w) (aw_tables w2) e /\ upToDate (Service_keyring service) (aw_tables w2) (aw_file w2)) \/
      (exists entry m e, sealedBy marshalDetails service q entry /\ fst (mutation entry (m, aw_tables w)) = Err e).
Proof.
  intros Hlive Hs Hy Hcalm. pose proof (auditLives_inv marshalDetails marshal_json _ _ Hlive) as Hinv. pose proof (Verify_keeps host keys w service ctx Hy Hinv Hs n) as Hv.
  destruct (AuditVerify host service ctx (n, w)) as [[[]|e] [n' w']]; [|by destruct Hv as (_ & _ & [])].
  destruct Hv as (Hinv' & Ht & Hup). exists n', w'. split_and!; [done..|]. intros transition q mutation Hmut Hq.
  pose proof (Append_keeps marshalDetails marshal_json transition host _ w' service ctx q mutation Hy Hinv' (serviceOK_ring _ _ Hs) Hmut n') as Ha.
  destruct (AuditAppend marshalDetails host service ctx q mutation (n', w')) as [[e|e] [n2 w2]]; destruct Ha as [_ Hr].
  - left. destruct Hr as (Hrec & Hup2 & _). rewrite Ht in Hrec. by exists e, n2, w2.
  - right. destruct Hr as [_ Hwhy]. rewrite Ht in *. by apply Hwhy.
Qed.

(** A run of the statements of a change that went through. *)
Definition wentThrough (change : M D unit) (d d' : D) : Prop := exists k k', change (k, d) = (Ok tt, (k', d')).

(** C13. A change of the domain and its audit entry commit together or not at
    all. The change is any program over the tables of the domain, which may
    fail half way and leave rows written. Committed with an entry, the tables
    are as they were, or the change went through from the tables before to the
    tables after and the log has exactly one entry more, sealed by the service;
    so under every schedule of failures of statements, commits, the journal
    file and the change itself. When the call succeeds the anchor of that entry
    is on disk. *)
Theorem audited_atomic keys (w : auditWorld D) host service ctx q sqlFails begin commit (change : M D unit) n r n' w' :
  auditLives marshalDetails keys w -> serviceOK keys service -> years host ->
  AuditAppend marshalDetails host service ctx q (withAudit sqlFails begin commit change) (n, w) = (r, (n', w')) ->
  match r with
  | Ok e => recorded marshalDetails (wentThrough change) service q (aw_tables w) (aw_tables w') e /\
      upToDate (Service_keyring service) (aw_tables w') (aw_file w') /\ file_durable (aw_file w') = file_content (aw_file w')
  | Err _ => aw_tables w' = aw_tables w \/ exists e, recorded marshalDetails (wentThrough change) service q (aw_tables w) (aw_tables w') e
  end.
Proof.
  intros Hlive Hs Hy Hrun. pose proof (auditLives_inv marshalDetails marshal_json _ _ Hlive) as Hinv.
  assert (audited (wentThrough change) (withAudit sqlFails begin commit change)) as Hmut.
  { apply withAudit_audited. intros d k. destruct (change (k, d)) as [[[]|e] [k' d']] eqn:Hc; [by exists k, k'|done]. }
  destruct (wp_run _ _ _ _ _ _ _ (Append_keeps marshalDetails marshal_json _ host keys w service ctx q _ Hy Hinv Hs Hmut) Hrun) as [_ Hr].
  destruct r as [e|e]; [done|]. apply Hr.
Qed.

End Promises.
