(* ===== verification/AuditRuns.v ===== *)
(** * The audit log: concrete runs

    An encoding for which the laws of [AuditCodec] hold, a database with one
    counter as its domain, and runs of the service: a start, appends, a torn
    anchor, a power loss and the recovery; the witnesses of the theorems. *)

From S2P Require Import Prelude Directory Sha256 Digest Library Contract JournalFile Plan Events EventStore EventQueue Gate NanoFacts AuditStore AuditService JournalFileFacts EventRuns AuditChainFacts AuditFacts AuditSpec.
From stdpp Require Import base gmap list strings sorting countable pretty.
From Stdlib Require Import ZArith Lia.

Open Scope Z_scope.

(** ** Encodings *)

#[local] Instance anchor_eq_dec : EqDecision anchor.
Proof. solve_decision. Defined.
#[local] Instance anchor_flat : Countable anchor.
Proof.
  refine (inj_countable
    (fun r => [encode (Anchor_Version r); encode (Anchor_KeyID r); encode (Anchor_Count r); encode (Anchor_Sequence r); encode (Anchor_HeadHash r); encode (Anchor_UpdatedAt r); encode (Anchor_Signature r)])
    (fun l => match l with [x0; x1; x2; x3; x4; x5; x6] =>
      x0 ← decode x0; x1 ← decode x1; x2 ← decode x2; x3 ← decode x3; x4 ← decode x4; x5 ← decode x5; x6 ← decode x6; Some (mkAnchor x0 x1 x2 x3 x4 x5 x6)
    | _ => None end) _).
  intros r. rewrite !decode_encode. by destruct r.
Defined.

(** The fields of the hashed structures, as texts. *)
Definition payloadFields (p : entryPayload) : list string := payloadStrings p ++ [EPayload_Details p].
Definition anchorFields (p : anchorPayload) : list string * (Z * Z) :=
  ([APayload_Version p; APayload_KeyID p; APayload_HeadHash p; APayload_UpdatedAt p], (APayload_Count p, APayload_Sequence p)).

Definition packedText (p : positive) : list Z := bytes_of (base64url (posPack p)).
Definition unpackedText (b : list Z) : option positive := posUnpack <$> base64url_decode (string_of_bytes b).

Lemma packedText_spec p : unpackedText (packedText p) = Some p /\ packedText p <> [] /\ newline ∉ packedText p.
Proof.
  destruct (posPack_spec p) as [Hu Hb]. unfold unpackedText, packedText. rewrite string_of_bytes_of, base64url_roundtrip by done. simpl.
  split_and!; [by rewrite Hu| |].
  - intros Hn. apply (f_equal (fun l => base64url_decode (string_of_bytes l))) in Hn. rewrite string_of_bytes_of, base64url_roundtrip in Hn by done.
    injection Hn as Hn. unfold posPack in Hn. destruct (Pos.size_nat p) eqn:Hs; [by destruct p|]. cbn [packBytes] in Hn. by destruct (_ <? 256).
  - intros Hin. pose proof (base64url_printable _ Hb) as Hp. rewrite Forall_forall in Hp. specialize (Hp _ Hin). unfold newline in Hp. lia.
Qed.

Definition packedAudit : AuditCodec.
Proof.
  refine {| auditTime := fun t => base64url (posPack (encode t));
            compactJSON := fun s => if eqs s EmptyString then None else Some s;
            entryJSON := fun p => if eqs (EPayload_Details p) EmptyString then None else Some (posPack (encode (payloadFields p)));
            anchorPayloadJSON := fun p => posPack (encode (anchorFields p));
            anchorMarshal := fun a => Some (packedText (encode a));
            anchorUnmarshal := fun b => p ← unpackedText b; decode p |}.
  - intros t u _ _ Heq. apply base64url_inj in Heq; [|apply posPack_spec..]. apply (f_equal posUnpack) in Heq.
    rewrite !(proj1 (posPack_spec _)) in Heq. by apply (inj encode).
  - intros t. apply base64url_ascii, posPack_spec.
  - intros p. by destruct (eqs _ _).
  - intros p q b. destruct (eqs (EPayload_Details p) _) eqn:Hp; [done|]. destruct (eqs (EPayload_Details q) _) eqn:Hq; [done|].
    intros [= <-] [= Heq]. apply (f_equal posUnpack) in Heq. rewrite !(proj1 (posPack_spec _)) in Heq. apply (inj encode) in Heq.
    unfold payloadFields in Heq. apply app_inj_2 in Heq as [Hs Hd]; [|done]. injection Hd as Hd. rewrite Hd. split; [done|]. rewrite Hs. clear.
    induction (payloadStrings p); by constructor.
  - intros a _. exists (packedText (encode a)). destruct (packedText_spec (encode a)) as (Hu & Hne & Hn). split_and!; [done..|].
    rewrite Hu. simpl. by rewrite decode_encode.
Defined.

(** Signatures of 64 bytes, for keys that are bytes. *)
Definition byteEd25519 : Ed25519.
Proof.
  refine {| ed_sign := fun key message => drop 32 key ++ @sum256 foldHasher message;
            ed_verify := fun public message signature => bool_decide (signature = public ++ @sum256 foldHasher message);
            ed_key := fun key => length key = 64%nat /\ Forall is_byte key |}.
  - by intros key [? _].
  - intros key message _. by apply bool_decide_true.
Defined.

Lemma byteSignatures : @SignatureBytes byteEd25519.
Proof.
  split; simpl; intros key message [Hl Hb].
  - unfold len. rewrite length_app, length_drop, Hl, (@sum256_length foldHasher). done.
  - apply Forall_app. split; [by apply Forall_drop|apply (@sum256_bytes foldHasher)].
Qed.

(** ** A deployment *)

#[local] Existing Instance foldHasher.
#[local] Existing Instance byteEd25519.
#[local] Existing Instance packedAudit.
#[local] Existing Instance byteSignatures.

Definition audit_key : list Z := repeat 7 64.
Definition demo_service : Service :=
  match newService audit_key [] with Ok s => s | Err _ => mkService [] [] EmptyString ∅ end.

(** After a rotation: a new key, the old one kept for verification. *)
Definition rotated_key : list Z := repeat 9 64.
Definition rotated_service : Service :=
  match newService rotated_key [Public audit_key] with Ok s => s | Err _ => mkService [] [] EmptyString ∅ end.

(** Calls fail at the ticks of [fails]; a failed write gets [k] bytes out. *)
Definition demo_host (fails : nat -> bool) (k : nat) : auditHost :=
  mkHost (fun _ => false) fails (fun _ => k) (fun _ => (0%nat, true)) true (fun n => Z.of_nat n) (fun _ => 1750000000 * Second) (fun n => pretty (N.of_nat n)).
Definition calm_host : auditHost := demo_host (fun _ => false) 0.

(** The domain is a counter, and the mutation adds one to it. *)
Definition ErrDemoBegin : error := errorsNew "begin".
Definition ErrDemoCommit : error := errorsNew "commit".
Definition demo_mutation : AuditedMutation (D := Z) := withAudit (fun _ => false) ErrDemoBegin ErrDemoCommit (modS (Z.add 1)).
Definition demo_transition (d d' : Z) : Prop := d' = d + 1.

Definition audit_marshal (d : string) : option string := if eqs d EmptyString then None else Some d.
Definition audit_request : AppendRequest string := mkAppend "principal" "alice" "node.revoked" "node" "node-1" "succeeded" "{}".

Definition demo_fresh : auditWorld Z := mkWorld (mkCore 0 noAudit) (mkAnchorFile None None 0) None false.

Definition worldOf {A : Type} (x : result A * (nat * auditWorld Z)) : auditWorld Z := snd (snd x).

(** Comparing two runs, the kernel unfolds their names first. *)
#[local] Strategy 1000 [AuditInitialize AuditAppend AuditVerify].

Definition run_started := AuditInitialize (D := Z) calm_host demo_service Background (0%nat, demo_fresh).
Definition run_appended := AuditAppend audit_marshal calm_host demo_service Background audit_request demo_mutation (0%nat, worldOf run_started).
(** The write of the second anchor is torn. *)
Definition torn_host : auditHost := demo_host (fun n => bool_decide (n = 30%nat)) 30.
Definition run_torn := AuditAppend audit_marshal torn_host demo_service Background audit_request demo_mutation (10%nat, worldOf run_appended).
(** The power is lost with ten bytes of the torn tail on disk. *)
Definition demo_lost : auditWorld Z :=
  let w := worldOf run_torn in
  let image := take (length (default [] (file_durable (aw_file w))) + 10) <$> file_content (aw_file w) in
  mkWorld (aw_tables w) (mkAnchorFile image image perm_0600) (aw_lock w) false.
Definition run_recovered := AuditVerify (D := Z) calm_host rotated_service Background (0%nat, demo_lost).
Definition run_resumed := AuditAppend audit_marshal calm_host rotated_service Background audit_request demo_mutation (100%nat, worldOf run_recovered).

Definition demo_summary (w : auditWorld Z) : Z * Z * Z :=
  (core_domain (aw_tables w), len (aud_entries (core_audit (aw_tables w))), len (splitByte newline (default [] (file_content (aw_file w))))).
Definition outcome {A : Type} (x : result A * (nat * auditWorld Z)) : option error := match fst x with Ok _ => None | Err e => Some e end.

(** The runs: two entries are committed, the second without its anchor; after
    the power loss the verification writes it, and the log goes on. *)
Example audit_runs :
  map outcome [run_appended; run_torn; run_resumed] = [None; Some ErrAnchorUpdate; None] /\
  outcome run_started = None /\ outcome run_recovered = None /\
  map demo_summary [worldOf run_started; worldOf run_appended; worldOf run_torn; demo_lost; worldOf run_recovered; worldOf run_resumed] =
    [(0, 0, 2); (1, 1, 3); (2, 2, 3); (2, 2, 3); (2, 2, 4); (3, 3, 5)].
Proof. vm_compute. done. Qed.

Lemma pair_eta {A} (x : result A * (nat * auditWorld Z)) : x = (fst x, (fst (snd x), worldOf x)).
Proof. by destruct x as [r [n w]]. Qed.

Lemma demo_ring : Service_keyring demo_service = {[ Service_keyID demo_service := Public audit_key ]}.
Proof. unfold demo_service, newService. cbn [addHistorical rbind Service_keyring Service_keyID]. reflexivity. Qed.

Lemma ascii_bool s : forallb (fun b => b <? 128) (bytes_of s) = true -> ascii s.
Proof. rewrite forallb_forall. intros Hs. apply List.Forall_forall. intros b Hb. apply Z.ltb_lt. by apply Hs. Qed.

Lemma bytes_bool l : forallb (fun b => (0 <=? b) && (b <? 256)) l = true -> Forall is_byte l.
Proof. rewrite forallb_forall. intros Hs. apply List.Forall_forall. intros b Hb. specialize (Hs b Hb). unfold is_byte. lia. Qed.

Lemma demo_service_ok : serviceOK ∅ demo_service.
Proof.
  split.
  - split; [vm_compute; reflexivity|]. apply bytes_bool. vm_compute. reflexivity.
  - split; [apply ascii_bool; vm_compute; reflexivity|vm_compute; discriminate].
  - vm_compute. reflexivity.
  - apply map_empty_subseteq.
Qed.

Lemma rotated_service_ok : serviceOK (Service_keyring demo_service) rotated_service.
Proof.
  split.
  - split; [vm_compute; reflexivity|]. apply bytes_bool. vm_compute. reflexivity.
  - split; [apply ascii_bool; vm_compute; reflexivity|vm_compute; discriminate].
  - vm_compute. reflexivity.
  - rewrite demo_ring. apply map_singleton_subseteq_l. vm_compute. reflexivity.
Qed.

Lemma demo_years fails k : years (demo_host fails k).
Proof. intros n. unfold fourDigitYear. simpl. unfold Second. lia. Qed.

Lemma demo_calm : calmHost (host_sqlFails calm_host) (host_sysFails calm_host) (host_contention calm_host).
Proof. done. Qed.

Lemma demo_audited : audited demo_transition demo_mutation.
Proof. apply withAudit_audited. intros d. apply wp_mod. unfold demo_transition. lia. Qed.

Lemma audit_json d s : audit_marshal d = Some s -> s <> EmptyString /\ isSome (compactJSON s) = true.
Proof.
  unfold audit_marshal. destruct (eqs d EmptyString) eqn:Hd; [done|]. intros [= <-]. split; [by apply slen_nonempty|].
  simpl. by rewrite Hd.
Qed.

Lemma powerloss_prefix f d c k : file_durable f = Some d -> file_content f = Some c -> take (length d) c = d ->
  mayLeave f (Some (take (length d + k) c)).
Proof.
  intros Hd Hc Ht. unfold mayLeave. rewrite Hd, Hc. exists (take (length d + k) c). split_and!; [done|left; apply prefix_take|].
  intros q _ Hq. etransitivity; [exact Hq|]. rewrite <- Ht at 1. exists (take k (drop (length d) c)). by rewrite take_take_drop.
Qed.

Lemma isSome_default {A} (x : A) o : isSome o = true -> o = Some (default x o).
Proof. by destruct o. Qed.

(** The log of the runs lives. *)
Lemma demo_started_lives : auditLives audit_marshal (Service_keyring demo_service) (worldOf run_started).
Proof.
  exists calm_host, demo_service, Background, demo_fresh, 0%nat, (fst (snd run_started)), (worldOf run_started).
  split_and!; [apply demo_years|done|apply demo_service_ok|done| |apply rtc_refl].
  change (run_started = (Ok tt, (fst (snd run_started), worldOf run_started))). rewrite (pair_eta run_started) at 1. apply (f_equal (fun r => (r, (fst (snd run_started), worldOf run_started)))). vm_compute. reflexivity.
Qed.

Lemma demo_append_step host n w keys x : years host -> serviceOK keys demo_service ->
  x = AuditAppend audit_marshal host demo_service Background audit_request demo_mutation (n, w) ->
  auditStep audit_marshal (keys, w) (Service_keyring demo_service, worldOf x).
Proof.
  intros Hy Hs Hx. eapply (step_append _ host demo_service Background audit_request demo_mutation demo_transition keys w n _ _ (worldOf x));
    [done..|apply demo_audited|]. rewrite <- Hx. apply pair_eta.
Qed.

Lemma demo_lost_steps : rtc (auditStep audit_marshal) (Service_keyring demo_service, worldOf run_started) (Service_keyring demo_service, demo_lost).
Proof.
  eapply rtc_l; [apply (demo_append_step calm_host 0 _ _ run_appended); [apply demo_years|apply (serviceOK_ring ∅), demo_service_ok|reflexivity]|].
  eapply rtc_l; [apply (demo_append_step torn_host 10 _ _ run_torn); [apply demo_years|apply (serviceOK_ring ∅), demo_service_ok|reflexivity]|].
  apply rtc_once. unfold demo_lost.
  set (d := default [] (file_durable (aw_file (worldOf run_torn)))).
  rewrite (isSome_default [] (file_content (aw_file (worldOf run_torn)))) by (vm_compute; reflexivity).
  cbn [fmap option_fmap option_map]. apply step_power. apply powerloss_prefix.
  - apply isSome_default. vm_compute. reflexivity.
  - apply isSome_default. vm_compute. reflexivity.
  - vm_compute. reflexivity.
Qed.

Lemma lives_steps keys (w : auditWorld Z) keys' w' : auditLives audit_marshal keys w -> rtc (auditStep audit_marshal) (keys, w) (keys', w') -> auditLives audit_marshal keys' w'.
Proof.
  intros (host & service & ctx & w0 & n & n' & w1 & Hy & Hf & Hs & Hl & Hrun & Hsteps) Hmore.
  exists host, service, ctx, w0, n, n', w1. split_and!; [done..|]. by etransitivity.
Qed.

Lemma demo_appended_steps : rtc (auditStep audit_marshal) (Service_keyring demo_service, worldOf run_started) (Service_keyring demo_service, worldOf run_appended).
Proof. apply rtc_once, (demo_append_step calm_host 0 _ _ run_appended); [apply demo_years|apply (serviceOK_ring ∅), demo_service_ok|reflexivity]. Qed.

Lemma audit_append_only_witness :
  aud_entries (core_audit (aw_tables (worldOf run_started))) `prefix_of` aud_entries (core_audit (aw_tables demo_lost)) /\
  goodChain (Service_keyring demo_service) EmptyString 0 (aud_entries (core_audit (aw_tables demo_lost))) /\
  exists c a k, file_content (aw_file demo_lost) = Some c /\ anchorIn rotated_service c = Some a /\
    (k <= length (aud_entries (core_audit (aw_tables demo_lost))))%nat /\ anchorMatchesHead a (headOf (take k (aud_entries (core_audit (aw_tables demo_lost))))) = true.
Proof.
  apply (audit_append_only audit_marshal audit_json (Service_keyring demo_service) (worldOf run_started) (Service_keyring demo_service) demo_lost rotated_service).
  - apply demo_started_lives.
  - apply demo_lost_steps.
  - apply rotated_service_ok.
Defined.

Lemma audit_recovers_witness : exists n' w', AuditVerify calm_host rotated_service Background (0%nat, demo_lost) = (Ok tt, (n', w')) /\
  aw_tables w' = aw_tables demo_lost /\ upToDate (Service_keyring rotated_service) (aw_tables w') (aw_file w').
Proof.
  destruct (audit_recovers audit_marshal audit_json (Service_keyring demo_service) demo_lost calm_host rotated_service Background 0%nat) as (n' & w' & Hv & Ht & Hup & _).
  - eapply lives_steps; [apply demo_started_lives|apply demo_lost_steps].
  - apply rotated_service_ok.
  - apply demo_years.
  - apply demo_calm.
  - exists n', w'. split; [exact Hv|]. split; [exact Ht|exact Hup].
Defined.

Lemma torn_eta : AuditAppend audit_marshal torn_host demo_service Background audit_request demo_mutation (10%nat, worldOf run_appended) =
  (fst run_torn, (fst (snd run_torn), worldOf run_torn)).
Proof. unfold run_torn. apply pair_eta. Qed.

Lemma audited_atomic_witness : match fst run_torn with
  | Ok e => recorded audit_marshal (wentThrough (modS (Z.add 1))) demo_service audit_request (aw_tables (worldOf run_appended)) (aw_tables (worldOf run_torn)) e /\
      upToDate (Service_keyring demo_service) (aw_tables (worldOf run_torn)) (aw_file (worldOf run_torn)) /\
      file_durable (aw_file (worldOf run_torn)) = file_content (aw_file (worldOf run_torn))
  | Err _ => aw_tables (worldOf run_torn) = aw_tables (worldOf run_appended) \/
      exists e, recorded audit_marshal (wentThrough (modS (Z.add 1))) demo_service audit_request (aw_tables (worldOf run_appended)) (aw_tables (worldOf run_torn)) e
  end.
Proof.
  apply (audited_atomic audit_marshal audit_json (Service_keyring demo_service) (worldOf run_appended) torn_host demo_service Background audit_request
    (fun _ => false) ErrDemoBegin ErrDemoCommit (modS (Z.add 1)) 10%nat (fst run_torn) (fst (snd run_torn)) (worldOf run_torn)).
  - eapply lives_steps; [apply demo_started_lives|apply demo_appended_steps].
  - apply (serviceOK_ring ∅), demo_service_ok.
  - apply demo_years.
  - exact torn_eta.
Defined.

(** One journal file, with the first entry anchored, beside two databases. *)
Definition demo_ahead : auditWorld Z := mkWorld (aw_tables demo_lost) (aw_file (worldOf run_appended)) None false.
Definition run_behind := AuditVerify (D := Z) calm_host demo_service Background (0%nat, worldOf run_appended).
Definition run_ahead := AuditVerify (D := Z) calm_host demo_service Background (0%nat, demo_ahead).

Lemma world_tables (t : coreTables Z) f l b : aw_tables (mkWorld t f l b) = t.
Proof. reflexivity. Qed.
Lemma world_file (t : coreTables Z) f l b : aw_file (mkWorld t f l b) = f.
Proof. reflexivity. Qed.

Lemma verified_eta x : outcome x = None -> x = (Ok tt, (snd x)).
Proof. destruct x as [[[]|] ?]; [done|discriminate]. Qed.

Lemma audit_tamper_evident_witness : exists trusted c, file_content (aw_file (worldOf run_appended)) = Some c /\ anchorIn demo_service c = Some trusted /\
  let k := Z.to_nat (Anchor_Count trusted) in
  (k <= length (aud_entries (core_audit (aw_tables (worldOf run_appended)))))%nat /\ (k <= length (aud_entries (core_audit (aw_tables demo_ahead))))%nat /\
  (Forall2 sameEntry (take k (aud_entries (core_audit (aw_tables (worldOf run_appended))))) (take k (aud_entries (core_audit (aw_tables demo_ahead)))) \/
   entriesCollide (aud_entries (core_audit (aw_tables (worldOf run_appended)))) (aud_entries (core_audit (aw_tables demo_ahead)))).
Proof.
  apply (audit_tamper_evident calm_host calm_host demo_service demo_service Background Background (worldOf run_appended) demo_ahead 0%nat 0%nat (snd run_behind) (snd run_ahead)).
  - eapply (goodChain_order (Service_keyring demo_service)), (ai_chain (Service_keyring demo_service)), (auditLives_inv audit_marshal audit_json).
    eapply lives_steps; [apply demo_started_lives|apply demo_appended_steps].
  - unfold demo_ahead. rewrite world_tables.
    eapply (goodChain_order (Service_keyring demo_service)), (ai_chain (Service_keyring demo_service)), (auditLives_inv audit_marshal audit_json).
    eapply lives_steps; [apply demo_started_lives|apply demo_lost_steps].
  - unfold demo_ahead. by rewrite world_file.
  - unfold run_behind. apply verified_eta. vm_compute. reflexivity.
  - unfold run_ahead. apply verified_eta. vm_compute. reflexivity.
Defined.

(** The write of the genesis anchor gets ten bytes out. *)
Definition run_stillborn := AuditInitialize (D := Z) (demo_host (fun n => bool_decide (n = 11%nat)) 10) demo_service Background (0%nat, demo_fresh).
Definition run_restarted := AuditInitialize (D := Z) calm_host demo_service Background (0%nat, worldOf run_stillborn).

Lemma no_newline l : existsb (Z.eqb newline) l = false -> newline ∉ l.
Proof. intros Hn Hin. apply not_true_iff_false in Hn. apply Hn, existsb_exists. exists newline. split; [by apply list_elem_of_In|done]. Qed.

Lemma anchor_loss_is_final_witness : outcome run_stillborn = Some ErrWriteAnchor /\ outcome run_restarted = Some ErrAnchorIncomplete /\
  fst run_restarted <> Ok tt /\ aw_tables (worldOf run_restarted) = aw_tables (worldOf run_stillborn) /\ aw_file (worldOf run_restarted) = aw_file (worldOf run_stillborn).
Proof.
  split; [vm_compute; reflexivity|]. split; [vm_compute; reflexivity|].
  apply (anchor_loss_is_final calm_host demo_service Background (worldOf run_stillborn) 0%nat (fst run_restarted) (fst (snd run_restarted)) (worldOf run_restarted)).
  - right. exists (default [] (file_content (aw_file (worldOf run_stillborn)))). split; [apply isSome_default; vm_compute; reflexivity|].
    apply no_newline. vm_compute. reflexivity.
  - unfold run_restarted. apply pair_eta.
Defined.
