(* ===== verification/EnrollmentFacts.v ===== *)
(** * Enrollment: the changes of its tables, and what they keep

    What each transition of EnrollmentStore.v does when it succeeds, as a
    relation on the tables; the invariant of the tables and the facts that
    are final. *)

From S2P Require Import Prelude Library Sha256 Digest Contract JournalFile Plan Events EventStore EventIngest Gate AuditStore AuditService EnrollmentStore Enrollment EventFacts EventStoreFacts EventIngestFacts AuditChainFacts GateFacts.
From stdpp Require Import base gmap list strings sorting.
From Stdlib Require Import ZArith Lia.

Open Scope Z_scope.

(** ** The transitions *)

Definition issueT (token : EnrollmentTokenRecord) (d d' : enrollDB) : Prop :=
  (forall t, t ∈ en_tokens d -> Token_ID t <> Token_ID token /\ Token_Hash t <> Token_Hash token /\ Token_OperationID t <> Token_OperationID token) /\
  d' = setTokens (en_tokens d ++ [issuedToken token]) d.

(** The request is new in every unique column, its key is not admitted and
    its identity is not claimed. *)
Definition freshRequest (r : EnrollmentRequestRecord) (d : enrollDB) : Prop :=
  (forall x, x ∈ en_requests d -> Req_ID x <> Req_ID r /\ Req_TokenID x <> Req_TokenID r /\ Req_ProposedNodeID x <> Req_ProposedNodeID r /\
    Req_PublicKey x <> Req_PublicKey r) /\
  (forall id n, nodesOf d !! id = Some n -> Node_PublicKey n <> Req_PublicKey r) /\
  (forall i, i ∈ en_registry d -> Identity_node_id i <> Req_ProposedNodeID r /\ Identity_first_enrollment_id i <> Req_ID r).

Definition submitT (hash : list Z) (now : time) (record : EnrollmentRequestRecord) (d d' : enrollDB) : Prop :=
  exists token, tokenByHash hash d = Some token /\ Token_ConsumedAt token = None /\ now < Token_ExpiresAt token /\
    let r := submittedRequest (Token_ID token) (Token_ExpiresAt token) record in
    freshRequest r d /\
    d' = mkEnrollDB (updateWhere (openToken hash) (consumedToken now (Req_ProposedNodeID r) (Req_RequestID r) (Req_RequestDigest r)) (en_tokens d))
           (en_requests d ++ [r]) (en_registry d ++ [mkIdentity (Req_ProposedNodeID r) (Req_ID r) now]) (en_core d).

Definition approveT (id actorID operationID reasonCode : string) (tags : list string) (now : time) (node : Node) (d d' : enrollDB) : Prop :=
  exists r, requestByID id d = Some r /\ Req_Status r = statusPending /\ now < Req_ExpiresAt r /\
    (exists owner, owner ∈ en_registry d /\ Identity_node_id owner = Node_ID node /\ Identity_first_enrollment_id owner = id) /\
    nodesOf d !! Node_ID node = None /\ (forall i n, nodesOf d !! i = Some n -> Node_PublicKey n <> Node_PublicKey node) /\
    containsValue nodeStatuses (Node_Status node) = true /\
    d' = setRequests (updateWhere (pendingRow id) (decidedRequest statusApproved reasonCode operationID actorID now tags (Node_ID node)) (en_requests d))
           (setCore (setNode (Node_ID node) (admittedNode node) (en_core d)) d).

Definition denyT (id actorID operationID reasonCode : string) (now : time) (d d' : enrollDB) : Prop :=
  rowsWhere (pendingRow id) (en_requests d) = 1 /\
  d' = setRequests (updateWhere (pendingRow id)
         (fun r => decidedRequest statusDenied reasonCode operationID actorID now (Req_ApprovedTags r) (Req_NodeID r) r) (en_requests d)) d.

Definition statusT (id status : string) (now : time) (d d' : enrollDB) : Prop :=
  exists node, nodesOf d !! id = Some node /\ (Node_Status node = NodeRevoked -> status = NodeRevoked) /\ containsValue nodeStatuses status = true /\
    d' = setCore (setNode id (withNodeStatus status (if eqs status NodeRevoked then Some now else None) node) (en_core d)) d.

Definition metadataT (id name : string) (tags : list string) (d d' : enrollDB) : Prop :=
  exists node, nodesOf d !! id = Some node /\ d' = setCore (setNode id (withMetadata name tags node) (en_core d)) d.

Section Bodies.
Context (sqlFails : nat -> bool).

Abbreviation does m T := (forall d, wp m (fun r d' => match r with Ok _ => T d d' | Err _ => True end) d).
Ltac stmt := wp_step; apply wp_statement; [|done]; cbv [id].

Lemma issue_does token : does (createEnrollmentToken sqlFails token) (issueT token).
Proof.
  intros d. unfold createEnrollmentToken. stmt. do 4 wp_step. destruct (isSome _); [by apply wp_fail|].
  destruct (existsb _ _) eqn:Hex; [by apply wp_fail|]. apply wp_statement; [|done]. split; [|done]. intros t Ht.
  apply (existsb_none _ _ Hex) in Ht. rewrite !orb_false in Ht. destruct Ht as [[H1 H2] H3].
  apply eqs_false in H1. apply bool_decide_eq_false in H2. by apply eqs_false in H3.
Qed.

Lemma keyAdmitted_false key d : keyAdmitted key d = false -> forall id n, nodesOf d !! id = Some n -> Node_PublicKey n <> key.
Proof.
  intros Hk id n Hn Heq. apply elem_of_map_to_list in Hn. apply (existsb_none _ _ Hk) in Hn. simpl in Hn. by apply bool_decide_eq_false in Hn.
Qed.

Lemma claim_does nodeID enrollmentID now : does (claimNodeIdentity sqlFails nodeID enrollmentID now) (fun d d' =>
  (forall i, i ∈ en_registry d -> Identity_node_id i <> nodeID /\ Identity_first_enrollment_id i <> enrollmentID) /\
  d' = setRegistry (en_registry d ++ [mkIdentity nodeID enrollmentID now]) d).
Proof.
  intros d. unfold claimNodeIdentity. do 3 wp_step. stmt. wp_step. stmt. wp_step. destruct (existsb _ _) eqn:Hex; [by apply wp_fail|].
  apply wp_ret. split; [|done]. intros i Hi. apply (existsb_none _ _ Hex) in Hi. rewrite orb_false in Hi. split; apply eqs_false, Hi.
Qed.

Lemma insertNode_does node : does (insertNode sqlFails node) (fun d d' =>
  nodesOf d !! Node_ID node = None /\ (forall i n, nodesOf d !! i = Some n -> Node_PublicKey n <> Node_PublicKey node) /\
  containsValue nodeStatuses (Node_Status node) = true /\ d' = setCore (setNode (Node_ID node) (admittedNode node) (en_core d)) d).
Proof.
  intros d. unfold insertNode. do 3 wp_step. destruct (_ || _) eqn:Hex; [by apply wp_fail|]. rewrite !orb_false, !negb_false_iff in Hex.
  destruct Hex as [[[Hn Hk] Hs] _]. apply wp_statement; [|done]. split_and!; [by destruct (nodesOf d !! Node_ID node)|by apply keyAdmitted_false|done|done].
Qed.

Lemma consume_does failed hash now nodeID requestID digest : does (consumeToken sqlFails failed hash now nodeID requestID digest) (fun d d' =>
  d' = setTokens (updateWhere (openToken hash) (consumedToken now nodeID requestID digest) (en_tokens d)) d).
Proof.
  intros d. unfold consumeToken. do 3 wp_step. stmt. wp_step. stmt. wp_step. destruct (negb _); [by apply wp_fail|]. by apply wp_ret.
Qed.

Lemma insertRequest_does r : does (insertRequest sqlFails r) (fun d d' =>
  (forall x, x ∈ en_requests d -> Req_ID x <> Req_ID r /\ Req_TokenID x <> Req_TokenID r /\ Req_ProposedNodeID x <> Req_ProposedNodeID r) /\
  d' = setRequests (en_requests d ++ [r]) d).
Proof.
  intros d. unfold insertRequest. do 3 wp_step. destruct (existsb _ _) eqn:Hex; [by apply wp_fail|]. apply wp_statement; [|done]. split; [|done].
  intros x Hx. apply (existsb_none _ _ Hex) in Hx. rewrite !orb_false in Hx. destruct Hx as [[[H1 H2] H3] _].
  apply eqs_false in H1, H2, H3. done.
Qed.

Lemma submit_does hash now record : does (submitBody sqlFails hash now record) (submitT hash now record).
Proof.
  intros d. unfold submitBody. stmt. do 4 wp_step. destruct (tokenByHash hash d) as [token|] eqn:Ht; [|by apply wp_fail].
  destruct (isSome (Token_ConsumedAt token)) eqn:Hc; [by apply wp_fail|]. destruct (negb (now <? _)) eqn:He; [by apply wp_fail|].
  apply negb_false_iff, Z.ltb_lt in He. stmt. wp_step. destruct (_ || _) eqn:Hk; [by apply wp_fail|]. apply orb_false in Hk as [Hk1 Hk2].
  wp_step. eapply wp_mono; [apply claim_does|]. intros [[]|e] d1 Hd1; wp_step; [|done]. destruct Hd1 as [Hclaim ->].
  wp_step. eapply wp_mono; [apply insertRequest_does|]. intros [[]|e] d2 Hd2; wp_step; [|done]. destruct Hd2 as [Hins ->].
  eapply wp_mono; [apply consume_does|]. intros [[]|e] d3 Hd3; [|done]. subst d3. exists token. cbv zeta.
  split_and!; [done|by destruct (Token_ConsumedAt token)|done| |done]. split_and!.
  - intros x Hx. destruct (Hins x Hx) as (H1 & H2 & H3). split_and!; [done..|]. apply (existsb_none _ _ Hk2) in Hx. by apply bool_decide_eq_false in Hx.
  - by apply keyAdmitted_false.
  - done.
Qed.

Lemma approve_does id_ actorID operationID reasonCode tags now node :
  does (approveBody sqlFails id_ actorID operationID reasonCode tags now node) (approveT id_ actorID operationID reasonCode tags now node).
Proof.
  intros d. unfold approveBody. stmt. do 4 wp_step. destruct (requestByID id_ d) as [r|] eqn:Hr; [|by apply wp_fail].
  destruct (negb (eqs _ _)) eqn:Hs; [by apply wp_fail|]. apply negb_false_iff, eqs_true in Hs.
  destruct (negb (now <? _)) eqn:He. { stmt. wp_step. by apply wp_fail. }
  apply negb_false_iff, Z.ltb_lt in He. stmt. wp_step. destruct (identityOf (Node_ID node) d) as [owner|] eqn:Ho; [|by apply wp_fail].
  destruct (negb _) eqn:Hown; [by apply wp_fail|]. apply negb_false_iff, eqs_true in Hown.
  wp_step. eapply wp_mono; [apply insertNode_does|]. intros [[]|e] d1 Hd1; wp_step; [|done]. destruct Hd1 as (Hn & Hk & Hst & ->).
  destruct (_ || _); [by apply wp_fail|]. apply wp_statement; [|done]. exists r.
  apply find_elem in Ho as [Hin Hid%eqs_true]. split_and!; try done. by exists owner.
Qed.

Lemma deny_does id_ actorID operationID reasonCode now :
  does (denyBody sqlFails id_ actorID operationID reasonCode now) (denyT id_ actorID operationID reasonCode now).
Proof.
  intros d. unfold denyBody. do 3 wp_step. destruct (_ && _); [by apply wp_fail|]. stmt. do 3 wp_step.
  assert (forall e (d' : enrollDB), wp (failM (A := unit) e) (fun r d' => match r with Ok _ => denyT id_ actorID operationID reasonCode now d d' | Err _ => True end) d') as Hf
    by (intros; by apply wp_fail).
  apply wp_statement; wp_step; cbn [is_ok negb orb].
  - destruct (rowsWhere (pendingRow id_) (en_requests d) =? 1) eqn:Hc; cbn [negb].
    + apply Z.eqb_eq in Hc. apply wp_ret. by split.
    + do 2 wp_step. apply wp_statement; wp_step; destruct (_ && _); apply Hf.
  - do 2 wp_step. apply wp_statement; wp_step; destruct (_ && _); apply Hf.
Qed.

Lemma status_does id_ status now : does (nodeStatusBody sqlFails id_ status now) (statusT id_ status now).
Proof.
  intros d. unfold nodeStatusBody. stmt. do 4 wp_step. destruct (nodesOf d !! id_) as [node|] eqn:Hn; [|by apply wp_fail].
  destruct (_ && _) eqn:Hrev; [by apply wp_fail|]. destruct (negb (containsValue _ _)) eqn:Hs; [by apply wp_fail|].
  stmt. wp_step. apply wp_statement; [|done]. exists node. split_and!; [done| |by apply negb_false_iff|done].
  intros Heq. rewrite Heq, eqs_refl in Hrev. simpl in Hrev. by apply negb_false_iff, eqs_true in Hrev.
Qed.

Lemma metadata_does id_ name tags : does (nodeMetadataBody sqlFails id_ name tags) (metadataT id_ name tags).
Proof.
  intros d. unfold nodeMetadataBody. stmt. do 4 wp_step. destruct (nodesOf d !! id_) as [node|] eqn:Hn; [|by apply wp_fail].
  apply wp_statement; [|done]. by exists node.
Qed.

End Bodies.

(** ** The changes of the service *)

Inductive change : Type :=
| TokenIssued (id : string)
| RequestSubmitted (id : string)
| NodeAdmitted (nodeID : string)
| RequestDenied (id : string)
| StatusSet (nodeID : string)
| MetadataSet (nodeID : string).

(** How the audit log names a change: action, type and identifier. *)
Definition changeName (c : change) : string * string * string :=
  match c with
  | TokenIssued id => ("enrollment.token_created", "enrollment_token", id)
  | RequestSubmitted id => ("enrollment.requested", "enrollment_request", id)
  | NodeAdmitted id => ("node.enrolled", "node", id)
  | RequestDenied id => ("enrollment.denied", "enrollment_request", id)
  | StatusSet id => ("node.status_changed", "node", id)
  | MetadataSet id => ("node.metadata_updated", "node", id)
  end%string.

Section Changes.
Context {H : Hasher} {E : Ed25519} {EnC : EnrollCodec}.
Context (createCertificate : certificateTemplate -> Certificate -> list Z -> list Z -> option string).

(** The request was made by the holder of its key, who signed all of it. *)
Definition provenKey (r : EnrollmentRequestRecord) : Prop :=
  exists q, ProofMessage (Some q) = Ok (Req_RequestDigest r) /\ Enroll_PublicKey q = Req_PublicKey r /\
    ed_verify (Req_PublicKey r) (Req_RequestDigest r) (Enroll_ProofOfPossession q) = true /\
    Enroll_RequestId q = Req_RequestID r /\ Enroll_DisplayName q = Req_DisplayName r /\ enumName NodeType_names (Enroll_NodeType q) = Some (Req_NodeType r) /\
    Enroll_Platform q = Req_Platform r /\ (Enroll_RequestedNodeId q = EmptyString \/ Enroll_RequestedNodeId q = Req_ProposedNodeID r).

(** The scope the operator gave the token covers the request. *)
Definition withinScope (t : EnrollmentTokenRecord) (r : EnrollmentRequestRecord) : Prop :=
  exists s, descriptorUnmarshal (Token_ScopeJSON t) = Some s /\ Descriptor_AllowedTags s = Req_AllowedTags r /\
    enumName NodeType_names (Descriptor_AllowedNodeType s) = Some (Req_NodeType r).

Definition tagsWithin (tags : list string) (r : EnrollmentRequestRecord) : Prop := tags ⊆ Req_AllowedTags r /\ NoDup tags.

Inductive enrollChange (d d' : enrollDB) : change -> Prop :=
| ch_issue token : issueT token d d' -> enrollChange d d' (TokenIssued (Token_ID token))
| ch_submit hash now record : submitT hash now record d d' -> provenKey record ->
    (forall t, tokenByHash hash d = Some t -> withinScope t record) -> enrollChange d d' (RequestSubmitted (Req_ID record))
| ch_approve r actorID operationID reasonCode tags now serial authority certificate : requestByID (Req_ID r) d = Some r ->
    approveT (Req_ID r) actorID operationID reasonCode tags now (approvedNode r tags certificate now) d d' -> tagsWithin tags r ->
    IssueNodeCertificate createCertificate serial authority (Req_ProposedNodeID r) (Req_PublicKey r) now = Ok certificate ->
    enrollChange d d' (NodeAdmitted (Req_ProposedNodeID r))
| ch_deny id actorID operationID reasonCode now : denyT id actorID operationID reasonCode now d d' -> enrollChange d d' (RequestDenied id)
| ch_status id status now : statusT id status now d d' -> enrollChange d d' (StatusSet id)
| ch_metadata id name tags : metadataT id name tags d d' -> enrollChange d d' (MetadataSet id).

(** ** The invariant *)

(** The token of a request, used up by it. *)
Record usedBy (t : EnrollmentTokenRecord) (r : EnrollmentRequestRecord) : Prop := {
  ub_id : Token_ID t = Req_TokenID r;
  ub_at : is_Some (Token_ConsumedAt t);
  ub_node : Token_ConsumedByNodeID t = Req_ProposedNodeID r;
  ub_request : Token_ConsumedRequestID t = Req_RequestID r;
  ub_digest : Token_ConsumedRequestDigest t = Req_RequestDigest r;
  ub_expiry : Token_ExpiresAt t = Req_ExpiresAt r;
  ub_scope : withinScope t r;
}.

Definition decisionOK (r : EnrollmentRequestRecord) : Prop :=
  (Req_Status r = statusPending /\ Req_DecidedAt r = None) \/
  (Req_Status r = statusDenied /\ is_Some (Req_DecidedAt r)) \/
  (Req_Status r = statusApproved /\ is_Some (Req_DecidedAt r) /\ Req_NodeID r = Req_ProposedNodeID r /\ tagsWithin (Req_ApprovedTags r) r).

Record requestOK (d : enrollDB) (r : EnrollmentRequestRecord) : Prop := {
  rk_proven : provenKey r;
  rk_token : exists t, t ∈ en_tokens d /\ usedBy t r;
  rk_claim : exists i, i ∈ en_registry d /\ Identity_node_id i = Req_ProposedNodeID r /\ Identity_first_enrollment_id i = Req_ID r;
  rk_decision : decisionOK r;
}.

(** The request a node was admitted for. *)
Record admittedBy (n : Node) (r : EnrollmentRequestRecord) : Prop := {
  ab_status : Req_Status r = statusApproved;
  ab_id : Node_ID n = Req_ProposedNodeID r;
  ab_key : Node_PublicKey n = Req_PublicKey r;
  ab_type : Node_NodeType n = Req_NodeType r;
  ab_platform : Node_Platform n = Req_Platform r;
  ab_time : Req_DecidedAt r = Some (Node_EnrolledAt n);
  ab_window : Node_EnrolledAt n < Req_ExpiresAt r;
  ab_certificate : exists serial authority, IssueNodeCertificate createCertificate serial authority (Node_ID n) (Node_PublicKey n) (Node_EnrolledAt n) =
    Ok (Node_CertificatePEM n);
}.

Record nodeOK (d : enrollDB) (id : string) (n : Node) : Prop := {
  nk_id : Node_ID n = id;
  nk_status : Node_Status n ∈ nodeStatuses;
  nk_revoked : Node_Status n = NodeRevoked <-> is_Some (Node_RevokedAt n);
  nk_request : exists r, r ∈ en_requests d /\ admittedBy n r;
}.

Record enrollInv (d : enrollDB) : Prop := {
  ei_token_ids : NoDup (Token_ID <$> en_tokens d);
  ei_token_hashes : NoDup (Token_Hash <$> en_tokens d);
  ei_token_operations : NoDup (Token_OperationID <$> en_tokens d);
  ei_request_ids : NoDup (Req_ID <$> en_requests d);
  ei_request_tokens : NoDup (Req_TokenID <$> en_requests d);
  ei_request_nodes : NoDup (Req_ProposedNodeID <$> en_requests d);
  ei_request_keys : NoDup (Req_PublicKey <$> en_requests d);
  ei_requests : forall r, r ∈ en_requests d -> requestOK d r;
  ei_consumed : forall t, t ∈ en_tokens d -> is_Some (Token_ConsumedAt t) -> exists r, r ∈ en_requests d /\ usedBy t r;
  ei_nodes : forall id n, nodesOf d !! id = Some n -> nodeOK d id n;
  ei_approved : forall r, r ∈ en_requests d -> Req_Status r = statusApproved -> is_Some (nodesOf d !! Req_ProposedNodeID r);
  ei_boots : bootsKnown (en_core d);
}.

(** ** What is final *)

(** What a node is admitted with, and never loses. *)
Definition credential (n : Node) : string * string * string * string * list Z * string * time :=
  (Node_ID n, Node_NodeType n, Node_Platform n, Node_PlatformVersion n, Node_PublicKey n, Node_CertificatePEM n, Node_EnrolledAt n).

Record later (d d' : enrollDB) : Prop := {
  lt_tokens : forall t, t ∈ en_tokens d -> exists t', t' ∈ en_tokens d' /\ issuedToken t' = issuedToken t /\ (is_Some (Token_ConsumedAt t) -> t' = t);
  lt_requests : forall r, r ∈ en_requests d -> exists r', r' ∈ en_requests d' /\
    submittedRequest (Req_TokenID r') (Req_ExpiresAt r') r' = submittedRequest (Req_TokenID r) (Req_ExpiresAt r) r /\ (Req_Status r <> statusPending -> r' = r);
  lt_nodes : forall id n, nodesOf d !! id = Some n -> exists n', nodesOf d' !! id = Some n' /\ credential n' = credential n /\
    (Node_Status n = NodeRevoked -> Node_Status n' = NodeRevoked);
}.

#[export] Instance later_preorder : PreOrder later.
Proof.
  split.
  - intros d. split; naive_solver.
  - intros d1 d2 d3 [T1 R1 N1] [T2 R2 N2]. split.
    + intros t (t' & Ht' & Hi & Hc)%T1. destruct (T2 t' Ht') as (t2 & Ht2 & Hi2 & Hc2). exists t2. split_and!; [done|congruence|].
      intros Hs. pose proof (Hc Hs) as ->. by apply Hc2.
    + intros r (r' & Hr' & Hs & Hc)%R1. destruct (R2 r' Hr') as (r2 & Hr2 & Hs2 & Hc2). exists r2. split_and!; [done|congruence|].
      intros Hp. pose proof (Hc Hp) as ->. by apply Hc2.
    + intros id n (n' & Hn' & Hs & Hc)%N1. destruct (N2 id n' Hn') as (n2 & Hn2 & Hs2 & Hc2). exists n2. split_and!; [done|congruence|].
      intros Hp. by apply Hc2, Hc.
Qed.

Lemma later_tokens_open hash now node request digest l t : t ∈ l ->
  exists t', t' ∈ updateWhere (openToken hash) (consumedToken now node request digest) l /\ issuedToken t' = issuedToken t /\ (is_Some (Token_ConsumedAt t) -> t' = t).
Proof.
  apply (update_rows (fun t t' => issuedToken t' = issuedToken t /\ (is_Some (Token_ConsumedAt t) -> t' = t))); [|done].
  intros x [_ Hc]%andb_true_iff. split; [done|]. intros [? Hs]. by rewrite Hs in Hc.
Qed.

Lemma later_requests_pending id f l r : (forall x, submittedRequest (Req_TokenID (f x)) (Req_ExpiresAt (f x)) (f x) = submittedRequest (Req_TokenID x) (Req_ExpiresAt x) x) ->
  r ∈ l -> exists r', r' ∈ updateWhere (pendingRow id) f l /\
    submittedRequest (Req_TokenID r') (Req_ExpiresAt r') r' = submittedRequest (Req_TokenID r) (Req_ExpiresAt r) r /\ (Req_Status r <> statusPending -> r' = r).
Proof.
  intros Hf. apply (update_rows (fun r r' => submittedRequest (Req_TokenID r') (Req_ExpiresAt r') r' = submittedRequest (Req_TokenID r) (Req_ExpiresAt r) r
    /\ (Req_Status r <> statusPending -> r' = r))); [|done].
  intros x [_ Hs%eqs_true]%andb_true_iff. split; [apply Hf|by intros []].
Qed.

Lemma later_setNode d id n n' : nodesOf d !! id = Some n -> credential n' = credential n -> (Node_Status n = NodeRevoked -> Node_Status n' = NodeRevoked) ->
  later d (setCore (setNode id n' (en_core d)) d).
Proof.
  intros Hn Hc Hs. split; [naive_solver..|]. intros i m Hm. unfold nodesOf. simpl. destruct (decide (i = id)) as [->|Hne].
  - rewrite lookup_insert_eq. assert (m = n) as -> by congruence. by exists n'.
  - rewrite lookup_insert_ne by done. by exists m.
Qed.

Lemma change_later d d' c : enrollChange d d' c -> later d d'.
Proof.
  intros Hc. destruct Hc as [token [_ ->]|hash now record (token & _ & _ & _ & _ & ->) _ _
    |r actorID operationID reasonCode tags now serial authority certificate _ (r' & _ & _ & _ & _ & Hn & _ & _ & ->) _ _
    |id actorID operationID reasonCode now [_ ->]|id status now (n & Hn & Hr & _ & ->)|id name tags (n & Hn & ->)].
  - split; [|naive_solver..]. intros t Ht. exists t. split_and!; [simpl; set_solver|done..].
  - split; [intros t; apply later_tokens_open| |naive_solver]. intros r Hr. exists r. split_and!; [simpl; set_solver|done..].
  - split; [naive_solver|intros x; by apply later_requests_pending|]. intros i m Hm. unfold nodesOf. simpl. rewrite lookup_insert_ne; [by exists m|].
    intros Heq. simpl in Hn, Heq. congruence.
  - split; [naive_solver|intros x; by apply later_requests_pending|naive_solver].
  - by eapply later_setNode.
  - by eapply later_setNode.
Qed.

(** ** The changes keep the invariant *)

Lemma withinScope_same t t' r r' : Token_ScopeJSON t' = Token_ScopeJSON t -> Req_AllowedTags r' = Req_AllowedTags r -> Req_NodeType r' = Req_NodeType r ->
  withinScope t r -> withinScope t' r'.
Proof. intros H1 H2 H3 (s & Hs). exists s. by rewrite H1, H2, H3. Qed.

Lemma usedBy_same t r r' : submittedRequest (Req_TokenID r') (Req_ExpiresAt r') r' = submittedRequest (Req_TokenID r) (Req_ExpiresAt r) r ->
  usedBy t r -> usedBy t r'.
Proof.
  intros Heq [H1 H2 H3 H4 H5 H6 H7]. injection Heq as E1 E2 E3 E4 E5 E6 E7 E8 E9 E10 E11 E12 E13 E14.
  split; try congruence. by eapply withinScope_same.
Qed.

Lemma provenKey_same r r' : submittedRequest (Req_TokenID r') (Req_ExpiresAt r') r' = submittedRequest (Req_TokenID r) (Req_ExpiresAt r) r ->
  provenKey r -> provenKey r'.
Proof.
  intros Heq (q & Hq). exists q. injection Heq as E1 E2 E3 E4 E5 E6 E7 E8 E9 E10 E11 E12 E13 E14.
  by rewrite E3, E4, E5, E6, E7, E8, E10.
Qed.

Lemma requestOK_later d d' r : later d d' -> en_registry d ⊆ en_registry d' -> requestOK d r -> requestOK d' r.
Proof.
  intros Hl Hreg [Hp (t & Ht & Hu) (i & Hi & Hc) Hd]. split; [done| |by exists i; auto|done].
  destruct (lt_tokens _ _ Hl t Ht) as (t' & Ht' & _ & Hsame). exists t'. split; [done|]. rewrite Hsame; [done|]. apply Hu.
Qed.

(** A request that was decided, or stays open, under another decision. *)
Lemma requestOK_decided d d' r r' : later d d' -> en_registry d ⊆ en_registry d' ->
  submittedRequest (Req_TokenID r') (Req_ExpiresAt r') r' = submittedRequest (Req_TokenID r) (Req_ExpiresAt r) r -> decisionOK r' ->
  requestOK d r -> requestOK d' r'.
Proof.
  intros Hl Hreg Hsame Hdec Hr. destruct (requestOK_later d d' r Hl Hreg Hr) as [Hp (t & Ht & Hu) (i & Hi & Hc) _].
  split; [by eapply provenKey_same|exists t; split; [done|by eapply usedBy_same]| |done].
  exists i. by injection Hsame as E1 E2 E3 E4 E5 E6 E7 E8 E9 E10 E11 E12 E13 E14; rewrite E1, E5.
Qed.

Lemma nodeOK_later d d' id n : later d d' -> nodeOK d id n -> nodeOK d' id n.
Proof.
  intros Hl [H1 H2 H3 (r & Hr & Ha)]. split; [done..|]. destruct (lt_requests _ _ Hl r Hr) as (r' & Hr' & _ & Hsame). exists r'.
  split; [done|]. rewrite Hsame; [done|]. by rewrite (ab_status _ _ Ha).
Qed.

Lemma consumed_later d d' t : (forall r, r ∈ en_requests d -> exists r', r' ∈ en_requests d' /\
    submittedRequest (Req_TokenID r') (Req_ExpiresAt r') r' = submittedRequest (Req_TokenID r) (Req_ExpiresAt r) r) ->
  (exists r, r ∈ en_requests d /\ usedBy t r) -> exists r, r ∈ en_requests d' /\ usedBy t r.
Proof. intros Hr (r & (r' & Hr' & Hs)%Hr & Hu). exists r'. split; [done|]. by eapply usedBy_same. Qed.

Lemma issue_inv d d' token : enrollInv d -> issueT token d d' -> enrollInv d'.
Proof.
  intros Hi Ht. pose proof (change_later _ _ _ (ch_issue d d' token Ht)) as Hl. destruct Ht as [Hnew ->], Hi.
  split; try done; try (apply nodup_fresh; [done|]; intros t Ht; apply (Hnew t Ht)).
  - intros r Hr. eapply requestOK_later; [done..|]. by apply ei_requests0.
  - intros t [Ht|Ht%list_elem_of_singleton]%elem_of_app Hs; [by apply ei_consumed0|]. subst t. by destruct Hs.
  - intros id n Hn. eapply nodeOK_later; [done|]. by apply ei_nodes0.
Qed.

Lemma openToken_unique hash token d : NoDup (Token_Hash <$> en_tokens d) -> tokenByHash hash d = Some token -> Token_ConsumedAt token = None ->
  forall t, t ∈ en_tokens d -> openToken hash t = true <-> t = token.
Proof.
  intros Hnd Hf Hc t Ht. apply find_elem in Hf as [Hin Hh%bool_decide_eq_true]. unfold openToken. split.
  - intros [Ht2%bool_decide_eq_true _]%andb_true_iff. apply (nodup_key Token_Hash (en_tokens d)); [done..|congruence].
  - intros ->. by rewrite bool_decide_eq_true_2, Hc.
Qed.

Lemma submit_inv d d' hash now record : enrollInv d -> submitT hash now record d d' -> provenKey record ->
  (forall t, tokenByHash hash d = Some t -> withinScope t record) -> enrollInv d'.
Proof.
  intros Hi Hs Hp Hw. pose proof (change_later _ _ _ (ch_submit d d' hash now record Hs Hp Hw)) as Hl.
  destruct Hs as (token & Hf & Hc & Hexp & Hfresh & ->). specialize (Hw token Hf). set (r := submittedRequest _ _ record) in *.
  destruct Hfresh as (Hnew & Hkey & Hclaim), Hi. pose proof (openToken_unique hash token d ei_token_hashes0 Hf Hc) as Hopen.
  apply find_elem in Hf as [Hin _]. set (consume := consumedToken now (Req_ProposedNodeID r) (Req_RequestID r) (Req_RequestDigest r)) in *.
  assert (usedBy (consume token) r) as Hused. { by split. }
  split; cbn [en_tokens en_requests en_registry en_core] in *; try done; rewrite ?updateWhere_key by done; try done;
    try (apply nodup_fresh; [done|]; intros x Hx; by apply (Hnew x Hx)).
  - intros x [Hx|Hx%list_elem_of_singleton]%elem_of_app.
    + eapply requestOK_later; [done|simpl; set_solver|]. by apply ei_requests0.
    + subst x. split; [exact Hp| | |by left].
      * exists (consume token). split; [|done]. apply updateWhere_elem. exists token. split; [done|]. by rewrite (proj2 (Hopen token Hin)).
      * exists (mkIdentity (Req_ProposedNodeID r) (Req_ID r) now). split; [simpl; set_solver|done].
  - intros t (x & Hx & ->)%updateWhere_elem Hsome. destruct (openToken hash x) eqn:Ho.
    + apply Hopen in Ho as ->; [|done]. exists r. split; [set_solver|done].
    + destruct (ei_consumed0 x Hx Hsome) as (y & Hy & Hu). exists y. split; [set_solver|done].
  - intros id n Hn. eapply nodeOK_later; [done|]. by apply ei_nodes0.
  - intros x [Hx|Hx%list_elem_of_singleton]%elem_of_app Ha; [by apply ei_approved0|]. by subst x.
Qed.

(** A change of the pending rows with one identifier. *)
Lemma decided_inv d d' id f : enrollInv d -> later d d' ->
  (forall r, Req_ID (f r) = Req_ID r /\ submittedRequest (Req_TokenID (f r)) (Req_ExpiresAt (f r)) (f r) = submittedRequest (Req_TokenID r) (Req_ExpiresAt r) r) ->
  (forall r, r ∈ en_requests d -> pendingRow id r = true -> decisionOK (f r)) ->
  en_tokens d' = en_tokens d -> en_registry d' = en_registry d -> en_requests d' = updateWhere (pendingRow id) f (en_requests d) ->
  (forall i n, nodesOf d' !! i = Some n -> nodeOK d' i n) ->
  (forall r, r ∈ en_requests d' -> Req_Status r = statusApproved -> is_Some (nodesOf d' !! Req_ProposedNodeID r)) ->
  bootsKnown (en_core d') -> enrollInv d'.
Proof.
  intros Hi Hl Hf Hdec Ht Hreg Hreq Hnodes Happ Hboots. destruct Hi.
  assert (forall (B : Type) (key : EnrollmentRequestRecord -> B) , (forall r, key (submittedRequest (Req_TokenID r) (Req_ExpiresAt r) r) = key r) ->
    NoDup (key <$> en_requests d) -> NoDup (key <$> en_requests d')) as Hkeys.
  { intros B key Hkey Hnd. rewrite Hreq, updateWhere_key; [done|]. intros r. rewrite <- (Hkey (f r)), <- (Hkey r). by rewrite (proj2 (Hf r)). }
  split; rewrite ?Ht; try done; try (by apply Hkeys).
  - intros r'. rewrite Hreq. intros (r & Hr & ->)%updateWhere_elem. specialize (ei_requests0 r Hr). destruct (pendingRow id r) eqn:Hp.
    + eapply requestOK_decided; [done|by rewrite Hreg|apply Hf|by apply Hdec|done].
    + eapply requestOK_later; [done|by rewrite Hreg|done].
  - intros t Hin Hs. eapply consumed_later; [|by apply ei_consumed0]. intros r Hr.
    destruct (lt_requests _ _ Hl r Hr) as (r' & Hr' & Hsame & _). by exists r'.
Qed.

Lemma pending_unique d id r x : NoDup (Req_ID <$> en_requests d) -> requestByID id d = Some r -> x ∈ en_requests d -> pendingRow id x = true -> x = r.
Proof.
  intros Hnd Hf Hx [Hid%eqs_true _]%andb_true_iff. apply find_elem in Hf as [Hin Hid2%eqs_true]. apply (nodup_key Req_ID (en_requests d)); [done..|congruence].
Qed.

Lemma approve_inv d d' r actorID operationID reasonCode tags now serial authority certificate : enrollInv d -> requestByID (Req_ID r) d = Some r ->
  approveT (Req_ID r) actorID operationID reasonCode tags now (approvedNode r tags certificate now) d d' -> tagsWithin tags r ->
  IssueNodeCertificate createCertificate serial authority (Req_ProposedNodeID r) (Req_PublicKey r) now = Ok certificate -> enrollInv d'.
Proof.
  intros Hi Hf Ht Htags Hcert. pose proof (change_later _ _ _ (ch_approve _ _ _ _ _ _ _ _ _ _ _ Hf Ht Htags Hcert)) as Hl.
  destruct Ht as (r0 & Hf0 & Hs & Hexp & _ & Hnone & _ & _ & Hd'). assert (r0 = r) as -> by congruence. simpl in Hnone.
  set (decide_ := decidedRequest statusApproved reasonCode operationID actorID now tags (Req_ProposedNodeID r)) in *. simpl in Hd'. fold decide_ in Hd'.
  pose proof (pending_unique d (Req_ID r) r) as Huniq. pose proof (ei_request_ids _ Hi) as Hnd. pose proof Hf as Hf1. apply find_elem in Hf1 as [Hin _].
  assert (decide_ r ∈ en_requests d') as Hin'.
  { subst d'. apply updateWhere_elem. exists r. split; [done|]. unfold pendingRow. by rewrite eqs_refl, Hs, eqs_refl. }
  eapply (decided_inv d d' (Req_ID r) decide_); try done; try (by subst d').
  - intros x Hx Hp. rewrite (Huniq x Hnd Hf Hx Hp). right. right. split_and!; [done|by eexists|done|done].
  - intros i n Hn. destruct (decide (i = Req_ProposedNodeID r)) as [->|Hne].
    + assert (n = admittedNode (approvedNode r tags certificate now)) as ->.
      { subst d'. unfold nodesOf in Hn. simpl in Hn. rewrite lookup_insert_eq in Hn. congruence. }
      split; [done|by left|split; [done|by intros []]|]. exists (decide_ r). split; [done|]. split; try done. by exists serial, authority.
    + eapply nodeOK_later; [done|]. apply (ei_nodes _ Hi). subst d'. unfold nodesOf in Hn. simpl in Hn. by rewrite lookup_insert_ne in Hn.
  - intros x Hx Ha. subst d'. unfold nodesOf. simpl in *. destruct (decide (Req_ProposedNodeID x = Req_ProposedNodeID r)) as [->|Hne];
      [by rewrite lookup_insert_eq|]. rewrite lookup_insert_ne by done. apply updateWhere_elem in Hx as (y & Hy & ->).
    destruct (pendingRow (Req_ID r) y) eqn:Hp; [|by apply (ei_approved _ Hi)]. exfalso. apply Hne. by rewrite (Huniq y Hnd Hf Hy Hp).
  - subst d'. apply (ei_boots _ Hi).
Qed.

Lemma deny_inv d d' id actorID operationID reasonCode now : enrollInv d -> denyT id actorID operationID reasonCode now d d' -> enrollInv d'.
Proof.
  intros Hi Ht. pose proof (change_later _ _ _ (ch_deny _ _ _ _ _ _ _ Ht)) as Hl. destruct Ht as [_ Hd'].
  eapply (decided_inv d d' id (fun r => decidedRequest statusDenied reasonCode operationID actorID now (Req_ApprovedTags r) (Req_NodeID r) r)); try done; try (by subst d').
  - intros x Hx Hp. right. left. split; [done|by eexists].
  - intros i n Hn. eapply nodeOK_later; [done|]. apply (ei_nodes _ Hi). by subst d'.
  - intros x Hx Ha. subst d'. simpl in *. apply updateWhere_elem in Hx as (y & Hy & ->).
    destruct (pendingRow id y) eqn:Hp; [done|by apply (ei_approved _ Hi)].
  - subst d'. apply (ei_boots _ Hi).
Qed.

(** A node that keeps its credential, under another status or name. *)
Lemma setNode_inv d id n n' : enrollInv d -> nodesOf d !! id = Some n -> credential n' = credential n ->
  (Node_Status n = NodeRevoked -> Node_Status n' = NodeRevoked) -> Node_Status n' ∈ nodeStatuses ->
  (Node_Status n' = NodeRevoked <-> is_Some (Node_RevokedAt n')) -> enrollInv (setCore (setNode id n' (en_core d)) d).
Proof.
  intros Hi Hn Hc Hs Hst Hrev. pose proof (later_setNode d id n n' Hn Hc Hs) as Hl. destruct Hi. set (d' := setCore _ d) in *.
  split; try done.
  - intros r Hr. eapply requestOK_later; [done..|]. by apply ei_requests0.
  - intros i m Hm. unfold nodesOf in Hm. simpl in Hm. destruct (decide (i = id)) as [->|Hne].
    + rewrite lookup_insert_eq in Hm. injection Hm as <-. destruct (ei_nodes0 id n Hn) as [H1 H2 H3 (r & Hr & [A1 A2 A3 A4 A5 A6 A7 A8])].
      injection Hc as E1 E2 E3 E4 E5 E6 E7. split; [congruence|done..|]. exists r. split; [done|]. split; try congruence. by rewrite E1, E5, E6, E7.
    + rewrite lookup_insert_ne in Hm by done. eapply nodeOK_later; [done|]. by apply ei_nodes0.
  - intros r Hr Ha. destruct (ei_approved0 r Hr Ha) as [m Hm]. destruct (lt_nodes _ _ Hl _ _ Hm) as (m' & Hm' & _). by exists m'.
Qed.

Lemma status_inv d d' id status now : enrollInv d -> statusT id status now d d' -> enrollInv d'.
Proof.
  intros Hi (n & Hn & Hrev & Hst & ->). eapply setNode_inv; [done..| | |].
  - exact Hrev.
  - by apply containsValue_elem.
  - simpl. destruct (eqs status NodeRevoked) eqn:Hs; [apply eqs_true in Hs|apply eqs_false in Hs].
    + split; [intros _; by exists now|done].
    + split; [done|by intros []].
Qed.

Lemma metadata_inv d d' id name tags : enrollInv d -> metadataT id name tags d d' -> enrollInv d'.
Proof. intros Hi (n & Hn & ->). pose proof (ei_nodes _ Hi _ _ Hn) as [_ Hst Hrev _]. by eapply setNode_inv. Qed.

Lemma change_inv d d' c : enrollInv d -> enrollChange d d' c -> enrollInv d'.
Proof.
  intros Hi Hc. destruct Hc; [by eapply issue_inv|by eapply submit_inv|by eapply approve_inv|by eapply deny_inv|by eapply status_inv|by eapply metadata_inv].
Qed.

(** The event log touches the nodes only to say when they were seen. *)
Definition nodesSeen (m m' : gmap string Node) : Prop :=
  forall id, match m !! id with
             | None => m' !! id = None
             | Some n => exists n', m' !! id = Some n' /\ (n' = n \/ exists t, n' = seen n t)
             end.

Lemma seen_inv d core : enrollInv d -> nodesSeen (nodesOf d) (db_nodes core) -> bootsKnown core -> enrollInv (setCore core d) /\ later d (setCore core d).
Proof.
  intros Hi Hn Hb. assert (later d (setCore core d)) as Hl.
  { split; [naive_solver..|]. intros id n Hid. specialize (Hn id). rewrite Hid in Hn. destruct Hn as (n' & Hn' & Hor). exists n'.
    destruct Hor as [->|[t ->]]; done. }
  split; [|done]. destruct Hi. split; try done.
  - intros r Hr. eapply requestOK_later; [done..|]. by apply ei_requests0.
  - intros id n' Hn'. specialize (Hn id). destruct (nodesOf d !! id) as [n|] eqn:Hid; [|by unfold nodesOf in Hn'; simpl in Hn'; congruence].
    destruct Hn as (n2 & Hn2 & Hor). unfold nodesOf in Hn'. simpl in Hn'. rewrite Hn2 in Hn'. injection Hn' as <-.
    pose proof (nodeOK_later _ _ _ _ Hl (ei_nodes0 id n Hid)) as Hok. destruct Hor as [->|[t ->]]; [done|].
    destruct Hok as [H1 H2 H3 (r & Hr & [])]. split; [done..|]. exists r. split; [done|]. by split.
  - intros r Hr Ha. destruct (ei_approved0 r Hr Ha) as [m Hm]. destruct (lt_nodes _ _ Hl _ _ Hm) as (m' & Hm' & _). by exists m'.
Qed.

(** A token is found under its hash as long as it lives. *)
Lemma tokenByHash_later d d' hash t : later d d' -> enrollInv d' -> tokenByHash hash d = Some t ->
  exists t', tokenByHash hash d' = Some t' /\ issuedToken t' = issuedToken t /\ (is_Some (Token_ConsumedAt t) -> t' = t).
Proof.
  intros Hl Hi Hf. apply find_elem in Hf as [Hin Hh%bool_decide_eq_true]. destruct (lt_tokens _ _ Hl t Hin) as (t' & Hin' & Hiss & Hc).
  exists t'. split; [|done]. apply (findKey _ Token_Hash); [|apply Hi|done|].
  - intros a b Ha%bool_decide_eq_true Hb%bool_decide_eq_true. congruence.
  - apply bool_decide_eq_true. injection Hiss as _ E2 _. congruence.
Qed.

Lemma requestByToken_later d d' tokenID r : later d d' -> enrollInv d' -> requestByToken tokenID d = Some r ->
  exists r', requestByToken tokenID d' = Some r' /\
    submittedRequest (Req_TokenID r') (Req_ExpiresAt r') r' = submittedRequest (Req_TokenID r) (Req_ExpiresAt r) r.
Proof.
  intros Hl Hi Hf. apply find_elem in Hf as [Hin Ht%eqs_true]. destruct (lt_requests _ _ Hl r Hin) as (r' & Hin' & Hs & _).
  exists r'. split; [|done]. apply (findKey _ Req_TokenID); [|apply Hi|done|].
  - intros a b Ha%eqs_true Hb%eqs_true. congruence.
  - apply eqs_true. injection Hs as _ E2. congruence.
Qed.

(** The tables the migrations start with. *)
Definition noEnrollment : enrollDB := mkEnrollDB [] [] [] (mkDB [] 0 ∅ ∅ ∅ ∅).

Lemma noEnrollment_inv : enrollInv noEnrollment.
Proof. split; try apply NoDup_nil_2; try (intros ? Hx; by apply elem_of_nil in Hx); done. Qed.

End Changes.
