(* ===== verification/EnrollmentSpec.v ===== *)
(** * Enrollment: what it promises

    The operations of the service over the audit service and the tables, each
    of which makes one of the changes of EnrollmentFacts.v with one audit
    entry, or none; the life of a deployment under these operations, the
    ingestion of events, failures, restarts and power losses, and what holds
    of every deployment that lives so. The operations are taken one after the
    other. *)

From S2P Require Import Prelude Sha256 Digest Library Contract Directory JournalFile Plan Gate Events EventStore EventIngest EventQueue AuditStore AuditService EnrollmentStore Enrollment GateFacts EventFacts EventStoreFacts EventIngestFacts AuditChainFacts AuditFacts AuditSpec EnrollmentFacts.
From stdpp Require Import base gmap list strings sorting.
From Stdlib Require Import ZArith Lia.

Open Scope Z_scope.

(** The environment of one call. *)
Record enrollHost : Type := mkEnrollHost {
  eh_audit : auditHost;
  eh_clock : clockT;
  eh_serials : nat -> option Z;
}.

Section Operations.
Context {H : Hasher} {E : Ed25519} {AC : AuditCodec} {SB : SignatureBytes} {EnC : EnrollCodec} {HM : Hmac512}.
Context (parseCSR : list Z -> option certificateRequest).
Context (createCertificate : certificateTemplate -> Certificate -> list Z -> list Z -> option string).
Context (marshalDetails : list (string * auditDetail) -> option string).
Hypothesis marshal_json : forall d s, marshalDetails d = Some s -> s <> EmptyString /\ isSome (compactJSON s) = true.

Abbreviation ring := (gmap string (list Z)).
Abbreviation world := (auditWorld enrollDB).
Abbreviation tablesOf w := (core_domain (aw_tables w)).
Abbreviation entriesOf w := (aud_entries (core_audit (aw_tables w))).

Definition DoCreateToken (h : enrollHost) service ctx actorID operationID scope : M world EnrollmentToken :=
  let a := eh_audit h in
  CreateScopedToken (host_sqlFails a) (host_sysFails a) (host_torn a) (host_contention a) (host_fsyncLinks a) (host_wall a) (host_clock a) (eh_clock h)
    (host_newID a) marshalDetails service ctx actorID operationID scope.
Definition DoEnroll (h : enrollHost) service ctx request : M world EnrollmentRequest :=
  let a := eh_audit h in
  Enroll parseCSR (host_sqlFails a) (host_sysFails a) (host_torn a) (host_contention a) (host_fsyncLinks a) (host_wall a) (host_clock a) (eh_clock h)
    (host_newID a) marshalDetails service ctx request.
Definition DoApprove (h : enrollHost) service ctx actorID request : M world Node :=
  let a := eh_audit h in
  Service_Approve createCertificate (host_sqlFails a) (host_sysFails a) (host_torn a) (host_contention a) (host_fsyncLinks a) (host_wall a) (host_clock a) (eh_clock h)
    (host_newID a) (eh_serials h) marshalDetails service ctx actorID request.
Definition DoDeny (h : enrollHost) service ctx actorID request : M world EnrollmentRequest :=
  let a := eh_audit h in
  Deny (host_sqlFails a) (host_sysFails a) (host_torn a) (host_contention a) (host_fsyncLinks a) (host_wall a) (host_clock a) (eh_clock h)
    (host_newID a) marshalDetails service ctx actorID request.
Definition DoSetStatus (h : enrollHost) service ctx actorID nodeID status operationID reasonCode : M world unit :=
  let a := eh_audit h in
  SetStatusWithReason (host_sqlFails a) (host_sysFails a) (host_torn a) (host_contention a) (host_fsyncLinks a) (host_wall a) (host_clock a) (eh_clock h)
    (host_newID a) marshalDetails service ctx actorID nodeID status operationID reasonCode.
Definition DoUpdateMetadata (h : enrollHost) service ctx actorID nodeID name tags operationID : M world unit :=
  let a := eh_audit h in
  UpdateMetadataWithOperation (host_sqlFails a) (host_sysFails a) (host_torn a) (host_contention a) (host_fsyncLinks a) (host_wall a) (host_clock a)
    (host_newID a) marshalDetails service ctx actorID nodeID name tags operationID.

(** ** Tokens as text *)

Lemma parseToken_format raw : length raw = 64%nat -> Forall is_byte raw -> parseToken (enrollmentTokenPrefix +:+ base64url raw) = Ok raw.
Proof.
  intros Hl Hb. unfold parseToken. rewrite hasPrefix_app. cbn [negb]. rewrite trimPrefix_app, base64url_roundtrip by done.
  unfold len. rewrite Hl, eqs_refl. done.
Qed.

(** ** Reading *)

Abbreviation database m := (zoom aw_tables setTables (zoom core_domain setDomain m)).

Lemma wp_database {A} (m : M enrollDB A) (P : result A -> Prop) (Q : result A -> world -> Prop) w :
  wp m (fun r d' => d' = tablesOf w /\ P r) (tablesOf w) -> (forall r, P r -> Q r w) -> wp (database m) Q w.
Proof.
  intros Hm HQ. apply wp_zoom, wp_zoom. eapply wp_mono; [exact Hm|]. intros r d' [-> HP]. destruct w as [[d a] f l h]. by apply HQ.
Qed.

Section Reads.
Context (sqlFails : nat -> bool).

Lemma getToken_spec hash now d : wp (GetEnrollmentToken sqlFails hash now) (fun r d' => d' = d /\
  forall t, r = Ok t -> tokenByHash hash d = Some t /\ (is_Some (Token_ConsumedAt t) \/ now < Token_ExpiresAt t)) d.
Proof.
  unfold GetEnrollmentToken. wp_step. apply wp_statement; [|done]. cbv [id]. do 4 wp_step. destruct (tokenByHash hash d) as [t|]; [|by apply wp_fail].
  destruct (Token_ConsumedAt t) as [at_|] eqn:Hc; cbn [isSome].
  { apply wp_ret. split; [done|]. intros x [= <-]. rewrite Hc. split; [done|left; by eexists]. }
  destruct (negb _) eqn:He; [by apply wp_fail|]. apply negb_false_iff, Z.ltb_lt in He. apply wp_ret. split; [done|]. intros x [= <-]. auto.
Qed.

Lemma getTokenByOperation_spec operationID d : wp (GetEnrollmentTokenByOperation sqlFails operationID) (fun r d' => d' = d /\
  forall t, r = Ok t -> tokenByOperation operationID d = Some t) d.
Proof.
  unfold GetEnrollmentTokenByOperation. wp_step. apply wp_statement; [|done]. cbv [id]. do 4 wp_step.
  destruct (tokenByOperation operationID d) as [t|]; [|by apply wp_fail]. apply wp_ret. naive_solver.
Qed.

Lemma getRequest_spec id_ d : wp (GetEnrollmentRequest sqlFails id_) (fun r d' => d' = d /\ forall x, r = Ok x -> requestByID id_ d = Some x) d.
Proof.
  unfold GetEnrollmentRequest. wp_step. apply wp_statement; [|done]. cbv [id]. do 4 wp_step.
  destruct (requestByID id_ d) as [x|]; simpl; [|by apply wp_fail]. apply wp_ret. naive_solver.
Qed.

Lemma byteDifference_eq l : forall r, length l = length r -> byteDifference l r = 0 -> l = r.
Proof.
  induction l as [|a l IH]; intros [|b r] Hl Hd; try done. simpl in *. apply Z.lor_eq_0_iff in Hd as [Hx Hd].
  apply Z.lxor_eq in Hx as ->. f_equal. apply IH; [lia|done].
Qed.

Lemma constantBytesEqual_eq l r : constantBytesEqual l r = true -> l = r.
Proof.
  unfold constantBytesEqual, len. destruct (Z.of_nat (length l) =? Z.of_nat (length r)) eqn:Hl; [|done].
  intros Hd%Z.eqb_eq. apply Z.eqb_eq in Hl. apply byteDifference_eq; [lia|done].
Qed.

Lemma replay_reads hash requestID digest d : wp (ResolveEnrollmentRequestReplay sqlFails hash requestID digest) (fun r d' => d' = d /\
  forall x, r = Ok x -> exists t, tokenByHash hash d = Some t /\ is_Some (Token_ConsumedAt t) /\ Token_ConsumedRequestID t = requestID /\
    Token_ConsumedRequestDigest t = digest /\ requestByToken (Token_ID t) d = Some x) d.
Proof.
  unfold ResolveEnrollmentRequestReplay. wp_step. eapply wp_mono; [apply getToken_spec|]. intros [t|e] d' [-> Ht]; wp_step; [|done].
  destruct (Ht t eq_refl) as [Hh _]. destruct (_ || _) eqn:Hc; [by apply wp_fail|]. rewrite !orb_false, !negb_false_iff in Hc.
  destruct Hc as [[Hsome Hid%eqs_true] Hdig%constantBytesEqual_eq]. unfold GetEnrollmentRequestByToken. wp_step. apply wp_statement; [|done]. cbv [id]. do 4 wp_step.
  destruct (requestByToken _ d) as [x|] eqn:Hx; simpl; [|by apply wp_fail]. apply wp_ret. split; [done|]. intros y [= <-].
  exists t. split_and!; try done. by destruct (Token_ConsumedAt t).
Qed.

Lemma getNode_reads name d : wp (zoom en_core setCore (GetNode sqlFails name)) (fun r d' => d' = d /\ forall node, r = Ok node -> nodesOf d !! name = Some node) d.
Proof. apply wp_zoom. eapply wp_mono; [apply getNode_spec|]. intros r c [-> Hr]. split; [by destruct d|done]. Qed.

End Reads.

(** ** Appending *)

(** One change, and the one entry that names it. *)
Definition changed (service : EnrollmentService) (w w' : world) : Prop :=
  exists c e, enrollChange createCertificate (tablesOf w) (tablesOf w') c /\ entriesOf w' = entriesOf w ++ [e] /\
    changeName c = (Audit_Action e, Audit_ResourceType e, Audit_ResourceID e) /\ Audit_KeyID e = Service_keyID (EService_audit service).

Definition opPost (service : EnrollmentService) (w w' : world) : Prop :=
  auditInv (Service_keyring (EService_audit service)) w' /\ (aw_tables w' = aw_tables w \/ changed service w w').

Lemma append_op (h : enrollHost) keys (w : world) service ctx q mutation transition c : years (eh_audit h) -> auditInv keys w -> serviceOK keys (EService_audit service) ->
  audited transition mutation -> (forall d', transition (tablesOf w) d' -> enrollChange createCertificate (tablesOf w) d' c) ->
  changeName c = (Append_Action q, Append_ResourceType q, Append_ResourceID q) ->
  wp (AuditAppend marshalDetails (eh_audit h) (EService_audit service) ctx q mutation)
    (fun r w' => opPost service w w' /\ (is_ok r = true -> transition (tablesOf w) (tablesOf w'))) w.
Proof.
  intros Hy Hinv Hs Hmut Hc Hname. eapply wp_mono; [by eapply (Append_keeps marshalDetails marshal_json transition)|]. intros r w' [Hinv' Hr].
  specialize (Hinv' w' eq_refl eq_refl).
  assert (forall e, recorded marshalDetails transition (EService_audit service) q (aw_tables w) (aw_tables w') e -> changed service w w') as Hch.
  { intros e (Hes & [_ Hk Hf _] & Ht). exists c, e. unfold requestFields in Hf. injection Hf as E1 E2 E3 E4 E5 E6.
    split_and!; [by apply Hc|done|by rewrite Hname, E3, E4, E5|done]. }
  destruct r as [e|e].
  - destruct Hr as [Hrec _]. split; [split; [done|right; by eapply Hch]|]. intros _. apply Hrec.
  - destruct Hr as [[Hsame|[x Hrec]] _]; (split; [split; [done|]|done]); [by left|right; by eapply Hch].
Qed.

Lemma opPost_refl service keys (w : world) : auditInv keys w -> serviceOK keys (EService_audit service) -> opPost service w w.
Proof. intros Hinv Hs. split; [|by left]. eapply auditInv_mono; [apply Hs|done]. Qed.

(** ** The operations *)

Lemma wp_serial serials (Q : result (option Z) -> world -> Prop) w : (forall s, Q (Ok s) w) -> wp (randomSerial serials) Q w.
Proof. intros HQ n. apply HQ. Qed.

Section Calls.
Context (h : enrollHost) (keys : ring) (w : world) (service : EnrollmentService) (ctx : ctxT).
Hypothesis Hyears : years (eh_audit h).
Hypothesis Hinv : auditInv keys w.
Hypothesis Hservice : serviceOK keys (EService_audit service).
Hypothesis Htables : enrollInv createCertificate (tablesOf w).

(** The call makes at most one change, and what it reports is in the tables. *)
Definition callPost {A} (fact : A -> enrollDB -> Prop) (r : result A) (w' : world) : Prop :=
  opPost service w w' /\ forall x, r = Ok x -> fact x (tablesOf w').
Abbreviation posts m fact := (wp m (callPost fact) w).

Lemma callPost_err {A} (fact : A -> enrollDB -> Prop) e w' : opPost service w w' -> callPost fact (Err e) w'.
Proof. by split. Qed.

(** A token that was handed out is in the table under its hash. *)
Definition tokenKnown (x : EnrollmentToken) (d : enrollDB) : Prop :=
  exists t raw, t ∈ en_tokens d /\ Token_ID t = EToken_ID x /\ Token_ExpiresAt t = EToken_ExpiresAt x /\
    parseToken (EToken_TokenValue x) = Ok raw /\ Token_Hash t = tokenDigest raw.

Lemma resolve_known existing actorID operationID scope raw x d : length raw = 64%nat -> Forall is_byte raw -> tokenByOperation operationID d = Some existing ->
  resolveTokenOperation existing actorID scope (enrollmentTokenPrefix +:+ base64url raw) (tokenDigest raw) = Ok x -> tokenKnown x d.
Proof.
  intros Hl Hb Hf Hx. unfold resolveTokenOperation in Hx. destruct (descriptorUnmarshal _); [|done]. apply reject_Ok in Hx as [Hc [= <-]].
  rewrite !orb_false, !negb_false_iff in Hc. destruct Hc as [_ Hh%bool_decide_eq_true]. apply find_elem in Hf as [Hin _].
  exists existing, raw. split_and!; try done. by apply parseToken_format.
Qed.

Lemma derive_Ok authority actorID operationID raw : DeriveEnrollmentToken authority actorID operationID = Ok raw -> length raw = 64%nat /\ Forall is_byte raw.
Proof. intros [_ [= <-]]%reject_Ok. split; [apply hmac512_length|apply hmac512_bytes]. Qed.

Lemma create_post actorID operationID scope : posts (DoCreateToken h service ctx actorID operationID scope) tokenKnown.
Proof.
  pose proof (opPost_refl service keys w Hinv Hservice) as Hrefl. pose proof (fun e => callPost_err tokenKnown e w Hrefl) as He. unfold DoCreateToken, CreateScopedToken.
  destruct (EService_authority service) as [authority|]; [|by apply wp_fail]. destruct (negb _); [by apply wp_fail|]. destruct (_ || _); [by apply wp_fail|].
  destruct (_ || _); [by apply wp_fail|]. do 2 wp_step. destruct (TokenScope_Validate scope) as [[]|]; wp_step; [|done].
  do 2 wp_step. destruct (DeriveEnrollmentToken _ _ _) as [raw|] eqn:Hraw; wp_step; [|done]. apply derive_Ok in Hraw as [Hlen Hbytes].
  do 2 wp_step. eapply wp_database; [apply getTokenByOperation_spec|]. intros [existing|e] Hex; wp_step.
  { apply wp_lift. split; [done|]. intros x Hx. eapply resolve_known; [done..|by apply Hex|exact Hx]. }
  destruct (negb _); [by apply wp_fail|]. do 4 wp_step. apply wp_drawID. intros tokenID. wp_step.
  destruct (descriptorMarshal _) as [scopeJSON|]; [|by apply wp_fail].
  set (record := mkTokenRecord _ _ _ _ _ _ _ _ _ _ _). do 2 wp_step.
  eapply wp_mono; [eapply (append_op h keys w service ctx _ _ (issueT record) (TokenIssued (Token_ID record))); try done|].
  - apply withAudit_audited. apply issue_does.
  - intros d' Ht. by apply ch_issue.
  - intros [entry|e'] w' [Hp Ht]; wp_step.
    + apply wp_ret. split; [done|]. intros x [= <-]. destruct (Ht eq_refl) as [_ ->]. exists (issuedToken record), raw.
      split_and!; [simpl; set_solver|done|done|by apply parseToken_format|done].
    + case_bool_decide; [|by apply wp_fail]. unfold sameTokenOperation. wp_step. eapply wp_database; [apply getTokenByOperation_spec|].
      intros [t|] Hx; wp_step; [|done]. apply wp_lift. split; [done|]. intros x Hx'. eapply resolve_known; [done..|by apply Hx|exact Hx'].
Qed.

(** A request that is reported is in the table, under the token it used up. *)
Definition submissionKnown (request : option EnrollNodeRequest) (x : EnrollmentRequest) (d : enrollDB) : Prop :=
  exists q raw proof t s r, request = Some q /\ parseToken (Enroll_TokenValue q) = Ok raw /\ ProofMessage (Some q) = Ok proof /\
    ed_verify (Enroll_PublicKey q) proof (Enroll_ProofOfPossession q) = true /\
    tokenByHash (tokenDigest raw) d = Some t /\ is_Some (Token_ConsumedAt t) /\ Token_ConsumedRequestID t = Enroll_RequestId q /\
    Token_ConsumedRequestDigest t = proof /\ descriptorUnmarshal (Token_ScopeJSON t) = Some s /\ Descriptor_AllowedNodeType s = Enroll_NodeType q /\
    requestByToken (Token_ID t) d = Some r /\ enrollmentRequestToProto r = Ok x.

Lemma replay_post q raw proof t s w' : opPost service w w' -> parseToken (Enroll_TokenValue q) = Ok raw -> ProofMessage (Some q) = Ok proof ->
  ed_verify (Enroll_PublicKey q) proof (Enroll_ProofOfPossession q) = true -> tokenByHash (tokenDigest raw) (tablesOf w) = Some t ->
  descriptorUnmarshal (Token_ScopeJSON t) = Some s -> Descriptor_AllowedNodeType s = Enroll_NodeType q ->
  (forall t', tokenByHash (tokenDigest raw) (tablesOf w') = Some t' -> Token_ScopeJSON t' = Token_ScopeJSON t) ->
  wp (replayRequest (host_sqlFails (eh_audit h)) (tokenDigest raw) (Enroll_RequestId q) proof) (callPost (submissionKnown (Some q))) w'.
Proof.
  intros Hp Hraw Hproof Hver Ht Hs Hty Hscope. unfold replayRequest. wp_step. eapply wp_database; [apply replay_reads|].
  intros [x|] Hx; wp_step; [|by apply callPost_err]. apply wp_lift. split; [done|]. intros y Hy.
  destruct (Hx x eq_refl) as (t' & Hf & Hc & Hid & Hd & Hr). exists q, raw, proof, t', s, x. split_and!; try done. by rewrite (Hscope t' Hf).
Qed.

Lemma validateRequest_Ok request t q : validateRequest request t = Ok q -> request = Some q /\
  validBoundedText (Enroll_RequestId q) 128 = true /\ knownNodeType (Enroll_NodeType q) = true /\ len (Enroll_PublicKey q) = PublicKeySize.
Proof.
  unfold validateRequest. destruct request as [x|]; [|done]. intros Hv.
  apply reject_Ok in Hv as [_ Hv]. apply reject_Ok in Hv as [_ Hv]. apply rbind_Ok in Hv as (raw & _ & Hv).
  apply reject_Ok in Hv as [Hnames Hv]. apply reject_Ok in Hv as [Htype Hv]. apply reject_Ok in Hv as [_ Hv]. apply reject_Ok in Hv as [_ Hv].
  apply reject_Ok in Hv as [_ Hv]. apply reject_Ok in Hv as [Hsize Hv]. apply rbind_Ok in Hv as (u & _ & [= <-]).
  rewrite !orb_false, !negb_false_iff in *. split_and!; [done|apply Hnames|done|]. by apply Z.eqb_eq, Hsize.
Qed.

Lemma enroll_post request : posts (DoEnroll h service ctx request) (submissionKnown request).
Proof.
  pose proof (opPost_refl service keys w Hinv Hservice) as Hrefl. pose proof (fun e => callPost_err (submissionKnown request) e w Hrefl) as He. unfold DoEnroll, Enroll.
  destruct (EService_authority service) as [authority|]; [|by apply wp_fail]. destruct (negb _); [by apply wp_fail|].
  do 5 wp_step. destruct (validateRequest request _) as [q|] eqn:Hv; wp_step; [|done]. apply validateRequest_Ok in Hv as (-> & Hid & Htype & _).
  do 2 wp_step. destruct (parseToken _) as [raw|] eqn:Hraw; wp_step; [|done]. set (hash := tokenDigest raw).
  wp_step. eapply wp_database; [apply getToken_spec|]. intros [record|] Hrec; wp_step; [|done]. specialize (Hrec record eq_refl) as [Hrec _].
  destruct (descriptorUnmarshal _) as [s|] eqn:Hscope; [|by apply wp_fail]. destruct (negb _) eqn:Hallowed; [by apply wp_fail|].
  apply negb_false_iff, Z.eqb_eq in Hallowed. do 2 wp_step. destruct (validateRequestedNodeID _ _ _) as [[]|]; wp_step; [|done].
  do 2 wp_step. destruct (ProofMessage (Some q)) as [proof|] eqn:Hproof; wp_step; [|done].
  destruct (negb (ed_verify _ _ _)) eqn:Hver; [by apply wp_fail|]. apply negb_false_iff in Hver.
  destruct (isSome _) eqn:Hopen; [eapply replay_post; [done..|]; intros t' Ht'; unfold hash in Hrec; congruence|].
  do 2 wp_step. destruct (validateCSR _ q) as [[]|]; wp_step; [|done]. do 2 wp_step. destruct (validateCapabilities _ _) as [[]|]; wp_step; [|done].
  destruct (_ ≫= _) as [capabilities|]; [|by apply wp_fail].
  wp_step. eapply (wp_mono _ (fun r w' => w' = w /\ exists nodeID, r = Ok nodeID /\ (Enroll_RequestedNodeId q = EmptyString \/ Enroll_RequestedNodeId q = nodeID))).
  { destruct (eqs _ _) eqn:Heq; [apply eqs_true in Heq; apply wp_drawID|apply wp_ret]; naive_solver. }
  intros r w' [-> (nodeID & -> & Hnode)]. wp_step. wp_step. apply wp_drawID. intros enrollmentID. wp_step.
  set (record' := mkRequestRecord _ _ _ _ _ _ _ _ _ _ _ _ _ _ _ _ _ _ _ _ _).
  assert (enumName NodeType_names (Enroll_NodeType q) = Some (Req_NodeType record')) as Hname.
  { apply andb_true_iff in Htype as [Hk _]. simpl. by destruct (enumName _ _). }
  do 2 wp_step. eapply wp_mono; [eapply (append_op h keys w service ctx _ _ (submitT hash _ record') (RequestSubmitted (Req_ID record'))); try done|].
  - apply withAudit_audited. apply submit_does.
  - intros d' Ht. eapply ch_submit; [exact Ht| |].
    + exists q. by split_and!.
    + intros t Ht'. assert (t = record) as -> by (unfold hash in *; congruence). exists s. split_and!; [done..|]. by rewrite Hallowed.
  - intros [entry|e'] w' [Hp Ht]; wp_step.
    + apply wp_lift. split; [done|]. intros x Hx. destruct (Ht eq_refl) as (token & Htok & _ & _ & (Hnew & _) & ->).
      assert (token = record) as -> by (unfold hash in *; congruence). simpl in Hnew.
      exists q, raw, proof, (consumedToken (eh_clock h n) nodeID (Enroll_RequestId q) proof record), s, record'.
      split_and!; try done.
      * unfold tokenByHash. simpl. rewrite find_updateWhere by done. fold hash. unfold tokenByHash in Hrec. rewrite Hrec. simpl.
        apply find_elem in Hrec as [_ Hh]. unfold openToken. by rewrite Hh, Hopen.
      * unfold requestByToken. simpl. apply find_last; [apply eqs_refl|]. intros y Hy. apply eqs_false. apply (Hnew y Hy).
    + case_bool_decide; [|by apply wp_fail]. eapply replay_post; [done..|]. intros t' Ht'. destruct Hp as [_ [Hsame|(c & e & Hch & _)]]; [rewrite Hsame in Ht'; unfold hash in Hrec; congruence|].
      destruct (tokenByHash_later _ _ _ _ _ (change_later _ _ _ _ Hch) (change_inv _ _ _ _ Htables Hch) Hrec) as (t2 & Ht2 & Hiss & _).
      assert (t2 = t') as -> by (unfold hash in *; congruence). by injection Hiss.
Qed.

Lemma approvedTags_Ok allowed tags : forall seen, approvedTags allowed seen tags = Ok tt -> tags ⊆ allowed /\ NoDup tags /\ (forall t, t ∈ tags -> t ∉ seen).
Proof.
  induction tags as [|tag tags IH]; intros seen Hok; simpl in Hok; [split_and!; [set_solver|apply NoDup_nil_2|set_solver]|].
  apply reject_Ok in Hok as [_ Hok]. apply reject_Ok in Hok as [Ha Hok]. apply reject_Ok in Hok as [Hs Hok]. destruct (IH _ Hok) as (H1 & H2 & H3).
  apply negb_false_iff, containsValue_elem in Ha. assert (tag ∉ seen) as Hn. { intros Hin%containsValue_elem. congruence. }
  split_and!; [set_solver| |set_solver]. apply NoDup_cons. split; [|done]. intros Hin. specialize (H3 tag Hin). set_solver.
Qed.

(** A node that is reported is in the table. *)
Definition nodeKnown (x : Node) (d : enrollDB) : Prop := exists id n, nodesOf d !! id = Some n /\ credential n = credential x.

Lemma approve_post actorID request : posts (DoApprove h service ctx actorID request) nodeKnown.
Proof.
  pose proof (opPost_refl service keys w Hinv Hservice) as Hrefl. pose proof (fun e => callPost_err nodeKnown e w Hrefl) as He. unfold DoApprove, Service_Approve.
  destruct (EService_authority service) as [authority|]; [|by apply wp_fail]. destruct (negb _); [by apply wp_fail|].
  destruct request as [q|]; [|by apply wp_fail]. destruct (_ || _); [by apply wp_fail|]. destruct (32 <? _); [by apply wp_fail|].
  wp_step. eapply wp_database; [apply getRequest_spec|]. intros [r|] Hr; wp_step; [|done]. specialize (Hr r eq_refl).
  assert (requestByID (Req_ID r) (tablesOf w) = Some r) as Hr'. { pose proof (find_elem _ _ _ Hr) as [_ Hid%eqs_true]. by rewrite Hid. }
  destruct (_ && _). { destruct (_ || _); [by apply wp_fail|]. eapply wp_database; [apply getNode_reads|].
    intros x Hx. split; [done|]. intros node ->. exists (Req_NodeID r), node. split; [by apply Hx|done]. }
  destruct (negb _); [by apply wp_fail|]. do 2 wp_step. wp_step. destruct (negb _); [by apply wp_fail|].
  do 2 wp_step. destruct (approvedTags _ _ _) as [[]|] eqn:Htags; wp_step; [|done]. apply approvedTags_Ok in Htags as (Hsub & Hnd & _).
  do 4 wp_step. apply wp_serial. intros serial. do 3 wp_step.
  destruct (IssueNodeCertificate _ _ _ _ _ _) as [certificate|] eqn:Hcert; wp_step; [|done].
  set (node := approvedNode _ _ _ _). wp_step.
  eapply wp_mono; [eapply (append_op h keys w service ctx _ _ (approveT (Req_ID r) _ _ _ _ _ node) (NodeAdmitted (Req_ProposedNodeID r))); try done|].
  - apply withAudit_audited. apply approve_does.
  - intros d' Ht. by eapply ch_approve.
  - intros [entry|e'] w' [Hp Ht]; wp_step; [|done]. apply wp_ret. split; [done|]. intros x [= <-].
    destruct (Ht eq_refl) as (r0 & _ & _ & _ & _ & _ & _ & _ & ->). exists (Node_ID node), (admittedNode node). unfold nodesOf. simpl.
    by rewrite lookup_insert_eq.
Qed.

Definition denialKnown (x : EnrollmentRequest) (d : enrollDB) : Prop :=
  exists r, r ∈ en_requests d /\ Req_Status r = statusDenied /\ enrollmentRequestToProto r = Ok x.

Lemma deny_post actorID request : posts (DoDeny h service ctx actorID request) denialKnown.
Proof.
  pose proof (opPost_refl service keys w Hinv Hservice) as Hrefl. pose proof (fun e => callPost_err denialKnown e w Hrefl) as He. unfold DoDeny, Deny. destruct (negb _); [by apply wp_fail|].
  destruct request as [q|]; [|by apply wp_fail]. destruct (_ || _); [by apply wp_fail|].
  wp_step. eapply wp_database; [apply getRequest_spec|]. intros [r|] Hr; wp_step; [|done].
  pose proof (find_elem _ _ _ (Hr r eq_refl)) as [Hin _].
  destruct (_ && _) eqn:Hden. { apply andb_true_iff in Hden as [Hden%eqs_true _]. destruct (_ || _); [by apply wp_fail|]. apply wp_lift. split; [done|].
    intros x Hx. by exists r. }
  destruct (negb _) eqn:Hpend; [by apply wp_fail|]. apply negb_false_iff, eqs_true in Hpend. do 4 wp_step.
  eapply wp_mono; [eapply (append_op h keys w service ctx _ _ (denyT (Req_ID r) _ _ _ _) (RequestDenied (Req_ID r))); try done|].
  - apply withAudit_audited. apply deny_does.
  - intros d' Ht. by eapply ch_deny.
  - intros [entry|e'] w' [Hp Ht]; wp_step; [|done]. apply wp_lift. split; [done|]. intros x Hx. destruct (Ht eq_refl) as [_ ->].
    eexists. split; [apply updateWhere_elem; exists r; split; [done|reflexivity]|]. unfold pendingRow. by rewrite eqs_refl, Hpend, eqs_refl.
Qed.

Lemma status_post actorID nodeID status operationID reasonCode : posts (DoSetStatus h service ctx actorID nodeID status operationID reasonCode)
  (fun _ d => exists n, nodesOf d !! nodeID = Some n /\ Node_Status n = status).
Proof.
  pose proof (opPost_refl service keys w Hinv Hservice) as Hrefl. unfold DoSetStatus, SetStatusWithReason. destruct (_ || _); [by apply wp_fail|].
  destruct (_ || _); [by apply wp_fail|]. do 4 wp_step.
  eapply wp_mono; [eapply (append_op h keys w service ctx _ _ (statusT nodeID status _) (StatusSet nodeID)); try done|].
  - exact (withAudit_audited _ _ _ _ _ (status_does _ nodeID status _)).
  - intros d' Ht. by eapply ch_status.
  - intros [entry|e'] w' [Hp Ht]; wp_step; [|done]. apply wp_ret. split; [done|]. intros _ _. destruct (Ht eq_refl) as (n2 & _ & _ & _ & ->).
    unfold nodesOf. simpl. rewrite lookup_insert_eq. by eexists.
Qed.

Lemma metadata_post actorID nodeID name tags operationID : posts (DoUpdateMetadata h service ctx actorID nodeID name tags operationID)
  (fun _ d => exists n, nodesOf d !! nodeID = Some n /\ Node_DisplayName n = name /\ Node_Tags n = tags).
Proof.
  pose proof (opPost_refl service keys w Hinv Hservice) as Hrefl. unfold DoUpdateMetadata, UpdateMetadataWithOperation. destruct (_ || _); [by apply wp_fail|].
  destruct (_ && _); [by apply wp_fail|]. do 2 wp_step. destruct (TokenScope_Validate _) as [[]|]; wp_step; [|done]. wp_step.
  eapply wp_mono; [eapply (append_op h keys w service ctx _ _ (metadataT nodeID name tags) (MetadataSet nodeID)); try done|].
  - apply withAudit_audited. apply metadata_does.
  - intros d' Ht. by eapply ch_metadata.
  - intros [entry|e'] w' [Hp Ht]; wp_step; [|done]. apply wp_ret. split; [done|]. intros _ _. destruct (Ht eq_refl) as (n2 & _ & ->).
    unfold nodesOf. simpl. rewrite lookup_insert_eq. by eexists.
Qed.

End Calls.
(** ** Calls *)

Inductive enrollCall : Type :=
| CallCreateToken (actorID operationID : string) (scope : TokenScope)
| CallEnroll (request : option EnrollNodeRequest)
| CallApprove (actorID : string) (request : option ApproveEnrollmentRequest)
| CallDeny (actorID : string) (request : option DenyEnrollmentRequest)
| CallSetStatus (actorID nodeID status operationID reasonCode : string)
| CallUpdateMetadata (actorID nodeID name : string) (tags : list string) (operationID : string).

Inductive callResult : Type :=
| ReturnsToken (x : EnrollmentToken)
| ReturnsRequest (x : EnrollmentRequest)
| ReturnsNode (x : Node)
| ReturnsNothing.

Definition runCall (h : enrollHost) (service : EnrollmentService) (ctx : ctxT) (c : enrollCall) : M world callResult :=
  match c with
  | CallCreateToken actorID operationID scope => let! x := DoCreateToken h service ctx actorID operationID scope in retM (ReturnsToken x)
  | CallEnroll request => let! x := DoEnroll h service ctx request in retM (ReturnsRequest x)
  | CallApprove actorID request => let! x := DoApprove h service ctx actorID request in retM (ReturnsNode x)
  | CallDeny actorID request => let! x := DoDeny h service ctx actorID request in retM (ReturnsRequest x)
  | CallSetStatus actorID nodeID status operationID reasonCode =>
      run! DoSetStatus h service ctx actorID nodeID status operationID reasonCode in retM ReturnsNothing
  | CallUpdateMetadata actorID nodeID name tags operationID =>
      run! DoUpdateMetadata h service ctx actorID nodeID name tags operationID in retM ReturnsNothing
  end.

(** What a call that reports success has in the tables. *)
Definition callFact (c : enrollCall) (x : callResult) (d : enrollDB) : Prop :=
  match c, x with
  | CallCreateToken _ _ _, ReturnsToken x => tokenKnown x d
  | CallEnroll request, ReturnsRequest x => submissionKnown request x d
  | CallApprove _ _, ReturnsNode x => nodeKnown x d
  | CallDeny _ _, ReturnsRequest x => denialKnown x d
  | CallSetStatus _ nodeID status _ _, ReturnsNothing => exists n, nodesOf d !! nodeID = Some n /\ Node_Status n = status
  | CallUpdateMetadata _ nodeID name tags _, ReturnsNothing =>
      exists n, nodesOf d !! nodeID = Some n /\ Node_DisplayName n = name /\ Node_Tags n = tags
  | _, _ => False
  end.

Lemma callPost_ret {A B} service (w : world) (fact : A -> enrollDB -> Prop) (fact' : B -> enrollDB -> Prop) (m : M world A) (f : A -> B) :
  wp m (callPost w service fact) w -> (forall x d, fact x d -> fact' (f x) d) -> wp (let! x := m in retM (f x)) (callPost w service fact') w.
Proof.
  intros Hm Hf. wp_step. eapply wp_mono; [exact Hm|]. intros [x|e] w' [Hp Hx]; wp_step; [|by apply callPost_err]. apply wp_ret. split; [done|].
  intros y [= <-]. by apply Hf, Hx.
Qed.

Lemma call_post h keys (w : world) service ctx c : years (eh_audit h) -> auditInv keys w -> serviceOK keys (EService_audit service) ->
  enrollInv createCertificate (tablesOf w) -> wp (runCall h service ctx c) (callPost w service (callFact c)) w.
Proof.
  intros Hy Hinv Hs Ht. destruct c; (eapply callPost_ret; [eapply create_post || eapply enroll_post || eapply approve_post || eapply deny_post
    || eapply status_post || eapply metadata_post; done|done]).
Qed.

End Operations.

(** ** The life of a deployment *)

Section Life.
Context {H : Hasher} {E : Ed25519} {AC : AuditCodec} {SB : SignatureBytes} {EnC : EnrollCodec} {HM : Hmac512} {EC : EventCodec}.
Context (parseCSR : list Z -> option certificateRequest).
Context (createCertificate : certificateTemplate -> Certificate -> list Z -> list Z -> option string).
Context (marshalDetails : list (string * auditDetail) -> option string).
Hypothesis marshal_json : forall d s, marshalDetails d = Some s -> s <> EmptyString /\ isSome (compactJSON s) = true.
Context (checkMessage : string -> list Z -> string -> result unit) (validateOpaqueProtobuf : list Z -> result unit) (wireSize : wireEvent -> Z).
Context (parseCertificate : string -> option Certificate) (checkSignatureFrom : string -> Certificate -> bool).
Context (deploymentID : string) (caCertificate : Certificate).

Abbreviation ring := (gmap string (list Z)).
Abbreviation world := (auditWorld enrollDB).
Abbreviation tablesOf w := (core_domain (aw_tables w)).
Abbreviation Run := (runCall parseCSR createCertificate marshalDetails).
Abbreviation Ingest sqlFails clock := (Store_Append checkMessage validateOpaqueProtobuf wireSize sqlFails parseCertificate checkSignatureFrom clock deploymentID caCertificate).

(** The store of the events over the tables, and the tables after it ran. *)
Definition storeOn (w : world) (next : nat) (channels : gmap nat channel) (subscribers : gset nat) : Store :=
  mkStore (en_core (tablesOf w)) next channels subscribers.
Definition withStore (w : world) (s : Store) : world :=
  setTables (setDomain (setCore (St_database s) (tablesOf w)) (aw_tables w)) w.

(** A call of the service; an event that a node sends; and, with the tables as
    they are, what the audit log lives through: verification, restarts with
    old or new keys, entries of other parts and power losses. *)
Inductive enrollStep : ring * world -> ring * world -> Prop :=
| step_call h service ctx c keys w n r n' w' : years (eh_audit h) -> serviceOK keys (EService_audit service) ->
    Run h service ctx c (n, w) = (r, (n', w')) -> enrollStep (keys, w) (Service_keyring (EService_audit service), w')
| step_event sqlFails clock next channels subscribers e keys w n r n' s' :
    Ingest sqlFails clock e (n, storeOn w next channels subscribers) = (r, (n', s')) -> enrollStep (keys, w) (keys, withStore w s')
| step_audit x y : auditStep marshalDetails x y -> tablesOf y.2 = tablesOf x.2 -> enrollStep x y.

Definition enrollLives (keys : ring) (w : world) : Prop :=
  exists keys0 w0, auditLives marshalDetails keys0 w0 /\ tablesOf w0 = noEnrollment /\ rtc enrollStep (keys0, w0) (keys, w).

Lemma ingest_keeps sqlFails clock e s : bootsKnown (St_database s) ->
  wp (Ingest sqlFails clock e) (fun r s' => nodesSeen (db_nodes (St_database s)) (db_nodes (St_database s')) /\ bootsKnown (St_database s') /\
    (db_events (St_database s') = db_events (St_database s) /\ r <> Ok true \/
     exists node, db_nodes (St_database s) !! Event_NodeID e = Some node /\ Node_Status node = NodeActive)) s.
Proof.
  intros Hk. eapply wp_mono; [by apply store_append_spec|]. intros r s' [((d & -> & c & ->) & Hne & _)|Hst].
  - cbn. split_and!; [|done|by left]. intros id. destruct (db_nodes _ !! id) as [n|] eqn:Hn; [|done]. exists n. auto.
  - destruct Hst as (t & _ & _ & _ & encoded & d1 & d2 & (node & Hnode & Hact & _) & _ & Hacc & (c & ->) & Hs).
    assert (St_database s' = mkDB (db_events d1) (db_ordinal d1) (db_state d1) (db_boots d1) (db_nodes d1) c) as ->.
    { by destruct Hs as [[_ ->]|(_ & stored & ->)]; [|rewrite (proj2 (publish_next _ _))]. }
    split_and!; [|by apply (accepted_known _ _ _ _ Hk Hacc)|right; by exists node].
    intros id. pose proof (acc_nodes _ _ _ _ Hacc id) as Hn. cbn. destruct (db_nodes (St_database s) !! id) as [n|]; [|done].
    destruct Hn as (n' & Hn' & Hor). exists n'. split; [done|]. destruct Hor as [->| ->]; [by left|right; by eexists].
Qed.

Lemma opPost_keeps service w w' : enrollInv createCertificate (tablesOf w) -> opPost createCertificate service w w' ->
  enrollInv createCertificate (tablesOf w') /\ later (tablesOf w) (tablesOf w').
Proof.
  intros Ht [_ [->|(c & e & Hch & _)]]; [done|]. split; [by eapply change_inv|by eapply change_later].
Qed.

Lemma enrollStep_keeps x y : enrollStep x y -> auditInv x.1 x.2 -> enrollInv createCertificate (tablesOf x.2) ->
  auditInv y.1 y.2 /\ enrollInv createCertificate (tablesOf y.2) /\ later (tablesOf x.2) (tablesOf y.2).
Proof.
  intros Hstep Ha Ht. destruct Hstep as [h service ctx c keys w n r n' w' Hy Hs Hrun|sqlFails clock next channels subscribers e keys w n r n' s' Hrun
    |x y Hstep Hsame]; simpl in *.
  - destruct (wp_run _ _ _ _ _ _ _ (call_post _ _ _ marshal_json h keys w service ctx c Hy Ha Hs Ht) Hrun) as [Hp _].
    split; [apply Hp|]. by eapply opPost_keeps.
  - pose proof (wp_run _ _ _ _ _ _ _ (ingest_keeps sqlFails clock e (storeOn w next channels subscribers) (ei_boots _ _ Ht)) Hrun) as (Hseen & Hboots & _).
    split; [by destruct Ha|]. by apply seen_inv.
  - destruct (auditStep_keeps marshalDetails marshal_json x y Hstep Ha) as [Ha' _]. by rewrite Hsame.
Qed.

Lemma enrollSteps_keep x y : rtc enrollStep x y -> auditInv x.1 x.2 -> enrollInv createCertificate (tablesOf x.2) ->
  auditInv y.1 y.2 /\ enrollInv createCertificate (tablesOf y.2) /\ later (tablesOf x.2) (tablesOf y.2).
Proof.
  induction 1 as [x|x y z Hxy _ IH]; intros Ha Ht; [done|]. destruct (enrollStep_keeps x y Hxy Ha Ht) as (Ha' & Ht' & Hl).
  destruct (IH Ha' Ht') as (Ha'' & Ht'' & Hl'). split_and!; [done..|]. by transitivity (tablesOf y.2).
Qed.

Lemma enrollLives_inv keys w : enrollLives keys w -> auditInv keys w /\ enrollInv createCertificate (tablesOf w).
Proof.
  intros (keys0 & w0 & Hlive & Hempty & Hsteps).
  destruct (enrollSteps_keep _ _ Hsteps (auditLives_inv marshalDetails marshal_json _ _ Hlive)) as (Ha & Ht & _); [|done].
  simpl. rewrite Hempty. apply noEnrollment_inv.
Qed.

(** ** Theorems *)

(** C15. Every call of the enrollment service, under every schedule of failures,
    leaves the tables as they are or makes exactly one change that the
    specification allows, together with exactly one audit entry, signed by the
    service, that names the change; and what a call reports as done is in the
    tables. *)
Theorem enrollment_refines keys w h service ctx c n r n' w' :
  enrollLives keys w -> serviceOK keys (EService_audit service) -> years (eh_audit h) -> Run h service ctx c (n, w) = (r, (n', w')) ->
  (aw_tables w' = aw_tables w \/ changed createCertificate service w w') /\ (forall x, r = Ok x -> callFact c x (tablesOf w')).
Proof.
  intros [Ha Ht]%enrollLives_inv Hs Hy Hrun.
  destruct (wp_run _ _ _ _ _ _ _ (call_post _ _ _ marshal_json h keys w service ctx c Hy Ha Hs Ht) Hrun) as [[_ Hp] Hx]. done.
Qed.

(** C16. Every node of a living deployment was admitted by an operator: there is
    a request, decided before it expired, for this identity, key and kind of
    node, signed with the key; it used up a token whose scope allowed the kind
    of node and covers the tags that were approved; and no other node was
    admitted under that token. *)
Theorem admitted_by_operator keys w id n :
  enrollLives keys w -> nodesOf (tablesOf w) !! id = Some n ->
  Node_ID n = id /\ Node_Status n ∈ nodeStatuses /\ exists r t, r ∈ en_requests (tablesOf w) /\ t ∈ en_tokens (tablesOf w) /\
    admittedBy createCertificate n r /\ provenKey r /\ usedBy t r /\ tagsWithin (Req_ApprovedTags r) r /\
    forall id' n' r', nodesOf (tablesOf w) !! id' = Some n' -> r' ∈ en_requests (tablesOf w) -> admittedBy createCertificate n' r' -> usedBy t r' -> id' = id.
Proof.
  intros [_ Ht]%enrollLives_inv Hn. destruct (ei_nodes _ _ Ht _ _ Hn) as [Hid Hst _ (r & Hr & Hab)].
  destruct (ei_requests _ _ Ht r Hr) as [Hp (t & Hin & Hu) _ Hd]. split_and!; [done..|]. exists r, t. split_and!; try done.
  - destruct Hd as [[Hs _]|[[Hs _]|(_ & _ & _ & Htags)]]; [by rewrite (ab_status _ _ _ Hab) in Hs..|done].
  - intros id' n' r' Hn' Hr' Hab' Hu'. assert (r' = r) as ->.
    { apply (nodup_key Req_TokenID (en_requests (tablesOf w))); [apply Ht|done..|]. by rewrite <- (ub_id _ _ Hu), <- (ub_id _ _ Hu'). }
    rewrite <- (nk_id _ _ _ _ (ei_nodes _ _ Ht _ _ Hn')). rewrite <- Hid. by rewrite (ab_id _ _ _ Hab), (ab_id _ _ _ Hab').
Qed.

(** Decisions are final. Along every life of a deployment a consumed token and
    a decided request stay as they are, a node keeps the credential it was
    admitted with, and a revoked node stays revoked: no event of it is stored
    or published again. *)
Theorem decisions_final keys w keys' w' :
  enrollLives keys w -> rtc enrollStep (keys, w) (keys', w') ->
  later (tablesOf w) (tablesOf w') /\
  forall id n sqlFails clock next channels subscribers e m r m' s', nodesOf (tablesOf w) !! id = Some n -> Node_Status n = NodeRevoked -> Event_NodeID e = id ->
    Ingest sqlFails clock e (m, storeOn w' next channels subscribers) = (r, (m', s')) -> r <> Ok true /\ db_events (St_database s') = db_events (en_core (tablesOf w')).
Proof.
  intros [Ha Ht]%enrollLives_inv Hsteps. destruct (enrollSteps_keep _ _ Hsteps Ha Ht) as (_ & Ht' & Hl). split; [done|].
  intros id n sqlFails clock next channels subscribers e m r m' s' Hn Hrev <- Hrun. simpl in Hl. destruct (lt_nodes _ _ Hl _ _ Hn) as (n2 & Hn2 & _ & Hst).
  pose proof (wp_run _ _ _ _ _ _ _ (ingest_keeps sqlFails clock e (storeOn w' next channels subscribers) (ei_boots _ _ Ht')) Hrun) as (_ & _ & [[Hev Hr]|(node & Hnode & Hact)]); [done|].
  exfalso. specialize (Hst Hrev). simpl in Hnode. unfold nodesOf in Hn2. simpl in Hn2. rewrite Hnode in Hn2. injection Hn2 as <-. by rewrite Hact in Hst.
Qed.

(** ** Retries *)

Section Total.
Context (sqlFails : nat -> bool).
Hypothesis calm : forall n, sqlFails n = false.

Lemma statement_total {T} e (f : T -> T) (Q : result unit -> T -> Prop) s : Q (Ok tt) (f s) -> wp (statement sqlFails e f) Q s.
Proof. intros HQ n. unfold statement. simpl. by rewrite calm. Qed.

Lemma getToken_total hash now t d : tokenByHash hash d = Some t -> is_Some (Token_ConsumedAt t) ->
  wp (GetEnrollmentToken sqlFails hash now) (fun r d' => d' = d /\ r = Ok t) d.
Proof.
  intros Ht [at_ Hc]. unfold GetEnrollmentToken. wp_step. apply statement_total. cbv [id]. do 4 wp_step. rewrite Ht, Hc. cbn [isSome]. by apply wp_ret.
Qed.

Lemma constantBytesEqual_refl l : constantBytesEqual l l = true.
Proof.
  unfold constantBytesEqual. rewrite Z.eqb_refl. cbn [negb]. apply Z.eqb_eq. induction l as [|a l IH]; [done|]. simpl. by rewrite Z.lxor_nilpotent, IH.
Qed.

Lemma replay_total hash t r d : tokenByHash hash d = Some t -> is_Some (Token_ConsumedAt t) -> requestByToken (Token_ID t) d = Some r ->
  wp (ResolveEnrollmentRequestReplay sqlFails hash (Token_ConsumedRequestID t) (Token_ConsumedRequestDigest t)) (fun res d' => d' = d /\ res = Ok r) d.
Proof.
  intros Ht Hc Hr. unfold ResolveEnrollmentRequestReplay. wp_step. eapply wp_mono; [by apply (getToken_total _ _ t)|]. intros res d' [-> ->]. wp_step.
  rewrite eqs_refl, constantBytesEqual_refl. destruct Hc as [at_ ->]. cbn [isSome negb orb]. unfold GetEnrollmentRequestByToken.
  wp_step. apply statement_total. cbv [id]. do 4 wp_step. rewrite Hr. by apply wp_ret.
Qed.
End Total.

(** What a reported request keeps when its row is decided. *)
Lemma toProto_later r r' x : submittedRequest (Req_TokenID r') (Req_ExpiresAt r') r' = submittedRequest (Req_TokenID r) (Req_ExpiresAt r) r -> decisionOK r' ->
  enrollmentRequestToProto r = Ok x -> exists y, enrollmentRequestToProto r' = Ok y /\ Enrollment_Id y = Enrollment_Id x /\
    Enrollment_ProposedNodeId y = Enrollment_ProposedNodeId x /\ Enrollment_PublicKey y = Enrollment_PublicKey x.
Proof.
  intros Hs Hd. unfold enrollmentRequestToProto. injection Hs as E1 E2 E3 E4 E5 E6 E7 E8 E9 E10 E11 E12 E13 E14. rewrite E7, E11.
  destruct (claimsUnmarshal _) as [m|]; [|done]. destruct (enumValue EnrollmentStatus_names _) as [st|]; [|done].
  destruct (enumValue NodeType_names _) as [ty|]; [|done]. intros [= <-].
  destruct Hd as [[-> _]|[[-> _]|(-> & _)]]; (eexists; split; [reflexivity|simpl; by rewrite E1, E5, E10]).
Qed.

Lemma replay_run h service ctx q w2 d1 x : later d1 (tablesOf w2) -> enrollInv createCertificate (tablesOf w2) ->
  submissionKnown (Some q) x d1 -> (forall n, host_sqlFails (eh_audit h) n = false) -> (forall n, is_ok (validateRequest (Some q) (eh_clock h n)) = true) ->
  EService_storage service = true -> (exists authority, EService_authority service = Some authority /\
    validateRequestedNodeID (Enroll_RequestedNodeId q) (Authority_DeploymentID authority) (Authority_OperatorID authority) = Ok tt) ->
  wp (DoEnroll parseCSR marshalDetails h service ctx (Some q)) (fun r w' => w' = w2 /\ exists y, r = Ok y /\ Enrollment_Id y = Enrollment_Id x /\
    Enrollment_ProposedNodeId y = Enrollment_ProposedNodeId x /\ Enrollment_PublicKey y = Enrollment_PublicKey x) w2.
Proof.
  intros Hl Hi (q0 & raw & proof & t & s & r & [= <-] & Hraw & Hproof & Hver & Ht & Hc & Hid & Hdig & Hs & Hty & Hr & Hx) Hsql Hvalid Hst (authority & Hau & Hnode).
  destruct (tokenByHash_later _ _ _ _ _ Hl Hi Ht) as (t2 & Ht2 & _ & Hsame). rewrite (Hsame Hc) in Ht2. clear t2 Hsame.
  destruct (requestByToken_later _ _ _ _ _ Hl Hi Hr) as (r2 & Hr2 & Hrr). assert (decisionOK r2) as Hd2.
  { apply find_elem in Hr2 as [Hin _]. apply (ei_requests _ _ Hi r2 Hin). }
  destruct (toProto_later r r2 x Hrr Hd2 Hx) as (y & Hy & Hsame).
  unfold DoEnroll, Enroll. rewrite Hau, Hst. cbn [negb]. do 5 wp_step. specialize (Hvalid n).
  destruct (validateRequest (Some q) _) as [q'|] eqn:Hv; [|done]. apply validateRequest_Ok in Hv as ([= <-] & _). wp_step.
  do 2 wp_step. rewrite Hraw. wp_step. wp_step. eapply wp_database; [by apply (getToken_total _ Hsql _ _ t)|]. intros res ->. wp_step. rewrite Hs, Hty, Z.eqb_refl. cbn [negb].
  do 2 wp_step. rewrite Hnode. wp_step. do 2 wp_step. rewrite Hproof. wp_step. rewrite Hver. cbn [negb]. pose proof Hc as [at_ Hat]. rewrite Hat. cbn [isSome].
  unfold replayRequest. wp_step. rewrite <- Hid, <- Hdig. eapply wp_database; [by apply (replay_total _ Hsql _ t r2)|]. intros res ->. wp_step.
  rewrite Hy. apply wp_lift. split; [done|]. by exists y.
Qed.

(** An answered request named an identity that was available. *)
Lemma enroll_authority h service ctx q n w x n1 w1 : DoEnroll parseCSR marshalDetails h service ctx (Some q) (n, w) = (Ok x, (n1, w1)) ->
  exists authority, EService_authority service = Some authority /\
    validateRequestedNodeID (Enroll_RequestedNodeId q) (Authority_DeploymentID authority) (Authority_OperatorID authority) = Ok tt.
Proof.
  intros Hrun. refine (wp_run _ (fun r _ => match r with Ok _ => exists authority, EService_authority service = Some authority /\
    validateRequestedNodeID (Enroll_RequestedNodeId q) (Authority_DeploymentID authority) (Authority_OperatorID authority) = Ok tt | Err _ => True end) _ _ _ _ _ _ Hrun).
  unfold DoEnroll, Enroll. destruct (EService_authority service) as [authority|]; [|by apply wp_fail]. destruct (negb _); [by apply wp_fail|].
  do 5 wp_step. destruct (validateRequest (Some q) _) as [q'|] eqn:Hv; wp_step; [|done]. apply validateRequest_Ok in Hv as ([= <-] & _).
  do 2 wp_step. destruct (parseToken _) as [raw|]; wp_step; [|done]. wp_step. eapply (wp_mono _ (fun _ _ => True)); [apply wp_any|].
  intros [record|] w' _; wp_step; [|done]. destruct (descriptorUnmarshal _) as [s|]; [|by apply wp_fail]. destruct (negb _); [by apply wp_fail|].
  do 2 wp_step. destruct (validateRequestedNodeID _ _ _) as [[]|] eqn:Hnode; wp_step; [|done].
  eapply wp_mono; [apply wp_any|]. intros [y|] w'' _; [by exists authority|done].
Qed.

(** A request can be retried. Once Core has answered it, the same request
    gets the same enrollment again, whatever happened since and whoever has
    decided it, as long as its claims are still valid and reads do not fail;
    and the retry changes nothing. *)
Theorem enroll_retry keys w h service ctx q n x n1 w1 keys2 w2 h2 service2 ctx2 n2 :
  enrollLives keys w -> serviceOK keys (EService_audit service) -> years (eh_audit h) ->
  DoEnroll parseCSR marshalDetails h service ctx (Some q) (n, w) = (Ok x, (n1, w1)) ->
  rtc enrollStep (Service_keyring (EService_audit service), w1) (keys2, w2) ->
  EService_storage service2 = true -> EService_authority service2 = EService_authority service ->
  (forall m, host_sqlFails (eh_audit h2) m = false) -> (forall m, is_ok (validateRequest (Some q) (eh_clock h2 m)) = true) ->
  exists y n3, DoEnroll parseCSR marshalDetails h2 service2 ctx2 (Some q) (n2, w2) = (Ok y, (n3, w2)) /\
    Enrollment_Id y = Enrollment_Id x /\ Enrollment_ProposedNodeId y = Enrollment_ProposedNodeId x /\ Enrollment_PublicKey y = Enrollment_PublicKey x.
Proof.
  intros [Ha Ht]%enrollLives_inv Hs Hy Hrun Hsteps Hst2 Hau2 Hsql Hvalid.
  destruct (wp_run _ _ _ _ _ _ _ (enroll_post parseCSR createCertificate marshalDetails marshal_json h keys w service ctx Hy Ha Hs Ht (Some q)) Hrun) as [Hp Hx].
  destruct (opPost_keeps service w w1 Ht Hp) as [Ht1 _]. destruct (enrollSteps_keep _ _ Hsteps (proj1 Hp) Ht1) as (_ & Ht2 & Hl2). simpl in *.
  destruct (enroll_authority h service ctx q n w x n1 w1 Hrun) as (authority & Hau & Hnode).
  pose proof (replay_run h2 service2 ctx2 q w2 (tablesOf w1) x Hl2 Ht2 (Hx x eq_refl) Hsql Hvalid Hst2) as Hr.
  specialize (Hr (ex_intro _ authority (conj (eq_trans Hau2 Hau) Hnode)) n2). destruct (DoEnroll _ _ h2 _ _ _ _) as [res [n3 w3]].
  destruct Hr as [-> (y & -> & Hy')]. by exists y, n3.
Qed.

End Life.

(** * Credentials: the text of a token and the certificate of a node

    The text of an enrollment token is canonical, and the certificate an
    approval issues is one that the ingestion of events accepts, within the
    window of the deployment's authority. *)

(** The text of a token is canonical: exactly the version prefix and the
    unpadded base64url of 64 bytes is accepted, so a token has one text, and
    every 64 bytes have a text that is read back. *)
Theorem token_text_canonical value raw :
  (parseToken value = Ok raw -> value = enrollmentTokenPrefix +:+ base64url raw /\ length raw = 64%nat) /\
  (length raw = 64%nat -> Forall is_byte raw -> parseToken (enrollmentTokenPrefix +:+ base64url raw) = Ok raw).
Proof.
  split; [|apply parseToken_format]. unfold parseToken. intros [Hp Hv]%reject_Ok. apply negb_false_iff, trimPrefix_split in Hp.
  destruct (base64url_decode _) as [bytes|]; [|done]. apply reject_Ok in Hv as [Hc [= ->]]. rewrite orb_false, !negb_false_iff in Hc.
  destruct Hc as [Hl%Z.eqb_eq He%eqs_true]. rewrite He. split; [done|]. unfold len in Hl. lia.
Qed.

(** The times of a certificate are whole seconds. *)
Definition wholeSecond (t : time) : time := t - t mod Second.

Section Issue.
Context (createCertificate : certificateTemplate -> Certificate -> list Z -> list Z -> option string).
Context (parseCertificate : string -> option Certificate) (checkSignatureFrom : string -> Certificate -> bool).
Context (authority : Authority).
Abbreviation ca := (Authority_CACert authority).

(** What [x509.CreateCertificate] documents, for an authority whose key is that
    of its certificate: the certificate parses to what the template says, and
    its signature verifies under the parent. *)
Hypothesis created : forall template publicKey pem, createCertificate template ca publicKey (Authority_caKey authority) = Some pem ->
  parseCertificate pem = Some (mkCertificate (wholeSecond (Template_NotBefore template)) (wholeSecond (Template_NotAfter template)) (Some publicKey)
    (Template_CommonName template) (Template_Organization template) true) /\ checkSignatureFrom pem ca = true.

Lemma wholeSecond_range t : t - Second < wholeSecond t <= t.
Proof. unfold wholeSecond. pose proof (Z.mod_pos_bound t Second). unfold Second in *. lia. Qed.

Lemma wholeSecond_mono t u : t <= u -> wholeSecond t <= wholeSecond u.
Proof.
  intros Htu. unfold wholeSecond. assert (0 < Second) as Hs by (unfold Second; lia).
  pose proof (Z.div_mod t Second). pose proof (Z.div_mod u Second). pose proof (Z.div_le_mono t u Second Hs Htu). nia.
Qed.

Lemma issued_window serial nodeID publicKey t pem : IssueNodeCertificate createCertificate serial authority nodeID publicKey t = Ok pem ->
  Cert_NotBefore ca <= t < Cert_NotAfter ca /\ exists notBefore notAfter,
    parseCertificate pem = Some (mkCertificate (wholeSecond notBefore) (wholeSecond notAfter) (Some publicKey) nodeID [Authority_DeploymentID authority] true) /\
    checkSignatureFrom pem ca = true /\
    notBefore = Z.max (t - 5 * Minute) (Cert_NotBefore ca) /\ notAfter = Z.min (addYears 1 t) (Cert_NotAfter ca).
Proof.
  unfold IssueNodeCertificate. intros [_ Hi]%reject_Ok. apply reject_Ok in Hi as [Hw Hi]. rewrite orb_false, negb_false_iff in Hw.
  destruct serial as [serial|]; [|done]. apply reject_Ok in Hi as [_ Hi]. destruct (createCertificate _ _ _ _) as [p|] eqn:Hc; [|done].
  injection Hi as ->. split; [lia|]. apply created in Hc as [Hp Hsig]. simpl in Hp. eexists _, _. split_and!; [exact Hp|done| |].
  - destruct (t - 5 * Minute <? Cert_NotBefore ca) eqn:Hlt; [apply Z.ltb_lt in Hlt|apply Z.ltb_ge in Hlt]; lia.
  - destruct (Cert_NotAfter ca <? addYears 1 t) eqn:Hlt; [apply Z.ltb_lt in Hlt|apply Z.ltb_ge in Hlt]; lia.
Qed.

(** The certificate that an approval issues lives inside the window of the
    deployment's authority and ends at most 366 days after it was issued; and
    the event log accepts it: an event that the node signs from then on, for
    364 days or until a second before the authority ends, passes the
    credential check, whenever the authority is valid, the clocks agree to
    five minutes and the signature is within five minutes of the
    observation. *)
Theorem issued_credential_accepted serial node t e now :
  wholeSecond (Cert_NotBefore ca) = Cert_NotBefore ca ->
  IssueNodeCertificate createCertificate serial authority (Node_ID node) (Node_PublicKey node) t = Ok (Node_CertificatePEM node) ->
  (exists cert, parseCertificate (Node_CertificatePEM node) = Some cert /\ Cert_NotBefore ca <= Cert_NotBefore cert <= t /\
     Cert_NotAfter cert <= Cert_NotAfter ca /\ Cert_NotAfter cert <= t + 366 * dayLength) /\
  (let signedAt := ES_SignedAt (Event_SourceSignature e) in
   Cert_NotBefore ca <= now < Cert_NotAfter ca -> t <= signedAt <= t + 364 * dayLength -> signedAt <= Cert_NotAfter ca - Second ->
   signedAt <= now + 5 * Minute -> Event_ObservedAt e <= now + 5 * Minute -> - (5 * Minute) <= signedAt - Event_ObservedAt e <= 5 * Minute ->
   validateCredential parseCertificate checkSignatureFrom (Authority_DeploymentID authority) ca e node now = Ok tt).
Proof.
  intros Hca Hi. destruct (issued_window _ _ _ _ _ Hi) as (Hw & nb & na & Hp & Hsig & Hnb & Hna).
  pose proof (addYear_range t) as Hy. pose proof (wholeSecond_range nb) as Rb. pose proof (wholeSecond_range na) as Ra.
  assert (Minute = 60000000000 /\ Second = 1000000000 /\ dayLength = 86400000000000) as (EM & ES & ED) by done. split.
  - eexists. split; [exact Hp|]. simpl. assert (Cert_NotBefore ca <= wholeSecond nb). { rewrite <- Hca. apply wholeSecond_mono. lia. }
    split_and!; lia.
  - intros signedAt Hnow Hsigned Hend Hskew Hobs Hbound. unfold validateCredential. fold signedAt. rewrite Hp.
    apply reject_Ok. split; [rewrite orb_false, negb_false_iff; lia|].
    apply reject_Ok. split; [by rewrite bool_decide_eq_true_2|]. apply reject_Ok. split.
    { cbn [Cert_CommonName Cert_Organization]. rewrite eqs_refl, (proj2 (containsValue_elem _ _)) by set_solver. done. }
    apply reject_Ok. split; [done|]. apply reject_Ok. split; [by rewrite Hsig|]. cbn [Cert_NotBefore Cert_NotAfter].
    apply reject_Ok. split; [rewrite orb_false; lia|]. apply reject_Ok. split; [rewrite orb_false; lia|].
    apply reject_Ok. split; [|done]. unfold Sub. rewrite orb_false. lia.
Qed.

End Issue.
