(* ===== verification/EnrollmentRuns.v ===== *)
(** * Enrollment: concrete runs

    Encodings and certificates as concrete functions, a deployment with one
    operator, and runs of the service: a token, a request, its approval, a
    retry and a revocation; the witnesses of the theorems. *)

From S2P Require Import Prelude Library Directory Sha256 Digest Contract JournalFile Plan Events EventStore EventIngest EventQueue Gate AuditStore AuditService EnrollmentStore Enrollment EventFacts EventStoreFacts EventIngestFacts GateFacts EventRuns AuditChainFacts AuditFacts AuditSpec AuditRuns EnrollmentFacts EnrollmentSpec.
From stdpp Require Import base gmap list strings sorting countable pretty.
From Stdlib Require Import ZArith Lia.

Open Scope Z_scope.

(** ** Encodings *)

Definition packString (p : positive) : string := base64url (posPack p).
Definition unpackString (s : string) : option positive := posUnpack <$> base64url_decode s.

Lemma packString_spec p : unpackString (packString p) = Some p.
Proof. unfold unpackString, packString. destruct (posPack_spec p) as [Hu Hb]. rewrite base64url_roundtrip by done. simpl. by rewrite Hu. Qed.

Definition flatTime (t : option Timestamp) : option (Z * Z) := (fun t => (Timestamp_Seconds t, Timestamp_Nanos t)) <$> t.
Definition deepTime (t : option (Z * Z)) : option Timestamp := (fun p => mkTimestamp (fst p) (snd p)) <$> t.

Definition flatClaim (c : CapabilityClaim) : (string * Z * list Z * Z) * (string * string * list string * option (Z * Z)) :=
  ((Claim_Key c, Claim_Domain c, Claim_Operations c, Claim_SupportLevel c),
   (Claim_Implementation c, Claim_ImplementationVersion c, Claim_Constraints c, flatTime (Claim_ObservedAt c))).
Definition deepClaim (x : (string * Z * list Z * Z) * (string * string * list string * option (Z * Z))) : CapabilityClaim :=
  let '((key, domain, ops, level), (impl, version, constraints, at_)) := x in mkClaim key domain ops level impl version constraints (deepTime at_).

(** A manifest without a signature, which is all that enrolls. *)
Abbreviation flatManifest := (string * Z * option (Z * Z) * option (Z * Z) * list (option ((string * Z * list Z * Z) * (string * string * list string * option (Z * Z)))))%type.
Definition flatClaims (m : ClaimManifest) : flatManifest :=
  (Claims_NodeId m, Claims_Revision m, flatTime (Claims_IssuedAt m), flatTime (Claims_ExpiresAt m), map (fmap flatClaim) (Claims_Capabilities m)).
Definition deepClaims (x : flatManifest) : ClaimManifest :=
  let '(node, revision, issued, expires, claims) := x in mkClaims node revision (deepTime issued) (deepTime expires) (map (fmap deepClaim) claims) None false.

Abbreviation flatDescriptor := (string * option (Z * Z) * option (Z * Z) * string * Z * list string * Z)%type.
Definition flatDesc (d : EnrollmentTokenDescriptor) : flatDescriptor :=
  (Descriptor_Id d, flatTime (Descriptor_CreatedAt d), flatTime (Descriptor_ExpiresAt d), Descriptor_CreatedByPrincipalId d,
   Descriptor_AllowedNodeType d, Descriptor_AllowedTags d, Descriptor_Status d).
Definition deepDesc (x : flatDescriptor) : EnrollmentTokenDescriptor :=
  let '(id, created, expires, by_, ty, tags, status) := x in mkDescriptor id (deepTime created) (deepTime expires) by_ ty tags status.

Definition packedClaims (m : ClaimManifest) : option string := if isSome (Claims_Signature m) then None else Some (packString (encode (flatClaims m))).

Definition packedEnroll : EnrollCodec := {|
  descriptorMarshal := fun d => Some (packString (encode (flatDesc d)));
  descriptorUnmarshal := fun s => p ← unpackString s; deepDesc <$> decode p;
  claimsMarshal := packedClaims;
  claimsUnmarshal := fun s => p ← unpackString s; deepClaims <$> decode p;
  requestMarshal := fun q => Some (posPack (encode
    ([Enroll_TokenValue q; Enroll_RequestId q; Enroll_DisplayName q; Enroll_Platform q; Enroll_PlatformVersion q; Enroll_KeyAlgorithm q;
      default EmptyString (m ← Enroll_Capabilities q; packedClaims m); Enroll_RequestedNodeId q], [[Enroll_NodeType q]; Enroll_PublicKey q; Enroll_CSR q])));
  requestSize := fun q => slen (Enroll_TokenValue q) + 1000 |}.

Definition demoHmac : Hmac512.
Proof.
  refine {| hmac512 := fun key message => @sum256 foldHasher (key ++ message) ++ @sum256 foldHasher (message ++ key) |}.
  - intros key message. by rewrite length_app, !(@sum256_length foldHasher).
  - intros key message. apply Forall_app. split; apply (@sum256_bytes foldHasher).
Defined.

Abbreviation flatTemplate := (string * list string * (Z * Z) * (list Z * list Z))%type.
Definition demoCreate (t : certificateTemplate) (parent : Certificate) (publicKey key : list Z) : option string :=
  Some (packString (encode (((Template_CommonName t, Template_Organization t), (Template_NotBefore t, Template_NotAfter t), (publicKey, Public key)) : flatTemplate))).
Definition demoParse (pem : string) : option Certificate :=
  p ← unpackString pem;
  x ← (decode p : option flatTemplate);
  let '(name, organization, (notBefore, notAfter), (publicKey, _)) := x in
  Some (mkCertificate (wholeSecond notBefore) (wholeSecond notAfter) (Some publicKey) name organization true).
Definition demoSigned (pem : string) (parent : Certificate) : bool :=
  match (p ← unpackString pem; (decode p : option flatTemplate)) with
  | Some (_, _, (_, issuer)) => bool_decide (Cert_PublicKey parent = Some issuer)
  | None => false
  end.

Definition demoCSR (der : list Z) : option certificateRequest := None.

Definition detailText (d : auditDetail) : string :=
  match d with DetailText s => s | DetailTime t => pretty t | DetailTexts l => String.concat "," l end.
Definition demoDetails (d : list (string * auditDetail)) : option string :=
  Some ("{" +:+ String.concat ";" (map (fun p => fst p +:+ "=" +:+ detailText (snd p)) d) +:+ "}").

(** ** A deployment *)

#[local] Existing Instance foldHasher.
#[local] Existing Instance byteEd25519.
#[local] Existing Instance packedAudit.
#[local] Existing Instance byteSignatures.
#[local] Existing Instance packedEnroll.
#[local] Existing Instance demoHmac.
#[local] Existing Instance packedEvents.

Lemma demoDetails_json d s : demoDetails d = Some s -> s <> EmptyString /\ isSome (compactJSON s) = true.
Proof. unfold demoDetails. intros [= <-]. split; [done|]. simpl. done. Qed.

Definition ca_key : list Z := repeat 5 64.
Definition demo_ca : Certificate :=
  mkCertificate (1700000000 * Second) (1900000000 * Second) (Some (Public ca_key)) "AntiFlock Deployment CA" ["deployment-1"]%string false.
Definition edge_authority : Authority := mkAuthority "deployment-1" "operator-1" demo_ca ca_key audit_key.
Definition demo_enrollment : EnrollmentService := mkEnrollmentService true (Some edge_authority) demo_service (10 * Minute).

Definition edge_now : time := 1750000000 * Second.
Definition enroll_host : enrollHost := mkEnrollHost calm_host (fun _ => edge_now) (fun n => Some (Z.of_nat n)).
Definition later_host : enrollHost := mkEnrollHost calm_host (fun _ => edge_now + 60 * Minute) (fun n => Some (Z.of_nat n)).

Definition enroll_fresh : auditWorld enrollDB := mkWorld (mkCore noEnrollment noAudit) (mkAnchorFile None None 0) None false.
Definition eworld {A : Type} (x : result A * (nat * auditWorld enrollDB)) : auditWorld enrollDB := snd (snd x).

#[local] Strategy 1000 [AuditInitialize runCall DoEnroll].

Abbreviation Calls := (runCall demoCSR demoCreate demoDetails).
Definition run_open := AuditInitialize (D := enrollDB) calm_host demo_service Background (0%nat, enroll_fresh).
Definition call_token : enrollCall := CallCreateToken "alice" "operation-1" (mkScope NODE_TYPE_AGENT ["edge"; "lab"]%string).
Definition run_token := Calls enroll_host demo_enrollment Background call_token (1000%nat, eworld run_open).
Definition tokenText (r : result callResult) : string := match r with Ok (ReturnsToken x) => EToken_TokenValue x | _ => EmptyString end.
Definition demo_token : string := tokenText (fst run_token).

(** The node's request, signed with its key. *)
Definition node_key : list Z := repeat 3 64.
Definition demo_claims : ClaimManifest :=
  mkClaims EmptyString 1 (Some (Timestamp_New edge_now)) (Some (Timestamp_New (edge_now + 24 * Hour)))
    [Some (mkClaim "network.firewall" 6 [1; 2] 3 "nftables" "1.0" [] None)] None false.
Definition unsigned_request (token : string) : EnrollNodeRequest :=
  mkEnrollRequest token "request-1" "edge gateway" NODE_TYPE_AGENT "linux" "6.1" "ed25519" (Public node_key) (repeat 0 64) [] (Some demo_claims) "node-edge-1" false.
Definition signed_request (q : EnrollNodeRequest) : EnrollNodeRequest :=
  mkEnrollRequest (Enroll_TokenValue q) (Enroll_RequestId q) (Enroll_DisplayName q) (Enroll_NodeType q) (Enroll_Platform q) (Enroll_PlatformVersion q)
    (Enroll_KeyAlgorithm q) (Enroll_PublicKey q) (match ProofMessage (Some q) with Ok m => ed_sign node_key m | Err _ => [] end)
    (Enroll_CSR q) (Enroll_Capabilities q) (Enroll_RequestedNodeId q) (Enroll_Unknown q).
Definition enroll_request : EnrollNodeRequest := signed_request (unsigned_request demo_token).
Definition run_enrolled := DoEnroll demoCSR demoDetails enroll_host demo_enrollment Background (Some enroll_request) (2000%nat, eworld run_token).
Definition enrollmentIdOf (r : result EnrollmentRequest) : string := match r with Ok x => Enrollment_Id x | Err _ => EmptyString end.
Definition enrollment_id : string := enrollmentIdOf (fst run_enrolled).
Definition call_approve : enrollCall := CallApprove "alice" (Some (mkApproval enrollment_id "operation-2" "AF-ENROLLED" ["edge"]%string)).
Definition run_approved := Calls enroll_host demo_enrollment Background call_approve (3000%nat, eworld run_enrolled).
Definition call_revoke : enrollCall := CallSetStatus "alice" "node-edge-1" NodeRevoked "operation-3" "AF-LOST".
Definition run_revoked := Calls enroll_host demo_enrollment Background call_revoke (4000%nat, eworld run_approved).
Definition run_retried := DoEnroll demoCSR demoDetails later_host demo_enrollment Background (Some enroll_request) (5000%nat, eworld run_revoked).

Definition enrolledTables (w : auditWorld enrollDB) : enrollDB := core_domain (aw_tables w).
Definition enrollOutcome {A : Type} (x : result A * (nat * auditWorld enrollDB)) : option error := match fst x with Ok _ => None | Err e => Some e end.
Definition enroll_summary (w : auditWorld enrollDB) : list string * list (string * string) * Z :=
  (Req_Status <$> en_requests (enrolledTables w), (fun p => (fst p, Node_Status (snd p))) <$> map_to_list (nodesOf (enrolledTables w)),
   len (aud_entries (core_audit (aw_tables w)))).

(** A token, a request, its approval, a revocation and a retry, with one audit
    entry for each change. *)
Example enrollment_runs :
  [enrollOutcome run_open; enrollOutcome run_token; enrollOutcome run_enrolled; enrollOutcome run_approved; enrollOutcome run_revoked; enrollOutcome run_retried] =
    [None; None; None; None; None; None] /\
  map enroll_summary [eworld run_open; eworld run_token; eworld run_enrolled; eworld run_approved; eworld run_revoked; eworld run_retried] =
    [([], [], 0); ([], [], 1); (["PENDING"], [], 2); (["APPROVED"], [("node-edge-1", "ACTIVE")], 3);
     (["APPROVED"], [("node-edge-1", "REVOKED")], 4); (["APPROVED"], [("node-edge-1", "REVOKED")], 4)]%string.
Proof. vm_compute. done. Qed.

Lemma enroll_run_eta {A} (x : result A * (nat * auditWorld enrollDB)) : x = (fst x, (fst (snd x), eworld x)).
Proof. by destruct x as [r [n w]]. Qed.

Lemma run_ok {A} (x : result A * (nat * auditWorld enrollDB)) : enrollOutcome x = None -> exists a, x = (Ok a, (fst (snd x), eworld x)).
Proof. destruct x as [[a|] [n w]]; [by exists a|discriminate]. Qed.

(** ** The deployment of the runs lives *)

Definition noCheck (typeURL : string) (value : list Z) (kind : string) : result unit := Ok tt.
Definition noOpaque (value : list Z) : result unit := Ok tt.

Abbreviation Steps := (enrollStep (EC := packedEvents) demoCSR demoCreate demoDetails noCheck noOpaque (fun _ => 100) demoParse demoSigned "deployment-1" demo_ca).
Abbreviation Lives := (enrollLives (EC := packedEvents) demoCSR demoCreate demoDetails noCheck noOpaque (fun _ => 100) demoParse demoSigned "deployment-1" demo_ca).
Abbreviation keys := (Service_keyring demo_service).

Lemma demo_serviceOK : serviceOK keys (EService_audit demo_enrollment).
Proof. apply (serviceOK_ring ∅), demo_service_ok. Qed.

Lemma enroll_years : years (eh_audit enroll_host).
Proof. apply demo_years. Qed.

Lemma open_lives : auditLives demoDetails keys (eworld run_open).
Proof.
  exists calm_host, demo_service, Background, enroll_fresh, 0%nat, (fst (snd run_open)), (eworld run_open).
  split_and!; [apply demo_years|done|apply demo_service_ok|done| |apply rtc_refl].
  change (run_open = (Ok tt, (fst (snd run_open), eworld run_open))). destruct (run_ok run_open) as [[] Hr]; [vm_compute; reflexivity|exact Hr].
Qed.

Lemma rtc_trans {A} (R : relation A) x y z : rtc R x y -> rtc R y z -> rtc R x z.
Proof. by intros; etransitivity. Qed.

Lemma call_step h c n w x : eh_audit h = calm_host -> x = Calls h demo_enrollment Background c (n, w) -> Steps (keys, w) (keys, eworld x).
Proof.
  intros Hh Hx. eapply (step_call _ _ _ _ _ _ _ _ _ _ h demo_enrollment Background c keys w n); [rewrite Hh; apply demo_years|apply demo_serviceOK|].
  rewrite <- Hx. apply enroll_run_eta.
Qed.

Lemma enroll_step h q n w x : eh_audit h = calm_host -> x = DoEnroll demoCSR demoDetails h demo_enrollment Background q (n, w) -> Steps (keys, w) (keys, eworld x).
Proof.
  intros Hh ->. set (x := DoEnroll _ _ _ _ _ _ _).
  assert (eworld x = eworld (Calls h demo_enrollment Background (CallEnroll q) (n, w))) as ->.
  { unfold runCall, bindM. fold x. by destruct x as [[a|] [m w']]. }
  by apply call_step with (h := h) (c := CallEnroll q) (n := n).
Qed.

Lemma enrolled_steps : rtc Steps (keys, eworld run_open) (keys, eworld run_token) /\ rtc Steps (keys, eworld run_token) (keys, eworld run_enrolled) /\
  rtc Steps (keys, eworld run_enrolled) (keys, eworld run_revoked).
Proof.
  split_and!.
  - apply rtc_once, (call_step enroll_host call_token 1000 _ run_token); reflexivity.
  - apply rtc_once, (enroll_step enroll_host (Some enroll_request) 2000 _ run_enrolled); reflexivity.
  - eapply rtc_l; [apply (call_step enroll_host call_approve 3000 _ run_approved); reflexivity|].
    apply rtc_once, (call_step enroll_host call_revoke 4000 _ run_revoked); reflexivity.
Qed.

Lemma lives_from w : rtc Steps (keys, eworld run_open) (keys, w) -> Lives keys w.
Proof.
  intros Hs. exists keys, (eworld run_open). split_and!; [apply open_lives| |exact Hs]. vm_compute. reflexivity.
Qed.

Lemma token_lives : Lives keys (eworld run_token).
Proof. apply lives_from. exact (proj1 enrolled_steps). Qed.

Lemma enrolled_lives : Lives keys (eworld run_enrolled).
Proof. apply lives_from. exact (rtc_trans _ _ _ _ (proj1 enrolled_steps) (proj1 (proj2 enrolled_steps))). Qed.

Lemma revoked_lives : Lives keys (eworld run_revoked).
Proof. apply lives_from. exact (rtc_trans _ _ _ _ (rtc_trans _ _ _ _ (proj1 enrolled_steps) (proj1 (proj2 enrolled_steps))) (proj2 (proj2 enrolled_steps))). Qed.

Lemma enrollment_refines_witness :
  (aw_tables (eworld run_approved) = aw_tables (eworld run_enrolled) \/ changed demoCreate demo_enrollment (eworld run_enrolled) (eworld run_approved)) /\
  (forall x, fst run_approved = Ok x -> callFact call_approve x (enrolledTables (eworld run_approved))).
Proof.
  apply (enrollment_refines demoCSR demoCreate demoDetails demoDetails_json noCheck noOpaque (fun _ => 100) demoParse demoSigned "deployment-1" demo_ca
    keys (eworld run_enrolled) enroll_host demo_enrollment Background call_approve 3000%nat (fst run_approved) (fst (snd run_approved)) (eworld run_approved)).
  - apply enrolled_lives.
  - apply demo_serviceOK.
  - apply enroll_years.
  - unfold run_approved. apply enroll_run_eta.
Defined.

Definition no_node : Node := mkEnrolled EmptyString EmptyString EmptyString EmptyString EmptyString EmptyString [] EmptyString EmptyString [] EmptyString 0 None None 0.
Definition edge_node (w : auditWorld enrollDB) : Node := default no_node (nodesOf (enrolledTables w) !! "node-edge-1"%string).

Lemma admitted_by_operator_witness :
  let d := enrolledTables (eworld run_revoked) in
  Node_ID (edge_node (eworld run_revoked)) = "node-edge-1"%string /\ Node_Status (edge_node (eworld run_revoked)) ∈ nodeStatuses /\
  exists r t, r ∈ en_requests d /\ t ∈ en_tokens d /\ admittedBy demoCreate (edge_node (eworld run_revoked)) r /\ provenKey r /\ usedBy t r /\
    tagsWithin (Req_ApprovedTags r) r /\
    forall id' n' r', nodesOf d !! id' = Some n' -> r' ∈ en_requests d -> admittedBy demoCreate n' r' -> usedBy t r' -> id' = "node-edge-1"%string.
Proof.
  apply (admitted_by_operator demoCSR demoCreate demoDetails demoDetails_json noCheck noOpaque (fun _ => 100) demoParse demoSigned "deployment-1" demo_ca
    keys (eworld run_revoked) "node-edge-1" (edge_node (eworld run_revoked))).
  - apply revoked_lives.
  - unfold edge_node. apply isSome_default. vm_compute. reflexivity.
Defined.

Lemma retried_steps : rtc Steps (keys, eworld run_revoked) (keys, eworld run_retried).
Proof. apply rtc_once, (enroll_step later_host (Some enroll_request) 5000 _ run_retried); reflexivity. Qed.

Lemma decisions_final_witness : later (enrolledTables (eworld run_revoked)) (enrolledTables (eworld run_retried)) /\
  forall sqlFails clock e m r m' s', Event_NodeID e = "node-edge-1"%string ->
    Store_Append (EC := packedEvents) noCheck noOpaque (fun _ => 100) sqlFails demoParse demoSigned clock "deployment-1" demo_ca e
      (m, storeOn (eworld run_retried) 0 ∅ ∅) = (r, (m', s')) ->
    r <> Ok true /\ db_events (St_database s') = db_events (en_core (enrolledTables (eworld run_retried))).
Proof.
  destruct (decisions_final demoCSR demoCreate demoDetails demoDetails_json noCheck noOpaque (fun _ => 100) demoParse demoSigned "deployment-1" demo_ca
    keys (eworld run_revoked) keys (eworld run_retried) revoked_lives retried_steps) as [Hl Hev].
  split; [exact Hl|]. intros sqlFails clock e m r m' s' He.
  apply (Hev "node-edge-1"%string (edge_node (eworld run_revoked)) sqlFails clock 0%nat ∅ ∅).
  - unfold edge_node. apply isSome_default. vm_compute. reflexivity.
  - vm_compute. reflexivity.
  - exact He.
Defined.

Definition no_enrollment : EnrollmentRequest := mkEnrollment EmptyString EmptyString 0 EmptyString EmptyString 0 [] demo_claims (mkTimestamp 0 0) (mkTimestamp 0 0) EmptyString.
Definition okOr {A : Type} (a : A) (r : result A) : A := match r with Ok x => x | Err _ => a end.

Lemma ok_eta {A} (a : A) (x : result A * (nat * auditWorld enrollDB)) : enrollOutcome x = None -> x = (Ok (okOr a (fst x)), (fst (snd x), eworld x)).
Proof. destruct x as [[b|] [n w]]; [done|discriminate]. Qed.

Lemma enroll_retry_witness : exists y n3, DoEnroll demoCSR demoDetails later_host demo_enrollment Background (Some enroll_request) (5000%nat, eworld run_revoked) =
    (Ok y, (n3, eworld run_revoked)) /\ let x := okOr no_enrollment (fst run_enrolled) in
  Enrollment_Id y = Enrollment_Id x /\ Enrollment_ProposedNodeId y = Enrollment_ProposedNodeId x /\ Enrollment_PublicKey y = Enrollment_PublicKey x.
Proof.
  apply (enroll_retry demoCSR demoCreate demoDetails demoDetails_json noCheck noOpaque (fun _ => 100) demoParse demoSigned "deployment-1" demo_ca
    keys (eworld run_token) enroll_host demo_enrollment Background enroll_request 2000%nat (okOr no_enrollment (fst run_enrolled)) (fst (snd run_enrolled)) (eworld run_enrolled)
    keys (eworld run_revoked) later_host demo_enrollment Background 5000%nat).
  - apply token_lives.
  - apply demo_serviceOK.
  - apply enroll_years.
  - apply (ok_eta no_enrollment run_enrolled). vm_compute. reflexivity.
  - exact (proj2 (proj2 enrolled_steps)).
  - reflexivity.
  - reflexivity.
  - reflexivity.
  - intros m. change (is_ok (validateRequest (Some enroll_request) (edge_now + 60 * Minute)) = true). vm_compute. reflexivity.
Defined.

Lemma token_text_canonical_witness : parseToken demo_token = Ok (okOr [] (parseToken demo_token)) /\
  demo_token = (enrollmentTokenPrefix +:+ base64url (okOr [] (parseToken demo_token)))%string.
Proof.
  assert (parseToken demo_token = Ok (okOr [] (parseToken demo_token))) as Hp by (vm_compute; reflexivity). split; [exact Hp|].
  apply (proj1 (token_text_canonical demo_token (okOr [] (parseToken demo_token)))). exact Hp.
Defined.

(** ** Certificates *)

Lemma demo_created template publicKey pem : demoCreate template (Authority_CACert edge_authority) publicKey (Authority_caKey edge_authority) = Some pem ->
  demoParse pem = Some (mkCertificate (wholeSecond (Template_NotBefore template)) (wholeSecond (Template_NotAfter template)) (Some publicKey)
    (Template_CommonName template) (Template_Organization template) true) /\ demoSigned pem (Authority_CACert edge_authority) = true.
Proof.
  intros [= <-]. unfold demoParse, demoSigned. rewrite packString_spec. simpl. rewrite decode_encode. simpl. done.
Qed.

Lemma event_signedAt : ES_SignedAt (Event_SourceSignature demo_event) = demo_time.
Proof. vm_compute. reflexivity. Qed.
Lemma event_observedAt : Event_ObservedAt demo_event = demo_time.
Proof. vm_compute. reflexivity. Qed.

(** Half a year later the node sends an event. *)
Lemma issued_credential_accepted_witness : (exists cert, demoParse (Node_CertificatePEM (edge_node (eworld run_approved))) = Some cert /\
  Cert_NotBefore demo_ca <= Cert_NotBefore cert <= edge_now /\ Cert_NotAfter cert <= Cert_NotAfter demo_ca /\ Cert_NotAfter cert <= edge_now + 366 * dayLength) /\
  validateCredential demoParse demoSigned (Authority_DeploymentID edge_authority) (Authority_CACert edge_authority) demo_event (edge_node (eworld run_approved)) demo_time = Ok tt.
Proof.
  destruct (issued_credential_accepted demoCreate demoParse demoSigned edge_authority demo_created (Some 0) (edge_node (eworld run_approved)) edge_now demo_event demo_time) as [Hcert Hevent].
  - vm_compute. reflexivity.
  - vm_compute. reflexivity.
  - split; [exact Hcert|]. clear Hcert. cbv zeta in Hevent. rewrite event_signedAt, event_observedAt in Hevent. revert Hevent.
    generalize (edge_node (eworld run_approved)). intros node Hevent. apply Hevent; unfold demo_time, edge_now, edge_authority, demo_ca; cbn [Authority_CACert Cert_NotBefore Cert_NotAfter];
      unfold Minute, dayLength, Hour, Minute, Second; lia.
Defined.
