(* ===== verification/ActionStoreFacts.v ===== *)
(** * Secure actions: the changes of their tables, and what they keep

    What each transition of ActionStore.v does when it succeeds, the invariant
    of the two tables, and what is final: events stay, and an action whose
    execution started stays as it is. *)

From S2P Require Import Prelude Library Sha256 Digest Plan Events EventStore EventIngest AuditStore ActionStore ActionDecisions EventStoreFacts AuditChainFacts.
From stdpp Require Import base gmap list strings sorting.
From Stdlib Require Import ZArith Lia.

Open Scope Z_scope.

(** ** The transitions *)

Definition createT (record : SecureActionRecord) (d d' : actionDB) : Prop :=
  (forall r, r ∈ ac_actions d -> SA_ID r <> SA_ID record /\ SA_RequestID r <> SA_RequestID record /\ SA_OperationID r <> SA_OperationID record) /\
  d' = setActions (ac_actions d ++ [record]) d.

(** One row is replaced: the one that was read, and it has not started. *)
Definition swapT (expected next : SecureActionRecord) (d d' : actionDB) : Prop :=
  SA_ID expected = SA_ID next /\ SA_RequestJSON expected = SA_RequestJSON next /\
  (exists r, r ∈ ac_actions d /\ swappable expected d r = true) /\
  d' = setActions (updateWhere (swappable expected d) (swappedAction next) (ac_actions d)) d.

(** The history and the decision admit the event. *)
Definition historyAdmits (e : actionEvent) (record : SecureActionRecord) (d : actionDB) : Prop :=
  (SA_Decision record = decisionALLOW \/ SA_Decision record = decisionALLOW_ONCE) /\
  (AEvent_lifecycle e = executionStarted -> forall x, x ∈ ac_events d -> AEvent_action_id x = SA_ID record -> executionLifecycle (AEvent_lifecycle x) = false) /\
  (executionTerminal (AEvent_lifecycle e) = true -> exists s, s ∈ ac_events d /\ startedEvent (SA_ID record) s = true /\ AEvent_occurred_at s <= AEvent_occurred_at e).

Definition usableGrant (record : SecureActionRecord) (now : time) : Prop :=
  SA_Decision record = decisionALLOW \/
  SA_Decision record = decisionALLOW_ONCE /\ SA_ReleasedAt record = None /\ exists x, SA_BypassExpiresAt record = Some x /\ now < x.

Definition consumedActions (record : SecureActionRecord) (lifecycle : string) (now : time) (rows : list SecureActionRecord) : list SecureActionRecord :=
  if eqs lifecycle executionStarted && eqs (SA_Decision record) decisionALLOW_ONCE
  then updateWhere (releasableAction (SA_ID record)) (releasedAction now) rows else rows.

Definition lifecycleT (e : actionEvent) (expected : SecureActionRecord) (nodeID : string) (now : time) (d d' : actionDB) : Prop :=
  exists record, actionByID (AEvent_action_id e) d = Some record /\ eventTaken e d = false /\
    (exists r, r ∈ ac_actions d /\ sameVersion expected r = true) /\
    (executionLifecycle (AEvent_lifecycle e) = true -> historyAdmits e record d) /\
    (AEvent_lifecycle e = executionStarted -> nodeIsActive nodeID d = true /\ usableGrant record now) /\
    d' = mkActionDB (consumedActions record (AEvent_lifecycle e) now (ac_actions d)) (ac_events d ++ [e]) (ac_core d).

Lemma rowsWhere_pos {A} (p : A -> bool) l : rowsWhere p l <> 0 -> exists x, x ∈ l /\ p x = true.
Proof.
  unfold rowsWhere, len. destruct (List.filter p l) as [|x f] eqn:Hf; [done|]. intros _. exists x.
  assert (In x (List.filter p l)) as [Hin Hp]%List.filter_In by (rewrite Hf; by left). by rewrite list_elem_of_In.
Qed.

Lemma rowsWhere_zero {A} (p : A -> bool) l : rowsWhere p l = 0 -> forall x, x ∈ l -> p x = false.
Proof.
  intros Hz x Hx. destruct (p x) eqn:Hp; [|done]. exfalso. unfold rowsWhere, len in Hz.
  assert (In x (List.filter p l)) as Hin by (apply List.filter_In; by rewrite <- list_elem_of_In). by destruct (List.filter p l).
Qed.

Section Transitions.
Context (sqlFails : nat -> bool).

Lemma create_does record d : wp (createActionBody sqlFails record) (fun r d' => match r with Ok _ => createT record d d' | Err _ => True end) d.
Proof.
  unfold createActionBody. do 3 wp_step. match goal with |- context [existsb ?p ?l] => destruct (existsb p l) eqn:He end; [by apply wp_fail|]. apply wp_statement; [|done].
  split; [|done]. intros r Hr. pose proof (existsb_none _ _ He r Hr) as Hn. rewrite !orb_false in Hn. destruct Hn as [[H1 H2] H3].
  split_and!; intros Heq; rewrite Heq, eqs_refl in *; done.
Qed.

Lemma swap_does expected next d : SA_ID expected = SA_ID next -> SA_RequestJSON expected = SA_RequestJSON next ->
  wp (swapActionBody sqlFails expected next) (fun r d' => match r with Ok _ => swapT expected next d d' | Err _ => True end) d.
Proof.
  intros Hid Hreq. unfold swapActionBody. do 4 wp_step. apply wp_statement; [|by wp_step]. do 2 wp_step. apply wp_statement; [|by wp_step].
  cbv [id]. wp_step. destruct (negb _) eqn:Hc; [by apply wp_fail|]. apply negb_false_iff, Z.eqb_eq in Hc. apply wp_ret.
  split_and!; [done..| |done]. apply rowsWhere_pos. lia.
Qed.

Lemma swap_audited expected next : audited (swapT expected next) (CompareAndSwapSecureActionWithAudit sqlFails expected next).
Proof.
  intros entry t. unfold CompareAndSwapSecureActionWithAudit, RequestMatches. destruct (_ || _) eqn:Hc; [by apply wp_fail|].
  rewrite orb_false, !negb_false_iff in Hc. destruct Hc as [Hid%eqs_true Hreq%eqs_true].
  apply withAudit_audited. intros d. by apply swap_does.
Qed.

Lemma existsb_filter {A} (p : A -> bool) l : len (List.filter p l) = 0 -> existsb p l = false.
Proof.
  intros Hz. apply not_true_iff_false. intros (x & Hx & Hp)%existsb_exists. rewrite <- list_elem_of_In in Hx.
  by rewrite (rowsWhere_zero p l Hz x Hx) in Hp.
Qed.

Lemma history_does record e d : AEvent_action_id e = SA_ID record ->
  wp (checkHistory sqlFails record (AEvent_lifecycle e) (AEvent_occurred_at e)) (fun r d' => d' = d /\
    (r = Ok tt -> executionLifecycle (AEvent_lifecycle e) = true -> historyAdmits e record d)) d.
Proof.
  intros Hid. unfold checkHistory. destruct (executionLifecycle (AEvent_lifecycle e)) eqn:Hex; [|apply wp_ret; split; [done|congruence]]. cbn [negb].
  destruct (negb (eqs _ _) && _) eqn:Hd; [by apply wp_fail|]. apply andb_false_iff in Hd.
  assert (SA_Decision record = decisionALLOW \/ SA_Decision record = decisionALLOW_ONCE) as Hdec.
  { destruct Hd as [Hd|Hd]; apply negb_false_iff, eqs_true in Hd; auto. }
  wp_step. apply wp_statement; [|wp_step; done]. cbv [id]. do 4 wp_step. unfold executionHistory.
  destruct (eqs (AEvent_lifecycle e) executionStarted) eqn:Hs.
  - destruct (_ || _) eqn:Hc; [by apply wp_fail|]. rewrite orb_false, !negb_false_iff, !Z.eqb_eq in Hc. destruct Hc as [H1 H2].
    apply wp_ret. split; [done|]. intros _ _. apply eqs_true in Hs. split_and!; [done| |by rewrite Hs].
    intros _ x Hx Hact. pose proof (rowsWhere_zero _ _ H1 x Hx) as N1. pose proof (rowsWhere_zero _ _ H2 x Hx) as N2.
    unfold startedEvent, eventOf, terminalEvent in N1, N2. rewrite Hact, eqs_refl in N1, N2. unfold executionLifecycle. by rewrite orb_false.
  - destruct (_ || _) eqn:Hc; [by apply wp_fail|]. rewrite !orb_false, !negb_false_iff, !Z.eqb_eq in Hc. destruct Hc as [[H1 H2] H3].
    apply wp_ret. split; [done|]. intros _ _. split_and!; [done|intros Heq; rewrite Heq, eqs_refl in Hs; done|]. intros _.
    destruct (List.filter (startedEvent (SA_ID record)) (ac_events d)) as [|s [|s2 l]] eqn:Hf; [done| |unfold len in H1; simpl in H1; lia].
    assert (In s (List.filter (startedEvent (SA_ID record)) (ac_events d))) as [Hin Hp]%List.filter_In by (rewrite Hf; by left).
    exists s. split_and!; [by rewrite list_elem_of_In|done|]. simpl in H3. apply Z.ltb_ge in H3. done.
Qed.

Lemma insertEvent_does e expected nodeID d :
  wp (insertActionEvent sqlFails e expected nodeID) (fun r d' => match r with Ok _ =>
    eventTaken e d = false /\ (exists x, x ∈ ac_actions d /\ sameVersion expected x = true) /\
    (AEvent_lifecycle e = executionStarted -> nodeIsActive nodeID d = true) /\ d' = setActionEvents (ac_events d ++ [e]) d | Err _ => True end) d.
Proof.
  unfold insertActionEvent. do 3 wp_step. destruct (negb (_ =? 0) && _) eqn:Ht; [by apply wp_fail|]. wp_step. apply wp_statement; [|by wp_step].
  do 2 wp_step. apply wp_statement; [|by wp_step]. cbv [id]. wp_step. destruct (negb (_ =? 1)) eqn:Hc; [by apply wp_fail|].
  apply negb_false_iff, Z.eqb_eq in Hc. rewrite Hc in *. simpl in Ht. apply wp_ret. unfold selectedActions in Hc.
  destruct (eqs _ _ && negb _) eqn:Hact; [by unfold len in Hc|]. split_and!; [done| | |done].
  - apply rowsWhere_pos. unfold rowsWhere. lia.
  - intros Hs. rewrite Hs, eqs_refl in Hact. simpl in Hact. by apply negb_false_iff in Hact.
Qed.

Lemma grant_does record now d : wp (consumeGrant sqlFails record now) (fun r d' => match r with Ok _ =>
    usableGrant record now /\ d' = setActions (consumedActions record executionStarted now (ac_actions d)) d | Err _ => True end) d.
Proof.
  unfold consumeGrant, consumedActions. rewrite eqs_refl. simpl.
  destruct (eqs (SA_Decision record) decisionALLOW) eqn:Ha.
  { apply eqs_true in Ha. apply wp_ret. split; [by left|]. rewrite Ha. by destruct d. }
  destruct (eqs (SA_Decision record) decisionALLOW_ONCE) eqn:Ho; [|by apply wp_fail]. apply eqs_true in Ho.
  destruct (SA_ReleasedAt record) eqn:Hr; [by apply wp_fail|]. destruct (SA_BypassExpiresAt record) as [x|] eqn:Hx; [|by apply wp_fail].
  destruct (negb _) eqn:Hlt; [by apply wp_fail|]. apply negb_false_iff, Z.ltb_lt in Hlt. do 4 wp_step. apply wp_statement; [|by wp_step].
  do 2 wp_step. apply wp_statement; [|by wp_step]. cbv [id]. wp_step. destruct (negb _); [by apply wp_fail|]. apply wp_ret.
  split; [|done]. right. split_and!; [done..|]. by exists x.
Qed.

Lemma lifecycle_does e expected nodeID now d : AEvent_action_id e = SA_ID expected ->
  wp (lifecycleBody sqlFails e expected nodeID now) (fun r d' => match r with Ok _ => lifecycleT e expected nodeID now d d' | Err _ => True end) d.
Proof.
  intros Hid. unfold lifecycleBody. wp_step. apply wp_statement; [|by wp_step]. cbv [id]. do 4 wp_step.
  destruct (actionByID (SA_ID expected) d) as [record|] eqn:Hf; [|by apply wp_fail]. pose proof (find_elem _ _ _ Hf) as [_ Hrid%eqs_true].
  wp_step. eapply wp_mono; [apply history_does; congruence|]. intros [[]|err] d1 [-> Hh]; wp_step; [|done]. specialize (Hh eq_refl).
  wp_step. eapply wp_mono; [apply insertEvent_does|]. intros [[]|err] d1 Hi; wp_step; [|done]. destruct Hi as (Ht & Hv & Hn & ->).
  destruct (eqs (AEvent_lifecycle e) executionStarted) eqn:Hs.
  - apply eqs_true in Hs. eapply wp_mono; [apply grant_does|]. intros [[]|err] d2; [|done]. intros [Hu ->]. exists record. split_and!; try done.
    + by rewrite Hid.
    + intros _. split; [by apply Hn|done].
    + by rewrite Hs.
  - apply wp_ret. exists record. split_and!; try done; [by rewrite Hid|intros Heq; by rewrite Heq, eqs_refl in Hs|].
    unfold consumedActions. rewrite Hs. by destruct d.
Qed.

Lemma lifecycle_audited eventID expected nodeID lifecycle digest occurredAt now :
  audited (lifecycleT (mkActionEvent eventID (SA_ID expected) lifecycle occurredAt digest) expected nodeID now)
    (AppendSecureActionLifecycleWithAudit sqlFails eventID expected nodeID lifecycle digest occurredAt now).
Proof.
  intros entry t. unfold AppendSecureActionLifecycleWithAudit. destruct (negb _); [by apply wp_fail|]. destruct (_ || _); [by apply wp_fail|].
  apply withAudit_audited. intros d. by apply lifecycle_does.
Qed.

End Transitions.

(** ** The invariant *)

Section Invariant.
Context {JC : ActionCodec}.

Definition freshDecisions : list string := [decisionALLOW; decisionHOLD; decisionBLOCK; decisionREQUIRE_CONSENT].

(** The column with the word of the decision agrees with its text. *)
Definition storedWord (r : SecureActionRecord) : Prop := forall v, decisionUnmarshal (SA_DecisionJSON r) = Some v -> DView_Decision v = SA_Decision r.

(** A row with a decision that was made of it. *)
Definition freshRow (r : SecureActionRecord) : Prop :=
  SA_Decision r ∈ freshDecisions /\ (is_Some (SA_ReleasedAt r) -> SA_Decision r = decisionALLOW) /\ storedWord r.

(** A grant ends within the deadline of the request. *)
Definition grantWithin (r : SecureActionRecord) : Prop :=
  exists original deadline x, actionUnmarshal (SA_RequestJSON r) = Some original /\ parseNano (SReq_Deadline original) = Some deadline /\
    SA_BypassExpiresAt r = Some x /\ x <= deadline.

Definition grantRow (r : SecureActionRecord) : Prop := SA_Decision r = decisionALLOW_ONCE /\ SA_ReleasedAt r = None /\ grantWithin r /\ storedWord r.

(** What was executed was allowed, or released while its grant held. *)
Definition executedRow (r : SecureActionRecord) : Prop :=
  SA_Decision r = decisionALLOW \/
  SA_Decision r = decisionALLOW_ONCE /\ exists t x, SA_ReleasedAt r = Some t /\ SA_BypassExpiresAt r = Some x /\ t < x.

Definition rowOK (r : SecureActionRecord) : Prop :=
  freshRow r \/ grantRow r \/ SA_Decision r = decisionALLOW_ONCE /\ is_Some (SA_ReleasedAt r) /\ executedRow r /\ grantWithin r /\ storedWord r.

Definition sameKind (e e' : actionEvent) : Prop :=
  AEvent_lifecycle e = executionStarted /\ AEvent_lifecycle e' = executionStarted \/
  executionTerminal (AEvent_lifecycle e) = true /\ executionTerminal (AEvent_lifecycle e') = true.

Record actionInv (d : actionDB) : Prop := {
  ai_ids : NoDup (SA_ID <$> ac_actions d);
  ai_requests : NoDup (SA_RequestID <$> ac_actions d);
  ai_operations : NoDup (SA_OperationID <$> ac_actions d);
  ai_eventIDs : NoDup (AEvent_event_id <$> ac_events d);
  ai_known : forall e, e ∈ ac_events d -> exists r, r ∈ ac_actions d /\ SA_ID r = AEvent_action_id e;
  ai_once : forall e e', e ∈ ac_events d -> e' ∈ ac_events d -> AEvent_action_id e = AEvent_action_id e' -> sameKind e e' -> e = e';
  ai_order : forall e, e ∈ ac_events d -> executionTerminal (AEvent_lifecycle e) = true ->
    exists s, s ∈ ac_events d /\ startedEvent (AEvent_action_id e) s = true /\ AEvent_occurred_at s <= AEvent_occurred_at e;
  ai_rows : forall r, r ∈ ac_actions d -> rowOK r;
  ai_executed : forall r, r ∈ ac_actions d -> startedIn (SA_ID r) d = true -> executedRow r;
  ai_released : forall r, r ∈ ac_actions d -> SA_Decision r = decisionALLOW_ONCE -> is_Some (SA_ReleasedAt r) -> startedIn (SA_ID r) d = true;
}.

Lemma noActions_inv c : actionInv (noActions c).
Proof. split; simpl; try apply NoDup_nil_2; set_solver. Qed.

Lemma actionInv_core d c : actionInv d -> actionInv (setActionCore c d).
Proof. intros []. by split. Qed.

(** ** What is final *)

Definition sameAction (r r' : SecureActionRecord) : Prop :=
  SA_ID r' = SA_ID r /\ SA_RequestID r' = SA_RequestID r /\ SA_ApplicationID r' = SA_ApplicationID r /\ SA_OperationID r' = SA_OperationID r /\
  SA_RequestJSON r' = SA_RequestJSON r /\ SA_CreatedAt r' = SA_CreatedAt r.

Record laterActions (d d' : actionDB) : Prop := {
  la_events : ac_events d `prefix_of` ac_events d';
  la_rows : forall r, r ∈ ac_actions d -> exists r', r' ∈ ac_actions d' /\ sameAction r r' /\ (startedIn (SA_ID r) d = true -> r' = r);
}.

Lemma startedIn_prefix id d d' : ac_events d `prefix_of` ac_events d' -> startedIn id d = true -> startedIn id d' = true.
Proof. unfold startedIn. intros [l ->] Hs. by rewrite existsb_app, Hs. Qed.

Lemma startedIn_elem id d : startedIn id d = true <-> exists e, e ∈ ac_events d /\ AEvent_action_id e = id /\ AEvent_lifecycle e = executionStarted.
Proof.
  unfold startedIn. rewrite existsb_exists. unfold startedEvent, eventOf. setoid_rewrite <- list_elem_of_In.
  setoid_rewrite andb_true_iff. by setoid_rewrite eqs_true.
Qed.

#[export] Instance laterActions_preorder : PreOrder laterActions.
Proof.
  split.
  - intros d. split; [done|]. intros r Hr. exists r. by repeat split.
  - intros d1 d2 d3 [E1 R1] [E2 R2]. split; [by transitivity (ac_events d2)|]. intros r Hr.
    destruct (R1 r Hr) as (r2 & H2 & S2 & F2). destruct (R2 r2 H2) as (r3 & H3 & S3 & F3). exists r3. split; [done|].
    unfold sameAction in *. split; [intuition congruence|]. intros Hs. specialize (F2 Hs). subst r2. apply F3. by eapply startedIn_prefix.
Qed.

Lemma laterActions_core d c : laterActions d (setActionCore c d).
Proof. split; [done|]. intros r Hr. exists r. by repeat split. Qed.

(** ** The changes *)

Inductive actionLabel : Type :=
| ActionDecided (id : string)
| ActionRedecided (released : bool) (id : string)
| ActionAuthorized (id : string)
| ActionReported (lifecycle id : string)
| PostureReported (nodeID : string).

Inductive actionChange : actionDB -> actionDB -> actionLabel -> Prop :=
| ac_decide record d d' : createT record d d' -> freshRow record -> actionChange d d' (ActionDecided (SA_ID record))
| ac_redecide expected next released q d d' : swapT expected next d d' -> freshRow next -> actionMarshal q = Some (SA_RequestJSON expected) ->
    actionChange d d' (ActionRedecided released (SReq_ID q))
| ac_authorize expected next d d' : swapT expected next d d' -> grantRow next -> actionChange d d' (ActionAuthorized (SA_ID next))
| ac_report e expected nodeID now d d' : lifecycleT e expected nodeID now d d' -> AEvent_action_id e = SA_ID expected ->
    actionChange d d' (ActionReported (AEvent_lifecycle e) (SA_ID expected))
| ac_posture nodeID d : actionChange d d (PostureReported nodeID).

Lemma sameVersion_id expected r : sameVersion expected r = true -> SA_ID r = SA_ID expected.
Proof. unfold sameVersion. rewrite !andb_true_iff. intros (((((Hid & _) & _) & _) & _) & _). by apply eqs_true. Qed.

Lemma swappable_true expected d r : swappable expected d r = true ->
  SA_ID r = SA_ID expected /\ SA_RequestJSON r = SA_RequestJSON expected /\ startedIn (SA_ID expected) d = false.
Proof.
  unfold swappable. rewrite !andb_true_iff, negb_true_iff. intros ((Hv & Hj) & Hn). split_and!; [by apply sameVersion_id|by apply eqs_true|done].
Qed.

Lemma rowOK_word r : rowOK r -> storedWord r.
Proof. intros [(_ & _ & ?)|[(_ & _ & _ & ?)|(_ & _ & _ & _ & ?)]]; done. Qed.

Lemma swap_sameAction expected next d r : sameAction r (if swappable expected d r then swappedAction next r else r).
Proof. by destruct (swappable _ _ _). Qed.

Lemma createT_keeps record d d' : actionInv d -> createT record d d' -> freshRow record -> actionInv d' /\ laterActions d d'.
Proof.
  intros [] [Hnew ->] Hf. assert (startedIn (SA_ID record) d = false) as Hno.
  { apply not_true_iff_false. intros (e & He & Hid & _)%startedIn_elem. destruct (ai_known0 e He) as (r & Hr & Heq). destruct (Hnew r Hr) as [Hne _]. congruence. }
  split.
  - split; simpl; try done.
    + apply nodup_fresh; [done|]. intros y Hy. apply (Hnew y Hy).
    + apply nodup_fresh; [done|]. intros y Hy. apply (Hnew y Hy).
    + apply nodup_fresh; [done|]. intros y Hy. apply (Hnew y Hy).
    + intros e He. destruct (ai_known0 e He) as (r & Hr & Heq). exists r. set_solver.
    + intros r [Hr| ->%list_elem_of_singleton]%elem_of_app; [by apply ai_rows0|by left].
    + intros r [Hr| ->%list_elem_of_singleton]%elem_of_app; [by apply ai_executed0|]. intros Hs. unfold startedIn in *. simpl in *. congruence.
    + intros r [Hr| ->%list_elem_of_singleton]%elem_of_app; [by apply ai_released0|]. intros Hd [t Ht]. destruct Hf as (_ & Hf & _). rewrite Hf in Hd; [done|]. by eexists.
  - split; [done|]. intros r Hr. exists r. split; [set_solver|done].
Qed.

Lemma swapT_keeps expected next d d' : actionInv d -> swapT expected next d d' -> freshRow next \/ grantRow next -> actionInv d' /\ laterActions d d'.
Proof.
  intros [] (Hid & Hreq & _ & ->) Hok. split.
  - split; simpl; try done; try (by rewrite updateWhere_key).
    + intros e He. destruct (ai_known0 e He) as (r & Hr & Heq). exists (if swappable expected d r then swappedAction next r else r).
      split; [apply updateWhere_elem; by exists r|]. by destruct (swappable _ _ _).
    + intros r (x & Hx & ->)%updateWhere_elem. destruct (swappable expected d x) eqn:Hs; [|by apply ai_rows0].
      apply swappable_true in Hs as (_ & Hj & _).
      destruct Hok as [Hf|(H1 & H2 & (o & dl & y & H3 & H4 & H5 & H6) & H7)]; [by left|right; left]. split_and!; [done..| |done].
      exists o, dl, y. simpl. by rewrite Hj, Hreq.
    + intros r (x & Hx & ->)%updateWhere_elem. destruct (swappable expected d x) eqn:Hs; [|by apply ai_executed0].
      apply swappable_true in Hs as (He & _ & Hn). simpl. intros Hst. unfold startedIn in *. simpl in *. congruence.
    + intros r (x & Hx & ->)%updateWhere_elem. destruct (swappable expected d x) eqn:Hs; [|by apply ai_released0]. simpl. intros Hd Hr.
      destruct Hok as [(_ & H2 & _)|(_ & H2 & _)]; [rewrite H2 in Hd; done|]. rewrite H2 in Hr. by destruct Hr.
  - split; [done|]. intros r Hr. exists (if swappable expected d r then swappedAction next r else r).
    split_and!; [apply updateWhere_elem; by exists r|apply swap_sameAction|]. intros Hs. destruct (swappable expected d r) eqn:Hsw; [|done].
    apply swappable_true in Hsw as (He & _ & Hn). congruence.
Qed.

(** What the start of an execution makes of a row. *)
Definition consumedRow (record : SecureActionRecord) (lifecycle : string) (now : time) (r : SecureActionRecord) : SecureActionRecord :=
  if eqs lifecycle executionStarted && eqs (SA_Decision record) decisionALLOW_ONCE && releasableAction (SA_ID record) r
  then releasedAction now r else r.

Lemma consumedActions_rows record lifecycle now rows : consumedActions record lifecycle now rows = consumedRow record lifecycle now <$> rows.
Proof.
  unfold consumedActions, consumedRow, updateWhere. destruct (eqs _ _ && eqs _ _); simpl; [done|]. symmetry. apply list_fmap_id.
Qed.

Lemma consumedRow_same record lifecycle now r : sameAction r (consumedRow record lifecycle now r).
Proof. unfold consumedRow. by destruct (_ && _). Qed.

Lemma consumedRow_cases record lifecycle now r : consumedRow record lifecycle now r = r \/
  consumedRow record lifecycle now r = releasedAction now r /\ lifecycle = executionStarted /\ SA_Decision record = decisionALLOW_ONCE /\
    SA_ID r = SA_ID record /\ SA_ReleasedAt r = None.
Proof.
  unfold consumedRow, releasableAction. destruct (_ && _) eqn:Hc; [|by left]. right. rewrite !andb_true_iff, !eqs_true in Hc.
  destruct Hc as [[H1 H2] [H3 H4]]. split_and!; try done. by destruct (SA_ReleasedAt r).
Qed.

Section Lifecycle.
Context (e : actionEvent) (record : SecureActionRecord) (now : time) (d : actionDB).
Hypothesis Hinv : actionInv d.
Hypothesis Hfind : actionByID (AEvent_action_id e) d = Some record.
Hypothesis Hfree : eventTaken e d = false.
Hypothesis Hhistory : executionLifecycle (AEvent_lifecycle e) = true -> historyAdmits e record d.
Hypothesis Husable : AEvent_lifecycle e = executionStarted -> usableGrant record now.

Definition recordedDB : actionDB := mkActionDB (consumedActions record (AEvent_lifecycle e) now (ac_actions d)) (ac_events d ++ [e]) (ac_core d).

Lemma record_in : record ∈ ac_actions d /\ SA_ID record = AEvent_action_id e.
Proof. apply find_elem in Hfind as [Hin Hid%eqs_true]. done. Qed.

(** The record is the only row of the action. *)
Lemma record_row r : r ∈ ac_actions d -> SA_ID r = AEvent_action_id e -> r = record.
Proof. intros Hr Hid. destruct record_in as [Hin Heq]. apply (nodup_key SA_ID (ac_actions d)); [apply Hinv|done..|congruence]. Qed.

Lemma start_first : AEvent_lifecycle e = executionStarted -> startedIn (AEvent_action_id e) d = false.
Proof.
  intros Hs. apply not_true_iff_false. intros (x & Hx & Hid & Hl)%startedIn_elem. destruct record_in as [_ Heq].
  destruct Hhistory as (_ & Hno & _); [by rewrite Hs|]. specialize (Hno Hs x Hx). rewrite Hl in Hno. rewrite Heq in Hno. specialize (Hno Hid). done.
Qed.

Lemma startedIn_after id : startedIn id recordedDB = true <-> startedIn id d = true \/ id = AEvent_action_id e /\ AEvent_lifecycle e = executionStarted.
Proof.
  rewrite !startedIn_elem. split.
  - intros (x & [Hx| ->%list_elem_of_singleton]%elem_of_app & Hid & Hl); [left; by exists x|by right].
  - intros [(x & Hx & Hid & Hl)|[-> Hl]]; [exists x|exists e]; (split; [simpl; set_solver|done]).
Qed.

Lemma event_once x : x ∈ ac_events d -> AEvent_action_id x = AEvent_action_id e -> ~ sameKind x e.
Proof.
  intros Hx Hid [[H1 H2]|[H1 H2]].
  - apply start_first in H2. apply not_true_iff_false in H2. apply H2, startedIn_elem. by exists x.
  - unfold eventTaken in Hfree. rewrite !orb_false, H2 in Hfree. destruct Hfree as [_ Hno]. simpl in Hno.
    pose proof (existsb_none _ _ Hno x Hx) as Hn. unfold terminalEvent in Hn. by rewrite Hid, eqs_refl, H1 in Hn.
Qed.

Lemma sameKind_sym a b : sameKind a b -> sameKind b a.
Proof. unfold sameKind. intuition. Qed.

Lemma consumed_frozen r : r ∈ ac_actions d -> startedIn (SA_ID r) d = true -> consumedRow record (AEvent_lifecycle e) now r = r.
Proof.
  intros Hr Hs. destruct (consumedRow_cases record (AEvent_lifecycle e) now r) as [?|(_ & Hl & _ & Hid & _)]; [done|].
  destruct record_in as [_ Heq]. rewrite Hid, Heq, start_first in Hs; done.
Qed.

(** At its start the row is one whose execution was allowed. *)
Lemma consumed_executed : AEvent_lifecycle e = executionStarted -> executedRow (consumedRow record (AEvent_lifecycle e) now record).
Proof.
  intros Hs. unfold consumedRow, releasableAction. rewrite Hs, !eqs_refl. destruct (Husable Hs) as [Ha|(Ho & Hr & x & Hx & Hlt)].
  - rewrite Ha. by left.
  - rewrite Ho, Hr. right. split; [done|]. by exists now, x.
Qed.

Lemma recorded_rows r : r ∈ ac_actions d -> rowOK (consumedRow record (AEvent_lifecycle e) now r).
Proof.
  intros Hr. pose proof (ai_rows _ Hinv r Hr) as Hok. destruct (consumedRow_cases record (AEvent_lifecycle e) now r) as [->|(Heq & Hl & Ho & Hid & Hnone)]; [done|].
  destruct record_in as [_ Hrid]. assert (r = record) as -> by (apply record_row; congruence).
  pose proof (rowOK_word _ Hok) as Hword.
  right; right. pose proof (consumed_executed Hl) as He. rewrite Heq in *. split; [done|]. split; [by eexists|]. split; [done|]. split; [|done].
  destruct Hok as [[Hf _]|[(_ & _ & Hg & _)|(_ & [t Ht] & _)]]; [|exact Hg|congruence]. rewrite Ho in Hf. exfalso. vm_compute in Hf. set_solver.
Qed.

Lemma recorded_inv : actionInv recordedDB.
Proof.
  pose proof Hinv as []. unfold recordedDB. rewrite consumedActions_rows. destruct record_in as [Hin Heq]. split; simpl.
  - rewrite <- list_fmap_compose. erewrite list_fmap_ext; [exact ai_ids0|]. intros i x _. apply consumedRow_same.
  - rewrite <- list_fmap_compose. erewrite list_fmap_ext; [exact ai_requests0|]. intros i x _. apply consumedRow_same.
  - rewrite <- list_fmap_compose. erewrite list_fmap_ext; [exact ai_operations0|]. intros i x _. apply consumedRow_same.
  - apply nodup_fresh; [done|]. intros y Hy Hk. unfold eventTaken, actionEventByID in Hfree. rewrite !orb_false in Hfree. destruct Hfree as [[Hf _] _].
    destruct (List.find _ _) eqn:Hnone; [done|]. apply list_elem_of_In in Hy. pose proof (List.find_none _ _ Hnone y Hy) as Hn. simpl in Hn. by rewrite Hk, eqs_refl in Hn.
  - intros x [Hx| ->%list_elem_of_singleton]%elem_of_app.
    + destruct (ai_known0 x Hx) as (r & Hr & Hrx). exists (consumedRow record (AEvent_lifecycle e) now r). split; [by apply list_elem_of_fmap_2|].
      rewrite <- Hrx. apply consumedRow_same.
    + exists (consumedRow record (AEvent_lifecycle e) now record). split; [by apply list_elem_of_fmap_2|]. rewrite <- Heq. apply consumedRow_same.
  - intros x y [Hx| ->%list_elem_of_singleton]%elem_of_app [Hy| ->%list_elem_of_singleton]%elem_of_app Hid Hk; [by apply ai_once0| | |done].
    + by destruct (event_once x Hx Hid).
    + by destruct (event_once y Hy (eq_sym Hid) (sameKind_sym _ _ Hk)).
  - intros x [Hx| ->%list_elem_of_singleton]%elem_of_app Ht.
    + destruct (ai_order0 x Hx Ht) as (s & Hs & Hss). exists s. set_solver.
    + destruct Hhistory as (_ & _ & Ho); [unfold executionLifecycle; by rewrite Ht, orb_true_r|]. destruct (Ho Ht) as (s & Hs & Hss & Hle).
      exists s. split_and!; [set_solver|by rewrite <- Heq|done].
  - intros r (x & -> & Hx)%list_elem_of_fmap. by apply recorded_rows.
  - intros r (x & -> & Hx)%list_elem_of_fmap. pose proof (consumedRow_same record (AEvent_lifecycle e) now x) as (Hid & _).
    rewrite Hid. intros [Hs|[Hxe Hs]]%startedIn_after; [rewrite consumed_frozen by done; by apply ai_executed0|].
    assert (x = record) as -> by (by apply record_row). by apply consumed_executed.
  - intros r (x & -> & Hx)%list_elem_of_fmap. pose proof (consumedRow_same record (AEvent_lifecycle e) now x) as (Hid & _).
    rewrite Hid. intros Hd Hr. apply startedIn_after. destruct (consumedRow_cases record (AEvent_lifecycle e) now x) as [Hc|(_ & Hl & _ & Hxid & _)].
    + left. rewrite Hc in *. by apply ai_released0.
    + right. split; [congruence|done].
Qed.

Lemma recorded_later : laterActions d recordedDB.
Proof.
  split; [by eexists|]. intros r Hr. exists (consumedRow record (AEvent_lifecycle e) now r). split_and!.
  - unfold recordedDB. rewrite consumedActions_rows. by apply list_elem_of_fmap_2.
  - apply consumedRow_same.
  - by apply consumed_frozen.
Qed.

End Lifecycle.

Lemma actionChange_keeps d d' c : actionInv d -> actionChange d d' c -> actionInv d' /\ laterActions d d'.
Proof.
  intros Hinv Hch. destruct Hch as [record d d' Ht Hf|expected next released q d d' Ht Hf _|expected next d d' Ht Hg
    |e expected nodeID now d d' (record & Hfind & Hfree & _ & Hh & Hu & ->) Hid|nodeID d].
  - by eapply createT_keeps.
  - eapply swapT_keeps; eauto.
  - eapply swapT_keeps; eauto.
  - split; [apply recorded_inv|apply recorded_later]; try done; intros Hs; by apply Hu.
  - done.
Qed.

End Invariant.
