(* ===== verification/ReportFacts.v ===== *)
(** * What posture reports and findings rest on

    The reading of the evidence of a protected posture, and the findings that
    follow the snapshots. *)

From S2P Require Import Prelude Sha256 Digest Library Probe Contract Directory JournalFile Plan Policy Posture Gate Findings Events EventStore EventIngest AuditStore AuditService ActionStore ActionDecisions ActionServer PostureReports EventFacts EventStoreFacts EventIngestFacts.
From stdpp Require Import base gmap list strings sorting.
From Stdlib Require Import ZArith Lia.

Open Scope Z_scope.

(** * Posture reports: what a protected posture rests on

    A proof of [validateProtectedEvidence] is a reading of the four events it
    was given: each is stored, fresh, verified and of the node, and what they
    show is bound to one interface and one path. *)

(** ** Reading the tables of the gate *)

Abbreviation gateTables w := (core_domain (aw_tables (gw_audit w))).
Abbreviation gateDatabase := (fun m => zoom gw_audit setGateAudit (zoom aw_tables setTables (zoom core_domain setDomain m))).

Lemma wp_gateDatabase {A} (m : M actionDB A) (P : result A -> Prop) (Q : result A -> gateWorld -> Prop) w :
  wp m (fun r d' => d' = gateTables w /\ P r) (gateTables w) -> (forall r, P r -> Q r w) -> wp (gateDatabase m) Q w.
Proof.
  intros Hm HQ. do 3 apply wp_zoom. eapply wp_mono; [exact Hm|]. intros r d' [-> HP]. destruct w as [[[d a] f l hd] p fi u]. by apply HQ.
Qed.

Lemma wp_actionCore {A} (m : M DB A) (P : result A -> Prop) d : wp m (fun r c' => c' = ac_core d /\ P r) (ac_core d) ->
  wp (zoom ac_core setActionCore m) (fun r d' => d' = d /\ P r) d.
Proof. intros Hm. apply wp_zoom. eapply wp_mono; [exact Hm|]. intros r c' [-> HP]. by destruct d. Qed.

(** ** Evidence *)

Section Evidence.
Context {H : Hasher} {E : Ed25519} {EC : EventCodec} {JC : ActionCodec} {OC : ObservationCodec}.
Context (checkMessage : string -> list Z -> string -> result unit) (validateOpaqueProtobuf : list Z -> result unit) (wireSize : wireEvent -> Z).
Context (equalFold : string -> string -> bool) (toLower : string -> string) (parseManifest : string -> option (list (option (string * list string)))).
Context (gate : actionGate) (report : postureReport) (t : time).

Abbreviation staleAfter := (PConfig_TelemetryStaleAfter (AGate_protection gate)).
Abbreviation nodeID := (Report_NodeID report).

(** An event of the report, as it was read and checked at [t]. *)
Record provenEvent (c : DB) (id : string) (e : EventEnvelope) : Prop := {
  pe_stored : exists row, rowById id c = Some row /\ rowEvent checkMessage validateOpaqueProtobuf wireSize row = Ok e;
  pe_deployment : Event_DeploymentID e = AGate_deploymentID gate;
  pe_node : Event_NodeID e = nodeID;
  pe_verified : Event_Classification e = EvidenceVerified;
  pe_fresh : Sub t (Event_ObservedAt e) <= staleAfter;
  pe_before : Event_ObservedAt e <= mustParsePostureTime (Report_ObservedAt report);
  pe_evidence : is_ok (ValidateEvidenceAt e t) = true;
}.

(** A time that no part of the evidence of an event outlives. *)
Definition endsBy (u : time) (e : EventEnvelope) : Prop :=
  u <= Event_ObservedAt e + staleAfter /\ forall ev x, ev ∈ Event_Evidence e -> EE_ExpiresAt ev = Some x -> u <= x.

Lemma earlier_le a b : earlier a b <= a /\ earlier a b <= b.
Proof. unfold earlier. destruct (a <? b) eqn:Hl; lia. Qed.

Lemma expiries_fold l : forall u, let v := fold_left (fun u ev => match EE_ExpiresAt ev with Some t => earlier t u | None => u end) l u in
  v <= u /\ forall ev x, ev ∈ l -> EE_ExpiresAt ev = Some x -> v <= x.
Proof.
  induction l as [|ev l IH]; intros u; simpl; [split; [lia|set_solver]|].
  set (u' := match EE_ExpiresAt ev with Some t => earlier t u | None => u end). assert (u' <= u) as Hu.
  { unfold u'. destruct (EE_ExpiresAt ev); [apply earlier_le|lia]. }
  destruct (IH u') as [Hv Hl]. split; [lia|]. intros ev' x [->|Hin]%elem_of_cons Hx; [|by eapply Hl].
  unfold u' in *. rewrite Hx in *. pose proof (earlier_le x u). lia.
Qed.

Lemma evidenceUntil_ends e u : evidenceUntil staleAfter e u <= u /\ endsBy (evidenceUntil staleAfter e u) e.
Proof.
  unfold evidenceUntil, endsBy. pose proof (earlier_le (Event_ObservedAt e + staleAfter) u).
  destruct (expiries_fold (Event_Evidence e) (earlier (Event_ObservedAt e + staleAfter) u)) as [Hv Hl]. simpl in *. split_and!; [lia|lia|done].
Qed.

Lemma endsBy_mono u v e : v <= u -> endsBy u e -> endsBy v e.
Proof. intros Hle [H1 H2]. split; [lia|]. intros ev x Hin Hx. specialize (H2 ev x Hin Hx). lia. Qed.

(** What the slots of a proof say of the events that were read. *)
Definition meshProof (es : list EventEnvelope) (path : string) : Prop :=
  exists e o, e ∈ es /\ Event_Kind e ∈ meshKinds /\ meshUnmarshal (Event_Payload e) = Some o /\ meshShows nodeID o = true /\ Mesh_PathId o = path.
Definition dnsProof (es : list EventEnvelope) (interface path : string) : Prop :=
  exists e o, e ∈ es /\ Event_Kind e = "network.dns_changed"%string /\ dnsUnmarshal (Event_Payload e) = Some o /\ dnsShows o = true /\
    Dns_EgressInterfaceId o = interface /\ Dns_MeshPathId o = path.
Definition routeProof (es : list EventEnvelope) (interface : string) : Prop :=
  exists e o, e ∈ es /\ Event_Kind e = "network.route_changed"%string /\ routeUnmarshal (Event_Payload e) = Some o /\ routeShows o = true /\
    Route_InterfaceId o = interface.
Definition egressProof (es : list EventEnvelope) (interface path : string) : Prop :=
  exists e o, e ∈ es /\ Event_Kind e ∈ flowKinds /\ flowUnmarshal (Event_Payload e) = Some o /\ flowShows o = true /\
    Flow_EgressInterfaceId o = interface /\ Flow_MeshPathId o = path.

Record shownBy (es : list EventEnvelope) (p : protectedEvidence) : Prop := {
  sb_mesh : forall path, Proof_mesh p = Some path -> meshProof es path;
  sb_dns : forall interface path, Proof_dns p = Some (interface, path) -> dnsProof es interface path;
  sb_route : forall interface, Proof_route p = Some interface -> routeProof es interface;
  sb_egress : forall interface path, Proof_egress p = Some (interface, path) -> egressProof es interface path;
  sb_until : forall e, e ∈ es -> endsBy (Proof_validUntil p) e;
}.

Lemma shownBy_more e es p : endsBy (Proof_validUntil p) e -> shownBy es p -> shownBy (e :: es) p.
Proof.
  intros He []. split.
  - intros path Hp. destruct (sb_mesh0 path Hp) as (x & o & Hx & Hr). exists x, o. split; [by right|done].
  - intros i path Hp. destruct (sb_dns0 i path Hp) as (x & o & Hx & Hr). exists x, o. split; [by right|done].
  - intros i Hp. destruct (sb_route0 i Hp) as (x & o & Hx & Hr). exists x, o. split; [by right|done].
  - intros i path Hp. destruct (sb_egress0 i path Hp) as (x & o & Hx & Hr). exists x, o. split; [by right|done].
  - intros x [->|Hx]%elem_of_cons; auto.
Qed.

(** One more event is read into its slot. *)
Lemma proveEvent_shows e es p p' : proveEvent nodeID (Event_Kind e) (Event_Payload e) p = Ok p' -> endsBy (Proof_validUntil p) e ->
  shownBy es p -> shownBy (e :: es) p'.
Proof.
  intros Hv He [M D R G U]%(shownBy_more e); [|done]. unfold proveEvent in Hv. destruct (containsValue meshKinds _) eqn:Hm.
  { apply reject_Ok in Hv as [_ Hv]. destruct (meshUnmarshal _) as [o|] eqn:Hu; [|done]. destruct (meshShows nodeID o) eqn:Hs; [|done]. injection Hv as <-.
    apply containsValue_elem in Hm. split; [|done..]. intros path [= <-]. exists e, o. split_and!; [by left|done..]. }
  destruct (eqs (Event_Kind e) "network.dns_changed") eqn:Hd.
  { apply reject_Ok in Hv as [_ Hv]. destruct (dnsUnmarshal _) as [o|] eqn:Hu; [|done]. destruct (dnsShows o) eqn:Hs; [|done]. injection Hv as <-.
    apply eqs_true in Hd. split; [done| |done..]. intros i path [= <- <-]. exists e, o. split_and!; [by left|done..]. }
  destruct (eqs (Event_Kind e) "network.route_changed") eqn:Hr.
  { apply reject_Ok in Hv as [_ Hv]. destruct (routeUnmarshal _) as [o|] eqn:Hu; [|done]. destruct (routeShows o) eqn:Hs; [|done]. injection Hv as <-.
    apply eqs_true in Hr. split; [done|done| |done..]. intros i [= <-]. exists e, o. split_and!; [by left|done..]. }
  destruct (containsValue flowKinds _) eqn:Hf; [|done].
  apply reject_Ok in Hv as [_ Hv]. destruct (flowUnmarshal _) as [o|] eqn:Hu; [|done]. destruct (flowShows o) eqn:Hs; [|done]. injection Hv as <-.
  apply containsValue_elem in Hf. split; [done..| |done]. intros i path [= <- <-]. exists e, o. split_and!; [by left|done..].
Qed.

(** The evidence of a protected posture: four events of the report, bound to
    one interface and one path, none of which ends before [until]. *)
Record boundEvidence (c : DB) (until : time) : Prop := {
  be_events : exists es, length es = 4%nat /\ NoDup (Report_VerificationEventIDs report) /\
    Forall2 (provenEvent c) (Report_VerificationEventIDs report) es /\ (forall e, e ∈ es -> endsBy until e) /\
    exists interface path, meshProof es path /\ dnsProof es interface path /\ routeProof es interface /\ egressProof es interface path;
  be_until : t < until;
}.

Lemma proofBound_slots p es : proofBound p = true -> shownBy es p ->
  exists interface path, meshProof es path /\ dnsProof es interface path /\ routeProof es interface /\ egressProof es interface path.
Proof.
  intros Hb [M D R G _]. unfold proofBound in Hb. destruct (Proof_mesh p) as [mesh|]; [|done]. destruct (Proof_dns p) as [[di dp]|]; [|done].
  destruct (Proof_route p) as [route|]; [|done]. destruct (Proof_egress p) as [[fi fp]|]; [|done]. rewrite !andb_true_iff, !eqs_true in Hb.
  destruct Hb as [[[-> ->] ->] ->]. exists route, mesh. auto.
Qed.

(** ** The loop *)

Section Loop.
Context (sqlFails : nat -> bool).

Lemma readEnvelope_spec eventID c : wp (GetEvent checkMessage validateOpaqueProtobuf wireSize sqlFails eventID) (fun r c' => c' = c /\ forall e, r = Ok e ->
  exists row, rowById eventID c = Some row /\ rowEvent checkMessage validateOpaqueProtobuf wireSize row = Ok e) c.
Proof.
  unfold GetEvent. wp_step. apply wp_statement; [|done]. cbv [id]. do 4 wp_step. destruct (rowById eventID c) as [row|] eqn:Hn; [|by apply wp_fail].
  apply wp_lift. split; [done|]. intros e He. by exists row.
Qed.

Abbreviation coreOf w := (ac_core (gateTables w)).

Lemma proofTurn_spec node seen id p (w : gateWorld) :
  wp (proofTurn checkMessage validateOpaqueProtobuf wireSize equalFold toLower parseManifest sqlFails gate report node t seen id p) (fun r w' => w' = w /\
    forall p', r = Ok p' -> (id ∉ seen) /\ Proof_validUntil p' <= Proof_validUntil p /\ exists e, provenEvent (coreOf w) id e /\
      (forall es, shownBy es p -> shownBy (e :: es) p')) w.
Proof.
  unfold proofTurn. destruct (negb _); [by apply wp_fail|]. destruct (containsValue seen id) eqn:Hseen; [by apply wp_fail|]. do 2 wp_step.
  eapply wp_gateDatabase; [eapply wp_actionCore, readEnvelope_spec|]. intros [e|er] He; wp_step; [|by apply wp_fail].
  destruct (_ || _) eqn:Hc; [by apply wp_fail|]. rewrite !orb_false, !negb_false_iff, !eqs_true, !Z.ltb_ge in Hc. destruct Hc as [[[[[Hd Hn] Hv] Hs] _] Ho].
  destruct (negb _) eqn:Hev; [by apply wp_fail|]. apply negb_false_iff in Hev. destruct (_ || _); [by apply wp_fail|].
  destruct (evidenceUntil_ends e (Proof_validUntil p)) as [Hle Hends]. set (p1 := mkProtectedEvidence _ _ _ _ _ _). apply wp_lift. split; [done|]. intros p' Hp.
  split_and!.
  - intros Hin%containsValue_elem. congruence.
  - assert (Proof_validUntil p' = Proof_validUntil p1) as ->; [|done]. unfold proveEvent in Hp.
    repeat match type of Hp with (if ?b then _ else _) = _ => destruct b end; try done;
      match type of Hp with match ?x with _ => _ end = _ => destruct x as [o|] end; try done;
      match type of Hp with (if ?b then _ else _) = _ => destruct b end; first [by injection Hp as <-|done].
  - exists e. split; [by split; [apply He|..]|]. intros es [M D R G U]. eapply proveEvent_shows; [exact Hp|exact Hends|]. split; [done..|].
    intros x Hx. eapply endsBy_mono; [exact Hle|by apply U].
Qed.

Lemma proofLoop_spec node ids : forall seen p es (w : gateWorld), shownBy es p ->
  wp (proofLoop checkMessage validateOpaqueProtobuf wireSize equalFold toLower parseManifest sqlFails gate report node t seen ids p) (fun r w' => w' = w /\
    forall p', r = Ok p' -> NoDup ids /\ (forall id, id ∈ ids -> id ∉ seen) /\ exists es', Forall2 (provenEvent (coreOf w)) ids es' /\ shownBy (rev es' ++ es) p') w.
Proof.
  induction ids as [|id ids IH]; intros seen p es w Hes; simpl.
  { apply wp_ret. split; [done|]. intros p' [= <-]. split_and!; [apply NoDup_nil_2|set_solver|]. exists []. split; [done|exact Hes]. }
  wp_step. eapply wp_mono; [apply proofTurn_spec|]. intros [p1|er] w' [-> Hp]; wp_step; [|done]. destruct (Hp p1 eq_refl) as (Hn & _ & e & He & Hsh).
  eapply wp_mono; [apply (IH _ _ (e :: es)); by apply Hsh|]. intros r w' [-> Hr]. split; [done|]. intros p' Hp'. destruct (Hr p' Hp') as (Hnd & Hns & es' & H2 & Hs).
  split_and!; [apply NoDup_cons; split; [intros Hin; by apply (Hns id Hin); left|done]|set_solver|]. exists (e :: es'). split; [by constructor|].
  simpl. by rewrite <- app_assoc.
Qed.

Lemma evidence_spec (w : gateWorld) :
  wp (validateProtectedEvidence checkMessage validateOpaqueProtobuf wireSize equalFold toLower parseManifest sqlFails gate report t) (fun r w' => w' = w /\
    forall p, r = Ok p -> boundEvidence (coreOf w) (Proof_validUntil p)) w.
Proof.
  unfold validateProtectedEvidence. destruct (negb _) eqn:Hfour; [by apply wp_fail|]. apply negb_false_iff, Z.eqb_eq in Hfour. do 2 wp_step.
  eapply wp_gateDatabase; [eapply wp_actionCore, getNode_spec|]. intros [node|er] _; wp_step; [|by apply wp_fail]. destruct (_ || _); [by apply wp_fail|].
  wp_step. eapply wp_mono; [apply (proofLoop_spec _ _ _ _ []); split; [done..|intros ? []%elem_of_nil]|]. intros [p|er] w' [-> Hp]; wp_step; [|done].
  destruct (Hp p eq_refl) as (Hnd & _ & es & H2 & Hs). rewrite app_nil_r in Hs. destruct (negb (proofBound p)) eqn:Hb; [by apply wp_fail|].
  destruct (negb (t <? Proof_validUntil p)) eqn:Hlt; [by apply wp_fail|]. apply negb_false_iff in Hb, Hlt. apply Z.ltb_lt in Hlt. apply wp_ret. split; [done|]. intros p' [= <-].
  assert (forall x, x ∈ rev es <-> x ∈ es) as Hrev by (intros x; rewrite !list_elem_of_In; symmetry; apply in_rev).
  destruct (proofBound_slots p (rev es) Hb Hs) as (i & path & M & D & R & G). split; [|done]. exists es. split_and!; [|done|done| |].
  - apply Forall2_length in H2. unfold len in Hfour. lia.
  - intros e He. apply Hs. by apply Hrev.
  - exists i, path. unfold meshProof, dnsProof, routeProof, egressProof in *. setoid_rewrite Hrev in M. setoid_rewrite Hrev in D.
    setoid_rewrite Hrev in R. setoid_rewrite Hrev in G. done.
Qed.

End Loop.
End Evidence.

(** * Findings: what a snapshot makes of them

    After a snapshot the findings that are open for its node and policy are
    those of its reasons, the others of the node and the policy are resolved,
    and the transitions that are reported are the changes of status. *)

Definition findingStatus (m : gmap string Finding) (id : string) : Z := match m !! id with Some f => Finding_Status f | None => FindingUnspecified end.

(** Every finding is stored under its id, is open or resolved, and says when it
    was resolved exactly when it is. *)
Record goodFinding (id : string) (f : Finding) : Prop := {
  gf_id : Finding_Id f = id;
  gf_status : Finding_Status f = FindingOpen /\ Finding_ResolvedAt f = None \/ Finding_Status f = FindingResolved /\ is_Some (Finding_ResolvedAt f);
}.
Definition goodFindings (m : gmap string Finding) : Prop := map_Forall goodFinding m.

(** The ids of the findings that a snapshot's reasons open or refresh. *)
Definition reasonID (s : ProtectionSnapshot) (o : option PostureReason) : option string :=
  (fun '(r, _) => findingID (Protection_NodeId s) (Protection_PolicyId s) (Reason_RuleId r) (Reason_ReasonCode r)) <$> openingReason o.
Definition activeFindings (s : ProtectionSnapshot) : list string := omap (reasonID s) (Protection_Reasons s).

(** A finding of the node and the policy of the snapshot that is not resolved. *)
Definition concerns (s : ProtectionSnapshot) (f : Finding) : bool :=
  eqs (Finding_NodeId f) (Protection_NodeId s) && eqs (Finding_PolicyId f) (Protection_PolicyId s) && negb (Finding_Status f =? FindingResolved).

(** ** The pass over the reasons *)

Section Pass.
Context (deploymentID : string) (s : ProtectionSnapshot) (now : time) (m0 : gmap string Finding).

(** The transitions of a pass are those of the findings it opened. *)
Record passOK (ids : list string) (p : findingPass) : Prop := {
  po_active : forall id, id ∈ Pass_active p <-> id ∈ ids;
  po_open : forall id, id ∈ ids -> exists f, Pass_byID p !! id = Some f /\ Finding_Status f = FindingOpen;
  po_rest : forall id, id ∉ ids -> Pass_byID p !! id = m0 !! id;
  po_nodup : NoDup (Transition_FindingId <$> Pass_transitions p);
  po_told : forall id, id ∈ (Transition_FindingId <$> Pass_transitions p) <-> id ∈ ids /\ findingStatus m0 id <> FindingOpen;
  po_says : forall tr, tr ∈ Pass_transitions p -> Transition_FromStatus tr = findingStatus m0 (Transition_FindingId tr) /\ Transition_ToStatus tr = FindingOpen;
  po_good : goodFindings m0 -> goodFindings (Pass_byID p);
}.

Lemma openedFinding_good id r claim : findingID (Protection_NodeId s) (Protection_PolicyId s) (Reason_RuleId r) (Reason_ReasonCode r) = id ->
  goodFinding id (openedFinding deploymentID s r claim now).
Proof. intros <-. split; [done|by left]. Qed.

Lemma applyReason_ok ids p o : passOK ids p -> passOK (ids ++ option_list (reasonID s o)) (applyReason deploymentID s now p o).
Proof.
  intros [A O R N T S G]. unfold applyReason, reasonID. destruct (openingReason o) as [[r claim]|]; simpl; [|by rewrite app_nil_r].
  set (id := findingID _ _ _ _). assert (forall x, x ∈ ids ++ [id] <-> x = id \/ x ∈ ids) as Hids by set_solver.
  assert (id ∉ ids -> Pass_byID p !! id = m0 !! id) as Hid0 by apply R.
  assert (forall f, Finding_Status f = FindingOpen -> forall x, x ∈ ids ++ [id] -> exists g, <[id := f]> (Pass_byID p) !! x = Some g /\ Finding_Status g = FindingOpen) as Hopen.
  { intros f Hf x Hx. rewrite lookup_insert. case_decide; [by eexists|]. apply O. set_solver. }
  assert (forall (f : Finding) x, x ∉ ids ++ [id] -> <[id := f]> (Pass_byID p) !! x = m0 !! x) as Hrest.
  { intros f x Hx. rewrite lookup_insert_ne by set_solver. apply R. set_solver. }
  assert (forall tr, Transition_FindingId tr = id -> Transition_FromStatus tr = findingStatus m0 id -> Transition_ToStatus tr = FindingOpen -> id ∉ ids ->
    findingStatus m0 id <> FindingOpen -> NoDup (Transition_FindingId <$> (Pass_transitions p ++ [tr])) /\
    (forall x, x ∈ (Transition_FindingId <$> (Pass_transitions p ++ [tr])) <-> x ∈ ids ++ [id] /\ findingStatus m0 x <> FindingOpen) /\
    (forall y, y ∈ Pass_transitions p ++ [tr] -> Transition_FromStatus y = findingStatus m0 (Transition_FindingId y) /\ Transition_ToStatus y = FindingOpen)) as Hnew.
  { intros tr E1 E2 E3 Hn Hs. rewrite fmap_app. simpl. rewrite E1. split_and!.
    - apply NoDup_app. split_and!; [done| |apply NoDup_singleton]. intros x Hx%T. set_solver.
    - intros x. rewrite elem_of_app, list_elem_of_singleton, T, Hids. naive_solver.
    - intros y [Hy| ->%list_elem_of_singleton]%elem_of_app; [by apply S|]. by rewrite E1. }
  destruct (Pass_byID p !! id) as [existing|] eqn:He.
  - destruct (Finding_Status existing =? FindingOpen) eqn:Hst.
    + apply Z.eqb_eq in Hst. rewrite app_nil_r. assert (id ∉ ids -> findingStatus m0 id = FindingOpen) as Hwas.
      { intros Hn. unfold findingStatus. by rewrite <- Hid0, Hst by done. }
      split; simpl; [set_solver|by apply Hopen|by apply Hrest|done| |done|].
      * intros x. rewrite T, Hids. split; [naive_solver|]. intros [[->|Hx] Hs]; [|done]. split; [|done]. destruct (decide (id ∈ ids)); [done|]. by apply Hwas in n.
      * intros Hg. apply map_Forall_insert_2; [|by apply G]. split; [|by left]. simpl. by apply (G Hg id existing).
    + apply Z.eqb_neq in Hst. assert (id ∉ ids) as Hn. { intros Hin. destruct (O id Hin) as (f & Hf & Ho). congruence. }
      destruct (Hnew (transition id (Finding_Status existing) FindingOpen (Reason_ReasonCode r) now)) as (H1 & H2 & H3); try done.
      { simpl. unfold findingStatus. by rewrite <- Hid0. } { unfold findingStatus. by rewrite <- Hid0. }
      split; simpl; [set_solver|by apply Hopen|by apply Hrest|done..|]. intros Hg. apply map_Forall_insert_2; [|by apply G]. split; [|by left]. simpl. by apply (G Hg id existing).
  - assert (id ∉ ids) as Hn. { intros Hin. destruct (O id Hin) as (f & Hf & Ho). congruence. }
    destruct (Hnew (transition id FindingUnspecified FindingOpen (Reason_ReasonCode r) now)) as (H1 & H2 & H3); try done.
    { simpl. unfold findingStatus. by rewrite <- Hid0. } { unfold findingStatus. by rewrite <- Hid0. }
    split; simpl; [set_solver|by apply Hopen|by apply Hrest|done..|]. intros Hg. apply map_Forall_insert_2; [by apply openedFinding_good|by apply G].
Qed.

Lemma applyReasons_ok reasons : forall ids p, passOK ids p -> passOK (ids ++ omap (reasonID s) reasons) (fold_left (applyReason deploymentID s now) reasons p).
Proof.
  induction reasons as [|o reasons IH]; intros ids p Hp; simpl; [by rewrite app_nil_r|]. apply (applyReason_ok _ _ o) in Hp. apply IH in Hp.
  rewrite <- app_assoc in Hp. simpl. destruct (reasonID s o); exact Hp.
Qed.

Lemma emptyPass_ok : passOK [] (mkPass m0 ∅ []).
Proof. split; simpl; try set_solver. apply NoDup_nil_2. Qed.

(** ** The findings that no reason keeps *)

Lemma resolve_lookup p id : Pass_byID (resolveStale s now p) !! id =
  (fun f => if stale s (Pass_active p) id f then resolvedFinding f now else f) <$> Pass_byID p !! id.
Proof. unfold resolveStale. simpl. rewrite map_lookup_imap. by destruct (Pass_byID p !! id). Qed.

Definition staleTransitions (p : findingPass) : list FindingTransition :=
  flat_map (fun '(id, f) => if stale s (Pass_active p) id f then [transition id (Finding_Status f) FindingResolved ControlRestored now] else [])
    (map_to_list (Pass_byID p)).

Lemma stale_told p tr : tr ∈ staleTransitions p <-> exists id f, Pass_byID p !! id = Some f /\ stale s (Pass_active p) id f = true /\
  tr = transition id (Finding_Status f) FindingResolved ControlRestored now.
Proof.
  unfold staleTransitions. rewrite list_elem_of_In, in_flat_map. split.
  - intros ([id f] & Hin & Htr). apply list_elem_of_In, elem_of_map_to_list in Hin. destruct (stale _ _ _ _) eqn:Hs; [|done]. destruct Htr as [<-|[]].
    by exists id, f.
  - intros (id & f & Hf & Hs & ->). exists (id, f). split; [by apply list_elem_of_In, elem_of_map_to_list|]. rewrite Hs. by left.
Qed.

Lemma stale_nodup p : NoDup (Transition_FindingId <$> staleTransitions p).
Proof.
  unfold staleTransitions. pose proof (NoDup_fst_map_to_list (Pass_byID p)) as Hnd. induction (map_to_list (Pass_byID p)) as [|[id f] l IH]; [apply NoDup_nil_2|].
  simpl in *. apply NoDup_cons in Hnd as [Hn Hnd]. destruct (stale _ _ _ _); [|by apply IH]. simpl. apply NoDup_cons. split; [|by apply IH].
  rewrite list_elem_of_fmap. intros (tr & Hid & Htr). apply Hn. apply list_elem_of_In, in_flat_map in Htr as ([id' f'] & Hin & Htr).
  destruct (stale _ _ _ _); [|done]. destruct Htr as [<-|[]]. simpl in Hid. subst id'. apply list_elem_of_fmap. exists (id, f'). split; [done|by apply list_elem_of_In].
Qed.

(** After the findings without a reason are resolved. *)
Section Resolved.
Context (ids : list string) (p : findingPass).
Hypothesis Hp : passOK ids p.
Abbreviation after := (Pass_byID (resolveStale s now p)).

Lemma active_stale id f : stale s (Pass_active p) id f = concerns s f && negb (bool_decide (id ∈ ids)).
Proof. unfold stale, concerns. f_equal. f_equal. apply bool_decide_ext, Hp. Qed.

Lemma after_active id : id ∈ ids -> findingStatus after id = FindingOpen.
Proof.
  intros Hin. destruct (po_open _ _ Hp id Hin) as (f & Hf & Ho). unfold findingStatus. rewrite resolve_lookup, Hf. simpl.
  rewrite active_stale, bool_decide_eq_true_2, andb_false_r by done. done.
Qed.

Lemma after_rest id : id ∉ ids -> after !! id = (fun f => if concerns s f then resolvedFinding f now else f) <$> m0 !! id.
Proof.
  intros Hn. rewrite resolve_lookup, (po_rest _ _ Hp) by done. destruct (m0 !! id) as [f|]; [|done]. simpl.
  by rewrite active_stale, bool_decide_eq_false_2, andb_true_r by done.
Qed.

Lemma stale_rest id f : Pass_byID p !! id = Some f -> stale s (Pass_active p) id f = true -> (id ∉ ids) /\ m0 !! id = Some f /\ concerns s f = true.
Proof.
  intros Hf. rewrite active_stale, andb_true_iff, negb_true_iff, bool_decide_eq_false. intros [Hc Hn]. rewrite <- (po_rest _ _ Hp) by done. done.
Qed.

Lemma concerns_open f : concerns s f = true -> Finding_Status f <> FindingResolved.
Proof. unfold concerns. rewrite !andb_true_iff, negb_true_iff, Z.eqb_neq. by intros [_ Hs]. Qed.

Lemma after_good : goodFindings m0 -> goodFindings after.
Proof.
  intros Hg id f. rewrite resolve_lookup. destruct (Pass_byID p !! id) as [g|] eqn:Hf; [|done]. simpl. intros [= <-].
  pose proof (po_good _ _ Hp Hg id g Hf) as [Hid Hst]. destruct (stale _ _ _ _); [|done]. split; [done|right]. simpl. by split; [|eexists].
Qed.

Abbreviation told := (Pass_transitions (resolveStale s now p)).

Lemma told_nodup : NoDup (Transition_FindingId <$> told).
Proof.
  simpl. rewrite fmap_app. apply NoDup_app. split_and!; [apply Hp| |apply stale_nodup]. intros id [Hin _]%(po_told _ _ Hp).
  rewrite list_elem_of_fmap. intros (tr & -> & (id' & f & Hf & Hs & ->)%stale_told). by apply stale_rest in Hs as (Hn & _).
Qed.

Lemma told_says tr : tr ∈ told -> Transition_FromStatus tr = findingStatus m0 (Transition_FindingId tr) /\ Transition_ToStatus tr = findingStatus after (Transition_FindingId tr).
Proof.
  intros [Hin|Hin]%elem_of_app.
  - destruct (po_says _ _ Hp tr Hin) as [-> ->]. split; [done|]. symmetry. apply after_active, (po_told _ _ Hp). by apply list_elem_of_fmap_2.
  - apply stale_told in Hin as (id & f & Hf & Hs & ->). apply stale_rest in Hs as (Hn & Hm & Hc); [|done]. simpl. unfold findingStatus.
    rewrite after_rest, Hm by done. simpl. by rewrite Hc.
Qed.

Lemma told_changes id : id ∈ (Transition_FindingId <$> told) <-> findingStatus m0 id <> findingStatus after id.
Proof.
  simpl. rewrite fmap_app, elem_of_app, (po_told _ _ Hp). split.
  - intros [[Hin Hs]|Hin]; [by rewrite after_active|]. apply list_elem_of_fmap in Hin as (tr & -> & (id' & f & Hf & Hs & ->)%stale_told).
    apply stale_rest in Hs as (Hn & Hm & Hc); [|done]. simpl. unfold findingStatus. rewrite after_rest, Hm by done. simpl. rewrite Hc. by apply concerns_open.
  - intros Hne. destruct (decide (id ∈ ids)) as [Hin|Hn]; [left; split; [done|by rewrite after_active in Hne]|right].
    unfold findingStatus in Hne. rewrite after_rest in Hne by done. destruct (m0 !! id) as [f|] eqn:Hm; [|done]. simpl in Hne. destruct (concerns s f) eqn:Hc; [|done].
    apply list_elem_of_fmap. exists (transition id (Finding_Status f) FindingResolved ControlRestored now). split; [done|]. apply stale_told. exists id, f.
    rewrite (po_rest _ _ Hp) by done. split_and!; [done| |done]. by rewrite active_stale, Hc, bool_decide_eq_false_2.
Qed.

End Resolved.
End Pass.

(** ** Theorem *)

(** C22. What a snapshot does to the findings of a deployment: the findings of
    its reasons are open, every other finding of its node and policy that was
    not resolved is resolved as of its evaluation, all others stay as they are and none is added;
    findings stay well-formed; and the transitions that are returned are
    exactly the changes of status, one for each finding that changed. *)
Theorem snapshot_findings service s service' transitions :
  goodFindings (Findings_byID service) -> ApplySnapshot service (Some s) = Ok (service', transitions) ->
  goodFindings (Findings_byID service') /\
  (forall id, id ∈ activeFindings s -> findingStatus (Findings_byID service') id = FindingOpen) /\
  (exists evaluatedAt, Protection_EvaluatedAt s = Some evaluatedAt /\ forall id, id ∉ activeFindings s -> Findings_byID service' !! id =
    (fun f => if concerns s f then resolvedFinding f (AsTime evaluatedAt) else f) <$> Findings_byID service !! id) /\
  NoDup (Transition_FindingId <$> transitions) /\
  (forall id, id ∈ (Transition_FindingId <$> transitions) <-> findingStatus (Findings_byID service) id <> findingStatus (Findings_byID service') id) /\
  forall tr, tr ∈ transitions -> Transition_FromStatus tr = findingStatus (Findings_byID service) (Transition_FindingId tr) /\
    Transition_ToStatus tr = findingStatus (Findings_byID service') (Transition_FindingId tr).
Proof.
  intros Hgood. unfold ApplySnapshot. destruct (Protection_EvaluatedAt s) as [evaluatedAt|]; [|done]. intros [_ Ha]%reject_Ok. injection Ha as <- <-.
  set (now := AsTime evaluatedAt). set (m0 := Findings_byID service) in *. set (p := fold_left _ _ _).
  assert (passOK m0 (activeFindings s) p) as Hp by apply (applyReasons_ok _ _ _ _ (Protection_Reasons s) [] _ (emptyPass_ok m0)).
  assert (forall tr, tr ∈ merge_sort transition_le (Pass_transitions (resolveStale s now p)) <-> tr ∈ Pass_transitions (resolveStale s now p)) as Hsort.
  { intros tr. by rewrite merge_sort_Permutation. }
  cbn [Findings_byID]. split_and!.
  - by eapply after_good.
  - intros id. by eapply after_active.
  - exists evaluatedAt. split; [done|]. intros id. by eapply after_rest.
  - rewrite merge_sort_Permutation. by eapply told_nodup.
  - intros id. rewrite merge_sort_Permutation. by eapply told_changes.
  - intros tr. rewrite Hsort. by eapply told_says.
Qed.
