(* ===== verification/ActionSpec.v ===== *)
(** * Secure actions: what the gate promises

    The operations of the action gate over the audit service and the tables,
    each of which makes one of the changes of ActionStoreFacts.v with one audit
    entry, or none; what an answer rests on; the life of a deployment under
    these operations, revocations, restarts and failures, and what holds of
    every deployment that lives so. The operations are taken one after the
    other. *)

From S2P Require Import Prelude Library Directory Sha256 Digest Contract Probe JournalFile Plan Policy Posture Events EventStore EventIngest EventQueue Gate Findings AuditStore AuditService ActionStore ActionDecisions ActionServer ActionLifecycle PostureReports EventFacts EventStoreFacts EventIngestFacts GateFacts AuditChainFacts AuditFacts AuditSpec ActionStoreFacts ReportFacts.
From stdpp Require Import base gmap list strings sorting.
From Stdlib Require Import ZArith Lia.

Open Scope Z_scope.

(** The environment of one call. *)
Record gateHost : Type := mkGateHost {
  gh_audit : auditHost;
  gh_clock : clockT;
}.

Section Operations.
Context {H : Hasher} {E : Ed25519} {AC : AuditCodec} {SB : SignatureBytes} {EC : EventCodec} {JC : ActionCodec} {OC : ObservationCodec}.
Context (checkMessage : string -> list Z -> string -> result unit) (validateOpaqueProtobuf : list Z -> result unit) (wireSize : wireEvent -> Z).
Context (equalFold : string -> string -> bool) (toLower : string -> string) (parseManifest : string -> option (list (option (string * list string)))).
Context (marshalDetails : list (string * actionDetail) -> option string).
Hypothesis marshal_json : forall d s, marshalDetails d = Some s -> s <> EmptyString /\ isSome (compactJSON s) = true.

Abbreviation ring := (gmap string (list Z)).
Abbreviation tablesOf w := (core_domain (aw_tables (gw_audit w))).
Abbreviation entriesOf w := (aud_entries (core_audit (aw_tables (gw_audit w)))).

Definition DoEvaluate (h : gateHost) gate service ctx caller request : M gateWorld (reply decisionView) :=
  let a := gh_audit h in
  actionGate_evaluate (host_sqlFails a) (host_sysFails a) (host_torn a) (host_contention a) (host_fsyncLinks a) (host_wall a) (host_clock a) (gh_clock h)
    (host_newID a) marshalDetails gate service ctx caller request.
Definition DoAuthorize (h : gateHost) gate service ctx caller actionID request : M gateWorld (reply decisionView) :=
  let a := gh_audit h in
  actionGate_authorize (host_sqlFails a) (host_sysFails a) (host_torn a) (host_contention a) (host_fsyncLinks a) (host_wall a) (host_clock a) (gh_clock h)
    (host_newID a) marshalDetails gate service ctx caller actionID request.
Definition DoLifecycle (h : gateHost) gate service ctx caller actionID request : M gateWorld (reply unit) :=
  let a := gh_audit h in
  appendLifecycleAudit (host_sqlFails a) (host_sysFails a) (host_torn a) (host_contention a) (host_fsyncLinks a) (host_wall a) (host_clock a) (gh_clock h)
    (host_newID a) toLower marshalDetails gate service ctx caller actionID request.
Definition DoList (h : gateHost) gate decision limit : M gateWorld (list secureActionListItem) :=
  actionGate_list (host_sqlFails (gh_audit h)) (gh_clock h) gate decision limit.
Definition DoReport (h : gateHost) gate service ctx caller report : M gateWorld unit :=
  let a := gh_audit h in
  reportPosture checkMessage validateOpaqueProtobuf wireSize equalFold toLower parseManifest (host_sqlFails a) (host_sysFails a) (host_torn a) (host_contention a)
    (host_fsyncLinks a) (host_wall a) (host_clock a) (gh_clock h) (host_newID a) marshalDetails gate service ctx caller report.

(** ** Reading *)

Abbreviation database := (fun m => zoom gw_audit setGateAudit (zoom aw_tables setTables (zoom core_domain setDomain m))).

Lemma created_found record d : actionByOperation (SA_OperationID record) d = None ->
  actionByOperation (SA_OperationID record) (setActions (ac_actions d ++ [record]) d) = Some record.
Proof.
  unfold actionByOperation. simpl. intros Hnone. apply find_last; [apply eqs_refl|]. intros y Hy. apply list_elem_of_In in Hy.
  apply (List.find_none _ _ Hnone y Hy).
Qed.

Section Reads.
Context (sqlFails : nat -> bool).

Lemma readAction_spec find d : wp (readAction sqlFails find) (fun r d' => d' = d /\ match r with Ok record => find d = Some record
  | Err e => e = ErrSecureActionNotFound -> find d = None end) d.
Proof.
  unfold readAction. wp_step. apply wp_statement; [|done]. cbv [id]. do 4 wp_step. destruct (find d) as [r|] eqn:Hf; [by apply wp_ret|by apply wp_fail].
Qed.

Lemma readEvent_spec eventID d : wp (GetSecureActionAuditEvent sqlFails eventID) (fun r d' => d' = d /\ True) d.
Proof.
  unfold GetSecureActionAuditEvent. wp_step. apply wp_statement; [|done]. cbv [id]. do 4 wp_step. by destruct (actionEventByID _ d); [apply wp_ret|apply wp_fail].
Qed.

Lemma readExecution_spec actionID d : wp (GetSecureActionExecutionState sqlFails actionID) (fun r d' => d' = d /\
  forall x, r = Ok x -> Execution_Started x = startedIn actionID d) d.
Proof.
  unfold GetSecureActionExecutionState. wp_step. apply wp_statement; [|done]. cbv [id]. do 4 wp_step. apply wp_ret. split; [done|]. by intros x [= <-].
Qed.

Lemma listActions_spec formatTime decision limit d : wp (ListSecureActions sqlFails formatTime decision limit) (fun r d' => d' = d /\
  forall l x, r = Ok l -> x ∈ l -> x ∈ ac_actions d) d.
Proof.
  unfold ListSecureActions. wp_step. apply wp_statement; [|done]. cbv [id]. do 4 wp_step. apply wp_ret. split; [done|]. intros l x [= <-] Hx.
  apply elem_of_take in Hx as (i & Hx & _). apply list_elem_of_lookup_2 in Hx. rewrite merge_sort_Permutation in Hx.
  apply list_elem_of_In, List.filter_In in Hx as [Hx _]. by apply list_elem_of_In.
Qed.

End Reads.

(** ** Decisions *)

Lemma decide_kinds protection q posture active deadline t : DView_Decision (decideForNode protection q posture active deadline t) ∈ freshDecisions.
Proof.
  unfold decideForNode, actionGate_decide. destruct active; cbn [negb]; [|set_solver]. destruct (actionPolicy _ _) as [p|]; [|set_solver].
  destruct (negb _); [set_solver|]. destruct (eqs _ _); [|set_solver]. destruct (APolicy_ConsentRequired p); set_solver.
Qed.

Lemma actionPolicy_deadline protection deadline q : actionPolicy protection (withDeadline deadline q) = actionPolicy protection q.
Proof.
  unfold actionPolicy. generalize false. induction (PConfig_ProtectedActions protection) as [|p l IH]; intros b; [done|]. simpl.
  unfold policyCovers. simpl. by rewrite !IH.
Qed.

(** A policy lists a value by itself or by the wildcard. *)
Definition listed (values : list string) (wanted : string) : Prop := "*"%string ∈ values \/ wanted ∈ values.

(** A policy admits a request: its node, application, type, data class and
    sensitivity are listed, and every one of its destinations is. *)
Definition admits (p : ProtectedActionPolicyConfig) (q : secureActionRequest) : Prop :=
  listed (APolicy_NodeIDs p) (SReq_NodeID q) /\ listed (APolicy_ApplicationIDs p) (SReq_ApplicationID q) /\
  listed (APolicy_ActionTypes p) (SReq_ActionType q) /\ listed (APolicy_DataClasses p) (SReq_DataClass q) /\
  listed (APolicy_Sensitivities p) (SReq_Sensitivity q) /\
  forall destination, destination ∈ SReq_Destinations q -> listed (APolicy_AllowedDestinations p) destination.

Lemma policyValueMatches_listed values wanted : policyValueMatches values wanted = true <-> listed values wanted.
Proof.
  unfold policyValueMatches, listed. rewrite existsb_exists. split.
  - intros (x & Hx%list_elem_of_In & [->%eqs_true| ->%eqs_true]%orb_true_iff); auto.
  - intros [Hx|Hx]; eexists; rewrite <- list_elem_of_In; (split; [exact Hx|]); by rewrite eqs_refl, ?orb_true_r.
Qed.

(** The policy found is one of the configuration that admits the request. *)
Lemma actionPolicy_admits protection q p : actionPolicy protection q = inl p -> p ∈ PConfig_ProtectedActions protection /\ admits p q.
Proof.
  unfold actionPolicy. generalize false. induction (PConfig_ProtectedActions protection) as [|x l IH]; intros b; [done|]. simpl.
  destruct (negb _) eqn:Hc; [intros [? ?]%IH; by split; [right|]|]. destruct (forallb _ _) eqn:Hd; [|intros [? ?]%IH; by split; [right|]].
  intros [= ->]. split; [left|]. apply negb_false_iff in Hc. unfold policyCovers in Hc. rewrite !andb_true_iff, !policyValueMatches_listed in Hc.
  destruct Hc as [[[[? ?] ?] ?] ?]. split_and!; [done..|]. intros destination Hin%list_elem_of_In. apply policyValueMatches_listed.
  rewrite forallb_forall in Hd. by apply Hd.
Qed.

(** What an [ALLOW] rests on. *)
Definition protectedNow (protection : ProtectionConfig) (q : secureActionRequest) (posture : protectionView) (deadline t : time) : Prop :=
  (exists p, actionPolicy protection q = inl p /\ p ∈ PConfig_ProtectedActions protection /\ admits p q /\ APolicy_ConsentRequired p = false) /\
  t < deadline /\ PView_State posture = "PROTECTED"%string.

Lemma decide_allows protection q posture deadline t : DView_Decision (actionGate_decide protection q posture deadline t) = decisionALLOW ->
  protectedNow protection q posture deadline t.
Proof.
  unfold actionGate_decide, protectedNow. destruct (actionPolicy _ _) as [p|] eqn:Hpol; [|done]. destruct (negb _) eqn:Hd; [done|].
  pose proof (actionPolicy_admits _ _ _ Hpol) as [? ?].
  apply negb_false_iff, Z.ltb_lt in Hd. destruct (eqs _ _) eqn:Hp; [|done]. apply eqs_true in Hp. destruct (APolicy_ConsentRequired p) eqn:Hc; [done|].
  intros _. split_and!; [by exists p|done|done].
Qed.

Lemma fresh_utf8 word : word ∈ decisionALLOW_ONCE :: freshDecisions -> utf8 word.
Proof. intros Hw. repeat (apply elem_of_cons in Hw as [->|Hw]; [done|]). by apply elem_of_nil in Hw. Qed.

Lemma fresh_word r v : DView_Decision v ∈ decisionALLOW_ONCE :: freshDecisions -> decisionMarshal v = Some (SA_DecisionJSON r) ->
  SA_Decision r = DView_Decision v -> storedWord r.
Proof. intros Hv Hs Hd v' Hv'. rewrite Hd. eapply decision_word; [by apply fresh_utf8|done..]. Qed.

Lemma decodeStored_word record q key v : storedWord record -> decodeStoredDecision record q key = Ok v -> DView_Decision v = SA_Decision record.
Proof.
  unfold decodeStoredDecision. intros Hw. destruct (decisionUnmarshal _) as [v0|] eqn:Hu; [|done]. specialize (Hw v0 Hu).
  destruct (_ && _); [|by intros [= <-]]. destruct (parseNano _); [|done]. destruct (parseNano _); [|done]. by intros [= <-].
Qed.

(** ** Appending *)

Definition labelName (c : actionLabel) : string * string * string :=
  match c with
  | ActionDecided id => ("secure_action.evaluate", "secure_action", id)
  | ActionRedecided released id => (if released then "secure_action.release" else "secure_action.reevaluate", "secure_action", id)
  | ActionAuthorized id => ("secure_action.authorize_once", "secure_action", id)
  | ActionReported lifecycle id => ("secure_action." +:+ toLower lifecycle, "secure_action", id)
  | PostureReported nodeID => ("posture.report", "node", nodeID)
  end%string.

(** One change, and the one entry that names it. *)
Definition changed (service : Service) (w w' : gateWorld) : Prop :=
  exists c e, actionChange (tablesOf w) (tablesOf w') c /\ entriesOf w' = entriesOf w ++ [e] /\
    labelName c = (Audit_Action e, Audit_ResourceType e, Audit_ResourceID e) /\ Audit_KeyID e = Service_keyID service.

Definition sameTables (w w' : gateWorld) : Prop := aw_tables (gw_audit w') = aw_tables (gw_audit w).
Definition kept (w w' : gateWorld) : Prop := gw_postures w' = gw_postures w /\ gw_findings w' = gw_findings w.

Definition opPost (service : Service) (w w' : gateWorld) : Prop :=
  auditInv (Service_keyring service) (gw_audit w') /\ (sameTables w w' \/ changed service w w').

Lemma gateAppend_op (h : gateHost) keys (w : gateWorld) service ctx q mutation transition c : years (gh_audit h) -> auditInv keys (gw_audit w) -> serviceOK keys service ->
  audited transition mutation -> (forall d', transition (tablesOf w) d' -> actionChange (tablesOf w) d' c) ->
  labelName c = (Append_Action q, Append_ResourceType q, Append_ResourceID q) ->
  wp (zoom gw_audit setGateAudit (AuditAppend marshalDetails (gh_audit h) service ctx q mutation))
    (fun r w' => opPost service w w' /\ kept w w' /\ (sameTables w w' /\ is_ok r = false \/ transition (tablesOf w) (tablesOf w'))) w.
Proof.
  intros Hy Hinv Hs Hmut Hc Hname. apply wp_zoom. eapply wp_mono; [by eapply (Append_keeps marshalDetails marshal_json transition)|]. intros r a' [Hinv' Hr].
  specialize (Hinv' a' eq_refl eq_refl). set (w' := setGateAudit a' w).
  assert (forall e, recorded marshalDetails transition service q (aw_tables (gw_audit w)) (aw_tables a') e -> changed service w w') as Hch.
  { intros e (Hes & [_ Hk Hf _] & Ht). exists c, e. unfold requestFields in Hf. injection Hf as E1 E2 E3 E4 E5 E6.
    split_and!; [by apply Hc|done|by rewrite Hname, E3, E4, E5|done]. }
  destruct r as [e|e].
  - destruct Hr as [Hrec _]. split_and!; [split; [done|right; by eapply Hch]|done|right; apply Hrec].
  - destruct Hr as [[Hsame|[x Hrec]] _]; (split_and!; [split; [done|]|done|]); [by left|by left|right; by eapply Hch|right; apply Hrec].
Qed.

Lemma gatePost_refl service keys (w : gateWorld) : auditInv keys (gw_audit w) -> serviceOK keys service -> opPost service w w.
Proof. intros Hinv Hs. split; [|by left]. eapply auditInv_mono; [apply Hs|done]. Qed.

(** ** The operations *)

Section Calls.
Context (h : gateHost) (keys : ring) (w : gateWorld) (service : Service) (ctx : ctxT) (gate : actionGate).
Hypothesis Hyears : years (gh_audit h).
Hypothesis Hinv : auditInv keys (gw_audit w).
Hypothesis Hservice : serviceOK keys service.
Hypothesis Htables : actionInv (tablesOf w).

Abbreviation protection := (AGate_protection gate).
Abbreviation sqlFails := (host_sqlFails (gh_audit h)).

(** The call makes at most one change, holds what it held, and what it answers
    is true of the tables. *)
Definition callPost {A} (fact : A -> gateWorld -> Prop) (r : result A) (w' : gateWorld) : Prop :=
  opPost service w w' /\ kept w w' /\ forall x, r = Ok x -> fact x w'.
Abbreviation posts m fact := (wp m (callPost fact) w).

Lemma callPost_refl {A} (fact : A -> gateWorld -> Prop) r : (forall x, r = Ok x -> fact x w) -> callPost fact r w.
Proof. intros Hx. split; [by eapply gatePost_refl|]. by split. Qed.

(** The posture that is held of a node, as it is read at [t]. *)
Definition heldPosture (nodeID : string) (t : time) : protectionView := postureView (PConfig_TelemetryStaleAfter protection) (gw_postures w) nodeID t.
Definition nodeActiveIn (nodeID : string) (d : actionDB) : Prop := exists node, db_nodes (ac_core d) !! nodeID = Some node /\ Node_Status node = NodeActive.

(** The report that is held of a node says it is protected, and is neither
    past its end nor older than the configuration allows. *)
Definition freshPosture (nodeID : string) (t : time) : Prop :=
  exists report validUntil observedAt, gw_postures w !! nodeID = Some report /\ Report_State report = "PROTECTED"%string /\
    parseNano (Report_ValidUntil report) = Some validUntil /\ parseNano (Report_ObservedAt report) = Some observedAt /\
    t < validUntil /\ Sub t observedAt <= PConfig_TelemetryStaleAfter protection.

Lemma heldPosture_fresh nodeID t : PView_State (heldPosture nodeID t) = "PROTECTED"%string -> freshPosture nodeID t.
Proof.
  unfold heldPosture, postureView, freshPosture. destruct (gw_postures w !! nodeID) as [report|]; [|done].
  destruct (parseNano (Report_ValidUntil report)) as [validUntil|] eqn:Hu; [|done]. destruct (parseNano (Report_ObservedAt report)) as [observedAt|] eqn:Ho; [|done].
  destruct (_ || _) eqn:Hs; [done|]. apply orb_false in Hs as [Hv%negb_false_iff%Z.ltb_lt Hs%Z.ltb_ge]. intros Hp. by exists report, validUntil, observedAt.
Qed.

Lemma posture_spec nodeID t : wp (actionPosture sqlFails gate nodeID t) (fun r w' => w' = w /\
  forall posture active, r = Ok (posture, active) -> active = true -> nodeActiveIn nodeID (tablesOf w) /\ posture = heldPosture nodeID t) w.
Proof.
  unfold actionPosture. wp_step. eapply wp_gateDatabase; [eapply wp_actionCore, getNode_spec|]. intros [node|e] Hn; wp_step; [|done].
  destruct (negb _) eqn:Hact; [apply wp_ret; split; [done|naive_solver]|]. apply negb_false_iff, eqs_true in Hact.
  unfold gate_posture. do 5 wp_step. split; [done|]. intros posture active [= <- _] _. split; [|done]. exists node. split; [by apply Hn|done].
Qed.

(** An answer of [ALLOW] rests on the posture, the policy and the time. *)
Definition allowed (q : secureActionRequest) : Prop :=
  exists n deadline, parseNano (SReq_Deadline q) = Some deadline /\ nodeActiveIn (SReq_NodeID q) (tablesOf w) /\
    protectedNow protection q (heldPosture (SReq_NodeID q) (gh_clock h n)) deadline (gh_clock h n) /\ freshPosture (SReq_NodeID q) (gh_clock h n).
Definition evaluateFact (q : secureActionRequest) (x : reply decisionView) (w' : gateWorld) : Prop :=
  forall v, reply_value x = Ok v -> DView_Decision v = decisionALLOW -> allowed q.

(** An answer that reports an error, with nothing done. *)
Ltac refused := apply wp_ret, callPost_refl; intros ? [= <-] ? [=].

Section Evaluate.
Context (actor : principal) (q0 : secureActionRequest) (canonical : string) (deadline : time) (posture : protectionView) (active : bool) (n : nat).
Abbreviation q := (withDeadline (formatNano deadline) q0).
Abbreviation t := (gh_clock h n).
Hypothesis Hcanonical : actionMarshal q = Some canonical.
Hypothesis Hdeadline : parseNano (SReq_Deadline q0) = Some deadline.
Hypothesis Hposture : active = true -> nodeActiveIn (SReq_NodeID q0) (tablesOf w) /\ posture = heldPosture (SReq_NodeID q0) t.

Lemma fresh_allowed : DView_Decision (decideForNode protection q posture active deadline t) = decisionALLOW -> allowed q0.
Proof.
  unfold decideForNode. destruct active; cbn [negb]; [|done]. intros Ha%decide_allows. destruct (Hposture eq_refl) as [Hn ->].
  exists n, deadline. unfold protectedNow in *. rewrite actionPolicy_deadline in Ha. destruct Ha as (? & ? & ?).
  split_and!; [done..|by apply heldPosture_fresh].
Qed.

Lemma reevaluate_post existing : actionByOperation (SReq_OperationID q0) (tablesOf w) = Some existing ->
  posts (reevaluate sqlFails (host_sysFails (gh_audit h)) (host_torn (gh_audit h)) (host_contention (gh_audit h)) (host_fsyncLinks (gh_audit h))
    (host_wall (gh_audit h)) (host_clock (gh_audit h)) (host_newID (gh_audit h)) marshalDetails gate service ctx actor q canonical deadline posture active existing t)
    (evaluateFact q0).
Proof.
  intros Hf. pose proof (find_elem _ _ _ Hf) as [Hin _]. pose proof (rowOK_word _ (ai_rows _ Htables _ Hin)) as Hword. unfold reevaluate, refuse, respond.
  destruct (negb (RequestMatches _ _)) eqn:Hm; [refused|]. apply negb_false_iff, eqs_true in Hm.
  destruct (_ && isSome _); [refused|].
  destruct (decodeStoredDecision _ _ _) as [decision|] eqn:Hd; [|refused].
  apply decodeStored_word in Hd; [|done].
  destruct (_ && _) eqn:Honce. { rewrite !andb_true_iff in Honce. destruct Honce as [[[Ho%eqs_true _] _] _].
    apply wp_ret, callPost_refl. intros x [= <-] v [= <-] Ha. by rewrite Ha in Ho. }
  set (fresh := decideForNode _ _ _ _ _ _).
  destruct (decisionEquivalent _ _) eqn:Heq. { apply wp_ret, callPost_refl. intros x [= <-] v [= <-] Ha.
    unfold decisionEquivalent in Heq. rewrite !andb_true_iff in Heq. destruct Heq as [[[[[[Hw%eqs_true _] _] _] _] _] _].
    apply fresh_allowed. fold fresh. destruct (eqs (DView_Decision fresh) _) in Ha; congruence. }
  destruct (decisionMarshal fresh) as [encoded|] eqn:Hme; [|refused].
  pose proof (decide_kinds protection q posture active deadline t) as Hk. fold fresh in Hk.
  do 2 wp_step. eapply wp_mono; [eapply (gateAppend_op h keys w service ctx _ _ (swapT existing (redecidedAction existing fresh encoded t))
    (ActionRedecided (eqs (DView_Decision decision) decisionHOLD && eqs (DView_Decision fresh) decisionALLOW) (SReq_ID q))); try done|].
  - apply swap_audited.
  - intros d' Ht. eapply ac_redecide; [exact Ht| |by rewrite Hm]. split_and!; simpl; [done|intros Hs; destruct (eqs (DView_Decision fresh) _) eqn:He; [by apply eqs_true|by destruct Hs]|].
    by apply (fresh_word _ fresh); [right|..].
  - intros r w' (Hp & Hkept & _). wp_step. destruct r as [entry|e].
    + apply wp_ret. split_and!; [done..|]. intros x [= <-] v [= <-] Ha. by apply fresh_allowed.
    + case_bool_decide; apply wp_ret; (split_and!; [done..|]); intros x [= <-] v [=].
Qed.

Lemma first_post : (forall r, actionByOperation (SReq_OperationID q0) (tablesOf w) <> Some r) ->
  posts (firstDecision sqlFails (host_sysFails (gh_audit h)) (host_torn (gh_audit h)) (host_contention (gh_audit h)) (host_fsyncLinks (gh_audit h))
    (host_wall (gh_audit h)) (host_clock (gh_audit h)) (host_newID (gh_audit h)) marshalDetails gate service ctx actor q canonical deadline posture active t)
    (evaluateFact q0).
Proof.
  intros Hnone. unfold firstDecision, refuse, respond. set (decision := decideForNode _ _ _ _ _ _).
  destruct (decisionMarshal decision) as [decisionJSON|] eqn:Hme; [|refused].
  pose proof (decide_kinds protection q posture active deadline t) as Hk. fold decision in Hk.
  set (record := decidedAction _ _ _ _ _). assert (storedWord record) as Hword by (by apply (fresh_word _ decision); [right|..]).
  do 2 wp_step. eapply wp_mono; [eapply (gateAppend_op h keys w service ctx _ _ (createT record) (ActionDecided (SA_ID record))); try done|].
  - apply withAudit_audited. apply create_does.
  - intros d' Ht. apply ac_decide; [exact Ht|]. split_and!; [done|by intros []|done].
  - intros r w' (Hp & Hkept & Ht). wp_step. destruct r as [entry|e].
    + apply wp_ret. split_and!; [done..|]. intros x [= <-] v [= <-] Ha. by apply fresh_allowed.
    + do 2 wp_step. eapply wp_gateDatabase; [apply readAction_spec|]. intros [r|e'] Hr; wp_step.
      2: apply wp_ret; split_and!; [done..|]; intros x [= <-] v [=].
      destruct (RequestMatches _ _); apply wp_ret; (split_and!; [done..|]); intros x [= <-] v; [|done]. simpl. intros Hd Ha.
      destruct Ht as [[Hsame _]|[_ Ht]]; [unfold sameTables in Hsame; rewrite Hsame in Hr; by apply Hnone in Hr|].
      apply fresh_allowed. fold decision. assert (r = record) as ->.
      { rewrite Ht in Hr. change (SReq_OperationID q) with (SA_OperationID record) in Hr. rewrite created_found in Hr; [by injection Hr|]. by destruct (actionByOperation _ _) as [y|] eqn:Hy; [destruct (Hnone y)|]. }
      by apply decodeStored_word in Hd; [rewrite Hd in Ha|].
Qed.

End Evaluate.
Lemma validateAction_deadline q t deadline : validateAction q t = Ok deadline -> parseNano (SReq_Deadline q) = Some deadline.
Proof.
  unfold validateAction. intros Hv. apply reject_Ok in Hv as [_ Hv]. apply reject_Ok in Hv as [_ Hv]. apply rbind_Ok in Hv as ([] & _ & Hv).
  apply reject_Ok in Hv as [_ Hv]. apply reject_Ok in Hv as [_ Hv]. destruct (parseNano _) as [d|]; [|done]. by apply reject_Ok in Hv as [_ [= <-]].
Qed.

Lemma evaluate_post caller q : posts (DoEvaluate h gate service ctx caller q) (evaluateFact q).
Proof.
  unfold DoEvaluate, actionGate_evaluate, refuse. destruct (negb _); [refused|]. do 3 wp_step.
  destruct (validateAction q _) as [deadline|] eqn:Hv; [|refused]. apply validateAction_deadline in Hv.
  destruct (actionMarshal _) as [canonical|] eqn:Hm; [|refused]. do 5 wp_step.
  eapply wp_mono; [apply posture_spec|]. intros r w' [-> Hp]. wp_step. destruct r as [[posture active]|e]; [|refused].
  do 2 wp_step. eapply wp_gateDatabase; [apply readAction_spec|]. intros [existing|e] Hf; wp_step.
  - eapply reevaluate_post; [exact Hm|exact Hv| |exact Hf]. intros ->. by apply (Hp posture true).
  - case_bool_decide as He; [|refused]. subst e. cbn [negb]. eapply first_post; [exact Hv| |].
    + intros ->. by apply (Hp posture true).
    + intros r Hr. specialize (Hf eq_refl). simpl in Hf. congruence.
Qed.

(** *** Authorization *)

Lemma gatePost_keeps w' : opPost service w w' -> actionInv (tablesOf w') /\ laterActions (tablesOf w) (tablesOf w').
Proof.
  intros [_ [Hs|(c & e & Hch & _)]]; [unfold sameTables in Hs; rewrite Hs; done|]. by eapply actionChange_keeps.
Qed.

(** The grant that is answered is in the tables, not used yet. *)
Definition authorizeFact (caller : option principal) (actionID : string) (x : reply decisionView) (w' : gateWorld) : Prop :=
  forall v, reply_value x = Ok v -> exists r original, r ∈ ac_actions (tablesOf w') /\ SA_ID r = actionID /\ SA_Decision r = decisionALLOW_ONCE /\
    SA_ReleasedAt r = None /\ DView_Decision v = decisionALLOW_ONCE /\ actionUnmarshal (SA_RequestJSON r) = Some original /\
    nodeActiveIn (SReq_NodeID original) (tablesOf w) /\ allowsAction (principalFromContext caller) original = true /\
    PConfig_AllowOneTimeBypass protection = true.

Section Authorize.
Context (caller : option principal) (actionID : string) (request : authorizeRequest) (record : SecureActionRecord) (original : secureActionRequest).
Context (posture : protectionView) (actionDeadline expiresAt : time) (n : nat).
Abbreviation t := (gh_clock h n).
Hypothesis Hrecord : actionByID actionID (tablesOf w) = Some record.
Hypothesis Horiginal : actionUnmarshal (SA_RequestJSON record) = Some original.
Hypothesis Hdeadline : parseNano (SReq_Deadline original) = Some actionDeadline.
Hypothesis Hexpires : expiresAt <= actionDeadline.
Hypothesis Hactive : nodeActiveIn (SReq_NodeID original) (tablesOf w).
Hypothesis Hscope : allowsAction (principalFromContext caller) original = true.
Hypothesis Henabled : PConfig_AllowOneTimeBypass protection = true.
Hypothesis Hroute : Authorize_ActionID request = actionID.

Lemma authorized_fact status v w' r : r ∈ ac_actions (tablesOf w') -> SA_ID r = actionID -> SA_RequestJSON r = SA_RequestJSON record ->
  SA_Decision r = decisionALLOW_ONCE -> SA_ReleasedAt r = None -> DView_Decision v = decisionALLOW_ONCE ->
  authorizeFact caller actionID (mkReply status (Ok v)) w'.
Proof. intros Hr Hid Hj Hd Hn Hv x [= <-]. exists r, original. rewrite Hj. by split_and!. Qed.

Lemma record_known : record ∈ ac_actions (tablesOf w) /\ SA_ID record = actionID /\ storedWord record.
Proof. apply find_elem in Hrecord as [Hin Hid%eqs_true]. split_and!; [done..|]. by apply rowOK_word, (ai_rows _ Htables). Qed.

(** The row of the action after the call. *)
Lemma record_later w' current : opPost service w w' -> actionByID actionID (tablesOf w') = Some current ->
  current ∈ ac_actions (tablesOf w') /\ SA_ID current = actionID /\ SA_RequestJSON current = SA_RequestJSON record /\ storedWord current.
Proof.
  intros [Hi Hl]%gatePost_keeps Hf. apply find_elem in Hf as [Hin Hid%eqs_true]. destruct record_known as (Hr & Hrid & _).
  destruct (la_rows _ _ Hl record Hr) as (r' & Hr' & Hsame & _). assert (r' = current) as <-.
  { apply (nodup_key SA_ID (ac_actions (tablesOf w'))); [apply Hi|done..|]. destruct Hsame. congruence. }
  split_and!; [done..|apply Hsame|]. by apply rowOK_word, (ai_rows _ Hi).
Qed.

Lemma grant_post : SA_Decision record ∈ [decisionHOLD; decisionREQUIRE_CONSENT; decisionBLOCK] ->
  posts (grantOnce sqlFails (host_sysFails (gh_audit h)) (host_torn (gh_audit h)) (host_contention (gh_audit h)) (host_fsyncLinks (gh_audit h))
    (host_wall (gh_audit h)) (host_clock (gh_audit h)) (host_newID (gh_audit h)) marshalDetails gate service ctx (principalFromContext caller) request record original posture expiresAt t)
    (authorizeFact caller actionID).
Proof.
  intros Hdec. unfold grantOnce, refuse, respond. set (granted := withExpiry _ _ _ _). set (authorization := makeAuthorization _ _ _ _).
  set (decision := withAuthorizationView (Some authorization) granted). set (stored := withAuthorizationView _ _).
  destruct (decisionMarshal stored) as [decisionJSON|] eqn:Hme; [|refused]. set (next := authorizedAction _ _ _ _ _).
  destruct record_known as (Hin & Hid & _). assert (SA_ReleasedAt record = None) as Hnone.
  { destruct (ai_rows _ Htables record Hin) as [(_ & Hf & _)|[(Ho & _)|(Ho & _)]]; [|rewrite Ho in Hdec; set_solver..].
    destruct (SA_ReleasedAt record); [|done]. rewrite Hf in Hdec by (by eexists). set_solver. }
  do 2 wp_step. eapply wp_mono; [eapply (gateAppend_op h keys w service ctx _ _ (swapT record next) (ActionAuthorized (SA_ID next))); try done|].
  - apply swap_audited.
  - intros d' Ht. eapply ac_authorize; [exact Ht|]. split_and!; [done|done| |].
    + by exists original, actionDeadline, expiresAt.
    + apply (fresh_word _ stored); [left|done..].
  - unfold labelName. simpl. by rewrite Hid, Hroute.
  - intros r w' (Hp & Hkept & Ht). wp_step. destruct r as [entry|e].
    + apply wp_ret. split_and!; [done..|]. intros x [= <-]. destruct Ht as [[_ Ht]|(_ & _ & (r & Hr & Hsw) & Ht)]; [done|].
      apply swappable_true in Hsw as Hids. assert (r = record) as -> by (apply (nodup_key SA_ID (ac_actions (tablesOf w))); [apply Htables|done..|apply Hids]).
      apply (authorized_fact _ _ _ (swappedAction next record)); try done. rewrite Ht. apply updateWhere_elem. exists record. by rewrite Hsw.
    + case_bool_decide; [|apply wp_ret; split_and!; [done..|]; intros x [= <-] v [=]].
      do 2 wp_step. eapply wp_gateDatabase; [apply readAction_spec|]. rewrite Hroute. intros [current|e'] Hr; wp_step.
      2: apply wp_ret; split_and!; [done..|]; intros x [= <-] v [=].
      destruct (_ && _) eqn:Hc; apply wp_ret; (split_and!; [done..|]); intros x [= <-] v; [|done]. simpl. intros Hd.
      rewrite !andb_true_iff in Hc. destruct Hc as [[Ho%eqs_true Hfree%negb_true_iff] _].
      destruct (record_later w' current Hp Hr) as (Hcin & Hcid & Hcj & Hcw). eapply (authorized_fact StatusOK); [exact Hcin|done..| | |reflexivity].
      * by destruct (SA_ReleasedAt current).
      * rewrite <- Ho. by eapply decodeStored_word.
Qed.

Lemma stored_post :
  posts (authorizeStored sqlFails (host_sysFails (gh_audit h)) (host_torn (gh_audit h)) (host_contention (gh_audit h)) (host_fsyncLinks (gh_audit h))
    (host_wall (gh_audit h)) (host_clock (gh_audit h)) (host_newID (gh_audit h)) marshalDetails gate service ctx (principalFromContext caller) request record original posture expiresAt t)
    (authorizeFact caller actionID).
Proof.
  unfold authorizeStored, refuse, respond. destruct (eqs (SA_Decision record) decisionALLOW_ONCE) eqn:Ho.
  - apply eqs_true in Ho. destruct (isSome _) eqn:Hfree; [refused|]. destruct (decodeStoredDecision _ _ _) as [decision|] eqn:Hd; [|refused].
    destruct (negb _); [refused|]. destruct record_known as (Hin & Hid & Hword). apply wp_ret, callPost_refl. intros x [= <-].
    eapply authorized_fact; [exact Hin|done..| |].
    + by destruct (SA_ReleasedAt record).
    + rewrite <- Ho. by eapply decodeStored_word.
  - destruct (negb _ && _ && _) eqn:Hk; [refused|]. rewrite !andb_false_iff, !negb_false_iff, !eqs_true in Hk.
    destruct (negb _); [refused|]. destruct (decisionUnmarshal _); [|refused]. destruct (negb _); [refused|]. apply grant_post. set_solver.
Qed.

End Authorize.

Lemma authorize_post caller actionID request : posts (DoAuthorize h gate service ctx caller actionID request) (authorizeFact caller actionID).
Proof.
  unfold DoAuthorize, actionGate_authorize, refuse. destruct (_ || _ || _) eqn:Hroute; [refused|].
  rewrite !orb_false, negb_false_iff in Hroute. destruct Hroute as [[Hroute%eqs_true _] _]. destruct (negb _); [refused|].
  destruct (parseNano _) as [expiresAt|]; [|refused]. do 3 wp_step. destruct (_ || _); [refused|].
  destruct (negb _) eqn:Hen; [refused|]. apply negb_false_iff in Hen. do 2 wp_step. eapply wp_gateDatabase; [apply readAction_spec|].
  intros [record|e] Hr; wp_step; [|refused]. destruct (actionUnmarshal _) as [original|] eqn:Ho; [|refused].
  destruct (parseNano _) as [actionDeadline|] eqn:Hd; [|refused]. destruct (_ <? _) eqn:Hle; [refused|]. apply Z.ltb_ge in Hle.
  destruct (negb _) eqn:Hscope; [refused|]. apply negb_false_iff in Hscope. do 2 wp_step. eapply wp_mono; [apply posture_spec|]. intros r w' [-> Hp]. wp_step.
  destruct r as [[posture active]|e]; [|refused]. destruct active; cbn [negb]; [|refused]. destruct (_ || _); [refused|].
  eapply stored_post; try done. by apply (Hp posture true).
Qed.

(** *** The execution of an action *)

(** What the start of an execution rests on. *)
Definition usableNow (record : SecureActionRecord) (original : secureActionRequest) (deadline t : time) (w' : gateWorld) : Prop :=
  SA_Decision record = decisionALLOW /\ protectedNow protection original (heldPosture (SReq_NodeID original) t) deadline t \/
  SA_Decision record = decisionALLOW_ONCE /\ SA_ReleasedAt record = None /\ (exists x, SA_BypassExpiresAt record = Some x /\ t < x) /\
    releasedAction t record ∈ ac_actions (tablesOf w').

Definition startFact (caller : option principal) (actionID : string) (request : auditEventRequest) (x : reply unit) (w' : gateWorld) : Prop :=
  forall u, reply_value x = Ok u -> AReq_Lifecycle request = executionStarted -> exists n record original deadline,
    actionByID actionID (tablesOf w) = Some record /\ actionUnmarshal (SA_RequestJSON record) = Some original /\
    parseNano (SReq_Deadline original) = Some deadline /\ allowsAction (principalFromContext caller) original = true /\
    gh_clock h n < deadline /\ nodeActiveIn (SReq_NodeID original) (tablesOf w) /\ usableNow record original deadline (gh_clock h n) w' /\
    startedIn actionID (tablesOf w) = false /\ startedIn actionID (tablesOf w') = true.

Section Start.
Context (caller : option principal) (actionID : string) (request q : auditEventRequest) (occurredAt : time) (digest : list Z).
Context (record : SecureActionRecord) (original : secureActionRequest) (n : nat).
Abbreviation t := (gh_clock h n).
Hypothesis Hlifecycle : AReq_Lifecycle q = AReq_Lifecycle request.
Hypothesis Hrecord : actionByID actionID (tablesOf w) = Some record.
Hypothesis Horiginal : actionUnmarshal (SA_RequestJSON record) = Some original.
Hypothesis Hscope : allowsAction (principalFromContext caller) original = true.

Lemma replayed_post eventID' existing w' : opPost service w w' -> kept w w' ->
  wp (replayedEvent actionID (AReq_Lifecycle q) eventID' existing) (callPost (startFact caller actionID request)) w'.
Proof.
  intros Hp Hk. unfold replayedEvent, refuse, respond. destruct (_ || _); [apply wp_ret; split_and!; [done..|]; intros x [= <-] u [=]|].
  rewrite Hlifecycle. destruct (eqs _ _) eqn:Hs; apply wp_ret; (split_and!; [done..|]); intros x [= <-] u; [done|]. intros _ Hst.
  by rewrite Hst, eqs_refl in Hs.
Qed.

(** The transition of a start, from the row of the action. *)
Lemma started_fact e deadline status w' : AEvent_action_id e = actionID -> AEvent_lifecycle e = AReq_Lifecycle q ->
  lifecycleT e record (SReq_NodeID original) t (tablesOf w) (tablesOf w') -> parseNano (SReq_Deadline original) = Some deadline -> t < deadline ->
  (SA_Decision record = decisionALLOW -> protectedNow protection original (heldPosture (SReq_NodeID original) t) deadline t) ->
  startFact caller actionID request (mkReply status (Ok tt)) w'.
Proof.
  intros Hid Hl (r & Hr & Hfree & _ & Hh & Hu & Hw) Hd Hlt Hallow u [= <-] Hs. rewrite Hid, Hrecord in Hr. injection Hr as <-. rewrite Hl, Hlifecycle, Hs in *.
  destruct (Hu eq_refl) as [Hact Huse]. exists n, record, original, deadline. pose proof (find_elem _ _ _ Hrecord) as [Hin Hrid%eqs_true].
  split_and!; try done.
  - unfold nodeIsActive in Hact. destruct (db_nodes _ !! _) as [node|] eqn:Hn; [|done]. exists node. split; [done|by apply eqs_true].
  - destruct Huse as [Ha|(Ho & Hrel & x & Hx & Hlx)]; [left; auto|right]. split_and!; [done|done|by exists x|]. rewrite Hw. simpl.
    unfold consumedActions. rewrite eqs_refl, Ho, eqs_refl. simpl. apply updateWhere_elem. exists record. split; [done|].
    unfold releasableAction. by rewrite eqs_refl, Hrel.
  - rewrite <- Hid. eapply start_first; [by rewrite Hid| |done]. intros _. by apply Hh.
  - apply startedIn_elem. exists e. rewrite Hw. simpl. split_and!; [set_solver|done|done].
Qed.

Lemma record_post : AEvent_lifecycle (mkActionEvent (AReq_EventID q) (SA_ID record) (AReq_Lifecycle q) occurredAt digest) = AReq_Lifecycle q ->
  (AReq_Lifecycle q = executionStarted -> exists deadline, parseNano (SReq_Deadline original) = Some deadline /\ t < deadline /\
    (SA_Decision record = decisionALLOW -> protectedNow protection original (heldPosture (SReq_NodeID original) t) deadline t)) ->
  posts (recordLifecycle sqlFails (host_sysFails (gh_audit h)) (host_torn (gh_audit h)) (host_contention (gh_audit h)) (host_fsyncLinks (gh_audit h))
    (host_wall (gh_audit h)) (host_clock (gh_audit h)) (host_newID (gh_audit h)) toLower marshalDetails service ctx (principalFromContext caller) actionID q occurredAt digest record original t)
    (startFact caller actionID request).
Proof.
  intros _ Hstart. unfold recordLifecycle. set (e := mkActionEvent (AReq_EventID q) (SA_ID record) (AReq_Lifecycle q) occurredAt digest).
  pose proof (find_elem _ _ _ Hrecord) as [_ Hid%eqs_true]. do 2 wp_step.
  eapply wp_mono; [eapply (gateAppend_op h keys w service ctx _ _ (lifecycleT e record (SReq_NodeID original) t) (ActionReported (AEvent_lifecycle e) (SA_ID record))); try done|].
  - apply lifecycle_audited.
  - intros d' Ht. by eapply ac_report.
  - unfold labelName. by rewrite Hid.
  - intros r w' (Hp & Hkept & Ht). wp_step. destruct r as [entry|er].
    + apply wp_ret. split_and!; [done..|]. intros x [= <-]. destruct Ht as [[_ Ht]|Ht]; [done|]. intros u Hu Hs.
      destruct Hstart as (deadline & Hd & Hlt & Hallow); [by rewrite Hlifecycle|]. by eapply (started_fact e deadline StatusNoContent).
    + do 2 wp_step. eapply wp_gateDatabase; [apply readEvent_spec|]. intros [existing|e'] _; wp_step; [by apply replayed_post|].
      destruct (_ || _); apply wp_ret; (split_and!; [done..|]); intros x [= <-] u [=].
Qed.

Lemma refusal_none posture : startRefusal gate q record original posture t = None -> AReq_Lifecycle q = executionStarted -> nodeActiveIn (SReq_NodeID original) (tablesOf w) ->
  posture = heldPosture (SReq_NodeID original) t -> exists deadline, parseNano (SReq_Deadline original) = Some deadline /\ t < deadline /\
    (SA_Decision record = decisionALLOW -> protectedNow protection original (heldPosture (SReq_NodeID original) t) deadline t).
Proof.
  unfold startRefusal. destruct (parseNano _) as [deadline|]; [|done]. destruct (negb _) eqn:Hlt; [done|]. apply negb_false_iff, Z.ltb_lt in Hlt.
  intros Hr _ _ Hpos. exists deadline. split_and!; [done..|]. intros Ha. rewrite Ha, eqs_refl in Hr.
  destruct (_ || _) eqn:Hf; [done|]. rewrite orb_false, negb_false_iff in Hf. destruct Hf as [Hf%eqs_true _]. subst posture. by apply decide_allows.
Qed.

Lemma new_post : posts (newLifecycleEvent sqlFails (host_sysFails (gh_audit h)) (host_torn (gh_audit h)) (host_contention (gh_audit h)) (host_fsyncLinks (gh_audit h))
    (host_wall (gh_audit h)) (host_clock (gh_audit h)) (host_newID (gh_audit h)) toLower marshalDetails gate service ctx (principalFromContext caller) actionID q occurredAt digest record original t)
    (startFact caller actionID request).
Proof.
  unfold newLifecycleEvent, refuse. set (start := eqs (AReq_Lifecycle q) executionStarted). wp_step.
  eapply (wp_mono _ (fun r w' => w' = w /\ (r = Ok (Ok true) -> start = true -> nodeActiveIn (SReq_NodeID original) (tablesOf w)))).
  { destruct start; [|by apply wp_ret]. do 2 wp_step. eapply wp_mono; [apply posture_spec|]. intros r w' [-> Hp]. destruct r as [[posture active]|e]; wp_step; [|done].
    apply wp_ret. split; [done|]. intros [= ->] _. by apply (Hp posture true). }
  intros r w' [-> Hact]. destruct r as [[active|e]|e]; wp_step; [|refused|by apply callPost_refl]. destruct active; cbn [negb]; [|refused].
  destruct (_ || _); [refused|]. destruct (decisionUnmarshal _); [|refused]. destruct (negb _); [refused|].
  unfold gate_posture. do 6 wp_step. destruct (if start then _ else None) as [[status e]|] eqn:Href; [refused|].
  apply record_post; [done|]. intros Hs. assert (start = true) as Hst by (unfold start; by rewrite Hs, eqs_refl). rewrite Hst in Href. eapply refusal_none; eauto.
Qed.

End Start.

Lemma lifecycle_post caller actionID request : posts (DoLifecycle h gate service ctx caller actionID request) (startFact caller actionID request).
Proof.
  unfold DoLifecycle, appendLifecycleAudit, refuse. destruct (negb _); [refused|]. do 3 wp_step.
  destruct (checkLifecycleEvent _ _ _) as [[[occurredAt q] digest]|] eqn:Hc; [|refused]. assert (AReq_Lifecycle q = AReq_Lifecycle request) as Hl.
  { unfold checkLifecycleEvent in Hc. destruct (parseNano _); [|done]. apply reject_Ok in Hc as [_ Hc]. apply reject_Ok in Hc as [_ Hc].
    apply rbind_Ok in Hc as ([] & _ & Hc). destruct (auditEventMarshal _); [|done]. apply reject_Ok in Hc as [_ [= _ <- _]]. done. }
  do 2 wp_step. eapply wp_gateDatabase; [apply readAction_spec|]. intros [record|e] Hr; wp_step; [|refused].
  destruct (actionUnmarshal _) as [original|] eqn:Ho; [|refused]. destruct (negb _) eqn:Hscope; [refused|]. apply negb_false_iff in Hscope.
  do 2 wp_step. eapply wp_gateDatabase; [apply readEvent_spec|]. intros [existing|e] _; wp_step.
  - apply replayed_post; [done|by eapply gatePost_refl|done].
  - destruct (negb _); [refused|]. by apply new_post.
Qed.

(** *** Lists *)

(** An action is listed as allowed when it has started, or when it would be
    allowed now. *)
Definition itemFact (item : secureActionListItem) : Prop :=
  Item_Decision item = decisionALLOW -> exists record, record ∈ ac_actions (tablesOf w) /\ SA_ID record = Item_ActionID item /\
    (startedIn (SA_ID record) (tablesOf w) = true \/ exists n original deadline, actionUnmarshal (SA_RequestJSON record) = Some original /\
      parseNano (SReq_Deadline original) = Some deadline /\ nodeActiveIn (SReq_NodeID original) (tablesOf w) /\
      protectedNow protection original (heldPosture (SReq_NodeID original) (gh_clock h n)) deadline (gh_clock h n) /\
      freshPosture (SReq_NodeID original) (gh_clock h n)).

Lemma effective_allows record request committed started posture current active deadline t :
  storedWord record -> decisionUnmarshal (SA_DecisionJSON record) = Some committed -> (active = true -> posture = current) ->
  DView_Decision (effectiveDecision gate record request committed started posture current active deadline t) = decisionALLOW ->
  started = true \/ active = true /\ protectedNow protection request current deadline t.
Proof.
  intros Hw Hu Hpos. specialize (Hw _ Hu). unfold effectiveDecision. destruct (_ && isSome _); [done|]. destruct started; [by left|].
  destruct (eqs _ decisionALLOW) eqn:Ha.
  { unfold decideForNode. destruct active; cbn [negb]; [|done]. rewrite (Hpos eq_refl). intros Hd%decide_allows. by right. }
  destruct (eqs _ decisionALLOW_ONCE) eqn:Ho.
  { apply eqs_true in Ho. destruct active; cbn [negb]; [|done]. destruct (_ || _); [intros Hd%decide_allows; by right|]. rewrite Hw, Ho. done. }
  rewrite Hw. intros Hd. by rewrite Hd, eqs_refl in Ha.
Qed.

Lemma listTurn_spec decision n record : record ∈ ac_actions (tablesOf w) ->
  wp (listTurn sqlFails gate decision (gh_clock h n) record) (fun r w' => w' = w /\ forall item, r = Ok (Some item) -> itemFact item) w.
Proof.
  intros Hin. pose proof (rowOK_word _ (ai_rows _ Htables _ Hin)) as Hword. unfold listTurn. destruct (actionUnmarshal _) as [request|] eqn:Hreq; [|by apply wp_fail].
  destruct (decisionUnmarshal _) as [committed|] eqn:Hu; [|by apply wp_fail]. wp_step. eapply wp_gateDatabase; [apply readExecution_spec|].
  intros [execution|e] Hx; wp_step; [|done]. specialize (Hx _ eq_refl). wp_step. eapply wp_mono; [apply posture_spec|]. intros r w' [-> Hp].
  destruct r as [[posture active]|e]; wp_step; [|done]. destruct (parseNano _) as [deadline|] eqn:Hd; [|by apply wp_fail].
  unfold gate_posture. do 6 wp_step. destruct (_ && _); [by apply wp_ret|]. apply wp_ret. split; [done|]. intros item [= <-] Ha.
  exists record. split_and!; [done..|]. apply effective_allows in Ha as [Hs|[Hact Hpn]]; [left; congruence| |done|done|].
  - right. exists n, request, deadline. split_and!; [done..| |exact Hpn|apply heldPosture_fresh, Hpn]. by apply (Hp posture active).
  - intros Hact. by apply (Hp posture active).
Qed.

Lemma listLoop_spec decision limit n records : forall found, (forall r, r ∈ records -> r ∈ ac_actions (tablesOf w)) -> (forall i, i ∈ found -> itemFact i) ->
  wp (listLoop sqlFails gate decision limit (gh_clock h n) found records) (fun r w' => w' = w /\ forall l i, r = Ok l -> i ∈ l -> itemFact i) w.
Proof.
  induction records as [|record records IH]; intros found Hrec Hfound; simpl; [apply wp_ret; split; [done|by intros l i [= <-]; apply Hfound]|].
  wp_step. eapply wp_mono; [apply listTurn_spec, Hrec; left|]. intros r w' [-> Hi]. destruct r as [[item|]|e]; wp_step; [| |done].
  - assert (forall i, i ∈ found ++ [item] -> itemFact i) as Hf.
    { intros i [Hx| ->%list_elem_of_singleton]%elem_of_app; [by apply Hfound|by apply Hi]. }
    destruct (_ =? _); [apply wp_ret; split; [done|by intros l i [= <-]; apply Hf]|]. apply IH; [set_solver|done].
  - apply IH; [set_solver|done].
Qed.

Lemma list_post decision limit : posts (DoList h gate decision limit) (fun l _ => forall i, i ∈ l -> itemFact i).
Proof.
  unfold DoList, actionGate_list. wp_step. eapply wp_gateDatabase; [apply listActions_spec|]. intros [records|e] Hr; wp_step; [|by apply callPost_refl].
  do 3 wp_step. eapply wp_mono; [apply listLoop_spec; [|set_solver]|]. { intros r. by apply Hr. }
  intros r w' [-> Hl]. apply callPost_refl. intros l -> i. by apply Hl.
Qed.

(** *** Posture reports *)

(** A posture that is held was held before, or is this report, of an active
    node; one that is protected rests on evidence that outlives it. *)
Definition provenPosture (report held : postureReport) : Prop :=
  exists n u until, Report_ValidUntil held = formatNano u /\ u <= until /\
    boundEvidence checkMessage validateOpaqueProtobuf wireSize gate report (gh_clock h n) (ac_core (tablesOf w)) until.

Definition reportPost (report : postureReport) (r : result unit) (w' : gateWorld) : Prop :=
  opPost service w w' /\ forall nodeID held, gw_postures w' !! nodeID = Some held ->
    gw_postures w !! nodeID = Some held \/
    nodeID = Report_NodeID report /\ nodeActiveIn nodeID (tablesOf w) /\ (Report_State held = "PROTECTED"%string -> provenPosture report held).

Lemma reportPost_kept report r w' : opPost service w w' -> kept w w' -> reportPost report r w'.
Proof. intros Hp [Hk _]. split; [done|]. rewrite Hk. by left. Qed.
Lemma reportPost_refl report r : reportPost report r w.
Proof. apply reportPost_kept; [by eapply gatePost_refl|done]. Qed.

Lemma node_spec nodeID (Q : result Node -> gateWorld -> Prop) : (forall r, (forall node, r = Ok node -> db_nodes (ac_core (tablesOf w)) !! nodeID = Some node) -> Q r w) ->
  wp (database (zoom ac_core setActionCore (GetNode sqlFails nodeID))) Q w.
Proof. intros HQ. eapply wp_gateDatabase; [eapply wp_actionCore, getNode_spec|]. intros r Hr. by apply HQ. Qed.

Lemma commit_post actor report held snapshot : Report_NodeID held = Report_NodeID report -> (Report_State held = "PROTECTED"%string -> provenPosture report held) ->
  wp (commitReport sqlFails (host_sysFails (gh_audit h)) (host_torn (gh_audit h)) (host_contention (gh_audit h)) (host_fsyncLinks (gh_audit h))
    (host_wall (gh_audit h)) (host_clock (gh_audit h)) (host_newID (gh_audit h)) marshalDetails service ctx actor held snapshot) (reportPost report) w.
Proof.
  intros Hid Hproven. unfold commitReport. do 2 wp_step. apply node_spec. intros r Hn. wp_step.
  destruct (negb _) eqn:Hact; [apply wp_fail, reportPost_refl|]. apply negb_false_iff in Hact. destruct r as [node|e]; [|done]. apply eqs_true in Hact.
  do 3 wp_step. set (existing := gw_postures w !! _). destruct (match existing with Some _ => _ | None => false end); [apply wp_fail, reportPost_refl|].
  destruct (match existing with Some _ => _ | None => false end).
  { destruct (match existing with Some _ => _ | None => false end); [apply wp_ret, reportPost_refl|apply wp_fail, reportPost_refl]. }
  wp_step. eapply wp_mono; [eapply (gateAppend_op h keys w service ctx _ _ eq (PostureReported (Report_NodeID held))); try done|].
  - apply AuditEntryMutation_audited.
  - intros d' <-. apply ac_posture.
  - intros r w' (Hp & Hkept & _). destruct r as [entry|e]; wp_step; [|by apply reportPost_kept]. do 5 wp_step.
    destruct (ApplySnapshot _ _) as [[findings transitions]|e]; wp_step; [|by apply reportPost_kept]. apply wp_mod. split; [by destruct Hp|].
    intros nodeID x. simpl. rewrite lookup_insert. case_decide as Heq; [|destruct Hkept as [-> _]; by left]. intros [= <-]. right. subst nodeID.
    split_and!; [done| |done]. exists node. split; [by apply Hn|done].
Qed.

Lemma stateName_protected state : protectionStateName state = "PROTECTED"%string -> state = StateProtected.
Proof.
  unfold protectionStateName. destruct (state =? 0); [done|]. destruct (state =? StateProtected) eqn:Hs; [by apply Z.eqb_eq in Hs|].
  repeat match goal with |- context [if ?b then _ else _] => destruct b end; done.
Qed.

Lemma reportUntil_proof report s p : IsZero (Proof_validUntil p) = false -> reportUntil report s (Some p) <= Proof_validUntil p.
Proof. intros Hz. unfold reportUntil. rewrite Hz. apply earlier_le. Qed.

Lemma report_post caller report : (forall n, zeroTime <= gh_clock h n) -> wp (DoReport h gate service ctx caller report) (reportPost report) w.
Proof.
  intros Hclock. unfold DoReport, reportPosture. do 3 wp_step. set (t := gh_clock h _). do 2 wp_step.
  destruct (validatePostureReport _ _ _) as [[]|]; wp_step; [|apply reportPost_refl]. do 2 wp_step. apply node_spec. intros r _. wp_step.
  destruct r as [node|e]; [|apply wp_fail, reportPost_refl]. destruct (negb _); [apply wp_fail, reportPost_refl|].
  destruct (eqs _ provenanceUnknown); [apply wp_fail, reportPost_refl|]. destruct (_ && _); [apply wp_fail, reportPost_refl|].
  set (protected := eqs (Report_State report) "PROTECTED"). wp_step.
  eapply (wp_mono _ (fun r w' => w' = w /\ forall proof, r = Ok proof -> if protected then exists p, proof = Some p /\
    boundEvidence checkMessage validateOpaqueProtobuf wireSize gate report t (ac_core (tablesOf w)) (Proof_validUntil p) else proof = None)).
  { destruct protected; [|apply wp_ret; split; [done|by intros ? [= <-]]]. wp_step. eapply wp_mono; [apply evidence_spec|].
    intros r w' [-> Hr]. destruct r as [p|e]; wp_step; [|done]. apply wp_ret. split; [done|]. intros ? [= <-]. exists p. auto. }
  intros r w' [-> Hproof]. destruct r as [proof|e]; wp_step; [|apply reportPost_refl]. specialize (Hproof _ eq_refl). do 2 wp_step.
  destruct (Posture_Evaluate _ _ _) as [snapshot|e]; wp_step; [|apply reportPost_refl].
  destruct (negb _) eqn:Hcons; [apply wp_fail, reportPost_refl|]. apply negb_false_iff, eqb_prop in Hcons. apply commit_post; [done|].
  simpl. intros Hs%stateName_protected. rewrite Hs, Z.eqb_refl in Hcons. rewrite <- Hcons in Hproof. destruct Hproof as (p & -> & Hb).
  exists n, (reportUntil report snapshot (Some p)), (Proof_validUntil p). split_and!; [done| |done]. apply reportUntil_proof.
  apply not_true_iff_false. unfold IsZero. intros Hz%Z.eqb_eq. pose proof (be_until _ _ _ _ _ _ _ _ Hb). specialize (Hclock n). unfold t in *. lia.
Qed.

End Calls.
(** ** Calls *)

Inductive actionCall : Type :=
| EvaluateCall (caller : option principal) (request : secureActionRequest)
| AuthorizeCall (caller : option principal) (actionID : string) (request : authorizeRequest)
| LifecycleCall (caller : option principal) (actionID : string) (request : auditEventRequest)
| ListCall (decision : string) (limit : Z)
| ReportCall (caller : option principal) (report : postureReport).

Inductive actionAnswer : Type :=
| AnswersDecision (x : reply decisionView)
| AnswersStatus (x : reply unit)
| AnswersList (l : list secureActionListItem)
| AnswersNothing.

Definition runAction (h : gateHost) gate service ctx (c : actionCall) : M gateWorld actionAnswer :=
  match c with
  | EvaluateCall caller request => let! x := DoEvaluate h gate service ctx caller request in retM (AnswersDecision x)
  | AuthorizeCall caller actionID request => let! x := DoAuthorize h gate service ctx caller actionID request in retM (AnswersDecision x)
  | LifecycleCall caller actionID request => let! x := DoLifecycle h gate service ctx caller actionID request in retM (AnswersStatus x)
  | ListCall decision limit => let! x := DoList h gate decision limit in retM (AnswersList x)
  | ReportCall caller report => run! DoReport h gate service ctx caller report in retM AnswersNothing
  end.

Lemma wp_answer {A B} (m : M gateWorld A) (f : A -> B) (P : gateWorld -> Prop) w : wp m (fun _ w' => P w') w -> wp (let! x := m in retM (f x)) (fun _ w' => P w') w.
Proof. intros Hm. wp_step. eapply wp_mono; [exact Hm|]. intros [x|e] w' Hp; wp_step; [by apply wp_ret|done]. Qed.

(** Every call makes one change with its entry, or none. *)
Lemma call_opPost h keys (w : gateWorld) service ctx gate c : years (gh_audit h) -> (forall n, zeroTime <= gh_clock h n) -> auditInv keys (gw_audit w) ->
  serviceOK keys service -> actionInv (tablesOf w) -> wp (runAction h gate service ctx c) (fun _ w' => opPost service w w') w.
Proof.
  intros Hy Hz Hinv Hs Ht. destruct c; apply wp_answer.
  - eapply wp_mono; [eapply (evaluate_post h keys w service ctx gate); done|]. by intros r w' [Hp _].
  - eapply wp_mono; [eapply (authorize_post h keys w service ctx gate); done|]. by intros r w' [Hp _].
  - eapply wp_mono; [eapply (lifecycle_post h keys w service ctx gate); done|]. by intros r w' [Hp _].
  - eapply wp_mono; [eapply (list_post h keys w service gate); done|]. by intros r w' [Hp _].
  - eapply wp_mono; [eapply (report_post h keys w service ctx gate); done|]. by intros r w' [Hp _].
Qed.

(** ** What the audit log says of the tables *)

Definition entryOf (action id : string) (es : list AuditEntry) : Prop :=
  exists e, e ∈ es /\ Audit_Action e = action /\ Audit_ResourceType e = "secure_action"%string /\ Audit_ResourceID e = id.

(** Every grant and every event of an execution has its entry. *)
Record auditedActions (d : actionDB) (es : list AuditEntry) : Prop := {
  aa_grants : forall r, r ∈ ac_actions d -> SA_Decision r = decisionALLOW_ONCE -> entryOf "secure_action.authorize_once" (SA_ID r) es;
  aa_events : forall e, e ∈ ac_events d -> entryOf ("secure_action." +:+ toLower (AEvent_lifecycle e)) (AEvent_action_id e) es;
}.

Lemma entryOf_prefix action id es es' : es `prefix_of` es' -> entryOf action id es -> entryOf action id es'.
Proof. intros [l ->] (e & He & Hr). exists e. split; [set_solver|done]. Qed.

Lemma freshRow_once r : freshRow r -> SA_Decision r <> decisionALLOW_ONCE.
Proof. intros [Hf _] Ho. rewrite Ho in Hf. vm_compute in Hf. set_solver. Qed.

Lemma swap_audits expected next d es : auditedActions d es -> SA_ID expected = SA_ID next ->
  (SA_Decision next = decisionALLOW_ONCE -> entryOf "secure_action.authorize_once" (SA_ID next) es) ->
  auditedActions (setActions (updateWhere (swappable expected d) (swappedAction next) (ac_actions d)) d) es.
Proof.
  intros [Hg He] Hid Hn. split; [|done]. intros r (x & Hx & ->)%updateWhere_elem. destruct (swappable expected d x) eqn:Hs; [|by apply Hg].
  apply swappable_true in Hs as [Hxid _]. simpl. intros Hd. rewrite Hxid, Hid. by apply Hn.
Qed.

Lemma change_audited d d' c e es : auditedActions d es -> actionChange d d' c -> labelName c = (Audit_Action e, Audit_ResourceType e, Audit_ResourceID e) ->
  auditedActions d' (es ++ [e]).
Proof.
  intros Ha Hch Hname. assert (auditedActions d (es ++ [e])) as Ha'.
  { destruct Ha as [Hg He]. split; intros; (eapply entryOf_prefix; [by eexists|]); auto. }
  assert (forall action id, labelName c = (action, "secure_action"%string, id) -> entryOf action id (es ++ [e])) as Hentry.
  { intros action id Heq. rewrite Heq in Hname. injection Hname as E1 E2 E3. exists e. split_and!; [set_solver|done..]. }
  destruct Hch as [record d d' [_ ->] Hf|expected next released q d d' (Hid & _ & _ & ->) Hf _|expected next d d' (Hid & _ & _ & ->) Hg
    |ev expected nodeID now d d' (record & _ & _ & _ & _ & _ & ->) Hid|nodeID d].
  - destruct Ha' as [Hg He]. split; [|done]. intros r [Hr| ->%list_elem_of_singleton]%elem_of_app Hd; [by apply Hg|]. by apply freshRow_once in Hf.
  - apply swap_audits; [done..|]. intros Hd. by apply freshRow_once in Hf.
  - apply swap_audits; [done..|]. intros _. by apply Hentry.
  - destruct Ha' as [Hg He]. split; simpl.
    + rewrite consumedActions_rows. intros r (x & -> & Hx)%list_elem_of_fmap. pose proof (consumedRow_same record (AEvent_lifecycle ev) now x) as (-> & _).
      destruct (consumedRow_cases record (AEvent_lifecycle ev) now x) as [->|(-> & _)]; simpl; by apply Hg.
    + intros x [Hx| ->%list_elem_of_singleton]%elem_of_app; [by apply He|]. rewrite Hid. by apply Hentry.
  - done.
Qed.

(** ** The life of a deployment *)

(** A call; the revocation of a node, which loses its posture; a restart, which
    loses all; anything that other parts do to the tables of nodes and events;
    and, with the tables as they are, what the audit log lives through. *)
Inductive gateStep : ring * gateWorld -> ring * gateWorld -> Prop :=
| step_action h gate service ctx c keys w n r n' w' : years (gh_audit h) -> (forall m, zeroTime <= gh_clock h m) -> serviceOK keys service ->
    runAction h gate service ctx c (n, w) = (r, (n', w')) -> gateStep (keys, w) (Service_keyring service, w')
| step_revoked nodeID at_ keys w n r n' w' : invalidateNode nodeID at_ (n, w) = (r, (n', w')) -> gateStep (keys, w) (keys, w')
| step_restart findings keys w : gateStep (keys, w) (keys, mkGateWorld (gw_audit w) ∅ findings 0)
| step_core c keys w : gateStep (keys, w) (keys, setGateAudit (setTables (setDomain (setActionCore c (tablesOf w)) (aw_tables (gw_audit w))) (gw_audit w)) w)
| step_log keys keys' w a' : auditStep marshalDetails (keys, gw_audit w) (keys', a') -> core_domain (aw_tables a') = tablesOf w ->
    gateStep (keys, w) (keys', setGateAudit a' w).

Definition gateLives (keys : ring) (w : gateWorld) : Prop :=
  exists keys0 w0 c, auditLives marshalDetails keys0 (gw_audit w0) /\ tablesOf w0 = noActions c /\ rtc gateStep (keys0, w0) (keys, w).

Definition gateInv (x : ring * gateWorld) : Prop :=
  auditInv x.1 (gw_audit x.2) /\ actionInv (tablesOf x.2) /\ auditedActions (tablesOf x.2) (entriesOf x.2).

Lemma opPost_gateInv keys service w w' : gateInv (keys, w) -> opPost service w w' -> gateInv (Service_keyring service, w') /\ laterActions (tablesOf w) (tablesOf w').
Proof.
  intros (Ha & Ht & Hl) [Ha' [Hs|(c & e & Hch & Hes & Hname & _)]]; unfold sameTables in *; unfold gateInv; simpl in *.
  - rewrite Hs. by split_and!.
  - destruct (actionChange_keeps _ _ _ Ht Hch) as [Ht' Hlater]. rewrite Hes. split_and!; [done..| |done]. by eapply change_audited.
Qed.

Lemma gateStep_keeps x y : gateStep x y -> gateInv x -> gateInv y /\ laterActions (tablesOf x.2) (tablesOf y.2).
Proof.
  intros Hstep Hx. destruct Hstep as [h gate service ctx c keys w n r n' w' Hy Hz Hs Hrun|nodeID at_ keys w n r n' w' Hrun|findings keys w|c keys w|keys keys' w a' Hstep Hsame].
  - destruct Hx as (Ha & Ht & Hl). pose proof (wp_run _ _ _ _ _ _ _ (call_opPost h keys w service ctx gate c Hy Hz Ha Hs Ht) Hrun) as Hp.
    eapply opPost_gateInv; [by split_and!|exact Hp].
  - injection Hrun as _ _ <-. done.
  - done.
  - destruct Hx as (Ha & Ht & Hl). split; [|apply laterActions_core]. split_and!; simpl; [by destruct Ha|by apply actionInv_core|by destruct Hl].
  - destruct Hx as (Ha & Ht & Hl). destruct (auditStep_keeps marshalDetails marshal_json _ _ Hstep Ha) as [Ha' Hes]. unfold gateInv. simpl in *. rewrite Hsame.
    split; [|done]. split_and!; [done..|]. destruct Hl as [Hg He]. split; intros; (eapply entryOf_prefix; [exact Hes|]); auto.
Qed.

Lemma gateSteps_keep x y : rtc gateStep x y -> gateInv x -> gateInv y /\ laterActions (tablesOf x.2) (tablesOf y.2).
Proof.
  induction 1 as [x|x y z Hxy _ IH]; intros Hx; [done|]. destruct (gateStep_keeps x y Hxy Hx) as [Hy Hl]. destruct (IH Hy) as [Hz Hl'].
  split; [done|]. by transitivity (tablesOf y.2).
Qed.

Lemma gateLives_inv keys w : gateLives keys w -> gateInv (keys, w).
Proof.
  intros (keys0 & w0 & c & Hlive & Hempty & Hsteps). eapply gateSteps_keep; [exact Hsteps|]. unfold gateInv. simpl. rewrite Hempty.
  split_and!; [by eapply auditLives_inv|apply noActions_inv|]. split; simpl; set_solver.
Qed.

(** ** Theorems *)

(** C17. Every call of the gate, under every schedule of failures, leaves the
    tables as they are or makes exactly one change that the specification
    allows, together with exactly one audit entry, signed by the service, that
    names it; and what is on record of an action stays: events are only added,
    an action keeps its request, and one that has started keeps its row. *)
Theorem actions_refine keys w h gate service ctx c n r n' w' :
  gateLives keys w -> serviceOK keys service -> years (gh_audit h) -> (forall m, zeroTime <= gh_clock h m) ->
  runAction h gate service ctx c (n, w) = (r, (n', w')) ->
  (sameTables w w' \/ changed service w w') /\ laterActions (tablesOf w) (tablesOf w').
Proof.
  intros Hlive Hs Hy Hz Hrun. pose proof (gateLives_inv keys w Hlive) as Hi. pose proof Hi as (Ha & Ht & Hl).
  pose proof (wp_run _ _ _ _ _ _ _ (call_opPost h keys w service ctx gate c Hy Hz Ha Hs Ht) Hrun) as Hp.
  split; [apply Hp|]. by destruct (opPost_gateInv _ _ _ _ Hi Hp) as [_ Hlater].
Qed.

(** C18. An action is executed at most once. When Core has accepted the start of
    its execution, then whatever happens later, calls of any kind, failures,
    revocations and restarts, no start of it is accepted again, and the action
    stays as it was accepted: allowed, or released while its grant held. *)
Theorem execution_once keys w h gate service ctx caller actionID request n x u n1 w1 keys2 w2 h2 gate2 service2 ctx2 caller2 request2 n2 x2 n3 w3 :
  gateLives keys w -> serviceOK keys service -> years (gh_audit h) -> AReq_Lifecycle request = executionStarted ->
  DoLifecycle h gate service ctx caller actionID request (n, w) = (Ok x, (n1, w1)) -> reply_value x = Ok u ->
  rtc gateStep (Service_keyring service, w1) (keys2, w2) ->
  serviceOK keys2 service2 -> years (gh_audit h2) -> AReq_Lifecycle request2 = executionStarted ->
  DoLifecycle h2 gate2 service2 ctx2 caller2 actionID request2 (n2, w2) = (Ok x2, (n3, w3)) ->
  (forall u2, reply_value x2 <> Ok u2) /\
  exists r, r ∈ ac_actions (tablesOf w1) /\ SA_ID r = actionID /\ r ∈ ac_actions (tablesOf w2) /\ executedRow r.
Proof.
  intros Hlive Hs Hy Hstart Hrun Hx Hsteps Hs2 Hy2 Hstart2 Hrun2. pose proof (gateLives_inv keys w Hlive) as Hi. pose proof Hi as (Ha & Ht & Hl).
  destruct (wp_run _ _ _ _ _ _ _ (lifecycle_post h keys w service ctx gate Hy Ha Hs Ht caller actionID request) Hrun) as (Hp & _ & Hf).
  destruct (Hf x eq_refl u Hx Hstart) as (m & record & original & deadline & Hrec & _ & _ & _ & _ & _ & _ & _ & Hst).
  destruct (opPost_gateInv _ _ _ _ Hi Hp) as [Hi1 Hl1]. destruct (gateSteps_keep _ _ Hsteps Hi1) as [Hi2 Hl2]. simpl in Hl2.
  destruct Hi2 as (Ha2 & Ht2 & _). split.
  - intros u2 Hx2. destruct (wp_run _ _ _ _ _ _ _ (lifecycle_post h2 keys2 w2 service2 ctx2 gate2 Hy2 Ha2 Hs2 Ht2 caller2 actionID request2) Hrun2) as (_ & _ & Hf2).
    destruct (Hf2 x2 eq_refl u2 Hx2 Hstart2) as (m2 & record2 & original2 & deadline2 & _ & _ & _ & _ & _ & _ & _ & Hno & _).
    rewrite (startedIn_prefix actionID _ _ (la_events _ _ Hl2) Hst) in Hno. done.
  - apply find_elem in Hrec as [Hin Hid%eqs_true]. destruct (la_rows _ _ Hl1 record Hin) as (r & Hr & (Hrid & _) & _). exists r.
    assert (SA_ID r = actionID) as Hra by congruence. rewrite <- Hra in Hst. destruct (la_rows _ _ Hl2 r Hr) as (r2 & Hr2 & _ & Hfroz). rewrite (Hfroz Hst) in Hr2.
    split_and!; [done..|]. destruct Hi1 as (_ & Ht1 & _). by apply (ai_executed _ Ht1).
Qed.

(** C19. A start that is accepted was authorized at that moment: the caller's
    scope covers the action, its node is active, its deadline has not passed,
    and either its decision is [ALLOW] and would be made again, the node being
    protected under a policy that asks for no consent, or a one-time grant that
    is neither used nor expired was used up in the same transaction. It had not
    started before, and has started now. *)
Theorem start_authorized keys w h gate service ctx caller actionID request n x u n' w' :
  gateLives keys w -> serviceOK keys service -> years (gh_audit h) -> AReq_Lifecycle request = executionStarted ->
  DoLifecycle h gate service ctx caller actionID request (n, w) = (Ok x, (n', w')) -> reply_value x = Ok u ->
  exists m record original deadline,
    actionByID actionID (tablesOf w) = Some record /\ actionUnmarshal (SA_RequestJSON record) = Some original /\
    parseNano (SReq_Deadline original) = Some deadline /\ allowsAction (principalFromContext caller) original = true /\
    gh_clock h m < deadline /\ nodeActiveIn (SReq_NodeID original) (tablesOf w) /\ usableNow w gate record original deadline (gh_clock h m) w' /\
    startedIn actionID (tablesOf w) = false /\ startedIn actionID (tablesOf w') = true.
Proof.
  intros Hlive Hs Hy Hstart Hrun Hx. pose proof (gateLives_inv keys w Hlive) as (Ha & Ht & Hl).
  destruct (wp_run _ _ _ _ _ _ _ (lifecycle_post h keys w service ctx gate Hy Ha Hs Ht caller actionID request) Hrun) as (_ & _ & Hf).
  exact (Hf x eq_refl u Hx Hstart).
Qed.

(** The tables of every living deployment are in order: keys are unique, an
    action has at most one start and at most one end, no end comes before its
    start, every action that started was allowed or released while its grant
    held, a grant that was used belongs to a start and ends within the
    deadline of the request; and the audit log has an entry for every grant,
    and for every event of an execution. *)
Theorem execution_history keys w : gateLives keys w -> actionInv (tablesOf w) /\ auditedActions (tablesOf w) (entriesOf w).
Proof. intros (_ & Ht & Hl)%gateLives_inv. done. Qed.

(** C20. Whenever Core answers [ALLOW] for a request, or lists an action that has
    not started as allowed, at a reading of its clock: the node of the request
    is active and its deadline is ahead; a policy of the configuration that
    asks for no consent lists, by name or by the wildcard, its node,
    application, type, data class, sensitivity and every one of its
    destinations; and Core holds a report of that node that says PROTECTED,
    whose end is ahead and whose observation is no older than the
    configuration allows. *)
Theorem allow_rests_on_posture keys w h gate service ctx : gateLives keys w -> serviceOK keys service -> years (gh_audit h) ->
  (forall caller request n x v n' w', DoEvaluate h gate service ctx caller request (n, w) = (Ok x, (n', w')) -> reply_value x = Ok v ->
    DView_Decision v = decisionALLOW -> allowed h w gate request) /\
  (forall decision limit n l n' w' i, DoList h gate decision limit (n, w) = (Ok l, (n', w')) -> i ∈ l -> itemFact h w gate i).
Proof.
  intros Hlive Hs Hy. pose proof (gateLives_inv keys w Hlive) as (Ha & Ht & Hl). split.
  - intros caller request n x v n' w' Hrun Hx Hv.
    destruct (wp_run _ _ _ _ _ _ _ (evaluate_post h keys w service ctx gate Hy Ha Hs Ht caller request) Hrun) as (_ & _ & Hf). by apply (Hf x eq_refl v).
  - intros decision limit n l n' w' i Hrun Hi.
    destruct (wp_run _ _ _ _ _ _ _ (list_post h keys w service gate Hy Ha Hs Ht decision limit) Hrun) as (_ & _ & Hf). by apply (Hf l eq_refl).
Qed.

(** A one-time authorization that Core answers is on record, unused, of the
    action of the route; its request is in the caller's scope, its node is
    active, the policy allows such grants, and it ends within the deadline. *)
Theorem authorize_grants keys w h gate service ctx caller actionID request n x v n' w' :
  gateLives keys w -> serviceOK keys service -> years (gh_audit h) ->
  DoAuthorize h gate service ctx caller actionID request (n, w) = (Ok x, (n', w')) -> reply_value x = Ok v ->
  PConfig_AllowOneTimeBypass (AGate_protection gate) = true /\ DView_Decision v = decisionALLOW_ONCE /\
  exists r original deadline until, r ∈ ac_actions (tablesOf w') /\ SA_ID r = actionID /\ SA_Decision r = decisionALLOW_ONCE /\ SA_ReleasedAt r = None /\
    SA_BypassExpiresAt r = Some until /\ until <= deadline /\ actionUnmarshal (SA_RequestJSON r) = Some original /\
    parseNano (SReq_Deadline original) = Some deadline /\ nodeActiveIn (SReq_NodeID original) (tablesOf w) /\
    allowsAction (principalFromContext caller) original = true.
Proof.
  intros Hlive Hs Hy Hrun Hx. pose proof (gateLives_inv keys w Hlive) as Hi. pose proof Hi as (Ha & Ht & Hl).
  destruct (wp_run _ _ _ _ _ _ _ (authorize_post h keys w service ctx gate Hy Ha Hs Ht caller actionID request) Hrun) as (Hp & _ & Hf).
  destruct (Hf x eq_refl v Hx) as (r & original & Hr & Hid & Hd & Hrel & Hv & Ho & Hact & Hscope & Hen). split_and!; [done..|].
  destruct (opPost_gateInv _ _ _ _ Hi Hp) as [(_ & Ht' & _) _]. destruct (ai_rows _ Ht' r Hr) as [Hfr|[(_ & _ & Hg & _)|(_ & [t Hrt] & _)]]; [by apply freshRow_once in Hfr| |congruence].
  destruct Hg as (o & deadline & until & Ho' & Hdl & Hby & Hle). rewrite Ho in Ho'. injection Ho' as <-. exists r, original, deadline, until. by split_and!.
Qed.

(** C21. No call makes a posture protected but a report of the node, while it is
    active, with the evidence for it: four stored, verified, fresh events of
    the node that the report names, which show a healthy mesh path with an
    approved exit, a verified DNS path, a policy default route and an outbound
    flow, all bound to one interface and one path; and what is held ends no
    later than any of them. *)
Theorem protected_posture_proven keys w h gate service ctx c n r n' w' nodeID held :
  gateLives keys w -> serviceOK keys service -> years (gh_audit h) -> (forall m, zeroTime <= gh_clock h m) ->
  runAction h gate service ctx c (n, w) = (r, (n', w')) -> gw_postures w' !! nodeID = Some held -> Report_State held = "PROTECTED"%string ->
  gw_postures w !! nodeID = Some held \/
  exists caller report, c = ReportCall caller report /\ nodeID = Report_NodeID report /\ nodeActiveIn nodeID (tablesOf w) /\ provenPosture h w gate report held.
Proof.
  intros Hlive Hs Hy Hz Hrun Hheld Hstate. pose proof (gateLives_inv keys w Hlive) as (Ha & Ht & Hl).
  refine (wp_run _ (fun _ w' => gw_postures w' !! nodeID = Some held -> _) w n r n' w' _ Hrun Hheld). destruct c; apply wp_answer.
  - eapply wp_mono; [eapply (evaluate_post h keys w service ctx gate); done|]. intros r' w2 (_ & [-> _] & _). by left.
  - eapply wp_mono; [eapply (authorize_post h keys w service ctx gate); done|]. intros r' w2 (_ & [-> _] & _). by left.
  - eapply wp_mono; [eapply (lifecycle_post h keys w service ctx gate); done|]. intros r' w2 (_ & [-> _] & _). by left.
  - eapply wp_mono; [eapply (list_post h keys w service gate); done|]. intros r' w2 (_ & [-> _] & _). by left.
  - eapply wp_mono; [eapply (report_post h keys w service ctx gate); done|]. intros r' w2 [_ Hp] Hh.
    destruct (Hp nodeID held Hh) as [?|(-> & Hact & Hproof)]; [by left|]. right. exists caller, report. auto.
Qed.

End Operations.
