(* ===== verification/ActionRuns.v ===== *)
(** * Secure actions: concrete runs

    An encoding for which the laws of [ActionCodec] hold, a node with four
    events as evidence, and runs of the gate: a protected posture, an allowed
    action that starts once, a one-time grant that is used, and a refused
    second start; the witnesses of the theorems. *)

From S2P Require Import Prelude Library Directory Sha256 Digest Contract Probe JournalFile Plan Policy Posture Events EventStore EventIngest EventQueue AgentLoop Gate Findings AuditStore AuditService ActionStore ActionDecisions ActionServer ActionLifecycle PostureReports AuditFacts AuditSpec ActionStoreFacts ReportFacts ActionSpec NanoFacts EventRuns AuditRuns EnrollmentRuns.
From stdpp Require Import base gmap list strings sorting countable pretty.
From Stdlib Require Import ZArith Lia.

Open Scope Z_scope.

(** ** Encodings *)

Definition flatRequest (q : secureActionRequest) : list string * list string :=
  ([SReq_ID q; SReq_ApplicationID q; SReq_NodeID q; SReq_ActionType q; SReq_DataClass q; SReq_Sensitivity q; SReq_Deadline q; SReq_OperationID q], SReq_Destinations q).
Definition deepRequest (x : list string * list string) : option secureActionRequest :=
  match x with
  | ([id; app; node; ty; class; sensitivity; deadline; operation], destinations) =>
      Some (mkSecureAction id app node ty destinations class sensitivity deadline operation)
  | _ => None
  end.

(** The members of a decision that are read back. *)
Definition flatDecision (v : decisionView) : list string * list string * Z :=
  ([DView_Decision v; DView_ActionID v; DView_ExpiresAt v; Meta_EvaluatedAt (DView_Audit v); PView_State (DView_Protection v);
    PView_ObservedAt (DView_Protection v); PView_ValidUntil (DView_Protection v); PView_EvidenceProvenance (DView_Protection v)],
   DView_ReasonCodes v, PView_PolicyRevision (DView_Protection v)).
Definition deepDecision (x : list string * list string * Z) : option decisionView :=
  match x with
  | ([word; action; expires; evaluated; state; observed; until; provenance], reasons, revision) =>
      Some (mkDecisionView word action
        (mkPView state observed until EmptyString None None None None reasons revision EmptyString EmptyString provenance 0) reasons expires EmptyString None None None
        (mkAuditMetadata EmptyString EmptyString revision evaluated EmptyString EmptyString))
  | _ => None
  end.

Definition packedActions : ActionCodec.
Proof.
  refine {| formatNano := fun t => packString (encode t);
            parseNano := fun s => p ← unpackString s; decode p;
            actionMarshal := fun q => Some (packString (encode (flatRequest q)));
            actionUnmarshal := fun s => p ← unpackString s; x ← decode p; deepRequest x;
            decisionMarshal := fun v => Some (packString (encode (flatDecision v)));
            decisionUnmarshal := fun s => p ← unpackString s; x ← decode p; deepDecision x;
            auditEventMarshal := fun q => Some (posPack (encode ([AReq_EventID q; AReq_Lifecycle q; AReq_OccurredAt q; AReq_ActionID q; AReq_Decision q], AReq_ReasonCodes q)));
            payloadMarshal := fun p => posPack (encode (payloadTexts p, Payload_Uses p));
            reportMarshal := fun r => Some (posPack (encode ([Report_NodeID r; Report_State r; Report_ObservedAt r; Report_ValidUntil r], Report_ReasonCodes r))) |}.
  - intros t _. rewrite packString_spec. simpl. apply decode_encode.
  - intros q s _ [= <-]. rewrite packString_spec. simpl. rewrite decode_encode. by destruct q.
  - intros v s v' _ [= <-]. rewrite packString_spec. simpl. rewrite decode_encode. by intros [= <-].
  - intros p q _ _ Heq. apply (f_equal posUnpack) in Heq. rewrite !(proj1 (posPack_spec _)) in Heq. apply (inj encode) in Heq.
    destruct p, q. unfold payloadTexts in Heq. simpl in Heq. by simplify_eq.
Defined.

(** Each kind of observation has one payload. *)
Definition demoObservations : ObservationCodec := {|
  meshUnmarshal := fun b => if bool_decide (b = [1]) then Some (mkMeshPath "path-1" "wireguard" "node-1" "node-2" "exit-1" true true) else None;
  dnsUnmarshal := fun b => if bool_decide (b = [2]) then Some (mkDns ["10.0.0.1"%string] "resolver" true "wg0" "path-1") else None;
  routeUnmarshal := fun b => if bool_decide (b = [3]) then Some (mkRoute "0.0.0.0/0" "wg0" true true) else None;
  flowUnmarshal := fun b => if bool_decide (b = [4]) then Some (mkFlow (Some ("203.0.113.7"%string, EmptyString)) FlowOutbound "wg0" "path-1") else None |}.

Definition actionText (d : actionDetail) : string :=
  match d with
  | ActionText_ s => s
  | ActionTexts l => String.concat "," l
  | ActionNumber n => pretty n
  | ActionMetadata m => String.concat "," (map fst m)
  end.
Definition actionDetails (d : list (string * actionDetail)) : option string :=
  Some ("{" +:+ String.concat ";" (map (fun p => fst p +:+ "=" +:+ actionText (snd p)) d) +:+ "}").

Lemma actionDetails_json d s : actionDetails d = Some s -> s <> EmptyString /\ isSome (@compactJSON packedAudit s) = true.
Proof. unfold actionDetails. intros [= <-]. split; [done|]. simpl. done. Qed.

(** ** A node and its evidence *)

#[local] Existing Instance foldHasher.
#[local] Existing Instance byteEd25519.
#[local] Existing Instance packedAudit.
#[local] Existing Instance byteSignatures.
#[local] Existing Instance packedEvents.
#[local] Existing Instance packedActions.
#[local] Existing Instance demoObservations.

Definition act_now : time := 1750000000 * Second.

Definition act_evidence (name : string) : EventEvidence :=
  mkEventEvidence name "SUPPORTING" "VERIFIED" "LOCAL_SENSOR" "sensor" EmptyString act_now None (Some act_now) (Some (act_now + 30 * Minute)) float32_one
    "INTERNAL" EmptyString "seen" (mkIntegrity "sha256" (repeat 1 32)) EmptyString ∅.
Definition act_event (kind message : string) (payload : Z) : EventEnvelope :=
  let e := unsignedEvent (mkBuilder "deployment-1" "node-1" "boot-1")
    (mkObservation kind act_now "VERIFIED" float32_one "INTERNAL" (Some (message, Some [payload])) [act_evidence "evidence-1"]) payload message [payload] in
  match SignAt noCheck noOpaque e "node-1" node_key act_now with Ok e => e | Err _ => e end.
Definition act_encoded (e : EventEnvelope) : list Z := match EventToProto e with Ok w => default [] (eventMarshal w) | Err _ => [] end.

Definition act_events : list EventEnvelope := Eval vm_compute in
  [act_event "mesh.path_changed" "antiflock.v1.MeshPathObservation" 1; act_event "network.dns_changed" "antiflock.v1.DnsObservation" 2;
   act_event "network.route_changed" "antiflock.v1.RouteObservation" 3; act_event "flow.started" "antiflock.v1.FlowObservation" 4].
Definition act_rows : list eventRow := Eval vm_compute in map (fun e => rowOf (Event_Sequence e) e (act_encoded e)) act_events.
Definition act_node : Node := mkEnrolled "node-1" "edge" "NODE_TYPE_AGENT" "linux" "6.1" NodeActive [] "{}" "CLAIMED" (Public node_key) "PEM" 0 None None 0.
Definition act_core : DB := mkDB act_rows 4 ∅ ∅ {[ "node-1"%string := act_node ]} ∅.

(** ** The gate *)

Definition act_policy (ty : string) (consent : bool) : ProtectedActionPolicyConfig :=
  mkActionPolicy ["node-1"] ["*"] [ty] ["*"] ["*"] ["files.example"] consent.
Definition act_protection : ProtectionConfig := mkProtectionConfig Hour true true (10 * Minute) [act_policy "sync" false; act_policy "export" true].
Definition act_gate : actionGate := mkActionGate "deployment-1" act_protection Hour (repeat 8 32) false.
Definition act_host : gateHost := mkGateHost calm_host (fun _ => act_now + Minute).
Definition act_caller : option principal := Some (mkPrincipal "alice" ["actions"%string] EmptyString EmptyString 0 false).

Definition act_fresh : auditWorld actionDB := mkWorld (mkCore (noActions act_core) noAudit) (mkAnchorFile None None 0) None false.
Definition act_findings : FindingService := mkFindings "deployment-1" ∅.
Definition gworld {A : Type} (x : result A * (nat * gateWorld)) : gateWorld := snd (snd x).

Abbreviation Act := (runAction noCheck noOpaque (fun _ => 100) eqs id demo_manifests actionDetails).
Abbreviation ActStart := (DoLifecycle id actionDetails).
Abbreviation ActAuthorize := (DoAuthorize actionDetails).
#[local] Strategy 1000 [AuditInitialize runAction DoLifecycle DoAuthorize DoEvaluate DoReport].

Definition run_gate := AuditInitialize (D := actionDB) calm_host demo_service Background (0%nat, act_fresh).
Definition gate_open : gateWorld := mkGateWorld (snd (snd run_gate)) ∅ act_findings 0.

Definition act_report : postureReport :=
  mkReport "node-1" "PROTECTED" (formatNano act_now) (formatNano (act_now + 20 * Minute)) "TRUSTED" (Some true) (Some true) (Some true) (Some true) [] 7
    (Event_ID <$> act_events) EmptyString EmptyString float32_one.
Definition call_report : actionCall := ReportCall act_caller act_report.
Definition run_report := Act act_host act_gate demo_service Background call_report (1000%nat, gate_open).

Definition act_request (id ty operation : string) : secureActionRequest :=
  mkSecureAction id "backup" "node-1" ty ["files.example"%string] "documents" "SENSITIVITY_INTERNAL" (formatNano (act_now + Hour)) operation.
Definition call_sync : actionCall := EvaluateCall act_caller (act_request "action-1" "sync" "operation-1").
Definition run_sync := Act act_host act_gate demo_service Background call_sync (1500%nat, gworld run_report).
Definition call_export : actionCall := EvaluateCall act_caller (act_request "action-2" "export" "operation-2").
Definition run_export := Act act_host act_gate demo_service Background call_export (2000%nat, gworld run_sync).

Definition act_authorize : authorizeRequest :=
  mkAuthorize "action-2" "operation-2" ["files.example"%string] (formatNano (act_now + 5 * Minute)) "USER_EXPLICIT".
Definition run_grant := ActAuthorize act_host act_gate demo_service Background act_caller "action-2" act_authorize (2500%nat, gworld run_export).

Definition act_event_request (event action operation decision : string) : auditEventRequest :=
  mkAuditEvent event executionStarted (formatNano (act_now + Minute)) action action decision operation 7 ["SDK-STARTED"%string] [].
Definition use_request : auditEventRequest := act_event_request "event-1" "action-2" "operation-2" "ALLOW_ONCE".
Definition run_use := ActStart act_host act_gate demo_service Background act_caller "action-2" use_request
  (3000%nat, gworld run_grant).
Definition run_start := ActStart act_host act_gate demo_service Background act_caller "action-1" (act_event_request "event-2" "action-1" "operation-1" "ALLOW")
  (3500%nat, gworld run_use).
(** Core is started again, and the grant is offered a second time. *)
Definition gate_restarted : gateWorld := mkGateWorld (gw_audit (gworld run_use)) ∅ act_findings 0.
Definition again_request : auditEventRequest := act_event_request "event-3" "action-2" "operation-2" "ALLOW_ONCE".
Definition run_reuse := ActStart act_host act_gate demo_service Background act_caller "action-2" again_request (4000%nat, gate_restarted).

Definition answerStatus (r : result actionAnswer) : Z * string :=
  match r with
  | Ok (AnswersDecision x) => (reply_status x, match reply_value x with Ok v => DView_Decision v | Err _ => EmptyString end)
  | Ok (AnswersStatus x) => (reply_status x, EmptyString)
  | Ok _ => (0, EmptyString)
  | Err _ => (-1, EmptyString)
  end.
Definition replyStatus {A : Type} (r : result (reply A)) : Z := match r with Ok x => reply_status x | Err _ => -1 end.
Definition gate_summary (w : gateWorld) : list (string * string * bool) * Z * Z :=
  let d := core_domain (aw_tables (gw_audit w)) in
  ((fun r => (SA_ID r, SA_Decision r, isSome (SA_ReleasedAt r))) <$> ac_actions d, len (ac_events d), len (aud_entries (core_audit (aw_tables (gw_audit w))))).

(** A protected posture; one action is allowed and one asks for consent; the
    grant is used once, and a second start of it is refused. *)
Example gate_runs :
  Report_State <$> (gw_postures (gworld run_report) !! "node-1"%string) = Some "PROTECTED"%string /\
  map answerStatus [fst run_sync; fst run_export] = [(201, "ALLOW"); (201, "REQUIRE_CONSENT")]%string /\
  replyStatus (fst run_grant) = 200 /\ map replyStatus [fst run_use; fst run_start; fst run_reuse] = [204; 204; 409] /\
  gate_summary (gworld run_start) = ([("action-1", "ALLOW", false); ("action-2", "ALLOW_ONCE", true)]%string, 2, 6).
Proof. vm_compute. done. Qed.

Lemma gate_eta {A} (x : result A * (nat * gateWorld)) : x = (fst x, (fst (snd x), gworld x)).
Proof. by destruct x as [r [n w]]. Qed.

Definition gateOk {A : Type} (x : result A * (nat * gateWorld)) : bool := is_ok (fst x).
Definition replyOk {A : Type} (x : result (reply A) * (nat * gateWorld)) : bool := match fst x with Ok x => is_ok (reply_value x) | Err _ => false end.
Definition theReply {A : Type} (x : result (reply A) * (nat * gateWorld)) : reply A := match fst x with Ok y => y | Err e => mkReply 0 (Err e) end.

Lemma reply_eta {A} (x : result (reply A) * (nat * gateWorld)) : gateOk x = true -> x = (Ok (theReply x), (fst (snd x), gworld x)).
Proof. unfold gateOk, theReply. destruct x as [[y|] [n w]]; [done|discriminate]. Qed.

Lemma reply_value_ok {A} (x : result (reply A) * (nat * gateWorld)) : replyOk x = true -> exists v, reply_value (theReply x) = Ok v.
Proof. unfold replyOk, theReply. destruct x as [[y|] [n w]]; [|discriminate]. simpl. destruct (reply_value y) as [v|]; [by exists v|discriminate]. Qed.

(** ** The deployment of the runs lives *)

Abbreviation GateLives := (gateLives noCheck noOpaque (fun _ => 100) eqs id demo_manifests actionDetails).
Abbreviation GateSteps := (gateStep noCheck noOpaque (fun _ => 100) eqs id demo_manifests actionDetails).
Abbreviation keys := (Service_keyring demo_service).

Lemma act_serviceOK : serviceOK keys demo_service.
Proof. apply (serviceOK_ring ∅), demo_service_ok. Qed.
Lemma act_years : years (gh_audit act_host).
Proof. apply demo_years. Qed.
Lemma act_clock n : zeroTime <= gh_clock act_host n.
Proof. unfold act_host, act_now, zeroTime, Minute, Second. simpl. lia. Qed.

Lemma gate_opens : auditLives actionDetails keys (gw_audit gate_open).
Proof.
  exists calm_host, demo_service, Background, act_fresh, 0%nat, (fst (snd run_gate)), (snd (snd run_gate)).
  split_and!; [apply demo_years|done|apply demo_service_ok|done| |apply rtc_refl].
  change (run_gate = (Ok tt, (fst (snd run_gate), snd (snd run_gate)))).
  assert (is_ok (fst run_gate) = true) as Hr by (vm_compute; reflexivity). destruct run_gate as [[[]|] [n w]]; [reflexivity|discriminate].
Qed.

Lemma act_step c n w x : x = Act act_host act_gate demo_service Background c (n, w) -> GateSteps (keys, w) (keys, gworld x).
Proof.
  intros Hx. eapply (step_action _ _ _ _ _ _ _ act_host act_gate demo_service Background c keys w n); [apply act_years|apply act_clock|apply act_serviceOK|].
  rewrite <- Hx. apply gate_eta.
Qed.

Lemma answer_world {A B} (m : M gateWorld A) (f : A -> B) n w : gworld ((let! x := m in retM (f x)) (n, w)) = gworld (m (n, w)).
Proof. unfold bindM. by destruct (m (n, w)) as [[a|e] [n' w']]. Qed.

Lemma grant_step q n w x : x = ActAuthorize act_host act_gate demo_service Background act_caller "action-2" q (n, w) -> GateSteps (keys, w) (keys, gworld x).
Proof.
  intros ->. rewrite <- (answer_world _ AnswersDecision). exact (act_step (AuthorizeCall act_caller "action-2" q) n w _ eq_refl).
Qed.
Lemma start_step action q n w x : x = ActStart act_host act_gate demo_service Background act_caller action q (n, w) -> GateSteps (keys, w) (keys, gworld x).
Proof.
  intros ->. rewrite <- (answer_world _ AnswersStatus). exact (act_step (LifecycleCall act_caller action q) n w _ eq_refl).
Qed.

Lemma gate_lives_from w : rtc GateSteps (keys, gate_open) (keys, w) -> GateLives keys w.
Proof. intros Hs. exists keys, gate_open, act_core. split_and!; [apply gate_opens| |exact Hs]. vm_compute. reflexivity. Qed.

Lemma gate_lives_step w w' : GateLives keys w -> GateSteps (keys, w) (keys, w') -> GateLives keys w'.
Proof. intros (k0 & w0 & c & Ha & Ht & Hs) Hstep. exists k0, w0, c. split_and!; [done..|]. by eapply rtc_r. Qed.

Lemma open_gate_lives : GateLives keys gate_open.
Proof. apply gate_lives_from, rtc_refl. Qed.
Lemma report_lives : GateLives keys (gworld run_report).
Proof. eapply gate_lives_step; [apply open_gate_lives|]. apply (act_step call_report 1000 _ run_report). reflexivity. Qed.
Lemma sync_lives : GateLives keys (gworld run_sync).
Proof. eapply gate_lives_step; [apply report_lives|]. apply (act_step call_sync 1500 _ run_sync). reflexivity. Qed.
Lemma export_lives : GateLives keys (gworld run_export).
Proof. eapply gate_lives_step; [apply sync_lives|]. apply (act_step call_export 2000 _ run_export). reflexivity. Qed.
Lemma grant_lives : GateLives keys (gworld run_grant).
Proof. eapply gate_lives_step; [apply export_lives|]. apply (grant_step act_authorize 2500 _ run_grant). reflexivity. Qed.
Lemma use_lives : GateLives keys (gworld run_use).
Proof. eapply gate_lives_step; [apply grant_lives|]. apply (start_step "action-2" use_request 3000 _ run_use). reflexivity. Qed.

(** ** Witnesses *)

Lemma actions_refine_witness :
  (sameTables (gworld run_report) (gworld run_sync) \/ changed id demo_service (gworld run_report) (gworld run_sync)) /\
  laterActions (gateTables (gworld run_report)) (gateTables (gworld run_sync)).
Proof.
  apply (actions_refine noCheck noOpaque (fun _ => 100) eqs id demo_manifests actionDetails actionDetails_json keys (gworld run_report) act_host act_gate demo_service
    Background call_sync 1500%nat (fst run_sync) (fst (snd run_sync)) (gworld run_sync)).
  - apply report_lives.
  - apply act_serviceOK.
  - apply act_years.
  - apply act_clock.
  - unfold run_sync. apply gate_eta.
Defined.

Lemma execution_once_witness : (forall u, reply_value (theReply run_reuse) <> Ok u) /\
  exists r, r ∈ ac_actions (gateTables (gworld run_use)) /\ SA_ID r = "action-2"%string /\ r ∈ ac_actions (gateTables gate_restarted) /\ executedRow r.
Proof.
  destruct (reply_value_ok run_use) as [u Hu]; [vm_compute; reflexivity|].
  apply (execution_once noCheck noOpaque (fun _ => 100) eqs id demo_manifests actionDetails actionDetails_json keys (gworld run_grant) act_host act_gate demo_service Background
    act_caller "action-2" use_request 3000%nat (theReply run_use) u (fst (snd run_use)) (gworld run_use) keys gate_restarted
    act_host act_gate demo_service Background act_caller again_request 4000%nat (theReply run_reuse) (fst (snd run_reuse)) (gworld run_reuse)).
  - apply grant_lives.
  - apply act_serviceOK.
  - apply act_years.
  - reflexivity.
  - unfold run_use. apply reply_eta. vm_compute. reflexivity.
  - exact Hu.
  - apply rtc_once. apply step_restart.
  - apply act_serviceOK.
  - apply act_years.
  - reflexivity.
  - unfold run_reuse. apply reply_eta. vm_compute. reflexivity.
Defined.

Lemma start_authorized_witness : exists m record original deadline,
  actionByID "action-2" (gateTables (gworld run_grant)) = Some record /\ actionUnmarshal (SA_RequestJSON record) = Some original /\
  parseNano (SReq_Deadline original) = Some deadline /\ allowsAction (principalFromContext act_caller) original = true /\
  gh_clock act_host m < deadline /\ nodeActiveIn (SReq_NodeID original) (gateTables (gworld run_grant)) /\
  usableNow (gworld run_grant) act_gate record original deadline (gh_clock act_host m) (gworld run_use) /\
  startedIn "action-2" (gateTables (gworld run_grant)) = false /\ startedIn "action-2" (gateTables (gworld run_use)) = true.
Proof.
  destruct (reply_value_ok run_use) as [u Hu]; [vm_compute; reflexivity|].
  apply (start_authorized noCheck noOpaque (fun _ => 100) eqs id demo_manifests actionDetails actionDetails_json keys (gworld run_grant) act_host act_gate demo_service Background
    act_caller "action-2" use_request 3000%nat (theReply run_use) u (fst (snd run_use)) (gworld run_use)).
  - apply grant_lives.
  - apply act_serviceOK.
  - apply act_years.
  - reflexivity.
  - unfold run_use. apply reply_eta. vm_compute. reflexivity.
  - exact Hu.
Defined.

Lemma execution_history_witness : actionInv (gateTables (gworld run_use)) /\
  auditedActions id (gateTables (gworld run_use)) (aud_entries (core_audit (aw_tables (gw_audit (gworld run_use))))).
Proof.
  apply (execution_history noCheck noOpaque (fun _ => 100) eqs id demo_manifests actionDetails actionDetails_json keys (gworld run_use)). apply use_lives.
Defined.

Definition run_sync_reply := DoEvaluate actionDetails act_host act_gate demo_service Background act_caller (act_request "action-1" "sync" "operation-1") (1500%nat, gworld run_report).
Definition syncDecision : string := match reply_value (theReply run_sync_reply) with Ok v => DView_Decision v | Err _ => EmptyString end.

Lemma allow_rests_on_posture_witness : allowed act_host (gworld run_report) act_gate (act_request "action-1" "sync" "operation-1").
Proof.
  destruct (allow_rests_on_posture noCheck noOpaque (fun _ => 100) eqs id demo_manifests actionDetails actionDetails_json keys (gworld run_report) act_host act_gate demo_service
    Background report_lives act_serviceOK act_years) as [Heval _].
  assert (gateOk run_sync_reply = true /\ replyOk run_sync_reply = true /\ eqs syncDecision decisionALLOW = true) as (Hok & Hrep & Hword) by (vm_compute; done).
  destruct (reply_value_ok run_sync_reply Hrep) as [v Hv].
  apply (Heval act_caller (act_request "action-1" "sync" "operation-1") 1500%nat (theReply run_sync_reply) v (fst (snd run_sync_reply)) (gworld run_sync_reply)).
  - exact (reply_eta run_sync_reply Hok).
  - exact Hv.
  - unfold syncDecision in Hword. rewrite Hv in Hword. by apply eqs_true.
Defined.

Lemma authorize_grants_witness : exists r until, r ∈ ac_actions (gateTables (gworld run_grant)) /\ SA_ID r = "action-2"%string /\
  SA_Decision r = decisionALLOW_ONCE /\ SA_ReleasedAt r = None /\ SA_BypassExpiresAt r = Some until.
Proof.
  destruct (reply_value_ok run_grant) as [v Hv]; [vm_compute; reflexivity|].
  destruct (authorize_grants noCheck noOpaque (fun _ => 100) eqs id demo_manifests actionDetails actionDetails_json keys (gworld run_export) act_host act_gate demo_service Background
    act_caller "action-2" act_authorize 2500%nat (theReply run_grant) v (fst (snd run_grant)) (gworld run_grant)) as (_ & _ & r & original & deadline & until & Hr & Hid & Hd & Hrel & Hu & _).
  - apply export_lives.
  - apply act_serviceOK.
  - apply act_years.
  - unfold run_grant. apply reply_eta. vm_compute. reflexivity.
  - exact Hv.
  - exists r, until. exact (conj Hr (conj Hid (conj Hd (conj Hrel Hu)))).
Defined.

Definition heldReport (w : gateWorld) : postureReport := default act_report (gw_postures w !! "node-1"%string).

Lemma protected_posture_proven_witness : gw_postures gate_open !! "node-1"%string = Some (heldReport (gworld run_report)) \/
  exists caller report, call_report = ReportCall caller report /\ "node-1"%string = Report_NodeID report /\ nodeActiveIn "node-1" (gateTables gate_open) /\
    provenPosture noCheck noOpaque (fun _ => 100) act_host gate_open act_gate report (heldReport (gworld run_report)).
Proof.
  apply (protected_posture_proven noCheck noOpaque (fun _ => 100) eqs id demo_manifests actionDetails actionDetails_json keys gate_open act_host act_gate demo_service Background
    call_report 1000%nat (fst run_report) (fst (snd run_report)) (gworld run_report)).
  - apply open_gate_lives.
  - apply act_serviceOK.
  - apply act_years.
  - apply act_clock.
  - unfold run_report. apply gate_eta.
  - unfold heldReport. apply isSome_default. vm_compute. reflexivity.
  - vm_compute. reflexivity.
Defined.

(** ** Findings *)

(** A node without its approved exit, and the same node restored. *)
Definition exposed_report : postureReport :=
  mkReport "node-1" "EXPOSED" (formatNano act_now) (formatNano (act_now + 20 * Minute)) "UNTRUSTED" (Some true) (Some false) (Some true) (Some true) [] 7 []
    EmptyString EmptyString float32_one.
Definition snapshotOf (r : postureReport) : result ProtectionSnapshot := Posture_Evaluate formatNano Hour (reportInput act_gate r ClassVerified).
Definition exposed_snapshot : ProtectionSnapshot := Eval vm_compute in
  match snapshotOf exposed_report with Ok s => s | Err _ => mkProtection EmptyString EmptyString EmptyString EmptyString 0 0 0 None None [] 0 EmptyString 0 end.
Definition restored_snapshot : ProtectionSnapshot := Eval vm_compute in
  match snapshotOf act_report with Ok s => s | Err _ => exposed_snapshot end.
Definition findingsAfter (service : FindingService) (s : ProtectionSnapshot) : FindingService * list FindingTransition :=
  match ApplySnapshot service (Some s) with Ok x => x | Err _ => (service, []) end.
Definition opened := findingsAfter act_findings exposed_snapshot.
Definition restored := findingsAfter (fst opened) restored_snapshot.

(** The finding is opened, and resolved when the node is protected again. *)
Example findings_run :
  map Transition_ToStatus (snd opened) = [FindingOpen] /\ map Transition_ToStatus (snd restored) = [FindingResolved] /\
  map (fun p => Finding_Status (snd p)) (map_to_list (Findings_byID (fst restored))) = [FindingResolved].
Proof. vm_compute. done. Qed.

Lemma snapshot_findings_witness : goodFindings (Findings_byID (fst restored)) /\ NoDup (Transition_FindingId <$> snd restored).
Proof.
  assert (forall service s, is_ok (ApplySnapshot service (Some s)) = true -> ApplySnapshot service (Some s) = Ok (fst (findingsAfter service s), snd (findingsAfter service s))) as Heta.
  { intros service s. unfold findingsAfter. destruct (ApplySnapshot _ _) as [[f t]|]; [done|discriminate]. }
  assert (goodFindings (Findings_byID (fst opened))) as Hopened.
  { apply (snapshot_findings act_findings exposed_snapshot (fst opened) (snd opened)); [apply map_Forall_empty|]. apply Heta. vm_compute. reflexivity. }
  destruct (snapshot_findings (fst opened) restored_snapshot (fst restored) (snd restored)) as (Hgood & _ & _ & Hnodup & _); [exact Hopened| |exact (conj Hgood Hnodup)].
  apply Heta. vm_compute. reflexivity.
Defined.
